(* ===== verification/_CoqProject ===== *)
-Q . S2P
Prelude.v
WeakestPre.v
PyFloat.v
Json.v
Codec.v
Tables.v
Paging.v
Broker.v
Lifecycle.v
ProductCurrentness.v
Contracts.v
Tracker.v
WorkEvents.v
WorkRelations.v
TrackerSystem.v
PriorityClaims.v
WorkSearch.v
EventReads.v
HumanReviews.v
Controller.v
Grants.v
GrantState.v
MutationEffect.v
PriorityService.v
PriorityContext.v
Activation.v
WorkState.v
Chains.v
HumanTrajectory.v
OutcomeState.v
Mailboxes.v
WorkPolicy.v
Messages.v
MessageReads.v
MessageSend.v
Store.v
PullRequests.v
Gateways.v
GatewayRuns.v
GatewayAnswers.v
TaskRuns.v
DurableCapture.v
ReviewModels.v
Reviews.v
ReviewService.v
ReviewFacts.v
ReviewSystem.v
Implementation.v
Threads.v
ProviderGateways.v
ProviderSystem.v
ProviderSafety.v
ProviderSteps.v
ProviderRuns.v
ProviderClaims.v
