(* ===== verification/Prelude.v ===== *)
(** * Switchstand: a verification library

    Switchstand coordinates software agents around tracked work.  Agents hold
    grants, ask a host broker for execution leases, read and change work
    through a controller, exchange messages between named mailboxes, and
    leave durable records - required results, activation obligations, outcome
    snapshots, reviews, task runs - that other agents rely on.  This library
    models that core and proves what makes it trustworthy: nothing is granted
    or sent twice, histories are linear and readable, and an answer that claims
    an effect is backed by one.

    ** Files, and the code they model (all under src/src/switchstand)

    - [Prelude], [PyFloat], [Json], [Codec], [Tables], [Paging]: Python's
      exceptions as [res] and a state and error monad [M] with [transaction]
      and [catch]; binary64 floats; [json.dumps], SHA-256, SHA-1 and [uuid5],
      executable; URL-safe base64 and [json.loads], with the round trips of
      what the code writes; relational tables as lists of rows; keyset
      pagination.
    - [Broker] (agent_broker.py): the lease ledger.  One operation is one
      step on [Disk].
    - [Lifecycle] (lifecycle.py): required-result obligations with optimistic
      replacement; a service call is a read and a later write.
    - [ProductCurrentness] (product_currentness.py): reconciliation of
      evidence read from a changing world.
    - [Contracts], [Controller] (contracts.py, core.py): the work models and
      the provider-neutral controller, against the interface [WorkEnv].
    - [Tracker], [WorkEvents], [WorkRelations] (tracker/work.py, events.py,
      relations.py): the tables of canonical work with their repositories,
      on one state [TrackerDB].  [TrackerSystem] runs their operations as one
      system of calls; [WorkSearch] is about the search of [Tracker] and
      [EventReads] (tracker/event_reads.py) the reads above, with other calls
      between their statements.
    - [PriorityClaims], [PriorityService], [PriorityContext]
      (priority_claims.py, priority_claim_service.py, priority_context.py):
      claims about what matters, on the tables of the tracker; the service
      that lets humans and agents record them; the projection that shows them
      with what is known.
    - [HumanReviews] (human_reviews.py): what a human approved, and the line of
      approved baselines of a package.  [HumanTrajectory]
      (human_trajectory.py): what a human directed, as revisions on the
      digest chain of [Chains].
    - [WorkPolicy] (tracker/policy.py): the rules on the state of work.
    - [Grants], [GrantState] (grants.py, grant_state.py): grants, protected
      requests, outcomes; the grant and effect-intent tables, and the
      interface [EffectJournal] they discharge.
    - [MutationEffect] (tracker/mutation_effect.py): the lifecycle of a
      journaled mutation, proved against [EffectJournal].
    - [Activation] (activation_continuity.py, activation_continuity_store.py):
      activation obligations, policy and append-only store.
    - [WorkState] (state.py): work and event handles.
    - [OutcomeState] (outcome_state.py): outcome snapshots, on the handles of
      [WorkState].
    - [Mailboxes] (mailbox/agent_mailboxes.py): named mailboxes, their owners
      and transfers, and the binding that fences messages.
    - [Messages], [MessageReads], [MessageSend] (mailbox/messages.py): the
      message store as a machine of messages and deliveries, its reads and
      pages, and the entry points that admit a caller by its grant.  The
      store reads the tables of [Mailboxes], [GrantState] and [WorkState].
    - [ReviewModels], [Reviews], [ReviewService], [ReviewFacts],
      [ReviewSystem] (reviews.py): the models that review messages carry, the
      occurrences that are read back from the message tables, the service,
      what it keeps, and the theorems about it among other calls.
      [DurableCapture] (durable_capture.py): whether findings were disposed
      of.
    - [TaskRuns] (task_runs.py): requests that a task be run, bindings to
      managed runs and results.  [Implementation]
      (implementation_requests.py): the request to implement a package, and
      the same conditions again when a run starts, over the tables of
      [Reviews], [HumanReviews], [HumanTrajectory], [PriorityClaims],
      [GrantState] and [TaskRuns].  [WeakestPre] is the reasoning about calls
      that return, which these share.
    - [Store], [PullRequests], [Gateways], [GatewayRuns], [GatewayAnswers]
      (tracker/runtime.py, appends.py, relations.py, provider_relations.py,
      pull_requests.py): the protected operations on canonical work.  [Store]
      joins the tables of [Messages], [HumanReviews] and [GrantState] in one
      state; a definition of [Gateways] that ends in [_attempt] is the body
      of a transaction on it; [GatewayRuns] adds the except clauses and the
      retries, and runs requests among other callers.
    - [ProviderGateways] (tracker/appends.py, updates.py,
      provider_relations.py, creates.py, mutation_effect.py): the protected
      operations on work whose source is an external provider, as programs
      over the calls of [Call].  [Threads] has the programs, their
      interleaving and the proof rule [safe], in which a thread relies on the
      row locks it holds; [ProviderSystem] the world - tables, locks, a trace
      of what was sent and observed - with every failure outside
      ([Outside]); [ProviderSafety] the invariant [Inv], the rely [R] and
      what a request does ([History]); [ProviderSteps] a rule per call;
      [ProviderRuns] the proof of each gateway; [ProviderClaims] the
      theorems.

    ** What the theorems show

    Safety over reachable states: [broker_tree_budget] and
    [broker_delegation] bound what leases hold along the parent tree,
    [broker_attach_once], [broker_release_proof] and [broker_reserve_replay]
    say when a lease is claimed, released and answered.
    [gateway_effect] says what authority an effect on canonical work had, at
    the clock reading of the turn that made it, and how far it reaches, [gateway_truthful] that answers tell the truth,
    [gateway_replay] that a repeated request has no second effect,
    [gateway_receipts] that receipts name what is stored, [gateway_answers]
    that requests are answered, and [pull_ownership] how a pull request
    changes hands.
    [tracker_invariant] is what the tables of work keep under any calls,
    [tracker_fence] that a version identifies the state of its work, from
    which [history_coherent] follows for readers; [append_replay] and
    [append_spec] are about the event stream, [tracker_bounds] about its
    integers, [set_parent_spec] about the forest of parents.
    [policy_incremental] and [create_policy] say which states of work the
    policy lets through.
    [claims_history], [claim_race] and [provenance_spec] are about the table
    of claims, [human_truthful], [human_replay] and [claim_receipts] about
    requests to it over failing connections, and [context_supported] says that
    the projection shows nothing its reads do not support.
    [approved_baselines], [decision_final] and [review_answers] are the
    guarantees of the reviews by humans, [trajectory_chain] of what humans
    directed.
    [review_verdict_authentic], [review_verdict_final], [review_submitted] and
    [baseline_pass_sound] say that the verdict of a review is its reviewer's,
    that it stays, when it is accepted, and what a PASS of a baseline means;
    [capture_satisfied] characterises findings that are disposed of.
    [task_run_invariant], [task_result_spec] and [task_tool_granted] are about
    task runs; [implementation_authorized] and [implementation_starts] say
    under what conditions an implementation is requested and starts.
    Over providers, any number of requests interleaved, which may die between
    any two calls: [provider_requests] says what a request does and under
    what authority, [provider_once] that nothing is sent twice,
    [provider_journal] and [provider_answers] that the journal and the answers
    tell the truth, [provider_fence] that at most one effect on a work is
    unresolved.
    [lifecycle_refinement] is a simulation of the abstract obligation machine
    by interleaved callers, [lifecycle_no_lost_update] and
    [lifecycle_terminal_readback] its consequences.
    [mutation_no_send], [mutation_send_journaled], [mutation_truthful] and
    [mutation_at_most_once] are the guarantees of the effect journal.
    [activation_linear], [outcome_chain] and [state_binding_permanent] are the
    invariants of the append-only tables.
    [mailbox_binding_fence], [takeover_spec] and [transfer_once] say who owns
    a mailbox.  [message_refinement] shows that every call of the message
    store takes it, from where it is, by a run of an abstract machine whose
    steps are the caller's own; [message_history],
    [message_evidence] and [submit_idempotent] are what its users rely on,
    [message_refusals] that a refusal leaves nothing behind, and
    [send_authorized] that a send was authorised.
    Progress: [broker_reserve_answers], [all_pending_complete],
    [pending_pages], [history_pages] and [search_pages] show that loops and
    readers end and miss nothing; [history_cursor_roundtrip] is about the
    cursors they carry.
    Functional behaviour on every branch: [currentness_true],
    [controller_update], [controller_append], [activation_apply],
    [activation_delivery], [outcome_record], [outcome_replay],
    [receive_spec], [disposition_spec].
    Four theorems state defects: [activation_block_corrupts],
    [search_wildcards], [provider_placement_escapes] and
    [provider_update_strands].

    ** Conventions and bounds

    A string is a list of code points below 256 (Latin-1); a UUID is its
    canonical text, so [str] of it is the identity.  Clock readings, [uuid4()]
    and other random values, and [/proc] samples are arguments.  Integers are
    unbounded as in Python; floats are binary64.  A database operation is
    atomic under the locks the code takes; where the code reads in one
    transaction or under a weaker isolation and writes later, the model keeps
    the rows that were read ([read_rows], [snapshots], [seen_by]) and lets
    other callers run in between.  A component with the notion of a turn
    ([PriorityService], [GatewayRuns]) gives each of its transactions the
    calls that others make before it, a connection that may fail before or
    after the commit ([Fault]), and a clock.  Where effects cannot be rolled
    back (the gateways to providers) the unit is one call of the database or
    of a provider, and the row locks are part of the state; their theorems
    are about principals and works whose rows existed at the start
    ([enrolled], [known_work]), since a lock on a missing row locks nothing.
    Database outages and file I/O
    errors are modelled where the code's guarantee depends on them (the
    effect journal, the claims, the reviews, the gateways), and not
    elsewhere.  A digest is computed.  That SHA-256 does not
    collide on the values at hand is a hypothesis, which the witnesses decide
    for theirs, where a guarantee of the code rests on it: of two submissions
    of a run ([collision_free], in [message_refinement], [message_history],
    [message_evidence], [submit_idempotent] and [all_pending_complete]), of a
    result and the stored ones ([no_collision], in [task_run_invariant] and
    [task_result_spec]), and of the revisions of a table ([separated], in
    [approved_baselines]).  Recursion is structural, or runs on fuel that a
    theorem shows to be enough ([broker_reserve_answers] for the ancestor
    walks of the broker, [search_ends] for the recursive query over parents,
    [scan_enough] for the JSON parser).  Two functions that live outside the
    source are parameters: [nfkc_casefold] (Unicode normalisation and case
    folding of titles) and [coll] (the collation of the database, a total
    order on texts).

    ** Not modelled

    Process, container, network and file management; command lines; the MCP
    transport; report rendering; the interpreter's limit on the nesting of JSON
    values and on the digits of an integer; digits outside ASCII in the text
    of a UUID.  The manifest lists every part of the system with the reason.
    Of the tracker's services the creation of canonical work and the
    classification of feedback (tracker/runtime.py) are left; of the pull
    requests, their paged view; of the reviews, the projection for pickup and
    the loader of their configuration; of task runs, the workers of the
    coordinator. *)

From stdpp Require Export base tactics list gmap strings.
From Stdlib Require Export ZArith Lia Sorted.
From Stdlib Require Export Ascii.
From Stdlib Require String.

#[export] Set Default Proof Using "Type".
#[export] Set Warnings "-clear-no-such-hyp".

(** ** Exceptions and results *)

(** The exception classes the modelled code raises or catches.  A class that
    is a subclass of another (for instance [StaleWorkVersion] of
    [ValueError]) is a constructor of its own; [exn_isinstance] gives the
    subclass relation. *)
Inductive exn_class :=
  | ValueError | RuntimeError | LookupError | KeyError | TypeError
  | AssertionError | PermissionError | OverflowError
  | OSError | FileExistsError | FileNotFoundError | AttributeError
  | SQLAlchemyError | IntegrityError
  | ProviderError | UnknownEffect
  | UnknownWorkError | StaleWorkVersion | OperationConflictError
  | StalePriorityClaim | StaleVersion | AtomicResultFailure | OtherError.

#[export] Instance exn_class_eq_dec : EqDecision exn_class.
Proof. solve_decision. Defined.

(** [isinstance(e, c)] for the classes above: Python's and SQLAlchemy's
    hierarchy and the classes declared in the modelled files. *)
Definition exn_isinstance (e c : exn_class) : bool :=
  bool_decide (e = c) ||
  match e, c with
  | KeyError, LookupError => true
  | PermissionError, OSError | FileExistsError, OSError | FileNotFoundError, OSError => true
  | IntegrityError, SQLAlchemyError => true
  | UnknownEffect, ProviderError => true
  | UnknownWorkError, ValueError => true
  | StaleWorkVersion, ValueError => true
  | OperationConflictError, ValueError => true
  | StalePriorityClaim, ValueError => true
  | StaleVersion, ValueError => true
  | _, _ => false
  end.

Record exn := Exn { exn_cls : exn_class; exn_msg : string }.

#[export] Instance exn_eq_dec : EqDecision exn.
Proof. solve_decision. Defined.

(** The outcome of a Python call: a value, or a raised exception. *)
Inductive res (A : Type) :=
  | Ok (a : A)
  | Err (e : exn).
Arguments Ok {_} _.
Arguments Err {_} _.

#[export] Instance res_eq_dec {A} `{EqDecision A} : EqDecision (res A).
Proof. solve_decision. Defined.

#[export] Instance res_ret : MRet res := λ A a, Ok a.
#[export] Instance res_bind : MBind res := λ A B f m,
  match m with Ok a => f a | Err e => Err e end.
#[export] Instance res_fmap : FMap res := λ A B f m,
  match m with Ok a => Ok (f a) | Err e => Err e end.

Definition raise {A} (c : exn_class) (msg : string) : res A := Err (Exn c msg).

(** [if c: raise e(msg)] *)
Definition raise_if (c : bool) (e : exn_class) (msg : string) : res unit :=
  if c then raise e msg else Ok tt.

Definition is_ok {A} (r : res A) : bool :=
  match r with Ok _ => true | Err _ => false end.

(** ** State and exceptions: computations that thread a store *)

(** A call on a store [S]: the store it leaves behind (also when it raises)
    and its outcome. *)
Definition M (S A : Type) : Type := S → S * res A.

#[export] Instance M_ret {S} : MRet (M S) := λ A a s, (s, Ok a).
#[export] Instance M_bind {S} : MBind (M S) := λ A B f m s,
  match m s with
  | (s', Ok a) => f a s'
  | (s', Err e) => (s', Err e)
  end.

Definition get_st {S} : M S S := λ s, (s, Ok s).
Definition put_st {S} (s' : S) : M S unit := λ _, (s', Ok tt).
Definition lift {S A} (r : res A) : M S A := λ s, (s, r).
Definition throw {S A} (c : exn_class) (msg : string) : M S A := λ s, (s, raise c msg).
Definition throw_if {S} (c : bool) (e : exn_class) (msg : string) : M S unit :=
  λ s, (s, raise_if c e msg).

(** [async with engine.begin()]: a raised exception rolls the store back, a
    normal exit (a [return] included) commits. *)
Definition transaction {S A} (m : M S A) : M S A := λ s,
  match m s with
  | (s', Ok a) => (s', Ok a)
  | (_, Err e) => (s, Err e)
  end.

(** [try: m except <classes>: h] *)
Definition catch {S A} (m : M S A) (classes : list exn_class) (h : exn → M S A) : M S A :=
  λ s, match m s with
       | (s', Ok a) => (s', Ok a)
       | (s', Err e) =>
           if existsb (exn_isinstance (exn_cls e)) classes then h e s' else (s', Err e)
       end.

(** How the connection behaves at one transaction: it may fail before the
    request arrives, or after the commit. *)
Inductive Fault := no_fault | lost_request | lost_reply.

Definition connected {S A} (f : Fault) (m : M S A) : M S A := λ s,
  match f, m s with
  | no_fault, x => x
  | lost_request, _ => (s, raise SQLAlchemyError "connection lost")
  | lost_reply, (s', Ok _) => (s', raise SQLAlchemyError "connection lost")
  | lost_reply, x => x
  end.

Lemma transaction_err {S A} (m : M S A) s s' e :
  transaction m s = (s', Err e) → s' = s.
Proof. unfold transaction. destruct (m s) as [? []]; naive_solver. Qed.

Lemma transaction_ok {S A} (m : M S A) s s' a :
  transaction m s = (s', Ok a) ↔ m s = (s', Ok a).
Proof. unfold transaction. destruct (m s) as [? []]; naive_solver. Qed.

Lemma bind_Ok {A B} (m : res A) (f : A → res B) b :
  m ≫= f = Ok b ↔ ∃ a, m = Ok a ∧ f a = Ok b.
Proof. destruct m; cbn; split; [eauto | intros (? & [= <-] & ?) | | intros (? & ? & ?)]; done. Qed.

Lemma bind_Err {A B} (m : res A) (f : A → res B) e :
  m ≫= f = Err e → m = Err e ∨ ∃ a, m = Ok a ∧ f a = Err e.
Proof. destruct m; cbn; naive_solver. Qed.

Lemma raise_if_Ok c e msg : raise_if c e msg = Ok tt ↔ c = false.
Proof. destruct c; cbn; naive_solver. Qed.

Lemma M_bind_Ok {S A B} (m : M S A) (f : A → M S B) s s' b :
  (m ≫= f) s = (s', Ok b) ↔ ∃ s1 a, m s = (s1, Ok a) ∧ f a s1 = (s', Ok b).
Proof.
  unfold mbind, M_bind. destruct (m s) as [s1 [a|e]].
  - split; [eauto | by intros (? & ? & [= <- <-] & ?)].
  - split; [done | by intros (? & ? & ? & ?)].
Qed.

(** Two computations that continue a common step agree where it returns. *)
Lemma M_bind_agree {S A B} (m : M S A) (f g : A → M S B) s :
  (∀ a s', m s = (s', Ok a) → f a s' = g a s') → (m ≫= f) s = (m ≫= g) s.
Proof. intros H. unfold mbind, M_bind. destruct (m s) as [s' [a|e]]; [by apply H | done]. Qed.

(** A step either raises, or returns into the continuation. *)
Lemma M_bind_cases {S A B} (m : M S A) (f : A → M S B) s :
  (∃ s1 e, m s = (s1, Err e) ∧ (m ≫= f) s = (s1, Err e)) ∨
  (∃ s1 a, m s = (s1, Ok a) ∧ (m ≫= f) s = f a s1).
Proof. unfold mbind, M_bind. destruct (m s) as [s1 [a|e]]; eauto 6. Qed.

Lemma M_bind_assoc {S A B C} (m : M S A) (f : A → M S B) (g : B → M S C) s :
  (x ← m; y ← f x; g y) s = (y ← (x ← m; f x); g y) s.
Proof. unfold mbind, M_bind. by destruct (m s) as [s' [a|e]]. Qed.

Lemma lift_bind_Ok {S A B} (a : A) (f : A → M S B) s : (lift (Ok a) ≫= f) s = f a s.
Proof. done. Qed.
Lemma lift_bind_Err {S A B} e (f : A → M S B) s : (lift (Err e) ≫= f) s = (s, Err e).
Proof. done. Qed.

Lemma throw_if_Ok {S} c e msg (s s' : S) a :
  throw_if c e msg s = (s', Ok a) → c = false ∧ s' = s.
Proof. unfold throw_if. destruct c; cbn; [done | by intros [= <- _]]. Qed.

Lemma lift_Ok {S A} (r : res A) (s s' : S) a : lift r s = (s', Ok a) → r = Ok a ∧ s' = s.
Proof. by intros [= <- ->]. Qed.

Lemma mret_Ok {S A} (a b : A) (s s' : S) :
  mret (M := M S) a s = (s', Ok b) → s' = s ∧ b = a.
Proof. by intros [= <- <-]. Qed.

Lemma get_st_Ok {S} (s s' : S) a : get_st s = (s', Ok a) → s' = s ∧ a = s.
Proof. by intros [= <- <-]. Qed.

(** Invert a returning run into its steps; components add their own primitive
    steps to the database [runs]. *)
Create HintDb runs.

Ltac inv_M :=
  repeat lazymatch goal with
  | H : (_ ≫= _) _ = (_, Ok _) |- _ =>
      let s := fresh "s" in let a := fresh "a" in let Hs := fresh "Hs" in
      apply M_bind_Ok in H; destruct H as (s & a & Hs & H)
  | H : throw_if _ _ _ _ = (_, Ok _) |- _ =>
      apply throw_if_Ok in H; destruct H as [? H]; try subst
  | H : lift _ _ = (_, Ok _) |- _ => apply lift_Ok in H; destruct H as [? H]; try subst
  | H : mret _ _ = (_, Ok _) |- _ => apply mret_Ok in H; destruct H as [? H]; subst
  | H : get_st _ = (_, Ok _) |- _ => apply get_st_Ok in H; destruct H as [? H]; subst
  | H : throw _ _ _ = (_, Ok _) |- _ => discriminate H
  end.

(** ** Strings *)

(** A Python [str] is a [string] of code points U+0000 to U+00FF, one [ascii]
    each; [len] counts code points. *)
Definition py_len (s : string) : Z := Z.of_nat (String.length s).

(** [bool(s)] *)
Definition truthy (s : string) : bool := negb (String.eqb s "").

(** [s.startswith(p)] *)
Definition startswith (p s : string) : bool := String.prefix p s.

(** [p in s] *)
Definition substring_in (p s : string) : bool :=
  match String.index 0 p s with Some _ => true | None => false end.

Fixpoint all_chars (p : ascii → bool) (s : string) : bool :=
  match s with
  | EmptyString => true
  | String c s' => p c && all_chars p s'
  end.

Definition char_between (lo hi : ascii) (c : ascii) : bool :=
  (nat_of_ascii lo <=? nat_of_ascii c)%nat && (nat_of_ascii c <=? nat_of_ascii hi)%nat.

Definition is_digit (c : ascii) : bool := char_between "0" "9" c.
Definition is_lower_hex (c : ascii) : bool := is_digit c || char_between "a" "f" c.
Definition is_alnum (c : ascii) : bool :=
  is_digit c || char_between "a" "z" c || char_between "A" "Z" c.

(** [re.compile(r"[0-9a-f]{n}\Z").fullmatch(s)] *)
Definition hex_fullmatch (n : nat) (s : string) : bool :=
  (String.length s =? n)%nat && all_chars is_lower_hex s.

Lemma hex_fullmatch_length n s : hex_fullmatch n s = true → String.length s = n.
Proof. unfold hex_fullmatch. rewrite andb_true_iff, Nat.eqb_eq. tauto. Qed.

Lemma hex_fullmatch_truthy n s : hex_fullmatch (S n) s = true → truthy s = true.
Proof. intros H%hex_fullmatch_length. destruct s; cbn in *; done. Qed.

(** [sep.join(parts)] *)
Fixpoint str_join (sep : string) (parts : list string) : string :=
  match parts with
  | [] => ""
  | [p] => p
  | p :: ps => p ++ sep ++ str_join sep ps
  end%string.

(** [s + ""], and the association of [+]. *)
Lemma str_app_nil s : String.append s "" = s.
Proof. induction s as [|c s IH]; [done|]. change (String c (String.append s "") = String c s). by rewrite IH. Qed.

Lemma str_app_assoc a b c :
  String.append a (String.append b c) = String.append (String.append a b) c.
Proof.
  induction a as [|x a IH]; [done|].
  change (String x (String.append a (String.append b c)) = String x (String.append (String.append a b) c)).
  by rewrite IH.
Qed.

(** Comparison of [str] by code point. *)
Definition str_leb (a b : string) : bool := String.leb a b.

Lemma str_leb_total a b : str_leb a b = true ∨ str_leb b a = true.
Proof. apply String.leb_total. Qed.

Lemma str_leb_cons x a y b :
  str_leb (String x a) (String y b) = true ↔
  (N_of_ascii x < N_of_ascii y)%N ∨ x = y ∧ str_leb a b = true.
Proof.
  unfold str_leb, String.leb. cbn. unfold Ascii.compare.
  destruct (N.compare_spec (N_of_ascii x) (N_of_ascii y)) as [E|E|E].
  - assert (x = y) as -> by (rewrite <- (ascii_N_embedding x), E; apply ascii_N_embedding).
    split; [auto | intros [?|[_ ?]]; [lia | done]].
  - split; [auto | done].
  - split; [done | intros [?|[-> _]]; lia].
Qed.

Lemma str_leb_trans a b c : str_leb a b = true → str_leb b c = true → str_leb a c = true.
Proof.
  revert b c. induction a as [|x a IH]; intros b c; [by destruct b, c|].
  destruct b as [|y b]; [done|]. destruct c as [|z c]; [done|]. rewrite !str_leb_cons.
  intros [H1|[-> H1]] [H2|[-> H2]]; [left; lia | by left | by left | right; eauto].
Qed.

(** Equality tests: [==] on [str], on [str | None], on lists. *)
Definition eqb {A} `{EqDecision A} (x y : A) : bool := bool_decide (x = y).

Lemma eqb_true {A} `{EqDecision A} (x y : A) : eqb x y = true ↔ x = y.
Proof. apply bool_decide_eq_true. Qed.
Lemma eqb_false {A} `{EqDecision A} (x y : A) : eqb x y = false ↔ x ≠ y.
Proof. apply bool_decide_eq_false. Qed.
Lemma eqb_refl {A} `{EqDecision A} (x : A) : eqb x x = true.
Proof. by apply eqb_true. Qed.

(** [x in (a, b, ...)] *)
Definition mem {A} `{EqDecision A} (x : A) (l : list A) : bool := existsb (eqb x) l.

Lemma mem_true {A} `{EqDecision A} (x : A) l : mem x l = true ↔ x ∈ l.
Proof.
  unfold mem. rewrite existsb_exists, list_elem_of_In. split.
  - intros (y & Hy & ->%eqb_true). done.
  - intros. exists x. split; [done | apply eqb_refl].
Qed.

(** [x is None] / [x is not None] *)
Definition is_none {A} (o : option A) : bool := match o with None => true | Some _ => false end.
Definition is_some {A} (o : option A) : bool := negb (is_none o).

(** [s or ""] for [s : str | None] *)
Definition or_empty (o : option string) : string := default ""%string o.

(** [len(set(l)) == len(l)] *)
Definition no_dup {A} `{EqDecision A} (l : list A) : bool := bool_decide (NoDup l).

(** ** Sorting: a stable sort by insertion *)
Section sort.
Context {A : Type} (le : A → A → bool).

Fixpoint insert_sorted (x : A) (l : list A) : list A :=
  match l with
  | [] => [x]
  | y :: l' => if le x y then x :: l else y :: insert_sorted x l'
  end.

Definition py_sort (l : list A) : list A := foldr insert_sorted [] l.

Lemma insert_sorted_perm x l : insert_sorted x l ≡ₚ x :: l.
Proof.
  induction l as [|y l IH]; cbn; [done |].
  destruct (le x y); [done |]. rewrite IH. constructor.
Qed.

Lemma py_sort_perm l : py_sort l ≡ₚ l.
Proof. induction l; cbn; [done |]. rewrite insert_sorted_perm. by f_equiv. Qed.

Lemma length_py_sort l : length (py_sort l) = length l.
Proof. by rewrite py_sort_perm. Qed.

(** Sorting a list with a last element that is not smaller than any other. *)
Lemma insert_sorted_last (x r : A) l :
  le x r = true → insert_sorted x (l ++ [r]) = insert_sorted x l ++ [r].
Proof.
  intros Hx. induction l as [|y l IH]; cbn; [by rewrite Hx|].
  destruct (le x y); [done | by rewrite IH].
Qed.

Lemma py_sort_last l (r : A) :
  (∀ x, x ∈ l → le x r = true) → py_sort (l ++ [r]) = py_sort l ++ [r].
Proof.
  induction l as [|x l IH]; intros Hl; [done|].
  change (insert_sorted x (py_sort (l ++ [r])) = insert_sorted x (py_sort l) ++ [r]).
  rewrite IH by set_solver. apply insert_sorted_last. set_solver.
Qed.

Context (le_total : ∀ x y, le x y = true ∨ le y x = true).
Context (le_trans : ∀ x y z, le x y = true → le y z = true → le x z = true).

Lemma insert_sorted_sorted x l :
  StronglySorted (λ a b, le a b = true) l →
  StronglySorted (λ a b, le a b = true) (insert_sorted x l).
Proof using le_total le_trans.
  induction 1 as [|y l Hl IH Hy]; cbn; [repeat constructor |].
  destruct (le x y) eqn:Hxy.
  - constructor; [by constructor |]. constructor; [done |].
    eapply Forall_impl; [done |]. eauto.
  - constructor; [done |]. rewrite insert_sorted_perm. constructor; [| done].
    destruct (le_total x y); congruence.
Qed.

Lemma py_sort_sorted l : StronglySorted (λ a b, le a b = true) (py_sort l).
Proof using le_total le_trans.
  induction l; cbn; [constructor | by apply insert_sorted_sorted].
Qed.
End sort.

(** ** Sums over lists and finite maps *)

Definition zsum {A} (f : A → Z) (l : list A) : Z := foldr (λ x acc, f x + acc)%Z 0%Z l.

Lemma zsum_nil {A} (f : A → Z) : zsum f [] = 0%Z.
Proof. done. Qed.
Lemma zsum_cons {A} (f : A → Z) x l : zsum f (x :: l) = (f x + zsum f l)%Z.
Proof. done. Qed.
#[global] Arguments zsum : simpl never.
Create Rewrite HintDb zsum.
#[export] Hint Rewrite @zsum_nil @zsum_cons : zsum.

Lemma zsum_perm {A} (f : A → Z) l1 l2 : l1 ≡ₚ l2 → zsum f l1 = zsum f l2.
Proof. induction 1; autorewrite with zsum; lia. Qed.

Lemma zsum_ext {A} (f g : A → Z) l : (∀ x, x ∈ l → f x = g x) → zsum f l = zsum g l.
Proof.
  induction l as [|x l IH]; [done |]. intros Hfg. autorewrite with zsum.
  rewrite (Hfg x), IH by set_solver. done.
Qed.

Lemma zsum_le {A} (f g : A → Z) l : (∀ x, x ∈ l → f x ≤ g x)%Z → (zsum f l ≤ zsum g l)%Z.
Proof.
  induction l as [|x l IH]; [done |]. intros Hfg. autorewrite with zsum.
  pose proof (Hfg x ltac:(set_solver)). pose proof (IH ltac:(set_solver)). lia.
Qed.

Lemma zsum_add {A} (f g : A → Z) l : zsum (λ x, f x + g x)%Z l = (zsum f l + zsum g l)%Z.
Proof. induction l; autorewrite with zsum; lia. Qed.

Lemma zsum_zero {A} (f : A → Z) l : (∀ x, x ∈ l → f x = 0%Z) → zsum f l = 0%Z.
Proof.
  induction l as [|x l IH]; [done |]. intros Hf. autorewrite with zsum.
  rewrite (Hf x), IH by set_solver. done.
Qed.

Lemma zsum_nonneg {A} (f : A → Z) l : (∀ x, x ∈ l → 0 ≤ f x)%Z → (0 ≤ zsum f l)%Z.
Proof.
  induction l as [|x l IH]; [done |]. intros Hf. autorewrite with zsum.
  pose proof (Hf x ltac:(set_solver)). pose proof (IH ltac:(set_solver)). lia.
Qed.

(** Exchange of two sums. *)
Lemma zsum_swap {A B} (f : A → B → Z) l1 l2 :
  zsum (λ x, zsum (f x) l2) l1 = zsum (λ y, zsum (λ x, f x y) l1) l2.
Proof.
  induction l1 as [|x l1 IH]; autorewrite with zsum.
  - symmetry. by apply zsum_zero.
  - rewrite IH, <- zsum_add. done.
Qed.

(** A sum that picks out the one element with a given key. *)
Lemma zsum_pick {A K} `{EqDecision K} (key : A → K) (f : A → Z) x l :
  NoDup (key <$> l) → x ∈ l →
  zsum (λ y, if eqb (key x) (key y) then f y else 0)%Z l = f x.
Proof.
  induction l as [|y l IH]; [intros _ ?%elem_of_nil; done |].
  rewrite fmap_cons, NoDup_cons. intros [Hy Hl] [->|Hx]%elem_of_cons; rewrite zsum_cons.
  - rewrite eqb_refl, zsum_zero; [lia |].
    intros z Hz. destruct (eqb (key y) (key z)) eqn:E; [|done].
    rewrite eqb_true in E. destruct Hy. rewrite E. by apply list_elem_of_fmap_2.
  - rewrite IH by done. destruct (eqb (key x) (key y)) eqn:E; [|lia].
    rewrite eqb_true in E. destruct Hy. rewrite <- E. by apply list_elem_of_fmap_2.
Qed.

(** The values of a map: [d.values()]. *)
Definition values {K A} `{Countable K} (m : gmap K A) : list A := (map_to_list m).*2.

Lemma elem_of_values {K A} `{Countable K} (m : gmap K A) x :
  x ∈ values m ↔ ∃ k, m !! k = Some x.
Proof.
  unfold values. rewrite list_elem_of_fmap. split.
  - intros ([k y] & -> & Hk%elem_of_map_to_list). eauto.
  - intros [k Hk]. exists (k, x). by rewrite elem_of_map_to_list.
Qed.

Lemma values_insert_fresh {K A} `{Countable K} (m : gmap K A) k x :
  m !! k = None → values (<[k:=x]> m) ≡ₚ x :: values m.
Proof. intros. unfold values. by rewrite map_to_list_insert. Qed.

Lemma values_insert_present {K A} `{Countable K} (m : gmap K A) k x y :
  m !! k = Some x →
  ∃ l, values m ≡ₚ x :: l ∧ values (<[k:=y]> m) ≡ₚ y :: l.
Proof.
  intros Hk. exists (values (delete k m)). split.
  - rewrite <- (insert_id m k x Hk) at 1. rewrite <- insert_delete_eq.
    apply values_insert_fresh, lookup_delete_eq.
  - rewrite <- insert_delete_eq. apply values_insert_fresh, lookup_delete_eq.
Qed.

(** ** Time *)

(** A [datetime]: microseconds since the epoch (of the wall clock reading when
    naive, of the UTC instant when aware) and, when aware, [utcoffset()] in
    microseconds. *)
Record datetime := Datetime { dt_us : Z; dt_offset : option Z }.

#[export] Instance datetime_eq_dec : EqDecision datetime.
Proof. solve_decision. Defined.

Definition is_aware (d : datetime) : bool := is_some (dt_offset d).

(** ** Automation *)

(** Turn boolean tests of the code into propositions. *)
Create Rewrite HintDb to_prop.
#[export] Hint Rewrite andb_true_iff orb_true_iff andb_false_iff orb_false_iff
  negb_true_iff negb_false_iff @eqb_true @eqb_false @mem_true
  Z.eqb_eq Z.eqb_neq Z.leb_le Z.leb_gt Z.ltb_lt Z.ltb_ge : to_prop.

Ltac to_prop := autorewrite with to_prop in *.

(** Invert a run of monadic code: case on the scrutinees of the matches in
    hypotheses that equate a run with its outcome. *)
Ltac invert_run :=
  repeat (progress simplify_eq/= ||
          match goal with
          | H : context [match ?x with _ => _ end] |- _ =>
              lazymatch x with
              | context [match _ with _ => _ end] => fail
              | _ => destruct x eqn:?
              end
          end).

Ltac case_all :=
  repeat (progress simplify_eq/= || case_match).

(** ** Invariants of computations *)

(** [keeps P m Q]: [m] preserves the store invariant [P] whether it returns or
    raises, and a returned value satisfies [Q]. *)
Definition keeps {S A} (P : S → Prop) (m : M S A) (Q : A → Prop) : Prop :=
  ∀ s, P s → P (m s).1 ∧ ∀ a, (m s).2 = Ok a → Q a.

Section keeps.
Context {S : Type} (P : S → Prop).

Lemma keeps_ret {A} (a : A) (Q : A → Prop) : Q a → keeps P (mret a) Q.
Proof. intros HQ s HP. split; [done | by intros ? [= <-]]. Qed.

Lemma keeps_bind {A B} (m : M S A) (f : A → M S B) (Q : A → Prop) (R : B → Prop) :
  keeps P m Q → (∀ a, Q a → keeps P (f a) R) → keeps P (m ≫= f) R.
Proof.
  intros Hm Hf s HP. destruct (Hm s HP) as [Hs HQ]. unfold mbind, M_bind.
  destruct (m s) as [s' [a|e]]; cbn in *; [by apply Hf; auto | done].
Qed.

Lemma keeps_lift {A} (r : res A) (Q : A → Prop) :
  (∀ a, r = Ok a → Q a) → keeps P (lift r) Q.
Proof. intros HQ s HP. split; cbn; auto. Qed.

Lemma keeps_lift_eq {A} (r : res A) : keeps P (lift r) (λ a, r = Ok a).
Proof. by apply keeps_lift. Qed.

Lemma keeps_throw {A} c msg (Q : A → Prop) : keeps P (throw c msg) Q.
Proof. intros s HP. by split. Qed.

Lemma keeps_throw_if b c msg : keeps P (throw_if b c msg) (λ _, b = false).
Proof. intros s HP. split; [done|]. cbn. by destruct b. Qed.

Lemma keeps_get : keeps P get_st P.
Proof. intros s HP. split; [done | by intros ? [= <-]]. Qed.

Lemma keeps_weaken {A} (m : M S A) (Q R : A → Prop) :
  keeps P m Q → (∀ a, Q a → R a) → keeps P m R.
Proof. intros Hm HQR s HP. destruct (Hm s HP). split; eauto. Qed.

Lemma keeps_true {A} (m : M S A) (Q : A → Prop) :
  keeps P m Q → keeps P m (λ _, True).
Proof. intros Hm. by apply (keeps_weaken m Q). Qed.

Lemma keeps_transaction {A} (m : M S A) (Q : A → Prop) :
  keeps P m Q → keeps P (transaction m) Q.
Proof.
  intros Hm s HP. destruct (Hm s HP) as [Hs HQ]. unfold transaction.
  destruct (m s) as [s' [a|e]]; cbn in *; done.
Qed.

Lemma keeps_catch {A} (m : M S A) cs h (Q : A → Prop) :
  keeps P m Q → (∀ e, keeps P (h e) Q) → keeps P (catch m cs h) Q.
Proof.
  intros Hm Hh s HP. destruct (Hm s HP) as [Hs HQ]. unfold catch.
  destruct (m s) as [s' [a|e]]; cbn in *; [done|].
  destruct (existsb _ _); [by apply Hh | done].
Qed.

Lemma keeps_put s : P s → keeps P (put_st s) (λ _, True).
Proof. intros H s' _. split; [exact H | done]. Qed.
Lemma keeps_reads {A} (f : S → res A) : keeps P (λ s, (s, f s)) (λ _, True).
Proof. intros s H. by split. Qed.
Lemma keeps_bind_get {A} (f : S → M S A) :
  (∀ s, P s → keeps P (f s) (λ _, True)) → keeps P (get_st ≫= f) (λ _, True).
Proof. intros H. apply (keeps_bind _ _ P); [apply keeps_get | done]. Qed.
Lemma keeps_bind_true {A B} (m : M S A) (f : A → M S B) :
  keeps P m (λ _, True) → (∀ a, keeps P (f a) (λ _, True)) → keeps P (m ≫= f) (λ _, True).
Proof. intros H1 H2. apply (keeps_bind _ _ (λ _, True)); auto. Qed.
End keeps.

Create HintDb keeps.
#[export] Hint Resolve keeps_ret keeps_throw keeps_get : keeps.

(** One step through a computation; the primitive steps of a component are
    hints of [keeps]. *)
Ltac keeps_step :=
  lazymatch goal with
  | |- keeps _ (match ?x with _ => _ end ≫= _) _ =>
      apply (keeps_bind _ _ _ (λ _, True)); [|intros ? _]
  | |- keeps _ (_ ≫= _) _ => eapply keeps_bind; [|intros ? ?; cbn beta in *]
  | |- keeps _ (throw_if _ _ _) _ => first [apply keeps_throw_if | eapply keeps_true, keeps_throw_if]
  | |- keeps _ (lift _) _ => first [apply keeps_lift_eq | eapply keeps_true, keeps_lift_eq]
  | |- keeps _ (mret _) _ => apply keeps_ret; cbn beta; eauto with keeps
  | |- keeps _ (match ?x with _ => _ end) _ => destruct x eqn:?
  | |- keeps _ _ _ => cbn beta in *; by eauto with keeps
  end.

(** Invariants that only the written stores matter for. *)
Ltac keeps_writes :=
  repeat lazymatch goal with
  | |- keeps _ (get_st ≫= _) _ => apply keeps_bind_get; intros ? ?
  | |- keeps _ (_ ≫= _) _ => apply keeps_bind_true; [|intros ?]
  | |- keeps _ (transaction _) _ => apply keeps_transaction
  | |- keeps _ (throw_if _ _ _) _ => eapply keeps_true, keeps_throw_if
  | |- keeps _ (throw _ _) _ => apply keeps_throw
  | |- keeps _ (lift _) _ => eapply keeps_true, keeps_lift_eq
  | |- keeps _ (mret _) _ => by apply keeps_ret
  | |- keeps _ (put_st _) _ => apply keeps_put; try done
  | |- keeps _ (λ s, (s, _)) _ => apply keeps_reads
  | |- keeps _ (match ?x with _ => _ end) _ => destruct x
  end.

Lemma read_ok {S A B} (m : M S A) (f : A → M S B) s a :
  (m s).1 = s → (m s).2 = Ok a → (m ≫= f) s = f a s.
Proof. unfold mbind, M_bind. destruct (m s) as [s1 [b|e]]; cbn; by intros -> [= ->]. Qed.

Lemma throw_if_false {S} b e msg (s : S) : b = false → throw_if b e msg s = (s, Ok tt).
Proof. by intros ->. Qed.

(** ** The exceptions of a computation *)

(** They are of the given classes. *)
Definition fails {S A} (L : list exn_class) (m : M S A) : Prop :=
  ∀ s s' e, m s = (s', Err e) → exn_cls e ∈ L.

Lemma fails_bind {S A B} L (m : M S A) (f : A → M S B) :
  fails L m → (∀ a, fails L (f a)) → fails L (m ≫= f).
Proof.
  intros Hm Hf s s' e. unfold mbind, M_bind. destruct (m s) as [s1 [a|e1]] eqn:E; [apply Hf|].
  intros [= <- <-]. by eapply Hm.
Qed.

Lemma fails_lift {S A} L (r : res A) : (∀ e, r = Err e → exn_cls e ∈ L) → fails (S := S) L (lift r).
Proof. intros H s s' e [= _ He]. by apply H. Qed.

Lemma fails_throw_if {S} L b c msg : c ∈ L → fails (S := S) L (throw_if b c msg).
Proof. intros H s s' e. unfold throw_if. destruct b; cbn; [by intros [= _ <-] | done]. Qed.

Lemma fails_transaction {S A} L (m : M S A) : fails L m → fails L (transaction m).
Proof. intros H s s' e. unfold transaction. destruct (m s) as [s1 [a|e1]] eqn:E; [done|]. intros [= <- <-]. by eapply H. Qed.

Ltac in_errors := repeat first [by left | right].

Ltac fails_steps :=
  repeat match goal with
  | |- fails _ (_ ≫= _) => apply fails_bind; [|intros ?]
  | |- fails _ (throw_if _ _ _) => apply fails_throw_if; in_errors
  | |- fails _ (transaction _) => apply fails_transaction
  | |- fails _ (mret _) => by intros ? ? ?
  | |- fails _ get_st => by intros ? ? ?
  | |- fails _ (put_st _) => by intros ? ? ?
  | |- fails _ (throw _ _) => intros ? ? ? [= _ <-]; in_errors
  | |- fails _ (match ?x with _ => _ end) => destruct x
  end.

Lemma connected_cases {S A} (f : Fault) (m : M S A) s s' r :
  connected f m s = (s', r) →
  r = raise SQLAlchemyError "connection lost" ∧ (s' = s ∨ s' = (m s).1) ∨ (s', r) = m s.
Proof.
  unfold connected. destruct f, (m s) as [s1 [a|e]]; cbn; intros [= <- <-]; auto.
Qed.
