(* ===== verification/WeakestPre.v ===== *)
(** * What a returning call establishes

    [wp m Q s]: when [m], started on [s], returns, its result and the store it
    leaves satisfy [Q].  An exception satisfies everything: what calls answer
    when they raise is stated by the components. *)

From S2P Require Import Prelude.

Definition wp {S A} (m : M S A) (Q : A → S → Prop) (s : S) : Prop :=
  match m s with (s', Ok a) => Q a s' | (_, Err _) => True end.

Section wp.
Context {S : Type}.

(** The first half of a sequence whose result is known. *)
Lemma bind_run {A B} (m : M S A) (f : A → M S B) s s' a : m s = (s', Ok a) → (m ≫= f) s = f a s'.
Proof. intros E. unfold mbind, M_bind. by rewrite E. Qed.

Lemma wp_elim {A} (m : M S A) Q s s' a : wp m Q s → m s = (s', Ok a) → Q a s'.
Proof. unfold wp. intros H E. by rewrite E in H. Qed.

Lemma wp_bind {A B} (m : M S A) (f : A → M S B) Q s :
  wp m (λ a, wp (f a) Q) s → wp (m ≫= f) Q s.
Proof. unfold wp, mbind, M_bind. by destruct (m s) as [s1 [a|e]]. Qed.

Lemma wp_ret {A} (a : A) (Q : A → S → Prop) s : Q a s → wp (mret a) Q s.
Proof. done. Qed.

Lemma wp_lift {A} (x : res A) (Q : A → S → Prop) s : (∀ a, x = Ok a → Q a s) → wp (lift x) Q s.
Proof. unfold wp, lift. destruct x; auto. Qed.

Lemma wp_throw_if b c msg (Q : unit → S → Prop) s : (b = false → Q tt s) → wp (throw_if b c msg) Q s.
Proof. unfold wp, throw_if. destruct b; cbn; auto. Qed.

Lemma wp_mono {A} (m : M S A) (Q R : A → S → Prop) s : wp m Q s → (∀ a s', Q a s' → R a s') → wp m R s.
Proof. unfold wp. destruct (m s) as [s1 [a|e]]; auto. Qed.

Lemma wp_get {A} (f : S → M S A) Q s : wp (f s) Q s → wp (get_st ≫= f) Q s.
Proof. done. Qed.

Lemma wp_put s' (Q : unit → S → Prop) s : Q tt s' → wp (put_st s') Q s.
Proof. done. Qed.

(** A transaction that raises leaves the store; a caught exception is the
    handler's. *)
Lemma wp_transaction {A} (m : M S A) Q s : wp m Q s → wp (transaction m) Q s.
Proof. unfold wp, transaction. by destruct (m s) as [s1 [a|e]]. Qed.

Lemma wp_catch {A} (m : M S A) classes h (Q : A → S → Prop) s :
  wp m Q s → (∀ e s', m s = (s', Err e) → wp (h e) Q s') → wp (catch m classes h) Q s.
Proof.
  unfold wp, catch. destruct (m s) as [s1 [a|e]]; [done|]. intros _ Hh.
  destruct (existsb _ _); [by apply Hh | done].
Qed.

(** A caught transaction: the body's result, or the handler's on the store as
    it was. *)
Lemma wp_catch_transaction {A} (m : M S A) classes h (Q : A → S → Prop) s :
  wp m Q s → (∀ e, wp (h e) Q s) → wp (catch (transaction m) classes h) Q s.
Proof.
  intros Hm Hh. apply wp_catch; [by apply wp_transaction|]. intros e s' Ht.
  apply transaction_err in Ht as ->. apply Hh.
Qed.

Lemma wp_read {A} (f : S → res A) (Q : A → S → Prop) s : (∀ a, f s = Ok a → Q a s) → wp (λ s, (s, f s)) Q s.
Proof. unfold wp. destruct (f s); auto. Qed.
End wp.

(** The steps every component has; each adds its own primitives. *)
Ltac wp_step :=
  lazymatch goal with
  | |- wp (get_st ≫= _) _ _ => apply wp_get
  | |- wp (_ ≫= _) _ _ => apply wp_bind
  | |- wp (lift _) _ _ => apply wp_lift; intros ? ?
  | |- wp (mret _) _ _ => apply wp_ret
  | |- wp (throw _ _) _ _ => exact I
  | |- wp (throw_if _ _ _) _ _ => apply wp_throw_if; intros ?
  | |- wp (put_st _) _ _ => apply wp_put
  | |- wp (match ?x with _ => _ end) _ _ => destruct x eqn:?
  end.
