(* ===== verification/PyFloat.v ===== *)
(** * Python floats

    A Python [float] is an IEEE 754 binary64 number.  The model is the
    standard library's executable specification of the format ([SpecFloat],
    precision 53, maximal exponent 1024), so rounding, infinities, signed
    zeros and NaN behave as in the interpreter. *)

From Stdlib Require Export SpecFloat.
From S2P Require Import Prelude.

Local Open Scope Z_scope.

Definition float : Type := spec_float.

Definition prec : Z := 53.
Definition emax : Z := 1024.

(** [float(z)], rounded to nearest even.  ([float] raises [OverflowError]
    beyond the format; no modelled call converts such an integer.) *)
Definition f_of_Z (z : Z) : float := binary_normalize prec emax z 0 false.

Definition fadd (a b : float) : float := SFadd prec emax a b.
Definition fsub (a b : float) : float := SFsub prec emax a b.

(** [a < b], [a <= b] on floats: false when an operand is NaN. *)
Definition fltb (a b : float) : bool := SFltb a b.
Definition fleb (a b : float) : bool := SFleb a b.

(** [math.isfinite] *)
Definition isfinite (a : float) : bool :=
  match a with S754_zero _ | S754_finite _ _ _ => true | _ => false end.

(** Comparison of a float with an [int], exact as in CPython. *)
Definition fcompare_Z (a : float) (z : Z) : option comparison :=
  match a with
  | S754_nan => None
  | S754_infinity true => Some Lt
  | S754_infinity false => Some Gt
  | S754_zero _ => Some (0 ?= z)
  | S754_finite s m e =>
      let v := if s then Zneg m else Zpos m in
      Some (if 0 <=? e then v * 2 ^ e ?= z else v ?= z * 2 ^ (- e))
  end.

Definition fltb_Z (a : float) (z : Z) : bool :=
  match fcompare_Z a z with Some Lt => true | _ => false end.
Definition fleb_Z (a : float) (z : Z) : bool :=
  match fcompare_Z a z with Some Lt | Some Eq => true | _ => false end.
Definition fgeb_Z (a : float) (z : Z) : bool :=
  match fcompare_Z a z with Some Gt | Some Eq => true | _ => false end.
Definition fgtb_Z (a : float) (z : Z) : bool :=
  match fcompare_Z a z with Some Gt => true | _ => false end.

(** [a / b] on integers: the correctly rounded quotient.  [b] is not zero at
    the modelled calls. *)
Definition int_truediv (a b : Z) : float :=
  let f (z : Z) : float :=
    match z with
    | Z0 => S754_zero false
    | Zpos p => S754_finite false p 0
    | Zneg p => S754_finite true p 0
    end in
  SFdiv prec emax (f a) (f b).

(** [timedelta.total_seconds()] of a duration in microseconds. *)
Definition total_seconds (us : Z) : float := int_truediv us 1000000.

(** [int(x)] of a finite float: truncation toward zero. *)
Definition f_trunc (a : float) : Z :=
  match a with
  | S754_finite s m e =>
      let q := if 0 <=? e then Zpos m * 2 ^ e else Zpos m / 2 ^ (- e) in
      if s then - q else q
  | _ => 0
  end.

(** ** Order of floats *)

Lemma SFcompare_swap (a b : float) : SFcompare b a = option_map CompOpp (SFcompare a b).
Proof.
  destruct a as [sa|sa| |sa ma ea], b as [sb|sb| |sb mb eb]; try destruct sa; try destruct sb;
    try reflexivity; unfold SFcompare; change (Pos.compare_cont Eq) with Pos.compare;
    rewrite (Z.compare_antisym ea eb), (Pos.compare_antisym ma mb);
    destruct (ea ?= eb); cbn; try reflexivity; by destruct (ma ?= mb)%positive.
Qed.

(** [a <= b] excludes [b < a]; the converse fails on NaN. *)
Lemma fleb_not_fltb a b : fleb a b = true → fltb b a = false.
Proof.
  unfold fleb, fltb, SFleb, SFltb. rewrite (SFcompare_swap a b).
  by destruct (SFcompare a b) as [[]|].
Qed.

Lemma fltb_irrefl a : fltb a a = false.
Proof.
  unfold fltb, SFltb. destruct (SFcompare a a) as [[]|] eqn:E; try done.
  pose proof (SFcompare_swap a a) as H. rewrite E in H. done.
Qed.

Example f_of_Z_60 : f_of_Z 60 = S754_finite false 8444249301319680 (-47).
Proof. reflexivity. Qed.

Example total_seconds_ex : f_trunc (total_seconds 1999999) = 1 ∧ fgeb_Z (total_seconds 2000000) 2 = true.
Proof. split; reflexivity. Qed.
