(* ===== verification/Json.v ===== *)
(** * JSON text, digests and name-based identifiers

    [json.dumps], [hashlib.sha256], [hashlib.sha1], [str.encode] and
    [uuid.uuid5] of the Python standard library, executable, so that every
    content digest and derived identifier of the modelled code is computed
    and not assumed.  No theorem relies on a property of the hash functions:
    statements that compare digests compare the computed digests. *)

From stdpp Require Import pretty.
From S2P Require Import Prelude.

Local Open Scope Z_scope.

(** A UUID is its canonical text, so [str(u)] is the identity. *)
Abbreviation uuid := string (only parsing).

(** ** JSON values *)

#[warnings="-register-all"]
Inductive json :=
  | JNull
  | JBool (b : bool)
  | JInt (z : Z)
  | JStr (s : string)
  | JArr (l : list json)
  | JObj (kvs : list (string * json)).

#[export] Instance json_eq_dec : EqDecision json.
Proof.
  refine (fix go (a b : json) : {a = b} + {a ≠ b} := _).
  decide equality; try apply Bool.bool_dec; try apply Z.eq_dec; try apply String.string_dec.
  - apply (List.list_eq_dec go).
  - apply List.list_eq_dec. intros [k1 v1] [k2 v2].
    destruct (String.string_dec k1 k2) as [->|]; [| right; congruence].
    destruct (go v1 v2) as [->|]; [left | right]; congruence.
Defined.

(** [d.get(k)] on a JSON object. *)
Fixpoint assoc {A} (k : string) (kvs : list (string * A)) : option A :=
  match kvs with
  | [] => None
  | (k', v) :: kvs' => if String.eqb k k' then Some v else assoc k kvs'
  end.

(** The value written for a [str | None] field. *)
Definition jopt (o : option string) : json :=
  match o with None => JNull | Some s => JStr s end.

Definition jstrs (l : list string) : json := JArr (JStr <$> l).

(** ** [json.dumps] *)

Definition dquote : ascii := ascii_of_nat 34.
Definition backslash : ascii := ascii_of_nat 92.

Definition hex_digit (n : Z) : ascii :=
  ascii_of_nat (Z.to_nat (if n <? 10 then 48 + n else 87 + n)).

Definition hex_byte (b : Z) : string :=
  String (hex_digit (b / 16)) (String (hex_digit (b mod 16)) EmptyString).

Definition escape_char (ensure_ascii : bool) (c : ascii) : string :=
  let n := nat_of_ascii c in
  let esc (s : string) := String backslash s in
  if (n =? 34)%nat then esc (String dquote "")
  else if (n =? 92)%nat then esc (String backslash "")
  else if (n =? 10)%nat then esc "n"
  else if (n =? 13)%nat then esc "r"
  else if (n =? 9)%nat then esc "t"
  else if (n =? 8)%nat then esc "b"
  else if (n =? 12)%nat then esc "f"
  else if (n <? 32)%nat || (ensure_ascii && (126 <? n)%nat)
  then esc (String.append "u00" (hex_byte (Z.of_nat n)))
  else String c "".

Fixpoint escape (ensure_ascii : bool) (s : string) : string :=
  match s with
  | EmptyString => ""
  | String c s' => String.append (escape_char ensure_ascii c) (escape ensure_ascii s')
  end.

Definition quote (ensure_ascii : bool) (s : string) : string :=
  String dquote (String.append (escape ensure_ascii s) (String dquote "")).

(** [json.dumps(v, sort_keys=..., separators=(item_sep, key_sep),
    ensure_ascii=...)]; the keys of a Python dict are distinct. *)
Section dumps.
Context (sort_keys ensure_ascii : bool) (item_sep key_sep : string).

Definition wrap (l r : string) (parts : list string) : string :=
  String.append l (String.append (str_join item_sep parts) r).

Fixpoint dumps (j : json) : string :=
  match j with
  | JNull => "null"
  | JBool true => "true"
  | JBool false => "false"
  | JInt z => pretty z
  | JStr s => quote ensure_ascii s
  | JArr l => wrap "[" "]" (map dumps l)
  | JObj kvs =>
      let kvs := map (λ '(k, v), (k, dumps v)) kvs in
      let kvs := if sort_keys then py_sort (λ a b, str_leb a.1 b.1) kvs else kvs in
      wrap "{" "}" (map (λ '(k, v),
        String.append (quote ensure_ascii k) (String.append key_sep v)) kvs)
  end.
End dumps.

(** [json.dumps(v, sort_keys=True, separators=(",", ":"))] *)
Definition dumps_compact : json → string := dumps true true "," ":".
(** The same with [ensure_ascii=False]. *)
Definition dumps_compact_raw : json → string := dumps true false "," ":".
(** [json.dumps(v, sort_keys=True)] *)
Definition dumps_sorted : json → string := dumps true true ", " ": ".

(** ** [str.encode()]: UTF-8 of code points below U+0100 *)
Fixpoint utf8 (s : string) : list Z :=
  match s with
  | EmptyString => []
  | String c s' =>
      let n := Z.of_nat (nat_of_ascii c) in
      (if n <? 128 then [n] else [192 + n / 64; 128 + n mod 64]) ++ utf8 s'
  end.

Fixpoint hexdigest (bytes : list Z) : string :=
  match bytes with
  | [] => ""
  | b :: bs => String.append (hex_byte b) (hexdigest bs)
  end.

(** ** SHA-256 and SHA-1 (FIPS 180-4) *)
Module Sha.
Definition w32 (z : Z) : Z := Z.land z 0xffffffff.
Definition add32 (l : list Z) : Z := w32 (foldr Z.add 0 l).
Definition rotr (n x : Z) : Z := w32 (Z.lor (Z.shiftr x n) (Z.shiftl x (32 - n))).
Definition rotl (n x : Z) : Z := rotr (32 - n) x.
Definition xor3 (a b c : Z) : Z := Z.lxor a (Z.lxor b c).
Definition not32 (x : Z) : Z := Z.lxor x 0xffffffff.

(** The big-endian bytes of an [n]-byte integer. *)
Fixpoint be_bytes (n : nat) (z : Z) : list Z :=
  match n with
  | O => []
  | S n' => Z.land (Z.shiftr z (8 * Z.of_nat n')) 255 :: be_bytes n' z
  end.

Definition pad (m : list Z) : list Z :=
  let len := Z.of_nat (length m) in
  let zeros := Z.to_nat ((55 - len) mod 64) in
  m ++ [128] ++ repeat 0 zeros ++ be_bytes 8 (8 * len).

Fixpoint words (bytes : list Z) : list Z :=
  match bytes with
  | a :: b :: c :: d :: rest =>
      Z.lor (Z.shiftl a 24) (Z.lor (Z.shiftl b 16) (Z.lor (Z.shiftl c 8) d)) :: words rest
  | _ => []
  end.

Fixpoint blocks (fuel : nat) (ws : list Z) : list (list Z) :=
  match fuel, ws with
  | S fuel', _ :: _ => take 16 ws :: blocks fuel' (drop 16 ws)
  | _, _ => []
  end.

(** The message schedule, most recent word first. *)
Fixpoint extend (next : list Z → Z) (n : nat) (rev_w : list Z) : list Z :=
  match n with O => rev_w | S n' => extend next n' (next rev_w :: rev_w) end.

Definition nth0 (i : nat) (l : list Z) : Z := default 0 (l !! i).

Definition run (step : list Z → list Z → list Z) (iv : list Z) (m : list Z) : list Z :=
  let ws := words (pad m) in
  foldl step iv (blocks (length ws) ws) ≫= be_bytes 4.

(** The constants of SHA-256: the first 32 bits of the fractional parts of the
    cube roots (square roots) of the first primes. *)
Definition is_prime (n : nat) : bool :=
  forallb (λ d, negb (n mod d =? 0)%nat) (seq 2 (n - 2)).

Definition primes : list Z := Z.of_nat <$> List.filter is_prime (seq 2 310).

Fixpoint cbrt_bits (fuel : nat) (n lo : Z) : Z :=
  match fuel with
  | O => lo
  | S fuel' =>
      let mid := lo + Z.shiftl 1 (Z.of_nat fuel') in
      cbrt_bits fuel' n (if mid * mid * mid <=? n then mid else lo)
  end.

Definition K256 : list Z := Eval vm_compute in
  (λ p, cbrt_bits 36 (Z.shiftl p 96) 0 mod Z.shiftl 1 32) <$> primes.

Definition next256 (w : list Z) : Z :=
  let x := nth0 14 w in let y := nth0 1 w in
  add32 [xor3 (rotr 17 y) (rotr 19 y) (Z.shiftr y 10); nth0 6 w;
         xor3 (rotr 7 x) (rotr 18 x) (Z.shiftr x 3); nth0 15 w].

Definition round256 (h : list Z) (kw : Z * Z) : list Z :=
  match h with
  | [a; b; c; d; e; f; g; hh] =>
      let s1 := xor3 (rotr 6 e) (rotr 11 e) (rotr 25 e) in
      let ch := Z.lxor (Z.land e f) (Z.land (not32 e) g) in
      let t1 := add32 [hh; s1; ch; kw.1; kw.2] in
      let s0 := xor3 (rotr 2 a) (rotr 13 a) (rotr 22 a) in
      let mj := xor3 (Z.land a b) (Z.land a c) (Z.land b c) in
      [add32 [t1; s0; mj]; a; b; c; add32 [d; t1]; e; f; g]
  | _ => h
  end.

Definition step256 (h block : list Z) : list Z :=
  let w := rev (extend next256 48 (rev block)) in
  zip_with (λ x y, add32 [x; y]) h (foldl round256 h (zip K256 w)).

Definition iv256 : list Z := Eval vm_compute in
  (λ p, Z.sqrt (Z.shiftl p 64) mod Z.shiftl 1 32) <$> take 8 primes.

Definition next1 (w : list Z) : Z :=
  rotl 1 (Z.lxor (Z.lxor (nth0 2 w) (nth0 7 w)) (Z.lxor (nth0 13 w) (nth0 15 w))).

Definition round1 (h : list Z) (iw : Z * Z) : list Z :=
  match h with
  | [a; b; c; d; e] =>
      let '(f, k) :=
        if iw.1 <? 20 then (Z.lor (Z.land b c) (Z.land (not32 b) d), 0x5a827999)
        else if iw.1 <? 40 then (xor3 b c d, 0x6ed9eba1)
        else if iw.1 <? 60
        then (Z.lor (Z.land b c) (Z.lor (Z.land b d) (Z.land c d)), 0x8f1bbcdc)
        else (xor3 b c d, 0xca62c1d6) in
      [add32 [rotl 5 a; f; e; k; iw.2]; a; rotl 30 b; c; d]
  | _ => h
  end.

Definition step1 (h block : list Z) : list Z :=
  let w := rev (extend next1 64 (rev block)) in
  zip_with (λ x y, add32 [x; y]) h (foldl round1 h (zip (Z.of_nat <$> seq 0 80) w)).

Definition iv1 : list Z := [0x67452301; 0xefcdab89; 0x98badcfe; 0x10325476; 0xc3d2e1f0].
End Sha.

(** [hashlib.sha256(b).digest()], [hashlib.sha1(b).digest()] *)
Definition sha256 (bytes : list Z) : list Z := Sha.run Sha.step256 Sha.iv256 bytes.
Definition sha1 (bytes : list Z) : list Z := Sha.run Sha.step1 Sha.iv1 bytes.

(** [hashlib.sha256(s.encode()).hexdigest()] *)
Definition sha256_hex (s : string) : string := hexdigest (sha256 (utf8 s)).

(** ** [uuid.uuid5] *)
Definition hex_value (c : ascii) : Z :=
  let n := Z.of_nat (nat_of_ascii c) in
  if n <? 58 then n - 48 else n - 87.

(** The sixteen bytes of a canonical UUID text. *)
Fixpoint uuid_bytes (s : string) : list Z :=
  match s with
  | String a ((String b s') as s1) =>
      if Ascii.eqb a "-" then uuid_bytes s1
      else 16 * hex_value a + hex_value b :: uuid_bytes s'
  | _ => []
  end.

Definition uuid_text (bytes : list Z) : uuid :=
  str_join "-" [hexdigest (take 4 bytes); hexdigest (take 2 (drop 4 bytes));
    hexdigest (take 2 (drop 6 bytes)); hexdigest (take 2 (drop 8 bytes));
    hexdigest (take 6 (drop 10 bytes))].

Definition uuid5 (namespace : uuid) (name : string) : uuid :=
  let h := take 16 (sha1 (uuid_bytes namespace ++ utf8 name)) in
  uuid_text (imap (λ i b,
    if (i =? 6)%nat then Z.lor (Z.land b 15) 80
    else if (i =? 8)%nat then Z.lor (Z.land b 63) 128 else b) h).

(** ** The shape of a digest *)

Lemma be_bytes_spec n z :
  length (Sha.be_bytes n z) = n ∧ ∀ b, b ∈ Sha.be_bytes n z → 0 <= b < 256.
Proof.
  induction n as [|n [IH1 IH2]]; cbn; [split; [done | set_solver]|].
  split; [by rewrite IH1|]. intros b [->|]%elem_of_cons; [|auto].
  change 255 with (Z.ones 8). rewrite Z.land_ones by lia. apply Z.mod_pos_bound. lia.
Qed.

Lemma round256_length h kw : length h = 8%nat → length (Sha.round256 h kw) = 8%nat.
Proof. intros H. do 9 (destruct h as [|? h]; try done). Qed.

Lemma step256_length h b : length h = 8%nat → length (Sha.step256 h b) = 8%nat.
Proof.
  intros H. unfold Sha.step256. rewrite length_zip_with.
  assert (Hf : ∀ l h0, length h0 = 8%nat → length (foldl Sha.round256 h0 l) = 8%nat).
  { induction l as [|x l IH]; intros h0 H0; [done|]. cbn. by apply IH, round256_length. }
  rewrite Hf by done. lia.
Qed.

Lemma sha256_spec m : length (sha256 m) = 32%nat ∧ ∀ b, b ∈ sha256 m → 0 <= b < 256.
Proof.
  unfold sha256, Sha.run. set (bs := Sha.blocks _ _).
  assert (Hh : length (foldl Sha.step256 Sha.iv256 bs) = 8%nat).
  { assert (∀ l h0, length h0 = 8%nat → length (foldl Sha.step256 h0 l) = 8%nat) as Hf.
    { induction l as [|x l IH]; intros h0 H0; [done|]. cbn. by apply IH, step256_length. }
    by apply Hf. }
  revert Hh. generalize (foldl Sha.step256 Sha.iv256 bs). intros h Hh. split.
  - do 9 (destruct h as [|? h]; try done).
  - intros b [x [Hb _]]%list_elem_of_bind. by apply be_bytes_spec in Hb.
Qed.

Lemma hexdigest_spec bs :
  (∀ b, b ∈ bs → 0 <= b < 256) →
  String.length (hexdigest bs) = (2 * length bs)%nat ∧ all_chars is_lower_hex (hexdigest bs) = true.
Proof.
  assert (Hd : ∀ n, 0 <= n < 16 → is_lower_hex (hex_digit n) = true).
  { intros n Hn.
    assert (Hall : forallb (λ n, is_lower_hex (hex_digit n)) (seqZ 0 16) = true) by (vm_compute; done).
    rewrite forallb_forall in Hall. apply Hall, list_elem_of_In, elem_of_seqZ. lia. }
  induction bs as [|b bs IH]; intros Hb; [done|].
  destruct IH as [IH1 IH2]; [set_solver|]. specialize (Hb b ltac:(set_solver)).
  change (hexdigest (b :: bs)) with
    (String (hex_digit (b / 16)) (String (hex_digit (b mod 16)) (hexdigest bs))).
  cbn -[is_lower_hex hex_digit Z.div Z.modulo]. rewrite !Hd, IH1, IH2; [split; [lia | done] | apply Z.mod_pos_bound; lia |].
  split; [apply Z.div_pos; lia | apply Z.div_lt_upper_bound; lia].
Qed.

Lemma sha256_hex_ok s : hex_fullmatch 64 (sha256_hex s) = true.
Proof.
  unfold sha256_hex, hex_fullmatch. destruct (sha256_spec (utf8 s)) as [Hl Hb].
  destruct (hexdigest_spec _ Hb) as [-> ->]. by rewrite Hl.
Qed.

#[global] Arguments sha256_hex : simpl never.
#[global] Arguments uuid5 : simpl never.
#[global] Arguments dumps : simpl never.
#[global] Opaque sha256 sha1.

(** ** Published test vectors *)

Example sha256_abc :
  sha256_hex "abc" = "ba7816bf8f01cfea414140de5dae2223b00361a396177a9cb410ff61f20015ad".
Proof. vm_compute. reflexivity. Qed.

Example uuid5_dns :
  uuid5 "6ba7b810-9dad-11d1-80b4-00c04fd430c8" "python.org"
  = "886313e1-3b8a-5372-9b90-0c9aee199e5d".
Proof. vm_compute. reflexivity. Qed.

Example dumps_ex :
  dumps_compact (JObj [("b", JArr [JInt (-12); JNull]); ("a", JBool true)])
  = String.append "{" (String.append (quote true "a") (String.append ":true,"
      (String.append (quote true "b") ":[-12,null]}"))).
Proof. vm_compute. reflexivity. Qed.
