(* ===== verification/Codec.v ===== *)
(** * Reading text back: base64, Unicode and [json.loads]

    The other direction of [Json]: the URL-safe base64 of [base64], the
    decoding of bytes that [json.loads] applies, and its parser, all of the
    Python standard library and executable.  The cursors that pages of the
    tracker hand to their callers are written and read with them.

    Decoded text is a list of code points, so that a text from outside may
    hold any character.  Python limits an integer literal to 4300 digits,
    which the parser has; the interpreter's bound on nesting is not modelled.
    The parser runs on fuel and [scan_enough] shows that the fuel it is given
    never ends. *)

From stdpp Require Import pretty.
From S2P Require Import Prelude PyFloat Json.

Local Open Scope Z_scope.

Definition cp (c : ascii) : Z := Z.of_nat (nat_of_ascii c).

Fixpoint codes (s : string) : list Z :=
  match s with EmptyString => [] | String c s' => cp c :: codes s' end.

(** ** Base64 ([base64.urlsafe_b64encode], [base64.urlsafe_b64decode]) *)

(** A digit of the URL-safe alphabet. *)
Definition b64_char (n : Z) : ascii :=
  ascii_of_nat (Z.to_nat (
    if n <? 26 then 65 + n else if n <? 52 then 71 + n else if n <? 62 then n - 4
    else if n =? 62 then 45 else 95)).

(** The value of a character for the decoder: the standard alphabet after
    [translate], which accepts both of its spellings. *)
Definition b64_value (c : ascii) : option Z :=
  let n := cp c in
  if (65 <=? n) && (n <=? 90) then Some (n - 65)
  else if (97 <=? n) && (n <=? 122) then Some (n - 71)
  else if (48 <=? n) && (n <=? 57) then Some (n + 4)
  else if (n =? 45) || (n =? 43) then Some 62
  else if (n =? 95) || (n =? 47) then Some 63
  else None.

Fixpoint b64_encode (bytes : list Z) : string :=
  match bytes with
  | [] => ""
  | [a] => String (b64_char (a / 4)) (String (b64_char (a mod 4 * 16)) "==")
  | [a; b] =>
      String (b64_char (a / 4)) (String (b64_char (a mod 4 * 16 + b / 16))
        (String (b64_char (b mod 16 * 4)) "="))
  | a :: b :: c :: bytes' =>
      String (b64_char (a / 4)) (String (b64_char (a mod 4 * 16 + b / 16))
        (String (b64_char (b mod 16 * 4 + c / 64)) (String (b64_char (c mod 64)) (b64_encode bytes'))))
  end.

(** [s.rstrip("=")] *)
Fixpoint rstrip_eq (s : string) : string :=
  match s with
  | EmptyString => ""
  | String c s' =>
      let r := rstrip_eq s' in
      if Ascii.eqb c "=" && String.eqb r "" then "" else String c r
  end.

(** [binascii.a2b_base64] without [strict_mode]: characters outside the
    alphabet are skipped, and padding that completes a group ends the input.
    [quad] counts the digits of the group read so far, [left] holds the bits
    not yet written, [pads] the padding just read. *)
Fixpoint a2b (quad pads left : Z) (s : string) : option (list Z) :=
  match s with
  | EmptyString => if quad =? 0 then Some [] else None
  | String c s' =>
      if Ascii.eqb c "=" then
        if 2 <=? quad then
          if 4 <=? quad + (pads + 1) then Some [] else a2b quad (pads + 1) left s'
        else a2b quad pads left s'
      else match b64_value c with
      | None => a2b quad pads left s'
      | Some v =>
          if quad =? 0 then a2b 1 0 v s'
          else if quad =? 1 then (λ l, left * 4 + v / 16 :: l) <$> a2b 2 0 (v mod 16) s'
          else if quad =? 2 then (λ l, left * 16 + v / 4 :: l) <$> a2b 3 0 (v mod 4) s'
          else (λ l, left * 64 + v :: l) <$> a2b 0 0 0 s'
      end
  end.

(** [base64.urlsafe_b64decode(s)]; text outside ASCII is refused first. *)
Definition b64_decode (s : string) : option (list Z) :=
  if all_chars (λ c, cp c <? 128) s then a2b 0 0 0 s else None.

(** ["=" * n] *)
Definition pad_eq (n : Z) : string := String.string_of_list_ascii (replicate (Z.to_nat n) "="%char).

(** ** Decoding bytes ([bytes.decode(..., "surrogatepass")]) *)

Definition is_cont (b : Z) : bool := (128 <=? b) && (b <? 192).

Fixpoint decode_utf8 (l : list Z) : option (list Z) :=
  match l with
  | [] => Some []
  | a :: l1 =>
      if a <? 128 then (cons a) <$> decode_utf8 l1
      else match l1 with
      | [] => None
      | b :: l2 =>
          if negb (is_cont b) then None
          else if (194 <=? a) && (a <? 224) then
            (cons ((a - 192) * 64 + (b - 128))) <$> decode_utf8 l2
          else match l2 with
          | [] => None
          | c :: l3 =>
              if negb (is_cont c) then None
              else if (224 <=? a) && (a <? 240) then
                let n := (a - 224) * 4096 + (b - 128) * 64 + (c - 128) in
                if n <? 2048 then None else (cons n) <$> decode_utf8 l3
              else match l3 with
              | [] => None
              | d :: l4 =>
                  let n := (a - 240) * 262144 + (b - 128) * 4096 + (c - 128) * 64 + (d - 128) in
                  if is_cont d && (240 <=? a) && (65536 <=? n) && (n <? 1114112)
                  then (cons n) <$> decode_utf8 l4 else None
              end
          end
      end
  end.

Definition is_high (n : Z) : bool := (55296 <=? n) && (n <? 56320).
Definition is_low (n : Z) : bool := (56320 <=? n) && (n <? 57344).

(** A surrogate pair is one character; a lone surrogate passes. *)
Fixpoint join_surrogates (l : list Z) : list Z :=
  match l with
  | a :: ((b :: l') as l1) =>
      if is_high a && is_low b
      then 65536 + (a - 55296) * 1024 + (b - 56320) :: join_surrogates l'
      else a :: join_surrogates l1
  | _ => l
  end.

Fixpoint units16 (big : bool) (l : list Z) : option (list Z) :=
  match l with
  | [] => Some []
  | a :: b :: l' => (cons (if big then a * 256 + b else b * 256 + a)) <$> units16 big l'
  | _ => None
  end.

Fixpoint decode_utf32 (big : bool) (l : list Z) : option (list Z) :=
  match l with
  | [] => Some []
  | a :: b :: c :: d :: l' =>
      let n := if big then a * 16777216 + b * 65536 + c * 256 + d
               else d * 16777216 + c * 65536 + b * 256 + a in
      if n <? 1114112 then (cons n) <$> decode_utf32 big l' else None
  | _ => None
  end.

Definition decode_utf16 (big : bool) (l : list Z) : option (list Z) :=
  join_surrogates <$> units16 big l.

Definition starts (p l : list Z) : bool := bool_decide (take (length p) l = p).

(** [b.decode(json.detect_encoding(b), "surrogatepass")]; the codecs [utf-16],
    [utf-32] and [utf-8-sig] drop the byte order mark they start with. *)
Definition decode_detected (b : list Z) : option (list Z) :=
  let at_ i := default 0 (b !! i) in
  if starts [0; 0; 254; 255] b then decode_utf32 true (drop 4 b)
  else if starts [255; 254; 0; 0] b then decode_utf32 false (drop 4 b)
  else if starts [254; 255] b then decode_utf16 true (drop 2 b)
  else if starts [255; 254] b then decode_utf16 false (drop 2 b)
  else if starts [239; 187; 191] b then decode_utf8 (drop 3 b)
  else if (4 <=? length b)%nat then
    if at_ 0%nat =? 0 then
      if at_ 1%nat =? 0 then decode_utf32 true b else decode_utf16 true b
    else if at_ 1%nat =? 0 then
      if (at_ 2%nat =? 0) && (at_ 3%nat =? 0) then decode_utf32 false b else decode_utf16 false b
    else decode_utf8 b
  else if (length b =? 2)%nat then
    if at_ 0%nat =? 0 then decode_utf16 true b
    else if at_ 1%nat =? 0 then decode_utf16 false b
    else decode_utf8 b
  else decode_utf8 b.

(** ** The parser ([json.loads]) *)

#[warnings="-register-all"]
Inductive pyval :=
  | PNone
  | PBool (b : bool)
  | PInt (z : Z)
  | PFloat (f : float)
  | PStr (s : list Z)
  | PList (l : list pyval)
  | PDict (kvs : list (list Z * pyval)) (* the pairs as read *).

Definition is_space (c : Z) : bool := (c =? 32) || (c =? 9) || (c =? 10) || (c =? 13).
Definition is_dec (c : Z) : bool := (48 <=? c) && (c <=? 57).

Definition hexval (c : Z) : option Z :=
  if is_dec c then Some (c - 48)
  else if (97 <=? c) && (c <=? 102) then Some (c - 87)
  else if (65 <=? c) && (c <=? 70) then Some (c - 55)
  else None.

Fixpoint skip_ws (l : list Z) : list Z :=
  match l with c :: l' => if is_space c then skip_ws l' else l | [] => [] end.

Fixpoint span_dec (l : list Z) : list Z * list Z :=
  match l with
  | c :: l' => if is_dec c then let '(ds, r) := span_dec l' in (c :: ds, r) else ([], l)
  | [] => ([], [])
  end.

Definition hex4 (a b c d : Z) : option Z :=
  wa ← hexval a; wb ← hexval b; wc ← hexval c; wd ← hexval d;
  Some (4096 * wa + 256 * wb + 16 * wc + wd).

Definition simple_escape (c : Z) : option Z :=
  if (c =? 34) || (c =? 92) || (c =? 47) then Some c
  else if c =? 98 then Some 8 else if c =? 102 then Some 12 else if c =? 110 then Some 10
  else if c =? 114 then Some 13 else if c =? 116 then Some 9 else None.

Definition push (c : Z) (o : option (list Z * list Z)) : option (list Z * list Z) :=
  match o with Some (s, r) => Some (c :: s, r) | None => None end.

(** The rest of a string literal after its opening quote. *)
Fixpoint scan_string (l : list Z) : option (list Z * list Z) :=
  match l with
  | [] => None
  | c :: l1 =>
      if c =? 34 then Some ([], l1)
      else if negb (c =? 92) then if c <? 32 then None else push c (scan_string l1)
      else match l1 with
      | [] => None
      | e :: l2 =>
          if negb (e =? 117) then x ← simple_escape e; push x (scan_string l2)
          else match l2 with
          | h1 :: h2 :: h3 :: h4 :: l3 =>
              u ← hex4 h1 h2 h3 h4;
              match l3 with
              | p :: q :: k1 :: k2 :: k3 :: k4 :: l4 =>
                  if is_high u && (p =? 92) && (q =? 117) then
                    u2 ← hex4 k1 k2 k3 k4;
                    if is_low u2
                    then push (65536 + (u - 55296) * 1024 + (u2 - 56320)) (scan_string l4)
                    else push u (scan_string l3)
                  else push u (scan_string l3)
              | _ => push u (scan_string l3)
              end
          | _ => None
          end
      end
  end.

Definition dec_value (ds : list Z) : Z := foldl (λ acc d, 10 * acc + (d - 48)) 0 ds.

(** The float of a decimal literal [m * 10 ^ e]. *)
Definition dec_float (neg : bool) (m e : Z) : float :=
  let f := if 0 <=? e then f_of_Z (m * 10 ^ e) else int_truediv m (10 ^ (- e)) in
  if neg then SFopp f else f.

(** The next character is [c]. *)
Definition next_is (c : Z) (l : list Z) : bool :=
  match l with d :: _ => d =? c | [] => false end.

Definition scan_exponent (l : list Z) : option Z * list Z :=
  match l with
  | c :: l1 =>
      if (c =? 101) || (c =? 69) then
        let neg := next_is 45 l1 in
        let l2 := if neg || next_is 43 l1 then drop 1 l1 else l1 in
        match span_dec l2 with
        | ([], _) => (None, l)
        | (ds, r) => (Some (if neg then - dec_value ds else dec_value ds), r)
        end
      else (None, l)
  | [] => (None, l)
  end.

Definition scan_fraction (l : list Z) : option (list Z) * list Z :=
  if next_is 46 l then
    match span_dec (drop 1 l) with ([], _) => (None, l) | (ds, r) => (Some ds, r) end
  else (None, l).

(** A number after its sign. *)
Definition scan_number (neg : bool) (l : list Z) : option (pyval * list Z) :=
  match l with
  | [] => None
  | c :: l1 =>
      if negb (is_dec c) then None
      else
        let '(ds, l2) := if c =? 48 then ([48], l1) else span_dec l in
        let '(frac, l3) := scan_fraction l2 in
        let '(ex, l4) := scan_exponent l3 in
        match frac, ex with
        | None, None =>
            if 4300 <? Z.of_nat (length ds) then None
            else Some (PInt (if neg then - dec_value ds else dec_value ds), l4)
        | _, _ =>
            let fs := default [] frac in
            Some (PFloat (dec_float neg (dec_value (ds ++ fs))
                            (default 0 ex - Z.of_nat (length fs))), l4)
        end
  end.

(** A literal word. *)
Definition word (w : string) (v : pyval) (l : list Z) : option (pyval * list Z) :=
  if starts (codes w) l then Some (v, drop (String.length w) l) else None.

(** The outcome of a scan: a value and what follows it, a syntax error, or
    the end of the fuel. *)
Inductive scanned (A : Type) :=
  | SOk (a : A) (rest : list Z)
  | SErr
  | SOut.
Arguments SOk {_} _ _.
Arguments SErr {_}.
Arguments SOut {_}.

Definition of_opt {A} (o : option (A * list Z)) : scanned A :=
  match o with Some (a, r) => SOk a r | None => SErr end.

(** [scan_once], with the loops of [_parse_array] and [_parse_object]. *)
Fixpoint scan (n : nat) (l : list Z) : scanned pyval :=
  match n with
  | O => SOut
  | S n =>
      match l with
      | [] => SErr
      | c :: l1 =>
          if c =? 34 then of_opt ('(s, r) ← scan_string l1; Some (PStr s, r))
          else if c =? 91 then
            let r := skip_ws l1 in
            if next_is 93 r then SOk (PList []) (drop 1 r)
            else match items n r with
                 | SOk vs r' => SOk (PList vs) r'
                 | SErr => SErr
                 | SOut => SOut
                 end
          else if c =? 123 then
            let r := skip_ws l1 in
            if next_is 125 r then SOk (PDict []) (drop 1 r)
            else match members n r with
                 | SOk kvs r' => SOk (PDict kvs) r'
                 | SErr => SErr
                 | SOut => SOut
                 end
          else if c =? 110 then of_opt (word "null" PNone l)
          else if c =? 116 then of_opt (word "true" (PBool true) l)
          else if c =? 102 then of_opt (word "false" (PBool false) l)
          else if c =? 78 then of_opt (word "NaN" (PFloat S754_nan) l)
          else if c =? 73 then of_opt (word "Infinity" (PFloat (S754_infinity false)) l)
          else if c =? 45 then
            if starts (codes "Infinity") l1
            then SOk (PFloat (S754_infinity true)) (drop 8 l1)
            else of_opt (scan_number true l1)
          else of_opt (scan_number false l)
      end
  end
with items (n : nat) (l : list Z) : scanned (list pyval) :=
  match n with
  | O => SOut
  | S n =>
      match scan n l with
      | SErr => SErr
      | SOut => SOut
      | SOk v r0 =>
          let r := skip_ws r0 in
          if next_is 93 r then SOk [v] (drop 1 r)
          else if next_is 44 r then
            match items n (skip_ws (drop 1 r)) with
            | SOk vs r' => SOk (v :: vs) r'
            | SErr => SErr
            | SOut => SOut
            end
          else SErr
      end
  end
with members (n : nat) (l : list Z) : scanned (list (list Z * pyval)) :=
  match n with
  | O => SOut
  | S n =>
      if negb (next_is 34 l) then SErr
      else match scan_string (drop 1 l) with
      | None => SErr
      | Some (k, l1) =>
          let l2 := skip_ws l1 in
          if negb (next_is 58 l2) then SErr
          else match scan n (skip_ws (drop 1 l2)) with
          | SErr => SErr
          | SOut => SOut
          | SOk v r0 =>
              let r := skip_ws r0 in
              if next_is 125 r then SOk [(k, v)] (drop 1 r)
              else if next_is 44 r then
                match members n (skip_ws (drop 1 r)) with
                | SOk kvs r' => SOk ((k, v) :: kvs) r'
                | SErr => SErr
                | SOut => SOut
                end
              else SErr
          end
      end
  end.

(** Enough for a text of length [n]. *)
Definition fuel_for (l : list Z) : nat := (2 * length l + 1)%nat.

(** [json.loads(bytes)]; [None] is a [ValueError] ([JSONDecodeError],
    [UnicodeDecodeError] or that of [int]). *)
Definition loads_text (l : list Z) : option pyval :=
  let l := skip_ws l in
  match scan (fuel_for l) l with
  | SOk v r => match skip_ws r with [] => Some v | _ => None end
  | _ => None
  end.

Definition loads (bytes : list Z) : option pyval := decode_detected bytes ≫= loads_text.

(** ** Base64 reads what it wrote *)

Definition byte (b : Z) : Prop := 0 <= b < 256.

(** A fact of the digits below [n], by computation. *)
Lemma below_check (n : Z) (p : Z → bool) :
  forallb p (seqZ 0 n) = true → ∀ x, 0 <= x < n → p x = true.
Proof. rewrite forallb_forall. intros H x Hx. apply H, list_elem_of_In, elem_of_seqZ. lia. Qed.

Lemma b64_char_ok n :
  0 <= n < 64 →
  b64_value (b64_char n) = Some n ∧ Ascii.eqb (b64_char n) "=" = false ∧ (cp (b64_char n) <? 128) = true.
Proof.
  intros Hn.
  pose proof (below_check 64 (λ n, bool_decide (b64_value (b64_char n) = Some n) &&
    negb (Ascii.eqb (b64_char n) "=") && (cp (b64_char n) <? 128)) ltac:(vm_compute; done) n Hn) as H.
  cbv beta in H. rewrite !andb_true_iff, negb_true_iff, bool_decide_eq_true in H. tauto.
Qed.

Lemma b64_char_ascii n : 0 <= n < 64 → (cp (b64_char n) <? 128) = true.
Proof. intros Hn. apply (b64_char_ok n Hn). Qed.

#[local] Arguments b64_char : simpl never.
#[local] Arguments b64_value : simpl never.
#[local] Arguments Z.div : simpl never.
#[local] Arguments Z.modulo : simpl never.
#[local] Arguments Z.mul : simpl never.

Lemma rstrip_digit n s :
  0 <= n < 64 → rstrip_eq (String (b64_char n) s) = String (b64_char n) (rstrip_eq s).
Proof. intros Hn. cbn. by destruct (b64_char_ok n Hn) as (_ & -> & _). Qed.

(** One digit read. *)
Lemma a2b_digit n quad pads left s :
  0 <= n < 64 →
  a2b quad pads left (String (b64_char n) s) =
    if quad =? 0 then a2b 1 0 n s
    else if quad =? 1 then (λ l, left * 4 + n / 16 :: l) <$> a2b 2 0 (n mod 16) s
    else if quad =? 2 then (λ l, left * 16 + n / 4 :: l) <$> a2b 3 0 (n mod 4) s
    else (λ l, left * 64 + n :: l) <$> a2b 0 0 0 s.
Proof. intros Hn. cbn. by destruct (b64_char_ok n Hn) as (-> & -> & _). Qed.

(** Digits of a group are below 64, and a group gives its bytes back. *)
Ltac digit := Z.to_euclidean_division_equations; lia.

Lemma strip_encode_cons a b c bs :
  byte a → byte b → byte c →
  rstrip_eq (b64_encode (a :: b :: c :: bs)) =
    String (b64_char (a / 4)) (String (b64_char (a mod 4 * 16 + b / 16))
      (String (b64_char (b mod 16 * 4 + c / 64)) (String (b64_char (c mod 64)) (rstrip_eq (b64_encode bs))))).
Proof. unfold byte. intros. cbn [b64_encode]. rewrite !rstrip_digit by digit. done. Qed.

Lemma byte_ind3 (P : list Z → Prop) :
  P [] → (∀ a, P [a]) → (∀ a b, P [a; b]) → (∀ a b c bs, P bs → P (a :: b :: c :: bs)) → ∀ bs, P bs.
Proof.
  intros H0 H1 H2 H3. fix IH 1. intros [|a [|b [|c bs]]]; [done | apply H1 | apply H2 | apply H3, IH].
Qed.

Lemma length_cons c s : String.length (String c s) = S (String.length s).
Proof. done. Qed.

Lemma append_cons c s t : String.append (String c s) t = String c (String.append s t).
Proof. done. Qed.

Lemma a2b_encode bs :
  Forall byte bs →
  let s := rstrip_eq (b64_encode bs) in
  all_chars (λ c, cp c <? 128) s = true ∧
  a2b 0 0 0 (String.append s (pad_eq (- py_len s mod 4))) = Some bs.
Proof.
  induction bs as [| a | a b | a b c bs IH] using byte_ind3; intros Hb; cbv zeta.
  - done.
  - apply Forall_cons in Hb as [Ha _]. unfold byte in Ha.
    assert (H1 : 0 <= a / 4 < 64) by digit. assert (H2 : 0 <= a mod 4 * 16 < 64) by digit.
    cbn [b64_encode]. rewrite !rstrip_digit by done. cbn [rstrip_eq Ascii.eqb Bool.eqb String.eqb andb all_chars].
    split; [by rewrite !b64_char_ascii by done|].
    change (a2b 0 0 0 (String (b64_char (a / 4)) (String (b64_char (a mod 4 * 16)) "==")) = Some [a]).
    rewrite !a2b_digit by done. cbn -[Z.add]. change (4 <=? 2 + (0 + 1)) with false. change (4 <=? 2 + (0 + 1 + 1)) with true. cbn -[Z.add].
    do 2 f_equal. digit.
  - apply Forall_cons in Hb as [Ha Hb]. apply Forall_cons in Hb as [Hb _]. unfold byte in *.
    assert (H1 : 0 <= a / 4 < 64) by digit. assert (H2 : 0 <= a mod 4 * 16 + b / 16 < 64) by digit.
    assert (H3 : 0 <= b mod 16 * 4 < 64) by digit.
    cbn [b64_encode]. rewrite !rstrip_digit by done. cbn [rstrip_eq Ascii.eqb Bool.eqb String.eqb andb all_chars].
    split; [by rewrite !b64_char_ascii by done|].
    change (a2b 0 0 0 (String (b64_char (a / 4)) (String (b64_char (a mod 4 * 16 + b / 16))
      (String (b64_char (b mod 16 * 4)) "="))) = Some [a; b]).
    rewrite !a2b_digit by done. cbn -[Z.add]. change (4 <=? 3 + (0 + 1)) with true. cbn -[Z.add].
    do 2 f_equal; [digit|]. f_equal. digit.
  - apply Forall_cons in Hb as [Ha Hb]. apply Forall_cons in Hb as [Hb Hc].
    apply Forall_cons in Hc as [Hc Hbs]. specialize (IH Hbs) as [IHc IH].
    rewrite strip_encode_cons by done. unfold byte in *.
    assert (H1 : 0 <= a / 4 < 64) by digit. assert (H2 : 0 <= a mod 4 * 16 + b / 16 < 64) by digit.
    assert (H3 : 0 <= b mod 16 * 4 + c / 64 < 64) by digit. assert (H4 : 0 <= c mod 64 < 64) by digit.
    set (r := rstrip_eq _) in *. cbn [all_chars].
    split; [by rewrite !b64_char_ascii by done|].
    replace (- py_len _ mod 4) with (- py_len r mod 4)
      by (unfold py_len; rewrite !length_cons, !Nat2Z.inj_succ; digit).
    rewrite !append_cons.
    rewrite !a2b_digit by done. cbn [Z.eqb]. rewrite IH. cbn -[Z.add]. repeat f_equal; digit.
Qed.

Lemma all_chars_app p a b : all_chars p (String.append a b) = all_chars p a && all_chars p b.
Proof.
  induction a as [|c a IH]; [done|]. rewrite append_cons. cbn [all_chars]. by rewrite IH, andb_assoc.
Qed.

Lemma all_chars_pad p n : p "="%char = true → all_chars p (pad_eq n) = true.
Proof.
  intros Hp. unfold pad_eq. induction (Z.to_nat n) as [|k IH]; [done|].
  cbn [replicate String.string_of_list_ascii all_chars]. by rewrite Hp.
Qed.

(** [urlsafe_b64decode(s + "=" * (-len(s) % 4))] of a stripped text. *)
Lemma b64_roundtrip bs :
  Forall byte bs →
  let s := rstrip_eq (b64_encode bs) in
  b64_decode (String.append s (pad_eq (- py_len s mod 4))) = Some bs.
Proof.
  intros Hb. destruct (a2b_encode bs Hb) as [Hc H]. cbv zeta. unfold b64_decode.
  by rewrite all_chars_app, Hc, all_chars_pad.
Qed.

(** ** The parser consumes what it reads, and its fuel is enough *)

Lemma skip_ws_length l : (length (skip_ws l) <= length l)%nat.
Proof. induction l as [|c l IH]; [done|]. cbn. destruct (is_space c); cbn; lia. Qed.

Lemma span_dec_length l ds r : span_dec l = (ds, r) → (length ds + length r = length l)%nat.
Proof.
  revert ds r. induction l as [|c l IH]; intros ds r; cbn; [by intros [= <- <-]|].
  destruct (is_dec c); [|by intros [= <- <-]].
  destruct (span_dec l) as [ds' r'] eqn:E. intros [= <- <-]. specialize (IH _ _ eq_refl). cbn. lia.
Qed.

Lemma push_Some c o s r : push c o = Some (s, r) → ∃ s', o = Some (s', r) ∧ s = c :: s'.
Proof. destruct o as [[s' r']|]; cbn; [|done]. intros [= <- <-]. by exists s'. Qed.

#[local] Opaque simple_escape hex4 is_high is_low.

Lemma scan_string_shorter n : ∀ l s r,
  (length l <= n)%nat → scan_string l = Some (s, r) → (length r < length l)%nat.
Proof.
  induction n as [|n IH]; intros l s r Hl H; [by destruct l; cbn in *; [|lia]|].
  destruct l as [|c l1]; [done|]. cbn [length] in Hl |- *.
  assert (Hrec : ∀ x l', push x (scan_string l') = Some (s, r) → (length l' <= length l1)%nat →
    (length r < S (length l1))%nat).
  { intros x l' (s' & Hs & _)%push_Some Hl'. apply IH in Hs; lia. }
  cbn [scan_string] in H.
  destruct (c =? 34); [injection H as <- <-; lia|].
  destruct (negb (c =? 92)). { destruct (c <? 32); [done|]. by apply (Hrec c l1). }
  destruct l1 as [|e l2]; [done|].
  destruct (negb (e =? 117)).
  { apply bind_Some in H as (x & _ & H). apply (Hrec x l2); [done | cbn; lia]. }
  destruct l2 as [|h1 [|h2 [|h3 [|h4 l3]]]]; try done.
  apply bind_Some in H as (u & _ & H).
  assert (Hu : push u (scan_string l3) = Some (s, r) → (length r < S (length (e :: h1 :: h2 :: h3 :: h4 :: l3)))%nat).
  { intros Hp. apply (Hrec u l3); [done | cbn; lia]. }
  destruct l3 as [|p [|q [|k1 [|k2 [|k3 [|k4 l4]]]]]]; try by apply Hu.
  destruct (is_high u && (p =? 92) && (q =? 117)); [|by apply Hu].
  apply bind_Some in H as (u2 & _ & H). destruct (is_low u2); [|by apply Hu].
  eapply Hrec; [done | cbn; lia].
Qed.

Lemma scan_exponent_length l : (length (scan_exponent l).2 <= length l)%nat.
Proof.
  destruct l as [|c l1]; [done|]. cbn [scan_exponent]. destruct (_ || _); [|done]. cbv zeta.
  set (l2 := if _ || _ then _ else _).
  assert (Hl2 : (length l2 <= length l1)%nat) by (subst l2; destruct (_ || _); rewrite ?length_drop; lia).
  destruct (span_dec l2) as [[|d ds] r] eqn:E; [done|].
  apply span_dec_length in E. cbn in *. lia.
Qed.

Lemma scan_fraction_length l : (length (scan_fraction l).2 <= length l)%nat.
Proof.
  unfold scan_fraction. destruct (next_is 46 l); [|done].
  destruct (span_dec (drop 1 l)) as [[|d ds] r] eqn:E; [done|].
  apply span_dec_length in E. rewrite length_drop in E. cbn in *. lia.
Qed.

Lemma scan_number_shorter neg l v r :
  scan_number neg l = Some (v, r) → (length r < length l)%nat.
Proof.
  destruct l as [|c l1]; [done|]. cbn [scan_number].
  destruct (is_dec c) eqn:Hc; cbn [negb]; [|done].
  destruct (if c =? 48 then _ else _) as [ds l2] eqn:E2.
  assert (H2 : (length l2 < length (c :: l1))%nat).
  { destruct (c =? 48); [injection E2 as <- <-; cbn; lia|].
    cbn [span_dec] in E2. rewrite Hc in E2. destruct (span_dec l1) as [ds' r'] eqn:E1.
    apply span_dec_length in E1. injection E2 as <- <-. cbn. lia. }
  pose proof (scan_fraction_length l2) as H3. destruct (scan_fraction l2) as [frac l3].
  pose proof (scan_exponent_length l3) as H4. destruct (scan_exponent l3) as [ex l4]. cbn in *.
  intros H. assert (r = l4) as -> by (repeat case_match; simplify_eq; done). lia.
Qed.

Lemma of_opt_shorter {A} (o : option (A * list Z)) v r (n : nat) :
  of_opt o = SOk v r → (∀ v r, o = Some (v, r) → (length r < n)%nat) → (length r < n)%nat.
Proof. destruct o as [[v' r']|]; cbn; [|done]. intros [= <- <-] H. by eapply H. Qed.

Lemma word_shorter w x l v r :
  (0 < String.length w)%nat → word w x l = Some (v, r) → (length r < length l)%nat.
Proof.
  unfold word, starts. case_bool_decide as H; [|done]. intros Hw [= <- <-]. rewrite length_drop.
  assert (Hc : length (codes w) = String.length w) by (clear; induction w; cbn; congruence).
  apply (f_equal length) in H. rewrite length_take in H. lia.
Qed.

Lemma scan_string_lt l s r : scan_string l = Some (s, r) → (length r < length l)%nat.
Proof. by apply (scan_string_shorter (length l)). Qed.

Lemma next_is_drop c l : next_is c l = true → length l = S (length (drop 1 l)).
Proof. destruct l; [done|]. cbn. by rewrite drop_0. Qed.

Ltac know_ws l :=
  lazymatch goal with
  | _ : (length (skip_ws l) <= length l)%nat |- _ => fail
  | |- _ => pose proof (skip_ws_length l)
  end.

Ltac lengths :=
  repeat match goal with
  | H : next_is _ ?l = true |- _ => apply next_is_drop in H
  | H : scan_string _ = Some (_, _) |- _ => apply scan_string_lt in H
  | |- context [skip_ws ?l] => know_ws l
  | _ : context [skip_ws ?l] |- _ => know_ws l
  end; cbn [length] in *; lia.

(** One step of the three scanners, by the outcomes they pass on. *)
Definition outcome_lt {A} (l : list Z) (o : scanned A) : Prop :=
  match o with SOk _ r => (length r < length l)%nat | _ => True end.

Lemma of_opt_lt {A} (o : option (A * list Z)) (l : list Z) :
  (∀ v r, o = Some (v, r) → (length r < length l)%nat) → outcome_lt l (of_opt o).
Proof. destruct o as [[v r]|]; cbn; [|done]. intros H. by eapply H. Qed.

Lemma word_lt w x l : (0 < String.length w)%nat → outcome_lt l (of_opt (word w x l)).
Proof. intros Hw. apply of_opt_lt. intros v r. by apply word_shorter. Qed.

Lemma scan_shorter n :
  (∀ l, outcome_lt l (scan n l)) ∧ (∀ l, outcome_lt l (items n l)) ∧ (∀ l, outcome_lt l (members n l)).
Proof.
  induction n as [|n (IHs & IHi & IHm)]; [done|]. split_and!; intros l.
  - destruct l as [|c l1]; [done|]. cbn [scan].
    destruct (c =? 34).
    { apply of_opt_lt. intros v r ([s r'] & Hs & [= <- <-])%bind_Some. lengths. }
    destruct (c =? 91).
    { cbv zeta. destruct (next_is 93 _) eqn:E; [cbn; lengths|].
      specialize (IHi (skip_ws l1)). destruct (items n _); cbn in *; [lengths | done..]. }
    destruct (c =? 123).
    { cbv zeta. destruct (next_is 125 _) eqn:E; [cbn; lengths|].
      specialize (IHm (skip_ws l1)). destruct (members n _); cbn in *; [lengths | done..]. }
    destruct (c =? 110); [by apply word_lt; cbn; lia|].
    destruct (c =? 116); [by apply word_lt; cbn; lia|].
    destruct (c =? 102); [by apply word_lt; cbn; lia|].
    destruct (c =? 78); [by apply word_lt; cbn; lia|].
    destruct (c =? 73); [by apply word_lt; cbn; lia|].
    destruct (c =? 45).
    + destruct (starts _ l1); [cbn; rewrite length_drop; lia|].
      apply of_opt_lt. intros v r H%scan_number_shorter. cbn. lia.
    + apply of_opt_lt. intros v r H%scan_number_shorter. done.
  - cbn [items]. specialize (IHs l). destruct (scan n l) as [v r0| |]; [|done..]. cbn in IHs. cbv zeta.
    destruct (next_is 93 _) eqn:E; [cbn; lengths|].
    destruct (next_is 44 _) eqn:E'; [|done].
    specialize (IHi (skip_ws (drop 1 (skip_ws r0)))). destruct (items n _); cbn in *; [lengths | done..].
  - cbn [members]. destruct (next_is 34 l) eqn:E0; cbn [negb]; [|done].
    destruct (scan_string (drop 1 l)) as [[k l1]|] eqn:Ek; [|done]. cbv zeta.
    destruct (next_is 58 _) eqn:E1; cbn [negb]; [|done].
    specialize (IHs (skip_ws (drop 1 (skip_ws l1)))). destruct (scan n _) as [v r0| |]; [|done..]. cbn in IHs.
    destruct (next_is 125 _) eqn:E2; [cbn; lengths|].
    destruct (next_is 44 _) eqn:E3; [|done].
    specialize (IHm (skip_ws (drop 1 (skip_ws r0)))). destruct (members n _); cbn in *; [lengths | done..].
Qed.

(** The fuel of [loads_text] never ends. *)
Lemma scan_enough n :
  (∀ l, (2 * length l + 1 <= n)%nat → scan n l ≠ SOut) ∧
  (∀ l, (2 * length l + 2 <= n)%nat → items n l ≠ SOut) ∧
  (∀ l, (2 * length l + 2 <= n)%nat → members n l ≠ SOut).
Proof.
  assert (Hof : ∀ A (o : option (A * list Z)), of_opt o ≠ SOut) by (intros A [[??]|]; done).
  induction n as [|n (IHs & IHi & IHm)]; [split_and!; intros; lia|]. split_and!; intros l Hl.
  - destruct l as [|c l1]; [done|]. cbn [scan]. cbn [length] in Hl.
    destruct (c =? 34); [done|].
    destruct (c =? 91).
    { cbv zeta. destruct (next_is 93 _) eqn:E; [done|].
      specialize (IHi (skip_ws l1) ltac:(lengths)). by destruct (items n _). }
    destruct (c =? 123).
    { cbv zeta. destruct (next_is 125 _) eqn:E; [done|].
      specialize (IHm (skip_ws l1) ltac:(lengths)). by destruct (members n _). }
    do 5 (destruct (_ =? _); [done|]).
    destruct (c =? 45); [|done]. by destruct (starts _ l1).
  - cbn [items]. pose proof (proj1 (scan_shorter n) l) as Hlt. specialize (IHs l ltac:(lia)).
    destruct (scan n l) as [v r0| |]; [|done..]. cbn in Hlt. cbv zeta.
    destruct (next_is 93 _) eqn:E; [done|]. destruct (next_is 44 _) eqn:E'; [|done].
    specialize (IHi (skip_ws (drop 1 (skip_ws r0))) ltac:(lengths)). by destruct (items n _).
  - cbn [members]. destruct (next_is 34 l) eqn:E0; cbn [negb]; [|done].
    destruct (scan_string (drop 1 l)) as [[k l1]|] eqn:Ek; [|done]. cbv zeta.
    destruct (next_is 58 _) eqn:E1; cbn [negb]; [|done].
    pose proof (proj1 (scan_shorter n) (skip_ws (drop 1 (skip_ws l1)))) as Hlt.
    specialize (IHs (skip_ws (drop 1 (skip_ws l1))) ltac:(lengths)).
    destruct (scan n _) as [v r0| |]; [|done..]. cbn in Hlt.
    destruct (next_is 125 _) eqn:E2; [done|]. destruct (next_is 44 _) eqn:E3; [|done].
    specialize (IHm (skip_ws (drop 1 (skip_ws r0))) ltac:(lengths)). by destruct (members n _).
Qed.

(** ** [json.loads] reads what [json.dumps] wrote *)

#[local] Transparent simple_escape hex4 is_high is_low.

Lemma codes_app a b : codes (String.append a b) = codes a ++ codes b.
Proof. induction a as [|c a IH]; [done|]. rewrite append_cons. cbn [codes]. by rewrite IH. Qed.

Lemma codes_inj a b : codes a = codes b → a = b.
Proof.
  revert b. induction a as [|x a IH]; intros [|y b]; [done..|]. cbn [codes]. unfold cp. intros [= Hx H].
  f_equal; [|by apply IH]. rewrite <- (ascii_nat_embedding x), <- (ascii_nat_embedding y). f_equal. lia.
Qed.

Lemma codes_length s : length (codes s) = String.length s.
Proof. induction s as [|c s IH]; [done|]. cbn. by rewrite IH. Qed.

(** An escaped code unit that begins no surrogate pair. *)
Lemma scan_string_unit h1 h2 h3 h4 u l :
  hex4 h1 h2 h3 h4 = Some u → is_high u = false →
  scan_string (92 :: 117 :: h1 :: h2 :: h3 :: h4 :: l) = push u (scan_string l).
Proof.
  intros Hu Hh. cbn [scan_string Z.eqb Pos.eqb negb]. rewrite Hu. cbn.
  repeat (case_match; subst; rewrite ?Hh; try done).
Qed.

Lemma scan_string_char c l :
  scan_string (codes (escape_char true c) ++ l) = push (cp c) (scan_string l).
Proof.
  destruct c as [[] [] [] [] [] [] [] []];
    first [reflexivity | apply scan_string_unit; reflexivity].
Qed.

Lemma scan_string_quote s l :
  scan_string (codes (escape true s) ++ 34 :: l) = Some (codes s, l).
Proof.
  induction s as [|c s IH]; [done|].
  cbn [escape codes]. rewrite codes_app, <- app_assoc, scan_string_char, IH. done.
Qed.

(** The decimal digits of [pretty]: none for zero, else not starting with 0. *)
Definition digits_of (x : N) (ds : list Z) : Prop :=
  forallb is_dec ds = true ∧ dec_value ds = Z.of_N x ∧
  (x = 0%N → ds = []) ∧ (x ≠ 0%N → ∃ d ds', ds = d :: ds' ∧ d ≠ 48).

Lemma dec_value_snoc ds d : dec_value (ds ++ [d]) = 10 * dec_value ds + (d - 48).
Proof. unfold dec_value. by rewrite foldl_app. Qed.

Lemma pretty_N_char_cp x : (x < 10)%N → cp (pretty_N_char x) = 48 + Z.of_N x.
Proof.
  intros Hx. assert (x = 0 ∨ x = 1 ∨ x = 2 ∨ x = 3 ∨ x = 4 ∨ x = 5 ∨ x = 6 ∨ x = 7 ∨ x = 8 ∨ x = 9)%N
    as H by lia. by repeat destruct H as [->|H]; [..|subst x].
Qed.

Lemma digits_step (q r : N) ds :
  (r < 10)%N → (q * 10 + r ≠ 0)%N → digits_of q ds → digits_of (q * 10 + r) (ds ++ [48 + Z.of_N r]).
Proof.
  intros Hr Hx (Hall & Hval & H0 & Hhd). split_and!.
  - rewrite forallb_app, Hall. unfold is_dec. cbn [forallb andb]. rewrite andb_true_r, andb_true_iff, !Z.leb_le. lia.
  - rewrite dec_value_snoc, Hval. lia.
  - done.
  - intros _. destruct (decide (q = 0)%N) as [->|Hq].
    + rewrite (H0 eq_refl). eexists _, []. split; [done|]. lia.
    + destruct (Hhd Hq) as (d & ds' & -> & Hd). by eexists _, _.
Qed.

Lemma pretty_go_digits x s :
  ∃ ds, codes (pretty_N_go x s) = ds ++ codes s ∧ digits_of x ds.
Proof.
  revert s. induction (N.lt_wf_0 x) as [x _ IH]. intros s.
  destruct (decide (x = 0)%N) as [->|Hx].
  { exists []. rewrite pretty_N_go_0. by split_and!. }
  rewrite pretty_N_go_step by lia.
  destruct (IH (x `div` 10)%N ltac:(apply N.div_lt; lia) (String (pretty_N_char (x `mod` 10)) s))
    as (ds & -> & Hds).
  assert (Hm : (x `mod` 10 < 10)%N) by (apply N.mod_lt; lia).
  assert (E : (x `div` 10 * 10 + x `mod` 10)%N = x) by (rewrite (N.div_mod x 10) at 3 by lia; lia).
  exists (ds ++ [48 + Z.of_N (x `mod` 10)]). cbn [codes]. rewrite <- app_assoc, pretty_N_char_cp by done.
  split; [done|]. rewrite <- E at 1. apply digits_step; [done | by rewrite E | done].
Qed.

(** A character that cannot continue a number. *)
Definition ends (l : list Z) : Prop :=
  match l with [] => True | c :: _ => c = 44 ∨ c = 93 ∨ c = 125 end.

Lemma span_dec_app ds l : forallb is_dec ds = true → ends l → span_dec (ds ++ l) = (ds, l).
Proof.
  intros Hds Hl. induction ds as [|d ds IH].
  - destruct l as [|c l]; [done|]. by destruct Hl as [->|[->| ->]].
  - cbn in *. apply andb_true_iff in Hds as [-> Hds]. by rewrite IH.
Qed.

Lemma scan_number_digits neg d ds l :
  forallb is_dec (d :: ds) = true → d ≠ 48 ∨ ds = [] → ends l → Z.of_nat (length (d :: ds)) <= 4300 →
  scan_number neg ((d :: ds) ++ l) =
    Some (PInt (if neg then - dec_value (d :: ds) else dec_value (d :: ds)), l).
Proof.
  intros Hall Hd Hl Hlen. cbn [app scan_number].
  assert (Hdec : is_dec d = true) by (cbn in Hall; by apply andb_true_iff in Hall as [-> _]).
  rewrite Hdec. cbn [negb].
  assert (Hsp : (if d =? 48 then ([48], ds ++ l) else span_dec (d :: ds ++ l)) = (d :: ds, l)).
  { destruct (Z.eqb_spec d 48) as [->|Hne]; [by destruct Hd as [?| ->]|].
    apply (span_dec_app (d :: ds)); done. }
  rewrite Hsp. clear Hsp.
  assert (Hf : scan_fraction l = (None, l)).
  { destruct l as [|c l]; [done|]. by destruct Hl as [->|[->| ->]]. }
  assert (He : scan_exponent l = (None, l)).
  { destruct l as [|c l]; [done|]. by destruct Hl as [->|[->| ->]]. }
  rewrite Hf, He. by rewrite (proj2 (Z.ltb_ge _ _) Hlen).
Qed.

(** The value that [json.loads] gives for a written value. *)
Fixpoint embed (j : json) : pyval :=
  match j with
  | JNull => PNone
  | JBool b => PBool b
  | JInt z => PInt z
  | JStr s => PStr (codes s)
  | JArr l => PList (map embed l)
  | JObj kvs => PDict (map (λ '(k, v), (codes k, embed v)) kvs)
  end.

(** Every integer is short enough for [int]. *)
Fixpoint ints_ok (j : json) : bool :=
  match j with
  | JInt z => py_len (pretty z) <=? 4300
  | JArr l => forallb ints_ok l
  | JObj kvs => forallb (λ '(k, v), ints_ok v) kvs
  | _ => true
  end.

(** [json.dumps(v, separators=(",", ":"))] *)
Definition dumps_plain : json → string := dumps false true "," ":".

Section json_ind.
Context (P : json → Prop) (Hnull : P JNull) (Hbool : ∀ b, P (JBool b)) (Hint : ∀ z, P (JInt z))
  (Hstr : ∀ s, P (JStr s)) (Harr : ∀ l, Forall P l → P (JArr l))
  (Hobj : ∀ kvs, Forall (λ kv, P kv.2) kvs → P (JObj kvs)).

Fixpoint json_ind' (j : json) : P j :=
  match j with
  | JNull => Hnull
  | JBool b => Hbool b
  | JInt z => Hint z
  | JStr s => Hstr s
  | JArr l => Harr l ((fix go l : Forall P l :=
      match l with [] => Forall_nil_2 _ | x :: l => Forall_cons_2 _ _ _ (json_ind' x) (go l) end) l)
  | JObj kvs => Hobj kvs ((fix go l : Forall (λ kv, P kv.2) l :=
      match l with [] => Forall_nil_2 _ | x :: l => Forall_cons_2 _ _ _ (json_ind' x.2) (go l) end) kvs)
  end.
End json_ind.

Lemma pretty_Z_scan z l n :
  py_len (pretty z) <= 4300 → ends l → scan (S n) (codes (pretty z) ++ l) = SOk (PInt z) l.
Proof.
  assert (Hpos : ∀ p, ∃ d ds, codes (pretty (Npos p)) = d :: ds ∧ forallb is_dec (d :: ds) = true ∧
    d ≠ 48 ∧ dec_value (d :: ds) = Zpos p).
  { intros p. destruct (pretty_go_digits (Npos p) "") as (ds & Hc & Hall & Hval & _ & Hhd).
    destruct (Hhd ltac:(done)) as (d & ds' & -> & Hd).
    cbn [codes] in Hc. rewrite app_nil_r in Hc. by exists d, ds'. }
  unfold py_len. rewrite <- codes_length. intros Hlen Hl. destruct z as [|p|p].
  - change (codes (pretty 0)) with [48].
    change (scan (S n) ([48] ++ l)) with (of_opt (scan_number false ([48] ++ l))).
    rewrite scan_number_digits; [done|done|by right|done|done].
  - change (pretty (Zpos p)) with (pretty (Npos p)) in *.
    destruct (Hpos p) as (d & ds & Hc & Hall & Hd & Hval). rewrite Hc in *.
    pose proof (scan_number_digits false d ds l Hall ltac:(by left) Hl Hlen) as Hs.
    assert (Hdec : is_dec d = true) by (cbn in Hall; by apply andb_true_iff in Hall as [-> _]).
    unfold is_dec in Hdec. rewrite andb_true_iff, !Z.leb_le in Hdec.
    cbn [app scan]. rewrite !(proj2 (Z.eqb_neq d _)) by lia.
    change (d :: ds ++ l) with ((d :: ds) ++ l). by rewrite Hs, Hval.
  - change (pretty (Zneg p)) with (String.append "-" (pretty (Npos p))) in *.
    rewrite codes_app in *. destruct (Hpos p) as (d & ds & Hc & Hall & Hd & Hval). rewrite Hc in *.
    assert (Hdec : is_dec d = true) by (cbn in Hall; by apply andb_true_iff in Hall as [-> _]).
    unfold is_dec in Hdec. rewrite andb_true_iff, !Z.leb_le in Hdec.
    change (codes "-" ++ d :: ds) with (45 :: d :: ds) in *.
    change (scan (S n) ((45 :: d :: ds) ++ l)) with
      (if starts (codes "Infinity") ((d :: ds) ++ l)
       then SOk (PFloat (S754_infinity true)) (drop 8 ((d :: ds) ++ l))
       else of_opt (scan_number true ((d :: ds) ++ l))).
    rewrite scan_number_digits; [|done|by left|done|cbn [length] in *; lia].
    unfold starts. rewrite bool_decide_eq_false_2; [by rewrite Hval|].
    intros [= Hd']. change (cp "I") with 73 in Hd'. lia.
Qed.

(** The first character of a written value. *)
Lemma dumps_head j :
  ∃ c r, codes (dumps_plain j) = c :: r ∧ is_space c = false ∧ c ≠ 93 ∧ c ≠ 125.
Proof.
  destruct j as [|[]|z|s|l|kvs]; try by eexists _, _.
  change (dumps_plain (JInt z)) with (pretty z). destruct z as [|p|p]; [by eexists _, _| |by eexists _, _].
  destruct (pretty_go_digits (Npos p) "") as (ds & Hc & Hall & _ & _ & Hhd).
  destruct (Hhd ltac:(done)) as (d & ds' & -> & _).
  change (pretty (Zpos p)) with (pretty_N_go (Npos p) ""). exists d, ds'.
  rewrite Hc. cbn [codes]. rewrite app_nil_r. cbn in Hall. apply andb_true_iff in Hall as [Hd _].
  unfold is_dec in Hd. rewrite andb_true_iff, !Z.leb_le in Hd.
  unfold is_space. rewrite !(proj2 (Z.eqb_neq d _)) by lia. split_and!; [done | done | lia | lia].
Qed.

Lemma skip_ws_head c l : is_space c = false → skip_ws (c :: l) = c :: l.
Proof. intros Hc. cbn. by rewrite Hc. Qed.

Lemma skip_ws_dumps j l : skip_ws (codes (dumps_plain j) ++ l) = codes (dumps_plain j) ++ l.
Proof. destruct (dumps_head j) as (c & r & -> & Hc & _). by apply skip_ws_head. Qed.

Lemma next_is_dumps j l : next_is 93 (codes (dumps_plain j) ++ l) = false.
Proof. destruct (dumps_head j) as (c & r & -> & _ & Hc & _). cbn. by apply Z.eqb_neq. Qed.

(** Texts of the elements, each after its separator. *)
Lemma codes_join x (xs : list string) :
  codes (str_join "," (x :: xs)) = codes x ++ concat (map (λ y, 44 :: codes y) xs).
Proof.
  revert x. induction xs as [|y xs IH]; intros x; [cbn; by rewrite app_nil_r|].
  change (str_join "," (x :: y :: xs)) with (String.append x (String.append "," (str_join "," (y :: xs)))).
  by rewrite !codes_app, IH.
Qed.

Definition reads (j : json) : Prop :=
  ∀ n l, ends l → (2 * length (codes (dumps_plain j) ++ l) + 1 <= n)%nat →
    scan n (codes (dumps_plain j) ++ l) = SOk (embed j) l.

Lemma items_read js : Forall reads js → ∀ j n l,
  reads j →
  let text := (codes (dumps_plain j) ++ concat (map (λ y, 44 :: codes (dumps_plain y)) js)) ++ 93 :: l in
  (2 * length text + 2 <= n)%nat → items n text = SOk (map embed (j :: js)) l.
Proof.
  induction 1 as [|j' js Hj' _ IH]; intros j n l Hj; cbv zeta; intros Hn.
  - destruct n as [|n]; [lia|]. cbn [map concat items] in *. rewrite app_nil_r in *.
    rewrite Hj; [|by right; left | lia]. done.
  - destruct n as [|n]; [lia|]. cbn [map concat items app] in *. rewrite <- !app_assoc in *. cbn [app] in *.
    rewrite <- app_assoc in *.
    rewrite Hj; [|by left | lia]. cbv zeta.
    rewrite skip_ws_head by done. cbn [next_is drop]. rewrite drop_0.
    change (44 =? 93) with false. change (44 =? 44) with true. cbv match.
    rewrite skip_ws_dumps. rewrite app_assoc. rewrite (IH j' n l Hj'); [done|].
    rewrite !length_app in *. cbn [length] in *. rewrite !length_app in *. cbn [length] in *. lia.
Qed.

(** A member as written. *)
Definition member_text (kv : string * json) : list Z :=
  codes (quote true kv.1) ++ 58 :: codes (dumps_plain kv.2).

Definition embed_member (kv : string * json) : list Z * pyval := (codes kv.1, embed kv.2).

Lemma member_scan n k j l :
  reads j → ends l → (2 * length (member_text (k, j) ++ l) + 1 <= n)%nat →
  ∃ l1, scan_string (drop 1 (member_text (k, j) ++ l)) = Some (codes k, l1) ∧
    next_is 34 (member_text (k, j) ++ l) = true ∧
    next_is 58 (skip_ws l1) = true ∧
    scan n (skip_ws (drop 1 (skip_ws l1))) = SOk (embed j) l.
Proof.
  intros Hj Hl Hn. exists (58 :: codes (dumps_plain j) ++ l). unfold member_text in *. cbn [fst snd] in *.
  assert (Hq : codes (quote true k) ++ 58 :: codes (dumps_plain j) ++ l =
      34 :: codes (escape true k) ++ 34 :: 58 :: codes (dumps_plain j) ++ l).
  { unfold quote. cbn [codes]. rewrite codes_app. cbn [app]. rewrite <- app_assoc. done. }
  rewrite <- app_assoc. cbn [app]. rewrite Hq. split_and!.
  - cbn [drop]. by rewrite drop_0, scan_string_quote.
  - done.
  - by rewrite skip_ws_head.
  - rewrite skip_ws_head by done. cbn [drop]. rewrite drop_0, skip_ws_dumps. apply Hj; [done|].
    rewrite !length_app in *. cbn [length] in *. rewrite ?length_app in *. lia.
Qed.

Lemma members_read kvs : Forall (λ kv, reads kv.2) kvs → ∀ kv n l,
  reads kv.2 →
  let text := (member_text kv ++ concat (map (λ y, 44 :: member_text y) kvs)) ++ 125 :: l in
  (2 * length text + 2 <= n)%nat → members n text = SOk (map embed_member (kv :: kvs)) l.
Proof.
  induction 1 as [|kv' kvs Hkv' _ IH]; intros [k j] n l Hj; cbv zeta; intros Hn;
    (destruct n as [|n]; [lia|]).
  - cbn [map concat] in *. rewrite app_nil_r in *.
    destruct (member_scan n k j (125 :: l)) as (l1 & E1 & E2 & E3 & E4); [done | by right; right | lia |].
    cbn [members]. rewrite E2, E1, E3, E4. done.
  - cbn [map concat] in *. rewrite <- !app_assoc in *. cbn [app] in *.
    destruct (member_scan n k j (44 :: member_text kv' ++ concat (map (λ y, 44 :: member_text y) kvs) ++ 125 :: l))
      as (l1 & E1 & E2 & E3 & E4); [done | by left | lia |].
    cbn [members]. rewrite E2, E1, E3, E4. cbn [negb]. cbv zeta.
    rewrite skip_ws_head by done. cbn [next_is drop]. rewrite drop_0.
    change (44 =? 125) with false. change (44 =? 44) with true. cbv match.
    assert (Hw : ∀ l', skip_ws (member_text kv' ++ l') = member_text kv' ++ l') by done.
    rewrite Hw, app_assoc, (IH kv' n l Hkv'); [done|].
    rewrite !length_app in *. cbn [length] in *. rewrite !length_app in *. cbn [length] in *. lia.
Qed.

Lemma dumps_obj_text kv kvs :
  codes (dumps_plain (JObj (kv :: kvs))) =
    123 :: (member_text kv ++ concat (map (λ y, 44 :: member_text y) kvs)) ++ [125].
Proof.
  assert (Hm : ∀ kv, codes (String.append (quote true kv.1) (String.append ":" (dumps_plain kv.2))) = member_text kv).
  { intros kv'. by rewrite !codes_app. }
  change (codes (dumps_plain (JObj (kv :: kvs)))) with
    (123 :: codes (String.append (str_join "," (map (λ '(k, v),
        String.append (quote true k) (String.append ":" v))
      (map (λ '(k, v), (k, dumps_plain v)) (kv :: kvs)))) "}")).
  rewrite codes_app, map_map. do 2 f_equal. cbn [map].
  rewrite codes_join. destruct kv as [k j]. f_equal; [apply (Hm (k, j))|].
  f_equal. rewrite map_map. apply map_ext. intros [k' j']. f_equal. apply (Hm (k', j')).
Qed.

(** A written value is read back, whatever separator or bracket follows. *)
Lemma dumps_read j : ints_ok j = true → reads j.
Proof.
  induction j as [|b|z|s|js IH|kvs IH] using json_ind'; intros Hok n l Hl Hn;
    (destruct n as [|n]; [lia|]).
  - reflexivity.
  - by destruct b.
  - cbn in Hok. apply Z.leb_le in Hok. by apply pretty_Z_scan.
  - change (dumps_plain (JStr s)) with (quote true s) in *. unfold quote. cbn [codes].
    rewrite codes_app. cbn [app]. rewrite <- app_assoc.
    change (of_opt ('(s', r) ← scan_string (codes (escape true s) ++ 34 :: l); Some (PStr s', r)) =
      SOk (PStr (codes s)) l).
    by rewrite scan_string_quote.
  - cbn in Hok. assert (Hr : Forall reads js).
    { apply Forall_forall. intros x Hx. rewrite Forall_forall in IH. apply IH; [done|].
      rewrite forallb_forall in Hok. by apply Hok, list_elem_of_In. }
    destruct js as [|j js]; [done|]. apply Forall_cons in Hr as [Hj Hr].
    assert (Ht : codes (dumps_plain (JArr (j :: js))) ++ l =
      91 :: (codes (dumps_plain j) ++ concat (map (λ y, 44 :: codes (dumps_plain y)) js)) ++ 93 :: l).
    { change (codes (dumps_plain (JArr (j :: js)))) with
        (91 :: codes (String.append (str_join "," (dumps_plain j :: map dumps_plain js)) "]")).
      rewrite codes_app, codes_join, map_map. cbn [app]. by rewrite <- !app_assoc. }
    rewrite Ht in *. cbn [scan Z.eqb Pos.eqb]. cbv zeta.
    pose proof (items_read js Hr j n l Hj) as Hi. cbv zeta in Hi. set (t := _ ++ 93 :: l) in *.
    assert (Hw : skip_ws t = t) by (subst t; rewrite <- app_assoc; apply skip_ws_dumps).
    assert (Hx : next_is 93 t = false) by (subst t; rewrite <- app_assoc; apply next_is_dumps).
    rewrite Hw, Hx, Hi; [done|]. cbn [length] in Hn. lia.
  - cbn in Hok. assert (Hr : Forall (λ kv, reads kv.2) kvs).
    { apply Forall_forall. intros [k x] Hx. rewrite Forall_forall in IH. apply (IH _ Hx).
      rewrite forallb_forall in Hok. by apply (Hok (k, x)), list_elem_of_In. }
    destruct kvs as [|kv kvs]; [done|]. apply Forall_cons in Hr as [Hj Hr].
    assert (Ht : codes (dumps_plain (JObj (kv :: kvs))) ++ l =
      123 :: (member_text kv ++ concat (map (λ y, 44 :: member_text y) kvs)) ++ 125 :: l).
    { rewrite dumps_obj_text. cbn [app]. by rewrite <- !app_assoc. }
    rewrite Ht in *. cbn [scan Z.eqb Pos.eqb]. cbv zeta.
    pose proof (members_read kvs Hr kv n l Hj) as Hi. cbv zeta in Hi. set (t := _ ++ 125 :: l) in *.
    assert (Hw : skip_ws t = t) by done. assert (Hx : next_is 125 t = false) by done.
    rewrite Hw, Hx, Hi; [|cbn [length] in Hn; lia].
    cbn [embed]. do 2 f_equal. apply map_ext. by intros [].
Qed.

(** Printable ASCII, as [dumps] writes it. *)
Lemma decode_ascii l : Forall (λ c, 0 < c < 128) l → decode_detected l = Some l.
Proof.
  intros H. assert (Hu : decode_utf8 l = Some l).
  { induction H as [|c l Hc _ IH]; [done|]. cbn. rewrite (proj2 (Z.ltb_lt _ _)) by lia. by rewrite IH. }
  assert (Hs : ∀ p, (∃ c p', p = c :: p' ∧ ¬ 0 < c < 128) → starts p l = false).
  { intros p (c & p' & -> & Hc). unfold starts. apply bool_decide_eq_false_2.
    destruct l as [|x l]; [done|]. apply Forall_cons in H as [Hx _]. intros [= -> _]. done. }
  unfold decode_detected.
  rewrite (Hs [0; 0; 254; 255]), (Hs [255; 254; 0; 0]), (Hs [254; 255]), (Hs [255; 254]), (Hs [239; 187; 191])
    by (eexists _, _; split; [done|lia]).
  destruct l as [|a [|b [|c [|d l]]]]; try done;
    repeat (apply Forall_cons in H as [? H]); cbn in *;
    rewrite ?(proj2 (Z.eqb_neq a 0)), ?(proj2 (Z.eqb_neq b 0)) by lia; done.
Qed.

Definition plain (l : list Z) : Prop := Forall (λ c, 0 < c < 128) l.

Lemma codes_utf8 s : plain (codes s) → utf8 s = codes s.
Proof.
  induction s as [|c s IH]; [done|]. cbn [utf8 codes]. intros [Hc H]%Forall_cons. unfold cp in *.
  rewrite (proj2 (Z.ltb_lt _ 128)) by lia. by rewrite IH.
Qed.

Lemma plain_app a b : plain a → plain b → plain (a ++ b).
Proof. apply Forall_app_2. Qed.

Lemma plain_digits ds : forallb is_dec ds = true → plain ds.
Proof.
  intros H. apply Forall_forall. intros d Hd. rewrite forallb_forall in H.
  specialize (H d (proj1 (list_elem_of_In _ _) Hd)). unfold is_dec in H.
  rewrite andb_true_iff, !Z.leb_le in H. lia.
Qed.

Lemma plain_pretty_pos p : plain (codes (pretty (Npos p))).
Proof.
  destruct (pretty_go_digits (Npos p) "") as (ds & Hc & Hall & _).
  change (pretty (Npos p)) with (pretty_N_go (Npos p) ""). rewrite Hc. cbn [codes]. rewrite app_nil_r.
  by apply plain_digits.
Qed.

Lemma plain_pretty (z : Z) : plain (codes (pretty z)).
Proof.
  destruct z as [|p|p]; [by repeat constructor | apply plain_pretty_pos |].
  change (pretty (Zneg p)) with (String.append "-" (pretty (Npos p))). rewrite codes_app.
  apply plain_app; [by repeat constructor | apply plain_pretty_pos].
Qed.

Lemma plain_quote s : plain (codes (quote true s)).
Proof.
  unfold quote. constructor; [done|]. rewrite codes_app. apply plain_app; [|by repeat constructor].
  induction s as [|c s IH]; [by constructor|]. cbn [escape]. rewrite codes_app. apply plain_app; [|done].
  destruct c as [[] [] [] [] [] [] [] []]; repeat constructor.
Qed.

Lemma plain_concat (ls : list (list Z)) : Forall plain ls → plain (concat ls).
Proof. induction 1; [by constructor|]. by apply plain_app. Qed.

(** [json.dumps] writes ASCII. *)
Lemma dumps_ascii j : plain (codes (dumps_plain j)).
Proof.
  induction j as [|[]|z|s|js IH|kvs IH] using json_ind'; try by repeat constructor.
  - apply plain_pretty.
  - apply plain_quote.
  - change (codes (dumps_plain (JArr js))) with (91 :: codes (String.append (str_join "," (map dumps_plain js)) "]")).
    constructor; [done|]. rewrite codes_app. apply plain_app; [|by repeat constructor].
    destruct IH as [|j js Hj IH]; [by constructor|]. cbn [map]. rewrite codes_join.
    apply plain_app; [done|]. apply plain_concat, Forall_fmap, Forall_fmap.
    eapply Forall_impl; [exact IH|]. intros x Hx. by constructor.
  - assert (Hm : ∀ kv : string * json, plain (codes (dumps_plain kv.2)) → plain (member_text kv)).
    { intros kv Hkv. apply plain_app; [apply plain_quote|]. by constructor. }
    destruct IH as [|kv kvs Hj IH]; [by repeat constructor|]. rewrite dumps_obj_text.
    constructor; [done|]. apply plain_app; [|by repeat constructor]. apply plain_app; [by apply Hm|].
    apply plain_concat, Forall_fmap. eapply Forall_impl; [exact IH|].
    intros x Hx. constructor; [done | by apply Hm].
Qed.

(** [json.loads(json.dumps(v, separators=(",", ":")))], in text. *)
Lemma loads_dumps j : ints_ok j = true → loads_text (codes (dumps_plain j)) = Some (embed j).
Proof.
  intros Hok. unfold loads_text. pose proof (skip_ws_dumps j []) as Hw. rewrite app_nil_r in Hw. rewrite Hw.
  pose proof (dumps_read j Hok (fuel_for (codes (dumps_plain j))) [] I) as H.
  rewrite app_nil_r in H. rewrite H; [done|]. unfold fuel_for. lia.
Qed.

(** [json.loads] of the encoded text. *)
Lemma loads_utf8 j : ints_ok j = true → loads (utf8 (dumps_plain j)) = Some (embed j).
Proof.
  intros Hok. pose proof (dumps_ascii j) as Ha. unfold loads.
  rewrite codes_utf8, decode_ascii by done. by apply loads_dumps.
Qed.

Lemma utf8_bytes j : Forall byte (utf8 (dumps_plain j)).
Proof.
  rewrite codes_utf8 by apply dumps_ascii. eapply Forall_impl; [apply dumps_ascii|].
  unfold byte. intros x Hx. lia.
Qed.

(** The length of a written integer of a machine word. *)
Lemma dec_value_lower d ds :
  forallb is_dec (d :: ds) = true → d ≠ 48 → 10 ^ Z.of_nat (length ds) <= dec_value (d :: ds).
Proof.
  unfold is_dec. intros Hall Hd. induction ds as [|x ds IH] using rev_ind.
  - cbn in *. rewrite andb_true_r, andb_true_iff, !Z.leb_le in Hall. unfold dec_value. cbn. lia.
  - rewrite app_comm_cons, forallb_app, andb_true_iff in Hall. destruct Hall as [Hall Hx].
    cbn in Hx. rewrite andb_true_r, andb_true_iff, !Z.leb_le in Hx. specialize (IH Hall).
    rewrite app_comm_cons, dec_value_snoc, length_app. cbn [length].
    rewrite Nat2Z.inj_add, Z.pow_add_r by lia. change (10 ^ Z.of_nat 1) with 10. lia.
Qed.

Lemma pretty_bound (z : Z) : 0 <= z < 2 ^ 63 → py_len (pretty z) <= 19.
Proof.
  intros Hz. destruct z as [|p|p]; [done| |lia].
  destruct (pretty_go_digits (Npos p) "") as (ds & Hc & Hall & Hval & _ & Hhd).
  destruct (Hhd ltac:(done)) as (d & ds' & -> & Hd).
  pose proof (dec_value_lower d ds' Hall Hd) as Hl. rewrite Hval in Hl.
  change (pretty (Zpos p)) with (pretty_N_go (Npos p) ""). unfold py_len. rewrite <- codes_length, Hc.
  cbn [codes]. rewrite app_nil_r. cbn [length].
  destruct (Z.le_gt_cases (Z.of_nat (S (length ds'))) 19) as [?|Hgt]; [done|].
  pose proof (Z.pow_le_mono_r 10 19 (Z.of_nat (length ds')) ltac:(lia) ltac:(lia)) as Hm.
  change (10 ^ 19) with 10000000000000000000 in Hm. change (2 ^ 63) with 9223372036854775808 in Hz. lia.
Qed.
