(* ===== verification/Tables.v ===== *)
(** * Relational tables

    A table is the list of its rows.  What the components that keep rows
    share: the results of a query, unique columns, the rows an update
    replaces. *)

From S2P Require Import Prelude.

(** ** Queries *)

(** [Result.one_or_none] and [Result.one] *)
Definition one_or_none {A} (rows : list A) : res (option A) :=
  match rows with
  | [] => Ok None
  | [x] => Ok (Some x)
  | _ => raise SQLAlchemyError "Multiple rows were found when one or none was required"
  end.
Definition one {A} (rows : list A) : res A :=
  match rows with
  | [x] => Ok x
  | _ => raise SQLAlchemyError "exactly one row was required"
  end.

(** ** Filters and unique columns *)

Lemma filter_none {A} (P : A → bool) (l : list A) :
  (∀ x, x ∈ l → P x = false) → List.filter P l = [].
Proof.
  intros Hl. destruct (List.filter P l) as [|z l'] eqn:E; [done|].
  assert (Hz : In z (List.filter P l)) by (rewrite E; by left).
  apply filter_In in Hz as [Hz Pz]. apply list_elem_of_In, Hl in Hz. congruence.
Qed.

(** A filter on a unique column. *)
Lemma filter_unique {A K} (f : A → K) (P : A → bool) (l : list A) x :
  NoDup (f <$> l) → (∀ y, y ∈ l → P y = true → f y = f x) → x ∈ l → P x = true →
  List.filter P l = [x].
Proof.
  intros Hn HP Hx Px. induction l as [|y l IH]; [by apply not_elem_of_nil in Hx|].
  cbn in Hn. apply NoDup_cons in Hn as [Hy Hn]. cbn.
  assert (Hne : ∀ z, z ∈ l → f z ≠ f y).
  { intros z Hz E. apply Hy. rewrite <- E. by apply list_elem_of_fmap_2. }
  apply elem_of_cons in Hx as [<-|Hx].
  - rewrite Px. f_equal. apply filter_none. intros z Hz. apply not_true_iff_false. intros Pz.
    apply (Hne z Hz), HP; [by right | done].
  - destruct (P y) eqn:Py; [|apply IH; try done; intros z Hz; apply HP; by right].
    exfalso. apply (Hne x Hx). symmetry. apply HP; [by left | done].
Qed.

Lemma existsb_false {A} (P : A → bool) (l : list A) :
  existsb P l = false ↔ ∀ x, x ∈ l → P x = false.
Proof.
  rewrite <- not_true_iff_false, existsb_exists. split.
  - intros H x Hx. apply not_true_iff_false. intros Px. apply H. exists x.
    by rewrite <- list_elem_of_In.
  - intros H (x & Hx%list_elem_of_In & Px). rewrite H in Px; done.
Qed.

Lemma existsb_true {A} (P : A → bool) (l : list A) :
  existsb P l = true ↔ ∃ x, x ∈ l ∧ P x = true.
Proof. rewrite existsb_exists. by setoid_rewrite list_elem_of_In. Qed.

Lemma NoDup_fmap_inj {A K} (f : A → K) (l : list A) x y :
  NoDup (f <$> l) → x ∈ l → y ∈ l → f x = f y → x = y.
Proof.
  intros Hn Hx Hy E. apply list_elem_of_lookup in Hx as [i Hi]. apply list_elem_of_lookup in Hy as [j Hj].
  assert (i = j); [|congruence]. eapply (NoDup_lookup (f <$> l) i j (f x)); [done| |];
    rewrite list_lookup_fmap; [by rewrite Hi | rewrite Hj; cbn; by rewrite E].
Qed.

Lemma NoDup_fmap_filter {A K} (f : A → K) (P : A → bool) (l : list A) :
  NoDup (f <$> l) → NoDup (f <$> List.filter P l).
Proof.
  induction l as [|x l IH]; intros Hn; [done|]. cbn in Hn. apply NoDup_cons in Hn as [Hx Hn]. cbn.
  destruct (P x); [|auto]. cbn. apply NoDup_cons. split; [|auto].
  intros (y & Ey & Hy)%list_elem_of_fmap. apply Hx. rewrite Ey. apply list_elem_of_fmap_2.
  rewrite list_elem_of_In, filter_In, <- list_elem_of_In in Hy. apply Hy.
Qed.

Lemma NoDup_snoc {A K} (f : A → K) (l : list A) x :
  NoDup (f <$> l) → (∀ y, y ∈ l → f y ≠ f x) → NoDup (f <$> (l ++ [x])).
Proof.
  intros Hl Hx. rewrite fmap_app. apply NoDup_app. split; [done|]. split; [|apply NoDup_singleton].
  intros k (y & -> & Hy)%list_elem_of_fmap. cbn. rewrite list_elem_of_singleton. by apply Hx.
Qed.

(** ** Updates *)

(** The table in which [y] has replaced [x]. *)
Definition replace_row {A} `{EqDecision A} (x y : A) (l : list A) : list A :=
  (λ z, if eqb z x then y else z) <$> l.

Lemma replace_row_elem {A} `{EqDecision A} (x y z : A) l :
  z ∈ replace_row x y l ↔ z = y ∧ x ∈ l ∨ z ≠ x ∧ z ∈ l.
Proof.
  unfold replace_row. rewrite list_elem_of_fmap. split.
  - intros (w & -> & Hw). destruct (eqb w x) eqn:E; [rewrite eqb_true in E; subst; auto|].
    rewrite eqb_false in E. auto.
  - intros [[-> Hx]|[Hne Hz]]; [exists x; by rewrite eqb_refl|].
    exists z. apply eqb_false in Hne. by rewrite Hne.
Qed.

Lemma replace_row_same {A} `{EqDecision A} (x : A) l : replace_row x x l = l.
Proof.
  unfold replace_row. rewrite <- (list_fmap_id l) at 2. apply list_fmap_ext. intros i z _.
  destruct (eqb z x) eqn:E; [|done]. rewrite eqb_true in E. by subst.
Qed.

Lemma replace_row_twice {A} `{EqDecision A} (x y z : A) l :
  y ∉ l ∨ y = x → replace_row y z (replace_row x y l) = replace_row x z l.
Proof.
  intros Hy. unfold replace_row. rewrite <- list_fmap_compose. apply list_fmap_ext. intros i w Hw. cbn.
  destruct (eqb w x) eqn:E; [by rewrite eqb_refl|]. destruct (eqb w y) eqn:E'; [|done].
  rewrite eqb_true in E'. rewrite eqb_false in E. apply list_elem_of_lookup_2 in Hw. naive_solver.
Qed.

Lemma replace_row_last {A} `{EqDecision A} (x y : A) l :
  x ∉ l → replace_row x y (l ++ [x]) = l ++ [y].
Proof.
  intros Hx. unfold replace_row. rewrite fmap_app. cbn. rewrite eqb_refl. f_equal.
  rewrite <- (list_fmap_id l) at 2. apply list_fmap_ext. intros i z Hz%list_elem_of_lookup_2.
  destruct (eqb z x) eqn:E; [|done]. rewrite eqb_true in E. by subst.
Qed.

(** An update of the one row a predicate selects. *)
Lemma update_unique {A} `{EqDecision A} (P : A → bool) (f : A → A) l x :
  List.filter P l = [x] → (λ z, if P z then f z else z) <$> l = replace_row x (f x) l.
Proof.
  intros Hf. unfold replace_row. apply list_fmap_ext. intros i z Hz%list_elem_of_lookup_2.
  assert (Hin : P z = true ↔ z = x).
  { rewrite list_elem_of_In in Hz. split.
    - intros Pz. assert (Hz' : In z (List.filter P l)) by by apply filter_In.
      rewrite Hf in Hz'. by destruct Hz' as [->|[]].
    - intros ->. assert (Hx : In x (List.filter P l)) by (rewrite Hf; by left).
      by apply filter_In in Hx as []. }
  destruct (P z) eqn:Pz.
  - destruct Hin as [Hin _]. by rewrite Hin, eqb_refl.
  - destruct (eqb z x) eqn:E; [|done]. rewrite eqb_true in E. apply Hin in E. congruence.
Qed.

Lemma filter_replace {A} `{EqDecision A} (P : A → bool) (x y : A) l :
  P x = P y → List.filter P (replace_row x y l) = replace_row x y (List.filter P l).
Proof.
  intros HP. induction l as [|z l IH]; [done|]. unfold replace_row in *. cbn.
  destruct (eqb z x) eqn:E.
  - rewrite eqb_true in E. subst z. rewrite <- HP. destruct (P x); [|done]. cbn. by rewrite eqb_refl, IH.
  - destruct (P z); [|done]. cbn. by rewrite E, IH.
Qed.

Lemma one_or_none_Some {A} (l : list A) x : one_or_none l = Ok (Some x) → l = [x].
Proof. destruct l as [|y [|z l]]; cbn; [done | by intros [= ->] | done]. Qed.

Lemma one_or_none_None {A} (l : list A) : one_or_none l = Ok None → l = [].
Proof. by destruct l as [|y [|z l]]. Qed.

Lemma filter_one {A} (P : A → bool) l x : List.filter P l = [x] → x ∈ l ∧ P x = true.
Proof. intros H. rewrite list_elem_of_In. apply filter_In. rewrite H. by left. Qed.

Lemma elem_of_snoc {A} (x y : A) l : x ∈ l ++ [y] ↔ x ∈ l ∨ x = y.
Proof. by rewrite elem_of_app, list_elem_of_singleton. Qed.
