(* ===== verification/Paging.v ===== *)
(** * Keyset pagination

    Several stores read a table in pages: rows are ordered by a key that is
    unique, a page is the first [n] rows strictly after a cursor, and the
    next cursor is the key of the last row.  This file has the order, the
    pages and what a reader that follows the cursors sees, of a table that
    stands still and of one that changes between the pages. *)

From S2P Require Import Prelude Tables.

(** ** Ordered keys *)

Definition str_ltb (a b : string) : bool := negb (str_leb b a).

Lemma str_leb_antisym a b : str_leb a b = true → str_leb b a = true → a = b.
Proof. apply String.leb_antisym. Qed.

(** A key made of an integer and an identifier, smallest first. *)
Definition pair_leb (a b : Z * string) : bool :=
  (a.1 <? b.1)%Z || ((a.1 =? b.1)%Z && str_leb a.2 b.2).

Lemma pair_leb_spec a b :
  pair_leb a b = true ↔ (a.1 < b.1)%Z ∨ a.1 = b.1 ∧ str_leb a.2 b.2 = true.
Proof. unfold pair_leb. rewrite orb_true_iff, andb_true_iff, Z.ltb_lt, Z.eqb_eq. done. Qed.

Class LinearOrder {K} (le : K → K → bool) : Prop := {
  lo_total a b : le a b = true ∨ le b a = true;
  lo_trans a b c : le a b = true → le b c = true → le a c = true;
  lo_antisym a b : le a b = true → le b a = true → a = b }.

#[export] Instance str_leb_order : LinearOrder str_leb.
Proof. split; [apply str_leb_total | apply str_leb_trans | apply str_leb_antisym]. Qed.

#[export] Instance pair_leb_order : LinearOrder pair_leb.
Proof.
  split.
  - intros [a1 a2] [b1 b2]. rewrite !pair_leb_spec. cbn.
    destruct (str_leb_total a2 b2), (Z.lt_total a1 b1) as [?|[?|?]]; auto.
  - intros [a1 a2] [b1 b2] [c1 c2]. rewrite !pair_leb_spec. cbn.
    intros [?|[-> ?]] [?|[-> ?]]; [left; lia | by left | by left | right; split; [done|]].
    by eapply str_leb_trans.
  - intros [a1 a2] [b1 b2]. rewrite !pair_leb_spec. cbn.
    intros [?|[-> ?]] [?|[? ?]]; try lia. f_equal. by apply str_leb_antisym.
Qed.

(** Pairs in lexicographic order. *)
Definition lex_leb {A B} (le1 : A → A → bool) (le2 : B → B → bool) (a b : A * B) : bool :=
  le1 a.1 b.1 && (negb (le1 b.1 a.1) || le2 a.2 b.2).

#[export] Instance lex_order {A B} (le1 : A → A → bool) (le2 : B → B → bool) :
  LinearOrder le1 → LinearOrder le2 → LinearOrder (lex_leb le1 le2).
Proof.
  unfold lex_leb. intros [T1 R1 A1] [T2 R2 A2]. split.
  - intros [a1 a2] [b1 b2]. cbn. specialize (T1 a1 b1). specialize (T2 a2 b2).
    destruct (le1 a1 b1), (le1 b1 a1); naive_solver.
  - intros [a1 a2] [b1 b2] [c1 c2]. cbn. rewrite !andb_true_iff, !orb_true_iff, !negb_true_iff.
    intros [H1 H2] [H3 H4]. split; [by eapply R1|].
    destruct (le1 c1 a1) eqn:E; [|by left]. right.
    assert (le1 b1 a1 = true) by (by eapply R1). assert (le1 c1 b1 = true) by (by eapply R1).
    destruct H2, H4; try congruence. by eapply R2.
  - intros [a1 a2] [b1 b2]. cbn. rewrite !andb_true_iff, !orb_true_iff, !negb_true_iff.
    intros [H1 H2] [H3 H4]. f_equal; [by apply A1|].
    destruct H2, H4; try congruence. by apply A2.
Qed.

#[export] Instance Z_leb_order : LinearOrder Z.leb.
Proof.
  split; intros *; rewrite ?Z.leb_le; lia.
Qed.

#[export] Instance flip_order {K} (le : K → K → bool) : LinearOrder le → LinearOrder (λ a b, le b a).
Proof.
  intros [H1 H2 H3]. split; [intros a b; apply H1 | intros a b c ? ?; by eapply H2 | intros a b ? ?; by apply H3].
Qed.

(** ** Pages *)

Section pages.
Context {A K : Type} (key : A → K) (le : K → K → bool) `{!LinearOrder le}.

Definition kle (x y : A) : bool := le (key x) (key y).
Definition klt (x y : A) : Prop := le (key y) (key x) = false.

(** Strictly after a cursor. *)
Definition after (c : option K) (x : A) : bool :=
  match c with None => true | Some c => negb (le (key x) c) end.

(** [WHERE key > cursor ORDER BY key] *)
Definition following (c : option K) (l : list A) : list A := py_sort kle (List.filter (after c) l).

(** [... LIMIT n] *)
Definition page (n : nat) (c : option K) (l : list A) : list A := take n (following c l).

Lemma klt_trans x y z : klt x y → klt y z → klt x z.
Proof using LinearOrder0.
  unfold klt. intros H1 H2. apply not_true_iff_false. intros H.
  apply not_true_iff_false in H1. apply H1. eapply lo_trans; [|exact H].
  destruct (lo_total (key y) (key z)); [done | congruence].
Qed.

Lemma following_elem c l x : x ∈ following c l ↔ x ∈ l ∧ after c x = true.
Proof.
  unfold following. rewrite py_sort_perm. rewrite list_elem_of_In, filter_In, <- list_elem_of_In. done.
Qed.

Lemma following_keys c l : NoDup (key <$> l) → NoDup (key <$> following c l).
Proof.
  unfold following. intros Hn. rewrite py_sort_perm. clear -Hn. induction l as [|x l IH]; [done|].
  cbn in *. apply NoDup_cons in Hn as [Hx Hn]. destruct (after c x); [|by apply IH]. cbn.
  apply NoDup_cons. split; [|by apply IH]. intros (y & Hy & Hin)%list_elem_of_fmap. apply Hx.
  rewrite Hy. apply list_elem_of_fmap_2. apply list_elem_of_In, filter_In in Hin as [Hin _]. by apply list_elem_of_In.
Qed.

(** Sorted, and strictly so as keys are unique. *)
Lemma following_sorted c l : NoDup (key <$> l) → StronglySorted klt (following c l).
Proof using LinearOrder0.
  intros Hn. pose proof (following_keys c l Hn) as Hk.
  assert (Hs : StronglySorted (λ a b, kle a b = true) (following c l)).
  { apply py_sort_sorted; unfold kle; [intros; apply lo_total | intros x y z; apply lo_trans]. }
  revert Hk. induction Hs as [|x s Hs IH Hx]; intros Hk; [constructor|].
  cbn in Hk. apply NoDup_cons in Hk as [Hnx Hk]. constructor; [by apply IH|].
  apply Forall_forall. intros y Hy. apply not_true_iff_false. intros Hle.
  rewrite Forall_forall in Hx. apply Hnx. rewrite (lo_antisym (key x) (key y)); [|by apply Hx|done].
  by apply list_elem_of_fmap_2.
Qed.

Lemma klt_irrefl x : ¬ klt x x.
Proof using LinearOrder0. unfold klt. destruct (lo_total (key x) (key x)); congruence. Qed.

(** Two strictly sorted lists with the same elements are equal. *)
Lemma sorted_unique l1 l2 :
  StronglySorted klt l1 → StronglySorted klt l2 → (∀ x, x ∈ l1 ↔ x ∈ l2) → l1 = l2.
Proof using LinearOrder0.
  intros H1. revert l2. induction H1 as [|x l1 Hl1 IH Hx]; intros l2 H2 Heq.
  - destruct l2 as [|y l2]; [done|]. destruct (not_elem_of_nil y). apply Heq. by left.
  - destruct H2 as [|y l2 Hl2 Hy]; [destruct (not_elem_of_nil x); apply Heq; by left|].
    rewrite Forall_forall in Hx, Hy.
    assert (x = y) as ->.
    { pose proof (proj1 (Heq x) ltac:(by left)) as [?|?]%elem_of_cons; [done|].
      pose proof (proj2 (Heq y) ltac:(by left)) as [?|?]%elem_of_cons; [done|].
      destruct (klt_irrefl x). eapply klt_trans; [by apply Hx | by apply Hy]. }
    f_equal. apply IH; [done|]. intros z. split; intros Hz.
    + pose proof (proj1 (Heq z) ltac:(by right)) as [->|?]%elem_of_cons; [|done]. by destruct (klt_irrefl y); apply Hx.
    + pose proof (proj2 (Heq z) ltac:(by right)) as [->|?]%elem_of_cons; [|done]. by destruct (klt_irrefl y); apply Hy.
Qed.

Lemma sorted_app l1 l2 :
  StronglySorted klt (l1 ++ l2) ↔
  StronglySorted klt l1 ∧ StronglySorted klt l2 ∧ ∀ x y, x ∈ l1 → y ∈ l2 → klt x y.
Proof.
  induction l1 as [|x l1 IH]; cbn.
  - split; [|by intros (_ & ? & _)]. intros H. split; [constructor|]. split; [done|]. by intros ? ? ?%not_elem_of_nil.
  - split.
    + intros [H Hx]%StronglySorted_inv. apply IH in H as (H1 & H2 & H3). rewrite Forall_app in Hx.
      destruct Hx as [Hx1 Hx2]. rewrite Forall_forall in Hx2. split; [by constructor|]. split; [done|].
      intros u v [->|Hu]%elem_of_cons Hv; auto.
    + intros (H1 & H2 & H3). apply StronglySorted_inv in H1 as [H1 Hx]. constructor.
      * apply IH. split; [done|]. split; [done|]. intros u v Hu Hv. apply H3; [by right | done].
      * apply Forall_app. split; [done|]. apply Forall_forall. intros v Hv. apply H3; [by left | done].
Qed.

(** The rows after a page are the rows after its last key. *)
Lemma following_split n c l z :
  NoDup (key <$> l) → last (page n c l) = Some z →
  following c l = page n c l ++ following (Some (key z)) l.
Proof using LinearOrder0.
  intros Hn Hz. rewrite <- (take_drop n (following c l)) at 1. unfold page in *. f_equal.
  pose proof (following_sorted c l Hn) as Hs. rewrite <- (take_drop n) in Hs.
  apply sorted_app in Hs as (Hs1 & Hs2 & Hlt).
  apply sorted_unique; [done | by apply following_sorted|]. intros x.
  assert (Hsplit : x ∈ following c l ↔ x ∈ take n (following c l) ∨ x ∈ drop n (following c l))
    by by rewrite <- elem_of_app, take_drop.
  assert (Hzin : z ∈ take n (following c l)) by by apply last_Some_elem_of.
  rewrite (following_elem (Some (key z))). cbn [after]. rewrite negb_true_iff. split.
  - intros Hx. split; [apply (following_elem c), Hsplit; by right | by apply (Hlt z x)].
  - intros [Hx Hzx]. assert (Hin : x ∈ following c l).
    { apply following_elem. split; [done|]. apply last_Some_elem_of in Hz.
      assert (Hzc : z ∈ following c l) by by apply (elem_of_take z n) in Hz as (? & ? & _); eapply list_elem_of_lookup_2.
      apply following_elem in Hzc as [_ Hzc]. destruct c as [k|]; [|done]. cbn in *. rewrite negb_true_iff in *.
      apply not_true_iff_false. intros Hle. apply not_true_iff_false in Hzc. apply Hzc.
      eapply lo_trans; [|exact Hle]. destruct (lo_total (key z) (key x)); [done | congruence]. }
    apply Hsplit in Hin as [Hin|]; [|done]. exfalso.
    apply last_Some in Hz as [l' Hl']. rewrite Hl' in Hin, Hs1.
    apply sorted_app in Hs1 as (_ & _ & Hlast). apply elem_of_snoc in Hin as [Hin| ->].
    + apply (klt_irrefl x). eapply klt_trans; [apply Hlast; [exact Hin | by apply list_elem_of_singleton] | exact Hzx].
    + by apply (klt_irrefl z).
Qed.

Lemma page_elem n c l x : x ∈ page n c l → x ∈ l ∧ after c x = true.
Proof. intros (i & Hi & _)%elem_of_take. apply following_elem. by eapply list_elem_of_lookup_2. Qed.

(** A page continues what was read up to its cursor. *)
Lemma sorted_last l z x : StronglySorted klt l → last l = Some z → x ∈ l → x = z ∨ klt x z.
Proof.
  intros Hs [l' ->]%last_Some Hx. apply sorted_app in Hs as (_ & _ & Hlt).
  apply elem_of_snoc in Hx as [Hx| ->]; [right | by left]. apply Hlt; [done | by apply list_elem_of_singleton].
Qed.

Lemma page_sorted n c l : NoDup (key <$> l) → StronglySorted klt (page n c l).
Proof using LinearOrder0.
  intros Hn. pose proof (following_sorted c l Hn) as Hs. rewrite <- (take_drop n) in Hs.
  by apply sorted_app in Hs as [Hs _].
Qed.

Lemma page_continues n l read :
  NoDup (key <$> l) → StronglySorted klt read →
  StronglySorted klt (read ++ page n (key <$> last read) l).
Proof using LinearOrder0.
  intros Hn Hs. apply sorted_app. split; [done|]. split; [by apply page_sorted|]. intros x y Hx Hy.
  destruct (last read) as [z|] eqn:Hz; [|apply last_None in Hz as ->; by apply not_elem_of_nil in Hx].
  apply page_elem in Hy as [_ Hy]. cbn in Hy. rewrite negb_true_iff in Hy.
  destruct (sorted_last _ _ _ Hs Hz Hx) as [->|Hlt]; [done|]. eapply klt_trans; [exact Hlt | exact Hy].
Qed.

Lemma sorted_NoDup l : StronglySorted klt l → NoDup l.
Proof using LinearOrder0.
  induction 1 as [|x l Hl IH Hx]; constructor; [|done]. intros Hin. rewrite Forall_forall in Hx.
  by apply (klt_irrefl x), Hx.
Qed.

(** A page that is not full is the whole rest. *)
Lemma page_short n c l : length (page n c l) < n → page n c l = following c l.
Proof. unfold page. rewrite length_take. intros H. apply take_ge. lia. Qed.

End pages.

(** Sorted identifiers. *)
Lemma sorted_strings l :
  StronglySorted (klt id str_leb) l → StronglySorted (λ x y, str_ltb x y = true) l.
Proof.
  induction 1 as [|x l Hl IH Hx]; constructor; [done|]. eapply Forall_impl; [exact Hx|].
  intros y Hy. change (str_leb y x = false) in Hy. unfold str_ltb. by rewrite Hy.
Qed.
