(* ===== verification/Broker.v ===== *)
(** * The resource lease broker ([agent_broker.py])

    State: one JSON ledger per host ([state.json]) holding the root budget, the
    leases by worker identifier, the answers given by request identifier and
    the last swap sample; next to it the untrusted request spool, the private
    results and the execution receipts.  Every operation takes the broker lock
    for its whole run, so an operation is one step on [Disk].  Clock readings,
    random identifiers and the [/proc] sample are arguments; file permission
    checks and I/O failures of the host are not modelled. *)

From S2P Require Import Prelude PyFloat Json.

Local Open Scope Z_scope.

(** ** Identifiers *)

Definition id_char (c : ascii) : bool :=
  is_alnum c || Ascii.eqb c "_" || Ascii.eqb c "." || Ascii.eqb c "-".

(** [ID.fullmatch(s)] *)
Definition ID_fullmatch (s : string) : bool :=
  match s with
  | EmptyString => false
  | String c s' => is_alnum c && all_chars id_char s' && (String.length s' <=? 79)%nat
  end.

Definition PRESSURE_MAX_AGE_SECONDS : float := f_of_Z 5.
Definition SWAP_ACTIVITY_MAX_WINDOW_SECONDS : float := f_of_Z 60.
Definition CLAIM_TTL_SECONDS : float := f_of_Z 60.

(** ** Budgets *)

Record Budget := mkBudget {
  memory_high_mib : Z; memory_max_mib : Z; swap_max_mib : Z; cpu_percent : Z;
  tasks : Z; workers : Z; heavy : Z }.

#[export] Instance Budget_eq_dec : EqDecision Budget.
Proof. solve_decision. Defined.

(** [asdict(self)], as the list of its readers. *)
Definition budget_fields : list (Budget → Z) :=
  [memory_high_mib; memory_max_mib; swap_max_mib; cpu_percent; tasks; workers; heavy].

(** [Budget(...)] runs [__post_init__]. *)
Definition Budget_post_init (b : Budget) : res Budget :=
  if existsb (λ g, g b <? 0) budget_fields
  then raise ValueError "budget values must be non-negative integers"
  else if memory_max_mib b <? memory_high_mib b
  then raise ValueError "memory_high_mib exceeds memory_max_mib"
  else Ok b.

Definition Budget_plus (a b : Budget) : Budget :=
  {| memory_high_mib := memory_high_mib a + memory_high_mib b;
     memory_max_mib := memory_max_mib a + memory_max_mib b;
     swap_max_mib := swap_max_mib a + swap_max_mib b;
     cpu_percent := cpu_percent a + cpu_percent b;
     tasks := tasks a + tasks b;
     workers := workers a + workers b;
     heavy := heavy a + heavy b |}.

Definition Budget_add (a b : Budget) : res Budget := Budget_post_init (Budget_plus a b).

Definition Budget_fits (b limit : Budget) : bool :=
  forallb (λ g, g b <=? g limit) budget_fields.

Definition ZERO : Budget := mkBudget 0 0 0 0 0 0 0.

Definition CLASSES (name : string) : option Budget :=
  if String.eqb name "light" then Some (mkBudget 700 1024 128 100 96 1 0)
  else if String.eqb name "implementation" then Some (mkBudget 1229 1792 256 200 160 1 0)
  else if String.eqb name "heavy" then Some (mkBudget 2560 3584 512 400 384 1 1)
  else None.

(** ** Requests *)

(** [ChildBudget]: the same seven integers, only required non-negative. *)
Definition ChildBudget_non_negative (b : Budget) : bool :=
  forallb (λ g, negb (g b <? 0)) budget_fields.

(** [ChildBudget.budget()] *)
Definition ChildBudget_budget (b : Budget) : res Budget := Budget_post_init b.

Record LeaseRequest := mkRequest {
  rq_request_id : string; rq_parent : string; rq_worker : string;
  rq_worker_class : string; rq_children : Budget }.

(** [LeaseRequest.model_validate_json] on a well-typed object. *)
Definition LeaseRequest_validate (r : LeaseRequest) : res LeaseRequest :=
  if negb (ID_fullmatch (rq_request_id r) && ID_fullmatch (rq_parent r)
           && ID_fullmatch (rq_worker r))
  then raise ValueError "invalid identifier"
  else if is_none (CLASSES (rq_worker_class r)) then raise ValueError "unknown worker class"
  else if negb (ChildBudget_non_negative (rq_children r))
  then raise ValueError "budget values must be non-negative"
  else Ok r.

(** ** Host pressure *)

(** The counters kept in the ledger between admissions. *)
Record Sample := mkSample { sm_pswpin : Z; sm_pswpout : Z; sm_sampled_monotonic : float }.

Record Pressure := mkPressure {
  memory_total_mib : Z; memory_available_mib : Z;
  swap_total_mib : Z; swap_used_mib : Z; memory_psi_avg10 : float;
  swap_activity_pages : option Z; sampled_monotonic : option float;
  activity_window_seconds : option float; pswpin : option Z; pswpout : option Z }.

(** [Pressure.with_activity]: [previous] is the sample of the ledger. *)
Definition with_activity (p : Pressure) (previous : option Sample) : Pressure :=
  match pswpin p, pswpout p, sampled_monotonic p, previous with
  | Some i, Some o, Some now, Some prev =>
      let elapsed := fsub now (sm_sampled_monotonic prev) in
      let activity := (i - sm_pswpin prev) + (o - sm_pswpout prev) in
      if fleb_Z elapsed 0 || (activity <? 0) then p
      else {| memory_total_mib := memory_total_mib p;
              memory_available_mib := memory_available_mib p;
              swap_total_mib := swap_total_mib p; swap_used_mib := swap_used_mib p;
              memory_psi_avg10 := memory_psi_avg10 p;
              swap_activity_pages := Some activity;
              sampled_monotonic := Some now;
              activity_window_seconds := Some elapsed;
              pswpin := Some i; pswpout := Some o |}
  | _, _, _, _ => p
  end.

Definition sample_record (p : Pressure) : option Sample :=
  match pswpin p, pswpout p, sampled_monotonic p with
  | Some i, Some o, Some now => Some (mkSample i o now)
  | _, _, _ => None
  end.

(** The swap activity an admission decides on. *)
Definition effective_activity (p : Pressure) : option Z :=
  match swap_activity_pages p with
  | Some a => Some a
  | None =>
      if is_none (pswpin p) && is_none (pswpout p) && (swap_used_mib p =? 0)
      then Some 0 else None
  end.

(** The part of [Pressure.refusal] after the activity has been determined. *)
Definition activity_refusal (p : Pressure) (worker_class : string)
    (reserved_memory_mib candidate_memory_mib : Z) (activity : option Z) : option string :=
  match activity with
  | None =>
      if is_none (pswpin p) && is_none (pswpout p) && negb (swap_used_mib p =? 0)
      then Some "host_pressure" else Some "pressure_sample_missing"
  | Some activity =>
      if activity <? 0 then Some "pressure_sample_invalid"
      else if match activity_window_seconds p with
              | Some w => negb (isfinite w) || fleb_Z w 0
              | None => false
              end
      then Some "pressure_sample_invalid"
      else if match activity_window_seconds p with
              | Some w => fltb SWAP_ACTIVITY_MAX_WINDOW_SECONDS w
              | None => false
              end
      then Some "pressure_sample_stale"
      else
        let required :=
          Z.max 2048 (memory_total_mib p / 5) + reserved_memory_mib + candidate_memory_mib in
        if memory_available_mib p <? required then Some "memory_available"
        else if negb (activity =? 0) || fgeb_Z (memory_psi_avg10 p) 5
        then Some "host_pressure"
        else if negb (String.eqb worker_class "light") && fgeb_Z (memory_psi_avg10 p) 2
        then Some "host_pressure_light_only"
        else None
  end.

(** [Pressure.refusal]: [None] admits. *)
Definition refusal (p : Pressure) (worker_class : string)
    (reserved_memory_mib candidate_memory_mib : Z) (now : float) : option string :=
  if existsb (λ z, z <? 0)
       [memory_total_mib p; memory_available_mib p; swap_total_mib p; swap_used_mib p;
        reserved_memory_mib; candidate_memory_mib]
     || negb (isfinite (memory_psi_avg10 p)) || fltb_Z (memory_psi_avg10 p) 0
  then Some "pressure_sample_invalid"
  else if match sampled_monotonic p with
          | Some sampled => negb (isfinite sampled) || fltb now sampled
          | None => false
          end
  then Some "pressure_sample_invalid"
  else if match sampled_monotonic p with
          | Some sampled => fltb PRESSURE_MAX_AGE_SECONDS (fsub now sampled)
          | None => false
          end
  then Some "pressure_sample_stale"
  else activity_refusal p worker_class reserved_memory_mib candidate_memory_mib
         (effective_activity p).

(** ** The ledger *)

Inductive LeaseState := reserved | execution_active | completed | cancelled | abandoned.

#[export] Instance LeaseState_eq_dec : EqDecision LeaseState.
Proof. solve_decision. Defined.

(** [item["state"] in ACTIVE] *)
Definition ACTIVE (s : LeaseState) : bool :=
  match s with reserved | execution_active => true | _ => false end.

Record Lease := mkLease {
  lease_id : string; reservation_id : string; request_id : string; parent : string;
  worker_class : string; own : Budget; children : Budget; total : Budget;
  state : LeaseState; reserved_monotonic : float; l_boot_id : string;
  attempt_id : option string; unit_name : option string;
  claim_expires_monotonic : option float; reconciled_monotonic : option float }.

(** The recorded answer to a request. *)
Inductive Disposition :=
  | Refused (reason : string)
  | Reserved (lease reservation : string).

Record ReserveResult := mkResult {
  rr_request_id : string; rr_parent : string; rr_disposition : Disposition }.

Record BrokerState := mkState {
  version : Z; root : Budget; leases : gmap string Lease;
  requests : gmap string ReserveResult; pressure_sample : option Sample }.

Definition Receipt : Type := gmap string json.

(** The broker directory. *)
Record Disk := mkDisk {
  state_json : option BrokerState;
  spool : gmap (string * string) LeaseRequest;   (* inboxes/<parent>/<request>.json *)
  inboxes : gset string;
  results : gmap string ReserveResult;           (* results/<request>.json *)
  executions : gmap string Receipt;              (* executions/<lease>/status.json *)
  canaries : gmap string Receipt }.              (* canaries/<run>/report.json *)

Definition empty_disk : Disk := mkDisk None ∅ ∅ ∅ ∅ ∅.

Definition with_state (st : BrokerState) (d : Disk) : Disk :=
  mkDisk (Some st) (spool d) (inboxes d) (results d) (executions d) (canaries d).
Definition with_inbox (w : string) (d : Disk) : Disk :=
  mkDisk (state_json d) (spool d) ({[w]} ∪ inboxes d) (results d) (executions d) (canaries d).
Definition with_result (k : string) (r : ReserveResult) (d : Disk) : Disk :=
  mkDisk (state_json d) (spool d) (inboxes d) (<[k := r]> (results d)) (executions d) (canaries d).
Definition with_execution (k : string) (r : Receipt) (d : Disk) : Disk :=
  mkDisk (state_json d) (spool d) (inboxes d) (results d) (<[k := r]> (executions d)) (canaries d).
Definition with_canary (k : string) (r : Receipt) (d : Disk) : Disk :=
  mkDisk (state_json d) (spool d) (inboxes d) (results d) (executions d) (<[k := r]> (canaries d)).
Definition with_spool (m : gmap (string * string) LeaseRequest) (d : Disk) : Disk :=
  mkDisk (state_json d) m (inboxes d) (results d) (executions d) (canaries d).

Definition with_leases (m : gmap string Lease) (st : BrokerState) : BrokerState :=
  mkState (version st) (root st) m (requests st) (pressure_sample st).
Definition with_request (k : string) (r : ReserveResult) (st : BrokerState) : BrokerState :=
  mkState (version st) (root st) (leases st) (<[k := r]> (requests st)) (pressure_sample st).
Definition with_sample (s : option Sample) (st : BrokerState) : BrokerState :=
  mkState (version st) (root st) (leases st) (requests st) s.

(** ** Broker operations *)

(** [json.loads] of the ledger file. *)
Definition read_state : M Disk BrokerState := λ d,
  match state_json d with
  | Some st => (d, Ok st)
  | None => (d, raise FileNotFoundError "state.json")
  end.

Definition update_disk (f : Disk → Disk) : M Disk unit := λ d, (f d, Ok tt).

Definition write_state (st : BrokerState) : M Disk unit := update_disk (with_state st).

Definition active_lease (st : BrokerState) (id : string) : res Lease :=
  match leases st !! id with
  | Some l => if ACTIVE (state l) then Ok l else raise ValueError "lease is not active"
  | None => raise ValueError "lease is not active"
  end.

(** Active children of a parent. *)
Definition active_child (p : string) (l : Lease) : bool :=
  ACTIVE (state l) && eqb (parent l) p.

Definition has_active_children (st : BrokerState) (id : string) : bool :=
  existsb (active_child id) (values (leases st)).

(** The [used] loop of [_reserve]. *)
Fixpoint used_budget (p : string) (ls : list Lease) (used : Budget) : res Budget :=
  match ls with
  | [] => Ok used
  | l :: ls' =>
      if active_child p l then
        t ← Budget_post_init (total l);
        used' ← Budget_add used t;
        used_budget p ls' used'
      else used_budget p ls' used
  end.

(** [_admission_memory] *)
Definition admission_memory (st : BrokerState) (r : LeaseRequest) : res (Z * Z) :=
  let reserved := zsum (λ l, if active_child "root" l then memory_max_mib (total l) else 0)
                    (values (leases st)) in
  if negb (eqb (rq_parent r) "root") then Ok (reserved, 0)
  else match CLASSES (rq_worker_class r) with
       | None => raise KeyError "worker_class"
       | Some own =>
           ch ← ChildBudget_budget (rq_children r);
           requested ← Budget_add own ch;
           Ok (reserved, memory_max_mib requested)
       end.

Section operations.
(** [self.boot_id] of this broker process. *)
Context (boot_id : string).

(** [initialize] *)
Definition initialize (budget : Budget) : M Disk unit :=
  update_disk (with_inbox "root");;
  d ← get_st;
  throw_if (is_some (state_json d)) RuntimeError "broker is already initialized";;
  write_state (mkState 2 budget ∅ ∅ None).

(** [_reserve]: the new ledger entry and the answer.  [now] is the clock
    reading stored in the lease, [hex] the [uuid4().hex] drawn for it. *)
Definition _reserve (st : BrokerState) (r : LeaseRequest) (now : float) (hex : string)
  : res (BrokerState * Disposition) :=
  if eqb (rq_worker r) "root" || is_some (leases st !! rq_worker r)
  then raise ValueError "worker identifier already exists"
  else match CLASSES (rq_worker_class r) with
  | None => raise KeyError "worker_class"
  | Some own =>
      ch ← ChildBudget_budget (rq_children r);
      requested ← Budget_add own ch;
      limit ← (if eqb (rq_parent r) "root" then Budget_post_init (root st)
               else p ← active_lease st (rq_parent r); Budget_post_init (children p));
      used ← used_budget (rq_parent r) (values (leases st)) ZERO;
      total ← Budget_add used requested;
      if negb (Budget_fits total limit) then Ok (st, Refused "parent_budget")
      else
        let lease := {|
          lease_id := rq_worker r; reservation_id := hex; request_id := rq_request_id r;
          parent := rq_parent r; worker_class := rq_worker_class r;
          own := own; children := ch; total := requested; state := reserved;
          reserved_monotonic := now; l_boot_id := boot_id;
          attempt_id := None; unit_name := None;
          claim_expires_monotonic := None; reconciled_monotonic := None |} in
        Ok (with_leases (<[rq_worker r := lease]> (leases st)) st,
            Reserved (rq_worker r) hex)
  end.

(** [_pressure]: [current] is [Pressure.current()], [None] when it failed. *)
Definition _pressure (st : BrokerState) (supplied current : option Pressure)
  : BrokerState * Pressure :=
  match supplied with
  | Some p => (st, p)
  | None =>
      match current with
      | None => (st, mkPressure 0 0 0 0 S754_nan None None None None None)
      | Some raw =>
          let pressure := with_activity raw (pressure_sample st) in
          match sample_record raw with
          | Some s => (with_sample (Some s) st, pressure)
          | None => (st, pressure)
          end
      end
  end.

(** [reserve]: [now1] is the clock reading given to [refusal], [now2] the one
    stored in the lease. *)
Definition reserve (r : LeaseRequest) (supplied current : option Pressure)
    (now1 now2 : float) (hex : string) : M Disk ReserveResult :=
  st ← read_state;
  match requests st !! rq_request_id r with
  | Some prior =>
      throw_if (negb (eqb (rr_parent prior) (rq_parent r))) ValueError
        "request identifier collision";;
      mret prior
  | None =>
      let '(st, sample) := _pressure st supplied current in
      mem ← lift (admission_memory st r);
      match refusal sample (rq_worker_class r) mem.1 mem.2 now1 with
      | Some reason =>
          let result := mkResult (rq_request_id r) (rq_parent r) (Refused reason) in
          write_state (with_request (rq_request_id r) result st);;
          mret result
      | None =>
          out ← lift (_reserve st r now2 hex);
          let result := mkResult (rq_request_id r) (rq_parent r) out.2 in
          (match out.2 with
           | Reserved w _ => update_disk (with_inbox w)
           | Refused _ => mret tt
           end);;
          write_state (with_request (rq_request_id r) result out.1);;
          mret result
      end
  end.

(** [ingest]: a request file of the untrusted spool. *)
Definition ingest (p rid : string) (supplied current : option Pressure)
    (now1 now2 : float) (hex : string) : M Disk ReserveResult :=
  throw_if (negb (ID_fullmatch p && ID_fullmatch rid)) ValueError "invalid identifier";;
  d ← get_st;
  raw ← match spool d !! (p, rid) with
        | Some raw => mret raw
        | None => throw FileNotFoundError "request"
        end;
  r ← lift (LeaseRequest_validate raw);
  throw_if (negb (eqb (rq_parent r) p && eqb (rq_request_id r) rid)) ValueError
    "request identity does not match its inbox";;
  result ← reserve r supplied current now1 now2 hex;
  update_disk (with_result rid result);;
  mret result.

(** [complete], [cancel], [finish_execution]: the proof-free release paths. *)
Definition complete (id : string) : M Disk unit :=
  throw RuntimeError "lease release requires identity-bound reconciliation".
Definition cancel (id : string) : M Disk unit :=
  throw RuntimeError "lease release requires identity-bound reconciliation".
Definition finish_execution (id : string) : M Disk unit :=
  throw RuntimeError "execution release requires identity-bound runtime reconciliation".

(** [status] and [lease] *)
Definition status : M Disk BrokerState := read_state.
Definition lease (id : string) : M Disk Lease :=
  st ← read_state; lift (active_lease st id).

(** [record_execution] *)
Definition record_execution (id : string) (receipt : Receipt) : M Disk unit :=
  throw_if (negb (ID_fullmatch id)) ValueError "invalid identifier";;
  update_disk (with_execution id receipt).

(** [execution_receipt] *)
Definition execution_receipt (id : string) : M Disk Receipt :=
  throw_if (negb (ID_fullmatch id)) ValueError "invalid identifier";;
  st ← read_state;
  lift (active_lease st id);;
  d ← get_st;
  match executions d !! id with
  | Some v => mret v
  | None => throw FileNotFoundError "status.json"
  end.

(** [record_canary] *)
Definition record_canary (run_id : string) (receipt : Receipt) : M Disk unit :=
  throw_if (negb (ID_fullmatch run_id)) ValueError "invalid identifier";;
  update_disk (with_canary run_id receipt).

(** A receipt may repeat the claim's identity, never contradict it. *)
Definition receipt_agrees (receipt : Receipt) (key expected : string) : bool :=
  match receipt !! key with Some v => eqb v (JStr expected) | None => true end.

Definition attached (l : Lease) (attempt unit_id : string) (expires : float) : Lease :=
  {| lease_id := lease_id l; reservation_id := reservation_id l;
     request_id := request_id l; parent := parent l; worker_class := worker_class l;
     own := own l; children := children l; total := total l;
     state := execution_active; reserved_monotonic := reserved_monotonic l;
     l_boot_id := boot_id; attempt_id := Some attempt; unit_name := Some unit_id;
     claim_expires_monotonic := Some expires;
     reconciled_monotonic := reconciled_monotonic l |}.

(** [attach_execution] *)
Definition attach_execution (id reservation attempt unit_id : string) (receipt : Receipt)
    (ttl now : float) : M Disk unit :=
  throw_if (negb (ID_fullmatch attempt && ID_fullmatch unit_id)) ValueError
    "invalid attempt or unit identifier";;
  throw_if (negb (isfinite ttl) || fleb_Z ttl 0) ValueError "claim ttl must be positive";;
  throw_if (negb (receipt_agrees receipt "attempt_id" attempt)) ValueError
    "receipt attempt_id does not match execution claim";;
  throw_if (negb (receipt_agrees receipt "unit" unit_id)) ValueError
    "receipt unit does not match execution claim";;
  st ← read_state;
  l ← lift (active_lease st id);
  throw_if (negb (eqb (state l) reserved)) RuntimeError "lease execution is already claimed";;
  throw_if (negb (eqb (reservation_id l) reservation)) ValueError
    "reservation identity mismatch";;
  write_state (with_leases (<[id := attached l attempt unit_id (fadd now ttl)]> (leases st)) st);;
  throw_if (negb (ID_fullmatch id)) ValueError "invalid identifier";;
  d ← get_st;
  throw_if (is_some (executions d !! id)) FileExistsError "status.json";;
  update_disk (with_execution id receipt).

(** [claim_execution]: the compatibility wrapper. *)
Definition claim_execution (id : string) (receipt : Receipt) (now : float) : M Disk unit :=
  l ← lease id;
  attempt ← match receipt !! "attempt_id" with
            | None => mret (String.append "attempt-" id)
            | Some (JStr s) => mret s
            | Some _ => throw TypeError "attempt and unit identifiers must be strings"
            end;
  unit_id ← match receipt !! "unit" with
         | None => mret (String.append "unknown-" (String.append id ".service"))
         | Some (JStr s) => mret s
         | Some _ => throw TypeError "attempt and unit identifiers must be strings"
         end;
  attach_execution id (reservation_id l) attempt unit_id receipt CLAIM_TTL_SECONDS now.

(** The answer of a reconciliation. *)
Inductive Reconciled :=
  | Unknown (reason : string)
  | Released (s : LeaseState).

Definition released (l : Lease) (s : LeaseState) (observed : float) : Lease :=
  {| lease_id := lease_id l; reservation_id := reservation_id l;
     request_id := request_id l; parent := parent l; worker_class := worker_class l;
     own := own l; children := children l; total := total l;
     state := s; reserved_monotonic := reserved_monotonic l;
     l_boot_id := l_boot_id l; attempt_id := attempt_id l; unit_name := unit_name l;
     claim_expires_monotonic := claim_expires_monotonic l;
     reconciled_monotonic := Some observed |}.

(** [isinstance(expires, (int, float)) and observed >= expires] *)
Definition expired (expires : option float) (observed : float) : bool :=
  match expires with Some e => fleb e observed | None => false end.

(** The release a runtime observation justifies, if any. *)
Definition resolved_state (l : Lease) (started terminal empty : option bool)
    (observed : float) (release_state : LeaseState) (require_claim_expiry : bool)
  : option LeaseState :=
  if eqb started (Some false) && expired (claim_expires_monotonic l) observed
  then Some abandoned
  else if eqb terminal (Some true) && eqb empty (Some true)
       && (negb require_claim_expiry || expired (claim_expires_monotonic l) observed)
  then Some release_state
  else None.

(** [reconcile_execution] *)
Definition reconcile_execution (id reservation attempt unit_id observed_boot_id : string)
    (started terminal empty : option bool) (observed : float)
    (release_state : LeaseState) (require_claim_expiry : bool) : M Disk Reconciled :=
  st ← read_state;
  l ← lift (active_lease st id);
  throw_if (negb (eqb (reservation_id l) reservation
                  && eqb (attempt_id l) (Some attempt) && eqb (unit_name l) (Some unit_id)))
    ValueError "execution identity mismatch";;
  if negb (eqb observed_boot_id (l_boot_id l)) || negb (eqb observed_boot_id boot_id)
  then mret (Unknown "boot_identity")
  else match resolved_state l started terminal empty observed release_state
               require_claim_expiry with
  | None => mret (Unknown "runtime_ambiguous")
  | Some s =>
      if has_active_children st id then mret (Unknown "active_children")
      else write_state (with_leases (<[id := released l s observed]> (leases st)) st);;
           mret (Released s)
  end.

(** [reconcile_reservation] *)
Definition reconcile_reservation (id reservation observed_boot_id : string)
    (launch_absent : option bool) (observed ttl : float) (require_expiry : bool)
    (release_state : LeaseState) : M Disk Reconciled :=
  st ← read_state;
  l ← lift (active_lease st id);
  throw_if (negb (eqb (reservation_id l) reservation)) ValueError
    "reservation identity mismatch";;
  if negb (eqb (state l) reserved) then mret (Unknown "execution_attached")
  else if negb (eqb observed_boot_id (l_boot_id l)) || negb (eqb observed_boot_id boot_id)
  then mret (Unknown "boot_identity")
  else if negb (eqb launch_absent (Some true))
       || (require_expiry && fltb observed (fadd (reserved_monotonic l) ttl))
  then mret (Unknown "launch_ambiguous")
  else if has_active_children st id then mret (Unknown "active_children")
  else write_state (with_leases (<[id := released l release_state observed]> (leases st)) st);;
       mret (Released release_state).
End operations.

(** ** Reachable ledgers *)

(** One call of a broker operation on the directory (by any process of the
    host, hence the quantified boot identity), or an arbitrary change of the
    untrusted spool by a worker. *)
Inductive step (d : Disk) : Disk → Prop :=
  | step_initialize budget :
      Budget_post_init budget = Ok budget →
      step d (initialize budget d).1
  | step_reserve boot r supplied current now1 now2 hex :
      step d (reserve boot r supplied current now1 now2 hex d).1
  | step_ingest boot p rid supplied current now1 now2 hex :
      step d (ingest boot p rid supplied current now1 now2 hex d).1
  | step_record_execution id receipt : step d (record_execution id receipt d).1
  | step_record_canary id receipt : step d (record_canary id receipt d).1
  | step_attach boot id rsv att un receipt ttl now :
      step d (attach_execution boot id rsv att un receipt ttl now d).1
  | step_claim boot id receipt now : step d (claim_execution boot id receipt now d).1
  | step_reconcile_execution boot id rsv att un ob started terminal empty observed s req :
      ACTIVE s = false →
      step d (reconcile_execution boot id rsv att un ob started terminal empty observed s req d).1
  | step_reconcile_reservation boot id rsv ob absent observed ttl req s :
      ACTIVE s = false →
      step d (reconcile_reservation boot id rsv ob absent observed ttl req s d).1
  | step_spool m : step d (with_spool m d).

Definition reachable : Disk → Prop := rtc step empty_disk.

(** ** The ledger invariant *)

(** The budget that bounds the active children of [p]. *)
Definition parent_limit (st : BrokerState) (p : string) : option Budget :=
  if eqb p "root" then Some (root st)
  else match leases st !! p with
       | Some l => if ACTIVE (state l) then Some (children l) else None
       | None => None
       end.

(** What the active children of [p] hold of the resource [g]. *)
Definition held (g : Budget → Z) (p : string) (ls : list Lease) : Z :=
  zsum (λ l, if active_child p l then g (total l) else 0) ls.

Record lease_ok (id : string) (l : Lease) : Prop := {
  lo_key : lease_id l = id;
  lo_total : total l = Budget_plus (own l) (children l);
  lo_own : ∀ g, g ∈ budget_fields → 0 ≤ g (own l);
  lo_children : ∀ g, g ∈ budget_fields → 0 ≤ g (children l);
  lo_total_high : memory_high_mib (total l) ≤ memory_max_mib (total l);
  lo_children_high : memory_high_mib (children l) ≤ memory_max_mib (children l) }.

Record Inv (st : BrokerState) : Prop := {
  inv_root : Budget_post_init (root st) = Ok (root st);
  inv_no_root : leases st !! "root" = None;
  inv_leases : map_Forall lease_ok (leases st);
  inv_parent : ∀ id l, leases st !! id = Some l → ACTIVE (state l) = true →
    is_Some (parent_limit st (parent l));
  inv_budget : ∀ p lim g, parent_limit st p = Some lim → g ∈ budget_fields →
    held g p (values (leases st)) ≤ g lim }.

Definition DiskInv (d : Disk) : Prop := ∀ st, state_json d = Some st → Inv st.

(** What the active leases of the whole tree may use themselves. *)
Definition tree_own (g : Budget → Z) (st : BrokerState) : Z :=
  zsum (λ l, if ACTIVE (state l) then g (own l) else 0) (values (leases st)).

(** *** Budgets *)

Lemma budget_fields_plus g a b :
  g ∈ budget_fields → g (Budget_plus a b) = g a + g b.
Proof. unfold budget_fields. set_unfold. naive_solver. Qed.

Lemma Budget_post_init_Ok b b' :
  Budget_post_init b = Ok b' ↔
  b' = b ∧ (∀ g, g ∈ budget_fields → 0 ≤ g b) ∧ memory_high_mib b ≤ memory_max_mib b.
Proof.
  unfold Budget_post_init.
  destruct (existsb _ _) eqn:E; [|destruct (_ <? _) eqn:F].
  - split; [done | intros (_ & Hg & _)].
    apply existsb_exists in E as (g & Hg'%list_elem_of_In & Hlt).
    specialize (Hg g Hg'). lia.
  - split; [done | intros (_ & _ & ?); lia].
  - split; [intros [= <-] | by intros (-> & _)].
    repeat split; [|lia]. intros g Hg. destruct (Z_le_gt_dec 0 (g b)); [done|].
    exfalso. apply not_true_iff_false in E. apply E, existsb_exists.
    exists g. rewrite <- list_elem_of_In. split; [done | lia].
Qed.

Lemma Budget_post_init_eq b b' : Budget_post_init b = Ok b' → b' = b.
Proof. by intros (-> & _)%Budget_post_init_Ok. Qed.

Lemma Budget_add_eq a b c : Budget_add a b = Ok c → c = Budget_plus a b.
Proof. apply Budget_post_init_eq. Qed.

Lemma Budget_fits_spec b limit :
  Budget_fits b limit = true ↔ ∀ g, g ∈ budget_fields → g b ≤ g limit.
Proof.
  unfold Budget_fits. rewrite forallb_forall. setoid_rewrite <- list_elem_of_In.
  by setoid_rewrite Z.leb_le.
Qed.

Lemma CLASSES_nonneg c b : CLASSES c = Some b → ∀ g, g ∈ budget_fields → 0 ≤ g b.
Proof.
  unfold CLASSES, budget_fields. intros H g. set_unfold.
  repeat case_match; simplify_eq; naive_solver lia.
Qed.

(** *** What the children of a parent hold *)

Lemma held_cons g p l ls :
  held g p (l :: ls) = (if active_child p l then g (total l) else 0) + held g p ls.
Proof. done. Qed.

Lemma held_perm g p ls ls' : ls ≡ₚ ls' → held g p ls = held g p ls'.
Proof. apply zsum_perm. Qed.

Lemma used_budget_sum p ls u u' g :
  g ∈ budget_fields → used_budget p ls u = Ok u' → g u' = g u + held g p ls.
Proof.
  intros Hg. revert u. induction ls as [|l ls IH]; intros u; cbn.
  - intros [= ->]. unfold held. rewrite zsum_nil. lia.
  - rewrite held_cons. destruct (active_child p l); [|intros; rewrite (IH u); [lia | done]].
    rewrite bind_Ok. intros (t & ->%Budget_post_init_eq & H).
    apply bind_Ok in H as (v & ->%Budget_add_eq & H).
    rewrite (IH _ H), budget_fields_plus by done. lia.
Qed.

(** *** Invariant steps on the ledger *)

(** Fields other than the leases are irrelevant to the invariant. *)
Lemma Inv_frame st st' :
  root st' = root st → leases st' = leases st → Inv st → Inv st'.
Proof.
  intros Hr Hl [? ? ? Hp Hb].
  assert (∀ p, parent_limit st' p = parent_limit st p) as Hlim.
  { intros p. unfold parent_limit. by rewrite Hr, Hl. }
  constructor; rewrite ?Hr, ?Hl; try done.
  - intros id l. rewrite Hlim. apply Hp.
  - intros p lim g. rewrite Hlim. apply Hb.
Qed.

Lemma Inv_initial budget : Budget_post_init budget = Ok budget → Inv (mkState 2 budget ∅ ∅ None).
Proof.
  intros Hb. constructor; cbn; try done.
  intros p lim g. unfold parent_limit; cbn. case_match; [|done].
  intros [= <-] Hg. apply Budget_post_init_Ok in Hb as (_ & Hb & _). by apply Hb.
Qed.

Lemma active_parent_known st p : Inv st → is_Some (parent_limit st p) →
  p = "root" ∨ ∃ l, leases st !! p = Some l ∧ ACTIVE (state l) = true.
Proof.
  intros _ [lim Hlim]. revert Hlim. unfold parent_limit. destruct (eqb p "root") eqn:E.
  - left. by rewrite eqb_true in E.
  - destruct (leases st !! p) as [l|]; [|done]. destruct (ACTIVE (state l)) eqn:Ha; [|done]. eauto.
Qed.

Lemma no_active_children_of_unknown st id g :
  Inv st → leases st !! id = None → id ≠ "root" → held g id (values (leases st)) = 0.
Proof.
  intros Hinv Hid Hr. apply zsum_zero. intros l [k Hl]%elem_of_values.
  destruct (active_child id l) eqn:E; [|done]. exfalso.
  unfold active_child in E. to_prop. destruct E as [Ha Hp].
  destruct (active_parent_known st (parent l)) as [|(pl & ? & _)]; eauto using inv_parent; congruence.
Qed.

(** Admitting a fresh lease that fits. *)
Lemma Inv_insert st id l lim :
  Inv st → leases st !! id = None → id ≠ "root" → parent l ≠ id →
  lease_ok id l → state l = reserved → parent_limit st (parent l) = Some lim →
  (∀ g, g ∈ budget_fields → held g (parent l) (values (leases st)) + g (total l) ≤ g lim) →
  Inv (with_leases (<[id := l]> (leases st)) st).
Proof.
  intros Hinv Hid Hroot Hpid Hl Hst Hlim Hfit.
  assert (∀ p, p ≠ id → parent_limit (with_leases (<[id := l]> (leases st)) st) p
                        = parent_limit st p) as Hsame.
  { intros p Hp. unfold parent_limit; cbn. by rewrite lookup_insert_ne. }
  constructor; cbn.
  - apply Hinv.
  - rewrite lookup_insert_ne by done. apply Hinv.
  - apply map_Forall_insert_2; [done | apply Hinv].
  - intros k l' Hk Ha. destruct (decide (k = id)) as [->|Hne].
    + rewrite lookup_insert_eq in Hk. simplify_eq. rewrite Hsame, Hlim by done. eauto.
    + rewrite lookup_insert_ne in Hk by done.
      pose proof (inv_parent st Hinv k l' Hk Ha) as Hp. rewrite Hsame; [done|].
      intros Heq. destruct (active_parent_known st (parent l') Hinv Hp) as [|(pl & ? & _)]; congruence.
  - intros p lim' g Hp Hg.
    rewrite (held_perm _ _ _ _ (values_insert_fresh _ _ l Hid)), held_cons.
    unfold active_child at 1. rewrite Hst. cbn.
    destruct (decide (p = id)) as [->|Hne].
    + rewrite no_active_children_of_unknown by done.
      replace (eqb (parent l) id) with false by (symmetry; by apply eqb_false).
      revert Hp. unfold parent_limit. cbn. rewrite lookup_insert_eq, Hst. cbn.
      replace (eqb id "root") with false by (symmetry; by apply eqb_false).
      intros [= <-]. apply (lo_children _ _ Hl g Hg).
    + rewrite Hsame in Hp by done.
      destruct (eqb (parent l) p) eqn:E.
      * rewrite eqb_true in E. subst p. rewrite Hlim in Hp. simplify_eq.
        specialize (Hfit g Hg). lia.
      * pose proof (inv_budget st Hinv p lim' g Hp Hg). lia.
Qed.

(** A lease that stays active with the same budgets, or is released once it has
    no active child. *)
Lemma Inv_update st id l l' :
  Inv st → leases st !! id = Some l → ACTIVE (state l) = true →
  lease_id l' = lease_id l → parent l' = parent l → own l' = own l →
  children l' = children l → total l' = total l →
  (ACTIVE (state l') = true ∨ has_active_children st id = false) →
  Inv (with_leases (<[id := l']> (leases st)) st).
Proof.
  intros Hinv Hl Ha Hid Hpar Hown Hch Htot Hrel.
  set (st' := with_leases _ st).
  assert (∀ p lim, parent_limit st' p = Some lim → parent_limit st p = Some lim) as Hback.
  { intros p lim. unfold parent_limit; cbn. destruct (eqb p "root"); [done|].
    destruct (decide (p = id)) as [->|]; [|by rewrite lookup_insert_ne].
    rewrite lookup_insert_eq, Hl, Ha, Hch. by case_match. }
  destruct (values_insert_present (leases st) id l l' Hl) as (rest & Hv & Hv').
  constructor; cbn.
  - apply Hinv.
  - rewrite lookup_insert_ne; [apply Hinv|]. intros ->. by rewrite (inv_no_root st Hinv) in Hl.
  - apply map_Forall_insert_2; [|apply Hinv].
    destruct (map_Forall_lookup_1 _ _ _ _ (inv_leases st Hinv) Hl) as [Hk Ht Ho Hc Hth Hch'].
    constructor; intros; rewrite ?Hid, ?Htot, ?Hown, ?Hch; auto.
  - intros k lk Hk Hak.
    assert (∃ lo, leases st !! k = Some lo ∧ ACTIVE (state lo) = true ∧ parent lo = parent lk)
      as (lo & Hlo & Hao & Hpo).
    { destruct (decide (k = id)) as [->|].
      - rewrite lookup_insert_eq in Hk. simplify_eq. eauto.
      - rewrite lookup_insert_ne in Hk by done. eauto. }
    rewrite <- Hpo. pose proof (inv_parent st Hinv k lo Hlo Hao) as [lim Hlim].
    revert Hlim. unfold parent_limit; cbn. destruct (eqb (parent lo) "root"); [eauto|].
    destruct (decide (parent lo = id)) as [E|]; [|rewrite lookup_insert_ne by done; eauto].
    rewrite E, lookup_insert_eq. intros _. destruct Hrel as [->|Hno]; [eauto|].
    exfalso. apply not_true_iff_false in Hno. apply Hno, existsb_exists. exists lo.
    rewrite <- list_elem_of_In, elem_of_values. split; [eauto|].
    unfold active_child. to_prop. done.
  - intros p lim g Hp Hg. apply Hback in Hp.
    pose proof (inv_budget st Hinv p lim g Hp Hg) as Hle.
    rewrite (held_perm _ _ _ _ Hv), held_cons in Hle.
    rewrite (held_perm _ _ _ _ Hv'), held_cons. revert Hle. unfold active_child at 1 2.
    rewrite Hpar, Htot, Ha. cbn. destruct (eqb (parent l) p); [|by rewrite andb_false_r].
    rewrite andb_true_r. destruct (map_Forall_lookup_1 _ _ _ _ (inv_leases st Hinv) Hl) as [_ Ht Ho Hc _ _].
    pose proof (Ho g Hg). pose proof (Hc g Hg).
    destruct (ACTIVE (state l')); rewrite ?Ht, ?budget_fields_plus by done; lia.
Qed.

(** *** Every operation keeps the invariant *)

Lemma Inv_reserve boot st r now hex o :
  _reserve boot st r now hex = Ok o → Inv st → Inv o.1.
Proof.
  intros H Hinv. revert H. unfold _reserve. destruct (eqb _ _ || _) eqn:Hfresh; [done|].
  destruct (CLASSES (rq_worker_class r)) as [own0|] eqn:Hclass; [|done].
  rewrite bind_Ok. intros (ch & Hch & H). rewrite bind_Ok in H.
  destruct H as (requested & [-> [_ Hhigh]]%Budget_post_init_Ok & H).
  rewrite bind_Ok in H. destruct H as (limit & Hlimit & H).
  rewrite bind_Ok in H. destruct H as (used & Hused & H).
  rewrite bind_Ok in H. destruct H as (tot & ->%Budget_add_eq & H).
  destruct (Budget_fits _ _) eqn:Hfits; cbn in H; simplify_eq; [|done].
  rewrite orb_false_iff, eqb_false in Hfresh. destruct Hfresh as [Hnr Hnone].
  assert (leases st !! rq_worker r = None) as Hw by by destruct (leases st !! rq_worker r).
  apply Budget_post_init_Ok in Hch as (-> & Hchpos & ?).
  assert (parent_limit st (rq_parent r) = Some limit) as Hlim.
  { unfold parent_limit. destruct (eqb (rq_parent r) "root").
    - apply Budget_post_init_eq in Hlimit as ->. done.
    - rewrite bind_Ok in Hlimit. destruct Hlimit as (p & Hp & ->%Budget_post_init_eq).
      unfold active_lease in Hp. repeat case_match; simplify_eq. done. }
  eapply Inv_insert; cbn; try done.
  - intros Heq. destruct (active_parent_known st (rq_parent r)) as [|(? & ? & _)];
      [done | by rewrite Hlim | congruence | congruence].
  - constructor; cbn; try done. eauto using CLASSES_nonneg.
  - intros g Hg. rewrite Budget_fits_spec in Hfits. specialize (Hfits g Hg).
    rewrite budget_fields_plus in Hfits by done.
    rewrite (used_budget_sum _ _ _ _ _ Hg Hused) in Hfits.
    assert (g ZERO = 0) as Hz by (revert Hg; unfold budget_fields; set_unfold; naive_solver).
    lia.
Qed.

Lemma Inv_pressure st supplied current : Inv st → Inv (_pressure st supplied current).1.
Proof. intros. unfold _pressure. repeat case_match; cbn; try done. by apply (Inv_frame st). Qed.

Lemma Inv_with_request k r st : Inv st → Inv (with_request k r st).
Proof. by apply Inv_frame. Qed.

Lemma keeps_read_state : keeps DiskInv read_state Inv.
Proof.
  intros d Hd. unfold read_state. destruct (state_json d) eqn:E; cbn; [|done].
  split; [done|]. intros ? [= <-]. by apply Hd.
Qed.

Lemma keeps_write_state st : Inv st → keeps DiskInv (write_state st) (λ _, True).
Proof. intros H d _. split; [|done]. by intros ? [= <-]. Qed.

Lemma keeps_update_disk f :
  (∀ d, state_json (f d) = state_json d) → keeps DiskInv (update_disk f) (λ _, True).
Proof. intros Hf d Hd. split; [|done]. cbn. intros st. rewrite Hf. apply Hd. Qed.

#[export] Hint Resolve keeps_read_state keeps_write_state Inv_with_request Inv_reserve : keeps.

#[export] Hint Extern 1 (keeps _ (update_disk _) _) => by apply keeps_update_disk : keeps.

Lemma keeps_reserve boot r supplied current now1 now2 hex :
  keeps DiskInv (reserve boot r supplied current now1 now2 hex) (λ _, True).
Proof.
  unfold reserve. eapply keeps_bind; [apply keeps_read_state|]. intros st Hst.
  destruct (requests st !! _); [repeat keeps_step|].
  destruct (_pressure _ _ _) as [st1 sample] eqn:Hp.
  assert (Inv st1) by (pose proof (Inv_pressure st supplied current Hst); by rewrite Hp in *).
  repeat keeps_step.
Qed.

Lemma active_lease_Ok st id l :
  active_lease st id = Ok l → leases st !! id = Some l ∧ ACTIVE (state l) = true.
Proof. unfold active_lease. repeat case_match; naive_solver. Qed.

#[export] Hint Extern 2 (keeps _ (write_state (with_leases _ _)) _) =>
  match goal with
  | H : active_lease ?st ?id = Ok ?l
    |- keeps _ (write_state (with_leases (<[?id := _]> _) ?st)) _ =>
      apply active_lease_Ok in H as [? ?];
      apply keeps_write_state, (Inv_update st id l); by auto
  end : keeps.

Lemma keeps_attach boot id rsv att un receipt ttl now :
  keeps DiskInv (attach_execution boot id rsv att un receipt ttl now) (λ _, True).
Proof. unfold attach_execution. repeat keeps_step. Qed.

Lemma keeps_claim boot id receipt now :
  keeps DiskInv (claim_execution boot id receipt now) (λ _, True).
Proof. unfold claim_execution, lease. pose proof keeps_attach. repeat keeps_step. Qed.

Lemma keeps_reconcile_execution boot id rsv att un ob started terminal empty observed s req :
  keeps DiskInv
    (reconcile_execution boot id rsv att un ob started terminal empty observed s req) (λ _, True).
Proof. unfold reconcile_execution. repeat keeps_step. Qed.

Lemma keeps_reconcile_reservation boot id rsv ob absent observed ttl req s :
  keeps DiskInv
    (reconcile_reservation boot id rsv ob absent observed ttl req s) (λ _, True).
Proof. unfold reconcile_reservation. repeat keeps_step. Qed.

Lemma keeps_ingest boot p rid supplied current now1 now2 hex :
  keeps DiskInv (ingest boot p rid supplied current now1 now2 hex) (λ _, True).
Proof. unfold ingest. pose proof keeps_reserve. repeat keeps_step. Qed.

Lemma keeps_initialize budget :
  Budget_post_init budget = Ok budget → keeps DiskInv (initialize budget) (λ _, True).
Proof. intros Hb%Inv_initial. unfold initialize. repeat keeps_step. Qed.

Lemma step_DiskInv d d' : step d d' → DiskInv d → DiskInv d'.
Proof.
  intros Hstep Hd.
  destruct Hstep; try (done || apply (keeps_initialize _ H _ Hd) || apply keeps_reserve
    || apply keeps_ingest || apply keeps_attach || apply keeps_claim
    || apply keeps_reconcile_execution || apply keeps_reconcile_reservation); try done.
  - unfold record_execution. cbn. by destruct (ID_fullmatch id).
  - unfold record_canary. cbn. by destruct (ID_fullmatch id).
Qed.

Lemma reachable_Inv d st : reachable d → state_json d = Some st → Inv st.
Proof.
  intros Hd. revert st. change (DiskInv d). revert Hd.
  apply (rtc_ind_r DiskInv); [by intros ? [=] | eauto using step_DiskInv].
Qed.

(** *** The whole tree *)

Lemma zsum_pairs_values (f : Lease → Z) (m : gmap string Lease) :
  zsum (λ kl, f kl.2) (map_to_list m) = zsum f (values m).
Proof.
  unfold values. induction (map_to_list m) as [|kl l IH]; [done|].
  by rewrite fmap_cons, !zsum_cons, IH.
Qed.

(** The active leases with a leased parent are counted by their parents. *)
Lemma children_total_le st g :
  Inv st → g ∈ budget_fields →
  zsum (λ c, if ACTIVE (state c) && negb (eqb (parent c) "root") then g (total c) else 0)
    (values (leases st))
  ≤ zsum (λ l, if ACTIVE (state l) then g (children l) else 0) (values (leases st)).
Proof.
  intros Hinv Hg.
  transitivity (zsum (λ kl, if ACTIVE (state kl.2) then held g kl.1 (values (leases st)) else 0)
                  (map_to_list (leases st))).
  - set (F c (kl : string * Lease) :=
      if eqb (parent c) kl.1
      then (if ACTIVE (state kl.2) && ACTIVE (state c) then g (total c) else 0) else 0).
    rewrite (zsum_ext (λ kl, if ACTIVE (state kl.2) then held g kl.1 (values (leases st)) else 0)
      (λ kl, zsum (λ c, F c kl) (values (leases st)))).
    2: { intros [k l] _. unfold F, held, active_child; cbn. destruct (ACTIVE (state l)).
         - apply zsum_ext. intros c _. by destruct (ACTIVE (state c)), (eqb (parent c) k).
         - symmetry. apply zsum_zero. intros c _. by destruct (eqb (parent c) k). }
    rewrite (zsum_swap (λ kl c, F c kl)). apply zsum_le.
    intros c [k Hc]%elem_of_values.
    destruct (ACTIVE (state c)) eqn:Ha; cbn.
    2: { apply zsum_nonneg. intros kl _. unfold F. rewrite Ha, andb_false_r. by destruct (eqb _ kl.1). }
    pose proof (map_Forall_lookup_1 _ _ _ _ (inv_leases st Hinv) Hc) as [_ Ht Ho Hch _ _].
    destruct (active_parent_known st (parent c) Hinv (inv_parent st Hinv k c Hc Ha)) as [->|(p & Hp & Hpa)].
    { cbn. apply zsum_nonneg. intros ? _. unfold F. case_match; [|done]. case_match; [|done].
      rewrite Ht, budget_fields_plus by done. specialize (Ho g Hg). specialize (Hch g Hg). lia. }
    replace (eqb (parent c) "root") with false.
    2: { symmetry. rewrite eqb_false. intros Hr. rewrite Hr in Hp. by rewrite (inv_no_root st Hinv) in Hp. }
    pose proof (zsum_pick fst
      (λ kl : string * Lease, if ACTIVE (state kl.2) && ACTIVE (state c) then g (total c) else 0)
      (parent c, p) (map_to_list (leases st))) as Hpick.
    cbn in Hpick. unfold F. rewrite Hpick, Hpa, Ha; [done | apply NoDup_fst_map_to_list |].
    by apply elem_of_map_to_list.
  - rewrite <- (zsum_pairs_values (λ l, if ACTIVE (state l) then g (children l) else 0)).
    apply zsum_le. intros [k l] Hkl%elem_of_map_to_list. cbn.
    destruct (ACTIVE (state l)) eqn:Ha; [|done].
    apply (inv_budget st Hinv k); [|done]. unfold parent_limit. rewrite Hkl, Ha.
    case_match eqn:E; [|done]. rewrite eqb_true in E. subst k.
    by rewrite (inv_no_root st Hinv) in Hkl.
Qed.

(** C1: host-wide resource safety.  In every ledger reachable by any sequence
    of broker calls of any processes, under any interleaving and any content
    of the untrusted spool, the resources that all active leases of the whole
    worker tree use themselves, summed, stay within the root budget, for each
    of the seven resources. *)
Theorem broker_tree_budget d st g :
  reachable d → state_json d = Some st → g ∈ budget_fields → tree_own g st ≤ g (root st).
Proof.
  intros Hd Hst Hg. pose proof (reachable_Inv d st Hd Hst) as Hinv.
  pose proof (children_total_le st g Hinv Hg) as Hch.
  assert (parent_limit st "root" = Some (root st)) as Hlim by done.
  pose proof (inv_budget st Hinv _ _ g Hlim Hg) as Hroot.
  assert (zsum (λ l, if ACTIVE (state l) then g (total l) else 0) (values (leases st))
    = tree_own g st + zsum (λ l, if ACTIVE (state l) then g (children l) else 0) (values (leases st)))
    as Htot.
  { unfold tree_own. rewrite <- zsum_add. apply zsum_ext. intros l [k Hl]%elem_of_values.
    pose proof (map_Forall_lookup_1 _ _ _ _ (inv_leases st Hinv) Hl) as [_ -> _ _ _ _].
    rewrite budget_fields_plus by done. by case_match. }
  assert (zsum (λ l, if ACTIVE (state l) then g (total l) else 0) (values (leases st))
    = held g "root" (values (leases st))
      + zsum (λ c, if ACTIVE (state c) && negb (eqb (parent c) "root") then g (total c) else 0)
          (values (leases st))) as Hsplit.
  { unfold held, active_child. rewrite <- zsum_add. apply zsum_ext. intros l _.
    destruct (ACTIVE (state l)), (eqb (parent l) "root"); cbn; lia. }
  lia.
Qed.

(** C6: delegation safety.  What the active children of a parent hold in total
    (their own budget and what they may delegate further) fits the budget the
    parent delegates, the root included, and a lease with active children is
    itself active. *)
Theorem broker_delegation d st p l g :
  reachable d → state_json d = Some st → leases st !! p = Some l →
  g ∈ budget_fields → has_active_children st p = true →
  ACTIVE (state l) = true ∧ held g p (values (leases st)) ≤ g (children l).
Proof.
  intros Hd Hst Hp Hg Hc. pose proof (reachable_Inv d st Hd Hst) as Hinv.
  assert (ACTIVE (state l) = true) as Ha.
  { unfold has_active_children in Hc. apply existsb_exists in Hc as (c & Hc & Hac).
    rewrite <- list_elem_of_In, elem_of_values in Hc. destruct Hc as [k Hk].
    unfold active_child in Hac. rewrite andb_true_iff, eqb_true in Hac. destruct Hac as [Hac <-].
    destruct (active_parent_known st (parent c) Hinv (inv_parent st Hinv k c Hk Hac))
      as [E|(l' & ? & ?)]; [|congruence].
    rewrite E, (inv_no_root st Hinv) in Hp. done. }
  split; [done|]. apply (inv_budget st Hinv p); [|done].
  unfold parent_limit. rewrite Hp, Ha. case_match eqn:E; [|done].
  rewrite eqb_true in E. subst p. by rewrite (inv_no_root st Hinv) in Hp.
Qed.

(** ** Evolution of a ledger *)

(** What a lease may become: its identity, parentage and budgets never change;
    an attached execution keeps its attempt and unit; a released lease is
    frozen. *)
Record lease_evolves (l l' : Lease) : Prop := {
  le_id : lease_id l' = lease_id l;
  le_reservation : reservation_id l' = reservation_id l;
  le_parent : parent l' = parent l;
  le_own : own l' = own l;
  le_children : children l' = children l;
  le_total : total l' = total l;
  le_attached : state l ≠ reserved → attempt_id l' = attempt_id l ∧ unit_name l' = unit_name l;
  le_not_reserved : state l ≠ reserved → state l' ≠ reserved;
  le_released : ACTIVE (state l) = false → l' = l }.

#[export] Instance lease_evolves_preorder : PreOrder lease_evolves.
Proof.
  split.
  - intros l. by constructor.
  - intros a b c Hab Hbc. destruct Hab as [h1 h2 h3 h4 h5 h6 h7 h8 h9], Hbc as [i1 i2 i3 i4 i5 i6 i7 i8 i9].
    constructor; try congruence.
    + intros Ha. destruct (h7 Ha), (i7 (h8 Ha)). split; congruence.
    + auto.
    + intros Ha. specialize (h9 Ha). subst b. auto.
Qed.

(** What a ledger may become: the root budget is fixed, leases evolve, answers
    are never withdrawn. *)
Record evolves (st st' : BrokerState) : Prop := {
  ev_root : root st' = root st;
  ev_leases : ∀ k l, leases st !! k = Some l →
    ∃ l', leases st' !! k = Some l' ∧ lease_evolves l l';
  ev_requests : ∀ k r, requests st !! k = Some r → requests st' !! k = Some r }.

#[export] Instance evolves_preorder : PreOrder evolves.
Proof.
  split.
  - intros st. constructor; eauto. intros k l Hl. exists l. by split.
  - intros a b c Hab Hbc. constructor.
    + by rewrite (ev_root _ _ Hbc), (ev_root _ _ Hab).
    + intros k l (l1 & H1 & E1)%(ev_leases _ _ Hab).
      apply (ev_leases _ _ Hbc) in H1 as (l2 & H2 & E2). exists l2. split; [done | by etrans].
    + intros k r Hr%(ev_requests _ _ Hab). by apply (ev_requests _ _ Hbc).
Qed.

(** The directory holds a ledger that evolved from [st]. *)
Definition Since (st : BrokerState) (d : Disk) : Prop :=
  ∃ st', state_json d = Some st' ∧ evolves st st'.

Lemma evolves_update st id l l' :
  leases st !! id = Some l → lease_evolves l l' →
  evolves st (with_leases (<[id := l']> (leases st)) st).
Proof.
  intros Hl He. constructor; cbn; eauto. intros k l0 Hk.
  destruct (decide (k = id)) as [->|].
  - rewrite lookup_insert_eq. simplify_eq. eauto.
  - rewrite lookup_insert_ne by done. exists l0. by split.
Qed.

Lemma evolves_frame st st' :
  root st' = root st → leases st' = leases st → requests st' = requests st → evolves st st'.
Proof.
  intros Hr Hl Hq. constructor; rewrite ?Hr, ?Hl, ?Hq; eauto.
  intros k l Hk. exists l. by split.
Qed.

Lemma lease_evolves_attached boot l att un e :
  state l = reserved → lease_evolves l (attached boot l att un e).
Proof. intros Hs. constructor; cbn; rewrite ?Hs; done. Qed.

Lemma lease_evolves_released l s observed :
  ACTIVE (state l) = true → ACTIVE s = false → lease_evolves l (released l s observed).
Proof. intros Hl Hs. constructor; cbn; try done; [by intros _ -> | congruence]. Qed.

Lemma evolves_insert st id l :
  leases st !! id = None → evolves st (with_leases (<[id := l]> (leases st)) st).
Proof.
  intros Hid. constructor; cbn; eauto. intros k l0 Hk. exists l0.
  rewrite lookup_insert_ne by congruence. by split.
Qed.

Lemma evolves_request st k r :
  requests st !! k = None → evolves st (with_request k r st).
Proof.
  intros Hk. constructor; cbn; eauto.
  - intros k' l Hl. exists l. by split.
  - intros k' r' Hr. by rewrite lookup_insert_ne by congruence.
Qed.

Lemma _reserve_frame boot st r now hex o :
  _reserve boot st r now hex = Ok o → evolves st o.1 ∧ requests o.1 = requests st.
Proof.
  unfold _reserve. destruct (eqb _ _ || _) eqn:Hf; [done|].
  apply orb_false_iff in Hf as [_ Hnone].
  destruct (CLASSES _); [|done]. rewrite bind_Ok. intros (? & _ & H).
  apply bind_Ok in H as (? & _ & H). apply bind_Ok in H as (? & _ & H).
  apply bind_Ok in H as (? & _ & H). apply bind_Ok in H as (? & _ & H).
  destruct (negb _); simplify_eq; cbn; [by split|].
  split; [|done]. apply evolves_insert. by destruct (leases st !! _).
Qed.

Lemma _pressure_frame st supplied current :
  evolves st (_pressure st supplied current).1 ∧
  requests (_pressure st supplied current).1 = requests st.
Proof. unfold _pressure. repeat case_match; cbn; split; done || by apply evolves_frame. Qed.

Lemma Since_read st : keeps (Since st) read_state (evolves st).
Proof.
  intros d (st' & Hst & He). unfold read_state. rewrite Hst. cbn. split; [by exists st'|].
  by intros ? [= <-].
Qed.

Lemma Since_write st st' : evolves st st' → keeps (Since st) (write_state st') (λ _, True).
Proof. intros He d _. split; [by exists st' | done]. Qed.

Lemma Since_update_disk st f :
  (∀ d, state_json (f d) = state_json d) → keeps (Since st) (update_disk f) (λ _, True).
Proof. intros Hf d (st' & Hst & He). split; [|done]. exists st'. cbn. by rewrite Hf. Qed.

#[export] Hint Resolve Since_read : keeps.
#[export] Hint Extern 1 (keeps _ (update_disk _) _) => by apply Since_update_disk : keeps.
#[export] Hint Resolve lease_evolves_released lease_evolves_attached : keeps.
#[export] Hint Extern 2 (keeps (Since _) (write_state (with_leases _ _)) _) =>
  match goal with
  | H : active_lease ?st ?id = Ok ?l
    |- keeps _ (write_state (with_leases (<[?id := _]> _) ?st)) _ =>
      apply active_lease_Ok in H as [? ?]; rewrite ?negb_false_iff, ?eqb_true in *;
      apply Since_write; transitivity st; [done|];
      apply (evolves_update st id l); [done | by eauto with keeps]
  end : keeps.

Lemma Since_reserve st boot r supplied current now1 now2 hex :
  keeps (Since st) (reserve boot r supplied current now1 now2 hex) (λ _, True).
Proof.
  unfold reserve. eapply keeps_bind; [apply Since_read|]. intros st0 Hst0.
  destruct (requests st0 !! _) eqn:Hreq; [repeat keeps_step|].
  destruct (_pressure_frame st0 supplied current) as [He Hr].
  destruct (_pressure _ _ _) as [st1 sample]; cbn in *.
  assert (evolves st st1) as He1 by by etrans.
  assert (requests st1 !! rq_request_id r = None) as Hn by by rewrite Hr.
  eapply keeps_bind; [apply keeps_lift_eq|]. intros mem _. destruct (refusal _ _ _ _ _).
  - eapply keeps_bind; [apply Since_write; etrans; [done | by apply evolves_request]|].
    intros; repeat keeps_step.
  - eapply keeps_bind; [apply keeps_lift_eq|]. intros [st2 out] Ho.
    apply _reserve_frame in Ho as [He2 Hr2]; cbn in *.
    apply (keeps_bind _ _ _ (λ _, True)); [destruct out; repeat keeps_step|]. intros _ _.
    eapply keeps_bind; [apply Since_write|intros; repeat keeps_step].
    transitivity st2; [by etrans|]. apply evolves_request. congruence.
Qed.

Lemma Since_attach st boot id rsv att un receipt ttl now :
  keeps (Since st) (attach_execution boot id rsv att un receipt ttl now) (λ _, True).
Proof. unfold attach_execution. repeat keeps_step. Qed.

Lemma Since_claim st boot id receipt now :
  keeps (Since st) (claim_execution boot id receipt now) (λ _, True).
Proof. unfold claim_execution, lease. pose proof Since_attach. repeat keeps_step. Qed.

Lemma resolved_state_released l started terminal empty observed s req s' :
  resolved_state l started terminal empty observed s req = Some s' →
  ACTIVE s = false → ACTIVE s' = false.
Proof. unfold resolved_state. repeat case_match; naive_solver. Qed.

#[export] Hint Resolve resolved_state_released : keeps.

Lemma Since_reconcile_execution st boot id rsv att un ob started terminal empty observed s req :
  ACTIVE s = false →
  keeps (Since st)
    (reconcile_execution boot id rsv att un ob started terminal empty observed s req) (λ _, True).
Proof. intros Hs. unfold reconcile_execution. repeat keeps_step. Qed.

Lemma Since_reconcile_reservation st boot id rsv ob absent observed ttl req s :
  ACTIVE s = false →
  keeps (Since st)
    (reconcile_reservation boot id rsv ob absent observed ttl req s) (λ _, True).
Proof. intros Hs. unfold reconcile_reservation. repeat keeps_step. Qed.

Lemma Since_ingest st boot p rid supplied current now1 now2 hex :
  keeps (Since st) (ingest boot p rid supplied current now1 now2 hex) (λ _, True).
Proof. unfold ingest. pose proof Since_reserve. repeat keeps_step. Qed.

Lemma step_Since st d d' : step d d' → Since st d → Since st d'.
Proof.
  intros Hstep Hd.
  destruct Hstep; try (by apply Since_reserve || by apply Since_ingest || by apply Since_attach
    || by apply Since_claim || by apply Since_reconcile_execution
    || by apply Since_reconcile_reservation); try done.
  - destruct Hd as (st' & Hst & He). destruct d; cbn in *. subst. by exists st'.
  - unfold record_execution. cbn. by destruct (ID_fullmatch id).
  - unfold record_canary. cbn. by destruct (ID_fullmatch id).
Qed.

(** Every ledger reachable from a directory evolved from its ledger. *)
Lemma steps_Since st d d' : state_json d = Some st → rtc step d d' → Since st d'.
Proof.
  intros Hst. revert d'. apply (rtc_ind_r (Since st)); [by exists st | eauto using step_Since].
Qed.

(** *** Successful runs *)

Lemma read_state_Ok d d' st : read_state d = (d', Ok st) → d' = d ∧ state_json d = Some st.
Proof. unfold read_state. destruct (state_json d); by intros [= <- <-]. Qed.

Lemma update_disk_Ok f d d' a : update_disk f d = (d', Ok a) → d' = f d.
Proof. by intros [= <-]. Qed.

Ltac inv_broker :=
  repeat (inv_M; match goal with
  | H : read_state _ = (_, Ok _) |- _ => apply read_state_Ok in H as [-> ?]
  | H : write_state _ _ = (_, Ok _) |- _ => apply update_disk_Ok in H; try subst
  | H : update_disk _ _ = (_, Ok _) |- _ => apply update_disk_Ok in H; try subst
  | H : active_lease _ _ = Ok _ |- _ => apply active_lease_Ok in H as [? ?]
  end); inv_M.

Lemma attach_execution_Ok boot id rsv att un receipt ttl now d d' :
  attach_execution boot id rsv att un receipt ttl now d = (d', Ok tt) →
  ∃ st l, state_json d = Some st ∧ leases st !! id = Some l ∧
    state l = reserved ∧ reservation_id l = rsv ∧ executions d !! id = None ∧
    d' = with_execution id receipt
           (with_state (with_leases (<[id := attached boot l att un (fadd now ttl)]> (leases st)) st) d).
Proof.
  unfold attach_execution. intros H. inv_broker.
  rewrite ?negb_false_iff, ?eqb_true in *. eexists _, _. repeat (split; [done|]).
  split; [|done]. cbn in *. by destruct (executions d !! id).
Qed.

Lemma reserve_Ok boot r supplied current now1 now2 hex d d' ans :
  reserve boot r supplied current now1 now2 hex d = (d', Ok ans) →
  ∃ st, state_json d' = Some st ∧ requests st !! rq_request_id r = Some ans.
Proof.
  unfold reserve. intros H. inv_broker.
  destruct (requests a !! rq_request_id r) as [prior|] eqn:Hreq; inv_broker; [by exists a|].
  destruct (_pressure _ _ _) as [st1 sample]. inv_broker.
  destruct (refusal _ _ _ _ _); inv_broker; (eexists; split; [done | apply lookup_insert_eq]).
Qed.

(** *** Properties *)

(** Answers are durable.  Once a request has been answered, in every later
    directory the same request (with the same parent) is answered identically,
    without consulting host pressure and without changing anything; the same
    identifier used for another parent is refused with an exception. *)
Theorem broker_reserve_replay boot r supplied current now1 now2 hex d d1 ans d2
    boot' r' supplied' current' now1' now2' hex' :
  reserve boot r supplied current now1 now2 hex d = (d1, Ok ans) → rtc step d1 d2 →
  rq_request_id r' = rq_request_id r →
  reserve boot' r' supplied' current' now1' now2' hex' d2 =
    (d2, if eqb (rr_parent ans) (rq_parent r') then Ok ans
         else raise ValueError "request identifier collision").
Proof.
  intros (st & Hst & Hans)%reserve_Ok Hsteps Hid.
  destruct (steps_Since st d1 d2 Hst Hsteps) as (st2 & Hst2 & He).
  apply (ev_requests _ _ He) in Hans.
  unfold reserve, mbind, M_bind, read_state. rewrite Hst2, Hid, Hans. cbn.
  unfold throw_if. by destruct (eqb _ _).
Qed.

(** One execution per lease.  After an attachment has succeeded, the lease
    records that attempt, and in no later directory can any process attach
    another execution to it. *)
Theorem broker_attach_once boot id rsv att un receipt ttl now d d1 d2
    boot' rsv' att' un' receipt' ttl' now' :
  attach_execution boot id rsv att un receipt ttl now d = (d1, Ok tt) → rtc step d1 d2 →
  (∃ st l, state_json d2 = Some st ∧ leases st !! id = Some l ∧ reservation_id l = rsv ∧
     attempt_id l = Some att ∧ unit_name l = Some un ∧ state l ≠ reserved) ∧
  is_ok (attach_execution boot' id rsv' att' un' receipt' ttl' now' d2).2 = false.
Proof.
  intros (st & l & Hst & Hl & Hs & Hr & _ & ->)%attach_execution_Ok Hsteps.
  set (st1 := with_leases (<[id:=attached boot l att un (fadd now ttl)]> (leases st)) st) in *.
  destruct (steps_Since st1 (with_execution id receipt (with_state st1 d)) d2 eq_refl Hsteps)
    as (st2 & Hst2 & He).
  destruct (ev_leases _ _ He id _ (lookup_insert_eq _ _ _)) as (l2 & Hl2 & El).
  assert (state l2 ≠ reserved) as Hs2 by by apply (le_not_reserved _ _ El).
  split.
  - exists st2, l2. destruct (le_attached _ _ El) as [-> ->]; [done|].
    rewrite (le_reservation _ _ El). done.
  - destruct (attach_execution _ _ _ _ _ _ _ _ d2) as [d3 [[]|e]] eqn:E; [exfalso | done].
    apply attach_execution_Ok in E as (? & ? & ? & ? & ? & _). congruence.
Qed.

(** C21: release needs proof.  If reconciling an execution releases a lease,
    then the caller named the exact reservation, attempt and unit of an active
    lease, on the boot that attached it, with either proof that the execution
    never started and an expired claim, or proof that the unit is terminal and
    its control group empty; the lease had no active child; and nothing but
    that lease's state changed.  In every other case the directory is
    unchanged. *)
Theorem broker_release_proof boot id rsv att un ob started terminal empty observed s req d d' r :
  reconcile_execution boot id rsv att un ob started terminal empty observed s req d = (d', r) →
  (d' = d ∧ ∀ s', r ≠ Ok (Released s')) ∨
  ∃ st l s', r = Ok (Released s') ∧ state_json d = Some st ∧ leases st !! id = Some l ∧
    ACTIVE (state l) = true ∧ has_active_children st id = false ∧
    reservation_id l = rsv ∧ attempt_id l = Some att ∧ unit_name l = Some un ∧
    ob = l_boot_id l ∧ ob = boot ∧
    (started = Some false ∧ expired (claim_expires_monotonic l) observed = true ∧ s' = abandoned
     ∨ terminal = Some true ∧ empty = Some true ∧ s' = s) ∧
    d' = with_state (with_leases (<[id := released l s' observed]> (leases st)) st) d.
Proof.
  unfold reconcile_execution, mbind, M_bind, read_state.
  destruct (state_json d) as [st|] eqn:Hst; [|intros [= <- <-]; by left].
  unfold lift. destruct (active_lease st id) as [l|] eqn:Hl; [|intros [= <- <-]; by left].
  unfold throw_if. destruct (negb _) eqn:Hid; cbn; [intros [= <- <-]; by left|].
  destruct (negb _ || negb _) eqn:Hboot; cbn; [intros [= <- <-]; by left|].
  destruct (resolved_state _ _ _ _ _ _ _) as [s'|] eqn:Hres; cbn; [|intros [= <- <-]; by left].
  destruct (has_active_children st id) eqn:Hch; cbn; [intros [= <- <-]; by left|].
  intros [= <- <-]. right. apply active_lease_Ok in Hl as [Hl Ha].
  rewrite negb_false_iff, !andb_true_iff, !eqb_true in Hid.
  rewrite orb_false_iff, !negb_false_iff, !eqb_true in Hboot.
  destruct Hid as [[? ?] ?], Hboot as [? ?].
  exists st, l, s'. repeat (split; [done|]). split; [|done].
  unfold resolved_state in Hres.
  destruct (eqb started _ && _) eqn:E1; [|destruct (eqb terminal _ && _ && _) eqn:E2]; simplify_eq;
    rewrite ?andb_true_iff, ?eqb_true in *; naive_solver.
Qed.

(** The sums an admission computes exist in a valid ledger. *)
Lemma used_budget_total st p ls u :
  Inv st → (∀ l, l ∈ ls → l ∈ values (leases st)) →
  (∀ g, g ∈ budget_fields → 0 ≤ g u) → memory_high_mib u ≤ memory_max_mib u →
  ∃ u', used_budget p ls u = Ok u' ∧ (∀ g, g ∈ budget_fields → 0 ≤ g u') ∧
        memory_high_mib u' ≤ memory_max_mib u'.
Proof.
  intros Hinv. revert u. induction ls as [|l ls IH]; intros u Hls Hu Hhigh; cbn; [eauto|].
  assert (∀ l, l ∈ ls → l ∈ values (leases st)) as Hls' by set_solver.
  destruct (active_child p l); [|by apply IH].
  destruct (proj1 (elem_of_values (leases st) l) (Hls l ltac:(set_solver))) as [k Hk].
  destruct (map_Forall_lookup_1 _ _ _ _ (inv_leases st Hinv) Hk) as [_ Ht Ho Hc Hth _].
  assert (∀ g, g ∈ budget_fields → 0 ≤ g (total l)) as Htot.
  { intros g Hg. rewrite Ht, budget_fields_plus by done. specialize (Ho g Hg). specialize (Hc g Hg). lia. }
  rewrite (proj2 (Budget_post_init_Ok (total l) (total l))) by done. cbn.
  assert (∀ g, g ∈ budget_fields → 0 ≤ g (Budget_plus u (total l))) as Hplus.
  { intros g Hg. rewrite budget_fields_plus by done. specialize (Hu g Hg). specialize (Htot g Hg). lia. }
  unfold Budget_add. rewrite (proj2 (Budget_post_init_Ok _ (Budget_plus u (total l)))).
  - cbn. apply IH; cbn; [done | done | lia].
  - repeat split; [done | cbn; lia].
Qed.

Lemma requested_total c own0 ch :
  CLASSES c = Some own0 → Budget_post_init ch = Ok ch →
  Budget_add own0 ch = Ok (Budget_plus own0 ch).
Proof.
  intros Hown (_ & Hch & Hhigh)%Budget_post_init_Ok. apply Budget_post_init_Ok. repeat split.
  - intros g Hg. rewrite budget_fields_plus by done.
    pose proof (CLASSES_nonneg _ _ Hown g Hg). specialize (Hch g Hg). lia.
  - revert Hown. unfold CLASSES. repeat case_match; intros; simplify_eq; cbn; lia.
Qed.

Lemma Budget_add_total a b :
  Budget_post_init a = Ok a → Budget_post_init b = Ok b → Budget_add a b = Ok (Budget_plus a b).
Proof.
  intros (_ & Ha & ?)%Budget_post_init_Ok (_ & Hb & ?)%Budget_post_init_Ok.
  apply Budget_post_init_Ok. repeat split; [|cbn; lia].
  intros g Hg. rewrite budget_fields_plus by done. specialize (Ha g Hg). specialize (Hb g Hg). lia.
Qed.

(** The limit an admission compares with is the parent's. *)
Lemma parent_limit_total st r :
  Inv st → is_Some (parent_limit st (rq_parent r)) →
  ∃ lim, (if eqb (rq_parent r) "root" then Budget_post_init (root st)
          else p ← active_lease st (rq_parent r); Budget_post_init (children p)) = Ok lim.
Proof.
  intros Hinv Hpar. unfold parent_limit in Hpar. destruct (eqb (rq_parent r) "root").
  - exists (root st). apply (inv_root st Hinv).
  - unfold active_lease. destruct (leases st !! rq_parent r) as [p|] eqn:Hp; [|by destruct Hpar].
    destruct (ACTIVE (state p)); [|by destruct Hpar]. exists (children p). cbn.
    destruct (map_Forall_lookup_1 _ _ _ _ (inv_leases st Hinv) Hp). by apply Budget_post_init_Ok.
Qed.

Lemma _reserve_total boot st r now hex own0 :
  Inv st → CLASSES (rq_worker_class r) = Some own0 →
  ChildBudget_budget (rq_children r) = Ok (rq_children r) →
  rq_worker r ≠ "root" → leases st !! rq_worker r = None →
  is_Some (parent_limit st (rq_parent r)) →
  ∃ o, _reserve boot st r now hex = Ok o.
Proof.
  intros Hinv Hown Hch Hnr Hfresh Hpar. unfold _reserve.
  rewrite Hfresh, (proj2 (eqb_false _ _) Hnr). cbn. rewrite Hown, Hch. cbn.
  pose proof (requested_total _ _ _ Hown Hch) as Hadd. rewrite Hadd. cbn.
  destruct (parent_limit_total st r Hinv Hpar) as [lim ->]. cbn.
  destruct (used_budget_total st (rq_parent r) (values (leases st)) ZERO) as (u & -> & Hu & Huh);
    [done | done | unfold budget_fields; set_unfold; naive_solver lia | done |]. cbn.
  rewrite Budget_add_total; [cbn; case_match; eauto | by apply Budget_post_init_Ok |].
  apply Budget_post_init_Ok in Hadd as (_ & ? & ?). by apply Budget_post_init_Ok.
Qed.

Lemma admission_memory_total st r own0 :
  CLASSES (rq_worker_class r) = Some own0 →
  ChildBudget_budget (rq_children r) = Ok (rq_children r) →
  ∃ mem, admission_memory st r = Ok mem.
Proof.
  intros Hown Hch. unfold admission_memory. rewrite Hown, Hch. cbn.
  rewrite (requested_total _ _ _ Hown Hch). cbn. case_match; eauto.
Qed.

(** Admission always answers.  In a reachable initialised ledger, a
    validated request for a new worker whose parent is the root or an active
    lease, with well-formed child budgets, is answered with a durable
    disposition; no exception escapes. *)
Theorem broker_reserve_answers boot r supplied current now1 now2 hex d st :
  reachable d → state_json d = Some st → LeaseRequest_validate r = Ok r →
  ChildBudget_budget (rq_children r) = Ok (rq_children r) →
  rq_worker r ≠ "root" → leases st !! rq_worker r = None →
  is_Some (parent_limit st (rq_parent r)) → requests st !! rq_request_id r = None →
  ∃ d' ans, reserve boot r supplied current now1 now2 hex d = (d', Ok ans).
Proof.
  intros Hd Hst Hval Hch Hnr Hfresh Hpar Hreq.
  assert (is_Some (CLASSES (rq_worker_class r))) as [own0 Hown].
  { unfold LeaseRequest_validate in Hval. case_match; [done|]. destruct (CLASSES _); [eauto | done]. }
  pose proof (Inv_pressure st supplied current (reachable_Inv d st Hd Hst)) as Hinv.
  assert (leases (_pressure st supplied current).1 = leases st ∧
    root (_pressure st supplied current).1 = root st) as [Hls Hroot]
    by (unfold _pressure; by repeat case_match).
  unfold reserve, mbind, M_bind, read_state, lift. rewrite Hst, Hreq.
  destruct (_pressure st supplied current) as [st1 sample]; cbn in Hls, Hroot, Hinv.
  destruct (admission_memory_total st1 r own0 Hown Hch) as [mem ->].
  destruct (refusal _ _ _ _ _); cbn; [eauto|].
  destruct (_reserve_total boot st1 r now2 hex own0) as [[st2 out] ->];
    rewrite ?Hls; try done; [unfold parent_limit in *; by rewrite Hls, Hroot|].
  cbn. destruct out; cbn; eauto.
Qed.

Lemma if_Some_None {A} (b : bool) (x : A) y :
  (if b then Some x else y) = None ↔ b = false ∧ y = None.
Proof. destruct b; naive_solver. Qed.

Lemma match_false {A} (o : option A) (f : A → bool) :
  match o with Some a => f a | None => false end = false ↔ ∀ a, o = Some a → f a = false.
Proof. destruct o; naive_solver. Qed.

Lemma activity_refusal_None p c reserved_mem candidate o :
  activity_refusal p c reserved_mem candidate o = None ↔
  o = Some 0 ∧
  (∀ w, activity_window_seconds p = Some w →
     isfinite w = true ∧ fleb_Z w 0 = false ∧ fltb SWAP_ACTIVITY_MAX_WINDOW_SECONDS w = false) ∧
  Z.max 2048 (memory_total_mib p / 5) + reserved_mem + candidate ≤ memory_available_mib p ∧
  fgeb_Z (memory_psi_avg10 p) 5 = false ∧
  (c = "light" ∨ fgeb_Z (memory_psi_avg10 p) 2 = false).
Proof.
  destruct o as [a|]; cbn; [|split; [by case_match | naive_solver]].
  rewrite !if_Some_None, !match_false, orb_false_iff, andb_false_iff,
    !negb_false_iff, String.eqb_eq. setoid_rewrite orb_false_iff. setoid_rewrite negb_false_iff.
  rewrite Z.ltb_ge, Z.ltb_ge, Z.eqb_eq. split; [naive_solver|].
  intros ([= ->] & ? & ? & ? & ?). repeat split; try done; naive_solver.
Qed.

(** Admission is fail-closed.  A request is admitted by the host-pressure
    gate exactly when every number is valid, the sample is no older than five
    seconds, its swap window is positive, finite and at most a minute, no swap
    page moved, the available memory covers the floor, what root children hold
    and the candidate, and memory stall is below the class's limit. *)
Theorem refusal_admits p c reserved_mem candidate now :
  refusal p c reserved_mem candidate now = None ↔
  (0 ≤ memory_total_mib p ∧ 0 ≤ memory_available_mib p ∧ 0 ≤ swap_total_mib p ∧
   0 ≤ swap_used_mib p ∧ 0 ≤ reserved_mem ∧ 0 ≤ candidate) ∧
  (isfinite (memory_psi_avg10 p) = true ∧ fltb_Z (memory_psi_avg10 p) 0 = false) ∧
  (∀ s, sampled_monotonic p = Some s →
     isfinite s = true ∧ fltb now s = false ∧
     fltb PRESSURE_MAX_AGE_SECONDS (fsub now s) = false) ∧
  effective_activity p = Some 0 ∧
  (∀ w, activity_window_seconds p = Some w →
     isfinite w = true ∧ fleb_Z w 0 = false ∧
     fltb SWAP_ACTIVITY_MAX_WINDOW_SECONDS w = false) ∧
  Z.max 2048 (memory_total_mib p / 5) + reserved_mem + candidate ≤ memory_available_mib p ∧
  fgeb_Z (memory_psi_avg10 p) 5 = false ∧
  (c = "light" ∨ fgeb_Z (memory_psi_avg10 p) 2 = false).
Proof.
  unfold refusal. cbn [existsb].
  rewrite !if_Some_None, !match_false, activity_refusal_None, !orb_false_iff, negb_false_iff, !Z.ltb_ge.
  setoid_rewrite orb_false_iff. setoid_rewrite negb_false_iff.
  assert (∀ P Q R : float → Prop, (∀ s, sampled_monotonic p = Some s → P s ∧ Q s) ∧
    (∀ s, sampled_monotonic p = Some s → R s) ↔
    (∀ s, sampled_monotonic p = Some s → P s ∧ Q s ∧ R s)) as Hq by firstorder.
  rewrite <- Hq. tauto.
Qed.

(** An attachment that fails can still have changed the ledger.  The claim
    is written before the receipt file is created exclusively, so when the
    receipt of the lease already exists, [attach_execution] raises
    [FileExistsError] and yet leaves the lease claimed. *)
Theorem broker_attach_partial boot id rsv att un receipt ttl now d st l :
  state_json d = Some st → leases st !! id = Some l → state l = reserved →
  reservation_id l = rsv → is_Some (executions d !! id) → ID_fullmatch id = true →
  ID_fullmatch att = true → ID_fullmatch un = true → isfinite ttl = true → fleb_Z ttl 0 = false →
  receipt_agrees receipt "attempt_id" att = true → receipt_agrees receipt "unit" un = true →
  ∃ d' st' l', attach_execution boot id rsv att un receipt ttl now d
                 = (d', raise FileExistsError "status.json") ∧
    state_json d' = Some st' ∧ leases st' !! id = Some l' ∧ state l' = execution_active.
Proof.
  intros Hst Hl Hs Hr [old Hx] Hid Hatt Hun Hfin Hpos Hra Hru.
  unfold attach_execution, mbind, M_bind, throw_if, read_state, lift, active_lease, get_st.
  rewrite Hatt, Hun, Hfin, Hpos, Hra, Hru, Hid, Hst, Hl, Hs. cbn.
  rewrite ?Hs, (proj2 (eqb_true _ _) Hr). cbn. rewrite Hx. cbn.
  eexists _, _, _. split; [reflexivity|]. split; [reflexivity|]. cbn.
  split; [apply lookup_insert_eq | reflexivity].
Qed.

(** ** Concrete runs *)

Definition ex_root : Budget := mkBudget 8000 9000 1000 800 900 4 1.
Definition ex_pressure : Pressure :=
  mkPressure 16000 15000 0 0 (f_of_Z 0) None None None None None.
Definition ex_request (rid par w c : string) (ch : Budget) : LeaseRequest :=
  mkRequest rid par w c ch.

(** A root worker that may delegate, and its child. *)
Definition ex_r1 := ex_request "r1" "root" "w1" "implementation" (mkBudget 700 1024 128 100 96 1 0).
Definition ex_r2 := ex_request "r2" "w1" "w2" "light" ZERO.

Definition ex_reserve (r : LeaseRequest) : M Disk ReserveResult :=
  reserve "boot" r (Some ex_pressure) None (f_of_Z 1) (f_of_Z 2) "cafe".

Definition ex_d0 : Disk := (initialize ex_root empty_disk).1.
Definition ex_d1 : Disk := (ex_reserve ex_r1 ex_d0).1.
Definition ex_d2 : Disk := (ex_reserve ex_r2 ex_d1).1.
Definition ex_attach (id : string) : M Disk () :=
  attach_execution "boot" id "cafe" "a1" "u1.service" ∅ (f_of_Z 60) (f_of_Z 3).
Definition ex_d3 : Disk := (ex_attach "w2" ex_d2).1.

Lemma max_field : memory_max_mib ∈ budget_fields.
Proof. unfold budget_fields. set_solver. Qed.

Definition ex_ledger (d : Disk) : BrokerState := default (mkState 0 ZERO ∅ ∅ None) (state_json d).
Definition ex_lease (d : Disk) (id : string) : option Lease := leases (ex_ledger d) !! id.

Lemma ex_reachable1 : reachable ex_d1.
Proof.
  apply (rtc_l _ _ ex_d0); [exact (step_initialize empty_disk ex_root eq_refl)|].
  apply rtc_once. exact (step_reserve ex_d0 "boot" ex_r1 _ _ _ _ "cafe").
Qed.

Lemma ex_steps13 : rtc step ex_d1 ex_d3.
Proof.
  apply (rtc_l _ _ ex_d2); [exact (step_reserve ex_d1 "boot" ex_r2 _ _ _ _ "cafe")|].
  apply rtc_once. exact (step_attach ex_d2 "boot" "w2" "cafe" "a1" "u1.service" ∅ _ _).
Qed.

Lemma ex_reachable3 : reachable ex_d3.
Proof. exact (transitivity (R:=rtc step) ex_reachable1 ex_steps13). Qed.

Lemma broker_tree_budget_witness :
  tree_own memory_max_mib (ex_ledger ex_d3) = 1792 + 1024 ∧
  tree_own memory_max_mib (ex_ledger ex_d3) ≤ memory_max_mib (root (ex_ledger ex_d3)).
Proof.
  split; [vm_compute; reflexivity|].
  refine (broker_tree_budget ex_d3 (ex_ledger ex_d3) _ ex_reachable3 _ max_field).
  vm_compute. reflexivity.
Defined.

Lemma broker_delegation_witness :
  ∃ l, ex_lease ex_d3 "w1" = Some l ∧ ACTIVE (state l) = true ∧
    held memory_max_mib "w1" (values (leases (ex_ledger ex_d3))) ≤ memory_max_mib (children l).
Proof.
  destruct (ex_lease ex_d3 "w1") as [l|] eqn:E; [|exfalso; revert E; vm_compute; discriminate].
  exists l. split; [reflexivity|].
  refine (broker_delegation ex_d3 (ex_ledger ex_d3) "w1" l _ ex_reachable3 _ E max_field _).
  - vm_compute. reflexivity.
  - vm_compute. reflexivity.
Defined.

Definition ex_ans1 : ReserveResult := mkResult "r1" "root" (Reserved "w1" "cafe").

Lemma broker_reserve_replay_witness : ex_reserve ex_r1 ex_d3 = (ex_d3, Ok ex_ans1).
Proof.
  refine (broker_reserve_replay "boot" ex_r1 (Some ex_pressure) None (f_of_Z 1) (f_of_Z 2) "cafe"
    ex_d0 ex_d1 ex_ans1 ex_d3 "boot" ex_r1 (Some ex_pressure) None (f_of_Z 1) (f_of_Z 2) "cafe"
    _ ex_steps13 eq_refl).
  vm_compute. reflexivity.
Defined.

Lemma broker_attach_once_witness : is_ok (ex_attach "w2" ex_d3).2 = false.
Proof.
  refine (proj2 (broker_attach_once "boot" "w2" "cafe" "a1" "u1.service" ∅ (f_of_Z 60) (f_of_Z 3)
    ex_d2 ex_d3 ex_d3 "boot" "cafe" "a1" "u1.service" ∅ (f_of_Z 60) (f_of_Z 3) _ (rtc_refl _ _))).
  vm_compute. reflexivity.
Defined.

Definition ex_reconcile : M Disk Reconciled :=
  reconcile_execution "boot" "w2" "cafe" "a1" "u1.service" "boot"
    None (Some true) (Some true) (f_of_Z 4) completed false.

Lemma broker_release_proof_witness :
  (ex_reconcile ex_d3).2 = Ok (Released completed) ∧
  ∃ l, ex_lease ex_d3 "w2" = Some l ∧ attempt_id l = Some "a1".
Proof.
  assert (H2 : (ex_reconcile ex_d3).2 = Ok (Released completed)) by (vm_compute; reflexivity).
  split; [exact H2|].
  destruct (broker_release_proof "boot" "w2" "cafe" "a1" "u1.service" "boot" None (Some true)
    (Some true) (f_of_Z 4) completed false ex_d3 _ _ (surjective_pairing _))
    as [[_ H]|(st & l & s' & _ & Hst & Hl & _ & _ & _ & Ha & _)].
  - exfalso. exact (H completed H2).
  - exists l. split; [|exact Ha]. unfold ex_lease, ex_ledger. rewrite Hst. exact Hl.
Defined.

Lemma broker_reserve_answers_witness : ∃ d' ans, ex_reserve ex_r2 ex_d1 = (d', Ok ans).
Proof.
  refine (broker_reserve_answers "boot" ex_r2 (Some ex_pressure) None (f_of_Z 1) (f_of_Z 2) "cafe"
    ex_d1 (ex_ledger ex_d1) ex_reachable1 _ _ _ _ _ _ _); try (vm_compute; reflexivity).
  - vm_compute. discriminate.
  - vm_compute. eexists. reflexivity.
Defined.

Lemma broker_attach_partial_witness :
  ∃ d' st' l', ex_attach "w2" (with_execution "w2" ∅ ex_d2)
                 = (d', raise FileExistsError "status.json") ∧
    state_json d' = Some st' ∧ leases st' !! "w2" = Some l' ∧ state l' = execution_active.
Proof.
  destruct (ex_lease ex_d2 "w2") as [l|] eqn:E; [|exfalso; revert E; vm_compute; discriminate].
  assert (Hs : state l = reserved ∧ reservation_id l = "cafe").
  { revert E. vm_compute. intros [= <-]. split; reflexivity. }
  refine (broker_attach_partial "boot" "w2" "cafe" "a1" "u1.service" ∅ (f_of_Z 60) (f_of_Z 3)
    (with_execution "w2" ∅ ex_d2) (ex_ledger ex_d2) l _ E (proj1 Hs) (proj2 Hs) _ _ _ _ _ _ _ _);
    try (vm_compute; reflexivity).
  vm_compute. eexists. reflexivity.
Defined.
