(* ===== verification/Lifecycle.v ===== *)
(** * Required-result persistence ([lifecycle.py])

    The table [lifecycle_obligations] with its CHECK constraints, the pydantic
    model that reads it, the repository with optimistic compare-and-replace,
    and the service [RequiredResultPersistence] with its transition table.  A
    service call reads the row in one database transaction and writes it in
    another, so concurrent callers interleave: [sys_step] keeps the rows that
    were read and not yet used. *)

From S2P Require Import Prelude Json.

Local Open Scope Z_scope.

Definition PROFILE_TYPE : string := "REQUIRED_RESULT_PERSISTENCE".
Definition PROFILE_VERSION : Z := 1.

Inductive ProfileState := PENDING_RESULT | PERSIST_REQUIRED | UNKNOWN | TERMINAL.

#[export] Instance ProfileState_eq_dec : EqDecision ProfileState.
Proof. solve_decision. Defined.

Inductive ContinuationKind :=
  | CONTINUE_CURRENT_WORK | PERSIST_RESULT | RECONCILE_UNKNOWN | K_TERMINAL.

#[export] Instance ContinuationKind_eq_dec : EqDecision ContinuationKind.
Proof. solve_decision. Defined.

Inductive LifecycleEvent :=
  | RESULT_READY | PERSIST_READBACK_MATCHED | PERSIST_OUTCOME_AMBIGUOUS
  | RECONCILIATION_NO_MATCH_SAFE_TO_RETRY | CURRENTNESS_STALE | CURRENTNESS_UNKNOWN.

#[export] Instance LifecycleEvent_eq_dec : EqDecision LifecycleEvent.
Proof. solve_decision. Defined.

(** [event.value] *)
Definition event_value (e : LifecycleEvent) : string :=
  match e with
  | RESULT_READY => "RESULT_READY"
  | PERSIST_READBACK_MATCHED => "PERSIST_READBACK_MATCHED"
  | PERSIST_OUTCOME_AMBIGUOUS => "PERSIST_OUTCOME_AMBIGUOUS"
  | RECONCILIATION_NO_MATCH_SAFE_TO_RETRY => "RECONCILIATION_NO_MATCH_SAFE_TO_RETRY"
  | CURRENTNESS_STALE => "CURRENTNESS_STALE"
  | CURRENTNESS_UNKNOWN => "CURRENTNESS_UNKNOWN"
  end.

Definition unknown_reasons : list string :=
  ["PERSIST_OUTCOME_AMBIGUOUS"; "CURRENTNESS_STALE"; "CURRENTNESS_UNKNOWN"].

Record LifecycleObligation := mkObligation {
  obligation_id : uuid; profile_type : string; profile_version : Z;
  work_id_ref : uuid; currentness_token : string; state : ProfileState; row_version : Z;
  destination_ref : option string; result_correlation : option string;
  authoritative_readback_evidence : option string;
  unknown_reason : option string; unknown_evidence : option string }.

#[export] Instance LifecycleObligation_eq_dec : EqDecision LifecycleObligation.
Proof. solve_decision. Defined.

(** [x is None or lo <= len(x) <= hi] *)
Definition opt_len_between (lo : Z) (hi : option Z) (o : option string) : bool :=
  match o with
  | None => true
  | Some s => (lo <=? py_len s) && match hi with None => true | Some h => py_len s <=? h end
  end.

(** The field constraints of the pydantic model. *)
Definition field_constraints (o : LifecycleObligation) : bool :=
  eqb (profile_type o) PROFILE_TYPE && (profile_version o =? PROFILE_VERSION)
  && (1 <=? py_len (currentness_token o)) && (1 <=? row_version o)
  && opt_len_between 1 None (destination_ref o)
  && opt_len_between 1 None (result_correlation o)
  && opt_len_between 1 (Some 8000) (authoritative_readback_evidence o)
  && match unknown_reason o with None => true | Some r => mem r unknown_reasons end
  && opt_len_between 1 (Some 8000) (unknown_evidence o).

(** [valid_state_fields] *)
Definition valid_state_fields (o : LifecycleObligation) : res LifecycleObligation :=
  let paired := Bool.eqb (is_none (destination_ref o)) (is_none (result_correlation o)) in
  let has_pair := is_some (destination_ref o) in
  let has_readback := is_some (authoritative_readback_evidence o) in
  let has_unknown := is_some (unknown_reason o) && is_some (unknown_evidence o) in
  let partial_unknown :=
    xorb (is_none (unknown_reason o)) (is_none (unknown_evidence o)) in
  let valid :=
    match state o with
    | PENDING_RESULT => negb has_pair && negb has_readback && negb has_unknown
    | PERSIST_REQUIRED => has_pair && negb has_readback && negb has_unknown
    | UNKNOWN => negb has_readback && has_unknown
    | TERMINAL => has_pair && has_readback && negb has_unknown
    end in
  if negb paired then raise ValueError "destination_ref and result_correlation must be paired"
  else if partial_unknown then raise ValueError "UNKNOWN reason and evidence must be paired"
  else if negb valid then raise ValueError "fields do not match lifecycle state"
  else Ok o.

(** [LifecycleObligation.model_validate] on a row of the right types. *)
Definition model_validate (o : LifecycleObligation) : res LifecycleObligation :=
  if field_constraints o then valid_state_fields o
  else raise ValueError "validation error".

(** The CHECK constraints of the table, each with its name. *)
Definition ck_state_fields (o : LifecycleObligation) : bool :=
  match state o with
  | PENDING_RESULT =>
      is_none (destination_ref o) && is_none (authoritative_readback_evidence o)
      && is_none (unknown_reason o) && is_none (unknown_evidence o)
  | PERSIST_REQUIRED =>
      is_some (destination_ref o) && is_none (authoritative_readback_evidence o)
      && is_none (unknown_reason o) && is_none (unknown_evidence o)
  | UNKNOWN =>
      is_none (authoritative_readback_evidence o)
      && is_some (unknown_reason o) && is_some (unknown_evidence o)
  | TERMINAL =>
      is_some (destination_ref o) && is_some (authoritative_readback_evidence o)
      && is_none (unknown_reason o) && is_none (unknown_evidence o)
  end.

Definition check_constraints (o : LifecycleObligation) : list (string * bool) :=
  [("ck_lifecycle_profile_type", eqb (profile_type o) PROFILE_TYPE);
   ("ck_lifecycle_profile_version", profile_version o =? PROFILE_VERSION);
   ("ck_lifecycle_currentness", 0 <? py_len (currentness_token o));
   ("ck_lifecycle_row_version", 1 <=? row_version o);
   ("ck_lifecycle_destination_pair",
     Bool.eqb (is_none (destination_ref o)) (is_none (result_correlation o)));
   ("ck_lifecycle_destination_ref",
     match destination_ref o with None => true | Some s => 0 <? py_len s end);
   ("ck_lifecycle_result_correlation",
     match result_correlation o with None => true | Some s => 0 <? py_len s end);
   ("ck_lifecycle_readback_evidence",
     opt_len_between 1 (Some 8000) (authoritative_readback_evidence o));
   ("ck_lifecycle_unknown_reason",
     match unknown_reason o with None => true | Some r => mem r unknown_reasons end);
   ("ck_lifecycle_unknown_evidence", opt_len_between 1 (Some 8000) (unknown_evidence o));
   ("ck_lifecycle_state_fields", ck_state_fields o)].

(** What the database accepts for a row: every constraint, and the range of
    the [Integer] column. *)
Definition row_accepted (o : LifecycleObligation) : bool :=
  forallb snd (check_constraints o).
#[global] Arguments row_accepted : simpl never.

Definition int4_max : Z := 2147483647.

(** ** The repository *)

Record DB := mkDB { work_handles : gset uuid; obligations : gmap uuid LifecycleObligation }.

Definition with_obligation (o : LifecycleObligation) (d : DB) : DB :=
  mkDB (work_handles d) (<[obligation_id o := o]> (obligations d)).

(** Writing a row: an out-of-range integer or a violated constraint fails the
    statement. *)
Definition write_row (o : LifecycleObligation) : M DB unit :=
  throw_if (int4_max <? row_version o) SQLAlchemyError "integer out of range";;
  throw_if (negb (row_accepted o)) IntegrityError "check constraint";;
  d ← get_st;
  put_st (with_obligation o d).

Definition new_obligation (id work : uuid) (token : string) : LifecycleObligation :=
  mkObligation id PROFILE_TYPE PROFILE_VERSION work token PENDING_RESULT 1
    None None None None None.

(** [LifecycleRepository.create] *)
Definition create (id work : uuid) (token : string) : M DB LifecycleObligation :=
  obligation ← lift (model_validate (new_obligation id work token));
  transaction (
    d ← get_st;
    throw_if (is_some (obligations d !! id)) IntegrityError "primary key";;
    throw_if (negb (bool_decide (work ∈ work_handles d))) IntegrityError "foreign key";;
    write_row obligation);;
  lift (model_validate obligation).

(** [LifecycleRepository.get] *)
Definition get (id : uuid) : M DB (option LifecycleObligation) :=
  d ← get_st;
  match obligations d !! id with
  | None => mret None
  | Some row => o ← lift (model_validate row); mret (Some o)
  end.

(** The row the [UPDATE] of [replace] writes over [row]. *)
Definition set_mutable (row repl : LifecycleObligation) : LifecycleObligation :=
  mkObligation (obligation_id row) (profile_type row) (profile_version row)
    (work_id_ref row) (currentness_token row) (state repl) (row_version repl)
    (destination_ref repl) (result_correlation repl)
    (authoritative_readback_evidence repl) (unknown_reason repl) (unknown_evidence repl).

(** The [WHERE] clause of [replace]. *)
Definition same_binding (row repl : LifecycleObligation) (expected : Z) : bool :=
  eqb (obligation_id row) (obligation_id repl) && (row_version row =? expected)
  && eqb (profile_type row) (profile_type repl) && (profile_version row =? profile_version repl)
  && eqb (work_id_ref row) (work_id_ref repl)
  && eqb (currentness_token row) (currentness_token repl).

(** [LifecycleRepository.replace] *)
Definition replace (repl : LifecycleObligation) (expected : Z) : M DB LifecycleObligation :=
  throw_if (expected <? 1) ValueError "expected_row_version must be positive";;
  throw_if (negb (row_version repl =? expected + 1)) ValueError
    "replacement row_version must advance exactly once";;
  row ← transaction (
    d ← get_st;
    match obligations d !! obligation_id repl with
    | Some row =>
        if same_binding row repl expected
        then write_row (set_mutable row repl);; mret (Some (set_mutable row repl))
        else mret None
    | None => mret None
    end);
  match row with
  | None => throw ValueError "stale lifecycle obligation or changed immutable binding"
  | Some row => lift (model_validate row)
  end.

Definition with_token (row : LifecycleObligation) (token : string) (v : Z) : LifecycleObligation :=
  mkObligation (obligation_id row) (profile_type row) (profile_version row)
    (work_id_ref row) token (state row) v
    (destination_ref row) (result_correlation row)
    (authoritative_readback_evidence row) (unknown_reason row) (unknown_evidence row).

(** [LifecycleRepository.adopt_currentness] *)
Definition adopt_currentness (o : LifecycleObligation) (token : string)
  : M DB LifecycleObligation :=
  throw_if (negb (mem (state o) [PENDING_RESULT; PERSIST_REQUIRED])) ValueError
    "only an unattempted obligation can adopt currentness";;
  row ← transaction (
    d ← get_st;
    match obligations d !! obligation_id o with
    | Some row =>
        if (row_version row =? row_version o)
           && eqb (currentness_token row) (currentness_token o) && eqb (state row) (state o)
        then let row' := with_token row token (row_version o + 1) in
             write_row row';; mret (Some row')
        else mret None
    | None => mret None
    end);
  match row with
  | None => throw ValueError "stale lifecycle obligation during currentness adoption"
  | Some row => lift (model_validate row)
  end.

(** ** The service *)

(** Evidence is a JSON object. *)
Definition evidence := list (string * json).

(** [_encoded_evidence] *)
Definition encoded_evidence (ev : option evidence) : res string :=
  match ev with
  | None => raise ValueError "event requires bounded evidence"
  | Some kvs =>
      let encoded := dumps_compact_raw (JObj kvs) in
      if negb (truthy encoded) || (8000 <? py_len encoded)
      then raise ValueError "event evidence must be between 1 and 8000 characters"
      else Ok encoded
  end.

Record Continuation := mkContinuation {
  kind : ContinuationKind; c_destination_ref : option string;
  c_result_correlation : option string }.

(** [Continuation(...)] runs [exact_persist_fields]. *)
Definition Continuation_validate (c : Continuation) : res Continuation :=
  let has_result := is_some (c_destination_ref c) && is_some (c_result_correlation c) in
  let partial_result :=
    xorb (is_none (c_destination_ref c)) (is_none (c_result_correlation c)) in
  if negb (opt_len_between 1 None (c_destination_ref c)
           && opt_len_between 1 None (c_result_correlation c))
  then raise ValueError "validation error"
  else if partial_result || xorb (eqb (kind c) PERSIST_RESULT) has_result
  then raise ValueError "only PERSIST_RESULT has an exact destination and correlation"
  else Ok c.

(** [_required] *)
Definition required (id : uuid) : M DB LifecycleObligation :=
  o ← get id;
  match o with
  | None => throw ValueError "lifecycle obligation missing"
  | Some o => mret o
  end.

(** [continuation] *)
Definition continuation (id : uuid) (token : string) : M DB Continuation :=
  o ← required id;
  lift (Continuation_validate
    (if negb (eqb token (currentness_token o)) then mkContinuation RECONCILE_UNKNOWN None None
     else match state o with
     | PENDING_RESULT => mkContinuation CONTINUE_CURRENT_WORK None None
     | PERSIST_REQUIRED => mkContinuation PERSIST_RESULT (destination_ref o) (result_correlation o)
     | UNKNOWN => mkContinuation RECONCILE_UNKNOWN None None
     | TERMINAL => mkContinuation K_TERMINAL None None
     end)).

(** [current.model_copy(update=changes | {"row_version": ...})]: no validation. *)
Definition to_persist_required (o : LifecycleObligation) (dest corr : string) :=
  mkObligation (obligation_id o) (profile_type o) (profile_version o) (work_id_ref o)
    (currentness_token o) PERSIST_REQUIRED (row_version o + 1) (Some dest) (Some corr)
    (authoritative_readback_evidence o) (unknown_reason o) (unknown_evidence o).
Definition to_unknown (o : LifecycleObligation) (reason ev : string) :=
  mkObligation (obligation_id o) (profile_type o) (profile_version o) (work_id_ref o)
    (currentness_token o) UNKNOWN (row_version o + 1) (destination_ref o)
    (result_correlation o) (authoritative_readback_evidence o) (Some reason) (Some ev).
Definition to_retry (o : LifecycleObligation) :=
  mkObligation (obligation_id o) (profile_type o) (profile_version o) (work_id_ref o)
    (currentness_token o) PERSIST_REQUIRED (row_version o + 1) (destination_ref o)
    (result_correlation o) (authoritative_readback_evidence o) None None.
Definition to_terminal (o : LifecycleObligation) (readback : string) :=
  mkObligation (obligation_id o) (profile_type o) (profile_version o) (work_id_ref o)
    (currentness_token o) TERMINAL (row_version o + 1) (destination_ref o)
    (result_correlation o) (Some readback) None None.

(** [evidence.get(key) != expected] *)
Definition evidence_differs (kvs : evidence) (key : string) (expected : option string) : bool :=
  negb (eqb (default JNull (assoc key kvs)) (jopt expected)).

(** The body of [transition] between the read and the replacement. *)
Definition next_obligation (current : LifecycleObligation) (token : string)
    (event : LifecycleEvent) (dest corr : option string) (ev : option evidence)
  : res LifecycleObligation :=
  if negb (eqb token (currentness_token current))
  then raise ValueError "currentness token is stale or unknown"
  else if eqb (state current) TERMINAL
  then raise ValueError "terminal lifecycle obligation cannot transition"
  else match event with
  | RESULT_READY =>
      if negb (eqb (state current) PENDING_RESULT)
      then raise ValueError "RESULT_READY requires PENDING_RESULT"
      else match dest, corr with
           | Some dest, Some corr => Ok (to_persist_required current dest corr)
           | _, _ => raise ValueError "RESULT_READY requires destination and result correlation"
           end
  | PERSIST_OUTCOME_AMBIGUOUS =>
      if negb (eqb (state current) PERSIST_REQUIRED)
      then raise ValueError "ambiguous persistence requires PERSIST_REQUIRED"
      else e ← encoded_evidence ev; Ok (to_unknown current (event_value event) e)
  | CURRENTNESS_STALE | CURRENTNESS_UNKNOWN =>
      e ← encoded_evidence ev; Ok (to_unknown current (event_value event) e)
  | RECONCILIATION_NO_MATCH_SAFE_TO_RETRY =>
      if negb (eqb (state current) UNKNOWN) || is_none (destination_ref current)
         || negb (eqb (unknown_reason current) (Some (event_value PERSIST_OUTCOME_AMBIGUOUS)))
      then raise ValueError "safe retry requires reconciled persistence ambiguity"
      else Ok (to_retry current)
  | PERSIST_READBACK_MATCHED =>
      if eqb (state current) UNKNOWN
         && negb (eqb (unknown_reason current) (Some (event_value PERSIST_OUTCOME_AMBIGUOUS)))
      then raise ValueError "persistence readback cannot clear a currentness failure"
      else if negb (mem (state current) [PERSIST_REQUIRED; UNKNOWN])
      then raise ValueError "persistence readback requires a result obligation"
      else match ev with
           | None => raise ValueError
               "authoritative readback destination or correlation does not match"
           | Some kvs =>
               if evidence_differs kvs "destination_ref" (destination_ref current)
                  || evidence_differs kvs "result_correlation" (result_correlation current)
               then raise ValueError
                 "authoritative readback destination or correlation does not match"
               else e ← encoded_evidence ev; Ok (to_terminal current e)
           end
  end.

(** The second half of [transition], on the row read by the first. *)
Definition commit_transition (current : LifecycleObligation) (token : string)
    (event : LifecycleEvent) (dest corr : option string) (ev : option evidence)
  : M DB LifecycleObligation :=
  repl ← lift (next_obligation current token event dest corr ev);
  replace repl (row_version current).

(** [transition] *)
Definition transition (id : uuid) (token : string) (event : LifecycleEvent)
    (dest corr : option string) (ev : option evidence) : M DB LifecycleObligation :=
  current ← required id;
  commit_transition current token event dest corr ev.

(** ** Concurrent callers *)

(** The database, and the rows some caller has read or been returned. *)
Record Sys := mkSys { db : DB; read_rows : list LifecycleObligation }.

Definition learn (r : res LifecycleObligation) (rows : list LifecycleObligation) :=
  match r with Ok o => o :: rows | Err _ => rows end.

(** A caller performs [m] and keeps the row it returns. *)
Definition call (m : M DB LifecycleObligation) (s : Sys) : Sys :=
  mkSys (m (db s)).1 (learn (m (db s)).2 (read_rows s)).

Inductive sys_step (s : Sys) : Sys → Prop :=
  | sys_handle w :
      sys_step s (mkSys (mkDB ({[w]} ∪ work_handles (db s)) (obligations (db s))) (read_rows s))
  | sys_create id work token : sys_step s (call (create id work token) s)
  | sys_read id : sys_step s (call (required id) s)
  | sys_commit cur token event dest corr ev :
      cur ∈ read_rows s → sys_step s (call (commit_transition cur token event dest corr ev) s)
  | sys_adopt cur token :
      cur ∈ read_rows s → sys_step s (call (adopt_currentness cur token) s).

Definition empty_sys : Sys := mkSys (mkDB ∅ ∅) [].
Definition sys_reachable : Sys → Prop := rtc sys_step empty_sys.

(** ** The abstract state machine of one obligation *)

Definition currentness_reason (r : string) : Prop :=
  r = "CURRENTNESS_STALE" ∨ r = "CURRENTNESS_UNKNOWN".

(** Readback evidence that names the obligation's destination and result. *)
Definition matching_readback (o : LifecycleObligation) (e : string) : Prop :=
  ∃ kvs, e = dumps_compact_raw (JObj kvs) ∧
    default JNull (assoc "destination_ref" kvs) = jopt (destination_ref o) ∧
    default JNull (assoc "result_correlation" kvs) = jopt (result_correlation o).

Inductive row_step (o : LifecycleObligation) : LifecycleObligation → Prop :=
  | rs_ready dest corr :
      state o = PENDING_RESULT → row_step o (to_persist_required o dest corr)
  | rs_ambiguous e :
      state o = PERSIST_REQUIRED → row_step o (to_unknown o "PERSIST_OUTCOME_AMBIGUOUS" e)
  | rs_currentness r e :
      state o ≠ TERMINAL → currentness_reason r → row_step o (to_unknown o r e)
  | rs_retry :
      state o = UNKNOWN → unknown_reason o = Some "PERSIST_OUTCOME_AMBIGUOUS" →
      row_step o (to_retry o)
  | rs_terminal e :
      state o = PERSIST_REQUIRED ∨
        state o = UNKNOWN ∧ unknown_reason o = Some "PERSIST_OUTCOME_AMBIGUOUS" →
      matching_readback o e → row_step o (to_terminal o e)
  | rs_adopt token :
      state o = PENDING_RESULT ∨ state o = PERSIST_REQUIRED →
      row_step o (with_token o token (row_version o + 1)).

(** ** The database and the model agree *)

Lemma opt_len_pos o :
  match o with None => true | Some s => 0 <? py_len s end = opt_len_between 1 None o.
Proof. destruct o; cbn; [|done]. rewrite andb_true_r. apply eq_true_iff_eq. rewrite Z.ltb_lt, Z.leb_le. lia. Qed.

#[local] Arguments model_validate : simpl never.
#[local] Arguments encoded_evidence : simpl never.

Lemma valid_state_fields_ok o :
  valid_state_fields o = Ok o ↔
  Bool.eqb (is_none (destination_ref o)) (is_none (result_correlation o)) = true ∧
  ck_state_fields o = true.
Proof.
  unfold valid_state_fields, ck_state_fields. destruct (state o);
    destruct (destination_ref o), (result_correlation o), (authoritative_readback_evidence o),
      (unknown_reason o), (unknown_evidence o); cbn; naive_solver.
Qed.

Lemma row_accepted_ok o : row_accepted o = true ↔ model_validate o = Ok o.
Proof.
  unfold row_accepted, model_validate. cbn [forallb check_constraints snd].
  rewrite !opt_len_pos, andb_true_r.
  assert ((0 <? py_len (currentness_token o)) = (1 <=? py_len (currentness_token o))) as ->.
  { apply eq_true_iff_eq. rewrite Z.ltb_lt, Z.leb_le. lia. }
  destruct (field_constraints o) eqn:Hf; unfold field_constraints in Hf.
  - rewrite valid_state_fields_ok. rewrite !andb_true_iff in *. tauto.
  - split; [|done]. rewrite !andb_true_iff. intros H. apply not_true_iff_false in Hf.
    destruct Hf. rewrite !andb_true_iff. tauto.
Qed.

(** *** Runs of the repository *)

(** The outcomes of a write, up to the exception. *)
Lemma write_row_cases o d :
  (∃ e, write_row o d = (d, Err e)) ∨
  (model_validate o = Ok o ∧ row_version o ≤ int4_max ∧
   write_row o d = (with_obligation o d, Ok tt)).
Proof.
  unfold write_row, mbind, M_bind, throw_if. destruct (int4_max <? row_version o) eqn:Hv; cbn; [eauto|].
  destruct (row_accepted o) eqn:Ha; cbn; [right | eauto].
  rewrite <- row_accepted_ok. split; [done|]. split; [lia | reflexivity].
Qed.

(** A read-compare-write transaction of the repository. *)
Definition update_row (id : uuid) (p : LifecycleObligation → bool)
    (f : LifecycleObligation → LifecycleObligation) : M DB (option LifecycleObligation) :=
  transaction (
    d ← get_st;
    match obligations d !! id with
    | Some row => if p row then write_row (f row);; mret (Some (f row)) else mret None
    | None => mret None
    end).

Lemma update_row_cases id p f msg d :
  let m := row ← update_row id p f;
           match row with
           | None => throw ValueError msg
           | Some row => lift (model_validate row)
           end in
  (∃ e, m d = (d, Err e)) ∨
  (∃ row, obligations d !! id = Some row ∧ p row = true ∧
     model_validate (f row) = Ok (f row) ∧ m d = (with_obligation (f row) d, Ok (f row))).
Proof.
  intros m. unfold m, update_row, mbind, M_bind, transaction, get_st.
  destruct (obligations d !! id) as [row|]; [|left; cbn; eauto].
  destruct (p row) eqn:Hp; [|left; cbn; eauto].
  destruct (write_row_cases (f row) d) as [[e ->]|(Hv & _ & ->)]; [left; cbn; eauto|].
  right. exists row. cbn. unfold lift. by rewrite Hv.
Qed.

Lemma replace_cases repl n d :
  (∃ e, replace repl n d = (d, Err e)) ∨
  (∃ row, obligations d !! obligation_id repl = Some row ∧ same_binding row repl n = true ∧
     row_version repl = n + 1 ∧ model_validate (set_mutable row repl) = Ok (set_mutable row repl) ∧
     replace repl n d = (with_obligation (set_mutable row repl) d, Ok (set_mutable row repl))).
Proof.
  unfold replace. unfold mbind at 1 2, M_bind at 1 2, throw_if.
  destruct (n <? 1); cbn -[mbind]; [eauto|].
  destruct (row_version repl =? n + 1) eqn:Hn; cbn -[mbind]; [|eauto].
  destruct (update_row_cases (obligation_id repl) (λ row, same_binding row repl n)
    (λ row, set_mutable row repl) "stale lifecycle obligation or changed immutable binding" d)
    as [[e He]|(row & Hr & Hp & Hv & He)]; [by left; eauto|].
  right. exists row. repeat split; [done | done | lia | done | exact He].
Qed.

Lemma adopt_cases o token d :
  (∃ e, adopt_currentness o token d = (d, Err e)) ∨
  (∃ row, (state o = PENDING_RESULT ∨ state o = PERSIST_REQUIRED) ∧
     obligations d !! obligation_id o = Some row ∧ row_version row = row_version o ∧
     state row = state o ∧
     let row' := with_token row token (row_version o + 1) in
     model_validate row' = Ok row' ∧ adopt_currentness o token d = (with_obligation row' d, Ok row')).
Proof.
  unfold adopt_currentness. unfold mbind at 1, M_bind at 1, throw_if.
  destruct (mem _ _) eqn:Hm; cbn -[mbind]; [|eauto].
  destruct (update_row_cases (obligation_id o)
    (λ row, (row_version row =? row_version o)
       && eqb (currentness_token row) (currentness_token o) && eqb (state row) (state o))
    (λ row, with_token row token (row_version o + 1))
    "stale lifecycle obligation during currentness adoption" d)
    as [[e He]|(row & Hr & Hp & Hv & He)]; [by left; eauto|].
  right. exists row. to_prop. destruct Hp as [[? ?] ?].
  repeat split; [set_solver | done | done | done | done | exact He].
Qed.

Lemma create_cases id work token d :
  (∃ e, create id work token d = (d, Err e)) ∨
  (let o := new_obligation id work token in
   obligations d !! id = None ∧ model_validate o = Ok o ∧
   create id work token d = (with_obligation o d, Ok o)).
Proof.
  unfold create, mbind, M_bind, lift, transaction, get_st, throw_if.
  destruct (model_validate (new_obligation id work token)) as [o|] eqn:Hv; cbn; [|eauto].
  assert (o = new_obligation id work token) as ->.
  { revert Hv. unfold model_validate. destruct (field_constraints _); [by intros [= <-] | done]. }
  destruct (obligations d !! id) eqn:Hid; cbn; [eauto|].
  destruct (negb _); cbn; [eauto|].
  destruct (write_row_cases (new_obligation id work token) d) as [[e ->]|(? & _ & ->)]; cbn; eauto.
  right. by rewrite Hv.
Qed.

Lemma required_cases id d :
  (∃ e, required id d = (d, Err e)) ∨
  (∃ o o', obligations d !! id = Some o ∧ model_validate o = Ok o' ∧ required id d = (d, Ok o')).
Proof.
  unfold required, get, mbind, M_bind, get_st, lift.
  destruct (obligations d !! id) as [o|]; cbn; [|eauto].
  destruct (model_validate o) eqn:Hv; cbn; [|eauto]. right. eauto.
Qed.

Lemma next_obligation_step cur token event dest corr ev repl :
  next_obligation cur token event dest corr ev = Ok repl →
  row_step cur repl ∧ obligation_id repl = obligation_id cur ∧
  row_version repl = row_version cur + 1 ∧ set_mutable cur repl = repl ∧
  token = currentness_token cur.
Proof.
  unfold next_obligation, encoded_evidence, evidence_differs. intros H.
  case_match eqn:Htok; [done|]. case_match eqn:Hterm; [done|].
  rewrite negb_false_iff, eqb_true in Htok. rewrite eqb_false in Hterm.
  destruct event; repeat (case_match; try done); simplify_eq/=; to_prop; simplify_eq/=;
    (split; [|by repeat split]); constructor; try done; unfold currentness_reason; try naive_solver.
  all: try (set_unfold; naive_solver).
  all: eexists; split; [done | naive_solver].
Qed.

(** *** The invariant of the concurrent system *)

(** A row that was read is still there, perhaps replaced by later versions. *)
Definition known (d : DB) (cur : LifecycleObligation) : Prop :=
  ∃ row, obligations d !! obligation_id cur = Some row ∧
    (row = cur ∨ row_version cur < row_version row).

(** A terminal row carries matching readback. *)
Definition terminal_ok (o : LifecycleObligation) : Prop :=
  state o = TERMINAL →
  ∃ e, authoritative_readback_evidence o = Some e ∧ matching_readback o e.

(** An ambiguous persistence attempt had a destination. *)
Definition ambiguous_ok (o : LifecycleObligation) : Prop :=
  unknown_reason o = Some "PERSIST_OUTCOME_AMBIGUOUS" → is_some (destination_ref o) = true.

Definition stored_ok (id : uuid) (o : LifecycleObligation) : Prop :=
  obligation_id o = id ∧ model_validate o = Ok o ∧ terminal_ok o ∧ ambiguous_ok o.

Record SysInv (s : Sys) : Prop := {
  si_stored : map_Forall stored_ok (obligations (db s));
  si_known : ∀ cur, cur ∈ read_rows s → known (db s) cur }.

(** How one step changes the table: nothing, a new obligation, or one abstract
    step of one obligation. *)
Inductive db_change (d d' : DB) : Prop :=
  | dc_same : obligations d' = obligations d → db_change d d'
  | dc_create id work token :
      obligations d !! id = None → model_validate (new_obligation id work token) =
        Ok (new_obligation id work token) →
      obligations d' = <[id := new_obligation id work token]> (obligations d) → db_change d d'
  | dc_step id row row' :
      obligations d !! id = Some row → row_step row row' →
      obligation_id row' = obligation_id row → row_version row' = row_version row + 1 →
      model_validate row' = Ok row' →
      obligations d' = <[id := row']> (obligations d) → db_change d d'.

Lemma row_step_terminal_ok o o' : row_step o o' → terminal_ok o'.
Proof.
  destruct 1; intros Hs; cbn in Hs; try congruence; cbn.
  - exists e. split; [done|]. by destruct H0 as (kvs & ? & ? & ?); exists kvs.
  - rewrite Hs in H. naive_solver.
Qed.

Lemma row_step_ambiguous_ok o o' :
  model_validate o = Ok o → ambiguous_ok o → row_step o o' → ambiguous_ok o'.
Proof.
  rewrite <- row_accepted_ok. unfold row_accepted. cbn [forallb check_constraints snd].
  rewrite !andb_true_iff. intros (_ & _ & _ & _ & _ & _ & _ & _ & _ & _ & Hck & _) Ha Hs.
  unfold ck_state_fields in Hck.
  destruct Hs as [dest corr Hs|e Hs|r e Hs Hr|Hs Hr|e [Hs|[Hs Hr]] _|token Hs]; cbn;
    unfold ambiguous_ok in *; cbn; try done; try (rewrite Hs in Hck).
  - intros _. by destruct (destination_ref o).
  - unfold currentness_reason in Hr. naive_solver.
Qed.

Lemma db_change_stored d d' :
  db_change d d' → map_Forall stored_ok (obligations d) → map_Forall stored_ok (obligations d').
Proof.
  intros [->|id work token _ Hv ->|id row row' Hr Hs Hid _ Hv ->] Hall; [done| |];
    apply map_Forall_insert_2; try done.
  destruct (map_Forall_lookup_1 _ _ _ _ Hall Hr) as (Hk & Hv0 & _ & Ha).
  split; [congruence|]. split; [done|].
  split; [by eapply row_step_terminal_ok | by eapply row_step_ambiguous_ok].
Qed.

Lemma db_change_known d d' cur : db_change d d' → known d cur → known d' cur.
Proof.
  intros Hc (row & Hr & Hv). unfold known.
  destruct Hc as [->|id work token Hn _ ->|id row0 row' Hr0 _ _ Hv' _ ->]; [by exists row| |].
  - exists row. rewrite lookup_insert_ne by congruence. done.
  - destruct (decide (id = obligation_id cur)) as [->|].
    + rewrite lookup_insert_eq. simplify_eq. exists row'. split; [done|]. right. naive_solver lia.
    + rewrite lookup_insert_ne by done. by exists row.
Qed.

Lemma known_same_version d cur row :
  known d cur → obligations d !! obligation_id cur = Some row →
  row_version row = row_version cur → row = cur.
Proof. intros (row0 & Hr0 & [?|?]) Hr Hv; [congruence | simplify_eq; lia]. Qed.

(** A commit on a row that was read either fails and changes nothing, or the
    row is still the one that was read and takes one abstract step. *)
Lemma commit_cases d cur token event dest corr ev :
  known d cur →
  (∃ e, commit_transition cur token event dest corr ev d = (d, Err e)) ∨
  (∃ repl, next_obligation cur token event dest corr ev = Ok repl ∧
     obligations d !! obligation_id cur = Some cur ∧
     model_validate repl = Ok repl ∧
     commit_transition cur token event dest corr ev d = (with_obligation repl d, Ok repl)).
Proof.
  intros Hcur. unfold commit_transition, mbind, M_bind, lift.
  destruct (next_obligation _ _ _ _ _ _) as [repl|] eqn:Hn; cbn; [|by left; eauto].
  destruct (next_obligation_step _ _ _ _ _ _ _ Hn) as (Hs & Hid & Hv & Hset & _).
  destruct (replace_cases repl (row_version cur) d) as [[e He]|(row & Hr & Hb & _ & Hval & He)];
    [by left; eauto|].
  rewrite Hid in Hr. unfold same_binding in Hb. to_prop.
  assert (row = cur) as -> by (eapply known_same_version; [done | done | tauto]).
  rewrite Hset in *. right. exists repl. done.
Qed.

Lemma adopt_known_cases d cur token :
  known d cur →
  (∃ e, adopt_currentness cur token d = (d, Err e)) ∨
  (let repl := with_token cur token (row_version cur + 1) in
   obligations d !! obligation_id cur = Some cur ∧
   (state cur = PENDING_RESULT ∨ state cur = PERSIST_REQUIRED) ∧
   model_validate repl = Ok repl ∧
   adopt_currentness cur token d = (with_obligation repl d, Ok repl)).
Proof.
  intros Hcur.
  destruct (adopt_cases cur token d) as [?|(row & Hs & Hr & Hv & Hst & Hval & He)]; [by left|].
  assert (row = cur) as -> by (eapply known_same_version; done).
  right. done.
Qed.

Lemma sys_step_change s s' :
  SysInv s → sys_step s s' →
  db_change (db s) (db s') ∧ ∀ cur, cur ∈ read_rows s' → cur ∈ read_rows s ∨ known (db s') cur.
Proof.
  intros Hinv Hstep.
  assert (∀ o d, known (with_obligation o d) o) as Hnew.
  { intros o d. exists o. split; [apply lookup_insert_eq | by left]. }
  destruct Hstep as [w|id work token|id|cur token event dest corr ev Hcur|cur token Hcur];
    cbn; unfold call.
  - split; [by apply dc_same | by left].
  - destruct (create_cases id work token (db s)) as [[e ->]|(Hn & Hv & ->)]; cbn.
    + split; [by apply dc_same | by left].
    + split; [by eapply dc_create|]. set_unfold. naive_solver.
  - destruct (required_cases id (db s)) as [[e ->]|(o & o' & Ho & Hv & ->)]; cbn.
    + split; [by apply dc_same | by left].
    + split; [by apply dc_same|].
      destruct (map_Forall_lookup_1 _ _ _ _ (si_stored s Hinv) Ho) as (Hk & Hv' & _).
      assert (o' = o) as -> by congruence.
      intros c [->|Hc]%elem_of_cons; [right; exists o; split; [congruence | by left] | by left].
  - apply (si_known s Hinv) in Hcur.
    destruct (commit_cases (db s) cur token event dest corr ev Hcur) as [[e ->]|(repl & Hn & Hr & Hv & ->)]; cbn.
    + split; [by apply dc_same | by left].
    + destruct (next_obligation_step _ _ _ _ _ _ _ Hn) as (Hs & Hid & Hver & _).
      split; [|set_unfold; naive_solver].
      eapply (dc_step _ _ (obligation_id cur) cur repl); try done. cbn. by rewrite Hid.
  - apply (si_known s Hinv) in Hcur.
    destruct (adopt_known_cases (db s) cur token Hcur) as [[e ->]|(Hr & Hs & Hv & ->)]; cbn.
    + split; [by apply dc_same | by left].
    + split; [|set_unfold; naive_solver].
      eapply (dc_step _ _ (obligation_id cur) cur (with_token cur token (row_version cur + 1))); try done; by apply rs_adopt.
Qed.

Lemma sys_step_inv s s' : sys_step s s' → SysInv s → SysInv s'.
Proof.
  intros Hstep Hinv. destruct (sys_step_change s s' Hinv Hstep) as [Hc Hk]. split.
  - eapply db_change_stored; [done | apply (si_stored s Hinv)].
  - intros cur [Hcur|]%Hk; [|done]. eapply db_change_known; [done | by apply (si_known s Hinv)].
Qed.

Lemma sys_steps_inv s s' : rtc sys_step s s' → SysInv s → SysInv s'.
Proof. induction 1; eauto using sys_step_inv. Qed.

Lemma sys_reachable_inv s : sys_reachable s → SysInv s.
Proof.
  intros Hs. eapply sys_steps_inv; [exact Hs|]. split; [apply map_Forall_empty | set_solver].
Qed.

(** ** Properties *)

(** The life of one obligation: abstract steps that change its row. *)
Lemma sys_steps_row s s' id row :
  SysInv s → rtc sys_step s s' → obligations (db s) !! id = Some row →
  ∃ row', obligations (db s') !! id = Some row' ∧ rtc row_step row row'.
Proof.
  intros Hinv Hsteps. revert row. induction Hsteps as [s|s s1 s2 H1 _ IH]; intros row Hr.
  { by exists row. }
  destruct (sys_step_change s s1 Hinv H1) as [Hc _].
  assert (∃ row1, obligations (db s1) !! id = Some row1 ∧ rtc row_step row row1) as (row1 & Hr1 & Hst).
  { destruct Hc as [->|id' ? ? Hn _ ->|id' r r' Hr' Hs _ _ _ ->]; [by exists row| |].
    - exists row. by rewrite lookup_insert_ne by congruence.
    - destruct (decide (id' = id)) as [->|].
      + rewrite lookup_insert_eq. simplify_eq. exists r'. split; [done | by apply rtc_once].
      + rewrite lookup_insert_ne by done. by exists row. }
  destruct (IH (sys_step_inv _ _ H1 Hinv) row1 Hr1) as (row2 & Hr2 & Hst2).
  exists row2. split; [done | by etrans].
Qed.

(** C23: the concurrent service implements the obligation state machine.
    However the reads and writes of callers interleave, a step of the system
    leaves the table unchanged, adds one fresh valid obligation in
    [PENDING_RESULT], or moves one obligation along the transition table,
    keeping its binding and advancing its version by one. *)
Theorem lifecycle_refinement s s' :
  sys_reachable s → sys_step s s' → db_change (db s) (db s').
Proof. intros Hs Hstep. by apply sys_step_change; [apply sys_reachable_inv|]. Qed.

Lemma known_steps s s' cur :
  SysInv s → rtc sys_step s s' → known (db s) cur → known (db s') cur.
Proof.
  intros Hinv Hsteps. induction Hsteps as [s|s s1 s2 H1 _ IH]; [done|]. intros Hk.
  apply IH; [by eapply sys_step_inv|]. eapply db_change_known; [by apply sys_step_change | done].
Qed.

(** No lost update.  When a commit succeeds, the stored row was exactly the
    row the caller had read, and afterwards no commit and no adoption that
    started from that same read can ever succeed. *)
Theorem lifecycle_no_lost_update s s' cur token event dest corr ev o
    token' event' dest' corr' ev' :
  sys_reachable s → cur ∈ read_rows s →
  (commit_transition cur token event dest corr ev (db s)).2 = Ok o →
  rtc sys_step (call (commit_transition cur token event dest corr ev) s) s' →
  obligations (db s) !! obligation_id cur = Some cur ∧
  (∃ e, commit_transition cur token' event' dest' corr' ev' (db s') = (db s', Err e)) ∧
  (∃ e, adopt_currentness cur token' (db s') = (db s', Err e)).
Proof.
  intros Hs%sys_reachable_inv Hcur Hok Hsteps.
  set (s1 := call _ s) in Hsteps.
  assert (Hstep : sys_step s s1) by by apply sys_commit.
  assert (Hkc := si_known s Hs cur Hcur).
  assert (Hk' : known (db s') cur).
  { eapply known_steps; [exact Hs | by eapply rtc_l | done]. }
  destruct (commit_cases (db s) cur token event dest corr ev Hkc) as [[e He]|(repl & Hn & Hr & Hv & He)];
    [by rewrite He in Hok|].
  destruct (next_obligation_step _ _ _ _ _ _ _ Hn) as (_ & Hid & Hver & _).
  assert (Hk : known (db s') repl).
  { eapply known_steps; [by eapply sys_step_inv | done |]. exists repl. unfold s1, call. rewrite He.
    split; [apply lookup_insert_eq | by left]. }
  assert (Hgone : obligations (db s') !! obligation_id cur ≠ Some cur).
  { destruct Hk as (row & Hrow & Hrv). rewrite Hid in Hrow. rewrite Hrow. intros [= ->].
    destruct Hrv as [<-|]; lia. }
  split; [done|]. split.
  - by destruct (commit_cases (db s') cur token' event' dest' corr' ev' Hk') as [|(? & _ & ? & _)].
  - by destruct (adopt_known_cases (db s') cur token' Hk') as [|(? & _)].
Qed.

(** What a currentness failure leaves behind. *)
Definition currentness_failed (o : LifecycleObligation) : Prop :=
  state o = UNKNOWN ∧ ∃ r, unknown_reason o = Some r ∧ currentness_reason r.

Lemma row_step_currentness o o' : row_step o o' → currentness_failed o → currentness_failed o'.
Proof.
  intros Hstep (Hs & r & Hr & Hc).
  destruct Hstep as [| |r' e _ Hc'|_ Hr'|e [?|[_ Hr']] _|token [?|?]]; try congruence.
  - split; [done|]. by exists r'.
  - unfold currentness_reason in Hc. naive_solver.
  - unfold currentness_reason in Hc. naive_solver.
Qed.

Lemma row_steps_currentness o o' :
  rtc row_step o o' → currentness_failed o → currentness_failed o'.
Proof. induction 1; eauto using row_step_currentness. Qed.

Lemma row_steps_terminal o o' : rtc row_step o o' → state o = TERMINAL → o' = o.
Proof.
  intros Hs Ht. destruct Hs as [|o o1 o2 H _]; [done|].
  destruct H as [? ? H|? H|? ? H _|H _|? [H|[H _]] _|? [H|H]]; congruence.
Qed.

(** A currentness failure is permanent and completion is final.  Once a
    stored obligation is unknown for staleness or unknown currentness it stays
    so whatever later callers do, so it never completes; once it is terminal
    its row never changes again. *)
Theorem lifecycle_absorbing s s' id o :
  sys_reachable s → rtc sys_step s s' → obligations (db s) !! id = Some o →
  ∃ o', obligations (db s') !! id = Some o' ∧
    (currentness_failed o → currentness_failed o') ∧ (state o = TERMINAL → o' = o).
Proof.
  intros Hs%sys_reachable_inv Hsteps Ho.
  destruct (sys_steps_row s s' id o Hs Hsteps Ho) as (o' & Ho' & Hst).
  exists o'. eauto using row_steps_currentness, row_steps_terminal.
Qed.

(** Completion is earned.  Every stored terminal obligation has a
    destination and a correlation, and its readback evidence is the encoding
    of an object that names exactly that destination and that correlation. *)
Theorem lifecycle_terminal_readback s id o :
  sys_reachable s → obligations (db s) !! id = Some o → state o = TERMINAL →
  ∃ dest corr kvs, destination_ref o = Some dest ∧ result_correlation o = Some corr ∧
    authoritative_readback_evidence o = Some (dumps_compact_raw (JObj kvs)) ∧
    assoc "destination_ref" kvs = Some (JStr dest) ∧
    assoc "result_correlation" kvs = Some (JStr corr).
Proof.
  intros Hs%sys_reachable_inv Ho Ht.
  destruct (map_Forall_lookup_1 _ _ _ _ (si_stored s Hs) Ho) as (_ & Hv & Hterm & _).
  destruct (Hterm Ht) as (e & He & kvs & -> & Hd & Hc).
  apply row_accepted_ok in Hv. unfold row_accepted in Hv. cbn [forallb check_constraints snd] in Hv.
  unfold ck_state_fields in Hv. rewrite Ht in Hv.
  destruct (destination_ref o) as [dest|], (result_correlation o) as [corr|]; cbn in *;
    rewrite ?andb_false_r in Hv; try done.
  exists dest, corr, kvs. repeat split; [done| |].
  - by destruct (assoc _ kvs) eqn:E in Hd |- *; cbn in Hd; subst.
  - by destruct (assoc "result_correlation" kvs) eqn:E in Hc |- *; cbn in Hc; subst.
Qed.

(** The projection is total and exact.  For every stored obligation
    [continuation] returns without changing the database, and tells the caller
    to persist exactly when the obligation is in [PERSIST_REQUIRED] under the
    caller's currentness token, with the stored destination and correlation. *)
Theorem lifecycle_continuation s id o token :
  sys_reachable s → obligations (db s) !! id = Some o →
  ∃ c, continuation id token (db s) = (db s, Ok c) ∧
    (kind c = PERSIST_RESULT ↔ token = currentness_token o ∧ state o = PERSIST_REQUIRED) ∧
    (kind c = K_TERMINAL ↔ token = currentness_token o ∧ state o = TERMINAL) ∧
    (kind c = PERSIST_RESULT → ∃ dest corr,
       c_destination_ref c = Some dest ∧ c_result_correlation c = Some corr ∧
       destination_ref o = Some dest ∧ result_correlation o = Some corr).
Proof.
  intros Hs%sys_reachable_inv Ho.
  destruct (map_Forall_lookup_1 _ _ _ _ (si_stored s Hs) Ho) as (_ & Hv & _).
  unfold continuation, required, get, mbind, M_bind, get_st, lift.
  rewrite Ho, Hv. cbn. apply row_accepted_ok in Hv.
  unfold row_accepted in Hv. cbn [forallb check_constraints snd] in Hv. rewrite !opt_len_pos in Hv.
  unfold Continuation_validate. destruct (eqb token (currentness_token o)) eqn:Ht; cbn;
    [|eexists; split; [done|]; cbn; rewrite eqb_false in Ht; naive_solver].
  rewrite eqb_true in Ht. destruct (state o) eqn:Hs0; cbn;
    try (eexists; split; [done|]; cbn; naive_solver).
  unfold ck_state_fields in Hv. rewrite Hs0 in Hv.
  destruct (destination_ref o) as [dest|], (result_correlation o) as [corr|]; cbn in *;
    rewrite ?andb_false_r in Hv; try done.
  rewrite !andb_true_iff in Hv. destruct Hv as (_ & _ & _ & _ & [Hd _] & [Hc _] & _).
  rewrite Hd, Hc. cbn. eexists. split; [done|]. cbn. naive_solver.
Qed.

Lemma encoded_evidence_len ev e :
  encoded_evidence ev = Ok e → opt_len_between 1 (Some 8000) (Some e) = true.
Proof.
  unfold encoded_evidence. destruct ev as [kvs|]; [|done].
  destruct (negb _ || _) eqn:H; [done|]. intros [= <-]. cbn.
  apply orb_false_iff in H as [Ht Hl]. rewrite andb_true_iff, !Z.leb_le.
  split; [|lia]. destruct (dumps_compact_raw (JObj kvs)); [done|]. unfold py_len. cbn. lia.
Qed.

(** The constraints on the fields, as propositions. *)
Lemma row_accepted_spec o :
  row_accepted o = true ↔
  profile_type o = PROFILE_TYPE ∧ profile_version o = PROFILE_VERSION ∧
  0 < py_len (currentness_token o) ∧ 1 <= row_version o ∧
  is_none (destination_ref o) = is_none (result_correlation o) ∧
  opt_len_between 1 None (destination_ref o) = true ∧
  opt_len_between 1 None (result_correlation o) = true ∧
  opt_len_between 1 (Some 8000) (authoritative_readback_evidence o) = true ∧
  (∀ r, unknown_reason o = Some r → r ∈ unknown_reasons) ∧
  opt_len_between 1 (Some 8000) (unknown_evidence o) = true ∧ ck_state_fields o = true.
Proof.
  unfold row_accepted. cbn [forallb check_constraints snd]. rewrite !opt_len_pos.
  rewrite !andb_true_iff, !eqb_true, !Z.eqb_eq, Z.ltb_lt, Z.leb_le, Bool.eqb_true_iff.
  destruct (unknown_reason o) as [r|]; [rewrite mem_true|]; naive_solver.
Qed.

Lemma next_obligation_accepted o token event dest corr ev repl :
  row_accepted o = true → ambiguous_ok o → next_obligation o token event dest corr ev = Ok repl →
  opt_len_between 1 None dest = true → opt_len_between 1 None corr = true →
  row_accepted repl = true.
Proof.
  rewrite !row_accepted_spec. intros (H1 & H2 & H3 & H4 & H5 & H6 & H7 & H8 & H9 & H10 & H11) Ha Hn Hd Hc.
  destruct o as [oid pt pv w tok st v d c rb ur ue]; cbn in *.
  unfold next_obligation in Hn; cbn in Hn. unfold ck_state_fields in *; cbn in *.
  destruct (negb (eqb token tok)); [done|].
  assert (∀ x : string, x ∈ unknown_reasons → ∀ r, Some x = Some r → r ∈ unknown_reasons)
    by naive_solver.
  destruct event, st; cbn in Hn; try done; cbn in H11;
    destruct d, c, rb, ur, ue; cbn in *; try done.
  all: repeat match type of Hn with
    | _ ≫= _ = Ok _ =>
        apply bind_Ok in Hn as (? & He & Hn); apply encoded_evidence_len in He
    | context [match ?x with _ => _ end] => destruct x eqn:?; try done
    end; simplify_eq/=; try done.
  all: repeat (split; [done || lia || set_solver|]); try done.
  to_prop. unfold ambiguous_ok in Ha; cbn in Ha. naive_solver.
Qed.

(** What [transition] does when nobody interferes.  On a stored obligation
    it raises exactly what the transition table raises and then changes
    nothing; otherwise, unless an empty destination or correlation or an
    exhausted version counter is refused by the database, it stores and
    returns the next obligation. *)
Theorem lifecycle_transition s id o token event dest corr ev :
  sys_reachable s → obligations (db s) !! id = Some o →
  opt_len_between 1 None dest = true → opt_len_between 1 None corr = true →
  row_version o < int4_max →
  transition id token event dest corr ev (db s) =
    match next_obligation o token event dest corr ev with
    | Ok repl => (with_obligation repl (db s), Ok repl)
    | Err e => (db s, Err e)
    end.
Proof.
  intros Hs%sys_reachable_inv Ho Hd Hc Hmax.
  destruct (map_Forall_lookup_1 _ _ _ _ (si_stored s Hs) Ho) as (Hid & Hv & _ & Ha).
  unfold transition, commit_transition, required, get.
  unfold mbind, M_bind, get_st, lift. rewrite Ho, Hv. cbn.
  destruct (next_obligation o token event dest corr ev) as [repl|] eqn:Hn; [|done].
  apply row_accepted_ok in Hv.
  assert (Hacc := next_obligation_accepted _ _ _ _ _ _ _ Hv Ha Hn Hd Hc).
  destruct (next_obligation_step _ _ _ _ _ _ _ Hn) as (_ & Hrid & Hver & Hset & _).
  apply row_accepted_spec in Hv.
  assert (Hb : same_binding o repl (row_version o) = true).
  { rewrite <- Hset. unfold same_binding, set_mutable. cbn. rewrite !eqb_refl, !Z.eqb_refl. done. }
  unfold replace, mbind, M_bind, throw_if, transaction, get_st, write_row, put_st, lift.
  rewrite (proj2 (Z.ltb_ge _ _)) by lia. rewrite Hver, Z.eqb_refl. cbn.
  rewrite Hrid, Hid, Ho, Hb, Hset. cbn. unfold mbind, M_bind, throw_if, get_st.
  rewrite (proj2 (Z.ltb_ge _ _)) by lia. rewrite Hacc. cbn.
  by rewrite (proj1 (row_accepted_ok _) Hacc).
Qed.

(** ** A concrete run *)

Definition ex_ob : LifecycleObligation := new_obligation "o1" "w1" "t1".
Definition ex_ready : LifecycleObligation := to_persist_required ex_ob "dest" "corr".
Definition ex_evidence : evidence :=
  [("destination_ref", JStr "dest"); ("result_correlation", JStr "corr")].
Definition ex_done : LifecycleObligation :=
  to_terminal ex_ready (dumps_compact_raw (JObj ex_evidence)).

Definition ex_s0 : Sys := mkSys (mkDB {["w1"]} ∅) [].
Definition ex_s1 : Sys := call (create "o1" "w1" "t1") ex_s0.
Definition ex_commit_ready : M DB LifecycleObligation :=
  commit_transition ex_ob "t1" RESULT_READY (Some "dest") (Some "corr") None.
Definition ex_s2 : Sys := call ex_commit_ready ex_s1.
Definition ex_commit_done : M DB LifecycleObligation :=
  commit_transition ex_ready "t1" PERSIST_READBACK_MATCHED None None (Some ex_evidence).
Definition ex_s3 : Sys := call ex_commit_done ex_s2.

Lemma ex_reads : ex_ob ∈ read_rows ex_s1 ∧ ex_ready ∈ read_rows ex_s2.
Proof. split; apply list_elem_of_lookup_2 with 0%nat; vm_compute; reflexivity. Qed.

Lemma ex_lc_reachable1 : sys_reachable ex_s1.
Proof.
  apply (rtc_l _ _ ex_s0); [exact (sys_handle empty_sys "w1")|].
  apply rtc_once. apply sys_create.
Qed.

Lemma ex_step12 : sys_step ex_s1 ex_s2.
Proof. apply sys_commit, ex_reads. Qed.
Lemma ex_step23 : sys_step ex_s2 ex_s3.
Proof. apply sys_commit, ex_reads. Qed.
Lemma ex_reachable2 : sys_reachable ex_s2.
Proof. eapply rtc_r; [exact ex_lc_reachable1 | exact ex_step12]. Qed.
Lemma ex_lc_reachable3 : sys_reachable ex_s3.
Proof. eapply rtc_r; [exact ex_reachable2 | exact ex_step23]. Qed.

Lemma lifecycle_refinement_witness :
  obligations (db ex_s3) = {["o1" := ex_done]} ∧ db_change (db ex_s2) (db ex_s3).
Proof.
  split; [vm_compute; reflexivity | exact (lifecycle_refinement _ _ ex_reachable2 ex_step23)].
Defined.

Lemma lifecycle_no_lost_update_witness :
  (ex_commit_ready (db ex_s1)).2 = Ok ex_ready ∧
  ∃ e, commit_transition ex_ob "t1" CURRENTNESS_STALE None None (Some []) (db ex_s3) = (db ex_s3, Err e).
Proof.
  assert (H : (ex_commit_ready (db ex_s1)).2 = Ok ex_ready) by (vm_compute; reflexivity).
  split; [exact H|].
  exact (proj1 (proj2 (lifecycle_no_lost_update ex_s1 ex_s3 ex_ob _ _ _ _ _ ex_ready
    "t1" CURRENTNESS_STALE None None (Some []) ex_lc_reachable1 (proj1 ex_reads) H (rtc_once _ _ ex_step23)))).
Defined.

Lemma lifecycle_absorbing_witness :
  ∃ o', obligations (db ex_s3) !! "o1" = Some o' ∧
    (currentness_failed ex_ready → currentness_failed o') ∧ (state ex_ready = TERMINAL → o' = ex_ready).
Proof.
  refine (lifecycle_absorbing ex_s2 ex_s3 "o1" ex_ready ex_reachable2 (rtc_once _ _ ex_step23) _).
  vm_compute. reflexivity.
Defined.

Lemma lifecycle_terminal_readback_witness :
  ∃ dest corr kvs, destination_ref ex_done = Some dest ∧ result_correlation ex_done = Some corr ∧
    authoritative_readback_evidence ex_done = Some (dumps_compact_raw (JObj kvs)) ∧
    assoc "destination_ref" kvs = Some (JStr dest) ∧
    assoc "result_correlation" kvs = Some (JStr corr).
Proof.
  refine (lifecycle_terminal_readback ex_s3 "o1" ex_done ex_lc_reachable3 _ eq_refl).
  vm_compute. reflexivity.
Defined.

Lemma lifecycle_continuation_witness :
  ∃ c, continuation "o1" "t1" (db ex_s2) = (db ex_s2, Ok c) ∧ kind c = PERSIST_RESULT.
Proof.
  assert (Ho : obligations (db ex_s2) !! "o1" = Some ex_ready) by (vm_compute; reflexivity).
  destruct (lifecycle_continuation ex_s2 "o1" ex_ready "t1" ex_reachable2 Ho) as (c & Hc & Hk & _).
  exists c. split; [exact Hc | apply Hk; split; reflexivity].
Defined.

Lemma lifecycle_transition_witness :
  transition "o1" "t1" PERSIST_READBACK_MATCHED None None (Some ex_evidence) (db ex_s2) =
    (with_obligation ex_done (db ex_s2), Ok ex_done).
Proof.
  refine (lifecycle_transition ex_s2 "o1" ex_ready "t1" PERSIST_READBACK_MATCHED None None
    (Some ex_evidence) ex_reachable2 _ eq_refl eq_refl _); vm_compute; reflexivity.
Defined.
