(* ===== verification/ProductCurrentness.v ===== *)
(** * Product currentness reconciliation ([product_currentness.py])

    The evidence adapter is a stateful environment behind an interface
    ([CurrentnessEvidenceReader], the Python protocol of that name): each call
    may change the world and may raise, and successive calls may disagree.
    The evaluator reads the acceptance binding and the basis, then every
    required source, then every currentness token again, then the basis and
    the binding again. *)

From S2P Require Import Prelude Json.

Local Open Scope Z_scope.

Inductive ConditionResult := TRUE | FALSE | UNKNOWN | CONFLICT.

#[export] Instance ConditionResult_eq_dec : EqDecision ConditionResult.
Proof. solve_decision. Defined.

Inductive ReconciliationStatus := ok | unknown | conflict | denied.

Inductive SourceName :=
  | runtime_identity | feature_enabled | schema_surface | persistence_ready | functional_proof.

#[export] Instance SourceName_eq_dec : EqDecision SourceName.
Proof. solve_decision. Defined.

(** The literals of the source. *)
Definition result_text (r : ConditionResult) : string :=
  match r with TRUE => "TRUE" | FALSE => "FALSE" | UNKNOWN => "UNKNOWN" | CONFLICT => "CONFLICT" end.
Definition source_text (s : SourceName) : string :=
  match s with
  | runtime_identity => "runtime_identity" | feature_enabled => "feature_enabled"
  | schema_surface => "schema_surface" | persistence_ready => "persistence_ready"
  | functional_proof => "functional_proof"
  end.

Definition RECONCILIATION_NAMESPACE : uuid := "b390ecaf-7835-5f31-8dbc-b188cb529702".
Definition STATEFUL_PRODUCT_WORK_ID : uuid := "2becc5d4-0656-4d31-8186-23bfe3861264".
Definition UNBOUND_CONTRACT_REVISION : string := "UNBOUND".

Record StatefulAcceptanceBinding := mkBinding {
  contract_revision : string; required_sources : list SourceName;
  b_evidence_id : string; b_currentness_token : string; b_basis_token : string }.

#[export] Instance StatefulAcceptanceBinding_eq_dec : EqDecision StatefulAcceptanceBinding.
Proof. solve_decision. Defined.

(** The field constraints of the pydantic model. *)
Definition binding_valid (b : StatefulAcceptanceBinding) : bool :=
  truthy (contract_revision b) && negb (bool_decide (required_sources b = []))
  && truthy (b_evidence_id b) && truthy (b_currentness_token b) && truthy (b_basis_token b).

Record SourceEvidence := mkEvidence {
  source : SourceName; result : ConditionResult; evidence_id : string;
  currentness_token : option string; basis_token : option string;
  observed_at : datetime; detail : option string }.

Record StatefulCondition := mkCondition {
  name : SourceName; c_result : ConditionResult; c_evidence_id : string;
  c_currentness_token : option string; c_observed_at : datetime; c_detail : option string }.

Record ProductCurrentness := mkCurrentness {
  status : ReconciliationStatus; product_work_id : uuid; current : ConditionResult;
  pc_contract_revision : string; reconciliation_id : uuid; basis_id : string;
  conditions : list StatefulCondition; blockers : list SourceName; reason : option string }.

(** The protocol, on a world [W]; [now] is [datetime.now().astimezone()]. *)
Class CurrentnessEvidenceReader (W : Type) := {
  acceptance_binding : M W (option StatefulAcceptanceBinding);
  read_basis_token : M W (option string);
  read : SourceName → M W SourceEvidence;
  read_currentness_token : SourceName → M W (option string);
  now : W → datetime }.

(** [type(error).__name__] *)
Definition exn_name (c : exn_class) : string :=
  match c with
  | ValueError => "ValueError" | RuntimeError => "RuntimeError" | LookupError => "LookupError"
  | KeyError => "KeyError" | TypeError => "TypeError" | AssertionError => "AssertionError"
  | PermissionError => "PermissionError" | OverflowError => "OverflowError"
  | OSError => "OSError" | AttributeError => "AttributeError"
  | FileExistsError => "FileExistsError" | FileNotFoundError => "FileNotFoundError"
  | SQLAlchemyError => "SQLAlchemyError" | IntegrityError => "IntegrityError"
  | ProviderError => "ProviderError" | UnknownEffect => "UnknownEffect"
  | UnknownWorkError => "UnknownWorkError" | StaleWorkVersion => "StaleWorkVersion"
  | OperationConflictError => "OperationConflictError"
  | StalePriorityClaim => "StalePriorityClaim" | StaleVersion => "StaleVersion"
  | AtomicResultFailure => "_AtomicResultFailure"
  | OtherError => "Exception"
  end.

Definition unavailable (s : SourceName) (why : string) (at_ : datetime) : SourceEvidence :=
  mkEvidence s UNKNOWN (String.append "unavailable:" (source_text s)) None None at_ (Some why).

(** [item.model_copy(update={"result": "UNKNOWN", "detail": why})] *)
Definition downgrade (e : SourceEvidence) (why : string) : SourceEvidence :=
  mkEvidence (source e) UNKNOWN (evidence_id e) (currentness_token e) (basis_token e)
    (observed_at e) (Some why).

Section reader.
Context {W : Type} `{!CurrentnessEvidenceReader W}.

(** [_safe_read] *)
Definition safe_read (s : SourceName) (w : W) : W * SourceEvidence :=
  match read s w with
  | (w', Err e) => (w', unavailable s (exn_name (exn_cls e)) (now w'))
  | (w', Ok ev) =>
      (w', if negb (eqb (source ev) s) then unavailable s "source_identity_mismatch" (now w')
           else if mem (result ev) [TRUE; FALSE] && is_none (currentness_token ev)
           then downgrade ev "currentness_token_missing"
           else ev)
  end.

(** [_safe_token], [_safe_binding], [_safe_basis]: a failure reads as [None]. *)
Definition or_none {A} (m : M W (option A)) (w : W) : W * option A :=
  match m w with
  | (w', Ok a) => (w', a)
  | (w', Err _) => (w', None)
  end.
Definition safe_token (s : SourceName) : W → W * option string := or_none (read_currentness_token s).
Definition safe_binding : W → W * option StatefulAcceptanceBinding := or_none acceptance_binding.
Definition safe_basis : W → W * option string := or_none read_basis_token.

(** [[await f(x) for x in l]] *)
Fixpoint gather {A B} (f : A → W → W * B) (l : list A) (w : W) : W * list B :=
  match l with
  | [] => (w, [])
  | x :: l' =>
      let '(w1, b) := f x w in
      let '(w2, bs) := gather f l' w1 in (w2, b :: bs)
  end.
End reader.

Definition binding_json (b : option StatefulAcceptanceBinding) : json :=
  match b with
  | None => JNull
  | Some b => JObj
      [("contract_revision", JStr (contract_revision b));
       ("required_sources", jstrs (source_text <$> required_sources b));
       ("evidence_id", JStr (b_evidence_id b));
       ("currentness_token", JStr (b_currentness_token b));
       ("basis_token", JStr (b_basis_token b))]
  end.

Definition evidence_json (e : SourceEvidence) : json :=
  JObj [("source", JStr (source_text (source e))); ("result", JStr (result_text (result e)));
        ("evidence_id", JStr (evidence_id e)); ("currentness_token", jopt (currentness_token e));
        ("basis_token", jopt (basis_token e)); ("detail", jopt (detail e))].

(** [_basis] *)
Definition basis (product : uuid) (sb eb : option StatefulAcceptanceBinding)
    (starting ending : option string) (evidence : list SourceEvidence) : string :=
  sha256_hex (dumps_compact (JObj
    [("product_work_id", JStr product); ("starting_contract", binding_json sb);
     ("ending_contract", binding_json eb); ("starting_basis", jopt starting);
     ("ending_basis", jopt ending); ("evidence", JArr (evidence_json <$> evidence))])).

(** [_aggregate] *)
Definition aggregate (evidence : list SourceEvidence)
  : ReconciliationStatus * ConditionResult * option string :=
  let results := result <$> evidence in
  if mem CONFLICT results then (conflict, CONFLICT, Some "conflicting_evidence")
  else if mem FALSE results then (ok, FALSE, None)
  else if mem UNKNOWN results then (unknown, UNKNOWN, Some "evidence_or_coherence_unproved")
  else (ok, TRUE, None).

(** [_terminal_without_conditions] *)
Definition terminal_without_conditions (product : uuid) (st : ReconciliationStatus)
    (why : string) (b : option StatefulAcceptanceBinding) : ProductCurrentness :=
  let bid := basis product b b None None [] in
  mkCurrentness st product UNKNOWN
    (match b with None => UNBOUND_CONTRACT_REVISION | Some b => contract_revision b end)
    (uuid5 RECONCILIATION_NAMESPACE bid) bid [] [] (Some why).

(** The one basis both readings of the basis and of the binding agree on. *)
Definition shared_basis (sb : StatefulAcceptanceBinding) (eb : option StatefulAcceptanceBinding)
    (starting ending : option string) : option string :=
  if is_some starting && eqb starting ending && eqb (Some sb) eb
     && eqb (Some (b_basis_token sb)) starting
  then starting else None.

(** One round of the loop over gathered evidence and rechecked tokens. *)
Definition cohere (shared : option string) (item : SourceEvidence) (token : option string)
  : SourceEvidence :=
  if eqb (result item) UNKNOWN && is_none (basis_token item) then item
  else if is_none shared || negb (eqb (basis_token item) shared)
  then downgrade item "evaluation_basis_unproved"
  else if is_none (currentness_token item) || is_none token
  then downgrade item "source_currentness_unavailable"
  else if negb (eqb token (currentness_token item))
  then downgrade item "source_changed_during_reconciliation"
  else item.

Definition to_condition (e : SourceEvidence) : StatefulCondition :=
  mkCondition (source e) (result e) (evidence_id e) (currentness_token e) (observed_at e) (detail e).

(** The result computed from what was read. *)
Definition conclude (product : uuid) (sb : StatefulAcceptanceBinding)
    (eb : option StatefulAcceptanceBinding) (starting ending : option string)
    (gathered : list SourceEvidence) (rechecked : list (option string)) : ProductCurrentness :=
  let final := zip_with (cohere (shared_basis sb eb starting ending)) gathered rechecked in
  let bid := basis product (Some sb) eb starting ending final in
  let '(st, cur, why) := aggregate final in
  mkCurrentness st product cur (contract_revision sb) (uuid5 RECONCILIATION_NAMESPACE bid) bid
    (to_condition <$> final) (source <$> List.filter (λ e, negb (eqb (result e) TRUE)) final) why.

(** [evaluate_stateful_currentness] *)
Definition evaluate_stateful_currentness {W} `{!CurrentnessEvidenceReader W}
    (product : uuid) (w : W) : W * ProductCurrentness :=
  if negb (eqb product STATEFUL_PRODUCT_WORK_ID)
  then (w, terminal_without_conditions product denied "unsupported_product" None)
  else
    let '(w1, starting_binding) := safe_binding w in
    match starting_binding with
    | None => (w1, terminal_without_conditions product unknown "acceptance_contract_unbound" None)
    | Some sb =>
        let '(w2, starting) := safe_basis w1 in
        let '(w3, gathered) := gather safe_read (required_sources sb) w2 in
        let '(w4, rechecked) := gather safe_token (required_sources sb) w3 in
        let '(w5, ending) := safe_basis w4 in
        let '(w6, ending_binding) := safe_binding w5 in
        (w6, conclude product sb ending_binding starting ending gathered rechecked)
    end.

(** ** Properties *)

Lemma gather_length {W A B} (f : A → W → W * B) l w : length (gather f l w).2 = length l.
Proof.
  revert w. induction l as [|x l IH]; intros w; cbn; [done|].
  destruct (f x w) as [w1 b]. specialize (IH w1). destruct (gather f l w1) as [w2 bs]; cbn in *. lia.
Qed.

Lemma gather_Forall2 {W A B} (f : A → W → W * B) (P : A → B → Prop) l w :
  (∀ x w, P x (f x w).2) → Forall2 P l (gather f l w).2.
Proof.
  intros Hf. revert w. induction l as [|x l IH]; intros w; cbn; [constructor|].
  specialize (Hf x w). destruct (f x w) as [w1 b]. specialize (IH w1).
  destruct (gather f l w1) as [w2 bs]; cbn in *. by constructor.
Qed.

Lemma mem_result r l : mem r (result <$> l) = true ↔ ∃ e, e ∈ l ∧ result e = r.
Proof. rewrite mem_true, list_elem_of_fmap. naive_solver. Qed.

(** The aggregate is a result some evidence has, or [TRUE] when all have it. *)
Lemma aggregate_cases l :
  (∃ e, e ∈ l ∧ result e = (aggregate l).1.2 ∧ (aggregate l).1.2 ≠ TRUE) ∨
  ((aggregate l).1.2 = TRUE ∧ ∀ e, e ∈ l → result e = TRUE).
Proof.
  unfold aggregate.
  destruct (mem CONFLICT _) eqn:H1; [apply mem_result in H1 as (e & ? & ?); left; eauto|].
  destruct (mem FALSE _) eqn:H2; [apply mem_result in H2 as (e & ? & ?); left; eauto|].
  destruct (mem UNKNOWN _) eqn:H3; [apply mem_result in H3 as (e & ? & ?); left; eauto|].
  right. split; [done|]. intros e He.
  rewrite <- not_true_iff_false, mem_result in H1, H2, H3.
  destruct (result e) eqn:Hr; [done | exfalso; eauto..].
Qed.

(** When the loop lets an item through with a result other than unknown. *)
Definition confirmed (shared : option string) (item : SourceEvidence) (token : option string) : Prop :=
  is_Some shared ∧ basis_token item = shared ∧ is_Some token ∧ currentness_token item = token.

Lemma cohere_result shared item token r :
  r ≠ UNKNOWN →
  result (cohere shared item token) = r ↔ result item = r ∧ confirmed shared item token.
Proof.
  intros Hr. unfold cohere, confirmed.
  destruct (eqb (result item) UNKNOWN && _) eqn:H0.
  { to_prop. split; [naive_solver|]. destruct H0 as [H0 H0']. naive_solver. }
  destruct shared as [b|]; cbn; [|split; [naive_solver|]; intros (_ & [? ?] & _); done].
  destruct (eqb (basis_token item) (Some b)) eqn:Hb; cbn; to_prop; [|naive_solver].
  destruct (currentness_token item) as [t|], token as [t'|]; cbn; try (split; [naive_solver|]; intros (_ & _ & _ & [? ?] & ?); done).
  destruct (eqb (Some t') (Some t)) eqn:Ht; cbn; to_prop; naive_solver.
Qed.

Lemma shared_basis_Some sb eb starting ending b :
  shared_basis sb eb starting ending = Some b ↔
  eb = Some sb ∧ starting = Some b ∧ ending = Some b ∧ b_basis_token sb = b.
Proof.
  unfold shared_basis. destruct starting as [s|]; cbn; [|naive_solver].
  destruct (eqb (Some s) ending && _ && _) eqn:H.
  - to_prop. naive_solver.
  - split; [done|]. intros (-> & [= ->] & -> & <-). by rewrite !eqb_refl in H.
Qed.

(** Both readings of the binding and of the basis agree with each other. *)
Definition stable_basis (sb : StatefulAcceptanceBinding) (eb : option StatefulAcceptanceBinding)
    (starting ending : option string) : Prop :=
  eb = Some sb ∧ starting = Some (b_basis_token sb) ∧ ending = Some (b_basis_token sb).

Lemma confirmed_stable sb eb starting ending item token :
  confirmed (shared_basis sb eb starting ending) item token ↔
  stable_basis sb eb starting ending ∧ basis_token item = Some (b_basis_token sb) ∧
  is_Some token ∧ currentness_token item = token.
Proof.
  unfold confirmed, stable_basis. destruct (shared_basis _ _ _ _) as [b|] eqn:H.
  - apply shared_basis_Some in H as (-> & -> & -> & <-). naive_solver.
  - split; [intros ([? ?] & _); done|]. intros ((-> & -> & ->) & _).
    assert (shared_basis sb (Some sb) (Some (b_basis_token sb)) (Some (b_basis_token sb)) =
      Some (b_basis_token sb)) by by apply shared_basis_Some. congruence.
Qed.

(** The evidence a run gathers, the tokens it rechecks and the readings of the
    basis and of the binding around them. *)
Definition observes {W} `{!CurrentnessEvidenceReader W} (w : W) (sb : StatefulAcceptanceBinding)
    (eb : option StatefulAcceptanceBinding) (starting ending : option string)
    (gathered : list SourceEvidence) (rechecked : list (option string)) : Prop :=
  ∃ w1 w2 w3 w4 w5 w6,
    safe_binding w = (w1, Some sb) ∧ safe_basis w1 = (w2, starting) ∧
    gather safe_read (required_sources sb) w2 = (w3, gathered) ∧
    gather safe_token (required_sources sb) w3 = (w4, rechecked) ∧
    safe_basis w4 = (w5, ending) ∧ safe_binding w5 = (w6, eb).

Lemma observes_run {W} `{!CurrentnessEvidenceReader W} (w : W) sb eb starting ending gathered rechecked :
  observes w sb eb starting ending gathered rechecked →
  (evaluate_stateful_currentness STATEFUL_PRODUCT_WORK_ID w).2 =
    conclude STATEFUL_PRODUCT_WORK_ID sb eb starting ending gathered rechecked ∧
  length gathered = length (required_sources sb) ∧ length rechecked = length (required_sources sb).
Proof.
  intros (w1 & w2 & w3 & w4 & w5 & w6 & H1 & H2 & H3 & H4 & H5 & H6).
  pose proof (gather_length safe_read (required_sources sb) w2) as L1.
  pose proof (gather_length safe_token (required_sources sb) w3) as L2.
  rewrite H3 in L1. rewrite H4 in L2.
  split; [|done]. unfold evaluate_stateful_currentness. rewrite eqb_refl. cbn -[gather].
  by rewrite H1, H2, H3, H4, H5, H6.
Qed.

Lemma conclude_current p sb eb starting ending gathered rechecked :
  current (conclude p sb eb starting ending gathered rechecked) =
  (aggregate (zip_with (cohere (shared_basis sb eb starting ending)) gathered rechecked)).1.2.
Proof. unfold conclude. by destruct (aggregate _) as [[? ?] ?]. Qed.

(** The reader itself reported this evidence of its own on the source. *)
Definition reported {W} `{!CurrentnessEvidenceReader W} (s : SourceName) (item : SourceEvidence) : Prop :=
  source item = s ∧ ∃ u u', read s u = (u', Ok item).

(** The reader answered this token for the source. *)
Definition token_read {W} `{!CurrentnessEvidenceReader W} (s : SourceName) (token : string) : Prop :=
  ∃ u u', read_currentness_token s u = (u', Ok (Some token)).

Lemma safe_read_reported {W} `{!CurrentnessEvidenceReader W} s (w : W) :
  result (safe_read s w).2 ≠ UNKNOWN → reported s (safe_read s w).2.
Proof.
  unfold safe_read, reported. destruct (read s w) as [w' [ev|e]] eqn:E; [|done].
  destruct (eqb (source ev) s) eqn:Hs; [rewrite eqb_true in Hs; cbn [negb] | done].
  destruct (mem _ _ && _); [done|]. cbn. eauto.
Qed.

Lemma safe_token_read {W} `{!CurrentnessEvidenceReader W} s (w : W) token :
  (safe_token s w).2 = Some token → token_read s token.
Proof.
  unfold safe_token, or_none, token_read. destruct (read_currentness_token s w) as [w' [o|e]] eqn:E; [|done].
  cbn. intros ->. eauto.
Qed.

(** What a run gathers was reported by the reader, source by source. *)
Lemma observes_reported {W} `{!CurrentnessEvidenceReader W} (w : W) sb eb starting ending gathered rechecked i s :
  observes w sb eb starting ending gathered rechecked → required_sources sb !! i = Some s →
  (∀ item, gathered !! i = Some item → result item ≠ UNKNOWN → reported s item) ∧
  ∀ token, rechecked !! i = Some (Some token) → token_read s token.
Proof.
  intros (w1 & w2 & w3 & w4 & w5 & w6 & _ & _ & H3 & H4 & _ & _) Hs.
  pose proof (gather_Forall2 safe_read (λ s item, result item ≠ UNKNOWN → reported s item)
    (required_sources sb) w2 safe_read_reported) as F1. rewrite H3 in F1.
  pose proof (gather_Forall2 safe_token (λ s o, ∀ token, o = Some token → token_read s token)
    (required_sources sb) w3 safe_token_read) as F2. rewrite H4 in F2. split.
  - intros item Hi. exact (Forall2_lookup_lr _ _ _ _ _ _ F1 Hs Hi).
  - intros token Hi. exact (Forall2_lookup_lr _ _ _ _ _ _ F2 Hs Hi token eq_refl).
Qed.

(** C26: the verdict is fail-closed and exact.  On the supported product, with a
    bound contract, the evaluator answers [TRUE] exactly when the binding and
    the basis read the same before and after, agree with each other, and for
    every required source the reader reported evidence of that very source,
    [TRUE] on that basis, with a currentness token that the reader gave again
    for that source when it was asked afterwards. *)
Theorem currentness_true {W} `{!CurrentnessEvidenceReader W} (w : W) sb eb starting ending
    gathered rechecked :
  observes w sb eb starting ending gathered rechecked → binding_valid sb = true →
  current (evaluate_stateful_currentness STATEFUL_PRODUCT_WORK_ID w).2 = TRUE ↔
  stable_basis sb eb starting ending ∧
  ∀ i s, required_sources sb !! i = Some s → ∃ item token,
    gathered !! i = Some item ∧ rechecked !! i = Some (Some token) ∧ reported s item ∧ token_read s token ∧
    result item = TRUE ∧ basis_token item = Some (b_basis_token sb) ∧ currentness_token item = Some token.
Proof.
  intros Hobs Hval. pose proof (observes_reported w sb eb starting ending gathered rechecked) as Hrep.
  pose proof Hobs as (-> & L1 & L2)%observes_run. rewrite conclude_current.
  set (final := zip_with _ gathered rechecked).
  assert (Hne : ∃ s0, required_sources sb !! 0%nat = Some s0).
  { unfold binding_valid in Hval. destruct (required_sources sb); [|by eexists].
    rewrite bool_decide_true in Hval by done. cbn in Hval. by rewrite andb_false_r in Hval. }
  assert (Hall : (aggregate final).1.2 = TRUE ↔ ∀ e, e ∈ final → result e = TRUE).
  { destruct (aggregate_cases final) as [(e & He & Hr & Hn)|[Ha Hf]]; [|naive_solver].
    split; [done|]. intros Hf. specialize (Hf e He). congruence. }
  rewrite Hall. split.
  - intros Hf.
    assert (Hi : ∀ i s, required_sources sb !! i = Some s → ∃ item token,
      gathered !! i = Some item ∧ rechecked !! i = Some token ∧ result item = TRUE ∧
      confirmed (shared_basis sb eb starting ending) item token).
    { intros i s Hs%lookup_lt_Some.
      destruct (lookup_lt_is_Some_2 gathered i) as [item Hitem]; [lia|].
      destruct (lookup_lt_is_Some_2 rechecked i) as [token Htok]; [lia|].
      exists item, token. split; [done|]. split; [done|]. apply (cohere_result _ _ _ TRUE); [done|].
      apply Hf. apply list_elem_of_lookup_2 with i. unfold final.
      rewrite lookup_zip_with, Hitem, Htok. done. }
    destruct Hne as [s0 Hs0]. split.
    + destruct (Hi 0%nat s0 Hs0) as (? & ? & _ & _ & _ & Hc). by apply confirmed_stable in Hc as [? _].
    + intros i s Hs. destruct (Hi i s Hs) as (item & token & ? & ? & ? & Hc).
      apply confirmed_stable in Hc as (_ & ? & [t ->] & ?). destruct (Hrep i s Hobs Hs) as [Hr1 Hr2].
      exists item, t. split; [done|]. split; [done|]. split; [apply Hr1; [done|congruence]|].
      split; [by apply Hr2 | done].
  - intros [Hst Hi] e He. apply list_elem_of_lookup_1 in He as [i He]. unfold final in He.
    apply lookup_zip_with_Some in He as (item & token & -> & Hg & Ht).
    destruct (lookup_lt_is_Some_2 (required_sources sb) i) as [s Hs].
    { apply lookup_lt_Some in Hg. lia. }
    destruct (Hi i s Hs) as (item' & t & Hg' & Ht' & _ & _ & Hr & Hb & Hc). simplify_eq.
    apply cohere_result; [done|]. split; [done|]. apply confirmed_stable. eauto.
Qed.

(** No definite verdict without coherence.  If the binding or the basis
    changed, was unreadable or disagreed during the run, the answer is
    [UNKNOWN], whatever the sources said; and any answer other than [TRUE] and
    [UNKNOWN] is the confirmed report of one source. *)
Theorem currentness_incoherent {W} `{!CurrentnessEvidenceReader W} (w : W) sb eb starting ending
    gathered rechecked r :
  observes w sb eb starting ending gathered rechecked → binding_valid sb = true →
  current (evaluate_stateful_currentness STATEFUL_PRODUCT_WORK_ID w).2 = r → r ≠ UNKNOWN →
  stable_basis sb eb starting ending ∧
  ∃ i item token, gathered !! i = Some item ∧ rechecked !! i = Some (Some token) ∧
    result item = r ∧ basis_token item = Some (b_basis_token sb) ∧
    currentness_token item = Some token.
Proof.
  intros (-> & L1 & L2)%observes_run Hval Hr Hn. rewrite conclude_current in Hr.
  set (final := zip_with _ gathered rechecked) in Hr.
  assert (∃ e, e ∈ final ∧ result e = r) as (e & He & Her).
  { destruct (aggregate_cases final) as [(e & He & Hre & _)|[Ha Hf]]; [exists e; split; congruence|].
    destruct final as [|e f] eqn:Hfin; [exfalso | exists e; split; [left|rewrite Hf by left; congruence]].
    apply (f_equal length) in Hfin. unfold final in Hfin. rewrite length_zip_with in Hfin. cbn in Hfin.
    unfold binding_valid in Hval. destruct (required_sources sb); [|cbn in *; lia].
    rewrite bool_decide_true in Hval by done. cbn in Hval. by rewrite andb_false_r in Hval. }
  apply list_elem_of_lookup_1 in He as [i He]. unfold final in He.
  apply lookup_zip_with_Some in He as (item & token & -> & Hg & Ht).
  apply cohere_result in Her as [Hres Hc]; [|done].
  apply confirmed_stable in Hc as (Hst & Hb & [t ->] & Hct). split; [done|]. by exists i, item, t.
Qed.

(** ** Concrete readers *)

Definition ex_binding : StatefulAcceptanceBinding :=
  mkBinding "r1" [runtime_identity; functional_proof] "ev" "ct" "basis".

(** A world that is quiet, or one in which every source fails its recheck. *)
Instance ex_reader : CurrentnessEvidenceReader bool := {
  acceptance_binding := λ w, (w, Ok (Some ex_binding));
  read_basis_token := λ w, (w, Ok (Some "basis"));
  read s := λ w, (w, Ok (mkEvidence s (if w then TRUE else FALSE) "e" (Some "t") (Some "basis")
                      (Datetime 0 (Some 0)) None));
  read_currentness_token s := λ w, (w, Ok (Some "t"));
  now w := Datetime 0 (Some 0) }.

Definition ex_gathered (w : bool) : list SourceEvidence :=
  (λ s, mkEvidence s (if w then TRUE else FALSE) "e" (Some "t") (Some "basis")
          (Datetime 0 (Some 0)) None) <$> required_sources ex_binding.

Lemma ex_observes w :
  observes w ex_binding (Some ex_binding) (Some "basis") (Some "basis") (ex_gathered w)
    [Some "t"; Some "t"].
Proof. exists w, w, w, w, w, w. by destruct w. Qed.

Lemma currentness_true_witness :
  current (evaluate_stateful_currentness STATEFUL_PRODUCT_WORK_ID true).2 = TRUE.
Proof.
  refine (proj2 (currentness_true true ex_binding _ _ _ _ _ (ex_observes true) _) _);
    [vm_compute; reflexivity|].
  split; [repeat split|]. intros i s Hs.
  destruct i as [|[|i]]; [| |discriminate Hs]; injection Hs as <-; eexists; exists "t";
    (split; [reflexivity|]; split; [reflexivity|]; split; [split; [reflexivity | exists true, true; reflexivity]|];
     split; [exists true, true; reflexivity | repeat split]).
Defined.

Lemma currentness_incoherent_witness :
  ∃ i item token, ex_gathered false !! i = Some item ∧ [Some "t"; Some "t"] !! i = Some (Some token) ∧
    result item = FALSE ∧ basis_token item = Some "basis" ∧ currentness_token item = Some token.
Proof.
  refine (proj2 (currentness_incoherent false ex_binding _ _ _ _ _ FALSE (ex_observes false) _ _ _)).
  - vm_compute. reflexivity.
  - vm_compute. reflexivity.
  - discriminate.
Defined.
