(* ===== verification/Contracts.v ===== *)
(** * Work contracts ([contracts.py])

    The closed pydantic models of a work item, its routing, its patches and
    the results of the work operations, each with its validator as a function
    that returns the model or raises.  A patch is the list of the fields set
    in it ([model_fields_set]) with their values, [JNull] for an explicit
    null. *)

From S2P Require Import Prelude Json.

Local Open Scope Z_scope.

(** ** Fields *)

(** The fields a patch can carry; all but the first three are routing. *)
Inductive Field :=
  | F_title | F_notes | F_completed | F_priority | F_work_type | F_horizon
  | F_review_next_action | F_stage3_gate | F_lifecycle_state | F_canonical_root
  | F_owner_key | F_wait_kind | F_unblock_condition | F_next_due
  | F_next_action_class | F_next_action_ref.

#[export] Instance Field_eq_dec : EqDecision Field.
Proof. solve_decision. Defined.

(** [field in Routing.model_fields] *)
Definition is_routing_field (f : Field) : bool :=
  match f with F_title | F_notes | F_completed => false | _ => true end.

Record Routing := mkRouting {
  priority : option string; work_type : option string; horizon : option string;
  review_next_action : option string; stage3_gate : option string;
  lifecycle_state : option string; canonical_root : option string;
  owner_key : option string; wait_kind : option string;
  unblock_condition : option string; next_due : option string;
  next_action_class : option string; next_action_ref : option string }.

#[export] Instance Routing_eq_dec : EqDecision Routing.
Proof. solve_decision. Defined.

(** [getattr(routing, field)] *)
Definition routing_get (r : Routing) (f : Field) : option string :=
  match f with
  | F_title | F_notes | F_completed => None
  | F_priority => priority r | F_work_type => work_type r | F_horizon => horizon r
  | F_review_next_action => review_next_action r | F_stage3_gate => stage3_gate r
  | F_lifecycle_state => lifecycle_state r | F_canonical_root => canonical_root r
  | F_owner_key => owner_key r | F_wait_kind => wait_kind r
  | F_unblock_condition => unblock_condition r | F_next_due => next_due r
  | F_next_action_class => next_action_class r | F_next_action_ref => next_action_ref r
  end.

Definition lifecycle_states : list string :=
  ["CURRENT"; "WAITING"; "DEFERRED"; "TERMINAL"; "UNKNOWN"].

(** ** [uuid.UUID(text)]: which texts it accepts *)

(** [s.replace(p, "")] for a non-empty [p]. *)
Fixpoint remove_all (fuel : nat) (p s : string) : string :=
  match fuel, s with
  | S fuel', String c s' =>
      if startswith p s then remove_all fuel' p (String.substring (String.length p) (String.length s) s)
      else String c (remove_all fuel' p s')
  | _, _ => s
  end.

Definition py_remove (p s : string) : string := remove_all (String.length s) p s.

Fixpoint lstrip (p : ascii → bool) (s : string) : string :=
  match s with
  | EmptyString => ""
  | String c s' => if p c then lstrip p s' else s
  end.

Fixpoint rev_string (s acc : string) : string :=
  match s with EmptyString => acc | String c s' => rev_string s' (String c acc) end.

(** [s.strip(chars)] *)
Definition strip (p : ascii → bool) (s : string) : string :=
  rev_string (lstrip p (rev_string (lstrip p s) "")) "".

Definition is_brace (c : ascii) : bool := Ascii.eqb c "{" || Ascii.eqb c "}".

(** [c.isspace()] below U+0100. *)
Definition is_space (c : ascii) : bool :=
  let n := nat_of_ascii c in
  ((9 <=? n) && (n <=? 13) || (28 <=? n) && (n <=? 32) || (n =? 133) || (n =? 160))%nat.

Definition is_hex (c : ascii) : bool := is_lower_hex c || char_between "A" "F" c.

(** Hexadecimal digits with single underscores between them; [after] tells
    whether an underscore or the end may come next. *)
Fixpoint hex_digits (after : bool) (s : string) : bool :=
  match s with
  | EmptyString => after
  | String c s' =>
      if is_hex c then hex_digits true s' else Ascii.eqb c "_" && after && hex_digits_next s'
  end
with hex_digits_next (s : string) : bool :=
  match s with
  | EmptyString => false
  | String c s' => is_hex c && hex_digits true s'
  end.

(** [int(s, 16)] returns. *)
Definition int16_ok (s : string) : bool :=
  let s := strip is_space s in
  let s := match s with
           | String c s' => if Ascii.eqb c "+" || Ascii.eqb c "-" then s' else s
           | EmptyString => s
           end in
  match s with
  | String "0" (String c rest) =>
      if Ascii.eqb c "x" || Ascii.eqb c "X"
      then match rest with
           | String "_" rest' => hex_digits_next rest'
           | _ => hex_digits_next rest
           end
      else hex_digits false s
  | _ => hex_digits false s
  end.

(** [UUID(text)] returns: no hyphen is left for a sign, and thirty-two
    characters are below [2**128]. *)
Definition UUID_ok (text : string) : bool :=
  let hex := py_remove "uuid:" (py_remove "urn:" text) in
  let hex := py_remove "-" (strip is_brace hex) in
  (py_len hex =? 32) && int16_ok hex.

(** [value not in {None, "NONE", "UNKNOWN"}] and then [UUID(value)] fails. *)
Definition canonical_root_bad (o : option string) : bool :=
  match o with
  | None => false
  | Some s => negb (mem s ["NONE"; "UNKNOWN"]) && negb (UUID_ok s)
  end.

(** ** Work items *)

(** [min_length=1] on an optional string. *)
Definition opt_nonempty (o : option string) : bool :=
  match o with None => true | Some s => truthy s end.

(** [Routing.model_validate]: the field constraints and
    [valid_representation]. *)
Definition Routing_validate (r : Routing) : res Routing :=
  if negb (opt_nonempty (canonical_root r) && opt_nonempty (owner_key r)
           && opt_nonempty (wait_kind r) && opt_nonempty (unblock_condition r)
           && opt_nonempty (next_due r) && opt_nonempty (next_action_class r)
           && opt_nonempty (next_action_ref r))
  then raise ValueError "validation error"
  else if match lifecycle_state r with None => false | Some s => negb (mem s lifecycle_states) end
  then raise ValueError "invalid lifecycle state"
  else if canonical_root_bad (canonical_root r)
  then raise ValueError "canonical root must be NONE, UNKNOWN, or a WorkId"
  else Ok r.

Record WorkSource := mkSource { ws_provider : string; ws_task_gid : string }.
Record WorkPlacement := mkPlacement { area : string; stage : option string }.
Record WorkContext := mkContext { assignee : option string; placements : list WorkPlacement }.

Record WorkItem := mkItem {
  wi_id : uuid; wi_title : string; wi_notes : string; task_text : option string;
  task_approval_id : option uuid; task_approval_digest : option string;
  wi_completed : bool; wi_revision : string; wi_routing : Routing; wi_context : WorkContext;
  wi_source : option WorkSource; admitted_at : option datetime }.

(** ** Patches *)

Definition Patch := list (Field * json).

Definition fields_set (p : Patch) : list Field := p.*1.

(** The value a patch sets for a field, if it sets one. *)
Fixpoint patch_get (f : Field) (p : Patch) : option json :=
  match p with
  | [] => None
  | (f', v) :: p' => if eqb f f' then Some v else patch_get f p'
  end.

(** The type and length constraints of one field of [WorkPatch]. *)
Definition work_field_ok (f : Field) (v : json) : bool :=
  match f, v with
  | _, JNull => true
  | F_title, JStr s => truthy s && (py_len s <=? 500)
  | F_notes, JStr s => py_len s <=? 8000
  | F_completed, JBool _ => true
  | (F_horizon | F_review_next_action | F_stage3_gate), JStr _ => true
  | F_lifecycle_state, JStr s => mem s lifecycle_states
  | (F_priority | F_work_type | F_canonical_root | F_owner_key | F_wait_kind
     | F_unblock_condition | F_next_due | F_next_action_class | F_next_action_ref), JStr s =>
      truthy s
  | _, _ => false
  end.

(** [self.canonical_root] of a patch whose values are not null. *)
Definition patch_root (p : Patch) : option string :=
  match patch_get F_canonical_root p with Some (JStr s) => Some s | _ => None end.

(** The checks [WorkPatch.valid_patch] and [ScalarPatch.nonempty] share. *)
Definition patch_checks (p : Patch) : res unit :=
  raise_if (bool_decide (p = [])) ValueError "patch must not be empty";;
  raise_if (existsb (λ fv, eqb fv.2 JNull) p) ValueError "patch values must not be null";;
  raise_if (canonical_root_bad (patch_root p)) ValueError
    "canonical root must be NONE, UNKNOWN, or a WorkId".

(** [WorkPatch.model_validate] *)
Definition WorkPatch_validate (p : Patch) : res Patch :=
  raise_if (negb (no_dup (fields_set p) && forallb (λ fv, work_field_ok fv.1 fv.2) p))
    ValueError "validation error";;
  patch_checks p;;
  raise_if (existsb (λ f, mem f (fields_set p)) [F_horizon; F_review_next_action; F_stage3_gate]
            && negb (mem F_notes (fields_set p)))
    ValueError "legacy routing changes require notes";;
  mret p.

(** ** Requests and results *)

Inductive Status := s_ok | s_stale | s_denied | s_unknown | s_provider_error.

#[export] Instance Status_eq_dec : EqDecision Status.
Proof. solve_decision. Defined.

Record WorkResult := mkWorkResult { wr_status : Status; wr_item : option WorkItem }.

Definition WorkResult_validate (r : WorkResult) : res WorkResult :=
  let needs_item := mem (wr_status r) [s_ok; s_stale] in
  if xorb needs_item (is_some (wr_item r))
  then raise ValueError "item presence does not match status" else Ok r.

Record AppendResult := mkAppendResult {
  ar_status : Status; ar_task_gid : option string; ar_story_gid : option string }.

(** The literal of [status] has no [stale]. *)
Definition AppendResult_validate (r : AppendResult) : res AppendResult :=
  if eqb (ar_status r) s_stale then raise ValueError "validation error"
  else if eqb (ar_status r) s_ok then
    if is_none (ar_task_gid r) || is_none (ar_story_gid r)
    then raise ValueError "successful append requires exact target and story identity"
    else Ok r
  else if is_some (ar_task_gid r) || is_some (ar_story_gid r)
  then raise ValueError "failed append must not claim effect identity"
  else Ok r.

Record LaunchAuthority := mkAuthority {
  active_work_id : uuid; reference_work_ids : list uuid }.

#[export] Instance LaunchAuthority_eq_dec : EqDecision LaunchAuthority.
Proof. solve_decision. Defined.

Definition LaunchAuthority_validate (a : LaunchAuthority) : res LaunchAuthority :=
  if (8 <? Z.of_nat (length (reference_work_ids a))) then raise ValueError "validation error"
  else if mem (active_work_id a) (reference_work_ids a) || negb (no_dup (reference_work_ids a))
  then raise ValueError "launch handles must be distinct"
  else Ok a.

(** [LaunchAuthority.can_read] *)
Definition authority_can_read (a : LaunchAuthority) (work_id : uuid) : bool :=
  eqb work_id (active_work_id a) || mem work_id (reference_work_ids a).

Record WorkEvent := mkEvent {
  ev_id : uuid; ev_work_id : uuid; subtype : option string; ev_text : option string;
  created_at : string; actor : option string }.

Record WorkHistoryRequest := mkHistoryRequest {
  hq_work_id : uuid; hq_observed_revision : string; hq_cursor : option string; hq_limit : Z }.
Record WorkEventRequest := mkEventRequest {
  eq_work_id : uuid; eq_event_id : uuid; eq_observed_revision : string }.
Record WorkUpdateRequest := mkUpdateRequest {
  uq_work_id : uuid; uq_observed_revision : string; uq_patch : Patch }.
Record WorkAppendRequest := mkAppendRequest { aq_work_id : uuid; aq_text : string }.

Record WorkHistoryResult := mkHistoryResult {
  hr_status : Status; hr_work_id : option uuid; hr_revision : option string;
  hr_events : list WorkEvent; hr_next_cursor : option string }.

Definition is_nil {A} (l : list A) : bool := match l with [] => true | _ => false end.

Definition WorkHistoryResult_validate (r : WorkHistoryResult) : res WorkHistoryResult :=
  match hr_status r with
  | s_ok =>
      if is_none (hr_work_id r) || is_none (hr_revision r)
      then raise ValueError "successful work history requires work and revision"
      else if existsb (λ e, negb (eqb (Some (ev_work_id e)) (hr_work_id r))) (hr_events r)
      then raise ValueError "history events must belong to the requested work"
      else Ok r
  | s_stale =>
      if is_none (hr_work_id r) || is_none (hr_revision r) || negb (is_nil (hr_events r))
         || is_some (hr_next_cursor r)
      then raise ValueError "stale work history requires only current work and revision"
      else Ok r
  | _ =>
      if is_some (hr_work_id r) || is_some (hr_revision r) || negb (is_nil (hr_events r))
         || is_some (hr_next_cursor r)
      then raise ValueError "failed work history must not claim event data"
      else Ok r
  end.

Record WorkEventResult := mkEventResult {
  er_status : Status; er_work_id : option uuid; er_revision : option string;
  er_item : option WorkEvent }.

Definition WorkEventResult_validate (r : WorkEventResult) : res WorkEventResult :=
  match er_status r with
  | s_ok =>
      match er_work_id r, er_revision r, er_item r with
      | Some w, Some _, Some e =>
          if negb (eqb (ev_work_id e) w)
          then raise ValueError "event must belong to the requested work" else Ok r
      | _, _, _ => raise ValueError "successful event reread requires work, revision and event"
      end
  | s_stale =>
      if is_none (er_work_id r) || is_none (er_revision r) || is_some (er_item r)
      then raise ValueError "stale event reread requires current work and revision only"
      else Ok r
  | _ =>
      if is_some (er_work_id r) || is_some (er_revision r) || is_some (er_item r)
      then raise ValueError "failed event reread must not claim event data"
      else Ok r
  end.

(** ** Properties of the models *)

Lemma patch_get_elem f v p : patch_get f p = Some v → (f, v) ∈ p.
Proof.
  induction p as [|[f' v'] p IH]; cbn; [done|].
  destruct (eqb f f') eqn:E; [|intros; right; auto].
  rewrite eqb_true in E. intros [= ->]. subst. left.
Qed.

Lemma WorkPatch_validate_Ok p p' :
  WorkPatch_validate p = Ok p' →
  p' = p ∧ p ≠ [] ∧ NoDup (fields_set p) ∧
  ∀ f v, (f, v) ∈ p → v ≠ JNull ∧ work_field_ok f v = true.
Proof.
  unfold WorkPatch_validate, patch_checks. rewrite bind_Ok. intros ([] & H1 & H).
  apply bind_Ok in H as ([] & H2 & H). apply bind_Ok in H2 as ([] & H3 & H2).
  apply bind_Ok in H2 as ([] & H4 & H2). apply bind_Ok in H as (? & _ & [= <-]).
  apply raise_if_Ok in H1, H3, H4.
  apply negb_false_iff, andb_true_iff in H1 as [Hd Hf].
  apply bool_decide_eq_true in Hd. apply bool_decide_eq_false in H3.
  repeat split; try done.
  - intros ->. apply (not_true_iff_false (existsb (λ fv, eqb fv.2 JNull) p)) in H4. destruct H4.
    apply existsb_exists. exists (f, JNull). rewrite <- list_elem_of_In. split; [done | apply eqb_refl].
  - rewrite forallb_forall in Hf. apply (Hf (f, v)). by apply list_elem_of_In.
Qed.
