(* ===== verification/Tracker.v ===== *)
(** * Canonical work ([tracker/work.py]) and the tables of the tracker

    The tables that [canonical_metadata] declares for work, its relations and
    its events, with every operation of [CanonicalWorkRepository].  A method
    is one transaction; [func.now()] and [uuid4()] are arguments.

    Parameters: [nfkc_casefold] is [unicodedata.normalize("NFKC", s).casefold()],
    whose tables are data of the Unicode standard, and [coll] the collation of
    the database, a linear order on texts.  A cursor may carry any character;
    digits and spaces outside ASCII are refused in its identifier, where
    Python's [int] would read some. *)

From stdpp Require Import pretty.
From S2P Require Import Prelude Tables Paging Json Codec.

Local Open Scope Z_scope.

(** ** The tables *)

Record CurrentWork := mkWork {
  work_id : uuid; title : string; completed : bool; notes : string; row_version : Z;
  assignee : option string; priority : option string; work_type : option string;
  lifecycle_state : option string; review_next_action : option string;
  canonical_root : option string; owner_key : option string; wait_kind : option string;
  unblock_condition : option string; next_due : option string;
  next_action_class : option string; next_action_ref : option string;
  admitted_at : option datetime }.

#[export] Instance CurrentWork_eq_dec : EqDecision CurrentWork.
Proof. solve_decision. Defined.

(** A row of [canonical_work]. *)
Record WorkRow := mkWorkRow { item_of : CurrentWork; normalized_title : string }.

#[export] Instance WorkRow_eq_dec : EqDecision WorkRow.
Proof. solve_decision. Defined.

(** [work_events] *)
Record StoredWorkEvent := mkStoredEvent {
  e_id : uuid; e_work_id : uuid; sequence : Z; result_version : Z; e_subtype : string;
  e_text : option string; e_created_at : datetime; e_actor : option string;
  asana_story_gid : option string; operation_id : option uuid }.

#[export] Instance StoredWorkEvent_eq_dec : EqDecision StoredWorkEvent.
Proof. solve_decision. Defined.

(** [projects] *)
Record Project := mkProject { project_name : string; asana_project_gid : option string }.

#[export] Instance Project_eq_dec : EqDecision Project.
Proof. solve_decision. Defined.

(** The tables by primary key; the rows of [work_events] oldest first.
    [parents] maps a child to its parent, [dependencies] holds the pairs
    [(work_id, depends_on_work_id)], [memberships] maps
    [(project_id, work_id)] to the section's name. *)
Record TrackerDB := mkTracker {
  works : gmap uuid WorkRow;
  aliases : gmap string uuid;
  events : list StoredWorkEvent;
  parents : gmap uuid uuid;
  dependencies : gset (uuid * uuid);
  projects : gmap uuid Project;
  memberships : gmap (uuid * uuid) (option string) }.

Definition with_works (m : gmap uuid WorkRow) (d : TrackerDB) : TrackerDB :=
  mkTracker m (aliases d) (events d) (parents d) (dependencies d) (projects d) (memberships d).
Definition with_aliases (m : gmap string uuid) (d : TrackerDB) : TrackerDB :=
  mkTracker (works d) m (events d) (parents d) (dependencies d) (projects d) (memberships d).
Definition with_events (l : list StoredWorkEvent) (d : TrackerDB) : TrackerDB :=
  mkTracker (works d) (aliases d) l (parents d) (dependencies d) (projects d) (memberships d).
Definition with_parents (m : gmap uuid uuid) (d : TrackerDB) : TrackerDB :=
  mkTracker (works d) (aliases d) (events d) m (dependencies d) (projects d) (memberships d).
Definition with_dependencies (s : gset (uuid * uuid)) (d : TrackerDB) : TrackerDB :=
  mkTracker (works d) (aliases d) (events d) (parents d) s (projects d) (memberships d).
Definition with_memberships (m : gmap (uuid * uuid) (option string)) (d : TrackerDB) : TrackerDB :=
  mkTracker (works d) (aliases d) (events d) (parents d) (dependencies d) (projects d) m.

Definition with_projects (m : gmap uuid Project) (d : TrackerDB) : TrackerDB :=
  mkTracker (works d) (aliases d) (events d) (parents d) (dependencies d) m (memberships d).

(** A value of a [BigInteger] column, and a text that PostgreSQL stores. *)
Definition bigint (z : Z) : bool := (- 2 ^ 63 <=? z) && (z <? 2 ^ 63).
Definition has_nul (s : string) : bool := negb (all_chars (λ c, negb (Ascii.eqb c "000")) s).
Definition opt_nul (o : option string) : bool := match o with Some s => has_nul s | None => false end.

(** The error of a statement the driver or the server refuses. *)
Definition refuse_if {S} (b : bool) : M S unit := throw_if b SQLAlchemyError "statement refused".

(** ** Titles *)

(** [str.split()] on code points below U+0100. *)
Definition is_py_space (c : ascii) : bool :=
  let n := cp c in
  ((9 <=? n) && (n <=? 13)) || ((28 <=? n) && (n <=? 32)) || (n =? 133) || (n =? 160).

Fixpoint split_words (word : string) (s : string) : list string :=
  let flush (rest : list string) := if truthy word then word :: rest else rest in
  match s with
  | EmptyString => flush []
  | String c s' =>
      if is_py_space c then flush (split_words "" s')
      else split_words (String.append word (String c "")) s'
  end.

Definition py_split (s : string) : list string := split_words "" s.

(** [str(revision)] of one row version. *)
Definition canonical_revision (work : uuid) (version : Z) : res string :=
  if version <? 1 then raise ValueError "canonical row version must be positive"
  else Ok (String.append "pg_" (sha256_hex (String.append work (String "000" (pretty version))))).

(** ** [UUID(text)] *)

(** [s.replace(pat, "")] *)
Fixpoint remove_sub (n : nat) (pat l : list Z) : list Z :=
  match n with
  | O => l
  | S n =>
      match l with
      | [] => []
      | c :: l' => if starts pat l then remove_sub n pat (drop (length pat) l) else c :: remove_sub n pat l'
      end
  end.

Fixpoint lstrip (p : Z → bool) (l : list Z) : list Z :=
  match l with c :: l' => if p c then lstrip p l' else l | [] => [] end.

Definition strip (p : Z → bool) (l : list Z) : list Z := rev (lstrip p (rev (lstrip p l))).

(** Hexadecimal digits, single underscores between them; [gap] when a digit
    must follow. *)
Fixpoint hex_digits (acc : Z) (gap : bool) (l : list Z) : option Z :=
  match l with
  | [] => if gap then None else Some acc
  | c :: l' =>
      if c =? 95 then if gap then None else hex_digits acc true l'
      else v ← hexval c; hex_digits (16 * acc + v) false l'
  end.

(** [int(s, 16)] of a text without a minus sign. *)
Definition int16 (l : list Z) : option Z :=
  let l := strip (λ c, ((9 <=? c) && (c <=? 13)) || ((28 <=? c) && (c <=? 32))) l in
  let l := if next_is 43 l then drop 1 l else l in
  if next_is 48 l && (next_is 120 (drop 1 l) || next_is 88 (drop 1 l))
  then let l := drop 2 l in hex_digits 0 true (if next_is 95 l then drop 1 l else l)
  else hex_digits 0 true l.

Definition UUID (l : list Z) : option uuid :=
  let h := remove_sub (length l) (codes "urn:") l in
  let h := remove_sub (length h) (codes "uuid:") h in
  let h := List.filter (λ c, negb (c =? 45)) (strip (λ c, (c =? 123) || (c =? 125)) h) in
  if (length h =? 32)%nat then (λ z, uuid_text (Sha.be_bytes 16 z)) <$> int16 h else None.

Definition with_version (v : Z) (w : CurrentWork) : CurrentWork :=
  mkWork (work_id w) (title w) (completed w) (notes w) v (assignee w) (priority w) (work_type w)
    (lifecycle_state w) (review_next_action w) (canonical_root w) (owner_key w) (wait_kind w)
    (unblock_condition w) (next_due w) (next_action_class w) (next_action_ref w) (admitted_at w).

Definition with_admitted (a : option datetime) (w : CurrentWork) : CurrentWork :=
  mkWork (work_id w) (title w) (completed w) (notes w) (row_version w) (assignee w) (priority w)
    (work_type w) (lifecycle_state w) (review_next_action w) (canonical_root w) (owner_key w)
    (wait_kind w) (unblock_condition w) (next_due w) (next_action_class w) (next_action_ref w) a.

(** The texts of an item that are written. *)
Definition item_nul (w : CurrentWork) : bool :=
  has_nul (title w) || has_nul (notes w) ||
  existsb opt_nul [assignee w; priority w; work_type w; lifecycle_state w; review_next_action w;
    wait_kind w; unblock_condition w; next_due w; canonical_root w; owner_key w;
    next_action_class w; next_action_ref w].

(** [UPDATE canonical_work SET row_version = ... WHERE work_id = ...] *)
Definition set_version (work : uuid) (v : Z) : M TrackerDB unit :=
  refuse_if (negb (bigint v));;
  d ← get_st;
  put_st (with_works (alter (λ r, mkWorkRow (with_version v (item_of r)) (normalized_title r)) work (works d)) d).

(** [INSERT INTO projects] of a project without a legacy identifier. *)
Definition insert_project (p : uuid) (name : string) : M TrackerDB unit :=
  refuse_if (has_nul name);;
  d ← get_st;
  throw_if (is_some (projects d !! p) || negb (truthy name)) IntegrityError "projects";;
  put_st (with_projects (<[p := mkProject name None]> (projects d)) d).

(** The row version read with [FOR UPDATE]. *)
Definition version_of (work : uuid) (d : TrackerDB) : option Z :=
  (λ r, row_version (item_of r)) <$> works d !! work.

(** ** [LIKE] *)
Fixpoint like (p : list ascii) : list ascii → bool :=
  match p with
  | [] => λ t, match t with [] => true | _ => false end
  | c :: p' =>
      if Ascii.eqb c "%" then
        fix any (t : list ascii) : bool :=
          like p' t || match t with [] => false | _ :: t' => any t' end
      else if Ascii.eqb c "_" then
        λ t, match t with [] => false | _ :: t' => like p' t' end
      else if Ascii.eqb c backslash then
        match p' with
        | [] => λ _, false
        | e :: p'' => λ t, match t with [] => false | x :: t' => Ascii.eqb x e && like p'' t' end
        end
      else λ t, match t with [] => false | x :: t' => Ascii.eqb x c && like p' t' end
  end.

(** [column.contains(value)]: [LIKE '%' || value || '%'], nothing escaped. *)
Definition contains_value (value column : string) : bool :=
  like ("%"%char :: String.list_ascii_of_string value ++ ["%"%char])
    (String.list_ascii_of_string column).

(** [_decode_cursor] of the events and of the search start alike:
    [json.loads(base64.urlsafe_b64decode(cursor + "=" * (-len(cursor) % 4)))]. *)
Definition cursor_json (cursor : string) : option pyval :=
  b64_decode (String.append cursor (pad_eq (- py_len cursor mod 4))) ≫= loads.

(** [value == s], for a [str]. *)
Definition is_text (s : string) (v : pyval) : bool :=
  match v with PStr l => eqb l (codes s) | _ => false end.

(** [base64.urlsafe_b64encode(json.dumps(v).encode()).decode().rstrip("=")] *)
Definition json_cursor (v : json) : string := rstrip_eq (b64_encode (utf8 (dumps_plain v))).

(** ** The repository *)
Section repository.
Context (nfkc_casefold : string → string) (coll : list Z → list Z → bool).

Definition normalize_title (value : string) : res string :=
  if has_nul value then raise ValueError "title contains a PostgreSQL text null character"
  else
    let normalized := str_join " " (py_split (nfkc_casefold value)) in
    if negb (truthy normalized) then raise ValueError "title must contain non-whitespace text"
    else Ok normalized.

(** [get], [get_in], [get_locked]: the row lock is the atomicity of the
    operation that takes it. *)
Definition get_in (work : uuid) : M TrackerDB (option CurrentWork) := λ d,
  (d, Ok (item_of <$> works d !! work)).

Definition get (work : uuid) : M TrackerDB (option CurrentWork) := transaction (get_in work).
Definition get_locked (work : uuid) : M TrackerDB (option CurrentWork) := get_in work.

Definition resolve_asana_gid (gid : string) : M TrackerDB (option uuid) := λ d,
  (d, Ok (aliases d !! gid)).

Definition asana_gids (work : uuid) : M TrackerDB (list string) := λ d,
  (d, Ok (py_sort (λ a b, coll (codes a) (codes b))
            (map fst (List.filter (λ gw, eqb gw.2 work) (map_to_list (aliases d)))))).

Definition bind_asana_gid (gid : string) (work : uuid) : M TrackerDB unit :=
  throw_if (negb (truthy gid)) ValueError "legacy Asana task GID cannot be empty";;
  transaction (
    refuse_if (has_nul gid);;
    d ← get_st;
    throw_if (is_some (aliases d !! gid) || is_none (works d !! work)) IntegrityError "legacy_work_aliases";;
    put_st (with_aliases (<[gid := work]> (aliases d)) d)).

Definition create_locked (now : datetime) (item : CurrentWork) : M TrackerDB unit :=
  throw_if (negb (row_version item =? 1)) ValueError "new canonical work must start at version 1";;
  normalized ← lift (normalize_title (title item));
  refuse_if (item_nul item || has_nul normalized);;
  d ← get_st;
  throw_if (is_some (works d !! work_id item)) IntegrityError "canonical_work";;
  put_st (with_works (<[work_id item := mkWorkRow (with_admitted (Some now) (with_version 1 item)) normalized]>
    (works d)) d).

Definition create (now : datetime) (item : CurrentWork) : M TrackerDB unit :=
  throw_if (negb (row_version item =? 1)) ValueError "new canonical work must start at version 1";;
  transaction (create_locked now item).

(** The [UPDATE]: every scalar of the item, not its admission time. *)
Definition replace_locked (item : CurrentWork) : M TrackerDB CurrentWork :=
  let next_version := row_version item + 1 in
  normalized ← lift (normalize_title (title item));
  refuse_if (item_nul item || has_nul normalized || negb (bigint next_version));;
  d ← get_st;
  match works d !! work_id item with
  | None => mret (with_version next_version item)
  | Some row =>
      throw_if (next_version <? 1) IntegrityError "ck_canonical_work_version";;
      put_st (with_works (<[work_id item :=
        mkWorkRow (with_admitted (admitted_at (item_of row)) (with_version next_version item)) normalized]>
        (works d)) d);;
      mret (with_version next_version item)
  end.

Definition replace (item : CurrentWork) : M TrackerDB CurrentWork :=
  transaction (
    current ← get_locked (work_id item);
    match current with
    | None => throw LookupError "canonical work does not exist"
    | Some c =>
        throw_if (negb (row_version c =? row_version item)) ValueError "stale canonical work version";;
        replace_locked item
    end).

(** ** Search *)

Record Criteria := mkCriteria {
  q_query : option string; q_completed : option bool; q_lifecycle_state : option string;
  q_owner_key : option string; q_priority : option string; q_work_type : option string;
  q_canonical_root : option string }.

(** The digest of the criteria that a cursor carries. *)
Definition criteria_digest (normalized : option string) (q : Criteria) : string :=
  sha256_hex (dumps_plain (JArr [jopt normalized;
    match q_completed q with None => JNull | Some b => JBool b end;
    jopt (q_lifecycle_state q); jopt (q_owner_key q); jopt (q_priority q); jopt (q_work_type q);
    jopt (q_canonical_root q)])).

Definition _cursor (criteria title work : string) : string :=
  json_cursor (JArr [JStr criteria; JStr title; JStr work]).

Definition _decode_cursor (cursor criteria : string) : res (list Z * uuid) :=
  match cursor_json cursor with
  | Some (PList [c; PStr t; PStr u]) =>
      match UUID u with
      | Some work =>
          if is_text criteria c then Ok (t, work)
          else raise ValueError "invalid canonical work cursor"
      | None => raise ValueError "invalid canonical work cursor"
      end
  | _ => raise ValueError "invalid canonical work cursor"
  end.

(** [column == value] where a value is given. *)
Definition same (value column : option string) : bool :=
  match value with None => true | Some _ => eqb column value end.

Definition matches (normalized : option string) (q : Criteria) (r : WorkRow) : bool :=
  match normalized with None => true | Some n => contains_value n (normalized_title r) end &&
  match q_completed q with None => true | Some b => Bool.eqb (completed (item_of r)) b end &&
  same (q_lifecycle_state q) (lifecycle_state (item_of r)) &&
  same (q_owner_key q) (owner_key (item_of r)) &&
  same (q_priority q) (priority (item_of r)) &&
  same (q_work_type q) (work_type (item_of r)) &&
  same (q_canonical_root q) (canonical_root (item_of r)).

(** [ORDER BY normalized_title, work_id] *)
Definition page_key (r : WorkRow) : list Z * uuid := (codes (normalized_title r), work_id (item_of r)).

(** A text parameter that cannot be sent: it holds a zero or a lone surrogate. *)
Definition unsendable (t : list Z) : bool := existsb (λ c, (c =? 0) || is_high c || is_low c) t.

Definition criteria_nul (q : Criteria) : bool :=
  existsb opt_nul [q_lifecycle_state q; q_owner_key q; q_priority q; q_work_type q; q_canonical_root q].

Definition search (q : Criteria) (cursor : option string) (limit : Z)
  : M TrackerDB (list CurrentWork * option string) :=
  throw_if ((limit <? 1) || (500 <? limit)) ValueError "limit must be between 1 and 500";;
  normalized ← lift (match q_query q with
                     | None => Ok None
                     | Some query => Some <$> normalize_title query
                     end);
  let criteria := criteria_digest normalized q in
  start ← lift (match cursor with
                | None => Ok None
                | Some c => Some <$> _decode_cursor c criteria
                end);
  refuse_if (opt_nul normalized || criteria_nul q || match start with Some (t, _) => unsendable t | None => false end);;
  d ← get_st;
  let rows := page page_key (lex_leb coll str_leb) (S (Z.to_nat limit)) start
                (List.filter (matches normalized q) (values (works d))) in
  let page := take (Z.to_nat limit) rows in
  let next_cursor :=
    match last page with
    | Some r => if (Z.to_nat limit <? length rows)%nat
                then Some (_cursor criteria (normalized_title r) (work_id (item_of r))) else None
    | None => None
    end in
  mret (item_of <$> page, next_cursor).
End repository.

(** ** Identifiers and cursors read back *)

Lemma remove_sub_absent n c pat l : c ∉ l → remove_sub n (c :: pat) l = l.
Proof.
  revert l. induction n as [|n IH]; [done|]. intros [|x l] Hc; [done|]. cbn [remove_sub].
  unfold starts. rewrite bool_decide_eq_false_2; [|intros [= -> _]; apply Hc; left].
  f_equal. apply IH. intros H. apply Hc. by right.
Qed.

Lemma lstrip_absent p l : forallb (λ c, negb (p c)) l = true → lstrip p l = l.
Proof. destruct l as [|c l]; [done|]. cbn. intros [H _]%andb_true_iff. by destruct (p c). Qed.

Lemma strip_absent p l : forallb (λ c, negb (p c)) l = true → strip p l = l.
Proof.
  intros H. unfold strip. rewrite (lstrip_absent p l) by done.
  rewrite lstrip_absent; [apply rev_involutive|].
  rewrite forallb_forall in *. intros x Hx%in_rev. by apply H.
Qed.

(** The code of a lower-case hexadecimal digit. *)
Definition hex_code (c : Z) : bool := is_dec c || ((97 <=? c) && (c <=? 102)).

Lemma hex_digit_spec n :
  0 <= n < 16 → hex_code (cp (hex_digit n)) = true ∧ hexval (cp (hex_digit n)) = Some n.
Proof.
  intros Hn. pose proof (below_check 16 (λ n, hex_code (cp (hex_digit n)) &&
    bool_decide (hexval (cp (hex_digit n)) = Some n)) ltac:(vm_compute; done) n Hn) as H.
  cbv beta in H. by rewrite andb_true_iff, bool_decide_eq_true in H.
Qed.

Lemma codes_hexdigest_cons b bs :
  codes (hexdigest (b :: bs)) = cp (hex_digit (b / 16)) :: cp (hex_digit (b mod 16)) :: codes (hexdigest bs).
Proof. change (hexdigest (b :: bs)) with (String.append (hex_byte b) (hexdigest bs)). by rewrite codes_app. Qed.

Lemma byte_nibbles b : byte b → 0 <= b / 16 < 16 ∧ 0 <= b mod 16 < 16.
Proof. unfold byte. intros Hb. Z.to_euclidean_division_equations. lia. Qed.

Lemma hexdigest_codes bs :
  Forall byte bs → forallb hex_code (codes (hexdigest bs)) = true.
Proof.
  induction 1 as [|b bs Hb _ IH]; [done|]. rewrite codes_hexdigest_cons. cbn [forallb].
  destruct (byte_nibbles b Hb) as [H1 H2].
  by rewrite (proj1 (hex_digit_spec _ H1)), (proj1 (hex_digit_spec _ H2)), IH.
Qed.

(** The number that bytes spell. *)
Definition be_value (acc : Z) (bs : list Z) : Z := foldl (λ a b, a * 256 + b) acc bs.

Lemma hexdigest_value bs :
  Forall byte bs → bs ≠ [] → ∀ acc gap, hex_digits acc gap (codes (hexdigest bs)) = Some (be_value acc bs).
Proof.
  assert (Hno : ∀ n, 0 <= n < 16 → (cp (hex_digit n) =? 95) = false).
  { intros n Hn. apply Z.eqb_neq. intros E. pose proof (hex_digit_spec n Hn) as [H _].
    rewrite E in H. done. }
  intros H. induction H as [|b bs Hb Hbs IH]; [done|]. intros _ acc gap. rewrite codes_hexdigest_cons.
  destruct (byte_nibbles b Hb) as [H1 H2].
  cbn [hex_digits]. rewrite !Hno by done.
  rewrite (proj2 (hex_digit_spec _ H1)). cbn [mbind option_bind].
  rewrite (proj2 (hex_digit_spec _ H2)). cbn [mbind option_bind].
  replace (16 * (16 * acc + b / 16) + b mod 16) with (acc * 256 + b) by (rewrite (Z.div_mod b 16) at 1; lia).
  destruct (decide (bs = [])) as [->|Hne]; [done|]. by rewrite IH.
Qed.

Lemma be_bytes_value bs : Forall byte bs → ∀ acc, Sha.be_bytes (length bs) (be_value acc bs) = bs.
Proof.
  assert (Hv : ∀ bs acc, Forall byte bs → be_value acc bs / 256 ^ Z.of_nat (length bs) = acc).
  { intros bs' acc H. revert acc. induction H as [|b bs' Hb _ IH]; intros acc; [apply Z.div_1_r|].
    change (be_value acc (b :: bs')) with (be_value (acc * 256 + b) bs'). cbn [length].
    rewrite Nat2Z.inj_succ, Z.pow_succ_r, (Z.mul_comm 256), <- Z.div_div, IH by lia.
    unfold byte in Hb. Z.to_euclidean_division_equations. lia. }
  induction 1 as [|b bs Hb Hbs IH]; intros acc; [done|]. cbn [length Sha.be_bytes].
  change (be_value acc (b :: bs)) with (be_value (acc * 256 + b) bs). rewrite IH. f_equal.
  change 255 with (Z.ones 8). rewrite Z.land_ones, Z.shiftr_div_pow2 by lia.
  replace (2 ^ (8 * Z.of_nat (length bs))) with (256 ^ Z.of_nat (length bs))
    by (change 256 with (2 ^ 8); rewrite <- Z.pow_mul_r by lia; done).
  rewrite Hv by done. change (2 ^ 8) with 256. unfold byte in Hb. Z.to_euclidean_division_equations. lia.
Qed.

Lemma codes_hexdigest_app a b :
  codes (hexdigest (a ++ b)) = codes (hexdigest a) ++ codes (hexdigest b).
Proof. induction a as [|x a IH]; [done|]. cbn [app]. by rewrite !codes_hexdigest_cons, IH. Qed.

Lemma filter_hex bs :
  Forall byte bs → List.filter (λ c, negb (c =? 45)) (codes (hexdigest bs)) = codes (hexdigest bs).
Proof.
  intros Hb%hexdigest_codes. induction (codes (hexdigest bs)) as [|c l IH]; [done|].
  cbn [forallb] in Hb. apply andb_true_iff in Hb as [Hc Hb]. cbn [List.filter].
  destruct (Z.eqb_spec c 45) as [->|_]; [done|]. cbn [negb]. by rewrite IH.
Qed.

(** The text between the hyphens. *)
Definition uuid_codes (bs : list Z) : list Z :=
  codes (hexdigest (take 4 bs)) ++ 45 :: codes (hexdigest (take 2 (drop 4 bs))) ++
  45 :: codes (hexdigest (take 2 (drop 6 bs))) ++ 45 :: codes (hexdigest (take 2 (drop 8 bs))) ++
  45 :: codes (hexdigest (take 6 (drop 10 bs))).

Lemma codes_uuid_text bs : codes (uuid_text bs) = uuid_codes bs.
Proof. unfold uuid_text, uuid_codes. cbn [str_join]. by rewrite !codes_app. Qed.

Lemma uuid_codes_hex bs :
  Forall byte bs → forallb (λ c, hex_code c || (c =? 45)) (uuid_codes bs) = true.
Proof.
  intros Hb. assert (Hh : ∀ l, Forall byte l → forallb (λ c, hex_code c || (c =? 45)) (codes (hexdigest l)) = true).
  { intros l Hl%hexdigest_codes. rewrite forallb_forall in *. intros x Hx. by rewrite Hl. }
  unfold uuid_codes. repeat (rewrite forallb_app || cbn [forallb]).
  rewrite !Hh by (repeat (apply Forall_take || apply Forall_drop); done). done.
Qed.

Lemma uuid_codes_filter bs :
  Forall byte bs → length bs = 16%nat →
  List.filter (λ c, negb (c =? 45)) (uuid_codes bs) = codes (hexdigest bs).
Proof.
  intros Hb Hl. unfold uuid_codes. repeat (rewrite List.filter_app || cbn [List.filter Z.eqb Pos.eqb negb]).
  rewrite !filter_hex by (repeat (apply Forall_take || apply Forall_drop); done).
  rewrite <- !codes_hexdigest_app. do 2 f_equal.
  do 17 (destruct bs as [|? bs]; try done).
Qed.

Lemma hex_absent (p : Z → bool) l :
  forallb hex_code l = true → (∀ c, hex_code c = true → p c = false) → forallb (λ c, negb (p c)) l = true.
Proof. rewrite !forallb_forall. intros H Hp x Hx. by rewrite Hp by (by apply H). Qed.

Lemma hex_code_cases c : hex_code c = true → 48 <= c <= 57 ∨ 97 <= c <= 102.
Proof. unfold hex_code, is_dec. rewrite orb_true_iff, !andb_true_iff, !Z.leb_le. tauto. Qed.

Lemma int16_hexdigest bs :
  Forall byte bs → bs ≠ [] → int16 (codes (hexdigest bs)) = Some (be_value 0 bs).
Proof.
  intros Hb Hne. pose proof (hexdigest_codes bs Hb) as Hh. unfold int16.
  rewrite strip_absent.
  2:{ apply hex_absent; [done|]. intros c Hc%hex_code_cases.
      apply orb_false_iff. rewrite !andb_false_iff, !Z.leb_gt. lia. }
  destruct bs as [|b bs]; [done|]. rewrite codes_hexdigest_cons in *.
  cbn [forallb] in Hh. rewrite !andb_true_iff in Hh. destruct Hh as (H1 & H2 & _).
  apply hex_code_cases in H1, H2. cbv zeta. cbn [next_is drop]. rewrite ?drop_0.
  rewrite !(proj2 (Z.eqb_neq (cp (hex_digit (b / 16))) 43)) by lia.
  cbn [next_is drop]. rewrite ?drop_0.
  rewrite (proj2 (Z.eqb_neq (cp (hex_digit (b mod 16))) 120)), (proj2 (Z.eqb_neq (cp (hex_digit (b mod 16))) 88)) by lia.
  rewrite andb_false_r, <- codes_hexdigest_cons. by apply hexdigest_value.
Qed.

(** [str(UUID(s)) == s] *)
Definition canonical_uuid (u : uuid) : bool := bool_decide (UUID (codes u) = Some u).

(** Every identifier's text is canonical. *)
Lemma uuid_text_canonical bs :
  Forall byte bs → length bs = 16%nat → canonical_uuid (uuid_text bs) = true.
Proof.
  intros Hb Hl. apply bool_decide_eq_true_2. rewrite codes_uuid_text.
  pose proof (uuid_codes_hex bs Hb) as Hh. unfold UUID. cbv zeta.
  assert (Hno : 117 ∉ uuid_codes bs).
  { intros H%list_elem_of_In. rewrite forallb_forall in Hh. apply Hh in H. vm_compute in H. done. }
  change (codes "urn:") with (117 :: [114; 110; 58]). change (codes "uuid:") with (117 :: [117; 105; 100; 58]).
  rewrite !(remove_sub_absent _ _ _ (uuid_codes bs)) by exact Hno. rewrite strip_absent.
  2:{ rewrite forallb_forall in *. intros x Hx%Hh.
      rewrite negb_true_iff, orb_false_iff, !Z.eqb_neq. split; intros ->; done. }
  rewrite uuid_codes_filter by done.
  assert (Hlen : length (codes (hexdigest bs)) = 32%nat).
  { rewrite codes_length. rewrite (proj1 (hexdigest_spec bs ltac:(by apply Forall_forall))). lia. }
  rewrite Hlen, int16_hexdigest by (try done; by intros ->). cbn [Nat.eqb fmap option_fmap option_map].
  by rewrite <- Hl, be_bytes_value.
Qed.

Lemma cursor_json_read j : ints_ok j = true → cursor_json (json_cursor j) = Some (embed j).
Proof.
  intros Hok. unfold cursor_json, json_cursor. rewrite b64_roundtrip by apply utf8_bytes.
  cbn [mbind option_bind]. by apply loads_utf8.
Qed.

(** ** The rows of canonical work *)

Section works.
Context (nfkc_casefold : string → string).

(** A row is stored under its identifier, at a version of a [BigInteger]
    column, with the index that its title has. *)
Definition row_ok (w : uuid) (r : WorkRow) : Prop :=
  work_id (item_of r) = w ∧ 1 <= row_version (item_of r) < 2 ^ 63 ∧
  normalize_title nfkc_casefold (title (item_of r)) = Ok (normalized_title r) ∧
  has_nul (normalized_title r) = false.

Definition WorksInv (d : TrackerDB) : Prop := map_Forall row_ok (works d).

Lemma bigint_bound z : bigint z = true ↔ - 2 ^ 63 <= z < 2 ^ 63.
Proof. unfold bigint. rewrite andb_true_iff, Z.leb_le, Z.ltb_lt. done. Qed.

Lemma work_create_cases now item d d' r :
  create nfkc_casefold now item d = (d', r) →
  (d' = d ∧ ∃ e, r = Err e) ∨
  ∃ n, let row := mkWorkRow (with_admitted (Some now) (with_version 1 item)) n in
    row_ok (work_id item) row ∧ row_version item = 1 ∧ works d !! work_id item = None ∧
    d' = with_works (<[work_id item := row]> (works d)) d ∧ r = Ok tt.
Proof.
  unfold create. destruct (negb (row_version item =? 1)) eqn:E1; [by intros [= <- <-]; left; eauto|].
  rewrite negb_false_iff, Z.eqb_eq in E1.
  change ((throw_if false ValueError "new canonical work must start at version 1";;
    transaction (create_locked nfkc_casefold now item)) d) with (transaction (create_locked nfkc_casefold now item) d).
  intros H. destruct r as [[]|e]; [|left; split; [by eapply transaction_err | by eexists]].
  right. rewrite transaction_ok in H. unfold create_locked, refuse_if in H. inv_M. injection H as <-. to_prop.
  match goal with H : normalize_title _ _ = Ok ?n |- _ => exists n end.
  unfold row_ok. cbn. split_and!; try done; try lia; try tauto.
  by destruct (works d !! work_id item).
Qed.

Lemma work_replace_cases item d d' r :
  WorksInv d → replace nfkc_casefold item d = (d', r) →
  (d' = d ∧ ∃ e, r = Err e) ∨
  ∃ n row, let item' := with_version (row_version item + 1) item in
    let row' := mkWorkRow (with_admitted (admitted_at (item_of row)) item') n in
    works d !! work_id item = Some row ∧ row_version (item_of row) = row_version item ∧
    row_ok (work_id item) row' ∧
    d' = with_works (<[work_id item := row']> (works d)) d ∧ r = Ok item'.
Proof.
  intros Hd H. destruct r as [item'|e]; [|left; split; [by eapply transaction_err | by eexists]].
  right. unfold replace in H. rewrite transaction_ok in H. unfold get_locked, get_in in H.
  apply M_bind_Ok in H as (s & o & [= <- <-] & H).
  destruct (works d !! work_id item) as [row|] eqn:Ew; cbn [fmap option_fmap option_map] in H; [|discriminate H].
  unfold replace_locked, refuse_if in H. inv_M. rewrite Ew in H. inv_M.
  match goal with H : put_st _ _ = _ |- _ => injection H as ? end. to_prop. subst.
  match goal with H : normalize_title _ _ = Ok ?n |- _ => exists n, row end.
  assert (Hb : bigint (row_version item + 1) = true) by tauto. apply bigint_bound in Hb.
  unfold row_ok. cbn. split_and!; try done; try lia; try tauto.
Qed.
End works.
