(* ===== verification/WorkEvents.v ===== *)
(** * The event stream of a work ([tracker/events.py])

    Events of one work are numbered from 1 without gaps; an append is fenced
    by the version of the work the caller observed, advances that version by
    one, and is identified by its operation, so that repeating it finds the
    event again.  Pages follow the numbers with a cursor that names the work.

    [uuid4()] is an argument.  A stored time is the instant: PostgreSQL
    returns it in UTC.  The exception [StaleWorkVersion] also carries the
    current version, which its callers do not read. *)

From stdpp Require Import pretty.
From S2P Require Import Prelude Tables Paging PyFloat Json Codec Tracker.

Local Open Scope Z_scope.

Record WorkEventPage := mkEventPage { page_events : list StoredWorkEvent; next_cursor : option string }.

Record AppendOutcome := mkAppended { out_event : StoredWorkEvent; out_row_version : Z; created : bool }.

(** ** Cursors *)

Definition _encode_cursor (work : uuid) (seq : Z) : string :=
  json_cursor (JArr [JInt 1; JStr work; JInt seq]).

(** [value == 1] and [isinstance(value, int)] of a JSON value: booleans are
    integers, and a float may equal one. *)
Definition equals_one (v : pyval) : bool :=
  match v with
  | PInt z => z =? 1
  | PBool b => b
  | PFloat f => match fcompare_Z f 1 with Some Eq => true | _ => false end
  | _ => false
  end.

Definition as_int (v : pyval) : option Z :=
  match v with PInt z => Some z | PBool b => Some (Z.b2z b) | _ => None end.

Definition _decode_cursor (cursor : string) (work : uuid) : res Z :=
  let invalid := raise ValueError "invalid work history cursor" in
  match cursor_json cursor with
  | Some (PList [v; w; n]) =>
      match as_int n with
      | Some z => if negb (equals_one v) || negb (is_text work w) || (z <? 1) then invalid else Ok z
      | None => invalid
      end
  | _ => invalid
  end.

(** ** Reads *)

Definition of_work (work : uuid) (e : StoredWorkEvent) : bool := eqb (e_work_id e) work.

Definition history (work : uuid) (d : TrackerDB) : list StoredWorkEvent :=
  List.filter (of_work work) (events d).

Definition page (work : uuid) (cursor : option string) (limit : Z) : M TrackerDB WorkEventPage :=
  throw_if (negb ((1 <=? limit) && (limit <=? 100))) ValueError "history limit must be between 1 and 100";;
  after ← lift (match cursor with None => Ok 0 | Some c => _decode_cursor c work end);
  refuse_if (negb (bigint after));;
  d ← get_st;
  let rows := Paging.page sequence Z.leb (S (Z.to_nat limit)) (Some after) (history work d) in
  let events := take (Z.to_nat limit) rows in
  let next :=
    if (Z.to_nat limit <? length rows)%nat
    then (λ e, _encode_cursor work (sequence e)) <$> last events else None in
  mret (mkEventPage events next).

Definition get (work event : uuid) : M TrackerDB (option StoredWorkEvent) := λ d,
  (d, one_or_none (List.filter (λ e, eqb (e_work_id e) work && eqb (e_id e) event) (events d))).

(** ** Append *)

(** [coalesce(max(sequence), 0) + 1] *)
Definition next_sequence (work : uuid) (d : TrackerDB) : Z :=
  foldr Z.max 0 (sequence <$> history work d) + 1.

Definition by_operation (op : uuid) (d : TrackerDB) : list StoredWorkEvent :=
  List.filter (λ e, eqb (operation_id e) (Some op)) (events d).

(** The columns of an append that must agree with a stored event. *)
Definition same_append (e : StoredWorkEvent) (work : uuid) (subtype : string) (text : option string)
    (created_at : datetime) (actor story : option string) : bool :=
  eqb (e_work_id e) work && eqb (e_subtype e) subtype && eqb (e_text e) text
  && (dt_us (e_created_at e) =? dt_us created_at) && eqb (e_actor e) actor
  && eqb (asana_story_gid e) story.

(** The unique constraints of [work_events] and its checks. *)
Definition event_conflict (e : StoredWorkEvent) (d : TrackerDB) : bool :=
  existsb (λ e', eqb (e_id e') (e_id e)
    || (eqb (e_work_id e') (e_work_id e) && (sequence e' =? sequence e))
    || (is_some (asana_story_gid e) && eqb (asana_story_gid e') (asana_story_gid e))
    || (is_some (operation_id e) && eqb (operation_id e') (operation_id e))) (events d)
  || (sequence e <? 1) || (result_version e <? 1).

(** What the columns and the driver accept. *)
Definition storable_event (e : StoredWorkEvent) : bool :=
  negb (has_nul (e_subtype e) || opt_nul (e_text e) || opt_nul (e_actor e) || opt_nul (asana_story_gid e))
  && bigint (sequence e) && bigint (result_version e).

Definition insert_event (e : StoredWorkEvent) : M TrackerDB StoredWorkEvent :=
  refuse_if (negb (storable_event e));;
  d ← get_st;
  throw_if (event_conflict e d) IntegrityError "work_events";;
  put_st (with_events (events d ++ [e]) d);;
  mret e.

(** The values of the inserted row. *)
Definition new_event (event_id work op : uuid) (subtype : string) (text : option string)
    (created_at : datetime) (actor story : option string) (version : Z) (d : TrackerDB) : StoredWorkEvent :=
  mkStoredEvent event_id work (next_sequence work d) (version + 1) subtype text
    (Datetime (dt_us created_at) (Some 0)) actor story (Some op).

Section append.
Context (event_id : uuid).

Definition append_locked (work : uuid) (observed_version : Z) (op : uuid) (subtype : string)
    (text : option string) (created_at : datetime) (actor story : option string)
  : M TrackerDB AppendOutcome :=
  throw_if (negb (truthy subtype) || has_nul subtype) ValueError "event subtype must be non-empty PostgreSQL text";;
  throw_if (opt_nul text) ValueError "event text contains a PostgreSQL text null character";;
  throw_if (negb (is_aware created_at)) ValueError "event creation time must include a timezone";;
  throw_if (match story with Some s => negb (truthy s) | None => false end) ValueError
    "historical story GID must be non-empty";;
  d ← get_st;
  match version_of work d with
  | None => throw UnknownWorkError "work does not exist"
  | Some version =>
      replay ← lift (one_or_none (by_operation op d));
      match replay with
      | Some event =>
          throw_if (negb (same_append event work subtype text created_at actor story))
            OperationConflictError "OperationId was reused with another append";;
          mret (mkAppended event (result_version event) false)
      | None =>
          throw_if (negb (version =? observed_version)) StaleWorkVersion "observed work version is stale";;
          let next_version := version + 1 in
          row ← insert_event (new_event event_id work op subtype text created_at actor story version d);
          set_version work next_version;;
          mret (mkAppended row next_version true)
      end
  end.

Definition append (work : uuid) (observed_version : Z) (op : uuid) (subtype : string)
    (text : option string) (created_at : datetime) (actor story : option string)
  : M TrackerDB AppendOutcome :=
  transaction (append_locked work observed_version op subtype text created_at actor story).
End append.

(** ** The stream of a work *)

(** What holds of the stored events: an event's work exists, the events of a
    work are numbered from 1 in the order of their insertion, each has the
    version it produced, never above the current one, and identifiers and
    operations are not reused. *)
Record EventsInv (d : TrackerDB) : Prop := {
  ei_work e : e ∈ events d → is_Some (version_of (e_work_id e) d);
  ei_numbers w : sequence <$> history w d = seqZ 1 (Z.of_nat (length (history w d)));
  ei_versions w : StronglySorted Z.lt (result_version <$> history w d);
  ei_bound e v : e ∈ events d → version_of (e_work_id e) d = Some v → 1 <= result_version e <= v;
  ei_ids : NoDup (e_id <$> events d);
  ei_ops : NoDup (operation_id <$> events d) }.

Lemma history_elem w d e : e ∈ history w d ↔ e ∈ events d ∧ e_work_id e = w.
Proof.
  unfold history. rewrite !list_elem_of_In, filter_In. unfold of_work. by rewrite eqb_true.
Qed.

Lemma history_snoc w d e :
  history w (with_events (events d ++ [e]) d) =
  history w d ++ (if of_work w e then [e] else []).
Proof. unfold history. cbn [events with_events]. rewrite List.filter_app. done. Qed.

Lemma max_last l n :
  (∀ x, x ∈ l → x <= n) → n ∈ l ∨ n = 0 → 0 <= n → foldr Z.max 0 l = n.
Proof.
  intros Hle Hin Hn. assert (Hup : foldr Z.max 0 l <= n).
  { clear Hin. induction l as [|x l IH]; [done|]. cbn.
    pose proof (Hle x ltac:(left)). specialize (IH ltac:(intros y Hy; apply Hle; by right)). lia. }
  assert (Hlo : ∀ x, x ∈ l → x <= foldr Z.max 0 l).
  { clear. induction l as [|y l IH]; intros x Hx; [by apply not_elem_of_nil in Hx|].
    apply elem_of_cons in Hx as [->|Hx]; cbn; [|specialize (IH x Hx)]; lia. }
  assert (0 <= foldr Z.max 0 l) by (clear; induction l as [|y l IH]; cbn; lia).
  destruct Hin as [Hin| ->]; [specialize (Hlo n Hin)|]; lia.
Qed.

(** The next number continues the stream. *)
Lemma next_sequence_length w d :
  EventsInv d → next_sequence w d = Z.of_nat (length (history w d)) + 1.
Proof.
  intros Hd. unfold next_sequence. f_equal. rewrite (ei_numbers d Hd).
  apply max_last; [| | lia].
  - intros x Hx%elem_of_seqZ. lia.
  - destruct (length (history w d)) as [|n]; [by right | left]. apply elem_of_seqZ. lia.
Qed.

(** The state an append leaves. *)
Definition appended (e : StoredWorkEvent) (d : TrackerDB) : TrackerDB :=
  with_works (alter (λ r, mkWorkRow (with_version (result_version e) (item_of r)) (normalized_title r))
    (e_work_id e) (works d)) (with_events (events d ++ [e]) d).

(** The checks on the arguments, and on the texts that are stored. *)
Definition append_args_ok (subtype : string) (text : option string) (created_at : datetime)
    (story : option string) : bool :=
  truthy subtype && negb (has_nul subtype) && negb (opt_nul text) && is_aware created_at
  && negb (match story with Some s => negb (truthy s) | None => false end).

Section append_facts.
Context (event_id work : uuid) (observed : Z) (op : uuid) (subtype : string) (text : option string)
  (created_at : datetime) (actor story : option string).
Let call : M TrackerDB AppendOutcome :=
  append event_id work observed op subtype text created_at actor story.
Let event (version : Z) (d : TrackerDB) : StoredWorkEvent :=
  new_event event_id work op subtype text created_at actor story version d.

(** Every way an append goes. *)
Lemma append_cases d d' r :
  call d = (d', r) →
  (d' = d ∧ ∃ e, r = Err e) ∨
  (d' = d ∧ ∃ e, by_operation op d = [e] ∧ is_Some (version_of work d) ∧
     same_append e work subtype text created_at actor story = true ∧
     r = Ok (mkAppended e (result_version e) false)) ∨
  (let e := event observed d in
   version_of work d = Some observed ∧ by_operation op d = [] ∧
   append_args_ok subtype text created_at story = true ∧ storable_event e = true ∧
   event_conflict e d = false ∧ d' = appended e d ∧ r = Ok (mkAppended e (observed + 1) true)).
Proof.
  unfold call, append. intros H. destruct r as [o|e].
  2:{ left. split; [by eapply transaction_err|]. by eexists. }
  right. rewrite transaction_ok in H. unfold append_locked in H. inv_M.
  destruct (version_of work d) as [version|] eqn:Ev; [|discriminate H]. inv_M.
  match goal with H : one_or_none _ = Ok ?o |- _ => rename H into Hrep; destruct o as [e|] end.
  - left. inv_M. apply one_or_none_Some in Hrep. split; [done|]. exists e.
    to_prop. split_and!; [done | by eexists | done | done].
  - right. apply one_or_none_None in Hrep. inv_M.
    match goal with H : negb (version =? observed) = false |- _ =>
      rewrite negb_false_iff, Z.eqb_eq in H; subst version end.
    fold (event observed d) in *. unfold insert_event, set_version, refuse_if in *. inv_M.
    repeat match goal with H : put_st _ _ = _ |- _ => injection H as ?; subst end.
    split_and!; [done | done | | by apply negb_false_iff | done | done | done].
    unfold append_args_ok. to_prop. tauto.
Qed.
End append_facts.

Lemma version_of_appended e d v w :
  version_of (e_work_id e) d = Some v →
  version_of w (appended e d) = if eqb w (e_work_id e) then Some (result_version e) else version_of w d.
Proof.
  unfold version_of. cbn [works appended with_works with_events]. intros Hv.
  destruct (eqb w (e_work_id e)) eqn:E.
  - rewrite eqb_true in E. subst w. rewrite lookup_alter_eq. by destruct (works d !! e_work_id e).
  - rewrite eqb_false in E. by rewrite lookup_alter_ne by done.
Qed.

Lemma history_appended w e d :
  history w (appended e d) = history w d ++ (if of_work w e then [e] else []).
Proof. apply history_snoc. Qed.

Lemma by_operation_nil op d : by_operation op d = [] → Some op ∉ operation_id <$> events d.
Proof.
  intros H (e & He & Hin)%list_elem_of_fmap.
  assert (Hf : e ∈ by_operation op d); [|rewrite H in Hf; by apply not_elem_of_nil in Hf].
  unfold by_operation. apply list_elem_of_In, filter_In. split; [by apply list_elem_of_In|].
  apply eqb_true. by symmetry.
Qed.

Lemma event_conflict_id e d : event_conflict e d = false → e_id e ∉ e_id <$> events d.
Proof.
  unfold event_conflict. rewrite !orb_false_iff, existsb_false. intros [[H _] _] (e' & He & Hin)%list_elem_of_fmap.
  specialize (H e' Hin). cbv beta in H. rewrite <- He, eqb_refl in H. done.
Qed.

Lemma sorted_snoc (l : list Z) x :
  StronglySorted Z.lt l → (∀ y, y ∈ l → y < x) → StronglySorted Z.lt (l ++ [x]).
Proof.
  intros Hl. induction Hl as [|y l _ IH Hy]; intros Hx; [repeat constructor|]. cbn. constructor.
  - apply IH. intros z Hz. apply Hx. by right.
  - apply Forall_app_2; [done|]. constructor; [apply Hx; left | constructor].
Qed.

Lemma EventsInv_appended e d v :
  EventsInv d → version_of (e_work_id e) d = Some v → 1 <= result_version e →
  sequence e = next_sequence (e_work_id e) d → result_version e = v + 1 →
  e_id e ∉ e_id <$> events d → operation_id e ∉ operation_id <$> events d →
  EventsInv (appended e d).
Proof.
  intros Hd Hv Hv1 Hseq Hres Hid Hop. split.
  - intros e' He'. rewrite (version_of_appended _ _ v) by done.
    destruct (eqb (e_work_id e') (e_work_id e)) eqn:E; [by eexists|]. cbn in He'.
    apply elem_of_snoc in He' as [He'| ->]; [by apply Hd | by rewrite eqb_refl in E].
  - intros w. rewrite history_appended. unfold of_work. destruct (eqb (e_work_id e) w) eqn:E.
    + rewrite eqb_true in E. subst w. rewrite fmap_app, length_app, (ei_numbers d Hd). cbn [length fmap list_fmap].
      rewrite Nat2Z.inj_add, seqZ_app by lia. f_equal. cbn [Z.of_nat].
      rewrite Hseq, next_sequence_length by done. change (Z.of_nat 1) with 1.
      rewrite seqZ_cons by lia. cbn. f_equal. lia.
    + rewrite app_nil_r. apply Hd.
  - intros w. rewrite history_appended. unfold of_work. destruct (eqb (e_work_id e) w) eqn:E.
    + rewrite eqb_true in E. subst w. rewrite fmap_app. apply sorted_snoc; [apply Hd|].
      intros y (e' & -> & [He' Hw]%history_elem)%list_elem_of_fmap.
      assert (result_version e' <= v) by (apply (ei_bound d Hd e' v He'); congruence). lia.
    + rewrite app_nil_r. apply Hd.
  - intros e' v'. rewrite (version_of_appended _ _ v) by done. cbn [events appended with_works with_events].
    intros He' Hv'. destruct (eqb (e_work_id e') (e_work_id e)) eqn:E.
    + injection Hv' as <-. rewrite eqb_true in E. apply elem_of_snoc in He' as [He'| ->]; [|lia].
      pose proof (ei_bound d Hd e' v He' ltac:(congruence)). lia.
    + apply elem_of_snoc in He' as [He'| ->]; [by apply (ei_bound d Hd) | by rewrite eqb_refl in E].
  - apply NoDup_snoc; [apply Hd|]. intros y Hy E. apply Hid. rewrite <- E. by apply list_elem_of_fmap_2.
  - apply NoDup_snoc; [apply Hd|]. intros y Hy E. apply Hop. rewrite <- E. by apply list_elem_of_fmap_2.
Qed.

(** ** Pages follow the numbers *)

Lemma history_lookup w d i e :
  EventsInv d → history w d !! i = Some e → sequence e = Z.of_nat i + 1.
Proof.
  intros Hd Hi. pose proof (ei_numbers d Hd w) as Hn.
  assert (H : (sequence <$> history w d) !! i = Some (sequence e)) by (by rewrite list_lookup_fmap, Hi).
  rewrite Hn in H. apply lookup_seqZ in H as [-> _]. lia.
Qed.

Lemma history_keys w d : EventsInv d → NoDup (sequence <$> history w d).
Proof. intros Hd. rewrite (ei_numbers d Hd). apply NoDup_seqZ. Qed.

(** Rows of increasing numbers are sorted by number. *)
Lemma seqZ_sorted (l : list StoredWorkEvent) a n :
  sequence <$> l = seqZ a n → StronglySorted (klt sequence Z.leb) l.
Proof.
  revert a n. induction l as [|x l IH]; intros a n H; [constructor|].
  destruct (Z.le_gt_cases n 0) as [Hn|Hn]; [by rewrite seqZ_nil in H by lia|].
  rewrite seqZ_cons in H by lia. injection H as Hx Hl. constructor; [by eapply IH|].
  apply Forall_forall. intros y Hy. unfold klt. apply Z.leb_gt. rewrite Hx.
  assert (Hs : sequence y ∈ sequence <$> l) by (by apply list_elem_of_fmap_2).
  assert (Hl' : sequence <$> l = seqZ (Z.succ a) (Z.pred n)) by exact Hl. rewrite Hl' in Hs.
  apply elem_of_seqZ in Hs. lia.
Qed.

Lemma sorted_drop {A} (R : A → A → Prop) k l : StronglySorted R l → StronglySorted R (drop k l).
Proof.
  intros Hl. revert k. induction Hl as [|x l Hl IH Hx]; intros [|k]; cbn; [constructor.. | by constructor |].
  apply IH.
Qed.

Lemma following_history w d k :
  EventsInv d → 0 <= k →
  following sequence Z.leb (Some k) (history w d) = drop (Z.to_nat k) (history w d).
Proof.
  intros Hd Hk. apply (sorted_unique sequence Z.leb).
  - apply following_sorted; [apply _ | by apply history_keys].
  - apply sorted_drop. eapply seqZ_sorted, Hd.
  - intros x. rewrite following_elem. unfold after. rewrite !list_elem_of_lookup. split.
    + intros [[i Hi] Ha]. pose proof (history_lookup w d i x Hd Hi) as Hx.
      rewrite negb_true_iff, Z.leb_gt in Ha. exists (i - Z.to_nat k)%nat. rewrite lookup_drop.
      rewrite <- Hi. f_equal. lia.
    + intros [i Hi]. rewrite lookup_drop in Hi. split; [by eexists|].
      apply (history_lookup w d _ x Hd) in Hi. rewrite negb_true_iff, Z.leb_gt. lia.
Qed.

(** A page after [k] events. *)
Lemma page_at w d c k limit :
  EventsInv d → 1 <= limit <= 100 → 0 <= k < 2 ^ 63 →
  match c with None => k = 0 | Some c => _decode_cursor c w = Ok k end →
  page w c limit d =
    (d, Ok (mkEventPage (take (Z.to_nat limit) (drop (Z.to_nat k) (history w d)))
      (if k + limit <? Z.of_nat (length (history w d))
       then Some (_encode_cursor w (k + limit)) else None))).
Proof.
  intros Hd Hl Hk Hc. unfold page.
  assert (Hlim : (1 <=? limit) && (limit <=? 100) = true) by (rewrite andb_true_iff, !Z.leb_le; lia).
  rewrite Hlim.
  assert (Hcur : match c with None => Ok 0 | Some c => _decode_cursor c w end = Ok k)
    by (destruct c; [done | by rewrite Hc]).
  rewrite Hcur. assert (Hbig : bigint k = true).
  { unfold bigint. rewrite andb_true_iff, Z.leb_le, Z.ltb_lt. lia. }
  unfold refuse_if, throw_if, mbind, M_bind, lift, get_st, mret, M_ret. cbn beta iota zeta. rewrite Hbig.
  cbn [negb]. cbn beta iota zeta.
  unfold Paging.page. rewrite following_history by (done || lia).
  set (n := Z.to_nat limit). set (r := drop (Z.to_nat k) (history w d)).
  rewrite take_take, Nat.min_l by lia. do 3 f_equal.
  assert (Hlen : (n <? length (take (S n) r))%nat = (k + limit <? Z.of_nat (length (history w d)))).
  { rewrite length_take. subst r n. rewrite length_drop.
    destruct (Nat.ltb_spec (Z.to_nat limit) (S (Z.to_nat limit) `min` (length (history w d) - Z.to_nat k))),
      (Z.ltb_spec (k + limit) (Z.of_nat (length (history w d)))); lia || done. }
  rewrite Hlen. destruct (Z.ltb_spec (k + limit) (Z.of_nat (length (history w d)))) as [Hlt|_]; [|done].
  destruct (history w d !! (Z.to_nat k + (n - 1))%nat) as [e|] eqn:E.
  2:{ apply lookup_ge_None in E. subst n. lia. }
  rewrite last_lookup, length_take_le by (subst r n; rewrite length_drop; lia).
  rewrite lookup_take_lt by (subst n; lia). subst r. rewrite lookup_drop.
  replace (Nat.pred n) with (n - 1)%nat by lia. rewrite E. cbn.
  rewrite (history_lookup w d _ e Hd E). do 2 f_equal. subst n. lia.
Qed.

(** The cursor of a number is read back for its work, and for no other. *)
Lemma cursor_read w w' n :
  1 <= n < 2 ^ 63 →
  _decode_cursor (_encode_cursor w n) w' =
    if eqb w w' then Ok n else raise ValueError "invalid work history cursor".
Proof.
  intros Hn. unfold _decode_cursor, _encode_cursor. rewrite cursor_json_read.
  2:{ cbn [ints_ok forallb]. rewrite !andb_true_iff, !Z.leb_le. pose proof (pretty_bound n ltac:(lia)).
      split_and!; try done; lia. }
  cbn [embed map as_int equals_one is_text].
  change (equals_one (PInt 1)) with true. rewrite (proj2 (Z.ltb_ge n 1)) by lia.
  cbn [negb orb]. rewrite orb_false_r.
  assert (Heq : eqb (codes w) (codes w') = eqb w w').
  { destruct (eqb w w') eqn:E; [rewrite eqb_true in E; subst; apply eqb_refl|].
    rewrite eqb_false in E. rewrite eqb_false. intros Hc%codes_inj. exact (E Hc). }
  rewrite Heq. by destruct (eqb w w').
Qed.

Lemma _decode_cursor_sound c w :
  match _decode_cursor c w with
  | Ok n => 1 <= n
  | Err e => e = Exn ValueError "invalid work history cursor"
  end.
Proof.
  unfold _decode_cursor.
  destruct (cursor_json c) as [[| | | | | [|v [|u [|n [|]]]] |]|]; try reflexivity.
  destruct (as_int n) as [z|]; [|reflexivity].
  destruct (negb (equals_one v) || negb (is_text w u)); [reflexivity|]. cbn [orb].
  destruct (Z.ltb_spec z 1); [reflexivity | done].
Qed.

(** A reader that follows the cursors, one page in each of the states [ds]. *)
Fixpoint follow (w : uuid) (limit : Z) (c : option string) (ds : list TrackerDB) : list StoredWorkEvent :=
  match ds with
  | [] => []
  | d :: ds' =>
      match (page w c limit d).2 with
      | Ok p =>
          page_events p ++
            match next_cursor p with Some c' => follow w limit (Some c') ds' | None => [] end
      | Err _ => []
      end
  end.

Lemma take_of_prefix {A} (l1 l2 : list A) k : l1 `prefix_of` l2 → (k <= length l1)%nat → take k l2 = take k l1.
Proof. intros [r ->] Hk. by rewrite take_app_le. Qed.

Lemma prefix_within {A} (l1 l2 : list A) k :
  l1 `prefix_of` l2 → (length l1 <= k)%nat → l1 `prefix_of` take k l2.
Proof. intros [r ->] Hk. rewrite take_app_ge by done. by apply prefix_app_r. Qed.

(** Whatever is appended between its pages, the reader sees a prefix of the
    stream without gap or repetition, and all that was there at the start once
    it may read that many. *)
Lemma follow_spec w limit first final ds :
  1 <= limit <= 100 → Z.of_nat (length final) < 2 ^ 63 →
  (∀ d, d ∈ ds → EventsInv d ∧ first `prefix_of` history w d ∧ history w d `prefix_of` final) →
  ∀ c k, match c with None => k = 0 | Some c => _decode_cursor c w = Ok k end → 0 <= k <= Z.of_nat (length final) →
  first `prefix_of` final →
  take (Z.to_nat k) final ++ follow w limit c ds `prefix_of` final ∧
  (Z.of_nat (length first) <= k + limit * Z.of_nat (length ds) →
   first `prefix_of` take (Z.to_nat k) final ++ follow w limit c ds).
Proof.
  intros Hlim Hlen. induction ds as [|d ds IH]; intros Hds c k Hc Hk Hff.
  { cbn [follow length]. rewrite app_nil_r. split; [apply prefix_take|]. intros Hl. apply prefix_within; [done | lia]. }
  destruct (Hds d ltac:(left)) as (Hd & Hfirst & Hfinal).
  pose proof (prefix_length _ _ Hfinal) as Hlen'. pose proof (prefix_length _ _ Hfirst) as Hlen''.
  cbn [follow]. rewrite (page_at w d c k limit Hd Hlim ltac:(lia) Hc). cbn [snd page_events next_cursor].
  set (K := Z.to_nat k) in *. set (L := Z.to_nat limit).
  destruct (Z.ltb_spec (k + limit) (Z.of_nat (length (history w d)))) as [Hlt|Hge].
  - assert (Htake : take L (drop K (history w d)) = take L (drop K final)).
    { rewrite !take_drop_commute, (take_of_prefix _ _ (K + L) Hfinal) by (subst K L; lia). done. }
    rewrite Htake, app_assoc, take_take_drop.
    replace (K + L)%nat with (Z.to_nat (k + limit)) by (subst K L; lia).
    destruct (IH ltac:(intros d' Hd'; apply Hds; by right) (Some (_encode_cursor w (k + limit))) (k + limit)) as [H1 H2].
    + rewrite cursor_read by lia. by rewrite eqb_refl.
    + lia.
    + done.
    + split; [done|]. intros Hl. apply H2. cbn [length] in Hl. lia.
  - rewrite app_nil_r. rewrite (take_ge (drop K (history w d)) L) by (rewrite length_drop; subst K L; lia).
    destruct (Nat.le_gt_cases K (length (history w d))) as [HK|HK].
    + rewrite (take_of_prefix _ _ K Hfinal HK), take_drop. done.
    + rewrite drop_ge, app_nil_r by lia. split; [apply prefix_take|]. intros _. apply prefix_within; [done | lia].
Qed.

(** ** What an append does *)

Lemma append_inv event_id work observed op subtype text created_at actor story d :
  let e := new_event event_id work op subtype text created_at actor story observed d in
  EventsInv d → version_of work d = Some observed → by_operation op d = [] →
  event_conflict e d = false → EventsInv (appended e d).
Proof.
  intros e Hd Hv Hop Hc. apply (EventsInv_appended e d observed); try done.
  - unfold event_conflict in Hc. rewrite !orb_false_iff, !Z.ltb_ge in Hc. apply Hc.
  - by apply event_conflict_id.
  - by apply by_operation_nil.
Qed.

Lemma by_operation_one op d e : by_operation op d = [e] → e ∈ events d ∧ operation_id e = Some op.
Proof. intros [? H]%filter_one. by rewrite eqb_true in H. Qed.

Lemma append_runs event_id work observed op subtype text created_at actor story d :
  let e := new_event event_id work op subtype text created_at actor story observed d in
  append_args_ok subtype text created_at story = true → version_of work d = Some observed →
  by_operation op d = [] → storable_event e = true → event_conflict e d = false →
  append event_id work observed op subtype text created_at actor story d =
    (appended e d, Ok (mkAppended e (observed + 1) true)).
Proof.
  intros e Hargs Hv Hop Hst Hc. unfold append_args_ok in Hargs. rewrite !andb_true_iff, !negb_true_iff in Hargs.
  destruct Hargs as ((((Ha1 & Ha2) & Ha3) & Ha4) & Ha5).
  apply transaction_ok. unfold append_locked, throw_if, mbind, M_bind.
  rewrite Ha1, Ha2, Ha3, Ha4, Ha5. cbn [negb orb get_st]. rewrite Hv, Hop. cbn [one_or_none lift].
  rewrite Z.eqb_refl. cbn [negb]. fold e. unfold insert_event, refuse_if, throw_if, mbind, M_bind. rewrite Hst.
  cbn [negb get_st]. rewrite Hc. unfold set_version, refuse_if, throw_if, mbind, M_bind.
  cbn [put_st]. assert (Hb : bigint (observed + 1) = true).
  { unfold storable_event in Hst. rewrite !andb_true_iff in Hst. apply Hst. }
  rewrite Hb. done.
Qed.

(** Whatever is asked, an append refuses without effect, or finds the event
    of its operation again without effect, or adds exactly one event: the
    asked one, numbered next in the work's stream, at the observed version,
    which was current and advances by one; other works keep their version and
    stream.  A well-formed append of an unused operation at the current
    version succeeds. *)
Theorem append_spec event_id work observed op subtype text created_at actor story d d' r :
  EventsInv d →
  append event_id work observed op subtype text created_at actor story d = (d', r) →
  EventsInv d' ∧
  match r with
  | Err _ => d' = d
  | Ok o =>
      let e := out_event o in
      same_append e work subtype text created_at actor story = true ∧ operation_id e = Some op ∧
      out_row_version o = result_version e ∧
      if created o then
        version_of work d = Some observed ∧ version_of work d' = Some (observed + 1) ∧
        result_version e = observed + 1 ∧ history work d' = history work d ++ [e] ∧
        sequence e = Z.of_nat (length (history work d)) + 1 ∧ (Some op ∉ (operation_id <$> events d)) ∧
        ∀ w, w ≠ work → version_of w d' = version_of w d ∧ history w d' = history w d
      else d' = d ∧ e ∈ history work d
  end ∧
  (let e := new_event event_id work op subtype text created_at actor story observed d in
   append_args_ok subtype text created_at story = true → version_of work d = Some observed →
   by_operation op d = [] → storable_event e = true → event_conflict e d = false →
   r = Ok (mkAppended e (observed + 1) true)).
Proof.
  intros Hd H. split; [|split].
  - destruct (append_cases _ _ _ _ _ _ _ _ _ _ _ _ H) as [[-> _]|[[-> _]|(Hv & Hop & _ & _ & Hc & -> & _)]]; [done..|].
    by apply append_inv.
  - destruct (append_cases _ _ _ _ _ _ _ _ _ _ _ _ H) as [[-> [e ->]]|[(-> & e & Hop & _ & Hs & ->)|
      (Hv & Hop & _ & _ & Hc & -> & ->)]]; [done | |].
    + apply by_operation_one in Hop as [He Ho]. cbn. split_and!; try done.
      apply history_elem. split; [done|]. unfold same_append in Hs. rewrite !andb_true_iff, !eqb_true in Hs. apply Hs.
    + set (e := new_event _ _ _ _ _ _ _ _ _ _). cbn [out_event out_row_version created].
      assert (Hw : e_work_id e = work) by done. split_and!; try done.
      * unfold same_append. cbn [e new_event e_work_id e_subtype e_text e_created_at e_actor asana_story_gid dt_us].
        rewrite !eqb_refl, Z.eqb_refl. done.
      * rewrite (version_of_appended _ _ observed) by done. by rewrite Hw, eqb_refl.
      * rewrite history_appended. unfold of_work. by rewrite Hw, eqb_refl.
      * by apply next_sequence_length.
      * by apply by_operation_nil.
      * intros w Hne. rewrite history_appended, (version_of_appended _ _ observed) by done. unfold of_work. rewrite Hw.
        rewrite (proj2 (eqb_false w work)) by done. rewrite (proj2 (eqb_false work w)) by done. by rewrite app_nil_r.
  - intros e Hargs Hv Hop Hst Hc. pose proof (append_runs _ _ _ _ _ _ _ _ _ _ Hargs Hv Hop Hst Hc) as Hr.
    rewrite Hr in H. by injection H as <- <-.
Qed.

(** C36: a cursor carries the number it was made for, for its work alone, and
    whatever text is sent as one, the answer is a positive number or the one
    refusal. *)
Theorem history_cursor_roundtrip w w' n c :
  1 <= n < 2 ^ 63 →
  _decode_cursor (_encode_cursor w n) w' =
    (if eqb w w' then Ok n else raise ValueError "invalid work history cursor") ∧
  match _decode_cursor c w with
  | Ok m => 1 <= m
  | Err e => e = Exn ValueError "invalid work history cursor"
  end.
Proof. intros Hn. split; [by apply cursor_read | apply _decode_cursor_sound]. Qed.

(** ** Instances *)

Lemma EventsInv_none d : events d = [] → EventsInv d.
Proof.
  intros H. assert (Hh : ∀ w, history w d = []) by (intros w; unfold history; by rewrite H).
  split; rewrite ?H; try setoid_rewrite Hh; cbn; try constructor; intros; by match goal with H : _ ∈ [] |- _ => apply not_elem_of_nil in H end.
Qed.

Definition ex_id (n : Z) : uuid := uuid_text (Sha.be_bytes 16 n).
Definition ex_work (w : uuid) (t : string) : CurrentWork :=
  mkWork w t false "" 1 None None (Some "Task") None None None None None None None None None None.
Definition ex_time : datetime := Datetime 1700000000000000 (Some 0).
Definition ex_db : TrackerDB :=
  mkTracker {[ex_id 1 := mkWorkRow (ex_work (ex_id 1) "one") "one"]} ∅ [] ∅ ∅ ∅ ∅.
Definition ex_append : M TrackerDB AppendOutcome :=
  append (ex_id 8) (ex_id 1) 1 (ex_id 9) "comment_added" (Some "hello") ex_time (Some "agent") None.

Lemma append_spec_witness :
  EventsInv (ex_append ex_db).1 ∧ is_ok (ex_append ex_db).2 = true ∧
  (e_text <$> history (ex_id 1) (ex_append ex_db).1) = [Some "hello"%string].
Proof.
  split; [|split; vm_compute; reflexivity].
  pose proof (append_spec (ex_id 8) (ex_id 1) 1 (ex_id 9) "comment_added" (Some "hello"%string) ex_time
    (Some "agent"%string) None ex_db _ _ (EventsInv_none ex_db eq_refl) (surjective_pairing (ex_append ex_db))) as H.
  exact (proj1 H).
Defined.

Lemma history_cursor_roundtrip_witness :
  _decode_cursor (_encode_cursor (ex_id 1) 7) (ex_id 1) = Ok 7 ∧
  _decode_cursor (_encode_cursor (ex_id 1) 7) (ex_id 2) = raise ValueError "invalid work history cursor".
Proof.
  split.
  - pose proof (proj1 (history_cursor_roundtrip (ex_id 1) (ex_id 1) 7 "" ltac:(lia))) as H.
    rewrite eqb_refl in H. exact H.
  - exact (proj1 (history_cursor_roundtrip (ex_id 1) (ex_id 2) 7 "" ltac:(lia))).
Defined.
