(* ===== verification/WorkRelations.v ===== *)
(** * Relations and placements of work ([tracker/relations.py])

    Parents, dependencies and project memberships of canonical work.  Every
    change is fenced by the observed version of the work and advances it only
    when something changed.  Parents form a forest: [set_parent] walks up from
    the new parent with a recursive query, which answers because the stored
    relation has no cycle.

    [SHARE ROW EXCLUSIVE] on [work_parents] and the row locks are the
    atomicity of an operation. *)

From S2P Require Import Prelude Tables Paging Json Codec Tracker.

Local Open Scope Z_scope.

Record ProjectPlacement := mkPlacement {
  pl_project_id : uuid; pl_name : string; pl_gid : option string; pl_section : option string }.

Record WorkRelations := mkRelations {
  parent_work_id : option uuid; dependency_work_ids : list uuid; placements : list ProjectPlacement }.

Definition _locked_version (work : uuid) (observed : Z) : M TrackerDB Z :=
  d ← get_st;
  match version_of work d with
  | None => throw LookupError "canonical work does not exist"
  | Some v =>
      throw_if (negb (v =? observed)) ValueError "stale canonical work version";;
      mret v
  end.

Definition _bump (work : uuid) (version : Z) : M TrackerDB Z :=
  set_version work (version + 1);;
  mret (version + 1).

(** ** Reads *)
Section reads.
Context (coll : list Z → list Z → bool).

Definition placement_key (p : ProjectPlacement) : list Z * uuid := (codes (pl_name p), pl_project_id p).

(** [projects JOIN project_memberships] of a work. *)
Definition placements_of (work : uuid) (d : TrackerDB) : list ProjectPlacement :=
  omap (λ '((p, w), section),
    if eqb w work
    then (λ pr, mkPlacement p (project_name pr) (asana_project_gid pr) section) <$> projects d !! p
    else None) (map_to_list (memberships d)).

Definition get (work : uuid) : M TrackerDB WorkRelations :=
  d ← get_st;
  throw_if (is_none (works d !! work)) LookupError "canonical work does not exist";;
  mret (mkRelations (parents d !! work)
    (py_sort str_leb (map snd (List.filter (λ wd, eqb wd.1 work) (elements (dependencies d)))))
    (py_sort (λ a b, lex_leb coll str_leb (placement_key a) (placement_key b)) (placements_of work d))).
End reads.

(** ** Parents *)

(** The recursive query: up from [at_] until [child] is met or a work has no
    parent; [None] when [n] steps were not enough. *)
Fixpoint ancestor_search (n : nat) (m : gmap uuid uuid) (at_ child : uuid) : option bool :=
  match n with
  | O => None
  | S n =>
      if eqb at_ child then Some true
      else match m !! at_ with
           | None => Some false
           | Some p => ancestor_search n m p child
           end
  end.

(** Rows of the table bound the walk (see [search_ends]). *)
Definition walk_fuel (m : gmap uuid uuid) : nat := S (size m).

Definition check_parent (work parent : uuid) : M TrackerDB unit :=
  d ← get_st;
  throw_if (is_none (works d !! parent)) LookupError "parent work does not exist";;
  match ancestor_search (walk_fuel (parents d)) (parents d) parent work with
  | None => throw OtherError "the recursive query does not end"
  | Some cycle => throw_if cycle ValueError "parent relation would create a cycle"
  end.

(** [set_parent] inside the caller's transaction. *)
Definition set_parent_in (work : uuid) (parent : option uuid) (observed : Z) : M TrackerDB Z :=
  throw_if (eqb parent (Some work)) ValueError "work cannot parent itself";;
  version ← _locked_version work observed;
  d ← get_st;
  if eqb (parents d !! work) parent then mret version
  else
    (match parent with Some p => check_parent work p | None => mret tt end);;
    put_st (with_parents (match parent with
      | Some p => <[work := p]> (delete work (parents d))
      | None => delete work (parents d)
      end) d);;
    _bump work version.

Definition set_parent (work : uuid) (parent : option uuid) (observed : Z) : M TrackerDB Z :=
  transaction (set_parent_in work parent observed).

(** ** Dependencies *)

Definition change_dependency_in (work depends_on : uuid) (add : bool) (observed : Z) : M TrackerDB Z :=
  throw_if (eqb depends_on work) ValueError "work cannot depend on itself";;
  version ← _locked_version work observed;
  d ← get_st;
  throw_if (is_none (works d !! depends_on)) LookupError "dependency work does not exist";;
  if Bool.eqb (bool_decide ((work, depends_on) ∈ dependencies d)) add then mret version
  else
    put_st (with_dependencies
      (if add then {[(work, depends_on)]} ∪ dependencies d else dependencies d ∖ {[(work, depends_on)]}) d);;
    _bump work version.

Definition change_dependency (work depends_on : uuid) (add : bool) (observed : Z) : M TrackerDB Z :=
  transaction (change_dependency_in work depends_on add observed).

(** ** Project membership *)

Definition change_project_membership_in (work project : uuid) (add : bool) (observed : Z) : M TrackerDB Z :=
  version ← _locked_version work observed;
  d ← get_st;
  throw_if (is_none (projects d !! project)) LookupError "project does not exist";;
  if Bool.eqb (is_some (memberships d !! (project, work))) add then mret version
  else
    put_st (with_memberships
      (if add then <[(project, work) := None]> (memberships d) else delete (project, work) (memberships d)) d);;
    d' ← get_st;
    throw_if (negb (Bool.eqb (is_some (memberships d' !! (project, work))) add)) SQLAlchemyError
      "project membership readback did not converge";;
    _bump work version.

Definition change_project_membership (work project : uuid) (add : bool) (observed : Z) : M TrackerDB Z :=
  transaction (change_project_membership_in work project add observed).

(** ** Forests *)

Definition is_parent (m : gmap uuid uuid) (x p : uuid) : Prop := m !! x = Some p.

Definition acyclic (m : gmap uuid uuid) : Prop := ∀ x, ¬ tc (is_parent m) x x.

Lemma acyclic_subset m m' : m' ⊆ m → acyclic m → acyclic m'.
Proof.
  intros Hsub Hm x Hx. apply (Hm x). revert Hx. generalize x at 2 4. intros y Hx.
  induction Hx as [a b Hab | a b c Hab _ IH].
  - apply tc_once. by eapply lookup_weaken.
  - eapply tc_l; [|exact IH]. by eapply lookup_weaken.
Qed.

(** The query only looks at what it can reach. *)
Lemma search_delete n m x y c :
  ¬ rtc (is_parent m) y x → ancestor_search n (delete x m) y c = ancestor_search n m y c.
Proof.
  revert y. induction n as [|n IH]; intros y Hy; [done|]. cbn. destruct (eqb y c); [done|].
  assert (y ≠ x) by (intros ->; apply Hy, rtc_refl).
  rewrite lookup_delete_ne by done. destruct (m !! y) as [p|] eqn:E; [|done].
  apply IH. intros Hp. apply Hy. by eapply rtc_l.
Qed.

(** The recursive query ends. *)
Lemma search_ends n m x c : acyclic m → (size m < n)%nat → ancestor_search n m x c ≠ None.
Proof.
  revert m x. induction n as [|n IH]; intros m x Hm Hn; [lia|]. cbn. destruct (eqb x c); [done|].
  destruct (m !! x) as [p|] eqn:E; [|done].
  rewrite <- (search_delete n m x p c).
  - apply IH; [eapply acyclic_subset; [apply delete_subseteq | done] |].
    assert (size m ≠ 0)%nat by (rewrite map_size_non_empty_iff; intros ->; by rewrite lookup_empty in E).
    rewrite map_size_delete_Some by by eexists. lia.
  - intros Hp. apply (Hm x). by eapply tc_rtc_r; [apply tc_once|].
Qed.

(** What it answers. *)
Lemma search_true n m x c : ancestor_search n m x c = Some true → rtc (is_parent m) x c.
Proof.
  revert x. induction n as [|n IH]; intros x; [done|]. cbn.
  destruct (eqb x c) eqn:E. { intros _. rewrite eqb_true in E. subst. apply rtc_refl. }
  destruct (m !! x) as [p|] eqn:Ex; [|done]. intros H%IH. by eapply rtc_l.
Qed.

Lemma search_false n m x c : ancestor_search n m x c = Some false → ¬ rtc (is_parent m) x c.
Proof.
  revert x. induction n as [|n IH]; intros x; [done|]. cbn.
  destruct (eqb x c) eqn:E; [done|]. rewrite eqb_false in E.
  destruct (m !! x) as [p|] eqn:Ex.
  - intros H%IH Hx. apply H. inversion Hx as [|? y ? Hy Hr]; subst; [done|].
    unfold is_parent in Hy. by simplify_eq.
  - intros _ Hx. inversion Hx as [|? y ? Hy Hr]; subst; [done|]. unfold is_parent in Hy. congruence.
Qed.

(** A path in a table with one more edge, split at its uses of the edge. *)
Lemma insert_path m w p a b :
  m !! w = None → rtc (is_parent (<[w := p]> m)) a b →
  rtc (is_parent m) a b ∨ rtc (is_parent m) a w ∧ rtc (is_parent m) p b.
Proof.
  intros Hw Hab. induction Hab as [a | a a1 b Hstep _ IH]; [left; apply rtc_refl|].
  unfold is_parent in Hstep at 1. rewrite lookup_insert_Some in Hstep.
  destruct Hstep as [[<- <-]|[_ Hstep]].
  - right. split; [apply rtc_refl|]. by destruct IH as [?|[_ ?]].
  - destruct IH as [?|[? ?]]; [left | right; split; [|done]]; by eapply rtc_l.
Qed.

(** An edge to a work that does not descend from the child closes no cycle. *)
Lemma acyclic_insert m w p :
  acyclic m → m !! w = None → ¬ rtc (is_parent m) p w → acyclic (<[w := p]> m).
Proof.
  intros Hm Hw Hp x Hx. assert (∃ y, is_parent (<[w := p]> m) x y ∧ rtc (is_parent (<[w := p]> m)) y x) as (y & Hxy & Hyx).
  { inversion Hx; subst; eexists; (split; [done|]); [apply rtc_refl | by apply tc_rtc]. }
  unfold is_parent in Hxy at 1. rewrite lookup_insert_Some in Hxy.
  apply insert_path in Hyx; [|done].
  destruct Hxy as [[<- <-]|[_ Hxy]].
  - by destruct Hyx as [?|[? ?]].
  - destruct Hyx as [Hyx|[Hyw Hpx]].
    + apply (Hm x). eapply tc_rtc_r; [by apply tc_once | done].
    + apply Hp. etrans; [exact Hpx|]. by eapply rtc_l.
Qed.

Lemma acyclic_empty : acyclic ∅.
Proof. intros x Hx. inversion Hx as [? ? H|? ? ? H]; unfold is_parent in H; by rewrite lookup_empty in H. Qed.

(** ** What the relations satisfy *)

(** Foreign keys, checks, and that parents form a forest. *)
Record RelInv (d : TrackerDB) : Prop := {
  ri_forest : acyclic (parents d);
  ri_parents w p : parents d !! w = Some p → is_Some (works d !! w) ∧ is_Some (works d !! p);
  ri_dependencies w x : (w, x) ∈ dependencies d → w ≠ x ∧ is_Some (works d !! w) ∧ is_Some (works d !! x);
  ri_memberships p w s : memberships d !! (p, w) = Some s → is_Some (projects d !! p) ∧ is_Some (works d !! w) }.

(** The state after a change of a work's relations. *)
Definition bumped (w : uuid) (v : Z) (d : TrackerDB) : TrackerDB :=
  with_works (alter (λ r, mkWorkRow (with_version v (item_of r)) (normalized_title r)) w (works d)) d.

Lemma version_of_bumped w v u x d :
  version_of w d = Some u → version_of x (bumped w v d) = if eqb x w then Some v else version_of x d.
Proof.
  unfold version_of. cbn [works bumped with_works]. intros Hv. destruct (eqb x w) eqn:E.
  - rewrite eqb_true in E. subst x. rewrite lookup_alter_eq. by destruct (works d !! w).
  - rewrite eqb_false in E. by rewrite lookup_alter_ne by done.
Qed.

Lemma works_bumped w v x d : is_Some (works (bumped w v d) !! x) ↔ is_Some (works d !! x).
Proof. cbn. by rewrite lookup_alter_is_Some. Qed.

(** An invariant that only asks which works exist. *)
Lemma RelInv_works d d' :
  RelInv d → parents d' = parents d → dependencies d' = dependencies d → projects d ⊆ projects d' →
  memberships d' = memberships d → (∀ x, is_Some (works d !! x) → is_Some (works d' !! x)) → RelInv d'.
Proof.
  intros Hd Hp Hdep Hpr Hm Hw. split; rewrite ?Hp, ?Hdep, ?Hm.
  - apply Hd.
  - intros w p H. apply (ri_parents d Hd) in H as [? ?]. auto.
  - intros w x H. apply (ri_dependencies d Hd) in H as (? & ? & ?). auto.
  - intros p w s H. apply (ri_memberships d Hd) in H as [[pr ?] ?]. split; [|auto]. exists pr. by eapply lookup_weaken.
Qed.

Lemma RelInv_bumped w v d : RelInv d → RelInv (bumped w v d).
Proof. intros Hd. apply (RelInv_works d); try done. intros x Hx. by apply works_bumped. Qed.

(** The new table of parents. *)
Definition new_parents (w : uuid) (p : option uuid) (d : TrackerDB) : gmap uuid uuid :=
  match p with Some q => <[w := q]> (delete w (parents d)) | None => delete w (parents d) end.

(** A parent may be set when it exists and is not below the work. *)
Definition may_parent (w : uuid) (p : option uuid) (d : TrackerDB) : Prop :=
  ∀ q, p = Some q → is_Some (works d !! q) ∧ ¬ rtc (is_parent (parents d)) q w.

Lemma check_parent_run w q d :
  RelInv d →
  (may_parent w (Some q) d ∧ check_parent w q d = (d, Ok tt)) ∨
  (¬ may_parent w (Some q) d ∧ ∃ c m, check_parent w q d = (d, Err (Exn c m)) ∧ c ≠ OtherError).
Proof.
  intros Hd. unfold check_parent, mbind, M_bind, throw_if. cbn [get_st].
  destruct (works d !! q) as [row|] eqn:Eq; cbn [is_none].
  2:{ right. split; [|by eexists _, _]. intros H. destruct (H q eq_refl) as [[? ?] _]. congruence. }
  pose proof (search_ends (walk_fuel (parents d)) (parents d) q w (ri_forest d Hd) ltac:(unfold walk_fuel; lia)) as Hend.
  destruct (ancestor_search _ _ _ _) as [[]|] eqn:Es; [| |done].
  - right. split; [|by eexists _, _]. apply search_true in Es. intros H. by destruct (H q eq_refl) as [_ ?].
  - left. split; [|done]. apply search_false in Es. intros q' [= <-]. by split; [eexists|].
Qed.

(** Every way [set_parent] goes. *)
Lemma set_parent_cases w p observed d d' r :
  RelInv d → set_parent w p observed d = (d', r) →
  (d' = d ∧ ∃ c m, r = Err (Exn c m) ∧ c ≠ OtherError ∧
     ¬ (p ≠ Some w ∧ version_of w d = Some observed ∧ may_parent w p d ∧ bigint (observed + 1) = true)) ∨
  (d' = d ∧ r = Ok observed ∧ p ≠ Some w ∧ version_of w d = Some observed ∧ parents d !! w = p) ∨
  (p ≠ Some w ∧ version_of w d = Some observed ∧ parents d !! w ≠ p ∧ may_parent w p d ∧
   bigint (observed + 1) = true ∧
   d' = bumped w (observed + 1) (with_parents (new_parents w p d) d) ∧ r = Ok (observed + 1)).
Proof.
  intros Hd H. unfold set_parent, transaction, set_parent_in, _locked_version, _bump, set_version, refuse_if,
    throw_if, throw, raise_if, raise, get_st, put_st, mbind, M_bind, mret, M_ret in H.
  destruct (eqb p (Some w)) eqn:Ep; cbv iota beta in H.
  { injection H as <- <-. left. split; [done|]. eexists _, _. split_and!; [done..|]. rewrite eqb_true in Ep. tauto. }
  rewrite eqb_false in Ep. destruct (version_of w d) as [v|] eqn:Ev; cbv iota beta in H.
  2:{ injection H as <- <-. left. split; [done|]. eexists _, _. split_and!; [done..|]. by intros (_ & ? & _). }
  destruct (Z.eqb_spec v observed) as [->|Hne]; cbv iota beta delta [negb] in H.
  2:{ injection H as <- <-. left. split; [done|]. eexists _, _. split_and!; [done..|]. intros (_ & ? & _). congruence. }
  destruct (eqb (parents d !! w) p) eqn:Esame; cbv iota beta in H.
  { injection H as <- <-. rewrite eqb_true in Esame. right; left. done. }
  rewrite eqb_false in Esame.
  assert (Hchk : (may_parent w p d ∧ match p with Some q => check_parent w q | None => mret tt end d = (d, Ok tt)) ∨
    (¬ may_parent w p d ∧ ∃ c m,
       match p with Some q => check_parent w q | None => mret tt end d = (d, Err (Exn c m)) ∧ c ≠ OtherError)).
  { destruct p as [q|]; [by apply check_parent_run|]. left. split; [by intros ?|done]. }
  unfold mret, M_ret in Hchk.
  destruct Hchk as [[Hmay Hrun]|(Hmay & c & m & Hrun & Hc)]; rewrite Hrun in H; cbv iota beta in H.
  2:{ injection H as <- <-. left. split; [done|]. eexists _, _. split_and!; [done..|]. tauto. }
  destruct (bigint (observed + 1)) eqn:Eb; cbv iota beta delta [negb] in H.
  - injection H as <- <-. right; right. by split_and!.
  - injection H as <- <-. left. split; [done|]. eexists _, _. split_and!; [done..|]. by intros (_ & _ & _ & ?).
Qed.

Lemma new_parents_forest w p d : RelInv d → may_parent w p d → acyclic (new_parents w p d).
Proof.
  intros Hd Hmay. assert (Hdel : acyclic (delete w (parents d))).
  { eapply acyclic_subset; [apply delete_subseteq | apply Hd]. }
  destruct p as [q|]; [|done]. apply acyclic_insert; [done | by rewrite lookup_delete_eq |].
  destruct (Hmay q eq_refl) as [_ Hq]. intros Hr. apply Hq. revert Hr. clear.
  induction 1 as [|x y z Hxy _ IH]; [apply rtc_refl|]. eapply rtc_l; [|exact IH].
  eapply lookup_weaken; [exact Hxy | apply delete_subseteq].
Qed.

Lemma new_parents_lookup w p d x :
  new_parents w p d !! x = if eqb x w then p else parents d !! x.
Proof.
  unfold new_parents. destruct (eqb x w) eqn:E.
  - rewrite eqb_true in E. subst. destruct p; [by rewrite lookup_insert_eq | by rewrite lookup_delete_eq].
  - rewrite eqb_false in E. destruct p; rewrite ?lookup_insert_ne by done; by rewrite lookup_delete_ne by done.
Qed.

Lemma RelInv_set_parent w p v d :
  RelInv d → version_of w d = Some v → may_parent w p d →
  RelInv (bumped w (v + 1) (with_parents (new_parents w p d) d)).
Proof.
  intros Hd Hv Hmay. apply RelInv_bumped. split; cbn.
  - by apply new_parents_forest.
  - intros x q. rewrite new_parents_lookup. destruct (eqb x w) eqn:E; [|apply Hd].
    rewrite eqb_true in E. subst x. intros ->. split; [|by apply Hmay].
    unfold version_of in Hv. by destruct (works d !! w).
  - apply Hd.
  - apply Hd.
Qed.

Lemma _locked_version_Ok w observed d d' v :
  _locked_version w observed d = (d', Ok v) → d' = d ∧ v = observed ∧ version_of w d = Some observed.
Proof.
  unfold _locked_version. intros H. inv_M. destruct (version_of w d) as [u|] eqn:E; [|discriminate H].
  inv_M. to_prop. by subst.
Qed.

Lemma _bump_Ok w version d d' v :
  _bump w version d = (d', Ok v) →
  d' = bumped w (version + 1) d ∧ v = version + 1 ∧ bigint (version + 1) = true.
Proof.
  unfold _bump, set_version, refuse_if. intros H. inv_M.
  repeat match goal with H : put_st _ _ = _ |- _ => injection H as ? end. to_prop. by subst.
Qed.

Definition new_dependencies (w x : uuid) (add : bool) (d : TrackerDB) : gset (uuid * uuid) :=
  if add then {[(w, x)]} ∪ dependencies d else dependencies d ∖ {[(w, x)]}.

Lemma change_dependency_cases w x add observed d d' r :
  change_dependency w x add observed d = (d', r) →
  (d' = d ∧ ∃ e, r = Err e) ∨
  (version_of w d = Some observed ∧ x ≠ w ∧ is_Some (works d !! x) ∧
   ((d' = d ∧ r = Ok observed ∧ bool_decide ((w, x) ∈ dependencies d) = add) ∨
    (bigint (observed + 1) = true ∧
     d' = bumped w (observed + 1) (with_dependencies (new_dependencies w x add d) d) ∧ r = Ok (observed + 1)))).
Proof.
  intros H. destruct r as [v|e]; [|left; split; [by eapply transaction_err | by eexists]].
  right. unfold change_dependency in H. rewrite transaction_ok in H. unfold change_dependency_in in H. inv_M.
  match goal with H : _locked_version _ _ _ = _ |- _ => apply _locked_version_Ok in H as (-> & -> & Hv) end.
  destruct (Bool.eqb _ add) eqn:Eb; inv_M; to_prop.
  - apply Bool.eqb_prop in Eb. split_and!; try done; [by destruct (works d !! x)|]. left. done.
  - repeat match goal with H : put_st _ _ = _ |- _ => injection H as ? end. subst.
    apply _bump_Ok in H as (-> & -> & Hb). split_and!; try done; [by destruct (works d !! x)|]. by right.
Qed.

Lemma RelInv_dependency w x add v d :
  RelInv d → version_of w d = Some v → x ≠ w → is_Some (works d !! x) →
  RelInv (bumped w (v + 1) (with_dependencies (new_dependencies w x add d) d)).
Proof.
  intros Hd Hv Hne Hx. apply RelInv_bumped. split; cbn; try apply Hd.
  intros w' x' Hin. assert (Hold : (w', x') ∈ dependencies d ∨ (w', x') = (w, x)).
  { unfold new_dependencies in Hin. destruct add; [|left; by apply elem_of_difference in Hin as [? _]].
    apply elem_of_union in Hin as [H%elem_of_singleton|?]; [by right | by left]. }
  destruct Hold as [Hold|[= -> ->]]; [by apply Hd|]. split_and!; [congruence | | done].
  unfold version_of in Hv. by destruct (works d !! w).
Qed.

Definition new_memberships (w p : uuid) (add : bool) (d : TrackerDB) : gmap (uuid * uuid) (option string) :=
  if add then <[(p, w) := None]> (memberships d) else delete (p, w) (memberships d).

Lemma change_membership_cases w p add observed d d' r :
  change_project_membership w p add observed d = (d', r) →
  (d' = d ∧ ∃ e, r = Err e) ∨
  (version_of w d = Some observed ∧ is_Some (projects d !! p) ∧
   ((d' = d ∧ r = Ok observed ∧ is_some (memberships d !! (p, w)) = add) ∨
    (bigint (observed + 1) = true ∧
     d' = bumped w (observed + 1) (with_memberships (new_memberships w p add d) d) ∧ r = Ok (observed + 1)))).
Proof.
  intros H. destruct r as [v|e]; [|left; split; [by eapply transaction_err | by eexists]].
  right. unfold change_project_membership in H. rewrite transaction_ok in H. unfold change_project_membership_in in H. inv_M.
  match goal with H : _locked_version _ _ _ = _ |- _ => apply _locked_version_Ok in H as (-> & -> & Hv) end.
  destruct (Bool.eqb _ add) eqn:Eb; inv_M; to_prop.
  - apply Bool.eqb_prop in Eb. split_and!; try done; [by destruct (projects d !! p)|]. left. done.
  - repeat match goal with H : put_st _ _ = _ |- _ => injection H as ? end. subst.
    apply _bump_Ok in H as (-> & -> & Hb). split_and!; try done; [by destruct (projects d !! p)|]. by right.
Qed.

Lemma RelInv_membership w p add v d :
  RelInv d → version_of w d = Some v → is_Some (projects d !! p) →
  RelInv (bumped w (v + 1) (with_memberships (new_memberships w p add d) d)).
Proof.
  intros Hd Hv Hp. apply RelInv_bumped. split; cbn; try apply Hd.
  intros p' w' s Hin. assert (Hold : memberships d !! (p', w') = Some s ∨ (p', w') = (p, w)).
  { unfold new_memberships in Hin. destruct add.
    - apply lookup_insert_Some in Hin as [[<- _]|[_ ?]]; [by right | by left].
    - apply lookup_delete_Some in Hin as [_ ?]. by left. }
  destruct Hold as [Hold|[= -> ->]]; [by eapply Hd|]. split; [done|].
  unfold version_of in Hv. by destruct (works d !! w).
Qed.

(** C32: setting a parent keeps the parents a forest and its query always ends;
    it succeeds exactly when the work is at the observed version and already
    has that parent, or the parent exists and is neither the work nor below
    it; a success leaves that parent and no other change than the work's
    version, advanced by one when the parent changed, and a refusal leaves
    everything. *)
Theorem set_parent_spec w p observed d d' r :
  RelInv d → bigint (observed + 1) = true → set_parent w p observed d = (d', r) →
  RelInv d' ∧ (∀ m, r ≠ Err (Exn OtherError m)) ∧
  (is_ok r = true ↔ p ≠ Some w ∧ version_of w d = Some observed ∧ (parents d !! w = p ∨ may_parent w p d)) ∧
  match r with
  | Err _ => d' = d
  | Ok v =>
      parents d' !! w = p ∧ version_of w d' = Some v ∧
      v = (if eqb (parents d !! w) p then observed else observed + 1) ∧
      ∀ x, x ≠ w → parents d' !! x = parents d !! x ∧ version_of x d' = version_of x d
  end.
Proof.
  intros Hd Hb H. destruct (set_parent_cases _ _ _ _ _ _ Hd H) as
    [(-> & c & m & -> & Hc & Hno)|[(-> & -> & Hp & Hv & Hsame)|(Hp & Hv & Hdiff & Hmay & _ & -> & ->)]].
  - split_and!; [done | by intros m' [= ->] | | done]. cbn. split; [done|]. intros (Hp & Hv & Hor).
    exfalso. destruct Hor as [Hsame|Hmay]; [|tauto].
    revert H. unfold set_parent, transaction, set_parent_in, _locked_version, throw_if, mbind, M_bind. cbn [get_st].
    rewrite (proj2 (eqb_false p (Some w)) Hp). cbn. rewrite Hv, Z.eqb_refl. cbn.
    by rewrite (proj2 (eqb_true (parents d !! w) p) Hsame).
  - split_and!; [done | done | by cbn; split; [tauto|] | done | done | by rewrite (proj2 (eqb_true (parents d !! w) p) Hsame) | done].
  - split_and!.
    + by apply RelInv_set_parent.
    + done.
    + cbn. tauto.
    + cbn. rewrite new_parents_lookup. by rewrite eqb_refl.
    + rewrite (version_of_bumped _ _ observed) by done. by rewrite eqb_refl.
    + by rewrite (proj2 (eqb_false (parents d !! w) p) Hdiff).
    + intros x Hx. rewrite (version_of_bumped _ _ observed) by done. rewrite (proj2 (eqb_false x w) Hx).
      split; [|done]. cbn. rewrite new_parents_lookup. by rewrite (proj2 (eqb_false x w) Hx).
Qed.

(** ** Instances *)

Lemma RelInv_none d : parents d = ∅ → dependencies d = ∅ → memberships d = ∅ → RelInv d.
Proof.
  intros Hp Hd Hm. split; rewrite ?Hp, ?Hd, ?Hm.
  - apply acyclic_empty.
  - intros w p H. by rewrite lookup_empty in H.
  - intros w x H. by apply not_elem_of_empty in H.
  - intros p w s H. by rewrite lookup_empty in H.
Qed.

Definition ex_item (w : uuid) : WorkRow :=
  mkWorkRow (mkWork w "title" false "" 1 None None None None None None None None None None None None None) "title".
Definition ex_tree : TrackerDB :=
  mkTracker (<["a" := ex_item "a"]> {["b" := ex_item "b"]}) ∅ [] ∅ ∅ ∅ ∅.

Lemma set_parent_spec_witness :
  acyclic (parents (set_parent "a" (Some "b"%string) 1 ex_tree).1) ∧
  (set_parent "a" (Some "b"%string) 1 ex_tree).2 = Ok 2 ∧
  (set_parent "b" (Some "a"%string) 1 (set_parent "a" (Some "b"%string) 1 ex_tree).1).2 =
    raise ValueError "parent relation would create a cycle".
Proof.
  split; [|split; vm_compute; reflexivity].
  pose proof (set_parent_spec "a" (Some "b"%string) 1 ex_tree _ _ (RelInv_none ex_tree eq_refl eq_refl eq_refl)
    eq_refl (surjective_pairing (set_parent "a" (Some "b"%string) 1 ex_tree))) as [H _].
  exact (ri_forest _ H).
Defined.
