(* ===== verification/TrackerSystem.v ===== *)
(** * The tracker as a whole

    Every operation that changes the tables of canonical work, its events and
    its relations, as one kind of step, the invariant they keep together, and
    the fence of versions: a work changes only through a call that observed
    its current version, and the change advances it by one.  So a version
    identifies the state of its work, which is what lets a reader compare
    revisions. *)

From S2P Require Import Prelude Tables Paging Json Codec Tracker WorkEvents WorkRelations.

Local Open Scope Z_scope.

Section system.
Context (nfkc_casefold : string → string).

(** The version of a work advances for a change kept in other tables (its pull
    requests). *)
Definition revise (w : uuid) (observed : Z) : M TrackerDB Z :=
  transaction (version ← _locked_version w observed; _bump w version).

(** A call with its arguments, the clock and the identifiers it draws. *)
Inductive Call :=
  | c_create (now : datetime) (item : CurrentWork)
  | c_replace (item : CurrentWork)
  | c_bind_gid (gid : string) (w : uuid)
  | c_append (event_id w : uuid) (observed : Z) (op : uuid) (subtype : string) (text : option string)
      (created_at : datetime) (actor story : option string)
  | c_set_parent (w : uuid) (p : option uuid) (observed : Z)
  | c_dependency (w x : uuid) (add : bool) (observed : Z)
  | c_membership (w p : uuid) (add : bool) (observed : Z)
  | c_revise (w : uuid) (observed : Z)
  | c_project (p : uuid) (name : string)
  | c_read.

Definition run (c : Call) (d : TrackerDB) : TrackerDB :=
  match c with
  | c_create now item => (create nfkc_casefold now item d).1
  | c_replace item => (replace nfkc_casefold item d).1
  | c_bind_gid gid w => (bind_asana_gid gid w d).1
  | c_append i w v op st tx ca ac sg => (append i w v op st tx ca ac sg d).1
  | c_set_parent w p v => (set_parent w p v d).1
  | c_dependency w x add v => (change_dependency w x add v d).1
  | c_membership w p add v => (change_project_membership w p add v d).1
  | c_revise w v => (revise w v d).1
  | c_project p name => (transaction (insert_project p name) d).1
  | c_read => d
  end.

Definition run_all (cs : list Call) (d : TrackerDB) : TrackerDB := foldl (λ d c, run c d) d cs.

(** The work a call changes and the version its caller observed. *)
Definition fence (c : Call) : option (uuid * Z) :=
  match c with
  | c_replace item => Some (work_id item, row_version item)
  | c_append _ w v _ _ _ _ _ _ | c_set_parent w _ v | c_dependency w _ _ v | c_membership w _ _ v
  | c_revise w v => Some (w, v)
  | c_create _ _ | c_bind_gid _ _ | c_project _ _ | c_read => None
  end.

Record Inv (d : TrackerDB) : Prop := {
  inv_works : WorksInv nfkc_casefold d;
  inv_events : EventsInv d;
  inv_relations : RelInv d;
  inv_aliases : map_Forall (λ g w, g ≠ ""%string ∧ is_Some (works d !! w)) (aliases d) }.

(** Everything that is stored about a work. *)
Definition untouched (w : uuid) (d d' : TrackerDB) : Prop :=
  works d' !! w = works d !! w ∧ history w d' = history w d ∧ parents d' !! w = parents d !! w ∧
  (∀ x, (w, x) ∈ dependencies d' ↔ (w, x) ∈ dependencies d) ∧
  (∀ p, memberships d' !! (p, w) = memberships d !! (p, w)).

#[export] Instance untouched_preorder w : PreOrder (untouched w).
Proof.
  split; [by intros d; unfold untouched|].
  intros d1 d2 d3 (H1 & H2 & H3 & H4 & H5) (K1 & K2 & K3 & K4 & K5).
  unfold untouched. split_and!; [congruence.. | intros x; by rewrite K4 | intros p; by rewrite K5].
Qed.

(** ** Steps *)

(** What one call does: nothing at all; a change that leaves every stored work
    as it is; or a change of the fenced work, whose version advances. *)
Inductive effect_of (c : Call) (d d' : TrackerDB) : Prop :=
  | ef_none : d' = d → effect_of c d d'
  | ef_new : fence c = None → events d' = events d → works d ⊆ works d' → parents d' = parents d →
      dependencies d' = dependencies d → memberships d' = memberships d → projects d ⊆ projects d' →
      effect_of c d d'
  | ef_change w v : fence c = Some (w, v) → version_of w d = Some v → version_of w d' = Some (v + 1) →
      (∀ x, x ≠ w → untouched x d d') → (∃ l, events d' = events d ++ l) →
      effect_of c d d'.

Lemma untouched_bumped w v d d' x :
  x ≠ w → untouched x d d' → untouched x d (bumped w v d').
Proof.
  intros Hx (H1 & H2 & H3 & H4 & H5). unfold untouched. cbn. rewrite lookup_alter_ne by done.
  split_and!; assumption.
Qed.

Lemma WorksInv_bump w v d :
  WorksInv nfkc_casefold d → 1 <= v < 2 ^ 63 → WorksInv nfkc_casefold (bumped w v d).
Proof.
  intros Hd Hv x r Hx. cbn in Hx. apply lookup_alter_Some in Hx as [(<- & r0 & Hr & ->)|[_ Hx]]; [|by apply Hd].
  destruct (Hd _ _ Hr) as (H1 & H2 & H3 & H4). unfold row_ok. cbn. split_and!; try done; try lia.
Qed.

Lemma version_bounds w v d : WorksInv nfkc_casefold d → version_of w d = Some v → 1 <= v < 2 ^ 63.
Proof.
  intros Hd. unfold version_of. destruct (works d !! w) as [r|] eqn:E; [|done]. intros [= <-]. apply (Hd _ _ E).
Qed.

(** The other invariants of a change that keeps the events. *)
Lemma EventsInv_bumped w v d :
  EventsInv d → version_of w d = Some v → EventsInv (bumped w (v + 1) d).
Proof.
  intros Hd Hv. split; try apply Hd.
  - intros e He. rewrite (version_of_bumped _ _ v) by done. destruct (eqb _ w); [by eexists | by apply Hd].
  - intros e u He. rewrite (version_of_bumped _ _ v) by done. destruct (eqb (e_work_id e) w) eqn:E; [|by apply Hd].
    rewrite eqb_true in E. intros [= <-]. pose proof (ei_bound d Hd e v He ltac:(by rewrite E)). lia.
Qed.

Lemma EventsInv_same d d' :
  EventsInv d → events d' = events d →
  (∀ x v, version_of x d = Some v → ∃ v', version_of x d' = Some v' ∧ v <= v') → EventsInv d'.
Proof.
  intros Hd He Hv. assert (Hh : ∀ w, history w d' = history w d) by (intros w; unfold history; by rewrite He).
  split; rewrite ?He; try setoid_rewrite Hh; try apply Hd.
  - intros e Hin. destruct (ei_work d Hd e Hin) as [v Hv']. destruct (Hv _ _ Hv') as (v' & ? & _). by eexists.
  - intros e u Hin Hu. destruct (ei_work d Hd e Hin) as [v Hv']. destruct (Hv _ _ Hv') as (v' & Hv2 & Hle).
    pose proof (ei_bound d Hd e v Hin Hv'). simplify_eq. lia.
Qed.

Lemma Inv_bumped w v d d1 :
  Inv d → version_of w d = Some v → bigint (v + 1) = true →
  works d1 = works d → events d1 = events d → aliases d1 = aliases d →
  RelInv (bumped w (v + 1) d1) → Inv (bumped w (v + 1) d1).
Proof.
  intros [Hw He Hr Ha] Hv Hb Hw1 He1 Ha1 Hrel. apply bigint_bound in Hb.
  pose proof (version_bounds w v d Hw Hv) as Hvb.
  assert (Hv1 : version_of w d1 = Some v) by (unfold version_of; by rewrite Hw1).
  split; [| |done|].
  - apply WorksInv_bump; [unfold WorksInv; by rewrite Hw1 | lia].
  - apply EventsInv_bumped; [|done]. apply (EventsInv_same d); [done..|].
    intros x u Hu. exists u. unfold version_of in *. by rewrite Hw1.
  - intros g x Hg. cbn in Hg. rewrite Ha1 in Hg. destruct (Ha g x Hg) as [Hne Hx]. split; [done|].
    rewrite works_bumped. by rewrite Hw1.
Qed.

(** A change of the rows of works alone. *)
Lemma Inv_with_works m d :
  Inv d → map_Forall (row_ok nfkc_casefold) m →
  (∀ x v, version_of x d = Some v → ∃ v', version_of x (with_works m d) = Some v' ∧ v <= v') →
  Inv (with_works m d).
Proof.
  intros [Hw He Hr Ha] Hm Hv.
  assert (Hsome : ∀ x, is_Some (works d !! x) → is_Some (m !! x)).
  { intros x [r Hx]. destruct (Hv x (row_version (item_of r))) as (v' & Hv' & _); [unfold version_of; by rewrite Hx|].
    unfold version_of in Hv'. cbn in Hv'. by destruct (m !! x). }
  split; [done | by apply (EventsInv_same d) | by apply (RelInv_works d) |].
  intros g x Hg. destruct (Ha g x Hg). auto.
Qed.

Lemma version_insert_fresh w r d x v :
  works d !! w = None → version_of x d = Some v →
  version_of x (with_works (<[w := r]> (works d)) d) = Some v.
Proof.
  unfold version_of. cbn. intros Hw Hx. destruct (decide (x = w)) as [->|]; [by rewrite Hw in Hx|].
  by rewrite lookup_insert_ne.
Qed.

Lemma Inv_create now item d : Inv d → Inv (run (c_create now item) d) ∧ effect_of (c_create now item) d (run (c_create now item) d).
Proof.
  intros Hd. cbn. destruct (create nfkc_casefold now item d) as [d' r] eqn:E.
  destruct (work_create_cases _ _ _ _ _ _ E) as [[-> _]|(n & Hrow & _ & Hnew & -> & _)]; [split; [done | by constructor]|].
  split.
  - apply Inv_with_works; [done | apply map_Forall_insert_2; [done | apply Hd] |].
    intros x v Hv. exists v. split; [|lia]. by apply version_insert_fresh.
  - apply ef_new; try done. cbn. by apply insert_subseteq.
Qed.

Lemma Inv_replace item d : Inv d → Inv (run (c_replace item) d) ∧ effect_of (c_replace item) d (run (c_replace item) d).
Proof.
  intros Hd. cbn. destruct (replace nfkc_casefold item d) as [d' r] eqn:E.
  destruct (work_replace_cases _ _ _ _ _ (inv_works d Hd) E) as [[-> _]|(n & row & Hrow & Hv & Hok & -> & _)];
    [split; [done | by constructor]|].
  set (row' := mkWorkRow _ n) in *. split.
  - apply Inv_with_works; [done | apply map_Forall_insert_2; [done | apply Hd] |].
    intros x v Hx. unfold version_of in *. cbn [works with_works].
    destruct (decide (x = work_id item)) as [->|Hne].
    + rewrite lookup_insert_eq. rewrite Hrow in Hx. injection Hx as <-. eexists. split; [done|]. cbn. lia.
    + rewrite lookup_insert_ne by done. exists v. split; [done | lia].
  - eapply (ef_change _ _ _ (work_id item) (row_version item)); [done | | | | by exists []; rewrite app_nil_r].
    + unfold version_of. by rewrite Hrow, <- Hv.
    + unfold version_of. cbn. by rewrite lookup_insert_eq.
    + intros x Hx. unfold untouched. cbn. by rewrite lookup_insert_ne.
Qed.

Lemma Inv_bind gid w d : Inv d → Inv (run (c_bind_gid gid w) d) ∧ effect_of (c_bind_gid gid w) d (run (c_bind_gid gid w) d).
Proof.
  intros Hd. cbn. destruct (bind_asana_gid gid w d) as [d' [[]|e]] eqn:E.
  - unfold bind_asana_gid, refuse_if in E. inv_M. rewrite transaction_ok in E. inv_M. injection E as <-. to_prop.
    split; [|by apply ef_new]. split; [apply Hd | | |].
    + apply (EventsInv_same d); [apply Hd | done |]. intros x v Hv. exists v. split; [done | lia].
    + apply (RelInv_works d); try done. apply Hd.
    + apply map_Forall_insert_2; [|apply Hd]. split; [by intros ->|].
      cbn. match goal with H : _ ∧ is_none _ = false |- _ => destruct H as [_ H]; destruct (works d !! w); [by eexists | done] end.
  - assert (d' = d) as ->.
    { unfold bind_asana_gid, throw_if in E. unfold mbind at 1, M_bind at 1 in E.
      destruct (negb (truthy gid)); [by injection E as <- _|]. by apply transaction_err in E. }
    split; [done | by constructor].
Qed.

Lemma Inv_append i w v op st tx ca ac sg d :
  let c := c_append i w v op st tx ca ac sg in Inv d → Inv (run c d) ∧ effect_of c d (run c d).
Proof.
  intros c Hd. cbn. destruct (append i w v op st tx ca ac sg d) as [d' r] eqn:E. cbn [fst].
  destruct (append_cases _ _ _ _ _ _ _ _ _ _ _ _ E) as [[-> _]|[[-> _]|(Hv & Hop & _ & Hst & Hc & -> & _)]];
    [split; [done | by constructor]..|].
  set (e := new_event _ _ _ _ _ _ _ _ _ _) in *. assert (Hw : e_work_id e = w) by done.
  assert (Hb : bigint (v + 1) = true) by (unfold storable_event in Hst; rewrite !andb_true_iff in Hst; apply Hst).
  apply bigint_bound in Hb. pose proof (version_bounds w v d (inv_works d Hd) Hv) as Hvb.
  split.
  - change (appended e d) with (bumped w (v + 1) (with_events (events d ++ [e]) d)).
    assert (Hev : EventsInv (appended e d)) by (by apply append_inv; [apply Hd|..]).
    split; [| exact Hev | |].
    + apply WorksInv_bump; [apply Hd | lia].
    + apply RelInv_bumped, (RelInv_works d); try done. apply Hd.
    + intros g x Hg. destruct (inv_aliases d Hd g x Hg). split; [done|]. by apply works_bumped.
  - eapply (ef_change _ _ _ w v); [done..| | | by eexists].
    + rewrite (version_of_appended _ _ v) by done. by rewrite Hw, eqb_refl.
    + intros x Hx. change (appended e d) with (bumped w (v + 1) (with_events (events d ++ [e]) d)).
      apply untouched_bumped; [done|]. unfold untouched. rewrite history_snoc. unfold of_work. rewrite Hw.
      rewrite (proj2 (eqb_false w x)) by done. by rewrite app_nil_r.
Qed.

(** A change of relations that leaves those of other works. *)
Lemma Inv_relation c w v d d1 :
  Inv d → fence c = Some (w, v) → version_of w d = Some v → bigint (v + 1) = true →
  works d1 = works d → events d1 = events d → aliases d1 = aliases d →
  RelInv (bumped w (v + 1) d1) → (∀ x, x ≠ w → untouched x d d1) →
  Inv (bumped w (v + 1) d1) ∧ effect_of c d (bumped w (v + 1) d1).
Proof.
  intros Hd Hf Hv Hb Hw1 He1 Ha1 Hr Hx. split; [by eapply Inv_bumped|].
  assert (Hv1 : version_of w d1 = Some v) by (unfold version_of; by rewrite Hw1).
  eapply (ef_change _ _ _ w v); [done..| | |].
  - rewrite (version_of_bumped _ _ v) by done. by rewrite eqb_refl.
  - intros x Hne. by apply untouched_bumped; [|apply Hx].
  - exists []. by rewrite app_nil_r.
Qed.

Lemma Inv_set_parent w p v d :
  let c := c_set_parent w p v in Inv d → Inv (run c d) ∧ effect_of c d (run c d).
Proof.
  intros c Hd. cbn. destruct (set_parent w p v d) as [d' r] eqn:E. cbn [fst].
  destruct (set_parent_cases _ _ _ _ _ _ (inv_relations d Hd) E) as
    [[-> _]|[[-> _]|(Hp & Hv & _ & Hmay & Hb & -> & _)]]; [split; [done | by constructor]..|].
  apply Inv_relation; try done; [by apply RelInv_set_parent; [apply Hd|..]|].
  intros x Hx. unfold untouched. cbn. rewrite new_parents_lookup. by rewrite (proj2 (eqb_false x w) Hx).
Qed.

Lemma Inv_dependency w x add v d :
  let c := c_dependency w x add v in Inv d → Inv (run c d) ∧ effect_of c d (run c d).
Proof.
  intros c Hd. cbn. destruct (change_dependency w x add v d) as [d' r] eqn:E. cbn [fst].
  destruct (change_dependency_cases _ _ _ _ _ _ _ E) as
    [[-> _]|(Hv & Hne & Hx & [[-> _]|(Hb & -> & _)])]; [split; [done | by constructor]..|].
  apply Inv_relation; try done; [by apply RelInv_dependency; [apply Hd|..]|].
  intros y Hy. unfold untouched. cbn. split_and!; try done. intros z. unfold new_dependencies.
  destruct add; [rewrite elem_of_union, elem_of_singleton | rewrite elem_of_difference, elem_of_singleton]; naive_solver.
Qed.

Lemma Inv_membership w p add v d :
  let c := c_membership w p add v in Inv d → Inv (run c d) ∧ effect_of c d (run c d).
Proof.
  intros c Hd. cbn. destruct (change_project_membership w p add v d) as [d' r] eqn:E. cbn [fst].
  destruct (change_membership_cases _ _ _ _ _ _ _ E) as
    [[-> _]|(Hv & Hp & [[-> _]|(Hb & -> & _)])]; [split; [done | by constructor]..|].
  apply Inv_relation; try done; [by apply RelInv_membership; [apply Hd|..]|].
  intros y Hy. unfold untouched. cbn. split_and!; try done. intros z. unfold new_memberships.
  destruct add; [rewrite lookup_insert_ne by congruence | rewrite lookup_delete_ne by congruence]; done.
Qed.

Lemma Inv_revise w v d :
  let c := c_revise w v in Inv d → Inv (run c d) ∧ effect_of c d (run c d).
Proof.
  intros c Hd. cbn. destruct (revise w v d) as [d' [u|e]] eqn:E; cbn [fst].
  - unfold revise in E. rewrite transaction_ok in E. inv_M. apply _locked_version_Ok in Hs as (-> & -> & Hv).
    apply _bump_Ok in E as (-> & -> & Hb). by apply (Inv_relation _ w v d d); [..|apply RelInv_bumped, Hd|].
  - apply transaction_err in E as ->. split; [done | by constructor].
Qed.

Lemma insert_project_Ok p name d d' :
  transaction (insert_project p name) d = (d', Ok tt) →
  projects d !! p = None ∧ d' = with_projects (<[p := mkProject name None]> (projects d)) d.
Proof.
  rewrite transaction_ok. unfold insert_project, refuse_if. intros H. inv_M. injection H as <-. to_prop.
  split; [|done]. match goal with H : is_some _ = false ∧ _ |- _ => destruct H as [H _] end.
  by destruct (projects d !! p).
Qed.

Lemma Inv_project p name d :
  let c := c_project p name in Inv d → Inv (run c d) ∧ effect_of c d (run c d).
Proof.
  intros c Hd. cbn. destruct (transaction (insert_project p name) d) as [d' [[]|e]] eqn:E; cbn [fst].
  - apply insert_project_Ok in E as [Hp ->].
    assert (Hsub : projects d ⊆ <[p := mkProject name None]> (projects d)) by by apply insert_subseteq.
    split; [|by apply ef_new]. split; [apply Hd | | |apply Hd].
    + apply (EventsInv_same d); [apply Hd | done |]. intros x v Hv. exists v. split; [done | lia].
    + by apply (RelInv_works d); [apply Hd|..].
  - apply transaction_err in E as ->. split; [done | by constructor].
Qed.

Lemma tracker_step c d : Inv d → Inv (run c d) ∧ effect_of c d (run c d).
Proof.
  destruct c.
  - apply Inv_create.
  - apply Inv_replace.
  - apply Inv_bind.
  - apply Inv_append.
  - apply Inv_set_parent.
  - apply Inv_dependency.
  - apply Inv_membership.
  - apply Inv_revise.
  - apply Inv_project.
  - intros Hd. split; [done | by constructor].
Qed.

Lemma tracker_steps cs d : Inv d → Inv (run_all cs d).
Proof. revert d. induction cs as [|c cs IH]; intros d Hd; [done|]. cbn. by apply IH, tracker_step. Qed.

Lemma run_all_app cs1 cs2 d : run_all (cs1 ++ cs2) d = run_all cs2 (run_all cs1 d).
Proof. apply foldl_app. Qed.

(** ** Versions identify states *)

Lemma untouched_new w v d d' :
  version_of w d = Some v → events d' = events d → works d ⊆ works d' → parents d' = parents d →
  dependencies d' = dependencies d → memberships d' = memberships d → untouched w d d'.
Proof.
  intros Hv He Hw Hp Hd Hm. unfold version_of in Hv. destruct (works d !! w) as [r|] eqn:E; [|done].
  unfold untouched, history. rewrite He, Hp, Hd, Hm. split_and!; try done.
  rewrite E. by eapply lookup_weaken.
Qed.

Lemma version_untouched w d d' : untouched w d d' → version_of w d' = version_of w d.
Proof. intros (H & _). unfold version_of. by rewrite H. Qed.

(** One call leaves a work alone, or advances its version having observed it. *)
Lemma step_version c d w v :
  Inv d → version_of w d = Some v →
  untouched w d (run c d) ∨ version_of w (run c d) = Some (v + 1) ∧ fence c = Some (w, v).
Proof.
  intros Hd Hv. destruct (tracker_step c d Hd) as [_ [->|_ He Hw Hp Hdep Hm _|w' v' Hf Hv' Hv1 Hx _]].
  - by left.
  - left. by eapply untouched_new.
  - destruct (decide (w = w')) as [->|Hne]; [|left; by apply Hx]. right. by simplify_eq.
Qed.

Lemma stale_call c d w u : Inv d → fence c = Some (w, u) → version_of w d ≠ Some u → run c d = d.
Proof.
  intros Hd Hf Hu. destruct (tracker_step c d Hd) as [_ [?|Hf' _ _ _ _ _ _|w' v' Hf' Hv' _ _ _]]; [done | congruence |].
  rewrite Hf in Hf'. by simplify_eq.
Qed.

Lemma steps_version cs d w v :
  Inv d → version_of w d = Some v →
  ∃ v', version_of w (run_all cs d) = Some v' ∧ v <= v' ∧ (v' = v → untouched w d (run_all cs d)).
Proof.
  revert d v. induction cs as [|c cs IH]; intros d v Hd Hv; [exists v; split_and!; [done | lia | done]|].
  cbn [run_all foldl]. change (foldl _ (run c d) cs) with (run_all cs (run c d)).
  destruct (tracker_step c d Hd) as [Hd' _].
  destruct (step_version c d w v Hd Hv) as [Hun|[Hv1 _]].
  - destruct (IH (run c d) v Hd') as (v' & H1 & H2 & H3); [by rewrite (version_untouched w d)|].
    exists v'. split_and!; [done..|]. intros E. etrans; [exact Hun | by apply H3].
  - destruct (IH _ _ Hd' Hv1) as (v' & H1 & H2 & _). exists v'. split_and!; [done | lia | lia].
Qed.

(** ** The stream only grows *)

Lemma step_events c d : Inv d → ∃ l, events (run c d) = events d ++ l.
Proof.
  intros Hd. destruct (tracker_step c d Hd) as [_ [->|_ -> _ _ _ _ _|w' v' _ _ _ _ H]]; [..|done];
    exists []; by rewrite app_nil_r.
Qed.

Lemma steps_events cs d : Inv d → ∃ l, events (run_all cs d) = events d ++ l.
Proof.
  revert d. induction cs as [|c cs IH]; intros d Hd; [exists []; by rewrite app_nil_r|].
  destruct (step_events c d Hd) as [l1 H1]. destruct (IH (run c d)) as [l2 H2]; [by apply tracker_step|].
  exists (l1 ++ l2). change (run_all (c :: cs) d) with (run_all cs (run c d)). by rewrite H2, H1, app_assoc.
Qed.

Lemma steps_history cs d w : Inv d → history w d `prefix_of` history w (run_all cs d).
Proof.
  intros Hd. destruct (steps_events cs d Hd) as [l Hl]. unfold history. rewrite Hl, List.filter_app.
  by apply prefix_app_r.
Qed.

(** Increasing numbers from 1 to [v] are at most [v]. *)
Lemma sorted_length (l : list Z) v lo :
  StronglySorted Z.lt l → (∀ x, x ∈ l → lo <= x <= v) → lo <= v + 1 → Z.of_nat (length l) <= v + 1 - lo.
Proof.
  intros Hl. revert lo. induction Hl as [|x l _ IH Hx]; intros lo Hb Hlo; [cbn; lia|].
  rewrite Forall_forall in Hx. pose proof (Hb x ltac:(left)) as Hxb.
  specialize (IH (x + 1)). cbn [length]. rewrite Nat2Z.inj_succ.
  enough (Z.of_nat (length l) <= v + 1 - (x + 1)) by lia.
  apply IH; [|lia]. intros y Hy. specialize (Hx y Hy). specialize (Hb y ltac:(by right)). lia.
Qed.

(** A stream is no longer than its work's version. *)
Lemma history_bound w v d :
  Inv d → version_of w d = Some v → Z.of_nat (length (history w d)) <= v < 2 ^ 63.
Proof.
  intros [Hw He _ _] Hv. pose proof (version_bounds w v d Hw Hv) as Hb. split; [|lia].
  rewrite <- (length_fmap result_version (history w d)).
  pose proof (sorted_length _ v 1 (ei_versions d He w)) as H. enough (Hr : ∀ x, x ∈ result_version <$> history w d → 1 <= x <= v).
  { specialize (H Hr ltac:(lia)). lia. }
  intros x (e & -> & [He' <-]%history_elem)%list_elem_of_fmap. by apply (ei_bound d He).
Qed.

Lemma history_small w d : Inv d → Z.of_nat (length (history w d)) < 2 ^ 63.
Proof.
  intros Hd. destruct (history w d) as [|e l] eqn:E; [done|].
  assert (Hin : e ∈ history w d) by (rewrite E; left). apply history_elem in Hin as [Hin <-].
  destruct (ei_work d (inv_events d Hd) e Hin) as [v Hv].
  pose proof (history_bound _ _ _ Hd Hv) as Hb. rewrite E in Hb. lia.
Qed.

Lemma history_sequence w d e :
  EventsInv d → e ∈ history w d → 1 <= sequence e <= Z.of_nat (length (history w d)).
Proof.
  intros Hd He. assert (Hs : sequence e ∈ sequence <$> history w d) by (by apply list_elem_of_fmap_2).
  rewrite (ei_numbers d Hd) in Hs. apply elem_of_seqZ in Hs. lia.
Qed.

(** Projects and works are never deleted. *)
Lemma run_projects c d : projects d ⊆ projects (run c d).
Proof.
  assert (K : ∀ A (m : M TrackerDB A), keeps (λ d', projects d ⊆ projects d') m (λ _, True) → projects d ⊆ projects (m d).1).
  { intros A m H. by apply (H d). }
  destruct c; cbn [run]; try reflexivity.
  all: try (apply K;
    unfold create, create_locked, replace, replace_locked, bind_asana_gid, append, append_locked, insert_event,
      set_parent, set_parent_in, check_parent, change_dependency, change_dependency_in, change_project_membership,
      change_project_membership_in, revise, _locked_version, _bump, set_version, refuse_if, get_locked, get_in;
    by keeps_writes).
  destruct (transaction (insert_project p name) d) as [d' [[]|e]] eqn:E.
  - apply insert_project_Ok in E as [? ->]. by apply insert_subseteq.
  - by apply transaction_err in E as ->.
Qed.

Lemma run_works c d w : Inv d → is_Some (works d !! w) → is_Some (works (run c d) !! w).
Proof.
  intros Hd [r Hr]. assert (Hv : version_of w d = Some (row_version (item_of r))) by (unfold version_of; by rewrite Hr).
  assert (H : is_Some (version_of w (run c d))).
  { destruct (step_version c d w _ Hd Hv) as [Hu|[H _]]; [rewrite (version_untouched w d) by done|]; eauto. }
  unfold version_of in H. by apply fmap_is_Some in H.
Qed.

(** The tables before any call. *)
Definition empty_db (ps : gmap uuid Project) : TrackerDB := mkTracker ∅ ∅ [] ∅ ∅ ps ∅.

Ltac no_row :=
  intros; cbn in *;
  match goal with
  | H : ∅ !! _ = Some _ |- _ => by rewrite lookup_empty in H
  | H : _ ∈ ∅ |- _ => by apply not_elem_of_empty in H
  | H : _ ∈ [] |- _ => by apply not_elem_of_nil in H
  end.

Lemma Inv_empty ps : Inv (empty_db ps).
Proof.
  split; [intros w r H; no_row | split | split | intros g w H; no_row];
    try (cbn; constructor); try (no_row; fail); try done. apply acyclic_empty.
Qed.

(** ** The properties *)

(** C24: whatever is called in whatever order, every work is indexed under its
    own title, its events are numbered from 1 without gaps and carry strictly
    increasing versions up to the current one, parents form a forest between
    existing works, no work depends on itself, and versions and numbers stay
    within a signed 64-bit column. *)
Theorem tracker_invariant ps cs w r :
  let d := run_all cs (empty_db ps) in
  works d !! w = Some r →
  normalize_title nfkc_casefold (title (item_of r)) = Ok (normalized_title r) ∧ work_id (item_of r) = w ∧
  1 <= row_version (item_of r) < 2 ^ 63 ∧
  sequence <$> history w d = seqZ 1 (Z.of_nat (length (history w d))) ∧
  StronglySorted Z.lt (result_version <$> history w d) ∧
  (∀ e, e ∈ history w d → 1 <= sequence e <= row_version (item_of r) ∧ 1 <= result_version e <= row_version (item_of r)) ∧
  ¬ tc (is_parent (parents d)) w w ∧
  (∀ p, parents d !! w = Some p → is_Some (works d !! p)) ∧
  (∀ x, (w, x) ∈ dependencies d → x ≠ w ∧ is_Some (works d !! x)).
Proof.
  intros d Hr. assert (Hd : Inv d) by (apply tracker_steps, Inv_empty).
  destruct (inv_works d Hd w r Hr) as (H1 & H2 & H3 & _).
  assert (Hv : version_of w d = Some (row_version (item_of r))) by (unfold version_of; by rewrite Hr).
  pose proof (history_bound w _ d Hd Hv) as Hb. destruct (inv_events d Hd) as [E1 E2 E3 E4 _ _].
  split_and!; try done; try lia.
  - intros e He. split.
    + pose proof (history_sequence w d e (inv_events d Hd) He). lia.
    + apply history_elem in He as [He <-]. by apply E4.
  - apply (ri_forest d (inv_relations d Hd)).
  - intros p Hp. by apply (ri_parents d (inv_relations d Hd)) in Hp as [_ ?].
  - intros x Hx. apply (ri_dependencies d (inv_relations d Hd)) in Hx as (? & _ & ?). by split.
Qed.

(** A version identifies the state of its work: after any calls the version
    has not decreased, and if it is the same, the row, the event stream, the
    parent, the dependencies and the memberships are the same; a call whose
    caller observed another version than the current one changes nothing. *)
Theorem tracker_fence cs d w v :
  Inv d → version_of w d = Some v →
  ∃ v', version_of w (run_all cs d) = Some v' ∧ v <= v' ∧
    (v' = v → untouched w d (run_all cs d)) ∧
    ∀ c u, fence c = Some (w, u) → u ≠ v' → run c (run_all cs d) = run_all cs d.
Proof.
  intros Hd Hv. destruct (steps_version cs d w v Hd Hv) as (v' & H1 & H2 & H3).
  exists v'. split_and!; [done..|]. intros c u Hf Hu. eapply stale_call; [by apply tracker_steps | done |].
  rewrite H1. congruence.
Qed.

(** Once an append has been made, repeating its operation with the same
    content - at any later time, with whatever version and fresh identifier -
    answers with the same event and changes nothing, and with other content
    is refused. *)
Theorem append_replay i w v op st tx ca ac sg d d1 o cs i' w' v' st' tx' ca' ac' sg' :
  Inv d → append i w v op st tx ca ac sg d = (d1, Ok o) →
  is_Some (version_of w' d1) → append_args_ok st' tx' ca' sg' = true →
  let d2 := run_all cs d1 in
  append i' w' v' op st' tx' ca' ac' sg' d2 =
    (d2, if same_append (out_event o) w' st' tx' ca' ac' sg'
         then Ok (mkAppended (out_event o) (result_version (out_event o)) false)
         else raise OperationConflictError "OperationId was reused with another append").
Proof.
  intros Hd Happ [u Hw'] Hargs d2.
  assert (Hd1 : Inv d1).
  { pose proof (Inv_append i w v op st tx ca ac sg d Hd) as [H _]. cbn [run] in H. by rewrite Happ in H. }
  assert (Hd2 : Inv d2) by by apply tracker_steps.
  destruct (steps_version cs d1 w' u Hd1 Hw') as (u' & Hv' & _). fold d2 in Hv'.
  assert (Hin : out_event o ∈ events d1 ∧ operation_id (out_event o) = Some op).
  { destruct (append_cases _ _ _ _ _ _ _ _ _ _ _ _ Happ) as [[-> [e [=]]]|[(-> & e & Hop & _ & _ & [= ->])|
      (_ & _ & _ & _ & _ & -> & [= ->])]]; [by apply by_operation_one|]. cbn. split; [|done].
    apply elem_of_snoc. by right. }
  destruct Hin as [Hin Hop]. destruct (steps_events cs d1 Hd1) as [l Hl].
  assert (Hby : by_operation op d2 = [out_event o]).
  { apply (filter_unique operation_id); [apply Hd2 | | |].
    - intros y _ Hy. rewrite eqb_true in Hy. congruence.
    - unfold d2. rewrite Hl. apply elem_of_app. by left.
    - rewrite Hop. apply eqb_refl. }
  unfold append_args_ok in Hargs. rewrite !andb_true_iff, !negb_true_iff in Hargs.
  destruct Hargs as ((((A1 & A2) & A3) & A4) & A5).
  unfold append, transaction, append_locked, throw_if, raise_if, mbind, M_bind, get_st, mret, M_ret, lift.
  rewrite A1, A2, A3, A4, A5. cbv iota beta delta [negb orb]. rewrite Hv', Hby. cbn [one_or_none].
  by destruct (same_append _ _ _ _ _ _ _).
Qed.

(** C34: a reader that follows the cursors of a work's history, while others go
    on calling, sees the events in order without gap or repetition, and
    everything that was there at its first page once its pages can hold it. *)
Theorem history_pages w limit d css :
  Inv d → 1 <= limit <= 100 →
  let states := (λ n, run_all (concat (take n css)) d) <$> seq 0 (length css) in
  let final := history w (run_all (concat css) d) in
  follow w limit None states `prefix_of` final ∧
  (Z.of_nat (length (history w d)) <= limit * Z.of_nat (length css) →
   history w d `prefix_of` follow w limit None states).
Proof.
  intros Hd Hlim states final.
  destruct (follow_spec w limit (history w d) final states Hlim) with (c := @None string) (k := 0) as [H1 H2].
  - apply history_small. by apply tracker_steps.
  - intros d' (n & -> & _)%list_elem_of_fmap. split_and!.
    + by apply tracker_steps.
    + by apply steps_history.
    + unfold final. rewrite <- (take_drop n css) at 2. rewrite concat_app, run_all_app.
      apply steps_history. by apply tracker_steps.
  - done.
  - lia.
  - by apply steps_history.
  - split; [done|]. intros Hl. apply H2. unfold states. rewrite length_fmap, length_seq. lia.
Qed.
(** C35: numbers never leave a signed 64-bit column: after every call versions
    and sequence numbers are within it, a work has no more events than
    versions, and at the largest version every change of the work is refused
    without effect, where the addition would overflow, while a change below it
    is counted exactly. *)
Theorem tracker_bounds c d w v :
  Inv d → version_of w d = Some v →
  Z.of_nat (length (history w d)) <= v < 2 ^ 63 ∧
  (∀ e, e ∈ history w d → 1 <= sequence e < 2 ^ 63 ∧ 1 <= result_version e < 2 ^ 63) ∧
  (v = 2 ^ 63 - 1 → untouched w d (run c d)) ∧
  (v = 2 ^ 63 - 1 → (∃ u, fence c = Some (w, u)) → run c d = d) ∧
  (version_of w (run c d) = Some v ∨ version_of w (run c d) = Some (v + 1) ∧ v + 1 < 2 ^ 63).
Proof.
  intros Hd Hv. pose proof (history_bound w v d Hd Hv) as Hb. destruct (tracker_step c d Hd) as [Hd' _].
  assert (Hstep := step_version c d w v Hd Hv).
  assert (Hlt : ∀ u, version_of w (run c d) = Some u → u < 2 ^ 63)
    by (intros u Hu; apply (version_bounds w u (run c d)); [apply Hd' | done]).
  split_and!; try lia.
  - intros e He. pose proof (history_sequence w d e (inv_events d Hd) He) as Hs.
    apply history_elem in He as [He <-]. pose proof (ei_bound d (inv_events d Hd) e v He Hv). lia.
  - intros ->. destruct Hstep as [Hu|[Hv1 _]]; [done|]. apply Hlt in Hv1. lia.
  - intros -> [u Hf]. destruct (decide (u = 2 ^ 63 - 1)) as [->|Hne].
    + destruct (tracker_step c d Hd) as [_ [?|Hf' _ _ _ _ _ _|w' v' Hf' _ Hv1 _ _]]; [done | congruence |].
      rewrite Hf in Hf'. injection Hf' as <- <-. apply Hlt in Hv1. lia.
    + eapply stale_call; [done.. |]. congruence.
  - destruct Hstep as [Hu|[Hv1 _]]; [left; by rewrite (version_untouched w d)|]. right. split; [done|]. by apply Hlt.
Qed.
End system.

(** ** Instances *)

(** On ASCII text, [nfkc_casefold] lowers the letters. *)
Fixpoint ascii_fold (s : string) : string :=
  match s with
  | EmptyString => ""
  | String c s' =>
      String (if char_between "A" "Z" c then ascii_of_nat (nat_of_ascii c + 32) else c) (ascii_fold s')
  end.

Definition ex_calls : list Call :=
  [c_create ex_time (ex_work (ex_id 1) "First Work"); c_create ex_time (ex_work (ex_id 2) "Second");
   c_append (ex_id 10) (ex_id 1) 1 (ex_id 20) "comment_added" (Some "one"%string) ex_time None None;
   c_append (ex_id 11) (ex_id 1) 2 (ex_id 21) "comment_added" (Some "two"%string) ex_time None None;
   c_set_parent (ex_id 1) (Some (ex_id 2)) 3;
   c_append (ex_id 12) (ex_id 1) 4 (ex_id 22) "comment_added" (Some "three"%string) ex_time None None].

#[local] Abbreviation ex_state := (run_all ascii_fold ex_calls (empty_db ∅)).

Lemma run_all_nil d : run_all ascii_fold [] d = d.
Proof. reflexivity. Qed.

Lemma ex_state_inv : Inv ascii_fold ex_state.
Proof. apply tracker_steps, Inv_empty. Qed.

Lemma tracker_invariant_witness :
  ∃ r, works ex_state !! ex_id 1 = Some r ∧ row_version (item_of r) = 5 ∧ normalized_title r = "first work" ∧
    sequence <$> history (ex_id 1) ex_state = seqZ 1 3.
Proof.
  destruct (works ex_state !! ex_id 1) as [r|] eqn:E; [|vm_compute in E; discriminate E].
  exists r. pose proof (tracker_invariant ascii_fold ∅ ex_calls (ex_id 1) r E) as (_ & _ & _ & H & _).
  split; [done|]. vm_compute in E. injection E as <-. split; [done|]. split; [done|].
  etrans; [exact H|]. vm_compute. reflexivity.
Defined.

Lemma tracker_fence_witness :
  version_of (ex_id 1) ex_state = Some 5 ∧
  run ascii_fold (c_set_parent (ex_id 1) None 4) ex_state = ex_state.
Proof.
  assert (Hv : version_of (ex_id 1) ex_state = Some 5) by (vm_compute; reflexivity).
  split; [done|].
  destruct (tracker_fence ascii_fold [] ex_state (ex_id 1) 5 ex_state_inv Hv) as (v' & H1 & _ & _ & H).
  rewrite run_all_nil in H1, H. rewrite Hv in H1. injection H1 as <-.
  apply (H (c_set_parent (ex_id 1) None 4) 4); [reflexivity | lia].
Defined.

Definition ex_again (text : string) : M TrackerDB AppendOutcome :=
  append (ex_id 30) (ex_id 2) 1 (ex_id 40) "comment_added" (Some text) ex_time None None.

Lemma append_replay_witness :
  ∃ o, (ex_again "x" ex_state).2 = Ok o ∧
    (ex_again "x" (ex_again "x" ex_state).1).2 = Ok (mkAppended (out_event o) 2 false) ∧
    is_ok (ex_again "y" (ex_again "x" ex_state).1).2 = false.
Proof.
  destruct (ex_again "x" ex_state) as [d1 r] eqn:E.
  destruct r as [o|e]; [|exfalso; apply (f_equal snd) in E; vm_compute in E; discriminate E].
  assert (Hv : is_Some (version_of (ex_id 2) d1)).
  { apply (f_equal fst) in E. cbn [fst] in E. rewrite <- E. eexists. vm_compute. reflexivity. }
  assert (Ho : out_event o = out_event (mkAppended (new_event (ex_id 30) (ex_id 2) (ex_id 40) "comment_added"
    (Some "x"%string) ex_time None None 1 ex_state) 2 true)).
  { apply (f_equal snd) in E. cbn [snd] in E. vm_compute in E. injection E as <-. vm_compute. reflexivity. }
  exists o. split; [done|]. cbn [fst]. split.
  - pose proof (append_replay ascii_fold _ _ _ _ _ _ _ _ _ ex_state d1 o [] (ex_id 30) (ex_id 2) 1 "comment_added"
      (Some "x"%string) ex_time None None ex_state_inv E Hv eq_refl) as H.
    cbv zeta in H. rewrite run_all_nil in H. unfold ex_again. rewrite H, Ho. vm_compute. reflexivity.
  - pose proof (append_replay ascii_fold _ _ _ _ _ _ _ _ _ ex_state d1 o [] (ex_id 30) (ex_id 2) 1 "comment_added"
      (Some "y"%string) ex_time None None ex_state_inv E Hv eq_refl) as H.
    cbv zeta in H. rewrite run_all_nil in H. unfold ex_again. rewrite H, Ho. vm_compute. reflexivity.
Defined.

(** A work whose version is the largest there is. *)
Definition ex_last : TrackerDB :=
  with_works {[ex_id 1 := mkWorkRow (with_version (2 ^ 63 - 1) (ex_work (ex_id 1) "last")) "last"]} (empty_db ∅).

Lemma ex_last_inv : Inv ascii_fold ex_last.
Proof.
  apply Inv_with_works; [apply Inv_empty | |].
  - apply map_Forall_singleton. unfold row_ok. cbn. by split_and!.
  - intros x v Hx. by apply (f_equal is_some) in Hx.
Qed.

Lemma tracker_bounds_witness :
  version_of (ex_id 1) ex_last = Some (2 ^ 63 - 1) ∧
  run ascii_fold (c_set_parent (ex_id 1) None (2 ^ 63 - 1)) ex_last = ex_last.
Proof.
  assert (Hv : version_of (ex_id 1) ex_last = Some (2 ^ 63 - 1)) by (vm_compute; reflexivity).
  split; [done|].
  apply (tracker_bounds ascii_fold (c_set_parent (ex_id 1) None (2 ^ 63 - 1)) ex_last (ex_id 1) _ ex_last_inv Hv);
    [done | by eexists].
Defined.

(** Two pages of two events, another event being appended between them. *)
Definition ex_between : list (list Call) :=
  [[c_append (ex_id 13) (ex_id 1) 5 (ex_id 23) "comment_added" (Some "four"%string) ex_time None None]; []].

Lemma history_pages_witness :
  let states := (λ n, run_all ascii_fold (concat (take n ex_between)) ex_state) <$> seq 0 (length ex_between) in
  history (ex_id 1) ex_state `prefix_of` follow (ex_id 1) 2 None states ∧
  sequence <$> follow (ex_id 1) 2 None states = [1; 2; 3; 4].
Proof.
  intros states. split; [|vm_compute; reflexivity].
  apply (proj2 (history_pages ascii_fold (ex_id 1) 2 ex_state ex_between ex_state_inv ltac:(lia))).
  vm_compute. discriminate.
Defined.
