(* ===== verification/PriorityClaims.v ===== *)
(** * Priority claims ([priority_claims.py])

    A claim says where its author would place a work or a project: in a band,
    before another, or on hold.  Claims are occurrences: what a claim says
    never changes, and it stops being current only when a later claim of the
    same subject supersedes it.  A method of the repository is one
    transaction; [now] is the database's [now()], the time of its start. *)

From S2P Require Import Prelude Tables Paging Json Codec Tracker TrackerSystem.

Local Open Scope Z_scope.

(** ** Data *)

Inductive ClaimKind := HUMAN_PRIORITY | AGENT_RECOMMENDATION.
Inductive SubjectKind := WORK | PROJECT.
Inductive RelationKind := BAND | BEFORE | HOLD.
Inductive PriorityBand := HIGH | NORMAL.
Inductive ClaimState := CURRENT | SUPERSEDED.

#[export] Instance ClaimKind_eq_dec : EqDecision ClaimKind.
Proof. solve_decision. Defined.
#[export] Instance SubjectKind_eq_dec : EqDecision SubjectKind.
Proof. solve_decision. Defined.
#[export] Instance ClaimRelation_eq_dec : EqDecision RelationKind.
Proof. solve_decision. Defined.
#[export] Instance PriorityBand_eq_dec : EqDecision PriorityBand.
Proof. solve_decision. Defined.
#[export] Instance ClaimState_eq_dec : EqDecision ClaimState.
Proof. solve_decision. Defined.

Record NewPriorityClaim := mkNewClaim {
  claim_id : uuid; claim_kind : ClaimKind; subject_kind : SubjectKind; subject_id : uuid;
  relation_kind : RelationKind; rationale : string; source_label : string; source_ref : string;
  relation_target_id : option uuid; band : option PriorityBand;
  source_observed_revision : option string; supersedes_claim_id : option uuid }.

#[export] Instance NewPriorityClaim_eq_dec : EqDecision NewPriorityClaim.
Proof. solve_decision. Defined.

(** A stored claim. *)
Record PriorityClaim := mkClaim { said : NewPriorityClaim; claim_state : ClaimState; claimed_at : datetime }.

#[export] Instance PriorityClaim_eq_dec : EqDecision PriorityClaim.
Proof. solve_decision. Defined.

(** The table [priority_claims], oldest insertion first, beside the tables of
    the tracker. *)
Record ClaimDB := mkClaimDB { tracker : TrackerDB; claims : list PriorityClaim }.

Definition with_claims (l : list PriorityClaim) (d : ClaimDB) : ClaimDB := mkClaimDB (tracker d) l.

(** ** Constraints *)

Definition between (lo hi : Z) (s : string) : bool := (lo <=? py_len s) && (py_len s <=? hi).

(** [ck_priority_relation_shape] *)
Definition relation_shape (v : NewPriorityClaim) : bool :=
  match relation_kind v with
  | BAND => is_some (band v) && is_none (relation_target_id v)
  | BEFORE => is_none (band v) && is_some (relation_target_id v)
  | HOLD => is_none (band v) && is_none (relation_target_id v)
  end.

Definition claim_checks (v : NewPriorityClaim) : bool :=
  relation_shape v && between 1 300 (rationale v) && between 1 512 (source_label v)
  && between 1 512 (source_ref v)
  && match source_observed_revision v with Some r => between 1 512 r | None => true end
  && negb (eqb (supersedes_claim_id v) (Some (claim_id v))).

Definition claim_nul (v : NewPriorityClaim) : bool :=
  has_nul (rationale v) || has_nul (source_label v) || has_nul (source_ref v)
  || opt_nul (source_observed_revision v).

Definition has_id (i : uuid) (c : PriorityClaim) : bool := eqb (claim_id (said c)) i.

(** The primary key, the unique and the foreign key of [supersedes_claim_id]. *)
Definition claim_conflict (v : NewPriorityClaim) (d : ClaimDB) : bool :=
  existsb (λ c, has_id (claim_id v) c
    || (is_some (supersedes_claim_id v) && eqb (supersedes_claim_id (said c)) (supersedes_claim_id v))) (claims d)
  || match supersedes_claim_id v with Some p => negb (existsb (has_id p) (claims d)) | None => false end.

Definition insert_claim (v : NewPriorityClaim) (s : ClaimState) (now : datetime) : M ClaimDB PriorityClaim :=
  refuse_if (claim_nul v);;
  d ← get_st;
  throw_if (negb (claim_checks v) || claim_conflict v d) IntegrityError "priority_claims";;
  put_st (with_claims (claims d ++ [mkClaim v s now]) d);;
  mret (mkClaim v s now).

(** ** Subjects *)

Definition subject_exists (kind : SubjectKind) (i : uuid) (d : ClaimDB) : bool :=
  match kind with
  | WORK => is_some (works (tracker d) !! i)
  | PROJECT => is_some (projects (tracker d) !! i)
  end.

Definition _require_subject (kind : SubjectKind) (i : uuid) : M ClaimDB unit :=
  d ← get_st;
  throw_if (negb (subject_exists kind i d)) LookupError
    (match kind with WORK => "work subject does not exist" | PROJECT => "project subject does not exist" end).

Definition _require_revision (kind : SubjectKind) (i : uuid) (observed : option string) : M ClaimDB unit :=
  match kind, observed with
  | WORK, Some revision =>
      d ← get_st;
      match works (tracker d) !! i with
      | None => throw LookupError "work subject does not exist"
      | Some row =>
          actual ← lift (canonical_revision i (row_version (item_of row)));
          throw_if (negb (eqb revision actual)) StalePriorityClaim "source revision changed"
      end
  | _, _ => mret tt
  end.

(** ** Operations *)

Definition find_claim (i : uuid) : M ClaimDB (option PriorityClaim) :=
  d ← get_st;
  lift (one_or_none (List.filter (has_id i) (claims d))).

(** The [UPDATE] that ends a claim. *)
Definition superseded (i : uuid) (c : PriorityClaim) : PriorityClaim :=
  if has_id i c then mkClaim (said c) SUPERSEDED (claimed_at c) else c.

Definition supersede (i : uuid) : M ClaimDB unit :=
  d ← get_st;
  put_st (with_claims (superseded i <$> claims d) d).

(** The predecessor is current, of this kind and about this subject. *)
Definition in_scope (kind : ClaimKind) (v : NewPriorityClaim) (old : PriorityClaim) : bool :=
  eqb (claim_state old) CURRENT && eqb (claim_kind (said old)) kind
  && eqb (subject_kind (said old)) (subject_kind v) && eqb (subject_id (said old)) (subject_id v).

Definition end_predecessor (p : uuid) (kind : ClaimKind) (v : NewPriorityClaim) (missing wrong : string)
  : M ClaimDB unit :=
  predecessor ← find_claim p;
  match predecessor with
  | None => throw LookupError missing
  | Some old =>
      throw_if (negb (in_scope kind v old)) ValueError wrong;;
      supersede (claim_id (said old))
  end.

Definition record (now : datetime) (v : NewPriorityClaim) (observed : option string)
  : M ClaimDB PriorityClaim :=
  throw_if (eqb (Some (claim_id v)) (supersedes_claim_id v)) ValueError "priority claim cannot supersede itself";;
  transaction (
    _require_subject (subject_kind v) (subject_id v);;
    _require_revision (subject_kind v) (subject_id v) observed;;
    (if eqb (relation_kind v) BEFORE then
       throw_if (eqb (relation_target_id v) (Some (subject_id v))) ValueError "priority claim cannot precede itself";;
       match relation_target_id v with
       | Some t => _require_subject (subject_kind v) t
       | None => mret tt
       end
     else mret tt);;
    match supersedes_claim_id v with
    | Some p => end_predecessor p (claim_kind v) v "superseded priority claim does not exist"
                  "superseded priority claim is not current in this scope"
    | None => mret tt
    end;;
    insert_claim v CURRENT now).

Definition get (i : uuid) : M ClaimDB (option PriorityClaim) := transaction (find_claim i).

Definition clear (now : datetime) (v : NewPriorityClaim) (observed : option string)
  : M ClaimDB PriorityClaim :=
  match supersedes_claim_id v with
  | None => throw ValueError "priority clear requires a distinct target claim"
  | Some p =>
      throw_if (eqb (claim_id v) p) ValueError "priority clear requires a distinct target claim";;
      transaction (
        replay ← find_claim (claim_id v);
        match replay with
        | Some c => mret c
        | None =>
            _require_subject (subject_kind v) (subject_id v);;
            _require_revision (subject_kind v) (subject_id v) observed;;
            end_predecessor p HUMAN_PRIORITY v "cleared priority claim does not exist"
              "cleared priority claim is not current HUMAN state in scope";;
            insert_claim v SUPERSEDED now
        end)
  end.

(** [ORDER BY created_at, claim_id] *)
Definition claim_le (a b : PriorityClaim) : bool :=
  if dt_us (claimed_at a) =? dt_us (claimed_at b)
  then str_leb (claim_id (said a)) (claim_id (said b))
  else dt_us (claimed_at a) <? dt_us (claimed_at b).

Definition about (kind : SubjectKind) (i : uuid) (c : PriorityClaim) : bool :=
  eqb (subject_kind (said c)) kind && eqb (subject_id (said c)) i && eqb (claim_state c) CURRENT.

Definition current (kind : SubjectKind) (i : uuid) : M ClaimDB (list PriorityClaim) := λ d,
  (d, Ok (py_sort claim_le (List.filter (about kind i) (claims d)))).

Definition before_edges (kind : SubjectKind) (subjects : list uuid) (limit : Z)
  : M ClaimDB (list PriorityClaim) :=
  throw_if ((limit <? 1) || (500 <? limit) || (500 <? Z.of_nat (length subjects))) ValueError
    "priority claim scope and limit must be between 1 and 500";;
  match subjects with
  | [] => mret []
  | _ => λ d,
      (d, Ok (take (Z.to_nat limit) (py_sort claim_le (List.filter (λ c,
        eqb (subject_kind (said c)) kind && mem (subject_id (said c)) subjects
        && match relation_target_id (said c) with Some t => mem t subjects | None => false end
        && eqb (relation_kind (said c)) BEFORE && eqb (claim_state c) CURRENT) (claims d)))))
  end.

(** The loop of [provenance]; [n] is what is left of the limit. *)
Fixpoint provenance_loop (n : nat) (at_ : option uuid) : M ClaimDB (list PriorityClaim) :=
  match n, at_ with
  | S n, Some i =>
      row ← find_claim i;
      match row with
      | None => mret []
      | Some c =>
          rest ← provenance_loop n (supersedes_claim_id (said c));
          mret (c :: rest)
      end
  | _, _ => mret []
  end.

Definition provenance (i : uuid) (limit : Z) : M ClaimDB (list PriorityClaim) :=
  throw_if ((limit <? 1) || (500 <? limit)) ValueError
    "priority claim provenance limit must be between 1 and 500";;
  provenance_loop (Z.to_nat limit) (Some i).

(** ** What the operations do *)

(** The table in which the predecessor, if there is one, has ended. *)
Definition ended (o : option uuid) (l : list PriorityClaim) : list PriorityClaim :=
  match o with Some p => superseded p <$> l | None => l end.

Definition added (c : PriorityClaim) (d : ClaimDB) : ClaimDB :=
  with_claims (ended (supersedes_claim_id (said c)) (claims d) ++ [c]) d.

Definition revision_ok (kind : SubjectKind) (i : uuid) (observed : option string) (d : ClaimDB) : Prop :=
  match kind, observed with
  | WORK, Some revision =>
      ∃ row, works (tracker d) !! i = Some row ∧ canonical_revision i (row_version (item_of row)) = Ok revision
  | _, _ => True
  end.

(** When a claim can be added. *)
Record addable (kind : ClaimKind) (v : NewPriorityClaim) (observed : option string) (d : ClaimDB) : Prop := {
  ad_subject : subject_exists (subject_kind v) (subject_id v) d = true;
  ad_revision : revision_ok (subject_kind v) (subject_id v) observed d;
  ad_sendable : claim_nul v = false;
  ad_checks : claim_checks v = true;
  ad_free : claim_conflict v d = false;
  ad_predecessor p : supersedes_claim_id v = Some p →
    ∃ old, List.filter (has_id p) (claims d) = [old] ∧ in_scope kind v old = true }.

Lemma said_superseded p c : said (superseded p c) = said c.
Proof. unfold superseded. by destruct (has_id p c). Qed.

Lemma said_ended o l : said <$> ended o l = said <$> l.
Proof.
  destruct o as [p|]; [|done]. cbn. rewrite <- list_fmap_compose. apply list_fmap_ext.
  intros i c _. apply said_superseded.
Qed.

Lemma existsb_said (P : NewPriorityClaim → bool) o l :
  existsb (λ c, P (said c)) (ended o l) = existsb (λ c, P (said c)) l.
Proof.
  assert (H : ∀ l, existsb (λ c, P (said c)) l = existsb P (said <$> l)).
  { induction l0 as [|c l0 IH]; [done|]. cbn. by rewrite IH. }
  by rewrite !H, said_ended.
Qed.

Lemma conflict_ended v o d :
  claim_conflict v (with_claims (ended o (claims d)) d) = claim_conflict v d.
Proof.
  unfold claim_conflict, has_id. cbn [claims with_claims].
  rewrite (existsb_said (λ n, eqb (claim_id n) (claim_id v) || is_some (supersedes_claim_id v) &&
    eqb (supersedes_claim_id n) (supersedes_claim_id v))).
  destruct (supersedes_claim_id v) as [p|]; [|done]. by rewrite (existsb_said (λ n, eqb (claim_id n) p)).
Qed.

Lemma require_subject_run kind i d :
  _require_subject kind i d = (d, if subject_exists kind i d then Ok tt else
    raise LookupError (match kind with WORK => "work subject does not exist" | PROJECT => "project subject does not exist" end)).
Proof.
  unfold _require_subject, throw_if, raise_if, mbind, M_bind, get_st. by destruct (subject_exists kind i d).
Qed.

Lemma require_revision_run kind i observed d :
  (_require_revision kind i observed d).1 = d ∧
  ((_require_revision kind i observed d).2 = Ok tt ↔ revision_ok kind i observed d).
Proof.
  unfold _require_revision, revision_ok. destruct kind; [|done]. destruct observed as [rev|]; [|done].
  unfold mbind, M_bind, get_st, lift, throw_if, raise_if, throw.
  destruct (works (tracker d) !! i) as [row|]; [|split; [done|]; split; [done | by intros (? & ? & _)]].
  destruct (canonical_revision i _) as [actual|e] eqn:E; (split; [done|]; split; cbn).
  - destruct (eqb rev actual) eqn:Er; cbn; [|done]. rewrite eqb_true in Er. subst. eauto.
  - intros (row' & [= <-] & H). rewrite E in H. injection H as ->. by rewrite eqb_refl.
  - done.
  - intros (row' & [= <-] & H). congruence.
Qed.

Lemma end_predecessor_run p kind v m w d :
  (∀ old, List.filter (has_id p) (claims d) = [old] → in_scope kind v old = true →
    end_predecessor p kind v m w d = (with_claims (superseded p <$> claims d) d, Ok tt)) ∧
  ∀ d', end_predecessor p kind v m w d = (d', Ok tt) →
    ∃ old, List.filter (has_id p) (claims d) = [old] ∧ in_scope kind v old = true ∧
      d' = with_claims (superseded p <$> claims d) d.
Proof.
  assert (Hp : ∀ old, List.filter (has_id p) (claims d) = [old] → claim_id (said old) = p).
  { intros old Hf. assert (Hin : In old (List.filter (has_id p) (claims d))) by (rewrite Hf; by left).
    apply filter_In in Hin as [_ Hin]. unfold has_id in Hin. by rewrite eqb_true in Hin. }
  unfold end_predecessor, find_claim, supersede, mbind, M_bind, get_st, lift, throw_if, raise_if, throw, put_st.
  destruct (List.filter (has_id p) (claims d)) as [|old [|old' l]]; cbn [one_or_none]; [split; done| |split; done].
  specialize (Hp old eq_refl). split.
  - intros ? [= <-] ->. cbn. by rewrite Hp.
  - intros d'. destruct (in_scope kind v old) eqn:E; cbn; [|done]. intros [= <-]. rewrite Hp. eauto.
Qed.

Lemma insert_claim_run v s now d :
  (claim_nul v = false → claim_checks v = true → claim_conflict v d = false →
    insert_claim v s now d = (with_claims (claims d ++ [mkClaim v s now]) d, Ok (mkClaim v s now))) ∧
  ∀ d' c, insert_claim v s now d = (d', Ok c) →
    claim_nul v = false ∧ claim_checks v = true ∧ claim_conflict v d = false ∧
    c = mkClaim v s now ∧ d' = with_claims (claims d ++ [c]) d.
Proof.
  unfold insert_claim, refuse_if, mbind, M_bind, get_st, throw_if, raise_if, put_st, mret, M_ret. split.
  - by intros -> -> ->.
  - intros d' c. destruct (claim_nul v), (claim_checks v), (claim_conflict v d); try done. by intros [= <- <-].
Qed.

(** The predecessor ends and the claim is inserted. *)
Definition succeed (kind : ClaimKind) (v : NewPriorityClaim) (missing wrong : string) (s : ClaimState) (now : datetime)
  : M ClaimDB PriorityClaim :=
  match supersedes_claim_id v with
  | Some p => end_predecessor p kind v missing wrong
  | None => mret tt
  end;;
  insert_claim v s now.

Lemma succeed_run kind v m w s now d :
  let c := mkClaim v s now in
  let fine := claim_nul v = false ∧ claim_checks v = true ∧ claim_conflict v d = false ∧
    ∀ p, supersedes_claim_id v = Some p →
      ∃ old, List.filter (has_id p) (claims d) = [old] ∧ in_scope kind v old = true in
  (fine → succeed kind v m w s now d = (added c d, Ok c)) ∧
  ∀ d' c', succeed kind v m w s now d = (d', Ok c') → fine ∧ c' = c ∧ d' = added c d.
Proof.
  cbv zeta. unfold succeed, added. cbn [said].
  set (d1 := with_claims (ended (supersedes_claim_id v) (claims d)) d).
  assert (Hc1 : claim_conflict v d1 = claim_conflict v d) by apply conflict_ended.
  destruct (insert_claim_run v s now d1) as [I1 I2]. rewrite Hc1 in *.
  destruct (supersedes_claim_id v) as [p|] eqn:Ep.
  - destruct (end_predecessor_run p kind v m w d) as [E1 E2]. split.
    + intros (H1 & H2 & H3 & H4). destruct (H4 p eq_refl) as (old & Hf & Hs).
      unfold mbind, M_bind. rewrite (E1 old) by done. by apply I1.
    + intros d' c' (d2 & [] & He & Hi)%M_bind_Ok. destruct (E2 d2 He) as (old & Hf & Hs & ->).
      apply I2 in Hi as (H1 & H2 & H3 & -> & ->). cbn; rewrite ?Ep; split_and!; try done. intros p' [= <-]. eauto.
  - assert (Hd1 : d1 = d) by (by destruct d). rewrite Hd1 in *. split.
    + intros (H1 & H2 & H3 & _). unfold mbind, M_bind, mret, M_ret. rewrite I1 by done. by destruct d.
    + intros d' c' (d2 & [] & [= <-] & Hi)%M_bind_Ok. apply I2 in Hi as (H1 & H2 & H3 & -> & ->).
      split_and!; try done.
Qed.

(** The target of a BEFORE claim is another existing subject. *)
Definition target_ok (v : NewPriorityClaim) (d : ClaimDB) : Prop :=
  relation_kind v = BEFORE →
  relation_target_id v ≠ Some (subject_id v) ∧
  ∀ t, relation_target_id v = Some t → subject_exists (subject_kind v) t d = true.

Lemma target_run v (d : ClaimDB) :
  let m := (if eqb (relation_kind v) BEFORE then
       throw_if (eqb (relation_target_id v) (Some (subject_id v))) ValueError "priority claim cannot precede itself";;
       match relation_target_id v with
       | Some t => _require_subject (subject_kind v) t
       | None => mret tt
       end
     else mret tt) : M ClaimDB unit in
  (m d).1 = d ∧ ((m d).2 = Ok tt ↔ target_ok v d).
Proof.
  cbv zeta. unfold target_ok. destruct (eqb (relation_kind v) BEFORE) eqn:E; [rewrite eqb_true in E | rewrite eqb_false in E; naive_solver].
  unfold throw_if, raise_if, mbind, M_bind. destruct (eqb (relation_target_id v) (Some (subject_id v))) eqn:Et;
    [rewrite eqb_true in Et; split; [done|]; split; [done | naive_solver]|]. rewrite eqb_false in Et.
  destruct (relation_target_id v) as [t|]; [|naive_solver]. rewrite require_subject_run. cbn.
  split; [done|]. destruct (subject_exists _ t d) eqn:Es; split; try done.
  - intros _ _. split; [done|]. by intros ? [= <-].
  - intros H. destruct (H E) as [_ H']. by rewrite (H' t) in Es.
Qed.

(** A step that reads only. *)
Lemma read_step {S A B} (m : M S A) (f : A → M S B) s s' b :
  (m s).1 = s → (m ≫= f) s = (s', Ok b) → ∃ a, (m s).2 = Ok a ∧ f a s = (s', Ok b).
Proof.
  unfold mbind, M_bind. destruct (m s) as [s1 [a|e]]; cbn; intros ->; [eauto | done].
Qed.

Lemma supersedes_self v p :
  claim_checks v = true → supersedes_claim_id v = Some p → p ≠ claim_id v.
Proof.
  unfold claim_checks. rewrite !andb_true_iff. intros [_ H] Hp ->. rewrite Hp, eqb_refl in H. done.
Qed.

Lemma find_claim_run i d : find_claim i d = (d, one_or_none (List.filter (has_id i) (claims d))).
Proof. done. Qed.

Lemma record_run now v observed d :
  (addable (claim_kind v) v observed d ∧ target_ok v d →
    record now v observed d = (added (mkClaim v CURRENT now) d, Ok (mkClaim v CURRENT now))) ∧
  ∀ d' c, record now v observed d = (d', Ok c) →
    (addable (claim_kind v) v observed d ∧ target_ok v d) ∧
    c = mkClaim v CURRENT now ∧ d' = added c d.
Proof.
  destruct (require_revision_run (subject_kind v) (subject_id v) observed d) as [R1 R2].
  destruct (target_run v d) as [T1 T2].
  destruct (succeed_run (claim_kind v) v "superseded priority claim does not exist"
    "superseded priority claim is not current in this scope" CURRENT now d) as [S1 S2].
  pose proof (require_subject_run (subject_kind v) (subject_id v) d) as Hq.
  unfold record. split.
  - intros [[A1 A2 A3 A4 A5 A6] Ht]. rewrite A1 in Hq.
    rewrite (read_ok _ _ d tt); [|done|].
    2: { rewrite throw_if_false; [done|]. apply eqb_false. intros E.
         by apply (supersedes_self v _ A4 (eq_sym E)). }
    apply transaction_ok. rewrite (read_ok _ _ d tt); [|by rewrite Hq|by rewrite Hq].
    rewrite (read_ok _ _ d tt); [|done | by apply R2].
    rewrite (read_ok _ _ d tt); [|done | by apply T2].
    by apply S1.
  - intros d' c H. apply read_step in H as ([] & _ & H); [|done]. rewrite transaction_ok in H.
    apply read_step in H as ([] & H1 & H); [|by rewrite Hq].
    apply read_step in H as ([] & H2 & H); [|done].
    apply read_step in H as ([] & H3 & H); [|done].
    apply S2 in H as ((H4 & H5 & H6 & H7) & -> & ->).
    split; [|done]. split; [|by apply T2]. split; try done; [|by apply R2].
    rewrite Hq in H1. by destruct (subject_exists _ _ d).
Qed.

Lemma clear_run now v observed d :
  (∀ p, supersedes_claim_id v = Some p → p ≠ claim_id v →
    (∀ c, List.filter (has_id (claim_id v)) (claims d) = [c] → clear now v observed d = (d, Ok c)) ∧
    (addable HUMAN_PRIORITY v observed d →
      clear now v observed d = (added (mkClaim v SUPERSEDED now) d, Ok (mkClaim v SUPERSEDED now)))) ∧
  ∀ d' c, clear now v observed d = (d', Ok c) →
    d' = d ∧ List.filter (has_id (claim_id v)) (claims d) = [c] ∨
    addable HUMAN_PRIORITY v observed d ∧ is_Some (supersedes_claim_id v) ∧
    c = mkClaim v SUPERSEDED now ∧ d' = added c d.
Proof.
  destruct (require_revision_run (subject_kind v) (subject_id v) observed d) as [R1 R2].
  destruct (succeed_run HUMAN_PRIORITY v "cleared priority claim does not exist"
    "cleared priority claim is not current HUMAN state in scope" SUPERSEDED now d) as [S1 S2].
  pose proof (require_subject_run (subject_kind v) (subject_id v) d) as Hq.
  unfold clear. unfold succeed in S1, S2. destruct (supersedes_claim_id v) as [p|] eqn:Ep; [|split; [done|]; by intros].
  split.
  - intros p' [= <-] Hne. rewrite (read_ok _ _ d tt); [|done|].
    2: { rewrite throw_if_false; [done|]. by apply eqb_false, not_eq_sym. }
    split; [intros c Hc | intros [A1 A2 A3 A4 A5 A6]]; apply transaction_ok.
    + rewrite (read_ok _ _ d (Some c)); [done..|]. by rewrite find_claim_run, Hc.
    + assert (Hnone : List.filter (has_id (claim_id v)) (claims d) = []).
      { unfold claim_conflict in A5. rewrite orb_false_iff in A5. destruct A5 as [A5 _].
        apply filter_none. intros c Hc. rewrite existsb_false in A5. apply A5, orb_false_iff in Hc. tauto. }
      rewrite A1 in Hq. rewrite (read_ok _ _ d None); [|done | by rewrite find_claim_run, Hnone].
      rewrite (read_ok _ _ d tt); [|by rewrite Hq|by rewrite Hq].
      rewrite (read_ok _ _ d tt); [|done | by apply R2].
      rewrite Ep in A6. by apply S1.
  - intros d' c H. apply read_step in H as ([] & _ & H); [|done]. rewrite transaction_ok in H.
    apply read_step in H as (o & Ho & H); [|done]. rewrite find_claim_run in Ho.
    destruct (List.filter (has_id (claim_id v)) (claims d)) as [|c0 [|]]; cbn in Ho; try done; injection Ho as <-;
      [right | injection H as <- <-; by left].
    apply read_step in H as ([] & H1 & H); [|by rewrite Hq].
    apply read_step in H as ([] & H2 & H); [|done].
    apply S2 in H as ((H4 & H5 & H6 & H7) & -> & ->).
    split; [|by split_and!]. split; try done; [| by apply R2 | by rewrite Ep].
    rewrite Hq in H1. by destruct (subject_exists _ _ d).
Qed.

(** ** The claims as an append-only history *)

(** [p] has ended in [l], before position [n], about the subject of [v]. *)
Definition ended_before (l : list PriorityClaim) (n : nat) (p : uuid) (v : NewPriorityClaim) : Prop :=
  ∃ j old, (j < n)%nat ∧ l !! j = Some old ∧ claim_id (said old) = p ∧ claim_state old = SUPERSEDED ∧
    subject_kind (said old) = subject_kind v ∧ subject_id (said old) = subject_id v.

(** [c] was born ended, by [clear], and has no successor. *)
Definition clearing (l : list PriorityClaim) (c : PriorityClaim) : Prop :=
  claim_state c = SUPERSEDED ∧ ∀ s, s ∈ l → supersedes_claim_id (said s) ≠ Some (claim_id (said c)).

(** [c] may end [old]: they are of one kind, or [c] clears a human claim. *)
Definition kind_in_scope (l : list PriorityClaim) (c old : PriorityClaim) : Prop :=
  claim_kind (said old) = claim_kind (said c) ∨ claim_kind (said old) = HUMAN_PRIORITY ∧ clearing l c.

Record ClaimsInv (d : ClaimDB) : Prop := {
  ci_ids : NoDup ((claim_id ∘ said) <$> claims d);
  ci_checks c : c ∈ claims d → claim_checks (said c) = true;
  ci_link i c p : claims d !! i = Some c → supersedes_claim_id (said c) = Some p →
    ended_before (claims d) i p (said c);
  ci_scope c old : c ∈ claims d → old ∈ claims d → supersedes_claim_id (said c) = Some (claim_id (said old)) →
    kind_in_scope (claims d) c old;
  ci_once i j c c' p : claims d !! i = Some c → claims d !! j = Some c' →
    supersedes_claim_id (said c) = Some p → supersedes_claim_id (said c') = Some p → i = j;
  ci_ended c : c ∈ claims d → claim_state c = SUPERSEDED →
    is_Some (supersedes_claim_id (said c)) ∨
    ∃ c', c' ∈ claims d ∧ supersedes_claim_id (said c') = Some (claim_id (said c));
  ci_subject c : c ∈ claims d → subject_exists (subject_kind (said c)) (subject_id (said c)) d = true }.

(** How a claim ages: what it says stays, and it ends once, by a successor that
    was inserted after the [n] claims there were. *)
Definition aged (l' : list PriorityClaim) (n : nat) (c c' : PriorityClaim) : Prop :=
  said c' = said c ∧ claimed_at c' = claimed_at c ∧
  (c' = c ∨ claim_state c = CURRENT ∧ claim_state c' = SUPERSEDED ∧
     ∃ j s, (n <= j)%nat ∧ l' !! j = Some s ∧ supersedes_claim_id (said s) = Some (claim_id (said c))).

Definition evolves (d d' : ClaimDB) : Prop :=
  (length (claims d) <= length (claims d'))%nat ∧
  ∀ i c, claims d !! i = Some c → ∃ c', claims d' !! i = Some c' ∧ aged (claims d') (length (claims d)) c c'.

#[export] Instance evolves_preorder : PreOrder evolves.
Proof.
  split.
  - intros d. split; [done|]. intros i c Hc. exists c. unfold aged. auto.
  - intros d1 d2 d3 [L1 H1] [L2 H2]. split; [lia|]. intros i c Hc.
    destruct (H1 i c Hc) as (c1 & Hc1 & S1 & T1 & A1). destruct (H2 i c1 Hc1) as (c2 & Hc2 & S2 & T2 & A2).
    exists c2. split; [done|]. unfold aged. rewrite S2, T2. split_and!; try done.
    destruct A1 as [->|(C1 & C1' & j & s & Hj & Hs & Hp)].
    + destruct A2 as [A2|(C & C' & j & s & Hj & Hs & Hp)]; [by left|]. right. split_and!; try done.
      exists j, s. split_and!; try done. lia.
    + destruct A2 as [->|(C & _)]; [|congruence]. right. split_and!; try done.
      destruct (H2 j s Hs) as (s' & Hs' & Ss' & _). exists j, s'. by rewrite Ss'.
Qed.

Lemma has_id_unique d c i : NoDup ((claim_id ∘ said) <$> claims d) → c ∈ claims d → claim_id (said c) = i →
  List.filter (has_id i) (claims d) = [c].
Proof.
  intros Hd Hc <-. apply (filter_unique (claim_id ∘ said)); [done | | done | by apply eqb_true].
  intros y _ Hy. unfold has_id in Hy. by rewrite eqb_true in Hy.
Qed.

Lemma ended_lookup o l i : ended o l !! i = (λ c, match o with Some p => superseded p c | None => c end) <$> l !! i.
Proof. destruct o; cbn; [apply list_lookup_fmap | by destruct (l !! i)]. Qed.

Lemma ended_length o l : length (ended o l) = length l.
Proof. destruct o; cbn; [apply length_fmap | done]. Qed.

(** A claim of the table to which a claim was added: an old one, perhaps
    ended now, or the new one. *)
Lemma added_lookup c d i c' :
  claims (added c d) !! i = Some c' →
  (∃ c0, claims d !! i = Some c0 ∧ said c' = said c0 ∧ claimed_at c' = claimed_at c0 ∧
     (c' = c0 ∧ Some (claim_id (said c0)) ≠ supersedes_claim_id (said c) ∨
      supersedes_claim_id (said c) = Some (claim_id (said c0)) ∧ claim_state c' = SUPERSEDED)) ∨
  i = length (claims d) ∧ c' = c.
Proof.
  cbn. rewrite lookup_app. destruct (ended _ _ !! i) as [x|] eqn:E.
  - intros [= ->]. left. rewrite ended_lookup in E. destruct (claims d !! i) as [c0|]; [|done].
    injection E as <-. exists c0. split; [done|]. destruct (supersedes_claim_id (said c)) as [p|]; [|by auto].
    unfold superseded. destruct (has_id p c0) eqn:Ep; unfold has_id in Ep; cbn.
    + rewrite eqb_true in Ep. subst. auto.
    + rewrite eqb_false in Ep. split_and!; try done. left. split; [done|]. congruence.
  - rewrite ended_length. intros Hx. right.
    apply lookup_ge_None in E. rewrite ended_length in E.
    destruct (i - length (claims d))%nat as [|k] eqn:Ek; [|done]. injection Hx as <-. split; [lia | done].
Qed.

Lemma added_old c d i c0 :
  claims d !! i = Some c0 →
  ∃ c', claims (added c d) !! i = Some c' ∧ said c' = said c0 ∧ claimed_at c' = claimed_at c0 ∧
    (c' = c0 ∧ Some (claim_id (said c0)) ≠ supersedes_claim_id (said c) ∨
     supersedes_claim_id (said c) = Some (claim_id (said c0)) ∧ claim_state c' = SUPERSEDED).
Proof.
  intros Hi. assert (Hlt : (i < length (claims d))%nat) by (by apply lookup_lt_Some in Hi).
  destruct (claims (added c d) !! i) as [c'|] eqn:E.
  - exists c'. split; [done|]. apply added_lookup in E as [(c1 & H1 & H)|[-> _]]; [|lia].
    rewrite Hi in H1. by injection H1 as <-.
  - apply lookup_ge_None in E. cbn in E. rewrite length_app, ended_length in E. lia.
Qed.

Lemma added_new c d : claims (added c d) !! length (claims d) = Some c.
Proof. cbn. rewrite lookup_app_r; rewrite ended_length; [|lia]. by rewrite Nat.sub_diag. Qed.

Lemma conflict_facts v d :
  claim_conflict v d = false →
  ∀ c, c ∈ claims d → claim_id (said c) ≠ claim_id v ∧
    ∀ p, supersedes_claim_id v = Some p → supersedes_claim_id (said c) ≠ Some p.
Proof.
  unfold claim_conflict. rewrite orb_false_iff. intros [H _] c Hc. rewrite existsb_false in H.
  specialize (H c Hc). rewrite orb_false_iff in H. destruct H as [H1 H2]. unfold has_id in H1. rewrite eqb_false in H1.
  split; [done|]. intros p Hp. rewrite Hp in H2. cbn in H2. by rewrite eqb_false in H2.
Qed.

Lemma in_scope_facts kind v old :
  in_scope kind v old = true →
  claim_state old = CURRENT ∧ claim_kind (said old) = kind ∧
  subject_kind (said old) = subject_kind v ∧ subject_id (said old) = subject_id v.
Proof. unfold in_scope. rewrite !andb_true_iff, !eqb_true. tauto. Qed.

Lemma claims_elem d c : c ∈ claims d ↔ ∃ i, claims d !! i = Some c.
Proof. apply list_elem_of_lookup. Qed.

Section added.
Context (kind : ClaimKind) (v : NewPriorityClaim) (observed : option string) (s : ClaimState) (now : datetime) (d : ClaimDB).
Context (Hd : ClaimsInv d) (Hv : addable kind v observed d) (Hs : s = SUPERSEDED → is_Some (supersedes_claim_id v)).
Context (Hk : kind = claim_kind v ∨ kind = HUMAN_PRIORITY ∧ s = SUPERSEDED).
#[local] Set Default Proof Using "All".

Let c := mkClaim v s now.

Lemma added_evolves : evolves d (added c d).
Proof.
  split; [cbn; rewrite length_app, ended_length; lia|].
  intros i c0 Hi. destruct (added_old c d i c0 Hi) as (c' & Hc' & H1 & H2 & H3). exists c'. split; [done|].
  split; [done|]. split; [done|]. destruct H3 as [[-> _]|[Hp Hst]]; [by left|]. right.
  destruct (ad_predecessor _ _ _ _ Hv _ Hp) as (old & Hf & Hsc).
  assert (Hc0 : c0 ∈ claims d) by (apply claims_elem; eauto).
  rewrite (has_id_unique d c0) in Hf; [|apply Hd|done|done]. injection Hf as <-.
  apply in_scope_facts in Hsc as (Hcur & _). split_and!; try done.
  exists (length (claims d)), c. split_and!; [done | apply added_new | done].
Qed.

Lemma said_added : said <$> claims (added c d) = (said <$> claims d) ++ [v].
Proof. cbn. by rewrite fmap_app, said_ended. Qed.

Lemma ended_before_added i p w :
  ended_before (claims d) i p w → ended_before (claims (added c d)) i p w.
Proof.
  intros (j & old & Hj & Ho & H1 & H2 & H3 & H4). destruct (added_old c d j old Ho) as (o' & Ho' & E1 & _ & E3).
  exists j, o'. rewrite E1. split_and!; try done. by destruct E3 as [[-> _]|[_ ?]].
Qed.

Lemma added_link i c' p :
  claims (added c d) !! i = Some c' → supersedes_claim_id (said c') = Some p →
  ended_before (claims (added c d)) i p (said c').
Proof.
  intros Hi Hp. apply added_lookup in Hi as [(c0 & H0 & E & _)|[-> ->]].
  - rewrite E in *. apply ended_before_added. by apply (ci_link d Hd).
  - destruct (ad_predecessor _ _ _ _ Hv p Hp) as (old & Hf & Hsc).
    apply in_scope_facts in Hsc as (_ & _ & Hsk & Hsub).
    assert (Hin : In old (List.filter (has_id p) (claims d))) by (rewrite Hf; by left).
    apply filter_In in Hin as [Hin Hid]. unfold has_id in Hid. rewrite eqb_true in Hid.
    apply list_elem_of_In, claims_elem in Hin as [j Hj].
    destruct (added_old c d j old Hj) as (o' & Ho' & E1 & _ & E3).
    exists j, o'. rewrite E1. split_and!; try done; [by apply lookup_lt_Some in Hj|].
    destruct E3 as [[_ Hne]|[_ ?]]; [|done]. cbn in Hp, Hne. congruence.
Qed.

Lemma added_unnamed x : x ∈ claims (added c d) → supersedes_claim_id (said x) ≠ Some (claim_id v).
Proof.
  intros [i Hi]%claims_elem Hp. apply added_link with (p := claim_id v) in Hi as Hl; [|done].
  destruct Hl as (j & old & Hj & Ho & Hid & _).
  apply added_lookup in Ho as [(c0 & H0 & E & _)|[-> ->]].
  - rewrite E in Hid. assert (Hc0 : c0 ∈ claims d) by (apply claims_elem; eauto).
    by destruct (conflict_facts v d (ad_free _ _ _ _ Hv) c0 Hc0).
  - apply lookup_lt_Some in Hi. cbn in Hi. rewrite length_app, ended_length in Hi. cbn in Hi. lia.
Qed.

(** A claim that was cleared stays so: only current claims are named. *)
Lemma added_clearing c0 : c0 ∈ claims d → clearing (claims d) c0 → clearing (claims (added c d)) c0.
Proof.
  intros H0 [Hst Hn]. split; [done|]. intros x [i Hi]%claims_elem.
  apply added_lookup in Hi as [(c1 & H1 & E & _)|[-> ->]].
  - rewrite E. apply Hn, claims_elem. eauto.
  - cbn. intros Hp. destruct (ad_predecessor _ _ _ _ Hv _ Hp) as (old & Hf & Hsc).
    rewrite (has_id_unique d c0) in Hf; [|apply Hd|done|done]. injection Hf as <-.
    apply in_scope_facts in Hsc as (Hcur & _). congruence.
Qed.

Lemma added_scope x y :
  x ∈ claims (added c d) → y ∈ claims (added c d) → supersedes_claim_id (said x) = Some (claim_id (said y)) →
  kind_in_scope (claims (added c d)) x y.
Proof.
  intros Hx Hy Hp. pose proof Hx as [i Hi]%claims_elem. pose proof Hy as [j Hj]%claims_elem.
  apply added_lookup in Hj as [(y0 & Hj0 & Ey & _)|[_ ->]]; [|by destruct (added_unnamed x Hx Hp)].
  assert (Hy0 : y0 ∈ claims d) by (apply claims_elem; eauto). rewrite Ey in Hp. unfold kind_in_scope. rewrite Ey.
  apply added_lookup in Hi as [(x0 & Hi0 & Ex & _ & Hst)|[_ ->]].
  - assert (Hx0 : x0 ∈ claims d) by (apply claims_elem; eauto). rewrite Ex in *.
    destruct (ci_scope d Hd x0 y0 Hx0 Hy0 Hp) as [?|[? Hc]]; [by left | right]. split; [done|].
    apply added_clearing in Hc as Hc'; [|done]. destruct Hst as [[-> _]|[Hn Hst]]; [done|].
    destruct Hc' as [_ Hc']. split; [done|]. by rewrite Ex.
  - cbn in Hp. destruct (ad_predecessor _ _ _ _ Hv _ Hp) as (old & Hf & Hsc).
    rewrite (has_id_unique d y0) in Hf; [|apply Hd|done|done]. injection Hf as <-.
    apply in_scope_facts in Hsc as (_ & Hkind & _). pose proof Hk as Hkk. rewrite <- Hkind in Hkk.
    destruct Hkk as [?|[? Hst]]; [by left | right].
    split; [done|]. split; [done|]. intros z. apply added_unnamed.
Qed.

Lemma added_inv : ClaimsInv (added c d).
Proof.
  split.
  - rewrite list_fmap_compose, said_added, fmap_app, <- list_fmap_compose.
    apply NoDup_app. split; [apply Hd|]. split; [|apply NoDup_singleton].
    intros k (c0 & -> & H0)%list_elem_of_fmap. cbn. rewrite list_elem_of_singleton.
    by apply (conflict_facts v d (ad_free _ _ _ _ Hv)).
  - intros c' [i Hi]%claims_elem. apply added_lookup in Hi as [(c0 & H0 & -> & _)|[_ ->]]; [|apply Hv].
    apply (ci_checks d Hd), claims_elem. eauto.
  - intros i c' p. apply added_link.
  - apply added_scope.
  - intros i j c1 c2 p H1 H2 S1 S2.
    apply added_lookup in H1 as [(o1 & O1 & E1 & _)|[-> ->]], H2 as [(o2 & O2 & E2 & _)|[-> ->]]; try done.
    + rewrite E1 in S1. rewrite E2 in S2. by eapply (ci_once d Hd).
    + rewrite E1 in S1. assert (Ho : o1 ∈ claims d) by (apply claims_elem; eauto).
      by apply (conflict_facts v d (ad_free _ _ _ _ Hv) o1 Ho) in S2.
    + rewrite E2 in S2. assert (Ho : o2 ∈ claims d) by (apply claims_elem; eauto).
      by apply (conflict_facts v d (ad_free _ _ _ _ Hv) o2 Ho) in S1.
  - intros c' [i Hi]%claims_elem Hst. apply added_lookup in Hi as [(c0 & H0 & E & _ & H)|[_ ->]]; [|left; by apply Hs].
    rewrite E. destruct H as [[-> _]|[Hp _]].
    + destruct (ci_ended d Hd c0) as [H|(c1 & [j Hj]%claims_elem & Hc1)]; [apply claims_elem; eauto | done | by left|].
      right. destruct (added_old c d j c1 Hj) as (c1' & H1' & E1 & _). exists c1'. rewrite E1. split; [|done].
      apply claims_elem. eauto.
    + right. exists c. split; [|done]. apply claims_elem. exists (length (claims d)). apply added_new.
  - intros c' [i Hi]%claims_elem. apply added_lookup in Hi as [(c0 & H0 & -> & _)|[_ ->]]; [|apply Hv].
    apply (ci_subject d Hd), claims_elem. eauto.
Qed.
End added.

(** ** Any calls *)

Section calls.
Context (nfkc_casefold : string → string).

(** The operations that change the tables, those of the tracker included. *)
Inductive ClaimCall :=
  | cc_record (now : datetime) (v : NewPriorityClaim) (observed : option string)
  | cc_clear (now : datetime) (v : NewPriorityClaim) (observed : option string)
  | cc_tracker (c : Call).

Definition run_claim (c : ClaimCall) (d : ClaimDB) : ClaimDB :=
  match c with
  | cc_record now v observed => (record now v observed d).1
  | cc_clear now v observed => (clear now v observed d).1
  | cc_tracker c => mkClaimDB (run nfkc_casefold c (tracker d)) (claims d)
  end.

Definition run_claims (cs : list ClaimCall) (d : ClaimDB) : ClaimDB := foldl (λ d c, run_claim c d) d cs.

Definition AllInv (d : ClaimDB) : Prop := Inv nfkc_casefold (tracker d) ∧ ClaimsInv d.

Lemma claim_record_cases now v observed d d' r :
  record now v observed d = (d', r) →
  d' = d ∧ (∃ e, r = Err e) ∨
  addable (claim_kind v) v observed d ∧ target_ok v d ∧
    d' = added (mkClaim v CURRENT now) d ∧ r = Ok (mkClaim v CURRENT now).
Proof.
  intros H. destruct r as [c|e].
  - right. apply record_run in H as ([H1 H2] & -> & ->). done.
  - left. split; [|eauto]. unfold record, throw_if, raise_if, mbind at 1, M_bind at 1 in H.
    destruct (eqb _ _); [by injection H|]. by apply transaction_err in H.
Qed.

Lemma clear_cases now v observed d d' r :
  clear now v observed d = (d', r) →
  d' = d ∧ (∃ e, r = Err e) ∨
  d' = d ∧ (∃ c, r = Ok c ∧ List.filter (has_id (claim_id v)) (claims d) = [c]) ∨
  addable HUMAN_PRIORITY v observed d ∧ is_Some (supersedes_claim_id v) ∧
    d' = added (mkClaim v SUPERSEDED now) d ∧ r = Ok (mkClaim v SUPERSEDED now).
Proof.
  intros H. destruct r as [c|e].
  - apply clear_run in H as [[-> H]|(H1 & H2 & -> & ->)]; [right; left; eauto | right; right; done].
  - left. split; [|eauto]. unfold clear in H. destruct (supersedes_claim_id v); [|by injection H].
    unfold throw_if, raise_if, mbind at 1, M_bind at 1 in H.
    destruct (eqb _ _); [by injection H|]. by apply transaction_err in H.
Qed.

Lemma claim_step c d : AllInv d → AllInv (run_claim c d) ∧ evolves d (run_claim c d).
Proof.
  intros [Ht Hd]. destruct c as [now v o|now v o|c]; cbn [run_claim].
  - destruct (record now v o d) as [d' r] eqn:E. destruct (claim_record_cases _ _ _ _ _ _ E) as [[-> _]|(H1 & _ & -> & _)]; [done|].
    split; [split; [done|]; eapply added_inv | eapply added_evolves]; try done; by left.
  - destruct (clear now v o d) as [d' r] eqn:E. destruct (clear_cases _ _ _ _ _ _ E) as [[-> _]|[[-> _]|(H1 & H2 & -> & _)]]; [done..|].
    split; [split; [done|]; eapply added_inv | eapply added_evolves]; try done; by right.
  - split; [|split; [done|]; intros i x Hx; exists x; unfold aged; auto]. split; [by apply tracker_step|].
    destruct Hd as [H1 H2 H3 Hsc H4 H5 H6]. split; try done. intros x Hx. specialize (H6 x Hx).
    unfold subject_exists in *. cbn. destruct (subject_kind (said x)); [|unfold is_some in *; destruct (projects (tracker d) !! _) as [row|] eqn:E; [|done]; by rewrite (lookup_weaken _ _ _ _ E (run_projects nfkc_casefold c _))].
    unfold is_some in *. destruct (works (tracker d) !! _) as [row|] eqn:E; [|done].
    destruct (run_works nfkc_casefold c (tracker d) (subject_id (said x)) Ht) as [row' ->]; [eauto | done].
Qed.

Lemma claim_steps cs d : AllInv d → AllInv (run_claims cs d) ∧ evolves d (run_claims cs d).
Proof.
  revert d. induction cs as [|c cs IH]; intros d Hd; [done|].
  destruct (claim_step c d Hd) as [H1 H2]. destruct (IH _ H1) as [H3 H4]. split; [done|]. by etrans.
Qed.

Definition no_claims (ps : gmap uuid Project) : ClaimDB := mkClaimDB (empty_db ps) [].

Lemma AllInv_empty ps : AllInv (no_claims ps).
Proof.
  split; [apply Inv_empty|]. split; cbn; try (intros; by apply not_elem_of_nil in H || done); [constructor|..]; intros; try done;
  match goal with H : _ ∈ [] |- _ => by apply not_elem_of_nil in H end.
Qed.

(** ** Provenance *)

(** The claims from [at_] back, each superseding the next. *)
Inductive lineage (d : ClaimDB) : option uuid → list PriorityClaim → Prop :=
  | lin_end : lineage d None []
  | lin_cons c l : c ∈ claims d → lineage d (supersedes_claim_id (said c)) l →
      lineage d (Some (claim_id (said c))) (c :: l).

(** Every claim has a lineage, and it lies before the claim in the table. *)
Lemma lineage_exists d n i c :
  ClaimsInv d → claims d !! i = Some c → (i < n)%nat →
  ∃ l, lineage d (Some (claim_id (said c))) l ∧ NoDup l ∧
    (∀ x, x ∈ l → ∃ j, (j <= i)%nat ∧ claims d !! j = Some x) ∧
    (∀ x, x ∈ l → subject_kind (said x) = subject_kind (said c) ∧ subject_id (said x) = subject_id (said c)).
Proof.
  intros Hd. revert i c. induction n as [|n IH]; intros i c Hi Hn; [lia|].
  assert (Hc : c ∈ claims d) by (apply claims_elem; eauto).
  destruct (supersedes_claim_id (said c)) as [p|] eqn:Ep.
  - destruct (ci_link d Hd i c p Hi Ep) as (j & old & Hj & Ho & <- & _ & Hk & Hs).
    destruct (IH j old Ho) as (l & Hl & Hnd & Hb & Hsub); [lia|].
    exists (c :: l). split; [constructor; [done|]; by rewrite Ep|]. split; [|split].
    + apply NoDup_cons. split; [|done]. intros (k & Hk' & Hck)%Hb.
      assert (k = i); [|lia]. eapply (NoDup_lookup ((claim_id ∘ said) <$> claims d)); [apply Hd| |];
        rewrite list_lookup_fmap; [by rewrite Hck | by rewrite Hi].
    + intros x [->|Hx]%elem_of_cons; [by exists i|]. destruct (Hb x Hx) as (k & ? & ?). exists k. split; [lia | done].
    + intros x [->|Hx]%elem_of_cons; [done|]. destruct (Hsub x Hx) as [-> ->]. done.
  - exists [c]. split; [constructor; [done|]; rewrite Ep; constructor|]. split; [apply NoDup_singleton|].
    split; intros x ->%list_elem_of_singleton; [by exists i | done].
Qed.

Lemma lineage_loop d o l n :
  ClaimsInv d → lineage d o l → provenance_loop n o d = (d, Ok (take n l)).
Proof.
  intros Hd Hl. revert n. induction Hl as [|c l Hc Hl IH]; intros [|n]; try done.
  cbn [provenance_loop]. unfold mbind at 1, M_bind at 1. rewrite find_claim_run.
  rewrite (has_id_unique d c) by (done || apply Hd). cbn [one_or_none].
  unfold mbind, M_bind. by rewrite IH.
Qed.

Lemma run_claims_app cs1 cs2 d : run_claims (cs1 ++ cs2) d = run_claims cs2 (run_claims cs1 d).
Proof. apply foldl_app. Qed.

(** ** The properties *)

(** C19: whatever is called in whatever order, claims have their own identifiers
    and well-formed relations, a successor follows one ended predecessor of
    its subject, which has no other, and is of its kind - only a clear, which
    is born ended and is never succeeded, ends a human claim under any kind;
    a claim that is current has no successor; and from then on a claim's
    content never changes and it ends only by a later claim that names it. *)
Theorem claims_history ps cs1 cs2 :
  let d := run_claims cs1 (no_claims ps) in
  NoDup ((claim_id ∘ said) <$> claims d) ∧
  (∀ i c, claims d !! i = Some c →
     claim_checks (said c) = true ∧ subject_exists (subject_kind (said c)) (subject_id (said c)) d = true ∧
     (∀ p, supersedes_claim_id (said c) = Some p → ended_before (claims d) i p (said c)) ∧
     (∀ old, old ∈ claims d → supersedes_claim_id (said c) = Some (claim_id (said old)) →
        kind_in_scope (claims d) c old) ∧
     (∀ j s, claims d !! j = Some s → supersedes_claim_id (said s) = Some (claim_id (said c)) →
        claim_state c = SUPERSEDED ∧ (i < j)%nat ∧
        ∀ j' s', claims d !! j' = Some s' → supersedes_claim_id (said s') = Some (claim_id (said c)) → j' = j)) ∧
  evolves d (run_claims cs2 d).
Proof.
  intros d. destruct (claim_steps cs1 (no_claims ps) (AllInv_empty ps)) as [Hall _]. fold d in Hall.
  pose proof Hall as [_ Hd]. split_and!; [apply Hd| | by apply claim_steps].
  intros i c Hi. assert (Hc : c ∈ claims d) by (apply claims_elem; eauto).
  split_and!; [by apply Hd | by apply Hd | intros p; by apply (ci_link d Hd) | intros old; by apply (ci_scope d Hd)|].
  intros j s Hj Hs. destruct (ci_link d Hd j s _ Hj Hs) as (i' & old & Hlt & Ho & Hid & Hst & _).
  assert (i' = i) as ->.
  { eapply (NoDup_lookup ((claim_id ∘ said) <$> claims d)); [apply Hd| |]; rewrite list_lookup_fmap;
      [by rewrite Ho | rewrite Hi; cbn; by rewrite Hid]. }
  rewrite Hi in Ho. injection Ho as <-. split_and!; try done. intros j' s' Hj' Hs'. by eapply (ci_once d Hd).
Qed.

(** The provenance of a claim is its lineage, newest first, cut at the
    limit: every claim of it supersedes the next, all are about one subject,
    none repeats, and the last one without a predecessor ends it; so a limit
    of the size of the table always shows it whole. *)
Theorem provenance_spec ps cs i limit :
  1 <= limit <= 500 →
  let d := run_claims cs (no_claims ps) in
  (∀ c, c ∈ claims d → claim_id (said c) ≠ i) ∧ provenance i limit d = (d, Ok []) ∨
  ∃ c l, c ∈ claims d ∧ claim_id (said c) = i ∧ lineage d (Some i) (c :: l) ∧ NoDup (c :: l) ∧
    (length (c :: l) <= length (claims d))%nat ∧
    (∀ x, x ∈ l → subject_kind (said x) = subject_kind (said c) ∧ subject_id (said x) = subject_id (said c)) ∧
    provenance i limit d = (d, Ok (take (Z.to_nat limit) (c :: l))).
Proof.
  intros Hlim d. destruct (claim_steps cs (no_claims ps) (AllInv_empty ps)) as [[_ Hd] _]. fold d in Hd.
  assert (Hp : provenance i limit d = provenance_loop (Z.to_nat limit) (Some i) d).
  { unfold provenance. rewrite (read_ok _ _ d tt); [done..|]. rewrite throw_if_false; [done|].
    rewrite orb_false_iff, !Z.ltb_ge. lia. }
  rewrite Hp. destruct (List.filter (has_id i) (claims d)) as [|c rest] eqn:Hf.
  - left. split.
    + intros c Hc <-. rewrite (has_id_unique d c) in Hf; [done | apply Hd | done..].
    + destruct (Z.to_nat limit) as [|n] eqn:En; [lia|]. cbn [provenance_loop].
      unfold mbind, M_bind. by rewrite find_claim_run, Hf.
  - right. assert (Hc : In c (List.filter (has_id i) (claims d))) by (rewrite Hf; by left).
    apply filter_In in Hc as [Hc Hid]. unfold has_id in Hid. rewrite eqb_true in Hid.
    apply list_elem_of_In, claims_elem in Hc as [k Hk].
    destruct (lineage_exists d (S k) k c Hd Hk) as (l & Hl & Hnd & Hb & Hs); [lia|]. rewrite Hid in Hl.
    inversion Hl as [|c1 l1 Hc1 Hl1 E]; subst l. assert (c1 = c) as ->.
    { apply (NoDup_fmap_inj (claim_id ∘ said) (claims d)); [apply Hd | done | apply claims_elem; eauto | cbn; congruence]. }
    exists c, l1. split_and!; try done; [by rewrite Hid| | |].
    + apply submseteq_length, NoDup_submseteq; [done|]. intros x (j & _ & Hj)%Hb. apply claims_elem. eauto.
    + intros x Hx. apply Hs. by right.
    + rewrite Hid. by apply lineage_loop.
Qed.

(** A call that answers stores its claim, or repeats the stored one. *)
Lemma answered_claim now v o d d1 c :
  AllInv d → record now v o d = (d1, Ok c) ∨ clear now v o d = (d1, Ok c) → AllInv d1 ∧ c ∈ claims d1.
Proof.
  intros Hd [E|E].
  - pose proof (claim_step (cc_record now v o) d Hd) as [H _]. cbn in H. rewrite E in H. split; [done|].
    apply record_run in E as (_ & -> & ->). apply claims_elem. exists (length (claims d)). apply added_new.
  - pose proof (claim_step (cc_clear now v o) d Hd) as [H _]. cbn in H. rewrite E in H. split; [done|].
    apply clear_run in E as [[-> Hf]|(_ & _ & -> & ->)].
    + assert (Hin : In c (List.filter (has_id (claim_id v)) (claims d))) by (rewrite Hf; by left).
      apply filter_In in Hin as [Hin _]. by apply list_elem_of_In.
    + apply claims_elem. exists (length (claims d)). apply added_new.
Qed.

(** C20: a claim is superseded at most once: when a call - of either kind - has
    stored a claim, its content stays, and every later call that names the
    same predecessor, or the same identifier, changes nothing; [record] refuses
    it, and [clear] answers only by repeating the claim that is stored under
    its identifier already. *)
Theorem claim_race now v o d d1 c cs now' v' o' :
  AllInv d → record now v o d = (d1, Ok c) ∨ clear now v o d = (d1, Ok c) →
  let d2 := run_claims cs d1 in
  claim_id v' = claim_id (said c) ∨
    (supersedes_claim_id v' = supersedes_claim_id (said c) ∧ is_Some (supersedes_claim_id (said c))) →
  (∃ c', c' ∈ claims d2 ∧ said c' = said c) ∧
  is_ok (record now' v' o' d2).2 = false ∧ (record now' v' o' d2).1 = d2 ∧
  (clear now' v' o' d2).1 = d2 ∧
  ∀ x, (clear now' v' o' d2).2 = Ok x → x ∈ claims d2 ∧ claim_id (said x) = claim_id v'.
Proof.
  intros Hd E d2 Hsame. destruct (answered_claim _ _ _ _ _ _ Hd E) as [Hd1 [i Hi]%claims_elem].
  destruct (claim_steps cs d1 Hd1) as [_ [_ Hev]]. fold d2 in Hev.
  destruct (Hev i c Hi) as (c' & Hc' & Hsaid & _).
  assert (Hin : c' ∈ claims d2) by (apply claims_elem; eauto).
  assert (Hno : ∀ kind, ¬ addable kind v' o' d2).
  { intros kind [_ _ _ _ Hf _]. destruct (conflict_facts v' d2 Hf c' Hin) as [H1 H2]. rewrite Hsaid in H1, H2.
    destruct Hsame as [Hi'|[Hp [p Hs]]]; [congruence|]. apply (H2 p); congruence. }
  split; [by exists c'|]. destruct (record now' v' o' d2) as [d3 r] eqn:E3. destruct (clear now' v' o' d2) as [d4 r4] eqn:E4.
  destruct (claim_record_cases _ _ _ _ _ _ E3) as [[-> [e ->]]|(H & _)]; [|by apply Hno in H].
  split; [done|]. split; [done|].
  destruct (clear_cases _ _ _ _ _ _ E4) as [[-> [e' ->]]|[[-> (x & -> & Hf)]|(H & _)]]; [done| |by apply Hno in H].
  split; [done|]. cbn. intros y [= <-].
  assert (Hx : In x (List.filter (has_id (claim_id v')) (claims d2))) by (rewrite Hf; by left).
  apply filter_In in Hx as [Hx Hid]. unfold has_id in Hid. rewrite eqb_true in Hid. by rewrite list_elem_of_In.
Qed.
End calls.

(** ** Listings *)

Lemma claim_le_total a b : claim_le a b = true ∨ claim_le b a = true.
Proof.
  unfold claim_le. destruct (dt_us (claimed_at a) =? dt_us (claimed_at b)) eqn:E.
  - rewrite Z.eqb_sym, E. apply str_leb_total.
  - rewrite Z.eqb_sym, E. rewrite Z.eqb_neq in E. rewrite !Z.ltb_lt. lia.
Qed.

Lemma claim_le_trans a b c : claim_le a b = true → claim_le b c = true → claim_le a c = true.
Proof.
  unfold claim_le. repeat case_match; to_prop; try lia; try (by eapply str_leb_trans); intros; to_prop; lia.
Qed.

(** The current claims of a subject, in the order of their times. *)
Lemma claims_current_spec kind i d l :
  current kind i d = (d, Ok l) →
  (∀ c, c ∈ l ↔ c ∈ claims d ∧ subject_kind (said c) = kind ∧ subject_id (said c) = i ∧ claim_state c = CURRENT) ∧
  StronglySorted (λ a b, claim_le a b = true) l.
Proof.
  intros [= <-]. split; [|apply py_sort_sorted; [apply claim_le_total | apply claim_le_trans]].
  intros c. rewrite py_sort_perm, !list_elem_of_In, filter_In. unfold about. rewrite !andb_true_iff, !eqb_true. tauto.
Qed.

(** ** Instances *)

Definition ex_subject : uuid := WorkEvents.ex_id 1.
Definition ex_claim (n : Z) (b : PriorityBand) (p : option uuid) : NewPriorityClaim :=
  mkNewClaim (WorkEvents.ex_id n) HUMAN_PRIORITY WORK ex_subject BAND "because" "HUMAN" "ref" None (Some b) None p.
Definition ex_claim_calls : list ClaimCall :=
  [cc_tracker (c_create WorkEvents.ex_time (WorkEvents.ex_work ex_subject "First"));
   cc_record WorkEvents.ex_time (ex_claim 50 HIGH None) None;
   cc_record WorkEvents.ex_time (ex_claim 51 NORMAL (Some (WorkEvents.ex_id 50))) None].

#[local] Abbreviation ex_claims := (run_claims ascii_fold ex_claim_calls (no_claims ∅)).

Lemma provenance_spec_witness :
  ∃ c l, provenance (WorkEvents.ex_id 51) 10 ex_claims = (ex_claims, Ok (take 10 (c :: l))) ∧
    lineage ex_claims (Some (WorkEvents.ex_id 51)) (c :: l) ∧
    claim_id ∘ said <$> (c :: l) = [WorkEvents.ex_id 51; WorkEvents.ex_id 50].
Proof.
  destruct (provenance_spec ascii_fold ∅ ex_claim_calls (WorkEvents.ex_id 51) 10) as [[_ H]|(c & l & _ & _ & Hl & _ & _ & _ & H)]; [lia | |].
  - exfalso. apply (f_equal snd) in H. vm_compute in H. discriminate H.
  - exists c, l. split; [exact H|]. split; [exact Hl|].
    apply (f_equal snd) in H. vm_compute in H. injection H as Hc Hrest.
    destruct l as [|x [|y l]]; try discriminate Hrest. injection Hrest as <-. subst c. vm_compute. reflexivity.
Defined.

(** A third claim ends the second; a later one and a clear that name the second
    find it ended. *)
#[local] Abbreviation ex_third := (record WorkEvents.ex_time (ex_claim 52 HIGH (Some (WorkEvents.ex_id 51))) None ex_claims).

Lemma claim_race_witness :
  let v := ex_claim 53 NORMAL (Some (WorkEvents.ex_id 51)) in
  is_ok ex_third.2 = true ∧ is_ok (record WorkEvents.ex_time v None ex_third.1).2 = false ∧
  (clear WorkEvents.ex_time v None ex_third.1).1 = ex_third.1.
Proof.
  intros v. assert (Hinv : AllInv ascii_fold ex_claims) by apply claim_steps, AllInv_empty.
  assert (Hok : is_ok ex_third.2 = true) by (vm_compute; reflexivity).
  assert (Hs : ∀ c, ex_third.2 = Ok c → supersedes_claim_id (said c) = Some (WorkEvents.ex_id 51)).
  { intros c Hc. vm_compute in Hc. injection Hc as <-. reflexivity. }
  split; [exact Hok|]. destruct ex_third as [d1 [c|e]] eqn:E; [|discriminate Hok]. cbn [fst snd] in *.
  destruct (claim_race ascii_fold WorkEvents.ex_time (ex_claim 52 HIGH (Some (WorkEvents.ex_id 51))) None ex_claims
    d1 c [] WorkEvents.ex_time v None Hinv (or_introl E)) as (_ & H1 & _ & H2 & _); [|split; assumption].
  right. rewrite (Hs c eq_refl). split; [reflexivity | eexists; reflexivity].
Defined.
