(* ===== verification/WorkSearch.v ===== *)
(** * Searching canonical work ([CanonicalWorkRepository.search])

    A reader that follows the cursors of a search of a table that stands still
    gets every matching work exactly once, in the order of titles and
    identifiers; and the cursor of one search is refused by any other. *)

From S2P Require Import Prelude Tables Json Codec WorkEvents TrackerSystem Paging Tracker.

Local Open Scope Z_scope.

Section search.
Context (nfkc_casefold : string → string) (coll : list Z → list Z → bool) `{!LinearOrder coll}.

Definition key_le : list Z * uuid → list Z * uuid → bool := lex_leb coll str_leb.

#[export] Instance key_le_order : LinearOrder key_le.
Proof using LinearOrder0. unfold key_le. apply lex_order; apply _. Qed.

(** The rows that match, and those after a cursor, in order. *)
Definition hits (n : option string) (q : Criteria) (d : TrackerDB) : list WorkRow :=
  List.filter (matches n q) (values (works d)).
Definition hits_after (n : option string) (q : Criteria) (start : option (list Z * uuid)) (d : TrackerDB) : list WorkRow :=
  following page_key key_le start (hits n q d).

(** The normalized query of the criteria. *)
Definition query_of (q : Criteria) : res (option string) :=
  match q_query q with None => Ok None | Some query => Some <$> normalize_title nfkc_casefold query end.

(** A reader that follows the cursors, [n] pages at most. *)
Fixpoint collect (n : nat) (q : Criteria) (limit : Z) (c : option string) (d : TrackerDB) : list CurrentWork :=
  match n with
  | O => []
  | S n =>
      match (search nfkc_casefold coll q c limit d).2 with
      | Ok (items, next) =>
          items ++ match next with Some c' => collect n q limit (Some c') d | None => [] end
      | Err _ => []
      end
  end.

(** ** Cursors *)

Lemma work_cursor_read criteria criteria' t w :
  canonical_uuid w = true →
  _decode_cursor (_cursor criteria t w) criteria' =
    if eqb criteria criteria' then Ok (codes t, w) else raise ValueError "invalid canonical work cursor".
Proof.
  intros Hw. apply bool_decide_eq_true_1 in Hw. unfold _decode_cursor, _cursor.
  rewrite cursor_json_read by done. cbn [embed map]. rewrite Hw. cbn [is_text].
  destruct (eqb criteria criteria') eqn:E.
  - rewrite eqb_true in E. subst. by rewrite eqb_refl.
  - rewrite eqb_false in E. rewrite (proj2 (eqb_false (codes criteria) (codes criteria'))); [done|].
    intros H%codes_inj. done.
Qed.

Lemma sendable t : has_nul t = false → unsendable (codes t) = false.
Proof.
  unfold has_nul. rewrite negb_false_iff. unfold unsendable. induction t as [|c t IH]; [done|].
  cbn [all_chars codes existsb]. intros [Hc Ht]%andb_true_iff. rewrite IH by done. rewrite orb_false_r.
  destruct c as [[] [] [] [] [] [] [] []]; try reflexivity. done.
Qed.

(** ** Pages *)

Context (d : TrackerDB) (q : Criteria) (limit : Z) (n : option string).
Hypothesis (Hd : WorksInv nfkc_casefold d) (Hids : ∀ w, is_Some (works d !! w) → canonical_uuid w = true)
  (Hlim : 1 <= limit <= 500) (Hn : query_of q = Ok n) (Hnul : opt_nul n || criteria_nul q = false).

Lemma hits_row r : r ∈ hits n q d → works d !! work_id (item_of r) = Some r.
Proof using Hd.
  unfold hits. rewrite list_elem_of_In, filter_In, <- list_elem_of_In. intros [Hr _].
  apply elem_of_values in Hr as [w Hw]. destruct (Hd w r Hw) as [<- _]. done.
Qed.

Lemma filter_page_keys {A K} (f : A → K) (P : A → bool) (l : list A) : NoDup (f <$> l) → NoDup (f <$> List.filter P l).
Proof.
  induction l as [|x l IH]; [done|]. cbn. intros [Hx Hl]%NoDup_cons. destruct (P x); [|by apply IH].
  apply NoDup_cons. split; [|by apply IH]. intros (y & Hy & Hin)%list_elem_of_fmap. apply Hx. rewrite Hy.
  apply list_elem_of_fmap_2. by apply list_elem_of_In, filter_In, proj1, list_elem_of_In in Hin.
Qed.

Lemma hits_keys : NoDup (page_key <$> hits n q d).
Proof using Hd.
  apply filter_page_keys. apply (NoDup_fmap_1 snd). rewrite <- list_fmap_compose.
  assert (H : (snd ∘ page_key) <$> values (works d) = (map_to_list (works d)).*1).
  { unfold values. rewrite <- list_fmap_compose. apply list_fmap_ext. intros i [w r] Hi%list_elem_of_lookup_2.
    cbn. apply elem_of_map_to_list in Hi. by destruct (Hd w r Hi) as [-> _]. }
  rewrite H. apply NoDup_fst_map_to_list.
Qed.

(** One page: the first rows after the cursor, and the cursor of the last one
    when more follow. *)
Lemma search_page c start :
  match c with
  | None => start = None
  | Some c => ∃ t w, start = Some (t, w) ∧ _decode_cursor c (criteria_digest n q) = Ok (t, w) ∧ unsendable t = false
  end →
  let page := take (Z.to_nat limit) (hits_after n q start d) in
  search nfkc_casefold coll q c limit d = (d, Ok (item_of <$> page,
    match last page with
    | Some r => if (Z.to_nat limit <? length (hits_after n q start d))%nat
                then Some (_cursor (criteria_digest n q) (normalized_title r) (work_id (item_of r))) else None
    | None => None
    end)).
Proof using Hlim Hn Hnul.
  intros Hc. cbv zeta. unfold search, throw_if, raise_if, refuse_if, mbind, M_bind, get_st, mret, M_ret, lift.
  assert (Hl : (limit <? 1) || (500 <? limit) = false) by (rewrite orb_false_iff, !Z.ltb_ge; lia).
  rewrite Hl. fold (query_of q). rewrite Hn. apply orb_false_iff in Hnul as [Hn1 Hn2].
  assert (Hs : match c with None => Ok None | Some c => Some <$> _decode_cursor c (criteria_digest n q) end = Ok start ∧
    match start with Some (t, _) => unsendable t | None => false end = false).
  { destruct c as [c|]; [|by subst]. destruct Hc as (t & w & -> & -> & ?). done. }
  destruct Hs as [-> Hu]. rewrite Hn1, Hn2. cbn [orb]. rewrite Hu.
  unfold throw_if, raise_if. unfold Paging.page. fold key_le (hits n q d) (hits_after n q start d).
  rewrite take_take, Nat.min_l by lia. do 3 f_equal.
  assert (Hlt : (Z.to_nat limit <? length (take (S (Z.to_nat limit)) (hits_after n q start d)))%nat =
    (Z.to_nat limit <? length (hits_after n q start d))%nat).
  { rewrite length_take. destruct (Nat.ltb_spec (Z.to_nat limit) (length (hits_after n q start d))),
      (Nat.ltb_spec (Z.to_nat limit) (S (Z.to_nat limit) `min` length (hits_after n q start d))); lia || done. }
  by rewrite Hlt.
Qed.

Lemma collect_spec m c start :
  match c with
  | None => start = None
  | Some c => ∃ t w, start = Some (t, w) ∧ _decode_cursor c (criteria_digest n q) = Ok (t, w) ∧ unsendable t = false
  end →
  Z.of_nat (length (hits_after n q start d)) <= limit * Z.of_nat m →
  collect m q limit c d = item_of <$> hits_after n q start d.
Proof using Hd Hids Hlim Hn Hnul LinearOrder0.
  revert c start. induction m as [|m IH]; intros c start Hc Hlen.
  { destruct (hits_after n q start d); [done|]. cbn in Hlen. lia. }
  cbn [collect]. rewrite (search_page c start Hc). cbn [snd].
  set (F := hits_after n q start d) in *. set (L := Z.to_nat limit).
  destruct (Nat.ltb_spec L (length F)) as [Hlt|Hge].
  2:{ rewrite take_ge by lia. destruct (last F); by rewrite app_nil_r. }
  destruct (last (take L F)) as [z|] eqn:Ez.
  2:{ apply last_None in Ez. apply (f_equal length) in Ez. rewrite length_take in Ez. cbn in Ez. lia. }
  assert (Hsplit : F = take L F ++ hits_after n q (Some (page_key z)) d).
  { by apply (following_split page_key key_le L start (hits n q d) z hits_keys). }
  rewrite (IH _ (Some (page_key z))).
  - rewrite <- fmap_app. by rewrite <- Hsplit.
  - assert (Hz : z ∈ hits n q d).
    { apply last_Some_elem_of in Ez. apply (page_elem page_key key_le L start). exact Ez. }
    pose proof (hits_row z Hz) as Hrow. eexists _, _. split; [done|]. split.
    + rewrite work_cursor_read by (apply Hids; by eexists). by rewrite eqb_refl.
    + apply sendable. apply (Hd _ _ Hrow).
  - apply (f_equal length) in Hsplit. rewrite length_app, length_take_le in Hsplit by lia. lia.
Qed.
End search.

(** Following the cursors of a search lists every matching work exactly
    once, in the order of normalized titles and identifiers, in as many pages
    as the matches need; and a cursor made for other criteria is refused. *)
Theorem search_pages nfkc_casefold coll `{!LinearOrder coll} d q limit n m :
  WorksInv nfkc_casefold d → (∀ w, is_Some (works d !! w) → canonical_uuid w = true) →
  1 <= limit <= 500 → query_of nfkc_casefold q = Ok n → opt_nul n || criteria_nul q = false →
  Z.of_nat (length (hits n q d)) <= limit * Z.of_nat m →
  let rows := hits_after coll n q None d in
  collect nfkc_casefold coll m q limit None d = item_of <$> rows ∧
  rows ≡ₚ hits n q d ∧ StronglySorted (klt page_key (key_le coll)) rows ∧
  ∀ c t w, canonical_uuid w = true → c ≠ criteria_digest n q →
    (search nfkc_casefold coll q (Some (_cursor c t w)) limit d).2 = raise ValueError "invalid canonical work cursor".
Proof.
  intros Hd Hids Hlim Hn Hnul Hm rows.
  assert (Hperm : rows ≡ₚ hits n q d).
  { unfold rows, hits_after, following. rewrite py_sort_perm.
    assert (Hall : ∀ l, List.filter (after page_key (key_le coll) None) l = l); [|by rewrite Hall].
    induction l as [|x l IH]; [done|]. cbn. by rewrite IH. }
  split_and!.
  - apply (collect_spec nfkc_casefold coll d q limit n); try done.
    apply Permutation_length in Hperm. unfold rows in Hperm. lia.
  - done.
  - apply following_sorted; [apply _ | by eapply hits_keys].
  - intros c t w Hw Hne. unfold search, throw_if, raise_if, mbind, M_bind, lift.
    assert (Hl : (limit <? 1) || (500 <? limit) = false) by (rewrite orb_false_iff, !Z.ltb_ge; lia).
    rewrite Hl. fold (query_of nfkc_casefold q). rewrite Hn. rewrite work_cursor_read by done.
    by rewrite (proj2 (eqb_false c _) Hne).
Qed.

(** The query is not escaped for [LIKE]: [_] and [%] of a title match other
    titles, and a query that ends in a backslash misses its own title. *)
Lemma search_wildcards :
  contains_value "a_c" "abc" = true ∧ contains_value "50%" "50 percent" = true ∧
  contains_value "c:\" "c:\" = false ∧ contains_value "abc" "xabcx" = true.
Proof. repeat split. Qed.

(** ** Instances *)

(** The collation by code points. *)
Fixpoint codes_leb (a b : list Z) : bool :=
  match a, b with
  | [], _ => true
  | _, [] => false
  | x :: a', y :: b' => (x <? y) || ((x =? y) && codes_leb a' b')
  end.

#[export] Instance codes_leb_order : LinearOrder codes_leb.
Proof.
  split.
  - induction a as [|x a IH]; intros [|y b]; cbn; auto. destruct (IH b) as [H|H];
      rewrite !orb_true_iff, !andb_true_iff, !Z.ltb_lt, !Z.eqb_eq, H; lia.
  - induction a as [|x a IH]; intros [|y b] [|z c]; cbn; try done.
    rewrite !orb_true_iff, !andb_true_iff, !Z.ltb_lt, !Z.eqb_eq.
    intros [?|[-> H1]] [?|[-> H2]]; [left; lia | by left | by left | right; split; [done | by eapply IH]].
  - induction a as [|x a IH]; intros [|y b]; cbn; try done.
    rewrite !orb_true_iff, !andb_true_iff, !Z.ltb_lt, !Z.eqb_eq.
    intros [?|[-> H1]] [?|[? H2]]; try lia. f_equal. by apply IH.
Qed.

#[local] Abbreviation ex_state := (run_all ascii_fold ex_calls (empty_db ∅)).
Definition ex_criteria : Criteria := mkCriteria None (Some false) None None None (Some "Task"%string) None.

Lemma search_pages_witness :
  title <$> collect ascii_fold codes_leb 2 ex_criteria 1 None ex_state = ["First Work"; "Second"]%string ∧
  collect ascii_fold codes_leb 2 ex_criteria 1 None ex_state =
    item_of <$> hits_after codes_leb None ex_criteria None ex_state.
Proof.
  split; [vm_compute; reflexivity|].
  apply (search_pages ascii_fold codes_leb ex_state ex_criteria 1 None 2).
  - exact (inv_works ascii_fold _ ex_state_inv).
  - assert (H : map_Forall (λ w _, canonical_uuid w = true) (works ex_state)).
    { apply (bool_decide_eq_true_1 _). vm_compute. reflexivity. }
    intros w [r Hr]. exact (H w r Hr).
  - lia.
  - reflexivity.
  - reflexivity.
  - vm_compute. discriminate.
Defined.
