(* ===== verification/EventReads.v ===== *)
(** * Reading history through the public contract ([tracker/event_reads.py])

    A read looks up the work's revision, reads the events, and looks the
    revision up again; each is a statement of its own, so other callers may
    act in between.  [between1] and [between2] are what they did.  The answer
    is [ok] only when both revisions are the one the caller observed, and then
    the events are those of that revision. *)

From stdpp Require Import pretty.
From S2P Require Import Prelude Tables Paging Json Codec Contracts Tracker WorkEvents WorkRelations TrackerSystem.

Local Open Scope Z_scope.

(** ** [datetime.isoformat] *)

(** Year, month and day of a number of days since 1970. *)
Definition civil (days : Z) : Z * Z * Z :=
  let z := days + 719468 in
  let era := z / 146097 in
  let doe := z mod 146097 in
  let yoe := (doe - doe / 1460 + doe / 36524 - doe / 146096) / 365 in
  let doy := doe - (365 * yoe + yoe / 4 - yoe / 100) in
  let mp := (5 * doy + 2) / 153 in
  let m := if mp <? 10 then mp + 3 else mp - 9 in
  (yoe + era * 400 + (if m <=? 2 then 1 else 0), m, doy - (153 * mp + 2) / 5 + 1).

(** A number padded with zeros to [n] digits. *)
Fixpoint padded (n : nat) (z : Z) : string :=
  match n with
  | O => ""
  | S n => String.append (padded n (z / 10)) (String (hex_digit (z mod 10)) "")
  end.

Definition clock_text (us : Z) : string :=
  let s := us / 1000000 in
  String.append (str_join ":" [padded 2 (s / 3600); padded 2 (s / 60 mod 60); padded 2 (s mod 60)])
    (if us mod 1000000 =? 0 then "" else String "." (padded 6 (us mod 1000000))).

Definition offset_text (off : Z) : string :=
  let a := Z.abs off in
  let s := a / 1000000 in
  String (if off <? 0 then "-"%char else "+"%char)
    (String.append (str_join ":" [padded 2 (s / 3600); padded 2 (s / 60 mod 60)])
      (if a mod 60000000 =? 0 then ""
       else String ":" (String.append (padded 2 (s mod 60))
              (if a mod 1000000 =? 0 then "" else String "." (padded 6 (a mod 1000000)))))).

Definition isoformat (t : datetime) : string :=
  let wall := dt_us t + default 0 (dt_offset t) in
  let '(y, m, d) := civil (wall / 86400000000) in
  String.append (str_join "-" [padded 4 y; padded 2 m; padded 2 d])
    (String "T" (String.append (clock_text (wall mod 86400000000))
      (match dt_offset t with None => "" | Some off => offset_text off end))).

(** ** The reader *)

Definition _public_event (e : StoredWorkEvent) : WorkEvent :=
  mkEvent (e_id e) (e_work_id e) (Some (e_subtype e)) (e_text e) (isoformat (e_created_at e)) (e_actor e).

Definition _revision (w : uuid) : M TrackerDB (option string) :=
  work ← Tracker.get w;
  match work with
  | None => mret None
  | Some item => lift (Some <$> canonical_revision w (row_version item))
  end.

Section reader.
Context (between1 between2 : TrackerDB → TrackerDB).

Definition others (f : TrackerDB → TrackerDB) : M TrackerDB unit := λ d, (f d, Ok tt).

Definition history_result (status : Status) (w : option uuid) (revision : option string)
    (es : list WorkEvent) (cursor : option string) : M TrackerDB WorkHistoryResult :=
  lift (WorkHistoryResult_validate (mkHistoryResult status w revision es cursor)).

Definition event_result (status : Status) (w : option uuid) (revision : option string)
    (item : option WorkEvent) : M TrackerDB WorkEventResult :=
  lift (WorkEventResult_validate (mkEventResult status w revision item)).

Definition history (q : WorkHistoryRequest) : M TrackerDB WorkHistoryResult :=
  revision ← _revision (hq_work_id q);
  match revision with
  | None => history_result s_unknown None None [] None
  | Some rev =>
      if negb (eqb (hq_observed_revision q) rev)
      then history_result s_stale (Some (hq_work_id q)) (Some rev) [] None
      else
        others between1;;
        p ← page (hq_work_id q) (hq_cursor q) (hq_limit q);
        others between2;;
        latest ← _revision (hq_work_id q);
        match latest with
        | None => history_result s_unknown None None [] None
        | Some last =>
            if negb (eqb last rev) then history_result s_stale (Some (hq_work_id q)) (Some last) [] None
            else history_result s_ok (Some (hq_work_id q)) (Some rev)
                   (_public_event <$> page_events p) (next_cursor p)
        end
  end.

Definition event (q : WorkEventRequest) : M TrackerDB WorkEventResult :=
  revision ← _revision (eq_work_id q);
  match revision with
  | None => event_result s_unknown None None None
  | Some rev =>
      if negb (eqb (eq_observed_revision q) rev)
      then event_result s_stale (Some (eq_work_id q)) (Some rev) None
      else
        others between1;;
        e ← WorkEvents.get (eq_work_id q) (eq_event_id q);
        others between2;;
        latest ← _revision (eq_work_id q);
        match latest with
        | None => event_result s_unknown None None None
        | Some last =>
            if negb (eqb last rev) then event_result s_stale (Some (eq_work_id q)) (Some last) None
            else match e with
                 | None => event_result s_unknown None None None
                 | Some e => event_result s_ok (Some (eq_work_id q)) (Some rev) (Some (_public_event e))
                 end
        end
  end.
End reader.

Example isoformat_example :
  isoformat (Datetime 1700000000123456 (Some 0)) = "2023-11-14T22:13:20.123456+00:00"%string ∧
  isoformat (Datetime (-1) (Some 5400000000)) = "1970-01-01T01:29:59.999999+01:30"%string.
Proof. split; vm_compute; reflexivity. Qed.

(** ** Answers are coherent *)

Section coherence.
Context (nfkc_casefold : string → string).

Lemma get_run w d : Tracker.get w d = (d, Ok (item_of <$> works d !! w)).
Proof. reflexivity. Qed.

(** The revision of a stored work. *)
Lemma _revision_run w d :
  WorksInv nfkc_casefold d →
  _revision w d = (d, Ok (v ← version_of w d;
    match canonical_revision w v with Ok s => Some s | Err _ => None end)) ∧
  (∀ v, version_of w d = Some v → ∃ s, canonical_revision w v = Ok s).
Proof.
  intros Hd. unfold _revision, mbind, M_bind. rewrite get_run. unfold version_of.
  destruct (works d !! w) as [r|] eqn:E; cbn [fmap option_fmap option_map option_bind]; [|done].
  destruct (Hd _ _ E) as (_ & Hv & _). unfold canonical_revision.
  rewrite (proj2 (Z.ltb_ge _ 1)) by lia. split; [done|]. intros v [= <-].
  rewrite (proj2 (Z.ltb_ge _ 1)) by lia. by eexists.
Qed.

(** Two versions of a work with one revision: a collision of SHA-256. *)
Definition revision_collision (w : uuid) : Prop :=
  ∃ v1 v2 s, v1 ≠ v2 ∧ canonical_revision w v1 = Ok s ∧ canonical_revision w v2 = Ok s.

(** Between equal versions a stream does not change. *)
Lemma history_between cs1 cs2 d w v :
  Inv nfkc_casefold d → version_of w d = Some v →
  version_of w (run_all nfkc_casefold cs2 (run_all nfkc_casefold cs1 d)) = Some v →
  WorkEvents.history w (run_all nfkc_casefold cs1 d) = WorkEvents.history w d.
Proof.
  intros Hd Hv Hv2. destruct (steps_version nfkc_casefold cs1 d w v Hd Hv) as (v1 & H1 & Hle & Hsame).
  destruct (steps_version nfkc_casefold cs2 _ w v1 (tracker_steps _ _ _ Hd) H1) as (v2 & H2 & Hle2 & _).
  simplify_eq. apply Hsame. lia.
Qed.

Lemma validate_id x r : WorkHistoryResult_validate x = Ok r → r = x.
Proof. unfold WorkHistoryResult_validate. by repeat case_match; intros [= <-]. Qed.

Lemma page_history w c limit d1 d2 :
  WorkEvents.history w d1 = WorkEvents.history w d2 → (page w c limit d1).2 = (page w c limit d2).2.
Proof.
  intros H. unfold page, refuse_if, throw_if, mbind, M_bind, get_st, lift, mret, M_ret.
  by repeat (case_match; simplify_eq/=; rewrite ?H).
Qed.

Lemma page_state w c limit d : (page w c limit d).1 = d.
Proof.
  unfold page, refuse_if, throw_if, mbind, M_bind, get_st, lift, mret, M_ret.
  by repeat (case_match; simplify_eq/=).
Qed.

(** The revision read at a state. *)
Definition revision_at (w : uuid) (d : TrackerDB) (o : option string) : Prop :=
  match o with
  | None => version_of w d = None
  | Some s => ∃ v, version_of w d = Some v ∧ canonical_revision w v = Ok s
  end.

Lemma _revision_at w d d' o :
  WorksInv nfkc_casefold d → _revision w d = (d', Ok o) → d' = d ∧ revision_at w d o.
Proof.
  intros Hd H. destruct (_revision_run w d Hd) as [Hr Hex]. rewrite Hr in H. injection H as <- <-.
  split; [done|]. destruct (version_of w d) as [v|] eqn:E; [|done]. cbn.
  destruct (Hex v eq_refl) as [s Hs]. rewrite Hs. by exists v.
Qed.

(** Whatever others do between its statements, an [ok] answer carries the
    revision its caller observed and exactly the page of the work's events at
    that revision, which is also the current one at the end - or two versions
    of the work have one SHA-256 digest; a [stale] answer carries another
    revision than the observed one and no event; [unknown] means that there is
    no such work. *)
Theorem history_coherent cs1 cs2 q d d' r :
  Inv nfkc_casefold d →
  history (run_all nfkc_casefold cs1) (run_all nfkc_casefold cs2) q d = (d', Ok r) →
  let w := hq_work_id q in
  match hr_status r with
  | s_ok =>
      hr_work_id r = Some w ∧ hr_revision r = Some (hq_observed_revision q) ∧
      (revision_collision w ∨
       ∃ v p, version_of w d = Some v ∧ version_of w d' = Some v ∧
         canonical_revision w v = Ok (hq_observed_revision q) ∧
         (page w (hq_cursor q) (hq_limit q) d).2 = Ok p ∧
         hr_events r = _public_event <$> page_events p ∧ hr_next_cursor r = next_cursor p)
  | s_stale =>
      ∃ rev, hr_revision r = Some rev ∧ rev ≠ hq_observed_revision q ∧ revision_at w d' (Some rev) ∧
        hr_events r = []
  | s_unknown => version_of w d' = None ∧ hr_events r = []
  | _ => False
  end.
Proof.
  intros Hd H w. unfold history, history_result, others in H.
  pose proof (tracker_steps nfkc_casefold cs1 d Hd) as Hd1. pose proof (tracker_steps nfkc_casefold cs2 _ Hd1) as Hd2.
  inv_M. match goal with H : _revision _ d = _ |- _ => apply _revision_at in H as [-> Hrev]; [|apply Hd] end.
  destruct a as [rev|].
  2:{ inv_M. match goal with H : WorkHistoryResult_validate _ = _ |- _ => apply validate_id in H as -> end. by cbn. }
  destruct (negb (eqb (hq_observed_revision q) rev)) eqn:Eobs; rewrite ?negb_true_iff, ?negb_false_iff in Eobs.
  { inv_M. match goal with H : WorkHistoryResult_validate _ = _ |- _ => apply validate_id in H as -> end.
    rewrite eqb_false in Eobs. cbn. exists rev. by split_and!. }
  rewrite eqb_true in Eobs. subst rev. inv_M.
  repeat match goal with H : (_, Ok _) = (_, Ok _) |- _ => injection H as <- <- end.
  match goal with H : page _ _ _ ?d1 = (?s, Ok ?p) |- _ => rename H into Hpage; rename p into pg end.
  pose proof (page_state w (hq_cursor q) (hq_limit q) (run_all nfkc_casefold cs1 d)) as Hst.
  fold w in Hpage. rewrite Hpage in Hst. cbn [fst] in Hst. subst.
  match goal with H : _revision _ (run_all _ cs2 _) = _ |- _ => apply _revision_at in H as [-> Hlatest]; [|apply Hd2] end.
  match goal with H : (match ?o with _ => _ end) _ = _ |- _ => destruct o as [last|] end.
  2:{ inv_M. match goal with H : WorkHistoryResult_validate _ = _ |- _ => apply validate_id in H as -> end. by cbn. }
  destruct (negb (eqb last (hq_observed_revision q))) eqn:El; rewrite ?negb_true_iff, ?negb_false_iff in El.
  { inv_M. match goal with H : WorkHistoryResult_validate _ = _ |- _ => apply validate_id in H as -> end.
    rewrite eqb_false in El. cbn. exists last. by split_and!. }
  rewrite eqb_true in El. subst last. inv_M.
  match goal with H : WorkHistoryResult_validate _ = _ |- _ => apply validate_id in H as -> end.
  cbn. split_and!; [done..|]. destruct Hrev as (v & Hv & Hcv). destruct Hlatest as (v' & Hv' & Hcv').
  destruct (decide (v = v')) as [<-|Hne]; [right | left; by exists v, v', (hq_observed_revision q)].
  exists v, pg. split_and!; try done.
  rewrite <- (page_history w _ _ (run_all nfkc_casefold cs1 d)); [by rewrite Hpage|].
  by eapply history_between.
Qed.
End coherence.

(** ** Instances *)

#[local] Abbreviation ex_state := (run_all ascii_fold ex_calls (empty_db ∅)).

Definition ex_query : WorkHistoryRequest :=
  mkHistoryRequest (ex_id 1) (match canonical_revision (ex_id 1) 5 with Ok s => s | Err _ => "" end) None 2.

(** An append to another work in between. *)
Definition ex_other : list Call :=
  [c_append (ex_id 14) (ex_id 2) 1 (ex_id 24) "comment_added" (Some "other"%string) ex_time None None].

Definition ex_answer : TrackerDB * res WorkHistoryResult :=
  history (run_all ascii_fold ex_other) (run_all ascii_fold []) ex_query ex_state.

Lemma history_coherent_witness :
  ∃ d' r, ex_answer = (d', Ok r) ∧ hr_status r = s_ok ∧ length (hr_events r) = 2%nat ∧
    (revision_collision (ex_id 1) ∨ version_of (ex_id 1) d' = Some 5).
Proof.
  destruct ex_answer as [d' [r|e]] eqn:E; [|exfalso; apply (f_equal snd) in E; vm_compute in E; discriminate E].
  exists d', r. pose proof (history_coherent ascii_fold ex_other [] ex_query ex_state d' r ex_state_inv E) as H.
  assert (Hs : hr_status r = s_ok ∧ length (hr_events r) = 2%nat).
  { apply (f_equal snd) in E. cbn [snd] in E. vm_compute in E. injection E as <-. by split. }
  destruct Hs as [Hs Hl]. cbv zeta in H. rewrite Hs in H. split_and!; [done..|].
  destruct H as (_ & _ & [Hc|(v & p & _ & Hv & _)]); [by left|right].
  apply (f_equal fst) in E. cbn [fst] in E. rewrite <- E. vm_compute. reflexivity.
Defined.
