(* ===== verification/HumanReviews.v ===== *)
(** * Human review consequences ([human_reviews.py])

    A consequence is the exact meaning of approving one revision of a package
    of work.  It is proposed once per revision, decided once, and an approved
    baseline may only be replaced by one that names it.  An operation is one
    transaction over the table and the package's row; [now] is the database's
    [now()].  A [jsonb] document is the model it was dumped from, and a read
    validates it again. *)

From S2P Require Import Prelude Tables Json Codec Tracker TrackerSystem.

Local Open Scope Z_scope.

(** ** The consequence *)

Definition CONSEQUENCE_NAMESPACE : uuid := "7dfd482c-1705-4a60-b684-0ea40db05e2e".

Inductive ContinuationEffect := IMPLEMENT | LAND | ACTIVATE.
Inductive ApprovalEffect := READY_FOR_IMPLEMENTATION_ONLY | CLEAR_HUMAN_REVIEW_FOR_NAMED_CONTINUATION.
Inductive HumanDecision := APPROVED | WAIT | HOLD | NO_DISPATCH.
Inductive ReviewState := PENDING | READY_FOR_IMPLEMENTATION | S_WAIT | S_HOLD | S_NO_DISPATCH.

#[export] Instance ContinuationEffect_eq_dec : EqDecision ContinuationEffect.
Proof. solve_decision. Defined.
#[export] Instance ApprovalEffect_eq_dec : EqDecision ApprovalEffect.
Proof. solve_decision. Defined.
#[export] Instance HumanDecision_eq_dec : EqDecision HumanDecision.
Proof. solve_decision. Defined.
#[export] Instance ReviewState_eq_dec : EqDecision ReviewState.
Proof. solve_decision. Defined.

Record HumanReviewOpeningV2 := mkOpening {
  what_you_asked : string; what_this_does : string;
  what_this_does_not_or_changes_for_you : string; size : string }.

Record HumanReviewDecisionContextV2 := mkDecisionContext {
  size_or_burden : list string; scale_assumptions : list string;
  material_risks_and_boundaries : list string }.

Record HumanReviewBaselineV2 := mkBaseline {
  human_source_refs : list string; opening : HumanReviewOpeningV2; approved_meaning : list string;
  protected_requirements : list string; approved_non_goals : list string;
  decision_context : HumanReviewDecisionContextV2; continuation_effects : list ContinuationEffect;
  supersedes_baseline_id : option uuid }.

Record HumanReviewRequester := mkRequester { requester_name : string; mailbox_id : uuid }.

Record HumanReviewConsequence := mkConsequence {
  package_work_id : uuid; package_revision : string; implementation_scope : list string;
  implementation_target : string; excluded_effects : list string; approval_effect : ApprovalEffect;
  baseline : option HumanReviewBaselineV2; requester : option HumanReviewRequester;
  task_text : option string }.

#[export] Instance HumanReviewOpeningV2_eq_dec : EqDecision HumanReviewOpeningV2.
Proof. solve_decision. Defined.
#[export] Instance HumanReviewDecisionContextV2_eq_dec : EqDecision HumanReviewDecisionContextV2.
Proof. solve_decision. Defined.
#[export] Instance HumanReviewBaselineV2_eq_dec : EqDecision HumanReviewBaselineV2.
Proof. solve_decision. Defined.
#[export] Instance HumanReviewRequester_eq_dec : EqDecision HumanReviewRequester.
Proof. solve_decision. Defined.
#[export] Instance HumanReviewConsequence_eq_dec : EqDecision HumanReviewConsequence.
Proof. solve_decision. Defined.

(** ** Validation *)

Definition sized {A} (lo hi : Z) (l : list A) : bool :=
  (lo <=? Z.of_nat (length l)) && (Z.of_nat (length l) <=? hi).

Definition text_within (lo hi : Z) (s : string) : bool := (lo <=? py_len s) && (py_len s <=? hi).

(** A character of the pattern [\S]: not Unicode white space. *)
Definition is_black (c : ascii) : bool :=
  let n := cp c in negb (((9 <=? n) && (n <=? 13)) || (n =? 32) || (n =? 133) || (n =? 160)).

Definition BoundedBaselineText (s : string) : bool :=
  text_within 1 1024 s && negb (all_chars (λ c, negb (is_black c)) s).

Definition opening_ok (o : HumanReviewOpeningV2) : bool :=
  forallb BoundedBaselineText
    [what_you_asked o; what_this_does o; what_this_does_not_or_changes_for_you o; size o].

Definition decision_context_ok (c : HumanReviewDecisionContextV2) : bool :=
  sized 1 16 (size_or_burden c) && sized 0 16 (scale_assumptions c)
  && sized 0 32 (material_risks_and_boundaries c)
  && forallb BoundedBaselineText (size_or_burden c ++ scale_assumptions c ++ material_risks_and_boundaries c).

(** [unique_items] *)
Definition unique_items (b : HumanReviewBaselineV2) : bool :=
  forallb no_dup [human_source_refs b; approved_meaning b; protected_requirements b; approved_non_goals b;
    size_or_burden (decision_context b); scale_assumptions (decision_context b);
    material_risks_and_boundaries (decision_context b)]
  && no_dup (continuation_effects b).

Definition baseline_ok (b : HumanReviewBaselineV2) : bool :=
  sized 1 32 (human_source_refs b) && opening_ok (opening b) && sized 1 32 (approved_meaning b)
  && sized 1 64 (protected_requirements b) && sized 0 32 (approved_non_goals b)
  && forallb BoundedBaselineText (human_source_refs b ++ approved_meaning b ++ protected_requirements b
       ++ approved_non_goals b)
  && decision_context_ok (decision_context b) && sized 1 3 (continuation_effects b) && unique_items b.

(** [str.casefold] of one character; [None] for U+00B5, whose folding is
    outside Latin-1. *)
Definition casefold_char (c : ascii) : option string :=
  let n := cp c in
  if char_between "A" "Z" c || ((192 <=? n) && (n <=? 222) && negb (n =? 215))
  then Some (String (ascii_of_nat (Z.to_nat (n + 32))) "")
  else if n =? 223 then Some "ss"
  else if n =? 181 then None
  else Some (String c "").

Fixpoint casefold (s : string) : option string :=
  match s with
  | EmptyString => Some ""
  | String c s' => t ← casefold_char c; u ← casefold s'; Some (String.append t u)
  end.

(** [value.strip()] *)
Definition py_strip (s : string) : string :=
  let fix skip (l : list ascii) :=
    match l with c :: l' => if is_py_space c then skip l' else l | [] => [] end in
  String.string_of_list_ascii (rev (skip (rev (skip (String.list_ascii_of_string s))))).

Definition effect_exclusions (e : ContinuationEffect) : list string :=
  match e with
  | IMPLEMENT => ["implement"; "implementation"]
  | LAND => ["land"; "landing"]
  | ACTIVATE => ["activate"; "activation"]
  end.

(** [excluded & effect_exclusions[effect]] *)
Definition excludes (c : HumanReviewConsequence) (e : ContinuationEffect) : bool :=
  existsb (λ v, match casefold (py_strip v) with Some t => mem t (effect_exclusions e) | None => false end)
    (excluded_effects c).

Definition consequence_fields_ok (c : HumanReviewConsequence) : bool :=
  text_within 1 512 (package_revision c) && sized 1 32 (implementation_scope c)
  && text_within 1 1024 (implementation_target c) && sized 1 32 (excluded_effects c)
  && match baseline c with Some b => baseline_ok b | None => true end
  && match requester c with Some r => text_within 1 80 (requester_name r) | None => true end
  && match task_text c with Some t => truthy t | None => true end.

(** [bounded_unique_items] *)
Definition bounded_unique_items (c : HumanReviewConsequence) : res unit :=
  raise_if (is_some (task_text c) && is_none (baseline c)) ValueError
    "Task text requires an approved-baseline consequence";;
  raise_if (existsb (λ l, negb (no_dup l) || existsb (λ v, negb (truthy v) || (512 <? py_len v)) l)
              [implementation_scope c; excluded_effects c]) ValueError
    "consequence items must be unique strings of 1..512 characters";;
  match baseline c with
  | None => raise_if (negb (eqb (approval_effect c) READY_FOR_IMPLEMENTATION_ONLY)) ValueError
              "V2 approval effect requires a baseline"
  | Some b =>
      raise_if (negb (eqb (approval_effect c) CLEAR_HUMAN_REVIEW_FOR_NAMED_CONTINUATION)) ValueError
        "V2 baseline requires named-continuation approval effect";;
      raise_if (existsb (excludes c) (continuation_effects b)) ValueError "continuation effect is also excluded"
  end.

Definition HumanReviewConsequence_validate (c : HumanReviewConsequence) : res HumanReviewConsequence :=
  raise_if (negb (consequence_fields_ok c)) ValueError "validation error";;
  bounded_unique_items c;;
  Ok c.

(** ** The digest *)

Definition effect_text (e : ContinuationEffect) : string :=
  match e with IMPLEMENT => "IMPLEMENT" | LAND => "LAND" | ACTIVATE => "ACTIVATE" end.

Definition approval_text (a : ApprovalEffect) : string :=
  match a with
  | READY_FOR_IMPLEMENTATION_ONLY => "READY_FOR_IMPLEMENTATION_ONLY"
  | CLEAR_HUMAN_REVIEW_FOR_NAMED_CONTINUATION => "CLEAR_HUMAN_REVIEW_FOR_NAMED_CONTINUATION"
  end.

Definition opening_json (o : HumanReviewOpeningV2) : json :=
  JObj [("what_you_asked", JStr (what_you_asked o)); ("what_this_does", JStr (what_this_does o));
        ("what_this_does_not_or_changes_for_you", JStr (what_this_does_not_or_changes_for_you o));
        ("size", JStr (size o))]%string.

Definition baseline_json (b : HumanReviewBaselineV2) : json :=
  JObj [("schema_version", JStr "2"); ("human_source_refs", jstrs (human_source_refs b));
        ("opening", opening_json (opening b)); ("approved_meaning", jstrs (approved_meaning b));
        ("protected_requirements", jstrs (protected_requirements b));
        ("approved_non_goals", jstrs (approved_non_goals b));
        ("decision_context", JObj [
           ("size_or_burden", jstrs (size_or_burden (decision_context b)));
           ("scale_assumptions", jstrs (scale_assumptions (decision_context b)));
           ("material_risks_and_boundaries", jstrs (material_risks_and_boundaries (decision_context b)))]);
        ("continuation_effects", jstrs (effect_text <$> continuation_effects b));
        ("supersedes_baseline_id", jopt (supersedes_baseline_id b))]%string.

Definition requester_json (r : HumanReviewRequester) : json :=
  JObj [("name", JStr (requester_name r)); ("mailbox_id", JStr (mailbox_id r))]%string.

(** The dump without the absent [task_text] and [requester]. *)
Definition consequence_json (c : HumanReviewConsequence) : json :=
  let given (key : string) (o : option json) : list (string * json) :=
    match o with Some v => [(key, v)] | None => [] end in
  JObj (app [("package_work_id", JStr (package_work_id c)); ("package_revision", JStr (package_revision c));
             ("implementation_scope", jstrs (implementation_scope c));
             ("implementation_target", JStr (implementation_target c));
             ("excluded_effects", jstrs (excluded_effects c));
             ("approval_effect", JStr (approval_text (approval_effect c)));
             ("baseline", match baseline c with Some b => baseline_json b | None => JNull end)]
        (app (given "requester" (requester_json <$> requester c)) (given "task_text" (JStr <$> task_text c))))%string.

Definition digest (c : HumanReviewConsequence) : string := sha256_hex (dumps_compact (consequence_json c)).

Definition consequence_id (c : HumanReviewConsequence) : uuid := uuid5 CONSEQUENCE_NAMESPACE (digest c).

(** ** The table *)

(** A row of [human_review_consequences]. *)
Record ReviewRow := mkReview {
  rr_id : uuid; rr_package : uuid; rr_revision : string; rr_digest : string;
  rr_consequence : HumanReviewConsequence; rr_decision : option HumanDecision; rr_state : ReviewState;
  rr_created_at : datetime; rr_decided_at : option datetime }.

#[export] Instance ReviewRow_eq_dec : EqDecision ReviewRow.
Proof. solve_decision. Defined.

(** The table, oldest row first, beside the tables of the tracker. *)
Record ReviewDB := mkReviewDB { hr_tracker : TrackerDB; reviews : list ReviewRow }.

Definition with_reviews (l : list ReviewRow) (d : ReviewDB) : ReviewDB := mkReviewDB (hr_tracker d) l.

Definition decided_state (o : option HumanDecision) : ReviewState :=
  match o with
  | None => PENDING
  | Some APPROVED => READY_FOR_IMPLEMENTATION
  | Some WAIT => S_WAIT
  | Some HOLD => S_HOLD
  | Some NO_DISPATCH => S_NO_DISPATCH
  end.

(** The check constraints of the table. *)
Definition review_checks (r : ReviewRow) : bool :=
  truthy (rr_revision r) && (py_len (rr_digest r) =? 64)
  && eqb (rr_state r) (decided_state (rr_decision r))
  && eqb (is_none (rr_decision r)) (is_none (rr_decided_at r)).

Definition baseline_texts (b : HumanReviewBaselineV2) : list string :=
  human_source_refs b ++ approved_meaning b ++ protected_requirements b ++ approved_non_goals b
  ++ [what_you_asked (opening b); what_this_does (opening b);
      what_this_does_not_or_changes_for_you (opening b); size (opening b)]
  ++ size_or_burden (decision_context b) ++ scale_assumptions (decision_context b)
  ++ material_risks_and_boundaries (decision_context b).

(** A document with a null character is refused by [jsonb]. *)
Definition consequence_nul (c : HumanReviewConsequence) : bool :=
  existsb has_nul (package_revision c :: implementation_target c :: implementation_scope c ++ excluded_effects c
    ++ match baseline c with Some b => baseline_texts b | None => [] end
    ++ match requester c with Some r => [requester_name r] | None => [] end)
  || opt_nul (task_text c).

Definition insert_review (r : ReviewRow) : M ReviewDB ReviewRow :=
  refuse_if (consequence_nul (rr_consequence r));;
  d ← get_st;
  throw_if (existsb (λ r', eqb (rr_id r') (rr_id r)) (reviews d) || is_none (works (hr_tracker d) !! rr_package r)
            || negb (review_checks r)) IntegrityError "human_review_consequences";;
  put_st (with_reviews (reviews d ++ [r]) d);;
  mret r.

(** ** Records *)

Record HumanReviewRecord := mkReviewRecord {
  hv_id : uuid; hv_package : uuid; hv_revision : string; hv_digest : string;
  hv_consequence : HumanReviewConsequence; hv_decision : option HumanDecision; hv_state : ReviewState }.

Inductive ResultStatus := PREPARED | REPLAYED | RECORDED | STALE | DENIED | CONFLICT | UNKNOWN.

#[export] Instance ResultStatus_eq_dec : EqDecision ResultStatus.
Proof. solve_decision. Defined.

Record HumanReviewResult := mkReviewResult {
  hr_status : ResultStatus; hr_record : option HumanReviewRecord; hr_reason : option string }.

(** [exact_shape] *)
Definition exact_shape (r : HumanReviewResult) : bool :=
  let good := mem (hr_status r) [PREPARED; REPLAYED; RECORDED] in
  eqb good (is_some (hr_record r) && is_none (hr_reason r)) && (good || is_some (hr_reason r)).

Definition answer_with (s : ResultStatus) (r : HumanReviewRecord) : HumanReviewResult :=
  mkReviewResult s (Some r) None.
Definition refuse_with (s : ResultStatus) (reason : string) : HumanReviewResult :=
  mkReviewResult s None (Some reason).

Definition human_review_record (row : ReviewRow) : res HumanReviewRecord :=
  consequence ← HumanReviewConsequence_validate (rr_consequence row);
  raise_if (negb (eqb (digest consequence) (rr_digest row))
    || negb (eqb (consequence_id consequence) (rr_id row))
    || negb (eqb (package_work_id consequence) (rr_package row))
    || negb (eqb (package_revision consequence) (rr_revision row))
    || negb (eqb (rr_state row) (decided_state (rr_decision row))))
    ValueError "stored Human Review consequence is inconsistent";;
  Ok (mkReviewRecord (rr_id row) (rr_package row) (rr_revision row) (rr_digest row) consequence
        (rr_decision row) (rr_state row)).

(** ** Approved baselines *)

Definition approved_row (package : uuid) (r : ReviewRow) : bool :=
  eqb (rr_package r) package && eqb (rr_decision r) (Some APPROVED).

Definition supersedes (r : HumanReviewRecord) : option uuid :=
  baseline (hv_consequence r) ≫= supersedes_baseline_id.

(** The approved records with a baseline, and those no other one supersedes. *)
Definition approved_v2 (package : uuid) (l : list ReviewRow) : res (list HumanReviewRecord) :=
  approved ← mapM (M := res) human_review_record (List.filter (approved_row package) l);
  Ok (List.filter (λ r, is_some (baseline (hv_consequence r))) approved).

Definition unsuperseded (v2 : list HumanReviewRecord) : list HumanReviewRecord :=
  List.filter (λ r, negb (mem (Some (hv_id r)) (supersedes <$> v2))) v2.

(** [approved_baseline_in_transaction] *)
Definition approved_baseline (baseline_id package : uuid) (l : list ReviewRow) : res (option HumanReviewRecord) :=
  row ← one_or_none (List.filter (λ r, eqb (rr_id r) baseline_id) l);
  match row with
  | None => Ok None
  | Some row =>
      record ← human_review_record row;
      Ok (if negb (eqb (hv_package record) package) || negb (eqb (hv_decision record) (Some APPROVED))
             || is_none (baseline (hv_consequence record))
          then None else Some record)
  end.

(** [current_approved_baseline_in_transaction] *)
Definition current_approved_baseline (package : uuid) (l : list ReviewRow) : res (option HumanReviewRecord) :=
  v2 ← approved_v2 package l;
  let current := unsuperseded v2 in
  raise_if (1 <? length current)%nat ValueError "multiple current approved baselines";;
  Ok (head current).

Definition agent_notes_fit (work : uuid) (notes : string) (l : list ReviewRow) : res bool :=
  approved ← current_approved_baseline work l;
  Ok (match approved with
      | None => true
      | Some a => is_none (task_text (hv_consequence a)) || (Z.of_nat (length (utf8 notes)) <=? 2048)
      end).

(** ** The operations *)

Definition package_work (package : uuid) : M ReviewDB (option CurrentWork) := λ d,
  (d, (get_locked package (hr_tracker d)).2).

Definition _package_reason (package : uuid) (revision : string) : M ReviewDB (option string) :=
  work ← package_work package;
  match work with
  | None => mret (Some "package_not_found"%string)
  | Some w =>
      actual ← lift (canonical_revision (work_id w) (row_version w));
      mret (if eqb actual revision then None else Some "package_revision_changed"%string)
  end.

Definition proposal_of (package : uuid) (revision : string) (r : ReviewRow) : bool :=
  eqb (rr_package r) package && eqb (rr_revision r) revision.

Definition _proposals (package : uuid) (revision : string) : M ReviewDB (list ReviewRow) :=
  d ← get_st;
  mret (List.filter (proposal_of package revision) (reviews d)).

Definition _baseline_supersession_reason (c : HumanReviewConsequence) (l : list ReviewRow) : res (option string) :=
  match baseline c with
  | None => Ok None
  | Some b =>
      v2 ← approved_v2 (package_work_id c) l;
      let current := unsuperseded v2 in
      raise_if (1 <? length current)%nat ValueError "multiple current approved baselines";;
      Ok (match supersedes_baseline_id b with
          | None => match v2 with [] => None | _ => Some "baseline_supersession_required"%string end
          | Some s =>
              match current with
              | [r] =>
                  if negb (eqb (hv_id r) s) then Some "baseline_supersession_invalid"%string
                  else if is_some (task_text (hv_consequence r)) && is_none (task_text c)
                  then Some "task_text_required"%string
                  else None
              | _ => Some "baseline_supersession_invalid"%string
              end
          end)
  end.

(** The transaction of an operation and its [except] clause. *)
Definition reviewing (f : Fault) (m : M ReviewDB HumanReviewResult) : M ReviewDB HumanReviewResult :=
  catch (connected f (transaction m)) [SQLAlchemyError; TypeError; ValueError] (λ _, mret (refuse_with UNKNOWN "state_unavailable")).

Definition new_review (now : datetime) (c : HumanReviewConsequence) : ReviewRow :=
  mkReview (consequence_id c) (package_work_id c) (package_revision c) (digest c) c None PENDING now None.

(** A status with the record of a row. *)
Definition recorded (s : ResultStatus) (row : ReviewRow) : M ReviewDB HumanReviewResult :=
  record ← lift (human_review_record row);
  mret (answer_with s record).

Definition propose_in (now : datetime) (c : HumanReviewConsequence) : M ReviewDB HumanReviewResult :=
  reason ← _package_reason (package_work_id c) (package_revision c);
  match reason with
  | Some r => mret (refuse_with (if eqb r "package_not_found" then DENIED else STALE) r)
  | None =>
      rows ← _proposals (package_work_id c) (package_revision c);
      match rows with
      | _ :: _ :: _ => mret (refuse_with UNKNOWN "state_unavailable")
      | [row] =>
          existing ← lift (human_review_record row);
          if negb (eqb (hv_digest existing) (digest c)) then mret (refuse_with CONFLICT "consequence_changed")
          else mret (answer_with REPLAYED existing)
      | [] =>
          d ← get_st;
          reason ← lift (_baseline_supersession_reason c (reviews d));
          match reason with
          | Some r => mret (refuse_with DENIED r)
          | None => row ← insert_review (new_review now c); recorded PREPARED row
          end
      end
  end.

Definition propose (f : Fault) (now : datetime) (c : HumanReviewConsequence) : M ReviewDB HumanReviewResult :=
  reviewing f (propose_in now c).

Definition prepare_in (package : uuid) (revision : string) : M ReviewDB HumanReviewResult :=
  reason ← _package_reason package revision;
  match reason with
  | Some r => mret (refuse_with (if eqb r "package_not_found" then DENIED else STALE) r)
  | None =>
      rows ← _proposals package revision;
      match rows with
      | [] => mret (refuse_with UNKNOWN "consequence_unavailable")
      | [row] => recorded REPLAYED row
      | _ => mret (refuse_with UNKNOWN "state_unavailable")
      end
  end.

Definition prepare (f : Fault) (package : uuid) (revision : string) : M ReviewDB HumanReviewResult :=
  reviewing f (prepare_in package revision).

(** The decided row. *)
Definition decided (now : datetime) (decision : HumanDecision) (r : ReviewRow) : ReviewRow :=
  mkReview (rr_id r) (rr_package r) (rr_revision r) (rr_digest r) (rr_consequence r) (Some decision)
    (decided_state (Some decision)) (rr_created_at r) (Some now).

(** [UPDATE ... WHERE consequence_id = ... RETURNING]; only the decision, the
    state and the time change, and never against the check constraints. *)
Definition decide_review (now : datetime) (id : uuid) (decision : HumanDecision) : M ReviewDB ReviewRow := λ d,
  let l := (λ r, if eqb (rr_id r) id then decided now decision r else r) <$> reviews d in
  (with_reviews l d, one (List.filter (λ r, eqb (rr_id r) id) l)).

(** The notes of a package whose task text is approved must fit. *)
Definition notes_overflow (package : uuid) (row : ReviewRow) (decision : HumanDecision) : M ReviewDB bool :=
  if negb (eqb decision APPROVED) then mret false
  else
    record ← lift (human_review_record row);
    if is_none (task_text (hv_consequence record)) then mret false
    else
      work ← package_work package;
      mret (match work with None => true | Some w => 2048 <? Z.of_nat (length (utf8 (notes w))) end).

Definition submit_in (now : datetime) (id package : uuid) (revision : string) (decision : HumanDecision)
  : M ReviewDB HumanReviewResult :=
  reason ← _package_reason package revision;
  match reason with
  | Some r => mret (refuse_with STALE r)
  | None =>
      rows ← _proposals package revision;
      match rows with
      | [] => mret (refuse_with DENIED "consequence_unavailable")
      | [row] =>
          if negb (eqb (rr_id row) id) || negb (eqb (rr_package row) package) || negb (eqb (rr_revision row) revision)
          then mret (refuse_with STALE "consequence_changed")
          else match rr_decision row with
          | Some d =>
              if negb (eqb d decision) then mret (refuse_with CONFLICT "decision_conflict")
              else recorded REPLAYED row
          | None =>
              overflow ← notes_overflow package row decision;
              if overflow : bool then mret (refuse_with DENIED "agent_notes_overflow")
              else row ← decide_review now id decision; recorded RECORDED row
          end
      | _ => mret (refuse_with UNKNOWN "state_unavailable")
      end
  end.

Definition submit (f : Fault) (now : datetime) (id package : uuid) (revision : string) (decision : HumanDecision)
  : M ReviewDB HumanReviewResult :=
  reviewing f (submit_in now id package revision decision).

(** ** Rows in order *)

(** A stored row reads back as its own record. *)
Definition record_of (r : ReviewRow) : HumanReviewRecord :=
  mkReviewRecord (rr_id r) (rr_package r) (rr_revision r) (rr_digest r) (rr_consequence r) (rr_decision r) (rr_state r).

Definition row_ok (r : ReviewRow) : Prop := human_review_record r = Ok (record_of r).

Lemma validate_eq c c' : HumanReviewConsequence_validate c = Ok c' → c' = c.
Proof. unfold HumanReviewConsequence_validate. intros H. apply bind_Ok in H as ([] & _ & H). apply bind_Ok in H as ([] & _ & H). by injection H as <-. Qed.

Lemma record_row r h : human_review_record r = Ok h → row_ok r ∧ h = record_of r.
Proof.
  intros H. assert (E : h = record_of r); [|by subst h].
  unfold human_review_record in H. apply bind_Ok in H as (c & Hc & H). apply validate_eq in Hc as ->.
  apply bind_Ok in H as ([] & _ & H). by injection H as <-.
Qed.

Lemma row_ok_fields r : row_ok r ↔
  is_ok (HumanReviewConsequence_validate (rr_consequence r)) = true ∧ digest (rr_consequence r) = rr_digest r ∧
  consequence_id (rr_consequence r) = rr_id r ∧ package_work_id (rr_consequence r) = rr_package r ∧
  package_revision (rr_consequence r) = rr_revision r ∧ rr_state r = decided_state (rr_decision r).
Proof.
  unfold row_ok, human_review_record. destruct (HumanReviewConsequence_validate (rr_consequence r)) as [c|e] eqn:E.
  2:{ split; [done | by intros [? _]]. }
  apply validate_eq in E as ->. cbn [mbind res_bind is_ok].
  match goal with |- context [raise_if ?b _ _] => destruct b eqn:Eb end; cbn.
  - split; [done|]. intros (_ & H1 & H2 & H3 & H4 & H5). exfalso. revert Eb.
    rewrite H1, H2, H3, H4, H5, !eqb_refl. done.
  - split; [intros _ | done]. rewrite !orb_false_iff, !negb_false_iff, !eqb_true in Eb. tauto.
Qed.

Lemma decided_ok now x r : row_ok r → row_ok (decided now x r).
Proof. rewrite !row_ok_fields. cbn. tauto. Qed.

Definition of_package (p : uuid) (r : ReviewRow) : bool := eqb (rr_package r) p.

(** The rows of a package, and those of its approved baselines. *)
Definition rows_of (p : uuid) (l : list ReviewRow) : list ReviewRow := List.filter (of_package p) l.

Definition is_baseline (r : ReviewRow) : bool := is_some (baseline (rr_consequence r)).

Definition in_force (r : ReviewRow) : bool := eqb (rr_decision r) (Some APPROVED) && is_baseline r.

Definition baselines (p : uuid) (l : list ReviewRow) : list ReviewRow := List.filter in_force (rows_of p l).

Lemma baselines_approved p l : baselines p l = List.filter is_baseline (List.filter (approved_row p) l).
Proof.
  unfold baselines, rows_of, approved_row, of_package, in_force.
  induction l as [|r l IH]; [done|]. cbn. destruct (eqb (rr_package r) p); cbn; [|done].
  destruct (eqb (rr_decision r) _); cbn; [|done]. destruct (is_baseline r); cbn; by rewrite IH.
Qed.

Lemma mapM_records l : Forall row_ok l → mapM (M := res) human_review_record l = Ok (record_of <$> l).
Proof. induction 1 as [|r l Hr _ IH]; [done|]. cbn [mapM]. rewrite Hr. cbn. by rewrite IH. Qed.

Lemma Forall_filter_bool {A} (P : A → Prop) (f : A → bool) l : Forall P l → Forall P (List.filter f l).
Proof. rewrite !Forall_forall. intros H x Hx. apply H. rewrite list_elem_of_In, filter_In, <- list_elem_of_In in Hx. apply Hx. Qed.

Lemma filter_fmap {A B} (f : A → B) (P : B → bool) l : List.filter P (f <$> l) = f <$> List.filter (λ x, P (f x)) l.
Proof. induction l as [|x l IH]; [done|]. cbn. destruct (P (f x)); cbn; by rewrite IH. Qed.

Lemma approved_v2_spec p l : Forall row_ok l → approved_v2 p l = Ok (record_of <$> baselines p l).
Proof.
  intros H. unfold approved_v2. rewrite baselines_approved, mapM_records by by apply Forall_filter_bool.
  cbn. by rewrite filter_fmap.
Qed.

Definition row_supersedes (r : ReviewRow) : option uuid := baseline (rr_consequence r) ≫= supersedes_baseline_id.

Definition row_task (r : ReviewRow) : bool := is_some (task_text (rr_consequence r)).

(** [r] may follow [prev]: it names it, and keeps a task text. *)
Definition follows (prev : option ReviewRow) (r : ReviewRow) : Prop :=
  row_supersedes r = rr_id <$> prev ∧ ∀ q, prev = Some q → row_task q = true → row_task r = true.

Fixpoint chained (prev : option ReviewRow) (l : list ReviewRow) : Prop :=
  match l with
  | [] => True
  | r :: l' => follows prev r ∧ chained (Some r) l'
  end.

Definition final (prev : option ReviewRow) (l : list ReviewRow) : option ReviewRow :=
  match last l with Some r => Some r | None => prev end.

Lemma final_cons prev r l : final prev (r :: l) = final (Some r) l.
Proof. unfold final. rewrite last_cons. by destruct (last l). Qed.

Lemma chained_snoc prev l r : chained prev (l ++ [r]) ↔ chained prev l ∧ follows (final prev l) r.
Proof.
  revert prev. induction l as [|x l IH]; intros prev; [cbn; tauto|]. cbn [app chained]. rewrite IH, final_cons. tauto.
Qed.

(** All but the last of a chain are superseded. *)
Lemma chained_named prev l r : chained prev l → r ∈ l →
  Some (rr_id r) ∈ (row_supersedes <$> l) ∨ final prev l = Some r.
Proof.
  revert prev. induction l as [|x l IH]; intros prev Hl Hr; [by apply not_elem_of_nil in Hr|]. destruct Hl as [Hx Hl].
  rewrite final_cons. apply elem_of_cons in Hr as [->|Hr].
  - destruct l as [|y l]; [by right|]. left. cbn in Hl. destruct Hl as [[Hy _] _]. right. rewrite Hy. by left.
  - destruct (IH (Some x) Hl Hr) as [H|H]; [left; by right | by right].
Qed.

Lemma chained_names prev l i : chained prev l → Some i ∈ (row_supersedes <$> l) →
  rr_id <$> prev = Some i ∨ ∃ l1 l2, l = l1 ++ l2 ∧ l2 ≠ [] ∧ i ∈ (rr_id <$> l1).
Proof.
  revert prev. induction l as [|x l IH]; intros prev Hl Hi; [by apply not_elem_of_nil in Hi|]. destruct Hl as [Hx Hl].
  cbn in Hi. apply elem_of_cons in Hi as [Hi|Hi].
  - left. by rewrite Hi, (proj1 Hx).
  - right. destruct (IH _ Hl Hi) as [[= <-]|(l1 & l2 & -> & Hne & Hin)].
    + exists [x], l. split; [done|]. split; [|by left]. intros ->. by apply not_elem_of_nil in Hi.
    + exists (x :: l1), l2. split; [done|]. split; [done|]. by right.
Qed.

Lemma unsuperseded_chain l : chained None l → NoDup (rr_id <$> l) →
  unsuperseded (record_of <$> l) = match last l with Some r => [record_of r] | None => [] end.
Proof.
  intros Hl Hn. unfold unsuperseded. rewrite filter_fmap.
  assert (E : supersedes <$> (record_of <$> l) = row_supersedes <$> l) by (rewrite <- list_fmap_compose; done).
  rewrite E. destruct (last l) as [r|] eqn:Er; [|apply last_None in Er; by subst l].
  change [record_of r] with (record_of <$> [r]). f_equal.
  apply last_Some in Er as [l' ->].
  apply (filter_unique rr_id); [done | | apply elem_of_app; right; by left |].
  - intros y Hy Hp. destruct (chained_named _ _ _ Hl Hy) as [H|H].
    + rewrite negb_true_iff in Hp. cbn in Hp. exfalso. apply not_true_iff_false in Hp. apply Hp. by apply mem_true.
    + unfold final in H. rewrite last_snoc in H. by injection H as ->.
  - rewrite negb_true_iff. apply not_true_iff_false. rewrite mem_true. cbn. intros H.
    destruct (chained_names _ _ _ Hl H) as [H'|(l1 & l2 & E2 & Hne & Hin)]; [done|].
    destruct (exists_last Hne) as (l3 & z & ->). rewrite app_assoc in E2. apply app_inj_tail in E2 as [-> <-].
    rewrite !fmap_app, NoDup_app in Hn. destruct Hn as (_ & Hn & _). apply (Hn (rr_id r)); [|by left].
    apply elem_of_app. by left.
Qed.

Lemma last_fmap {A B} (f : A → B) l : last (f <$> l) = f <$> last l.
Proof. induction l as [|x l IH]; [done|]. cbn [fmap list_fmap]. rewrite !last_cons. change (list_fmap _ _ f l) with (f <$> l). rewrite IH. by destruct (last l). Qed.

Lemma current_of_chain p l :
  Forall row_ok l → chained None (baselines p l) → NoDup (rr_id <$> l) →
  current_approved_baseline p l = Ok (record_of <$> last (baselines p l)).
Proof.
  intros Hok Hc Hn. unfold current_approved_baseline. rewrite approved_v2_spec by done. cbn.
  rewrite unsuperseded_chain; [by destruct (last (baselines p l)) | done|].
  by do 2 apply NoDup_fmap_filter.
Qed.

(** ** What an operation does *)

(** [revision] is that of the package's current version. *)
Definition at_revision (p : uuid) (revision : string) (d : ReviewDB) : Prop :=
  ∃ row, works (hr_tracker d) !! p = Some row ∧
    canonical_revision (work_id (item_of row)) (row_version (item_of row)) = Ok revision.

Definition REVIEW_ERRORS : list exn_class := [ValueError; TypeError; SQLAlchemyError; IntegrityError].

(** The operation changed nothing: a raise, or an answer that says so. *)
Definition idle (d d' : ReviewDB) (r : res HumanReviewResult) : Prop :=
  d' = d ∧ match r with
           | Ok a => (hr_status a ∉ [PREPARED; RECORDED]) ∧ exact_shape a = true ∧
                     ∀ h, hr_record a = Some h → ∃ row, row ∈ reviews d ∧ row_ok row ∧ h = record_of row
           | Err e => exn_cls e ∈ REVIEW_ERRORS
           end.

(** What [propose] adds. *)
Record proposable (c : HumanReviewConsequence) (d : ReviewDB) : Prop := {
  pp_at : at_revision (package_work_id c) (package_revision c) d;
  pp_first : List.filter (proposal_of (package_work_id c) (package_revision c)) (reviews d) = [];
  pp_id : ∀ r, r ∈ reviews d → rr_id r ≠ consequence_id c;
  pp_reason : _baseline_supersession_reason c (reviews d) = Ok None }.

(** What [submit] decides. *)
Record decidable (x : HumanDecision) (r : ReviewRow) (d : ReviewDB) : Prop := {
  dd_at : at_revision (rr_package r) (rr_revision r) d;
  dd_only : List.filter (proposal_of (rr_package r) (rr_revision r)) (reviews d) = [r];
  dd_open : rr_decision r = None;
  dd_fit : x = APPROVED → row_task r = true →
    ∃ row, works (hr_tracker d) !! rr_package r = Some row ∧ Z.of_nat (length (utf8 (notes (item_of row)))) <= 2048 }.

Ltac not_among := rewrite ?elem_of_cons, ?elem_of_nil; intuition discriminate.

Lemma package_reason_run p rev d :
  ∃ x, _package_reason p rev d = (d, x) ∧
    match x with
    | Ok None => at_revision p rev d
    | Ok (Some _) => True
    | Err e => exn_cls e ∈ REVIEW_ERRORS
    end ∧ (at_revision p rev d → x = Ok None).
Proof.
  unfold _package_reason, package_work, get_locked, get_in, at_revision, mbind, M_bind. cbn.
  destruct (works (hr_tracker d) !! p) as [row|] eqn:Ew; [|eexists; split; [done|]; split; [done | by intros (? & ? & _)]]. cbn.
  destruct (canonical_revision _ _) as [rev'|e] eqn:E; cbn.
  - eexists. split; [done|]. destruct (eqb rev' rev) eqn:Er.
    + rewrite eqb_true in Er. subst rev'. split; [by exists row | done].
    + split; [done|]. rewrite eqb_false in Er. intros (row' & [= <-] & H). congruence.
  - eexists. split; [done|]. split; [|intros (row' & [= <-] & H); congruence].
    unfold canonical_revision in E. destruct (_ <? 1); [injection E as <-; in_errors | done].
Qed.

Lemma raise_if_err (b : bool) msg e : raise_if b ValueError msg = Err e → exn_cls e ∈ REVIEW_ERRORS.
Proof. destruct b; [intros [= <-]; in_errors | done]. Qed.

Lemma validate_err c e : HumanReviewConsequence_validate c = Err e → exn_cls e ∈ REVIEW_ERRORS.
Proof.
  unfold HumanReviewConsequence_validate, bounded_unique_items. intros [H|([] & _ & H)]%bind_Err; [by eapply raise_if_err|].
  apply bind_Err in H as [H|([] & _ & [=])].
  apply bind_Err in H as [H|([] & _ & H)]; [by eapply raise_if_err|].
  apply bind_Err in H as [H|([] & _ & H)]; [by eapply raise_if_err|].
  destruct (baseline c); [|by eapply raise_if_err].
  apply bind_Err in H as [H|([] & _ & H)]; by eapply raise_if_err.
Qed.

Lemma record_err r e : human_review_record r = Err e → exn_cls e ∈ REVIEW_ERRORS.
Proof.
  unfold human_review_record. intros [H|(c & _ & H)]%bind_Err; [by eapply validate_err|].
  apply bind_Err in H as [H|([] & _ & [=])]. by eapply raise_if_err.
Qed.

Lemma refuse_idle s m d : s ∉ [PREPARED; RECORDED; REPLAYED] → idle d d (Ok (refuse_with s m)).
Proof.
  intros Hs. split; [done|]. split; [intros H; apply Hs; rewrite !elem_of_cons in *; naive_solver|]. split; [|done].
  unfold exact_shape. cbn. destruct s; try done; exfalso; apply Hs; in_errors.
Qed.

(** An existing row is shown. *)
Lemma replay_idle row d d' r :
  row ∈ reviews d → recorded REPLAYED row d = (d', r) → idle d d' r.
Proof.
  intros Hrow. unfold recorded, mbind, M_bind, lift. destruct (human_review_record row) as [h|e] eqn:E; cbn.
  - intros [= <- <-]. apply record_row in E as [Hok ->]. split; [done|]. cbn. split; [not_among|].
    split; [done|]. intros h [= <-]. eauto.
  - intros [= <- <-]. split; [done|]. by eapply record_err.
Qed.

Lemma proposals_run p rev d : _proposals p rev d = (d, Ok (List.filter (proposal_of p rev) (reviews d))).
Proof. done. Qed.

Lemma approved_v2_err p l e : approved_v2 p l = Err e → exn_cls e ∈ REVIEW_ERRORS.
Proof.
  unfold approved_v2. intros [H|(? & _ & [=])]%bind_Err. induction (List.filter _ l) as [|r l' IH]; [done|].
  cbn [mapM] in H. apply bind_Err in H as [H|(h & _ & H)]; [by eapply record_err|].
  apply bind_Err in H as [H|(? & _ & [=])]. auto.
Qed.

Lemma supersession_err c l e : _baseline_supersession_reason c l = Err e → exn_cls e ∈ REVIEW_ERRORS.
Proof.
  unfold _baseline_supersession_reason. destruct (baseline c); [|done].
  intros [H|(v2 & _ & H)]%bind_Err; [by eapply approved_v2_err|].
  apply bind_Err in H as [H|(? & _ & [=])]. by eapply raise_if_err.
Qed.

Lemma insert_review_cases r d :
  (∃ e, insert_review r d = (d, Err e) ∧ exn_cls e ∈ REVIEW_ERRORS) ∨
  insert_review r d = (with_reviews (reviews d ++ [r]) d, Ok r) ∧ ∀ r', r' ∈ reviews d → rr_id r' ≠ rr_id r.
Proof.
  unfold insert_review, refuse_if, throw_if, mbind, M_bind, get_st, put_st, mret, M_ret, raise_if.
  destruct (consequence_nul _); [left; eexists; split; [done | in_errors]|].
  destruct (existsb _ _) eqn:E; cbn [orb]; [left; eexists; split; [done | in_errors]|].
  destruct (_ || _); [left; eexists; split; [done | in_errors]|].
  right. split; [done|]. rewrite existsb_false in E. intros r' Hr'. by apply eqb_false, E.
Qed.

Lemma propose_cases now c d d' r :
  transaction (propose_in now c) d = (d', r) →
  idle d d' r ∨
  proposable c d ∧ row_ok (new_review now c) ∧ d' = with_reviews (reviews d ++ [new_review now c]) d ∧
  r = Ok (answer_with PREPARED (record_of (new_review now c))).
Proof.
  unfold transaction, propose_in. destruct (package_reason_run (package_work_id c) (package_revision c) d) as (x & E & Hx & _).
  unfold mbind at 1, M_bind at 1. rewrite E. destruct x as [[reason|]|e]; [| |intros [= <- <-]; by left].
  { intros [= <- <-]. left. apply refuse_idle. destruct (eqb reason _); not_among. }
  unfold mbind at 1, M_bind at 1. rewrite proposals_run.
  destruct (List.filter _ (reviews d)) as [|row [|row2 rows]] eqn:Ef.
  3:{ intros [= <- <-]. left. apply refuse_idle. not_among. }
  2:{ apply filter_one in Ef as [Hrow _]. unfold mbind, M_bind, lift.
      destruct (human_review_record row) as [h|e] eqn:Eh; [|intros [= <- <-]; left; split; [done | by eapply record_err]].
      destruct (negb _).
      - intros [= <- <-]. left. apply refuse_idle. not_among.
      - intros [= <- <-]. left. apply (replay_idle row); [done|]. unfold recorded, mbind, M_bind, lift. by rewrite Eh. }
  unfold get_st. unfold mbind at 1, M_bind at 1. unfold mbind at 1, M_bind at 1, lift.
  destruct (_baseline_supersession_reason c (reviews d)) as [[reason|]|e] eqn:Es.
  - intros [= <- <-]. left. apply refuse_idle. not_among.
  - unfold mbind, M_bind. destruct (insert_review_cases (new_review now c) d) as [(e & -> & He)|[-> Hid]].
    { intros [= <- <-]. left. by split. }
    unfold recorded, mbind, M_bind, lift. destruct (human_review_record _) as [h|e] eqn:Eh.
    + apply record_row in Eh as [Hok ->]. intros [= <- <-]. right. by split; [split|].
    + intros [= <- <-]. left. split; [done | by eapply record_err].
  - intros [= <- <-]. left. split; [done | by eapply supersession_err].
Qed.

Lemma prepare_cases p rev d d' r : transaction (prepare_in p rev) d = (d', r) → idle d d' r.
Proof.
  unfold transaction, prepare_in. destruct (package_reason_run p rev d) as (x & E & Hx & _).
  unfold mbind at 1, M_bind at 1. rewrite E. destruct x as [[reason|]|e]; cbn [fst snd].
  - intros [= <- <-]. apply refuse_idle. destruct (eqb reason _); not_among.
  - unfold mbind at 1, M_bind at 1. rewrite proposals_run.
    destruct (List.filter _ (reviews d)) as [|row [|row2 rows]] eqn:Ef.
    1,3: intros [= <- <-]; apply refuse_idle; not_among.
    apply filter_one in Ef as [Hrow _]. destruct (recorded REPLAYED row d) as [d1 x] eqn:Er.
    apply replay_idle in Er as [-> Hy]; [|done]. destruct x; intros [= <- <-]; by split.
  - by intros [= <- <-].
Qed.

Lemma notes_overflow_run p row x d :
  ∃ y, notes_overflow p row x d = (d, y) ∧
    match y with
    | Ok true => True
    | Ok false => x = APPROVED → row_ok row ∧ (row_task row = true →
        ∃ w, works (hr_tracker d) !! p = Some w ∧ Z.of_nat (length (utf8 (notes (item_of w)))) <= 2048)
    | Err e => exn_cls e ∈ REVIEW_ERRORS
    end.
Proof.
  unfold notes_overflow. destruct (negb (eqb x APPROVED)) eqn:Ex.
  { eexists. split; [done|]. rewrite negb_true_iff, eqb_false in Ex. done. }
  unfold mbind, M_bind, lift. destruct (human_review_record row) as [h|e] eqn:Eh; [|eexists; split; [done | by eapply record_err]].
  apply record_row in Eh as [Hok ->]. cbn [hv_consequence record_of].
  destruct (is_none (task_text _)) eqn:Et.
  { eexists. split; [done|]. intros _. split; [done|]. unfold row_task, is_some. by rewrite Et. }
  unfold package_work, get_locked, get_in. cbn. destruct (works (hr_tracker d) !! p) as [w|] eqn:Ew; cbn; [|by eexists].
  eexists. split; [done|]. destruct (2048 <? _) eqn:El; [done|]. intros _. split; [done|]. intros _.
  exists w. split; [done | by apply Z.ltb_ge].
Qed.

Lemma submit_cases now id p rev x d d' r :
  NoDup (rr_id <$> reviews d) →
  transaction (submit_in now id p rev x) d = (d', r) →
  idle d d' r ∨
  ∃ row, row ∈ reviews d ∧ rr_id row = id ∧ rr_package row = p ∧ rr_revision row = rev ∧ decidable x row d ∧ row_ok (decided now x row) ∧
    d' = with_reviews (replace_row row (decided now x row) (reviews d)) d ∧
    r = Ok (answer_with RECORDED (record_of (decided now x row))).
Proof.
  intros Hn. unfold transaction, submit_in. destruct (package_reason_run p rev d) as (y & E & Hy & _).
  unfold mbind at 1, M_bind at 1. rewrite E. destruct y as [[reason|]|e]; [| |by intros [= <- <-]; left].
  { intros [= <- <-]. left. apply refuse_idle. not_among. }
  unfold mbind at 1, M_bind at 1. rewrite proposals_run.
  destruct (List.filter _ (reviews d)) as [|row [|row2 rows]] eqn:Ef.
  1,3: intros [= <- <-]; left; apply refuse_idle; not_among.
  pose proof (filter_one _ _ _ Ef) as [Hrow Hp]. unfold proposal_of in Hp.
  rewrite andb_true_iff in Hp. destruct Hp as [Hp Hrev]. rewrite eqb_true in Hp. rewrite eqb_true in Hrev. subst p rev.
  destruct (negb (eqb (rr_id row) id) || _ || _) eqn:Eid.
  { intros [= <- <-]. left. apply refuse_idle. not_among. }
  rewrite !orb_false_iff, !negb_false_iff in Eid. destruct Eid as [[Eid _] _]. rewrite eqb_true in Eid. subst id.
  destruct (rr_decision row) as [x'|] eqn:Ed.
  { destruct (negb _); [intros [= <- <-]; left; apply refuse_idle; not_among|].
    destruct (recorded REPLAYED row d) as [d1 z] eqn:Er. apply replay_idle in Er as [-> Hz]; [|done].
    destruct z; intros [= <- <-]; left; by split. }
  destruct (notes_overflow_run (rr_package row) row x d) as (z & Ez & Hz).
  unfold mbind at 1, M_bind at 1. rewrite Ez. destruct z as [[]|e]; [| |by intros [= <- <-]; left].
  { intros [= <- <-]. left. apply refuse_idle. not_among. }
  set (row' := decided now x row).
  assert (Hf : List.filter (λ r, eqb (rr_id r) (rr_id row)) (reviews d) = [row]).
  { apply (filter_unique rr_id); [done | | done | apply eqb_refl]. intros y0 _ Hy0. by rewrite eqb_true in Hy0. }
  assert (Ed' : decide_review now (rr_id row) x d = (with_reviews (replace_row row row' (reviews d)) d, Ok row')).
  { unfold decide_review. rewrite (update_unique _ _ _ _ Hf). fold row'. rewrite filter_replace by done.
    rewrite Hf. unfold replace_row. cbn. by rewrite (eqb_refl row). }
  unfold mbind, M_bind. rewrite Ed'. unfold recorded, mbind, M_bind, lift.
  destruct (human_review_record row') as [h|e] eqn:Eh.
  - apply record_row in Eh as [Hok ->]. intros [= <- <-]. right. exists row. split_and!; try done. split; try done.
    intros Hx Ht. destruct (Hz Hx) as [_ H]. by apply H.
  - intros [= <- <-]. left. split; [done | by eapply record_err].
Qed.

(** ** The system *)

Section system.
Context (nfkc_casefold : string → string).

Inductive ReviewCall :=
  | rv_tracker (c : Call)
  | rv_propose (f : Fault) (now : datetime) (c : HumanReviewConsequence)
  | rv_prepare (f : Fault) (package : uuid) (revision : string)
  | rv_submit (f : Fault) (now : datetime) (id package : uuid) (revision : string) (x : HumanDecision).

(** The answer of a call; a call of the tracker answers elsewhere. *)
Definition answer_review (c : ReviewCall) (d : ReviewDB) : ReviewDB * res (option HumanReviewResult) :=
  match c with
  | rv_tracker c => (mkReviewDB (run nfkc_casefold c (hr_tracker d)) (reviews d), Ok None)
  | rv_propose f now c => let '(d', r) := propose f now c d in (d', Some <$> r)
  | rv_prepare f p rev => let '(d', r) := prepare f p rev d in (d', Some <$> r)
  | rv_submit f now i p rev x => let '(d', r) := submit f now i p rev x d in (d', Some <$> r)
  end.

Definition run_review (c : ReviewCall) (d : ReviewDB) : ReviewDB := (answer_review c d).1.

Definition run_reviews (cs : list ReviewCall) (d : ReviewDB) : ReviewDB := foldl (λ d c, run_review c d) d cs.

(** The changes a call may make. *)
Inductive changes (d : ReviewDB) : ReviewDB → Prop :=
  | ch_same : changes d d
  | ch_tracker c : changes d (mkReviewDB (run nfkc_casefold c (hr_tracker d)) (reviews d))
  | ch_new now c : proposable c d → row_ok (new_review now c) →
      changes d (with_reviews (reviews d ++ [new_review now c]) d)
  | ch_decided now x row : row ∈ reviews d → decidable x row d → row_ok (decided now x row) →
      changes d (with_reviews (replace_row row (decided now x row) (reviews d)) d).

(** What the table keeps whatever is called. *)
Record ReviewsInv (d : ReviewDB) : Prop := {
  ri_tracker : Inv nfkc_casefold (hr_tracker d);
  ri_ok : Forall row_ok (reviews d);
  ri_id : NoDup (rr_id <$> reviews d);
  ri_package : ∀ r, r ∈ reviews d → is_Some (works (hr_tracker d) !! rr_package r);
  ri_once : ∀ r r', r ∈ reviews d → r' ∈ reviews d →
    rr_package r = rr_package r' → rr_revision r = rr_revision r' → r = r' }.

(** What the [except] clause catches. *)
Lemma caught e : exn_cls e ∈ REVIEW_ERRORS →
  existsb (exn_isinstance (exn_cls e)) [SQLAlchemyError; TypeError; ValueError] = true.
Proof.
  unfold REVIEW_ERRORS. rewrite !elem_of_cons, elem_of_nil. by intros [->|[->|[->|[->|[]]]]].
Qed.

(** An operation answers: with what its transaction did, or [UNKNOWN] when the
    connection failed. *)
Lemma reviewing_run f m d (K : ReviewDB → HumanReviewResult → Prop) :
  (∀ d1 r, transaction m d = (d1, r) → idle d d1 r ∨ ∃ a, r = Ok a ∧ K d1 a) →
  ∃ d' a, reviewing f m d = (d', Ok a) ∧
    (idle d d' (Ok a) ∨ K d' a ∨ a = refuse_with UNKNOWN "state_unavailable" ∧ f = lost_reply ∧ ∃ a', K d' a').
Proof.
  intros HK. unfold reviewing, catch, connected. destruct (transaction m d) as [d1 r] eqn:E.
  assert (Hun : idle d d (Ok (refuse_with UNKNOWN "state_unavailable"))) by (apply refuse_idle; not_among).
  destruct (HK _ _ eq_refl) as [[-> Hr]|(a & -> & Ha)]; destruct f; cbn -[existsb].
  - destruct r as [a|e]; [|rewrite (caught _ Hr)]; do 2 eexists; (split; [done|]); left; first [exact Hun | exact (conj eq_refl Hr)].
  - do 2 eexists. split; [done|]. by left.
  - destruct r as [a|e]; cbn -[existsb]; [|rewrite (caught _ Hr)]; do 2 eexists; (split; [done|]); left; exact Hun.
  - do 2 eexists. split; [done|]. by right; left.
  - do 2 eexists. split; [done|]. by left.
  - do 2 eexists. split; [done|]. right; right. eauto.
Qed.

(** What an answer of an operation says of the change; when the reply is lost
    the change is made and not told. *)
Inductive told (d d' : ReviewDB) : HumanReviewResult → Prop :=
  | told_idle a : idle d d' (Ok a) → told d d' a
  | told_new now c : proposable c d → row_ok (new_review now c) →
      d' = with_reviews (reviews d ++ [new_review now c]) d →
      told d d' (answer_with PREPARED (record_of (new_review now c)))
  | told_decided now x row : row ∈ reviews d → decidable x row d → row_ok (decided now x row) →
      d' = with_reviews (replace_row row (decided now x row) (reviews d)) d →
      told d d' (answer_with RECORDED (record_of (decided now x row)))
  | told_lost a : told d d' a → told d d' (refuse_with UNKNOWN "state_unavailable").

Lemma told_changes d d' a : told d d' a → changes d d'.
Proof.
  induction 1 as [a' [-> _]|now c H1 H2 ->|now x row H1 H2 H3 ->|a' _ IH];
    [by apply ch_same | by apply ch_new | by apply ch_decided | done].
Qed.

Lemma propose_told f now c d : ∃ d' a, propose f now c d = (d', Ok a) ∧ told d d' a.
Proof.
  destruct (reviewing_run f (propose_in now c) d (λ d' a, told d d' a ∧ hr_status a = PREPARED)) as (d' & a & E & H).
  - intros d1 r H. apply propose_cases in H as [H|(H1 & H2 & H3 & ->)]; [by left|]. right. eexists. split; [done|].
    split; [by econstructor | done].
  - exists d', a. split; [exact E|]. destruct H as [H|[[H _]|(-> & _ & a' & H & _)]]; [by constructor | done|].
    by eapply told_lost.
Qed.

Lemma prepare_told f p rev d : ∃ a, prepare f p rev d = (d, Ok a) ∧ told d d a.
Proof.
  destruct (reviewing_run f (prepare_in p rev) d (λ _ _, False)) as (d' & a & E & H).
  - intros d1 r H. left. by eapply prepare_cases.
  - destruct H as [[-> H]|[[]|(_ & _ & _ & [])]]. exists a. split; [exact E|]. by constructor.
Qed.

Lemma submit_told f now id p rev x d : NoDup (rr_id <$> reviews d) →
  ∃ d' a, submit f now id p rev x d = (d', Ok a) ∧ told d d' a.
Proof.
  intros Hn.
  destruct (reviewing_run f (submit_in now id p rev x) d (λ d' a, told d d' a)) as (d' & a & E & H).
  - intros d1 r H. apply submit_cases in H as [H|(row & ? & ? & ? & ? & ? & ? & H & ->)]; [by left | | done].
    right. eexists. split; [done|]. by econstructor.
  - exists d', a. split; [exact E|]. destruct H as [H|[H|(-> & _ & a' & H)]]; [by constructor | done|].
    by eapply told_lost.
Qed.

Lemma run_review_changes c d : NoDup (rr_id <$> reviews d) → changes d (run_review c d).
Proof.
  intros Hn. destruct c as [c|f now c|f p rev|f now i p rev x]; unfold run_review, answer_review.
  - constructor.
  - destruct (propose_told f now c d) as (d' & a & -> & H). by eapply told_changes.
  - destruct (prepare_told f p rev d) as (a & -> & H). by eapply told_changes.
  - destruct (submit_told f now i p rev x d Hn) as (d' & a & -> & H). by eapply told_changes.
Qed.
(** ** What the table keeps *)

Lemma at_revision_iff p rev d : Inv nfkc_casefold (hr_tracker d) →
  at_revision p rev d ↔ ∃ u, version_of p (hr_tracker d) = Some u ∧ canonical_revision p u = Ok rev.
Proof.
  intros Hd. unfold at_revision, version_of. destruct (works (hr_tracker d) !! p) as [row|] eqn:E.
  - destruct (inv_works _ _ Hd p row E) as (Hw & _). cbn. split.
    + intros (row' & [= <-] & H). rewrite Hw in H. eauto.
    + intros (u & [= <-] & H). exists row. by rewrite Hw.
  - split; [by intros (? & ? & _) | by intros (? & ? & _)].
Qed.

Lemma inv_tracker_call c d : ReviewsInv d → ReviewsInv (mkReviewDB (run nfkc_casefold c (hr_tracker d)) (reviews d)).
Proof.
  intros [Ht Hok Hid Hp Hone]. destruct (tracker_step nfkc_casefold c (hr_tracker d) Ht) as [Ht' _]. split; try done.
  cbn. intros r Hr. destruct (Hp r Hr) as [row Hrow].
  destruct (step_version nfkc_casefold c (hr_tracker d) (rr_package r) (row_version (item_of row)) Ht) as [(Hun & _)|[Hv _]].
  - unfold version_of. by rewrite Hrow.
  - rewrite Hun. eauto.
  - unfold version_of in Hv. by destruct (works (run _ _ _) !! _).
Qed.

Lemma inv_new now c d : ReviewsInv d → proposable c d → row_ok (new_review now c) →
  ReviewsInv (with_reviews (reviews d ++ [new_review now c]) d).
Proof.
  intros [Ht Hok Hid Hp Hone] [Hat Hfirst Hnew _] Hrow. split; cbn; [done | | | |].
  - apply Forall_app. split; [done | by constructor].
  - apply NoDup_snoc; [done|]. intros r Hr. by apply Hnew.
  - intros r [Hr| ->]%elem_of_snoc; [by apply Hp|]. destruct Hat as (row & Hw & _). cbn. eauto.
  - assert (Hno : ∀ r, r ∈ reviews d → rr_package r = package_work_id c → rr_revision r = package_revision c → False).
    { intros r Hr H1 H2. assert (H : In r (List.filter (proposal_of (package_work_id c) (package_revision c)) (reviews d))).
      { apply filter_In. split; [by apply list_elem_of_In|]. unfold proposal_of. by rewrite H1, H2, !eqb_refl. }
      by rewrite Hfirst in H. }
    intros r r' [Hr| ->]%elem_of_snoc [Hr'| ->]%elem_of_snoc H1 H2; [by apply Hone | exfalso; by eapply Hno | exfalso; by eapply Hno | done].
Qed.

Lemma inv_decided now x row d : ReviewsInv d → row ∈ reviews d → row_ok (decided now x row) →
  ReviewsInv (with_reviews (replace_row row (decided now x row) (reviews d)) d).
Proof.
  intros [Ht Hok Hid Hp Hone] Hrow Hok'.
  assert (Hback : ∀ r, r ∈ replace_row row (decided now x row) (reviews d) →
    ∃ r0, r0 ∈ reviews d ∧ rr_package r = rr_package r0 ∧ rr_revision r = rr_revision r0 ∧
          (r = r0 ∧ r ≠ row ∨ r0 = row ∧ r = decided now x row)).
  { intros r [[-> _]|[Hne Hr]]%replace_row_elem.
    - exists row. split; [done|]. split; [done|]. split; [done|]. by right.
    - exists r. split; [done|]. split; [done|]. split; [done|]. by left. }
  split; cbn; [done | | | |].
  - rewrite Forall_forall in *. intros r (r0 & Hr0 & _ & _ & [[-> _]|[-> ->]])%Hback; auto.
  - unfold replace_row. rewrite <- list_fmap_compose. erewrite list_fmap_ext; [exact Hid|].
    intros i r _. cbn. destruct (eqb r row) eqn:E; [by rewrite eqb_true in E; subst r | done].
  - intros r (r0 & Hr0 & -> & _)%Hback. by apply Hp.
  - intros r r' (r0 & Hr0 & E1 & E2 & H)%Hback (r1 & Hr1 & E3 & E4 & H')%Hback F1 F2.
    assert (r0 = r1) by (apply Hone; congruence). subst r1. naive_solver.
Qed.

Lemma inv_changes d d' : ReviewsInv d → changes d d' → ReviewsInv d'.
Proof. intros Hd [|c|now c H1 H2|now x row H1 H2 H3]; auto using inv_tracker_call, inv_new, inv_decided. Qed.
(** ** Chains of approved baselines *)

(** The digests tell the versions of each work apart that exist so far. *)
Definition separated (t : TrackerDB) : Prop :=
  ∀ p u v v', version_of p t = Some u → 1 <= v <= u → 1 <= v' <= u →
    canonical_revision p v = canonical_revision p v' → v = v'.

(** The rows of a package are about its versions, in their order. *)
Definition dated (p : uuid) (d : ReviewDB) : Prop :=
  ∃ vs u, version_of p (hr_tracker d) = Some u ∧ StronglySorted Z.lt vs ∧
    Forall2 (λ r v, 1 <= v <= u ∧ canonical_revision p v = Ok (rr_revision r)) (rows_of p (reviews d)) vs.

Record in_chain (p : uuid) (d : ReviewDB) : Prop := {
  ic_dated : rows_of p (reviews d) = [] ∨ dated p d;
  ic_chained : chained None (baselines p (reviews d));
  ic_pending : ∀ r, r ∈ rows_of p (reviews d) → rr_decision r = None → is_baseline r = true →
    at_revision p (rr_revision r) d → follows (last (baselines p (reviews d))) r }.

Lemma package_rows_elem p l r : r ∈ rows_of p l ↔ r ∈ l ∧ rr_package r = p.
Proof. unfold rows_of, of_package. by rewrite list_elem_of_In, filter_In, <- list_elem_of_In, eqb_true. Qed.

(** A row about the current version is the last of its package. *)
Lemma dated_last p u rs vs r :
  StronglySorted Z.lt vs →
  Forall2 (λ r v, 1 <= v <= u ∧ canonical_revision p v = Ok (rr_revision r)) rs vs →
  (∀ v, 1 <= v <= u → canonical_revision p v = Ok (rr_revision r) → v = u) →
  r ∈ rs → ∃ rs', rs = rs' ++ [r].
Proof.
  intros Hs Hf Hu Hr. apply list_elem_of_lookup in Hr as [i Hi].
  destruct (Forall2_lookup_l _ _ _ _ _ Hf Hi) as (v & Hv & Hb & Hc). pose proof (Hu v Hb Hc) as ->.
  rewrite <- (take_drop_middle rs i r Hi). destruct (drop (S i) rs) as [|r2 rest] eqn:Ed; [eauto|]. exfalso.
  assert (H2 : rs !! (S i) = Some r2) by (rewrite <- (Nat.add_0_r (S i)), <- lookup_drop, Ed; done).
  destruct (Forall2_lookup_l _ _ _ _ _ Hf H2) as (v2 & Hv2 & Hb2 & _).
  assert (u < v2); [|lia]. clear -Hs Hv Hv2. revert i Hv Hv2.
  induction Hs as [|v vs _ IH Hlt]; intros i Hv Hv2; [done|]. destruct i; [|by apply (IH i)].
  injection Hv as ->. rewrite Forall_forall in Hlt. apply Hlt. by eapply list_elem_of_lookup_2.
Qed.

Lemma separated_before c t : Inv nfkc_casefold t → separated (run nfkc_casefold c t) → separated t.
Proof.
  intros Ht Hs p u v v' Hu Hv Hv' E.
  destruct (steps_version nfkc_casefold [c] t p u Ht Hu) as (u' & Hu' & Hle & _). cbn in Hu'.
  apply (Hs p u'); [done | lia | lia | done].
Qed.

Lemma chain_tracker c d : ReviewsInv d → separated (run nfkc_casefold c (hr_tracker d)) →
  (∀ p, in_chain p d) → ∀ p, in_chain p (mkReviewDB (run nfkc_casefold c (hr_tracker d)) (reviews d)).
Proof.
  intros Hd Hs Hc p. destruct (Hc p) as [Hdate Hch Hpend]. pose proof (ri_tracker d Hd) as Ht.
  destruct (tracker_step nfkc_casefold c _ Ht) as [Ht' _].
  assert (Hup : ∀ u, version_of p (hr_tracker d) = Some u →
    ∃ u', version_of p (run nfkc_casefold c (hr_tracker d)) = Some u' ∧ u <= u').
  { intros u Hu. destruct (steps_version nfkc_casefold [c] _ p u Ht Hu) as (u' & ? & ? & _). by exists u'. }
  split; cbn [reviews]; [|done|].
  - destruct Hdate as [?|(vs & u & Hu & Hss & Hf)]; [by left|]. right. destruct (Hup u Hu) as (u' & Hu' & Hle).
    exists vs, u'. split; [done|]. split; [done|]. eapply Forall2_impl; [exact Hf|]. cbn. intros r v [? ?]. split; [lia | done].
  - intros r Hr Hopen Hb Hat. apply Hpend; try done. rewrite at_revision_iff in Hat |- * by done. cbn [hr_tracker] in Hat.
    destruct Hat as (u' & Hu' & Hrev). destruct Hdate as [E|(vs & u & Hu & Hss & Hf)]; [rewrite E in Hr; by apply not_elem_of_nil in Hr|].
    apply list_elem_of_lookup in Hr as [i Hi]. destruct (Forall2_lookup_l _ _ _ _ _ Hf Hi) as (v & _ & Hv & Hrv).
    destruct (Hup u Hu) as (u2 & Hu2 & Hle). rewrite Hu' in Hu2. injection Hu2 as <-.
    assert (Hu1 : 1 <= u' <= u') by lia.
    assert (v = u') by (eapply (Hs p u'); [done | lia | done | congruence]). exists u. split; [done|].
    assert (u = u') by lia. congruence.
Qed.
Lemma supersession_follows now c l :
  Forall row_ok l → NoDup (rr_id <$> l) → chained None (baselines (package_work_id c) l) →
  is_some (baseline c) = true → _baseline_supersession_reason c l = Ok None →
  follows (last (baselines (package_work_id c) l)) (new_review now c).
Proof.
  intros Hok Hid Hch Hb. unfold _baseline_supersession_reason. destruct (baseline c) as [b|] eqn:Eb; [|done].
  rewrite approved_v2_spec by done. cbn [mbind res_bind].
  assert (Hn : NoDup (rr_id <$> baselines (package_work_id c) l)).
  by by do 2 apply NoDup_fmap_filter.
  rewrite unsuperseded_chain by done. set (bs := baselines _ l) in *.
  assert (Hc : row_supersedes (new_review now c) = supersedes_baseline_id b) by (unfold row_supersedes; cbn; by rewrite Eb).
  unfold follows. rewrite Hc. destruct (last bs) as [r|] eqn:El; cbn.
  - destruct (supersedes_baseline_id b) as [s|].
    + destruct (negb (eqb (rr_id r) s)) eqn:Es; [done|]. rewrite negb_false_iff, eqb_true in Es. subst s.
      intros H. split; [done|]. intros q [= <-]. unfold row_task. cbn. destruct (is_some (task_text (rr_consequence r))); [|done].
      cbn in H. unfold is_some. destruct (is_none (task_text c)); done.
    + destruct bs; done.
  - apply last_None in El. rewrite El. destruct (supersedes_baseline_id b); done.
Qed.
(** Two rows about the current version are one. *)
Lemma current_row p r r' d : ReviewsInv d → r ∈ rows_of p (reviews d) → r' ∈ rows_of p (reviews d) →
  at_revision p (rr_revision r) d → at_revision p (rr_revision r') d → r = r'.
Proof.
  intros Hd [Hr Hp]%package_rows_elem [Hr' Hp']%package_rows_elem H H'.
  rewrite at_revision_iff in H, H' by apply Hd. destruct H as (u & Hu & E), H' as (u' & Hu' & E').
  apply (ri_once d Hd); congruence.
Qed.

Lemma rows_of_snoc p l r : rows_of p (l ++ [r]) = rows_of p l ++ (if eqb (rr_package r) p then [r] else []).
Proof. unfold rows_of. rewrite List.filter_app. cbn. unfold of_package. by destruct (eqb (rr_package r) p). Qed.

(** The rows and versions of a package to which the one about its current
    version is added. *)
Lemma dated_new now c d :
  ReviewsInv d → proposable c d →
  rows_of (package_work_id c) (reviews d) = [] ∨ dated (package_work_id c) d →
  dated (package_work_id c) (with_reviews (reviews d ++ [new_review now c]) d).
Proof.
  intros Hd [Hat Hfirst _ _] Hdate. rewrite at_revision_iff in Hat by apply Hd. destruct Hat as (u & Hu & Hrev).
  pose proof (version_bounds nfkc_casefold _ _ _ (inv_works _ _ (ri_tracker d Hd)) Hu) as Hub.
  unfold dated. cbn [with_reviews reviews hr_tracker]. rewrite rows_of_snoc. cbn [new_review rr_package]. rewrite eqb_refl.
  destruct Hdate as [->|(vs & u' & Hu' & Hs & Hf)].
  { exists [u], u. split; [done|]. split; [repeat constructor|]. constructor; [|done]. cbn. split; [lia | done]. }
  rewrite Hu in Hu'. injection Hu' as <-. exists (vs ++ [u]), u. split; [done|].
  split; [|apply Forall2_app; [done|]; constructor; [|done]; cbn; split; [lia | done]].
  assert (Hlt : ∀ v, v ∈ vs → v < u).
  { intros v [i Hi]%list_elem_of_lookup. destruct (Forall2_lookup_r _ _ _ _ _ Hf Hi) as (r & Hr & Hv & Hc).
    apply list_elem_of_lookup_2, package_rows_elem in Hr as [Hr Hp].
    destruct (decide (v = u)) as [->|]; [|lia]. exfalso.
    assert (H : r ∈ List.filter (proposal_of (package_work_id c) (package_revision c)) (reviews d)).
    { rewrite list_elem_of_In, filter_In, <- list_elem_of_In. split; [done|]. unfold proposal_of. rewrite Hp, eqb_refl.
      apply eqb_true. congruence. }
    rewrite Hfirst in H. by apply not_elem_of_nil in H. }
  clear -Hs Hlt. induction Hs as [|v vs Hs IH Hv]; [repeat constructor|]. cbn. constructor.
  - apply IH. intros x Hx. apply Hlt. by right.
  - apply Forall_app. split; [done|]. constructor; [|done]. apply Hlt. by left.
Qed.

Lemma chain_new now c d : ReviewsInv d → proposable c d → row_ok (new_review now c) →
  (∀ p, in_chain p d) → ∀ p, in_chain p (with_reviews (reviews d ++ [new_review now c]) d).
Proof.
  intros Hd Hc Hrow Hch p. destruct (Hch p) as [Hdate Hchain Hpend].
  destruct (decide (package_work_id c = p)) as [<-|Hne].
  - assert (Hb : baselines (package_work_id c) (reviews d ++ [new_review now c]) = baselines (package_work_id c) (reviews d)).
    { unfold baselines. rewrite rows_of_snoc. cbn [new_review rr_package]. rewrite eqb_refl, List.filter_app. cbn. by rewrite app_nil_r. }
    split; cbn [with_reviews reviews].
    + right. by apply dated_new.
    + by rewrite Hb.
    + intros r Hr Hopen Hbase Hat. rewrite Hb. rewrite rows_of_snoc in Hr. cbn [new_review rr_package] in Hr. rewrite eqb_refl in Hr.
      apply elem_of_snoc in Hr as [Hr| ->]; [by apply Hpend|].
      apply supersession_follows; [apply Hd | apply Hd | done | done | apply Hc].
  - assert (Hr : rows_of p (reviews d ++ [new_review now c]) = rows_of p (reviews d)).
    { rewrite rows_of_snoc. cbn [new_review rr_package]. by rewrite (proj2 (eqb_false _ _) Hne), app_nil_r. }
    split; cbn [with_reviews reviews]; unfold baselines, dated; cbn [with_reviews reviews]; rewrite Hr; done.
Qed.

Lemma rows_of_replace p x y l : rr_package x = rr_package y →
  rows_of p (replace_row x y l) = replace_row x y (rows_of p l).
Proof. intros H. apply filter_replace. unfold of_package. by rewrite H. Qed.

Lemma replace_row_absent (x y : ReviewRow) l : x ∉ l → replace_row x y l = l.
Proof.
  intros Hx. unfold replace_row. rewrite <- (list_fmap_id l) at 2. apply list_fmap_ext. intros i z Hz%list_elem_of_lookup_2.
  destruct (eqb z x) eqn:E; [rewrite eqb_true in E; by subst z | done].
Qed.

Lemma chain_decided now x row d :
  ReviewsInv d → separated (hr_tracker d) → row ∈ reviews d → decidable x row d →
  (∀ p, in_chain p d) → ∀ p, in_chain p (with_reviews (replace_row row (decided now x row) (reviews d)) d).
Proof.
  intros Hd Hs Hrow [Hat _ Hopen _] Hch p. destruct (Hch p) as [Hdate Hchain Hpend].
  destruct (decide (rr_package row = p)) as [<-|Hne]; [|
    assert (Hr : rows_of p (replace_row row (decided now x row) (reviews d)) = rows_of p (reviews d)) by
      (rewrite rows_of_replace by done; apply replace_row_absent; by intros [_ ?]%package_rows_elem);
    split; cbn [with_reviews reviews]; unfold baselines, dated; cbn [with_reviews reviews]; rewrite Hr; done].
  set (p := rr_package row) in *.
  assert (Hin : row ∈ rows_of p (reviews d)) by by apply package_rows_elem.
  destruct Hdate as [E|(vs & u & Hu & Hss & Hf)]; [rewrite E in Hin; by apply not_elem_of_nil in Hin|].
  assert (Hlast : ∃ rs, rows_of p (reviews d) = rs ++ [row]).
  { apply (dated_last p u _ vs); try done. intros v Hv Hc. rewrite at_revision_iff in Hat by apply Hd.
    destruct Hat as (u' & Hu' & Hc'). fold p in Hu'. rewrite Hu in Hu'. injection Hu' as <-.
    eapply (Hs p u); [done | lia | lia | congruence]. }
  destruct Hlast as [rs Hrs]. set (row' := decided now x row) in *.
  assert (Hout : row ∉ rs).
  { assert (Hn : NoDup (rr_id <$> rows_of p (reviews d))) by apply NoDup_fmap_filter, Hd. rewrite Hrs in Hn.
    rewrite fmap_app, NoDup_app in Hn. destruct Hn as (_ & Hn & _). intros Hr. apply (Hn (rr_id row)); [|by left].
    by apply list_elem_of_fmap_2. }
  assert (Hrows : rows_of p (replace_row row row' (reviews d)) = rs ++ [row'])
    by (rewrite rows_of_replace, Hrs by done; by apply replace_row_last).
  assert (Hb : baselines p (reviews d) = List.filter in_force rs).
  { unfold baselines. rewrite Hrs, List.filter_app. cbn. unfold in_force at 2. rewrite Hopen. cbn. by rewrite app_nil_r. }
  assert (Hb' : baselines p (replace_row row row' (reviews d)) = List.filter in_force rs ++ (if in_force row' then [row'] else [])).
  { unfold baselines. rewrite Hrows, List.filter_app. cbn. by destruct (in_force row'). }
  split; cbn [with_reviews reviews].
  - right. exists vs, u. split; [done|]. split; [done|]. cbn [with_reviews reviews]. rewrite Hrows. rewrite Hrs in Hf.
    apply Forall2_app_inv_l in Hf as (vs1 & vs2 & Hf1 & Hf2 & ->). apply Forall2_app; [done|].
    inversion_clear Hf2 as [|? v ? ? Hv Hnil]. by constructor.
  - rewrite Hb'. destruct (in_force row') eqn:Ef; [|rewrite app_nil_r; by rewrite <- Hb].
    rewrite chained_snoc, <- Hb. split; [done|].
    assert (Hfol : follows (last (baselines p (reviews d))) row).
    { apply Hpend; try done. unfold in_force in Ef. rewrite andb_true_iff in Ef. apply Ef. }
    unfold final. by destruct (last (baselines p (reviews d))).
  - intros r Hr Hopen' Hbase Hat'. exfalso. rewrite Hrows in Hr. apply elem_of_snoc in Hr as [Hr| ->]; [|done].
    assert (r = row) as ->; [|done]. apply (current_row p _ _ d); try done. rewrite Hrs. apply elem_of_snoc. by left.
Qed.

(** The invariant of the system. *)
Definition AllReviews (d : ReviewDB) : Prop :=
  ReviewsInv d ∧ (separated (hr_tracker d) → ∀ p, in_chain p d).

Lemma all_reviews_step c d : AllReviews d → AllReviews (run_review c d).
Proof.
  intros [Hd Hch]. pose proof (run_review_changes c d (ri_id d Hd)) as H.
  split; [by eapply inv_changes|]. destruct H as [|c'|now c' H1 H2|now x row H1 H2 H3]; intros Hs.
  - by apply Hch.
  - apply chain_tracker; [done | done |]. apply Hch. by eapply separated_before; [apply Hd|].
  - apply chain_new; auto.
  - apply chain_decided; auto.
Qed.

Lemma all_reviews_steps cs d : AllReviews d → AllReviews (run_reviews cs d).
Proof. revert d. induction cs as [|c cs IH]; intros d Hd; [done|]. cbn. by apply IH, all_reviews_step. Qed.

Definition no_reviews (ps : gmap uuid Project) : ReviewDB := mkReviewDB (empty_db ps) [].

Lemma all_reviews_empty ps : AllReviews (no_reviews ps).
Proof.
  split.
  - split; cbn; [apply Inv_empty | constructor | constructor | by intros ? ?%not_elem_of_nil | by intros ? ? ?%not_elem_of_nil].
  - intros _ p. split; cbn; [by left | done|]. by intros r ?%not_elem_of_nil.
Qed.
(** ** Rows are appended and decided once *)

(** [r'] is [r], possibly decided since. *)
Definition ripened (r r' : ReviewRow) : Prop :=
  r' = r ∨ rr_decision r = None ∧ ∃ now x, r' = decided now x r.

Definition later (d d' : ReviewDB) : Prop :=
  ∀ i r, reviews d !! i = Some r → ∃ r', reviews d' !! i = Some r' ∧ ripened r r'.

#[export] Instance later_preorder : PreOrder later.
Proof.
  split; [intros d i r H; exists r; split; [done | by left]|].
  intros d1 d2 d3 H1 H2 i r Hr. destruct (H1 i r Hr) as (r' & Hr' & E1). destruct (H2 i r' Hr') as (r3 & Hr3 & E2).
  exists r3. split; [done|]. destruct E1 as [->|(Ho & now & x & ->)]; [done|].
  destruct E2 as [->|(Ho2 & _)]; [right; eauto | done].
Qed.

Lemma changes_later d d' : changes d d' → later d d'.
Proof.
  intros [|c|now c _ _|now x row _ [_ _ Ho _] _]; [done | intros i r Hr; exists r; split; [done | by left] | |].
  - intros i r Hr. exists r. split; [|by left]. cbn. by apply lookup_app_l_Some.
  - intros i r Hr. cbn. unfold replace_row. rewrite list_lookup_fmap, Hr. cbn. eexists. split; [done|].
    destruct (eqb r row) eqn:E; [rewrite eqb_true in E; subst r; right; eauto | by left].
Qed.

Lemma run_reviews_later cs d : AllReviews d → later d (run_reviews cs d).
Proof.
  revert d. induction cs as [|c cs IH]; intros d Hd; [done|]. cbn.
  etrans; [apply changes_later, run_review_changes, Hd | apply IH; by apply all_reviews_step].
Qed.

Lemma decided_stays cs d row : AllReviews d → row ∈ reviews d → rr_decision row ≠ None → row ∈ reviews (run_reviews cs d).
Proof.
  intros Hd [i Hi]%list_elem_of_lookup Hx. destruct (run_reviews_later cs d Hd i row Hi) as (r' & Hr' & [->|[? _]]); [|done].
  by eapply list_elem_of_lookup_2.
Qed.

(** What a submission on a decided row answers. *)
Definition settled (row : ReviewRow) (x y : HumanDecision) (a : HumanReviewResult) : Prop :=
  a = answer_with REPLAYED (record_of row) ∧ y = x ∨ a = refuse_with CONFLICT "decision_conflict" ∧ y ≠ x ∨
  hr_status a = STALE ∨ a = refuse_with UNKNOWN "state_unavailable".

Lemma submit_settled f now y x row d : AllReviews d → row ∈ reviews d → rr_decision row = Some x →
  ∃ a, submit f now (rr_id row) (rr_package row) (rr_revision row) y d = (d, Ok a) ∧ settled row x y a ∧
    (f = no_fault → at_revision (rr_package row) (rr_revision row) d →
     a = if eqb y x then answer_with REPLAYED (record_of row) else refuse_with CONFLICT "decision_conflict").
Proof.
  intros [Hd _] Hrow Hx. unfold submit, reviewing.
  assert (Hrun : ∃ r, transaction (submit_in now (rr_id row) (rr_package row) (rr_revision row) y) d = (d, r) ∧
    match r with Ok a => settled row x y a | Err e => exn_cls e ∈ REVIEW_ERRORS end ∧
    (at_revision (rr_package row) (rr_revision row) d →
     r = Ok (if eqb y x then answer_with REPLAYED (record_of row) else refuse_with CONFLICT "decision_conflict"))).
  { destruct (package_reason_run (rr_package row) (rr_revision row) d) as (z & E & Hz & Hno).
    unfold transaction, submit_in. unfold mbind at 1, M_bind at 1. rewrite E. destruct z as [[reason|]|e].
    - eexists. split; [done|]. split; [by right; right; left|]. by intros ?%Hno.
    - unfold mbind at 1, M_bind at 1. rewrite proposals_run.
      assert (Hf : List.filter (proposal_of (rr_package row) (rr_revision row)) (reviews d) = [row]).
      { apply (filter_unique rr_id); [apply Hd | | done |].
        - intros r Hr Hp. unfold proposal_of in Hp. rewrite andb_true_iff in Hp. destruct Hp as [H1 H2].
          rewrite eqb_true in H1. rewrite eqb_true in H2. by rewrite (ri_once d Hd r row).
        - unfold proposal_of. by rewrite !eqb_refl. }
      rewrite Hf, !eqb_refl, Hx. cbn [negb orb].
      assert (Hok : human_review_record row = Ok (record_of row)) by (pose proof (ri_ok d Hd) as H; rewrite Forall_forall in H; by apply H).
      destruct (negb (eqb x y)) eqn:Exy.
      + rewrite negb_true_iff, eqb_false in Exy. eexists. split; [done|]. rewrite (proj2 (eqb_false y x)) by done.
        split; [|done]. by right; left.
      + rewrite negb_false_iff, eqb_true in Exy. subst y. unfold recorded, mbind, M_bind, lift. rewrite Hok, eqb_refl.
        eexists. split; [done|]. split; [by left | done].
    - eexists. split; [done|]. split; [done|]. by intros ?%Hno. }
  destruct Hrun as (r & E & Hr & Hat). unfold catch, connected. rewrite E.
  assert (Hun : settled row x y (refuse_with UNKNOWN "state_unavailable")) by by right; right; right.
  destruct f.
  - destruct r as [a|e]; cbn -[existsb].
    + exists a. split; [done|]. split; [done|]. intros _ H. by injection (Hat H).
    + rewrite (caught _ Hr). eexists. split; [done|]. split; [done|]. intros _ H. by specialize (Hat H).
  - eexists. by split.
  - destruct r as [a|e]; cbn -[existsb]; rewrite ?(caught _ Hr); eexists; by split.
Qed.
(** ** The properties *)

(** C18: the approved baselines of a package form one line.  Whatever proposals,
    decisions and changes of work are interleaved, over connections that fail
    or not, each approved baseline names the one approved before it (the
    first names none), none drops a task text, and the baseline in force is
    readable and is the last one approved. *)
Theorem approved_baselines ps cs p :
  let d := run_reviews cs (no_reviews ps) in
  separated (hr_tracker d) →
  chained None (baselines p (reviews d)) ∧
  current_approved_baseline p (reviews d) = Ok (record_of <$> last (baselines p (reviews d))).
Proof.
  intros d Hs. destruct (all_reviews_steps cs _ (all_reviews_empty ps)) as [Hd Hch]. fold d in Hd, Hch.
  destruct (Hch Hs p) as [_ Hc _]. split; [done|]. apply current_of_chain; [apply Hd | done | apply Hd].
Qed.

(** An operation on reviews always answers, in its exact shape, and the
    answer tells what happened: PREPARED that the proposal was added - the
    first for the package's current revision, with the predecessor it must
    name - RECORDED that the only and undecided proposal of the current
    revision was decided, and any other answer that nothing changed, unless
    the reply was lost. *)
Theorem review_answers ps cs c :
  let d := run_reviews cs (no_reviews ps) in
  match answer_review c d with
  | (d', Ok (Some a)) => told d d' a ∧ exact_shape a = true ∧
      (hr_status a = PREPARED ∨ hr_status a = RECORDED ∨ hr_status a = UNKNOWN ∨ d' = d)
  | (_, Ok None) => ∃ t, c = rv_tracker t
  | (_, Err _) => False
  end.
Proof.
  intros d. destruct (all_reviews_steps cs _ (all_reviews_empty ps)) as [Hd _]. fold d in Hd.
  assert (Hshape : ∀ d' a, told d d' a → exact_shape a = true ∧
    (hr_status a = PREPARED ∨ hr_status a = RECORDED ∨ hr_status a = UNKNOWN ∨ d' = d)).
  { intros d' a [a' (-> & _ & H & _)| | |]; auto. }
  destruct c as [t|f now c|f p rev|f now i p rev x]; cbn [answer_review]; [eauto|..].
  - destruct (propose_told f now c d) as (d' & a & -> & H). cbn. auto.
  - destruct (prepare_told f p rev d) as (a & -> & H). cbn. auto.
  - destruct (submit_told f now i p rev x d (ri_id d Hd)) as (d' & a & -> & H). cbn. auto.
Qed.

(** C22: a decision is final: a decided consequence stays as it is under any
    later calls, and a later submission about it changes nothing; while its
    revision is current the same decision is answered with the record and
    another one is a conflict. *)
Theorem decision_final cs1 cs2 ps row x f now y :
  let d1 := run_reviews cs1 (no_reviews ps) in
  let d := run_reviews cs2 d1 in
  row ∈ reviews d1 → rr_decision row = Some x →
  row ∈ reviews d ∧
  ∃ a, submit f now (rr_id row) (rr_package row) (rr_revision row) y d = (d, Ok a) ∧ settled row x y a ∧
    (f = no_fault → at_revision (rr_package row) (rr_revision row) d →
     a = if eqb y x then answer_with REPLAYED (record_of row) else refuse_with CONFLICT "decision_conflict").
Proof.
  intros d1 d Hrow Hx. pose proof (all_reviews_steps cs1 _ (all_reviews_empty ps)) as H1.
  pose proof (all_reviews_steps cs2 _ H1) as H. split; [apply decided_stays; [done | done | congruence]|].
  apply submit_settled; [done | apply decided_stays; [done | done | congruence] | done].
Qed.

(** A check of [separated]. *)
Definition separatedb (t : TrackerDB) : bool :=
  forallb (λ pr : uuid * WorkRow, bool_decide (NoDup (canonical_revision pr.1 <$> seqZ 1 (row_version (item_of pr.2)))))
    (map_to_list (works t)).

Lemma separatedb_ok t : separatedb t = true → separated t.
Proof.
  unfold separatedb. rewrite forallb_forall. intros H p u v v' Hu Hv Hv' E. unfold version_of in Hu.
  destruct (works t !! p) as [row|] eqn:Er; [|done]. injection Hu as Hu.
  specialize (H (p, row)). cbn in H. rewrite Hu in H.
  assert (Hn : NoDup (canonical_revision p <$> seqZ 1 u)).
  { eapply bool_decide_eq_true_1, H. by apply list_elem_of_In, elem_of_map_to_list. }
  apply (NoDup_fmap_inj _ _ _ _ Hn); [apply elem_of_seqZ; lia.. | done].
Qed.
End system.

(** ** Instances *)

Definition ex_package : uuid := WorkEvents.ex_id 1.

Definition ex_revision (v : Z) : string := match canonical_revision ex_package v with Ok r => r | Err _ => "" end.

Definition ex_consequence (v : Z) (prev : option uuid) : HumanReviewConsequence :=
  mkConsequence ex_package (ex_revision v) ["the change"] "main" ["deployment"]
    CLEAR_HUMAN_REVIEW_FOR_NAMED_CONTINUATION
    (Some (mkBaseline ["message 7"] (mkOpening "a" "b" "c" "small") ["as stated"] ["tests"] []
      (mkDecisionContext ["one file"] [] []) [IMPLEMENT] prev))
    None (Some "Do it."%string).

Definition ex_first : HumanReviewConsequence := ex_consequence 1 None.
Definition ex_second : HumanReviewConsequence := ex_consequence 2 (Some (consequence_id ex_first)).

Definition ex_review_calls : list ReviewCall :=
  [rv_tracker (c_create WorkEvents.ex_time (WorkEvents.ex_work ex_package "First"));
   rv_propose no_fault WorkEvents.ex_time ex_first;
   rv_submit lost_reply WorkEvents.ex_time (consequence_id ex_first) ex_package (ex_revision 1) APPROVED;
   rv_tracker (c_replace (WorkEvents.ex_work ex_package "Second"));
   rv_propose no_fault WorkEvents.ex_time ex_second;
   rv_submit no_fault WorkEvents.ex_time (consequence_id ex_second) ex_package (ex_revision 2) APPROVED].

#[local] Abbreviation ex_reviews := (run_reviews ascii_fold ex_review_calls (no_reviews ∅)).

Lemma ex_separated : separated (hr_tracker ex_reviews).
Proof. apply separatedb_ok. vm_compute. reflexivity. Qed.

Lemma ex_last : match current_approved_baseline ex_package (reviews ex_reviews) with
  | Ok (Some h) => hv_id h = consequence_id ex_second | _ => False end.
Proof. vm_compute. reflexivity. Qed.

Lemma approved_baselines_witness :
  chained None (baselines ex_package (reviews ex_reviews)) ∧
  rr_id <$> last (baselines ex_package (reviews ex_reviews)) = Some (consequence_id ex_second).
Proof.
  destruct (approved_baselines ascii_fold ∅ ex_review_calls ex_package ex_separated) as [H E]. split; [exact H|].
  pose proof ex_last as El. rewrite E in El. destruct (last _) as [r|]; [exact (f_equal Some El) | destruct El].
Defined.

Definition ex_decided : ReviewRow := decided WorkEvents.ex_time APPROVED (new_review WorkEvents.ex_time ex_first).

Lemma ex_decided_stored : reviews (run_reviews ascii_fold (take 3 ex_review_calls) (no_reviews ∅)) = [ex_decided].
Proof. vm_compute. reflexivity. Qed.

Lemma decision_final_witness :
  ∃ d, ex_decided ∈ reviews d ∧
    ∃ a, submit no_fault WorkEvents.ex_time (rr_id ex_decided) (rr_package ex_decided) (rr_revision ex_decided) WAIT d = (d, Ok a) ∧
      settled ex_decided APPROVED WAIT a.
Proof.
  exists (run_reviews ascii_fold [] (run_reviews ascii_fold (take 3 ex_review_calls) (no_reviews ∅))).
  destruct (decision_final ascii_fold (take 3 ex_review_calls) [] ∅ ex_decided APPROVED no_fault WorkEvents.ex_time WAIT) as (H & a & E & Ha & _).
  - rewrite ex_decided_stored. by left.
  - reflexivity.
  - split; [exact H|]. exists a. split; [exact E | exact Ha].
Defined.
