(* ===== verification/Controller.v ===== *)
(** * The work controller ([core.py])

    The controller mediates between one launch authority, the handle state and
    the work providers.  State and providers are protocols of the source and
    interfaces here, on a world [W]; [effects] lists the mutations that were
    sent to a provider.  The controller reads, compares revisions, sends at
    most one mutation and reads back. *)

From S2P Require Import Prelude Json Contracts.

Local Open Scope Z_scope.

(** ** Values *)

Inductive ProviderFailure :=
  | invalid_request | admission_denied | authority_denied | transient | permanent | unspecified.

(** [provider_rejection_reason] *)
Definition provider_rejection_reason (f : ProviderFailure) : string :=
  match f with
  | invalid_request => "provider_rejected_input"
  | admission_denied => "provider_admission_denied"
  | authority_denied => "provider_authority_denied"
  | transient => "provider_temporarily_unavailable"
  | permanent => "provider_permanent_rejection"
  | unspecified => "provider_rejected_send"
  end.

Record Handle := mkHandle { h_id : uuid; h_provider : string; h_provider_work_id : string }.

#[export] Instance Handle_eq_dec : EqDecision Handle.
Proof. solve_decision. Defined.

Record EventBinding := mkEventBinding {
  eb_id : uuid; eb_work_id : uuid; eb_provider : string; eb_provider_work_id : string;
  eb_provider_event_id : string }.

Record ProviderWork := mkProviderWork {
  pw_title : string; pw_notes : string; pw_completed : bool; pw_revision : string;
  pw_routing : Routing; pw_context : WorkContext; pw_canonical : bool }.

Record ProviderSourceTask := mkSourceTask {
  pt_title : string; pt_notes : string; pt_completed : bool; pt_revision : string;
  pt_context : WorkContext; pt_canonical : bool }.

Record ProviderSourceStory := mkStory {
  story_gid : string; story_task_gid : string; story_subtype : option string;
  story_text : option string; story_created_at : string; story_created_by : option string }.

Record ProviderStoriesPage := mkPage {
  page_task_gid : string; page_revision : string; stories : list ProviderSourceStory;
  next_offset : option string; page_canonical : bool; stale : bool }.

(** A mutation sent to a provider. *)
Inductive Effect :=
  | UpdateSent (provider provider_work_id : string) (patch : Patch)
  | AppendSent (provider provider_work_id text : string).

(** ** The protocols *)

(** [State], [EventState] and the [providers] of the controller.  [locked] is
    entered by [st_locked] and left normally by [st_unlock], which commits. *)
Class WorkEnv (W : Type) := {
  st_get : uuid → M W (option Handle);
  st_locked : uuid → M W (option Handle);
  st_unlock : M W unit;
  st_bind : string → string → M W Handle;
  st_bind_event : uuid → string → string → string → M W EventBinding;
  st_get_event : uuid → uuid → M W (option EventBinding);
  pr_known : string → bool;
  pr_get : string → string → M W (option ProviderWork);
  pr_update : string → string → Patch → M W unit;
  pr_append : string → string → string → M W (option string);
  pr_source_task : string → string → M W (option ProviderSourceTask);
  pr_source_stories : string → string → string → option string → Z →
    M W (option ProviderStoriesPage);
  pr_source_story : string → string → string → M W (option ProviderSourceStory);
  effects : W → list Effect }.

(** What [effects] records: a mutation call sends its mutation, whether or not
    it returns, and nothing else sends one. *)
Class WorkEnvLaws (W : Type) `{!WorkEnv W} := {
  update_sends p id patch w : effects (pr_update p id patch w).1 = effects w ++ [UpdateSent p id patch];
  append_sends p id text w : effects (pr_append p id text w).1 = effects w ++ [AppendSent p id text];
  locked_quiet i w : effects (st_locked i w).1 = effects w;
  unlock_quiet w : effects (st_unlock w).1 = effects w;
  get_quiet p id w : effects (pr_get p id w).1 = effects w;
  story_quiet p id s w : effects (pr_source_story p id s w).1 = effects w }.

Section controller.
Context {W : Type} `{!WorkEnv W}.

(** ** Reads *)

(** [getattr(work.routing if field in Routing.model_fields else work, field)] *)
Definition work_get (work : ProviderWork) (f : Field) : json :=
  match f with
  | F_title => JStr (pw_title work)
  | F_notes => JStr (pw_notes work)
  | F_completed => JBool (pw_completed work)
  | _ => jopt (routing_get (pw_routing work) f)
  end.

Definition patch_matches (work : ProviderWork) (patch : Patch) : bool :=
  forallb (λ f, eqb (Some (work_get work f)) (patch_get f patch)) (fields_set patch).

(** [apply_scalar] *)
Definition apply_scalar (provider provider_work_id : string) (patch : Patch) (send : bool)
  : M W (option ProviderWork) :=
  (if send then pr_update provider provider_work_id patch else mret tt);;
  work ← catch (pr_get provider provider_work_id) [ProviderError] (λ e,
           if send then throw UnknownEffect "update readback unavailable" else λ w, (w, Err e));
  mret (match work with
        | Some wk => if pw_canonical wk && patch_matches wk patch then Some wk else None
        | None => None
        end).

(** [Controller._item] *)
Definition item (work_id : uuid) (work : ProviderWork) (h : Handle) : WorkItem :=
  mkItem work_id (pw_title work) (pw_notes work) None None None (pw_completed work)
    (pw_revision work) (pw_routing work) (pw_context work)
    (Some (mkSource (h_provider h) (h_provider_work_id h))) None.

(** [Controller._work_event] *)
Definition work_event (work_id event_id : uuid) (s : ProviderSourceStory) : WorkEvent :=
  mkEvent event_id work_id (story_subtype s) (story_text s) (story_created_at s)
    (story_created_by s).

Definition work_result (s : Status) (i : option WorkItem) : M W WorkResult :=
  lift (WorkResult_validate (mkWorkResult s i)).

(** [Controller._read] *)
Definition read (work_id : uuid) (h : Handle) : M W WorkResult :=
  if negb (pr_known (h_provider h)) then work_result s_provider_error None
  else
    work ← pr_get (h_provider h) (h_provider_work_id h);
    match work with
    | None => work_result s_unknown None
    | Some work =>
        if negb (pw_canonical work) then work_result s_denied None
        else work_result s_ok (Some (item work_id work h))
    end.

(** [Controller.bind_work] *)
Definition bind_work (provider provider_work_id : string) : M W Handle :=
  throw_if (negb (pr_known provider)) KeyError provider;;
  work ← pr_get provider provider_work_id;
  throw_if (match work with None => true | Some w => negb (pw_canonical w) end)
    PermissionError "work is not canonical";;
  st_bind provider provider_work_id.

(** [except UnknownEffect: ... except ProviderError: ...] around a read. *)
Definition guard_read {A} (on_unknown on_error : res A) (m : M W A) : M W A := λ w,
  match m w with
  | (w', Err e) =>
      if exn_isinstance (exn_cls e) UnknownEffect then (w', on_unknown)
      else if exn_isinstance (exn_cls e) ProviderError then (w', on_error)
      else (w', Err e)
  | r => r
  end.

(** [Controller.get] *)
Definition get (authority : LaunchAuthority) (work_id : uuid) : M W WorkResult :=
  if negb (authority_can_read authority work_id) then work_result s_denied None
  else guard_read (WorkResult_validate (mkWorkResult s_unknown None))
         (WorkResult_validate (mkWorkResult s_provider_error None))
    (h ← st_get work_id;
     match h with
     | None => work_result s_unknown None
     | Some h => read work_id h
     end).

Definition history_result (s : Status) (w r : option string) (es : list WorkEvent)
    (c : option string) : res WorkHistoryResult :=
  WorkHistoryResult_validate (mkHistoryResult s w r es c).
Definition history_failed (s : Status) : res WorkHistoryResult := history_result s None None [] None.

(** The loop of [history]. *)
Fixpoint bind_stories (work_id : uuid) (h : Handle) (l : list ProviderSourceStory)
  : M W (list WorkEvent) :=
  match l with
  | [] => mret []
  | story :: l' =>
      binding ← st_bind_event work_id (h_provider h) (h_provider_work_id h) (story_gid story);
      rest ← bind_stories work_id h l';
      mret (work_event work_id (eb_id binding) story :: rest)
  end.

(** [Controller.history] *)
Definition history (authority : LaunchAuthority) (q : WorkHistoryRequest)
  : M W WorkHistoryResult :=
  if negb (authority_can_read authority (hq_work_id q)) then lift (history_failed s_denied)
  else guard_read (history_failed s_unknown) (history_failed s_provider_error)
    (h ← st_get (hq_work_id q);
     match h with
     | None => lift (history_failed s_unknown)
     | Some h =>
         if negb (pr_known (h_provider h)) then lift (history_failed s_provider_error)
         else
           page ← pr_source_stories (h_provider h) (h_provider_work_id h)
                    (hq_observed_revision q) (hq_cursor q) (hq_limit q);
           match page with
           | None => lift (history_failed s_unknown)
           | Some page =>
               if negb (page_canonical page) then lift (history_failed s_denied)
               else if negb (eqb (page_task_gid page) (h_provider_work_id h))
                    || (hq_limit q <? Z.of_nat (length (stories page)))
                    || existsb (λ s, negb (eqb (story_task_gid s) (h_provider_work_id h)))
                         (stories page)
               then lift (history_failed s_provider_error)
               else if stale page || negb (eqb (page_revision page) (hq_observed_revision q))
               then lift (history_result s_stale (Some (hq_work_id q)) (Some (page_revision page))
                            [] None)
               else
                 events ← bind_stories (hq_work_id q) h (stories page);
                 lift (history_result s_ok (Some (hq_work_id q)) (Some (page_revision page))
                         events (next_offset page))
           end
     end).

Definition event_result (s : Status) (w r : option string) (i : option WorkEvent)
  : res WorkEventResult := WorkEventResult_validate (mkEventResult s w r i).
Definition event_failed (s : Status) : res WorkEventResult := event_result s None None None.

(** [Controller.event] *)
Definition event (authority : LaunchAuthority) (q : WorkEventRequest) : M W WorkEventResult :=
  if negb (authority_can_read authority (eq_work_id q)) then lift (event_failed s_denied)
  else guard_read (event_failed s_unknown) (event_failed s_provider_error)
    (h ← st_get (eq_work_id q);
     match h with
     | None => lift (event_failed s_unknown)
     | Some h =>
         binding ← st_get_event (eq_work_id q) (eq_event_id q);
         match binding with
         | None => lift (event_failed s_denied)
         | Some b =>
             if negb (eqb (eb_provider b) (h_provider h))
                || negb (eqb (eb_provider_work_id b) (h_provider_work_id h))
             then lift (event_failed s_denied)
             else if negb (pr_known (h_provider h)) then lift (event_failed s_provider_error)
             else
               before ← pr_source_task (h_provider h) (h_provider_work_id h);
               match before with
               | None => lift (event_failed s_unknown)
               | Some before =>
                   if negb (pt_canonical before) then lift (event_failed s_denied)
                   else if negb (eqb (pt_revision before) (eq_observed_revision q))
                   then lift (event_result s_stale (Some (eq_work_id q))
                                (Some (pt_revision before)) None)
                   else
                     story ← pr_source_story (h_provider h) (h_provider_work_id h)
                               (eb_provider_event_id b);
                     match story with
                     | None => lift (event_failed s_unknown)
                     | Some story =>
                         if negb (eqb (story_task_gid story) (h_provider_work_id h))
                            || negb (eqb (story_gid story) (eb_provider_event_id b))
                         then lift (event_failed s_denied)
                         else
                           after ← pr_source_task (h_provider h) (h_provider_work_id h);
                           match after with
                           | None => lift (event_failed s_unknown)
                           | Some after =>
                               if negb (pt_canonical after) then lift (event_failed s_denied)
                               else if negb (eqb (pt_revision after) (pt_revision before))
                               then lift (event_result s_stale (Some (eq_work_id q))
                                            (Some (pt_revision after)) None)
                               else lift (event_result s_ok (Some (eq_work_id q))
                                            (Some (pt_revision after))
                                            (Some (work_event (eq_work_id q) (eq_event_id q) story)))
                           end
                     end
               end
         end
     end).

(** ** Mutations *)

(** The local variable that records whether the mutation may have applied is
    part of the store of a mutation. *)
Definition on_world {A} (m : M W A) : M (W * bool) A := λ s,
  let '(w', r) := m s.1 in ((w', s.2), r).
Definition may_have_applied : M (W * bool) unit := λ s, ((s.1, true), Ok tt).

(** [async with self.state.locked(work_id) as handle: ...] *)
Definition locked {A} (work_id : uuid) (body : option Handle → M (W * bool) A)
  : M (W * bool) A :=
  h ← on_world (st_locked work_id);
  r ← body h;
  on_world st_unlock;;
  mret r.

(** The [except] clauses around a mutation. *)
Definition guard_write {A} (on_unknown on_error : res A) (m : M (W * bool) A) : M W A := λ w,
  match m (w, false) with
  | ((w', applied), Err e) =>
      if exn_isinstance (exn_cls e) UnknownEffect then (w', on_unknown)
      else if exn_isinstance (exn_cls e) ProviderError
      then (w', if applied then on_unknown else on_error)
      else if applied then (w', on_unknown) else (w', Err e)
  | ((w', _), Ok a) => (w', Ok a)
  end.

Definition update_body (q : WorkUpdateRequest) : M (W * bool) WorkResult :=
  locked (uq_work_id q) (λ h,
    match h with
    | None => on_world (work_result s_unknown None)
    | Some h =>
        current ← on_world (read (uq_work_id q) h);
        match wr_item current with
        | None => mret current
        | Some it =>
            if negb (eqb (wr_status current) s_ok) then mret current
            else if negb (eqb (wi_revision it) (uq_observed_revision q))
            then on_world (work_result s_stale (Some it))
            else
              throw_if (negb (pr_known (h_provider h))) KeyError (h_provider h);;
              work ← catch
                (work ← on_world
                   (apply_scalar (h_provider h) (h_provider_work_id h) (uq_patch q) true);
                 mret (Some work))
                [UnknownEffect] (λ _, may_have_applied;; mret None);
              match work with
              | None => on_world (work_result s_unknown None)
              | Some work =>
                  may_have_applied;;
                  match work with
                  | None => on_world (work_result s_unknown None)
                  | Some work => on_world (work_result s_ok (Some (item (uq_work_id q) work h)))
                  end
              end
        end
    end).

(** [Controller.update] *)
Definition update (authority : LaunchAuthority) (q : WorkUpdateRequest) : M W WorkResult :=
  if negb (eqb (uq_work_id q) (active_work_id authority)) then work_result s_denied None
  else guard_write (WorkResult_validate (mkWorkResult s_unknown None))
         (WorkResult_validate (mkWorkResult s_provider_error None)) (update_body q).

Definition append_result (s : Status) (t g : option string) : M W AppendResult :=
  lift (AppendResult_validate (mkAppendResult s t g)).

Definition append_body (q : WorkAppendRequest) : M (W * bool) AppendResult :=
  locked (aq_work_id q) (λ h,
    match h with
    | None => on_world (append_result s_unknown None None)
    | Some h =>
        current ← on_world (read (aq_work_id q) h);
        if negb (eqb (wr_status current) s_ok)
        then on_world (append_result
               (if eqb (wr_status current) s_stale then s_provider_error else wr_status current)
               None None)
        else
          throw_if (negb (pr_known (h_provider h))) KeyError (h_provider h);;
          gid ← on_world (pr_append (h_provider h) (h_provider_work_id h) (aq_text q));
          may_have_applied;;
          match gid with
          | None => on_world (append_result s_unknown None None)
          | Some gid =>
              story ← on_world (pr_source_story (h_provider h) (h_provider_work_id h) gid);
              if match story with
                 | None => true
                 | Some s => negb (eqb (story_gid s) gid)
                             || negb (eqb (story_task_gid s) (h_provider_work_id h))
                             || negb (eqb (story_text s) (Some (aq_text q)))
                 end
              then on_world (append_result s_unknown None None)
              else
                readback ← on_world (read (aq_work_id q) h);
                if negb (eqb (wr_status readback) s_ok)
                then on_world (append_result s_unknown None None)
                else on_world (append_result s_ok (Some (h_provider_work_id h)) (Some gid))
          end
    end).

(** [Controller.append] *)
Definition append (authority : LaunchAuthority) (q : WorkAppendRequest) : M W AppendResult :=
  if negb (eqb (aq_work_id q) (active_work_id authority)) then append_result s_denied None None
  else guard_write (AppendResult_validate (mkAppendResult s_unknown None None))
         (AppendResult_validate (mkAppendResult s_provider_error None None)) (append_body q).

(** ** Launch provisioning *)

Fixpoint get_all (provider : string) (ids : list string) : M W (list (option ProviderWork)) :=
  match ids with
  | [] => mret []
  | i :: ids' => w ← pr_get provider i; ws ← get_all provider ids'; mret (w :: ws)
  end.

Fixpoint bind_all (provider : string) (ids : list string) : M W (list Handle) :=
  match ids with
  | [] => mret []
  | i :: ids' => h ← st_bind provider i; hs ← bind_all provider ids'; mret (h :: hs)
  end.

(** [provision_launch] *)
Definition provision_launch (provider active_id : string) (references : list string)
  : M W LaunchAuthority :=
  throw_if (8 <? Z.of_nat (length references)) ValueError "at most eight reference tasks are allowed";;
  throw_if (negb (no_dup (active_id :: references))) ValueError
    "active and reference tasks must be distinct";;
  works ← get_all provider (active_id :: references);
  throw_if (existsb (λ w, match w with None => true | Some w => negb (pw_canonical w) end) works)
    PermissionError "all work must be canonical";;
  handles ← bind_all provider (active_id :: references);
  match handles with
  | [] => throw RuntimeError "unreachable"
  | h :: hs => lift (LaunchAuthority_validate (mkAuthority (h_id h) (h_id <$> hs)))
  end.
End controller.

(** ** Properties *)

Section properties.
#[local] Set Default Proof Using "All".
Context {W : Type} `{!WorkEnv W} `{!WorkEnvLaws W}.

(** A computation that sends nothing. *)
Definition quiet {A} (m : M W A) : Prop := ∀ w, effects (m w).1 = effects w.
Definition quiet_f {A} (m : M (W * bool) A) : Prop := ∀ s, effects (m s).1.1 = effects s.1.

(** [update_body] run from the flag [false]: what was sent, the flag and the
    outcome. *)
Definition canonical_match (wk : ProviderWork) (p : Patch) : Prop :=
  pw_canonical wk = true ∧ ∀ f v, patch_get f p = Some v → work_get wk f = v.

(** The work [wk] that the provider showed after it returned from the update
    sent in world [w]. *)
Definition read_back (p id : string) (patch : Patch) (w : W) (wk : ProviderWork) : Prop :=
  ∃ w1, pr_update p id patch w = (w1, Ok tt) ∧ (pr_get p id w1).2 = Ok (Some wk) ∧
    canonical_match wk patch.

Lemma patch_get_fields f v (p : Patch) : patch_get f p = Some v → f ∈ fields_set p.
Proof.
  intros H%patch_get_elem. unfold fields_set. apply list_elem_of_fmap. exists (f, v). done.
Qed.

Lemma patch_matches_spec wk p :
  patch_matches wk p = true → ∀ f v, patch_get f p = Some v → work_get wk f = v.
Proof.
  unfold patch_matches. rewrite forallb_forall. intros H f v Hf.
  specialize (H f). rewrite <- list_elem_of_In, eqb_true, Hf in H.
  specialize (H (patch_get_fields _ _ _ Hf)). congruence.
Qed.

Lemma read_quiet i h : quiet (read i h).
Proof.
  intros w. unfold read, mbind, M_bind, work_result, lift. destruct (negb _); [done|].
  pose proof (get_quiet (h_provider h) (h_provider_work_id h) w) as Hq.
  destruct (pr_get _ _ w) as [w' [[work|]|e]]; cbn in *; try done.
  by destruct (negb _).
Qed.

(** What [apply_scalar] sends and what its outcome tells. *)
Lemma apply_scalar_spec p id patch w :
  let '(w', r) := apply_scalar p id patch true w in
  effects w' = effects w ++ [UpdateSent p id patch] ∧
  (∀ wk, r = Ok (Some wk) → read_back p id patch w wk) ∧
  (∀ e, r = Err e →
     (pr_update p id patch w).2 = Err e ∨
     exn_cls e = UnknownEffect ∨ exn_isinstance (exn_cls e) ProviderError = false).
Proof.
  unfold apply_scalar, mbind, M_bind, catch, throw.
  pose proof (update_sends p id patch w) as Hs.
  destruct (pr_update p id patch w) as [w1 [[]|e]] eqn:Hup; cbn in *; [|naive_solver].
  pose proof (get_quiet p id w1) as Hg.
  destruct (pr_get p id w1) as [w2 [work|e]] eqn:Hget; cbn in *.
  - split; [congruence|]. split; [|done]. intros wk. destruct work as [wk'|]; [|done].
    destruct (pw_canonical wk' && patch_matches wk' patch) eqn:E; [|done]. intros [= ->].
    apply andb_true_iff in E as [? ?]. exists w1. rewrite Hget.
    repeat split; try done. by apply patch_matches_spec.
  - destruct (exn_isinstance (exn_cls e) ProviderError) eqn:E; cbn.
    + split; [congruence|]. split; [done|]. intros ? [= <-]. by right; left.
    + split; [congruence|]. split; [done|]. intros ? [= <-]. by right; right.
Qed.

(** A mutation sent after a current read: [w1] is the world the mutation was
    sent in, right after the provider showed canonical work there at the
    observed revision. *)
Definition sent_current (work_id : uuid) (observed : option string) (h : Handle) (w w1 : W) : Prop :=
  ∃ w0 w2 wk, st_locked work_id w = (w0, Ok (Some h)) ∧ w2 = w0 ∧
    pr_get (h_provider h) (h_provider_work_id h) w2 = (w1, Ok (Some wk)) ∧
    pw_canonical wk = true ∧ ∀ o, observed = Some o → pw_revision wk = o.

Lemma provider_read_ok i h w w' it :
  read i h w = (w', Ok (mkWorkResult s_ok (Some it))) →
  ∃ wk, pr_get (h_provider h) (h_provider_work_id h) w = (w', Ok (Some wk)) ∧
    pw_canonical wk = true ∧ it = item i wk h.
Proof.
  unfold read, mbind, M_bind, work_result, lift. destruct (negb _); [done|].
  destruct (pr_get _ _ w) as [w1 [[wk|]|e]]; cbn; try done.
  destruct (pw_canonical wk) eqn:E; cbn; [|done]. intros [= <- <-]. eauto.
Qed.

Lemma read_cases i h w :
  (∃ e, (read i h w).2 = Err e) ∨
  (∃ s, (read i h w).2 = Ok (mkWorkResult s None) ∧ s ≠ s_ok) ∨
  (∃ it, (read i h w).2 = Ok (mkWorkResult s_ok (Some it))).
Proof.
  unfold read, mbind, M_bind, work_result, lift. destruct (negb _); cbn; [right; left; eauto|].
  destruct (pr_get _ _ w) as [w1 [[wk|]|e]]; cbn; [| right; left; eauto | left; eauto].
  destruct (pw_canonical wk); cbn; [right; right; eauto | right; left; eauto].
Qed.

(** The outcome of an update of which a mutation was sent in world [w1]. *)
Definition update_outcome (q : WorkUpdateRequest) (h : Handle) (w1 : W) (r : res WorkResult) : Prop :=
  (∃ wk, r = Ok (mkWorkResult s_ok (Some (item (uq_work_id q) wk h))) ∧
     read_back (h_provider h) (h_provider_work_id h) (uq_patch q) w1 wk) ∨
  r = Ok (mkWorkResult s_unknown None) ∨
  (r = Ok (mkWorkResult s_provider_error None) ∧
     ∃ e, (pr_update (h_provider h) (h_provider_work_id h) (uq_patch q) w1).2 = Err e ∧
       exn_isinstance (exn_cls e) ProviderError = true ∧
       exn_isinstance (exn_cls e) UnknownEffect = false) ∨
  (∃ e, r = Err e ∧ exn_isinstance (exn_cls e) ProviderError = false).

(** What happens once the read was current. *)
Definition send_update (q : WorkUpdateRequest) (h : Handle) : M (W * bool) WorkResult :=
  work ← catch
    (work ← on_world (apply_scalar (h_provider h) (h_provider_work_id h) (uq_patch q) true);
     mret (Some work))
    [UnknownEffect] (λ _, may_have_applied;; mret None);
  match work with
  | None => on_world (work_result s_unknown None)
  | Some work =>
      may_have_applied;;
      match work with
      | None => on_world (work_result s_unknown None)
      | Some work => on_world (work_result s_ok (Some (item (uq_work_id q) work h)))
      end
  end.

Lemma send_update_spec q h w1 :
  let '((w2, b), r) := send_update q h (w1, false) in
  effects w2 = effects w1 ++ [UpdateSent (h_provider h) (h_provider_work_id h) (uq_patch q)] ∧
  ((b = true ∧ update_outcome q h w1 r ∧ is_ok r = true ∧
      r ≠ Ok (mkWorkResult s_provider_error None)) ∨
   (b = false ∧ ∃ e, r = Err e ∧ exn_isinstance (exn_cls e) UnknownEffect = false ∧
      ((pr_update (h_provider h) (h_provider_work_id h) (uq_patch q) w1).2 = Err e ∨
       exn_isinstance (exn_cls e) ProviderError = false))).
Proof.
  pose proof (apply_scalar_spec (h_provider h) (h_provider_work_id h) (uq_patch q) w1) as Ha.
  unfold send_update, mbind, M_bind, catch, on_world, may_have_applied, work_result, lift, mret, M_ret.
  cbn [fst snd]. destruct (apply_scalar _ _ _ _ w1) as [w2 [work|e]]; destruct Ha as (Heff & Hok & Herr).
  - destruct work as [wk|]; cbn; (split; [done|]; left; repeat split; try done).
    + left. exists wk. eauto.
    + by right; left.
  - cbn. destruct (exn_isinstance (exn_cls e) UnknownEffect) eqn:Hu; cbn.
    + split; [done|]. left. repeat split; try done. by right; left.
    + split; [done|]. right. split; [done|]. exists e. repeat split; [done|].
      destruct (Herr e eq_refl) as [|[He|]]; [by left | | by right].
      by rewrite He in Hu.
Qed.

(** Leaving the lock after the body returned: a failed commit is reported as
    unknown when the mutation may have applied. *)
Lemma guard_unlock {A} (u p : res A) (m : M (W * bool) A) w w2 b x :
  m (w, false) = (on_world st_unlock;; mret x) (w2, b) →
  let '(w', r) := guard_write u p m w in
  effects w' = effects w2 ∧
  (r = Ok x ∨ r = u ∨ b = false ∧ (r = p ∨ ∃ e, r = Err e)).
Proof.
  intros Hm. unfold guard_write. rewrite Hm. unfold mbind, M_bind, on_world. cbn [fst snd].
  pose proof (unlock_quiet w2) as Hq. destruct (st_unlock w2) as [w' [[]|e]]; cbn in *.
  - split; [done | by left].
  - destruct (exn_isinstance _ UnknownEffect); [split; [done | by right; left]|].
    destruct (exn_isinstance _ ProviderError), b; (split; [done|]); eauto 6.
Qed.

(** The body raised. *)
Lemma guard_raise {A} (u p : res A) (m : M (W * bool) A) w w2 b e :
  m (w, false) = ((w2, b), Err e) →
  guard_write u p m w =
    (w2, if exn_isinstance (exn_cls e) UnknownEffect then u
         else if exn_isinstance (exn_cls e) ProviderError then if b then u else p
         else if b then u else Err e).
Proof. intros Hm. unfold guard_write. rewrite Hm. by repeat case_match. Qed.

(** A locked body, after the lock has been taken. *)
Lemma locked_body {A} work_id (body : option Handle → M (W * bool) A) w w0 oh w2 b r :
  st_locked work_id w = (w0, Ok oh) → body oh (w0, false) = ((w2, b), r) →
  locked work_id body (w, false) =
    match r with
    | Ok x => (on_world st_unlock;; mret x) (w2, b)
    | Err e => ((w2, b), Err e)
    end.
Proof.
  intros Hl Hb. unfold locked, mbind at 1, M_bind at 1, on_world at 1. cbn [fst snd].
  rewrite Hl. cbn -[mbind]. unfold mbind at 1, M_bind at 1. rewrite Hb. by destruct r.
Qed.

(** The body of [update] under the lock. *)
Definition update_of (q : WorkUpdateRequest) (h : option Handle) : M (W * bool) WorkResult :=
  match h with
  | None => on_world (work_result s_unknown None)
  | Some h =>
      current ← on_world (read (uq_work_id q) h);
      match wr_item current with
      | None => mret current
      | Some it =>
          if negb (eqb (wr_status current) s_ok) then mret current
          else if negb (eqb (wi_revision it) (uq_observed_revision q))
          then on_world (work_result s_stale (Some it))
          else throw_if (negb (pr_known (h_provider h))) KeyError (h_provider h);; send_update q h
      end
  end.

Ltac no_success := cbn; repeat split; try done; try (intros ? [= <-]; done).

Lemma update_of_spec q oh w0 :
  let '((w2, b), r) := update_of q oh (w0, false) in
  (effects w2 = effects w0 ∧ b = false ∧ ∀ x, r = Ok x → wr_status x ≠ s_ok) ∨
  (∃ h w1 wk, oh = Some h ∧
     pr_get (h_provider h) (h_provider_work_id h) w0 = (w1, Ok (Some wk)) ∧
     pw_canonical wk = true ∧ pw_revision wk = uq_observed_revision q ∧
     effects w1 = effects w0 ∧ send_update q h (w1, false) = ((w2, b), r)).
Proof.
  unfold update_of. destruct oh as [h|]; [|left; no_success].
  unfold mbind at 1, M_bind at 1, on_world at 1. cbn [fst snd].
  pose proof (read_quiet (uq_work_id q) h w0) as Hq.
  destruct (read_cases (uq_work_id q) h w0) as [[e He]|[(s & Hs & Hn)|[it Hit]]];
    destruct (read (uq_work_id q) h w0) as [w1 r1] eqn:Hread; cbn in *; subst r1; cbn.
  - left. no_success.
  - left. no_success.
  - rewrite eqb_refl. cbn -[send_update].
    destruct (eqb (wi_revision it) (uq_observed_revision q)) eqn:Hrev; cbn -[send_update].
    2: { left. no_success. }
    rewrite eqb_true in Hrev. apply provider_read_ok in Hread as (wk & Hget & Hcan & ->).
    unfold mbind, M_bind, throw_if. destruct (negb (pr_known _)); cbn -[send_update].
    { left. no_success. }
    destruct (send_update q h (w1, false)) as [[w2 b] r] eqn:Hsend.
    right. exists h, w1, wk. done.
Qed.

(** An update sends at most one mutation, and reports it honestly.  Either
    nothing was sent and the result does not claim success; or the request
    names the active work and exactly one update was sent, to the handle read
    under the lock, right after the provider showed canonical work at the
    observed revision, and the result is success with a canonical readback
    that has every patched value, or unknown, or a provider error raised by
    the update call itself, or an escaping exception. *)
Theorem controller_update authority q w :
  let '(w', r) := update authority q w in
  (effects w' = effects w ∧ ∀ x, r = Ok x → wr_status x ≠ s_ok) ∨
  (∃ h w1, uq_work_id q = active_work_id authority ∧
     sent_current (uq_work_id q) (Some (uq_observed_revision q)) h w w1 ∧
     effects w' = effects w ++ [UpdateSent (h_provider h) (h_provider_work_id h) (uq_patch q)] ∧
     update_outcome q h w1 r).
Proof.
  unfold update. destruct (eqb (uq_work_id q) (active_work_id authority)) eqn:Hact; cbn -[guard_write];
    [|left; no_success].
  rewrite eqb_true in Hact. change (update_body q) with (locked (uq_work_id q) (update_of q)).
  pose proof (locked_quiet (uq_work_id q) w) as Hl.
  destruct (st_locked (uq_work_id q) w) as [w0 [oh|e]] eqn:Hlock; cbn in Hl; last first.
  { rewrite (guard_raise _ _ _ w w0 false e) by
      (unfold locked, mbind, M_bind, on_world; cbn; by rewrite Hlock).
    left. split; [done|]. intros x. repeat case_match; intros [= <-]; done. }
  pose proof (update_of_spec q oh w0) as Hu.
  destruct (update_of q oh (w0, false)) as [[w2 b] r] eqn:Hbody.
  pose proof (locked_body _ _ _ _ _ _ _ _ Hlock Hbody) as Hm.
  set (u := WorkResult_validate (mkWorkResult s_unknown None)).
  set (p := WorkResult_validate (mkWorkResult s_provider_error None)).
  destruct Hu as [(He & -> & Hn)|(h & w1 & wk & -> & Hget & Hcan & Hrev & He1 & Hsend)].
  - destruct r as [x|e].
    + pose proof (guard_unlock u p _ _ _ _ _ Hm) as Hg. destruct (guard_write _ _ _ w) as [w' r'].
      left. destruct Hg as [-> Hr]. split; [congruence|]. intros y ->. specialize (Hn x eq_refl).
      destruct Hr as [[= ->]|[[= ->]|[_ [[= ->]|[? ?]]]]]; done.
    + rewrite (guard_raise u p _ _ _ _ _ Hm). left. split; [congruence|].
      intros y. repeat case_match; intros [= <-]; done.
  - assert (Hcur : sent_current (uq_work_id q) (Some (uq_observed_revision q)) h w w1)
      by (exists w0, w0, wk; repeat split; try done; by intros ? [= <-]).
    pose proof (send_update_spec q h w1) as Hs. rewrite Hsend in Hs.
    destruct Hs as [Heff [(-> & Hout & Hok & Hnp)|(-> & e & -> & Hnu & Hor)]].
    + destruct r as [x|]; [|done].
      pose proof (guard_unlock u p _ _ _ _ _ Hm) as Hg. destruct (guard_write _ _ _ w) as [w' r'].
      destruct Hg as [-> Hr]. right. exists h, w1. split; [done|]. split; [done|].
      split; [congruence|]. destruct Hr as [->|[->|[[=] _]]]; [done | by right; left].
    + rewrite (guard_raise u p _ _ _ _ _ Hm), Hnu. right. exists h, w1. split; [done|].
      split; [done|]. split; [congruence|]. right; right.
      destruct (exn_isinstance (exn_cls e) ProviderError) eqn:Hp; [left | right; by exists e].
      destruct Hor as [Hor|]; [|done]. split; [done|]. by exists e.
Qed.

(** *** Appends *)

(** A readback that shows the appended story. *)
Definition story_matches (h : Handle) (gid text : string) (s : ProviderSourceStory) : Prop :=
  story_gid s = gid ∧ story_task_gid s = h_provider_work_id h ∧ story_text s = Some text.

(** What happens once the append returned the identifier of a story. *)
Definition confirm_append (q : WorkAppendRequest) (h : Handle) (gid : string)
  : M (W * bool) AppendResult :=
  story ← on_world (pr_source_story (h_provider h) (h_provider_work_id h) gid);
  if match story with
     | None => true
     | Some s => negb (eqb (story_gid s) gid)
                 || negb (eqb (story_task_gid s) (h_provider_work_id h))
                 || negb (eqb (story_text s) (Some (aq_text q)))
     end
  then on_world (append_result s_unknown None None)
  else
    readback ← on_world (read (aq_work_id q) h);
    if negb (eqb (wr_status readback) s_ok)
    then on_world (append_result s_unknown None None)
    else on_world (append_result s_ok (Some (h_provider_work_id h)) (Some gid)).

(** The story read in world [w]. *)
Definition story_confirmed (q : WorkAppendRequest) (h : Handle) (gid : string) (w : W)
    (x : AppendResult) : Prop :=
  ∃ s, x = mkAppendResult s_ok (Some (h_provider_work_id h)) (Some gid) ∧
    (pr_source_story (h_provider h) (h_provider_work_id h) gid w).2 = Ok (Some s) ∧
    story_matches h gid (aq_text q) s.

(** The story that the provider showed after the append sent in world [w1]. *)
Definition append_confirmed (q : WorkAppendRequest) (h : Handle) (w1 : W) (x : AppendResult) : Prop :=
  ∃ gid w2, pr_append (h_provider h) (h_provider_work_id h) (aq_text q) w1 = (w2, Ok (Some gid)) ∧
    story_confirmed q h gid w2 x.

Lemma confirm_append_spec q h gid w3 :
  let '((w4, b), r) := confirm_append q h gid (w3, true) in
  effects w4 = effects w3 ∧ b = true ∧
  ∀ x, r = Ok x → x = mkAppendResult s_unknown None None ∨ story_confirmed q h gid w3 x.
Proof.
  unfold confirm_append, mbind, M_bind, on_world, append_result, lift. cbn [fst snd].
  pose proof (story_quiet (h_provider h) (h_provider_work_id h) gid w3) as Hs.
  destruct (pr_source_story _ _ _ w3) as [w4 [[s|]|e]] eqn:Hstory; cbn in Hs;
    [|cbn; repeat split; [done|]; intros ? [= <-]; by left|cbn; done].
  destruct (negb (eqb (story_gid s) gid) || _ || _) eqn:Hm; cbn.
  { repeat split; [done|]. intros ? [= <-]. by left. }
  pose proof (read_quiet (aq_work_id q) h w4) as Hr.
  destruct (read (aq_work_id q) h w4) as [w5 [rb|e]]; cbn in *; [|repeat split; [congruence | done]].
  destruct (negb (eqb (wr_status rb) s_ok)); cbn; (repeat split; [congruence|]); intros ? [= <-].
  - by left.
  - right. exists s. rewrite Hstory. repeat split; try done; to_prop; tauto.
Qed.

(** The body of [append] under the lock. *)
Definition append_of (q : WorkAppendRequest) (h : option Handle) : M (W * bool) AppendResult :=
  match h with
  | None => on_world (append_result s_unknown None None)
  | Some h =>
      current ← on_world (read (aq_work_id q) h);
      if negb (eqb (wr_status current) s_ok)
      then on_world (append_result
             (if eqb (wr_status current) s_stale then s_provider_error else wr_status current)
             None None)
      else
        throw_if (negb (pr_known (h_provider h))) KeyError (h_provider h);;
        gid ← on_world (pr_append (h_provider h) (h_provider_work_id h) (aq_text q));
        may_have_applied;;
        match gid with
        | None => on_world (append_result s_unknown None None)
        | Some gid => confirm_append q h gid
        end
  end.

Lemma append_of_spec q oh w0 :
  let '((w2, b), r) := append_of q oh (w0, false) in
  (effects w2 = effects w0 ∧ b = false ∧ ∀ x, r = Ok x → ar_status x ≠ s_ok) ∨
  (∃ h w1 wk, oh = Some h ∧
     pr_get (h_provider h) (h_provider_work_id h) w0 = (w1, Ok (Some wk)) ∧
     pw_canonical wk = true ∧
     effects w2 = effects w0 ++ [AppendSent (h_provider h) (h_provider_work_id h) (aq_text q)] ∧
     ((b = true ∧ ∀ x, r = Ok x → x = mkAppendResult s_unknown None None ∨ append_confirmed q h w1 x) ∨
      (b = false ∧ ∃ e, r = Err e ∧
         (pr_append (h_provider h) (h_provider_work_id h) (aq_text q) w1).2 = Err e))).
Proof.
  unfold append_of. destruct oh as [h|]; [|left; no_success].
  unfold mbind at 1, M_bind at 1, on_world at 1. cbn [fst snd].
  pose proof (read_quiet (aq_work_id q) h w0) as Hq.
  destruct (read_cases (aq_work_id q) h w0) as [[e He]|[(s & Hs & Hn)|[it Hit]]];
    destruct (read (aq_work_id q) h w0) as [w1 r1] eqn:Hread; cbn in *; subst r1; cbn.
  - left. no_success.
  - destruct s; try done; left; no_success.
  - rewrite eqb_refl. cbn -[confirm_append].
    apply provider_read_ok in Hread as (wk & Hget & Hcan & _).
    unfold mbind, M_bind, throw_if, on_world, may_have_applied.
    destruct (negb (pr_known _)); cbn -[confirm_append]; [left; no_success|].
    pose proof (append_sends (h_provider h) (h_provider_work_id h) (aq_text q) w1) as Ha.
    destruct (pr_append _ _ _ w1) as [w2 [[gid|]|e]] eqn:Happ; cbn -[confirm_append] in *.
    + pose proof (confirm_append_spec q h gid w2) as Hc.
      destruct (confirm_append q h gid (w2, true)) as [[w4 b] r]. destruct Hc as (Hce & -> & Hc).
      right. exists h, w1, wk. repeat split; try done; [congruence|]. left. split; [done|].
      intros x [->|Hx]%Hc; [by left|]. right. exists gid, w2. done.
    + right. exists h, w1, wk. repeat split; try done; [congruence|]. left. split; [done|].
      intros ? [= <-]. by left.
    + right. exists h, w1, wk. repeat split; try done; [congruence|]. right. rewrite Happ. eauto.
Qed.

(** An append sends at most one story, and reports it honestly.  Either
    nothing was sent and the result does not claim success; or the request
    names the active work and exactly one append was sent, right after the
    provider showed canonical work under the lock, and the result is success
    with a story read back under the returned identifier, on that task, with
    exactly the requested text, or unknown, or the failure of the append call
    itself. *)
Theorem controller_append authority q w :
  let '(w', r) := append authority q w in
  (effects w' = effects w ∧ ∀ x, r = Ok x → ar_status x ≠ s_ok) ∨
  (∃ h w1, aq_work_id q = active_work_id authority ∧
     sent_current (aq_work_id q) None h w w1 ∧
     effects w' = effects w ++ [AppendSent (h_provider h) (h_provider_work_id h) (aq_text q)] ∧
     ((∃ x, r = Ok x ∧ append_confirmed q h w1 x) ∨ r = Ok (mkAppendResult s_unknown None None) ∨
      ∃ e, (pr_append (h_provider h) (h_provider_work_id h) (aq_text q) w1).2 = Err e ∧
        (r = Ok (mkAppendResult s_provider_error None None) ∨ r = Err e))).
Proof.
  unfold append. destruct (eqb (aq_work_id q) (active_work_id authority)) eqn:Hact; cbn -[guard_write];
    [|left; no_success].
  rewrite eqb_true in Hact. change (append_body q) with (locked (aq_work_id q) (append_of q)).
  pose proof (locked_quiet (aq_work_id q) w) as Hl.
  destruct (st_locked (aq_work_id q) w) as [w0 [oh|e]] eqn:Hlock; cbn in Hl; last first.
  { rewrite (guard_raise _ _ _ w w0 false e) by
      (unfold locked, mbind, M_bind, on_world; cbn; by rewrite Hlock).
    left. split; [done|]. intros x. repeat case_match; intros [= <-]; done. }
  pose proof (append_of_spec q oh w0) as Hu.
  destruct (append_of q oh (w0, false)) as [[w2 b] r] eqn:Hbody.
  pose proof (locked_body _ _ _ _ _ _ _ _ Hlock Hbody) as Hm.
  set (u := AppendResult_validate (mkAppendResult s_unknown None None)).
  set (p := AppendResult_validate (mkAppendResult s_provider_error None None)).
  destruct Hu as [(He & -> & Hn)|(h & w1 & wk & -> & Hget & Hcan & He1 & Hr)].
  - destruct r as [x|e].
    + pose proof (guard_unlock u p _ _ _ _ _ Hm) as Hg. destruct (guard_write _ _ _ w) as [w' r'].
      left. destruct Hg as [-> Hr]. split; [congruence|]. intros y ->. specialize (Hn x eq_refl).
      destruct Hr as [[= ->]|[[= ->]|[_ [[= ->]|[? ?]]]]]; done.
    + rewrite (guard_raise u p _ _ _ _ _ Hm). left. split; [congruence|].
      intros y. repeat case_match; intros [= <-]; done.
  - assert (Hcur : sent_current (aq_work_id q) None h w w1)
      by (exists w0, w0, wk; repeat split; done).
    destruct Hr as [(-> & Hok)|(-> & e & -> & Happ)].
    + destruct r as [x|e].
      * pose proof (guard_unlock u p _ _ _ _ _ Hm) as Hg. destruct (guard_write _ _ _ w) as [w' r'].
        destruct Hg as [-> Hr]. right. exists h, w1. split; [done|]. split; [done|].
        split; [congruence|]. destruct Hr as [->|[->|[[=] _]]]; [|by right; left].
        destruct (Hok x eq_refl) as [->|]; [by right; left | left; eauto].
      * rewrite (guard_raise u p _ _ _ _ _ Hm). right. exists h, w1. split; [done|].
        split; [done|]. split; [congruence|]. right; left. by repeat case_match.
    + rewrite (guard_raise u p _ _ _ _ _ Hm). right. exists h, w1. split; [done|].
      split; [done|]. split; [congruence|]. right.
      destruct (exn_isinstance (exn_cls e) UnknownEffect); [by left|]. right. exists e.
      split; [done|]. destruct (exn_isinstance (exn_cls e) ProviderError); [by left | by right].
Qed.
End properties.

(** *** Reads *)

Section reads.
Context {W : Type} `{!WorkEnv W}.

Lemma guard_read_Ok {A} (u p : res A) (m : M W A) w w' a :
  guard_read u p m w = (w', Ok a) → m w = (w', Ok a) ∨ u = Ok a ∨ p = Ok a.
Proof. unfold guard_read. intros H. repeat case_match; naive_solver. Qed.

Lemma bind_stories_Ok work_id h l (w w' : W) es :
  bind_stories work_id h l w = (w', Ok es) →
  length es = length l ∧ ∀ e, e ∈ es → ev_work_id e = work_id.
Proof.
  revert w w' es. induction l as [|s l IH]; intros w w' es; cbn.
  - intros [= <- <-]. split; [done | set_solver].
  - intros H. inv_M. destruct (IH _ _ _ Hs0) as [Hl He]. cbn. split; [lia|].
    intros e [->|]%elem_of_cons; [done | auto].
Qed.

(** A history answer claims data only when it is entitled to. *)
Definition history_sound (q : WorkHistoryRequest) (r : WorkHistoryResult) : Prop :=
  match hr_status r with
  | s_ok => hr_work_id r = Some (hq_work_id q) ∧ hr_revision r = Some (hq_observed_revision q) ∧
            Z.of_nat (length (hr_events r)) <= hq_limit q ∧
            ∀ e, e ∈ hr_events r → ev_work_id e = hq_work_id q
  | s_stale => hr_work_id r = Some (hq_work_id q) ∧ hr_events r = [] ∧ hr_next_cursor r = None
  | _ => hr_work_id r = None ∧ hr_revision r = None ∧ hr_events r = [] ∧ hr_next_cursor r = None
  end.

Definition event_sound (q : WorkEventRequest) (r : WorkEventResult) : Prop :=
  match er_status r with
  | s_ok => er_work_id r = Some (eq_work_id q) ∧ er_revision r = Some (eq_observed_revision q) ∧
            ∃ e, er_item r = Some e ∧ ev_id e = eq_event_id q ∧ ev_work_id e = eq_work_id q
  | s_stale => er_work_id r = Some (eq_work_id q) ∧ er_item r = None ∧
               er_revision r ≠ Some (eq_observed_revision q)
  | _ => er_work_id r = None ∧ er_revision r = None ∧ er_item r = None
  end.

Lemma history_failed_sound q s r :
  s ≠ s_ok → s ≠ s_stale → history_failed s = Ok r → history_sound q r.
Proof. destruct s; try done; intros _ _ [= <-]; done. Qed.

Lemma event_failed_sound q s r :
  s ≠ s_ok → s ≠ s_stale → event_failed s = Ok r → event_sound q r.
Proof. destruct s; try done; intros _ _ [= <-]; done. Qed.

(** Reads are bounded by the authority and the observed revision.  A
    history or event answer outside the launch authority is a denial that
    touches nothing; a successful one is for the requested work at exactly
    the observed revision, with at most [limit] events, all of that work, and
    every other answer carries no event. *)
Theorem controller_reads authority hq eq w :
  (authority_can_read authority (hq_work_id hq) = false →
     history authority hq w = (w, history_failed s_denied)) ∧
  (authority_can_read authority (eq_work_id eq) = false →
     event authority eq w = (w, event_failed s_denied)) ∧
  (∀ w' r, history authority hq w = (w', Ok r) → history_sound hq r) ∧
  (∀ w' r, event authority eq w = (w', Ok r) → event_sound eq r).
Proof.
  split; [by intros H; unfold history; rewrite H|].
  split; [by intros H; unfold event; rewrite H|]. split.
  - intros w' r. unfold history. case_match; [by intros [= _ <-]|].
    intros [Hr|[Hr|Hr]]%guard_read_Ok; [|by eapply history_failed_sound; [| |exact Hr]..].
    inv_M. repeat (case_match; inv_M; try (by eapply history_failed_sound; [| |eassumption])).
    + match goal with H : history_result _ _ _ _ _ = _ |- _ => by injection H as <- end.
    + match goal with H : bind_stories _ _ _ _ = _ |- _ => apply bind_stories_Ok in H as [Hl He] end.
      unfold history_result, WorkHistoryResult_validate in *. cbn in *.
      case_match; [done|]. simplify_eq/=. to_prop. unfold history_sound. cbn.
      repeat split; try done; [naive_solver congruence | lia].
  - intros w' r. unfold event. case_match; [by intros [= _ <-]|].
    intros [Hr|[Hr|Hr]]%guard_read_Ok; [|by eapply event_failed_sound; [| |exact Hr]..].
    inv_M. repeat (case_match; inv_M; try (by eapply event_failed_sound; [| |eassumption])).
    all: unfold event_result, WorkEventResult_validate in *; cbn in *; try case_match; try done;
      simplify_eq/=; to_prop; unfold event_sound; cbn; repeat split; try congruence; eauto.
Qed.
End reads.

(** ** A concrete environment: one task in one provider *)

Record ExWorld := mkEx { ex_log : list Effect; ex_work : ProviderWork }.

Definition ex_routing : Routing :=
  mkRouting None None None None None None None None None None None None None.

Definition ex_apply (p : Patch) (wk : ProviderWork) : ProviderWork :=
  mkProviderWork (pw_title wk)
    (match patch_get F_notes p with Some (JStr s) => s | _ => pw_notes wk end)
    (pw_completed wk) "r2" (pw_routing wk) (pw_context wk) (pw_canonical wk).

Instance ex_env : WorkEnv ExWorld := {
  st_get i := λ w, (w, Ok (Some (mkHandle i "asana" "42")));
  st_locked i := λ w, (w, Ok (Some (mkHandle i "asana" "42")));
  st_unlock := λ w, (w, Ok tt);
  st_bind p id := λ w, (w, Ok (mkHandle "w" p id));
  st_bind_event i p id e := λ w, (w, Ok (mkEventBinding "e" i p id e));
  st_get_event i e := λ w, (w, Ok None);
  pr_known p := eqb p "asana";
  pr_get p id := λ w, (w, Ok (Some (ex_work w)));
  pr_update p id patch := λ w,
    (mkEx (ex_log w ++ [UpdateSent p id patch]) (ex_apply patch (ex_work w)), Ok tt);
  pr_append p id text := λ w, (mkEx (ex_log w ++ [AppendSent p id text]) (ex_work w), Ok (Some "s1"));
  pr_source_task p id := λ w, (w, Ok None);
  pr_source_stories p id r c l := λ w, (w, Ok None);
  pr_source_story p id s := λ w, (w, Ok (Some (mkStory "s1" "42" None (Some "hello") "t" None)));
  effects := ex_log }.

Instance ex_laws : WorkEnvLaws ExWorld.
Proof. split; reflexivity. Defined.

Definition ex_w : ExWorld :=
  mkEx [] (mkProviderWork "title" "old" false "r1" ex_routing (mkContext None []) true).
Definition ex_authority : LaunchAuthority := mkAuthority "w1" [].
Definition ex_update : WorkUpdateRequest := mkUpdateRequest "w1" "r1" [(F_notes, JStr "new")].
Definition ex_append : WorkAppendRequest := mkAppendRequest "w1" "hello".

Lemma controller_update_witness :
  effects (update ex_authority ex_update ex_w).1 = [UpdateSent "asana" "42" [(F_notes, JStr "new")]] ∧
  ∃ h w1, sent_current "w1" (Some "r1") h ex_w w1 ∧
    update_outcome ex_update h w1 (update ex_authority ex_update ex_w).2.
Proof.
  split; [vm_compute; reflexivity|].
  pose proof (controller_update ex_authority ex_update ex_w) as H.
  destruct (update ex_authority ex_update ex_w) as [w' r] eqn:E.
  destruct H as [[H _]|(h & w1 & _ & Hc & _ & Ho)]; [exfalso | exists h, w1; split; assumption].
  apply (f_equal (λ p, effects p.1)) in E. cbn [fst] in E. rewrite H in E. vm_compute in E. discriminate E.
Defined.

Lemma controller_append_witness :
  effects (append ex_authority ex_append ex_w).1 = [AppendSent "asana" "42" "hello"] ∧
  ∃ h w1, sent_current "w1" None h ex_w w1 ∧
    effects (append ex_authority ex_append ex_w).1 =
      [] ++ [AppendSent (h_provider h) (h_provider_work_id h) "hello"].
Proof.
  split; [vm_compute; reflexivity|].
  pose proof (controller_append ex_authority ex_append ex_w) as H.
  destruct (append ex_authority ex_append ex_w) as [w' r] eqn:E.
  destruct H as [[H _]|(h & w1 & _ & Hc & He & _)]; [exfalso | exists h, w1; split; assumption].
  apply (f_equal (λ p, effects p.1)) in E. cbn [fst] in E. rewrite H in E. vm_compute in E. discriminate E.
Defined.

Lemma controller_reads_witness :
  history ex_authority (mkHistoryRequest "w2" "r1" None 5) ex_w = (ex_w, history_failed s_denied).
Proof.
  apply (controller_reads ex_authority (mkHistoryRequest "w2" "r1" None 5)
    (mkEventRequest "w2" "e" "r1") ex_w). vm_compute. reflexivity.
Defined.
