(* ===== verification/Grants.v ===== *)
(** * Grants, protected requests and guarded outcomes ([grants.py])

    Who may do what: principals, work grants and their currency; the closed
    models of the protected mutations with their validators; and the outcome
    every guarded mutation reports.  The clock is an argument. *)

From S2P Require Import Prelude PyFloat Json Contracts.

Local Open Scope Z_scope.

(** ** Principals and grants *)

Inductive Assurance := test | authenticated.

#[export] Instance Assurance_eq_dec : EqDecision Assurance.
Proof. solve_decision. Defined.

Record PrincipalContext := mkPrincipal {
  p_issuer : string; p_subject : string; p_client_id : string; assurance : Assurance }.

#[export] Instance PrincipalContext_eq_dec : EqDecision PrincipalContext.
Proof. solve_decision. Defined.

Definition assurance_text (a : Assurance) : string :=
  match a with test => "test" | authenticated => "authenticated" end.

(** [PrincipalContext.key]: the digest of [model_dump_json()]. *)
Definition principal_key (p : PrincipalContext) : string :=
  sha256_hex (dumps false false "," ":" (JObj
    [("issuer", JStr (p_issuer p)); ("subject", JStr (p_subject p));
     ("client_id", JStr (p_client_id p)); ("assurance", JStr (assurance_text (assurance p)))])).

Inductive Scope := launch | workspace.

#[export] Instance Scope_eq_dec : EqDecision Scope.
Proof. solve_decision. Defined.

Inductive Operation :=
  | work_get | work_search | work_append | work_create | work_update | work_relate
  | priority_claim | message | agent_task | implementation_request | activation_continuity
  | task_control | file_issue | project_create.

#[export] Instance Operation_eq_dec : EqDecision Operation.
Proof. solve_decision. Defined.

Inductive GrantStatus := g_active | g_revoked | g_terminal.

#[export] Instance GrantStatus_eq_dec : EqDecision GrantStatus.
Proof. solve_decision. Defined.

Record WorkGrant := mkGrant {
  grant_id : uuid; version : Z; principal : PrincipalContext; authority : LaunchAuthority;
  scope : Scope; operations : list Operation; g_issuer : string; provenance : string;
  expires_at : datetime; state : GrantStatus;
  append_qualification : option string; create_qualification : option string;
  report_qualification : option string; update_qualification : option string;
  relation_qualification : option string; priority_claim_qualification : option string }.

(** [WorkGrant.current], at the clock reading [now] (UTC microseconds). *)
Definition grant_current (g : WorkGrant) (now : Z) : bool :=
  eqb (state g) g_active && (now <? dt_us (expires_at g)).

(** [WorkGrant.can_read] *)
Definition grant_can_read (g : WorkGrant) (work_id : uuid) (explicit_target : bool) : bool :=
  if eqb (scope g) workspace then explicit_target
  else authority_can_read (authority g) work_id.

(** [WorkGrant.can_write] *)
Definition grant_can_write (g : WorkGrant) (work_id : uuid) : bool :=
  if eqb (scope g) workspace then true else eqb work_id (active_work_id (authority g)).

(** ** Protected requests *)

(** [re.fullmatch(r"[0-9]+", s)] *)
Definition digits (s : string) : bool := truthy s && all_chars is_digit s.

Definition opt_digits (o : option string) : bool :=
  match o with None => true | Some s => digits s end.

(** The target and capture fields of [ProtectedCreate]. *)
Record ProtectedCreate := mkCreate {
  pc_operation_id : uuid; pc_grant_version : Z; pc_title : string; pc_notes : string;
  pc_priority : string; pc_work_type : string; pc_lifecycle_state : string;
  pc_canonical_root : option string; pc_owner_key : string; pc_wait_kind : string;
  pc_unblock_condition : string; pc_next_due : string; pc_next_action_class : string;
  pc_next_action_ref : string; parent_work_id : option uuid; pc_project_id : option uuid;
  pc_project_gid : option string }.

(** [is_capture] *)
Definition is_capture (c : ProtectedCreate) : bool :=
  eqb [pc_work_type c; pc_lifecycle_state c; pc_owner_key c; pc_wait_kind c;
       pc_unblock_condition c; pc_next_due c; pc_next_action_class c; pc_next_action_ref c]
      ["Task"; "WAITING"; "NONE"; "TRIAGE"; "ASSIGNMENT_REQUIRED"; "UNSCHEDULED"; "NONE"; "NONE"].

(** The number of targets named. *)
Definition targets (c : ProtectedCreate) : Z :=
  zsum (λ b : bool, if b then 1 else 0)
    [is_some (parent_work_id c); is_some (pc_project_id c); is_some (pc_project_gid c)].

Definition create_fields_ok (c : ProtectedCreate) : bool :=
  (1 <=? pc_grant_version c) && truthy (pc_title c) && (py_len (pc_title c) <=? 500)
  && (py_len (pc_notes c) <=? 8000) && truthy (pc_priority c) && truthy (pc_work_type c)
  && mem (pc_lifecycle_state c) lifecycle_states && opt_nonempty (pc_canonical_root c)
  && truthy (pc_owner_key c) && truthy (pc_wait_kind c) && truthy (pc_unblock_condition c)
  && truthy (pc_next_due c) && truthy (pc_next_action_class c) && truthy (pc_next_action_ref c)
  && opt_digits (pc_project_gid c).

(** [ProtectedCreate.model_validate] with [one_target]. *)
Definition ProtectedCreate_validate (c : ProtectedCreate) : res ProtectedCreate :=
  if negb (create_fields_ok c) then raise ValueError "validation error"
  else if negb (targets c =? 1) && negb ((targets c =? 0) && is_capture c)
  then raise ValueError "create requires exactly one parent or project target"
  else Ok c.

(** [ProtectedAppend] *)
Record ProtectedAppend := mkAppend {
  pa_operation_id : uuid; pa_work_id : uuid; pa_grant_version : Z; pa_observed_revision : string;
  pa_text : string; pa_confirm : bool }.

Definition ProtectedAppend_validate (q : ProtectedAppend) : res ProtectedAppend :=
  raise_if (negb ((1 <=? pa_grant_version q) && truthy (pa_observed_revision q) && truthy (pa_text q)
                  && (py_len (pa_text q) <=? 8000))) ValueError "validation error";;
  Ok q.

(** [ProtectedProjectCreate] *)
Record ProtectedProjectCreate := mkProjectCreate {
  pp_operation_id : uuid; pp_grant_version : Z; pp_name : string }.

Definition ProtectedProjectCreate_validate (q : ProtectedProjectCreate) : res ProtectedProjectCreate :=
  raise_if (negb (1 <=? pp_grant_version q)) ValueError "validation error";;
  Ok q.

Inductive FeedbackClassification := NEW | AMEND | DUPLICATE | SUB_ITEM | RELATED.

#[export] Instance FeedbackClassification_eq_dec : EqDecision FeedbackClassification.
Proof. solve_decision. Defined.

Inductive CodeReconciliation := FIXED | CANDIDATE_EXISTS | IN_PROGRESS | NO_MATCHING_CHANGE.

Record ProtectedFeedbackClassification := mkFeedback {
  fc_operation_id : uuid; fc_grant_version : Z; source_work_id : uuid;
  observed_source_revision : string; classification : FeedbackClassification;
  fc_target_work_id : option uuid; observed_target_revision : option string;
  code_status : option CodeReconciliation; fork_runtime_seconds : option float;
  critical_path_wait_seconds : option float }.

Definition opt_nonneg (o : option float) : bool :=
  match o with None => true | Some f => fgeb_Z f 0 end.

(** [ProtectedFeedbackClassification.model_validate] with [exact_target]. *)
Definition ProtectedFeedbackClassification_validate (c : ProtectedFeedbackClassification)
  : res ProtectedFeedbackClassification :=
  let targeted := negb (eqb (classification c) NEW) in
  if negb ((1 <=? fc_grant_version c) && truthy (observed_source_revision c)
           && opt_nonempty (observed_target_revision c)
           && opt_nonneg (fork_runtime_seconds c) && opt_nonneg (critical_path_wait_seconds c))
  then raise ValueError "validation error"
  else if xorb targeted (is_some (fc_target_work_id c))
       || xorb targeted (is_some (observed_target_revision c))
  then raise ValueError "classification target revision does not match class"
  else if eqb (fc_target_work_id c) (Some (source_work_id c))
  then raise ValueError "feedback cannot target itself"
  else if xorb (is_none (code_status c))
            (is_none (fork_runtime_seconds c) || is_none (critical_path_wait_seconds c))
  then raise ValueError "code status requires both timings"
  else Ok c.

(** One field of [ScalarPatch]. *)
Definition scalar_field_ok (f : Field) (v : json) : bool :=
  match f, v with
  | (F_horizon | F_stage3_gate), _ => false
  | F_review_next_action, JStr s => truthy s
  | _, _ => work_field_ok f v
  end.

(** [ScalarPatch.model_validate] with [nonempty]. *)
Definition ScalarPatch_validate (p : Patch) : res Patch :=
  raise_if (negb (no_dup (fields_set p) && forallb (λ fv, scalar_field_ok fv.1 fv.2) p))
    ValueError "validation error";;
  patch_checks p;;
  mret p.

(** [ProtectedUpdate] *)
Record ProtectedUpdate := mkUpdate {
  pu_operation_id : uuid; pu_work_id : uuid; pu_grant_version : Z; pu_observed_revision : string;
  pu_patch : Patch; pu_confirm : bool }.

Definition ProtectedUpdate_validate (q : ProtectedUpdate) : res ProtectedUpdate :=
  raise_if (negb ((1 <=? pu_grant_version q) && truthy (pu_observed_revision q))) ValueError "validation error";;
  ScalarPatch_validate (pu_patch q);;
  Ok q.

(** ** Relations *)

Inductive RelationKind := k_assignee | k_placement | k_parent | k_dependency | k_pull_request.
Inductive RelationAction := a_set | a_clear | a_add | a_remove | a_move.

#[export] Instance RelationKind_eq_dec : EqDecision RelationKind.
Proof. solve_decision. Defined.
#[export] Instance RelationAction_eq_dec : EqDecision RelationAction.
Proof. solve_decision. Defined.

(** [PullRequestChange] of [pull_requests.py]. *)
Record PullRequestChange := mkPullRequest {
  repository : string; number : Z; expected_version : option Z; recipient_key : option string;
  acceptance_delivery_id : option uuid; package_ref : string }.

(** [PullRequestRecord] of [pull_requests.py]. *)
Record PullRequestRecord := mkPullRecord {
  pr_repository : string; pr_number : Z; pr_owner_key : string; pr_row_version : Z;
  pr_acceptance_ref : string }.

Record RelationPatch := mkRelation {
  kind : RelationKind; action : RelationAction; target_work_id : option uuid;
  project_id : option uuid; assignee_gid : option string; project_gid : option string;
  section_gid : option string; pull_request : option PullRequestChange }.

(** [valid_relation], branch by branch; [None] returns the model. *)
Definition pr_relation_error (p : RelationPatch) : option string :=
  match pull_request p with
  | Some transfer =>
      if negb (mem (action p) [a_add; a_remove; a_set])
         || is_some (target_work_id p) || is_some (project_id p) || is_some (assignee_gid p)
         || is_some (project_gid p) || is_some (section_gid p)
      then Some "PR relation requires only PR identity and add/remove/set"
      else if eqb (action p) a_set then
        if is_none (expected_version transfer) || is_none (recipient_key transfer)
           || is_none (acceptance_delivery_id transfer)
        then Some "PR transfer requires version, recipient and acceptance" else None
      else if is_some (recipient_key transfer) || is_some (acceptance_delivery_id transfer)
      then Some "ownership fields require set" else None
  | None => Some "PR relation requires only PR identity and add/remove/set"
  end.

Definition assignee_error (p : RelationPatch) : option string :=
  if negb (mem (action p) [a_set; a_clear]) then Some "assignee relation requires set or clear"
  else if xorb (eqb (action p) a_set) (is_some (assignee_gid p))
  then Some "assignee target does not match action"
  else if is_some (target_work_id p) || is_some (project_id p) || is_some (project_gid p)
       || is_some (section_gid p)
  then Some "assignee relation forbids unrelated fields" else None.

Definition placement_error (p : RelationPatch) : option string :=
  let canonical := is_some (project_id p) in
  let provider := is_some (project_gid p) in
  if Bool.eqb canonical provider then Some "placement requires exactly one project identity"
  else if canonical then
    if negb (mem (action p) [a_add; a_remove]) || is_some (target_work_id p)
       || is_some (assignee_gid p) || is_some (project_gid p) || is_some (section_gid p)
    then Some "canonical placement requires project and add/remove" else None
  else if negb (mem (action p) [a_add; a_move; a_remove]) || is_some (target_work_id p)
       || is_some (assignee_gid p) || (eqb (action p) a_remove && is_some (section_gid p))
  then Some "provider placement fields do not match action" else None.

Definition parent_error (p : RelationPatch) : option string :=
  if negb (mem (action p) [a_set; a_clear]) then Some "parent relation requires set or clear"
  else if xorb (eqb (action p) a_set) (is_some (target_work_id p))
  then Some "parent target does not match action"
  else if is_some (project_id p) || is_some (assignee_gid p) || is_some (project_gid p)
       || is_some (section_gid p)
  then Some "parent relation forbids unrelated fields" else None.

Definition dependency_error (p : RelationPatch) : option string :=
  if negb (mem (action p) [a_add; a_remove]) || is_none (target_work_id p)
  then Some "dependency relation requires target and add/remove"
  else if is_some (project_id p) || is_some (assignee_gid p) || is_some (project_gid p)
       || is_some (section_gid p)
  then Some "dependency relation forbids unrelated fields" else None.

Definition relation_error (p : RelationPatch) : option string :=
  match kind p with
  | k_pull_request => pr_relation_error p
  | k =>
      if is_some (pull_request p) then Some "unrelated PR fields"
      else match k with
           | k_assignee => assignee_error p
           | k_placement => placement_error p
           | k_parent => parent_error p
           | _ => dependency_error p
           end
  end.

(** [RelationPatch.model_validate]; the nested pull request is validated by its
    own model. *)
Definition RelationPatch_validate (p : RelationPatch) : res RelationPatch :=
  if negb (opt_digits (assignee_gid p) && opt_digits (project_gid p) && opt_digits (section_gid p))
  then raise ValueError "validation error"
  else match relation_error p with
       | Some msg => raise ValueError msg
       | None => Ok p
       end.

(** [ProtectedRelation] *)
Record ProtectedRelation := mkRelate {
  rl_operation_id : uuid; rl_work_id : uuid; rl_grant_version : Z; rl_observed_revision : string;
  rl_patch : RelationPatch; rl_confirm : bool }.

Definition ProtectedRelation_validate (q : ProtectedRelation) : res ProtectedRelation :=
  raise_if (negb ((1 <=? rl_grant_version q) && truthy (rl_observed_revision q))) ValueError "validation error";;
  RelationPatch_validate (rl_patch q);;
  Ok q.

(** ** Receipts and outcomes *)

Record ReceiptHead := mkHead {
  r_operation_id : uuid; r_principal : PrincipalContext; r_grant_id : uuid; r_grant_version : Z }.

Inductive Receipt :=
  | EffectReceipt (h : ReceiptHead) (work_id : uuid) (provider task_gid story_gid text qualification : string)
  | CreateReceipt (h : ReceiptHead) (work_id : uuid) (provider task_gid : string)
      (parent_task_gid project_gid : option string) (title qualification : string)
  | RelationReceipt (h : ReceiptHead) (work_id : uuid) (provider task_gid observed_revision : string)
      (patch : RelationPatch) (qualification : string) (pull_request : option PullRequestRecord)
  | UpdateReceipt (h : ReceiptHead) (work_id : uuid) (provider task_gid observed_revision
      resulting_revision : string) (patch : Patch) (qualification : string)
  | FeedbackClassificationReceipt (h : ReceiptHead) (work_id : uuid) (task_gid observed_revision
      resulting_revision : string) (c : FeedbackClassification) (target : option uuid)
      (qualification : string)
  | PriorityClaimReceipt (h : ReceiptHead) (work_id : option uuid) (set : bool) (subject_is_work : bool)
      (subject_id claim_id : uuid) (supersedes cleared : option uuid)
      (source_observed_revision : option string) (qualification : string)
  | ProjectCreateReceipt (h : ReceiptHead) (project_id : uuid) (name qualification : string).

Inductive OutcomeStatus := o_ok | o_denied | o_stale | o_not_applied | o_unknown | o_confirm_required.
Inductive EffectTruth := not_sent | applied | unknown.
Inductive Retry := r_none | r_refresh | r_reconcile.

#[export] Instance OutcomeStatus_eq_dec : EqDecision OutcomeStatus.
Proof. solve_decision. Defined.
#[export] Instance EffectTruth_eq_dec : EqDecision EffectTruth.
Proof. solve_decision. Defined.
#[export] Instance Retry_eq_dec : EqDecision Retry.
Proof. solve_decision. Defined.

Record EffectOutcomeView := mkView {
  v_status : OutcomeStatus; v_reason : string; v_effect : EffectTruth; v_retry : Retry }.

Record EffectBlocker := mkBlocker {
  bl_operation : string; bl_operation_id : uuid; bl_work_id : uuid; bl_outcome : EffectOutcomeView }.

Record GuardOutcome := mkOutcome {
  status : OutcomeStatus; operation : string; work_id : option uuid; operation_id : option uuid;
  reason : string; effect : EffectTruth; retry : Retry; next_action : string;
  receipt : option Receipt; blocked_by : option EffectBlocker }.

(** [GuardOutcome(...)] with [exact_receipt]. *)
Definition GuardOutcome_validate (o : GuardOutcome) : res GuardOutcome :=
  if eqb (effect o) applied && (negb (eqb (status o) o_ok) || is_none (receipt o))
  then raise ValueError "applied outcome requires an exact receipt"
  else if is_some (receipt o) && (negb (eqb (effect o) applied) || negb (eqb (status o) o_ok))
  then raise ValueError "only a successful applied outcome can claim a receipt"
  else if is_some (blocked_by o)
          && (negb (eqb (status o) o_unknown) || negb (eqb (effect o) not_sent)
              || negb (eqb (retry o) r_none))
  then raise ValueError "a blocked request must remain explicitly unsent"
  else Ok o.

(** ** Properties *)

(** The relations a patch can mean. *)
Inductive Relation :=
  | SetAssignee (gid : string)
  | ClearAssignee
  | PlaceCanonical (add : bool) (project : uuid)
  | AddProvider (gid : string) (section : option string)
  | MoveProvider (gid : string) (section : option string)
  | RemoveProvider (gid : string)
  | SetParent (target : uuid)
  | ClearParent
  | Depend (add : bool) (target : uuid)
  | ChangePullRequest (add : bool) (pr : PullRequestChange)
  | TransferPullRequest (pr : PullRequestChange).

Definition add_remove (add : bool) : RelationAction := if add then a_add else a_remove.

(** The patch that expresses a relation. *)
Definition encode_relation (r : Relation) : RelationPatch :=
  match r with
  | SetAssignee gid => mkRelation k_assignee a_set None None (Some gid) None None None
  | ClearAssignee => mkRelation k_assignee a_clear None None None None None None
  | PlaceCanonical b p => mkRelation k_placement (add_remove b) None (Some p) None None None None
  | AddProvider g s => mkRelation k_placement a_add None None None (Some g) s None
  | MoveProvider g s => mkRelation k_placement a_move None None None (Some g) s None
  | RemoveProvider g => mkRelation k_placement a_remove None None None (Some g) None None
  | SetParent t => mkRelation k_parent a_set (Some t) None None None None None
  | ClearParent => mkRelation k_parent a_clear None None None None None None
  | Depend b t => mkRelation k_dependency (add_remove b) (Some t) None None None None None
  | ChangePullRequest b pr =>
      mkRelation k_pull_request (add_remove b) None None None None None (Some pr)
  | TransferPullRequest pr => mkRelation k_pull_request a_set None None None None None (Some pr)
  end.

(** What a relation requires of its own data. *)
Definition relation_ok (r : Relation) : bool :=
  match r with
  | SetAssignee gid => digits gid
  | AddProvider g s | MoveProvider g s => digits g && opt_digits s
  | RemoveProvider g => digits g
  | ChangePullRequest _ pr => is_none (recipient_key pr) && is_none (acceptance_delivery_id pr)
  | TransferPullRequest pr =>
      is_some (expected_version pr) && is_some (recipient_key pr)
      && is_some (acceptance_delivery_id pr)
  | _ => true
  end.

Lemma encode_relation_valid r :
  relation_ok r = true → RelationPatch_validate (encode_relation r) = Ok (encode_relation r).
Proof.
  destruct r as [g| |b p|g s|g s|g|t| |b t|b pr|pr]; try destruct b; cbn; intros H; try done;
    unfold RelationPatch_validate; cbn; to_prop; rewrite ?H; try done.
  - destruct H as [-> H]. by rewrite H.
  - destruct H as [-> H]. by rewrite H.
  - destruct H as [H1 H2]. unfold relation_error, pr_relation_error; cbn.
    by destruct (recipient_key pr), (acceptance_delivery_id pr).
  - destruct H as [H1 H2]. unfold relation_error, pr_relation_error; cbn.
    by destruct (recipient_key pr), (acceptance_delivery_id pr).
  - destruct H as [[H1 H2] H3]. unfold relation_error, pr_relation_error; cbn.
    by destruct (expected_version pr), (recipient_key pr), (acceptance_delivery_id pr).
Qed.

(** The relation a patch expresses. *)
Definition decode_relation (p : RelationPatch) : option Relation :=
  match kind p, action p, target_work_id p, project_id p, assignee_gid p, project_gid p, pull_request p with
  | k_assignee, a_set, _, _, Some g, _, _ => Some (SetAssignee g)
  | k_assignee, a_clear, _, _, _, _, _ => Some ClearAssignee
  | k_placement, a_add, _, Some p, _, _, _ => Some (PlaceCanonical true p)
  | k_placement, a_remove, _, Some p, _, _, _ => Some (PlaceCanonical false p)
  | k_placement, a_add, _, _, _, Some g, _ => Some (AddProvider g (section_gid p))
  | k_placement, a_move, _, _, _, Some g, _ => Some (MoveProvider g (section_gid p))
  | k_placement, a_remove, _, _, _, Some g, _ => Some (RemoveProvider g)
  | k_parent, a_set, Some t, _, _, _, _ => Some (SetParent t)
  | k_parent, a_clear, _, _, _, _, _ => Some ClearParent
  | k_dependency, a_add, Some t, _, _, _, _ => Some (Depend true t)
  | k_dependency, a_remove, Some t, _, _, _, _ => Some (Depend false t)
  | k_pull_request, a_add, _, _, _, _, Some pr => Some (ChangePullRequest true pr)
  | k_pull_request, a_remove, _, _, _, _, Some pr => Some (ChangePullRequest false pr)
  | k_pull_request, a_set, _, _, _, _, Some pr => Some (TransferPullRequest pr)
  | _, _, _, _, _, _, _ => None
  end.

Lemma valid_relation_decodes p :
  RelationPatch_validate p = Ok p →
  ∃ r, decode_relation p = Some r ∧ p = encode_relation r ∧ relation_ok r = true.
Proof.
  unfold RelationPatch_validate. destruct (negb _) eqn:Hd; [done|].
  rewrite negb_false_iff, !andb_true_iff in Hd.
  destruct (relation_error p) eqn:He; [done|]. intros _. revert Hd He.
  destruct p as [k a t pj ag pg sg pr]; cbn. intros [[Ha Hp] Hs].
  unfold relation_error, pr_relation_error, assignee_error, placement_error, parent_error,
    dependency_error; destruct k; cbn.
  - destruct pr; [done|]. destruct a; try done; destruct ag, t, pj, pg, sg; try done; eauto.
  - destruct pr; [done|]. destruct pj, pg; try done; destruct a; try done;
      destruct t, ag, sg; cbn in *; try done; intros _; eexists; repeat split; cbn;
      rewrite ?Hp, ?Hs; done.
  - destruct pr; [done|]. destruct a; try done; destruct t, pj, ag, pg, sg; try done; eauto.
  - destruct pr; [done|]. destruct a; try done; destruct t, pj, ag, pg, sg; try done; eauto.
  - destruct pr as [pr|]; [|done]. destruct a; try done; destruct t, pj, ag, pg, sg; try done; cbn;
      destruct (expected_version pr) eqn:E1, (recipient_key pr) eqn:E2,
        (acceptance_delivery_id pr) eqn:E3; try done; intros _;
      eexists; repeat split; cbn; rewrite ?E1, ?E2, ?E3; done.
Qed.

(** A relation patch is accepted exactly when it expresses one of the
    relations of the model: the validator's branches admit precisely the
    encodings of well-formed relations, no other combination of fields, and
    the relation can be read back from an accepted patch. *)
Theorem relation_patch_valid p :
  (RelationPatch_validate p = Ok p ↔ ∃ r, p = encode_relation r ∧ relation_ok r = true) ∧
  ∀ r, relation_ok r = true → decode_relation (encode_relation r) = Some r.
Proof.
  split.
  - split; [intros (r & _ & Hr)%valid_relation_decodes; eauto|].
    intros (r & -> & Hr). by apply encode_relation_valid.
  - intros r. by destruct r as [| |[]| | | | | |[]|[]|].
Qed.

(** What an outcome may claim.  A guarded outcome the model accepts claims
    an applied effect exactly when it carries a receipt, only a successful one
    does, and an outcome that names a blocking effect says that it sent
    nothing and must not be retried. *)
Theorem outcome_claims o :
  GuardOutcome_validate o = Ok o ↔
  (effect o = applied ↔ is_some (receipt o) = true) ∧
  (effect o = applied → status o = o_ok) ∧
  (is_some (blocked_by o) = true → status o = o_unknown ∧ effect o = not_sent ∧ retry o = r_none).
Proof.
  assert (H : GuardOutcome_validate o = Ok o ↔
    (effect o = applied → status o = o_ok ∧ is_some (receipt o) = true) ∧
    (is_some (receipt o) = true → effect o = applied ∧ status o = o_ok) ∧
    (is_some (blocked_by o) = true → status o = o_unknown ∧ effect o = not_sent ∧ retry o = r_none));
    [|by rewrite H; intuition].
  unfold GuardOutcome_validate, is_some. destruct (is_none (receipt o)), (is_none (blocked_by o)); cbn;
    rewrite ?andb_true_r, ?andb_false_r, ?orb_true_r, ?orb_false_r;
    destruct (effect o), (status o), (retry o); cbn; split; try done; intuition congruence.
Qed.
