(* ===== verification/GrantState.v ===== *)
(** * Grant and effect-intent storage ([grant_state.py])

    Two tables: the current grant of each principal, replaced by versioned
    compare-and-swap, and the journal of mutation effects, one row per
    operation identifier, written before a mutation is sent and resolved
    after.  [EffectJournal] is what the journal promises to the code that
    sends mutations, and the instance at the end discharges it for this
    storage over a database that may fail at any call. *)

From S2P Require Import Prelude Json Contracts Grants.

Local Open Scope Z_scope.

(** ** The tables *)

Record EffectRow := mkRow {
  fingerprint : string; principal_key_ : string; e_work_id : string; e_grant_id : uuid;
  e_grant_version : Z; intent : json; outcome : GuardOutcome }.

Record GrantDB := mkDB {
  work_grants : gmap string (option WorkGrant);   (* by principal key *)
  effect_intents : gmap string EffectRow }.       (* by operation identifier *)

Definition with_grants (m : gmap string (option WorkGrant)) (d : GrantDB) : GrantDB :=
  mkDB m (effect_intents d).
Definition with_intents (m : gmap string EffectRow) (d : GrantDB) : GrantDB :=
  mkDB (work_grants d) m.

Record EffectRecord := mkRecord {
  er_principal_key : string; er_fingerprint : string; er_grant_id : uuid;
  er_grant_version : Z; er_intent : json; er_outcome : GuardOutcome }.

(** [str(x)] of a [UUID | None]. *)
Definition str_opt (o : option uuid) : string := default "None" o.

Definition is_unknown (r : EffectRow) : bool := eqb (effect (outcome r)) unknown.

(** ** Grants *)

(** [GrantState.current] *)
Definition current (key : string) : M GrantDB (option WorkGrant) := λ d,
  (d, Ok (default None (work_grants d !! key))).

(** The stored grants, in some order. *)
Definition stored_grants (d : GrantDB) : list WorkGrant := omap id (values (work_grants d)).

(** [current_for_active_work] *)
Definition current_for_active_work (work : uuid) (now : Z) : M GrantDB (option WorkGrant) := λ d,
  let matches := List.filter (λ g,
    grant_current g now && eqb (active_work_id (authority g)) work) (stored_grants d) in
  match matches with
  | [] => (d, Ok None)
  | [g] => (d, Ok (Some g))
  | _ => (d, raise ValueError "multiple current grants own the same active work")
  end.

(** [for_active_work] *)
Definition for_active_work (work : uuid) : M GrantDB (list WorkGrant) := λ d,
  (d, Ok (List.filter (λ g, eqb (active_work_id (authority g)) work) (stored_grants d))).

(** [locked_message_route]: the sender's grant and the unique recipient. *)
Definition locked_message_route (key : string) (recipient : option uuid) (now : Z)
  : M GrantDB (option WorkGrant * option WorkGrant) := λ d,
  let sender := last (List.filter (λ g, eqb (principal_key (principal g)) key) (stored_grants d)) in
  let matches := List.filter (λ g,
    grant_current g now && mem message (operations g)
    && eqb (Some (active_work_id (authority g))) recipient) (stored_grants d) in
  (d, Ok (sender, match matches with [g] => Some g | _ => None end)).

(** [GrantState.issue] *)
Definition issue (g : WorkGrant) (expected : option Z) : M GrantDB unit :=
  let key := principal_key (principal g) in
  transaction (
    d ← get_st;
    put_st (match work_grants d !! key with
            | Some _ => d
            | None => with_grants (<[key := None]> (work_grants d)) d
            end);;
    d ← get_st;
    let old := default None (work_grants d !! key) in
    throw_if (negb (eqb (version <$> old) expected)) ValueError "stale grant issuance";;
    throw_if (negb (version g =? default 0 expected + 1)) ValueError
      "grant version must advance exactly once";;
    put_st (with_grants (<[key := Some g]> (work_grants d)) d)).

(** [GrantState.locked]: the grant read under the row lock. *)
Definition locked_grant (key : string) : M GrantDB (option WorkGrant) := current key.

(** ** The effect journal *)

(** [exact]; a row's intent is a JSON object. *)
Definition exact (op : uuid) : M GrantDB (option EffectRecord) := λ d,
  match effect_intents d !! op with
  | None => (d, Ok None)
  | Some r =>
      match intent r with
      | JObj _ =>
          (d, o ← GuardOutcome_validate (outcome r);
              Ok (Some (mkRecord (principal_key_ r) (fingerprint r) (e_grant_id r)
                          (e_grant_version r) (intent r) o)))
      | _ => (d, raise TypeError "effect intent invalid")
      end
  end.

(** [previous]: the row of the operation, or any unresolved row of the work. *)
Definition previous (op work : uuid) : M GrantDB (option (string * string * GuardOutcome)) := λ d,
  let rows := List.filter (λ kr : string * EffectRow,
    eqb kr.1 op || (eqb (e_work_id kr.2) work && is_unknown kr.2))
    (map_to_list (effect_intents d)) in
  match rows with
  | [] => (d, Ok None)
  | first :: _ =>
      let row := default first (List.find (λ kr, eqb kr.1 op) rows) in
      (d, o ← GuardOutcome_validate (outcome row.2);
          Ok (Some (principal_key_ row.2, fingerprint row.2, o)))
  end.

(** [unresolved_effect_ids] *)
Definition unresolved_effect_ids (work : uuid) (d : GrantDB) : list string :=
  py_sort str_leb (fst <$> List.filter (λ kr : string * EffectRow,
    eqb (e_work_id kr.2) work && is_unknown kr.2) (map_to_list (effect_intents d))).

(** [unresolved_create] *)
Definition unresolved_create (parent : uuid) (d : GrantDB) : bool :=
  existsb (λ r,
    is_unknown r &&
    match intent r with
    | JObj kvs =>
        match assoc "request" kvs with
        | Some (JObj request) => eqb (assoc "parent_work_id" request) (Some (JStr parent))
        | _ => false
        end
    | _ => false
    end) (values (effect_intents d)).

(** [created_work_allowed] *)
Definition created_work_allowed (key : string) (work : uuid) (d : GrantDB) : bool :=
  existsb (λ r, eqb (principal_key_ r) key && eqb (e_work_id r) work
                && eqb (operation (outcome r)) "work_create" && eqb (effect (outcome r)) applied)
    (values (effect_intents d)).

Definition new_row (request : json) (g : WorkGrant) (fp : string) (o : GuardOutcome) : EffectRow :=
  mkRow fp (principal_key (principal g)) (str_opt (work_id o)) (grant_id g) (version g) request o.

(** [prepare]: a transaction of its own. *)
Definition prepare (request : json) (g : WorkGrant) (fp : string) (unk : GuardOutcome)
  : M GrantDB unit := λ d,
  let op := str_opt (operation_id unk) in
  match effect_intents d !! op with
  | Some _ => (d, raise IntegrityError "effect_intents_pkey")
  | None => (with_intents (<[op := new_row request g fp unk]> (effect_intents d)) d, Ok tt)
  end.

Definition with_outcome (r : EffectRow) (o : GuardOutcome) : EffectRow :=
  mkRow (fingerprint r) (principal_key_ r) (e_work_id r) (e_grant_id r) (e_grant_version r)
    (intent r) o.

(** [finish] *)
Definition finish (o : GuardOutcome) : M GrantDB unit := λ d,
  let op := str_opt (operation_id o) in
  match effect_intents d !! op with
  | None => (d, raise ValueError "effect intent missing")
  | Some r => (with_intents (<[op := with_outcome r o]> (effect_intents d)) d, Ok tt)
  end.

(** ** What the journal promises *)

Class EffectJournal (W : Type) := {
  j_lock : string → uuid → M W (option WorkGrant);
  j_unlock : M W unit;
  j_exact : uuid → M W (option EffectRecord);
  j_previous : uuid → uuid → M W (option (string * string * GuardOutcome));
  j_prepare : json → WorkGrant → string → GuardOutcome → M W unit;
  j_finish : GuardOutcome → M W unit;
  j_rows : W → gmap string EffectRow }.

(** The record [exact] reads from a row. *)
Definition record_of (r : EffectRow) : EffectRecord :=
  mkRecord (principal_key_ r) (fingerprint r) (e_grant_id r) (e_grant_version r) (intent r) (outcome r).

Class EffectJournalLaws (W : Type) `{!EffectJournal W} := {
  lock_rows key work w : j_rows (j_lock key work w).1 = j_rows w;
  unlock_rows w : j_rows (j_unlock w).1 = j_rows w;
  exact_rows op w : j_rows (j_exact op w).1 = j_rows w;
  exact_reads op w o : (j_exact op w).2 = Ok o → o = record_of <$> j_rows w !! op;
  previous_rows op work w : j_rows (j_previous op work w).1 = j_rows w;
  previous_none op work w : (j_previous op work w).2 = Ok None →
    ∀ k r, j_rows w !! k = Some r → k ≠ op ∧ (e_work_id r = work → is_unknown r = false);
  previous_some op work w x : (j_previous op work w).2 = Ok (Some x) →
    ∃ k r, j_rows w !! k = Some r ∧ x.2 = outcome r ∧
      (k = op ∨ e_work_id r = work ∧ is_unknown r = true);
  prepare_ok i g fp u w : (j_prepare i g fp u w).2 = Ok tt →
    j_rows w !! str_opt (operation_id u) = None ∧
    j_rows (j_prepare i g fp u w).1 = <[str_opt (operation_id u) := new_row i g fp u]> (j_rows w);
  prepare_err i g fp u w e : (j_prepare i g fp u w).2 = Err e →
    j_rows (j_prepare i g fp u w).1 = j_rows w;
  finish_ok o w : (j_finish o w).2 = Ok tt →
    ∃ r, j_rows w !! str_opt (operation_id o) = Some r ∧
      j_rows (j_finish o w).1 = <[str_opt (operation_id o) := with_outcome r o]> (j_rows w);
  finish_err o w e : (j_finish o w).2 = Err e → j_rows (j_finish o w).1 = j_rows w }.

(** ** The implementation *)

(** The database and, for each coming call, whether it fails. *)
Record World := mkWorld { w_db : GrantDB; faults : list bool }.

(** One database call: it may fail before it has any effect. *)
Definition db_call {A} (m : M GrantDB A) : M World A := λ w,
  match faults w with
  | true :: fs => (mkWorld (w_db w) fs, raise SQLAlchemyError "unavailable")
  | fs => let '(d, r) := m (w_db w) in (mkWorld d (tail fs), r)
  end.

#[export] Instance postgres_journal : EffectJournal World := {
  j_lock key work := db_call (locked_grant key);
  j_unlock := db_call (mret tt);
  j_exact op := db_call (exact op);
  j_previous op work := db_call (previous op work);
  j_prepare i g fp u := db_call (prepare i g fp u);
  j_finish o := db_call (finish o);
  j_rows w := effect_intents (w_db w) }.

(** ** Properties *)

Lemma GuardOutcome_validate_eq o o' : GuardOutcome_validate o = Ok o' → o' = o.
Proof. unfold GuardOutcome_validate. repeat case_match; naive_solver. Qed.

(** A call whose method leaves the journal alone leaves it alone when it
    fails, too. *)
Lemma db_call_rows {A} (m : M GrantDB A) w :
  (∀ d, effect_intents (m d).1 = effect_intents d) →
  effect_intents (w_db (db_call m w).1) = effect_intents (w_db w).
Proof.
  intros Hm. unfold db_call. destruct (faults w) as [|[] fs]; [| done |];
    specialize (Hm (w_db w)); by destruct (m (w_db w)).
Qed.

Lemma db_call_Ok {A} (m : M GrantDB A) w a :
  (db_call m w).2 = Ok a → m (w_db w) = (w_db (db_call m w).1, Ok a).
Proof.
  unfold db_call. destruct (faults w) as [|[] fs]; [| done |];
    destruct (m (w_db w)) as [d r]; cbn; by intros ->.
Qed.

Lemma previous_cases op work d :
  (previous op work d).1 = d ∧
  match (previous op work d).2 with
  | Ok None => ∀ k r, effect_intents d !! k = Some r →
      k ≠ op ∧ (e_work_id r = work → is_unknown r = false)
  | Ok (Some x) => ∃ k r, effect_intents d !! k = Some r ∧ x.2 = outcome r ∧
      (k = op ∨ e_work_id r = work ∧ is_unknown r = true)
  | Err _ => True
  end.
Proof.
  unfold previous. set (p := λ kr : string * EffectRow, _).
  destruct (List.filter p (map_to_list (effect_intents d))) as [|first rest] eqn:Hf; cbn.
  - split; [done|]. intros k r Hr. apply elem_of_map_to_list in Hr.
    assert (Hp : ¬ In (k, r) (List.filter p (map_to_list (effect_intents d)))) by (rewrite Hf; auto).
    rewrite filter_In, <- list_elem_of_In in Hp. unfold p in Hp. cbn in Hp.
    destruct (eqb k op) eqn:E1, (eqb (e_work_id r) work) eqn:E2, (is_unknown r); to_prop; naive_solver.
  - set (row := default first _).
    assert (Hin : In row (List.filter p (map_to_list (effect_intents d)))).
    { rewrite Hf. unfold row. case_match eqn:E; cbn; [by left|].
      destruct (List.find _ rest) eqn:E2; cbn; [|by left]. apply find_some in E2 as [E2 _]. by right. }
    split; [by destruct (GuardOutcome_validate (outcome row.2))|].
    destruct (GuardOutcome_validate (outcome row.2)) eqn:Hv; cbn; [|done].
    apply GuardOutcome_validate_eq in Hv as ->.
    apply filter_In in Hin as [Hin Hp]. apply list_elem_of_In in Hin.
    destruct row as [k r]. apply elem_of_map_to_list in Hin. exists k, r. cbn.
    unfold p in Hp. cbn in Hp. to_prop. tauto.
Qed.

Lemma prepare_Ok i g fp u d d' :
  prepare i g fp u d = (d', Ok tt) →
  effect_intents d !! str_opt (operation_id u) = None ∧
  d' = with_intents (<[str_opt (operation_id u) := new_row i g fp u]> (effect_intents d)) d.
Proof. unfold prepare. intros H. by repeat case_match; simplify_eq/=. Qed.

Lemma issue_intents g v d : effect_intents (issue g v d).1 = effect_intents d.
Proof.
  unfold issue, transaction, mbind, M_bind, get_st, put_st, throw_if, raise_if.
  destruct (work_grants d !! _); cbn; repeat case_match; simplify_eq; done.
Qed.

Lemma finish_Ok o d d' :
  finish o d = (d', Ok tt) →
  ∃ r, effect_intents d !! str_opt (operation_id o) = Some r ∧
    d' = with_intents (<[str_opt (operation_id o) := with_outcome r o]> (effect_intents d)) d.
Proof. unfold finish. intros H. repeat case_match; simplify_eq/=; eauto. Qed.

#[export] Instance postgres_journal_laws : EffectJournalLaws World.
Proof.
  split; cbn; intros.
  - by apply db_call_rows.
  - by apply db_call_rows.
  - apply db_call_rows. intros d. unfold exact. by repeat case_match.
  - apply db_call_Ok in H. unfold exact in H. destruct (effect_intents (w_db w) !! op) as [r|]; cbn.
    + destruct (intent r) eqn:Hi; simplify_eq/=.
      destruct (GuardOutcome_validate (outcome r)) eqn:Hv; simplify_eq/=.
      apply GuardOutcome_validate_eq in Hv as ->. unfold record_of. by rewrite Hi.
    + by simplify_eq.
  - apply db_call_rows. intros d. by rewrite (proj1 (previous_cases op work d)).
  - apply db_call_Ok in H. pose proof (proj2 (previous_cases op work (w_db w))) as Hp.
    rewrite H in Hp. by apply (Hp k).
  - apply db_call_Ok in H. pose proof (proj2 (previous_cases op work (w_db w))) as Hp.
    by rewrite H in Hp.
  - apply db_call_Ok, prepare_Ok in H as [? ->]. done.
  - unfold db_call in *. destruct (faults w) as [|[] fs]; [| done |]; unfold prepare in *;
      by destruct (effect_intents (w_db w) !! str_opt (operation_id u)).
  - apply db_call_Ok, finish_Ok in H as (r & ? & ->). by exists r.
  - unfold db_call in *. destruct (faults w) as [|[] fs]; [| done |]; unfold finish in *;
      by destruct (effect_intents (w_db w) !! str_opt (operation_id o)).
Qed.

(** A journal that is part of a larger world keeps its promises there. *)
Section via.
Context {W V : Type} `{!EffectJournal V} (get : W → V) (set : V → W → W).

Definition via {A} (m : M V A) : M W A := λ w, let '(v, r) := m (get w) in (set v w, r).

Definition journal_via : EffectJournal W := {|
  j_lock key work := via (j_lock key work);
  j_unlock := via j_unlock;
  j_exact op := via (j_exact op);
  j_previous op work := via (j_previous op work);
  j_prepare i g fp u := via (j_prepare i g fp u);
  j_finish o := via (j_finish o);
  j_rows w := j_rows (get w) |}.

Context (get_set : ∀ v w, get (set v w) = v).

Lemma via_fst {A} (m : M V A) w : get (via m w).1 = (m (get w)).1.
Proof using get_set. unfold via. destruct (m (get w)). apply get_set. Qed.
Lemma via_snd {A} (m : M V A) w : (via m w).2 = (m (get w)).2.
Proof. unfold via. by destruct (m (get w)). Qed.

Lemma journal_via_laws : EffectJournalLaws V → @EffectJournalLaws W journal_via.
Proof using get_set.
  intros HV. split; cbn; intros; rewrite ?via_fst, ?via_snd in *.
  - apply lock_rows.
  - apply unlock_rows.
  - apply exact_rows.
  - by apply exact_reads.
  - apply previous_rows.
  - by eapply previous_none.
  - by apply previous_some.
  - by apply prepare_ok.
  - by eapply prepare_err.
  - by apply finish_ok.
  - by eapply finish_err.
Qed.
End via.

(** Grants are replaced only by compare-and-swap.  Issuing a grant succeeds
    exactly when the expected version is the version of the principal's
    current grant (or none when there is none) and the new version is the next
    one; then the new grant is current and every other principal's grant is as
    before; otherwise it raises and the tables are unchanged. *)
Theorem grant_issue g expected d :
  let key := principal_key (principal g) in
  let old := version <$> default None (work_grants d !! key) in
  if eqb old expected && (version g =? default 0 old + 1)
  then ∃ d', issue g expected d = (d', Ok tt) ∧ current key d' = (d', Ok (Some g)) ∧
         (∀ k, k ≠ key → work_grants d' !! k = work_grants d !! k) ∧
         effect_intents d' = effect_intents d
  else ∃ e, issue g expected d = (d, Err e).
Proof.
  intros key old. unfold issue, transaction, mbind, M_bind, get_st, put_st, throw_if. fold key.
  assert (Hold : default None (work_grants (match work_grants d !! key with
    | Some _ => d | None => with_grants (<[key := None]> (work_grants d)) d end) !! key) =
    default None (work_grants d !! key)).
  { destruct (work_grants d !! key) eqn:E; [by rewrite E|]. cbn. by rewrite lookup_insert_eq. }
  rewrite Hold. fold old. destruct (eqb old expected) eqn:He; cbn; [|eauto].
  rewrite eqb_true in He. rewrite <- He.
  destruct (version g =? default 0 old + 1); cbn; [|eauto].
  eexists. split; [reflexivity|]. unfold current. cbn. rewrite lookup_insert_eq.
  split; [done|]. split.
  - intros k Hk. rewrite lookup_insert_ne by done. destruct (work_grants d !! key); [done|].
    cbn. by rewrite lookup_insert_ne.
  - by destruct (work_grants d !! key).
Qed.
