(* ===== verification/MutationEffect.v ===== *)
(** * The durable-effect lifecycle of mutations ([tracker/mutation_effect.py])

    One function owns the journal, admission and send of every scalar update,
    relation change and priority claim; its callers supply the guard that
    builds outcomes, the preparation of the mutation, the send itself and the
    reconciliation of a recorded effect.  It is verified against the promises
    of [EffectJournal], for any storage and any callbacks. *)

From S2P Require Import Prelude Json Contracts Grants GrantState.

Local Open Scope Z_scope.

(** [blocked_effect_next_action] *)
Definition blocked_effect_next_action (op : string) : string :=
  str_join "" ["No ordinary exact recovery exists for the blocking "; op;
    " effect; do not resend or start a new effect. Escalate for trusted operator adjudication."].

(** [with_blocked_effect]; the assertion fails when the prior outcome does not
    name its operation and work. *)
Definition with_blocked_effect (o prior : GuardOutcome) : res GuardOutcome :=
  match operation_id prior, work_id prior with
  | Some op, Some work =>
      Ok (mkOutcome (status o) (operation o) (work_id o) (operation_id o) (reason o) (effect o)
            (retry o) (blocked_effect_next_action (operation prior)) (receipt o)
            (Some (mkBlocker (operation prior) op work
               (mkView (status prior) (reason prior) (effect prior) (retry prior)))))
  | _, _ => raise AssertionError ""
  end.

(** The operations this lifecycle serves, with their qualification field. *)
Inductive MutationOperation := m_work_update | m_work_relate | m_priority_claim.

Definition granted_operation (o : MutationOperation) : Operation :=
  match o with
  | m_work_update => work_update | m_work_relate => work_relate | m_priority_claim => priority_claim
  end.

(** [getattr(grant, qualification_field)] *)
Definition qualification (o : MutationOperation) (g : WorkGrant) : option string :=
  match o with
  | m_work_update => update_qualification g
  | m_work_relate => relation_qualification g
  | m_priority_claim => priority_claim_qualification g
  end.

Record MutationRequest := mkRequest {
  q_operation_id : uuid; q_work_id : uuid; q_grant_version : Z }.

(** [Guard]: status, reason, and whether the effect may have happened. *)
Definition Guard := OutcomeStatus → string → bool → GuardOutcome.

Record PreparedMutation (W : Type) := mkPrepared {
  p_intent : json; send : M W GuardOutcome }.
Arguments mkPrepared {_} _ _.
Arguments p_intent {_} _.
Arguments send {_} _.

Section lifecycle.
Context {W : Type} `{!EffectJournal W}.
(** [datetime.now(UTC)] in a world. *)
Context (clock : W → Z).

(** The two local variables [possible_send] and [history_known] are part of
    the store of a run. *)
Record Vars := mkVars { possible_send : bool; history_known : bool }.
Abbreviation Run A := (M (W * Vars) A).

Definition on_world {A} (m : M W A) : Run A := λ s,
  let '(w', r) := m s.1 in ((w', s.2), r).
Definition set_possible_send (b : bool) : Run unit := λ s,
  ((s.1, mkVars b (history_known s.2)), Ok tt).
Definition set_history_known : Run unit := λ s,
  ((s.1, mkVars (possible_send s.2) true), Ok tt).
Definition now : Run Z := λ s, (s, Ok (clock s.1)).

Context (principal : PrincipalContext) (request : MutationRequest) (fingerprint : string)
  (operation : MutationOperation) (denial : string) (guard : Guard)
  (prepare : WorkGrant → string → M W (PreparedMutation W + GuardOutcome))
  (reconcile : EffectRecord → M W GuardOutcome).

(** What a request whose operation is already journaled gets. *)
Definition replay (record : EffectRecord) : Run GuardOutcome :=
  set_possible_send (negb (eqb (effect (er_outcome record)) not_sent));;
  if negb (eqb (er_principal_key record) (principal_key principal))
     || negb (eqb (er_fingerprint record) fingerprint)
  then mret (guard o_denied "operation_identity_conflict" false)
  else if negb (eqb (effect (er_outcome record)) unknown) then mret (er_outcome record)
  else on_world (reconcile record).

(** The checks before anything is prepared: the grant and its qualification, or
    the outcome that refuses. *)
Definition authorize (grant : option WorkGrant) (now : Z) : WorkGrant * string + GuardOutcome :=
  match grant with
  | None => inr (guard o_denied "no_current_grant" false)
  | Some g =>
      if negb (eqb (Grants.principal g) principal) || negb (grant_current g now)
      then inr (guard o_denied "no_current_grant" false)
      else if negb (grant_can_write g (q_work_id request))
           || negb (mem (granted_operation operation) (operations g))
      then inr (guard o_denied "operation_or_work_not_granted" false)
      else if negb (eqb (q_grant_version request) (version g))
      then inr (guard o_stale "grant_version_changed" false)
      else match qualification operation g with
      | None => inr (guard o_denied denial false)
      | Some q =>
          if xorb (eqb (assurance principal) test) (startswith "test:" q)
          then inr (guard o_denied denial false)
          else inl (g, q)
      end
  end.

(** From the journal entry to the end of the send. *)
Definition deliver (g : WorkGrant) (prepared : PreparedMutation W) : Run GuardOutcome :=
  on_world (j_prepare (p_intent prepared) g fingerprint
              (guard o_unknown "prepared_or_unconfirmed_send" true));;
  set_possible_send true;;
  t ← now;
  o ← (if negb (grant_current g t)
       then mret (guard o_not_applied "grant_expired_before_send" false)
       else on_world (send prepared));
  on_world (j_finish o);;
  mret o.

(** The body under the locks. *)
Definition locked_body (grant : option WorkGrant) : Run GuardOutcome :=
  record ← on_world (j_exact (q_operation_id request));
  set_history_known;;
  match record with
  | Some record => replay record
  | None =>
      t ← now;
      match authorize grant t with
      | inr o => mret o
      | inl (g, q) =>
          blocked ← on_world (j_previous (q_operation_id request) (q_work_id request));
          match blocked with
          | Some (_, _, prior) =>
              lift (with_blocked_effect (guard o_unknown "target_has_unresolved_effect" false) prior)
          | None =>
              prepared ← on_world (prepare g q);
              match prepared with
              | inr o => mret o
              | inl prepared => deliver g prepared
              end
          end
      end
  end.

(** The exceptions that become an unknown outcome. *)
Definition caught : list exn_class := [SQLAlchemyError; ProviderError; TypeError; ValueError; KeyError].

(** [run_update_or_relation] *)
Definition run_update_or_relation : M W GuardOutcome := λ w,
  match
    (grant ← on_world (j_lock (principal_key principal) (q_work_id request));
     o ← locked_body grant;
     on_world j_unlock;;
     mret o) (w, mkVars false false)
  with
  | ((w', _), Ok o) => (w', Ok o)
  | ((w', v), Err e) =>
      if existsb (exn_isinstance (exn_cls e)) caught
      then (w', Ok (guard o_unknown "state_or_effect_unavailable"
                      (possible_send v || negb (history_known v))))
      else (w', Err e)
  end.
End lifecycle.

(** ** Properties *)

Section properties.
#[local] Set Default Proof Using "All".
Context {W : Type} `{!EffectJournal W} `{!EffectJournalLaws W}.
Context (clock : W → Z) (principal : PrincipalContext) (request : MutationRequest)
  (fingerprint : string) (operation : MutationOperation) (denial : string) (guard : Guard)
  (reconcile : EffectRecord → M W GuardOutcome).

Abbreviation run := (λ prepare, run_update_or_relation clock principal request fingerprint operation
  denial guard prepare reconcile).
Abbreviation body := (λ prepare, locked_body clock principal request fingerprint operation
  denial guard prepare reconcile).

(** The journal forbids a send: the operation is recorded already, or an effect
    on the same work is unresolved. *)
Definition send_forbidden (w : W) : Prop :=
  is_Some (j_rows w !! q_operation_id request) ∨
  ∃ k r, j_rows w !! k = Some r ∧ e_work_id r = q_work_id request ∧ is_unknown r = true.

Definition Prepare : Type := WorkGrant → string → M W (PreparedMutation W + GuardOutcome).

Lemma on_world_Ok {A} (m : M W A) s s' a :
  on_world m s = (s', Ok a) → m s.1 = (s'.1, Ok a).
Proof. unfold on_world. destruct (m s.1) as [w' r]. by intros [= <- ->]. Qed.

(** Runs agree when their bodies agree in the world the lock leaves. *)
Lemma run_body (p1 p2 : Prepare) w :
  (∀ grant w1 v, j_rows w1 = j_rows w → body p1 grant (w1, v) = body p2 grant (w1, v)) →
  run p1 w = run p2 w.
Proof.
  intros H. unfold run_update_or_relation, mbind, M_bind, on_world. cbn [fst snd].
  pose proof (lock_rows (principal_key principal) (q_work_id request) w) as Hl.
  destruct (j_lock _ _ w) as [w1 [grant|e]]; [|done].
  pose proof (H grant w1 (mkVars false false) Hl) as Hb. unfold mbind, M_bind, on_world in Hb.
  cbn [fst snd] in *. by rewrite Hb.
Qed.

Lemma body_forbidden (p1 p2 : Prepare) grant w v :
  send_forbidden w → body p1 grant (w, v) = body p2 grant (w, v).
Proof.
  intros Hf. unfold locked_body. apply M_bind_agree. intros record s1 H1.
  apply on_world_Ok in H1. pose proof (exact_rows (q_operation_id request) w) as Hr.
  pose proof (exact_reads (q_operation_id request) w record) as Hx.
  cbn [fst] in H1. rewrite H1 in Hr, Hx. cbn [fst snd] in Hr, Hx. specialize (Hx eq_refl).
  apply M_bind_agree. intros [] s2 [= <-]. destruct record as [record|]; [done|].
  symmetry in Hx. apply fmap_None in Hx.
  destruct Hf as [[? ?]|(k & r & Hk & Hw & Hu)]; [congruence|].
  apply M_bind_agree. intros t s3 [= <- <-].
  destruct (authorize _ _ _ _ _ _ _) as [[g q]|o]; [|done].
  apply M_bind_agree. intros [[[? ?] prior]|] s4 H4; [done|].
  apply on_world_Ok in H4. cbn [fst] in H4.
  pose proof (previous_none (q_operation_id request) (q_work_id request) s1.1) as Hp.
  rewrite H4 in Hp. rewrite <- Hr in Hk. destruct (Hp eq_refl k r Hk) as [_ Hn].
  by rewrite Hn in Hu.
Qed.

(** No send over an open effect.  When the journal already holds the
    operation, or holds an unresolved effect on the same work whoever started
    it, a run does not depend on its preparation callback at all: nothing is
    prepared, journaled or sent, and the answer comes from the journal, the
    guard and the reconciliation alone. *)
Theorem mutation_no_send w (p1 p2 : Prepare) :
  send_forbidden w → run p1 w = run p2 w.
Proof.
  intros Hf. apply run_body. intros grant w1 v Hr. apply body_forbidden.
  unfold send_forbidden in *. by rewrite Hr.
Qed.

(** A preparation that yields an intent or a refusal, with a given send. *)
Definition with_send (prep : WorkGrant → string → M W (json + GuardOutcome))
    (s : WorkGrant → string → M W GuardOutcome) : Prepare := λ g q,
  x ← prep g q;
  mret (match x with inl i => inl (mkPrepared i (s g q)) | inr o => inr o end).

(** The world in which a send of [request] under grant [g] may happen. *)
Definition journaled (g : WorkGrant) (q : string) (w : W) : Prop :=
  (∃ i, j_rows w !! str_opt (operation_id (guard o_unknown "prepared_or_unconfirmed_send" true)) =
     Some (new_row i g fingerprint (guard o_unknown "prepared_or_unconfirmed_send" true))) ∧
  Grants.principal g = principal ∧ grant_current g (clock w) = true ∧
  grant_can_write g (q_work_id request) = true ∧ granted_operation operation ∈ operations g ∧
  q_grant_version request = version g ∧ qualification operation g = Some q ∧
  eqb (assurance principal) test = startswith "test:" q.

Lemma authorize_inl grant t g q :
  authorize principal request operation denial guard grant t = inl (g, q) →
  Grants.principal g = principal ∧
  grant_can_write g (q_work_id request) = true ∧ granted_operation operation ∈ operations g ∧
  q_grant_version request = version g ∧ qualification operation g = Some q ∧
  eqb (assurance principal) test = startswith "test:" q.
Proof.
  unfold authorize. intros H. repeat (case_match; try done). simplify_eq. to_prop.
  repeat match goal with H : _ ∧ _ |- _ => destruct H end.
  repeat split; try done. by apply xorb_eq.
Qed.

Lemma deliver_agree g q i (s1 s2 : WorkGrant → string → M W GuardOutcome) w v :
  (∀ w1, journaled g q w1 → s1 g q w1 = s2 g q w1) →
  Grants.principal g = principal ∧
  grant_can_write g (q_work_id request) = true ∧ granted_operation operation ∈ operations g ∧
  q_grant_version request = version g ∧ qualification operation g = Some q ∧
  eqb (assurance principal) test = startswith "test:" q →
  deliver clock fingerprint guard g (mkPrepared i (s1 g q)) (w, v) =
  deliver clock fingerprint guard g (mkPrepared i (s2 g q)) (w, v).
Proof.
  intros Hs Ha. unfold deliver, mbind, M_bind, on_world, set_possible_send, now. cbn [fst snd p_intent send].
  pose proof (prepare_ok i g fingerprint (guard o_unknown "prepared_or_unconfirmed_send" true) w) as Hp.
  destruct (j_prepare _ _ _ _ w) as [w1 [[]|e]]; [|done]. cbn [fst snd] in *.
  destruct (Hp eq_refl) as [_ Hrow].
  destruct (grant_current g (clock w1)) eqn:Hc; [|done]. cbn [negb fst snd].
  rewrite (Hs w1); [done|]. split; [|tauto].
  exists i. rewrite Hrow. apply lookup_insert_eq.
Qed.

(** A send is always journaled and authorised first.  Two sends that agree
    in every world whose journal holds this operation as unresolved, under a
    current grant of this very principal that covers the operation and the
    work at the requested version with a matching qualification, give the same
    run from every world: a run calls its send in no other world. *)
Theorem mutation_send_journaled prep (s1 s2 : WorkGrant → string → M W GuardOutcome) w :
  (∀ g q w1, journaled g q w1 → s1 g q w1 = s2 g q w1) →
  run (with_send prep s1) w = run (with_send prep s2) w.
Proof.
  intros Hs. apply run_body. intros grant w1 v _.
  unfold locked_body. apply M_bind_agree. intros record s1' _.
  apply M_bind_agree. intros _ s2' _. destruct record as [record|]; [done|].
  apply M_bind_agree. intros t s3 _.
  destruct (authorize _ _ _ _ _ _ _) as [[g q]|o] eqn:Ha; [|done]. apply authorize_inl in Ha.
  apply M_bind_agree. intros [[[? ?] prior]|] s4 _; [done|].
  unfold with_send, mbind, M_bind, on_world.
  destruct (prep g q s4.1) as [w5 [[i|o]|e]]; cbn -[deliver]; [|done..].
  apply deliver_agree; [|done]. intros w6. apply Hs.
Qed.

(** What callers owe the lifecycle: outcomes name the operation, and neither
    preparing nor sending writes the journal. *)
Record contract (p : Prepare) : Prop := {
  guard_names s r b : operation_id (guard s r b) = Some (q_operation_id request);
  prepare_quiet g q w : j_rows (p g q w).1 = j_rows w;
  send_quiet g q w w1 m w2 : p g q w = (w1, Ok (inl m)) → j_rows (send m w2).1 = j_rows w2;
  send_names g q w w1 m w2 o : p g q w = (w1, Ok (inl m)) → (send m w2).2 = Ok o →
    operation_id o = Some (q_operation_id request) }.

(** The journal row of the operation, if there is one now, records what the
    run returned, and the run knows that it may have sent. *)
Definition truthful (x : W * Vars * res GuardOutcome) : Prop :=
  ∀ row, j_rows x.1.1 !! q_operation_id request = Some row →
    possible_send x.1.2 = true ∧ ∀ o, x.2 = Ok o → o = outcome row.

Lemma truthful_absent s r : j_rows s.1 !! q_operation_id request = None → truthful (s, r).
Proof. intros H row Hr. cbn in Hr. congruence. Qed.

Lemma on_world_fst {A} (m : M W A) s : (on_world m s).1.1 = (m s.1).1 ∧ (on_world m s).2 = (m s.1).2 ∧
  (on_world m s).1.2 = s.2.
Proof. unfold on_world. by destruct (m s.1). Qed.

(** Run one step [on_world j] of the goal's computation on [s]: it raises or
    returns, and its effect on the world is that of [j]. *)
Ltac world_step s :=
  match goal with |- context [mbind ?f (on_world ?j) s] =>
    let s1 := fresh "s" in let x := fresh "x" in let H := fresh "H" in
    destruct (M_bind_cases (on_world j) f s) as [(s1 & x & H & ->)|(s1 & x & H & ->)];
    let Hw := fresh "Hw" in let Hr := fresh "Hr" in let Hv := fresh "Hv" in
    destruct (on_world_fst j s) as (Hw & Hr & Hv);
    rewrite H in Hw, Hr, Hv; cbn [fst snd mret M_ret] in *
  end.

(** The part of a delivery after the intent is in the journal. *)
Lemma finish_truthful o s :
  possible_send s.2 = true → operation_id o = Some (q_operation_id request) →
  truthful ((on_world (j_finish o);; mret o) s).
Proof.
  intros Hps Hop. world_step s; intros row Hrow; cbn [fst snd mret M_ret] in *; (split; [by rewrite Hv|]); [done|].
  destruct x. intros ? [= <-]. rewrite Hw in Hrow.
  destruct (finish_ok o s.1 (eq_sym Hr)) as (r & _ & Hins). rewrite Hins, Hop in Hrow. cbn in Hrow.
  rewrite lookup_insert_eq in Hrow. by simplify_eq.
Qed.

Lemma deliver_truthful p g m s w0 w1 q :
  contract p → p g q w0 = (w1, Ok (inl m)) → j_rows s.1 !! q_operation_id request = None →
  truthful (deliver clock fingerprint guard g m s).
Proof.
  intros Hc Hm Habs. unfold deliver.
  world_step s.
  - apply truthful_absent. rewrite Hw. by rewrite (prepare_err _ _ _ _ _ _ (eq_sym Hr)).
  - rename s0 into s1. clear Hw Hr Hv H x. unfold set_possible_send, now.
    unfold mbind at 1, M_bind at 1. cbn [fst snd]. unfold mbind at 1, M_bind at 1. cbn [fst snd].
    set (s2 := (s1.1, mkVars true (history_known s1.2))).
    destruct (negb (grant_current g (clock s1.1))).
    + unfold mbind at 1, M_bind at 1. cbn [mret M_ret]. apply finish_truthful; [done | apply (guard_names p Hc)].
    + world_step s2.
      * intros row _. cbn [fst snd]. by rewrite Hv.
      * apply finish_truthful; [by rewrite Hv|]. eapply (send_names p Hc); [exact Hm | by symmetry].
Qed.

Lemma body_truthful (p : Prepare) grant s :
  contract p → j_rows s.1 !! q_operation_id request = None →
  truthful (body p grant s).
Proof.
  intros Hc Habs. unfold locked_body.
  world_step s; assert (Hrows : j_rows s0.1 = j_rows s.1) by (rewrite Hw; apply exact_rows);
    [apply truthful_absent; congruence|].
  rename s0 into s1, x into record.
  rewrite <- Hrows in Habs. apply eq_sym, exact_reads in Hr. rewrite <- Hrows, Habs in Hr. cbn in Hr. subst record.
  unfold set_history_known, now.
  unfold mbind at 1, M_bind at 1. cbn [fst snd]. unfold mbind at 1, M_bind at 1. cbn [fst snd].
  set (s2 := (s1.1, mkVars (possible_send s1.2) true)).
  destruct (authorize _ _ _ _ _ _ _) as [[g q]|o]; [|by apply truthful_absent].
  clear H Hw Hv Hrows. world_step s2;
    assert (Hrows : j_rows s0.1 = j_rows s1.1) by (rewrite Hw; apply previous_rows);
    rewrite <- Hrows in Habs; [by apply truthful_absent|].
  rename s0 into s3. destruct x as [[[? ?] prior]|]; [by apply truthful_absent|].
  clear H Hw Hv Hr Hrows. world_step s3;
    assert (Hrows : j_rows s0.1 = j_rows s3.1) by (rewrite Hw; apply (prepare_quiet p Hc));
    rewrite <- Hrows in Habs; [by apply truthful_absent|].
  destruct x as [m|o]; [|by apply truthful_absent].
  eapply deliver_truthful; [exact Hc | | exact Habs]. apply on_world_Ok in H. exact H.
Qed.

(** A run never reports less than the journal knows.  When an operation
    that was not journaled is journaled after a run that returned an outcome,
    the outcome is the one the journal holds, or it is the unknown outcome
    that says the effect may have happened, whatever failed in between. *)
Theorem mutation_truthful (p : Prepare) w w' o row :
  contract p → j_rows w !! q_operation_id request = None → run p w = (w', Ok o) →
  j_rows w' !! q_operation_id request = Some row →
  o = outcome row ∨ o = guard o_unknown "state_or_effect_unavailable" true.
Proof.
  intros Hc Habs. unfold run_update_or_relation.
  set (si := (w, mkVars false false)). world_step si;
    assert (Hrows : j_rows s.1 = j_rows w) by (rewrite Hw; apply lock_rows);
    rewrite <- Hrows in Habs.
  { destruct s as [w1 v1]. cbn in *. case_match; [|done]. intros [= <- <-]. congruence. }
  rename x into grant. pose proof (body_truthful p grant s Hc Habs) as Ht. cbv beta in Ht.
  match goal with |- context [mbind ?f ?b s] =>
    destruct (M_bind_cases b f s) as [(s2 & e & H2 & ->)|(s2 & o2 & H2 & ->)] end;
    rewrite H2 in Ht; unfold truthful in Ht; cbn [fst snd] in Ht; clear H Hw Hr Hv.
  - destruct s2 as [w2 v2]. case_match; [|done]. intros [= <- <-] Hrow.
    destruct (Ht row Hrow) as [Hps _]. cbn in Hps. rewrite Hps. by right.
  - world_step s2; assert (Hrows2 : j_rows s0.1 = j_rows s2.1) by (rewrite Hw; apply unlock_rows);
      destruct s0 as [w3 v3]; cbn [fst snd] in *.
    + case_match; [|done]. intros [= <- <-] Hrow. rewrite Hrows2 in Hrow.
      destruct (Ht row Hrow) as [Hps _]. rewrite Hv, Hps. by right.
    + intros [= <- <-] Hrow. rewrite Hrows2 in Hrow. left. by apply (Ht row Hrow).
Qed.
End properties.

(** ** Invariants of a run *)

(** A predicate on worlds, and one on outcomes in the world that returned them,
    that the journal, the callbacks and the guard keep, hold of every run. *)
Section run_keeps.
#[local] Set Default Proof Using "All".
Context {W : Type} `{!EffectJournal W}.
Context (clock : W → Z) (principal : PrincipalContext) (request : MutationRequest)
  (fingerprint : string) (operation : MutationOperation) (denial : string) (guard : Guard)
  (prepare : WorkGrant → string → M W (PreparedMutation W + GuardOutcome))
  (reconcile : EffectRecord → M W GuardOutcome).
Context (P : W → Prop) (B : GuardOutcome → W → Prop).

(** From a world with [P], the call leaves one with [P], and returns [Q]. *)
Definition secures {A} (m : M W A) (Q : A → W → Prop) : Prop :=
  ∀ w, P w → P (m w).1 ∧ ∀ a, (m w).2 = Ok a → Q a (m w).1.

Context
  (lock_P : ∀ k x, secures (j_lock k x) (λ _ _, True))
  (unlock_P : ∀ o w, P w → B o w → P (j_unlock w).1 ∧ B o (j_unlock w).1)
  (exact_P : ∀ op, secures (j_exact op) (λ r w, ∀ x, r = Some x → B (er_outcome x) w))
  (previous_P : ∀ op x, secures (j_previous op x) (λ _ _, True))
  (prepare_P : ∀ i g, secures (j_prepare i g fingerprint (guard o_unknown "prepared_or_unconfirmed_send" true)) (λ _ _, True))
  (finish_P : ∀ o w, P w → B o w → P (j_finish o w).1 ∧ B o (j_finish o w).1)
  (guard_B : ∀ s r b w, B (guard s r b) w)
  (blocked_B : ∀ s r b prior o w, with_blocked_effect (guard s r b) prior = Ok o → B o w)
  (callback_P : ∀ g q, secures (prepare g q) (λ x w, match x with
     | inl m => secures (send m) B
     | inr o => B o w
     end))
  (reconcile_P : ∀ r, secures (reconcile r) B).

Definition ends {A} (m : M (W * Vars) A) (s : W * Vars) (Q : A → W → Prop) : Prop :=
  P (m s).1.1 ∧ ∀ a, (m s).2 = Ok a → Q a (m s).1.1.

Lemma ends_bind {A C} (m : M (W * Vars) A) (f : A → M (W * Vars) C) s Q R :
  ends m s Q → (∀ a s', P s'.1 → Q a s'.1 → ends (f a) s' R) → ends (m ≫= f) s R.
Proof.
  intros [H1 H2] Hf. unfold ends, mbind, M_bind. destruct (m s) as [s1 [a|e]]; cbn in *; [|done].
  destruct (Hf a s1); auto.
Qed.

(** A step on the variables alone. *)
Lemma ends_quiet {A C} (m : M (W * Vars) A) (f : A → M (W * Vars) C) s R :
  (m s).1.1 = s.1 → P s.1 → (∀ a s', s'.1 = s.1 → ends (f a) s' R) → ends (m ≫= f) s R.
Proof.
  intros Hm Hs Hf. unfold ends, mbind, M_bind. destruct (m s) as [s1 [a|e]]; cbn in *.
  - by apply Hf.
  - by rewrite Hm.
Qed.

Lemma ends_world {A} (m : M W A) s Q : secures m Q → P s.1 → ends (on_world m) s Q.
Proof. intros H Hs. unfold ends, on_world. destruct (H s.1 Hs). by destruct (m s.1). Qed.

Lemma ends_ret {A} (a : A) (Q : A → W → Prop) s : P s.1 → Q a s.1 → ends (mret a) s Q.
Proof. intros H1 H2. split; [done|]. by intros c [= <-]. Qed.

Lemma ends_finish o s : P s.1 → B o s.1 → ends (on_world (j_finish o);; mret o) s B.
Proof.
  intros Hs Ho. unfold ends, mbind, M_bind, on_world. destruct (finish_P o s.1 Hs Ho) as [H1 H2].
  destruct (j_finish o s.1) as [w3 [[]|e]]; [|done]. by apply ends_ret.
Qed.

Lemma ends_deliver g m s : secures (send m) B → P s.1 → ends (deliver clock fingerprint guard g m) s B.
Proof.
  intros Hm Hs. unfold deliver. eapply ends_bind; [by apply ends_world|]. intros [] s1 Hs1 _.
  apply ends_quiet; [done..|]. intros [] s2 E2. apply ends_quiet; [done | congruence|]. intros t s3 E3.
  assert (Hs3 : P s3.1) by congruence. clear s1 s2 E2 E3 Hs1.
  eapply ends_bind; [|by intros; apply ends_finish].
  destruct (negb _); [by apply ends_ret | by apply ends_world].
Qed.

Lemma authorize_guard grant t o w :
  authorize principal request operation denial guard grant t = inr o → B o w.
Proof. unfold authorize. intros H. repeat case_match; try done; injection H as <-; apply guard_B. Qed.

Lemma ends_body grant s : P s.1 → ends (locked_body clock principal request fingerprint operation denial guard
  prepare reconcile grant) s B.
Proof.
  intros Hs. unfold locked_body. eapply ends_bind; [by apply ends_world|]. intros record s1 Hs1 Hr. cbn beta in Hr.
  apply ends_quiet; [done..|]. intros [] s2 E2. rewrite <- E2 in Hs1, Hr. clear E2 s1.
  destruct record as [record|].
  - unfold replay. apply ends_quiet; [done..|]. intros [] s3 E3. rewrite <- E3 in Hs1, Hr.
    destruct (_ || _); [by apply ends_ret|]. destruct (negb _); [apply ends_ret; auto | by apply ends_world].
  - apply ends_quiet; [done..|]. intros t s3 E3. rewrite <- E3 in Hs1.
    destruct (authorize _ _ _ _ _ _ _) as [[g q]|o] eqn:Ea; [|apply ends_ret; [done | by eapply authorize_guard]].
    eapply ends_bind; [by apply ends_world|]. intros [[[? ?] prior]|] s4 Hs4 _.
    { split; [done|]. intros o Ho. cbn in Ho. by eapply blocked_B. }
    eapply ends_bind; [by apply ends_world|]. intros [m|o] s5 Hs5 Hx; [by apply ends_deliver | by apply ends_ret].
Qed.

Lemma run_keeps : secures (run_update_or_relation clock principal request fingerprint operation denial guard
  prepare reconcile) B.
Proof.
  intros w Hw. unfold run_update_or_relation. set (m := mbind _ _).
  assert (H : ends m (w, mkVars false false) B).
  { eapply ends_bind; [by apply ends_world|]. intros grant s Hs _.
    eapply ends_bind; [by apply ends_body|]. intros o s2 Hs2 Ho. unfold ends, mbind, M_bind, on_world.
    destruct (unlock_P o s2.1 Hs2 Ho) as [H1 H2]. destruct (j_unlock s2.1) as [w3 [[]|e]]; [|done]. by apply ends_ret. }
  destruct H as [H1 H2]. destruct (m (w, mkVars false false)) as [[w' v] [o|e]]; cbn in *; [auto|].
  case_match; (split; [done|]); [|done]. intros o [= <-]. apply guard_B.
Qed.
End run_keeps.

(** ** Interleaved deliveries *)

Section interleaving.
#[local] Set Default Proof Using "All".
Context {W : Type} `{!EffectJournal W} `{!EffectJournalLaws W}.

(** The world, the operations whose intent is journaled and not sent yet, and
    the operations sent, by any number of concurrent runs. *)
Record Sys := mkSys { world : W; in_flight : list string; sent : list string }.

(** The steps of deliveries, interleaved with anything that deletes no journal
    row: a run journals its intent ([deliver]'s first call), and sends only
    when that call returned. *)
Inductive sys_step (s : Sys) : Sys → Prop :=
  | ss_prepare i g fp u w' :
      j_prepare i g fp u (world s) = (w', Ok tt) →
      sys_step s (mkSys w' (str_opt (operation_id u) :: in_flight s) (sent s))
  | ss_prepare_failed i g fp u w' e :
      j_prepare i g fp u (world s) = (w', Err e) → sys_step s (mkSys w' (in_flight s) (sent s))
  | ss_send l1 op l2 w' :
      in_flight s = l1 ++ op :: l2 → j_rows w' = j_rows (world s) →
      sys_step s (mkSys w' (l1 ++ l2) (op :: sent s))
  | ss_finish o : sys_step s (mkSys (j_finish o (world s)).1 (in_flight s) (sent s))
  | ss_lock key work : sys_step s (mkSys (j_lock key work (world s)).1 (in_flight s) (sent s))
  | ss_unlock : sys_step s (mkSys (j_unlock (world s)).1 (in_flight s) (sent s))
  | ss_exact op : sys_step s (mkSys (j_exact op (world s)).1 (in_flight s) (sent s))
  | ss_previous op work :
      sys_step s (mkSys (j_previous op work (world s)).1 (in_flight s) (sent s))
  | ss_crash l1 op l2 :
      in_flight s = l1 ++ op :: l2 → sys_step s (mkSys (world s) (l1 ++ l2) (sent s)).

Definition SysInv (s : Sys) : Prop :=
  NoDup (in_flight s ++ sent s) ∧
  ∀ op, op ∈ in_flight s ++ sent s → is_Some (j_rows (world s) !! op).

Lemma SysInv_rows s w' :
  (∀ k, is_Some (j_rows (world s) !! k) → is_Some (j_rows w' !! k)) →
  SysInv s → SysInv (mkSys w' (in_flight s) (sent s)).
Proof. intros Hw [Hn Hi]. split; [done|]. cbn. auto. Qed.

Lemma mutation_step_inv s s' : sys_step s s' → SysInv s → SysInv s'.
Proof.
  intros Hstep Hinv. destruct Hstep as [i g fp u w' Hp|i g fp u w' e Hp|l1 op l2 w' Hf Hw|o|key work| |op|op work|l1 op l2 Hf].
  - destruct (prepare_ok i g fp u (world s)) as [Hn Hr]; [by rewrite Hp|]. rewrite Hp in Hr. cbn in Hr.
    destruct Hinv as [Hnd Hi]. split; cbn.
    + apply NoDup_cons. split; [|done]. intros Hin. destruct (Hi _ Hin) as [? ?]. congruence.
    + rewrite Hr. intros k Hk. destruct (decide (k = str_opt (operation_id u))) as [->|].
      { rewrite lookup_insert_eq. eauto. }
      rewrite lookup_insert_ne by done. apply Hi. set_solver.
  - apply SysInv_rows; [|done]. intros k.
    pose proof (prepare_err i g fp u (world s) e) as Hr. rewrite Hp in Hr. cbn in Hr. by rewrite Hr.
  - destruct Hinv as [Hnd Hi]. rewrite Hf in Hnd, Hi.
    assert (Hp : (l1 ++ l2) ++ op :: sent s ≡ₚ (l1 ++ op :: l2) ++ sent s) by (by solve_Permutation).
    split; cbn; [by rewrite Hp|]. rewrite Hw. intros k. rewrite Hp. apply Hi.
  - apply SysInv_rows; [|done]. intros k Hk.
    destruct (j_finish o (world s)).2 as [[]|e] eqn:E.
    + destruct (finish_ok o (world s) E) as (r & _ & ->).
      destruct (decide (k = str_opt (operation_id o))) as [->|];
        [rewrite lookup_insert_eq; eauto | by rewrite lookup_insert_ne].
    + by rewrite (finish_err o (world s) e E).
  - apply SysInv_rows; [|done]. intros k. by rewrite lock_rows.
  - apply SysInv_rows; [|done]. intros k. by rewrite unlock_rows.
  - apply SysInv_rows; [|done]. intros k. by rewrite exact_rows.
  - apply SysInv_rows; [|done]. intros k. by rewrite previous_rows.
  - destruct Hinv as [Hnd Hi]. rewrite Hf in Hnd, Hi.
    assert (Hp : (l1 ++ op :: l2) ++ sent s ≡ₚ op :: (l1 ++ l2) ++ sent s) by (by solve_Permutation).
    rewrite Hp in Hnd. apply NoDup_cons in Hnd as [_ Hnd]. split; cbn; [done|].
    intros k Hk. apply Hi. rewrite Hp. by right.
Qed.

(** At most one send per operation, ever.  However any number of runs are
    interleaved, retried or abandoned half way, no operation identifier is
    sent twice, and every identifier sent is in the journal. *)
Theorem mutation_at_most_once w0 s :
  rtc sys_step (mkSys w0 [] []) s →
  NoDup (sent s) ∧ ∀ op, op ∈ sent s → is_Some (j_rows (world s) !! op).
Proof.
  intros Hs. assert (Hinv : SysInv s).
  { revert Hs. apply rtc_ind_r; [|eauto using mutation_step_inv].
    split; cbn; [constructor | set_solver]. }
  destruct Hinv as [Hnd Hi]. apply NoDup_app in Hnd as (_ & _ & Hnd).
  split; [done|]. intros op Hop. apply Hi. set_solver.
Qed.
End interleaving.

(** ** Concrete runs on the storage of [GrantState] *)

Definition ex_principal : PrincipalContext := mkPrincipal "iss" "sub" "client" test.
Definition ex_grant : WorkGrant :=
  mkGrant "g1" 1 ex_principal (mkAuthority "w1" []) launch [work_update] "iss" "prov"
    (Datetime 1000 (Some 0)) g_active None None None (Some "test:q") None None.
Definition ex_request : MutationRequest := mkRequest "op1" "w1" 1.
Definition ex_guard : Guard := λ s r b,
  mkOutcome s "work_update" (Some "w1") (Some "op1") r (if b then unknown else not_sent) r_none
    "next" None None.
Definition ex_receipt : Receipt :=
  UpdateReceipt (mkHead "op1" ex_principal "g1" 1) "w1" "asana" "42" "r1" "r2" [] "test:q".
Definition ex_applied : GuardOutcome :=
  mkOutcome o_ok "work_update" (Some "w1") (Some "op1") "updated" applied r_none "next"
    (Some ex_receipt) None.

Definition ex_prep : WorkGrant → string → M World (json + GuardOutcome) := λ g q w, (w, Ok (inl (JObj []))).
Definition ex_send : WorkGrant → string → M World GuardOutcome := λ g q w, (w, Ok ex_applied).
Definition ex_run (p : Prepare) : M World GuardOutcome :=
  run_update_or_relation (λ _, 5) ex_principal ex_request "fp" m_work_update "denied" ex_guard p
    (λ r w, (w, Ok (ex_guard o_unknown "reconciling" true))).

Definition ex_world : World :=
  mkWorld (mkDB {[principal_key ex_principal := Some ex_grant]} ∅) [].
Definition ex_world1 : World := (ex_run (with_send ex_prep ex_send) ex_world).1.

Lemma mutation_no_send_witness :
  (ex_run (with_send ex_prep ex_send) ex_world1).2 = Ok ex_applied ∧
  ex_run (with_send ex_prep ex_send) ex_world1 =
  ex_run (with_send ex_prep (λ _ _, throw ProviderError "sent again")) ex_world1.
Proof.
  split; [vm_compute; reflexivity|].
  refine (mutation_no_send (λ _, 5) ex_principal ex_request "fp" m_work_update "denied" ex_guard _
    ex_world1 _ _ _).
  left. vm_compute. eexists. reflexivity.
Defined.

(** A send that works only when the journal holds the operation. *)
Definition ex_send_checked : WorkGrant → string → M World GuardOutcome := λ g q w,
  match j_rows w !! "op1" with
  | Some _ => (w, Ok ex_applied)
  | None => (w, raise ProviderError "not journaled")
  end.

Lemma mutation_send_journaled_witness :
  (ex_run (with_send ex_prep ex_send) ex_world).2 = Ok ex_applied ∧
  ex_run (with_send ex_prep ex_send) ex_world = ex_run (with_send ex_prep ex_send_checked) ex_world.
Proof.
  split; [vm_compute; reflexivity|].
  refine (mutation_send_journaled (λ _, 5) ex_principal ex_request "fp" m_work_update "denied" ex_guard _
    ex_prep ex_send ex_send_checked ex_world _).
  intros g q w1 [[i Hi] _]. unfold ex_send, ex_send_checked.
  change (str_opt _) with "op1" in Hi. rewrite Hi. reflexivity.
Defined.

Lemma ex_contract :
  contract ex_request ex_guard (with_send ex_prep ex_send).
Proof.
  split; try done.
  - intros g q w w1 m w2 [= <- <-]. done.
  - intros g q w w1 m w2 o [= <- <-] [= <-]. done.
Qed.

Lemma mutation_truthful_witness :
  ∃ row, j_rows ex_world1 !! "op1" = Some row ∧
    (ex_applied = outcome row ∨ ex_applied = ex_guard o_unknown "state_or_effect_unavailable" true).
Proof.
  destruct (j_rows ex_world1 !! "op1") as [row|] eqn:E; [|exfalso; revert E; vm_compute; discriminate].
  exists row. split; [reflexivity|].
  refine (mutation_truthful (λ _, 5) ex_principal ex_request "fp" m_work_update "denied" ex_guard
    (λ r w, (w, Ok (ex_guard o_unknown "reconciling" true)))
    (with_send ex_prep ex_send) ex_world ex_world1 ex_applied row ex_contract _ _ E);
    vm_compute; reflexivity.
Defined.

Lemma mutation_at_most_once_witness :
  ∃ s : Sys (W := World), sent s = ["op1"] ∧ NoDup (sent s).
Proof.
  set (u := ex_guard o_unknown "prepared_or_unconfirmed_send" true).
  set (w1 := (j_prepare (JObj []) ex_grant "fp" u ex_world).1).
  exists (mkSys w1 [] ["op1"]). split; [reflexivity|].
  refine (proj1 (mutation_at_most_once ex_world (mkSys w1 [] ["op1"]) _)).
  apply (rtc_l _ _ (mkSys w1 ["op1"] [])).
  - apply (ss_prepare (mkSys ex_world [] []) (JObj []) ex_grant "fp" u w1). vm_compute. reflexivity.
  - apply rtc_once. exact (ss_send (mkSys w1 ["op1"] []) [] "op1" [] w1 eq_refl eq_refl).
Defined.
