(* ===== verification/PriorityService.v ===== *)
(** * The priority-claim service ([priority_claim_service.py])

    Who may claim, under which identifier a claim is kept, and what a caller is
    told.  An agent's claim runs in the lifecycle of mutations and is
    journaled; a human's claim or clearance is keyed by its operation alone,
    so that repeating the operation finds the claim again.

    The service spans two stores: the tables of grants and effects, and the
    tracker with its claims.  Each call of the repository is one transaction,
    and a run may lose the connection at any of them, before or after the
    transaction commits, and other callers may run before it ([Turn]). *)

From S2P Require Import Prelude Tables Paging Json Codec Tracker TrackerSystem.
From S2P Require Import Contracts Grants GrantState MutationEffect PriorityClaims.

Local Open Scope Z_scope.

(** ** Requests *)

Definition CLAIM_NAMESPACE : uuid := "43e26bcc-bd6e-446c-baa7-9babe6d15412".
Definition HUMAN_CLAIM_NAMESPACE : uuid := "33741195-b41c-47a6-a782-ff56310f8433".
Definition HUMAN_CLEAR_NAMESPACE : uuid := "86a859e4-e0cf-4fe7-98db-ec334970409a".

Record PriorityClaimWrite := mkWrite {
  cw_operation_id : uuid; cw_work_id : uuid; cw_grant_version : Z; cw_observed_revision : string;
  cw_relation_kind : PriorityClaims.RelationKind; cw_rationale : string; cw_target : option uuid;
  cw_band : option PriorityBand; cw_supersedes : option uuid }.

Record HumanPrioritySet := mkSet {
  hs_operation_id : uuid; hs_subject_kind : SubjectKind; hs_subject_id : uuid;
  hs_observed_revision : option string; hs_relation_kind : PriorityClaims.RelationKind;
  hs_rationale : string; hs_target : option uuid; hs_band : option PriorityBand;
  hs_supersedes : option uuid }.

Record HumanPriorityClear := mkClear {
  hc_operation_id : uuid; hc_subject_kind : SubjectKind; hc_subject_id : uuid; hc_claim_id : uuid;
  hc_observed_revision : option string }.

Inductive HumanRequest := h_set (r : HumanPrioritySet) | h_clear (r : HumanPriorityClear).

Definition h_operation_id (r : HumanRequest) : uuid :=
  match r with h_set r => hs_operation_id r | h_clear r => hc_operation_id r end.
Definition h_subject_kind (r : HumanRequest) : SubjectKind :=
  match r with h_set r => hs_subject_kind r | h_clear r => hc_subject_kind r end.
Definition h_subject_id (r : HumanRequest) : uuid :=
  match r with h_set r => hs_subject_id r | h_clear r => hc_subject_id r end.
Definition h_observed_revision (r : HumanRequest) : option string :=
  match r with h_set r => hs_observed_revision r | h_clear r => hc_observed_revision r end.

(** [valid_relation]: the fields that go with the kind of relation. *)
Definition valid_relation (k : PriorityClaims.RelationKind) (b : option PriorityBand) (t : option uuid) : bool :=
  match k with
  | BAND => is_some b && is_none t
  | BEFORE => is_none b && is_some t
  | HOLD => is_none b && is_none t
  end.

Definition PriorityClaimWrite_validate (r : PriorityClaimWrite) : res PriorityClaimWrite :=
  raise_if ((cw_grant_version r <? 1) || negb (truthy (cw_observed_revision r))
    || negb (between 1 300 (cw_rationale r))) ValueError "validation error";;
  raise_if (negb (valid_relation (cw_relation_kind r) (cw_band r) (cw_target r))) ValueError
    "priority relation fields do not match relation_kind";;
  Ok r.

Definition revision_field_ok (o : option string) : bool := match o with Some s => truthy s | None => true end.

Definition revision_required (k : SubjectKind) (o : option string) : bool := eqb (eqb k WORK) (is_some o).

Definition HumanPrioritySet_validate (r : HumanPrioritySet) : res HumanPrioritySet :=
  raise_if (negb (revision_field_ok (hs_observed_revision r)) || negb (between 1 300 (hs_rationale r)))
    ValueError "validation error";;
  raise_if (negb (revision_required (hs_subject_kind r) (hs_observed_revision r))) ValueError
    "observed_revision is required only for WORK priority";;
  raise_if (negb (valid_relation (hs_relation_kind r) (hs_band r) (hs_target r))) ValueError
    "priority relation fields do not match relation_kind";;
  Ok r.

Definition HumanPriorityClear_validate (r : HumanPriorityClear) : res HumanPriorityClear :=
  raise_if (negb (revision_field_ok (hc_observed_revision r))) ValueError "validation error";;
  raise_if (negb (revision_required (hc_subject_kind r) (hc_observed_revision r))) ValueError
    "observed_revision is required only for WORK priority";;
  Ok r.

(** [model_dump(mode="json")] *)
Definition subject_text (k : SubjectKind) : string := match k with WORK => "WORK" | PROJECT => "PROJECT" end.
Definition relation_text (k : PriorityClaims.RelationKind) : string :=
  match k with BAND => "BAND" | BEFORE => "BEFORE" | HOLD => "HOLD" end.
Definition band_json (b : option PriorityBand) : json :=
  match b with None => JNull | Some HIGH => JStr "HIGH" | Some NORMAL => JStr "NORMAL" end.

Definition write_json (r : PriorityClaimWrite) : json := JObj
  [("api_version", JStr "1"); ("operation_id", JStr (cw_operation_id r)); ("work_id", JStr (cw_work_id r));
   ("grant_version", JInt (cw_grant_version r)); ("observed_revision", JStr (cw_observed_revision r));
   ("relation_kind", JStr (relation_text (cw_relation_kind r))); ("rationale", JStr (cw_rationale r));
   ("relation_target_id", jopt (cw_target r)); ("band", band_json (cw_band r));
   ("supersedes_claim_id", jopt (cw_supersedes r))]%string.

Definition human_json (r : HumanRequest) : json :=
  match r with
  | h_set r => JObj
      [("api_version", JStr "1"); ("operation_id", JStr (hs_operation_id r));
       ("subject_kind", JStr (subject_text (hs_subject_kind r))); ("subject_id", JStr (hs_subject_id r));
       ("observed_revision", jopt (hs_observed_revision r));
       ("relation_kind", JStr (relation_text (hs_relation_kind r))); ("rationale", JStr (hs_rationale r));
       ("relation_target_id", jopt (hs_target r)); ("band", band_json (hs_band r));
       ("supersedes_claim_id", jopt (hs_supersedes r))]
  | h_clear r => JObj
      [("api_version", JStr "1"); ("operation_id", JStr (hc_operation_id r));
       ("subject_kind", JStr (subject_text (hc_subject_kind r))); ("subject_id", JStr (hc_subject_id r));
       ("claim_id", JStr (hc_claim_id r)); ("observed_revision", jopt (hc_observed_revision r))]
  end%string.

Definition _fingerprint (p : PrincipalContext) (r : PriorityClaimWrite) : string :=
  sha256_hex (dumps_sorted (JArr [JStr (principal_key p); write_json r])).

Definition _human_fingerprint (p : PrincipalContext) (r : HumanRequest) : string :=
  sha256_hex (dumps_sorted (JArr [JStr (principal_key p); human_json r])).

Definition _human_source_ref (p : PrincipalContext) (r : HumanRequest) : string :=
  String.append "human-via-ordinary-chatgpt-v1:" (_human_fingerprint p r).

(** ** Outcomes *)

Definition retry_of (status : OutcomeStatus) (possible : bool) : Retry :=
  if possible then r_reconcile else if eqb status o_stale then r_refresh else r_none.

Definition guard (r : PriorityClaimWrite) (status : OutcomeStatus) (reason : string) (possible : bool) : GuardOutcome :=
  mkOutcome status "priority_claim_record" (Some (cw_work_id r)) (Some (cw_operation_id r)) reason
    (if possible then unknown else not_sent) (retry_of status possible)
    (if possible then "Retry this exact OperationId to reconcile; do not start a new claim effect."
     else "Refresh the exact work/grant or use a trusted issuer.") None None.

Definition h_work_id (r : HumanRequest) : option uuid :=
  match h_subject_kind r with WORK => Some (h_subject_id r) | PROJECT => None end.

Definition human_guard (r : HumanRequest) (operation : string) (status : OutcomeStatus) (reason : string)
    (possible : bool) : GuardOutcome :=
  mkOutcome status operation (h_work_id r) (Some (h_operation_id r)) reason
    (if possible then unknown else not_sent) (retry_of status possible)
    (if possible then "Retry this exact OperationId and identical arguments to reconcile."
     else "Refresh the exact subject or use a trusted issuer.") None None.

(** ** The claims of a request *)

Definition _new (r : PriorityClaimWrite) (grant_id : uuid) : NewPriorityClaim :=
  mkNewClaim (uuid5 CLAIM_NAMESPACE (cw_operation_id r)) AGENT_RECOMMENDATION WORK (cw_work_id r)
    (cw_relation_kind r) (cw_rationale r) "AGENT" (String.append "grant:" grant_id)
    (cw_target r) (cw_band r) (Some (cw_observed_revision r)) (cw_supersedes r).

Definition _same (stored : PriorityClaim) (expected : NewPriorityClaim) : bool := eqb (said stored) expected.

Definition _human_set_claim (p : PrincipalContext) (r : HumanPrioritySet) : NewPriorityClaim :=
  mkNewClaim (uuid5 HUMAN_CLAIM_NAMESPACE (hs_operation_id r)) HUMAN_PRIORITY (hs_subject_kind r) (hs_subject_id r)
    (hs_relation_kind r) (hs_rationale r) "HUMAN" (_human_source_ref p (h_set r))
    (hs_target r) (hs_band r) None (hs_supersedes r).

Definition tombstone_id (r : HumanPriorityClear) : uuid := uuid5 HUMAN_CLEAR_NAMESPACE (hc_operation_id r).

Definition _human_clear_claim (p : PrincipalContext) (r : HumanPriorityClear) (target : PriorityClaim) : NewPriorityClaim :=
  mkNewClaim (tombstone_id r) HUMAN_PRIORITY (hc_subject_kind r) (hc_subject_id r)
    (relation_kind (said target)) "HUMAN priority cleared" "HUMAN_CLEAR" (_human_source_ref p (h_clear r))
    (relation_target_id (said target)) (band (said target)) None (Some (hc_claim_id r)).

Definition _applied (r : PriorityClaimWrite) (p : PrincipalContext) (grant_id : uuid) (qualification : string)
    (claim : PriorityClaim) : GuardOutcome :=
  mkOutcome o_ok "priority_claim_record" (Some (cw_work_id r)) (Some (cw_operation_id r)) "priority_claim_converged"
    applied r_none "Use the recorded receipt."
    (Some (PriorityClaimReceipt (mkHead (cw_operation_id r) p grant_id (cw_grant_version r)) (Some (cw_work_id r))
       true true (cw_work_id r) (claim_id (said claim)) (supersedes_claim_id (said claim)) None
       (Some (cw_observed_revision r)) qualification)) None.

Definition _human_applied (r : HumanRequest) (operation : string) (p : PrincipalContext) (g : WorkGrant)
    (qualification : string) (claim : PriorityClaim) : GuardOutcome :=
  let cleared := match r with h_clear r => Some (hc_claim_id r) | h_set _ => None end in
  mkOutcome o_ok operation (h_work_id r) (Some (h_operation_id r)) "priority_claim_converged"
    applied r_none "Use the recorded receipt."
    (Some (PriorityClaimReceipt (mkHead (h_operation_id r) p (grant_id g) (version g)) (h_work_id r)
       (is_none cleared) (eqb (h_subject_kind r) WORK) (h_subject_id r) (claim_id (said claim))
       (supersedes_claim_id (said claim)) cleared (h_observed_revision r) qualification)) None.

(** ** The world of a run *)

(** What happens at a call: other callers run first, the connection may fail,
    and the clock shows a time. *)
Record Turn := mkTurn { t_others : list ClaimCall; t_fault : Fault; t_now : Z }.

Record PWorld := mkPWorld { w_grants : World; w_claims : ClaimDB; w_turns : list Turn; w_now : Z }.

Definition with_w_grants (g : World) (w : PWorld) : PWorld := mkPWorld g (w_claims w) (w_turns w) (w_now w).

#[export] Instance service_journal : EffectJournal PWorld := journal_via w_grants with_w_grants.
#[export] Instance service_journal_laws : EffectJournalLaws PWorld.
Proof. apply journal_via_laws; [done | apply postgres_journal_laws]. Qed.

Definition on_grants {A} (m : M World A) : M PWorld A := via w_grants with_w_grants m.

Section service.
Context (nfkc_casefold : string → string).

Definition turn_of (w : PWorld) : Turn :=
  match w_turns w with t :: _ => t | [] => mkTurn [] no_fault (w_now w) end.

(** The world in which a call's transaction starts. *)
Definition before_call (w : PWorld) : PWorld :=
  mkPWorld (w_grants w) (run_claims nfkc_casefold (t_others (turn_of w)) (w_claims w)) (tail (w_turns w))
    (t_now (turn_of w)).

Definition claim_call {A} (m : datetime → M ClaimDB A) : M PWorld A := λ w,
  let w1 := before_call w in
  match t_fault (turn_of w) with
  | lost_request => (w1, raise SQLAlchemyError "connection lost")
  | f =>
      let '(d, r) := m (Datetime (w_now w1) (Some 0)) (w_claims w1) in
      (mkPWorld (w_grants w1) d (w_turns w1) (w_now w1),
       match f, r with lost_reply, Ok _ => raise SQLAlchemyError "connection lost" | _, _ => r end)
  end.

(** [self.works.get] *)
Definition works_get (i : uuid) : M ClaimDB (option CurrentWork) := λ d,
  (d, (Tracker.get i (tracker d)).2).

Definition clock : M PWorld Z := λ w, (w, Ok (w_now w)).

Definition repo_get (i : uuid) : M PWorld (option PriorityClaim) := claim_call (λ _, get i).

(** ** Human claims *)

Definition _human_admission (p : PrincipalContext) (r : HumanRequest) (operation : string)
  : M PWorld (WorkGrant * string + GuardOutcome) :=
  grant ← on_grants (db_call (GrantState.current (principal_key p)));
  now ← clock;
  mret match grant with
  | None => inr (human_guard r operation o_denied "no_current_grant" false)
  | Some g =>
      if negb (eqb (principal g) p) || negb (grant_current g now)
      then inr (human_guard r operation o_denied "no_current_grant" false)
      else if negb (eqb (scope g) workspace) || negb (mem priority_claim (operations g))
      then inr (human_guard r operation o_denied "claim_scope_not_granted" false)
      else match priority_claim_qualification g with
      | None => inr (human_guard r operation o_denied "claim_write_not_qualified" false)
      | Some q =>
          if xorb (eqb (assurance p) test) (startswith "test:" q)
          then inr (human_guard r operation o_denied "claim_write_not_qualified" false)
          else inl (g, q)
      end
  end.

Inductive RevisionStatus := rev_current | rev_stale | rev_missing.

Definition _human_revision_status (r : HumanRequest) : M PWorld RevisionStatus :=
  match h_subject_kind r with
  | PROJECT => mret rev_current
  | WORK =>
      work ← claim_call (λ _, works_get (h_subject_id r));
      match work with
      | None => mret rev_missing
      | Some w =>
          actual ← lift (canonical_revision (Tracker.work_id w) (row_version w));
          mret (if eqb (h_observed_revision r) (Some actual) then rev_current else rev_stale)
      end
  end.

(** The [except] clauses of both operations. *)
Definition human_catch (r : HumanRequest) (operation : string) (m : M PWorld GuardOutcome) : M PWorld GuardOutcome :=
  catch (catch (catch m
    [StalePriorityClaim] (λ _, mret (human_guard r operation o_stale "source_revision_changed" false)))
    [LookupError; ValueError] (λ _, mret (human_guard r operation o_denied "invalid_claim_state" false)))
    [SQLAlchemyError; TypeError; KeyError] (λ _, mret (human_guard r operation o_unknown "state_or_effect_unavailable" true)).

(** After the replay check: the revision, then the rest. *)
Definition when_current (r : HumanRequest) (operation : string) (m : M PWorld GuardOutcome) : M PWorld GuardOutcome :=
  revision ← _human_revision_status r;
  match revision with
  | rev_missing => mret (human_guard r operation o_denied "invalid_claim_state" false)
  | rev_stale => mret (human_guard r operation o_stale "source_revision_changed" false)
  | rev_current => m
  end.

Definition human_set (p : PrincipalContext) (r : HumanPrioritySet) : M PWorld GuardOutcome :=
  let operation := "priority_claim_set"%string in
  human_catch (h_set r) operation (
    admission ← _human_admission p (h_set r) operation;
    match admission with
    | inr o => mret o
    | inl (g, q) =>
        let expected := _human_set_claim p r in
        prior ← repo_get (claim_id expected);
        match prior with
        | Some prior =>
            if negb (_same prior expected)
            then mret (human_guard (h_set r) operation o_denied "operation_identity_conflict" false)
            else mret (_human_applied (h_set r) operation p g q prior)
        | None =>
            when_current (h_set r) operation (
              claim ← claim_call (λ now, record now expected (hs_observed_revision r));
              mret (_human_applied (h_set r) operation p g q claim))
        end
    end).

(** A stored tombstone is that of this request. *)
Definition tombstone_of (p : PrincipalContext) (r : HumanPriorityClear) (c : PriorityClaim) : bool :=
  eqb (claim_kind (said c)) HUMAN_PRIORITY && eqb (subject_kind (said c)) (hc_subject_kind r)
  && eqb (subject_id (said c)) (hc_subject_id r) && eqb (supersedes_claim_id (said c)) (Some (hc_claim_id r))
  && eqb (source_label (said c)) "HUMAN_CLEAR" && eqb (source_ref (said c)) (_human_source_ref p (h_clear r))
  && eqb (claim_state c) SUPERSEDED.

Definition human_clear (p : PrincipalContext) (r : HumanPriorityClear) : M PWorld GuardOutcome :=
  let operation := "priority_claim_clear"%string in
  human_catch (h_clear r) operation (
    admission ← _human_admission p (h_clear r) operation;
    match admission with
    | inr o => mret o
    | inl (g, q) =>
        replay ← repo_get (tombstone_id r);
        match replay with
        | Some replay =>
            if negb (tombstone_of p r replay)
            then mret (human_guard (h_clear r) operation o_denied "operation_identity_conflict" false)
            else mret (_human_applied (h_clear r) operation p g q replay)
        | None =>
            when_current (h_clear r) operation (
              target ← repo_get (hc_claim_id r);
              match target with
              | None => mret (human_guard (h_clear r) operation o_denied "invalid_claim_state" false)
              | Some target =>
                  let expected := _human_clear_claim p r target in
                  tombstone ← claim_call (λ now, clear now expected (hc_observed_revision r));
                  if negb (_same tombstone expected) || negb (eqb (claim_state tombstone) SUPERSEDED)
                  then mret (human_guard (h_clear r) operation o_denied "operation_identity_conflict" false)
                  else mret (_human_applied (h_clear r) operation p g q tombstone)
              end)
        end
    end).

(** ** Reads *)

Inductive Currentness := cn_current | cn_stale | cn_unknown.

#[export] Instance Currentness_eq_dec : EqDecision Currentness.
Proof. solve_decision. Defined.

Record PriorityClaimView := mkClaimView { view_of : NewPriorityClaim; currentness : Currentness }.

Inductive ReadStatus := rd_ok | rd_denied | rd_unknown.

#[export] Instance ReadStatus_eq_dec : EqDecision ReadStatus.
Proof. solve_decision. Defined.

Record PriorityClaimReadResult := mkRead {
  read_status : ReadStatus; read_claims : list PriorityClaimView; read_reason : option string }.

Definition claim_currentness (kind : SubjectKind) (revision : option string) (c : NewPriorityClaim) : Currentness :=
  match source_observed_revision c with
  | None => cn_current
  | Some observed =>
      match kind, revision with
      | PROJECT, _ | _, None => cn_unknown
      | WORK, Some r => if eqb observed r then cn_current else cn_stale
      end
  end.

Definition service_current (kind : SubjectKind) (i : uuid) : M PWorld PriorityClaimReadResult :=
  catch (
    claims ← claim_call (λ _, current kind i);
    work ← match kind with WORK => claim_call (λ _, works_get i) | PROJECT => mret None end;
    revision ← match work with
               | None => mret None
               | Some w => lift (Some <$> canonical_revision (Tracker.work_id w) (row_version w))
               end;
    mret (mkRead rd_ok ((λ c, mkClaimView (said c) (claim_currentness kind revision (said c))) <$> claims) None))
    [SQLAlchemyError; TypeError; ValueError]
    (λ _, mret (mkRead rd_unknown [] (Some "claim_state_unavailable"%string))).

(** ** Agents' claims *)

Definition _send (p : PrincipalContext) (r : PriorityClaimWrite) (grant_id : uuid) (qualification : string)
  : M PWorld GuardOutcome :=
  catch (
    claim ← claim_call (λ now, record now (_new r grant_id) None);
    mret (_applied r p grant_id qualification claim))
    [LookupError; ValueError] (λ _, mret (guard r o_denied "invalid_claim_state" false)).

Definition _prepare (p : PrincipalContext) (r : PriorityClaimWrite) (g : WorkGrant) (qualification : string)
  : M PWorld (PreparedMutation PWorld + GuardOutcome) :=
  if negb (eqb (scope g) launch) then mret (inr (guard r o_denied "claim_scope_not_granted" false))
  else
    work ← claim_call (λ _, works_get (cw_work_id r));
    match work with
    | None => mret (inr (guard r o_denied "work_not_bound" false))
    | Some w =>
        actual ← lift (canonical_revision (Tracker.work_id w) (row_version w));
        if negb (eqb (cw_observed_revision r) actual)
        then mret (inr (guard r o_stale "source_revision_changed" false))
        else mret (inl (mkPrepared (JObj [("request", write_json r); ("qualification", JStr qualification)]%string)
                          (_send p r (grant_id g) qualification)))
    end.

Definition intent_qualification (intent : json) : option string :=
  match intent with
  | JObj kvs => match assoc "qualification" kvs with Some (JStr q) => if truthy q then Some q else None | _ => None end
  | _ => None
  end.

Definition _reconcile (p : PrincipalContext) (r : PriorityClaimWrite) (rec : EffectRecord) : M PWorld GuardOutcome :=
  match intent_qualification (er_intent rec) with
  | None => throw ValueError "durable claim intent invalid"
  | Some qualification =>
      let expected := _new r (er_grant_id rec) in
      prior ← claim_call (λ _, provenance (claim_id expected) 1);
      match prior with
      | [] =>
          let outcome := guard r o_not_applied "claim_absence_confirmed" false in
          j_finish outcome;;
          mret outcome
      | prior :: _ =>
          if negb (_same prior expected) then mret (guard r o_denied "claim_identity_conflict" false)
          else
            let outcome := _applied r p (er_grant_id rec) qualification prior in
            j_finish outcome;;
            mret outcome
      end
  end.

Definition write_guard (r : PriorityClaimWrite) : Guard := λ status reason possible,
  guard r status (if eqb reason "operation_or_work_not_granted"%string then "claim_scope_not_granted" else reason) possible.

Definition service_record (p : PrincipalContext) (r : PriorityClaimWrite) : M PWorld GuardOutcome :=
  run_update_or_relation w_now p (mkRequest (cw_operation_id r) (cw_work_id r) (cw_grant_version r))
    (_fingerprint p r) m_priority_claim "claim_write_not_qualified" (write_guard r) (_prepare p r) (_reconcile p r).

(** ** What a call of the repository does *)

(** From [w] to [w'] only other callers changed the claims. *)
Definition silent (w w' : PWorld) : Prop :=
  ∃ n, w_claims w' = run_claims nfkc_casefold (concat (t_others <$> take n (w_turns w))) (w_claims w) ∧
    w_turns w' = drop n (w_turns w).

#[export] Instance silent_preorder : PreOrder silent.
Proof.
  split; [by intros w; exists 0%nat|].
  intros w1 w2 w3 (n & Hn & Tn) (m & Hm & Tm). exists (n + m)%nat.
  rewrite Hm, Tm, Hn, Tn, drop_drop. split; [|done].
  rewrite <- run_claims_app, <- concat_app, <- fmap_app. by rewrite take_take_drop.
Qed.

Lemma before_silent w : silent w (before_call w).
Proof.
  unfold silent, before_call, turn_of. destruct w as [g d [|t ts] now]; cbn; [by exists 0%nat|].
  exists 1%nat. cbn. by rewrite app_nil_r.
Qed.

Lemma silent_inv w w' : silent w w' → AllInv nfkc_casefold (w_claims w) →
  AllInv nfkc_casefold (w_claims w') ∧ evolves (w_claims w) (w_claims w').
Proof. intros (n & -> & _) H. by apply claim_steps. Qed.

(** The world after a call that left the claims [d]. *)
Definition after_call (d : ClaimDB) (w : PWorld) : PWorld :=
  let w1 := before_call w in mkPWorld (w_grants w1) d (w_turns w1) (w_now w1).

Lemma claim_call_cases {A} (m : datetime → M ClaimDB A) w w' r :
  claim_call m w = (w', r) →
  let d := w_claims (before_call w) in
  let now := Datetime (w_now (before_call w)) (Some 0) in
  r = raise SQLAlchemyError "connection lost" ∧ (w' = before_call w ∨ w' = after_call (m now d).1 w) ∨
  w' = after_call (m now d).1 w ∧ r = (m now d).2.
Proof.
  unfold claim_call, after_call. cbv zeta. destruct (t_fault (turn_of w)).
  - destruct (m _ _) as [d r']. intros [= <- <-]. by right.
  - intros [= <- <-]. left. auto.
  - destruct (m _ _) as [d r']. intros [= <- <-]. destruct r'; [left | right]; auto.
Qed.

(** The call without a fault. *)
Lemma claim_call_ok {A} (m : datetime → M ClaimDB A) w :
  t_fault (turn_of w) = no_fault →
  claim_call m w = let x := m (Datetime (w_now (before_call w)) (Some 0)) (w_claims (before_call w)) in
    (after_call x.1 w, x.2).
Proof. intros H. unfold claim_call, after_call. rewrite H. by destruct (m _ _). Qed.

Lemma after_same w d : d = w_claims (before_call w) → after_call d w = before_call w.
Proof. by intros ->. Qed.

(** A read. *)
Definition reads {A} (m : datetime → M ClaimDB A) : Prop := ∀ now d, (m now d).1 = d.

Lemma claim_read {A} (m : datetime → M ClaimDB A) w w' r :
  reads m → claim_call m w = (w', r) →
  w' = before_call w ∧
  (r = raise SQLAlchemyError "connection lost" ∨
   r = (m (Datetime (w_now (before_call w)) (Some 0)) (w_claims (before_call w))).2).
Proof.
  intros Hm H. apply claim_call_cases in H as [[-> [->| ->]]|[-> ->]]; cbv zeta; rewrite ?Hm; auto.
Qed.

Lemma reads_get i : reads (λ _, get i).
Proof.
  intros now d. unfold get, transaction. rewrite find_claim_run. by destruct (one_or_none _).
Qed.

Lemma reads_work i : reads (λ _, works_get i).
Proof. done. Qed.

Lemma reads_current kind i : reads (λ _, current kind i).
Proof. done. Qed.

Lemma claim_get_run i d : get i d = (d, one_or_none (List.filter (has_id i) (claims d))).
Proof. unfold get, transaction. rewrite find_claim_run. by destruct (one_or_none _). Qed.

(** The claim found by an identifier. *)
Lemma get_found i d c : (get i d).2 = Ok (Some c) → c ∈ claims d ∧ claim_id (said c) = i.
Proof.
  rewrite claim_get_run. destruct (List.filter (has_id i) (claims d)) as [|x [|]] eqn:E; cbn; try done. intros [= ->].
  assert (H : In c (List.filter (has_id i) (claims d))) by (rewrite E; by left).
  apply filter_In in H as [H1 H2]. unfold has_id in H2. rewrite eqb_true in H2. by rewrite list_elem_of_In.
Qed.

Lemma get_present i d c : ClaimsInv d → c ∈ claims d → claim_id (said c) = i → get i d = (d, Ok (Some c)).
Proof. intros Hd Hc Hi. rewrite claim_get_run, (has_id_unique d c i); [done | apply Hd | done..]. Qed.

(** ** Exceptions *)

Definition REPOSITORY_ERRORS : list exn_class :=
  [ValueError; LookupError; StalePriorityClaim; SQLAlchemyError; IntegrityError].

Lemma fails_find i : fails REPOSITORY_ERRORS (find_claim i).
Proof.
  intros s s' e. rewrite find_claim_run. destruct (List.filter _ _) as [|? [|]]; try done.
  intros [= _ <-]. in_errors.
Qed.

Lemma canonical_revision_err i v e : canonical_revision i v = Err e → exn_cls e ∈ REPOSITORY_ERRORS.
Proof. unfold canonical_revision. destruct (v <? 1); [|done]. intros [= <-]. in_errors. Qed.

Lemma fails_revision kind i o : fails REPOSITORY_ERRORS (_require_revision kind i o).
Proof.
  unfold _require_revision. fails_steps. apply fails_lift. intros e. apply canonical_revision_err.
Qed.

Lemma fails_record now v o : fails REPOSITORY_ERRORS (record now v o).
Proof.
  unfold record, _require_subject, end_predecessor, supersede, insert_claim, refuse_if.
  fails_steps; apply fails_find || apply fails_revision.
Qed.

Lemma fails_clear now v o : fails REPOSITORY_ERRORS (clear now v o).
Proof.
  unfold clear, _require_subject, end_predecessor, supersede, insert_claim, refuse_if.
  fails_steps; apply fails_find || apply fails_revision.
Qed.

Lemma fails_call {A} (m : datetime → M ClaimDB A) :
  (∀ now, fails REPOSITORY_ERRORS (m now)) → fails REPOSITORY_ERRORS (claim_call m).
Proof.
  intros Hm w w' e H. apply claim_call_cases in H as [[[= ->] _]|[_ H]]; [in_errors|].
  destruct (m _ _) as [d r] eqn:E. cbn in H. subst r. by eapply Hm.
Qed.

(** ** What a human's request may tell *)

(** [own] holds once the request's claim is stored. *)
Definition told (own : ClaimDB → Prop) (w : PWorld) (x : PWorld * res GuardOutcome) : Prop :=
  match x.2 with
  | Ok o =>
      match effect o with
      | applied => status o = o_ok ∧ own (w_claims x.1)
      | not_sent => status o ≠ o_ok ∧ silent w x.1
      | unknown => False
      end
  | Err e =>
      exn_cls e ∈ REPOSITORY_ERRORS ∧
      (silent w x.1 ∨ own (w_claims x.1) ∧ exn_isinstance (exn_cls e) SQLAlchemyError = true)
  end.

Lemma told_silent own w w1 x : silent w w1 → told own w1 x → told own w x.
Proof.
  intros Hs. unfold told. destruct x.2 as [o|e].
  - destruct (effect o); try done. intros [? ?]. split; [done | by etrans].
  - intros [? [?|?]]; (split; [done|]); [left; by etrans | by right].
Qed.

Lemma told_bind {A} own (m : M PWorld A) (f : A → M PWorld GuardOutcome) w :
  AllInv nfkc_casefold (w_claims w) →
  silent w (m w).1 → fails REPOSITORY_ERRORS m →
  (∀ w' a, m w = (w', Ok a) → AllInv nfkc_casefold (w_claims w') → told own w' (f a w')) →
  told own w ((m ≫= f) w).
Proof.
  intros Hw Hs Hf H. unfold mbind, M_bind. destruct (m w) as [w' [a|e]] eqn:E; cbn in Hs.
  - eapply told_silent; [exact Hs|]. apply H; [done|]. by apply (silent_inv w w').
  - split; [by eapply Hf | by left].
Qed.

Lemma told_ret own w o : effect o = not_sent → status o ≠ o_ok → told own w (mret (M := M PWorld) o w).
Proof. intros H. unfold told. cbn. by rewrite H. Qed.

Lemma silent_read {A} (m : datetime → M ClaimDB A) w : reads m → silent w (claim_call m w).1.
Proof.
  intros Hm. destruct (claim_call m w) as [w' r] eqn:E. apply claim_read in E as [-> _]; [|done]. apply before_silent.
Qed.

Lemma fails_get i : fails REPOSITORY_ERRORS (repo_get i).
Proof. apply fails_call. intros _. apply fails_transaction, fails_find. Qed.

Lemma fails_works i : fails REPOSITORY_ERRORS (claim_call (λ _, works_get i)).
Proof. apply fails_call. by intros _ s s' e. Qed.

Lemma admission_facts p r op w w' x :
  _human_admission p r op w = (w', x) →
  silent w w' ∧ w_claims w' = w_claims w ∧
  match x with
  | Ok (inl (g, q)) =>
      work_grants (w_db (w_grants w)) !! principal_key p = Some (Some g) ∧ principal g = p ∧
      grant_current g (w_now w) = true ∧ scope g = workspace ∧ priority_claim ∈ operations g ∧
      priority_claim_qualification g = Some q ∧ eqb (assurance p) test = startswith "test:" q
  | Ok (inr o) => effect o = not_sent ∧ status o ≠ o_ok
  | Err e => exn_cls e = SQLAlchemyError
  end.
Proof.
  assert (Hs : ∀ g', silent w (with_w_grants g' w)) by (intros g'; by exists 0%nat).
  unfold _human_admission, on_grants, via, db_call, clock, mbind, M_bind, GrantState.current, mret, M_ret.
  destruct (faults (w_grants w)) as [|[] fs]; [|by intros [= <- <-]|];
    (destruct (work_grants (w_db (w_grants w)) !! principal_key p) as [[g|]|] eqn:Eg; cbn;
     [|by intros [= <- <-]|by intros [= <- <-]]);
    destruct (negb (eqb (principal g) p) || negb (grant_current g (w_now w))) eqn:E1; [by intros [= <- <-]| |by intros [= <- <-]|];
    (destruct (negb (eqb (scope g) workspace) || negb (mem priority_claim (operations g))) eqn:E2; [by intros [= <- <-]|];
     destruct (priority_claim_qualification g) as [q|] eqn:E3; [|by intros [= <- <-]];
     destruct (xorb _ _) eqn:E4; [by intros [= <- <-]|]; intros [= <- <-]; to_prop;
     split_and!; try done; try tauto; by apply xorb_eq).
Qed.

Lemma told_when_current own r op m w :
  AllInv nfkc_casefold (w_claims w) →
  (∀ w', AllInv nfkc_casefold (w_claims w') → told own w' (m w')) → told own w (when_current r op m w).
Proof.
  intros Hw Hm. unfold when_current. apply told_bind; [done| | |].
  - unfold _human_revision_status. destruct (h_subject_kind r); [|done].
    destruct (claim_call (λ _, works_get (h_subject_id r)) w) as [w1 x] eqn:E.
    apply claim_read in E as [-> Hx]; [|done]. unfold mbind, M_bind.
    destruct (claim_call _ w) as [w2 y] eqn:E2. apply claim_read in E2 as [-> _]; [|done].
    pose proof (before_silent w) as Hs. destruct y as [[work|]|e]; cbn; try done.
    by destruct (canonical_revision _ _).
  - unfold _human_revision_status. destruct (h_subject_kind r); [|by intros s s' e].
    apply fails_bind; [apply fails_works|]. intros [work|]; [|by intros s s' e].
    apply fails_bind; [apply fails_lift; intros e; apply canonical_revision_err | by intros a s s' e].
  - intros w' [] _ Hw'; [by apply Hm | by apply told_ret..].
Qed.

(** The same of an answer. *)
Definition answered (own : ClaimDB → Prop) (w w' : PWorld) (o : GuardOutcome) : Prop :=
  match effect o with
  | applied => status o = o_ok ∧ own (w_claims w')
  | not_sent => status o ≠ o_ok ∧ silent w w'
  | unknown => status o = o_unknown ∧ retry o = r_reconcile ∧ (silent w w' ∨ own (w_claims w'))
  end.

Lemma told_catch own r op m w :
  told own w (m w) →
  ∃ o, (human_catch r op m w).2 = Ok o ∧
    answered own w (human_catch r op m w).1 o.
Proof.
  unfold told, answered, human_catch, catch. destruct (m w) as [w' [o|e]]; cbn [fst snd].
  - intros H. exists o. split; [done|]. by destruct (effect o).
  - intros [He Ho]. destruct e as [c msg]. cbn [exn_cls] in *.
    unfold REPOSITORY_ERRORS in He. rewrite !elem_of_cons in He.
    destruct He as [->|[->|[->|[->|[->|He]]]]]; [..|by apply not_elem_of_nil in He];
      cbn -[silent]; eexists; (split; [reflexivity|]); cbn -[silent];
      (destruct Ho as [Ho|[Ho1 Ho2]]; [|try discriminate Ho2]; split_and!; try done; (by left) || by right).
Qed.

(** A call that writes: it fails and leaves the claims, or succeeds; in either
    case the claims are as they were or hold the request's claim. *)
Lemma told_write {A} (own : ClaimDB → Prop) (m : datetime → M ClaimDB A) (f : A → M PWorld GuardOutcome) w :
  AllInv nfkc_casefold (w_claims w) →
  (∀ now, fails REPOSITORY_ERRORS (m now)) →
  (∀ now d d' r, AllInv nfkc_casefold d → m now d = (d', r) →
     match r with Err _ => d' = d | Ok a => d' = d ∨ own d' end) →
  (∀ now d d' a w', m now d = (d', Ok a) → AllInv nfkc_casefold d → w_claims w' = d' →
     (d' = d → silent w w') → told own w (f a w')) →
  told own w ((claim_call m ≫= f) w).
Proof.
  intros Hw Hf Hm Hk. unfold mbind, M_bind.
  pose proof (before_silent w) as Hs. destruct (silent_inv _ _ Hs Hw) as [Hb _].
  assert (Hsame : ∀ d, d = w_claims (before_call w) → silent w (after_call d w)) by (intros d ->; exact Hs).
  pose proof (fails_call m Hf w) as Hfe.
  destruct (claim_call m w) as [w' r] eqn:E. apply claim_call_cases in E as [[-> Hw']|[-> ->]].
  - split; [by eapply Hfe|]. destruct Hw' as [-> | ->]; [by left|].
    destruct (m _ _) as [d r] eqn:E. specialize (Hm _ _ _ _ Hb E). cbn [fst].
    destruct r; [destruct Hm as [Hm|Hm]; [left; by apply Hsame | by right] | left; by apply Hsame].
  - destruct (m _ _) as [d r] eqn:E. cbn [fst snd]. destruct r as [a|e].
    + eapply Hk; [exact E | done | done | apply Hsame].
    + specialize (Hm _ _ _ _ Hb E). split; [by eapply Hfe|]. left. by apply Hsame.
Qed.

(** The claim that a human's request keeps. *)
Definition set_kept (p : PrincipalContext) (r : HumanPrioritySet) (d : ClaimDB) : Prop :=
  ∃ c, c ∈ claims d ∧ said c = _human_set_claim p r.

Definition clear_kept (p : PrincipalContext) (r : HumanPriorityClear) (d : ClaimDB) : Prop :=
  ∃ c, c ∈ claims d ∧ claim_id (said c) = tombstone_id r ∧ tombstone_of p r c = true.

Lemma added_elem c d : c ∈ claims (added c d).
Proof. apply claims_elem. exists (length (claims d)). apply added_new. Qed.

Lemma told_set_body p r op g q w :
  AllInv nfkc_casefold (w_claims w) →
  told (set_kept p r) w ((claim ← claim_call (λ now, record now (_human_set_claim p r) (hs_observed_revision r));
    mret (_human_applied (h_set r) op p g q claim)) w).
Proof.
  intros Hw. apply told_write; [done | intros; apply fails_record | |].
  - intros now d d' x _ E. apply claim_record_cases in E as [[-> [e ->]]|(_ & _ & -> & ->)]; [done|].
    right. eexists. split; [apply added_elem | done].
  - intros now d d' a w' E _ Hc _. apply claim_record_cases in E as [[_ [e [=]]]|(_ & _ & Hd & [= ->])].
    unfold told. cbn. unfold set_kept. rewrite Hc, Hd. split; [done|]. eexists. split; [apply added_elem | done].
Qed.

Lemma fails_admission p r op : fails REPOSITORY_ERRORS (_human_admission p r op).
Proof using nfkc_casefold. intros s s' e E. destruct (admission_facts _ _ _ _ _ _ E) as (_ & _ & ->). in_errors. Qed.

Lemma told_admission own p r op k w :
  AllInv nfkc_casefold (w_claims w) →
  (∀ w' g q, AllInv nfkc_casefold (w_claims w') → told own w' (k (g, q) w')) →
  told own w ((a ← _human_admission p r op; match a with inr o => mret o | inl gq => k gq end) w).
Proof.
  intros Hw Hk. apply told_bind; [done| |apply fails_admission|].
  - destruct (_human_admission p r op w) as [w' x] eqn:E. by apply admission_facts in E as (? & _).
  - intros w' [[g q]|o] E Hw'; [by apply Hk|]. apply admission_facts in E as (_ & _ & ? & ?). by apply told_ret.
Qed.

Lemma told_set p r w : AllInv nfkc_casefold (w_claims w) →
  ∃ o, (human_set p r w).2 = Ok o ∧
    answered (set_kept p r) w (human_set p r w).1 o.
Proof.
  intros Hw. apply told_catch.
  apply (told_admission _ _ _ _ (λ gq, let '(g, q) := gq in _)); [done|]. clear w Hw. intros w g q Hw.
  apply told_bind; [done | by apply silent_read, reads_get | apply fails_get |].
  intros w' [c|] E Hw'.
  - destruct (_same c _) eqn:Es; [|by apply told_ret]. unfold told. cbn. unfold _same in Es. rewrite eqb_true in Es.
    apply claim_read in E as [-> [E|E]]; [done| |apply reads_get]. symmetry in E. apply get_found in E as [E _]. split; [done | by exists c].
  - apply told_when_current; [done|]. clear. intros w Hw. by apply told_set_body.
Qed.

Lemma told_clear_body p r op g q target w :
  AllInv nfkc_casefold (w_claims w) →
  told (clear_kept p r) w ((tombstone ← claim_call (λ now, clear now (_human_clear_claim p r target) (hc_observed_revision r));
    if negb (_same tombstone (_human_clear_claim p r target)) || negb (eqb (claim_state tombstone) SUPERSEDED)
    then mret (human_guard (h_clear r) op o_denied "operation_identity_conflict" false)
    else mret (_human_applied (h_clear r) op p g q tombstone)) w).
Proof.
  intros Hw.
  assert (Hkept : ∀ c d, c ∈ claims d → said c = _human_clear_claim p r target → claim_state c = SUPERSEDED → clear_kept p r d).
  { intros c d Hc Hsaid Hst. exists c. unfold tombstone_of. rewrite Hsaid, Hst. cbn. rewrite !eqb_refl. done. }
  apply told_write; [done | intros; apply fails_clear | |].
  - intros now d d' x _ E. apply clear_cases in E as [[-> [e ->]]|[[-> [c [-> _]]]|(_ & _ & -> & ->)]]; [done | by left|].
    right. eapply Hkept; [apply added_elem | done..].
  - intros now d d' a w' E Hd Hc Hsame. apply clear_cases in E as [[_ [e [=]]]|[[Hd' [c [[= ->] Hf]]]|(_ & _ & Hd' & [= ->])]].
    + destruct (_ || _) eqn:Es.
      * unfold told. cbn. split; [done | by apply Hsame].
      * rewrite orb_false_iff, !negb_false_iff in Es. destruct Es as [E1 E2]. unfold _same in E1. rewrite eqb_true in E1. rewrite eqb_true in E2.
        unfold told. cbn. split; [done|]. apply (Hkept c); [|done..]. rewrite Hc, Hd'.
        assert (Hin : In c (List.filter (has_id (claim_id (_human_clear_claim p r target))) (claims d))) by (rewrite Hf; by left).
        apply filter_In in Hin as [Hin _]. by apply list_elem_of_In.
    + unfold _same. cbn [said claim_state]. rewrite !eqb_refl. unfold told. cbn.
      split; [done|]. eapply Hkept; [rewrite Hc, Hd'; apply added_elem | done..].
Qed.

Lemma told_clear p r w : AllInv nfkc_casefold (w_claims w) →
  ∃ o, (human_clear p r w).2 = Ok o ∧
    answered (clear_kept p r) w (human_clear p r w).1 o.
Proof.
  intros Hw. apply told_catch.
  apply (told_admission _ _ _ _ (λ gq, let '(g, q) := gq in _)); [done|]. clear w Hw. intros w g q Hw.
  apply told_bind; [done | by apply silent_read, reads_get | apply fails_get |].
  intros w' [c|] E Hw'.
  - destruct (tombstone_of p r c) eqn:Es; [|by apply told_ret]. unfold told. cbn.
    apply claim_read in E as [-> [E|E]]; [done| |apply reads_get]. symmetry in E. apply get_found in E as [E1 E2]. split; [done | by exists c].
  - apply told_when_current; [done|]. clear. intros w Hw.
    apply told_bind; [done | by apply silent_read, reads_get | apply fails_get |].
    intros w' [target|] _ Hw'; [by apply told_clear_body | by apply told_ret].
Qed.

(** ** Both requests alike *)

Definition human_run (p : PrincipalContext) (r : HumanRequest) : M PWorld GuardOutcome :=
  match r with h_set r => human_set p r | h_clear r => human_clear p r end.

Definition kept (p : PrincipalContext) (r : HumanRequest) (d : ClaimDB) : Prop :=
  match r with h_set r => set_kept p r d | h_clear r => clear_kept p r d end.

Definition h_operation (r : HumanRequest) : string :=
  match r with h_set _ => "priority_claim_set" | h_clear _ => "priority_claim_clear" end.

(** The identifier under which the claim is kept. *)
Definition kept_id (r : HumanRequest) : uuid :=
  match r with
  | h_set r => uuid5 HUMAN_CLAIM_NAMESPACE (hs_operation_id r)
  | h_clear r => tombstone_id r
  end.

(** The principal's grant allows the request at the time of [w]. *)
Definition human_admitted (p : PrincipalContext) (w : PWorld) : Prop :=
  ∃ g q, work_grants (w_db (w_grants w)) !! principal_key p = Some (Some g) ∧ principal g = p ∧
    grant_current g (w_now w) = true ∧ scope g = workspace ∧ priority_claim ∈ operations g ∧
    priority_claim_qualification g = Some q ∧ eqb (assurance p) test = startswith "test:" q.

Lemma admission_admits p r op w :
  human_admitted p w → faults (w_grants w) = [] →
  ∃ g q w', _human_admission p r op w = (w', Ok (inl (g, q))) ∧ w_claims w' = w_claims w ∧ w_turns w' = w_turns w.
Proof.
  intros (g & q & Hg & Hp & Hc & Hs & Ho & Hq & Ha) Hf. exists g, q, (with_w_grants (mkWorld (w_db (w_grants w)) []) w).
  split; [|done].
  unfold _human_admission, on_grants, via, db_call, clock, mbind, M_bind, GrantState.current, mret, M_ret. rewrite Hf. cbn.
  rewrite Hg. cbn. rewrite Hp, eqb_refl, Hc, Hs, eqb_refl. cbn.
  rewrite (proj2 (mem_true _ _) Ho). cbn. rewrite Hq. rewrite Ha, xorb_nilpotent. done.
Qed.

Lemma not_admitted p r w o :
  (human_run p r w).2 = Ok o → effect o = applied → human_admitted p w.
Proof.
  intros Hr He.
  destruct (_human_admission p r (h_operation r) w) as [w1 x] eqn:E. pose proof (admission_facts _ _ _ _ _ _ E) as (_ & _ & H).
  destruct x as [[[g q]|o']|e]; [by exists g, q | |].
  - exfalso. destruct r as [r|r]; cbn [human_run h_operation] in *; unfold human_set, human_clear, human_catch, catch in Hr;
      unfold mbind, M_bind in Hr; rewrite E in Hr; cbn in Hr; injection Hr as ->; destruct H; congruence.
  - exfalso. destruct e as [cls msg]. cbn in H. subst cls.
    destruct r as [r|r]; cbn [human_run h_operation] in *; unfold human_set, human_clear, human_catch, catch in Hr;
      unfold mbind, M_bind in Hr; rewrite E in Hr; cbn in Hr; injection Hr as <-; discriminate He.
Qed.

Lemma kept_evolves p r d d' : evolves d d' → AllInv nfkc_casefold d' → kept p r d → kept p r d'.
Proof.
  intros [_ Hev] _. destruct r as [r|r]; cbn [kept].
  - intros (c & [i Hi]%claims_elem & Hs). destruct (Hev i c Hi) as (c' & Hc' & Hsaid & _).
    exists c'. split; [apply claims_elem; eauto | congruence].
  - intros (c & [i Hi]%claims_elem & Hid & Ht). destruct (Hev i c Hi) as (c' & Hc' & Hsaid & _ & Hst).
    exists c'. split; [apply claims_elem; eauto|]. rewrite Hsaid. split; [done|].
    unfold tombstone_of in *. rewrite Hsaid. rewrite !andb_true_iff, !eqb_true in *.
    split; [tauto|]. destruct Hst as [->|(? & ? & _)]; tauto.
Qed.

(** ** Claims only grow *)

(** From [w0] on, the tables are well formed and the claims have evolved. *)
Definition grown (w0 w : PWorld) : Prop :=
  AllInv nfkc_casefold (w_claims w) ∧ evolves (w_claims w0) (w_claims w).

Definition grows {A} (m : M ClaimDB A) : Prop :=
  ∀ d, AllInv nfkc_casefold d → AllInv nfkc_casefold (m d).1 ∧ evolves d (m d).1.

Lemma grows_record now v o : grows (record now v o).
Proof. intros d Hd. apply (claim_step nfkc_casefold (cc_record now v o) d Hd). Qed.
Lemma grows_clear now v o : grows (clear now v o).
Proof. intros d Hd. apply (claim_step nfkc_casefold (cc_clear now v o) d Hd). Qed.
Lemma grows_reads {A} (m : datetime → M ClaimDB A) now : reads m → grows (m now).
Proof. intros Hm d Hd. by rewrite Hm. Qed.

Lemma keeps_call {A} w0 (m : datetime → M ClaimDB A) :
  (∀ now, grows (m now)) → keeps (grown w0) (claim_call m) (λ _, True).
Proof.
  intros Hm w [Hw He]. split; [|done].
  destruct (silent_inv _ _ (before_silent w) Hw) as [Hb Heb].
  assert (Hb' : grown w0 (before_call w)) by (split; [done | by etrans]).
  destruct (claim_call m w) as [w' r] eqn:E. apply claim_call_cases in E as [[_ [-> | ->]]|[-> _]]; [done| |];
    (destruct (Hm (Datetime (w_now (before_call w)) (Some 0)) (w_claims (before_call w)) Hb) as [H1 H2];
     split; [done | etrans; [apply Hb'|]; exact H2]).
Qed.

Lemma keeps_grants {A} w0 (m : M World A) : keeps (grown w0) (on_grants m) (λ _, True).
Proof. intros w Hw. unfold on_grants, via. destruct (m (w_grants w)). by split. Qed.

Ltac keeps_service :=
  repeat first
    [ apply keeps_catch; [|intros ?]
    | apply keeps_call; intros ?;
      first [apply grows_record | apply grows_clear | apply (grows_reads (λ _, _)); first [apply reads_get | done]]
    | apply keeps_grants
    | progress keeps_writes ].

Lemma human_grown p r w0 : keeps (grown w0) (human_run p r) (λ _, True).
Proof.
  destruct r as [r|r]; cbn [human_run]; unfold human_set, human_clear, human_catch, _human_admission, clock,
    when_current, _human_revision_status, repo_get; keeps_service.
Qed.
(** C7: an answer to a human's request is true.  Whatever the connection does
    and whoever else runs, the request is answered; [applied] means that a
    claim with exactly the request's content is stored and that a current
    workspace grant of this principal allowed it, [not_sent] that the request
    itself changed nothing, and only [unknown] leaves open whether the claim
    was stored. *)
Theorem human_truthful p r w :
  AllInv nfkc_casefold (w_claims w) →
  ∃ o w', human_run p r w = (w', Ok o) ∧ AllInv nfkc_casefold (w_claims w') ∧
    match effect o with
    | applied => status o = o_ok ∧ human_admitted p w ∧ kept p r (w_claims w')
    | not_sent => status o ≠ o_ok ∧ silent w w'
    | unknown => status o = o_unknown ∧ retry o = r_reconcile ∧ (silent w w' ∨ kept p r (w_claims w'))
    end.
Proof.
  intros Hw. destruct (human_grown p r w w) as [[Hinv _] _]; [by split|].
  assert (H : ∃ o, (human_run p r w).2 = Ok o ∧ answered (kept p r) w (human_run p r w).1 o)
    by (destruct r; [by apply told_set | by apply told_clear]).
  destruct H as (o & Ho & Ha). pose proof (not_admitted p r w o Ho) as Hadm.
  destruct (human_run p r w) as [w' x]. cbn in *. subst x. exists o, w'. split_and!; [done..|].
  unfold answered in Ha. destruct (effect o); tauto.
Qed.

(** Repeating a human's request after its claim was stored - whatever was
    answered then, and whoever changed what since, the claim's end included -
    finds the claim under the operation, answers [applied] with its
    identifier, and stores nothing. *)
Theorem human_replay p r w :
  AllInv nfkc_casefold (w_claims w) → kept p r (w_claims w) → human_admitted p w →
  faults (w_grants w) = [] → t_fault (turn_of w) = no_fault →
  ∃ o w' h wk st sw s sup clr rev q, human_run p r w = (w', Ok o) ∧ effect o = applied ∧ silent w w' ∧
    receipt o = Some (PriorityClaimReceipt h wk st sw s (kept_id r) sup clr rev q) ∧
    r_operation_id h = h_operation_id r.
Proof.
  intros Hw Hk Hadm Hf Hnf.
  destruct (admission_admits p r (h_operation r) w Hadm Hf) as (g & q & w1 & E & Hc1 & Ht1).
  assert (Hw1 : AllInv nfkc_casefold (w_claims w1)) by congruence.
  assert (Hnf1 : t_fault (turn_of w1) = no_fault) by (unfold turn_of in *; rewrite Ht1; by destruct (w_turns w)).
  assert (Hs1 : silent w w1) by (exists 0%nat; by rewrite Hc1, Ht1).
  destruct (silent_inv _ _ (before_silent w1) Hw1) as [Hb Heb].
  assert (Hk1 : kept p r (w_claims (before_call w1))) by (eapply kept_evolves; [exact Heb | done | congruence]).
  assert (Hget : ∀ i c, c ∈ claims (w_claims (before_call w1)) → claim_id (said c) = i →
    repo_get i w1 = (before_call w1, Ok (Some c))).
  { intros i c Hc Hi. unfold repo_get. rewrite claim_call_ok by done. cbv zeta.
    rewrite (get_present _ _ c) by (done || apply Hb). by rewrite after_same. }
  destruct r as [r|r]; cbn [human_run kept kept_id h_operation] in *.
  - destruct Hk1 as (c & Hc & Hsaid).
    unfold human_set, human_catch, catch, mbind, M_bind. rewrite E. rewrite (Hget _ c) by (done || by rewrite Hsaid).
    unfold _same. rewrite Hsaid, eqb_refl. cbn.
    do 11 eexists. split; [reflexivity|]. split; [reflexivity|].
    split; [etrans; [exact Hs1 | apply before_silent]|].
    split; [unfold _human_applied; rewrite Hsaid; reflexivity | reflexivity].
  - destruct Hk1 as (c & Hc & Hid & Ht).
    unfold human_clear, human_catch, catch, mbind, M_bind. rewrite E. rewrite (Hget _ c) by done.
    rewrite Ht. cbn.
    do 11 eexists. split; [reflexivity|]. split; [reflexivity|].
    split; [etrans; [exact Hs1 | apply before_silent]|].
    split; [unfold _human_applied; rewrite Hid; reflexivity | reflexivity].
Qed.

(** ** Receipts *)

(** A receipt for a claim names a claim that is stored, about its subject. *)
Definition backed (o : GuardOutcome) (w : PWorld) : Prop :=
  match receipt o with
  | Some (PriorityClaimReceipt _ _ _ subject_is_work s i sup _ _ _) =>
      ∃ c, c ∈ claims (w_claims w) ∧ claim_id (said c) = i ∧ subject_id (said c) = s ∧
        subject_is_work = eqb (subject_kind (said c)) WORK ∧ supersedes_claim_id (said c) = sup
  | _ => True
  end.

(** Claims that have evolved from [d0], and a journal whose outcomes are all
    backed. *)
Section receipts.
Context (d0 : ClaimDB).

Definition sound (w : PWorld) : Prop :=
  AllInv nfkc_casefold (w_claims w) ∧ evolves d0 (w_claims w) ∧
  ∀ op row, effect_intents (w_db (w_grants w)) !! op = Some row → backed (outcome row) w.

Lemma backed_evolves o w w' : evolves (w_claims w) (w_claims w') → backed o w → backed o w'.
Proof.
  intros [_ Hev]. unfold backed. destruct (receipt o) as [[]|]; try done.
  intros (c & [i Hi]%claims_elem & H). destruct (Hev i c Hi) as (c' & Hc' & Hsaid & _).
  exists c'. rewrite Hsaid. split; [apply claims_elem; eauto | done].
Qed.

Lemma backed_none o w : receipt o = None → backed o w.
Proof. intros H. unfold backed. by rewrite H. Qed.

(** Growing claims and the same journal. *)
Lemma sound_grown w w' :
  sound w → grown w w' → effect_intents (w_db (w_grants w')) = effect_intents (w_db (w_grants w)) → sound w'.
Proof.
  intros (_ & H0 & Hj) [Hw He] Hr. split; [done|]. split; [by etrans|]. intros op row. rewrite Hr. intros H. eapply backed_evolves; [exact He|]. by eapply Hj.
Qed.

Lemma call_journal {A} (m : datetime → M ClaimDB A) w : w_grants (claim_call m w).1 = w_grants w.
Proof. unfold claim_call, before_call. destruct (t_fault _); [destruct (m _ _) | | destruct (m _ _)]; done. Qed.

Lemma grown_refl w : sound w → grown w w.
Proof. by intros [H _]. Qed.

(** A call of the repository, and what it returned. *)
Lemma secures_call {A} (m : datetime → M ClaimDB A) (Q : A → PWorld → Prop) :
  (∀ now, grows (m now)) →
  (∀ now d d' a w, AllInv nfkc_casefold d → m now d = (d', Ok a) → w_claims w = d' → Q a w) →
  secures sound (claim_call m) Q.
Proof.
  intros Hm HQ w Hw. split.
  - apply (sound_grown w); [done | | by rewrite call_journal].
    apply (keeps_call w m Hm w). by apply grown_refl.
  - intros a E. destruct (claim_call m w) as [w' r] eqn:Ec. cbn in E. subst r.
    apply claim_call_cases in Ec as [[[=] _]|[-> E]].
    destruct (m _ _) as [d r] eqn:Em. cbn in E. subst r. eapply HQ; [|exact Em | done].
    apply (silent_inv _ _ (before_silent w)), Hw.
Qed.

Lemma secures_then {A B} (P : PWorld → Prop) (m : M PWorld A) (f : A → M PWorld B) Q R :
  secures P m Q → (∀ a w, P w → Q a w → P (f a w).1 ∧ ∀ b, (f a w).2 = Ok b → R b (f a w).1) →
  secures P (m ≫= f) R.
Proof.
  intros Hm Hf w Hw. destruct (Hm w Hw) as [H1 H2]. unfold mbind, M_bind.
  destruct (m w) as [w1 [a|e]]; cbn in *; [by apply Hf; auto | done].
Qed.

Lemma secures_mret {A} (P : PWorld → Prop) (a : A) (Q : A → PWorld → Prop) w :
  P w → Q a w → P (mret (M := M PWorld) a w).1 ∧ ∀ b, (mret (M := M PWorld) a w).2 = Ok b → Q b (mret (M := M PWorld) a w).1.
Proof. intros H1 H2. split; [done|]. by intros b [= <-]. Qed.

Lemma secures_catch {A} (P : PWorld → Prop) (m : M PWorld A) L (a : A) Q :
  secures P m Q → (∀ w, Q a w) → secures P (catch m L (λ _, mret a)) Q.
Proof.
  intros Hm Ha w Hw. destruct (Hm w Hw) as [H1 H2]. unfold catch. destruct (m w) as [w1 [b|e]]; cbn in *; [auto|].
  destruct (existsb _ _); [|done]. by apply secures_mret.
Qed.

Lemma secures_on_grants {A} (m : M World A) (Q : A → PWorld → Prop) :
  (∀ g, effect_intents (w_db (m g).1) = effect_intents (w_db g)) → (∀ w a w', on_grants m w = (w', Ok a) → Q a w') →
  secures sound (on_grants m) Q.
Proof.
  intros Hm HQ w Hw. destruct (on_grants m w) as [w' x] eqn:E. split; [|cbn; intros a ->; by eapply HQ].
  unfold on_grants, via in E. specialize (Hm (w_grants w)). destruct (m (w_grants w)) as [g r]. injection E as <- <-.
  apply (sound_grown w); [done | exact (grown_refl w Hw) | done].
Qed.

Lemma secures_finish o w : sound w → backed o w → sound (j_finish o w).1 ∧ backed o (j_finish o w).1.
Proof.
  intros (Hw & H0 & Hj) Ho. destruct ((j_finish o w).2) as [[]|e] eqn:E.
  - assert (Hc : w_claims (j_finish o w).1 = w_claims w) by (cbn; unfold via; by destruct (db_call (finish o) (w_grants w))).
    assert (Hb : ∀ o', backed o' w → backed o' (j_finish o w).1) by (intros o'; unfold backed; by rewrite Hc).
    split; [|by apply Hb]. split; [by rewrite Hc|]. split; [by rewrite Hc|]. intros op row Hr.
    destruct (finish_ok o w E) as (r & _ & Hins). change (j_rows (j_finish o w).1 !! op = Some row) in Hr.
    rewrite Hins in Hr. apply lookup_insert_Some in Hr as [[_ <-]|[_ Hr]]; [by apply Hb|]. apply Hb. by eapply Hj.
  - assert (Hc : w_claims (j_finish o w).1 = w_claims w) by (cbn; unfold via; by destruct (db_call (finish o) (w_grants w))).
    split; [|unfold backed; by rewrite Hc]. split; [by rewrite Hc|]. split; [by rewrite Hc|]. intros op row Hr.
    change (j_rows (j_finish o w).1 !! op = Some row) in Hr. rewrite (finish_err _ _ _ E) in Hr.
    unfold backed. rewrite Hc. by eapply Hj.
Qed.

Lemma backed_stored o w c h wk st sw s i sup clr rev q :
  receipt o = Some (PriorityClaimReceipt h wk st sw s i sup clr rev q) →
  c ∈ claims (w_claims w) → claim_id (said c) = i → subject_id (said c) = s →
  sw = eqb (subject_kind (said c)) WORK → supersedes_claim_id (said c) = sup → backed o w.
Proof. intros Hr Hc H1 H2 H3 H4. unfold backed. rewrite Hr. by exists c. Qed.

Lemma secures_send p r grant_id q : secures sound (_send p r grant_id q) backed.
Proof.
  apply secures_catch; [|intros w; by apply backed_none].
  eapply (secures_then _ _ _ (λ c w, c ∈ claims (w_claims w) ∧ said c = _new r grant_id)).
  - apply secures_call; [intros; apply grows_record|]. intros now d d' c w _ E Hc.
    apply claim_record_cases in E as [[_ [e [=]]]|(_ & _ & -> & [= ->])]. rewrite Hc. split; [apply added_elem | done].
  - intros c w Hw [Hc Hs]. apply secures_mret; [done|].
    eapply (backed_stored _ _ c); [reflexivity | done | rewrite Hs; done..].
Qed.

Lemma provenance_loop_elem n o d d' l : provenance_loop n o d = (d', Ok l) → d' = d ∧ ∀ c, c ∈ l → c ∈ claims d.
Proof.
  revert o l d'. induction n as [|n IH]; intros o l d' H; [injection H as <- <-; split; [done|]; intros c Hc; by apply not_elem_of_nil in Hc|].
  destruct o as [i|]; [|injection H as <- <-; split; [done|]; intros c Hc; by apply not_elem_of_nil in Hc].
  cbn [provenance_loop] in H. apply M_bind_Ok in H as (d1 & o & E & H). rewrite find_claim_run in E. injection E as <- E.
  destruct o as [c|]; [|injection H as <- <-; split; [done|]; intros c Hc; by apply not_elem_of_nil in Hc].
  apply M_bind_Ok in H as (d2 & rest & E2 & H). destruct (IH _ _ _ E2) as [-> Hr]. injection H as <- <-.
  split; [done|]. intros x [->|Hx]%elem_of_cons; [|by apply Hr].
  assert (Hg : (get i d).2 = Ok (Some c)) by (rewrite claim_get_run; exact E). by apply get_found in Hg as [? _].
Qed.

Lemma reads_provenance i n : reads (λ _, provenance i n).
Proof.
  intros now d. unfold provenance, throw_if, mbind, M_bind. destruct (raise_if _ _ _); [|done].
  generalize (Some i) as o. generalize (Z.to_nat n) as k. clear. induction k as [|k IH]; intros [j|]; try done.
  cbn [provenance_loop]. unfold mbind, M_bind. rewrite find_claim_run. destruct (one_or_none _) as [[c|]|e]; try done.
  specialize (IH (supersedes_claim_id (said c))). destruct (provenance_loop k _ d) as [d1 [l|e]]; cbn in *; done.
Qed.

Lemma secures_reconcile p r rec : secures sound (_reconcile p r rec) backed.
Proof.
  unfold _reconcile. destruct (intent_qualification (er_intent rec)) as [q|]; [|by intros w Hw].
  assert (Hfin : ∀ o w, sound w → backed o w →
    sound ((j_finish o;; mret o) w).1 ∧ ∀ o', ((j_finish o;; mret o) w).2 = Ok o' → backed o' ((j_finish o;; mret o) w).1).
  { intros o w Hw Ho. destruct (secures_finish o w Hw Ho) as [H1 H2]. unfold mbind, M_bind.
    destruct (j_finish o w) as [w1 [[]|e]]; cbn in *; [by apply secures_mret | done]. }
  eapply (secures_then _ _ _ (λ l w, ∀ c, c ∈ l → c ∈ claims (w_claims w))).
  - apply secures_call; [intros t; apply (grows_reads (λ _, provenance (claim_id (_new r (er_grant_id rec))) 1) t), reads_provenance|].
    intros now d d' l w _ E ->. unfold provenance in E. apply M_bind_Ok in E as (d1 & [] & E1 & E). injection E1 as <-.
    by apply provenance_loop_elem in E as [-> E].
  - intros [|prior l] w Hw Hl; [apply Hfin; [done | by apply backed_none]|].
    destruct (negb _) eqn:Es; [apply secures_mret; [done | by apply backed_none]|].
    rewrite negb_false_iff in Es. unfold _same in Es. rewrite eqb_true in Es.
    apply Hfin; [done|]. eapply (backed_stored _ _ prior); [reflexivity | apply Hl; by left | rewrite Es; done..].
Qed.

Definition prepares_backed (x : PreparedMutation PWorld + GuardOutcome) (w : PWorld) : Prop :=
  match x with inl m => secures sound (send m) backed | inr o => backed o w end.

Lemma secures_prepare p r g q : secures sound (_prepare p r g q) prepares_backed.
Proof.
  assert (Hno : ∀ s rs b w, sound w → let m := mret (M := M PWorld) (inr (guard r s rs b)) in
    sound (m w).1 ∧ ∀ x, (m w).2 = Ok x → prepares_backed x (m w).1).
  { intros s rs b w Hw. apply secures_mret; [done|]. by apply backed_none. }
  unfold _prepare. destruct (negb _); [intros w Hw; by apply Hno|].
  eapply (secures_then _ _ _ (λ _ _, True)).
  - apply secures_call; [intros t; apply (grows_reads (λ _, works_get (cw_work_id r)) t); apply reads_work | done].
  - intros [work|] w Hw _; [|by apply Hno].
    unfold lift, mbind, M_bind. destruct (canonical_revision _ _) as [actual|e]; [|done].
    destruct (negb _); [by apply Hno|]. apply secures_mret; [done | apply secures_send].
Qed.

Lemma secures_record p r : secures sound (service_record p r) backed.
Proof.
  unfold service_record.
  apply (run_keeps w_now p (mkRequest (cw_operation_id r) (cw_work_id r) (cw_grant_version r)) (_fingerprint p r)
    m_priority_claim "claim_write_not_qualified" (write_guard r) (_prepare p r) (_reconcile p r) sound backed).
  - intros k x. apply secures_on_grants; [|done]. intros g. apply db_call_rows. intros d. done.
  - intros o w Hw Ho. assert (H : grown w (j_unlock w).1 ∧ effect_intents (w_db (w_grants (j_unlock w).1)) = effect_intents (w_db (w_grants w))).
    { cbn. unfold via. pose proof (db_call_rows (mret (M := M GrantDB) tt) (w_grants w) (λ _, eq_refl)) as Hr.
      destruct (db_call _ (w_grants w)) as [g x]. cbn in *. split; [exact (grown_refl w Hw) | done]. }
    destruct H as [H1 H2]. split; [by eapply sound_grown|]. eapply backed_evolves; [apply H1 | done].
  - intros op w Hw. pose proof (exact_rows op w) as Hr. pose proof (exact_reads op w) as Hx. cbn in Hr.
    assert (Hc : w_claims (j_exact op w).1 = w_claims w) by (cbn; unfold via; by destruct (db_call (exact op) (w_grants w))).
    split; [apply (sound_grown w); [done | | done]; unfold grown; rewrite Hc; by apply grown_refl|].
    intros o Ho x ->. apply Hx in Ho. destruct (j_rows w !! op) as [row|] eqn:E; [|done]. injection Ho as ->.
    unfold backed. rewrite Hc. by eapply (proj2 (proj2 Hw)).
  - intros op x. apply secures_on_grants; [|done]. intros g. apply db_call_rows. intros d. by rewrite (proj1 (previous_cases op x d)).
  - intros i g w Hw. split; [|done]. set (u := write_guard r o_unknown _ true).
    assert (Hc : w_claims (j_prepare i g (_fingerprint p r) u w).1 = w_claims w)
      by (cbn; unfold via; by destruct (db_call (prepare _ _ _ _) (w_grants w))).
    split; [rewrite Hc; apply Hw|]. split; [rewrite Hc; apply Hw|]. intros op row Hrow. unfold backed. rewrite Hc.
    change (j_rows (j_prepare i g (_fingerprint p r) u w).1 !! op = Some row) in Hrow.
    destruct ((j_prepare i g (_fingerprint p r) u w).2) as [[]|e] eqn:E.
    + destruct (prepare_ok _ _ _ _ _ E) as [_ Hins]. rewrite Hins in Hrow.
      apply lookup_insert_Some in Hrow as [[_ <-]|[_ Hrow]]; [done | by eapply (proj2 (proj2 Hw))].
    + rewrite (prepare_err _ _ _ _ _ _ E) in Hrow. by eapply (proj2 (proj2 Hw)).
  - apply secures_finish.
  - intros s rs b w. by apply backed_none.
  - intros s rs b prior o w H. unfold with_blocked_effect in H. repeat case_match; try done. injection H as <-. by apply backed_none.
  - apply secures_prepare.
  - apply secures_reconcile.
Qed.

Lemma backed_guard r op s rs b w : backed (human_guard r op s rs b) w.
Proof. by apply backed_none. Qed.

Lemma secures_human_catch r op m : secures sound m backed → secures sound (human_catch r op m) backed.
Proof. intros H. unfold human_catch. repeat (apply secures_catch; [|intros w; apply backed_guard]). exact H. Qed.

Definition admits_backed (x : WorkGrant * string + GuardOutcome) (w : PWorld) : Prop :=
  match x with inr o => backed o w | inl _ => True end.

Lemma secures_admission p r op : secures sound (_human_admission p r op) admits_backed.
Proof.
  unfold _human_admission. eapply (secures_then _ _ _ (λ _ _, True)).
  - apply secures_on_grants; [|done]. intros g. by apply db_call_rows.
  - intros grant w Hw _. unfold clock, mbind, M_bind. apply (secures_mret _ _ admits_backed); [done|].
    unfold admits_backed. repeat case_match; simplify_eq; try done; apply backed_guard.
Qed.

Lemma secures_get i : secures sound (repo_get i) (λ o w, ∀ c, o = Some c → c ∈ claims (w_claims w) ∧ claim_id (said c) = i).
Proof.
  apply secures_call; [intros t; apply (grows_reads (λ _, get i) t), reads_get|].
  intros now d d' o w _ E -> c ->. assert (d' = d) as -> by (rewrite claim_get_run in E; by injection E).
  apply get_found. by rewrite E.
Qed.

Lemma secures_current r op m : secures sound m backed → secures sound (when_current r op m) backed.
Proof.
  intros Hm. unfold when_current. eapply (secures_then _ _ _ (λ _ _, True)).
  - unfold _human_revision_status. destruct (h_subject_kind r); [|by intros w Hw].
    eapply (secures_then _ _ _ (λ _ _, True)).
    + apply secures_call; [intros t; apply (grows_reads (λ _, works_get (h_subject_id r)) t); apply reads_work | done].
    + intros [work|] w Hw _; [|by apply (secures_mret _ _ (λ _ _, True))]. unfold lift, mbind, M_bind.
      destruct (canonical_revision _ _); [|done]. by apply (secures_mret _ _ (λ _ _, True)).
  - intros [] w Hw _; [by apply Hm | apply secures_mret; [done | apply backed_guard]..].
Qed.

Lemma backed_human r op p g q c w :
  c ∈ claims (w_claims w) → subject_kind (said c) = h_subject_kind r → subject_id (said c) = h_subject_id r →
  backed (_human_applied r op p g q c) w.
Proof. intros Hc H1 H2. eapply (backed_stored _ _ c); [reflexivity | done | done | done | by rewrite H1 | done]. Qed.

Lemma secures_human p r : secures sound (human_run p r) backed.
Proof.
  assert (Hg : ∀ r op s rs b w, sound w → let m := mret (M := M PWorld) (human_guard r op s rs b) in
    sound (m w).1 ∧ ∀ x, (m w).2 = Ok x → backed x (m w).1) by (intros; by apply secures_mret; [|apply backed_guard]).
  destruct r as [r|r]; cbn [human_run]; apply secures_human_catch;
    (eapply secures_then; [apply secures_admission|]); intros [[g q]|o] w Hw Ho;
    try (by apply secures_mret); clear Ho; revert w Hw;
    match goal with |- ∀ w, sound w → sound (?m w).1 ∧ _ => enough (H : secures sound m backed) by (intros; by apply H) end.
  - eapply secures_then; [apply secures_get|]. intros [c|] w Hw Hc; cbn beta in Hc.
    + destruct (_same c _) eqn:Es; [|by apply Hg]. unfold _same in Es. rewrite eqb_true in Es.
      apply secures_mret; [done|]. destruct (Hc c eq_refl) as [Hin _]. by apply backed_human; [|rewrite Es..].
    + apply (secures_current (h_set r) "priority_claim_set"); [|done].
      eapply (secures_then _ _ _ (λ c w, c ∈ claims (w_claims w) ∧ said c = _human_set_claim p r)).
      * apply secures_call; [intros; apply grows_record|]. intros now d d' c w' _ E Hc'.
        apply claim_record_cases in E as [[_ [e [=]]]|(_ & _ & -> & [= ->])]. rewrite Hc'. split; [apply added_elem | done].
      * intros c w' Hw' [Hin Hs]. apply secures_mret; [done|]. by apply backed_human; [|rewrite Hs..].
  - eapply secures_then; [apply secures_get|]. intros [c|] w Hw Hc; cbn beta in Hc.
    + destruct (tombstone_of p r c) eqn:Es; [|by apply Hg]. unfold tombstone_of in Es. rewrite !andb_true_iff, !eqb_true in Es.
      apply secures_mret; [done|]. destruct (Hc c eq_refl) as [Hin _]. apply backed_human; tauto.
    + apply (secures_current (h_clear r) "priority_claim_clear"); [|done].
      eapply secures_then; [apply secures_get|]. intros [target|] w' Hw' _; [|by apply Hg].
      eapply (secures_then _ _ _ (λ c w, c ∈ claims (w_claims w))); [|intros c w2 Hw2 Hin; cbn beta in Hin|exact Hw'].
      * apply secures_call; [intros; apply grows_clear|]. intros now d d' c w2 _ E Hc'.
        apply clear_cases in E as [[_ [e [=]]]|[[-> [c0 [[= ->] Hf]]]|(_ & _ & -> & [= ->])]]; rewrite Hc'; [|apply added_elem].
        assert (Hin : In c0 (List.filter (has_id (claim_id (_human_clear_claim p r target))) (claims d))) by (rewrite Hf; by left).
        apply filter_In in Hin as [Hin _]. by apply list_elem_of_In.
      * destruct (_ || _) eqn:Es; [by apply Hg|]. rewrite orb_false_iff, !negb_false_iff in Es. destruct Es as [Es _].
        unfold _same in Es. rewrite eqb_true in Es. apply secures_mret; [done|]. by apply backed_human; [|rewrite Es..].
Qed.
End receipts.

(** Everything that may happen to the stores: requests, grants, other callers
    of the repository, and connections. *)
Inductive ServiceStep :=
  | st_record (p : PrincipalContext) (r : PriorityClaimWrite)
  | st_human (p : PrincipalContext) (r : HumanRequest)
  | st_issue (g : WorkGrant) (expected : option Z)
  | st_claims (c : ClaimCall)
  | st_connect (journal_faults : list bool) (turns : list Turn) (now : Z).

Definition run_step (s : ServiceStep) (w : PWorld) : PWorld :=
  match s with
  | st_record p r => (service_record p r w).1
  | st_human p r => (human_run p r w).1
  | st_issue g v => with_w_grants (mkWorld (GrantState.issue g v (w_db (w_grants w))).1 (faults (w_grants w))) w
  | st_claims c => mkPWorld (w_grants w) (run_claim nfkc_casefold c (w_claims w)) (w_turns w) (w_now w)
  | st_connect fs ts now => mkPWorld (mkWorld (w_db (w_grants w)) fs) (w_claims w) ts now
  end.

Definition run_steps (ss : list ServiceStep) (w : PWorld) : PWorld := foldl (λ w s, run_step s w) w ss.

Lemma step_sound d0 s w : sound d0 w → sound d0 (run_step s w).
Proof.
  intros Hw. destruct s as [p r|p r|g v|c|fs ts now]; cbn [run_step].
  - by apply secures_record.
  - by apply secures_human.
  - destruct Hw as (H1 & H2 & H3). split; [done|]. split; [done|]. cbn. intros op row. rewrite issue_intents. by apply H3.
  - apply (sound_grown d0 w); [done | | done]. destruct Hw as (H1 & _). by apply claim_step.
  - destruct Hw as (H1 & H2 & H3). by split.
Qed.

Lemma steps_sound d0 ss w : sound d0 w → sound d0 (run_steps ss w).
Proof. revert w. induction ss as [|s ss IH]; intros w Hw; [done|]. cbn. by apply IH, step_sound. Qed.

(** C8: a receipt for a claim is never empty.  Whatever requests, grants, other
    callers and connections there are, an [applied] outcome about a priority
    claim - answered now, replayed from the journal, reconciled, or read from
    the journal at any later time - names a claim that is stored and is about
    the receipt's subject, and stored claims are never lost or rewritten. *)
Theorem claim_receipts ss1 ss2 w p r h :
  sound (w_claims w) w →
  let w1 := run_steps ss1 w in
  let w2 := λ w', run_steps ss2 w' in
  (∀ w' o, service_record p r w1 = (w', Ok o) → backed o (w2 w')) ∧
  (∀ w' o, human_run p h w1 = (w', Ok o) → backed o (w2 w')) ∧
  evolves (w_claims w) (w_claims (w2 w1)) ∧
  ∀ op row, effect_intents (w_db (w_grants (w2 w1))) !! op = Some row → backed (outcome row) (w2 w1).
Proof.
  intros Hw w1 w2. assert (H1 : sound (w_claims w) w1) by by apply steps_sound.
  assert (Hlater : ∀ w' o, sound (w_claims w) w' → backed o w' → backed o (w2 w')).
  { intros w' o Hw' Ho. eapply backed_evolves; [|exact Ho].
    apply (steps_sound (w_claims w')). destruct Hw' as (A & _ & J). by split. }
  destruct (steps_sound (w_claims w) ss2 w1 H1) as (_ & He & Hj). split_and!; [..|done|done].
  - intros w' o E. destruct (secures_record (w_claims w) p r w1 H1) as [A B]. rewrite E in A, B. apply Hlater; auto.
  - intros w' o E. destruct (secures_human (w_claims w) p h w1 H1) as [A B]. rewrite E in A, B. apply Hlater; auto.
Qed.
End service.

(** ** Instances *)

Definition ex_ps_subject : uuid := WorkEvents.ex_id 1.
Definition ex_ps_calls : list ClaimCall :=
  [cc_tracker (c_create WorkEvents.ex_time (WorkEvents.ex_work ex_ps_subject "First"))].

#[local] Abbreviation ex_ps_claims := (run_claims ascii_fold ex_ps_calls (no_claims ∅)).

Definition ex_ps_grant : WorkGrant :=
  mkGrant "g1" 1 ex_principal (mkAuthority ex_ps_subject []) workspace [priority_claim] "iss" "prov"
    (Datetime 1000 (Some 0)) g_active None None None None None (Some "test:q"%string).

Definition ex_ps_grants (g : WorkGrant) : World :=
  mkWorld (mkDB {[principal_key ex_principal := Some g]} ∅) [].

#[local] Abbreviation ex_ps_world := (mkPWorld (ex_ps_grants ex_ps_grant) ex_ps_claims [] 5).

(** The revision of the first version of the work. *)
Definition ex_ps_revision : string :=
  match canonical_revision ex_ps_subject 1 with Ok r => r | Err _ => "" end.

Definition ex_ps_set : HumanRequest :=
  h_set (mkSet (WorkEvents.ex_id 70) WORK ex_ps_subject (Some ex_ps_revision) BAND "because" None (Some HIGH) None).

Lemma ex_ps_inv : AllInv ascii_fold ex_ps_claims.
Proof. apply claim_steps, AllInv_empty. Qed.

Lemma human_truthful_witness :
  ∃ o w', human_run ascii_fold ex_principal ex_ps_set ex_ps_world = (w', Ok o) ∧
    effect o = applied ∧ kept ex_principal ex_ps_set (w_claims w').
Proof.
  destruct (human_truthful ascii_fold ex_principal ex_ps_set ex_ps_world ex_ps_inv) as (o & w' & E & _ & H).
  exists o, w'. split; [exact E|]. assert (He : effect o = applied).
  { apply (f_equal snd) in E. vm_compute in E. injection E as <-. reflexivity. }
  rewrite He in H. split; [exact He | apply H].
Defined.

#[local] Abbreviation ex_ps_after := (human_run ascii_fold ex_principal ex_ps_set ex_ps_world).1.

Lemma ex_ps_after_grants : w_grants ex_ps_after = ex_ps_grants ex_ps_grant.
Proof. vm_compute. reflexivity. Qed.

Lemma human_replay_witness :
  ∃ o w', human_run ascii_fold ex_principal ex_ps_set ex_ps_after = (w', Ok o) ∧ effect o = applied ∧
    claims (w_claims w') = claims (w_claims ex_ps_after).
Proof.
  destruct (human_truthful ascii_fold ex_principal ex_ps_set ex_ps_world ex_ps_inv) as (o & w' & E & Hw & H).
  assert (He : effect o = applied).
  { apply (f_equal snd) in E. vm_compute in E. injection E as <-. reflexivity. }
  rewrite He in H. destruct H as (_ & _ & Hk). apply (f_equal fst) in E. cbn [fst] in E. subst w'.
  destruct (human_replay ascii_fold ex_principal ex_ps_set ex_ps_after Hw Hk) as
    (o2 & w2 & hd & wk & st & sw & s & sup & clr & rev & q & E2 & He2 & (n & Hs & _) & _).
  - exists ex_ps_grant, "test:q"%string. rewrite ex_ps_after_grants. unfold ex_ps_grants. cbn [w_db work_grants].
    rewrite lookup_singleton_eq. split_and!; try reflexivity. by left.
  - by rewrite ex_ps_after_grants.
  - vm_compute. reflexivity.
  - exists o2, w2. split; [exact E2|]. split; [exact He2|].
    apply (f_equal claims) in Hs.
    assert (Ht : w_turns ex_ps_after = []) by (vm_compute; reflexivity). rewrite Ht, take_nil in Hs. exact Hs.
Defined.

Definition ex_ps_launch : WorkGrant :=
  mkGrant "g1" 1 ex_principal (mkAuthority ex_ps_subject []) launch [priority_claim] "iss" "prov"
    (Datetime 1000 (Some 0)) g_active None None None None None (Some "test:q"%string).

Definition ex_ps_write : PriorityClaimWrite :=
  mkWrite (WorkEvents.ex_id 71) ex_ps_subject 1 ex_ps_revision HOLD "wait" None None None.

#[local] Abbreviation ex_ps_world2 := (mkPWorld (ex_ps_grants ex_ps_launch) ex_ps_claims [] 5).

Lemma ex_ps_sound : sound ascii_fold (w_claims ex_ps_world2) ex_ps_world2.
Proof.
  split; [exact ex_ps_inv|]. split; [done|]. intros op row H. cbn in H. by rewrite lookup_empty in H.
Qed.

Lemma claim_receipts_witness :
  ∃ o w', service_record ascii_fold ex_principal ex_ps_write ex_ps_world2 = (w', Ok o) ∧ effect o = applied ∧ backed o w'.
Proof.
  destruct (claim_receipts ascii_fold [] [] ex_ps_world2 ex_principal ex_ps_write ex_ps_set ex_ps_sound) as (H & _).
  destruct (service_record ascii_fold ex_principal ex_ps_write ex_ps_world2) as [w' x] eqn:E.
  pose proof (f_equal snd E) as Ex. cbn [snd] in Ex. vm_compute in Ex.
  destruct x as [o|e]; [|discriminate Ex]. exists o, w'. split; [reflexivity|]. split.
  - injection Ex as <-. reflexivity.
  - apply (H w' o). exact E.
Defined.
