(* ===== verification/PriorityContext.v ===== *)
(** * The priority context ([priority_context.py])

    A read-only projection of up to fifty works with their relations and
    claims.  It ranks nothing: a row says what is known about the priority of
    its work, and never more than its reads support. *)

From S2P Require Import Prelude Tables Paging Json Codec Contracts Grants GrantState MutationEffect.
From S2P Require Import Tracker WorkRelations TrackerSystem PriorityClaims PriorityService.

Local Open Scope Z_scope.

(** ** Data *)

Inductive PriorityKnowledge := DIRECT_CURRENT | DERIVED_CURRENT | CONFLICTING_OR_STALE | UNKNOWN_UNRANKED.

#[export] Instance PriorityKnowledge_eq_dec : EqDecision PriorityKnowledge.
Proof. solve_decision. Defined.

Inductive ClaimAuthority := HUMAN | ADVISORY.

#[export] Instance ClaimAuthority_eq_dec : EqDecision ClaimAuthority.
Proof. solve_decision. Defined.

Record PriorityContextClaim := mkContextClaim { view : PriorityClaimView; claim_authority : ClaimAuthority }.

Record PriorityContextProject := mkContextProject { cp_project_id : uuid; cp_name : string; cp_stage : string }.

Record PriorityContextRow := mkContextRow {
  row_work_id : uuid; row_current : bool; row_title : string; row_completed : option bool;
  row_owner_key : string; row_lifecycle_state : string; row_projects : list PriorityContextProject;
  row_next_action_class : string; row_next_action_ref : string; row_wait_kind : string;
  row_unblock_condition : string; row_dependencies : list uuid;
  row_work_claims : list PriorityContextClaim; row_project_claims : list PriorityContextClaim;
  priority_knowledge : PriorityKnowledge; row_flags : list string }.

Record PriorityContextResult := mkContextResult {
  context_rows : list PriorityContextRow; context_reason : string }.

(** [_BaseRow]; of an error only its class is kept. *)
Record _BaseRow := mkBase {
  base_work_id : uuid; base_work : option CurrentWork; base_relations : option WorkRelations.WorkRelations;
  base_error : option exn_class }.

(** ** Claims as shown *)

Definition _visible_claims (read : PriorityClaimReadResult) (targets : list uuid) : list PriorityContextClaim :=
  (λ c, mkContextClaim c (if eqb (claim_kind (view_of c)) HUMAN_PRIORITY then HUMAN else ADVISORY)) <$>
  List.filter (λ c, negb (eqb (relation_kind (view_of c)) BEFORE)
    || match relation_target_id (view_of c) with Some t => mem t targets | None => false end) (read_claims read).

Definition is_currentness (x : Currentness) (c : PriorityContextClaim) : bool := eqb (currentness (view c)) x.
Definition is_human (c : PriorityContextClaim) : bool := eqb (claim_authority c) HUMAN.

(** The bands of the current human claims. *)
Definition human_bands (l : list PriorityContextClaim) : list (option PriorityBand) :=
  remove_dups ((λ c, band (view_of (view c))) <$> List.filter (λ c, is_human c
    && eqb (relation_kind (view_of (view c))) BAND && is_currentness cn_current c) l).

Definition conflicting (l : list PriorityContextClaim) : bool := (1 <? length (human_bands l))%nat.

Definition of_subject (i : uuid) (c : PriorityContextClaim) : bool := eqb (subject_id (view_of (view c))) i.

Definition flag (name : string) (b : bool) : list string := if b then [name] else [].

Definition _flags (work_claims project_claims : list PriorityContextClaim) (reads : list PriorityClaimReadResult)
  : list string :=
  let all := work_claims ++ project_claims in
  py_sort str_leb (
    flag "CLAIMS_UNKNOWN" (existsb (λ r, negb (eqb (read_status r) rd_ok)) reads)
    ++ flag "STALE_CLAIM" (existsb (is_currentness cn_stale) all)
    ++ flag "UNKNOWN_CLAIM_CURRENTNESS" (existsb (is_currentness cn_unknown) all)
    ++ flag "CONFLICTING_HUMAN_BAND" (conflicting work_claims)
    ++ flag "CONFLICTING_PROJECT_HUMAN_BAND" (existsb (λ c,
         conflicting (List.filter (of_subject (subject_id (view_of (view c)))) project_claims)) project_claims)).

Definition _classification (work_claims : list PriorityContextClaim) (work_read : PriorityClaimReadResult)
  : PriorityKnowledge :=
  let flags := _flags work_claims [] [work_read] in
  if mem "CONFLICTING_HUMAN_BAND"%string flags || mem "STALE_CLAIM"%string flags then CONFLICTING_OR_STALE
  else if mem "CLAIMS_UNKNOWN"%string flags || mem "UNKNOWN_CLAIM_CURRENTNESS"%string flags then UNKNOWN_UNRANKED
  else if existsb is_human work_claims then DIRECT_CURRENT
  else if negb (is_nil work_claims) then DERIVED_CURRENT
  else UNKNOWN_UNRANKED.

Definition _unknown_row (i : uuid) : PriorityContextRow :=
  let U := "UNKNOWN"%string in
  mkContextRow i false U None U U [] U U U U [] [] [] UNKNOWN_UNRANKED ["WORK_UNKNOWN"%string].

(** ** What a row claims to know *)

Lemma elem_flag x n b : x ∈ flag n b ↔ b = true ∧ x = n.
Proof. unfold flag. destruct b; [rewrite list_elem_of_singleton; naive_solver|]. split; [by intros ?%not_elem_of_nil | by intros [? _]]. Qed.

Lemma flags_spec wc pc reads x :
  x ∈ _flags wc pc reads ↔
  x = "CLAIMS_UNKNOWN"%string ∧ existsb (λ r, negb (eqb (read_status r) rd_ok)) reads = true ∨
  x = "STALE_CLAIM"%string ∧ existsb (is_currentness cn_stale) (wc ++ pc) = true ∨
  x = "UNKNOWN_CLAIM_CURRENTNESS"%string ∧ existsb (is_currentness cn_unknown) (wc ++ pc) = true ∨
  x = "CONFLICTING_HUMAN_BAND"%string ∧ conflicting wc = true ∨
  x = "CONFLICTING_PROJECT_HUMAN_BAND"%string ∧ existsb (λ c,
     conflicting (List.filter (of_subject (subject_id (view_of (view c)))) pc)) pc = true.
Proof. unfold _flags. rewrite py_sort_perm, !elem_of_app, !elem_flag. tauto. Qed.

(** Every claim shown is current, as far as the reads say. *)
Definition all_current (l : list PriorityContextClaim) : Prop := ∀ c, c ∈ l → currentness (view c) = cn_current.

(** The human bands agree. *)
Definition bands_agree (l : list PriorityContextClaim) : Prop :=
  ∀ c c', c ∈ l → c' ∈ l → is_human c = true → is_human c' = true →
    relation_kind (view_of (view c)) = BAND → relation_kind (view_of (view c')) = BAND →
    band (view_of (view c)) = band (view_of (view c')).

Lemma conflicting_false l : all_current l → conflicting l = false ↔ bands_agree l.
Proof.
  intros Hcur. unfold conflicting. rewrite Nat.ltb_ge. set (bs := human_bands l).
  assert (Hin : ∀ b, b ∈ bs ↔ ∃ c, c ∈ l ∧ is_human c = true ∧ relation_kind (view_of (view c)) = BAND ∧ b = band (view_of (view c))).
  { intros b. unfold bs, human_bands. rewrite elem_of_remove_dups, list_elem_of_fmap. split.
    - intros (c & -> & Hc). rewrite list_elem_of_In, filter_In, !andb_true_iff in Hc. destruct Hc as (Hc & (H1 & H2) & _).
      rewrite eqb_true in H2. exists c. rewrite list_elem_of_In. auto.
    - intros (c & Hc & H1 & H2 & ->). exists c. split; [done|]. rewrite list_elem_of_In, filter_In, !andb_true_iff.
      rewrite <- list_elem_of_In. unfold is_currentness. rewrite (Hcur c Hc), H2, H1, !eqb_refl. done. }
  assert (Hnd : NoDup bs) by apply NoDup_remove_dups. clearbody bs. split.
  - intros Hlen c c' Hc Hc' H1 H1' H2 H2'.
    assert (A : band (view_of (view c)) ∈ bs) by (apply Hin; eauto 6).
    assert (A' : band (view_of (view c')) ∈ bs) by (apply Hin; eauto 6).
    destruct bs as [|x [|y bs]]; cbn in Hlen; [by apply not_elem_of_nil in A| |lia].
    apply list_elem_of_singleton in A, A'. congruence.
  - intros Hag. destruct bs as [|x [|y bs]]; cbn; [lia..|]. exfalso.
    destruct (proj1 (Hin x) ltac:(by left)) as (c & Hc & H1 & H2 & ->).
    destruct (proj1 (Hin y) ltac:(by right; left)) as (c' & Hc' & H1' & H2' & ->).
    apply NoDup_cons in Hnd as [Hnd _]. apply Hnd. rewrite (Hag c c') by done. by left.
Qed.

(** What each kind of knowledge rests on. *)
Definition known (k : PriorityKnowledge) (l : list PriorityContextClaim) (r : PriorityClaimReadResult) : Prop :=
  match k with
  | DIRECT_CURRENT => read_status r = rd_ok ∧ all_current l ∧ bands_agree l ∧ ∃ c, c ∈ l ∧ is_human c = true
  | DERIVED_CURRENT => read_status r = rd_ok ∧ all_current l ∧ l ≠ [] ∧ ∀ c, c ∈ l → is_human c = false
  | CONFLICTING_OR_STALE =>
      (∃ c, c ∈ l ∧ currentness (view c) = cn_stale) ∨ conflicting l = true
  | UNKNOWN_UNRANKED => read_status r ≠ rd_ok ∨ l = [] ∨ ∃ c, c ∈ l ∧ currentness (view c) = cn_unknown
  end.

Lemma existsb_currentness x l : existsb (is_currentness x) l = true ↔ ∃ c, c ∈ l ∧ currentness (view c) = x.
Proof. rewrite existsb_true. unfold is_currentness. by setoid_rewrite eqb_true. Qed.

Lemma classification_known l r : known (_classification l r) l r.
Proof.
  unfold _classification.
  assert (Hm : ∀ x, mem x (_flags l [] [r]) = bool_decide (x ∈ _flags l [] [r])).
  { intros x. apply eq_true_iff_eq. by rewrite mem_true, bool_decide_eq_true. }
  rewrite !Hm. clear Hm. destruct (bool_decide _ || bool_decide _) eqn:E1.
  - rewrite orb_true_iff, !bool_decide_eq_true, !flags_spec, app_nil_r, !existsb_currentness in E1. cbn.
    destruct E1 as [E1|E1]; decompose [or and] E1; try discriminate; auto.
  - rewrite orb_false_iff, !bool_decide_eq_false, !flags_spec, app_nil_r in E1. destruct E1 as [Hc Hs].
    destruct (bool_decide _ || bool_decide _) eqn:E2.
    + rewrite orb_true_iff, !bool_decide_eq_true, !flags_spec, app_nil_r, !existsb_currentness in E2. cbn.
      destruct E2 as [E2|E2]; decompose [or and] E2; try discriminate; [left | by right; right].
      match goal with H : existsb _ [r] = true |- _ => cbn in H; rewrite orb_false_r, negb_true_iff, eqb_false in H; exact H end.
    + rewrite orb_false_iff, !bool_decide_eq_false, !flags_spec, app_nil_r in E2. destruct E2 as [Hu Hk].
      assert (Hok : read_status r = rd_ok).
      { destruct (decide (read_status r = rd_ok)) as [|Hne]; [done|]. exfalso. apply Hu. left. split; [done|]. cbn.
        by rewrite orb_false_r, negb_true_iff, eqb_false. }
      assert (Hcur : all_current l).
      { intros c Hcl. destruct (currentness (view c)) eqn:E; [done| |].
        - exfalso. apply Hs. right. left. split; [done|]. apply existsb_currentness. eauto.
        - exfalso. apply Hk. right. right. left. split; [done|]. apply existsb_currentness. eauto. }
      destruct (existsb is_human l) eqn:Eh; [apply existsb_true in Eh as (c & Hcl & Eh)|].
      * cbn. split_and!; try done; [|eauto]. apply conflicting_false; [done|]. apply not_true_iff_false. intros Hcf.
        apply Hc. by do 3 right; left.
      * destruct l as [|c l]; cbn [is_nil negb known]; [by right; left|]. rewrite existsb_false in Eh. done.
Qed.

(** ** The projection *)

Section context.
Context (nfkc_casefold : string → string) (coll : list Z → list Z → bool).

(** [x or "UNKNOWN"] *)
Definition or_unknown (o : option string) : string :=
  match o with Some s => if truthy s then s else "UNKNOWN" | None => "UNKNOWN" end.

Definition relations_get (i : uuid) : M ClaimDB WorkRelations.WorkRelations := λ d,
  (d, (WorkRelations.get coll i (tracker d)).2).

Definition _load_base (i : uuid) : M PWorld _BaseRow := λ w,
  match (work ← claim_call nfkc_casefold (λ _, works_get i);
         relations ← claim_call nfkc_casefold (λ _, relations_get i);
         mret (mkBase i work (Some relations) None)) w with
  | (w', Ok base) => (w', Ok base)
  | (w', Err e) =>
      if existsb (exn_isinstance (exn_cls e)) [LookupError; SQLAlchemyError]
      then (w', Ok (mkBase i None None (Some (exn_cls e))))
      else (w', Err e)
  end.

Definition placements_of_base (b : _BaseRow) : list ProjectPlacement :=
  match base_relations b with Some r => WorkRelations.placements r | None => [] end.

Definition read_of (reads : list (uuid * PriorityClaimReadResult)) (i : uuid) : res PriorityClaimReadResult :=
  match assoc i reads with Some r => Ok r | None => raise KeyError i end.

Definition _project_row (b : _BaseRow) (work_scope project_scope : list uuid)
    (project_reads : list (uuid * PriorityClaimReadResult)) : M PWorld PriorityContextRow :=
  match base_work b, base_relations b with
  | Some work, Some relations =>
      work_read ← service_current nfkc_casefold WORK (base_work_id b);
      let work_claims := _visible_claims work_read work_scope in
      reads ← lift (mapM (M := res) (λ p, read_of project_reads (pl_project_id p)) (WorkRelations.placements relations));
      let project_claims := concat ((λ r, _visible_claims r project_scope) <$> reads) in
      mret (mkContextRow (base_work_id b) true (title work) (Some (completed work)) (or_unknown (owner_key work))
        (or_unknown (lifecycle_state work))
        ((λ p, mkContextProject (pl_project_id p) (pl_name p) (or_unknown (pl_section p))) <$> WorkRelations.placements relations)
        (or_unknown (next_action_class work)) (or_unknown (next_action_ref work)) (or_unknown (wait_kind work))
        (or_unknown (unblock_condition work)) (dependency_work_ids relations) work_claims project_claims
        (_classification work_claims work_read) (_flags work_claims project_claims (work_read :: reads)))
  | _, _ => mret (_unknown_row (base_work_id b))
  end.

Definition project (work_ids : list uuid) : M PWorld PriorityContextResult :=
  let ordered_ids := py_sort str_leb (remove_dups work_ids) in
  throw_if (is_nil ordered_ids || (50 <? length ordered_ids)%nat) ValueError
    "work_ids must contain between 1 and 50 distinct IDs";;
  bases ← mapM _load_base ordered_ids;
  let project_ids := remove_dups (pl_project_id <$> concat (placements_of_base <$> bases)) in
  project_claims ← mapM (λ i, r ← service_current nfkc_casefold PROJECT i; mret (i, r)) (py_sort str_leb project_ids);
  rows ← mapM (λ b, _project_row b ordered_ids project_ids project_claims) bases;
  mret (mkContextResult rows "Exact requested IDs only; this is not a complete portfolio view.").

(** ** Computations that always answer *)

(** What stays true while claims evolve. *)
Definition lasting (Q : PWorld → Prop) : Prop := ∀ w w', evolves (w_claims w) (w_claims w') → Q w → Q w'.

(** From any well-formed claims with [I] the computation returns; the claims
    it leaves have evolved, and [Q] holds of the answer. *)
Definition answers {A} (I : PWorld → Prop) (m : M PWorld A) (Q : A → PWorld → Prop) : Prop :=
  ∀ w, AllInv nfkc_casefold (w_claims w) → I w →
  ∃ w' a, m w = (w', Ok a) ∧ grown nfkc_casefold w w' ∧ Q a w'.

Lemma answers_ret {A} I (a : A) (Q : A → PWorld → Prop) : (∀ w, I w → Q a w) → answers I (mret a) Q.
Proof. intros H w Hw HI. exists w, a. split_and!; try done; auto. Qed.

Lemma answers_bind {A B} (I : PWorld → Prop) (m : M PWorld A) (f : A → M PWorld B) Q R :
  lasting I → answers I m Q → (∀ a, answers (λ w, I w ∧ Q a w) (f a) R) → answers I (m ≫= f) R.
Proof.
  intros HI Hm Hf w Hw Hi. destruct (Hm w Hw Hi) as (w1 & a & E & [H1 He1] & HQ).
  destruct (Hf a w1 H1) as (w2 & b & E2 & [H2 He2] & HR); [by split; [eapply HI|]|].
  exists w2, b. unfold mbind, M_bind. rewrite E. split; [done|]. split; [split; [done | by etrans] | done].
Qed.

Lemma answers_weaken {A} (I J : PWorld → Prop) (m : M PWorld A) (Q R : A → PWorld → Prop) :
  answers I m Q → (∀ w, J w → I w) → (∀ a w, Q a w → R a w) → answers J m R.
Proof. intros Hm HI H w Hw Hj. destruct (Hm w Hw (HI w Hj)) as (w' & a & ? & ? & ?). exists w', a. auto. Qed.

Lemma lasting_and I J : lasting I → lasting J → lasting (λ w, I w ∧ J w).
Proof. intros HI HJ w w' He [? ?]. split; [by eapply HI | by eapply HJ]. Qed.

Lemma answers_mapM {A B} I (f : A → M PWorld B) (Q : A → B → PWorld → Prop) l :
  lasting I → (∀ x, x ∈ l → answers I (f x) (Q x)) → (∀ x b, lasting (Q x b)) →
  answers I (mapM f l) (λ l' w, Forall2 (λ x b, Q x b w) l l').
Proof.
  intros HI Hf Hl. induction l as [|x l IH]; [by apply answers_ret|]. cbn [mapM].
  eapply answers_bind; [done | apply Hf; by left|]. intros b.
  eapply (answers_bind _ _ _ (λ l' w, Forall2 (λ x b, Q x b w) l l' ∧ Q x b w)); [by apply lasting_and, Hl| |].
  - intros w Hw [Hi Hq]. destruct (IH (λ y Hy, Hf y ltac:(by right)) w Hw Hi) as (w' & l' & E & [Hg He] & H).
    exists w', l'. split; [done|]. split; [by split|]. split; [done | by eapply Hl].
  - intros l'. apply answers_ret. intros w [_ [H1 H2]]. by constructor.
Qed.

(** A view of a stored claim of a subject. *)
Definition stored_view (k : SubjectKind) (i : uuid) (v : PriorityClaimView) (w : PWorld) : Prop :=
  ∃ c, c ∈ claims (w_claims w) ∧ said c = view_of v ∧ subject_kind (said c) = k ∧ subject_id (said c) = i.

Lemma stored_lasting k i v : lasting (stored_view k i v).
Proof.
  intros w w' [_ Hev] (c & [n Hn]%claims_elem & Hs & Hk & Hi). destruct (Hev n c Hn) as (c' & Hc' & Hsaid & _).
  exists c'. rewrite Hsaid. split; [apply claims_elem; eauto | done].
Qed.

Definition read_stored (k : SubjectKind) (i : uuid) (r : PriorityClaimReadResult) (w : PWorld) : Prop :=
  ∀ v, v ∈ read_claims r → stored_view k i v w.

Lemma read_lasting k i r : lasting (read_stored k i r).
Proof. intros w w' He H v Hv. eapply stored_lasting; [exact He | by apply H]. Qed.

(** A read of the repository answers or loses its connection. *)
Lemma call_read {A} (m : datetime → M ClaimDB A) w :
  reads m → AllInv nfkc_casefold (w_claims w) →
  ∃ w' r, claim_call nfkc_casefold m w = (w', r) ∧ grown nfkc_casefold w w' ∧
    (r = raise SQLAlchemyError "connection lost" ∨ ∃ now, r = (m now (w_claims w')).2).
Proof.
  intros Hm Hw. destruct (claim_call nfkc_casefold m w) as [w' r] eqn:E. exists w', r. split; [done|].
  apply claim_read in E as [-> E]; [|done]. split; [|destruct E; eauto].
  apply silent_inv; [apply before_silent | done].
Qed.

Lemma answers_current I k i : answers I (service_current nfkc_casefold k i) (read_stored k i).
Proof.
  intros w Hw _. unfold service_current, catch.
  destruct (call_read (λ _, current k i) w (reads_current k i) Hw) as (w1 & r1 & E1 & [H1 He1] & Hr).
  unfold mbind at 1, M_bind at 1. rewrite E1. destruct Hr as [->|[now ->]].
  { cbn. do 2 eexists. split; [reflexivity|]. split; [by split|]. intros v Hv. cbn in Hv. by apply not_elem_of_nil in Hv. }
  cbn [current snd]. set (l := py_sort _ _).
  assert (Hl : ∀ w2, evolves (w_claims w1) (w_claims w2) → ∀ rev,
    read_stored k i (mkRead rd_ok ((λ c, mkClaimView (said c) (claim_currentness k rev (said c))) <$> l) None) w2).
  { intros w2 He rev v (c & -> & Hc)%list_elem_of_fmap. eapply stored_lasting; [exact He|].
    destruct (claims_current_spec k i (w_claims w1) l eq_refl) as [Hin _]. apply Hin in Hc as (? & ? & ? & _). by exists c. }
  assert (Hno : ∀ w2 (o : option string), read_stored k i (mkRead rd_unknown [] o) w2)
    by (intros w2 o v Hv; cbn in Hv; by apply not_elem_of_nil in Hv).
  destruct k.
  - destruct (call_read (λ _, works_get i) w1 (reads_work i) H1) as (w2 & r2 & E2 & [H2 He2] & Hr2).
    unfold mbind at 1, M_bind at 1. rewrite E2. destruct Hr2 as [->|[now2 ->]].
    { cbn. do 2 eexists. split; [reflexivity|]. split; [split; [done | by etrans] | apply Hno]. }
    cbn. destruct (works (tracker (w_claims w2)) !! i) as [row|]; cbn.
    + destruct (canonical_revision _ _) as [rev|e] eqn:Er; cbn.
      * do 2 eexists. split; [reflexivity|]. split; [split; [done | by etrans] | by apply Hl].
      * unfold canonical_revision in Er. destruct (_ <? _); [|done]. injection Er as <-. cbn.
        do 2 eexists. split; [reflexivity|]. split; [split; [done | by etrans] | apply Hno].
    + do 2 eexists. split; [reflexivity|]. split; [split; [done | by etrans] | by apply Hl].
  - cbn. do 2 eexists. split; [reflexivity|]. split; [by split | by apply Hl].
Qed.

Lemma answers_base I i : answers I (_load_base i) (λ b _, base_work_id b = i).
Proof.
  intros w Hw _. unfold _load_base, mbind, M_bind.
  destruct (call_read (λ _, works_get i) w (reads_work i) Hw) as (w1 & r1 & -> & [H1 He1] & Hr).
  assert (Hrel : reads (λ _ : datetime, relations_get i)) by done.
  destruct Hr as [->|[now ->]]; [cbn; do 2 eexists; split; [reflexivity|]; by split|]. cbn.
  destruct (call_read (λ _, relations_get i) w1 Hrel H1) as (w2 & r2 & -> & [H2 He2] & Hr2).
  destruct Hr2 as [->|[now2 ->]]; cbn.
  - do 2 eexists. split; [reflexivity|]. split; [split; [done | by etrans] | done].
  - unfold WorkRelations.get, mbind, M_bind, get_st, throw_if, raise_if. destruct (is_none _); cbn;
      do 2 eexists; (split; [reflexivity|]); (split; [split; [done | by etrans] | done]).
Qed.

(** A claim shown among those of a subject is a stored claim of it, and is
    called human exactly when a human priority was recorded. *)
Definition shown (k : SubjectKind) (i : uuid) (c : PriorityContextClaim) (w : PWorld) : Prop :=
  stored_view k i (view c) w ∧ (claim_authority c = HUMAN ↔ claim_kind (view_of (view c)) = HUMAN_PRIORITY).

Lemma shown_lasting k i c : lasting (shown k i c).
Proof. intros w w' He [H ?]. split; [by eapply stored_lasting | done]. Qed.

Lemma visible_shown k i r scope w c : read_stored k i r w → c ∈ _visible_claims r scope → shown k i c w.
Proof.
  intros Hr (v & -> & Hv)%list_elem_of_fmap. rewrite list_elem_of_In, filter_In, <- list_elem_of_In in Hv.
  split; [apply Hr, Hv|]. cbn. destruct (eqb (claim_kind _) _) eqn:E.
  - rewrite eqb_true in E. by split.
  - rewrite eqb_false in E. by split.
Qed.

(** What a row is entitled to say. *)
Record supported (i : uuid) (row : PriorityContextRow) (w : PWorld) : Prop := {
  sp_id : row_work_id row = i;
  sp_unknown : row_current row = false → row = _unknown_row i;
  sp_work : ∀ c, c ∈ row_work_claims row → shown WORK i c w;
  sp_project : ∀ c, c ∈ row_project_claims row →
    ∃ p, p ∈ row_projects row ∧ shown PROJECT (cp_project_id p) c w;
  sp_knowledge : ∃ r, known (priority_knowledge row) (row_work_claims row) r ∧
    (row_current row = true → read_status r ≠ rd_ok → "CLAIMS_UNKNOWN"%string ∈ row_flags row) }.

Lemma supported_lasting i row : lasting (supported i row).
Proof.
  intros w w' He [H1 H2 H3 H4 H5]. split; try done.
  - intros c Hc. eapply shown_lasting; [exact He | auto].
  - intros c Hc. destruct (H4 c Hc) as (p & Hp & Hs). exists p. split; [done|]. by eapply shown_lasting.
Qed.

Lemma unknown_supported i w : supported i (_unknown_row i) w.
Proof.
  split; try done; try (by intros c ?%not_elem_of_nil).
  exists (mkRead rd_unknown [] None). split; [by right; left | done].
Qed.

(** Every placement of the base rows has been read. *)
Definition all_read (reads : list (uuid * PriorityClaimReadResult)) (b : _BaseRow) (w : PWorld) : Prop :=
  ∀ p, p ∈ placements_of_base b → ∃ r, read_of reads (pl_project_id p) = Ok r ∧ read_stored PROJECT (pl_project_id p) r w.

Lemma reads_placements reads l w :
  (∀ p, p ∈ l → ∃ r, read_of reads (pl_project_id p) = Ok r ∧ read_stored PROJECT (pl_project_id p) r w) →
  ∃ rs, mapM (M := res) (λ p, read_of reads (pl_project_id p)) l = Ok rs ∧
        Forall2 (λ p r, read_stored PROJECT (pl_project_id p) r w) l rs.
Proof.
  induction l as [|p l IH]; intros H; [by exists []|].
  destruct (H p ltac:(by left)) as (r & E & Hr). destruct IH as (rs & E' & Hrs); [intros q Hq; apply H; by right|].
  exists (r :: rs). cbn [mapM]. rewrite E. cbn. rewrite E'. by split; [|constructor].
Qed.

Lemma known_flag l r pc reads : known (_classification l r) l r ∧
  (read_status r ≠ rd_ok → "CLAIMS_UNKNOWN"%string ∈ _flags l pc (r :: reads)).
Proof.
  split; [apply classification_known|]. intros Hne. apply flags_spec. left. split; [done|]. cbn.
  apply orb_true_iff. left. by rewrite negb_true_iff, eqb_false.
Qed.

Lemma all_read_lasting reads b : lasting (all_read reads b).
Proof. intros w w' He H p Hp. destruct (H p Hp) as (r & E & Hr). exists r. split; [done|]. by eapply read_lasting. Qed.

Lemma read_of_spec ids reads w i :
  Forall2 (λ j jr, jr.1 = j ∧ read_stored PROJECT j jr.2 w) ids reads → i ∈ ids →
  ∃ r, read_of reads i = Ok r ∧ read_stored PROJECT i r w.
Proof.
  unfold read_of. induction 1 as [|j [j' r] ids reads [Hj Hr] _ IH]; intros Hi; [by apply not_elem_of_nil in Hi|].
  cbn [fst snd] in *. subst j'. cbn [assoc]. destruct (String.eqb i j) eqn:E.
  - rewrite String.eqb_eq in E. subst j. by exists r.
  - rewrite String.eqb_neq in E. apply IH. by apply elem_of_cons in Hi as [?|?].
Qed.

Lemma answers_row b work_scope project_scope reads :
  answers (all_read reads b) (_project_row b work_scope project_scope reads) (supported (base_work_id b)).
Proof.
  unfold _project_row. destruct (base_work b) as [work|]; [|apply answers_ret; auto using unknown_supported].
  destruct (base_relations b) as [relations|] eqn:Erel; [|apply answers_ret; auto using unknown_supported].
  eapply answers_bind; [apply all_read_lasting | apply answers_current|]. intros r w Hw [Hall Hr].
  destruct (reads_placements reads (WorkRelations.placements relations) w) as (rs & E & Hrs).
  { intros p Hp. apply Hall. unfold placements_of_base. by rewrite Erel. }
  rewrite E, lift_bind_Ok. do 2 eexists. split; [reflexivity|]. split; [by split|]. split; cbn; try done.
  - intros c. by apply visible_shown.
  - intros c Hc. rewrite list_elem_of_In, in_concat in Hc. destruct Hc as (l & Hl & Hc).
    rewrite <- !list_elem_of_In in *. apply list_elem_of_fmap in Hl as (pr & -> & Hpr).
    apply list_elem_of_lookup in Hpr as [n Hn]. destruct (Forall2_lookup_r _ _ _ _ _ Hrs Hn) as (p & Hp & Hpr).
    eexists. split; [apply list_elem_of_fmap; exists p; split; [reflexivity | by eapply list_elem_of_lookup_2]|].
    by eapply visible_shown.
  - exists r. destruct (known_flag (_visible_claims r work_scope) r
      (concat ((λ r, _visible_claims r project_scope) <$> rs)) rs) as [Hk Hf]. auto.
Qed.

Lemma project_reads_all reads bases w :
  Forall2 (λ j jr, jr.1 = j ∧ read_stored PROJECT j jr.2 w)
    (py_sort str_leb (remove_dups (pl_project_id <$> concat (placements_of_base <$> bases)))) reads →
  ∀ b, b ∈ bases → all_read reads b w.
Proof.
  intros Hr b Hb p Hp. apply (read_of_spec _ _ _ _ Hr). rewrite py_sort_perm, elem_of_remove_dups, list_elem_of_fmap.
  exists p. split; [done|]. rewrite list_elem_of_In, in_concat. exists (placements_of_base b).
  rewrite <- !list_elem_of_In. split; [|done]. apply list_elem_of_fmap. by exists b.
Qed.

(** For between one and fifty distinct works the projection always
    answers: the rows are the requested works in the order of their ids, and
    a row shows only stored claims of its work and of its projects, calls
    human only what was recorded as human, and claims no more knowledge than
    its reads support; a work that cannot be read is an unknown row.  No
    other number of works is answered. *)
Theorem context_supported work_ids w :
  AllInv nfkc_casefold (w_claims w) →
  let ids := py_sort str_leb (remove_dups work_ids) in
  if decide (1 <= length ids <= 50)%nat
  then ∃ w' r, project work_ids w = (w', Ok r) ∧ grown nfkc_casefold w w' ∧
       Forall2 (λ i row, supported i row w') ids (context_rows r)
  else (project work_ids w).2 = raise ValueError "work_ids must contain between 1 and 50 distinct IDs".
Proof.
  intros Hw ids. unfold project. fold ids. case_decide as Hlen.
  - assert (E : is_nil ids || (50 <? length ids)%nat = false).
    { apply orb_false_iff. split; [destruct ids; [cbn in Hlen; lia | done] | apply Nat.ltb_ge; lia]. }
    rewrite E. clear E. unfold throw_if, raise_if.
    match goal with |- context [(?m ≫= ?f) w] => assert (answers (λ _, True) (f ()) (λ r w, Forall2 (λ i row, supported i row w) ids (context_rows r))) as H end.
    + eapply answers_bind; [done | apply (answers_mapM _ _ (λ i b _, base_work_id b = i)); [done | intros; apply answers_base | by intros ? ? ? ?]|].
      intros bases. cbn beta zeta.
      assert (Hids : lasting (λ w, True ∧ Forall2 (λ i b, base_work_id b = i) ids bases)) by by intros ? ? ?.
      eapply answers_bind; [exact Hids | eapply (answers_mapM _ _ (λ j jr w, jr.1 = j ∧ read_stored PROJECT j jr.2 w)); [exact Hids| |]|].
      * intros j _. eapply answers_bind; [exact Hids | apply answers_current|]. intros r. apply answers_ret. by intros ? [_ ?].
      * intros j jr ? ? He [? H]. split; [done | by eapply read_lasting].
      * intros reads. eapply answers_bind; [|eapply (answers_mapM _ _ (λ b row w, supported (base_work_id b) row w))|].
        -- apply lasting_and; [exact Hids|]. intros w1 w2 He H. eapply Forall2_impl; [exact H|].
           intros j jr [? Hr]. split; [done | by eapply read_lasting].
        -- apply lasting_and; [exact Hids|]. intros w1 w2 He H. eapply Forall2_impl; [exact H|].
           intros j jr [? Hr]. split; [done | by eapply read_lasting].
        -- intros b Hb. eapply answers_weaken; [apply answers_row| |done]. intros w1 [[_ Hi] Hr].
           by eapply project_reads_all.
        -- intros b row. apply supported_lasting.
        -- intros rows. apply answers_ret. intros w1 [[[_ Hi] _] Hr]. cbn. clear -Hi Hr.
           revert rows Hr. induction Hi as [|i b ? ? <- _ IH]; intros rows Hr; inversion_clear Hr; constructor; auto.
    + apply H; done.
  - assert (E : is_nil ids || (50 <? length ids)%nat = true); [|by rewrite E].
    apply orb_true_iff. destruct ids; [by left|]. right. apply Nat.ltb_lt. cbn in *. lia.
Qed.
End context.

(** ** Instances *)

(** The claims after a human has set a priority, and the context of that work
    and of one that does not exist. *)
#[local] Abbreviation ex_pc_world :=
  (human_run ascii_fold ex_principal ex_ps_set (mkPWorld (ex_ps_grants ex_ps_grant)
     (run_claims ascii_fold ex_ps_calls (no_claims ∅)) [] 5)).1.

#[local] Abbreviation ex_pc_ids := [WorkEvents.ex_id 2; ex_ps_subject; WorkEvents.ex_id 2].

Lemma ex_pc_sorted : py_sort str_leb (remove_dups ex_pc_ids) = [ex_ps_subject; WorkEvents.ex_id 2].
Proof. vm_compute. reflexivity. Qed.

Lemma ex_pc_knowledge :
  (λ r, priority_knowledge <$> context_rows r) <$> (project ascii_fold (λ _ _, true) ex_pc_ids ex_pc_world).2
  = Ok [DIRECT_CURRENT; UNKNOWN_UNRANKED].
Proof. vm_compute. reflexivity. Qed.

Lemma context_supported_witness :
  ∃ w' r row, project ascii_fold (λ _ _, true) ex_pc_ids ex_pc_world = (w', Ok r) ∧ head (context_rows r) = Some row ∧
    supported ex_ps_subject row w' ∧ priority_knowledge row = DIRECT_CURRENT.
Proof.
  destruct (human_truthful ascii_fold ex_principal ex_ps_set
    (mkPWorld (ex_ps_grants ex_ps_grant) (run_claims ascii_fold ex_ps_calls (no_claims ∅)) [] 5) ex_ps_inv) as (o & w1 & E1 & Hw & _).
  apply (f_equal fst) in E1. cbn [fst] in E1. subst w1.
  pose proof (context_supported ascii_fold (λ _ _, true) ex_pc_ids _ Hw) as H.
  cbv zeta in H. rewrite ex_pc_sorted, decide_True in H by (cbn; lia).
  destruct H as (w' & r & E & _ & Hrows). exists w', r.
  pose proof ex_pc_knowledge as Hk. rewrite E in Hk. cbn [snd] in Hk. injection Hk as Hk.
  destruct (context_rows r) as [|row l]; [discriminate Hk|]. injection Hk as Hk _.
  exists row. split; [exact E|]. split; [reflexivity|]. split; [|exact Hk].
  inversion_clear Hrows. assumption.
Defined.
