(* ===== verification/Activation.v ===== *)
(** * Activation continuity ([activation_continuity.py],
    [activation_continuity_store.py])

    An activation obligation is an append-only chain of revisions, each linked
    to its predecessor by digest.  The policy part decides the next revision
    from the current one, the intent and server-resolved evidence; the store
    part checks the whole chain, the caller's binding and authority, and
    inserts.  A caller reads the chain and inserts in one database
    transaction, but under the isolation level of the code a concurrent
    insert is seen only as a key conflict, so the rows a caller has seen may
    be out of date when it inserts. *)

From S2P Require Import Prelude Json Contracts.
From S2P Require Grants ProductCurrentness.

Local Open Scope Z_scope.

#[local] Existing Instance Grants.PrincipalContext_eq_dec.
#[local] Existing Instance ProductCurrentness.ConditionResult_eq_dec.

Definition NAMESPACE : uuid := "28d32786-b92b-5624-9afd-dcf5bf57af51".

Inductive Transition :=
  | ACTIVATED | ACKNOWLEDGED | BLOCK | CLEAR_BLOCKER | ACCEPTANCE_PASS | ACCEPTANCE_FAIL
  | ACCEPTANCE_UNKNOWN | ADOPTION_ADOPTED | FINALIZE_DELIVERY | DEFER | RETIRE.

#[export] Instance Transition_eq_dec : EqDecision Transition.
Proof. solve_decision. Defined.

Definition transition_text (t : Transition) : string :=
  match t with
  | ACTIVATED => "ACTIVATED" | ACKNOWLEDGED => "ACKNOWLEDGED" | BLOCK => "BLOCK"
  | CLEAR_BLOCKER => "CLEAR_BLOCKER" | ACCEPTANCE_PASS => "ACCEPTANCE_PASS"
  | ACCEPTANCE_FAIL => "ACCEPTANCE_FAIL" | ACCEPTANCE_UNKNOWN => "ACCEPTANCE_UNKNOWN"
  | ADOPTION_ADOPTED => "ADOPTION_ADOPTED" | FINALIZE_DELIVERY => "FINALIZE_DELIVERY"
  | DEFER => "DEFER" | RETIRE => "RETIRE"
  end.

Inductive ProofKind := ACCEPTANCE | ADOPTION | CLEARING.

#[export] Instance ProofKind_eq_dec : EqDecision ProofKind.
Proof. solve_decision. Defined.

Definition TERMINAL : list string := ["DELIVERED"; "DEFERRED"; "RETIRED"].

(** ** The contract *)

Record ActivationContract := mkContract {
  product_work_id : uuid; outcome_key : string; target_revision : string; target_phase : string;
  return_owner_work_id : uuid; acceptance_contract_id : string; contract_revision : string;
  acceptance_verifier_work_id : option uuid; adoption_required : bool;
  adoption_actor_work_id : option uuid; lifecycle_authority_work_id : uuid }.

Definition requirement_text (required : bool) : string :=
  if required then "REQUIRED" else "NOT_REQUIRED".

(** [adoption_actor_matches_requirement] *)
Definition ActivationContract_validate (c : ActivationContract) : res ActivationContract :=
  if xorb (adoption_required c) (is_some (adoption_actor_work_id c))
  then raise ValueError "required adoption needs one bound actor" else Ok c.

(** [obligation_id] *)
Definition contract_obligation_id (c : ActivationContract) : uuid :=
  uuid5 NAMESPACE (dumps false true "," ":" (jstrs
    [product_work_id c; outcome_key c; target_revision c; target_phase c])).

(** [stored] *)
Definition stored (c : ActivationContract) : json :=
  JObj [("obligation_id", JStr (contract_obligation_id c));
        ("product_work_id", JStr (product_work_id c)); ("outcome_key", JStr (outcome_key c));
        ("target_revision", JStr (target_revision c)); ("target_phase", JStr (target_phase c));
        ("return_owner_work_id", JStr (return_owner_work_id c));
        ("acceptance_contract_id", JStr (acceptance_contract_id c));
        ("contract_revision", JStr (contract_revision c));
        ("acceptance_verifier_work_id", jopt (acceptance_verifier_work_id c));
        ("adoption_requirement", JStr (requirement_text (adoption_required c)));
        ("adoption_actor_work_id", jopt (adoption_actor_work_id c));
        ("lifecycle_authority_work_id", JStr (lifecycle_authority_work_id c))].

(** ** Intents and server-resolved evidence *)

Record TransitionIntent := mkIntent {
  i_operation_id : uuid; i_obligation_id : uuid; observed_revision : string;
  transition : Transition; evidence_refs : list string; i_blocker_ref : option string;
  i_clearing_event_ref : option string }.

(** [bounded_unique_evidence], of intents and proofs. *)
Definition evidence_refs_ok (l : list string) : bool :=
  no_dup l && negb (existsb (λ v, negb (truthy v) || (1000 <? py_len v)) l).

(** A technical basis is never [c_unknown]; a runtime or proof may be. *)
Inductive Currentness := c_current | c_stale | c_unknown.

#[export] Instance Currentness_eq_dec : EqDecision Currentness.
Proof. solve_decision. Defined.

Definition currentness_text (c : Currentness) : string :=
  match c with c_current => "CURRENT" | c_stale => "STALE" | c_unknown => "UNKNOWN" end.

Record TechnicalBasis := mkBasis {
  tb_target_revision : string; tb_target_phase : string; tb_currentness : Currentness;
  tb_result : ProductCurrentness.ProductCurrentness }.

Record RuntimeBinding := mkRuntime {
  actor_work_id : uuid; binding_token : string; rt_currentness : Currentness }.

Record TransitionProof := mkProof {
  pf_kind : ProofKind; pf_obligation_id : uuid; pf_product_work_id : uuid;
  pf_target_revision : string; pf_target_phase : string; pf_acceptance_contract_id : string;
  pf_contract_revision : string; pf_currentness : Currentness; pf_evidence_refs : list string;
  pf_clearing_event_ref : option string }.

(** [TransitionProof.bounded_unique_evidence] *)
Definition TransitionProof_validate (p : TransitionProof) : res TransitionProof :=
  if negb (evidence_refs_ok (pf_evidence_refs p))
  then raise ValueError "evidence refs must be unique bounded strings"
  else if xorb (eqb (pf_kind p) CLEARING) (is_some (pf_clearing_event_ref p))
  then raise ValueError "only clearing proof carries a clearing event"
  else Ok p.

(** ** Obligations *)

Record Obligation := mkObligation {
  binding : json; state : string; acceptance : string; adoption : string;
  blocker_ref : option string; blocker_phase : option string; clearing_event_ref : option string;
  acceptance_proof : list string; adoption_proof : list string; actor_ref_ : string;
  runtime_binding_token : string; technical_basis_ref : option string; generation : Z;
  predecessor : option string; operation_id : uuid; intent_digest_ : string; digest : string }.

Definition states : list string :=
  ["WAITING_ACTIVATION"; "VERIFY_NOW"; "VERIFYING"; "BLOCKED"; "ACCEPTED"; "DELIVERED";
   "DEFERRED"; "RETIRED"].

(** The field constraints of [Obligation]. *)
Definition obligation_fields_ok (o : Obligation) : bool :=
  mem (state o) states && mem (acceptance o) ["NOT_RUN"; "PASS"; "FAIL"; "UNKNOWN"]
  && mem (adoption o) ["NOT_REQUIRED"; "PENDING"; "ADOPTED"; "REJECTED"; "UNKNOWN"]
  && (1 <=? generation o) && hex_fullmatch 64 (intent_digest_ o) && hex_fullmatch 64 (digest o).

(** [coherent] *)
Definition coherent (o : Obligation) : res Obligation :=
  if xorb (eqb (state o) "BLOCKED")
       (is_some (blocker_ref o) && is_some (blocker_phase o) && is_some (clearing_event_ref o))
  then raise ValueError "only BLOCKED carries complete blocker evidence"
  else if mem (state o) ["ACCEPTED"; "DELIVERED"] && negb (eqb (acceptance o) "PASS")
  then raise ValueError "accepted states require acceptance PASS"
  else if eqb (state o) "DELIVERED" && negb (mem (adoption o) ["ADOPTED"; "NOT_REQUIRED"])
  then raise ValueError "delivery requires completed adoption"
  else if xorb (generation o =? 1) (is_none (predecessor o))
  then raise ValueError "generation does not match predecessor"
  else Ok o.

(** [Obligation.model_validate] of a stored record. *)
Definition Obligation_validate (o : Obligation) : res Obligation :=
  if obligation_fields_ok o then coherent o else raise ValueError "validation error".

Inductive ResultStatus :=
  | APPLIED | REPLAYED | CURRENT | STALE | CONFLICT | DENIED | MISSING | UNKNOWN.

#[export] Instance ResultStatus_eq_dec : EqDecision ResultStatus.
Proof. solve_decision. Defined.

Record ContinuityResult := mkResult {
  status : ResultStatus; obligation : option Obligation; reason : option string }.

Definition denied (current : Obligation) (why : string) : ContinuityResult :=
  mkResult DENIED (Some current) (Some why).

(** ** Digests *)

(** [_digest] *)
Definition _digest (v : json) : string := sha256_hex (dumps_compact v).

(** [value.model_dump(mode="json", exclude={"digest"})] *)
Definition payload (o : Obligation) : json :=
  JObj [("binding", binding o); ("state", JStr (state o)); ("acceptance", JStr (acceptance o));
        ("adoption", JStr (adoption o)); ("blocker_ref", jopt (blocker_ref o));
        ("blocker_phase", jopt (blocker_phase o));
        ("clearing_event_ref", jopt (clearing_event_ref o));
        ("acceptance_proof", jstrs (acceptance_proof o));
        ("adoption_proof", jstrs (adoption_proof o)); ("actor_ref", JStr (actor_ref_ o));
        ("runtime_binding_token", JStr (runtime_binding_token o));
        ("technical_basis_ref", jopt (technical_basis_ref o));
        ("generation", JInt (generation o)); ("predecessor", jopt (predecessor o));
        ("operation_id", JStr (operation_id o)); ("intent_digest", JStr (intent_digest_ o))].

Definition with_digest (d : string) (o : Obligation) : Obligation :=
  mkObligation (binding o) (state o) (acceptance o) (adoption o) (blocker_ref o)
    (blocker_phase o) (clearing_event_ref o) (acceptance_proof o) (adoption_proof o)
    (actor_ref_ o) (runtime_binding_token o) (technical_basis_ref o) (generation o)
    (predecessor o) (operation_id o) (intent_digest_ o) d.

(** [seal_obligation] *)
Definition seal_obligation (o : Obligation) : Obligation := with_digest (_digest (payload o)) o.

(** [actor_ref] *)
Definition actor_ref (p : Grants.PrincipalContext) (g : Grants.WorkGrant) (rt : RuntimeBinding) : string :=
  _digest (JObj
    [("principal", JStr (Grants.principal_key p)); ("grant", JStr (Grants.grant_id g));
     ("version", JInt (Grants.version g));
     ("runtime", JObj [("actor_work_id", JStr (actor_work_id rt));
                       ("binding_token", JStr (binding_token rt));
                       ("currentness", JStr (currentness_text (rt_currentness rt)))])]).

(** [intent_digest] *)
Definition intent_digest (i : TransitionIntent) (actor : string) : string :=
  _digest (JObj
    [("intent", JObj
       [("operation_id", JStr (i_operation_id i)); ("obligation_id", JStr (i_obligation_id i));
        ("observed_revision", JStr (observed_revision i));
        ("transition", JStr (transition_text (transition i)));
        ("evidence_refs", jstrs (evidence_refs i)); ("blocker_ref", jopt (i_blocker_ref i));
        ("clearing_event_ref", jopt (i_clearing_event_ref i))]);
     ("actor_ref", JStr actor)]).

(** ** Policy *)

Definition status_ok (s : ProductCurrentness.ReconciliationStatus) : bool :=
  match s with ProductCurrentness.ok => true | _ => false end.

(** [_technical_true] *)
Definition technical_true (c : ActivationContract) (b : option TechnicalBasis) : bool :=
  match b with
  | None => false
  | Some b =>
      eqb (tb_target_revision b) (target_revision c) && eqb (tb_target_phase b) (target_phase c)
      && eqb (tb_currentness b) c_current
      && eqb (ProductCurrentness.product_work_id (tb_result b)) (product_work_id c)
      && status_ok (ProductCurrentness.status (tb_result b))
      && eqb (ProductCurrentness.current (tb_result b)) ProductCurrentness.TRUE
      && is_nil (ProductCurrentness.blockers (tb_result b))
  end.

(** [str(technical.result.reconciliation_id)]; read only when [technical_true]. *)
Definition basis_ref (b : option TechnicalBasis) : option string :=
  (λ b, ProductCurrentness.reconciliation_id (tb_result b)) <$> b.

(** [_proof_matches] *)
Definition proof_matches (c : ActivationContract) (i : TransitionIntent)
    (p : option TransitionProof) (k : ProofKind) : bool :=
  match p with
  | None => false
  | Some p =>
      eqb (pf_kind p) k && eqb (pf_currentness p) c_current
      && eqb (pf_obligation_id p) (contract_obligation_id c)
      && eqb (pf_product_work_id p) (product_work_id c)
      && eqb (pf_target_revision p) (target_revision c)
      && eqb (pf_target_phase p) (target_phase c)
      && eqb (pf_acceptance_contract_id p) (acceptance_contract_id c)
      && eqb (pf_contract_revision p) (contract_revision c)
      && eqb (pf_clearing_event_ref p) (i_clearing_event_ref i)
  end.

(** [transition.startswith("ACCEPTANCE_")] with [removeprefix]. *)
Definition acceptance_result (t : Transition) : option string :=
  match t with
  | ACCEPTANCE_PASS => Some "PASS" | ACCEPTANCE_FAIL => Some "FAIL"
  | ACCEPTANCE_UNKNOWN => Some "UNKNOWN" | _ => None
  end.

(** [authorized] *)
Definition authorized (c : ActivationContract) (actor : uuid) (t : Transition) : bool :=
  match t with
  | ACTIVATED => eqb actor (product_work_id c)
  | ACKNOWLEDGED => eqb actor (return_owner_work_id c)
  | ACCEPTANCE_PASS | ACCEPTANCE_FAIL | ACCEPTANCE_UNKNOWN =>
      eqb actor (return_owner_work_id c) || eqb (Some actor) (acceptance_verifier_work_id c)
  | ADOPTION_ADOPTED => eqb (Some actor) (adoption_actor_work_id c)
  | DEFER | RETIRE => eqb actor (lifecycle_authority_work_id c)
  | _ => eqb actor (return_owner_work_id c) || eqb (Some actor) (acceptance_verifier_work_id c)
         || eqb actor (product_work_id c)
  end.

(** [next_action] *)
Definition next_action (o : Obligation) : option string :=
  if eqb (state o) "VERIFYING"
  then Some (if eqb (acceptance o) "NOT_RUN" then "VERIFY_NOW" else "REMEDIATE_REVERIFY")
  else if eqb (state o) "WAITING_ACTIVATION" then Some "WAIT_ACTIVATION_CONDITION"
  else if eqb (state o) "VERIFY_NOW" then Some "VERIFY_NOW"
  else if eqb (state o) "BLOCKED" then Some "WAIT_CLEARING_EVENT"
  else if eqb (state o) "ACCEPTED"
  then Some (if eqb (adoption o) "PENDING" then "COMPLETE_ADOPTION" else "FINALIZE_DELIVERY")
  else None.

Definition zero_digest : string := "0000000000000000000000000000000000000000000000000000000000000000".

(** [open_obligation] *)
Definition open_obligation (c : ActivationContract) (i : TransitionIntent) (actor token : string)
    (technical : option TechnicalBasis) : ContinuityResult :=
  if negb (eqb (transition i) ACTIVATED) || negb (eqb (observed_revision i) "MISSING")
  then mkResult MISSING None (Some "obligation_missing")
  else if negb (technical_true c technical)
  then mkResult DENIED None (Some "activation_unproved")
  else mkResult APPLIED (Some (seal_obligation (mkObligation (stored c) "VERIFY_NOW" "NOT_RUN"
         (if adoption_required c then "PENDING" else "NOT_REQUIRED") None None None [] [] actor
         token (basis_ref technical) 1 None (i_operation_id i) (intent_digest i actor)
         zero_digest))) None.

(** The fields a transition changes. *)
Definition set_state (s : string) (o : Obligation) : Obligation :=
  mkObligation (binding o) s (acceptance o) (adoption o) (blocker_ref o) (blocker_phase o)
    (clearing_event_ref o) (acceptance_proof o) (adoption_proof o) (actor_ref_ o)
    (runtime_binding_token o) (technical_basis_ref o) (generation o) (predecessor o)
    (operation_id o) (intent_digest_ o) (digest o).
Definition set_technical (t : option string) (o : Obligation) : Obligation :=
  mkObligation (binding o) (state o) (acceptance o) (adoption o) (blocker_ref o) (blocker_phase o)
    (clearing_event_ref o) (acceptance_proof o) (adoption_proof o) (actor_ref_ o)
    (runtime_binding_token o) t (generation o) (predecessor o) (operation_id o)
    (intent_digest_ o) (digest o).
Definition set_blocker (r p c : option string) (o : Obligation) : Obligation :=
  mkObligation (binding o) (state o) (acceptance o) (adoption o) r p c (acceptance_proof o)
    (adoption_proof o) (actor_ref_ o) (runtime_binding_token o) (technical_basis_ref o)
    (generation o) (predecessor o) (operation_id o) (intent_digest_ o) (digest o).
Definition set_acceptance (a : string) (l : list string) (o : Obligation) : Obligation :=
  mkObligation (binding o) (state o) a (adoption o) (blocker_ref o) (blocker_phase o)
    (clearing_event_ref o) l (adoption_proof o) (actor_ref_ o) (runtime_binding_token o)
    (technical_basis_ref o) (generation o) (predecessor o) (operation_id o) (intent_digest_ o)
    (digest o).
Definition set_adoption (a : string) (l : list string) (o : Obligation) : Obligation :=
  mkObligation (binding o) (state o) (acceptance o) a (blocker_ref o) (blocker_phase o)
    (clearing_event_ref o) (acceptance_proof o) l (actor_ref_ o) (runtime_binding_token o)
    (technical_basis_ref o) (generation o) (predecessor o) (operation_id o) (intent_digest_ o)
    (digest o).

Definition proof_refs (p : option TransitionProof) : list string :=
  match p with Some p => pf_evidence_refs p | None => [] end.

(** The [changes] of [advance_obligation], or the reason of a denial. *)
Definition changes (c : ActivationContract) (o : Obligation) (i : TransitionIntent)
    (technical : option TechnicalBasis) (proof : option TransitionProof) : string + Obligation :=
  let t := transition i in
  if eqb (state o) "BLOCKED" && negb (mem t [CLEAR_BLOCKER; DEFER; RETIRE])
  then inl "transition_not_applicable"
  else if eqb t ACTIVATED && eqb (state o) "WAITING_ACTIVATION" then
    if technical_true c technical
    then inr (set_technical (basis_ref technical) (set_state "VERIFY_NOW" o))
    else inl "activation_unproved"
  else if eqb t ACKNOWLEDGED && eqb (state o) "VERIFY_NOW" then inr (set_state "VERIFYING" o)
  else if eqb t BLOCK && truthy (or_empty (i_blocker_ref i))
          && truthy (or_empty (i_clearing_event_ref i))
  then inr (set_blocker (i_blocker_ref i) (Some (state o)) (i_clearing_event_ref i)
              (set_state "BLOCKED" o))
  else if eqb t CLEAR_BLOCKER && eqb (state o) "BLOCKED" then
    if negb (eqb (i_clearing_event_ref i) (clearing_event_ref o))
       || negb (proof_matches c i proof CLEARING)
    then inl "clearing_proof_invalid"
    else inr (set_blocker None None None (set_state (or_empty (blocker_phase o)) o))
  else match acceptance_result t with
  | Some result =>
      if mem (state o) ["VERIFY_NOW"; "VERIFYING"; "ACCEPTED"] then
        if negb (proof_matches c i proof ACCEPTANCE) then inl "proof_invalid"
        else inr (set_acceptance result (proof_refs proof)
                    (set_state (if eqb result "PASS" then "ACCEPTED" else "VERIFYING") o))
      else inl "transition_not_applicable"
  | None =>
      if eqb t ADOPTION_ADOPTED && proof_matches c i proof ADOPTION
      then inr (set_adoption "ADOPTED" (proof_refs proof) o)
      else if eqb t FINALIZE_DELIVERY && eqb (state o) "ACCEPTED" then inr o
      else if mem t [DEFER; RETIRE]
      then inr (set_blocker None None None
                  (set_state (if eqb t DEFER then "DEFERRED" else "RETIRED") o))
      else inl "transition_not_applicable"
  end.

(** The bookkeeping fields of the next revision. *)
Definition next_revision (current o : Obligation) (i : TransitionIntent) (actor token : string)
  : Obligation :=
  mkObligation (binding o) (state o) (acceptance o) (adoption o) (blocker_ref o) (blocker_phase o)
    (clearing_event_ref o) (acceptance_proof o) (adoption_proof o) actor token
    (technical_basis_ref o) (generation current + 1) (Some (digest current)) (i_operation_id i)
    (intent_digest i actor) zero_digest.

(** Delivery is decided last. *)
Definition promote (c : ActivationContract) (technical : option TechnicalBasis) (o : Obligation)
  : Obligation :=
  if eqb (acceptance o) "PASS" && mem (adoption o) ["ADOPTED"; "NOT_REQUIRED"] then
    if technical_true c technical
    then set_technical (basis_ref technical) (set_state "DELIVERED" o)
    else if eqb (state o) "DELIVERED" then set_state "ACCEPTED" o else o
  else o.

(** [advance_obligation] *)
Definition advance_obligation (c : ActivationContract) (current : Obligation)
    (i : TransitionIntent) (actor token : string) (technical : option TechnicalBasis)
    (proof : option TransitionProof) : ContinuityResult :=
  if eqb (operation_id current) (i_operation_id i) then
    if eqb (intent_digest_ current) (intent_digest i actor)
    then mkResult REPLAYED (Some current) None
    else mkResult CONFLICT (Some current) (Some "operation_identity_conflict")
  else if negb (eqb (digest current) (observed_revision i))
  then mkResult STALE (Some current) (Some "revision_changed")
  else if mem (state current) TERMINAL then denied current "obligation_terminal"
  else match changes c current i technical proof with
  | inl why => denied current why
  | inr o =>
      mkResult APPLIED
        (Some (seal_obligation (promote c technical (next_revision current o i actor token)))) None
  end.

(** ** Store *)

Record Row := mkRow {
  row_obligation_id : uuid; row_operation_id : uuid; row_generation : Z; record : Obligation }.

(** The table, oldest insertion first. *)
Definition DB := list Row.

Definition row_le (a b : Row) : bool := row_generation a <=? row_generation b.

(** [SELECT ... WHERE obligation_id=:id ORDER BY generation] *)
Definition rows_of (id : uuid) (d : DB) : list Row :=
  py_sort row_le (List.filter (λ r, eqb (row_obligation_id r) id) d).

(** The loop of [_chain] over the validated values, from generation [n] and
    predecessor [previous]. *)
Fixpoint chain_links (n : Z) (previous : option string) (rows : list Row) : bool :=
  match rows with
  | [] => true
  | r :: rows' =>
      let v := record r in
      (generation v =? n) && eqb (predecessor v) previous
      && eqb (operation_id v) (row_operation_id r)
      && eqb (digest (seal_obligation v)) (digest v)
      && chain_links (n + 1) (Some (digest v)) rows'
  end.

(** [_chain]: [None] for a corrupt chain. *)
Definition chain (rows : list Row) : option (list Obligation) :=
  if forallb (λ r, is_ok (Obligation_validate (record r))) rows && chain_links 1 None rows
  then Some (record <$> rows) else None.

(** [ActivationContinuity.get], when the table can be read. *)
Definition get (id : uuid) (d : DB) : ContinuityResult :=
  match chain (rows_of id d) with
  | None => mkResult UNKNOWN None (Some "corrupt_revision_chain")
  | Some l =>
      match last l with
      | None => mkResult MISSING None (Some "obligation_missing")
      | Some o => mkResult CURRENT (Some o) None
      end
  end.

(** [return_owner_work_id] of a stored binding. *)
Definition owner_of (r : Row) : option json :=
  match binding (record r) with JObj kvs => assoc "return_owner_work_id" kvs | _ => None end.

(** [for_owner]: the latest revision of each of the owner's obligations, [None]
    for UNKNOWN. *)
Definition for_owner (owner : uuid) (d : DB) : option (list Obligation) :=
  let mine := List.filter (λ r, eqb (owner_of r) (Some (JStr owner))) d in
  let ids := py_sort str_leb (remove_dups (row_obligation_id <$> mine)) in
  let chains := (λ id, chain (rows_of id mine)) <$> ids in
  if existsb is_none chains then None
  else Some (omap (λ ch, l ← ch; last l) chains).

(** [INSERT]: the primary key and the unique operation. *)
Definition insert_row (r : Row) : M DB unit := λ d,
  if existsb (λ r', eqb (row_obligation_id r') (row_obligation_id r)
                    && (row_generation r' =? row_generation r)
                    || eqb (row_operation_id r') (row_operation_id r)) d
  then (d, raise IntegrityError "unique constraint")
  else (d ++ [r], Ok tt).

(** The transaction of [transition] on the rows it saw. *)
Definition decide_and_insert (c : ActivationContract) (seen : list Row) (i : TransitionIntent)
    (actor token : string) (technical : option TechnicalBasis) (proof : option TransitionProof)
  : M DB ContinuityResult :=
  match chain seen with
  | None => mret (mkResult UNKNOWN None (Some "corrupt_revision_chain"))
  | Some l =>
      if match last l with Some o => negb (eqb (binding o) (stored c)) | None => false end
      then mret (mkResult CONFLICT None (Some "stored_binding_mismatch"))
      else
        let decision :=
          match last l with
          | None => open_obligation c i actor token technical
          | Some o => advance_obligation c o i actor token technical proof
          end in
        match obligation decision with
        | Some v =>
            if negb (eqb (status decision) APPLIED) then mret decision
            else insert_row (mkRow (i_obligation_id i) (operation_id v) (generation v) v);;
                 mret decision
        | None => mret decision
        end
  end.

(** What [transition] answers after a database error. *)
Definition after_error (i : TransitionIntent) (actor : string) : M DB ContinuityResult := λ d,
  let replay := get (i_obligation_id i) d in
  (d, Ok (match obligation replay with
          | Some o =>
              if eqb (operation_id o) (i_operation_id i)
              then mkResult (if eqb (intent_digest_ o) (intent_digest i actor) then REPLAYED
                             else CONFLICT) (Some o) (reason replay)
              else mkResult STALE (Some o) (Some "revision_changed")
          | None => mkResult UNKNOWN None (Some "state_unavailable")
          end)).

(** [ActivationContinuity.transition] of a caller that saw [seen]; [now] is the
    clock reading of [grant.current()]. *)
Definition transition_on (contracts : uuid → option ActivationContract)
    (p : Grants.PrincipalContext) (g : Grants.WorkGrant) (rt : RuntimeBinding)
    (i : TransitionIntent) (technical : option TechnicalBasis) (proof : option TransitionProof)
    (now : Z) (seen : list Row) : M DB ContinuityResult :=
  match contracts (i_obligation_id i) with
  | None => mret (mkResult DENIED None (Some "contract_not_installed"))
  | Some c =>
      if negb (eqb (Grants.principal g) p) || negb (Grants.grant_current g now)
      then mret (mkResult STALE None (Some "actor_binding_not_current"))
      else if negb (eqb (rt_currentness rt) c_current)
           || negb (eqb (actor_work_id rt) (active_work_id (Grants.authority g)))
      then mret (mkResult STALE None (Some "runtime_binding_not_current"))
      else if negb (authorized c (actor_work_id rt) (transition i))
      then mret (mkResult DENIED None (Some "transition_not_authorized"))
      else
        let actor := actor_ref p g rt in
        catch (transaction (decide_and_insert c seen i actor (binding_token rt) technical proof))
          [SQLAlchemyError] (λ _, after_error i actor)
  end.

(** ** Concurrent callers *)

(** The table, and the chains some caller has read. *)
Record Sys := mkSys { table : DB; snapshots : list (uuid * list Row) }.

Inductive sys_step (s : Sys) : Sys → Prop :=
  | sys_read id : sys_step s (mkSys (table s) ((id, rows_of id (table s)) :: snapshots s))
  | sys_transition contracts p g rt i technical proof now seen :
      (i_obligation_id i, seen) ∈ snapshots s →
      sys_step s (mkSys (transition_on contracts p g rt i technical proof now seen (table s)).1
                    (snapshots s)).

Definition sys_reachable : Sys → Prop := rtc sys_step (mkSys [] []).

(** *** Ordering of the rows *)

#[local] Arguments rows_of : simpl never.

Lemma rows_of_elem id d r : r ∈ rows_of id d ↔ r ∈ d ∧ row_obligation_id r = id.
Proof.
  unfold rows_of. rewrite py_sort_perm, list_elem_of_In, filter_In, <- list_elem_of_In, eqb_true. done.
Qed.

Lemma rows_of_other id d r :
  row_obligation_id r ≠ id → rows_of id (d ++ [r]) = rows_of id d.
Proof.
  intros Hr. unfold rows_of. rewrite List.filter_app. cbn.
  rewrite (proj2 (eqb_false _ _)) by done. by rewrite app_nil_r.
Qed.

Lemma rows_of_last d r :
  (∀ x, x ∈ rows_of (row_obligation_id r) d → row_le x r = true) →
  rows_of (row_obligation_id r) (d ++ [r]) = rows_of (row_obligation_id r) d ++ [r].
Proof.
  intros Hr. unfold rows_of. rewrite List.filter_app. cbn. rewrite eqb_refl.
  apply py_sort_last. intros x Hx. apply Hr. unfold rows_of. by rewrite py_sort_perm.
Qed.

(** *** Links *)

Lemma chain_links_app n prev l r :
  chain_links n prev (l ++ [r]) = true ↔
  chain_links n prev l = true ∧
  let v := record r in
  generation v = n + Z.of_nat (length l) ∧
  predecessor v = default prev ((λ o, Some (digest (record o))) <$> last l) ∧
  operation_id v = row_operation_id r ∧ digest (seal_obligation v) = digest v.
Proof.
  revert n prev. induction l as [|x l IH]; intros n prev; cbn.
  - rewrite andb_true_r, !andb_true_iff, !eqb_true, Z.eqb_eq. split; [intuition lia|].
    intros (_ & ? & ? & ? & ?). intuition lia.
  - rewrite !andb_true_iff, IH, !eqb_true, Z.eqb_eq. cbn.
    rewrite last_cons. destruct (last l); cbn; intuition lia.
Qed.

Lemma chain_links_generation n prev l i r :
  chain_links n prev l = true → l !! i = Some r → generation (record r) = n + Z.of_nat i.
Proof.
  revert n prev i. induction l as [|x l IH]; intros n prev i; [done|]. cbn.
  rewrite !andb_true_iff, Z.eqb_eq. intros ((((? & _) & _) & _) & Hl) Hi.
  destruct i as [|i]; cbn in Hi; [simplify_eq; lia|]. specialize (IH _ _ _ Hl Hi). lia.
Qed.

Lemma sealed o : digest (seal_obligation (seal_obligation o)) = digest (seal_obligation o).
Proof. done. Qed.

(** Every decision to apply carries a sealed revision that continues the
    current one. *)
Definition continues (prev : option Obligation) (v : Obligation) : Prop :=
  generation v = match prev with Some o => generation o + 1 | None => 1 end ∧
  predecessor v = digest <$> prev ∧ digest (seal_obligation v) = digest v.

Lemma promote_frame c t o :
  generation (promote c t o) = generation o ∧ predecessor (promote c t o) = predecessor o ∧
  operation_id (promote c t o) = operation_id o ∧ acceptance (promote c t o) = acceptance o ∧
  adoption (promote c t o) = adoption o ∧ blocker_ref (promote c t o) = blocker_ref o ∧
  blocker_phase (promote c t o) = blocker_phase o ∧
  clearing_event_ref (promote c t o) = clearing_event_ref o.
Proof. unfold promote. by repeat case_match. Qed.

Lemma open_continues c i actor token t v :
  obligation (open_obligation c i actor token t) = Some v →
  continues None v ∧ operation_id v = i_operation_id i.
Proof. unfold open_obligation. do 2 (case_match; [done|]). by intros [= <-]. Qed.

Lemma advance_continues c o i actor token t p v :
  status (advance_obligation c o i actor token t p) = APPLIED →
  obligation (advance_obligation c o i actor token t p) = Some v →
  continues (Some o) v ∧ operation_id v = i_operation_id i.
Proof.
  unfold advance_obligation. repeat (case_match; try done). intros _ [= <-].
  set (x := promote _ _ _).
  destruct (promote_frame c t (next_revision o o0 i actor token)) as (Hg & Hp & Ho & _).
  split; [|exact Ho]. split; [exact Hg|]. split; [exact Hp | apply sealed].
Qed.

(** *** The invariant *)

Record SysInv (s : Sys) : Prop := {
  si_links id : chain_links 1 None (rows_of id (table s)) = true;
  si_generation r : r ∈ table s → row_generation r = generation (record r);
  si_operations : NoDup (row_operation_id <$> table s);
  si_snapshots id seen : (id, seen) ∈ snapshots s → seen `prefix_of` rows_of id (table s) }.

(** What one transition may do to the table. *)
Lemma insert_row_cases r d :
  (∃ e, exn_cls e = IntegrityError ∧ insert_row r d = (d, Err e)) ∨
  (insert_row r d = (d ++ [r], Ok tt) ∧ (row_operation_id r ∉ (row_operation_id <$> d)) ∧
   (∀ x, x ∈ d → row_obligation_id x = row_obligation_id r → row_generation x ≠ row_generation r)).
Proof.
  unfold insert_row. destruct (existsb _ d) eqn:E; [left; eexists; split; [|reflexivity]; reflexivity |]. right. split; [done|].
  assert (Hall : ∀ x, x ∈ d → (eqb (row_obligation_id x) (row_obligation_id r)
    && (row_generation x =? row_generation r) || eqb (row_operation_id x) (row_operation_id r)) = false).
  { intros x Hx. apply not_true_iff_false. intros Ht. apply not_true_iff_false in E. destruct E.
    apply existsb_exists. exists x. by rewrite <- list_elem_of_In. }
  split.
  - intros (x & Hx & Hin)%list_elem_of_fmap. specialize (Hall x Hin). to_prop. naive_solver.
  - intros x Hin Hid. specialize (Hall x Hin). to_prop. naive_solver.
Qed.

Lemma last_record l : last (record <$> l) = record <$> last l.
Proof. apply fmap_last. Qed.

(** The decision of [decide_and_insert]. *)
Definition decision (c : ActivationContract) (seen : list Row) (i : TransitionIntent)
    (actor token : string) (technical : option TechnicalBasis) (proof : option TransitionProof)
  : ContinuityResult :=
  match last seen with
  | None => open_obligation c i actor token technical
  | Some r => advance_obligation c (record r) i actor token technical proof
  end.

Lemma decide_and_insert_cases c seen i actor token technical proof d :
  (∃ e, exn_cls e = IntegrityError ∧
     decide_and_insert c seen i actor token technical proof d = (d, Err e)) ∨
  (∃ r, decide_and_insert c seen i actor token technical proof d = (d, Ok r) ∧ status r ≠ APPLIED) ∨
  (∃ v, let dec := decision c seen i actor token technical proof in
     let row := mkRow (i_obligation_id i) (operation_id v) (generation v) v in
     is_some (chain seen) = true ∧ status dec = APPLIED ∧ obligation dec = Some v ∧
     (∀ o, record <$> last seen = Some o → binding o = stored c) ∧
     decide_and_insert c seen i actor token technical proof d = (d ++ [row], Ok dec) ∧
     (row_operation_id row ∉ (row_operation_id <$> d)) ∧
     (∀ x, x ∈ d → row_obligation_id x = i_obligation_id i → row_generation x ≠ generation v)).
Proof.
  unfold decide_and_insert. destruct (chain seen) as [l|] eqn:Hch; [|right; left; eexists; split; done].
  assert (l = record <$> seen) as -> by (unfold chain in Hch; case_match; by simplify_eq).
  rewrite last_record. unfold decision. set (dec := match last seen with Some r => _ | None => _ end).
  assert (Hdec : match record <$> last seen with
    | Some o => advance_obligation c o i actor token technical proof
    | None => open_obligation c i actor token technical end = dec) by (unfold dec; by destruct (last seen)).
  rewrite Hdec. destruct (match record <$> last seen with Some o => _ | None => false end) eqn:Hb;
    [right; left; eexists; split; done|].
  destruct (obligation dec) as [v|] eqn:Hv.
  - destruct (eqb (status dec) APPLIED) eqn:Hs; cbn; rewrite ?eqb_true, ?eqb_false in Hs; [|eauto].
    unfold mbind, M_bind. set (row := mkRow _ _ _ v).
    destruct (insert_row_cases row d) as [(e & He & ->)|(-> & Ho & Hg)]; [left; exists e; done |].
    right; right. exists v. repeat split; try done. intros o Ho'. rewrite Ho' in Hb. to_prop. done.
  - right; left. eexists. split; [done|]. intros Hs. unfold dec, decision in *.
    destruct (last seen); unfold advance_obligation, open_obligation, denied in *; repeat (case_match; try done).
Qed.

Lemma chain_last seen n prev :
  chain_links n prev seen = true →
  match last seen with
  | Some r => generation (record r) = n + Z.of_nat (length seen) - 1
  | None => seen = []
  end.
Proof.
  intros Hl. destruct seen as [|r seen] using rev_ind; [done|].
  rewrite last_snoc, length_app. apply chain_links_app in Hl as (_ & -> & _). cbn. lia.
Qed.

(** A decision to apply continues the last revision seen. *)
Lemma decision_continues c seen i actor token technical proof v :
  let dec := decision c seen i actor token technical proof in
  status dec = APPLIED → obligation dec = Some v →
  continues (record <$> last seen) v ∧ operation_id v = i_operation_id i.
Proof.
  unfold decision. destruct (last seen); cbn; [apply advance_continues |].
  intros _. apply open_continues.
Qed.

Lemma chain_links_seen seen : is_some (chain seen) = true → chain_links 1 None seen = true.
Proof. unfold chain. case_match; [|done]. to_prop. tauto. Qed.

Lemma rows_bound s id r :
  SysInv s → r ∈ rows_of id (table s) →
  1 ≤ row_generation r ≤ Z.of_nat (length (rows_of id (table s))).
Proof.
  intros [Hl Hg _ _] Hin. pose proof Hin as (i & Hi)%list_elem_of_lookup.
  apply rows_of_elem in Hin as [Hin _]. rewrite (Hg r Hin).
  rewrite (chain_links_generation _ _ _ _ _ (Hl id) Hi).
  apply lookup_lt_Some in Hi. lia.
Qed.

(** An insertion that conflicts with no row extends the whole chain. *)
Lemma insert_extends s id seen v :
  SysInv s → (id, seen) ∈ snapshots s → chain_links 1 None seen = true →
  continues (record <$> last seen) v →
  (∀ x, x ∈ table s → row_obligation_id x = id → row_generation x ≠ generation v) →
  seen = rows_of id (table s) ∧ generation v = Z.of_nat (length seen) + 1.
Proof.
  intros Hinv Hsnap Hch (Hgen & _ & _) Hfree.
  assert (Hv : generation v = Z.of_nat (length seen) + 1).
  { apply chain_last in Hch. destruct (last seen); cbn in Hgen; [lia | subst; cbn; lia]. }
  split; [|done]. destruct (si_snapshots _ Hinv _ _ Hsnap) as [k Hk].
  destruct k as [|r k]; [by rewrite app_nil_r in Hk|]. exfalso.
  assert (Hi : rows_of id (table s) !! length seen = Some r)
    by (rewrite Hk, lookup_app_r, Nat.sub_diag by lia; done).
  pose proof (list_elem_of_lookup_2 _ _ _ Hi) as [Hin Hid]%rows_of_elem.
  apply (Hfree r Hin Hid). rewrite (si_generation _ Hinv r Hin), Hv.
  rewrite (chain_links_generation _ _ _ _ _ (si_links _ Hinv id) Hi). lia.
Qed.

Lemma rows_of_appended s id seen v :
  SysInv s → (id, seen) ∈ snapshots s → chain_links 1 None seen = true →
  continues (record <$> last seen) v →
  (∀ x, x ∈ table s → row_obligation_id x = id → row_generation x ≠ generation v) →
  let row := mkRow id (operation_id v) (generation v) v in
  rows_of id (table s ++ [row]) = rows_of id (table s) ++ [row].
Proof.
  intros Hinv Hsnap Hch Hcont Hfree row.
  destruct (insert_extends s id seen v) as [Hseen Hv]; try done.
  apply (rows_of_last (table s) row). intros x Hx. unfold row_le. apply Z.leb_le.
  pose proof (rows_bound s id x Hinv Hx). cbn. subst. lia.
Qed.

Lemma SysInv_insert s id seen v :
  SysInv s → (id, seen) ∈ snapshots s → chain_links 1 None seen = true →
  continues (record <$> last seen) v →
  (∀ x, x ∈ table s → row_obligation_id x = id → row_generation x ≠ generation v) →
  operation_id v ∉ (row_operation_id <$> table s) →
  SysInv (mkSys (table s ++ [mkRow id (operation_id v) (generation v) v]) (snapshots s)).
Proof.
  intros Hinv Hsnap Hch Hcont Hfree Hop.
  destruct (insert_extends s id seen v) as [Hseen Hv]; try done.
  set (row := mkRow id (operation_id v) (generation v) v).
  assert (Hrows := rows_of_appended s id seen v Hinv Hsnap Hch Hcont Hfree). fold row in Hrows.
  split; cbn.
  - intros id'. destruct (decide (id' = id)) as [->|Hne];
      [|rewrite rows_of_other by done; apply (si_links _ Hinv)].
    rewrite Hrows. apply chain_links_app. split; [apply (si_links _ Hinv)|].
    destruct Hcont as (_ & Hp & Hd). cbn. subst seen. split; [lia|].
    split; [|done]. rewrite Hp. by destruct (last _).
  - intros r [Hr| ->%list_elem_of_singleton]%elem_of_app; [by apply (si_generation _ Hinv) | done].
  - rewrite fmap_app. apply NoDup_app. split; [apply (si_operations _ Hinv)|].
    split; [|apply NoDup_singleton]. intros x Hx Hx'. cbn in Hx'. set_solver.
  - intros id' seen' Hs. etrans; [by apply (si_snapshots _ Hinv)|].
    destruct (decide (id' = id)) as [->|Hne];
      [rewrite Hrows; by apply prefix_app_r | by rewrite rows_of_other].
Qed.

(** *** The transition as a whole *)

(** What the facade checked before the policy was asked. *)
Record Admitted_by (c : ActivationContract) (contracts : uuid → option ActivationContract)
    (p : Grants.PrincipalContext) (g : Grants.WorkGrant) (rt : RuntimeBinding)
    (i : TransitionIntent) (now : Z) (seen : list Row) : Prop := {
  ad_contract : contracts (i_obligation_id i) = Some c;
  ad_principal : Grants.principal g = p;
  ad_grant : Grants.grant_current g now = true;
  ad_runtime : rt_currentness rt = c_current;
  ad_work : actor_work_id rt = active_work_id (Grants.authority g);
  ad_authorized : authorized c (actor_work_id rt) (transition i) = true;
  ad_chain : is_some (chain seen) = true;
  ad_binding o : record <$> last seen = Some o → binding o = stored c }.

(** A transition appends the one revision its caller's decision made and
    answers with it, or leaves the table and answers something else. *)
Lemma transition_cases contracts p g rt i technical proof now seen d :
  (∃ r, transition_on contracts p g rt i technical proof now seen d = (d, Ok r)
        ∧ status r ≠ APPLIED) ∨
  (∃ c v, let dec := decision c seen i (actor_ref p g rt) (binding_token rt) technical proof in
     Admitted_by c contracts p g rt i now seen ∧ status dec = APPLIED ∧ obligation dec = Some v ∧
     transition_on contracts p g rt i technical proof now seen d
       = (d ++ [mkRow (i_obligation_id i) (operation_id v) (generation v) v], Ok dec) ∧
     (operation_id v ∉ (row_operation_id <$> d)) ∧
     (∀ x, x ∈ d → row_obligation_id x = i_obligation_id i → row_generation x ≠ generation v)).
Proof.
  unfold transition_on. destruct (contracts (i_obligation_id i)) as [c|] eqn:Hc; [|left; by eexists].
  destruct (negb (eqb (Grants.principal g) p) || _) eqn:Hg; [left; by eexists|].
  destruct (negb (eqb (rt_currentness rt) c_current) || _) eqn:Hr; [left; by eexists|].
  destruct (negb (authorized _ _ _)) eqn:Ha; [left; by eexists|].
  set (dec := decide_and_insert _ _ _ _ _ _ _).
  destruct (decide_and_insert_cases c seen i (actor_ref p g rt) (binding_token rt) technical proof d)
    as [(e & He & Hd)|[(r & Hd & Hs)|(v & Hch & Hs & Hv & Hb & Hd & Hop & Hfree)]];
    fold dec in Hd; unfold catch, transaction; rewrite Hd.
  - cbn. rewrite He. left. eexists. split; [done|]. repeat case_match; done.
  - left. by eexists.
  - right. exists c, v. split; [|by eauto]. to_prop. split; try done; intuition.
Qed.

Lemma transition_answers contracts p g rt i technical proof now seen d :
  is_ok (transition_on contracts p g rt i technical proof now seen d).2 = true.
Proof.
  destruct (transition_cases contracts p g rt i technical proof now seen d)
    as [(r & -> & _)|(c & v & _ & _ & _ & -> & _)]; done.
Qed.

Lemma SysInv_step s s' : sys_step s s' → SysInv s → SysInv s'.
Proof.
  intros [id|contracts p g rt i technical proof now seen Hseen] Hinv.
  - destruct Hinv as [Hl Hg Ho Hs]. split; cbn; try done.
    intros id' seen [[= -> ->]|Hin]%elem_of_cons; [done | by apply Hs].
  - destruct (transition_cases contracts p g rt i technical proof now seen (table s))
      as [(r & -> & _)|(c & v & Had & Hs & Hv & -> & Hop & Hfree)]; [by destruct s|].
    destruct (decision_continues _ _ _ _ _ _ _ _ Hs Hv) as [Hcont _].
    apply (SysInv_insert s _ seen); try done. apply chain_links_seen, (ad_chain _ _ _ _ _ _ _ _ Had).
Qed.

Lemma SysInv_init : SysInv (mkSys [] []).
Proof. split; cbn; [done | set_solver | constructor | set_solver]. Qed.

Lemma SysInv_reachable s : sys_reachable s → SysInv s.
Proof.
  revert s. apply (rtc_ind_r SysInv); [apply SysInv_init | eauto using SysInv_step].
Qed.

(** ** Linearity *)

(** C27: whatever chains the callers have read, and however their transitions
    interleave, every obligation's revisions stay one linear chain: the stored
    generations are 1, 2, ... without gap or fork, each revision names its
    predecessor's digest and carries its own, no operation is stored twice,
    and a later table only has rows appended to it. *)
Theorem activation_linear s s' :
  sys_reachable s → rtc sys_step s s' →
  (∀ id, chain_links 1 None (rows_of id (table s)) = true) ∧
  (∀ id k r, rows_of id (table s) !! k = Some r → row_generation r = Z.of_nat k + 1) ∧
  NoDup (row_operation_id <$> table s) ∧ table s `prefix_of` table s'.
Proof.
  intros Hs Hss. pose proof (SysInv_reachable s Hs) as Hinv.
  split; [apply (si_links _ Hinv)|]. split; [|split; [apply (si_operations _ Hinv)|]].
  - intros id k r Hk. pose proof (list_elem_of_lookup_2 _ _ _ Hk) as [Hin _]%rows_of_elem.
    rewrite (si_generation _ Hinv r Hin), (chain_links_generation _ _ _ _ _ (si_links _ Hinv id) Hk).
    lia.
  - clear Hs Hinv. induction Hss as [|s s1 s2 Hstep _ IH]; [done|]. etrans; [|exact IH].
    destruct Hstep as [|contracts p g rt i technical proof now seen _]; [done|].
    destruct (transition_cases contracts p g rt i technical proof now seen (table s))
      as [(r & -> & _)|(c & v & _ & _ & _ & -> & _)]; [done | by apply prefix_app_r].
Qed.

(** A transition always answers.  Either it leaves the table alone and does
    not answer APPLIED, or the installed contract, a current grant of the
    calling principal, a current runtime of the granted active work and the
    transition's authorized actor admitted it, it follows a readable chain
    bound to that contract, and it appends exactly one revision, which it
    returns: the next generation, linked to the last revision by digest,
    sealed, and recording the intent's operation. *)
Theorem activation_apply contracts p g rt i technical proof now seen d :
  (∃ r, transition_on contracts p g rt i technical proof now seen d = (d, Ok r)
        ∧ status r ≠ APPLIED) ∨
  (∃ c v r, Admitted_by c contracts p g rt i now seen ∧
     transition_on contracts p g rt i technical proof now seen d
       = (d ++ [mkRow (i_obligation_id i) (i_operation_id i) (generation v) v], Ok r) ∧
     status r = APPLIED ∧ obligation r = Some v ∧
     continues (record <$> last seen) v ∧ operation_id v = i_operation_id i ∧
     (∀ o, record <$> last seen = Some o →
        binding o = stored c ∧ digest o = observed_revision i ∧ mem (state o) TERMINAL = false)).
Proof.
  destruct (transition_cases contracts p g rt i technical proof now seen d)
    as [?|(c & v & Had & Hs & Hv & -> & _)]; [by left|]. right.
  destruct (decision_continues _ _ _ _ _ _ _ _ Hs Hv) as [Hcont Hop]. rewrite Hop.
  exists c, v. eexists. split; [exact Had|]. split; [reflexivity|]. do 4 (split; [done|]).
  intros o Ho. split; [by apply (ad_binding _ _ _ _ _ _ _ _ Had)|].
  unfold decision in Hs. destruct (last seen) as [r|]; [|done]. cbn in Ho. simplify_eq.
  unfold advance_obligation in Hs. repeat (case_match; try done). to_prop. done.
Qed.

(** ** The policy *)

Definition adoption_complete (o : Obligation) : bool :=
  mem (adoption o) ["ADOPTED"; "NOT_REQUIRED"].

(** The adoption requirement of the bound contract. *)
Definition bound_requirement (o : Obligation) : option json :=
  match binding o with JObj kvs => assoc "adoption_requirement" kvs | _ => None end.

(** What holds of every stored revision. *)
Record WF (o : Obligation) : Prop := {
  wf_accepted : state o = "ACCEPTED" → acceptance o = "PASS";
  wf_delivered : state o = "DELIVERED" → acceptance o = "PASS" ∧ adoption_complete o = true;
  wf_phase ph : blocker_phase o = Some ph →
    mem ph ["VERIFY_NOW"; "VERIFYING"; "ACCEPTED"] = true ∧
    (ph = "ACCEPTED" → acceptance o = "PASS");
  wf_blocked : state o = "BLOCKED" ↔ blocker_phase o ≠ None ∧ state o ≠ "DELIVERED";
  wf_state : mem (state o) states = true ∧ state o ≠ "WAITING_ACTIVATION";
  wf_adoption : adoption o = "NOT_REQUIRED" → bound_requirement o = Some (JStr "NOT_REQUIRED") }.

Lemma WF_seal o : WF o → WF (seal_obligation o).
Proof. by intros []. Qed.

Lemma WF_open c i actor token t v :
  obligation (open_obligation c i actor token t) = Some v → WF v.
Proof.
  unfold open_obligation. do 2 (case_match; [done|]). intros [= <-]. apply WF_seal.
  split; cbn; try done; [split; [done | by intros []] | destruct (adoption_required c); done].
Qed.

Lemma mem_cons {A} `{EqDecision A} (x y : A) l : mem x (y :: l) = true ↔ x = y ∨ mem x l = true.
Proof. rewrite !mem_true. set_solver. Qed.

(** What an admissible change is, for each transition. *)
Inductive Change (c : ActivationContract) (o : Obligation) (i : TransitionIntent)
    (technical : option TechnicalBasis) (proof : option TransitionProof) : Obligation → Prop :=
  | ch_activated :
      transition i = ACTIVATED → state o = "WAITING_ACTIVATION" →
      technical_true c technical = true →
      Change c o i technical proof (set_technical (basis_ref technical) (set_state "VERIFY_NOW" o))
  | ch_acknowledged :
      transition i = ACKNOWLEDGED → state o = "VERIFY_NOW" →
      Change c o i technical proof (set_state "VERIFYING" o)
  | ch_block :
      transition i = BLOCK → state o ≠ "BLOCKED" →
      truthy (or_empty (i_blocker_ref i)) = true →
      truthy (or_empty (i_clearing_event_ref i)) = true →
      Change c o i technical proof
        (set_blocker (i_blocker_ref i) (Some (state o)) (i_clearing_event_ref i)
           (set_state "BLOCKED" o))
  | ch_clear :
      transition i = CLEAR_BLOCKER → state o = "BLOCKED" →
      i_clearing_event_ref i = clearing_event_ref o →
      proof_matches c i proof CLEARING = true →
      Change c o i technical proof
        (set_blocker None None None (set_state (or_empty (blocker_phase o)) o))
  | ch_acceptance result :
      acceptance_result (transition i) = Some result →
      state o ≠ "BLOCKED" → proof_matches c i proof ACCEPTANCE = true →
      Change c o i technical proof
        (set_acceptance result (proof_refs proof)
           (set_state (if eqb result "PASS" then "ACCEPTED" else "VERIFYING") o))
  | ch_adoption :
      transition i = ADOPTION_ADOPTED → state o ≠ "BLOCKED" →
      proof_matches c i proof ADOPTION = true →
      Change c o i technical proof (set_adoption "ADOPTED" (proof_refs proof) o)
  | ch_finalize :
      transition i = FINALIZE_DELIVERY → state o = "ACCEPTED" → Change c o i technical proof o
  | ch_close :
      transition i = DEFER ∨ transition i = RETIRE →
      Change c o i technical proof
        (set_blocker None None None
           (set_state (if eqb (transition i) DEFER then "DEFERRED" else "RETIRED") o)).

Lemma unblocked o i :
  eqb (state o) "BLOCKED" && negb (mem (transition i) [CLEAR_BLOCKER; DEFER; RETIRE]) = false →
  mem (transition i) [CLEAR_BLOCKER; DEFER; RETIRE] = false → state o ≠ "BLOCKED".
Proof. intros H1 H2. rewrite H2 in H1. to_prop. destruct H1; done. Qed.

Lemma changes_Change c o i t p o' : changes c o i t p = inr o' → Change c o i t p o'.
Proof.
  unfold changes. destruct (_ && negb _) eqn:E0; [done|]. pose proof (unblocked o i E0) as Hnb.
  clear E0. destruct (eqb _ ACTIVATED && _) eqn:E1; [|clear E1].
  { destruct (technical_true c t) eqn:Et; [intros [= <-] | done]. to_prop. apply ch_activated; tauto. }
  destruct (eqb _ ACKNOWLEDGED && _) eqn:E2;
    [intros [= <-]; to_prop; apply ch_acknowledged; tauto | clear E2].
  destruct (eqb _ BLOCK && _ && _) eqn:E3; [intros [= <-] | clear E3].
  { to_prop. destruct E3 as [[E3 ?] ?]. rewrite E3 in Hnb. apply ch_block; auto. }
  destruct (eqb _ CLEAR_BLOCKER && _) eqn:E4; [|clear E4].
  { destruct (negb _ || negb _) eqn:Ec; [done | intros [= <-]]. to_prop. apply ch_clear; tauto. }
  destruct (acceptance_result _) as [result|] eqn:Ea.
  { destruct (mem (state o) _); [|done]. destruct (negb _) eqn:Ep; [done | intros [= <-]].
    to_prop. apply ch_acceptance; [done | | done]. apply Hnb. by destruct (transition i). }
  destruct (eqb _ ADOPTION_ADOPTED && _) eqn:E5; [intros [= <-] | clear E5].
  { to_prop. destruct E5 as [E5 ?]. rewrite E5 in Hnb. apply ch_adoption; auto. }
  destruct (eqb _ FINALIZE_DELIVERY && _) eqn:E6;
    [intros [= <-]; to_prop; apply ch_finalize; tauto | clear E6].
  destruct (mem (transition i) [DEFER; RETIRE]) eqn:E7; [|done]. intros [= <-]. apply ch_close.
  apply mem_true in E7. set_solver.
Qed.

(** A live state is one of four. *)
Lemma live_states o :
  WF o → mem (state o) TERMINAL = false →
  state o = "VERIFY_NOW" ∨ state o = "VERIFYING" ∨ state o = "BLOCKED" ∨ state o = "ACCEPTED".
Proof.
  intros [_ _ _ _ [Hs Hw] _] Ht. unfold states in Hs. rewrite !mem_cons in Hs.
  destruct Hs as [E|[E|[E|[E|[E|[E|[E|[E|E]]]]]]]]; try (by rewrite E in Ht); auto; done.
Qed.

Lemma WF_unblocked o :
  mem (state o) ["VERIFY_NOW"; "VERIFYING"; "ACCEPTED"; "DEFERRED"; "RETIRED"] = true →
  blocker_phase o = None → (state o = "ACCEPTED" → acceptance o = "PASS") →
  (adoption o = "NOT_REQUIRED" → bound_requirement o = Some (JStr "NOT_REQUIRED")) →
  WF o ∧ state o ≠ "DELIVERED".
Proof.
  rewrite !mem_cons. intros Hs Hp Ha Had.
  assert (Hne : state o ≠ "DELIVERED" ∧ state o ≠ "BLOCKED" ∧ state o ≠ "WAITING_ACTIVATION"
                ∧ mem (state o) states = true)
    by (destruct Hs as [-> |[-> |[-> |[-> |[-> |]]]]]; done).
  destruct Hne as (? & ? & ? & ?). split; [|done]. split; try done; rewrite Hp; [done|].
  split; [done | by intros []].
Qed.

Lemma WF_blocked_as o ph :
  state o = "BLOCKED" → blocker_phase o = Some ph →
  mem ph ["VERIFY_NOW"; "VERIFYING"; "ACCEPTED"] = true →
  (ph = "ACCEPTED" → acceptance o = "PASS") →
  (adoption o = "NOT_REQUIRED" → bound_requirement o = Some (JStr "NOT_REQUIRED")) →
  WF o ∧ state o ≠ "DELIVERED".
Proof.
  intros Hs Hp Hph Ha Had. split; [|by rewrite Hs]. split; rewrite ?Hs, ?Hp; try done.
  by intros ? [= <-].
Qed.

(** A live revision is blocked in a live phase, or not blocked. *)
Lemma live_unblocked o :
  WF o → mem (state o) TERMINAL = false → state o ≠ "BLOCKED" →
  mem (state o) ["VERIFY_NOW"; "VERIFYING"; "ACCEPTED"] = true ∧ blocker_phase o = None.
Proof.
  intros Hwf Ht Hnb. pose proof (live_states o Hwf Ht) as Hst.
  assert (Hd : state o ≠ "DELIVERED") by (intros E; by rewrite E in Ht).
  split; [destruct Hst as [-> |[-> |[E| ->]]]; done |].
  destruct (blocker_phase o) eqn:Hp; [|done]. exfalso. apply Hnb, (wf_blocked _ Hwf).
  by rewrite Hp.
Qed.

(** The revision before delivery is decided, for a current revision that is
    neither terminal nor malformed. *)
Lemma Change_WF c o i t p o' :
  WF o → mem (state o) TERMINAL = false → Change c o i t p o' → WF o' ∧ state o' ≠ "DELIVERED".
Proof.
  intros Hwf Hterm Hch.
  pose proof (live_unblocked o Hwf Hterm) as Hlive. pose proof (wf_adoption _ Hwf) as Had.
  destruct Hch as [Ht Hstate|Ht Hstate|Ht Hstate _ _|Ht Hstate _ _|r Ht Hstate _|Ht Hstate _|Ht Hstate|Ht].
  - by destruct (wf_state _ Hwf).
  - apply WF_unblocked; try done. apply Hlive. by rewrite Hstate.
  - apply (WF_blocked_as _ (state o)); try done; [by apply Hlive | apply (wf_accepted _ Hwf)].
  - destruct (proj1 (wf_blocked _ Hwf) Hstate) as [Hp _].
    destruct (blocker_phase o) as [ph|] eqn:Hph; [|done].
    destruct (wf_phase _ Hwf ph Hph) as [Hin Hacc]. apply WF_unblocked; try done. cbn.
    rewrite !mem_cons in Hin. destruct Hin as [-> |[-> |[-> |]]]; done.
  - destruct (Hlive Hstate) as [_ Hp]. destruct (transition i); try done;
      cbn in Ht; simplify_eq; by apply WF_unblocked.
  - destruct (Hlive Hstate) as [Hin Hp]. apply WF_unblocked; try done; [|apply (wf_accepted _ Hwf)].
    cbn. rewrite !mem_cons in Hin. destruct Hin as [-> |[-> |[-> |]]]; done.
  - split; [done | by rewrite Hstate].
  - apply WF_unblocked; try done; destruct Ht as [Ht|Ht]; cbn; rewrite Ht; done.
Qed.

Lemma WF_promote c t o : WF o → state o ≠ "DELIVERED" → WF (promote c t o).
Proof.
  intros Hwf Hd. unfold promote. destruct (_ && _) eqn:Ha; [|done].
  destruct (technical_true c t); [|by rewrite (proj2 (eqb_false _ _))].
  apply andb_true_iff in Ha as [Ha Had]. rewrite eqb_true in Ha.
  destruct Hwf as [Hacc _ Hp Hb Hs Hreq]. split; cbn; try done.
  split; [done | by intros [_ []]].
Qed.

Lemma WF_next o o' i actor token : WF o' → WF (next_revision o o' i actor token).
Proof. by intros []. Qed.

(** The anatomy of an applied transition. *)
Lemma advance_applied c o i actor token t p v :
  status (advance_obligation c o i actor token t p) = APPLIED →
  obligation (advance_obligation c o i actor token t p) = Some v →
  mem (state o) TERMINAL = false ∧ digest o = observed_revision i ∧
  ∃ o', Change c o i t p o' ∧
        v = seal_obligation (promote c t (next_revision o o' i actor token)).
Proof.
  unfold advance_obligation. destruct (eqb (operation_id o) _); [by destruct (eqb _ _)|].
  destruct (negb _) eqn:Hd; [done|]. destruct (mem (state o) TERMINAL) eqn:Ht; [done|].
  destruct (changes c o i t p) as [|o'] eqn:Hc; [done|]. intros _ [= <-].
  split; [done|]. split; [by to_prop|]. exists o'. split; [by apply changes_Change | done].
Qed.

Lemma WF_advance c o i actor token t p v :
  WF o → status (advance_obligation c o i actor token t p) = APPLIED →
  obligation (advance_obligation c o i actor token t p) = Some v → WF v.
Proof.
  intros Hwf Hs Hv. destruct (advance_applied _ _ _ _ _ _ _ _ Hs Hv) as (Ht & _ & o' & Hc & ->).
  destruct (Change_WF c o i t p o' Hwf Ht Hc) as [Hwf' Hd].
  by apply WF_seal, WF_promote; [apply WF_next |].
Qed.

Lemma WF_reachable s r : sys_reachable s → r ∈ table s → WF (record r).
Proof.
  intros Hs. cut (SysInv s ∧ ∀ r, r ∈ table s → WF (record r)); [by intros [_ H]; eauto|]. clear r.
  revert s Hs.
  apply (rtc_ind_r (λ s, SysInv s ∧ ∀ r, r ∈ table s → WF (record r))).
  { split; [apply SysInv_init | set_solver]. }
  intros s s' _ Hstep [Hinv Hwf]. split; [by apply (SysInv_step s)|].
  destruct Hstep as [|contracts p g rt i technical proof now seen Hseen]; [done|]. cbn.
  destruct (transition_cases contracts p g rt i technical proof now seen (table s))
    as [(r & -> & _)|(c & v & _ & Hst & Hv & -> & _)]; [done|].
  intros r [Hr| ->%list_elem_of_singleton]%elem_of_app; [by apply Hwf|]. cbn.
  unfold decision in *. destruct (last seen) as [o|] eqn:Hl; [|by apply WF_open in Hv].
  revert Hst Hv. apply WF_advance, Hwf.
  apply (rows_of_elem (i_obligation_id i)). destruct (si_snapshots _ Hinv _ _ Hseen) as [k ->].
  apply elem_of_app. left. apply last_Some in Hl as [l ->]. set_solver.
Qed.

(** In every reachable state every stored revision is well formed:
    ACCEPTED and DELIVERED carry acceptance PASS, DELIVERED a completed
    adoption, adoption is NOT_REQUIRED only when the bound contract says so,
    the phase to return to after a block is a live one and, if it is
    ACCEPTED, acceptance is PASS; and except when it is DELIVERED a revision
    remembers a phase to return to exactly when it is BLOCKED. *)
Theorem activation_wf s r : sys_reachable s → r ∈ table s → WF (record r).
Proof. apply WF_reachable. Qed.

Lemma promote_delivered c t o :
  state o ≠ "DELIVERED" →
  state (promote c t o) = "DELIVERED" ↔
  technical_true c t = true ∧ acceptance o = "PASS" ∧ adoption_complete o = true.
Proof.
  intros Hd. unfold promote, adoption_complete.
  destruct (mem (adoption o) _) eqn:Hm; rewrite ?andb_true_r, ?andb_false_r; [|naive_solver].
  destruct (eqb (acceptance o) "PASS") eqn:Ha; to_prop; [|naive_solver].
  destruct (technical_true c t); [naive_solver|].
  rewrite (proj2 (eqb_false _ _)) by done. naive_solver.
Qed.

(** Of a well-formed revision that is not yet terminal, an applied
    transition delivers exactly when the technical condition is proved at the
    contract's target, acceptance is PASS and adoption is complete - whichever
    transition it was.  Acceptance and adoption themselves are inherited, or
    decided by that transition with a current proof of the right kind that
    names the contract, and then the proof's evidence is recorded. *)
Theorem activation_delivery c o i actor token t p v :
  WF o →
  status (advance_obligation c o i actor token t p) = APPLIED →
  obligation (advance_obligation c o i actor token t p) = Some v →
  (state v = "DELIVERED" ↔
     technical_true c t = true ∧ acceptance v = "PASS" ∧ adoption_complete v = true) ∧
  (acceptance v = acceptance o ∧ acceptance_proof v = acceptance_proof o ∨
   acceptance_result (transition i) = Some (acceptance v) ∧
   proof_matches c i p ACCEPTANCE = true ∧ acceptance_proof v = proof_refs p) ∧
  (adoption v = adoption o ∧ adoption_proof v = adoption_proof o ∨
   transition i = ADOPTION_ADOPTED ∧ adoption v = "ADOPTED" ∧
   proof_matches c i p ADOPTION = true ∧ adoption_proof v = proof_refs p).
Proof.
  intros Hwf Hs Hv. destruct (advance_applied _ _ _ _ _ _ _ _ Hs Hv) as (Ht & _ & o' & Hc & ->).
  destruct (Change_WF c o i t p o' Hwf Ht Hc) as [_ Hd].
  set (n := next_revision o o' i actor token).
  destruct (promote_frame c t n) as (_ & _ & _ & Ha & Had & _).
  assert (Hp : acceptance_proof (promote c t n) = acceptance_proof o'
               ∧ adoption_proof (promote c t n) = adoption_proof o')
    by (unfold promote; by repeat case_match).
  destruct Hp as [Hp1 Hp2]. cbn [state acceptance adoption acceptance_proof adoption_proof
    seal_obligation with_digest]. unfold adoption_complete. cbn [adoption seal_obligation with_digest].
  rewrite Ha, Had, Hp1, Hp2.
  split; [by rewrite promote_delivered|]. clear -Hc. destruct Hc; cbn; auto 10.
Qed.

(** The next revision a block makes of an accepted obligation whose adoption
    is complete, while the technical condition is proved. *)
Lemma block_accepted c o i actor token t p :
  state o = "ACCEPTED" → acceptance o = "PASS" → adoption_complete o = true →
  technical_true c t = true → transition i = BLOCK →
  truthy (or_empty (i_blocker_ref i)) = true → truthy (or_empty (i_clearing_event_ref i)) = true →
  operation_id o ≠ i_operation_id i → digest o = observed_revision i →
  ∃ v, advance_obligation c o i actor token t p = mkResult APPLIED (Some v) None ∧
       state v = "DELIVERED" ∧ is_ok (Obligation_validate v) = false.
Proof.
  intros Hs Ha Had Ht Hi Hb Hc Hop Hd. unfold advance_obligation, changes.
  rewrite Hs, Hi, (proj2 (eqb_false _ _) Hop), (proj2 (eqb_true _ _) Hd), Hb, Hc. cbn.
  eexists. split; [reflexivity|].
  unfold promote. cbn [acceptance adoption next_revision set_blocker set_state].
  unfold adoption_complete in Had. rewrite Ha, Had, Ht. split; [done|].
  unfold Obligation_validate. case_match; [|done]. unfold coherent. cbn.
  destruct (i_blocker_ref i), (i_clearing_event_ref i); done.
Qed.


Lemma chain_rows seen l : chain seen = Some l → l = record <$> seen ∧ chain_links 1 None seen = true.
Proof. unfold chain. case_match; [|done]. intros [= <-]. to_prop. tauto. Qed.

(** A revision that does not validate makes its chain unreadable. *)
Lemma get_corrupt id d r :
  r ∈ rows_of id d → is_ok (Obligation_validate (record r)) = false →
  get id d = mkResult UNKNOWN None (Some "corrupt_revision_chain").
Proof.
  intros Hin Hv. unfold get, chain. destruct (_ && _) eqn:E; [|done].
  apply andb_true_iff in E as [E _]. rewrite forallb_forall in E.
  apply list_elem_of_In in Hin. by rewrite E in Hv.
Qed.

Lemma insert_row_fresh r d :
  (row_operation_id r ∉ (row_operation_id <$> d)) →
  (∀ x, x ∈ d → row_obligation_id x = row_obligation_id r → row_generation x ≠ row_generation r) →
  insert_row r d = (d ++ [r], Ok tt).
Proof.
  intros Hop Hfree. unfold insert_row. destruct (existsb _ d) eqn:E; [|done]. exfalso.
  apply existsb_exists in E as (x & Hx%list_elem_of_In & E). to_prop. destruct E as [[E1 E2]|E1].
  - by apply (Hfree x).
  - apply Hop, list_elem_of_fmap. eauto.
Qed.

(** After the whole chain, the next generation is free. *)
Lemma seen_last_free s id v :
  SysInv s → continues (record <$> last (rows_of id (table s))) v →
  ∀ x, x ∈ table s → row_obligation_id x = id → row_generation x ≠ generation v.
Proof.
  intros Hinv (Hg & _) x Hx Hid E.
  assert (Hb : x ∈ rows_of id (table s)) by by apply rows_of_elem.
  apply (rows_bound s id x Hinv) in Hb. pose proof (chain_last _ _ _ (si_links _ Hinv id)) as Hl.
  destruct (last _) as [r|]; cbn in Hg; [lia|]. rewrite Hl in Hb. cbn in Hb. lia.
Qed.

(** An admitted decision to apply is stored when it conflicts with no row. *)
Lemma transition_admitted c contracts p g rt i technical proof now seen d v :
  let dec := decision c seen i (actor_ref p g rt) (binding_token rt) technical proof in
  Admitted_by c contracts p g rt i now seen → status dec = APPLIED → obligation dec = Some v →
  (operation_id v ∉ (row_operation_id <$> d)) →
  (∀ x, x ∈ d → row_obligation_id x = i_obligation_id i → row_generation x ≠ generation v) →
  transition_on contracts p g rt i technical proof now seen d
    = (d ++ [mkRow (i_obligation_id i) (operation_id v) (generation v) v], Ok dec).
Proof.
  intros dec [Hc Hp Hg Hr Hw Ha Hch Hb] Hs Hv Hop Hfree. unfold transition_on.
  rewrite Hc, Hg, Hr, Ha, (proj2 (eqb_true _ _) Hp), (proj2 (eqb_true _ _) Hw). cbn.
  unfold catch, transaction, decide_and_insert.
  destruct (chain seen) as [l|] eqn:Hl; [|done]. apply chain_rows in Hl as [-> _].
  rewrite last_record.
  assert (Hdec : match record <$> last seen with
    | Some o => advance_obligation c o i (actor_ref p g rt) (binding_token rt) technical proof
    | None => open_obligation c i (actor_ref p g rt) (binding_token rt) technical end = dec)
    by (unfold dec, decision; by destruct (last seen)).
  rewrite Hdec, Hv, Hs. clear Hdec.
  replace (match record <$> last seen with Some o => _ | None => false end) with false
    by (destruct (record <$> last seen) as [o|] eqn:E; [|done];
        by rewrite (proj2 (eqb_true _ _) (Hb _ eq_refl))).
  rewrite !eqb_refl. cbn -[insert_row]. unfold mbind, M_bind. by rewrite insert_row_fresh.
Qed.

(** Blocking an accepted obligation whose adoption is complete, while the
    technical condition holds, corrupts its chain.  The transition is APPLIED,
    the delivery rule overrides the BLOCKED state and keeps the blocker fields,
    so the stored revision contradicts the model's own validation, and from
    then on the obligation reads as UNKNOWN. *)
Theorem activation_block_corrupts s contracts c p g rt i technical proof now o :
  let seen := rows_of (i_obligation_id i) (table s) in
  sys_reachable s → Admitted_by c contracts p g rt i now seen →
  transition i = BLOCK → truthy (or_empty (i_blocker_ref i)) = true →
  truthy (or_empty (i_clearing_event_ref i)) = true →
  record <$> last seen = Some o → state o = "ACCEPTED" → adoption_complete o = true →
  technical_true c technical = true → digest o = observed_revision i →
  (i_operation_id i ∉ (row_operation_id <$> table s)) →
  ∃ d' v, transition_on contracts p g rt i technical proof now seen (table s)
            = (d', Ok (mkResult APPLIED (Some v) None)) ∧ state v = "DELIVERED" ∧
          get (i_obligation_id i) d' = mkResult UNKNOWN None (Some "corrupt_revision_chain").
Proof.
  intros seen Hs Had Hi Hb Hce Hlast Hst Hado Ht Hd Hop.
  assert (Hin : ∃ r, last seen = Some r ∧ record r = o ∧ r ∈ table s).
  { destruct (last seen) as [r|] eqn:E; [|done]. exists r. cbn in Hlast. split; [done|].
    split; [congruence|]. apply last_Some in E as [l E].
    apply (rows_of_elem (i_obligation_id i)). fold seen. rewrite E. set_solver. }
  destruct Hin as (r & Hr & <- & Hin).
  pose proof (SysInv_reachable s Hs) as Hinv.
  assert (Hwf : WF (record r)) by (by apply (WF_reachable s)).
  assert (Hopr : operation_id (record r) ≠ i_operation_id i).
  { pose proof (si_links _ Hinv (i_obligation_id i)) as Hl. fold seen in Hl.
    pose proof Hr as [l E]%last_Some. rewrite E in Hl.
    apply chain_links_app in Hl as (_ & _ & _ & -> & _).
    intros E2. apply Hop. rewrite <- E2. by apply list_elem_of_fmap_2. }
  destruct (block_accepted c (record r) i (actor_ref p g rt) (binding_token rt) technical proof)
    as (v & Hv & Hsv & Hbad); try done; [by apply (wf_accepted _ Hwf)|].
  assert (Hdec : decision c seen i (actor_ref p g rt) (binding_token rt) technical proof
                 = mkResult APPLIED (Some v) None) by (unfold decision; by rewrite Hr).
  destruct (decision_continues c seen i (actor_ref p g rt) (binding_token rt) technical proof v)
    as [Hcont Hopv]; [by rewrite Hdec..|].
  pose proof (seen_last_free s (i_obligation_id i) v Hinv Hcont) as Hfree.
  rewrite <- Hopv in Hop.
  exists (table s ++ [mkRow (i_obligation_id i) (operation_id v) (generation v) v]), v.
  rewrite <- Hdec. split; [|split; [done|]].
  - apply (transition_admitted c); by rewrite ?Hdec.
  - apply (get_corrupt _ _ (mkRow (i_obligation_id i) (operation_id v) (generation v) v)); [|done].
    apply rows_of_elem. split; [set_solver | done].
Qed.

(** ** Concrete runs *)

(** A caller that reads the chain and then transitions. *)
Definition call (contracts : uuid → option ActivationContract) (p : Grants.PrincipalContext)
    (g : Grants.WorkGrant) (rt : RuntimeBinding) (technical : option TechnicalBasis)
    (proof : option TransitionProof) (now : Z) (i : TransitionIntent) (s : Sys) : Sys :=
  let seen := rows_of (i_obligation_id i) (table s) in
  mkSys (transition_on contracts p g rt i technical proof now seen (table s)).1
        ((i_obligation_id i, seen) :: snapshots s).

Lemma call_steps contracts p g rt technical proof now i s :
  rtc sys_step s (call contracts p g rt technical proof now i s).
Proof.
  eapply rtc_l; [apply (sys_read s (i_obligation_id i))|]. apply rtc_once.
  apply (sys_transition (mkSys _ _)). constructor.
Qed.

Definition ex_contract : ActivationContract :=
  mkContract "product" "ship" "rev1" "phase1" "owner" "acc1" "c1" None false None "manager".
Definition ex_id : uuid := "ob1".
Definition ex_contracts (id : uuid) : option ActivationContract :=
  if eqb id ex_id then Some ex_contract else None.
Definition ex_principal : Grants.PrincipalContext :=
  Grants.mkPrincipal "iss" "sub" "client" Grants.test.
Definition ex_grant (w : uuid) : Grants.WorkGrant :=
  Grants.mkGrant "g1" 1 ex_principal (mkAuthority w []) Grants.launch [] "iss" "prov"
    (Datetime 1000 (Some 0)) Grants.g_active None None None None None None.
Definition ex_runtime (w : uuid) : RuntimeBinding := mkRuntime w "token" c_current.
Definition ex_basis : option TechnicalBasis :=
  Some (mkBasis "rev1" "phase1" c_current
    (ProductCurrentness.mkCurrentness ProductCurrentness.ok "product" ProductCurrentness.TRUE "c1"
       "rec1" "basis1" [] [] None)).
Definition ex_proof : option TransitionProof :=
  Some (mkProof ACCEPTANCE (contract_obligation_id ex_contract) "product" "rev1" "phase1" "acc1"
    "c1" c_current ["e1"] None).
Definition ex_intent (op observed : string) (t : Transition) : TransitionIntent :=
  mkIntent op ex_id observed t ["e1"] (if eqb t BLOCK then Some "b1" else None)
    (if eqb t BLOCK then Some "event1" else None).
Definition ex_call (w : uuid) (technical : option TechnicalBasis) (i : TransitionIntent) : Sys → Sys :=
  call ex_contracts ex_principal (ex_grant w) (ex_runtime w) technical ex_proof 5 i.
Definition ex_head (s : Sys) : string :=
  match last (rows_of ex_id (table s)) with Some r => digest (record r) | None => "MISSING" end.

(** The product activates, the owner accepts while the condition is not
    re-proved. *)
Definition ex_s1 : Sys := ex_call "product" ex_basis (ex_intent "op1" "MISSING" ACTIVATED) (mkSys [] []).
Definition ex_s2 : Sys := ex_call "owner" None (ex_intent "op2" (ex_head ex_s1) ACCEPTANCE_PASS) ex_s1.
Definition ex_block : TransitionIntent := ex_intent "op3" (ex_head ex_s2) BLOCK.

Lemma ex_reachable : sys_reachable ex_s2.
Proof. unfold sys_reachable, ex_s2, ex_s1. etrans; apply call_steps. Qed.

Lemma act_reachable1 : sys_reachable ex_s1.
Proof. unfold sys_reachable, ex_s1. apply call_steps. Qed.

Lemma activation_linear_witness :
  length (table ex_s1) = 1%nat ∧ length (table ex_s2) = 2%nat ∧
  chain_links 1 None (rows_of ex_id (table ex_s1)) = true ∧ table ex_s1 `prefix_of` table ex_s2.
Proof.
  destruct (activation_linear ex_s1 ex_s2 act_reachable1 (call_steps _ _ _ _ _ _ _ _ _))
    as (H1 & _ & _ & H2).
  split; [vm_compute; reflexivity|]. split; [vm_compute; reflexivity|]. split; [apply H1 | exact H2].
Defined.

Definition ex_row : Row := default (mkRow "" "" 0 (seal_obligation (mkObligation JNull "" "" "" None
  None None [] [] "" "" None 0 None "" "" ""))) (last (table ex_s2)).

Lemma activation_wf_witness : WF (record ex_row).
Proof.
  refine (activation_wf ex_s2 ex_row ex_reachable _).
  apply (list_elem_of_lookup_2 _ 1). vm_compute. reflexivity.
Defined.

(** Finalizing while the condition is proved again delivers. *)
Definition ex_delivering : TransitionIntent := ex_intent "op3" (ex_head ex_s2) FINALIZE_DELIVERY.
#[local] Abbreviation ex_finalize :=
  (advance_obligation ex_contract (record ex_row) ex_delivering "actor" "token" ex_basis None).

Lemma activation_delivery_witness :
  match obligation ex_finalize with Some v => state v = "DELIVERED" | None => False end.
Proof.
  destruct (obligation ex_finalize) as [v|] eqn:Hv;
    [|exfalso; assert (is_some (obligation ex_finalize) = true) by (vm_compute; reflexivity);
      by rewrite Hv in *].
  refine (proj2 (proj1 (activation_delivery ex_contract (record ex_row) ex_delivering "actor" "token"
    ex_basis None v _ _ Hv)) _).
  - apply WF_reachable with ex_s2; [exact ex_reachable|].
    apply (list_elem_of_lookup_2 _ 1). vm_compute. reflexivity.
  - vm_compute. reflexivity.
  - assert (Hc : match obligation ex_finalize with
      | Some v => (acceptance v, adoption v) = ("PASS", "NOT_REQUIRED") | None => False end)
      by (vm_compute; reflexivity).
    rewrite Hv in Hc. clear Hv. injection Hc as Ha Hd. unfold adoption_complete.
    rewrite Ha, Hd. vm_compute. repeat split.
Defined.

Lemma ex_admitted :
  Admitted_by ex_contract ex_contracts ex_principal (ex_grant "owner") (ex_runtime "owner") ex_block 5
    (rows_of ex_id (table ex_s2)).
Proof.
  split; try (vm_compute; reflexivity). intros o Ho.
  assert (Hb : binding <$> (record <$> last (rows_of ex_id (table ex_s2))) = Some (stored ex_contract))
    by (vm_compute; reflexivity).
  rewrite Ho in Hb. by injection Hb.
Qed.

Lemma activation_block_corrupts_witness :
  ∃ d' v, transition_on ex_contracts ex_principal (ex_grant "owner") (ex_runtime "owner") ex_block
            ex_basis ex_proof 5 (rows_of ex_id (table ex_s2)) (table ex_s2)
            = (d', Ok (mkResult APPLIED (Some v) None)) ∧ state v = "DELIVERED" ∧
          get ex_id d' = mkResult UNKNOWN None (Some "corrupt_revision_chain").
Proof.
  apply (activation_block_corrupts ex_s2 ex_contracts ex_contract ex_principal (ex_grant "owner")
    (ex_runtime "owner") ex_block ex_basis ex_proof 5 (record ex_row) ex_reachable ex_admitted);
    try (vm_compute; reflexivity).
  apply (bool_decide_unpack _). vm_compute. exact I.
Defined.
