(* ===== verification/WorkState.v ===== *)
(** * Work and event handles ([state.py])

    The two tables that give provider work and provider events their stable
    local identities, and every operation of [PostgresState] on them.  A call
    of [uuid4] is an argument of the operation that makes it.  Row locks are
    the atomicity of an operation; [ON CONFLICT DO NOTHING] is an insertion
    that may do nothing. *)

From S2P Require Import Prelude Tables Json Controller.

Local Open Scope Z_scope.

Record EventHandle := mkEventHandle {
  ev_id : uuid; ev_work_id : uuid; ev_provider : string; ev_provider_work_id : string;
  ev_provider_event_id : string }.

#[export] Instance EventHandle_eq_dec : EqDecision EventHandle.
Proof. solve_decision. Defined.

(** [work_handles] and [work_event_handles], oldest insertion first. *)
Record StateDB := mkStateDB { work_handles : list Handle; work_event_handles : list EventHandle }.

Definition has_id (work_id : uuid) (h : Handle) : bool := eqb (h_id h) work_id.
Definition has_key (provider provider_work_id : string) (h : Handle) : bool :=
  eqb (h_provider h) provider && eqb (h_provider_work_id h) provider_work_id.

(** [PostgresState.get] *)
Definition get (work_id : uuid) : M StateDB (option Handle) := λ d,
  (d, one_or_none (List.filter (has_id work_id) (work_handles d))).

(** [get_by_provider] *)
Definition get_by_provider (provider provider_work_id : string) : M StateDB (option Handle) := λ d,
  (d, one_or_none (List.filter (has_key provider provider_work_id) (work_handles d))).

(** [INSERT INTO work_handles ... ON CONFLICT DO NOTHING RETURNING ...] *)
Definition insert_handle (h : Handle) : M StateDB (option Handle) := λ d,
  if existsb (λ h', has_id (h_id h) h' || has_key (h_provider h) (h_provider_work_id h) h')
       (work_handles d)
  then (d, Ok None)
  else (mkStateDB (work_handles d ++ [h]) (work_event_handles d), Ok (Some h)).

(** The rows a binding may conflict with. *)
Definition existing (work_id : uuid) (provider provider_work_id : string) (d : StateDB) : list Handle :=
  List.filter (λ h, has_id work_id h || has_key provider provider_work_id h) (work_handles d).

(** The one conflicting row, when it is the same binding. *)
Definition same_binding (provider provider_work_id : string) (rows : list Handle) : res Handle :=
  match rows with
  | [h] => if negb (has_key provider provider_work_id h) then raise ValueError "work binding conflict"
           else Ok h
  | _ => raise ValueError "work binding conflict"
  end.

(** [bind_reserved] *)
Definition bind_reserved (work_id : uuid) (provider provider_work_id : string) (allow_existing : bool)
  : M StateDB Handle :=
  found ← transaction (
    row ← insert_handle (mkHandle work_id provider provider_work_id);
    match row with
    | Some h => mret (inl h)
    | None => d ← get_st; mret (inr (existing work_id provider provider_work_id d))
    end);
  match found with
  | inl h => mret h
  | inr rows =>
      h ← lift (same_binding provider provider_work_id rows);
      throw_if (negb (has_id work_id h) && negb allow_existing) ValueError
        "reserved WorkId already bound differently";;
      mret h
  end.

(** [bind]; [fresh] is its [uuid4()]. *)
Definition bind (fresh : uuid) (provider provider_work_id : string) : M StateDB Handle :=
  bind_reserved fresh provider provider_work_id true.

(** The loop of [bind_many]; each identifier comes with its [uuid4()]. *)
Fixpoint bind_loop (provider : string) (ids : list (uuid * string)) : M StateDB (list Handle) :=
  match ids with
  | [] => mret []
  | (work_id, provider_work_id) :: ids' =>
      row ← insert_handle (mkHandle work_id provider provider_work_id);
      h ← match row with
          | Some h => mret h
          | None =>
              d ← get_st;
              lift (same_binding provider provider_work_id
                      (existing work_id provider provider_work_id d))
          end;
      hs ← bind_loop provider ids';
      mret (h :: hs)
  end.

(** [bind_many] *)
Definition bind_many (provider : string) (ids : list (uuid * string)) : M StateDB (list Handle) :=
  transaction (bind_loop provider ids).

Definition event_key (work_id : uuid) (provider provider_work_id provider_event_id : string)
    (e : EventHandle) : bool :=
  eqb (ev_work_id e) work_id && eqb (ev_provider e) provider
  && eqb (ev_provider_work_id e) provider_work_id
  && eqb (ev_provider_event_id e) provider_event_id.

Definition insert_event (e : EventHandle) : M StateDB (option EventHandle) := λ d,
  if existsb (λ e', eqb (ev_id e') (ev_id e)
       || event_key (ev_work_id e) (ev_provider e) (ev_provider_work_id e)
            (ev_provider_event_id e) e') (work_event_handles d)
  then (d, Ok None)
  else (mkStateDB (work_handles d) (work_event_handles d ++ [e]), Ok (Some e)).

(** [bind_event] *)
Definition bind_event (fresh : uuid) (work_id : uuid)
    (provider provider_work_id provider_event_id : string) : M StateDB EventHandle :=
  throw_if (negb (truthy provider) || negb (truthy provider_work_id) || negb (truthy provider_event_id))
    ValueError "event binding values must be non-empty";;
  transaction (
    handle ← get work_id;
    throw_if (negb (match handle with Some h => has_key provider provider_work_id h | None => false end))
      ValueError "event target does not match work binding";;
    row ← insert_event (mkEventHandle fresh work_id provider provider_work_id provider_event_id);
    match row with
    | Some e => mret e
    | None => λ d, (d, one (List.filter (event_key work_id provider provider_work_id provider_event_id)
                              (work_event_handles d)))
    end).

(** [get_event] *)
Definition get_event (work_id event_id : uuid) : M StateDB (option EventHandle) := λ d,
  (d, one_or_none (List.filter (λ e, eqb (ev_id e) event_id && eqb (ev_work_id e) work_id)
                     (work_event_handles d))).

(** [locked]: the row the caller's body runs with. *)
Definition locked (work_id : uuid) : M StateDB (option Handle) := get work_id.

(** ** Any call of the store *)

Inductive Call :=
  | c_bind_reserved (work_id : uuid) (provider provider_work_id : string) (allow_existing : bool)
  | c_bind_many (provider : string) (ids : list (uuid * string))
  | c_bind_event (fresh work_id : uuid) (provider provider_work_id provider_event_id : string)
  | c_read.

Definition run (c : Call) (d : StateDB) : StateDB :=
  match c with
  | c_bind_reserved w p x allow => (bind_reserved w p x allow d).1
  | c_bind_many p ids => (bind_many p ids d).1
  | c_bind_event f w p x e => (bind_event f w p x e d).1
  | c_read => d
  end.

Definition run_all (cs : list Call) (d : StateDB) : StateDB := foldl (λ d c, run c d) d cs.

(** ** The constraints of the tables *)

Definition key_of (h : Handle) : string * string := (h_provider h, h_provider_work_id h).
Definition event_key_of (e : EventHandle) : uuid * string * string * string :=
  (ev_work_id e, ev_provider e, ev_provider_work_id e, ev_provider_event_id e).

(** The primary keys, the unique constraints and the foreign key, and that an
    event carries its work's binding. *)
Record Inv (d : StateDB) : Prop := {
  inv_ids : NoDup (h_id <$> work_handles d);
  inv_keys : NoDup (key_of <$> work_handles d);
  inv_event_ids : NoDup (ev_id <$> work_event_handles d);
  inv_event_keys : NoDup (event_key_of <$> work_event_handles d);
  inv_event_work e : e ∈ work_event_handles d →
    mkHandle (ev_work_id e) (ev_provider e) (ev_provider_work_id e) ∈ work_handles d }.

Definition extends (d d' : StateDB) : Prop :=
  work_handles d `prefix_of` work_handles d' ∧ work_event_handles d `prefix_of` work_event_handles d'.

#[export] Instance extends_preorder : PreOrder extends.
Proof.
  split; [by intros d|]. intros d1 d2 d3 [H1 H2] [H3 H4]. split; by etrans.
Qed.

(** ** Lemmas *)

Lemma has_id_true w h : has_id w h = true ↔ h_id h = w.
Proof. apply eqb_true. Qed.

Lemma has_key_true p x h : has_key p x h = true ↔ key_of h = (p, x).
Proof.
  unfold has_key, key_of. rewrite andb_true_iff, !eqb_true. split; [intros [-> ->] | intros [= -> ->]]; done.
Qed.

Lemma event_key_true w p x e h : event_key w p x e h = true ↔ event_key_of h = (w, p, x, e).
Proof.
  unfold event_key, event_key_of. rewrite !andb_true_iff, !eqb_true.
  split; [intros [[[-> ->] ->] ->] | intros [= -> -> -> ->]]; done.
Qed.

#[local] Arguments get : simpl never.

(** The rows a lookup finds. *)
Lemma find_id d w h :
  Inv d → h ∈ work_handles d → h_id h = w → List.filter (has_id w) (work_handles d) = [h].
Proof.
  intros Hinv Hh Hw. apply (filter_unique h_id); [apply Hinv | | done | by apply has_id_true].
  intros y _ Hy%has_id_true. congruence.
Qed.

Lemma find_key d p x h :
  Inv d → h ∈ work_handles d → key_of h = (p, x) →
  List.filter (has_key p x) (work_handles d) = [h].
Proof.
  intros Hinv Hh Hk. apply (filter_unique key_of); [apply Hinv | | done | by apply has_key_true].
  intros y _ Hy%has_key_true. congruence.
Qed.

Definition add_handle (h : Handle) (d : StateDB) : StateDB :=
  mkStateDB (work_handles d ++ [h]) (work_event_handles d).
Definition add_event (e : EventHandle) (d : StateDB) : StateDB :=
  mkStateDB (work_handles d) (work_event_handles d ++ [e]).

Definition conflicting (h : Handle) (d : StateDB) : Prop :=
  ∃ h', h' ∈ work_handles d ∧ (h_id h' = h_id h ∨ key_of h' = key_of h).

Lemma insert_handle_cases h d :
  Inv d →
  (conflicting h d ∧ insert_handle h d = (d, Ok None)) ∨
  (¬ conflicting h d ∧ insert_handle h d = (add_handle h d, Ok (Some h)) ∧ Inv (add_handle h d)).
Proof.
  intros Hinv. unfold insert_handle. destruct (existsb _ _) eqn:E.
  - left. split; [|done]. apply existsb_true in E as (h' & Hh & E). exists h'. split; [done|].
    apply orb_true_iff in E. by rewrite has_id_true, has_key_true in E.
  - right. rewrite existsb_false in E.
    assert (Hno : ∀ h', h' ∈ work_handles d → h_id h' ≠ h_id h ∧ key_of h' ≠ key_of h).
    { intros h' Hh. specialize (E h' Hh). apply orb_false_iff in E as [E1 E2].
      rewrite <- not_true_iff_false, has_id_true in E1.
      rewrite <- not_true_iff_false, has_key_true in E2. done. }
    split; [intros (h' & Hh & [?|?]); by destruct (Hno h' Hh)|]. split; [done|].
    destruct Hinv as [H1 H2 H3 H4 H5]. split; cbn; try done.
    + apply NoDup_snoc; [done | apply Hno].
    + apply NoDup_snoc; [done | apply Hno].
    + intros e He. apply elem_of_app. left. by apply H5.
Qed.

Lemma insert_event_cases e d :
  Inv d → mkHandle (ev_work_id e) (ev_provider e) (ev_provider_work_id e) ∈ work_handles d →
  ((∃ e', e' ∈ work_event_handles d ∧ (ev_id e' = ev_id e ∨ event_key_of e' = event_key_of e)) ∧
   insert_event e d = (d, Ok None)) ∨
  ((∀ e', e' ∈ work_event_handles d → event_key_of e' ≠ event_key_of e) ∧
   insert_event e d = (add_event e d, Ok (Some e)) ∧ Inv (add_event e d)).
Proof.
  intros Hinv Hh. unfold insert_event. destruct (existsb _ _) eqn:E.
  - left. split; [|done]. apply existsb_true in E as (e' & He & E). exists e'. split; [done|].
    apply orb_true_iff in E. by rewrite eqb_true, event_key_true in E.
  - right. rewrite existsb_false in E.
    assert (Hno : ∀ e', e' ∈ work_event_handles d → ev_id e' ≠ ev_id e ∧ event_key_of e' ≠ event_key_of e).
    { intros e' He. specialize (E e' He). apply orb_false_iff in E as [E1 E2]. split.
      - by apply eqb_false.
      - intros Hk. assert (Hkk := proj2 (event_key_true _ _ _ _ e') Hk). cbn in Hkk. congruence. }
    split; [intros; by apply Hno|]. split; [done|].
    destruct Hinv as [H1 H2 H3 H4 H5]. split; cbn; try done.
    + apply NoDup_snoc; [done | apply Hno].
    + apply NoDup_snoc; [done | apply Hno].
    + intros e' [He| ->%list_elem_of_singleton]%elem_of_app; [by apply H5 | done].
Qed.

(** What conflicts with a binding, and what the code makes of it. *)
Lemma conflict_bound d w p x h :
  Inv d → h ∈ work_handles d → key_of h = (p, x) →
  (∀ h', h' ∈ work_handles d → h_id h' = w → h' = h) →
  same_binding p x (existing w p x d) = Ok h.
Proof.
  intros Hinv Hh Hk Hw.
  assert (E : existing w p x d = [h]).
  { apply (filter_unique key_of); [apply Hinv | | done |].
    - intros y Hy [Hid|Hkey]%orb_true_iff; [apply has_id_true in Hid; by rewrite (Hw y)
                                           | apply has_key_true in Hkey; congruence].
    - rewrite (proj2 (has_key_true p x h)) by done. apply orb_true_r. }
  rewrite E. cbn. by rewrite (proj2 (has_key_true p x h)).
Qed.

Lemma conflict_other d w p x h :
  h ∈ work_handles d → h_id h = w → key_of h ≠ (p, x) →
  same_binding p x (existing w p x d) = raise ValueError "work binding conflict".
Proof.
  intros Hh Hid Hk. unfold same_binding.
  assert (Hin : In h (existing w p x d)).
  { apply filter_In. split; [by apply list_elem_of_In|]. by rewrite (proj2 (has_id_true w h)). }
  destruct (existing w p x d) as [|h1 [|]]; try done. destruct Hin as [->|[]].
  destruct (has_key p x h) eqn:E; [by apply has_key_true in E | done].
Qed.

(** Every conflict is one or the other. *)
Lemma conflict_cases d w p x :
  Inv d → conflicting (mkHandle w p x) d →
  (∃ h, h ∈ work_handles d ∧ key_of h = (p, x) ∧
        ∀ h', h' ∈ work_handles d → h_id h' = w → h' = h) ∨
  (∃ h, h ∈ work_handles d ∧ h_id h = w ∧ key_of h ≠ (p, x)).
Proof.
  intros Hinv (h & Hh & Hc). cbn in Hc.
  destruct (decide (Exists (λ h', h_id h' = w ∧ key_of h' ≠ (p, x)) (work_handles d))) as [He|He].
  { right. apply Exists_exists in He as (h' & ? & ? & ?). eauto. }
  assert (Hw : ∀ h', h' ∈ work_handles d → h_id h' = w → key_of h' = (p, x)).
  { intros h' Hh' Hid. destruct (decide (key_of h' = (p, x))); [done|].
    destruct He. apply Exists_exists. eauto. }
  left. assert (Hk : key_of h = (p, x)) by (destruct Hc; [by apply Hw | done]).
  exists h. split; [done|]. split; [done|]. intros h' Hh' Hid.
  pose proof (find_key d p x h Hinv Hh Hk) as E1. rewrite (find_key d p x h') in E1; auto.
  congruence.
Qed.

(** ** Binding *)

Lemma bind_reserved_cases d w p x allow :
  Inv d →
  (¬ conflicting (mkHandle w p x) d ∧
   bind_reserved w p x allow d = (add_handle (mkHandle w p x) d, Ok (mkHandle w p x))) ∨
  (∃ h, h ∈ work_handles d ∧ key_of h = (p, x) ∧
     (∀ h', h' ∈ work_handles d → h_id h' = w → h' = h) ∧
     bind_reserved w p x allow d
       = (d, if has_id w h || allow then Ok h
             else raise ValueError "reserved WorkId already bound differently")) ∨
  (∃ h, h ∈ work_handles d ∧ h_id h = w ∧ key_of h ≠ (p, x) ∧
     bind_reserved w p x allow d = (d, raise ValueError "work binding conflict")).
Proof.
  intros Hinv. unfold bind_reserved, transaction.
  destruct (insert_handle_cases (mkHandle w p x) d Hinv) as [[Hc Hi]|(Hc & Hi & _)];
    unfold mbind, M_bind; rewrite Hi; [|by left].
  cbn. destruct (conflict_cases d w p x Hinv Hc) as [(h & Hh & Hk & Hw)|(h & Hh & Hid & Hk)].
  - right; left. exists h. do 3 (split; [done|]). unfold lift.
    rewrite (conflict_bound d w p x h Hinv Hh Hk Hw). cbn.
    destruct (has_id w h), allow; done.
  - right; right. exists h. do 3 (split; [done|]). unfold lift. by rewrite (conflict_other d w p x h).
Qed.

(** Reserving a binding.  On tables that satisfy their constraints, if
    neither the identifier nor the provider key is bound the binding is
    inserted and returned.  If the key is bound - and the identifier is not
    bound to something else - nothing changes, and the bound handle is returned
    when it has the reserved identifier or an existing one is allowed.
    Otherwise nothing changes and the call raises. *)
Theorem bind_reserved_spec d w p x allow :
  Inv d →
  (¬ conflicting (mkHandle w p x) d ∧
   bind_reserved w p x allow d = (add_handle (mkHandle w p x) d, Ok (mkHandle w p x))) ∨
  (∃ h, h ∈ work_handles d ∧ key_of h = (p, x) ∧
     (∀ h', h' ∈ work_handles d → h_id h' = w → h' = h) ∧
     bind_reserved w p x allow d
       = (d, if has_id w h || allow then Ok h
             else raise ValueError "reserved WorkId already bound differently")) ∨
  (∃ h, h ∈ work_handles d ∧ h_id h = w ∧ key_of h ≠ (p, x) ∧
     bind_reserved w p x allow d = (d, raise ValueError "work binding conflict")).
Proof.
  apply bind_reserved_cases.
Qed.

Lemma extends_add_handle h d : extends d (add_handle h d).
Proof. split; cbn; [by apply prefix_app_r | done]. Qed.

Lemma extends_add_event e d : extends d (add_event e d).
Proof. split; cbn; [done | by apply prefix_app_r]. Qed.

Lemma extends_elem d d' h : extends d d' → h ∈ work_handles d → h ∈ work_handles d'.
Proof. intros [[k ->] _] Hh. apply elem_of_app. by left. Qed.

Lemma Inv_add_handle h d : Inv d → ¬ conflicting h d → Inv (add_handle h d).
Proof. intros Hinv Hc. by destruct (insert_handle_cases h d Hinv) as [[? _]|(_ & _ & ?)]. Qed.

(** One turn of the loop of [bind_many]. *)
Lemma bind_loop_step d p w x :
  Inv d →
  let turn := row ← insert_handle (mkHandle w p x);
              match row with
              | Some h => mret h
              | None => d ← get_st; lift (same_binding p x (existing w p x d))
              end in
  (∃ h d1, turn d = (d1, Ok h) ∧ Inv d1 ∧ extends d d1 ∧ h ∈ work_handles d1 ∧ key_of h = (p, x) ∧
     (d1 = d ∨ d1 = add_handle (mkHandle w p x) d)) ∨
  (turn d = (d, raise ValueError "work binding conflict") ∧
   ∃ h, h ∈ work_handles d ∧ h_id h = w ∧ key_of h ≠ (p, x)).
Proof.
  intros Hinv turn. unfold turn.
  destruct (insert_handle_cases (mkHandle w p x) d Hinv) as [[Hc Hi]|(Hc & Hi & Hinv')];
    unfold mbind, M_bind; rewrite Hi; cbn.
  - destruct (conflict_cases d w p x Hinv Hc) as [(h & Hh & Hk & Hw)|(h & Hh & Hid & Hk)].
    + left. exists h, d. unfold lift. rewrite (conflict_bound d w p x h Hinv Hh Hk Hw).
      split; [done|]. split; [done|]. split; [done|]. auto.
    + right. unfold lift. rewrite (conflict_other d w p x h Hh Hid Hk). split; [done|]. eauto.
  - left. exists (mkHandle w p x), (add_handle (mkHandle w p x) d). split; [done|]. split; [done|].
    split; [apply extends_add_handle|]. split; [set_solver|]. auto.
Qed.

Lemma bind_loop_unfold p w x ids :
  bind_loop p ((w, x) :: ids)
  = (row ← insert_handle (mkHandle w p x);
     h ← match row with
         | Some h => mret h
         | None => d ← get_st; lift (same_binding p x (existing w p x d))
         end;
     hs ← bind_loop p ids; mret (h :: hs)).
Proof. done. Qed.

Lemma bind_loop_spec p ids : ∀ d,
  Inv d →
  let '(d', r) := bind_loop p ids d in
  Inv d' ∧ extends d d' ∧
  (∀ hs, r = Ok hs → Forall2 (λ i h, key_of h = (p, i.2) ∧ h ∈ work_handles d') ids hs).
Proof.
  induction ids as [|[w x] ids IH]; intros d Hinv; [split; [done|]; split; [done|]; by intros ? [= <-]|].
  rewrite bind_loop_unfold, M_bind_assoc.
  destruct (bind_loop_step d p w x Hinv) as [(h & d1 & Ht & Hinv1 & Hex & Hh & Hk & _)|[Ht _]];
    unfold mbind at 1, M_bind at 1; rewrite Ht; [|done].
  specialize (IH d1 Hinv1). unfold mbind, M_bind. destruct (bind_loop p ids d1) as [d2 r].
  destruct IH as (Hinv2 & Hex2 & Hhs). destruct r as [hs|e]; [|split; [done|]; split; [by etrans|done]].
  split; [done|]. split; [by etrans|]. intros ? [= <-]. constructor; [|by apply Hhs].
  split; [done | by apply (extends_elem d1)].
Qed.

Lemma bind_loop_progress p ids : ∀ d,
  Inv d → NoDup ids.*1 → (∀ w, w ∈ ids.*1 → w ∉ (h_id <$> work_handles d)) →
  ∃ hs, (bind_loop p ids d).2 = Ok hs.
Proof.
  induction ids as [|[w x] ids IH]; intros d Hinv Hnd Hfresh; [by eexists|].
  rewrite bind_loop_unfold, M_bind_assoc. apply NoDup_cons in Hnd as [Hw Hnd].
  destruct (bind_loop_step d p w x Hinv)
    as [(h & d1 & Ht & Hinv1 & _ & _ & _ & Hd1)|[_ (h & Hh & Hid & _)]].
  - unfold mbind at 1, M_bind at 1. rewrite Ht. destruct (IH d1 Hinv1 Hnd) as [hs Hhs].
    + intros w' Hw'. assert (w' ≠ w) by set_solver. specialize (Hfresh w' ltac:(set_solver)).
      destruct Hd1 as [->| ->]; [done|]. cbn. rewrite fmap_app. set_solver.
    + unfold mbind, M_bind. destruct (bind_loop p ids d1) as [d2 r]. cbn in Hhs. subst.
      by eexists.
  - exfalso. apply (Hfresh w); [set_solver|]. subst w. by apply list_elem_of_fmap_2.
Qed.

Lemma get_cases d w :
  Inv d →
  (∃ h, h ∈ work_handles d ∧ h_id h = w ∧ get w d = (d, Ok (Some h))) ∨
  ((∀ h, h ∈ work_handles d → h_id h ≠ w) ∧ get w d = (d, Ok None)).
Proof.
  intros Hinv. unfold get.
  destruct (decide (Exists (λ h, h_id h = w) (work_handles d))) as [He|He].
  - apply Exists_exists in He as (h & Hh & Hid). left. exists h. by rewrite (find_id d w h Hinv).
  - right. assert (Hno : ∀ h, h ∈ work_handles d → h_id h ≠ w)
      by (intros h Hh Hid; apply He, Exists_exists; eauto).
    split; [done|]. rewrite filter_none; [done|]. intros h Hh. apply not_true_iff_false.
    rewrite has_id_true. by apply Hno.
Qed.

Lemma get_some d w h :
  Inv d → h ∈ work_handles d → h_id h = w → get w d = (d, Ok (Some h)).
Proof. intros Hinv Hh Hw. unfold get. by rewrite (find_id d w h). Qed.

Lemma get_by_provider_some d p x h :
  Inv d → h ∈ work_handles d → key_of h = (p, x) → get_by_provider p x d = (d, Ok (Some h)).
Proof. intros Hinv Hh Hw. unfold get_by_provider. by rewrite (find_key d p x h). Qed.

(** The event rows with a key. *)
Lemma find_event d w p x e v :
  Inv d → v ∈ work_event_handles d → event_key_of v = (w, p, x, e) →
  List.filter (event_key w p x e) (work_event_handles d) = [v].
Proof.
  intros Hinv Hv Hk. apply (filter_unique event_key_of);
    [apply Hinv | | done | by apply event_key_true].
  intros y _ Hy%event_key_true. congruence.
Qed.

Lemma get_event_some d v :
  Inv d → v ∈ work_event_handles d → get_event (ev_work_id v) (ev_id v) d = (d, Ok (Some v)).
Proof.
  intros Hinv Hv. unfold get_event. rewrite (filter_unique ev_id _ _ v); [done | apply Hinv | | done |].
  - intros y _ Hy. apply andb_true_iff in Hy as [Hy _]. by apply eqb_true.
  - by rewrite !eqb_refl.
Qed.

(** The binding is fully described, or the call raises. *)
Definition event_target (w : uuid) (p x e : string) (d : StateDB) : Prop :=
  truthy p = true ∧ truthy x = true ∧ truthy e = true ∧ mkHandle w p x ∈ work_handles d.

Lemma event_target_get d w p x e :
  Inv d → event_target w p x e d → get w d = (d, Ok (Some (mkHandle w p x))).
Proof. intros Hinv (_ & _ & _ & Hh). by apply get_some. Qed.

Lemma no_event_target d f w p x e :
  Inv d → ¬ event_target w p x e d →
  ∃ msg, bind_event f w p x e d = (d, raise ValueError msg).
Proof.
  intros Hinv Hno. unfold bind_event.
  destruct (negb (truthy p) || negb (truthy x) || negb (truthy e)) eqn:Ht; [by eexists|].
  unfold mbind at 1, M_bind at 1. cbn. unfold transaction, mbind, M_bind.
  destruct (get_cases d w Hinv) as [(h & Hh & Hid & ->)|[_ ->]]; cbn; [|by eexists].
  destruct (has_key p x h) eqn:Hk; cbn; [|by eexists]. exfalso. apply Hno. to_prop.
  apply has_key_true in Hk. destruct h as [i hp hx]. cbn in *. unfold key_of in Hk. cbn in Hk.
  simplify_eq. unfold event_target. tauto.
Qed.

Lemma bind_event_cases d f w p x e :
  Inv d → event_target w p x e d →
  (∃ v, v ∈ work_event_handles d ∧ event_key_of v = (w, p, x, e) ∧
        bind_event f w p x e d = (d, Ok v)) ∨
  (let v := mkEventHandle f w p x e in
   (∀ v', v' ∈ work_event_handles d → event_key_of v' ≠ (w, p, x, e)) ∧
   (bind_event f w p x e d = (add_event v d, Ok v) ∧ Inv (add_event v d) ∨
    (∃ v', v' ∈ work_event_handles d ∧ ev_id v' = f) ∧
    ∃ msg, bind_event f w p x e d = (d, raise SQLAlchemyError msg))).
Proof.
  intros Hinv Hd. pose proof (event_target_get d w p x e Hinv Hd) as Hg.
  destruct Hd as (Hp & Hx & He & Hh). unfold bind_event. rewrite Hp, Hx, He.
  unfold mbind, M_bind. cbn. unfold transaction. rewrite Hg. cbn.
  rewrite (proj2 (has_key_true p x (mkHandle w p x))) by done. cbn.
  set (v := mkEventHandle f w p x e).
  destruct (insert_event_cases v d Hinv Hh) as [[(v' & Hv' & Hc) Hi]|(Hno & Hi & Hinv')];
    rewrite Hi; [|right; split; [exact Hno | by left]].
  destruct (decide (Exists (λ v', event_key_of v' = (w, p, x, e)) (work_event_handles d))) as [Hex|Hex].
  - apply Exists_exists in Hex as (v0 & Hv0 & Hk). left. exists v0.
    by rewrite (find_event d w p x e v0).
  - right. assert (Hno : ∀ v', v' ∈ work_event_handles d → event_key_of v' ≠ (w, p, x, e))
      by (intros v0 Hv0 Hk; apply Hex, Exists_exists; eauto).
    split; [done|]. right. split; [destruct Hc; [eauto | by destruct (Hno v' Hv')]|].
    rewrite filter_none; [eexists; reflexivity|]. intros y Hy. apply not_true_iff_false.
    rewrite event_key_true. by apply Hno.
Qed.

Lemma run_spec c d : Inv d → Inv (run c d) ∧ extends d (run c d).
Proof.
  intros Hinv. destruct c as [w p x allow|p ids|f w p x e|]; cbn; [| | |done].
  - destruct (bind_reserved_cases d w p x allow Hinv)
      as [(Hc & ->)|[(h & _ & _ & _ & ->)|(h & _ & _ & _ & ->)]]; try done.
    split; [by apply Inv_add_handle | apply extends_add_handle].
  - unfold bind_many, transaction. pose proof (bind_loop_spec p ids d Hinv) as H.
    destruct (bind_loop p ids d) as [d' [hs|e]]; [|done]. tauto.
  - destruct (decide (truthy p = true ∧ truthy x = true ∧ truthy e = true ∧
      mkHandle w p x ∈ work_handles d)) as [Ht|Ht].
    + destruct (bind_event_cases d f w p x e Hinv Ht)
        as [(v & _ & _ & ->)|[_ [[-> ?]|[_ [msg ->]]]]]; [done | | done].
      split; [done | apply extends_add_event].
    + destruct (no_event_target d f w p x e Hinv Ht) as [msg ->]. done.
Qed.

Lemma run_all_spec cs : ∀ d, Inv d → Inv (run_all cs d) ∧ extends d (run_all cs d).
Proof.
  unfold run_all. induction cs as [|c cs IH]; intros d Hinv; [done|]. cbn.
  destruct (run_spec c d Hinv) as [H1 H2]. destruct (IH _ H1) as [H3 H4].
  split; [done | by etrans].
Qed.

(** A binding is permanent.  Whatever calls follow, the tables keep their
    constraints and only grow, the handle a binding returned is the one its
    identifier and its provider key resolve to, and binding the same provider
    work again, with any unused fresh identifier, returns that handle and
    changes nothing. *)
Theorem state_binding_permanent d w p x allow d1 h cs :
  Inv d → bind_reserved w p x allow d = (d1, Ok h) →
  let d2 := run_all cs d1 in
  Inv d2 ∧ extends d d2 ∧ key_of h = (p, x) ∧
  get (h_id h) d2 = (d2, Ok (Some h)) ∧ get_by_provider p x d2 = (d2, Ok (Some h)) ∧
  ∀ fresh, (fresh ∉ (h_id <$> work_handles d2)) → bind fresh p x d2 = (d2, Ok h).
Proof.
  intros Hinv Hb d2.
  assert (H1 : Inv d1 ∧ extends d d1 ∧ h ∈ work_handles d1 ∧ key_of h = (p, x)).
  { destruct (bind_reserved_cases d w p x allow Hinv)
      as [(Hc & E)|[(h' & Hh & Hk & _ & E)|(h' & _ & _ & _ & E)]]; rewrite E in Hb.
    - injection Hb as <- <-. split; [by apply Inv_add_handle|]. split; [apply extends_add_handle|].
      split; [set_solver | done].
    - destruct (has_id w h' || allow); [|done]. by injection Hb as <- <-.
    - done. }
  destruct H1 as (Hinv1 & Hex & Hh & Hk). destruct (run_all_spec cs d1 Hinv1) as [Hinv2 Hex2].
  fold d2 in Hinv2, Hex2. apply (extends_elem _ _ _ Hex2) in Hh.
  split; [done|]. split; [by etrans|]. split; [done|]. split; [by apply get_some|].
  split; [by apply get_by_provider_some|]. intros fresh Hf. unfold bind.
  destruct (bind_reserved_cases d2 fresh p x true Hinv2)
    as [(Hc & _)|[(h' & Hh' & Hk' & _ & E)|(h' & Hh' & Hid & _)]].
  - destruct Hc. exists h. auto.
  - rewrite E, orb_true_r. pose proof (find_key d2 p x h Hinv2 Hh Hk) as E1.
    rewrite (find_key d2 p x h' Hinv2 Hh' Hk') in E1. congruence.
  - destruct Hf. subst fresh. by apply list_elem_of_fmap_2.
Qed.

(** Binding many is atomic and pointwise.  It returns one handle per
    requested work, in order, each bound to that work and stored, on tables
    that only grew and keep their constraints; or it raises and nothing has
    changed.  With distinct unused fresh identifiers it cannot raise. *)
Theorem state_bind_many d p ids :
  Inv d →
  ((∃ d' hs, bind_many p ids d = (d', Ok hs) ∧ Inv d' ∧ extends d d' ∧
      Forall2 (λ i h, key_of h = (p, i.2) ∧ h ∈ work_handles d') ids hs) ∨
   (∃ e, bind_many p ids d = (d, Err e))) ∧
  (NoDup ids.*1 → (∀ w, w ∈ ids.*1 → (w ∉ (h_id <$> work_handles d))) →
   is_ok (bind_many p ids d).2 = true).
Proof.
  intros Hinv. unfold bind_many, transaction. pose proof (bind_loop_spec p ids d Hinv) as Hspec.
  pose proof (bind_loop_progress p ids d Hinv) as Hprog.
  destruct (bind_loop p ids d) as [d' [hs|e]]; cbn in *; destruct Hspec as (H1 & H2 & H3).
  - split; [|done]. left. exists d', hs. auto.
  - split; [right; eauto|]. intros Hnd Hf. by destruct (Hprog Hnd Hf) as [hs ?].
Qed.

(** An event is bound only under the work its provider key is bound to, to
    one permanent handle: if the target matches, the call returns the handle
    the key already has, or inserts one with the fresh identifier - and raises,
    without effect, only when that identifier is taken - and whatever calls
    follow, the event resolves to the handle under its work.  If the target
    does not match, the call raises ValueError without effect. *)
Theorem state_event_binding d f w p x e :
  Inv d →
  let '(d1, r) := bind_event f w p x e d in
  match r with
  | Ok v => event_target w p x e d ∧ event_key_of v = (w, p, x, e) ∧
            (d1 = d ∧ v ∈ work_event_handles d ∨ ev_id v = f ∧ d1 = add_event v d) ∧
            ∀ cs, get_event w (ev_id v) (run_all cs d1) = (run_all cs d1, Ok (Some v))
  | Err x0 => d1 = d ∧
      (event_target w p x e d → exn_cls x0 = SQLAlchemyError ∧
         ∃ v, v ∈ work_event_handles d ∧ ev_id v = f) ∧
      (¬ event_target w p x e d → exn_cls x0 = ValueError)
  end.
Proof.
  intros Hinv.
  assert (Hperm : ∀ d1 v, Inv d1 → v ∈ work_event_handles d1 → event_key_of v = (w, p, x, e) →
    ∀ cs, get_event w (ev_id v) (run_all cs d1) = (run_all cs d1, Ok (Some v))).
  { intros d1 v Hinv1 Hv Hk cs. destruct (run_all_spec cs d1 Hinv1) as [Hinv2 [_ [k Hex]]].
    unfold event_key_of in Hk. simplify_eq. apply get_event_some; [done|]. rewrite Hex.
    apply elem_of_app. by left. }
  destruct (decide (truthy p = true ∧ truthy x = true ∧ truthy e = true ∧
    mkHandle w p x ∈ work_handles d)) as [Ht|Ht].
  - destruct (bind_event_cases d f w p x e Hinv Ht)
      as [(v & Hv & Hk & ->)|[Hno [[-> Hinv1]|[Hf [msg ->]]]]]; cbn.
    + split; [exact Ht|]. split; [done|]. split; [by left|]. by apply Hperm.
    + split; [exact Ht|]. split; [done|]. split; [by right|]. refine (Hperm (add_event (mkEventHandle f w p x e) d) (mkEventHandle f w p x e) Hinv1 _ eq_refl). cbn. set_solver.
    + split; [done|]. by split.
  - destruct (no_event_target d f w p x e Hinv Ht) as [msg ->]. cbn. split; [done|]. by split.
Qed.

(** ** Concrete runs *)

Definition ex_db : StateDB := mkStateDB [mkHandle "w1" "asana" "42"] [].

Lemma ex_Inv : Inv ex_db.
Proof.
  split; cbn; try apply NoDup_singleton; try apply NoDup_nil_2. intros e He. by apply not_elem_of_nil in He.
Qed.

Lemma bind_reserved_spec_witness : bind_reserved "w2" "asana" "42" true ex_db = (ex_db, Ok (mkHandle "w1" "asana" "42")).
Proof.
  destruct (bind_reserved_spec ex_db "w2" "asana" "42" true ex_Inv)
    as [(Hc & _)|[(h & Hh & _ & _ & E)|(h & Hh & Hid & _)]].
  - destruct Hc. exists (mkHandle "w1" "asana" "42"). split; [left | by right].
  - cbn in Hh. apply list_elem_of_singleton in Hh. by subst.
  - cbn in Hh. apply list_elem_of_singleton in Hh. by subst.
Defined.

Lemma state_binding_permanent_witness :
  let d2 := run_all [c_bind_many "asana" [("w9", "42"); ("w3", "44")]] (bind_reserved "w2" "asana" "43" false ex_db).1 in
  length (work_handles d2) = 3%nat ∧ get_by_provider "asana" "43" d2 = (d2, Ok (Some (mkHandle "w2" "asana" "43"))).
Proof.
  split; [vm_compute; reflexivity|].
  apply (state_binding_permanent ex_db "w2" "asana" "43" false _ (mkHandle "w2" "asana" "43")
           [c_bind_many "asana" [("w9", "42"); ("w3", "44")]] ex_Inv).
  vm_compute. reflexivity.
Defined.

Lemma state_bind_many_witness : is_ok (bind_many "asana" [("w2", "43"); ("w3", "42")] ex_db).2 = true.
Proof.
  apply (proj2 (state_bind_many ex_db "asana" [("w2", "43"); ("w3", "42")] ex_Inv)).
  - apply (bool_decide_unpack _). vm_compute. exact I.
  - intros w Hw. cbn in Hw. cbn. set_solver.
Defined.

Lemma state_event_binding_witness :
  let d1 := (bind_event "e1" "w1" "asana" "42" "s1" ex_db).1 in
  get_event "w1" "e1" d1 = (d1, Ok (Some (mkEventHandle "e1" "w1" "asana" "42" "s1"))).
Proof. exact (proj2 (proj2 (proj2 (state_event_binding ex_db "e1" "w1" "asana" "42" "s1" ex_Inv))) []). Defined.
