(* ===== verification/Chains.v ===== *)
(** * Append-only chains of revisions

    What the stores of linked revisions share ([outcome_state.py],
    [human_trajectory.py]): a table whose rows have an owner, a generation
    within it and a predecessor, and are only ever appended after the head. *)

From S2P Require Import Prelude Tables Json.

Local Open Scope Z_scope.

Section links.
Context {R : Type} (rid : R → uuid) (gen : R → Z) (pred : R → option uuid) (good : R → bool).

(** The rows are numbered from [n] on, each names the one before it, and all
    are good. *)
Fixpoint links (n : Z) (predecessor : option uuid) (rows : list R) : bool :=
  match rows with
  | [] => true
  | r :: rows' =>
      (gen r =? n) && eqb (pred r) predecessor && good r && links (n + 1) (Some (rid r)) rows'
  end.

Lemma links_app n prev l r :
  links n prev (l ++ [r]) = true ↔
  links n prev l = true ∧ gen r = n + Z.of_nat (length l) ∧
  pred r = default prev ((λ r, Some (rid r)) <$> last l) ∧ good r = true.
Proof.
  revert n prev. induction l as [|x l IH]; intros n prev; cbn.
  - rewrite andb_true_r, !andb_true_iff, !eqb_true, Z.eqb_eq. intuition lia.
  - rewrite !andb_true_iff, IH, !eqb_true, Z.eqb_eq. rewrite last_cons.
    destruct (last l); cbn; intuition lia.
Qed.

Lemma links_prefix l2 : ∀ n prev l1, links n prev (l1 ++ l2) = true → links n prev l1 = true.
Proof.
  intros n prev l1. revert n prev. induction l1 as [|x l1 IH]; intros n prev; [done|]. cbn.
  rewrite !andb_true_iff. intros [H1 H2]. split; [done | by apply IH].
Qed.

Lemma links_generation n prev l i r :
  links n prev l = true → l !! i = Some r → gen r = n + Z.of_nat i.
Proof.
  revert n prev i. induction l as [|x l IH]; intros n prev i; [done|]. cbn.
  rewrite !andb_true_iff, Z.eqb_eq. intros (((? & _) & _) & Hl) Hi.
  destruct i as [|i]; cbn in Hi; [simplify_eq; lia|]. specialize (IH _ _ _ Hl Hi). lia.
Qed.

Lemma links_good n prev l r : links n prev l = true → r ∈ l → good r = true.
Proof.
  intros Hl (l1 & l2 & ->)%list_elem_of_split.
  change (l1 ++ r :: l2) with (l1 ++ [r] ++ l2) in Hl. rewrite app_assoc in Hl.
  apply links_prefix in Hl. by apply links_app in Hl as (_ & _ & _ & ?).
Qed.

(** The number the next row of a chain gets. *)
Definition next_generation (rows : list R) : Z := match last rows with None => 1 | Some h => gen h + 1 end.

Lemma next_generation_length rows :
  links 1 None rows = true → next_generation rows = Z.of_nat (length rows) + 1.
Proof.
  intros Hl. unfold next_generation. destruct rows as [|r rows] using rev_ind; [done|]. clear IHrows.
  rewrite last_snoc, length_app. apply links_app in Hl as (_ & -> & _). cbn. lia.
Qed.

End links.

Section chains.
Context {R : Type} (rid own rop : R → uuid) (gen : R → Z) (pred : R → option uuid) (good : R → bool).

Definition by_generation (a b : R) : bool := gen a <=? gen b.

(** [where(owner == ...).order_by(generation)] *)
Definition chain_of (owner : uuid) (l : list R) : list R :=
  py_sort by_generation (List.filter (λ r, eqb (own r) owner) l).

Lemma chain_of_elem owner l r : r ∈ chain_of owner l ↔ r ∈ l ∧ own r = owner.
Proof.
  unfold chain_of. rewrite py_sort_perm, list_elem_of_In, filter_In, <- list_elem_of_In, eqb_true. done.
Qed.

Lemma chain_of_other owner l r : own r ≠ owner → chain_of owner (l ++ [r]) = chain_of owner l.
Proof.
  intros Hr. unfold chain_of. rewrite List.filter_app. cbn.
  rewrite (proj2 (eqb_false _ _)) by done. by rewrite app_nil_r.
Qed.

Lemma chain_of_last l r :
  (∀ x, x ∈ chain_of (own r) l → gen x ≤ gen r) →
  chain_of (own r) (l ++ [r]) = chain_of (own r) l ++ [r].
Proof.
  intros Hr. unfold chain_of. rewrite List.filter_app. cbn. rewrite eqb_refl.
  apply py_sort_last. intros x Hx. apply Z.leb_le, Hr. unfold chain_of. by rewrite py_sort_perm.
Qed.

(** ** Tables of chains *)

Record Chained (l : list R) : Prop := {
  ch_links owner : links rid gen pred good 1 None (chain_of owner l) = true;
  ch_ids : NoDup (rid <$> l);
  ch_ops : NoDup (rop <$> l) }.

Lemma Chained_nil : Chained [].
Proof. split; [done | constructor | constructor]. Qed.

Lemma Chained_snoc l r :
  Chained l → gen r = next_generation gen (chain_of (own r) l) → pred r = rid <$> last (chain_of (own r) l) →
  good r = true → (rid r ∉ (rid <$> l)) → (rop r ∉ (rop <$> l)) →
  Chained (l ++ [r]) ∧ chain_of (own r) (l ++ [r]) = chain_of (own r) l ++ [r].
Proof.
  intros Hc Hg Hp Hgood Hid Hop. pose proof (ch_links l Hc (own r)) as Hl.
  rewrite (next_generation_length rid gen pred good) in Hg by done.
  assert (Hrows : chain_of (own r) (l ++ [r]) = chain_of (own r) l ++ [r]).
  { apply chain_of_last. intros x [i Hi]%list_elem_of_lookup. rewrite (links_generation _ _ _ _ _ _ _ _ _ Hl Hi).
    apply lookup_lt_Some in Hi. lia. }
  split; [|done]. split.
  - intros o. destruct (decide (own r = o)) as [<-|Hne]; [|rewrite chain_of_other by done; apply Hc].
    rewrite Hrows, links_app. split; [done|]. split; [lia|]. split; [|done]. rewrite Hp.
    by destruct (last (chain_of (own r) l)).
  - apply NoDup_snoc; [apply Hc|]. intros y Hy E. apply Hid. rewrite <- E. by apply list_elem_of_fmap_2.
  - apply NoDup_snoc; [apply Hc|]. intros y Hy E. apply Hop. rewrite <- E. by apply list_elem_of_fmap_2.
Qed.
End chains.
