(* ===== verification/HumanTrajectory.v ===== *)
(** * Human trajectories ([human_trajectory.py])

    The append-only revisions of what humans directed for a work: the digest
    chain of [Chains], the reads, the check whether a trajectory that another
    record is bound to is still the current one, and the append.  An append
    locks the handle of its work, so it sees all revisions of that work; of
    other works it may see rows that are out of date, and then its insertion
    fails.  [uuid4()] and [func.now()] are arguments. *)

From S2P Require Import Prelude Tables Json Chains.
From S2P Require WorkState Tracker.

Local Open Scope Z_scope.

#[local] Existing Instance WorkState.extends_preorder.

(** ** Revisions *)

Inductive SourceKind := HUMAN_INPUT | HUMAN_REVIEW | HUMAN_STEERING.

#[export] Instance SourceKind_eq_dec : EqDecision SourceKind.
Proof. solve_decision. Defined.

Definition source_text (k : SourceKind) : string :=
  match k with
  | HUMAN_INPUT => "HUMAN_INPUT" | HUMAN_REVIEW => "HUMAN_REVIEW" | HUMAN_STEERING => "HUMAN_STEERING"
  end.

(** [HumanTrajectoryData]; [version] and [provenance] are constants. *)
Record HumanTrajectoryData := mkData {
  outcome : string; settled_decisions : list string; accepted_cuts_or_deferrals : list string;
  unresolved_human_questions : list string; current_slice : string; remaining_outcome : string;
  authority_effect_refs : list string }.

#[export] Instance HumanTrajectoryData_eq_dec : EqDecision HumanTrajectoryData.
Proof. solve_decision. Defined.

Definition within (lo hi : Z) (s : string) : bool := (lo <=? py_len s) && (py_len s <=? hi).

Definition at_most_32 (l : list string) : bool := Z.of_nat (length l) <=? 32.

Definition trajectory_lists (d : HumanTrajectoryData) : list (list string) :=
  [settled_decisions d; accepted_cuts_or_deferrals d; unresolved_human_questions d; authority_effect_refs d].

(** [HumanTrajectoryData.model_validate] *)
Definition data_validate (d : HumanTrajectoryData) : res HumanTrajectoryData :=
  if within 1 2000 (outcome d) && within 1 2000 (current_slice d) && within 0 2000 (remaining_outcome d)
     && forallb at_most_32 (trajectory_lists d)
  then Ok d else raise ValueError "validation error".

(** [_bounded_items] *)
Definition _bounded_items (values : list string) : res unit :=
  raise_if (existsb (λ v, negb (within 1 512 v)) values) ValueError
    "trajectory list items must contain 1..512 characters".

Fixpoint bounded_all (ls : list (list string)) : res unit :=
  match ls with [] => Ok tt | l :: ls => _bounded_items l;; bounded_all ls end.

(** [canonical] *)
Definition canonical (d : HumanTrajectoryData) : res json :=
  bounded_all (trajectory_lists d);;
  Ok (JObj [("version", JInt 1); ("outcome", JStr (outcome d)); ("settled_decisions", jstrs (settled_decisions d));
    ("accepted_cuts_or_deferrals", jstrs (accepted_cuts_or_deferrals d));
    ("unresolved_human_questions", jstrs (unresolved_human_questions d)); ("current_slice", JStr (current_slice d));
    ("remaining_outcome", JStr (remaining_outcome d)); ("authority_effect_refs", jstrs (authority_effect_refs d));
    ("provenance", JStr "RECORDED_HUMAN_DIRECTION")])%string.

(** A row of [human_trajectory_revisions], and [HumanTrajectoryRevision]. *)
Record HumanTrajectoryRevision := mkTrajectory {
  trajectory_id : uuid; append_request_id : uuid; t_work_id : uuid; t_generation : Z;
  t_predecessor : option uuid; source_kind : SourceKind; source_ref : string;
  source_revision : option string; t_digest : string; data : HumanTrajectoryData; t_created_at : Z }.

#[export] Instance HumanTrajectoryRevision_eq_dec : EqDecision HumanTrajectoryRevision.
Proof. solve_decision. Defined.

Record HumanTrajectoryHeader := mkTrajectoryHeader {
  th_id : uuid; th_work_id : uuid; th_generation : Z; th_source : SourceKind; th_created_at : Z }.

(** [_row] *)
Definition _row (r : HumanTrajectoryRevision) : res HumanTrajectoryRevision := data_validate (data r);; Ok r.

(** [_digest] *)
Definition _digest (d : HumanTrajectoryData) (kind : SourceKind) (ref : string) (revision : option string)
  : res string :=
  c ← canonical d;
  Ok (sha256_hex (dumps_compact_raw (JObj [("data", c); ("source_kind", JStr (source_text kind));
    ("source_ref", JStr ref); ("source_revision", jopt revision)])%string)).

Definition row_digest (r : HumanTrajectoryRevision) : res string :=
  _digest (data r) (source_kind r) (source_ref r) (source_revision r).

(** The row carries the digest of its content; a digest that raises breaks
    the chain as well. *)
Definition digested (r : HumanTrajectoryRevision) : bool := eqb (row_digest r) (Ok (t_digest r)).

Definition trajectory_links := links trajectory_id t_generation t_predecessor digested.

(** [_chain]: [None] for a broken chain. *)
Definition _chain (rows : list HumanTrajectoryRevision) : option (list HumanTrajectoryRevision) :=
  match mapM _row rows with
  | Ok rows => if trajectory_links 1 None rows then Some rows else None
  | Err _ => None
  end.

(** [validated_trajectory_headers] *)
Definition validated_trajectory_headers (rows : list HumanTrajectoryRevision) : option (list HumanTrajectoryHeader) :=
  match _chain rows with
  | None => None
  | Some chain =>
      Some ((λ r, mkTrajectoryHeader (trajectory_id r) (t_work_id r) (t_generation r) (source_kind r) (t_created_at r))
              <$> chain)
  end.

(** ** The store *)

Record TrajectoryDB := mkTrajectoryDB {
  state_db : WorkState.StateDB; revisions : list HumanTrajectoryRevision }.

Definition work_rows (work : uuid) (d : TrajectoryDB) : list HumanTrajectoryRevision :=
  chain_of t_work_id t_generation work (revisions d).

Definition _load (work : uuid) (d : TrajectoryDB) : option (list HumanTrajectoryRevision) := _chain (work_rows work d).

Inductive TrajectoryRead := tr_CURRENT (head : HumanTrajectoryRevision) | tr_MISSING | tr_UNKNOWN.

(** [HumanTrajectoryStore.get] *)
Definition get (work : uuid) (d : TrajectoryDB) : TrajectoryRead :=
  match _load work d with
  | None => tr_UNKNOWN
  | Some rows => match last rows with Some r => tr_CURRENT r | None => tr_MISSING end
  end.

Inductive CheckStatus := ck_CURRENT | ck_STALE | ck_UNKNOWN.

#[export] Instance CheckStatus_eq_dec : EqDecision CheckStatus.
Proof. solve_decision. Defined.

Record TrajectoryCheck := mkCheck { check_status : CheckStatus; check_current_id : option uuid }.

(** What both checks answer on the rows they loaded. *)
Definition judge (rows : option (list HumanTrajectoryRevision)) (expected : uuid) : TrajectoryCheck :=
  match last (default [] rows) with
  | None => mkCheck ck_UNKNOWN None
  | Some head =>
      mkCheck (if eqb (trajectory_id head) expected then ck_CURRENT
               else if existsb (λ r, eqb (trajectory_id r) expected) (removelast (default [] rows))
               then ck_STALE else ck_UNKNOWN) (Some (trajectory_id head))
  end.

(** [check] *)
Definition check (work expected : uuid) (d : TrajectoryDB) : TrajectoryCheck := judge (_load work d) expected.

(** [check_in_transaction], under the lock of the handle. *)
Definition check_in_transaction (work expected : uuid) (d : TrajectoryDB) : res TrajectoryCheck :=
  handle ← (WorkState.get work (state_db d)).2;
  Ok match handle with
     | None => mkCheck ck_UNKNOWN None
     | Some _ => judge (_load work d) expected
     end.

Inductive RecordStatus := rs_APPLIED | rs_REPLAYED | rs_STALE | rs_CONFLICT | rs_UNKNOWN.

#[export] Instance RecordStatus_eq_dec : EqDecision RecordStatus.
Proof. solve_decision. Defined.

Record TrajectoryRecord := mkRecord {
  record_status : RecordStatus; record_revision : option HumanTrajectoryRevision; record_current : option uuid }.

(** A value the columns refuse: a null character, or a generation that is no
    [bigint]. *)
Definition unstorable (r : HumanTrajectoryRevision) : bool :=
  existsb Tracker.has_nul ([source_ref r; or_empty (source_revision r); outcome (data r); current_slice (data r);
    remaining_outcome (data r)] ++ concat (trajectory_lists (data r)))
  || negb (Tracker.bigint (t_generation r)).

(** The [CHECK] constraints. *)
Definition row_checks (r : HumanTrajectoryRevision) : bool :=
  (1 <=? t_generation r) && within 1 512 (source_ref r)
  && match source_revision r with Some v => within 1 512 v | None => true end && (py_len (t_digest r) =? 64).

(** [INSERT INTO human_trajectory_revisions ... RETURNING], with the unique
    columns; the two foreign keys hold because of what was read. *)
Definition insert_revision (r : HumanTrajectoryRevision) : M TrajectoryDB HumanTrajectoryRevision :=
  Tracker.refuse_if (unstorable r);;
  throw_if (negb (row_checks r)) IntegrityError "check constraint";;
  d ← get_st;
  throw_if (existsb (λ r', eqb (trajectory_id r') (trajectory_id r)
      || eqb (append_request_id r') (append_request_id r)
      || (eqb (t_work_id r') (t_work_id r) && (t_generation r' =? t_generation r))) (revisions d))
    IntegrityError "unique constraint";;
  put_st (mkTrajectoryDB (state_db d) (revisions d ++ [r]));;
  mret r.

(** An append request. *)
Record Append := mkAppend {
  ap_work : uuid; ap_request : uuid; ap_generation : Z; ap_predecessor : option uuid; ap_kind : SourceKind;
  ap_ref : string; ap_revision : option string; ap_data : HumanTrajectoryData }.

Definition append_row (a : Append) (digest : string) (fresh : uuid) (now : Z) : HumanTrajectoryRevision :=
  mkTrajectory fresh (ap_request a) (ap_work a) (ap_generation a) (ap_predecessor a) (ap_kind a) (ap_ref a)
    (ap_revision a) digest (ap_data a) now.

(** The answer when the request is among the work's revisions. *)
Definition answer_own (a : Append) (digest : string) (r : HumanTrajectoryRevision) : TrajectoryRecord :=
  if eqb (t_digest r) digest && (t_generation r =? ap_generation a) && eqb (t_predecessor r) (ap_predecessor a)
  then mkRecord rs_REPLAYED (Some r) (Some (trajectory_id r))
  else mkRecord rs_CONFLICT None (Some (trajectory_id r)).

(** The transaction of [record], on the rows it saw. *)
Definition record_locked (seen : TrajectoryDB) (a : Append) (digest : string) (fresh : uuid) (now : Z)
  : M TrajectoryDB TrajectoryRecord :=
  handle ← lift (WorkState.get (ap_work a) (state_db seen)).2;
  match handle with
  | None => mret (mkRecord rs_UNKNOWN None None)
  | Some _ =>
      match _load (ap_work a) seen with
      | None => mret (mkRecord rs_UNKNOWN None None)
      | Some chain =>
          match List.find (λ r, eqb (append_request_id r) (ap_request a)) chain with
          | Some r => mret (answer_own a digest r)
          | None =>
              foreign ← lift (one_or_none (List.filter (λ r, eqb (append_request_id r) (ap_request a)) (revisions seen)));
              match foreign with
              | Some r => mret (mkRecord rs_CONFLICT None (Some (trajectory_id r)))
              | None =>
                  let current_id := trajectory_id <$> last chain in
                  if negb (ap_generation a =? next_generation t_generation chain)
                     || negb (eqb (ap_predecessor a) current_id)
                  then mret (mkRecord rs_STALE None current_id)
                  else
                    inserted ← insert_revision (append_row a digest fresh now);
                    r ← lift (_row inserted);
                    mret (mkRecord rs_APPLIED (Some r) (Some (trajectory_id r)))
              end
          end
      end
  end.

(** [record] *)
Definition record (seen : TrajectoryDB) (a : Append) (fresh : uuid) (now : Z) : M TrajectoryDB TrajectoryRecord :=
  throw_if (ap_generation a <? 1) ValueError "expected_generation must be positive";;
  throw_if (negb (within 1 512 (ap_ref a))) ValueError "source_ref must contain 1..512 characters";;
  throw_if (match ap_revision a with Some v => negb (within 1 512 v) | None => false end) ValueError
    "source_revision must contain 1..512 characters";;
  digest ← lift (_digest (ap_data a) (ap_kind a) (ap_ref a) (ap_revision a));
  transaction (record_locked seen a digest fresh now).

(** ** Concurrent writers *)

(** A transaction sees the current tables, or earlier ones that hold the
    work's current handle and all of its revisions. *)
Definition seen_by (work : uuid) (seen d : TrajectoryDB) : Prop :=
  revisions seen `prefix_of` revisions d ∧ work_rows work seen = work_rows work d ∧
  (WorkState.get work (state_db seen)).2 = (WorkState.get work (state_db d)).2.

(** The data of a request is a model the caller built. *)
Inductive db_step (d : TrajectoryDB) : TrajectoryDB → Prop :=
  | step_state c : db_step d (mkTrajectoryDB (WorkState.run c (state_db d)) (revisions d))
  | step_record seen a fresh now :
      seen_by (ap_work a) seen d → is_ok (data_validate (ap_data a)) = true →
      db_step d (record seen a fresh now d).1.

Definition db_reachable : TrajectoryDB → Prop := rtc db_step (mkTrajectoryDB (WorkState.mkStateDB [] []) []).

(** ** Invariants *)

#[local] Arguments _digest : simpl never.

Definition all_valid (l : list HumanTrajectoryRevision) : bool := forallb (λ r, is_ok (data_validate (data r))) l.

Record Inv (d : TrajectoryDB) : Prop := {
  inv_chained : Chained trajectory_id t_work_id append_request_id t_generation t_predecessor digested (revisions d);
  inv_valid r : r ∈ revisions d → is_ok (data_validate (data r)) = true;
  inv_handles : WorkState.Inv (state_db d) }.

Lemma row_ok r : is_ok (data_validate (data r)) = true → _row r = Ok r.
Proof. unfold _row. by destruct (data_validate (data r)). Qed.

Lemma rows_ok l : (∀ r, r ∈ l → is_ok (data_validate (data r)) = true) → mapM _row l = Ok l.
Proof.
  induction l as [|r l IH]; intros Hl; [done|]. cbn. rewrite row_ok by (apply Hl; set_solver). cbn.
  rewrite IH; [done|]. intros x Hx. apply Hl. set_solver.
Qed.

Lemma work_rows_elem w d r : r ∈ work_rows w d ↔ r ∈ revisions d ∧ t_work_id r = w.
Proof. apply chain_of_elem. Qed.

(** The rows of every work can be read. *)
Lemma load_ok d w : Inv d → _load w d = Some (work_rows w d).
Proof.
  intros Hd. unfold _load, _chain. rewrite rows_ok.
  - unfold trajectory_links, work_rows. by rewrite (ch_links _ _ _ _ _ _ _ (inv_chained d Hd) w).
  - intros r [Hr _]%work_rows_elem. by apply Hd.
Qed.

Definition add_row (r : HumanTrajectoryRevision) (d : TrajectoryDB) : TrajectoryDB :=
  mkTrajectoryDB (state_db d) (revisions d ++ [r]).

Lemma insert_cases r d x d' :
  insert_revision r d = (d', x) →
  (∃ e, x = Err e ∧ d' = d) ∨
  (x = Ok r ∧ d' = add_row r d ∧ (trajectory_id r ∉ (trajectory_id <$> revisions d)) ∧
   (append_request_id r ∉ (append_request_id <$> revisions d))).
Proof.
  unfold insert_revision, Tracker.refuse_if, throw_if, mbind, M_bind, get_st, put_st.
  destruct (unstorable r), (negb (row_checks r)); cbn; [by intros [= <- <-]; eauto..|].
  destruct (existsb _ _) eqn:E; cbn; [intros [= <- <-]; eauto|]. intros [= <- <-]. right.
  rewrite existsb_false in E.
  split_and!; [done|done| |]; intros (y & Hy & Hin)%list_elem_of_fmap; specialize (E y Hin);
    rewrite !orb_false_iff, !eqb_false in E; by destruct E as [[? ?] _].
Qed.

(** A record that appends. *)
Definition appends (d : TrajectoryDB) (a : Append) (fresh : uuid) (now : Z) (d' : TrajectoryDB) (o : TrajectoryRecord)
  : Prop :=
  ∃ digest, _digest (ap_data a) (ap_kind a) (ap_ref a) (ap_revision a) = Ok digest ∧
    let r := append_row a digest fresh now in
    d' = add_row r d ∧ o = mkRecord rs_APPLIED (Some r) (Some fresh) ∧
    ap_generation a = next_generation t_generation (work_rows (ap_work a) d) ∧
    ap_predecessor a = trajectory_id <$> last (work_rows (ap_work a) d) ∧
    (fresh ∉ (trajectory_id <$> revisions d)) ∧ (ap_request a ∉ (append_request_id <$> revisions d)) ∧
    ∃ h, (WorkState.get (ap_work a) (state_db d)).2 = Ok (Some h).

Lemma answer_own_quiet a digest r : record_status (answer_own a digest r) ≠ rs_APPLIED.
Proof. unfold answer_own. by case_match. Qed.

Lemma record_own_cases d seen a fresh now d' x :
  Inv d → seen_by (ap_work a) seen d → is_ok (data_validate (ap_data a)) = true →
  record seen a fresh now d = (d', x) →
  (d' = d ∧ ∀ o, x = Ok o → record_status o ≠ rs_APPLIED) ∨ (∃ o, x = Ok o ∧ appends d a fresh now d' o).
Proof.
  intros Hd (_ & Hrows & Hget) Hv. unfold record.
  unfold throw_if at 1, mbind at 1, M_bind at 1. destruct (ap_generation a <? 1); cbn [raise_if]; [intros [= <- <-]; left; naive_solver|].
  unfold throw_if at 1, mbind at 1, M_bind at 1. destruct (negb (within 1 512 (ap_ref a))); cbn [raise_if]; [intros [= <- <-]; left; naive_solver|].
  unfold throw_if at 1, mbind at 1, M_bind at 1. destruct (match ap_revision a with Some v => _ | None => _ end); cbn [raise_if];
    [intros [= <- <-]; left; naive_solver|].
  destruct (_digest _ _ _ _) as [digest|e] eqn:Hdig; [|intros [= <- <-]; left; naive_solver].
  rewrite lift_bind_Ok. unfold transaction, record_locked. rewrite Hget.
  destruct (WorkState.get (ap_work a) (state_db d)).2 as [[h|]|e] eqn:Hh; cbn [lift];
    [|intros [= <- <-]; left; naive_solver..].
  rewrite lift_bind_Ok. assert (Hload : _load (ap_work a) seen = Some (work_rows (ap_work a) d)).
  { rewrite <- (load_ok d _ Hd). unfold _load. by rewrite Hrows. }
  rewrite Hload. destruct (List.find _ _) as [r|]; [intros [= <- <-]; left; split; [done|]; intros o [= <-]; apply answer_own_quiet|].
  destruct (one_or_none _) as [[r|]|e]; [intros [= <- <-]; left; naive_solver| |intros [= <- <-]; left; naive_solver].
  rewrite lift_bind_Ok. destruct (negb _ || negb _) eqn:Hs; [intros [= <- <-]; left; naive_solver|].
  rewrite orb_false_iff, !negb_false_iff, Z.eqb_eq, eqb_true in Hs. destruct Hs as [Hg Hp].
  set (r := append_row a digest fresh now). unfold mbind, M_bind. destruct (insert_revision r d) as [d1 y] eqn:Hi.
  destruct (insert_cases _ _ _ _ Hi) as [(e & -> & ->)|(-> & -> & Hid & Hop)];
    [intros [= <- <-]; left; naive_solver|].
  unfold lift. rewrite (row_ok r) by done. cbn. intros [= <- <-]. right. eexists. split; [done|].
  exists digest. cbn zeta. split_and!; try done. by exists h.
Qed.

Lemma Trajectory_append d a fresh now d' o :
  Inv d → is_ok (data_validate (ap_data a)) = true → appends d a fresh now d' o →
  Inv d' ∧ ∃ r, o = mkRecord rs_APPLIED (Some r) (Some fresh) ∧ trajectory_id r = fresh ∧
    work_rows (ap_work a) d' = work_rows (ap_work a) d ++ [r].
Proof.
  intros Hd Hv (digest & Hdig & -> & -> & Hg & Hp & Hid & Hop & _).
  set (r := append_row a digest fresh now) in *.
  destruct (Chained_snoc trajectory_id t_work_id append_request_id t_generation t_predecessor digested (revisions d) r)
    as [Hc Hr]; try done; [apply Hd | |].
  - unfold digested, row_digest. cbn. rewrite Hdig. apply eqb_refl.
  - split; [|by exists r]. split; cbn; [done | | apply Hd].
    intros x [Hx| ->]%elem_of_snoc; [by apply Hd | done].
Qed.

Lemma Trajectory_step d d' : db_step d d' → Inv d → Inv d' ∧ revisions d `prefix_of` revisions d' ∧
  WorkState.extends (state_db d) (state_db d').
Proof.
  intros [c|seen a fresh now Hseen Hv] Hd.
  - destruct (WorkState.run_spec c (state_db d) (inv_handles _ Hd)) as [H1 H2]. split; [|done].
    destruct Hd. by split.
  - destruct (record seen a fresh now d) as [d1 x] eqn:E. cbn [fst].
    destruct (record_own_cases _ _ _ _ _ _ _ Hd Hseen Hv E) as [[-> _]|(o & _ & Ha)]; [done|].
    destruct (Trajectory_append _ _ _ _ _ _ Hd Hv Ha) as [Hd' _]. split; [done|].
    destruct Ha as (dg & _ & -> & _). split; [by apply prefix_app_r | done].
Qed.

Lemma Trajectory_steps d d' : rtc db_step d d' → Inv d → Inv d' ∧ revisions d `prefix_of` revisions d' ∧
  WorkState.extends (state_db d) (state_db d').
Proof.
  induction 1 as [|d1 d2 d3 Hst _ IH]; intros Hd; [done|].
  destruct (Trajectory_step _ _ Hst Hd) as (H1 & H2 & H3). destruct (IH H1) as (H4 & H5 & H6).
  split; [done|]. split; by etrans.
Qed.

Lemma Trajectory_init : Inv (mkTrajectoryDB (WorkState.mkStateDB [] []) []).
Proof.
  split; cbn; [apply Chained_nil | set_solver |]. split; cbn; [constructor.. | intros e He; by apply not_elem_of_nil in He].
Qed.

Lemma Trajectory_reachable d : db_reachable d → Inv d.
Proof. intros H. by apply (Trajectory_steps _ d H), Trajectory_init. Qed.

(** ** Theorems *)

Lemma judge_spec l expected :
  NoDup (trajectory_id <$> l) →
  (check_status (judge (Some l) expected) = ck_CURRENT ↔ trajectory_id <$> last l = Some expected) ∧
  (check_status (judge (Some l) expected) = ck_STALE ↔
     trajectory_id <$> last l ≠ Some expected ∧ ∃ r, r ∈ l ∧ trajectory_id r = expected) ∧
  check_current_id (judge (Some l) expected) = trajectory_id <$> last l.
Proof.
  unfold judge. destruct l as [|r l _] using rev_ind; cbn -[removelast last].
  { intros _. split_and!; [done | | done]. split; [done|]. intros (_ & x & Hx & _). by apply not_elem_of_nil in Hx. }
  rewrite last_snoc. cbn -[removelast]. rewrite removelast_last. intros Hn.
  destruct (eqb (trajectory_id r) expected) eqn:E; [rewrite eqb_true in E; subst; naive_solver|].
  rewrite eqb_false in E. destruct (existsb _ l) eqn:Ex.
  - apply existsb_true in Ex as (x & Hx & Ex). rewrite eqb_true in Ex. cbn.
    split_and!; [naive_solver | | done]. split; [|done]. intros _. split; [congruence|]. exists x. set_solver.
  - rewrite existsb_false in Ex. cbn. split_and!; [naive_solver | | done]. split; [done|].
    intros (_ & x & Hx & Hid). apply elem_of_snoc in Hx as [Hx| ->]; [|done].
    specialize (Ex x Hx). rewrite eqb_false in Ex. done.
Qed.

(** However writers of different works interleave with each other and with the
    binding of works, the revisions of every work stay readable and linked, so
    that a read is never UNKNOWN and answers the revision of the greatest
    generation; identifiers and requests are unique and rows are only
    appended. *)
Theorem trajectory_chain d d' w :
  db_reachable d → rtc db_step d d' →
  _chain (work_rows w d) = Some (work_rows w d) ∧
  get w d = match last (work_rows w d) with Some r => tr_CURRENT r | None => tr_MISSING end ∧
  (∀ k r, work_rows w d !! k = Some r → t_generation r = Z.of_nat k + 1) ∧
  NoDup (trajectory_id <$> revisions d) ∧ NoDup (append_request_id <$> revisions d) ∧
  revisions d `prefix_of` revisions d'.
Proof.
  intros Hd Hdd. pose proof (Trajectory_reachable d Hd) as Hinv. pose proof (load_ok d w Hinv) as Hl.
  split; [exact Hl|]. split; [unfold get; by rewrite Hl|].
  split. { intros k r Hk. pose proof (links_generation _ _ _ _ _ _ _ _ _ (ch_links _ _ _ _ _ _ _ (inv_chained _ Hinv) w) Hk). lia. }
  split; [apply Hinv|]. split; [apply Hinv|]. by destruct (Trajectory_steps d d' Hdd Hinv) as (_ & ? & _).
Qed.

Lemma work_rows_nodup w d : Inv d → NoDup (trajectory_id <$> work_rows w d).
Proof.
  intros Hd. unfold work_rows, chain_of. rewrite py_sort_perm. apply NoDup_fmap_filter, Hd.
Qed.

Lemma check_loaded w e d h :
  Inv d → (WorkState.get w (state_db d)).2 = Ok (Some h) →
  check_in_transaction w e d = Ok (judge (Some (work_rows w d)) e).
Proof. intros Hd Hh. unfold check_in_transaction. rewrite Hh. cbn. by rewrite load_ok. Qed.

Lemma last_kept {A} (l l' : list A) (f : A → uuid) x :
  NoDup (f <$> l') → l `prefix_of` l' → x ∈ l → f <$> last l ≠ Some (f x) → f <$> last l' ≠ Some (f x).
Proof.
  intros Hn [k ->] Hx Hl Hl'. destruct k as [|y k _] using rev_ind; [by rewrite app_nil_r in Hl'|].
  rewrite app_assoc, last_snoc in Hl'. cbn in Hl'. injection Hl' as Hl'. rewrite app_assoc, fmap_app in Hn.
  apply NoDup_app in Hn as (_ & Hn & _). apply (Hn (f x)); [|cbn; rewrite Hl'; set_solver].
  rewrite fmap_app, elem_of_app. left. by apply list_elem_of_fmap_2.
Qed.

Lemma work_rows_prefix w d d' : Inv d → rtc db_step d d' → work_rows w d `prefix_of` work_rows w d'.
Proof.
  intros Hd Hs. induction Hs as [d|d1 d2 d3 Hst _ IH]; [done|].
  destruct (Trajectory_step _ _ Hst Hd) as (Hd2 & _ & _). etrans; [|by apply IH]. clear IH.
  destruct Hst as [c|seen a fresh now Hseen Hv]; [done|].
  destruct (record seen a fresh now d1) as [d' x] eqn:E.
  destruct (record_own_cases _ _ _ _ _ _ _ Hd Hseen Hv E) as [[-> _]|(o & _ & Ha)]; [done|].
  destruct (Trajectory_append _ _ _ _ _ _ Hd Hv Ha) as (_ & r & _ & _ & Hr).
  destruct (decide (w = ap_work a)) as [->|Hne]; [cbn; rewrite Hr; by apply prefix_app_r|].
  destruct Ha as (dg & _ & -> & _). unfold work_rows, add_row. cbn [revisions state_db fst]. by rewrite chain_of_other.
Qed.

(** The check of a binding answers for a work that has a handle: CURRENT
    exactly for the last stored revision, STALE exactly for an earlier one, and
    it names the last one.  A revision that is STALE stays so, whatever is
    written afterwards. *)
Theorem trajectory_check d d' w e h :
  db_reachable d → rtc db_step d d' → (WorkState.get w (state_db d)).2 = Ok (Some h) →
  ∃ c, check_in_transaction w e d = Ok c ∧
    check_current_id c = trajectory_id <$> last (work_rows w d) ∧
    (check_status c = ck_CURRENT ↔ trajectory_id <$> last (work_rows w d) = Some e) ∧
    (check_status c = ck_STALE ↔ trajectory_id <$> last (work_rows w d) ≠ Some e ∧
       ∃ r, r ∈ revisions d ∧ t_work_id r = w ∧ trajectory_id r = e) ∧
    (check_status c = ck_STALE → ∃ c', check_in_transaction w e d' = Ok c' ∧ check_status c' = ck_STALE).
Proof.
  intros Hd Hs Hh. pose proof (Trajectory_reachable _ Hd) as Hi. destruct (Trajectory_steps _ _ Hs Hi) as (Hi' & _ & Hx).
  rewrite (check_loaded w e d h Hi Hh). eexists. split; [done|].
  destruct (judge_spec (work_rows w d) e (work_rows_nodup w d Hi)) as (H1 & H2 & H3).
  split; [done|]. split; [done|]. split.
  { rewrite H2. split; intros [? (r & Hr)]; (split; [done|]); exists r; rewrite work_rows_elem in *; tauto. }
  intros (Hl & r & Hr & <-)%H2.
  assert (Hh' : ∃ h', (WorkState.get w (state_db d')).2 = Ok (Some h')).
  { destruct (WorkState.get_cases (state_db d) w (inv_handles _ Hi)) as [(h1 & Hin & Hid & _)|[_ E]]; [|by rewrite E in Hh].
    exists h1. rewrite (WorkState.get_some (state_db d') w h1); [done | apply Hi' | by apply (WorkState.extends_elem _ _ _ Hx) | done]. }
  destruct Hh' as [h' Hh']. rewrite (check_loaded _ _ d' h' Hi' Hh'). eexists. split; [done|].
  apply (judge_spec (work_rows w d') _ (work_rows_nodup w d' Hi')).
  pose proof (work_rows_prefix w d d' Hi Hs) as Hp. split.
  - by apply (last_kept (work_rows w d) _ trajectory_id); [apply work_rows_nodup | | |].
  - exists r. split; [|done]. by apply (elem_of_prefix (work_rows w d)).
Qed.

(** Recording either changes nothing and does not answer APPLIED, or appends
    exactly one revision after the head that the caller named, under a fresh
    identifier and a fresh request, with the digest of its content. *)
Theorem trajectory_record d seen a fresh now d' x :
  db_reachable d → seen_by (ap_work a) seen d → is_ok (data_validate (ap_data a)) = true →
  record seen a fresh now d = (d', x) →
  (d' = d ∧ ∀ o, x = Ok o → record_status o ≠ rs_APPLIED) ∨
  (∃ r, x = Ok (mkRecord rs_APPLIED (Some r) (Some fresh)) ∧ revisions d' = revisions d ++ [r] ∧
     work_rows (ap_work a) d' = work_rows (ap_work a) d ++ [r] ∧ get (ap_work a) d' = tr_CURRENT r ∧
     trajectory_id r = fresh ∧ append_request_id r = ap_request a ∧ data r = ap_data a ∧
     t_predecessor r = trajectory_id <$> last (work_rows (ap_work a) d) ∧
     row_digest r = Ok (t_digest r)).
Proof.
  intros Hd Hseen Hv Hr. pose proof (Trajectory_reachable _ Hd) as Hi.
  destruct (record_own_cases _ _ _ _ _ _ _ Hi Hseen Hv Hr) as [?|(o & -> & Ha)]; [by left|]. right.
  destruct (Trajectory_append _ _ _ _ _ _ Hi Hv Ha) as (Hi' & r & -> & Hid & Hrows).
  destruct Ha as (dg & Hdg & -> & Ho & _ & Hp & _). injection Ho as ->. eexists. split; [done|].
  split; [done|]. split; [exact Hrows|]. split.
  { unfold get. rewrite (load_ok _ _ Hi'), Hrows, last_snoc. done. }
  split_and!; try done.
Qed.

(** ** Concrete runs *)

Definition ex_data : HumanTrajectoryData := mkData "ship it" ["no rewrite"] [] [] "slice 1" "" [].
Definition ex_append (request : uuid) (n : Z) (p : option uuid) : Append :=
  mkAppend "w1" request n p HUMAN_INPUT "chat/1" None ex_data.
Definition ex_h0 : TrajectoryDB :=
  mkTrajectoryDB (WorkState.run (WorkState.c_bind_reserved "w1" "asana" "42" false) (WorkState.mkStateDB [] [])) [].
Definition ex_h1 : TrajectoryDB := (record ex_h0 (ex_append "q1" 1 None) "t1" 5 ex_h0).1.
Definition ex_h2 : TrajectoryDB := (record ex_h1 (ex_append "q2" 2 (Some "t1")) "t2" 6 ex_h1).1.

Lemma seen_now w d : seen_by w d d.
Proof. done. Qed.

Lemma ex_h0_reach : db_reachable ex_h0.
Proof. apply rtc_once. apply (step_state (mkTrajectoryDB _ _)). Qed.

Lemma ex_h1_step : db_step ex_h0 ex_h1.
Proof. apply step_record; [apply seen_now | vm_compute; reflexivity]. Qed.

Lemma ex_h2_step : db_step ex_h1 ex_h2.
Proof. apply step_record; [apply seen_now | vm_compute; reflexivity]. Qed.

Lemma ex_h1_reach : db_reachable ex_h1.
Proof. eapply rtc_r; [apply ex_h0_reach | apply ex_h1_step]. Qed.

Lemma trajectory_chain_witness :
  _chain (work_rows "w1" ex_h1) = Some (work_rows "w1" ex_h1) ∧ length (revisions ex_h2) = 2%nat.
Proof.
  split; [|vm_compute; reflexivity].
  exact (proj1 (trajectory_chain ex_h1 ex_h2 "w1" ex_h1_reach (rtc_once _ _ ex_h2_step))).
Defined.

Lemma trajectory_check_witness :
  (check_status <$> check_in_transaction "w1" "t1" ex_h1) = Ok ck_CURRENT ∧
  (check_status <$> check_in_transaction "w1" "t1" ex_h2) = Ok ck_STALE.
Proof.
  destruct (trajectory_check ex_h1 ex_h2 "w1" "t1" (Controller.mkHandle "w1" "asana" "42") ex_h1_reach
    (rtc_once _ _ ex_h2_step) ltac:(vm_compute; reflexivity)) as (c & -> & _ & [_ Hc] & _).
  split; [|vm_compute; reflexivity]. change (Ok (check_status c) = Ok ck_CURRENT). f_equal. apply Hc.
  vm_compute. reflexivity.
Defined.

Lemma trajectory_record_witness :
  ∃ r, get "w1" ex_h1 = tr_CURRENT r ∧ trajectory_id r = "t1"%string.
Proof.
  destruct (trajectory_record ex_h0 ex_h0 (ex_append "q1" 1 None) "t1" 5 ex_h1
    (record ex_h0 (ex_append "q1" 1 None) "t1" 5 ex_h0).2 ex_h0_reach (seen_now _ _)
    ltac:(vm_compute; reflexivity) (surjective_pairing _)) as [[_ Hx]|(r & _ & _ & _ & Hg & Hid & _)].
  - exfalso. eapply Hx; vm_compute; reflexivity.
  - exists r. split; [exact Hg | exact Hid].
Defined.
