(* ===== verification/OutcomeState.v ===== *)
(** * Outcome snapshots ([outcome_state.py])

    The owner-local outcome revisions: validated items, the digest-linked
    chain, the projection to open actions, and the store's append.  An append
    reads inside a transaction that locks the owner's work handle, so the
    owner's revisions it saw are those it inserts after; the rows of other
    owners it saw may be out of date, and then the insertion conflicts. *)

From S2P Require Import Prelude Tables Json Chains.
From S2P Require WorkState.

Local Open Scope Z_scope.

#[local] Existing Instance WorkState.extends_preorder.

(** ** Items *)

Inductive ItemKind := DELIVERABLE | DECISION.
Inductive ItemStatus := NOT_STARTED | READY | IN_PROGRESS | DONE.
Inductive WhoActs := OWNER | MARCO.
Inductive SourceLabel := label_AGENT | label_MARCO.

#[export] Instance ItemKind_eq_dec : EqDecision ItemKind.
Proof. solve_decision. Defined.
#[export] Instance ItemStatus_eq_dec : EqDecision ItemStatus.
Proof. solve_decision. Defined.
#[export] Instance WhoActs_eq_dec : EqDecision WhoActs.
Proof. solve_decision. Defined.
#[export] Instance SourceLabel_eq_dec : EqDecision SourceLabel.
Proof. solve_decision. Defined.

Definition kind_text (k : ItemKind) : string :=
  match k with DELIVERABLE => "DELIVERABLE" | DECISION => "DECISION" end.
Definition status_text (s : ItemStatus) : string :=
  match s with
  | NOT_STARTED => "NOT_STARTED" | READY => "READY" | IN_PROGRESS => "IN_PROGRESS" | DONE => "DONE"
  end.
Definition who_text (w : WhoActs) : string := match w with OWNER => "OWNER" | MARCO => "MARCO" end.
Definition label_text (l : SourceLabel) : string :=
  match l with label_AGENT => "AGENT" | label_MARCO => "MARCO" end.

Record OutcomeItem := mkItem {
  item_key : string; description : string; kind : ItemKind; status : ItemStatus;
  who_acts : WhoActs; dispatch_work_id : option uuid; what_yes_causes : option string;
  source_label : SourceLabel; source_ref : option string }.

#[export] Instance OutcomeItem_eq_dec : EqDecision OutcomeItem.
Proof. solve_decision. Defined.

Definition bounded (hi : Z) (s : string) : bool := (1 <=? py_len s) && (py_len s <=? hi).
Definition opt_bounded (hi : Z) (o : option string) : bool :=
  match o with Some s => bounded hi s | None => true end.

Definition item_fields_ok (i : OutcomeItem) : bool :=
  bounded 120 (item_key i) && bounded 1000 (description i)
  && opt_bounded 1000 (what_yes_causes i) && opt_bounded 512 (source_ref i).

(** The two shapes of [valid_action_shape]. *)
Definition is_dispatch (i : OutcomeItem) : bool :=
  eqb (kind i) DELIVERABLE && eqb (status i) READY && eqb (who_acts i) MARCO.
Definition is_decision (i : OutcomeItem) : bool :=
  eqb (kind i) DECISION && mem (status i) [NOT_STARTED; READY] && eqb (who_acts i) MARCO.

(** [valid_action_shape] *)
Definition valid_action_shape (i : OutcomeItem) : res OutcomeItem :=
  if xorb (is_dispatch i) (is_some (dispatch_work_id i))
  then raise ValueError "dispatch identity must match a ready Marco deliverable"
  else if xorb (is_decision i) (is_some (what_yes_causes i))
  then raise ValueError "decision consequence must match an actionable Marco decision"
  else if eqb (who_acts i) MARCO && eqb (kind i) DELIVERABLE && eqb (status i) NOT_STARTED
  then raise ValueError "Marco deliverable must be ready, in progress, or done"
  else Ok i.

(** [OutcomeItem.model_validate] *)
Definition OutcomeItem_validate (i : OutcomeItem) : res OutcomeItem :=
  if item_fields_ok i then valid_action_shape i else raise ValueError "validation error".

(** ** Actions and revisions *)

Inductive ActionClass := NEEDS_MARCO | READY_TO_DISPATCH | OWNER_CAN_DO.

#[export] Instance ActionClass_eq_dec : EqDecision ActionClass.
Proof. solve_decision. Defined.

Record OutcomeAction := mkAction {
  action_class : ActionClass; a_item_key : string; a_description : string;
  a_dispatch_work_id : option uuid; a_what_yes_causes : option string }.

Inductive Currentness := CURRENT | STALE.

Record ActionSummary := mkSummary {
  currentness : Currentness; open_action_count : Z; actions : list OutcomeAction }.

Inductive WriteStatus :=
  | w_APPLIED | w_REPLAYED | w_STALE | w_CONFLICT | w_DENIED | w_UNKNOWN.

#[export] Instance WriteStatus_eq_dec : EqDecision WriteStatus.
Proof. solve_decision. Defined.

Record OutcomeWrite := mkWrite { write_status : WriteStatus; write_state_id : option uuid }.

(** A row of [outcome_state_revisions]. *)
Record Revision := mkRevision {
  state_id : uuid; operation_id : uuid; owner_work_id : uuid; generation : Z;
  predecessor_id : option uuid; items : list OutcomeItem; owner_currentness_token : string;
  content_digest : string }.

#[export] Instance Revision_eq_dec : EqDecision Revision.
Proof. solve_decision. Defined.

Record OutcomeRevisionHeader := mkHeader {
  h_state_id : uuid; h_owner_work_id : uuid; h_generation : Z; h_currentness : Currentness;
  item_status_counts : list (string * Z) }.

Definition item_json (i : OutcomeItem) : json :=
  JObj [("item_key", JStr (item_key i)); ("description", JStr (description i));
        ("kind", JStr (kind_text (kind i))); ("status", JStr (status_text (status i)));
        ("who_acts", JStr (who_text (who_acts i))); ("dispatch_work_id", jopt (dispatch_work_id i));
        ("what_yes_causes", jopt (what_yes_causes i));
        ("source_label", JStr (label_text (source_label i))); ("source_ref", jopt (source_ref i))].

(** [_canonical] *)
Definition _canonical (l : list OutcomeItem) : res (list json) :=
  if (64 <? Z.of_nat (length l)) || negb (no_dup (item_key <$> l))
  then raise ValueError "outcome items must be unique and bounded"
  else Ok (item_json <$> l).

(** [_digest] *)
Definition _digest (owner : uuid) (predecessor : option uuid) (token : string)
    (l : list OutcomeItem) : res string :=
  c ← _canonical l;
  Ok (sha256_hex (dumps_compact_raw (JArr [JStr owner; jopt predecessor; JStr token; JArr c]))).

Definition revision_digest (r : Revision) : res string :=
  _digest (owner_work_id r) (predecessor_id r) (owner_currentness_token r) (items r).

(** [_row] *)
Definition _row (r : Revision) : res Revision :=
  _ ← mapM OutcomeItem_validate (items r); Ok r.

(** The row carries the digest of its content. *)
Definition digested (r : Revision) : bool := eqb (revision_digest r) (Ok (content_digest r)).

(** The loop of [_chain]. *)
Definition chain_links := links state_id generation predecessor_id digested.

(** [_chain]: [None] for a broken chain. *)
Definition _chain (rows : list Revision) : option (list Revision) :=
  match mapM _row rows with
  | Ok rows => if chain_links 1 None rows then Some rows else None
  | Err _ => None
  end.

Definition currentness_of (r : Revision) (token : string) : Currentness :=
  if eqb (owner_currentness_token r) token then CURRENT else STALE.

(** [counts] of [validated_revision_headers] *)
Definition status_counts (l : list OutcomeItem) : list (string * Z) :=
  (λ s, (status_text s, Z.of_nat (length (List.filter (λ i, eqb (status i) s) l))))
    <$> [NOT_STARTED; READY; IN_PROGRESS; DONE].

(** [validated_revision_headers] *)
Definition validated_revision_headers (rows : list Revision) (token : string)
  : option (list OutcomeRevisionHeader) :=
  match _chain rows with
  | None => None
  | Some chain =>
      Some ((λ r, mkHeader (state_id r) (owner_work_id r) (generation r) (currentness_of r token)
                    (status_counts (items r))) <$> chain)
  end.

(** The items that are projected. *)
Definition is_open (i : OutcomeItem) : bool :=
  negb (eqb (status i) DONE || (eqb (who_acts i) MARCO && eqb (status i) IN_PROGRESS)).

Definition class_of (i : OutcomeItem) : ActionClass :=
  if is_some (dispatch_work_id i) then READY_TO_DISPATCH
  else if eqb (who_acts i) MARCO then NEEDS_MARCO
  else OWNER_CAN_DO.

Definition action_of (i : OutcomeItem) : OutcomeAction :=
  mkAction (class_of i) (item_key i) (description i) (dispatch_work_id i) (what_yes_causes i).

Definition class_order (c : ActionClass) : Z :=
  match c with NEEDS_MARCO => 0 | READY_TO_DISPATCH => 1 | OWNER_CAN_DO => 2 end.

(** The order of the tuples [(order[action_class], item_key)]. *)
Definition action_le (a b : OutcomeAction) : bool :=
  (class_order (action_class a) <? class_order (action_class b))
  || ((class_order (action_class a) =? class_order (action_class b))
      && str_leb (a_item_key a) (a_item_key b)).

(** [_summary] *)
Definition _summary (r : Revision) (token : string) : ActionSummary :=
  let actions := py_sort action_le (action_of <$> List.filter is_open (items r)) in
  mkSummary (currentness_of r token) (Z.of_nat (length actions)) actions.

(** ** The store *)

Record OutcomeDB := mkOutcomeDB {
  state_db : WorkState.StateDB; outcome_state_revisions : list Revision }.

Definition owner_rows (owner : uuid) (d : OutcomeDB) : list Revision :=
  chain_of owner_work_id generation owner (outcome_state_revisions d).

Inductive Summary := s_summary (s : ActionSummary) | s_UNKNOWN | s_none.

(** [OutcomeStateStore.summary] *)
Definition summary (owner : uuid) (token : string) (d : OutcomeDB) : Summary :=
  match _chain (owner_rows owner d) with
  | None => s_UNKNOWN
  | Some chain => match last chain with None => s_none | Some r => s_summary (_summary r token) end
  end.

Definition by_operation (op : uuid) (d : OutcomeDB) : list Revision :=
  List.filter (λ r, eqb (operation_id r) op) (outcome_state_revisions d).

(** The insertion with [on_conflict_do_nothing]. *)
Definition insert_revision (r : Revision) : M OutcomeDB (option Revision) := λ d,
  if existsb (λ r', eqb (state_id r') (state_id r) || eqb (operation_id r') (operation_id r)
       || (eqb (owner_work_id r') (owner_work_id r) && (generation r' =? generation r)))
       (outcome_state_revisions d)
  then (d, Ok None)
  else (mkOutcomeDB (state_db d) (outcome_state_revisions d ++ [r]), Ok (Some r)).

(** The answer when the operation is already stored. *)
Definition answer_replay (owner : uuid) (digest : string) (v : Revision) : res OutcomeWrite :=
  row ← _row v;
  stored ← revision_digest row;
  Ok (if negb (eqb (content_digest row) stored) then mkWrite w_UNKNOWN (Some (state_id row))
      else if eqb (owner_work_id row) owner
      then mkWrite (if eqb (content_digest row) digest then w_REPLAYED else w_CONFLICT)
             (Some (state_id row))
      else mkWrite w_CONFLICT (Some (state_id row))).

(** The answer when the insertion conflicted. *)
Definition answer_collision (v : option Revision) : res OutcomeWrite :=
  match v with
  | None => Ok (mkWrite w_UNKNOWN None)
  | Some v =>
      row ← _row v;
      stored ← revision_digest row;
      Ok (if negb (eqb (content_digest row) stored) then mkWrite w_UNKNOWN (Some (state_id row))
          else mkWrite w_CONFLICT (Some (state_id row)))
  end.

(** The transaction of [record], on the rows it saw. *)
Definition record_locked (seen : OutcomeDB) (owner op : uuid) (expected : option uuid)
    (token : string) (l : list OutcomeItem) (digest : string) (fresh : uuid)
  : M OutcomeDB OutcomeWrite :=
  handle ← lift (WorkState.get owner (state_db seen)).2;
  match handle with
  | None => mret (mkWrite w_UNKNOWN None)
  | Some _ =>
      match _chain (owner_rows owner seen) with
      | None => mret (mkWrite w_UNKNOWN None)
      | Some chain =>
          replay ← lift (one_or_none (by_operation op seen));
          match replay with
          | Some v => lift (answer_replay owner digest v)
          | None =>
              let head := last chain in
              if negb (eqb expected (state_id <$> head))
              then mret (mkWrite w_STALE (state_id <$> head))
              else
                inserted ← insert_revision (mkRevision fresh op owner
                  match head with None => 1 | Some h => generation h + 1 end
                  expected l token digest);
                match inserted with
                | None =>
                    d ← get_st;
                    collision ← lift (one_or_none (by_operation op d));
                    lift (answer_collision collision)
                | Some r =>
                    row ← lift (_row r);
                    throw_if (negb (eqb (content_digest row) digest)) ValueError
                      "outcome state readback mismatch";;
                    mret (mkWrite w_APPLIED (Some fresh))
                end
          end
      end
  end.

(** [OutcomeStateStore.record]; [fresh] is its [uuid4()]. *)
Definition record (seen : OutcomeDB) (owner : uuid) (active : option uuid) (op : uuid)
    (expected : option uuid) (token : string) (l : list OutcomeItem) (fresh : uuid)
  : M OutcomeDB OutcomeWrite :=
  if negb (eqb active (Some owner)) then mret (mkWrite w_DENIED None)
  else if negb (truthy token) then throw ValueError "owner currentness token is required"
  else if existsb (λ i, eqb (source_label i) label_MARCO) l then mret (mkWrite w_DENIED None)
  else digest ← lift (_digest owner expected token l);
       transaction (record_locked seen owner op expected token l digest fresh).

(** ** Concurrent writers *)

(** A transaction sees the current tables, or earlier ones that hold the
    owner's current handle and all of its revisions. *)
Definition seen_by (owner : uuid) (seen d : OutcomeDB) : Prop :=
  outcome_state_revisions seen `prefix_of` outcome_state_revisions d ∧
  owner_rows owner seen = owner_rows owner d ∧
  (WorkState.get owner (state_db seen)).2 = (WorkState.get owner (state_db d)).2.

Definition items_valid (l : list OutcomeItem) : bool :=
  forallb (λ i, is_ok (OutcomeItem_validate i)) l.

Inductive db_step (d : OutcomeDB) : OutcomeDB → Prop :=
  | step_state c : db_step d (mkOutcomeDB (WorkState.run c (state_db d)) (outcome_state_revisions d))
  | step_record seen owner active op expected token l fresh :
      seen_by owner seen d → items_valid l = true →
      db_step d (record seen owner active op expected token l fresh d).1.

Definition db_reachable : OutcomeDB → Prop :=
  rtc db_step (mkOutcomeDB (WorkState.mkStateDB [] []) []).

(** *** Chains *)

Lemma validate_value i i' : OutcomeItem_validate i = Ok i' → i' = i.
Proof.
  unfold OutcomeItem_validate, valid_action_shape. destruct (item_fields_ok i); [|done].
  repeat (case_match; [done|]). by intros [= <-].
Qed.

(** Validating a list in place. *)
Lemma mapM_check {A} (f : A → res A) l :
  (∀ x y, f x = Ok y → y = x) →
  if forallb (λ x, is_ok (f x)) l then mapM f l = Ok l else is_ok (mapM f l) = false.
Proof.
  intros Hf. induction l as [|x l IH]; [done|]. cbn.
  destruct (f x) as [y|e] eqn:E; cbn; [|done]. rewrite (Hf x y E).
  destruct (forallb _ l); [by rewrite IH|]. by destruct (mapM f l).
Qed.

Lemma _row_spec r : if items_valid (items r) then _row r = Ok r else is_ok (_row r) = false.
Proof.
  unfold _row, items_valid. pose proof (mapM_check OutcomeItem_validate (items r) validate_value) as H.
  destruct (forallb _ _); [by rewrite H|]. by destruct (mapM _ _).
Qed.

Lemma _row_ok r : items_valid (items r) = true → _row r = Ok r.
Proof. intros H. pose proof (_row_spec r) as Hr. by rewrite H in Hr. Qed.

Lemma _row_value r r' : _row r = Ok r' → r' = r.
Proof. unfold _row. destruct (mapM _ _); cbn; [by intros [= <-] | done]. Qed.

Lemma _chain_spec rows :
  _chain rows = if forallb (λ r, items_valid (items r)) rows && chain_links 1 None rows
                then Some rows else None.
Proof.
  unfold _chain. pose proof (mapM_check _row rows _row_value) as H.
  assert (E : forallb (λ r, is_ok (_row r)) rows = forallb (λ r, items_valid (items r)) rows).
  { clear H. induction rows as [|r rows IH]; [done|]. cbn. rewrite IH. f_equal.
    pose proof (_row_spec r) as H. destruct (items_valid (items r)); [by rewrite H | done]. }
  rewrite E in H. destruct (forallb _ _); [by rewrite H|]. by destruct (mapM _row rows).
Qed.

Lemma owner_rows_elem owner d r :
  r ∈ owner_rows owner d ↔ r ∈ outcome_state_revisions d ∧ owner_work_id r = owner.
Proof. apply chain_of_elem. Qed.

Definition add_revision (r : Revision) (d : OutcomeDB) : OutcomeDB :=
  mkOutcomeDB (state_db d) (outcome_state_revisions d ++ [r]).

#[local] Arguments owner_rows : simpl never.
#[local] Arguments items_valid : simpl never.

(** *** The invariant *)

Record Inv (d : OutcomeDB) : Prop := {
  inv_chained : Chained state_id owner_work_id operation_id generation predecessor_id digested (outcome_state_revisions d);
  inv_items r : r ∈ outcome_state_revisions d → items_valid (items r) = true;
  inv_handles : WorkState.Inv (state_db d) }.

Lemma chain_links_of rows l : _chain rows = Some l → l = rows ∧ chain_links 1 None rows = true
  ∧ forallb (λ r, items_valid (items r)) rows = true.
Proof. rewrite _chain_spec. destruct (_ && _) eqn:E; [|done]. apply andb_true_iff in E. intros [= <-]. tauto. Qed.

Lemma inv_chain d : Inv d → ∀ owner, _chain (owner_rows owner d) = Some (owner_rows owner d).
Proof.
  intros Hd owner. rewrite _chain_spec. unfold owner_rows, chain_links.
  rewrite (ch_links _ _ _ _ _ _ _ (inv_chained d Hd) owner), andb_true_r.
  destruct (forallb _ _) eqn:E; [done|]. exfalso. rewrite <- not_true_iff_false, forallb_forall in E.
  apply E. intros r [Hr _]%list_elem_of_In%chain_of_elem. by apply Hd.
Qed.

Lemma inv_states d : Inv d → NoDup (state_id <$> outcome_state_revisions d).
Proof. intros Hd. apply Hd. Qed.
Lemma inv_operations d : Inv d → NoDup (operation_id <$> outcome_state_revisions d).
Proof. intros Hd. apply Hd. Qed.

(** The revision a writer appends. *)
Definition next_revision (rows : list Revision) (owner op : uuid) (expected : option uuid)
    (token : string) (l : list OutcomeItem) (digest : string) (fresh : uuid) : Revision :=
  mkRevision fresh op owner
    match last rows with None => 1 | Some h => generation h + 1 end expected l token digest.

Lemma Inv_add d owner op token l digest fresh :
  let rows := owner_rows owner d in
  let expected := state_id <$> last rows in
  let r := next_revision rows owner op expected token l digest fresh in
  Inv d → items_valid l = true → _digest owner expected token l = Ok digest →
  (fresh ∉ (state_id <$> outcome_state_revisions d)) →
  (op ∉ (operation_id <$> outcome_state_revisions d)) →
  Inv (add_revision r d) ∧ owner_rows owner (add_revision r d) = rows ++ [r].
Proof.
  intros rows expected r Hinv Hl Hdig Hs Ho.
  destruct (Chained_snoc state_id owner_work_id operation_id generation predecessor_id digested
    (outcome_state_revisions d) r) as [Hc Hr]; try done; [apply Hinv | |].
  - unfold digested. by rewrite eqb_true.
  - split; [|done]. split; cbn; [done | | apply Hinv].
    intros x [Hx| ->]%elem_of_snoc; [by apply Hinv | done].
Qed.

Lemma insert_revision_cases r d :
  insert_revision r d = (d, Ok None) ∨
  (insert_revision r d = (add_revision r d, Ok (Some r)) ∧
   (state_id r ∉ (state_id <$> outcome_state_revisions d)) ∧
   (operation_id r ∉ (operation_id <$> outcome_state_revisions d))).
Proof.
  unfold insert_revision. destruct (existsb _ _) eqn:E; [by left|]. right. split; [done|].
  rewrite existsb_false in E. split; intros (x & Hx & Hin)%list_elem_of_fmap;
    specialize (E x Hin); rewrite !orb_false_iff, !eqb_false in E; by destruct E as [[? ?] _].
Qed.

Definition admitted (owner : uuid) (active : option uuid) (token : string) (l : list OutcomeItem) : Prop :=
  active = Some owner ∧ truthy token = true ∧ existsb (λ i, eqb (source_label i) label_MARCO) l = false.

(** A call that changes nothing and does not answer APPLIED. *)
Definition quiet (m : M OutcomeDB OutcomeWrite) (d : OutcomeDB) : Prop :=
  ∃ x, m d = (d, x) ∧ ∀ w, x = Ok w → write_status w ≠ w_APPLIED.

Lemma quiet_ret d w : write_status w ≠ w_APPLIED → quiet (mret w) d.
Proof. intros Hw. eexists. split; [reflexivity|]. by intros ? [= <-]. Qed.

Lemma quiet_throw d c msg : quiet (throw c msg) d.
Proof. eexists. split; [reflexivity|]. by intros w [=]. Qed.

Lemma quiet_lift d r : (∀ w, r = Ok w → write_status w ≠ w_APPLIED) → quiet (lift r) d.
Proof. intros Hr. by exists r. Qed.

Lemma quiet_bind {A} (m : M OutcomeDB A) f d r :
  m d = (d, r) → (∀ a, r = Ok a → quiet (f a) d) → quiet (m ≫= f) d.
Proof.
  intros Hm Hf. unfold quiet, mbind, M_bind. rewrite Hm. destruct r as [a|e]; [by apply Hf|].
  eexists. split; [reflexivity|]. by intros w [=].
Qed.

Lemma quiet_transaction m d : quiet m d → quiet (transaction m) d.
Proof.
  intros (x & Hm & Hx). unfold quiet, transaction. rewrite Hm.
  destruct x; (eexists; split; [reflexivity|]); naive_solver.
Qed.

Lemma answer_replay_quiet owner digest v w :
  answer_replay owner digest v = Ok w → write_status w ≠ w_APPLIED.
Proof.
  unfold answer_replay. destruct (_row v) as [r|]; cbn; [|done].
  destruct (revision_digest r); cbn; [|done]. intros [= <-]. by repeat case_match.
Qed.

Lemma answer_collision_quiet v w : answer_collision v = Ok w → write_status w ≠ w_APPLIED.
Proof.
  unfold answer_collision. destruct v as [v|]; [|by intros [= <-]].
  destruct (_row v) as [r|]; cbn; [|done].
  destruct (revision_digest r); cbn; [|done]. intros [= <-]. by case_match.
Qed.

(** One call whose result is known. *)
Ltac quiet_step := eapply quiet_bind; [reflexivity | intros ? [=]; subst].

(** The transaction appends the record, or is quiet. *)
Lemma record_locked_cases d seen owner op expected token l digest fresh :
  Inv d → seen_by owner seen d → items_valid l = true →
  let rows := owner_rows owner d in
  let m := record_locked seen owner op expected token l digest fresh in
  quiet m d ∨
  ((∃ h, (WorkState.get owner (state_db d)).2 = Ok (Some h)) ∧
   expected = state_id <$> last rows ∧ (fresh ∉ (state_id <$> outcome_state_revisions d)) ∧
   (op ∉ (operation_id <$> outcome_state_revisions d)) ∧
   m d = (add_revision (next_revision rows owner op expected token l digest fresh) d,
          Ok (mkWrite w_APPLIED (Some fresh)))).
Proof.
  intros Hinv (_ & Hrows & Hh) Hl rows m. unfold m, record_locked.
  rewrite Hrows, (inv_chain _ Hinv owner). fold rows.
  rewrite Hh. destruct ((WorkState.get owner (state_db d)).2) as [[h|]|e];
    [| left; quiet_step; by apply quiet_ret | left; quiet_step].
  destruct (one_or_none (by_operation op seen)) as [[v|]|e];
    [left; do 2 quiet_step; apply quiet_lift, answer_replay_quiet | | left; do 2 quiet_step].
  destruct (eqb expected (state_id <$> last rows)) eqn:He; cbn [negb]; [|left; do 2 quiet_step; by apply quiet_ret].
  change (mkRevision fresh op owner _ expected l token digest)
    with (next_revision rows owner op expected token l digest fresh).
  set (r := next_revision rows owner op expected token l digest fresh).
  destruct (insert_revision_cases r d) as [Hi|(Hi & Hs & Ho)].
  - left. do 2 quiet_step. eapply quiet_bind; [exact Hi|]. intros _ [= <-]. quiet_step.
    eapply quiet_bind; [reflexivity|]. intros c _. apply quiet_lift, answer_collision_quiet.
  - right. to_prop. split; [eauto|]. do 3 (split; [done|]). unfold mbind, M_bind, lift. rewrite Hi.
    rewrite (_row_ok r) by done. cbn. by rewrite eqb_refl.
Qed.

(** The record is appended, or nothing changes and the answer is another. *)
Lemma record_cases d seen owner active op expected token l fresh :
  Inv d → seen_by owner seen d → items_valid l = true →
  let rows := owner_rows owner d in
  let m := record seen owner active op expected token l fresh in
  quiet m d ∨
  (∃ digest, admitted owner active token l ∧ _digest owner expected token l = Ok digest ∧
     (∃ h, (WorkState.get owner (state_db d)).2 = Ok (Some h)) ∧ expected = state_id <$> last rows ∧ (fresh ∉ (state_id <$> outcome_state_revisions d)) ∧
     (op ∉ (operation_id <$> outcome_state_revisions d)) ∧
     m d = (add_revision (next_revision rows owner op expected token l digest fresh) d,
            Ok (mkWrite w_APPLIED (Some fresh)))).
Proof.
  intros Hinv Hseen Hl rows m. unfold m, record.
  destruct (eqb active (Some owner)) eqn:Ha; cbn [negb]; [|left; by apply quiet_ret].
  destruct (truthy token) eqn:Ht; cbn [negb]; [|left; apply quiet_throw].
  destruct (existsb _ l) eqn:Hm; [left; by apply quiet_ret|].
  destruct (_digest owner expected token l) as [digest|e] eqn:Hd; [|left; quiet_step].
  destruct (record_locked_cases d seen owner op expected token l digest fresh Hinv Hseen Hl)
    as [Hq|(Hh & He & Hs & Ho & Hr)].
  - left. quiet_step. by apply quiet_transaction.
  - right. exists digest. to_prop. do 6 (split; [done|]). unfold mbind, M_bind, lift, transaction.
    by rewrite Hr.
Qed.

Lemma Inv_step d d' : db_step d d' → Inv d → Inv d' ∧
  outcome_state_revisions d `prefix_of` outcome_state_revisions d' ∧
  WorkState.extends (state_db d) (state_db d').
Proof.
  intros [c|seen owner active op expected token l fresh Hseen Hl] Hinv.
  - destruct (WorkState.run_spec c (state_db d) (inv_handles _ Hinv)) as [H1 H2].
    split; [|done]. destruct Hinv. by split.
  - destruct (record_cases d seen owner active op expected token l fresh Hinv Hseen Hl)
      as [(x & -> & _)|(digest & _ & Hd & _ & He & Hs & Ho & ->)]; [done|]. cbn [fst]. subst expected.
    destruct (Inv_add d owner op token l digest fresh Hinv Hl Hd Hs Ho) as [H _].
    split; [done|]. split; [by apply prefix_app_r | done].
Qed.

Lemma Inv_steps d d' : rtc db_step d d' → Inv d → Inv d' ∧
  outcome_state_revisions d `prefix_of` outcome_state_revisions d' ∧
  WorkState.extends (state_db d) (state_db d').
Proof.
  induction 1 as [|d1 d2 d3 Hst _ IH]; intros Hinv; [done|].
  destruct (Inv_step _ _ Hst Hinv) as (H1 & H2 & H3). destruct (IH H1) as (H4 & H5 & H6).
  split; [done|]. split; by etrans.
Qed.

Lemma Inv_init : Inv (mkOutcomeDB (WorkState.mkStateDB [] []) []).
Proof.
  split; cbn; [apply Chained_nil | set_solver |].
  split; cbn; [constructor.. | intros e He; by apply not_elem_of_nil in He].
Qed.

Lemma Inv_reachable d : db_reachable d → Inv d.
Proof. intros H. by apply (Inv_steps _ d H), Inv_init. Qed.

(** ** Theorems *)

Lemma last_owner d owner r : last (owner_rows owner d) = Some r → r ∈ outcome_state_revisions d.
Proof. intros [l E]%last_Some. apply (owner_rows_elem owner). rewrite E. set_solver. Qed.

(** However writers of different owners interleave with each other and with
    the binding of works, the stored revisions of every owner form a readable
    chain - valid items, generations 1, 2, ..., each naming its predecessor and
    carrying the digest of its content - so that a summary is never UNKNOWN;
    identifiers and operations are unique, and rows are only appended. *)
Theorem outcome_chain d d' owner :
  db_reachable d → rtc db_step d d' →
  _chain (owner_rows owner d) = Some (owner_rows owner d) ∧
  (∀ k r, owner_rows owner d !! k = Some r → generation r = Z.of_nat k + 1) ∧
  (∀ token, summary owner token d ≠ s_UNKNOWN) ∧
  NoDup (state_id <$> outcome_state_revisions d) ∧
  NoDup (operation_id <$> outcome_state_revisions d) ∧
  outcome_state_revisions d `prefix_of` outcome_state_revisions d'.
Proof.
  intros Hd Hdd. pose proof (Inv_reachable d Hd) as Hinv.
  pose proof (inv_chain _ Hinv owner) as Hc. split; [done|].
  destruct (chain_links_of _ _ Hc) as (_ & Hl & _). split.
  { intros k r Hk. rewrite (links_generation _ _ _ _ _ _ _ _ _ Hl Hk). lia. }
  split; [intros token; unfold summary; rewrite Hc; by destruct (last _)|].
  split; [by apply inv_states|]. split; [by apply inv_operations|]. by destruct (Inv_steps d d' Hdd Hinv) as (_ & ? & _).
Qed.

(** Recording either changes nothing and does not answer APPLIED, or
    appends exactly one revision - by the admitted active owner, after the head
    it expected, with the given items, a fresh identifier and the digest of its
    content - answers APPLIED with that identifier, and the summary is then the
    projection of those items. *)
Theorem outcome_record d seen owner active op expected token l fresh :
  db_reachable d → seen_by owner seen d → items_valid l = true →
  let m := record seen owner active op expected token l fresh in
  (∃ x, m d = (d, x) ∧ ∀ w, x = Ok w → write_status w ≠ w_APPLIED) ∨
  (∃ r, m d = (add_revision r d, Ok (mkWrite w_APPLIED (Some fresh))) ∧
     admitted owner active token l ∧ expected = state_id <$> last (owner_rows owner d) ∧
     owner_rows owner (add_revision r d) = owner_rows owner d ++ [r] ∧
     state_id r = fresh ∧ operation_id r = op ∧ predecessor_id r = expected ∧ items r = l ∧
     revision_digest r = Ok (content_digest r) ∧
     ∀ token', summary owner token' (add_revision r d) = s_summary (_summary r token')).
Proof.
  intros Hd Hseen Hl m. pose proof (Inv_reachable d Hd) as Hinv.
  destruct (record_cases d seen owner active op expected token l fresh Hinv Hseen Hl)
    as [Hq|(digest & Had & Hdig & _ & He & Hs & Ho & Hm)]; [by left | right].
  rewrite He in Hdig.
  destruct (Inv_add d owner op token l digest fresh Hinv Hl Hdig Hs Ho) as [Hinv' Hrows].
  rewrite <- He in Hinv', Hrows, Hdig. eexists. split; [exact Hm|]. split; [done|]. split; [done|].
  split; [exact Hrows|]. do 4 (split; [done|]). split; [exact Hdig|].
  intros token'. unfold summary. by rewrite (inv_chain _ Hinv' owner), Hrows, last_snoc.
Qed.

(** A stored operation, read back. *)
Lemma by_operation_of d v :
  Inv d → v ∈ outcome_state_revisions d →
  one_or_none (by_operation (operation_id v) d) = Ok (Some v) ∧
  _row v = Ok v ∧ revision_digest v = Ok (content_digest v).
Proof.
  intros Hinv Hv. split.
  - unfold by_operation. rewrite (filter_unique operation_id _ _ v); [reflexivity | apply Hinv | | exact Hv |].
    + intros y _ Hy. by apply eqb_true.
    + apply eqb_refl.
  - destruct (chain_links_of _ _ (inv_chain _ Hinv (owner_work_id v))) as (_ & Hl & Hv').
    assert (Hin : v ∈ owner_rows (owner_work_id v) d) by by apply owner_rows_elem.
    split.
    + apply _row_ok. rewrite forallb_forall in Hv'. by apply Hv', list_elem_of_In.
    + apply eqb_true. exact (links_good _ _ _ _ _ _ _ _ Hl Hin).
Qed.

(** What a second request with a stored operation of the same owner answers. *)
Lemma record_stored d seen v active expected token l digest fresh :
  Inv d → seen_by (owner_work_id v) seen d → v ∈ outcome_state_revisions d →
  admitted (owner_work_id v) active token l → _digest (owner_work_id v) expected token l = Ok digest →
  (∃ h, (WorkState.get (owner_work_id v) (state_db d)).2 = Ok (Some h)) →
  record seen (owner_work_id v) active (operation_id v) expected token l fresh d
    = (d, Ok (mkWrite (if eqb (content_digest v) digest then w_REPLAYED else w_CONFLICT)
                (Some (state_id v)))).
Proof.
  intros Hinv ((k & Hpre) & Hrows & Hget) Hv (Ha & Ht & Hm) Hd [h Hh]. unfold record.
  rewrite (proj2 (eqb_true _ _) Ha), Ht, Hm, Hd. cbn [negb].
  assert (Hs : v ∈ outcome_state_revisions seen).
  { assert (Hin : v ∈ owner_rows (owner_work_id v) d) by by apply owner_rows_elem.
    rewrite <- Hrows in Hin. by apply owner_rows_elem in Hin as [? _]. }
  destruct (by_operation_of d v Hinv Hv) as (_ & Hrow & Hdig).
  assert (Hop : one_or_none (by_operation (operation_id v) seen) = Ok (Some v)).
  { unfold by_operation. rewrite (filter_unique operation_id _ _ v);
      [done | | | exact Hs | apply eqb_refl].
    - pose proof (inv_operations _ Hinv) as Hnd. rewrite Hpre, fmap_app in Hnd.
      by apply NoDup_app in Hnd as [? _].
    - intros y _ Hy. by apply eqb_true. }
  unfold mbind, M_bind, lift at 1, transaction, record_locked.
  unfold mbind, M_bind, lift at 1. rewrite Hget, Hh, Hrows, (inv_chain _ Hinv).
  unfold lift at 1. rewrite Hop. unfold lift, answer_replay. rewrite Hrow. cbn.
  rewrite Hdig. cbn. rewrite !eqb_refl. cbn. by destruct (eqb _ digest).
Qed.

(** Recording is idempotent by operation.  Once a record was applied,
    however much is written later, the same request - with any fresh
    identifier, and whatever up-to-date rows it sees - answers REPLAYED with
    the first identifier, and a request of the owner that reuses the operation
    for other content answers CONFLICT; neither changes anything. *)
Theorem outcome_replay d seen owner active op expected token l fresh d1 s d2 seen2 active2 expected2
    token2 l2 digest digest2 fresh2 :
  db_reachable d → seen_by owner seen d → items_valid l = true →
  record seen owner active op expected token l fresh d = (d1, Ok (mkWrite w_APPLIED s)) →
  rtc db_step d1 d2 → seen_by owner seen2 d2 → admitted owner active2 token2 l2 →
  _digest owner expected token l = Ok digest → _digest owner expected2 token2 l2 = Ok digest2 →
  record seen2 owner active2 op expected2 token2 l2 fresh2 d2
    = (d2, Ok (mkWrite (if eqb digest digest2 then w_REPLAYED else w_CONFLICT) s)).
Proof.
  intros Hd Hseen Hl Hr Hsteps Hseen2 Had2 Hdig Hdig2. pose proof (Inv_reachable d Hd) as Hinv.
  assert (Hstep : db_step d d1).
  { replace d1 with (record seen owner active op expected token l fresh d).1 by by rewrite Hr.
    by constructor. }
  destruct (Inv_step d d1 Hstep Hinv) as (Hinv1 & _ & Hex1).
  destruct (Inv_steps d1 d2 Hsteps Hinv1) as (Hinv2 & [k Hpre] & Hex2).
  destruct (record_cases d seen owner active op expected token l fresh Hinv Hseen Hl)
    as [(x & Hm & Hx)|(dg & _ & Hdg & [h Hh] & _ & _ & _ & Hm)]; rewrite Hm in Hr;
    [injection Hr as _ ->; by destruct (Hx _ eq_refl)|].
  rewrite Hdig in Hdg. injection Hdg as <-. injection Hr as <- <-.
  set (v := next_revision (owner_rows owner d) owner op expected token l digest fresh) in *.
  refine (record_stored d2 seen2 v active2 expected2 token2 l2 digest2 fresh2 Hinv2 Hseen2 _ Had2 Hdig2 _).
  - rewrite Hpre. cbn. set_solver.
  - destruct (WorkState.get_cases (state_db d) owner (inv_handles _ Hinv))
      as [(h' & Hin & Hid & _)|[_ E]]; [|rewrite E in Hh; done].
    change (owner_work_id v) with owner. exists h'.
    rewrite (WorkState.get_some (state_db d2) owner h'); try done; [apply Hinv2|].
    by apply (WorkState.extends_elem _ _ _ Hex2), (WorkState.extends_elem _ _ _ Hex1).
Qed.

(** *** The projection *)

Lemma action_le_total a b : action_le a b = true ∨ action_le b a = true.
Proof.
  unfold action_le. destruct (Z.lt_total (class_order (action_class a)) (class_order (action_class b)))
    as [H|[H|H]]; [left; apply Z.ltb_lt in H; by rewrite H | | right; apply Z.ltb_lt in H; by rewrite H].
  rewrite H, Z.ltb_irrefl, Z.eqb_refl. cbn. apply str_leb_total.
Qed.

Lemma action_le_trans a b c : action_le a b = true → action_le b c = true → action_le a c = true.
Proof.
  unfold action_le. rewrite !orb_true_iff, !andb_true_iff, !Z.ltb_lt, !Z.eqb_eq.
  intros [H1|[H1 S1]] [H2|[H2 S2]]; [left; lia.. |].
  right. split; [lia | by apply (str_leb_trans _ (a_item_key b))].
Qed.

(** An item its owner can act on. *)
Definition owner_open (i : OutcomeItem) : bool :=
  eqb (who_acts i) OWNER && negb (eqb (status i) DONE).

(** An item that validates is open exactly when it asks for one of the three,
    and its class and its identities say which. *)
Lemma validated_class i :
  is_ok (OutcomeItem_validate i) = true →
  is_open i = is_decision i || is_dispatch i || owner_open i ∧
  (is_open i = true →
   match class_of i with
   | NEEDS_MARCO => is_decision i = true ∧ is_some (what_yes_causes i) = true ∧ dispatch_work_id i = None
   | READY_TO_DISPATCH => is_dispatch i = true ∧ is_some (dispatch_work_id i) = true ∧ what_yes_causes i = None
   | OWNER_CAN_DO => owner_open i = true ∧ dispatch_work_id i = None ∧ what_yes_causes i = None
   end).
Proof.
  unfold OutcomeItem_validate, valid_action_shape, is_dispatch, is_decision, is_open, class_of,
    owner_open.
  destruct (item_fields_ok i); [|done]. destruct i as [ik de k st wh dw wy sl sr]; cbn.
  destruct k, st, wh, dw as [w|], wy as [y|]; vm_compute; repeat split; try done; intros; try done;
    repeat split; done.
Qed.

(** The summary of a revision with validated items is faithful.  Its
    actions are those of the items that are a Marco decision not yet in
    progress, a ready Marco deliverable, or owner work that is not done, each
    classed accordingly and carrying exactly the identity its class calls for;
    they are counted, and sorted by class and item key. *)
Theorem outcome_actions r token :
  items_valid (items r) = true →
  let s := _summary r token in
  actions s ≡ₚ action_of <$> List.filter (λ i, is_decision i || is_dispatch i || owner_open i) (items r) ∧
  open_action_count s = Z.of_nat (length (actions s)) ∧
  StronglySorted (λ a b, action_le a b = true) (actions s) ∧
  ∀ a, a ∈ actions s →
    match action_class a with
    | NEEDS_MARCO => is_some (a_what_yes_causes a) = true ∧ a_dispatch_work_id a = None
    | READY_TO_DISPATCH => is_some (a_dispatch_work_id a) = true ∧ a_what_yes_causes a = None
    | OWNER_CAN_DO => a_dispatch_work_id a = None ∧ a_what_yes_causes a = None
    end.
Proof.
  intros Hv s. unfold items_valid in Hv. rewrite forallb_forall in Hv.
  assert (Hf : List.filter is_open (items r)
               = List.filter (λ i, is_decision i || is_dispatch i || owner_open i) (items r)).
  { apply filter_ext_in. intros i Hi. by apply validated_class, Hv. }
  split; [unfold s; cbn; by rewrite py_sort_perm, Hf|]. split; [done|].
  split; [apply py_sort_sorted; [apply action_le_total | apply action_le_trans]|].
  intros a Ha. unfold s in Ha. cbn in Ha. rewrite py_sort_perm in Ha.
  apply list_elem_of_fmap in Ha as (i & -> & Hi). apply list_elem_of_In, filter_In in Hi as [Hi Ho].
  pose proof (proj2 (validated_class i (Hv i Hi)) Ho) as Hc.
  unfold action_of. cbn. destruct (class_of i); tauto.
Qed.

(** ** Concrete runs *)

Definition ex_items : list OutcomeItem :=
  [mkItem "k2" "do it" DELIVERABLE READY OWNER None None label_AGENT None;
   mkItem "k1" "choose" DECISION READY MARCO None (Some "we ship") label_AGENT None].

Definition ex_d0 : OutcomeDB :=
  mkOutcomeDB (WorkState.run (WorkState.c_bind_reserved "w1" "asana" "42" false)
                 (WorkState.mkStateDB [] [])) [].
Definition ex_d1 : OutcomeDB := (record ex_d0 "w1" (Some "w1") "op1" None "t1" ex_items "s1" ex_d0).1.

Lemma seen_self owner d : seen_by owner d d.
Proof. done. Qed.

Lemma ex_reach0 : db_reachable ex_d0.
Proof. apply rtc_once. apply (step_state (mkOutcomeDB _ _)). Qed.

Lemma ex_step1 : db_step ex_d0 ex_d1.
Proof. apply step_record; [apply seen_self | vm_compute; reflexivity]. Qed.

Lemma outcome_chain_witness :
  _chain (owner_rows "w1" ex_d1) = Some (owner_rows "w1" ex_d1) ∧ length (outcome_state_revisions ex_d1) = 1%nat.
Proof.
  split; [|vm_compute; reflexivity].
  exact (proj1 (outcome_chain ex_d1 ex_d1 "w1" (rtc_r _ _ _ ex_reach0 ex_step1) (rtc_refl _ _))).
Defined.

Lemma outcome_record_witness :
  ∃ r, record ex_d0 "w1" (Some "w1") "op1" None "t1" ex_items "s1" ex_d0
         = (add_revision r ex_d0, Ok (mkWrite w_APPLIED (Some "s1"))) ∧ items r = ex_items.
Proof.
  destruct (outcome_record ex_d0 ex_d0 "w1" (Some "w1") "op1" None "t1" ex_items "s1" ex_reach0
    (seen_self _ _) ltac:(vm_compute; reflexivity)) as [(x & Hm & Hx)|(r & Hm & _ & _ & _ & _ & _ & _ & Hi & _)].
  - exfalso. apply (Hx (mkWrite w_APPLIED (Some "s1"))); [|done].
    apply (eq_trans (eq_sym (f_equal snd Hm))). vm_compute. reflexivity.
  - exists r. split; [exact Hm | exact Hi].
Defined.

Lemma outcome_replay_witness :
  record ex_d1 "w1" (Some "w1") "op1" None "t1" [] "s9" ex_d1
    = (ex_d1, Ok (mkWrite w_CONFLICT (Some "s1"))).
Proof.
  refine (outcome_replay ex_d0 ex_d0 "w1" (Some "w1") "op1" None "t1" ex_items "s1" ex_d1 (Some "s1")
    ex_d1 ex_d1 (Some "w1") None "t1" [] (match _digest "w1" None "t1" ex_items with Ok d => d | _ => "" end)
    (match _digest "w1" None "t1" [] with Ok d => d | _ => "" end) "s9"
    ex_reach0 (seen_self _ _) _ _ (rtc_refl _ _) (seen_self _ _) _ _ _).
  all: vm_compute; repeat split; reflexivity.
Defined.

Lemma outcome_actions_witness :
  let r := default (mkRevision "" "" "" 0 None [] "" "") (last (outcome_state_revisions ex_d1)) in
  action_class <$> actions (_summary r "t1") = [NEEDS_MARCO; OWNER_CAN_DO] ∧
  open_action_count (_summary r "t1") = Z.of_nat (length (actions (_summary r "t1"))).
Proof.
  intros r. split; [vm_compute; reflexivity|].
  apply (outcome_actions r "t1"). vm_compute. reflexivity.
Defined.
