(* ===== verification/Mailboxes.v ===== *)
(** * Named mailboxes ([mailbox/agent_mailboxes.py])

    A mailbox is a name bound to an endpoint, owned by one runtime session of
    one principal.  Every change of owner advances the mailbox's generation,
    so an endpoint and a generation identify the owner for ever: messages are
    fenced by that binding.  An operation is one transaction; [uuid4()] and
    the clock are arguments. *)

From stdpp Require Import pretty.
From S2P Require Import Prelude Tables Json.

Local Open Scope Z_scope.

Definition CODEX_COORDINATOR_NAME : string := "Codex Coordinator".
Definition CODEX_COORDINATOR_KEY : string := "codex-coordinator".
Definition LEGACY_ROOT_KEY : string := "root".

(** ** Names and sessions *)

(** [str.isspace] of a code point below 256. *)
Definition is_space (c : ascii) : bool :=
  let n := Z.of_N (N_of_ascii c) in
  ((9 <=? n) && (n <=? 13)) || ((28 <=? n) && (n <=? 32)) || (n =? 133) || (n =? 160).

(** [str.split()]: [word] is the word being read. *)
Fixpoint py_split (word s : string) : list string :=
  match s with
  | EmptyString => if truthy word then [word] else []
  | String c s' =>
      if is_space c then (if truthy word then [word] else []) ++ py_split "" s'
      else py_split (word ++ String c "") s'
  end.

(** [" ".join(value.strip().split())]; the split drops what [strip] would. *)
Definition visible_name (value : string) : string := str_join " " (py_split "" value).

Definition is_key_char (c : ascii) : bool := is_digit c || char_between "a" "z" c.

(** What [casefold] and the class [[a-z0-9]] make of one code point: its key
    characters, or [None] for a character the pattern replaces. *)
Definition fold_char (c : ascii) : option string :=
  if is_key_char c then Some (String c "")
  else if char_between "A" "Z" c then Some (String (ascii_of_N (N_of_ascii c + 32)) "")
  else if (N_of_ascii c =? 223)%N then Some "ss"
  else None.

(** [re.sub(r"[^a-z0-9]+", "-", s.casefold())]; [in_run] inside a run. *)
Fixpoint slug_sub (in_run : bool) (s : string) : string :=
  match s with
  | EmptyString => ""
  | String c s' =>
      match fold_char c with
      | Some t => t ++ slug_sub false s'
      | None => if in_run then slug_sub true s' else String "-" (slug_sub true s')
      end
  end.

Definition is_dash (c : ascii) : bool := Ascii.eqb c "-".

Fixpoint lstrip (p : ascii → bool) (s : string) : string :=
  match s with
  | EmptyString => ""
  | String c s' => if p c then lstrip p s' else s
  end.

(** [s.rstrip]: the longest prefix that does not end in a [p] character. *)
Fixpoint rstrip (p : ascii → bool) (s : string) : string :=
  match s with
  | EmptyString => ""
  | String c s' =>
      match rstrip p s' with
      | EmptyString => if p c then "" else String c ""
      | t => String c t
      end
  end.

Definition first_is (p : ascii → bool) (s : string) : bool :=
  match s with String c _ => p c | EmptyString => false end.

(** [agent_name_key]; the first character of a key is a letter or a digit. *)
Definition agent_name_key (value : string) : res string :=
  let visible := visible_name value in
  let key := rstrip is_dash (lstrip is_dash (slug_sub false visible)) in
  if negb (truthy visible) || negb (truthy key) || negb (first_is (char_between "a" "z") key)
     || (80 <? py_len visible) || (80 <? py_len key)
  then raise ValueError "invalid agent name" else Ok key.

(** [chat_session_key] *)
Definition chat_session_key (value : string) : res string :=
  if negb (truthy value) || (4096 <? py_len value) then raise ValueError "invalid chat session"
  else Ok (sha256_hex value).

Inductive AgentType := codex | claude | chatgpt.

#[export] Instance AgentType_eq_dec : EqDecision AgentType.
Proof. solve_decision. Defined.

(** [session_agent_type] *)
Definition session_agent_type (session : string) : AgentType :=
  if startswith "codex:" session then codex
  else if startswith "claude:" session then claude else chatgpt.

(** [coordinator_name_keys] *)
Definition coordinator_name_keys (value : string) : res (list string) :=
  key ← agent_name_key value;
  Ok (if mem key [CODEX_COORDINATOR_KEY; LEGACY_ROOT_KEY]
      then [CODEX_COORDINATOR_KEY; LEGACY_ROOT_KEY] else [key]).

(** ** Rows *)

(** A row of [agent_mailboxes], which is also the model that shows it. *)
Record AgentMailbox := mkMailbox {
  name_key : string; name : string; endpoint_id : uuid; principal_key : string;
  session_key : string; generation : Z; agent_type : option AgentType }.

#[export] Instance AgentMailbox_eq_dec : EqDecision AgentMailbox.
Proof. solve_decision. Defined.

(** The pattern [^[a-z][a-z0-9.-]*$] of [name_key]. *)
Definition name_key_ok (s : string) : bool :=
  first_is (char_between "a" "z") s
  && all_chars (λ c, is_key_char c || Ascii.eqb c "." || is_dash c) s.

(** The field constraints of [AgentMailbox]. *)
Definition mailbox_ok (m : AgentMailbox) : bool :=
  (1 <=? py_len (name m)) && (py_len (name m) <=? 80) && (py_len (name_key m) <=? 80)
  && name_key_ok (name_key m) && truthy (principal_key m) && truthy (session_key m)
  && (1 <=? generation m).

(** [_view] *)
Definition _view (m : AgentMailbox) : res AgentMailbox :=
  if mailbox_ok m then Ok m else raise ValueError "validation error".

Inductive TransferStatus := PENDING | APPROVED | STALE | CONFLICT.

#[export] Instance TransferStatus_eq_dec : EqDecision TransferStatus.
Proof. solve_decision. Defined.

(** A row of [agent_mailbox_transfer_requests]; the timestamps are not read. *)
Record TransferRequest := mkTransfer {
  request_id : uuid; t_name_key : string; t_endpoint_id : uuid; expected_generation : Z;
  source_principal_key : string; source_session_key : string;
  destination_principal_key : string; destination_session_key : string;
  destination_agent_type : AgentType; t_status : TransferStatus; t_reason : option string;
  resulting_generation : option Z }.

Record MailboxDB := mkMailboxDB {
  mailboxes : list AgentMailbox; transfers : gmap string TransferRequest }.

(** ** Results *)

Inductive MailboxResult :=
  | mb_ok (m : AgentMailbox)
  | mb_conflict (reason : string) | mb_denied (reason : string) | mb_recovery (reason : string).

Definition unavailable : MailboxResult := mb_recovery "state_unavailable".

Inductive TransferOutcome := t_pending | t_approved | t_stale | t_conflict | t_denied | t_recovery.

#[export] Instance TransferOutcome_eq_dec : EqDecision TransferOutcome.
Proof. solve_decision. Defined.

Record TransferResult := mkTransferResult {
  tr_status : TransferOutcome; tr_request_id : option uuid; tr_name : option string;
  tr_endpoint_id : option uuid; tr_generation : option Z; tr_reason : option string }.

(** ** The table *)

Definition owner (m : AgentMailbox) : string * string := (principal_key m, session_key m).

(** The primary key, the unique constraints and the check. *)
Definition constraints_ok (l : list AgentMailbox) : bool :=
  no_dup (name_key <$> l) && no_dup (endpoint_id <$> l) && no_dup (owner <$> l)
  && forallb (λ m, 1 <=? generation m) l.

(** A statement that replaces rows, checked against the constraints. *)
Definition write_rows (l : list AgentMailbox) : M MailboxDB unit := λ d,
  if constraints_ok l then (mkMailboxDB l (transfers d), Ok tt)
  else (d, raise IntegrityError "agent_mailboxes").

(** [UPDATE ... WHERE p] by [f]. *)
Definition update_where (p : AgentMailbox → bool) (f : AgentMailbox → AgentMailbox)
  : M MailboxDB unit :=
  d ← get_st; write_rows ((λ m, if p m then f m else m) <$> mailboxes d).

(** [INSERT ... ON CONFLICT DO NOTHING] *)
Definition insert_mailbox (m : AgentMailbox) : M MailboxDB unit := λ d,
  if existsb (λ m', eqb (name_key m') (name_key m) || eqb (endpoint_id m') (endpoint_id m)
                    || eqb (owner m') (owner m)) (mailboxes d)
  then (d, Ok tt) else write_rows (mailboxes d ++ [m]) d.

(** [SELECT ... WHERE p] with [one_or_none]. *)
Definition select_one (p : AgentMailbox → bool) : M MailboxDB (option AgentMailbox) := λ d,
  (d, one_or_none (List.filter p (mailboxes d))).

Definition owned_by (principal session : string) (m : AgentMailbox) : bool :=
  eqb (principal_key m) principal && eqb (session_key m) session.
Definition named (key : string) (m : AgentMailbox) : bool := eqb (name_key m) key.

Definition view_ok (m : AgentMailbox) : M MailboxDB MailboxResult :=
  v ← lift (_view m); mret (mb_ok v).

(** The errors every operation answers with [recovery_required]. *)
Definition guarded {A} (answer : A) (m : M MailboxDB A) : M MailboxDB A :=
  catch m [IntegrityError; SQLAlchemyError; TypeError; ValueError] (λ _, mret answer).

Definition with_agent_type (t : AgentType) (m : AgentMailbox) : AgentMailbox :=
  mkMailbox (name_key m) (name m) (endpoint_id m) (principal_key m) (session_key m)
    (generation m) (Some t).
Definition with_name (key display : string) (m : AgentMailbox) : AgentMailbox :=
  mkMailbox key display (endpoint_id m) (principal_key m) (session_key m) (generation m)
    (agent_type m).
(** A new owner, in the next generation. *)
Definition with_owner (principal session : string) (t : AgentType) (g : Z) (m : AgentMailbox) : AgentMailbox :=
  mkMailbox (name_key m) (name m) (endpoint_id m) principal session g (Some t).

(** [update(...).values(agent_type=...).returning(...)] of the row named [key]. *)
Definition retype (key : string) (t : AgentType) : M MailboxDB MailboxResult :=
  update_where (named key) (with_agent_type t);;
  row ← select_one (named key);
  match row with
  | Some m => view_ok m
  | None => throw SQLAlchemyError "No row was found when one was required"
  end.

(** ** Registration and lookup *)

(** [register_agent] *)
Definition register_agent (fresh : uuid) (agent_name principal chat_session : string)
  : M MailboxDB MailboxResult :=
  guarded unavailable (
    key ← lift (agent_name_key agent_name);
    let display := visible_name agent_name in
    session ← lift (chat_session_key chat_session);
    transaction (
      prior ← select_one (owned_by principal session);
      match prior with
      | Some m => retype (name_key m) (session_agent_type chat_session)
      | None =>
          if mem key [CODEX_COORDINATOR_KEY; LEGACY_ROOT_KEY]
          then mret (mb_denied "reserved_name_requires_takeover")
          else
            insert_mailbox (mkMailbox key display fresh principal session 1
                              (Some (session_agent_type chat_session)));;
            prior ← select_one (owned_by principal session);
            match prior with
            | Some m => view_ok m
            | None =>
                bound ← select_one (named key);
                mret (if is_some bound then mb_conflict "name_collision" else unavailable)
            end
      end)).

(** [by_name] *)
Definition by_name (agent_name : string) : M MailboxDB MailboxResult :=
  guarded unavailable (
    keys ← lift (coordinator_name_keys agent_name);
    d ← get_st;
    match List.filter (λ m, mem (name_key m) keys) (mailboxes d) with
    | [] => mret (mb_denied "mailbox_not_found")
    | [m] => view_ok m
    | _ => mret unavailable
    end).

(** [by_endpoint_id] *)
Definition by_endpoint_id (endpoint : uuid) : M MailboxDB MailboxResult :=
  guarded unavailable (
    row ← select_one (λ m, eqb (endpoint_id m) endpoint);
    match row with None => mret (mb_denied "mailbox_not_found") | Some m => view_ok m end).

(** [for_actor] *)
Definition for_actor (principal chat_session : string) : M MailboxDB MailboxResult :=
  guarded unavailable (
    session ← lift (chat_session_key chat_session);
    row ← select_one (owned_by principal session);
    match row with None => mret (mb_denied "agent_not_registered") | Some m => view_ok m end).

(** [for_session]; the query is limited to two rows. *)
Definition for_session (chat_session : string) : M MailboxDB MailboxResult :=
  guarded unavailable (
    session ← lift (chat_session_key chat_session);
    d ← get_st;
    match List.filter (λ m, eqb (session_key m) session) (mailboxes d) with
    | [] => mret (mb_denied "agent_not_registered")
    | [m] => view_ok m
    | _ => mret unavailable
    end).

(** ** Takeover *)

(** The move of a row to a new owner, compared with the generation read. *)
Definition move (m : AgentMailbox) (f : AgentMailbox → AgentMailbox) : M MailboxDB (option AgentMailbox) :=
  let hit r := named (name_key m) r && (generation r =? generation m) in
  d ← get_st;
  update_where hit f;;
  lift (one_or_none (f <$> List.filter hit (mailboxes d))).

(** The mailbox another name holds for this owner. *)
Definition other_name (key principal session : string) : M MailboxDB (option AgentMailbox) :=
  select_one (λ m, owned_by principal session m && negb (named key m)).

(** The row of the name, created or renamed when there is none. *)
Definition claim_name (fresh : uuid) (key display principal session : string) (t : AgentType)
  : M MailboxDB (MailboxResult + AgentMailbox) :=
  row ← select_one (named key);
  match row with
  | Some m => mret (inr m)
  | None =>
      prior ← select_one (owned_by principal session);
      if match prior with Some m => mem (name_key m) [CODEX_COORDINATOR_KEY; LEGACY_ROOT_KEY]
         | None => false end
      then mret (inl (mb_conflict "session_already_registered"))
      else
        match prior with
        | None => insert_mailbox (mkMailbox key display fresh principal session 1 (Some t))
        | Some m => update_where (named (name_key m)) (with_name key display)
        end;;
        row ← select_one (named key);
        mret (match row with None => inl unavailable | Some m => inr m end)
  end.

(** [takeover] *)
Definition takeover (fresh : uuid) (agent_name principal replacement_session : string)
    (allow_principal_change : bool) : M MailboxDB MailboxResult :=
  guarded unavailable (
    key ← lift (agent_name_key agent_name);
    session ← lift (chat_session_key replacement_session);
    let t := session_agent_type replacement_session in
    transaction (
      claimed ← claim_name fresh key (visible_name agent_name) principal session t;
      match claimed with
      | inl answer => mret answer
      | inr m =>
          if negb (eqb (principal_key m) principal) && negb allow_principal_change
          then mret (mb_denied "principal_mismatch")
          else if owned_by principal session m then retype key t
          else
            prior ← other_name key principal session;
            if is_some prior then mret (mb_conflict "session_already_registered")
            else
              moved ← move m (with_owner principal session t (generation m + 1));
              match moved with None => mret unavailable | Some m => view_ok m end
      end)).

(** [takeover_coordinator] *)
Definition takeover_coordinator (principal replacement_session : string)
    (allow_principal_change : bool) : M MailboxDB MailboxResult :=
  guarded unavailable (
    session ← lift (chat_session_key replacement_session);
    let t := session_agent_type replacement_session in
    transaction (
      d ← get_st;
      match List.filter (λ m, mem (name_key m) [CODEX_COORDINATOR_KEY; LEGACY_ROOT_KEY])
              (mailboxes d) with
      | [] => mret (mb_denied "mailbox_not_found")
      | [m] =>
          if negb (eqb (principal_key m) principal) && negb allow_principal_change
          then mret (mb_denied "principal_mismatch")
          else if owned_by principal session m && named CODEX_COORDINATOR_KEY m
                  && eqb (agent_type m) (Some t)
          then view_ok m
          else
            prior ← other_name (name_key m) principal session;
            if is_some prior then mret (mb_conflict "session_already_registered")
            else
              moved ← move m (λ r, with_name CODEX_COORDINATOR_KEY CODEX_COORDINATOR_NAME
                                     (with_owner principal session t (generation m + 1) r));
              match moved with None => mret unavailable | Some m => view_ok m end
      | _ => mret unavailable
      end)).

(** ** Transfers across principals *)

Definition put_transfer (id : uuid) (t : TransferRequest) : M MailboxDB unit := λ d,
  (mkMailboxDB (mailboxes d) (<[id := t]> (transfers d)), Ok tt).

(** The answer to a request that is no longer pending. *)
Definition resolved (id : uuid) (t : TransferRequest) (row : option AgentMailbox) : TransferResult :=
  match t_status t with
  | APPROVED =>
      mkTransferResult t_approved (Some id)
        (Some match row with Some m => name m | None => t_name_key t end)
        (Some (t_endpoint_id t)) (resulting_generation t) None
  | STALE => mkTransferResult t_stale (Some id) None None None (t_reason t)
  | _ => mkTransferResult t_conflict (Some id) None None None (t_reason t)
  end.

Definition transfer_denied (reason : string) : TransferResult :=
  mkTransferResult t_denied None None None None (Some reason).
Definition transfer_unavailable (id : option uuid) : TransferResult :=
  mkTransferResult t_recovery id None None None (Some "state_unavailable").

(** The namespace [uuid.NAMESPACE_URL]. *)
Definition NAMESPACE_URL : uuid := "6ba7b811-9dad-11d1-80b4-00c04fd430c8".

(** ["\x00".join(...)] *)
Definition transfer_identity (m : AgentMailbox) (principal session : string) : string :=
  str_join (String Ascii.zero EmptyString)
    [endpoint_id m; pretty (generation m); principal_key m; session_key m; principal; session].

(** [request_transfer] *)
Definition request_transfer (agent_name principal destination_session : string)
  : M MailboxDB TransferResult :=
  guarded (transfer_unavailable None) (
    key ← lift (agent_name_key agent_name);
    session ← lift (chat_session_key destination_session);
    transaction (
      row ← select_one (named key);
      match row with
      | None => mret (transfer_denied "mailbox_not_found")
      | Some m =>
          if eqb (principal_key m) principal
          then mret (transfer_denied "same_principal_use_takeover")
          else
            prior ← select_one (owned_by principal session);
            if is_some prior
            then mret (mkTransferResult t_conflict None None None None
                         (Some "session_already_registered"))
            else
              let id := uuid5 NAMESPACE_URL
                (String.append "switchstand-agent-transfer:" (transfer_identity m principal session)) in
              d ← get_st;
              let t := default (mkTransfer id key (endpoint_id m) (generation m) (principal_key m)
                (session_key m) principal session (session_agent_type destination_session) PENDING
                None None) (transfers d !! id) in
              put_transfer id t;;
              mret (if eqb (t_status t) PENDING
                    then mkTransferResult t_pending (Some id) (Some (name m))
                           (Some (endpoint_id m)) (Some (generation m)) None
                    else if eqb (t_status t) APPROVED
                    then mkTransferResult t_approved (Some id) (Some (name m))
                           (Some (endpoint_id m)) (resulting_generation t) None
                    else resolved id t (Some m))
      end)).

Definition with_transfer_status (s : TransferStatus) (reason : option string) (g : option Z)
    (t : TransferRequest) : TransferRequest :=
  mkTransfer (request_id t) (t_name_key t) (t_endpoint_id t) (expected_generation t)
    (source_principal_key t) (source_session_key t) (destination_principal_key t)
    (destination_session_key t) (destination_agent_type t) s reason g.

(** The row the request was made for, unchanged. *)
Definition at_preimage (t : TransferRequest) (row : option AgentMailbox) : bool :=
  match row with
  | Some m => eqb (endpoint_id m) (t_endpoint_id t) && (generation m =? expected_generation t)
              && eqb (principal_key m) (source_principal_key t)
              && eqb (session_key m) (source_session_key t)
  | None => false
  end.

(** [approve_transfer] *)
Definition approve_transfer (id : uuid) : M MailboxDB TransferResult :=
  catch (transaction (
    d ← get_st;
    match transfers d !! id with
    | None => mret (mkTransferResult t_denied (Some id) None None None (Some "mailbox_not_found"))
    | Some t =>
        row ← select_one (named (t_name_key t));
        if negb (eqb (t_status t) PENDING) then mret (resolved id t row)
        else if negb (at_preimage t row) then
          put_transfer id (with_transfer_status STALE (Some "mailbox_changed") (resulting_generation t) t);;
          mret (mkTransferResult t_stale (Some id) None None None (Some "mailbox_changed"))
        else
          collision ← other_name (t_name_key t) (destination_principal_key t)
                        (destination_session_key t);
          if is_some collision then
            put_transfer id (with_transfer_status CONFLICT (Some "session_already_registered")
                            (resulting_generation t) t);;
            mret (mkTransferResult t_conflict (Some id) None None None
                    (Some "session_already_registered"))
          else
            match row with
            | None => throw AssertionError ""
            | Some m =>
                let generation := generation m + 1 in
                moved ← move m (with_owner (destination_principal_key t)
                  (destination_session_key t) (destination_agent_type t) generation);
                match moved with
                | None => throw RuntimeError "locked mailbox changed"
                | Some m' =>
                    put_transfer id (with_transfer_status APPROVED None (Some generation) t);;
                    mret (mkTransferResult t_approved (Some id) (Some (name m'))
                            (Some (endpoint_id m')) (Some generation) None)
                end
            end
    end))
    [IntegrityError; SQLAlchemyError; RuntimeError; TypeError; ValueError]
    (λ _, mret (transfer_unavailable (Some id))).

(** ** The fence of messages *)

(** [_current_agent_binding]: the row of the binding is still the same. *)
Definition binds (b m : AgentMailbox) : bool :=
  eqb (endpoint_id m) (endpoint_id b) && owned_by (principal_key b) (session_key b) m
  && (generation m =? generation b).
Definition current_agent_binding (b : AgentMailbox) (d : MailboxDB) : bool :=
  existsb (binds b) (mailboxes d).

(** ** Any call of the store *)

Inductive Call :=
  | c_register (fresh : uuid) (agent_name principal session : string)
  | c_takeover (fresh : uuid) (agent_name principal session : string) (allow : bool)
  | c_takeover_coordinator (principal session : string) (allow : bool)
  | c_request_transfer (agent_name principal session : string)
  | c_approve_transfer (id : uuid).

Definition run (c : Call) (d : MailboxDB) : MailboxDB :=
  match c with
  | c_register f n p s => (register_agent f n p s d).1
  | c_takeover f n p s a => (takeover f n p s a d).1
  | c_takeover_coordinator p s a => (takeover_coordinator p s a d).1
  | c_request_transfer n p s => (request_transfer n p s d).1
  | c_approve_transfer id => (approve_transfer id d).1
  end.

Definition run_all (cs : list Call) (d : MailboxDB) : MailboxDB := foldl (λ d c, run c d) d cs.

(** ** How the tables evolve *)

(** A row's next version: the same endpoint, with a new owner only in a later
    generation. *)
Definition succeeds (m m' : AgentMailbox) : Prop :=
  endpoint_id m' = endpoint_id m ∧ generation m ≤ generation m' ∧
  (generation m' = generation m → owner m' = owner m).

(** The tables keep their constraints, every row lives on, and a resolved
    transfer stays as it is. *)
Record evolves (d d' : MailboxDB) : Prop := {
  ev_constraints : constraints_ok (mailboxes d) = true → constraints_ok (mailboxes d') = true;
  ev_rows m : m ∈ mailboxes d → ∃ m', m' ∈ mailboxes d' ∧ succeeds m m';
  ev_transfers id t : transfers d !! id = Some t → t_status t ≠ PENDING → transfers d' !! id = Some t }.

#[export] Instance succeeds_preorder : PreOrder succeeds.
Proof.
  split; [done|]. intros m1 m2 m3 (H1 & H2 & H3) (H4 & H5 & H6). split; [congruence|].
  split; [lia|]. intros Hg. rewrite H6, H3; [done | lia | lia].
Qed.

#[export] Instance evolves_preorder : PreOrder evolves.
Proof.
  split.
  - intros d. split; [done | | done]. intros m Hm. by exists m.
  - intros d1 d2 d3 [H1 H2 H3] [H4 H5 H6]. split; [auto | | auto].
    intros m Hm. destruct (H2 m Hm) as (m' & Hm' & Hs). destruct (H5 m' Hm') as (m'' & Hm'' & Hs').
    exists m''. split; [done | by etrans].
Qed.

(** A computation whose every run evolves the tables. *)
Definition evolving {A} (m : M MailboxDB A) : Prop := ∀ d, evolves d (m d).1.

Lemma evolving_ret {A} (a : A) : evolving (mret a).
Proof. by intros d. Qed.
Lemma evolving_lift {A} (r : res A) : evolving (lift r).
Proof. by intros d. Qed.
Lemma evolving_throw {A} c msg : evolving (throw (A:=A) c msg).
Proof. by intros d. Qed.
Lemma evolving_get : evolving get_st.
Proof. by intros d. Qed.
Lemma evolving_select p : evolving (select_one p).
Proof. by intros d. Qed.

Lemma evolving_bind {A B} (m : M MailboxDB A) (f : A → M MailboxDB B) :
  evolving m → (∀ a, evolving (f a)) → evolving (m ≫= f).
Proof.
  intros Hm Hf d. specialize (Hm d). unfold mbind, M_bind. destruct (m d) as [d1 [a|e]]; cbn in *;
    [|done]. etrans; [exact Hm | apply Hf].
Qed.

Lemma evolving_transaction {A} (m : M MailboxDB A) : evolving m → evolving (transaction m).
Proof. intros Hm d. specialize (Hm d). unfold transaction. by destruct (m d) as [d1 [a|e]]. Qed.

Lemma evolving_catch {A} (m : M MailboxDB A) cs h :
  evolving m → (∀ e, evolving (h e)) → evolving (catch m cs h).
Proof.
  intros Hm Hh d. specialize (Hm d). unfold catch. destruct (m d) as [d1 [a|e]]; cbn in *; [done|].
  destruct (existsb _ cs); [|done]. etrans; [exact Hm | apply Hh].
Qed.

Lemma evolving_guarded {A} (a : A) m : evolving m → evolving (guarded a m).
Proof. intros Hm. apply evolving_catch; [done | intros e; apply evolving_ret]. Qed.

Lemma evolving_if {A} (b : bool) (m1 m2 : M MailboxDB A) :
  evolving m1 → evolving m2 → evolving (if b then m1 else m2).
Proof. by destruct b. Qed.

Lemma evolving_update p f :
  (∀ m, p m = true → succeeds m (f m)) → evolving (update_where p f).
Proof.
  intros Hf d. unfold update_where, mbind, M_bind, get_st, write_rows.
  set (l := (λ m, if p m then f m else m) <$> mailboxes d).
  destruct (constraints_ok l) eqn:E; cbn; [|done]. split; cbn; [done | | done].
  intros m Hm. exists (if p m then f m else m). split.
  - apply (list_elem_of_fmap_2 (λ m, if p m then f m else m)), Hm.
  - destruct (p m) eqn:Hp; [by apply Hf | done].
Qed.

Lemma evolving_insert m : evolving (insert_mailbox m).
Proof.
  intros d. unfold insert_mailbox. destruct (existsb _ _); [done|]. unfold write_rows.
  destruct (constraints_ok _) eqn:E; cbn; [|done]. split; cbn; [done | | done].
  intros m' Hm'. exists m'. split; [set_solver | done].
Qed.

Lemma evolving_move m f :
  (∀ r, generation r = generation m → succeeds r (f r)) → evolving (move m f).
Proof.
  intros Hf. apply evolving_bind; [apply evolving_get|]. intros d0.
  apply evolving_bind; [|intros _; apply evolving_lift]. apply evolving_update.
  intros r Hr. apply andb_true_iff in Hr as [_ Hr%Z.eqb_eq]. by apply Hf.
Qed.

Lemma succeeds_owner p s t (m r : AgentMailbox) :
  generation r = generation m → succeeds r (with_owner p s t (generation m + 1) r).
Proof. intros Hg. split; [done|]. cbn. split; lia. Qed.

Lemma succeeds_rename k n t r : succeeds r t → succeeds r (with_name k n t).
Proof. done. Qed.

Create HintDb evolving.
#[export] Hint Resolve evolving_ret evolving_lift evolving_throw evolving_get evolving_select
  evolving_insert : evolving.

(** One construct of an operation. *)
Ltac evolve :=
  repeat first
    [ progress intros
    | solve [auto with evolving]
    | apply evolving_move; intros; first [apply succeeds_rename, succeeds_owner | apply succeeds_owner]; done
    | apply evolving_update; intros; done
    | apply evolving_guarded | apply evolving_transaction
    | apply evolving_bind | apply evolving_if
    | case_match ].

Lemma evolving_register f n p s : evolving (register_agent f n p s).
Proof. unfold register_agent, retype, view_ok. evolve. Qed.

Lemma evolving_takeover f n p s a : evolving (takeover f n p s a).
Proof. unfold takeover, claim_name, retype, view_ok, other_name. evolve. Qed.

Lemma evolving_takeover_coordinator p s a : evolving (takeover_coordinator p s a).
Proof. unfold takeover_coordinator, view_ok, other_name. evolve. Qed.

Lemma evolves_put id t d :
  (∀ t0, transfers d !! id = Some t0 → t_status t0 = PENDING ∨ t0 = t) →
  evolves d (put_transfer id t d).1.
Proof.
  intros Ht. split; cbn; [done | intros m Hm; by exists m |].
  intros id' t' Ht' Hp. destruct (decide (id' = id)) as [->|Hne].
  - rewrite lookup_insert_eq. destruct (Ht t' Ht') as [?| ->]; done.
  - by rewrite lookup_insert_ne.
Qed.

Lemma evolves_bind {A B} (m : M MailboxDB A) (f : A → M MailboxDB B) d :
  evolves d (m d).1 → (∀ a d1, m d = (d1, Ok a) → evolves d1 (f a d1).1) →
  evolves d ((m ≫= f) d).1.
Proof.
  intros Hm Hf. unfold mbind, M_bind. destruct (m d) as [d1 [a|e]]; cbn in *; [|done].
  etrans; [exact Hm | by apply Hf].
Qed.

Lemma evolves_get {B} (f : MailboxDB → M MailboxDB B) :
  (∀ d, evolves d (f d d).1) → evolving (get_st ≫= f).
Proof. intros Hf d. apply Hf. Qed.

Lemma evolving_request n p s : evolving (request_transfer n p s).
Proof.
  unfold request_transfer. apply evolving_guarded. do 2 (apply evolving_bind; [apply evolving_lift|intros ?]).
  apply evolving_transaction. apply evolving_bind; [apply evolving_select|]. intros [m|]; [|apply evolving_ret].
  apply evolving_if; [apply evolving_ret|]. apply evolving_bind; [apply evolving_select|]. intros prior.
  apply evolving_if; [apply evolving_ret|]. apply evolves_get. intros d.
  apply evolves_bind; [|intros ? ? _; done]. apply evolves_put. intros t Ht. right. by rewrite Ht.
Qed.

Lemma update_transfers p f d : transfers (update_where p f d).1 = transfers d.
Proof. unfold update_where, mbind, M_bind, get_st, write_rows. by destruct (constraints_ok _). Qed.

Lemma move_transfers m f d : transfers (move m f d).1 = transfers d.
Proof.
  unfold move. unfold mbind at 1, M_bind at 1. cbn. unfold mbind, M_bind.
  pose proof (update_transfers (λ r, named (name_key m) r && (generation r =? generation m)) f d) as H.
  destruct (update_where _ f d) as [d1 [a|e]]; exact H.
Qed.

Lemma select_state p d d1 a : select_one p d = (d1, Ok a) → d1 = d.
Proof. by intros [= <- _]. Qed.

Lemma evolving_approve id : evolving (approve_transfer id).
Proof.
  unfold approve_transfer. apply evolving_catch; [|intros e; apply evolving_ret].
  apply evolving_transaction, evolves_get. intros d.
  destruct (transfers d !! id) as [t|] eqn:Ht; [|apply evolving_ret].
  apply evolves_bind; [apply evolving_select|]. intros row d1 ->%select_state.
  destruct (eqb (t_status t) PENDING) eqn:Hp; cbn [negb]; [|apply evolving_ret].
  assert (Hput : ∀ t' d2, transfers d2 = transfers d → evolves d2 (put_transfer id t' d2).1).
  { intros t' d2 Hd2. apply evolves_put. rewrite Hd2, Ht. intros t0 [= <-]. left. by apply eqb_true. }
  destruct (negb (at_preimage t row)); [apply evolves_bind; [by apply Hput | done]|].
  apply evolves_bind; [apply evolving_select|]. intros collision d2 ->%select_state.
  destruct (is_some collision); [apply evolves_bind; [by apply Hput | done]|].
  destruct row as [m|]; [|apply evolving_throw].
  apply evolves_bind; [apply evolving_move; intros; by apply succeeds_owner|].
  intros moved d3 Hm. destruct moved as [m'|]; [|apply evolving_throw].
  apply evolves_bind; [apply Hput | done].
  rewrite <- (move_transfers m (with_owner (destination_principal_key t)
    (destination_session_key t) (destination_agent_type t) (generation m + 1)) d). by rewrite Hm.
Qed.

Lemma run_evolves c d : evolves d (run c d).
Proof.
  destruct c; cbn; [apply evolving_register | apply evolving_takeover
    | apply evolving_takeover_coordinator | apply evolving_request | apply evolving_approve].
Qed.

Lemma run_all_evolves cs d : evolves d (run_all cs d).
Proof.
  unfold run_all. revert d. induction cs as [|c cs IH]; intros d; [done|].
  cbn. etrans; [apply run_evolves | apply IH].
Qed.

(** *** Constraints *)

Lemma constraints_spec l :
  constraints_ok l = true ↔
  NoDup (name_key <$> l) ∧ NoDup (endpoint_id <$> l) ∧ NoDup (owner <$> l) ∧
  ∀ m, m ∈ l → 1 ≤ generation m.
Proof.
  unfold constraints_ok, no_dup. rewrite !andb_true_iff, !bool_decide_eq_true, forallb_forall.
  setoid_rewrite Z.leb_le. setoid_rewrite list_elem_of_In. tauto.
Qed.

(** The rows of an endpoint. *)
Lemma binds_spec b m :
  binds b m = true ↔ endpoint_id m = endpoint_id b ∧ owner m = owner b ∧ generation m = generation b.
Proof.
  unfold binds, owned_by, owner. rewrite !andb_true_iff, !eqb_true, Z.eqb_eq.
  split; [intros [[? [? ?]] ?] | intros (? & [= ? ?] & ?)]; intuition congruence.
Qed.

Lemma current_spec b d :
  current_agent_binding b d = true ↔ ∃ m, m ∈ mailboxes d ∧ binds b m = true.
Proof. apply existsb_true. Qed.

(** *** Names *)

(** The form of a slug: key characters, and single dashes between them;
    [after_dash] tells whether a dash came before. *)
Fixpoint slug_form (after_dash : bool) (s : string) : bool :=
  match s with
  | EmptyString => true
  | String c s' =>
      if is_key_char c then slug_form false s' else is_dash c && negb after_dash && slug_form true s'
  end.

Lemma fold_char_key c : is_key_char c = true → fold_char c = Some (String c "").
Proof. intros H. unfold fold_char. by rewrite H. Qed.

Lemma fold_char_dash c : is_key_char c = false → is_dash c = true → fold_char c = None.
Proof. intros _ Hd%Ascii.eqb_eq. by subst. Qed.

Lemma fold_char_form c t b s :
  fold_char c = Some t → slug_form b (String.append t s) = slug_form false s.
Proof.
  destruct c as [[] [] [] [] [] [] [] []]; vm_compute fold_char; try done; intros [= <-]; done.
Qed.

Lemma slug_sub_form s : ∀ b, slug_form b (slug_sub b s) = true.
Proof.
  induction s as [|c s IH]; intros b; [done|]. cbn [slug_sub].
  destruct (fold_char c) as [t|] eqn:E; [by rewrite (fold_char_form c)|].
  destruct b; [done|]. apply IH.
Qed.

Lemma slug_form_sub s : ∀ b, slug_form b s = true → slug_sub b s = s.
Proof.
  induction s as [|c s IH]; intros b; [done|]. cbn [slug_form slug_sub].
  destruct (is_key_char c) eqn:Hk.
  - intros Hs. rewrite fold_char_key by done. cbn. by rewrite IH.
  - rewrite !andb_true_iff, negb_true_iff. intros [[Hd ->] Hs]. rewrite fold_char_dash by done.
    apply Ascii.eqb_eq in Hd. subst c. by rewrite IH.
Qed.

Lemma slug_form_weaken s : slug_form true s = true → slug_form false s = true.
Proof. destruct s as [|c s]; [done|]. cbn. destruct (is_key_char c); [done|]. by rewrite andb_false_r. Qed.

Lemma lstrip_form s : ∀ b, slug_form b s = true → slug_form true (lstrip is_dash s) = true.
Proof.
  induction s as [|c s IH]; intros b; [done|]. cbn. destruct (is_key_char c) eqn:Hk.
  - intros Hs. destruct (is_dash c); [by apply (IH false)|]. cbn. by rewrite Hk.
  - rewrite !andb_true_iff. intros [[-> _] Hs]. by apply (IH true).
Qed.

Lemma rstrip_form s : ∀ b, slug_form b s = true → slug_form b (rstrip is_dash s) = true.
Proof.
  induction s as [|c s IH]; intros b; [done|]. cbn [slug_form rstrip].
  destruct (is_key_char c) eqn:Hk; intros Hs.
  - specialize (IH false Hs). destruct (rstrip is_dash s); [destruct (is_dash c); cbn; by rewrite ?Hk|].
    cbn [slug_form]. by rewrite Hk.
  - rewrite !andb_true_iff in Hs. destruct Hs as [[Hd Hb] Hs]. specialize (IH true Hs).
    destruct (rstrip is_dash s) as [|c' t]; [by rewrite Hd|]. cbn [slug_form]. rewrite Hk, Hd, Hb.
    exact IH.
Qed.

Lemma rstrip_idem p s : rstrip p (rstrip p s) = rstrip p s.
Proof.
  induction s as [|c s IH]; [done|]. cbn. destruct (rstrip p s) as [|c' t] eqn:E.
  - destruct (p c) eqn:Hp; [done|]. cbn. by rewrite Hp.
  - cbn [rstrip]. cbn [rstrip] in IH. by rewrite IH.
Qed.

Lemma lstrip_first p s : first_is (λ c, negb (p c)) s = true → lstrip p s = s.
Proof. destruct s as [|c s]; [done|]. cbn. by destruct (p c). Qed.

Lemma slug_chars s : ∀ b, slug_form b s = true →
  all_chars (λ c, is_key_char c || Ascii.eqb c "." || is_dash c) s = true.
Proof.
  induction s as [|c s IH]; intros b; [done|]. cbn. destruct (is_key_char c) eqn:Hk.
  - apply IH.
  - rewrite !andb_true_iff. intros [[-> _] Hs]. rewrite orb_true_r. split; [done | by apply (IH true)].
Qed.

Lemma slug_no_space s : ∀ b word, slug_form b s = true →
  py_split word s = (if truthy (String.append word s) then [String.append word s] else []).
Proof.
  induction s as [|c s IH]; intros b word Hs; cbn [py_split].
  - by rewrite str_app_nil.
  - assert (Hsp : is_space c = false).
    { cbn in Hs. destruct (is_key_char c) eqn:Hk.
      - revert Hk. destruct c as [[] [] [] [] [] [] [] []]; by vm_compute.
      - apply andb_true_iff in Hs as [[Hd%Ascii.eqb_eq _]%andb_true_iff _]. by subst c. }
    rewrite Hsp. cbn in Hs.
    assert (Hs' : ∃ b', slug_form b' s = true).
    { destruct (is_key_char c); [eauto|]. apply andb_true_iff in Hs as [_ Hs]. eauto. }
    destruct Hs' as [b' Hs']. rewrite (IH b') by done. by rewrite <- str_app_assoc.
Qed.

(** C37: a key is a valid, bounded and canonical name: it satisfies the
    constraints of the model that shows it, and it is its own key. *)
Theorem agent_name_key_valid v key :
  agent_name_key v = Ok key →
  name_key_ok key = true ∧ 1 <= py_len key <= 80 ∧ 1 <= py_len (visible_name v) <= 80 ∧
  agent_name_key key = Ok key.
Proof.
  unfold agent_name_key. set (k := rstrip _ _). destruct (_ || _ : bool) eqn:E; [done|]. intros [= <-].
  rewrite !orb_false_iff, !negb_false_iff, !Z.ltb_ge in E. destruct E as [[[[Ev Ek] Hf] Hlv] Hlk].
  assert (Hform : slug_form true k = true).
  { apply rstrip_form, (lstrip_form _ false), slug_sub_form. }
  assert (Hlen : ∀ s, truthy s = true → 1 <= py_len s).
  { intros [|c s]; [done|]. unfold py_len. cbn [String.length]. lia. }
  assert (Hvis : visible_name k = k).
  { unfold visible_name. rewrite (slug_no_space k true) by done. change (String.append "" k) with k. by rewrite Ek. }
  assert (Hkey : rstrip is_dash (lstrip is_dash (slug_sub false k)) = k).
  { rewrite slug_form_sub by by apply slug_form_weaken. rewrite lstrip_first; [apply rstrip_idem|].
    revert Hf. destruct k as [|c k']; [done|]. cbn [first_is]. unfold is_dash.
    destruct (Ascii.eqb_spec c "-") as [->|]; done. }
  split; [unfold name_key_ok; rewrite Hf, (slug_chars k true) by done; done|].
  split; [auto|]. split; [auto|]. rewrite Hvis, Hkey, Ek, Hf.
  apply Z.ltb_ge in Hlk. by rewrite Hlk.
Qed.

(** C28: the fence.  Whatever the store does afterwards, while a binding is
    current its endpoint and generation belong to it alone; once another
    owner or a later generation has replaced it, it is never current again;
    and every mailbox keeps its endpoint, with a generation that never
    decreases and a new owner only in a later generation. *)
Theorem mailbox_binding_fence b b' d cs1 cs2 :
  constraints_ok (mailboxes d) = true → current_agent_binding b d = true →
  let d1 := run_all cs1 d in let d2 := run_all cs2 d1 in
  constraints_ok (mailboxes d2) = true ∧
  (∀ m, m ∈ mailboxes d → ∃ m', m' ∈ mailboxes d2 ∧ succeeds m m') ∧
  (current_agent_binding b' d2 = true → endpoint_id b' = endpoint_id b →
     generation b' = generation b → owner b' = owner b) ∧
  (current_agent_binding b d1 = false → current_agent_binding b d2 = false).
Proof.
  intros Hc (m & Hm & Hb)%current_spec d1 d2.
  assert (H01 : evolves d d1) by apply run_all_evolves.
  assert (H12 : evolves d1 d2) by apply run_all_evolves.
  assert (H02 : evolves d d2) by by etrans.
  pose proof (ev_constraints _ _ H01 Hc) as Hc1. pose proof (ev_constraints _ _ H02 Hc) as Hc2.
  apply binds_spec in Hb as (He & Ho & Hg).
  split; [done|]. split; [apply (ev_rows _ _ H02)|]. split.
  - intros (m2' & Hm2' & (He2 & Ho2 & Hg2)%binds_spec)%current_spec Hee Hgg.
    destruct (ev_rows _ _ H02 m Hm) as (m2 & Hm2 & Hs1 & Hs2 & Hs3).
    apply constraints_spec in Hc2 as (_ & Hend & _ & _).
    assert (m2 = m2') as -> by (apply (NoDup_fmap_inj endpoint_id (mailboxes d2)); congruence).
    rewrite <- Ho2, <- Ho. apply Hs3. lia.
  - intros Hno. apply not_true_iff_false. intros (m2' & Hm2' & (He2 & Ho2 & Hg2)%binds_spec)%current_spec.
    apply not_true_iff_false in Hno. apply Hno, current_spec.
    destruct (ev_rows _ _ H01 m Hm) as (m1 & Hm1 & Hs1 & Hs2 & Hs3).
    destruct (ev_rows _ _ H12 m1 Hm1) as (m2 & Hm2 & Hs4 & Hs5 & Hs6).
    apply constraints_spec in Hc2 as (_ & Hend & _ & _).
    assert (m2 = m2') as -> by (apply (NoDup_fmap_inj endpoint_id (mailboxes d2)); congruence).
    exists m1. split; [done|]. apply binds_spec. split; [congruence|].
    assert (generation m1 = generation m) by lia. split; [rewrite Hs3 by lia; congruence | lia].
Qed.

(** *** Takeover *)

(** A computation that leaves the tables alone when it raises. *)
Definition atomic {A} (m : M MailboxDB A) : Prop := ∀ d d' e, m d = (d', Err e) → d' = d.

Lemma atomic_lift {A B} (r : res A) (f : A → M MailboxDB B) :
  (∀ a, atomic (f a)) → atomic (lift r ≫= f).
Proof. intros Hf d d' e. destruct r as [a|e0]; [apply Hf | by intros [= <- _]]. Qed.

Lemma atomic_transaction {A} (m : M MailboxDB A) : atomic (transaction m).
Proof. intros d d' e. apply transaction_err. Qed.

Lemma guarded_cases {A} (a : A) m d d' r :
  atomic m → guarded a m d = (d', r) → d' = d ∧ (r = Ok a ∨ ∃ e, r = Err e) ∨ m d = (d', r).
Proof.
  intros Hm. unfold guarded, catch. destruct (m d) as [d1 [b|e]] eqn:E; [intros [= <- <-]; auto|].
  apply Hm in E as ->. destruct (existsb _ _); intros [= <- <-]; eauto.
Qed.

Lemma select_Some p d d' m :
  select_one p d = (d', Ok (Some m)) → d' = d ∧ List.filter p (mailboxes d) = [m].
Proof. intros [= <- H]. by apply one_or_none_Some in H. Qed.

Lemma select_None p d d' :
  select_one p d = (d', Ok None) → d' = d ∧ List.filter p (mailboxes d) = [].
Proof. intros [= <- H]. by apply one_or_none_None in H. Qed.

Lemma write_rows_Ok l d d' a :
  write_rows l d = (d', Ok a) → d' = mkMailboxDB l (transfers d) ∧ constraints_ok l = true.
Proof. unfold write_rows. destruct (constraints_ok l) eqn:E; [by intros [= <- _] | done]. Qed.

Lemma update_Ok p f d d' a m :
  List.filter p (mailboxes d) = [m] → update_where p f d = (d', Ok a) →
  d' = mkMailboxDB (replace_row m (f m) (mailboxes d)) (transfers d) ∧
  constraints_ok (mailboxes d') = true.
Proof.
  intros Hm (d1 & r & [-> ->]%get_st_Ok & H)%M_bind_Ok.
  apply write_rows_Ok in H as [-> H]. by rewrite (update_unique _ _ _ m) in * by done.
Qed.

Lemma named_true k m : named k m = true ↔ name_key m = k.
Proof. apply eqb_true. Qed.

Lemma owned_by_true p s m : owned_by p s m = true ↔ owner m = (p, s).
Proof. unfold owned_by, owner. rewrite andb_true_iff, !eqb_true. split; [by intros [-> ->] | by intros [= -> ->]]. Qed.

Lemma named_unique l k m :
  constraints_ok l = true → m ∈ l → name_key m = k → List.filter (named k) l = [m].
Proof.
  intros (Hn & _)%constraints_spec Hm Hk. apply (filter_unique name_key); [done | | done | by apply named_true].
  intros y _ Hy%named_true. congruence.
Qed.

Lemma view_Ok m d d' r : view_ok m d = (d', Ok r) → d' = d ∧ r = mb_ok m ∧ mailbox_ok m = true.
Proof.
  intros (d1 & v & [Hv ->]%lift_Ok & [-> ->]%mret_Ok)%M_bind_Ok. revert Hv. unfold _view.
  destruct (mailbox_ok m) eqn:E; [by intros [= ->] | done].
Qed.

Lemma retype_Ok k t d d' r m :
  List.filter (named k) (mailboxes d) = [m] → retype k t d = (d', Ok r) →
  d' = mkMailboxDB (replace_row m (with_agent_type t m) (mailboxes d)) (transfers d) ∧
  r = mb_ok (with_agent_type t m) ∧ mailbox_ok (with_agent_type t m) = true.
Proof.
  intros Hm H. unfold retype in H. apply M_bind_Ok in H as (d1 & a & Hu & H).
  apply (update_Ok _ _ _ _ _ m Hm) in Hu as [Hd1 _].
  apply M_bind_Ok in H as (d2 & row & Hs & H). destruct row as [m'|]; [|done].
  apply select_Some in Hs as [-> Hf]. apply view_Ok in H as (-> & -> & Hv).
  assert (m' = with_agent_type t m) as ->; [|done].
  rewrite Hd1 in Hf. cbn [mailboxes] in Hf. rewrite filter_replace, Hm in Hf by done.
  revert Hf. unfold replace_row. cbn. rewrite eqb_refl. congruence.
Qed.

(** The row a takeover works on: a row of the table, the caller's row under
    its new name, or a fresh row of the caller. *)
Definition claimed (fresh : uuid) (key display principal session : string) (t : AgentType)
    (d d1 : MailboxDB) (m : AgentMailbox) : Prop :=
  transfers d1 = transfers d ∧ List.filter (named key) (mailboxes d1) = [m] ∧
  (d1 = d ∨
   (m ∉ mailboxes d) ∧ owner m = (principal, session) ∧
   (m = mkMailbox key display fresh principal session 1 (Some t) ∧ mailboxes d1 = mailboxes d ++ [m] ∨
    (∃ m0, m0 ∈ mailboxes d ∧ owner m0 = (principal, session) ∧ m = with_name key display m0 ∧
       mailboxes d1 = replace_row m0 m (mailboxes d)))).

Lemma insert_Ok m d d1 a :
  insert_mailbox m d = (d1, Ok a) →
  d1 = d ∨ d1 = mkMailboxDB (mailboxes d ++ [m]) (transfers d) ∧ constraints_ok (mailboxes d1) = true.
Proof.
  unfold insert_mailbox. destruct (existsb _ _); [intros [= <- _]; auto|].
  intros [-> H]%write_rows_Ok. auto.
Qed.

Lemma claim_name_Ok f k n p s t d d1 r :
  constraints_ok (mailboxes d) = true → claim_name f k n p s t d = (d1, Ok r) →
  match r with
  | inl answer => d1 = d ∧ ∀ v, answer ≠ mb_ok v
  | inr m => claimed f k n p s t d d1 m
  end.
Proof.
  intros Hc H. unfold claim_name in H. apply M_bind_Ok in H as (d2 & row & Hs & H). destruct row as [m|].
  - apply select_Some in Hs as [-> Hf]. apply mret_Ok in H as [-> ->]. split; [done|]. split; [done | by left].
  - apply select_None in Hs as [-> Hf]. apply M_bind_Ok in H as (d2 & prior & Hp & H).
    assert (Hno : ∀ m, name_key m = k → m ∉ mailboxes d).
    { intros m Hk Hm. rewrite (named_unique _ k m) in Hf by done. done. }
    case_match; [apply mret_Ok in H as [-> ->]; by apply select_state in Hp as ->|]. apply M_bind_Ok in H as (d3 & [] & Hw & H).
    apply M_bind_Ok in H as (d4 & row & Hs & H). apply mret_Ok in H as [-> ->].
    destruct prior as [m0|].
    + apply select_Some in Hp as [-> Hfo]. apply filter_one in Hfo as [Hm0 Ho%owned_by_true].
      apply (update_Ok _ _ _ _ _ m0) in Hw as [-> Hcs]; [|by apply named_unique].
      assert (Hin : with_name k n m0 ∈ replace_row m0 (with_name k n m0) (mailboxes d))
        by (apply replace_row_elem; auto).
      destruct row as [m|]; [apply select_Some in Hs as [-> Hfm] | apply select_None in Hs as [-> Hfm]];
        cbn [mailboxes] in Hfm, Hcs; rewrite (named_unique _ k _ Hcs Hin) in Hfm by done; [|done].
      injection Hfm as <-. split; [done|]. split; [by apply (named_unique _ k _ Hcs Hin)|]. right.
      split; [by apply Hno|]. split; [done|]. right. by exists m0.
    + apply select_None in Hp as [-> Hfo]. apply insert_Ok in Hw as [->|[-> Hcs]].
      { destruct row as [m|]; [apply select_Some in Hs as [_ Hs]; by rewrite Hf in Hs|].
        by apply select_None in Hs as [-> _]. }
      set (m0 := mkMailbox k n f p s 1 (Some t)) in *. cbn [mailboxes] in Hcs.
      assert (Hin : m0 ∈ mailboxes d ++ [m0]) by set_solver.
      destruct row as [m|]; [apply select_Some in Hs as [-> Hfm] | apply select_None in Hs as [-> Hfm]];
        cbn [mailboxes] in Hfm; rewrite (named_unique _ k _ Hcs Hin) in Hfm by done; [|done].
      injection Hfm as <-. split; [done|]. split; [by apply (named_unique _ k _ Hcs Hin)|]. right.
      split; [by apply Hno|]. split; [done|]. by left.
Qed.

(** [move] of the row a query returned. *)
Lemma move_Ok k m f d d' r :
  List.filter (named k) (mailboxes d) = [m] → move m f d = (d', Ok r) →
  r = Some (f m) ∧ d' = mkMailboxDB (replace_row m (f m) (mailboxes d)) (transfers d) ∧
  constraints_ok (mailboxes d') = true.
Proof.
  intros Hf (d0 & d1 & [-> ->]%get_st_Ok & H)%M_bind_Ok. apply M_bind_Ok in H as (d1 & [] & Hu & H).
  pose proof (filter_one _ _ _ Hf) as [Hm Hk%named_true].
  assert (Hf' : List.filter (λ r, named (name_key m) r && (generation r =? generation m)) (mailboxes d) = [m]).
  { assert (Hand : ∀ l, List.filter (λ r, named (name_key m) r && (generation r =? generation m)) l
      = List.filter (λ r, generation r =? generation m) (List.filter (named k) l)).
    { intros l. rewrite Hk. induction l as [|x l IH]; [done|]. cbn. destruct (named k x); cbn; [|done].
      by rewrite IH. }
    rewrite Hand, Hf. cbn. by rewrite Z.eqb_refl. }
  apply (update_Ok _ _ _ _ _ m Hf') in Hu as [Hd Hc]. apply lift_Ok in H as [Hr <-].
  rewrite Hf' in Hr. by injection Hr as <-.
Qed.

(** What an [ok] answer of [takeover] promises: the mailbox is stored under
    the name for the caller, in the endpoint and generation it had when the
    caller owned it, in the next generation when it was allowed to move, in
    the first generation of a fresh endpoint when it is new; no other row
    changed. *)
Definition taken (fresh : uuid) (key principal session : string) (t : AgentType) (allow : bool)
    (d d' : MailboxDB) (v : AgentMailbox) : Prop :=
  transfers d' = transfers d ∧ mailbox_ok v = true ∧ name_key v = key ∧
  owner v = (principal, session) ∧ agent_type v = Some t ∧
  (mailboxes d' = mailboxes d ++ [v] ∧ endpoint_id v = fresh ∧ generation v = 1 ∨
   (∃ m, m ∈ mailboxes d ∧ mailboxes d' = replace_row m v (mailboxes d) ∧
      endpoint_id v = endpoint_id m ∧
      (owner m = (principal, session) ∧ generation v = generation m ∨
       owner m ≠ (principal, session) ∧ generation v = generation m + 1 ∧ name_key m = key ∧
         (principal_key m = principal ∨ allow = true)))).

(** The last step of a takeover the caller needs no move for. *)
Lemma claimed_retype f k n p s t a d d1 d' m r :
  claimed f k n p s t d d1 m → owned_by p s m = true → retype k t d1 = (d', Ok r) →
  ∃ v, r = mb_ok v ∧ taken f k p s t a d d' v.
Proof.
  intros (Ht & Hf & Hd) Ho%owned_by_true Hr. pose proof (filter_one _ _ _ Hf) as [Hm Hk%named_true].
  apply (retype_Ok _ _ _ _ _ m) in Hr as (-> & -> & Hv); [|done].
  exists (with_agent_type t m). split; [done|]. do 5 (split; [done|]).
  destruct Hd as [->|(Hno & _ & [[-> Hd]|(m0 & Hm0 & Ho0 & -> & Hd)])].
  - right. exists m. split; [done|]. split; [done|]. split; [done|]. by left.
  - left. split; [|done]. cbn [mailboxes]. rewrite Hd. by apply replace_row_last.
  - right. exists m0. split; [done|]. cbn [mailboxes]. rewrite Hd, replace_row_twice by by left.
    split; [done|]. split; [done|]. by left.
Qed.

(** A takeover is exactly an authorised change of owner: every answer
    other than [ok] leaves the tables as they were, and [ok] means what
    [taken] says - nobody but the same principal, or a caller that may change
    it, moves a mailbox, always in the next generation. *)
Theorem takeover_spec f n p s a d d' r :
  constraints_ok (mailboxes d) = true → takeover f n p s a d = (d', r) →
  match r with
  | Ok (mb_ok v) => ∃ key, agent_name_key n = Ok key ∧
      taken f key p (sha256_hex s) (session_agent_type s) a d d' v
  | _ => d' = d
  end.
Proof.
  intros Hc H. apply guarded_cases in H as [[-> [->|[e ->]]]|H]; try done;
    [|do 2 (apply atomic_lift; intros ?); apply atomic_transaction].
  destruct (agent_name_key n) as [k|e]; [rewrite lift_bind_Ok in H | by injection H as <- <-].
  unfold chat_session_key in H.
  destruct (negb (truthy s) || (4096 <? py_len s)); [by injection H as <- <-|].
  rewrite lift_bind_Ok in H. destruct r as [r|e]; [|by apply transaction_err in H].
  rewrite transaction_ok in H. apply M_bind_Ok in H as (d1 & c & Hcl & H).
  apply claim_name_Ok in Hcl; [|done]. destruct c as [answer|m].
  { destruct Hcl as [-> Hne]. apply mret_Ok in H as [-> ->]. destruct answer; try done. by destruct (Hne m). }
  destruct (negb (eqb (principal_key m) p) && negb a) eqn:Hp.
  { apply mret_Ok in H as [-> ->]. destruct Hcl as (_ & _ & [->|(_ & Ho & _)]); [done|].
    injection Ho as Hpk _. rewrite (proj2 (eqb_true _ _) Hpk) in Hp. done. }
  destruct (owned_by p (sha256_hex s) m) eqn:Ho.
  { apply (claimed_retype f k (visible_name n) p (sha256_hex s) (session_agent_type s) a d d1 d' m r) in H as (v & -> & H); [|exact Hcl | exact Ho].
    by exists k. }
  destruct Hcl as (_ & Hf & [->|(_ & Ho' & _)]); [|apply owned_by_true in Ho'; congruence].
  pose proof (filter_one _ _ _ Hf) as [Hm Hk%named_true].
  apply M_bind_Ok in H as (d1 & prior & Hpr & H). apply select_state in Hpr as ->.
  destruct (is_some prior); [by apply mret_Ok in H as [-> ->]|].
  apply M_bind_Ok in H as (d1 & moved & Hmv & H). apply (move_Ok k) in Hmv as (-> & -> & _); [|done].
  apply view_Ok in H as (-> & -> & Hv). exists k. split; [done|]. do 5 (split; [done|]). right. exists m.
  split; [done|]. split; [done|]. split; [done|]. right.
  split; [rewrite <- owned_by_true; congruence|]. split; [done|]. split; [done|].
  apply andb_false_iff in Hp as [Hp|Hp]; apply negb_false_iff in Hp; [left; by apply eqb_true | by right].
Qed.

(** *** Transfers *)

Lemma select_named k d :
  constraints_ok (mailboxes d) = true → ∃ row, select_one (named k) d = (d, Ok row).
Proof.
  intros Hc. unfold select_one. destruct (List.filter (named k) (mailboxes d)) as [|m l] eqn:E; [by exists None|].
  assert (Hm : In m (List.filter (named k) (mailboxes d))) by (rewrite E; by left).
  apply filter_In in Hm as [Hm%list_elem_of_In Hk%named_true].
  rewrite (named_unique _ k m) in E by done. injection E as <-. by exists (Some m).
Qed.

(** A request that is approved stays approved, and is answered the same. *)
Lemma approve_again id t d :
  constraints_ok (mailboxes d) = true → transfers d !! id = Some t → t_status t = APPROVED →
  ∃ r, approve_transfer id d = (d, Ok r) ∧ tr_status r = t_approved ∧
    tr_endpoint_id r = Some (t_endpoint_id t) ∧ tr_generation r = resulting_generation t.
Proof.
  intros Hc Ht Hs. destruct (select_named (t_name_key t) d Hc) as [row Hrow].
  exists (resolved id t row). unfold resolved. rewrite Hs. split; [|done].
  unfold approve_transfer, catch, transaction, mbind, M_bind, get_st. rewrite Ht, Hrow, Hs. cbn.
  unfold resolved. by rewrite Hs.
Qed.

(** The row of a pending request moves to its destination. *)
Definition transferred (id : uuid) (t : TransferRequest) (d d' : MailboxDB) (m' : AgentMailbox) : Prop :=
  ∃ m, m ∈ mailboxes d ∧ name_key m = t_name_key t ∧ at_preimage t (Some m) = true ∧
    m' = with_owner (destination_principal_key t) (destination_session_key t)
           (destination_agent_type t) (expected_generation t + 1) m ∧
    mailboxes d' = replace_row m m' (mailboxes d) ∧
    transfers d' = <[id := with_transfer_status APPROVED None (Some (generation m')) t]> (transfers d).

Lemma put_transfer_Ok id t d d' a :
  put_transfer id t d = (d', Ok a) → d' = mkMailboxDB (mailboxes d) (<[id := t]> (transfers d)).
Proof. by intros [= <- _]. Qed.

Lemma at_preimage_spec t row :
  at_preimage t row = true → ∃ m, row = Some m ∧ endpoint_id m = t_endpoint_id t ∧ generation m = expected_generation t.
Proof.
  destruct row as [m|]; [|done]. cbn. rewrite !andb_true_iff, !eqb_true, Z.eqb_eq. naive_solver.
Qed.

Lemma approve_Ok id d d' r :
  approve_transfer id d = (d', Ok r) →
  (tr_status r ≠ t_approved ∧ mailboxes d' = mailboxes d) ∨
  (∃ t, transfers d !! id = Some t ∧ t_status t = APPROVED ∧ d' = d ∧ tr_status r = t_approved ∧
     tr_endpoint_id r = Some (t_endpoint_id t) ∧ tr_generation r = resulting_generation t) ∨
  (∃ t m', transfers d !! id = Some t ∧ t_status t = PENDING ∧ transferred id t d d' m' ∧
     tr_status r = t_approved ∧ tr_endpoint_id r = Some (endpoint_id m') ∧
     tr_generation r = Some (generation m')).
Proof.
  unfold approve_transfer. unfold catch. destruct (transaction _ d) as [d1 [r0|e]] eqn:H.
  2:{ apply transaction_err in H as ->. destruct (existsb _ _); [intros [= <- <-] | done]. by left. }
  intros [= <- <-]. rewrite transaction_ok in H. apply M_bind_Ok in H as (d0 & d0' & [-> ->]%get_st_Ok & H).
  destruct (transfers d !! id) as [t|] eqn:Ht; [|apply mret_Ok in H as [-> ->]; by left].
  apply M_bind_Ok in H as (d2 & row & Hrow & H). pose proof (select_state _ _ _ _ Hrow) as ->.
  destruct (eqb (t_status t) PENDING) eqn:Hp; cbn [negb] in H.
  2:{ apply mret_Ok in H as [-> ->]. unfold resolved. rewrite eqb_false in Hp.
      destruct (t_status t) eqn:Hs; try (by left); right. left. by exists t. }
  rewrite eqb_true in Hp. destruct (at_preimage t row) eqn:Hpre; cbn [negb] in H.
  2:{ apply M_bind_Ok in H as (d2 & [] & Hput & H). apply put_transfer_Ok in Hput as ->.
      apply mret_Ok in H as [-> ->]. by left. }
  destruct (at_preimage_spec _ _ Hpre) as (m & -> & He & Hg). apply select_Some in Hrow as [_ Hf].
  apply M_bind_Ok in H as (d2 & c & Hcol & H). apply select_state in Hcol as ->.
  destruct (is_some c).
  { apply M_bind_Ok in H as (d2 & [] & Hput & H). apply put_transfer_Ok in Hput as ->.
    apply mret_Ok in H as [-> ->]. by left. }
  apply M_bind_Ok in H as (d2 & moved & Hmv & H). apply (move_Ok (t_name_key t)) in Hmv as (-> & -> & _); [|done].
  apply M_bind_Ok in H as (d2 & [] & Hput & H). apply put_transfer_Ok in Hput as ->.
  apply mret_Ok in H as [-> ->]. right. right.
  pose proof (filter_one _ _ _ Hf) as [Hm Hk%named_true].
  eexists t, _. split; [done|]. split; [done|]. split; [|done]. exists m. rewrite <- Hg. done.
Qed.

(** A transfer is approved once.  Approval moves exactly the row the
    request was made for, in its next generation, or finds the request
    already approved and changes nothing; any other answer moves nothing.
    Whatever the store does afterwards, approving the request again answers
    the same endpoint and generation and changes nothing. *)
Theorem transfer_once id d d' r cs :
  constraints_ok (mailboxes d) = true → approve_transfer id d = (d', Ok r) →
  (tr_status r ≠ t_approved → mailboxes d' = mailboxes d) ∧
  (tr_status r = t_approved →
     (∃ t, transfers d !! id = Some t ∧
        (t_status t = APPROVED ∧ d' = d ∨ t_status t = PENDING ∧ ∃ m', transferred id t d d' m')) ∧
     let d2 := run_all cs d' in
     ∃ r2, approve_transfer id d2 = (d2, Ok r2) ∧ tr_status r2 = t_approved ∧
       tr_endpoint_id r2 = tr_endpoint_id r ∧ tr_generation r2 = tr_generation r).
Proof.
  intros Hc Ha. pose proof (evolving_approve id d) as Hev. rewrite Ha in Hev. cbn [fst] in Hev.
  pose proof (run_all_evolves cs d') as Hev2.
  assert (Hc2 : constraints_ok (mailboxes (run_all cs d')) = true) by (apply Hev2, Hev, Hc).
  assert (Hlater : ∀ t, transfers d' !! id = Some t → t_status t = APPROVED →
    transfers (run_all cs d') !! id = Some t).
  { intros t Ht Hs. apply Hev2; [done | by rewrite Hs]. }
  apply approve_Ok in Ha as [[Hs Hm]|[(t & Ht & Hs & -> & Hr & He & Hg)|(t & m' & Ht & Hs & Htr & Hr & He & Hg)]].
  - by split.
  - split; [by intros []|]. intros _. split; [eauto 6|]. cbn zeta.
    destruct (approve_again id t (run_all cs d) Hc2 (Hlater t Ht Hs) Hs) as (r2 & H1 & H2 & H3 & H4).
    exists r2. by rewrite He, Hg.
  - split; [by intros []|]. intros _. split; [eauto 7|]. cbn zeta.
    destruct Htr as (m & _ & _ & Hpre & -> & _ & Htr).
    apply at_preimage_spec in Hpre as (m0 & [= <-] & Hend & _).
    eassert (Ht' : transfers d' !! id = Some _) by (rewrite Htr; apply lookup_insert_eq).
    destruct (approve_again id _ (run_all cs d') Hc2 (Hlater _ Ht' eq_refl) eq_refl) as (r2 & H1 & H2 & H3 & H4).
    exists r2. rewrite He, Hg, H3, H4. cbn. by rewrite Hend.
Qed.

(** ** Witnesses *)

Example slug_examples :
  agent_name_key " Ada   Lovelace (2) " = Ok "ada-lovelace-2" ∧
  agent_name_key "Codex Coordinator" = Ok CODEX_COORDINATOR_KEY ∧
  is_ok (agent_name_key "2nd") = false ∧ is_ok (agent_name_key "  ") = false.
Proof. by vm_compute. Qed.

Lemma agent_name_key_valid_witness : agent_name_key "ada-lovelace-2" = Ok "ada-lovelace-2".
Proof. apply (agent_name_key_valid " Ada   Lovelace (2) " "ada-lovelace-2"). vm_compute. reflexivity. Defined.

Definition ex_mailbox : AgentMailbox := mkMailbox "ada" "Ada" "e1" "p1" (sha256_hex "codex:1") 1 (Some codex).
Definition ex_request : TransferRequest :=
  mkTransfer "r1" "ada" "e1" 1 "p1" (sha256_hex "codex:1") "p2" (sha256_hex "claude:7") claude PENDING None None.
Definition ex_mail_db : MailboxDB := mkMailboxDB [ex_mailbox] {[ "r1" := ex_request ]}.

Lemma mailbox_binding_fence_witness :
  current_agent_binding ex_mailbox (run_all [c_approve_transfer "r1"] ex_mail_db) = false ∧
  current_agent_binding ex_mailbox
    (run_all [c_register "e2" "ada" "p1" "codex:1"] (run_all [c_approve_transfer "r1"] ex_mail_db)) = false.
Proof.
  assert (H : current_agent_binding ex_mailbox (run_all [c_approve_transfer "r1"] ex_mail_db) = false)
    by (vm_compute; reflexivity).
  split; [exact H|].
  apply (mailbox_binding_fence ex_mailbox ex_mailbox ex_mail_db [c_approve_transfer "r1"]
           [c_register "e2" "ada" "p1" "codex:1"]);
    [vm_compute; reflexivity | vm_compute; reflexivity | exact H].
Defined.

Lemma takeover_spec_witness :
  (takeover "e9" "Ada" "p2" "chat" false ex_mail_db).1 = ex_mail_db ∧
  ∃ v, (takeover "e9" "Ada" "p1" "chat" false ex_mail_db).2 = Ok (mb_ok v) ∧ generation v = 2 ∧
    ∃ key, agent_name_key "Ada" = Ok key ∧
      taken "e9" key "p1" (sha256_hex "chat") (session_agent_type "chat") false ex_mail_db
        (takeover "e9" "Ada" "p1" "chat" false ex_mail_db).1 v.
Proof.
  assert (Hc : constraints_ok (mailboxes ex_mail_db) = true) by (vm_compute; reflexivity).
  split.
  - apply (takeover_spec "e9" "Ada" "p2" "chat" false ex_mail_db _ (Ok (mb_denied "principal_mismatch")) Hc).
    vm_compute. reflexivity.
  - exists (mkMailbox "ada" "Ada" "e1" "p1" (sha256_hex "chat") 2 (Some chatgpt)).
    split; [vm_compute; reflexivity|]. split; [reflexivity|].
    apply (takeover_spec "e9" "Ada" "p1" "chat" false ex_mail_db _
      (Ok (mb_ok (mkMailbox "ada" "Ada" "e1" "p1" (sha256_hex "chat") 2 (Some chatgpt)))) Hc).
    vm_compute. reflexivity.
Defined.

Lemma transfer_once_witness :
  let d1 := (approve_transfer "r1" ex_mail_db).1 in
  ∃ r2, approve_transfer "r1" (run_all [c_takeover "e9" "Ada" "p2" "chat" false] d1)
        = (run_all [c_takeover "e9" "Ada" "p2" "chat" false] d1, Ok r2) ∧
    tr_status r2 = t_approved ∧ tr_endpoint_id r2 = Some "e1" ∧ tr_generation r2 = Some 2.
Proof.
  apply (transfer_once "r1" ex_mail_db _
    (mkTransferResult t_approved (Some "r1") (Some "Ada") (Some "e1") (Some 2) None)
    [c_takeover "e9" "Ada" "p2" "chat" false]); [vm_compute; reflexivity | vm_compute; reflexivity | reflexivity].
Defined.
