(* ===== verification/WorkPolicy.v ===== *)
(** * Policy of semantic writes ([tracker/policy.py])

    A write to canonical work is judged by the state it leaves.
    [validate_resultant_state] judges the fields that the write may have
    affected; [validate_create_state] judges new work.  The theorems give the
    states that pass, and show that judging the affected fields is enough:
    work that was coherent stays coherent. *)

From S2P Require Import Prelude Json Codec Tracker.
From S2P Require Mailboxes.

(** The fields the policy reads; the names of [SEMANTIC_FIELDS]. *)
Record Semantics := mkSemantics {
  s_lifecycle_state : option string; s_canonical_root : option string; s_owner_key : option string;
  s_wait_kind : option string; s_unblock_condition : option string; s_next_due : option string;
  s_next_action_class : option string; s_next_action_ref : option string;
  s_completed : option bool }.

Inductive SemanticField :=
  | f_completed | f_priority | f_work_type | f_lifecycle_state | f_canonical_root | f_owner_key
  | f_wait_kind | f_unblock_condition | f_next_due | f_next_action_class | f_next_action_ref.

#[export] Instance SemanticField_eq_dec : EqDecision SemanticField.
Proof. solve_decision. Defined.

Definition SEMANTIC_FIELDS : list SemanticField :=
  [f_completed; f_priority; f_work_type; f_lifecycle_state; f_canonical_root; f_owner_key;
   f_wait_kind; f_unblock_condition; f_next_due; f_next_action_class; f_next_action_ref].

(** [affected & fields], as a truth value. *)
Definition touches (affected fields : list SemanticField) : bool := existsb (λ f, mem f affected) fields.

Definition _SENTINELS : list string := ["NONE"; "UNKNOWN"]%string.

Definition _exact (value : option string) : bool :=
  match value with Some v => truthy v && negb (mem v _SENTINELS) | None => false end.

Definition given (value : option string) : bool :=
  match value with Some v => truthy v | None => false end.

Definition _root (value : option string) : bool :=
  match value with Some v => mem v _SENTINELS || canonical_uuid v | None => false end.

Definition is_state (names : list string) (value : option string) : bool :=
  match value with Some v => mem v names | None => false end.

Definition none3 (s : Semantics) : bool :=
  eqb (s_wait_kind s, s_unblock_condition s, s_next_due s)
    (Some "NONE", Some "NONE", Some "NONE")%string.

Definition action_is (v : string) (s : Semantics) : bool :=
  eqb (s_next_action_class s, s_next_action_ref s) (Some v, Some v).

(** The end of the validation: the wait, once the lifecycle is known. *)
Definition wait_check (s : Semantics) : res unit :=
  if is_state ["CURRENT"%string] (s_lifecycle_state s) then
    raise_if (negb (none3 s)) ValueError "CURRENT requires wait_kind=unblock_condition=next_due=NONE"
  else if is_state ["WAITING"; "DEFERRED"]%string (s_lifecycle_state s) then
    raise_if (negb (_exact (s_wait_kind s)) || negb (_exact (s_unblock_condition s)))
      ValueError "WAITING/DEFERRED requires exact wait_kind and unblock_condition";;
    raise_if (negb (action_is "NONE" s)) ValueError "waiting/deferred work cannot carry a next action";;
    raise_if (negb (given (s_next_due s))) ValueError "WAITING/DEFERRED requires an explicit next_due disposition"
  else if is_state ["TERMINAL"%string] (s_lifecycle_state s) then
    raise_if (negb (none3 s)) ValueError "TERMINAL requires wait_kind=unblock_condition=next_due=NONE";;
    raise_if (negb (action_is "NONE" s)) ValueError "terminal work cannot carry a next action"
  else
    raise_if (negb (given (s_wait_kind s) && given (s_unblock_condition s) && given (s_next_due s)))
      ValueError "UNKNOWN requires explicit wait_kind/unblock_condition/next_due dispositions".

Definition validate_resultant_state (s : Semantics) (affected : list SemanticField) : res unit :=
  let transition := touches affected [f_completed; f_lifecycle_state] in
  let waits := transition || touches affected [f_wait_kind; f_unblock_condition; f_next_due] in
  let actions := waits || touches affected [f_next_action_class; f_next_action_ref] in
  raise_if ((waits || actions)
      && negb (is_state ["CURRENT"; "WAITING"; "DEFERRED"; "TERMINAL"; "UNKNOWN"]%string (s_lifecycle_state s)))
    ValueError "semantic writes require a lifecycle state";;
  raise_if (touches affected [f_canonical_root] && negb (_root (s_canonical_root s)))
    ValueError "canonical root must be NONE, UNKNOWN, or a WorkId";;
  raise_if (touches affected [f_owner_key] && negb (given (s_owner_key s)))
    ValueError "owner key must be NONE, UNKNOWN, or nonempty";;
  raise_if (transition && match s_completed s with
      | Some c => negb (Bool.eqb c (is_state ["TERMINAL"%string] (s_lifecycle_state s)))
      | None => false
      end)
    ValueError "completed/lifecycle_state must agree: use completed=true alone to finish, or completed=false with a valid nonterminal transition";;
  raise_if (actions && negb (action_is "NONE" s || action_is "UNKNOWN" s)
      && negb (_exact (s_next_action_class s) && _exact (s_next_action_ref s)))
    ValueError "next_action_class/next_action_ref require two exact values, NONE/NONE, or UNKNOWN/UNKNOWN";;
  raise_if (actions && is_state ["WAITING"; "DEFERRED"; "TERMINAL"]%string (s_lifecycle_state s)
      && negb (action_is "NONE" s))
    ValueError "next_action_class/next_action_ref must both be NONE for waiting/deferred/terminal work";;
  if negb waits then Ok tt else wait_check s.

(** ** New work *)

Definition triage (kind condition : string) (s : Semantics) : bool :=
  is_state ["WAITING"%string] (s_lifecycle_state s) &&
  eqb (s_wait_kind s, s_unblock_condition s, s_next_due s) (Some kind, Some condition, Some "UNSCHEDULED"%string) &&
  action_is "NONE" s.

Definition ownerless (s : Semantics) : bool := eqb (s_owner_key s) (Some "NONE"%string).

Definition REPORT_TYPES : list string :=
  ["BUG"; "PRODUCT_FEATURE"; "PROCESS"; "PERFORMANCE"; "HUMAN_REVIEW_FEEDBACK"; "FORK_MANAGEMENT"]%string.

(** Work waiting for an assignment. *)
Definition unassigned (work_type : option string) (s : Semantics) : bool :=
  eqb work_type (Some "Task"%string) && ownerless s && triage "TRIAGE" "ASSIGNMENT_REQUIRED" s.

Definition agent_owner (owner : option string) : bool :=
  match owner with
  | Some o => _exact owner && (eqb o Mailboxes.CODEX_COORDINATOR_NAME || startswith "agent:" o)
  | None => false
  end.

(** The kinds of new work, once the root is exact. *)
Definition create_check (parented : bool) (work_type : option string) (s : Semantics) : res unit :=
  if unassigned work_type s then Ok tt
  else if negb parented && is_state REPORT_TYPES work_type && ownerless s then
    raise_if (negb (triage "TRIAGE" "TRIAGE_PICKUP" s)) ValueError "ownerless reports must wait for triage"
  else if parented && is_state ["Evidence"%string] work_type && ownerless s then
    raise_if (negb (is_state ["CURRENT"%string] (s_lifecycle_state s)) || negb (none3 s) || negb (action_is "NONE" s))
      ValueError "ownerless Evidence must be an inert CURRENT child"
  else
    raise_if (is_none work_type || is_state ["UNKNOWN"%string] work_type)
      ValueError "substantive create requires an explicit work type";;
    raise_if (negb (is_state ["CURRENT"; "WAITING"; "DEFERRED"]%string (s_lifecycle_state s)))
      ValueError "substantive create requires an actionable lifecycle";;
    raise_if (negb (agent_owner (s_owner_key s))) ValueError "substantive create requires derived agent ownership";;
    if is_state ["CURRENT"%string] (s_lifecycle_state s) then
      raise_if (negb (none3 s)) ValueError "current create cannot carry a wait";;
      raise_if (negb (_exact (s_next_action_class s) && _exact (s_next_action_ref s)))
        ValueError "current create requires an exact next action"
    else
      raise_if (negb (action_is "NONE" s)
          || negb (_exact (s_wait_kind s) && _exact (s_unblock_condition s) && _exact (s_next_due s)))
        ValueError "waiting create requires an exact wait and no action".

Definition validate_create_state (parented : bool) (work_type : option string) (s : Semantics) : res unit :=
  validate_resultant_state
    (mkSemantics (s_lifecycle_state s) (s_canonical_root s) (s_owner_key s) (s_wait_kind s)
      (s_unblock_condition s) (s_next_due s) (s_next_action_class s) (s_next_action_ref s) None)
    SEMANTIC_FIELDS;;
  raise_if (is_none (s_canonical_root s) || is_state _SENTINELS (s_canonical_root s))
    ValueError "created work requires an exact root";;
  create_check parented work_type s.

(** ** The states that pass *)

(** A state is coherent when its lifecycle agrees with its wait, its action
    and its completion. *)
Inductive wait_shape : Semantics → string → Prop :=
  | w_current s : none3 s = true → wait_shape s "CURRENT"
  | w_waiting s l : l = "WAITING"%string ∨ l = "DEFERRED"%string →
      _exact (s_wait_kind s) = true → _exact (s_unblock_condition s) = true → given (s_next_due s) = true →
      action_is "NONE" s = true → wait_shape s l
  | w_terminal s : none3 s = true → action_is "NONE" s = true → wait_shape s "TERMINAL"
  | w_unknown s : given (s_wait_kind s) = true → given (s_unblock_condition s) = true →
      given (s_next_due s) = true → wait_shape s "UNKNOWN".

Definition action_shape (s : Semantics) : Prop :=
  action_is "NONE" s = true ∨ action_is "UNKNOWN" s = true ∨
  _exact (s_next_action_class s) = true ∧ _exact (s_next_action_ref s) = true.

Record coherent (s : Semantics) : Prop := {
  co_shape : ∃ l, s_lifecycle_state s = Some l ∧ wait_shape s l;
  co_action : action_shape s;
  co_root : _root (s_canonical_root s) = true;
  co_owner : given (s_owner_key s) = true;
  co_completed c : s_completed s = Some c → c = is_state ["TERMINAL"%string] (s_lifecycle_state s) }.

(** ** Lemmas *)

Lemma raise_seq c e msg (k : res unit) : (raise_if c e msg;; k) = Ok tt ↔ c = false ∧ k = Ok tt.
Proof. destruct c; cbn; naive_solver. Qed.

Lemma is_state_true names o : is_state names o = true ↔ ∃ v, o = Some v ∧ v ∈ names.
Proof. destruct o as [v|]; cbn; [rewrite mem_true | ]; naive_solver. Qed.

(** The lifecycle decides which checks of the whole state apply. *)
Definition LIFECYCLES : list string := ["CURRENT"; "WAITING"; "DEFERRED"; "TERMINAL"; "UNKNOWN"]%string.

Lemma lifecycle_cases o :
  is_state LIFECYCLES o = true →
  o = Some "CURRENT"%string ∨ o = Some "WAITING"%string ∨ o = Some "DEFERRED"%string ∨
  o = Some "TERMINAL"%string ∨ o = Some "UNKNOWN"%string.
Proof.
  intros (v & -> & Hv)%is_state_true. unfold LIFECYCLES in Hv.
  repeat (apply elem_of_cons in Hv as [->|Hv]; [naive_solver|]). by apply not_elem_of_nil in Hv.
Qed.

Definition action_ok (s : Semantics) : bool :=
  action_is "NONE" s || action_is "UNKNOWN" s || (_exact (s_next_action_class s) && _exact (s_next_action_ref s)).

Lemma action_ok_shape s : action_ok s = true ↔ action_shape s.
Proof. unfold action_ok, action_shape. rewrite !orb_true_iff, andb_true_iff. tauto. Qed.

(** The wait of a state, by its lifecycle. *)
Definition wait_ok (s : Semantics) : bool :=
  if is_state ["CURRENT"%string] (s_lifecycle_state s) then none3 s
  else if is_state ["WAITING"; "DEFERRED"]%string (s_lifecycle_state s) then
    _exact (s_wait_kind s) && _exact (s_unblock_condition s) && given (s_next_due s)
  else if is_state ["TERMINAL"%string] (s_lifecycle_state s) then none3 s
  else given (s_wait_kind s) && given (s_unblock_condition s) && given (s_next_due s).

Definition parked (s : Semantics) : bool :=
  is_state ["WAITING"; "DEFERRED"; "TERMINAL"]%string (s_lifecycle_state s).

Definition completion_ok (s : Semantics) : bool :=
  match s_completed s with
  | Some c => Bool.eqb c (is_state ["TERMINAL"%string] (s_lifecycle_state s))
  | None => true
  end.

(** The checks that a set of affected fields turns on. *)
Definition passes (s : Semantics) (affected : list SemanticField) : Prop :=
  let transition := touches affected [f_completed; f_lifecycle_state] in
  let waits := transition || touches affected [f_wait_kind; f_unblock_condition; f_next_due] in
  let actions := waits || touches affected [f_next_action_class; f_next_action_ref] in
  (actions = true → is_state LIFECYCLES (s_lifecycle_state s) = true) ∧
  (touches affected [f_canonical_root] = true → _root (s_canonical_root s) = true) ∧
  (touches affected [f_owner_key] = true → given (s_owner_key s) = true) ∧
  (transition = true → completion_ok s = true) ∧
  (actions = true → action_ok s = true ∧ (parked s = true → action_is "NONE" s = true)) ∧
  (waits = true → wait_ok s = true).

Lemma guarded a b : a && negb b = false ↔ (a = true → b = true).
Proof. destruct a, b; naive_solver. Qed.

Lemma raise_last c e msg : raise_if c e msg = Ok tt ↔ c = false.
Proof. by destruct c. Qed.

Lemma wait_check_ok s :
  (parked s = true → action_is "NONE" s = true) → wait_check s = Ok tt ↔ wait_ok s = true.
Proof.
  unfold parked, wait_check, wait_ok. intros Hp.
  destruct (is_state ["CURRENT"%string] (s_lifecycle_state s)); [by rewrite raise_last, negb_false_iff|].
  destruct (is_state ["WAITING"; "DEFERRED"]%string (s_lifecycle_state s)) eqn:Ew.
  - assert (Ha : action_is "NONE" s = true).
    { apply Hp. apply is_state_true in Ew as (v & Hv & Hin). apply is_state_true. exists v. split; [done|]. set_solver. }
    rewrite !raise_seq, raise_last, orb_false_iff, !negb_false_iff, !andb_true_iff. tauto.
  - destruct (is_state ["TERMINAL"%string] (s_lifecycle_state s)) eqn:Et.
    + assert (Ha : action_is "NONE" s = true).
      { apply Hp. apply is_state_true in Et as (v & Hv & Hin). apply is_state_true. exists v. split; [done|]. set_solver. }
      rewrite !raise_seq, raise_last, !negb_false_iff. tauto.
    + by rewrite raise_last, negb_false_iff.
Qed.

Lemma validate_passes s affected : validate_resultant_state s affected = Ok tt ↔ passes s affected.
Proof.
  unfold validate_resultant_state, passes. cbv zeta.
  set (t := touches affected [f_completed; f_lifecycle_state]).
  set (wt := touches affected [f_wait_kind; f_unblock_condition; f_next_due]).
  set (ac := touches affected [f_next_action_class; f_next_action_ref]).
  fold LIFECYCLES (parked s). rewrite !raise_seq, !guarded.
  assert (Htail : ∀ k, k = (if negb (t || wt) then Ok tt else wait_check s) → k = Ok tt ↔ (t || wt = true → wait_check s = Ok tt)).
  { intros k ->. destruct (t || wt); cbn; naive_solver. }
  rewrite (Htail _ eq_refl).
  assert (Hc : t && match s_completed s with
      | Some c => negb (Bool.eqb c (is_state ["TERMINAL"%string] (s_lifecycle_state s)))
      | None => false end = false ↔ (t = true → completion_ok s = true)).
  { unfold completion_ok. destruct t, (s_completed s); cbn; rewrite ?negb_false_iff; naive_solver. }
  assert (Hor : ∀ x a b, (x && negb a = true → b = true) ↔ (x = true → a || b = true)).
  { intros [] [] []; cbn; naive_solver. }
  assert (Hand : ∀ x p n, (x && p = true → n = true) ↔ (x = true → p = true → n = true)).
  { intros [] [] []; cbn; naive_solver. }
  assert (Hpre : ∀ b, (t || wt || (t || wt || ac) = true → b = true) ↔ (t || wt || ac = true → b = true)).
  { intros b. destruct t, wt, ac; cbn; naive_solver. }
  rewrite Hc, Hor, Hand, Hpre. fold (action_ok s). split.
  - intros (H1 & H2 & H3 & H4 & H5 & H6 & H7). split_and!; auto. intros Hw. apply wait_check_ok; [|auto].
    intros Hp. apply H6; [|done]. by rewrite Hw.
  - intros (H1 & H2 & H3 & H4 & H5 & H7). split_and!; auto; try (intros Ha; by apply H5).
    intros Hw. apply wait_check_ok; [|auto]. apply H5. by rewrite Hw.
Qed.

(** The whole state. *)
Lemma passes_all s :
  passes s SEMANTIC_FIELDS ↔
  is_state LIFECYCLES (s_lifecycle_state s) = true ∧ _root (s_canonical_root s) = true ∧
  given (s_owner_key s) = true ∧ completion_ok s = true ∧ action_ok s = true ∧
  (parked s = true → action_is "NONE" s = true) ∧ wait_ok s = true.
Proof. unfold passes. cbv zeta. cbn. tauto. Qed.

(** Decide the memberships of a known lifecycle. *)
Ltac states :=
  repeat match goal with
  | |- context [is_state ?n (Some ?v)] =>
      let b := eval vm_compute in (is_state n (Some v)) in change (is_state n (Some v)) with b
  end; cbv iota.

Lemma wait_ok_shape s :
  is_state LIFECYCLES (s_lifecycle_state s) = true →
  wait_ok s = true ∧ (parked s = true → action_is "NONE" s = true) ↔
  ∃ l, s_lifecycle_state s = Some l ∧ wait_shape s l.
Proof.
  intros Hl. unfold wait_ok, parked.
  destruct (lifecycle_cases _ Hl) as [E|[E|[E|[E|E]]]]; rewrite E; states; rewrite ?andb_true_iff.
  all: (split; [intros [H1 H2]; eexists; (split; [done|]) | intros (l & [= <-] & Hs)]).
  - by constructor.
  - inversion Hs; subst; [done | by destruct H as [?|?]].
  - apply w_waiting; [by left | apply H1 | apply H1 | apply H1 | by apply H2].
  - inversion Hs; subst; auto.
  - apply w_waiting; [by right | apply H1 | apply H1 | apply H1 | by apply H2].
  - inversion Hs; subst; auto.
  - apply w_terminal; [done | by apply H2].
  - inversion Hs; subst; [by destruct H as [?|?] | done].
  - apply w_unknown; apply H1.
  - inversion Hs; subst; [by destruct H as [?|?] | done].
Qed.

Lemma passes_coherent s : passes s SEMANTIC_FIELDS ↔ coherent s.
Proof.
  rewrite passes_all. split.
  - intros (H1 & H2 & H3 & H4 & H5 & H6 & H7). split; [by apply wait_ok_shape | by apply action_ok_shape | done | done |].
    intros c Hc. unfold completion_ok in H4. rewrite Hc in H4. by apply Bool.eqb_prop in H4.
  - intros [(l & Hl & Hs) Ha Hr Ho Hc].
    assert (Hlc : is_state LIFECYCLES (s_lifecycle_state s) = true).
    { rewrite Hl. inversion Hs as [| ? ? [-> | ->] | |]; subst; reflexivity. }
    destruct (proj2 (wait_ok_shape s Hlc)) as [Hw Hp]; [by exists l|].
    split_and!; try done; [|by apply action_ok_shape]. unfold completion_ok.
    destruct (s_completed s) as [c|]; [|done]. rewrite (Hc c eq_refl). apply Bool.eqb_reflx.
Qed.

Lemma touches_false affected fields : touches affected fields = false ↔ ∀ f, f ∈ fields → f ∉ affected.
Proof.
  unfold touches. rewrite <- not_true_iff_false, existsb_exists. split.
  - intros H f Hf Ha. apply H. exists f. split; [by apply list_elem_of_In | by apply mem_true].
  - intros H (f & Hf%list_elem_of_In & Hm). apply mem_true in Hm. by apply (H f).
Qed.

(** The two states agree on every field outside the affected ones. *)
Record agree_outside (affected : list SemanticField) (s s' : Semantics) : Prop := {
  ag_completed : f_completed ∉ affected → s_completed s' = s_completed s;
  ag_lifecycle : f_lifecycle_state ∉ affected → s_lifecycle_state s' = s_lifecycle_state s;
  ag_root : f_canonical_root ∉ affected → s_canonical_root s' = s_canonical_root s;
  ag_owner : f_owner_key ∉ affected → s_owner_key s' = s_owner_key s;
  ag_wait : f_wait_kind ∉ affected → s_wait_kind s' = s_wait_kind s;
  ag_unblock : f_unblock_condition ∉ affected → s_unblock_condition s' = s_unblock_condition s;
  ag_due : f_next_due ∉ affected → s_next_due s' = s_next_due s;
  ag_class : f_next_action_class ∉ affected → s_next_action_class s' = s_next_action_class s;
  ag_ref : f_next_action_ref ∉ affected → s_next_action_ref s' = s_next_action_ref s }.

Lemma touched_or (affected fields : list SemanticField) (P : Prop) :
  (touches affected fields = true → P) → (touches affected fields = false → P) → P.
Proof. destruct (touches affected fields); auto. Qed.

(** Judging the affected fields is enough: when a write to coherent work
    leaves the fields outside [affected] as they were and the validation of
    the affected ones passes, the work is coherent again. *)
Theorem policy_incremental s s' affected :
  coherent s → agree_outside affected s s' →
  validate_resultant_state s' affected = Ok tt → coherent s'.
Proof.
  intros Hs Hag Hv. apply passes_coherent, passes_all in Hs as (L & R & O & C & A & P & W).
  rewrite validate_passes in Hv. destruct Hv as (V1 & V2 & V3 & V4 & V5 & V6).
  apply passes_coherent, passes_all.
  assert (Hroot : _root (s_canonical_root s') = true).
  { apply (touched_or affected [f_canonical_root]); [done|]. rewrite touches_false. intros H.
    by rewrite (ag_root _ _ _ Hag) by (apply H; left). }
  assert (Howner : given (s_owner_key s') = true).
  { apply (touched_or affected [f_owner_key]); [done|]. rewrite touches_false. intros H.
    by rewrite (ag_owner _ _ _ Hag) by (apply H; left). }
  assert (Hcomp : completion_ok s' = true).
  { apply (touched_or affected [f_completed; f_lifecycle_state]); [done|]. rewrite touches_false. intros H.
    unfold completion_ok. rewrite (ag_completed _ _ _ Hag) by (apply H; left).
    by rewrite (ag_lifecycle _ _ _ Hag) by (apply H; right; left). }
  destruct (touches affected [f_completed; f_lifecycle_state] || touches affected [f_wait_kind; f_unblock_condition; f_next_due]) eqn:Ew.
  { cbn [orb] in *. destruct (V5 eq_refl) as [Ha Hp]. split_and!; auto. }
  rewrite orb_false_iff, !touches_false in Ew. destruct Ew as [Et Ewt]. cbn [orb] in *.
  assert (El : s_lifecycle_state s' = s_lifecycle_state s) by (apply Hag, Et; right; left).
  assert (E1 : s_wait_kind s' = s_wait_kind s) by (apply Hag, Ewt; left).
  assert (E2 : s_unblock_condition s' = s_unblock_condition s) by (apply Hag, Ewt; right; left).
  assert (E3 : s_next_due s' = s_next_due s) by (apply Hag, Ewt; right; right; left).
  assert (Hw : wait_ok s' = true) by (unfold wait_ok, none3 in *; by rewrite El, E1, E2, E3).
  assert (Hl : is_state LIFECYCLES (s_lifecycle_state s') = true) by by rewrite El.
  apply (touched_or affected [f_next_action_class; f_next_action_ref]).
  - intros H. destruct (V5 H) as [Ha Hp]. by split_and!.
  - rewrite touches_false. intros H.
    assert (E4 : s_next_action_class s' = s_next_action_class s) by (apply Hag, H; left).
    assert (E5 : s_next_action_ref s' = s_next_action_ref s) by (apply Hag, H; right; left).
    split_and!; try done; unfold action_ok, parked, action_is in *; by rewrite ?El, E4, E5.
Qed.

(** ** The work that may be created *)

Definition NONE3 (s : Semantics) : Prop :=
  s_wait_kind s = Some "NONE"%string ∧ s_unblock_condition s = Some "NONE"%string ∧ s_next_due s = Some "NONE"%string.
Definition no_action (s : Semantics) : Prop :=
  s_next_action_class s = Some "NONE"%string ∧ s_next_action_ref s = Some "NONE"%string.
Definition in_triage (condition : string) (s : Semantics) : Prop :=
  s_lifecycle_state s = Some "WAITING"%string ∧ s_wait_kind s = Some "TRIAGE"%string ∧
  s_unblock_condition s = Some condition ∧ s_next_due s = Some "UNSCHEDULED"%string ∧ no_action s.
Definition unowned (s : Semantics) : Prop := s_owner_key s = Some "NONE"%string.

(** The five kinds of new work. *)
Inductive create_shape (parented : bool) (work_type : option string) (s : Semantics) : Prop :=
  | cs_unassigned : work_type = Some "Task"%string → unowned s → in_triage "ASSIGNMENT_REQUIRED" s →
      create_shape parented work_type s
  | cs_report t : parented = false → work_type = Some t → t ∈ REPORT_TYPES → unowned s →
      in_triage "TRIAGE_PICKUP" s → create_shape parented work_type s
  | cs_evidence : parented = true → work_type = Some "Evidence"%string → unowned s →
      s_lifecycle_state s = Some "CURRENT"%string → NONE3 s → no_action s → create_shape parented work_type s
  | cs_current t : work_type = Some t → t ≠ "UNKNOWN"%string → agent_owner (s_owner_key s) = true →
      s_lifecycle_state s = Some "CURRENT"%string → NONE3 s →
      _exact (s_next_action_class s) = true → _exact (s_next_action_ref s) = true →
      create_shape parented work_type s
  | cs_waiting t l : work_type = Some t → t ≠ "UNKNOWN"%string → agent_owner (s_owner_key s) = true →
      s_lifecycle_state s = Some l → l = "WAITING"%string ∨ l = "DEFERRED"%string →
      _exact (s_wait_kind s) = true → _exact (s_unblock_condition s) = true → _exact (s_next_due s) = true →
      no_action s → create_shape parented work_type s.

Lemma none3_true s : none3 s = true ↔ NONE3 s.
Proof. unfold none3, NONE3. rewrite eqb_true. split; [by intros [= -> -> ->] | by intros (-> & -> & ->)]. Qed.

Lemma action_is_none s : action_is "NONE" s = true ↔ no_action s.
Proof. unfold action_is, no_action. rewrite eqb_true. split; [by intros [= -> ->] | by intros (-> & ->)]. Qed.

Lemma is_state_one v o : is_state [v] o = true ↔ o = Some v.
Proof. rewrite is_state_true. split; [intros (u & -> & ->%list_elem_of_singleton); done | intros ->; exists v; by rewrite list_elem_of_singleton]. Qed.

Lemma triage_true condition s : triage "TRIAGE" condition s = true ↔ in_triage condition s.
Proof.
  unfold triage, in_triage. rewrite !andb_true_iff, is_state_one, eqb_true, action_is_none.
  split; [by intros [[? [= ? ? ?]] ?] | intros (-> & -> & -> & -> & ?); done].
Qed.

Lemma exact_given o : _exact o = true → given o = true.
Proof. destruct o as [v|]; cbn; [|done]. by intros [-> _]%andb_true_iff. Qed.

Lemma agent_owner_exact o : agent_owner o = true → _exact o = true ∧ o ≠ Some "NONE"%string.
Proof.
  destruct o as [v|]; [|done]. cbn [agent_owner]. intros [H _]%andb_true_iff. split; [done|].
  intros [= ->]. vm_compute in H. done.
Qed.

Definition open_state (s : Semantics) : Semantics :=
  mkSemantics (s_lifecycle_state s) (s_canonical_root s) (s_owner_key s) (s_wait_kind s)
    (s_unblock_condition s) (s_next_due s) (s_next_action_class s) (s_next_action_ref s) None.

(** Each kind of new work is a coherent state. *)
Lemma create_shape_coherent parented wt s u :
  s_canonical_root s = Some u → canonical_uuid u = true →
  create_shape parented wt s → coherent (open_state s).
Proof.
  intros Hroot Hu Hs.
  assert (Hr : _root (s_canonical_root (open_state s)) = true) by (cbn; rewrite Hroot; cbn; by rewrite Hu, orb_true_r).
  assert (Hown : unowned s → given (s_owner_key (open_state s)) = true) by (cbn; by intros ->).
  assert (Hagent : agent_owner (s_owner_key s) = true → given (s_owner_key (open_state s)) = true)
    by (intros [? _]%agent_owner_exact; by apply exact_given).
  assert (Hno : no_action s → action_shape (open_state s)) by (intros ?; left; by apply action_is_none).
  assert (Htr : ∀ c, c = "ASSIGNMENT_REQUIRED"%string ∨ c = "TRIAGE_PICKUP"%string → in_triage c s → wait_shape (open_state s) "WAITING").
  { intros c Hc (_ & H1 & H2 & H3 & H4). apply w_waiting; [by left | cbn; by rewrite H1 | | cbn; by rewrite H3 | by apply action_is_none].
    cbn. rewrite H2. by destruct Hc as [-> | ->]. }
  destruct Hs as [_ Ho Ht|t _ _ _ Ho Ht|_ _ Ho Hl Hn Ha|t _ _ Ho Hl Hn Ha1 Ha2|t l _ _ Ho Hl Hw H1 H2 H3 Ha];
    (split; [| |done|auto|done]).
  - destruct Ht as [Hl Ht]. eexists. split; [exact Hl|]. eapply Htr; [by left | by split].
  - apply Hno, Ht.
  - destruct Ht as [Hl Ht]. eexists. split; [exact Hl|]. eapply Htr; [by right | by split].
  - apply Hno, Ht.
  - eexists. split; [exact Hl|]. constructor. by apply none3_true.
  - by apply Hno.
  - eexists. split; [exact Hl|]. constructor. by apply none3_true.
  - by right; right.
  - eexists. split; [exact Hl|]. apply w_waiting; try done; [by apply exact_given | by apply action_is_none].
  - by apply Hno.
Qed.

Lemma create_branches parented wt s : create_shape parented wt s → create_check parented wt s = Ok tt.
Proof.
  intros Hs. unfold create_check.
  destruct (unassigned wt s) eqn:E1; [done|].
  assert (Hagent : agent_owner (s_owner_key s) = true → ownerless s = false).
  { intros [_ Hne]%agent_owner_exact. unfold ownerless. by rewrite eqb_false. }
  destruct Hs as [Hwt Ho Ht|t -> -> Hin Ho Ht| -> -> Ho Hl Hn Ha|t -> Hne Ho Hl Hn Ha1 Ha2|t l -> Hne Ho Hl Hw H1 H2 H3 Ha].
  - exfalso. apply not_true_iff_false in E1. apply E1. unfold unassigned, ownerless.
    by rewrite !andb_true_iff, !eqb_true, triage_true.
  - assert (Hr : is_state REPORT_TYPES (Some t) = true) by (apply is_state_true; by exists t).
    assert (Hu : ownerless s = true) by (unfold ownerless; by rewrite eqb_true).
    rewrite Hr, Hu. cbn [negb andb]. by rewrite (proj2 (triage_true _ s) Ht).
  - assert (Hu : ownerless s = true) by (unfold ownerless; by rewrite eqb_true).
    rewrite Hu, Hl. states. cbn [negb andb orb].
    by rewrite (proj2 (none3_true s) Hn), (proj2 (action_is_none s) Ha).
  - rewrite (Hagent Ho), Ho, Hl, !andb_false_r.
    assert (Hk : is_state ["UNKNOWN"%string] (Some t) = false) by (apply not_true_iff_false; rewrite is_state_one; congruence).
    rewrite Hk. states. rewrite (proj2 (none3_true s) Hn), Ha1, Ha2. done.
  - rewrite (Hagent Ho), Ho, Hl, !andb_false_r.
    assert (Hk : is_state ["UNKNOWN"%string] (Some t) = false) by (apply not_true_iff_false; rewrite is_state_one; congruence).
    rewrite Hk, (proj2 (action_is_none s) Ha), H1, H2, H3. by destruct Hw as [-> | ->].
Qed.

(** New work is accepted exactly when its root is an identifier and it is
    one of the five kinds: a task awaiting assignment, a parentless report
    awaiting triage, inert evidence under a parent, current work of an agent
    with an exact next action, or waiting or deferred work of an agent with an
    exact wait and no action. *)
Theorem create_policy parented wt s :
  validate_create_state parented wt s = Ok tt ↔
  (∃ u, s_canonical_root s = Some u ∧ canonical_uuid u = true) ∧ create_shape parented wt s.
Proof.
  unfold validate_create_state. fold (open_state s).
  rewrite bind_Ok. split.
  - intros ([] & Hres & H). rewrite raise_seq in H. destruct H as [Hroot H]. unfold create_check in H.
    rewrite validate_passes, passes_all in Hres. destruct Hres as (Hl & Hr & _).
    split.
    { rewrite orb_false_iff in Hroot. cbn in Hr. destruct (s_canonical_root s) as [u|]; [|done].
      exists u. split; [done|]. destruct Hroot as [_ Hroot]. cbn in *. by rewrite Hroot in Hr. }
    destruct (unassigned wt s) eqn:E1.
    { unfold unassigned, ownerless in E1. rewrite !andb_true_iff, !eqb_true, triage_true in E1.
      destruct E1 as [[? ?] ?]. by apply cs_unassigned. }
    destruct (negb parented && is_state REPORT_TYPES wt && ownerless s) eqn:E2.
    { rewrite raise_last, negb_false_iff, triage_true in H. unfold ownerless in E2.
      rewrite !andb_true_iff, negb_true_iff, eqb_true, is_state_true in E2. destruct E2 as [[-> (t & -> & Ht)] Ho].
      by eapply cs_report. }
    destruct (parented && is_state ["Evidence"%string] wt && ownerless s) eqn:E3.
    { rewrite raise_last, !orb_false_iff, !negb_false_iff, is_state_one, none3_true, action_is_none in H.
      unfold ownerless in E3. rewrite !andb_true_iff, eqb_true, is_state_one in E3.
      destruct E3 as [[-> ->] Ho], H as [[? ?] ?]. by apply cs_evidence. }
    rewrite !raise_seq, orb_false_iff, !negb_false_iff in H. destruct H as ([Ht1 Ht2] & Hact & Hown & H).
    destruct wt as [t|]; [|done]. assert (Hne : t ≠ "UNKNOWN"%string) by (intros ->; vm_compute in Ht2; done).
    destruct (is_state ["CURRENT"%string] (s_lifecycle_state s)) eqn:Ec.
    + rewrite raise_seq, raise_last, !negb_false_iff, none3_true, andb_true_iff in H. apply is_state_one in Ec.
      eapply cs_current; naive_solver.
    + rewrite raise_last, orb_false_iff, !negb_false_iff, action_is_none, !andb_true_iff in H.
      apply is_state_true in Hact as (l & Hl' & Hin). rewrite Hl' in Ec.
      eapply (cs_waiting _ _ _ t l); try naive_solver. rewrite !elem_of_cons in Hin.
      destruct Hin as [->|[->|[->|Hin]]]; [by vm_compute in Ec | by left | by right | by apply not_elem_of_nil in Hin].
  - intros ((u & Hroot & Hu) & Hs). exists tt. split.
    { apply validate_passes, passes_coherent. by eapply create_shape_coherent. }
    assert (Hsent : is_state _SENTINELS (s_canonical_root s) = false).
    { rewrite Hroot. apply not_true_iff_false. intros (v & [= <-] & Hv)%is_state_true.
      unfold _SENTINELS in Hv. rewrite !elem_of_cons in Hv.
      destruct Hv as [->|[->|Hv]]; [by vm_compute in Hu.. | by apply not_elem_of_nil in Hv]. }
    rewrite raise_seq, Hsent. split; [by rewrite Hroot|].
    by apply create_branches.
Qed.

(** ** Instances *)

Definition ex_current : Semantics :=
  mkSemantics (Some "CURRENT") (Some "UNKNOWN") (Some "agent:a") (Some "NONE") (Some "NONE") (Some "NONE")
    (Some "IMPLEMENT") (Some "plan-1") (Some false).

(** Finishing it: the completion, the lifecycle and the action change. *)
Definition ex_finished : Semantics :=
  mkSemantics (Some "TERMINAL") (Some "UNKNOWN") (Some "agent:a") (Some "NONE") (Some "NONE") (Some "NONE")
    (Some "NONE") (Some "NONE") (Some true).

Lemma policy_incremental_witness : coherent ex_finished.
Proof.
  apply (policy_incremental ex_current ex_finished
    [f_completed; f_lifecycle_state; f_next_action_class; f_next_action_ref]).
  - apply passes_coherent, validate_passes. vm_compute. reflexivity.
  - split; intros H; try reflexivity; exfalso; apply H; set_solver.
  - vm_compute. reflexivity.
Defined.
