(* ===== verification/Messages.v ===== *)
(** * Messages between mailboxes ([mailbox/messages.py])

    A message is stored once, under its sender and identifier, with one
    delivery per recipient.  A delivery is received, acknowledged and
    disposed of by its recipient, each operation one transaction over the
    store, fenced by the mailbox binding of the caller.  The store reads the
    tables of the mailboxes, of the grants and their effect journal, and of
    the work handles.  [func.now()] is an argument; payloads are JSON without
    floats. *)

From stdpp Require Import pretty.
From S2P Require Import Prelude Tables Json.
From S2P Require Contracts Grants GrantState WorkState Mailboxes.

Local Open Scope Z_scope.

Definition DELIVERY_NAMESPACE : uuid := "8b7eedf9-138d-4a5e-9060-7c208138402d".
Definition PROCESSING_EFFECT_NAMESPACE : uuid := "c790d50e-5ed0-4fac-aed3-09051a14d8df".
Definition REVIEW_ROUTE_REFS : list string := ["review.request"; "review.acquisition"; "review.outcome"].

(** ** Models *)

Inductive Kind := request | result.

#[export] Instance Kind_eq_dec : EqDecision Kind.
Proof. solve_decision. Defined.

Definition kind_text (k : Kind) : string := match k with request => "request" | result => "result" end.

Inductive DeliveryState := AVAILABLE | RECEIVED | ACKNOWLEDGED | DISPOSITIONED.

#[export] Instance DeliveryState_eq_dec : EqDecision DeliveryState.
Proof. solve_decision. Defined.

(** Equality of JSON values as Python compares them: [True == 1], and
    the order of keys does not matter. *)
Fixpoint py_eq (a b : json) : bool :=
  match a, b with
  | JNull, JNull => true
  | JBool x, JBool y => Bool.eqb x y
  | JBool x, JInt y | JInt y, JBool x => Z.b2z x =? y
  | JInt x, JInt y => x =? y
  | JStr x, JStr y => String.eqb x y
  | JArr l, JArr l' =>
      (fix go (l l' : list json) :=
         match l, l' with
         | [], [] => true
         | x :: l, y :: l' => py_eq x y && go l l'
         | _, _ => false
         end) l l'
  | JObj kvs, JObj kvs' =>
      (length kvs =? length kvs')%nat
      && (fix go (l : list (string * json)) :=
            match l with
            | [] => true
            | (k, v) :: l => match assoc k kvs' with Some v' => py_eq v v' | None => false end && go l
            end) kvs
  | _, _ => false
  end.

Record MessageRoute := mkRoute { r_recipient : uuid; r_grant_version : Z }.

(** [MessageSubmitRequest] without [api_version]. *)
Record MessageSubmitRequest := mkSubmit {
  q_message_id : uuid; q_grant_version : Z; q_route_ref : string; q_kind : Kind; q_payload : json;
  q_in_reply_to : option uuid }.

(** The pattern [^[a-z][a-z0-9_.-]*$] of [route_ref]. *)
Definition route_ref_ok (s : string) : bool :=
  Mailboxes.first_is (char_between "a" "z") s
  && all_chars (λ c, Mailboxes.is_key_char c || mem c ["_"; "."; "-"]%char) s.

(** [MessageSubmitRequest(...)] with [correlated_result]. *)
Definition submit_validate (q : MessageSubmitRequest) : res MessageSubmitRequest :=
  if negb (1 <=? q_grant_version q) || negb (route_ref_ok (q_route_ref q))
  then raise ValueError "validation error"
  else if negb (Bool.eqb (eqb (q_kind q) result) (is_some (q_in_reply_to q)))
  then raise ValueError "only results carry an exact reply delivery correlation"
  else Ok q.

(** [MessageSendRequest] without [api_version]. *)
Record MessageSendRequest := mkSend {
  n_work_id : uuid; n_grant_version : Z; n_message_id : uuid; n_route_ref : option string;
  n_payload : json; n_recipient : option uuid; n_in_reply_to : option uuid }.

(** [MessageSendRequest(...)] with [exact_route]. *)
Definition send_validate (q : MessageSendRequest) : res MessageSendRequest :=
  if negb (1 <=? n_grant_version q) || negb (from_option route_ref_ok true (n_route_ref q))
  then raise ValueError "validation error"
  else if Bool.eqb (is_none (n_recipient q)) (is_none (n_in_reply_to q))
  then raise ValueError "exactly one request recipient or result correlation is required"
  else if Bool.eqb (is_none (n_recipient q)) (is_some (n_route_ref q))
  then raise ValueError "only requests carry a route reference"
  else Ok q.

Inductive Status := ok | conflict | denied | stale | recovery_required.

#[export] Instance Status_eq_dec : EqDecision Status.
Proof. solve_decision. Defined.

Record PendingMessage := mkPending {
  p_delivery_id : uuid; p_message_id : uuid; p_sender : uuid; p_recipient : uuid; p_route_ref : string;
  p_kind : Kind; p_payload : json; p_state : DeliveryState; p_grant_version : Z;
  p_generation : option string }.

Record SubmitResult := mkSubmitResult {
  s_status : Status; s_message : option PendingMessage; s_reason : option string }.

Definition submitted (m : PendingMessage) : SubmitResult := mkSubmitResult ok (Some m) None.
Definition refused (s : Status) (reason : string) : SubmitResult := mkSubmitResult s None (Some reason).

Record RuntimeCurrentness := mkRuntime { rt_generation : string; rt_current : option string }.

(** [DispositionEvidence], which carries exactly the reference of its kind. *)
Inductive DispositionEvidence :=
  | by_result (result_message_id : uuid)
  | by_effect (operation_id : uuid).

#[export] Instance DispositionEvidence_eq_dec : EqDecision DispositionEvidence.
Proof. solve_decision. Defined.

(** [DispositionEvidence(...)] with [exact_reference]; [effect] tells the kind. *)
Definition evidence_validate (effect : bool) (result_message_id operation_id : option uuid)
  : res DispositionEvidence :=
  match effect, result_message_id, operation_id with
  | false, Some m, None => Ok (by_result m)
  | true, None, Some op => Ok (by_effect op)
  | _, _, _ => raise ValueError "disposition evidence requires exactly its typed correlation"
  end.

(** [model_dump(mode="json")] *)
Definition evidence_json (e : DispositionEvidence) : json :=
  match e with
  | by_result m => JObj [("kind", JStr "result"); ("result_message_id", JStr m); ("operation_id", JNull)]
  | by_effect op =>
      JObj [("kind", JStr "provider_effect"); ("result_message_id", JNull); ("operation_id", JStr op)]
  end.

(** [_json_digest] *)
Definition _json_digest (v : json) : string := sha256_hex (dumps_compact v).

(** [canonical_payload_chars] *)
Definition canonical_payload_chars (v : json) : Z := py_len (dumps_compact_raw v).

(** [disposition_digest] *)
Definition disposition_digest (e : DispositionEvidence) : string := _json_digest (evidence_json e).

(** [message_effect_operation_id] *)
Definition message_effect_operation_id (delivery_id : uuid) : uuid :=
  uuid5 PROCESSING_EFFECT_NAMESPACE delivery_id.

Record MessageDispositionRequest := mkDisposition {
  x_delivery_id : uuid; x_grant_version : Z; x_digest : string; x_evidence : DispositionEvidence }.

(** [MessageDispositionRequest(...)] with [canonical_digest]. *)
Definition disposition_validate (q : MessageDispositionRequest) : res MessageDispositionRequest :=
  if negb (1 <=? x_grant_version q) || negb (hex_fullmatch 64 (x_digest q))
  then raise ValueError "validation error"
  else if negb (eqb (x_digest q) (disposition_digest (x_evidence q)))
  then raise ValueError "disposition digest does not match its exact evidence"
  else Ok q.

(** [_digest] *)
Definition _digest (route : MessageRoute) (q : MessageSubmitRequest) : string :=
  _json_digest (JObj [
    ("route", JObj [("recipient_work_id", JStr (r_recipient route));
                    ("recipient_grant_version", JInt (r_grant_version route))]);
    ("message", JObj [("route_ref", JStr (q_route_ref q)); ("kind", JStr (kind_text (q_kind q)));
                      ("payload", q_payload q); ("in_reply_to_delivery_id", jopt (q_in_reply_to q))])]).

(** ** Tables *)

Record MessageRow := mkMessage {
  m_sender : uuid; m_id : uuid; m_route_ref : string; m_kind : Kind; m_payload : json; m_digest : string;
  m_in_reply_to : option uuid; m_created_at : Z }.

Record DeliveryRow := mkDelivery {
  d_id : uuid; d_sender : uuid; d_message : uuid; d_recipient : uuid; d_state : DeliveryState;
  d_version : Z; d_received_at : option Z; d_generation : option string;
  d_dispositioned_at : option Z; d_digest : option string; d_evidence : option json }.

#[export] Instance DeliveryRow_eq_dec : EqDecision DeliveryRow.
Proof. solve_decision. Defined.

(** The store, and the calls of [on_delivery] made so far. *)
Record MsgDB := mkMsgDB {
  messages : list MessageRow; deliveries : list DeliveryRow; review_cutoff_receipt : bool;
  agents : Mailboxes.MailboxDB; grants : GrantState.GrantDB; handles : WorkState.StateDB;
  signals : list (PendingMessage * bool) }.

Definition with_messages (l : list MessageRow) (d : MsgDB) : MsgDB :=
  mkMsgDB l (deliveries d) (review_cutoff_receipt d) (agents d) (grants d) (handles d) (signals d).
Definition with_deliveries (l : list DeliveryRow) (d : MsgDB) : MsgDB :=
  mkMsgDB (messages d) l (review_cutoff_receipt d) (agents d) (grants d) (handles d) (signals d).

Definition message_key (m : MessageRow) : uuid * uuid := (m_sender m, m_id m).
Definition delivery_key (x : DeliveryRow) : uuid * uuid * uuid := (d_sender x, d_message x, d_recipient x).
Definition is_message (sender id : uuid) (m : MessageRow) : bool :=
  eqb (m_sender m) sender && eqb (m_id m) id.
Definition is_delivery (id : uuid) (x : DeliveryRow) : bool := eqb (d_id x) id.

(** [_pending_query]: the deliveries joined with their message. *)
Definition joined (d : MsgDB) : list (DeliveryRow * MessageRow) :=
  deliveries d ≫= λ x, (λ m, (x, m)) <$> List.filter (is_message (d_sender x) (d_message x)) (messages d).

(** [_view] *)
Definition _view (xm : DeliveryRow * MessageRow) : PendingMessage :=
  let '(x, m) := xm in
  mkPending (d_id x) (d_message x) (d_sender x) (d_recipient x) (m_route_ref m) (m_kind m) (m_payload m)
    (d_state x) (d_version x) (d_generation x).

Definition select_message (sender id : uuid) : M MsgDB (option MessageRow) := λ d,
  (d, one_or_none (List.filter (is_message sender id) (messages d))).
Definition select_delivery (id : uuid) : M MsgDB (option DeliveryRow) := λ d,
  (d, one_or_none (List.filter (is_delivery id) (deliveries d))).
(** The message that replies to a delivery. *)
Definition select_reply (delivery : uuid) : M MsgDB (option MessageRow) := λ d,
  (d, one_or_none (List.filter (λ m, eqb (m_in_reply_to m) (Some delivery)) (messages d))).

(** [INSERT INTO messages ... ON CONFLICT DO NOTHING] *)
Definition insert_message (m : MessageRow) : M MsgDB unit := λ d,
  if existsb (λ m', is_message (m_sender m) (m_id m) m'
                    || (is_some (m_in_reply_to m) && eqb (m_in_reply_to m') (m_in_reply_to m)))
       (messages d)
  then (d, Ok tt) else (with_messages (messages d ++ [m]) d, Ok tt).

(** [INSERT INTO message_deliveries ... ON CONFLICT DO NOTHING RETURNING],
    with the foreign key. *)
Definition insert_delivery (x : DeliveryRow) : M MsgDB bool := λ d,
  if existsb (λ x', is_delivery (d_id x) x' || eqb (delivery_key x') (delivery_key x)) (deliveries d)
  then (d, Ok false)
  else if existsb (is_message (d_sender x) (d_message x)) (messages d)
  then (with_deliveries (deliveries d ++ [x]) d, Ok true)
  else (d, raise IntegrityError "message_deliveries").

(** [UPDATE message_deliveries SET ... WHERE delivery_id = ... RETURNING]; the
    changes never touch the keys. *)
Definition update_delivery (id : uuid) (f : DeliveryRow → DeliveryRow) : M MsgDB DeliveryRow := λ d,
  let l := (λ x, if is_delivery id x then f x else x) <$> deliveries d in
  (with_deliveries l d, one (List.filter (is_delivery id) l)).

(** [_current_agent_binding] of an optional binding. *)
Definition binding_current (b : option Mailboxes.AgentMailbox) (d : MsgDB) : bool :=
  match b with None => true | Some b => Mailboxes.current_agent_binding b (agents d) end.

(** ** The changes of a delivery *)

(** [state="RECEIVED"] under the receiving binding. *)
Definition to_received (version : Z) (generation : string) (now : Z) (x : DeliveryRow) : DeliveryRow :=
  mkDelivery (d_id x) (d_sender x) (d_message x) (d_recipient x) RECEIVED version (Some now)
    (Some generation) (d_dispositioned_at x) (d_digest x) (d_evidence x).
(** A received delivery under another binding. *)
Definition rebound (version : Z) (generation : string) (x : DeliveryRow) : DeliveryRow :=
  mkDelivery (d_id x) (d_sender x) (d_message x) (d_recipient x) (d_state x) version (d_received_at x)
    (Some generation) (d_dispositioned_at x) (d_digest x) (d_evidence x).
Definition to_acknowledged (version : Z) (generation : string) (now : Z) (x : DeliveryRow) : DeliveryRow :=
  mkDelivery (d_id x) (d_sender x) (d_message x) (d_recipient x) ACKNOWLEDGED version
    (Some (default now (d_received_at x))) (Some generation) (d_dispositioned_at x) (d_digest x)
    (d_evidence x).
Definition to_dispositioned (digest : string) (e : DispositionEvidence) (now : Z) (x : DeliveryRow)
  : DeliveryRow :=
  mkDelivery (d_id x) (d_sender x) (d_message x) (d_recipient x) DISPOSITIONED (d_version x)
    (d_received_at x) (d_generation x) (Some now) (Some digest) (Some (evidence_json e)).

(** ** Submission *)

Section submission.
Context (now : Z).

(** [_persist_delivery] *)
Definition _persist_delivery (sender : uuid) (route : MessageRoute) (q : MessageSubmitRequest)
    (digest : string) : M MsgDB (option (DeliveryRow * MessageRow) * bool) :=
  let delivery_id := uuid5 DELIVERY_NAMESPACE
    (str_join ":" [sender; q_message_id q; r_recipient route]) in
  insert_message (mkMessage sender (q_message_id q) (q_route_ref q) (q_kind q) (q_payload q) digest
                    (q_in_reply_to q) now);;
  d ← get_st;
  current ← lift (one (m_digest <$> List.filter (is_message sender (q_message_id q)) (messages d)));
  if negb (eqb current digest) then mret (None, false)
  else
    inserted ← insert_delivery (mkDelivery delivery_id sender (q_message_id q) (r_recipient route)
                                  AVAILABLE (r_grant_version route) None None None None None);
    d ← get_st;
    row ← lift (one (List.filter (λ xm, is_delivery delivery_id xm.1) (joined d)));
    mret (Some row, inserted).

(** The received-delivery conditions shared by a result and a disposition. *)
Definition received_under (version : Z) (generation : string) (x : DeliveryRow) : bool :=
  eqb (d_version x) version && eqb (d_generation x) (Some generation).

(** [_disposition_result] *)
Definition _disposition_result (delivery sender message : uuid) (b : Mailboxes.AgentMailbox)
  : M MsgDB (option SubmitResult) :=
  replied ← select_delivery delivery;
  match replied with
  | None => mret (Some (refused conflict "reply_delivery_not_found"))
  | Some x =>
      if negb (eqb (d_recipient x) sender) then mret (Some (refused conflict "reply_delivery_not_found"))
      else
        let e := by_result message in
        if eqb (d_state x) DISPOSITIONED then
          mret (if eqb (d_digest x) (Some (disposition_digest e))
                   && from_option (py_eq (evidence_json e)) false (d_evidence x)
                then None else Some (refused conflict "reply_identity_conflict"))
        else if negb (mem (d_state x) [RECEIVED; ACKNOWLEDGED])
        then mret (Some (refused conflict "reply_delivery_not_found"))
        else if eqb (d_state x) RECEIVED
                && negb (received_under (Mailboxes.generation b) (pretty (Mailboxes.generation b)) x)
        then mret (Some (refused conflict "reply_delivery_not_found"))
        else
          update_delivery delivery (to_dispositioned (disposition_digest e) e now);;
          mret None
  end.

(** The checks of [_store] on the delivery a result replies to; [None] lets
    the message through. *)
Definition reply_failure (sender : uuid) (q : MessageSubmitRequest)
    (received_binding : option (Z * string)) : M MsgDB (option SubmitResult) :=
  match q_in_reply_to q with
  | None => mret None
  | Some delivery =>
      replied ← select_delivery delivery;
      match replied with
      | None => mret (Some (refused conflict "reply_delivery_not_found"))
      | Some x =>
          if negb (eqb (d_recipient x) sender) then mret (Some (refused denied "reply_sender_not_recipient"))
          else if match received_binding with
                  | None => false
                  | Some (version, generation) =>
                      negb (mem (d_state x) [RECEIVED; ACKNOWLEDGED])
                      || (eqb (d_state x) RECEIVED && negb (received_under version generation x))
                  end
          then mret (Some (refused conflict "reply_delivery_not_found"))
          else
            prior ← select_reply delivery;
            mret (if match prior with
                     | None => false
                     | Some m => negb (is_message sender (q_message_id q) m)
                     end
                  then Some (refused conflict "reply_identity_conflict") else None)
      end
  end.

(** [_notify_delivery]: an error of the callback is only logged. *)
Definition _notify_delivery (m : PendingMessage) (fresh : bool) : M MsgDB unit := λ d,
  (mkMsgDB (messages d) (deliveries d) (review_cutoff_receipt d) (agents d) (grants d) (handles d)
     (signals d ++ [(m, fresh)]), Ok tt).

(** The transaction of [_store]: a refusal, or the row and whether it is new.
    [_AtomicResultFailure] carries a [conflict] with the message's reason. *)
Definition store_locked (sender : uuid) (route : MessageRoute) (q : MessageSubmitRequest)
    (received_binding : option (Z * string)) (b : option Mailboxes.AgentMailbox)
  : M MsgDB (SubmitResult + (DeliveryRow * MessageRow) * bool) :=
  d ← get_st;
  if mem (q_route_ref q) REVIEW_ROUTE_REFS && review_cutoff_receipt d
  then mret (inl (refused denied "reserved_route"))
  else if negb (binding_current b d) then mret (inl (refused stale "sender_binding_changed"))
  else
    failure ← reply_failure sender q received_binding;
    match failure with
    | Some answer => mret (inl answer)
    | None =>
        stored ← _persist_delivery sender route q (_digest route q);
        match stored with
        | (None, _) => mret (inl (refused conflict "message_identity_conflict"))
        | (Some row, fresh) =>
            match q_in_reply_to q, b with
            | Some delivery, Some binding =>
                failure ← _disposition_result delivery sender (q_message_id q) binding;
                match failure with
                | Some answer => throw AtomicResultFailure (or_empty (s_reason answer))
                | None => mret (inr (row, fresh))
                end
            | _, _ => mret (inr (row, fresh))
            end
        end
    end.

(** [_store] *)
Definition _store (sender : uuid) (route : MessageRoute) (q : MessageSubmitRequest)
    (received_binding : option (Z * string)) (b : option Mailboxes.AgentMailbox) : M MsgDB SubmitResult :=
  stored ← transaction (store_locked sender route q received_binding b);
  match stored with
  | inl answer => mret answer
  | inr (row, fresh) =>
      _notify_delivery (_view row) fresh;;
      mret (submitted (_view row))
  end.

Definition unavailable : SubmitResult := refused recovery_required "state_unavailable".

(** [submit_admitted] *)
Definition submit_admitted (sender : uuid) (route : MessageRoute) (q : MessageSubmitRequest)
    (b : option Mailboxes.AgentMailbox) : M MsgDB SubmitResult :=
  catch (_store sender route q None b) [SQLAlchemyError; ValueError] (λ _, mret unavailable).

(** [submit_received_result] *)
Definition submit_received_result (sender : uuid) (version : Z) (generation : string) (route : MessageRoute)
    (q : MessageSubmitRequest) (b : option Mailboxes.AgentMailbox) : M MsgDB SubmitResult :=
  catch (_store sender route q (Some (version, generation)) b)
    [AtomicResultFailure; SQLAlchemyError; ValueError]
    (λ e, mret (if eqb (exn_cls e) AtomicResultFailure then refused conflict (exn_msg e) else unavailable)).

(** [submit_review_internal], inside its caller's [review_transaction], which
    makes the wake signals of fresh deliveries when it commits: here they are
    part of the state that a rollback restores. *)
Definition submit_review_internal (sender : Mailboxes.AgentMailbox) (route : MessageRoute)
    (q : MessageSubmitRequest) (received_binding : option (Z * string)) (wake : bool) : M MsgDB SubmitResult :=
  let endpoint := Mailboxes.endpoint_id sender in
  d ← get_st;
  if negb (binding_current (Some sender) d) then mret (refused stale "sender_binding_changed")
  else
    failure ←
      match q_in_reply_to q with
      | None => mret None
      | Some delivery =>
          replied ← select_delivery delivery;
          if match replied with
             | None => true
             | Some x => negb (eqb (d_recipient x) endpoint)
                 || match received_binding with
                    | None => false
                    | Some (version, generation) =>
                        negb (eqb (d_state x) RECEIVED && received_under version generation x)
                    end
             end
          then mret (Some (refused conflict "reply_delivery_not_found"))
          else
            prior ← select_reply delivery;
            mret (if match prior with
                     | None => false
                     | Some m => negb (is_message endpoint (q_message_id q) m)
                     end
                  then Some (refused conflict "reply_identity_conflict") else None)
      end;
    match failure with
    | Some answer => mret answer
    | None =>
        stored ← _persist_delivery endpoint route q (_digest route q);
        match stored with
        | (None, _) => mret (refused conflict "message_identity_conflict")
        | (Some row, fresh) =>
            (if (fresh : bool) && wake then _notify_delivery (_view row) true else mret tt);;
            mret (submitted (_view row))
        end
    end.

(** [committed_public_replay] *)
Definition committed_public_replay (sender : uuid) (q : MessageSendRequest)
    (b : option Mailboxes.AgentMailbox) : M MsgDB (option SubmitResult) :=
  transaction (
    d ← get_st;
    if negb (binding_current b d) then mret (Some (refused stale "sender_binding_changed"))
    else
      row ← lift (one_or_none (List.filter (λ xm, is_message sender (n_message_id q) xm.2) (joined d)));
      match row with
      | None => mret None
      | Some (x, m) =>
          let is_request := is_none (n_in_reply_to q) in
          if negb (eqb (m_kind m) (if is_request then request else result)
                   && py_eq (m_payload m) (n_payload q)
                   && eqb (m_in_reply_to m) (n_in_reply_to q)
                   && (negb is_request || (eqb (Some (d_recipient x)) (n_recipient q)
                                           && eqb (Some (m_route_ref m)) (n_route_ref q))))
          then mret (Some (refused conflict "message_identity_conflict"))
          else
            failure ←
              match n_in_reply_to q, b with
              | Some delivery, Some binding =>
                  _disposition_result delivery sender (n_message_id q) binding
              | _, _ => mret None
              end;
            mret (Some match failure with Some answer => answer | None => submitted (_view (x, m)) end)
      end).
End submission.

(** ** Transitions *)

Record TransitionResult := mkTransition {
  t_status : Status; t_state : option DeliveryState; t_digest : option string; t_reason : option string }.

(** [_transition] *)
Definition _transition (s : Status) (reason : option string) (row : option DeliveryRow) : TransitionResult :=
  mkTransition s (d_state <$> row) (row ≫= d_digest) reason.

(** [runtime_admission] *)
Definition runtime_admission (rt : RuntimeCurrentness) : option (Status * string) :=
  match rt_current rt with
  | None => Some (recovery_required, "runtime_currentness_unavailable")
  | Some g => if negb (eqb (rt_generation rt) g) then Some (stale, "runtime_generation_changed") else None
  end.

(** [_admitted_access] *)
Definition _admitted_access (row : option DeliveryRow) (work : uuid) : option TransitionResult :=
  match row with
  | None => Some (_transition denied (Some "delivery_not_found") None)
  | Some x => if negb (eqb (d_recipient x) work)
              then Some (_transition denied (Some "delivery_not_for_current_work") None) else None
  end.

Definition transition_unavailable : TransitionResult :=
  _transition recovery_required (Some "state_unavailable") None.

(** What [receive_admitted], [recover_admitted] and [disposition_admitted]
    share: the runtime, the binding and the access are checked in this order
    before [body] sees the locked row. *)
Definition admitted (work : uuid) (rt : RuntimeCurrentness) (id : uuid)
    (b : option Mailboxes.AgentMailbox) (body : DeliveryRow → M MsgDB TransitionResult)
  : M MsgDB TransitionResult :=
  match runtime_admission rt with
  | Some (s, reason) => mret (_transition s (Some reason) None)
  | None =>
      catch (transaction (
        d ← get_st;
        if negb (binding_current b d) then mret (_transition stale (Some "receiving_binding_changed") None)
        else
          row ← select_delivery id;
          match _admitted_access row work, row with
          | Some answer, _ => mret answer
          | None, Some x => body x
          | None, None => throw AssertionError ""
          end))
        [SQLAlchemyError; ValueError] (λ _, mret transition_unavailable)
  end.

Section transitions.
Context (now : Z).

(** [receive_admitted] *)
Definition receive_admitted (work : uuid) (version : Z) (rt : RuntimeCurrentness) (id : uuid)
    (b : option Mailboxes.AgentMailbox) : M MsgDB TransitionResult :=
  admitted work rt id b (λ x,
    match d_state x with
    | DISPOSITIONED => mret (_transition conflict (Some "delivery_already_dispositioned") (Some x))
    | ACKNOWLEDGED => mret (_transition conflict (Some "delivery_already_acknowledged") (Some x))
    | RECEIVED =>
        mret (if negb (received_under version (rt_generation rt) x)
              then _transition recovery_required (Some "receiving_binding_changed") (Some x)
              else _transition ok None (Some x))
    | AVAILABLE =>
        x' ← update_delivery id (to_received version (rt_generation rt) now);
        mret (_transition ok None (Some x'))
    end).

(** [recover_admitted] *)
Definition recover_admitted (work : uuid) (version : Z) (rt : RuntimeCurrentness) (id : uuid)
    (b : option Mailboxes.AgentMailbox) : M MsgDB TransitionResult :=
  admitted work rt id b (λ x,
    if eqb (d_state x) DISPOSITIONED
    then mret (_transition conflict (Some "delivery_already_dispositioned") (Some x))
    else if negb (eqb (d_state x) RECEIVED)
    then mret (_transition conflict (Some "delivery_not_received") (Some x))
    else
      x' ← update_delivery id (rebound version (rt_generation rt));
      mret (_transition ok None (Some x'))).

(** [isinstance(receipt)] with a [work_id] attribute. *)
Definition receipt_work_id (r : Grants.Receipt) : option uuid :=
  match r with
  | Grants.EffectReceipt _ w _ _ _ _ _ | Grants.CreateReceipt _ w _ _ _ _ _ _
  | Grants.RelationReceipt _ w _ _ _ _ _ _ | Grants.UpdateReceipt _ w _ _ _ _ _ _
  | Grants.FeedbackClassificationReceipt _ w _ _ _ _ _ _ => Some w
  | Grants.PriorityClaimReceipt _ w _ _ _ _ _ _ _ _ => w
  | Grants.ProjectCreateReceipt _ _ _ _ => None
  end.

(** A read of the grant tables by another connection. *)
Definition on_grants {A} (m : M GrantState.GrantDB A) : M MsgDB A := λ d, (d, (m (grants d)).2).

(** [_evidence_failure_for_work] *)
Definition _evidence_failure_for_work (work : uuid) (x : DeliveryRow) (e : DispositionEvidence)
  : M MsgDB (option string) :=
  match e with
  | by_result message =>
      row ← select_message work message;
      mret (match row with
            | None => Some "result_evidence_missing"
            | Some m => if negb (eqb (m_in_reply_to m) (Some (d_id x)))
                        then Some "result_evidence_mismatch" else None
            end)
  | by_effect op =>
      if negb (eqb op (message_effect_operation_id (d_id x))) then mret (Some "effect_evidence_mismatch")
      else
        previous ← on_grants (GrantState.previous op work);
        mret (match previous with
              | None => Some "effect_evidence_missing"
              | Some (_, _, o) =>
                  if negb (eqb (Grants.operation_id o) (Some op)) then Some "effect_evidence_mismatch"
                  else match Grants.effect o with
                       | Grants.unknown => Some "effect_evidence_unknown"
                       | Grants.not_sent => Some "effect_not_applied"
                       | Grants.applied =>
                           if match Grants.receipt o with
                              | None => true
                              | Some r => negb (eqb (receipt_work_id r) (Some work))
                              end
                           then Some "effect_evidence_mismatch" else None
                       end
              end)
  end.

(** [disposition_admitted] *)
Definition disposition_admitted (work : uuid) (version : Z) (rt : RuntimeCurrentness)
    (q : MessageDispositionRequest) (b : option Mailboxes.AgentMailbox) : M MsgDB TransitionResult :=
  admitted work rt (x_delivery_id q) b (λ x,
    if eqb (d_state x) DISPOSITIONED then
      mret (if eqb (d_digest x) (Some (x_digest q))
               && from_option (py_eq (evidence_json (x_evidence q))) false (d_evidence x)
            then _transition ok None (Some x)
            else _transition conflict (Some "disposition_identity_conflict") (Some x))
    else if negb (mem (d_state x) [RECEIVED; ACKNOWLEDGED])
    then mret (_transition conflict (Some "delivery_not_received") (Some x))
    else if eqb (d_state x) RECEIVED && negb (received_under version (rt_generation rt) x)
    then mret (_transition recovery_required (Some "receiving_binding_changed") (Some x))
    else
      failure ← _evidence_failure_for_work work x (x_evidence q);
      match failure with
      | Some reason => mret (_transition recovery_required (Some reason) (Some x))
      | None =>
          x' ← update_delivery (x_delivery_id q) (to_dispositioned (x_digest q) (x_evidence q) now);
          mret (_transition ok None (Some x'))
      end).

(** *** Acknowledgement *)

Record AcknowledgeItem := mkItem {
  a_delivery_id : uuid; a_status : Status; a_state : option DeliveryState; a_reason : option string }.

Record AcknowledgeResult := mkAcknowledge {
  k_status : Status; k_results : list AcknowledgeItem; k_reason : option string }.

(** [MessageAcknowledgeRequest(...)] *)
Definition acknowledge_validate (ids : list uuid) : res (list uuid) :=
  if (1 <=? length ids)%nat && (length ids <=? 10)%nat then Ok ids else raise ValueError "validation error".

(** One identifier of the request. *)
Definition acknowledge_one (work : uuid) (version : Z) (b : Mailboxes.AgentMailbox) (id : uuid)
  : M MsgDB AcknowledgeItem :=
  row ← select_delivery id;
  match row with
  | None => mret (mkItem id denied None (Some "delivery_not_found"))
  | Some x =>
      if negb (eqb (d_recipient x) work)
      then mret (mkItem id denied None (Some "delivery_not_for_current_work"))
      else if eqb (d_state x) DISPOSITIONED
      then mret (mkItem id conflict None (Some "delivery_already_dispositioned"))
      else
        (if negb (eqb (d_state x) ACKNOWLEDGED)
         then update_delivery id (to_acknowledged version (pretty (Mailboxes.generation b)) now);; mret tt
         else mret tt);;
        mret (mkItem id ok (Some ACKNOWLEDGED) None)
  end.

Fixpoint acknowledge_each (work : uuid) (version : Z) (b : Mailboxes.AgentMailbox) (ids : list uuid)
  : M MsgDB (list AcknowledgeItem) :=
  match ids with
  | [] => mret []
  | id :: ids =>
      item ← acknowledge_one work version b id;
      items ← acknowledge_each work version b ids;
      mret (item :: items)
  end.

(** [acknowledge_admitted] *)
Definition acknowledge_admitted (work : uuid) (version : Z) (ids : list uuid) (b : Mailboxes.AgentMailbox)
  : M MsgDB AcknowledgeResult :=
  catch (transaction (
    d ← get_st;
    if negb (binding_current (Some b) d)
    then mret (mkAcknowledge stale [] (Some "receiving_binding_changed"))
    else
      items ← acknowledge_each work version b ids;
      mret (mkAcknowledge ok items None)))
    [SQLAlchemyError; ValueError] (λ _, mret (mkAcknowledge recovery_required [] (Some "state_unavailable"))).
End transitions.

(** ** Any call of the store *)

Inductive Call :=
  | c_submit (now : Z) (sender : uuid) (route : MessageRoute) (q : MessageSubmitRequest)
      (b : option Mailboxes.AgentMailbox)
  | c_submit_result (now : Z) (sender : uuid) (version : Z) (generation : string) (route : MessageRoute)
      (q : MessageSubmitRequest) (b : option Mailboxes.AgentMailbox)
  | c_review (now : Z) (sender : Mailboxes.AgentMailbox) (route : MessageRoute) (q : MessageSubmitRequest)
      (received_binding : option (Z * string)) (wake : bool)
  | c_replay (now : Z) (sender : uuid) (q : MessageSendRequest) (b : option Mailboxes.AgentMailbox)
  | c_receive (now : Z) (work : uuid) (version : Z) (rt : RuntimeCurrentness) (id : uuid)
      (b : option Mailboxes.AgentMailbox)
  | c_recover (work : uuid) (version : Z) (rt : RuntimeCurrentness) (id : uuid)
      (b : option Mailboxes.AgentMailbox)
  | c_disposition (now : Z) (work : uuid) (version : Z) (rt : RuntimeCurrentness)
      (q : MessageDispositionRequest) (b : option Mailboxes.AgentMailbox)
  | c_acknowledge (now : Z) (work : uuid) (version : Z) (ids : list uuid) (b : Mailboxes.AgentMailbox)
  | c_world (cutoff : bool) (a : Mailboxes.MailboxDB) (g : GrantState.GrantDB) (h : WorkState.StateDB).

(** The request models are built before the store is called; [c_world] is
    what the other components do to the tables the store only reads. *)
Definition run (c : Call) (d : MsgDB) : MsgDB :=
  match c with
  | c_submit now s r q b => ((q ← lift (submit_validate q); submit_admitted now s r q b) d).1
  | c_submit_result now s v g r q b =>
      ((q ← lift (submit_validate q); submit_received_result now s v g r q b) d).1
  | c_review now s r q rb wake =>
      ((q ← lift (submit_validate q); transaction (submit_review_internal now s r q rb wake)) d).1
  | c_replay now s q b => ((q ← lift (send_validate q); committed_public_replay now s q b) d).1
  | c_receive now w v rt id b => (receive_admitted now w v rt id b d).1
  | c_recover w v rt id b => (recover_admitted w v rt id b d).1
  | c_disposition now w v rt q b =>
      ((q ← lift (disposition_validate q); disposition_admitted now w v rt q b) d).1
  | c_acknowledge now w v ids b =>
      ((ids ← lift (acknowledge_validate ids); acknowledge_admitted now w v ids b) d).1
  | c_world cutoff a g h =>
      mkMsgDB (messages d) (deliveries d) cutoff a g h (signals d)
  end.

Definition run_all (cs : list Call) (d : MsgDB) : MsgDB := foldl (λ d c, run c d) d cs.

(** What a call submits. *)
Definition submission_of (c : Call) : option (MessageRoute * MessageSubmitRequest) :=
  match c with
  | c_submit _ _ r q _ | c_submit_result _ _ _ _ r q _ | c_review _ _ r q _ _ => Some (r, q)
  | _ => None
  end.

(** Who makes a call; [None] is the world outside the store. *)
Definition caller (c : Call) : option uuid :=
  match c with
  | c_submit _ s _ _ _ | c_submit_result _ s _ _ _ _ _ | c_replay _ s _ _ => Some s
  | c_review _ s _ _ _ _ => Some (Mailboxes.endpoint_id s)
  | c_receive _ w _ _ _ _ | c_recover w _ _ _ _ | c_disposition _ w _ _ _ _ | c_acknowledge _ w _ _ _ => Some w
  | c_world _ _ _ _ => None
  end.

(** ** The abstract machine *)

(** The evidence of a disposition: the recipient's own reply to the delivery,
    or the one effect identity of the delivery. *)
Definition evidence_for (ms : list MessageRow) (x : DeliveryRow) (e : DispositionEvidence) : Prop :=
  match e with
  | by_result id => ∃ m, m ∈ ms ∧ message_key m = (d_recipient x, id) ∧ m_in_reply_to m = Some (d_id x)
  | by_effect op => op = message_effect_operation_id (d_id x)
  end.

(** One transition of a delivery. *)
Inductive dstep (ms : list MessageRow) (x : DeliveryRow) : DeliveryRow → Prop :=
  | ds_receive v g now : d_state x = AVAILABLE → dstep ms x (to_received v g now x)
  | ds_rebind v g : d_state x = RECEIVED → dstep ms x (rebound v g x)
  | ds_acknowledge v g now :
      d_state x = AVAILABLE ∨ d_state x = RECEIVED → dstep ms x (to_acknowledged v g now x)
  | ds_dispose e now :
      d_state x = RECEIVED ∨ d_state x = ACKNOWLEDGED → evidence_for ms x e →
      dstep ms x (to_dispositioned (disposition_digest e) e now x).

(** A new delivery. *)
Definition fresh_delivery (x : DeliveryRow) : Prop :=
  d_id x = uuid5 DELIVERY_NAMESPACE (str_join ":" [d_sender x; d_message x; d_recipient x]) ∧
  d_state x = AVAILABLE ∧ d_received_at x = None ∧ d_generation x = None ∧
  d_dispositioned_at x = None ∧ d_digest x = None ∧ d_evidence x = None.

(** The rows that a submission makes. *)
Definition message_of (sender : uuid) (route : MessageRoute) (q : MessageSubmitRequest) (now : Z) : MessageRow :=
  mkMessage sender (q_message_id q) (q_route_ref q) (q_kind q) (q_payload q) (_digest route q) (q_in_reply_to q) now.
Definition delivery_of (sender : uuid) (route : MessageRoute) (q : MessageSubmitRequest) : DeliveryRow :=
  mkDelivery (uuid5 DELIVERY_NAMESPACE (str_join ":" [sender; q_message_id q; r_recipient route]))
    sender (q_message_id q) (r_recipient route) AVAILABLE (r_grant_version route) None None None None None.

Section machine.
(** What is submitted, and who acts: [None] is the world outside the store. *)
Context (Sub : MessageRoute → MessageSubmitRequest → Prop) (By : option uuid → Prop).

(** The sender adds a message or its delivery, the recipient moves a delivery,
    a wake signal is made, or the tables that the store only reads change. *)
Inductive AStep (d : MsgDB) : MsgDB → Prop :=
  | a_message sender route q now :
      By (Some sender) → Sub route q →
      (∀ m', m' ∈ messages d → message_key m' ≠ (sender, q_message_id q)) →
      (∀ r, q_in_reply_to q = Some r →
         (∀ m', m' ∈ messages d → m_in_reply_to m' ≠ Some r) ∧
         ∃ x, x ∈ deliveries d ∧ d_id x = r ∧ d_recipient x = sender) →
      AStep d (with_messages (messages d ++ [message_of sender route q now]) d)
  | a_deliver sender route q m :
      By (Some sender) → Sub route q →
      m ∈ messages d → message_key m = (sender, q_message_id q) → m_digest m = _digest route q →
      (∀ x', x' ∈ deliveries d → d_id x' ≠ d_id (delivery_of sender route q) ∧
         delivery_key x' ≠ (sender, q_message_id q, r_recipient route)) →
      AStep d (with_deliveries (deliveries d ++ [delivery_of sender route q]) d)
  | a_transition x y :
      By (Some (d_recipient x)) → x ∈ deliveries d → dstep (messages d) x y →
      AStep d (with_deliveries (replace_row x y (deliveries d)) d)
  | a_signal p (fresh : bool) : AStep d (_notify_delivery p fresh d).1
  | a_world cutoff a g h :
      By None → AStep d (mkMsgDB (messages d) (deliveries d) cutoff a g h (signals d)).

(** *** The invariant of the machine *)

Definition state_ok (ms : list MessageRow) (x : DeliveryRow) : Prop :=
  match d_state x with
  | AVAILABLE => fresh_delivery x
  | RECEIVED | ACKNOWLEDGED =>
      is_Some (d_received_at x) ∧ is_Some (d_generation x) ∧ d_dispositioned_at x = None ∧
      d_digest x = None ∧ d_evidence x = None
  | DISPOSITIONED =>
      is_Some (d_received_at x) ∧ is_Some (d_generation x) ∧ is_Some (d_dispositioned_at x) ∧
      ∃ e, d_digest x = Some (disposition_digest e) ∧ d_evidence x = Some (evidence_json e) ∧
        evidence_for ms x e
  end.

Record wf (d : MsgDB) : Prop := {
  wf_message_key : NoDup (message_key <$> messages d);
  wf_reply m1 m2 r : m1 ∈ messages d → m2 ∈ messages d →
    m_in_reply_to m1 = Some r → m_in_reply_to m2 = Some r → m1 = m2;
  wf_reply_of m r : m ∈ messages d → m_in_reply_to m = Some r →
    ∃ x, x ∈ deliveries d ∧ d_id x = r ∧ d_recipient x = m_sender m;
  wf_content m : m ∈ messages d →
    ∃ route q, Sub route q ∧ m_digest m = _digest route q ∧ m_in_reply_to m = q_in_reply_to q;
  wf_delivery_id : NoDup (d_id <$> deliveries d);
  wf_delivery_key : NoDup (delivery_key <$> deliveries d);
  wf_foreign x : x ∈ deliveries d → ∃ m, m ∈ messages d ∧ message_key m = (d_sender x, d_message x);
  wf_state x : x ∈ deliveries d → state_ok (messages d) x }.

Lemma dstep_keys ms x y :
  dstep ms x y → d_id y = d_id x ∧ delivery_key y = delivery_key x.
Proof. by intros []. Qed.

Lemma dstep_state_ok ms x y : state_ok ms x → dstep ms x y → state_ok ms y.
Proof.
  unfold state_ok. intros Hx [v g t Hs|v g Hs|v g t Hs|e t Hs He]; cbn.
  - rewrite Hs in Hx. destruct Hx as (_ & _ & _ & _ & H1 & H2 & H3). eauto 6.
  - rewrite Hs in *. naive_solver.
  - destruct Hs as [Hs|Hs]; rewrite Hs in Hx; [destruct Hx as (_ & _ & _ & _ & H1 & H2 & H3)
      | destruct Hx as (_ & _ & H1 & H2 & H3)]; eauto 6.
  - destruct Hs as [Hs|Hs]; rewrite Hs in Hx; destruct Hx as (H0 & H1 & _);
      (split; [done|]; split; [done|]; split; [by eexists|]; by exists e).
Qed.

Lemma state_ok_mono ms ms' x : (∀ m, m ∈ ms → m ∈ ms') → state_ok ms x → state_ok ms' x.
Proof.
  intros Hsub. unfold state_ok. destruct (d_state x); [done..|].
  intros (H1 & H2 & H3 & e & H4 & H5 & H6). split; [done|]. split; [done|]. split; [done|].
  exists e. split; [done|]. split; [done|]. destruct e as [id|op]; [|done]. cbn in *.
  destruct H6 as (m & Hm & ?). eauto.
Qed.

(** The keys of a table do not change when a delivery does. *)
Lemma replace_keys {K} (f : DeliveryRow → K) x y l :
  f y = f x → f <$> replace_row x y l = f <$> l.
Proof.
  intros Hf. unfold replace_row. rewrite <- list_fmap_compose. apply list_fmap_ext. intros i z _. cbn.
  destruct (eqb z x) eqn:E; [|done]. rewrite eqb_true in E. by subst.
Qed.

Lemma wf_add_message d m route q :
  wf d → Sub route q → m_digest m = _digest route q → m_in_reply_to m = q_in_reply_to q →
  (∀ m', m' ∈ messages d → message_key m' ≠ message_key m) →
  (∀ r, m_in_reply_to m = Some r →
     (∀ m', m' ∈ messages d → m_in_reply_to m' ≠ Some r) ∧
     ∃ x, x ∈ deliveries d ∧ d_id x = r ∧ d_recipient x = m_sender m) →
  wf (with_messages (messages d ++ [m]) d).
Proof.
  intros [H1 H2 H3 H4 H5 H6 H7 H8] Hs Hd Hr Hk Hreply.
  split; cbn; try done.
  - by apply NoDup_snoc.
  - intros m1 m2 r [Hm1| ->]%elem_of_snoc [Hm2| ->]%elem_of_snoc Hr1 Hr2; [by eapply H2| | | done].
    + by destruct (Hreply r Hr2) as [Hno _]; destruct (Hno m1 Hm1).
    + by destruct (Hreply r Hr1) as [Hno _]; destruct (Hno m2 Hm2).
  - intros m' r [Hm'| ->]%elem_of_snoc Hr'; [by eapply H3 | by apply Hreply].
  - intros m' [Hm'| ->]%elem_of_snoc; [by apply H4 | by exists route, q].
  - intros x Hx. destruct (H7 x Hx) as (m' & Hm' & ?). exists m'. split; [rewrite elem_of_snoc; by left | done].
  - intros x Hx. eapply state_ok_mono, H8, Hx. intros m' Hm'. rewrite elem_of_snoc. by left.
Qed.

Lemma wf_add_delivery d x m :
  wf d → fresh_delivery x → m ∈ messages d → message_key m = (d_sender x, d_message x) →
  (∀ x', x' ∈ deliveries d → d_id x' ≠ d_id x ∧ delivery_key x' ≠ delivery_key x) →
  wf (with_deliveries (deliveries d ++ [x]) d).
Proof.
  intros [H1 H2 H3 H4 H5 H6 H7 H8] Hf Hm Hk Hno.
  split; cbn; try done.
  - intros m' r Hm' Hr. destruct (H3 m' r Hm' Hr) as (x' & Hx' & ?). exists x'. split; [rewrite elem_of_snoc; by left | done].
  - apply NoDup_snoc; [done|]. intros y Hy. by apply Hno.
  - apply NoDup_snoc; [done|]. intros y Hy. by apply Hno.
  - intros x' [Hx'| ->]%elem_of_snoc; [by apply H7 | by exists m].
  - intros x' [Hx'| ->]%elem_of_snoc; [by apply H8|]. unfold state_ok. pose proof Hf as (_ & -> & _). done.
Qed.

Lemma wf_replace d x y :
  wf d → x ∈ deliveries d → dstep (messages d) x y →
  wf (with_deliveries (replace_row x y (deliveries d)) d).
Proof.
  intros [H1 H2 H3 H4 H5 H6 H7 H8] Hx Hs. destruct (dstep_keys _ _ _ Hs) as [Hid Hkey].
  split; cbn; try done.
  - intros m r Hm Hr. destruct (H3 m r Hm Hr) as (x' & Hx' & Hr1 & Hr2).
    destruct (decide (x' = x)) as [->|Hne].
    + exists y. rewrite replace_row_elem. split; [by left|].
      unfold delivery_key in Hkey. split; [congruence|]. injection Hkey. congruence.
    + exists x'. rewrite replace_row_elem. auto.
  - by rewrite replace_keys.
  - by rewrite replace_keys.
  - intros z [[-> _]|[_ Hz]]%replace_row_elem; [|by apply H7].
    destruct (H7 x Hx) as (m & Hm & Hmk). exists m. split; [done|]. unfold delivery_key in Hkey. congruence.
  - intros z [[-> _]|[_ Hz]]%replace_row_elem; [|by apply H8]. eapply dstep_state_ok; [by apply H8 | done].
Qed.

Lemma AStep_wf d d' : wf d → AStep d d' → wf d'.
Proof.
  intros Hwf [s route q t ? ? ? ?|s route q m ? ? ? ? ? ?|x y ? ? ?|p fresh|cutoff a g h ?]; [by eapply wf_add_message
    | by eapply wf_add_delivery | by apply wf_replace |by destruct Hwf..].
Qed.

Lemma ASteps_wf d d' : wf d → rtc AStep d d' → wf d'.
Proof. intros Hwf H. induction H; [done|]. by eapply IHrtc, AStep_wf. Qed.

(** *** What the steps preserve *)

(** A delivery is never lost and keeps its identity, and a message never
    changes. *)
Definition moves (d : MsgDB) : DeliveryRow → DeliveryRow → Prop := rtc (dstep (messages d)).

Record grows (d d' : MsgDB) : Prop := {
  gr_messages : ∃ l, messages d' = messages d ++ l;
  gr_deliveries : ∃ l1 l2, deliveries d' = l1 ++ l2 ∧ Forall2 (moves d') (deliveries d) l1 ∧
    Forall (λ y, ∃ x, fresh_delivery x ∧ moves d' x y) l2 }.

Lemma dstep_mono ms l x y : dstep ms x y → dstep (ms ++ l) x y.
Proof.
  intros []; try (by constructor; eauto). apply ds_dispose; [done|]. destruct e; [|done].
  cbn in *. destruct H0 as (m & ? & ?). exists m. split; [apply elem_of_app; by left | done].
Qed.

Lemma moves_mono ms l x y : rtc (dstep ms) x y → rtc (dstep (ms ++ l)) x y.
Proof. intros H. induction H; [done|]. eapply rtc_l; [by apply dstep_mono | done]. Qed.

Lemma grows_refl d : grows d d.
Proof.
  split; [exists []; by rewrite app_nil_r|]. exists (deliveries d), []. rewrite app_nil_r.
  split; [done|]. split; [|done]. apply Forall_Forall2_diag, Forall_true. by intros x.
Qed.

Lemma grows_trans d1 d2 d3 : grows d1 d2 → grows d2 d3 → grows d1 d3.
Proof.
  intros [[l Hl] (a1 & a2 & Ha & Hf & Hn)] [[l' Hl'] (b1 & b2 & Hb & Hf' & Hn')].
  assert (Hmono : ∀ x y, moves d2 x y → moves d3 x y).
  { intros x y. unfold moves. rewrite Hl'. apply moves_mono. }
  split; [exists (l ++ l'); by rewrite Hl', Hl, app_assoc|].
  rewrite Ha in Hf'. apply Forall2_app_inv_l in Hf' as (c1 & c2 & Hc1 & Hc2 & ->).
  exists c1, (c2 ++ b2). rewrite Hb, app_assoc. split; [done|]. split.
  - eapply Forall2_trans; [|exact Hf | exact Hc1]. intros x y z Hxy Hyz. etrans; [by apply Hmono | exact Hyz].
  - apply Forall_app. split; [|exact Hn']. clear -Hn Hc2 Hmono. revert Hn.
    induction Hc2 as [|y z l1 l2 Hyz Hc IH]; intros Hn; [done|].
    apply Forall_cons in Hn as [(x & Hx & Hxy) Hn]. apply Forall_cons. split; [|by apply IH].
    exists x. split; [done|]. etrans; [by apply Hmono | exact Hyz].
Qed.

Lemma AStep_grows d d' : AStep d d' → grows d d'.
Proof.
  assert (Hid : ∀ d l, Forall2 (moves d) l l).
  { intros d0 l. apply Forall_Forall2_diag, Forall_true. by intros x. }
  intros [s route q t ? ? ? ?|s route q m ? ? ? ? ? ?|x y ? ? Hs|p fresh|cutoff a g h ?].
  - split; [by eexists|]. exists (deliveries d), []. rewrite app_nil_r. split; [done|]. by split.
  - split; [exists []; by rewrite app_nil_r|]. eexists (deliveries d), [_]. split; [done|]. split; [done|].
    apply Forall_singleton. by exists (delivery_of s route q).
  - split; [exists []; by rewrite app_nil_r|]. exists (replace_row x y (deliveries d)), [].
    rewrite app_nil_r. split; [done|]. split; [|done]. unfold replace_row.
    apply Forall2_fmap_r. apply Forall_Forall2_diag, Forall_true. intros z. cbn.
    destruct (eqb z x) eqn:E; [|done]. rewrite eqb_true in E. subst z. by apply rtc_once.
  - split; [exists []; by rewrite app_nil_r|]. exists (deliveries d), []. rewrite app_nil_r. by split.
  - split; [exists []; by rewrite app_nil_r|]. exists (deliveries d), []. rewrite app_nil_r. by split.
Qed.

Lemma ASteps_grow d d' : rtc AStep d d' → grows d d'.
Proof. intros H. induction H; [apply grows_refl|]. eapply grows_trans; [by apply AStep_grows | done]. Qed.
End machine.

(** ** The operations refine the machine *)

(** The branch a run took. *)
Ltac case_if H :=
  match type of H with (if ?c then _ else _) _ = _ => destruct c eqn:? end.

Lemma is_message_true s i m : is_message s i m = true ↔ message_key m = (s, i).
Proof.
  unfold is_message, message_key. rewrite andb_true_iff, !eqb_true.
  split; [by intros [-> ->] | by intros [= -> ->]].
Qed.

Lemma is_delivery_true i x : is_delivery i x = true ↔ d_id x = i.
Proof. apply eqb_true. Qed.

Lemma select_delivery_Ok id d d' r :
  select_delivery id d = (d', Ok r) →
  d' = d ∧ ∀ x, r = Some x → List.filter (is_delivery id) (deliveries d) = [x] ∧ x ∈ deliveries d ∧ d_id x = id.
Proof.
  intros [= <- H]. split; [done|]. intros x ->. apply one_or_none_Some in H. split; [done|].
  apply filter_one in H as [Hx Hid%is_delivery_true]. done.
Qed.

Lemma select_reply_state id d d' r : select_reply id d = (d', Ok r) → d' = d.
Proof. by intros [= <- _]. Qed.

Lemma insert_message_Ok m d d' a :
  insert_message m d = (d', Ok a) →
  d' = d ∨
  d' = with_messages (messages d ++ [m]) d ∧
  (∀ m', m' ∈ messages d → message_key m' ≠ message_key m) ∧
  (∀ r, m_in_reply_to m = Some r → ∀ m', m' ∈ messages d → m_in_reply_to m' ≠ Some r).
Proof.
  unfold insert_message. destruct (existsb _ _) eqn:E; intros [= <- _]; [by left|]. right. split; [done|].
  rewrite existsb_false in E. split.
  - intros m' Hm' Hk. specialize (E m' Hm'). apply orb_false_iff in E as [E _].
    apply not_true_iff_false in E. apply E, is_message_true, Hk.
  - intros r Hr m' Hm' Hr'. specialize (E m' Hm'). apply orb_false_iff in E as [_ E].
    apply not_true_iff_false in E. apply E. rewrite Hr, Hr'. cbn. apply eqb_refl.
Qed.

Lemma insert_delivery_Ok x d d' b :
  insert_delivery x d = (d', Ok b) →
  d' = d ∧ b = false ∨
  d' = with_deliveries (deliveries d ++ [x]) d ∧ b = true ∧
  (∀ x', x' ∈ deliveries d → d_id x' ≠ d_id x ∧ delivery_key x' ≠ delivery_key x) ∧
  (∃ m, m ∈ messages d ∧ message_key m = (d_sender x, d_message x)).
Proof.
  unfold insert_delivery. destruct (existsb (λ x', _) (deliveries d)) eqn:E; [intros [= <- <-]; by left|].
  destruct (existsb _ (messages d)) eqn:Em; [|done]. intros [= <- <-]. right. split; [done|]. split; [done|].
  split.
  - rewrite existsb_false in E. intros x' Hx'. specialize (E x' Hx'). apply orb_false_iff in E as [E1 E2].
    rewrite eqb_false in E2. split; [|exact E2]. intros Hid%is_delivery_true. congruence.
  - apply existsb_true in Em as (m & Hm & Hk%is_message_true). by exists m.
Qed.

Lemma update_delivery_Ok id f d d' y x :
  List.filter (is_delivery id) (deliveries d) = [x] → d_id (f x) = d_id x →
  update_delivery id f d = (d', Ok y) →
  y = f x ∧ d' = with_deliveries (replace_row x (f x) (deliveries d)) d.
Proof.
  intros Hf Hid. unfold update_delivery. rewrite (update_unique _ _ _ x) by done. intros [= <- H].
  split; [|done]. rewrite filter_replace, Hf in H by (unfold is_delivery; by rewrite Hid).
  unfold replace_row in H. cbn in H. rewrite eqb_refl in H. by injection H.
Qed.

Lemma one_Ok {A} (l : list A) x : one l = Ok x → l = [x].
Proof. destruct l as [|y [|z l]]; cbn; [done | by intros [= ->] | done]. Qed.

(** What a run that reached a row tells about the row. *)
Lemma joined_elem d x m :
  (x, m) ∈ joined d → x ∈ deliveries d ∧ m ∈ messages d ∧ message_key m = (d_sender x, d_message x).
Proof.
  unfold joined. intros (x0 & Hin & Hx)%list_elem_of_bind. apply list_elem_of_fmap in Hin as (m0 & [= -> ->] & Hm).
  apply list_elem_of_In, filter_In in Hm as [Hm%list_elem_of_In Hk%is_message_true]. done.
Qed.

Lemma AStep_mono Sub Sub' By By' d d' :
  (∀ r q, Sub r q → Sub' r q) → (∀ w, By w → By' w) → rtc (AStep Sub By) d d' → rtc (AStep Sub' By') d d'.
Proof.
  intros HS HB H. induction H as [|d1 d2 d3 Hs _ IH]; [done|]. eapply rtc_l, IH.
  destruct Hs; [apply a_message | eapply a_deliver | apply a_transition | apply a_signal | apply a_world]; eauto.
Qed.

Section refinement.
(** The submissions of the run, those of the part that is looked at, and who
    acts there. *)
Context (All Sub : MessageRoute → MessageSubmitRequest → Prop) (By : option uuid → Prop).
Context (Sub_All : ∀ r q, Sub r q → All r q).
(** No two submissions of the run collide under SHA-256. *)
Context (no_collision : ∀ r q r' q', All r q → All r' q' → _digest r q = _digest r' q' →
  q_in_reply_to q = q_in_reply_to q').

Abbreviation steps := (rtc (AStep Sub By)).

Lemma steps_wf d d' : wf All d → steps d d' → wf All d'.
Proof using Sub_All. intros Hwf H. eapply (ASteps_wf All (λ _, True)); [exact Hwf|]. by eapply AStep_mono. Qed.

(** The submission's reply, when it is one, answers a delivery to the sender. *)
Definition replies (sender : uuid) (q : MessageSubmitRequest) (d : MsgDB) : Prop :=
  ∀ r, q_in_reply_to q = Some r → ∃ x, x ∈ deliveries d ∧ d_id x = r ∧ d_recipient x = sender.

(** The message of a submission is in the table. *)
Definition message_stored (sender : uuid) (q : MessageSubmitRequest) (d : MsgDB) : Prop :=
  ∃ m, m ∈ messages d ∧ message_key m = (sender, q_message_id q) ∧ m_in_reply_to m = q_in_reply_to q.

Lemma persist_Ok now s r q d d' o :
  wf All d → Sub r q → By (Some s) → replies s q d →
  _persist_delivery now s r q (_digest r q) d = (d', Ok o) →
  steps d d' ∧ (is_Some o.1 → message_stored s q d').
Proof using no_collision Sub_All.
  intros Hwf Hq Hby Hrep (d1 & a1 & Hi & H)%M_bind_Ok.
  set (m0 := mkMessage _ _ _ _ _ _ _ _) in Hi.
  assert (H1 : steps d d1).
  { apply insert_message_Ok in Hi as [->|(-> & Hk & Hr)]; [done|]. apply rtc_once.
    apply (a_message Sub By d s r q now); try done. intros r0 Hr0. split; [by apply Hr | by apply Hrep]. }
  clear Hi. apply M_bind_Ok in H as (d2 & d2' & [-> ->]%get_st_Ok & H).
  apply M_bind_Ok in H as (d2 & cur & [Hone ->]%lift_Ok & H). apply one_Ok in Hone.
  destruct (List.filter _ (messages d1)) as [|m [|? ?]] eqn:Hf; try done. injection Hone as Hcur.
  destruct (eqb cur (_digest r q)) eqn:E; cbn [negb] in H;
    [rewrite eqb_true in E | by apply mret_Ok in H as [-> ->]; split; [|by intros []]].
  apply filter_one in Hf as [Hm Hk%is_message_true].
  apply M_bind_Ok in H as (d2 & ins & Hins & H). apply M_bind_Ok in H as (d3 & d3' & [-> ->]%get_st_Ok & H).
  apply M_bind_Ok in H as (d3 & row & [Hrow ->]%lift_Ok & H). apply mret_Ok in H as [-> ->].
  pose proof (steps_wf _ _ Hwf H1) as Hwf1.
  assert (Hst : message_stored s q d1).
  { exists m. split; [done|]. split; [done|]. destruct (wf_content _ _ Hwf1 m Hm) as (r' & q' & Hq' & Hd & ->).
    apply (no_collision r' q' r q); [done | by apply Sub_All | congruence]. }
  apply insert_delivery_Ok in Hins as [[-> _]|(-> & _ & Hno & m' & Hm' & Hk')]; [by split|].
  split; [|by destruct Hst as (m'' & ?); exists m'']. eapply rtc_r; [exact H1|].
  apply (a_deliver Sub By d1 s r q m); try done; congruence.
Qed.

Lemma disposition_result_Ok now id s i b d d' o :
  wf All d → By (Some s) → (∃ m, m ∈ messages d ∧ message_key m = (s, i) ∧ m_in_reply_to m = Some id) →
  _disposition_result now id s i b d = (d', Ok o) → steps d d'.
Proof.
  intros Hwf Hby He (d1 & row & Hsel & H)%M_bind_Ok. apply select_delivery_Ok in Hsel as [-> Hx].
  destruct row as [x|]; [|by apply mret_Ok in H as [-> _]]. destruct (Hx x eq_refl) as (Hf & Hin & Hid).
  destruct (eqb (d_recipient x) s) eqn:Hr; cbn [negb] in H; [rewrite eqb_true in Hr|by apply mret_Ok in H as [-> _]].
  destruct (eqb (d_state x) DISPOSITIONED); [by apply mret_Ok in H as [-> _]|].
  destruct (mem (d_state x) _) eqn:Hst; cbn [negb] in H; [|by apply mret_Ok in H as [-> _]].
  case_if H; [by apply mret_Ok in H as [-> _]|].
  apply M_bind_Ok in H as (d1 & y & Hu & H). apply mret_Ok in H as [-> _].
  apply (update_delivery_Ok _ _ _ _ _ x) in Hu as [_ ->]; [|done|done]. apply rtc_once.
  apply (a_transition Sub By d x); [by rewrite Hr|done|]. apply (ds_dispose _ _ (by_result i)).
  - apply mem_true in Hst. rewrite !elem_of_cons in Hst. destruct Hst as [?|[?|Hst]]; [by left | by right | by apply not_elem_of_nil in Hst].
  - cbn. by rewrite Hr, Hid.
Qed.

Lemma reply_failure_Ok s q rb d d' o :
  reply_failure s q rb d = (d', Ok o) → d' = d ∧ (o = None → replies s q d).
Proof.
  unfold reply_failure, replies. destruct (q_in_reply_to q) as [id|]; [|by intros [-> ->]%mret_Ok].
  intros (d1 & row & Hsel & H)%M_bind_Ok. apply select_delivery_Ok in Hsel as [-> Hx].
  destruct row as [x|]; [|by apply mret_Ok in H as [-> ->]]. destruct (Hx x eq_refl) as (Hf & Hin & Hid).
  destruct (eqb (d_recipient x) s) eqn:Hr; cbn [negb] in H; [rewrite eqb_true in Hr|by apply mret_Ok in H as [-> ->]].
  case_if H; [by apply mret_Ok in H as [-> ->]|].
  apply M_bind_Ok in H as (d1 & prior & Hp & H). apply select_reply_state in Hp as ->.
  apply mret_Ok in H as [-> _]. split; [done|]. intros _ r [= <-]. by exists x.
Qed.

(** A computation whose every run, from a well-formed store, is a run of the
    machine. *)
Definition refines {A} (m : M MsgDB A) : Prop := ∀ d, wf All d → steps d (m d).1.

Lemma refines_transaction {A} (m : M MsgDB A) :
  (∀ d d' r, wf All d → m d = (d', Ok r) → steps d d') → refines (transaction m).
Proof. intros Hm d Hwf. unfold transaction. destruct (m d) as [d' [r|e]] eqn:E; [by eapply Hm | done]. Qed.

Lemma refines_catch {A} (m : M MsgDB A) cs h : refines m → refines (catch m cs (λ e, mret (h e))).
Proof.
  intros Hm d Hwf. specialize (Hm d Hwf). unfold catch. destruct (m d) as [d' [r|e]]; [done|].
  by destruct (existsb _ _).
Qed.

Lemma refines_lift {A B} (r : res A) (f : A → M MsgDB B) :
  (∀ a, r = Ok a → refines (f a)) → refines (lift r ≫= f).
Proof. intros Hf d Hwf. destruct r as [a|e]; [by apply Hf | done]. Qed.

Lemma store_locked_Ok now s r q rb b d d' o :
  wf All d → Sub r q → By (Some s) → store_locked now s r q rb b d = (d', Ok o) → steps d d'.
Proof using no_collision Sub_All.
  intros Hwf Hq Hby (d1 & d1' & [-> ->]%get_st_Ok & H)%M_bind_Ok.
  case_if H; [by apply mret_Ok in H as [-> _]|]. case_if H; [by apply mret_Ok in H as [-> _]|].
  apply M_bind_Ok in H as (d1 & f & Hrf & H). apply reply_failure_Ok in Hrf as [-> Hrep].
  destruct f as [answer|]; [by apply mret_Ok in H as [-> _]|]. specialize (Hrep eq_refl).
  apply M_bind_Ok in H as (d1 & [row fresh] & Hp & H).
  destruct (persist_Ok _ _ _ _ _ _ _ Hwf Hq Hby Hrep Hp) as [Hs1 Hst].
  destruct row as [row|]; [|by apply mret_Ok in H as [-> _]].
  destruct (q_in_reply_to q) as [id|] eqn:Hid; [|by apply mret_Ok in H as [-> _]].
  destruct b as [binding|]; [|by apply mret_Ok in H as [-> _]].
  apply M_bind_Ok in H as (d2 & f & Hd & H). etrans; [exact Hs1|].
  apply disposition_result_Ok in Hd.
  - destruct f; [done|]. by apply mret_Ok in H as [-> _].
  - by apply (steps_wf d).
  - done.
  - destruct Hst as (m & Hm & Hk & Hr); [done|]. exists m. by rewrite Hr.
Qed.

Lemma refines_store now s r q rb b : Sub r q → By (Some s) → refines (_store now s r q rb b).
Proof using no_collision Sub_All.
  intros Hq Hby d Hwf. unfold _store.
  assert (Ht : refines (transaction (store_locked now s r q rb b))).
  { apply refines_transaction. intros d0 d' o Hwf0. by apply store_locked_Ok. }
  specialize (Ht d Hwf). unfold mbind, M_bind.
  destruct (transaction _ d) as [d1 [[answer|[row fresh]]|e]]; cbn in *; [done| |done].
  eapply rtc_r; [exact Ht|]. apply a_signal.
Qed.

Lemma refines_review now b r q rb wake :
  Sub r q → By (Some (Mailboxes.endpoint_id b)) → refines (transaction (submit_review_internal now b r q rb wake)).
Proof using no_collision Sub_All.
  intros Hq Hby. apply refines_transaction. intros d d' o Hwf (d1 & d1' & [-> ->]%get_st_Ok & H)%M_bind_Ok.
  case_if H; [by apply mret_Ok in H as [-> _]|]. apply M_bind_Ok in H as (d1 & f & Hf & H).
  assert (d1 = d ∧ (f = None → replies (Mailboxes.endpoint_id b) q d)) as [-> Hrep].
  { unfold replies. destruct (q_in_reply_to q) as [id|]; [|by apply mret_Ok in Hf as [-> ->]].
    apply M_bind_Ok in Hf as (d2 & row & Hsel & Hf). apply select_delivery_Ok in Hsel as [-> Hx].
    destruct row as [x|]; [|by apply mret_Ok in Hf as [-> ->]]. destruct (Hx x eq_refl) as (_ & Hin & Hid).
    destruct (eqb (d_recipient x) _) eqn:Hr; [rewrite eqb_true in Hr | by apply mret_Ok in Hf as [-> ->]].
    case_if Hf; [by apply mret_Ok in Hf as [-> ->]|].
    apply M_bind_Ok in Hf as (d2 & prior & Hp & Hf). apply select_reply_state in Hp as ->.
    apply mret_Ok in Hf as [-> _]. split; [done|]. intros _ r0 [= <-]. by exists x. }
  destruct f as [answer|]; [by apply mret_Ok in H as [-> _]|].
  apply M_bind_Ok in H as (d1 & [row fresh] & Hp & H).
  destruct (persist_Ok _ _ _ _ _ _ _ Hwf Hq Hby (Hrep eq_refl) Hp) as [Hs1 _].
  destruct row as [row|]; [|by apply mret_Ok in H as [-> _]].
  apply M_bind_Ok in H as (d2 & [] & Hn & H). apply mret_Ok in H as [-> _].
  destruct (fresh && wake); [|by apply mret_Ok in Hn as [-> _]].
  injection Hn as <-. eapply rtc_r; [exact Hs1|]. exact (a_signal _ _ _ _ true).
Qed.

Lemma refines_replay now s q b : By (Some s) → refines (committed_public_replay now s q b).
Proof.
  intros Hby. apply refines_transaction. intros d d' o Hwf (d1 & d1' & [-> ->]%get_st_Ok & H)%M_bind_Ok.
  case_if H; [by apply mret_Ok in H as [-> _]|]. apply M_bind_Ok in H as (d1 & row & [Hrow ->]%lift_Ok & H).
  destruct row as [[x m]|]; [|by apply mret_Ok in H as [-> _]].
  apply one_or_none_Some, filter_one in Hrow as [Hj Hk%is_message_true].
  apply joined_elem in Hj as (_ & Hm & _).
  destruct (eqb (m_in_reply_to m) (n_in_reply_to q)) eqn:Hr;
    [rewrite eqb_true in Hr | cbv zeta in H; rewrite andb_false_r, andb_false_l in H; by apply mret_Ok in H as [-> _]].
  cbv zeta in H. case_if H; [by apply mret_Ok in H as [-> _]|]. apply M_bind_Ok in H as (d1 & f & Hd & H).
  apply mret_Ok in H as [-> _].
  destruct (n_in_reply_to q) as [id|]; [|by apply mret_Ok in Hd as [-> _]].
  destruct b as [binding|]; [|by apply mret_Ok in Hd as [-> _]].
  apply disposition_result_Ok in Hd; [done..|]. by exists m.
Qed.

Lemma refines_admitted w rt id b (body : DeliveryRow → M MsgDB TransitionResult) :
  (∀ x d d' o, List.filter (is_delivery id) (deliveries d) = [x] → x ∈ deliveries d → d_id x = id →
     d_recipient x = w → body x d = (d', Ok o) → steps d d') →
  refines (admitted w rt id b body).
Proof.
  intros Hbody. unfold admitted. destruct (runtime_admission rt) as [[s reason]|]; [by intros d Hwf|].
  apply refines_catch, refines_transaction. intros d d' o Hwf (d1 & d1' & [-> ->]%get_st_Ok & H)%M_bind_Ok.
  case_if H; [by apply mret_Ok in H as [-> _]|]. apply M_bind_Ok in H as (d1 & row & Hsel & H).
  apply select_delivery_Ok in Hsel as [-> Hx]. destruct row as [x|]; cbn in H; [|by apply mret_Ok in H as [-> _]].
  destruct (Hx x eq_refl) as (Hf & Hin & Hid).
  destruct (eqb (d_recipient x) w) eqn:Hr; cbn [negb] in H; [|by apply mret_Ok in H as [-> _]].
  rewrite eqb_true in Hr. by apply (Hbody x d d' o).
Qed.

(** One transition by an update. *)
Lemma update_steps id f x d d' y :
  List.filter (is_delivery id) (deliveries d) = [x] → x ∈ deliveries d → By (Some (d_recipient x)) →
  dstep (messages d) x (f x) → update_delivery id f d = (d', Ok y) → steps d d'.
Proof.
  intros Hf Hx Hby Hs Hu. apply (update_delivery_Ok _ _ _ _ _ x) in Hu as [_ ->]; [|done|by apply dstep_keys in Hs as []].
  apply rtc_once. by apply (a_transition Sub By d x).
Qed.

Lemma refines_receive now w v rt id b : By (Some w) → refines (receive_admitted now w v rt id b).
Proof.
  intros Hby. apply refines_admitted. intros x d d' o Hf Hx Hid <- H.
  destruct (d_state x) eqn:Hs; try by apply mret_Ok in H as [-> _].
  apply M_bind_Ok in H as (d1 & y & Hu & H). apply mret_Ok in H as [-> _].
  apply (update_steps _ _ x) in Hu; [done..|]. by constructor.
Qed.

Lemma refines_recover w v rt id b : By (Some w) → refines (recover_admitted w v rt id b).
Proof.
  intros Hby. apply refines_admitted. intros x d d' o Hf Hx Hid <- H.
  case_if H; [by apply mret_Ok in H as [-> _]|].
  destruct (eqb (d_state x) RECEIVED) eqn:Hs; cbn [negb] in H; [rewrite eqb_true in Hs | by apply mret_Ok in H as [-> _]].
  apply M_bind_Ok in H as (d1 & y & Hu & H). apply mret_Ok in H as [-> _].
  apply (update_steps _ _ x) in Hu; [done..|]. by constructor.
Qed.

Lemma evidence_Ok w x e d d' o :
  d_recipient x = w → _evidence_failure_for_work w x e d = (d', Ok o) →
  d' = d ∧ (o = None → evidence_for (messages d) x e).
Proof.
  intros Hr. destruct e as [i|op]; cbn [_evidence_failure_for_work].
  - intros (d1 & row & Hsel & H)%M_bind_Ok. injection Hsel as <- Hsel. apply mret_Ok in H as [-> ->].
    split; [done|]. destruct row as [m|]; [|done]. apply one_or_none_Some, filter_one in Hsel as [Hm Hk%is_message_true].
    destruct (eqb (m_in_reply_to m) _) eqn:E; [|done]. rewrite eqb_true in E. intros _. exists m. by rewrite Hr.
  - destruct (eqb op _) eqn:E; cbn [negb]; [rewrite eqb_true in E | by intros [-> ->]%mret_Ok].
    intros (d1 & prev & Hg & H)%M_bind_Ok. injection Hg as <- _. by apply mret_Ok in H as [-> _].
Qed.

Lemma refines_disposition now w v rt q b :
  By (Some w) → x_digest q = disposition_digest (x_evidence q) → refines (disposition_admitted now w v rt q b).
Proof.
  intros Hby Hdig. apply refines_admitted. intros x d d' o Hf Hx Hid Hr H.
  case_if H; [by apply mret_Ok in H as [-> _]|].
  destruct (mem (d_state x) _) eqn:Hst; cbn [negb] in H; [|by apply mret_Ok in H as [-> _]].
  case_if H; [by apply mret_Ok in H as [-> _]|].
  apply M_bind_Ok in H as (d1 & fail & He & H). apply evidence_Ok in He as [-> He]; [|done].
  destruct fail as [reason|]; [by apply mret_Ok in H as [-> _]|].
  apply M_bind_Ok in H as (d1 & y & Hu & H). apply mret_Ok in H as [-> _].
  apply (update_steps _ _ x) in Hu; [done|done|done|by rewrite Hr|]. rewrite Hdig. apply ds_dispose; [|by apply He].
  apply mem_true in Hst. rewrite !elem_of_cons in Hst.
  destruct Hst as [?|[?|Hst]]; [by left | by right | by apply not_elem_of_nil in Hst].
Qed.

Lemma acknowledge_each_Ok now w v b ids : By (Some w) → ∀ d d' o,
  acknowledge_each now w v b ids d = (d', Ok o) → steps d d'.
Proof.
  intros Hby. induction ids as [|id ids IH]; intros d d' o; [by intros [-> _]%mret_Ok|].
  intros (d1 & item & H1 & H)%M_bind_Ok. apply M_bind_Ok in H as (d2 & items & H2 & H).
  apply mret_Ok in H as [-> _]. etrans; [|by eapply IH]. clear H2 IH.
  apply M_bind_Ok in H1 as (d3 & row & Hsel & H). apply select_delivery_Ok in Hsel as [-> Hx].
  destruct row as [x|]; [|by apply mret_Ok in H as [-> _]]. destruct (Hx x eq_refl) as (Hf & Hin & Hid).
  destruct (eqb (d_recipient x) w) eqn:Hr; cbn [negb] in H; [rewrite eqb_true in Hr | by apply mret_Ok in H as [-> _]].
  destruct (eqb (d_state x) DISPOSITIONED) eqn:Hd; [by apply mret_Ok in H as [-> _]|]. rewrite eqb_false in Hd.
  apply M_bind_Ok in H as (d3 & [] & Hu & H). apply mret_Ok in H as [-> _].
  destruct (eqb (d_state x) ACKNOWLEDGED) eqn:Ha; cbn [negb] in Hu; [by apply mret_Ok in Hu as [-> _]|].
  rewrite eqb_false in Ha. apply M_bind_Ok in Hu as (d4 & y & Hu & H). apply mret_Ok in H as [-> _].
  apply (update_steps _ _ x) in Hu; [done|done|done|by rewrite Hr|]. constructor. destruct (d_state x); auto; done.
Qed.

(** A call submits, and is made, as is declared. *)
Definition allowed (c : Call) : Prop :=
  (∀ r q, submission_of c = Some (r, q) → Sub r q) ∧ By (caller c).

Lemma run_refines c d : allowed c → wf All d → steps d (run c d).
Proof using no_collision Sub_All.
  intros [Ha Hby]. destruct c; cbn [run]; cbn in Ha, Hby.
  - apply refines_lift. intros q' Hq'. unfold submit_validate in Hq'. repeat case_match; try done.
    injection Hq' as <-. by apply refines_catch, refines_store; [apply Ha|].
  - apply refines_lift. intros q' Hq'. unfold submit_validate in Hq'. repeat case_match; try done.
    injection Hq' as <-. by apply refines_catch, refines_store; [apply Ha|].
  - apply refines_lift. intros q' Hq'. unfold submit_validate in Hq'. repeat case_match; try done.
    injection Hq' as <-. by apply refines_review; [apply Ha|].
  - apply refines_lift. intros q' _. by apply refines_replay.
  - by apply refines_receive.
  - by apply refines_recover.
  - apply refines_lift. intros q' Hq'. apply refines_disposition; [done|]. unfold disposition_validate in Hq'.
    destruct (negb (1 <=? x_grant_version q) || negb (hex_fullmatch 64 (x_digest q))); [done|].
    destruct (eqb (x_digest q) _) eqn:E; [|done]. injection Hq' as <-. by rewrite eqb_true in E.
  - apply refines_lift. intros ids' _.
    apply refines_catch, refines_transaction. intros d0 d' o Hwf (d1 & d1' & [-> ->]%get_st_Ok & H)%M_bind_Ok.
    case_if H; [by apply mret_Ok in H as [-> _]|]. apply M_bind_Ok in H as (d1 & items & Hi & H).
    apply mret_Ok in H as [-> _]. by apply acknowledge_each_Ok in Hi.
  - intros _. apply rtc_once. by apply a_world.
Qed.

Lemma run_all_refines cs : ∀ d, Forall allowed cs → wf All d → steps d (run_all cs d).
Proof using no_collision Sub_All.
  unfold run_all. induction cs as [|c cs IH]; intros d; [done|]. intros [Hc Hcs]%Forall_cons Hwf. cbn.
  pose proof (run_refines c d Hc Hwf) as H1. etrans; [exact H1|]. apply IH; [done|]. by eapply steps_wf.
Qed.
End refinement.

(** ** Runs from an empty store *)

(** What a list of calls submits, and that no two of its submissions collide. *)
Definition submits (cs : list Call) (r : MessageRoute) (q : MessageSubmitRequest) : Prop :=
  (r, q) ∈ omap submission_of cs.

Definition collision_free (cs : list Call) : Prop := ∀ r q r' q',
  submits cs r q → submits cs r' q' → _digest r q = _digest r' q' → q_in_reply_to q = q_in_reply_to q'.

Definition empty_store (d : MsgDB) : Prop := messages d = [] ∧ deliveries d = [].

Lemma wf_empty Sub d : empty_store d → wf Sub d.
Proof.
  intros [Hm Hd]. split; rewrite ?Hm, ?Hd; try by constructor.
  - by intros m1 m2 r ?%not_elem_of_nil.
  - by intros m r ?%not_elem_of_nil.
  - by intros m ?%not_elem_of_nil.
  - by intros x ?%not_elem_of_nil.
  - by intros x ?%not_elem_of_nil.
Qed.

Definition anyone (_ : option uuid) : Prop := True.

Lemma all_allowed cs cs' : (∀ c, c ∈ cs → c ∈ cs') → Forall (allowed (submits cs') anyone) cs.
Proof.
  intros Hsub. apply Forall_forall. intros c Hc. split; [|done]. intros r q Hs. apply list_elem_of_omap. exists c. auto.
Qed.

(** The state after some calls, and how it reaches the state after more. *)
Lemma runs_spec cs1 cs2 d :
  empty_store d → collision_free (cs1 ++ cs2) →
  let S := submits (cs1 ++ cs2) in
  wf S (run_all cs1 d) ∧ rtc (AStep S anyone) d (run_all cs1 d) ∧
  wf S (run_all cs2 (run_all cs1 d)) ∧ rtc (AStep S anyone) (run_all cs1 d) (run_all cs2 (run_all cs1 d)).
Proof.
  intros Hd Hcf S. pose proof (wf_empty S d Hd) as H0.
  assert (H1 : rtc (AStep S anyone) d (run_all cs1 d)).
  { apply (run_all_refines S); [done | exact Hcf | | exact H0]. apply all_allowed. intros c ?. apply elem_of_app. by left. }
  pose proof (ASteps_wf S _ _ _ H0 H1) as Hwf1.
  assert (H2 : rtc (AStep S anyone) (run_all cs1 d) (run_all cs2 (run_all cs1 d))).
  { apply (run_all_refines S); [done | exact Hcf | | exact Hwf1]. apply all_allowed. intros c ?. apply elem_of_app. by right. }
  pose proof (ASteps_wf S _ _ _ Hwf1 H2). done.
Qed.

(** What one call submits, and who makes it. *)
Definition submits_of (c : Call) (r : MessageRoute) (q : MessageSubmitRequest) : Prop := submission_of c = Some (r, q).
Definition made_by (c : Call) (w : option uuid) : Prop := w = caller c.

(** C25: refinement, call by call.  After any calls [cs] on an empty store, the
    next call [c], on every path and with every error, takes the store by a
    run of the abstract machine from where it was to where it is: the caller
    adds the message it submits, or its delivery, as a sender, or moves a
    delivery along its states, as its recipient, or makes a wake signal, and
    only the world outside touches the tables that the store reads; and the
    store is well formed again.  No two of the submissions
    made so far may collide under SHA-256. *)
Theorem message_refinement cs c d0 :
  empty_store d0 → collision_free (cs ++ [c]) →
  let d := run_all cs d0 in
  wf (submits (cs ++ [c])) d ∧
  rtc (AStep (submits_of c) (made_by c)) d (run c d) ∧
  wf (submits (cs ++ [c])) (run c d).
Proof.
  intros Hd Hcf d. destruct (runs_spec cs [c] d0 Hd Hcf) as (Hwf & _ & Hwf' & _). split; [done|]. split; [|done].
  apply (run_refines (submits (cs ++ [c]))); [|exact Hcf|by split|exact Hwf].
  intros r q Hs. apply list_elem_of_omap. exists c. split; [|exact Hs]. apply elem_of_app. right. by apply list_elem_of_singleton.
Qed.

Definition rank (s : DeliveryState) : nat :=
  match s with AVAILABLE => 0 | RECEIVED => 1 | ACKNOWLEDGED => 2 | DISPOSITIONED => 3 end.

Lemma moves_spec ms x y :
  rtc (dstep ms) x y →
  d_id y = d_id x ∧ delivery_key y = delivery_key x ∧ (rank (d_state x) ≤ rank (d_state y))%nat ∧
  (d_state x = DISPOSITIONED → y = x).
Proof.
  induction 1 as [x|x y z Hs _ (IH1 & IH2 & IH3 & IH4)]; [done|].
  destruct (dstep_keys _ _ _ Hs) as [Hi Hk]. rewrite IH1, IH2. split; [done|]. split; [done|].
  destruct Hs as [v g t Hx|v g Hx|v g t Hx|e t Hx He]; cbn in IH3 |- *;
    try (destruct Hx as [Hx|Hx]); rewrite Hx in *; cbn; (split; [|done]);
    revert IH3; destruct (d_state z); cbn; lia.
Qed.

Lemma grows_rows d d' x :
  grows d d' → x ∈ deliveries d → ∃ y, y ∈ deliveries d' ∧ moves d' x y.
Proof.
  intros [_ (l1 & l2 & Hl & Hf & _)] Hx. apply list_elem_of_lookup in Hx as [i Hi].
  destruct (Forall2_lookup_l _ _ _ _ _ Hf Hi) as (y & Hy & Hm). exists y. split; [|done].
  rewrite Hl. apply elem_of_app. left. by apply list_elem_of_lookup_2 in Hy.
Qed.

(** C29: histories.  Whatever is called afterwards, a stored message never
    changes, and a delivery lives on under its identity, moving only forward
    along its states; once disposed of it never changes again. *)
Theorem message_history cs1 cs2 d :
  empty_store d → collision_free (cs1 ++ cs2) →
  let d1 := run_all cs1 d in let d2 := run_all cs2 d1 in
  (∃ l, messages d2 = messages d1 ++ l) ∧
  ∀ x, x ∈ deliveries d1 → ∃ y, y ∈ deliveries d2 ∧ d_id y = d_id x ∧
    delivery_key y = delivery_key x ∧ (rank (d_state x) ≤ rank (d_state y))%nat ∧
    (d_state x = DISPOSITIONED → y = x) ∧
    ∀ y', y' ∈ deliveries d2 → d_id y' = d_id x → y' = y.
Proof.
  intros Hd Hcf d1 d2. destruct (runs_spec cs1 cs2 d Hd Hcf) as (_ & _ & Hwf2 & Hs).
  apply ASteps_grow in Hs. split; [apply Hs|]. intros x Hx.
  destruct (grows_rows _ _ _ Hs Hx) as (y & Hy & Hm). destruct (moves_spec _ _ _ Hm) as (H1 & H2 & H3 & H4).
  exists y. split; [done|]. split; [done|]. split; [done|]. split; [done|]. split; [done|].
  intros y' Hy' Hid. apply (NoDup_fmap_inj d_id (deliveries d2)); [apply Hwf2 | done | done | congruence].
Qed.

(** Evidence.  In every reachable store each delivery has at most one
    reply, which its recipient sent; and a delivery that is disposed of was
    received, and carries the canonical digest of evidence that is the
    recipient's reply to it, or the one effect identity bound to it. *)
Theorem message_evidence cs d0 :
  empty_store d0 → collision_free cs →
  let d := run_all cs d0 in
  (∀ m1 m2 r, m1 ∈ messages d → m2 ∈ messages d → m_in_reply_to m1 = Some r →
     m_in_reply_to m2 = Some r → m1 = m2) ∧
  (∀ m r, m ∈ messages d → m_in_reply_to m = Some r →
     ∃ x, x ∈ deliveries d ∧ d_id x = r ∧ d_recipient x = m_sender m) ∧
  (∀ x, x ∈ deliveries d → d_state x = DISPOSITIONED →
     is_Some (d_received_at x) ∧
     ∃ e, d_digest x = Some (disposition_digest e) ∧ d_evidence x = Some (evidence_json e) ∧
       match e with
       | by_result id => ∃ m, m ∈ messages d ∧ m_sender m = d_recipient x ∧ m_id m = id ∧
           m_in_reply_to m = Some (d_id x)
       | by_effect op => op = message_effect_operation_id (d_id x)
       end).
Proof.
  intros Hd Hcf d. pose proof (runs_spec cs [] d0 Hd) as H. rewrite app_nil_r in H.
  destruct (H Hcf) as (Hwf & _). split; [apply Hwf|]. split; [apply Hwf|].
  intros x Hx Hs. pose proof (wf_state _ _ Hwf x Hx) as Hst. unfold state_ok in Hst. rewrite Hs in Hst.
  destruct Hst as (H1 & _ & _ & e & H2 & H3 & H4). split; [done|]. exists e. split; [done|]. split; [done|].
  destruct e as [id|op]; [|done]. destruct H4 as (m & Hm & Hk & Hr). exists m. by injection Hk as -> ->.
Qed.

(** ** Repeated submission *)

Lemma filter_messages Sub d m :
  wf Sub d → m ∈ messages d → List.filter (is_message (m_sender m) (m_id m)) (messages d) = [m].
Proof.
  intros Hwf Hm. apply (filter_unique message_key); [apply Hwf | | done | by apply is_message_true].
  intros y _ Hy%is_message_true. done.
Qed.

(** The join has one row per delivery. *)
Lemma joined_fst Sub d : wf Sub d → fst <$> joined d = deliveries d.
Proof.
  intros Hwf. unfold joined.
  assert (Hl : ∀ l, (∀ x, x ∈ l → x ∈ deliveries d) →
    fst <$> (l ≫= λ x, (λ m, (x, m)) <$> List.filter (is_message (d_sender x) (d_message x)) (messages d)) = l).
  { induction l as [|x l IH]; intros Hl; [done|]. cbn. rewrite fmap_app, IH by (intros y Hy; apply Hl; by right).
    destruct (wf_foreign _ _ Hwf x) as (m & Hm & Hk); [apply Hl; by left|]. injection Hk as <- <-.
    by rewrite (filter_messages Sub d m). }
  by apply Hl.
Qed.

Lemma joined_unique Sub d x m :
  wf Sub d → x ∈ deliveries d → m ∈ messages d → message_key m = (d_sender x, d_message x) →
  List.filter (λ xm, is_delivery (d_id x) xm.1) (joined d) = [(x, m)].
Proof.
  intros Hwf Hx Hm Hk.
  apply (filter_unique (λ xm, d_id xm.1)); [| | | by apply is_delivery_true].
  - change (λ xm, d_id xm.1) with (d_id ∘ @fst DeliveryRow MessageRow).
    rewrite list_fmap_compose, (joined_fst Sub) by done. apply Hwf.
  - intros y _ Hy%is_delivery_true. done.
  - unfold joined. apply list_elem_of_bind. exists x. split; [|done]. apply list_elem_of_fmap. exists m.
    split; [done|]. injection Hk as <- <-. rewrite (filter_messages Sub d m) by done. by apply list_elem_of_singleton.
Qed.

(** What a submission that was answered [ok] leaves in the tables. *)
Definition stored_submission (sender : uuid) (r : MessageRoute) (q : MessageSubmitRequest)
    (p : PendingMessage) (d : MsgDB) : Prop :=
  ∃ m0 x m, m0 ∈ messages d ∧ message_key m0 = (sender, q_message_id q) ∧ m_digest m0 = _digest r q ∧
    x ∈ deliveries d ∧ d_id x = uuid5 DELIVERY_NAMESPACE (str_join ":" [sender; q_message_id q; r_recipient r]) ∧
    m ∈ messages d ∧ message_key m = (d_sender x, d_message x) ∧ p = _view (x, m).

Lemma persist_stored now s r q d d' row fresh :
  _persist_delivery now s r q (_digest r q) d = (d', Ok (Some row, fresh)) →
  stored_submission s r q (_view row) d'.
Proof.
  intros (d1 & a1 & Hi & H)%M_bind_Ok. clear Hi.
  apply M_bind_Ok in H as (d2 & d2' & [-> ->]%get_st_Ok & H).
  apply M_bind_Ok in H as (d2 & cur & [Hone ->]%lift_Ok & H). apply one_Ok in Hone.
  destruct (List.filter _ (messages d1)) as [|m [|? ?]] eqn:Hf; try done. injection Hone as Hcur.
  destruct (eqb cur (_digest r q)) eqn:E; cbn [negb] in H; [rewrite eqb_true in E | by apply mret_Ok in H as [_ [=]]].
  apply filter_one in Hf as [Hm Hk%is_message_true].
  apply M_bind_Ok in H as (d2 & ins & Hins & H). apply M_bind_Ok in H as (d3 & d3' & [-> ->]%get_st_Ok & H).
  apply M_bind_Ok in H as (d3 & row' & [Hrow ->]%lift_Ok & H). apply mret_Ok in H as [-> [= -> ->]].
  apply one_Ok, filter_one in Hrow as [Hj Hid%is_delivery_true]. destruct row' as [x m'].
  apply joined_elem in Hj as (Hx & Hm' & Hk').
  exists m, x, m'. split; [|rewrite Hcur; split; [exact Hk|]; split; [exact E|]; split; [exact Hx|];
    split; [exact Hid|]; split; [exact Hm'|]; split; [exact Hk' | reflexivity]].
  apply insert_delivery_Ok in Hins as [[-> _]|(-> & _)]; done.
Qed.

(** The store accepts new submissions on this route from this caller. *)
Definition open_for (q : MessageSubmitRequest) (b : option Mailboxes.AgentMailbox) (d : MsgDB) : bool :=
  negb (mem (q_route_ref q) REVIEW_ROUTE_REFS && review_cutoff_receipt d) && binding_current b d.

(** Submitting a request, where the store is open; otherwise it is refused. *)
Lemma store_request now s r q b d :
  q_in_reply_to q = None →
  store_locked now s r q None b d =
    if open_for q b d then
      (stored ← _persist_delivery now s r q (_digest r q);
       mret (match stored with
             | (None, _) => inl (refused conflict "message_identity_conflict")
             | (Some row, fresh) => inr (row, fresh)
             end)) d
    else (d, Ok (inl (if mem (q_route_ref q) REVIEW_ROUTE_REFS && review_cutoff_receipt d
                      then refused denied "reserved_route" else refused stale "sender_binding_changed"))).
Proof.
  intros Hq. unfold store_locked, open_for, mbind, M_bind, get_st.
  destruct (mem (q_route_ref q) REVIEW_ROUTE_REFS && review_cutoff_receipt d); [done|].
  destruct (binding_current b d); [|done]. unfold reply_failure. rewrite Hq. cbn.
  destruct (_persist_delivery now s r q (_digest r q) d) as [d1 [[[row|] fresh]|e]]; done.
Qed.

Lemma submit_stored now s r q b d d' p :
  q_in_reply_to q = None → submit_admitted now s r q b d = (d', Ok (submitted p)) →
  open_for q b d = true ∧ ∃ d1, stored_submission s r q p d1 ∧ messages d' = messages d1 ∧ deliveries d' = deliveries d1.
Proof.
  intros Hq. unfold submit_admitted, catch. destruct (_store _ _ _ _ _ _ d) as [d1 [a|e]] eqn:H;
    [|destruct (existsb _ _); done]. intros [= <- ->].
  apply M_bind_Ok in H as (d2 & o & Ht & H). rewrite transaction_ok, store_request in Ht by done.
  destruct (open_for q b d) eqn:Ho.
  - split; [done|]. apply M_bind_Ok in Ht as (d3 & [[row|] fresh] & Hp & Ht); apply mret_Ok in Ht as [-> ->];
      [|by apply mret_Ok in H as [_ ?]].
    apply M_bind_Ok in H as (d4 & [] & Hn & H). apply mret_Ok in H as [-> Hpe]. injection Hn as <-.
    injection Hpe as ->. exists d3. split; [|done]. by eapply persist_stored.
  - injection Ht as <- <-. apply mret_Ok in H as [_ H]. by destruct (_ && _).
Qed.

(** Persisting again what is stored adds nothing. *)
Lemma persist_again Sub now s r q d m0 x m :
  wf Sub d → q_in_reply_to q = None → m0 ∈ messages d → message_key m0 = (s, q_message_id q) →
  m_digest m0 = _digest r q → x ∈ deliveries d →
  d_id x = uuid5 DELIVERY_NAMESPACE (str_join ":" [s; q_message_id q; r_recipient r]) →
  m ∈ messages d → message_key m = (d_sender x, d_message x) →
  _persist_delivery now s r q (_digest r q) d = (d, Ok (Some (x, m), false)).
Proof.
  intros Hwf Hq Hm0 Hk0 Hd Hx Hid Hm Hk. unfold _persist_delivery, mbind, M_bind, get_st, lift.
  assert (Hi : ∀ m1, message_key m1 = (s, q_message_id q) → insert_message m1 d = (d, Ok tt)).
  { intros m1 Hk1. unfold insert_message. destruct (existsb _ _) eqn:E; [done|].
    rewrite existsb_false in E. specialize (E m0 Hm0). apply orb_false_iff in E as [E _].
    apply not_true_iff_false in E. destruct E. apply is_message_true. unfold message_key in *. congruence. }
  assert (Hfm : List.filter (is_message s (q_message_id q)) (messages d) = [m0]).
  { injection Hk0 as <- <-. by apply (filter_messages Sub). }
  rewrite Hi by done. rewrite Hfm. cbn. rewrite Hd, eqb_refl. cbn.
  assert (Hins : ∀ x1, d_id x1 = d_id x → insert_delivery x1 d = (d, Ok false)).
  { intros x1 Hid1. unfold insert_delivery. destruct (existsb (λ x', _) (deliveries d)) eqn:E; [done|].
    rewrite existsb_false in E. specialize (E x Hx). apply orb_false_iff in E as [E _].
    apply not_true_iff_false in E. destruct E. apply is_delivery_true. congruence. }
  rewrite Hins by (symmetry; exact Hid). cbn in Hid. rewrite <- Hid. by rewrite (joined_unique Sub d x m).
Qed.

Lemma persist_conflict Sub now s r q d m0 :
  wf Sub d → m0 ∈ messages d → message_key m0 = (s, q_message_id q) → m_digest m0 ≠ _digest r q →
  _persist_delivery now s r q (_digest r q) d = (d, Ok (None, false)).
Proof.
  intros Hwf Hm0 Hk0 Hd. unfold _persist_delivery, mbind, M_bind, get_st, lift. injection Hk0 as <- Hid.
  set (m1 := mkMessage _ _ _ _ _ _ _ _).
  assert (insert_message m1 d = (d, Ok tt)) as ->.
  { unfold insert_message. destruct (existsb _ _) eqn:E; [done|].
    rewrite existsb_false in E. specialize (E m0 Hm0). apply orb_false_iff in E as [E _].
    apply not_true_iff_false in E. destruct E. apply is_message_true. unfold message_key. cbn. congruence. }
  rewrite <- Hid, (filter_messages Sub d m0) by done. cbn. rewrite <- eqb_false in Hd. by rewrite Hd.
Qed.

(** A submission of a request to an open store, in terms of its row. *)
Lemma submit_request now s r q b d d1 row fresh :
  q_in_reply_to q = None → open_for q b d = true →
  _persist_delivery now s r q (_digest r q) d = (d1, Ok (row, fresh)) →
  submit_admitted now s r q b d =
    match row with
    | Some row => ((_notify_delivery (_view row) fresh d1).1, Ok (submitted (_view row)))
    | None => (d1, Ok (refused conflict "message_identity_conflict"))
    end.
Proof.
  intros Hq Hopen Hp. unfold submit_admitted, catch, _store, transaction.
  unfold mbind at 1, M_bind at 1. rewrite store_request, Hopen by done. unfold mbind at 1, M_bind at 1.
  rewrite Hp. by destruct row.
Qed.

(** A submitted message in a later store. *)
Lemma submission_later cs1 cs2 d0 now s r q b p d1 :
  empty_store d0 → collision_free (cs1 ++ c_submit now s r q b :: cs2) →
  submit_validate q = Ok q → q_in_reply_to q = None →
  submit_admitted now s r q b (run_all cs1 d0) = (d1, Ok (submitted p)) →
  let d2 := run_all cs2 d1 in
  ∃ S m0 x y m, wf S d2 ∧ m0 ∈ messages d2 ∧ message_key m0 = (s, q_message_id q) ∧
    m_digest m0 = _digest r q ∧ y ∈ deliveries d2 ∧
    d_id y = uuid5 DELIVERY_NAMESPACE (str_join ":" [s; q_message_id q; r_recipient r]) ∧
    m ∈ messages d2 ∧ message_key m = (d_sender y, d_message y) ∧ p = _view (x, m) ∧
    d_id y = d_id x ∧ delivery_key y = delivery_key x ∧ (rank (d_state x) ≤ rank (d_state y))%nat.
Proof.
  intros Hd0 Hcf Hv Hq Hs d2.
  assert (Hd1 : d1 = run_all (cs1 ++ [c_submit now s r q b]) d0).
  { unfold run_all. rewrite foldl_app. cbn [foldl run]. rewrite Hv, lift_bind_Ok.
    fold (run_all cs1 d0). by rewrite Hs. }
  pose proof (runs_spec (cs1 ++ [c_submit now s r q b]) cs2 d0 Hd0) as Hr.
  rewrite <- app_assoc in Hr. destruct (Hr Hcf) as (_ & _ & Hwf2 & Hsteps). clear Hr.
  rewrite <- Hd1 in Hwf2, Hsteps. apply ASteps_grow in Hsteps.
  apply submit_stored in Hs as (_ & d1' & (m0 & x & m & Hm0 & Hk0 & Hdig & Hx & Hid & Hm & Hk & ->) & Hms & Hds);
    [|done]. rewrite <- Hms in Hm0, Hm. rewrite <- Hds in Hx.
  destruct (gr_messages _ _ Hsteps) as [l Hl].
  assert (Hmono : ∀ m', m' ∈ messages d1 → m' ∈ messages d2) by (intros m' Hm'; unfold d2; rewrite Hl; apply elem_of_app; by left).
  destruct (grows_rows _ _ _ Hsteps Hx) as (y & Hy & Hmv). destruct (moves_spec _ _ _ Hmv) as (Hyid & Hyk & Hrank & _).
  eexists _, m0, x, y, m. split; [exact Hwf2|]. split; [by apply Hmono|]. split; [done|]. split; [done|].
  split; [done|]. split; [congruence|]. split; [by apply Hmono|]. split; [|done].
  injection Hyk as -> -> _. done.
Qed.

(** Submitting is idempotent.  After a request was answered [ok], and
    whatever was called since, submitting it again is answered [ok] with the
    same message and delivery, stores nothing, and signals that nothing is
    fresh; other content under its identifier is a conflict without effect.
    (The store must still be open for the caller and the route.) *)
Theorem submit_idempotent cs1 cs2 d0 now now' s r q b b' p d1 :
  empty_store d0 → collision_free (cs1 ++ c_submit now s r q b :: cs2) →
  submit_validate q = Ok q → q_in_reply_to q = None →
  submit_admitted now s r q b (run_all cs1 d0) = (d1, Ok (submitted p)) →
  let d2 := run_all cs2 d1 in
  (open_for q b' d2 = true →
   ∃ p', submit_admitted now' s r q b' d2 = ((_notify_delivery p' false d2).1, Ok (submitted p')) ∧
     p_delivery_id p' = p_delivery_id p ∧ p_message_id p' = p_message_id p ∧ p_sender p' = p_sender p ∧
     p_recipient p' = p_recipient p ∧ p_route_ref p' = p_route_ref p ∧ p_kind p' = p_kind p ∧
     p_payload p' = p_payload p ∧ (rank (p_state p) ≤ rank (p_state p'))%nat) ∧
  (∀ r' q', q_message_id q' = q_message_id q → q_in_reply_to q' = None → _digest r' q' ≠ _digest r q →
   open_for q' b' d2 = true →
   submit_admitted now' s r' q' b' d2 = (d2, Ok (refused conflict "message_identity_conflict"))).
Proof.
  intros Hd0 Hcf Hv Hq Hs d2.
  destruct (submission_later cs1 cs2 d0 now s r q b p d1 Hd0 Hcf Hv Hq Hs)
    as (S & m0 & x & y & m & Hwf & Hm0 & Hk0 & Hdig & Hy & Hid & Hm & Hk & -> & Hyid & Hyk & Hrank).
  split.
  - intros Hopen. exists (_view (y, m)).
    rewrite (submit_request now' s r q b' d2 d2 (Some (y, m)) false); [|exact Hq|exact Hopen|].
    { injection Hyk as Hy1 Hy2 Hy3. cbn. by rewrite Hyid, Hy1, Hy2, Hy3. }
    apply (persist_again S _ _ _ _ _ m0); assumption.
  - intros r' q' Hqid Hq' Hne Hopen.
    rewrite (submit_request now' s r' q' b' d2 d2 None false); [done|done|done|].
    apply (persist_conflict S _ _ _ _ _ m0); [done | done | by rewrite Hqid | congruence].
Qed.

(** ** Receiving and disposing of a delivery *)

(** A run of [admitted]: refused without effect, or the body on the row. *)
Lemma admitted_cases w rt id b body d d' r :
  admitted w rt id b body d = (d', Ok r) →
  (d' = d ∧ t_status r ≠ ok) ∨
  (rt_current rt = Some (rt_generation rt) ∧ binding_current b d = true ∧
   ∃ x, List.filter (is_delivery id) (deliveries d) = [x] ∧ x ∈ deliveries d ∧ d_id x = id ∧
     d_recipient x = w ∧ body x d = (d', Ok r)).
Proof.
  unfold admitted, runtime_admission. destruct (rt_current rt) as [g|]; [|by intros [-> ->]%mret_Ok; left].
  destruct (eqb (rt_generation rt) g) eqn:Hg; cbn [negb]; [rewrite eqb_true in Hg; subst g|by intros [-> ->]%mret_Ok; left].
  unfold catch. destruct (transaction _ d) as [d1 [r1|e]] eqn:H.
  2:{ apply transaction_err in H as ->. destruct (existsb _ _); [intros [-> ->]%mret_Ok; by left | done]. }
  intros [= <- <-]. rewrite transaction_ok in H. apply M_bind_Ok in H as (d2 & d2' & [-> ->]%get_st_Ok & H).
  destruct (binding_current b d); cbn [negb] in H; [|apply mret_Ok in H as [-> ->]; by left].
  apply M_bind_Ok in H as (d2 & row & Hsel & H). apply select_delivery_Ok in Hsel as [-> Hx].
  destruct row as [x|]; cbn in H; [|apply mret_Ok in H as [-> ->]; by left].
  destruct (Hx x eq_refl) as (Hf & Hin & Hid).
  destruct (eqb (d_recipient x) w) eqn:Hr; cbn [negb] in H; [rewrite eqb_true in Hr|apply mret_Ok in H as [-> ->]; by left].
  right. split; [done|]. split; [done|]. by exists x.
Qed.

(** The body runs when the guards hold. *)
Lemma admitted_run w rt id b body d x d' r :
  rt_current rt = Some (rt_generation rt) → binding_current b d = true →
  List.filter (is_delivery id) (deliveries d) = [x] → d_recipient x = w → body x d = (d', Ok r) →
  admitted w rt id b body d = (d', Ok r).
Proof.
  intros Hrt Hb Hf Hr Hbody. unfold admitted, runtime_admission. rewrite Hrt, eqb_refl. cbn [negb].
  unfold catch, transaction, mbind, M_bind, get_st, select_delivery. rewrite Hb. cbn. rewrite Hf. cbn.
  rewrite (proj2 (eqb_true _ _) Hr). cbn. by rewrite Hbody.
Qed.

Lemma delivery_unique d x :
  NoDup (d_id <$> deliveries d) → x ∈ deliveries d →
  List.filter (is_delivery (d_id x)) (deliveries d) = [x].
Proof.
  intros Hn Hx. apply (filter_unique d_id); [done | | done | by apply is_delivery_true].
  by intros y _ Hy%is_delivery_true.
Qed.

(** What an update of the selected row returns. *)
Lemma update_run id f d x :
  List.filter (is_delivery id) (deliveries d) = [x] → d_id (f x) = d_id x →
  update_delivery id f d = (with_deliveries (replace_row x (f x) (deliveries d)) d, Ok (f x)).
Proof.
  intros Hf Hid. unfold update_delivery. rewrite (update_unique _ _ _ x) by done.
  rewrite filter_replace, Hf by (unfold is_delivery; by rewrite Hid). unfold replace_row at 2. cbn.
  by rewrite eqb_refl.
Qed.

(** The deliveries [receive_admitted] hands out. *)
Definition receivable (w : uuid) (v : Z) (rt : RuntimeCurrentness) (id : uuid) (x : DeliveryRow) : Prop :=
  d_id x = id ∧ d_recipient x = w ∧
  (d_state x = AVAILABLE ∨ d_state x = RECEIVED ∧ received_under v (rt_generation rt) x = true).

Lemma receive_hands_out now w v rt id b d x :
  NoDup (d_id <$> deliveries d) → rt_current rt = Some (rt_generation rt) → binding_current b d = true →
  x ∈ deliveries d → receivable w v rt id x →
  ∃ y, receive_admitted now w v rt id b d =
         (with_deliveries (replace_row x y (deliveries d)) d, Ok (_transition ok None (Some y))) ∧
    d_state y = RECEIVED ∧ received_under v (rt_generation rt) y = true ∧ (d_state x = RECEIVED → y = x).
Proof.
  intros Hn Hrt Hb Hx (<- & Hr & Hs). pose proof (delivery_unique d x Hn Hx) as Hf. unfold receive_admitted.
  destruct Hs as [Hs|[Hs Hu]].
  - exists (to_received v (rt_generation rt) now x).
    split; [|by unfold received_under; cbn; rewrite !eqb_refl, Hs].
    eapply admitted_run; [done..|]. rewrite Hs. unfold mbind, M_bind. by rewrite (update_run _ _ _ x).
  - exists x. split; [|done]. rewrite replace_row_same. eapply admitted_run; [done..|].
    rewrite Hs, Hu. by destruct d.
Qed.

(** A body that does not hand out the row is without effect. *)
Lemma receive_refuses now w v rt id x d d' r :
  d_id x = id → d_recipient x = w →
  (match d_state x with
   | DISPOSITIONED => mret (_transition conflict (Some "delivery_already_dispositioned") (Some x))
   | ACKNOWLEDGED => mret (_transition conflict (Some "delivery_already_acknowledged") (Some x))
   | RECEIVED =>
       mret (if negb (received_under v (rt_generation rt) x)
             then _transition recovery_required (Some "receiving_binding_changed") (Some x)
             else _transition ok None (Some x))
   | AVAILABLE =>
       x' ← update_delivery id (to_received v (rt_generation rt) now);
       mret (_transition ok None (Some x'))
   end) d = (d', Ok r) →
  receivable w v rt id x ∨ d' = d ∧ t_status r ≠ ok ∧ ¬ receivable w v rt id x.
Proof.
  intros Hid Hr H. unfold receivable.
  destruct (d_state x) eqn:Hs; [by left; auto | | right; apply mret_Ok in H as [-> ->]; naive_solver..].
  destruct (received_under v (rt_generation rt) x) eqn:Hu; [by left; auto|].
  right. apply mret_Ok in H as [-> ->]. naive_solver.
Qed.

(** Receiving.  A delivery is handed out exactly when the runtime and
    the mailbox binding of the caller are current and the delivery, the
    caller's own, is available or already received under this very binding;
    it is then received under this binding, and a delivery that was already
    received is not touched.  Every other answer is without effect. *)
Theorem receive_spec now w v rt id b d d' r :
  NoDup (d_id <$> deliveries d) → receive_admitted now w v rt id b d = (d', Ok r) →
  (t_status r = ok ↔ rt_current rt = Some (rt_generation rt) ∧ binding_current b d = true ∧
     ∃ x, x ∈ deliveries d ∧ receivable w v rt id x) ∧
  (t_status r ≠ ok → d' = d) ∧
  (t_status r = ok → ∃ x y, x ∈ deliveries d ∧ receivable w v rt id x ∧
     d' = with_deliveries (replace_row x y (deliveries d)) d ∧ r = _transition ok None (Some y) ∧
     d_state y = RECEIVED ∧ received_under v (rt_generation rt) y = true ∧ (d_state x = RECEIVED → y = x)).
Proof.
  intros Hn H. pose proof (receive_hands_out now w v rt id b d) as Hgo. rewrite H in Hgo.
  pose proof H as Hc. apply admitted_cases in Hc as [[-> Hne]|(Hrt & Hb & x & Hf & Hx & Hid & Hr & Hbody)].
  { split; [split; [done|]|by split]. intros (Hrt & Hb & x & Hx & Hrec).
    destruct (Hgo x Hn Hrt Hb Hx Hrec) as (y & [= _ ->] & _). done. }
  apply (receive_refuses now w v rt id) in Hbody as [Hrec|(-> & Hne & Hno)]; [| |done|done].
  - destruct (Hgo x Hn Hrt Hb Hx Hrec) as (y & [= -> ->] & Hy).
    split; [split; [eauto 6 | done]|]. split; [done|]. intros _. by exists x, y.
  - split; [split; [done|]|by split]. intros (_ & _ & x' & Hx' & Hrec). destruct Hno.
    rewrite (NoDup_fmap_inj d_id _ x x' Hn Hx Hx'); [done|]. destruct Hrec as [-> _]. done.
Qed.

(** What the store holds for the evidence of a disposition. *)
Definition evidence_holds (w : uuid) (x : DeliveryRow) (e : DispositionEvidence) (d : MsgDB) : Prop :=
  match e with
  | by_result id => ∃ m, m ∈ messages d ∧ message_key m = (w, id) ∧ m_in_reply_to m = Some (d_id x)
  | by_effect op => op = message_effect_operation_id (d_id x) ∧
      ∃ key fp o receipt, (GrantState.previous op w (grants d)).2 = Ok (Some (key, fp, o)) ∧
        Grants.operation_id o = Some op ∧ Grants.effect o = Grants.applied ∧
        Grants.receipt o = Some receipt ∧ receipt_work_id receipt = Some w
  end.

Lemma evidence_none w x e d d' :
  _evidence_failure_for_work w x e d = (d', Ok None) → d' = d ∧ evidence_holds w x e d.
Proof.
  destruct e as [i|op]; cbn [_evidence_failure_for_work evidence_holds].
  - intros (d1 & row & Hsel & H)%M_bind_Ok. injection Hsel as <- Hsel. apply mret_Ok in H as [-> H].
    split; [done|]. destruct row as [m|]; [|done]. apply one_or_none_Some, filter_one in Hsel as [Hm Hk%is_message_true].
    destruct (eqb (m_in_reply_to m) _) eqn:E; [|done]. rewrite eqb_true in E. by exists m.
  - destruct (eqb op _) eqn:E; cbn [negb]; [rewrite eqb_true in E | by intros [_ ?]%mret_Ok].
    intros (d1 & prev & Hg & H)%M_bind_Ok. injection Hg as <- Hg. apply mret_Ok in H as [-> H].
    split; [done|]. split; [done|]. destruct prev as [[[key fp] o]|]; [|done].
    destruct (eqb (Grants.operation_id o) _) eqn:Eo; [rewrite eqb_true in Eo | done].
    destruct (Grants.effect o) eqn:He; try done. destruct (Grants.receipt o) as [rc|] eqn:Hrc; [|done].
    destruct (eqb (receipt_work_id rc) _) eqn:Ew; [rewrite eqb_true in Ew | done].
    by exists key, fp, o, rc.
Qed.

(** Disposing.  An [ok] answer means the caller's own delivery is
    disposed of with exactly this digest and evidence: it was already, and
    nothing changed, or it was received under this binding or acknowledged,
    and the evidence holds - the caller's stored reply to this delivery, or
    the delivery's own effect, which the journal shows applied to the
    caller's work.  Every other answer is without effect. *)
Theorem disposition_spec now w v rt q b d d' r :
  disposition_admitted now w v rt q b d = (d', Ok r) →
  (t_status r ≠ ok → d' = d) ∧
  (t_status r = ok →
     rt_current rt = Some (rt_generation rt) ∧ binding_current b d = true ∧
     ∃ x, x ∈ deliveries d ∧ d_id x = x_delivery_id q ∧ d_recipient x = w ∧
       (d_state x = DISPOSITIONED ∧ d' = d ∧ d_digest x = Some (x_digest q) ∨
        (d_state x = ACKNOWLEDGED ∨ d_state x = RECEIVED ∧ received_under v (rt_generation rt) x = true) ∧
        evidence_holds w x (x_evidence q) d ∧
        d' = with_deliveries
               (replace_row x (to_dispositioned (x_digest q) (x_evidence q) now x) (deliveries d)) d)).
Proof.
  intros H. apply admitted_cases in H as [[-> Hne]|(Hrt & Hb & x & Hf & Hx & Hid & Hr & H)]; [by split|].
  destruct (eqb (d_state x) DISPOSITIONED) eqn:Hd.
  { rewrite eqb_true in Hd. apply mret_Ok in H as [-> ->]. split; [done|]. intros Hok. split; [done|].
    split; [done|]. exists x. split; [done|]. split; [done|]. split; [done|]. left. split; [done|].
    split; [done|]. destruct (eqb (d_digest x) _) eqn:E; [by rewrite eqb_true in E | done]. }
  destruct (mem (d_state x) _) eqn:Hst; cbn [negb] in H; [|by apply mret_Ok in H as [-> ->]].
  destruct (eqb (d_state x) RECEIVED && _) eqn:Hu; [by apply mret_Ok in H as [-> ->]|].
  apply M_bind_Ok in H as (d1 & fail & He & H). destruct fail as [reason|].
  { apply evidence_Ok in He as [-> _]; [|exact Hr]. by apply mret_Ok in H as [-> ->]. }
  apply evidence_none in He as [-> He].
  apply M_bind_Ok in H as (d1 & y & Hup & H). apply mret_Ok in H as [-> ->].
  apply (update_delivery_Ok _ _ _ _ _ x) in Hup as [-> ->]; [|done|done].
  split; [done|]. intros _. split; [done|]. split; [done|]. exists x. split; [done|]. split; [done|].
  split; [done|]. right. split; [|done]. rewrite eqb_false in Hd.
  destruct (d_state x); try done; [right | by left]. split; [done|].
  by destruct (received_under v (rt_generation rt) x).
Qed.

(** ** Witnesses *)

Lemma collision_free_check cs :
  (let l := omap submission_of cs in
   forallb (λ x : MessageRoute * MessageSubmitRequest, forallb (λ y : MessageRoute * MessageSubmitRequest,
     negb (eqb (_digest x.1 x.2) (_digest y.1 y.2)) || eqb (q_in_reply_to x.2) (q_in_reply_to y.2)) l) l) = true →
  collision_free cs.
Proof.
  cbn zeta. intros H r q r' q' Hs Hs' Hd. rewrite forallb_forall in H.
  specialize (H (r, q) (proj1 (list_elem_of_In _ _) Hs)). rewrite forallb_forall in H.
  specialize (H (r', q') (proj1 (list_elem_of_In _ _) Hs')). apply orb_true_iff in H as [H|H].
  - rewrite negb_true_iff, eqb_false in H. by destruct H.
  - by rewrite eqb_true in H.
Qed.

Definition ex_ada : Mailboxes.AgentMailbox :=
  Mailboxes.mkMailbox "ada" "Ada" "e1" "p1" "s1" 1 (Some Mailboxes.codex).
Definition ex_bob : Mailboxes.AgentMailbox :=
  Mailboxes.mkMailbox "bob" "Bob" "e2" "p2" "s2" 3 (Some Mailboxes.claude).
Definition ex_store : MsgDB :=
  mkMsgDB [] [] false (Mailboxes.mkMailboxDB [ex_ada; ex_bob] ∅) (GrantState.mkDB ∅ ∅)
    (WorkState.mkStateDB [] []) [].
Definition ex_route : MessageRoute := mkRoute "e2" 3.
Definition ex_submit : MessageSubmitRequest := mkSubmit "m1" 1 "agent.bob" request (JStr "hello") None.
Definition ex_id : uuid := Eval vm_compute in uuid5 DELIVERY_NAMESPACE "e1:m1:e2".
Definition ex_runtime : RuntimeCurrentness := mkRuntime "3" (Some "3").
Definition ex_reply : MessageSubmitRequest := mkSubmit "m2" 3 "agent.bob" result (JStr "hi") (Some ex_id).
Definition ex_disposition : MessageDispositionRequest :=
  mkDisposition ex_id 3 (disposition_digest (by_result "m2")) (by_result "m2").

Definition ex_calls : list Call :=
  [c_submit 10 "e1" ex_route ex_submit (Some ex_ada); c_receive 20 "e2" 3 ex_runtime ex_id (Some ex_bob)].
Definition ex_answer : list Call :=
  [c_submit_result 30 "e2" 3 "3" (mkRoute "e1" 1) ex_reply (Some ex_bob)].

Definition ex_last : Call := c_submit_result 30 "e2" 3 "3" (mkRoute "e1" 1) ex_reply (Some ex_bob).

(** Bob's reply is one call: it adds his message and its delivery, and disposes
    of the delivery that he had received. *)
Lemma message_refinement_witness :
  d_state <$> deliveries (run_all ex_calls ex_store) = [RECEIVED] ∧
  d_state <$> deliveries (run ex_last (run_all ex_calls ex_store)) = [DISPOSITIONED; AVAILABLE] ∧
  rtc (AStep (submits_of ex_last) (made_by ex_last)) (run_all ex_calls ex_store) (run ex_last (run_all ex_calls ex_store)).
Proof.
  split; [vm_compute; reflexivity|]. split; [vm_compute; reflexivity|].
  apply (message_refinement ex_calls ex_last ex_store); [split; reflexivity|].
  apply collision_free_check. vm_compute. reflexivity.
Defined.

Lemma message_history_witness :
  ∃ l, messages (run_all ex_answer (run_all ex_calls ex_store)) = messages (run_all ex_calls ex_store) ++ l.
Proof.
  apply (message_history ex_calls ex_answer ex_store); [split; reflexivity|].
  apply collision_free_check. vm_compute. reflexivity.
Defined.

Lemma message_evidence_witness :
  let d := run_all (ex_calls ++ ex_answer) ex_store in
  d_state <$> deliveries d = [DISPOSITIONED; AVAILABLE] ∧
  ∀ m r, m ∈ messages d → m_in_reply_to m = Some r →
    ∃ x, x ∈ deliveries d ∧ d_id x = r ∧ d_recipient x = m_sender m.
Proof.
  split; [vm_compute; reflexivity|].
  apply (message_evidence (ex_calls ++ ex_answer) ex_store); [split; reflexivity|].
  apply collision_free_check. vm_compute. reflexivity.
Defined.

Definition ex_pending : PendingMessage :=
  mkPending ex_id "m1" "e1" "e2" "agent.bob" request (JStr "hello") AVAILABLE 3 None.

Lemma submit_idempotent_witness :
  let d1 := (submit_admitted 10 "e1" ex_route ex_submit (Some ex_ada) ex_store).1 in
  let d2 := run_all [c_receive 20 "e2" 3 ex_runtime ex_id (Some ex_bob)] d1 in
  submit_admitted 99 "e1" ex_route (mkSubmit "m1" 1 "agent.bob" request (JStr "other") None) (Some ex_ada) d2
  = (d2, Ok (refused conflict "message_identity_conflict")).
Proof.
  apply (submit_idempotent [] [c_receive 20 "e2" 3 ex_runtime ex_id (Some ex_bob)] ex_store 10 99 "e1"
           ex_route ex_submit (Some ex_ada) (Some ex_ada) ex_pending).
  - split; reflexivity.
  - apply collision_free_check. vm_compute. reflexivity.
  - vm_compute. reflexivity.
  - reflexivity.
  - vm_compute. reflexivity.
  - reflexivity.
  - reflexivity.
  - rewrite <- eqb_false. vm_compute. reflexivity.
  - vm_compute. reflexivity.
Defined.

Lemma receive_spec_witness :
  let d := run_all [c_submit 10 "e1" ex_route ex_submit (Some ex_ada)] ex_store in
  t_status (_transition ok None (Some (mkDelivery ex_id "e1" "m1" "e2" RECEIVED 3 (Some 20) (Some "3") None None None))) = ok ∧
  ∃ x, x ∈ deliveries d ∧ receivable "e2" 3 ex_runtime ex_id x.
Proof.
  split; [reflexivity|].
  apply (receive_spec 20 "e2" 3 ex_runtime ex_id (Some ex_bob)
           (run_all [c_submit 10 "e1" ex_route ex_submit (Some ex_ada)] ex_store)
           (run_all ex_calls ex_store)
           (_transition ok None (Some (mkDelivery ex_id "e1" "m1" "e2" RECEIVED 3 (Some 20) (Some "3") None None None)))).
  - apply (bool_decide_eq_true_1 _). vm_compute. reflexivity.
  - vm_compute. reflexivity.
  - reflexivity.
Defined.

Lemma disposition_spec_witness :
  let d := run_all (ex_calls ++ [c_submit_result 30 "e2" 3 "3" (mkRoute "e1" 1) ex_reply None]) ex_store in
  let r := (disposition_admitted 40 "e2" 3 ex_runtime ex_disposition (Some ex_bob) d).2 in
  (∃ x, r = Ok (_transition ok None (Some x))) ∧
  rt_current ex_runtime = Some (rt_generation ex_runtime) ∧ binding_current (Some ex_bob) d = true ∧
  ∃ x, x ∈ deliveries d ∧ d_id x = ex_id.
Proof.
  set (d := run_all _ _).
  set (y := mkDelivery ex_id "e1" "m1" "e2" DISPOSITIONED 3 (Some 20) (Some "3") (Some 40)
              (Some (disposition_digest (by_result "m2"))) (Some (evidence_json (by_result "m2")))).
  assert (H : disposition_admitted 40 "e2" 3 ex_runtime ex_disposition (Some ex_bob) d
    = ((disposition_admitted 40 "e2" 3 ex_runtime ex_disposition (Some ex_bob) d).1, Ok (_transition ok None (Some y))))
    by (vm_compute; reflexivity).
  split; [exists y; rewrite H; reflexivity|].
  pose proof (proj2 (disposition_spec 40 "e2" 3 ex_runtime ex_disposition (Some ex_bob) d _ _ H) eq_refl)
    as (H1 & H2 & x & Hx & Hid & _).
  split; [exact H1|]. split; [exact H2|]. exists x. split; [exact Hx | exact Hid].
Defined.
