(* ===== verification/MessageReads.v ===== *)
(** * Reading the mailbox ([mailbox/messages.py])

    The reads of the message store: the pages of pending messages, newest
    first, and the references a waker collects page by page while other
    callers change the store. *)

From stdpp Require Import pretty.
From S2P Require Import Prelude Tables Json Paging Messages.
From S2P Require Mailboxes.

Local Open Scope Z_scope.

Definition pending_state (x : DeliveryRow) : bool := mem (d_state x) [AVAILABLE; RECEIVED].

(** ** Pages of messages *)

Record MessagePendingRequest := mkPendingRequest {
  g_grant_version : Z; g_cursor : option uuid; g_limit : Z }.

(** [MessagePendingRequest(...)] *)
Definition pending_validate (q : MessagePendingRequest) : res MessagePendingRequest :=
  if (1 <=? g_grant_version q) && (1 <=? g_limit q) && (g_limit q <=? 10) then Ok q
  else raise ValueError "validation error".

Record MessagePendingResult := mkPendingResult {
  pr_status : Status; pr_messages : list PendingMessage; pr_next_cursor : option uuid;
  pr_has_more : bool; pr_reason : option string }.

Definition page_failure (s : Status) (reason : string) : MessagePendingResult :=
  mkPendingResult s [] None false (Some reason).

(** [MessagePendingResult(...)] with [exact_page]. *)
Definition pending_result_validate (r : MessagePendingResult) : res MessagePendingResult :=
  if negb (eqb (pr_status r) ok) then
    if (0 <? length (pr_messages r))%nat || is_some (pr_next_cursor r) || pr_has_more r || is_none (pr_reason r)
    then raise ValueError "failed pending read must not claim message data" else Ok r
  else if is_some (pr_reason r) then raise ValueError "successful pending read has no failure reason"
  else if negb (Bool.eqb (pr_has_more r) (is_some (pr_next_cursor r)))
  then raise ValueError "cursor presence must match page truncation"
  else if is_some (pr_next_cursor r)
          && negb (eqb (pr_next_cursor r) (p_delivery_id <$> last (pr_messages r)))
  then raise ValueError "next cursor must identify the final returned delivery"
  else Ok r.

Definition row_key (xm : DeliveryRow * MessageRow) : Z * uuid := (m_created_at xm.2, d_id xm.1).
(** Newest first. *)
Definition newest (a b : Z * uuid) : bool := pair_leb b a.

(** The rows of the query without its cursor. *)
Definition pending_rows (work : uuid) (ordinary_only : bool) (d : MsgDB) : list (DeliveryRow * MessageRow) :=
  List.filter (λ xm, eqb (d_recipient xm.1) work && pending_state xm.1
                     && (negb ordinary_only || negb (mem (m_route_ref xm.2) REVIEW_ROUTE_REFS))) (joined d).

(** The key of the cursor's delivery; a scalar subquery without a row is NULL,
    and then nothing is before it. *)
Definition anchor (cursor : uuid) (d : MsgDB) : res (option (Z * uuid)) :=
  fmap (M := option) row_key <$> one_or_none (List.filter (λ xm, is_delivery cursor xm.1) (joined d)).

(** [_pending] *)
Definition _pending (work : uuid) (q : MessagePendingRequest) (b : option Mailboxes.AgentMailbox)
    (ordinary_only : bool) (d : MsgDB) : res MessagePendingResult :=
  if negb (binding_current b d) then Ok (page_failure stale "receiving_binding_changed")
  else
    rows ← match g_cursor q with
           | None => Ok (page row_key newest (Z.to_nat (g_limit q + 1)) None (pending_rows work ordinary_only d))
           | Some c =>
               k ← anchor c d;
               Ok match k with
                  | None => []
                  | Some k => page row_key newest (Z.to_nat (g_limit q + 1)) (Some k)
                                (pending_rows work ordinary_only d)
                  end
           end;
    let has_more := g_limit q <? Z.of_nat (length rows) in
    let selected := take (Z.to_nat (g_limit q)) rows in
    pending_result_validate (mkPendingResult ok (_view <$> selected)
      (if has_more then (λ xm : DeliveryRow * MessageRow, d_id xm.1) <$> last selected else None) has_more None).

(** [pending_admitted] *)
Definition pending_admitted (work : uuid) (q : MessagePendingRequest) (b : option Mailboxes.AgentMailbox)
    (ordinary_only : bool) (d : MsgDB) : res MessagePendingResult :=
  match _pending work q b ordinary_only d with
  | Ok r => Ok r
  | Err e => if existsb (exn_isinstance (exn_cls e)) [SQLAlchemyError; ValueError]
             then Ok (page_failure recovery_required "state_unavailable") else Err e
  end.

(** ** Wake references *)

(** The references of the pending deliveries of a mailbox. *)
Definition pending_ids (endpoint : uuid) (d : MsgDB) : list uuid :=
  d_id <$> List.filter (λ x, eqb (d_recipient x) endpoint && pending_state x) (deliveries d).

(** [pending_delivery_ids] *)
Definition pending_delivery_ids (b : Mailboxes.AgentMailbox) (cursor : option uuid) (d : MsgDB)
  : option (list uuid) :=
  if negb (binding_current (Some b) d) then None
  else Some (page id str_leb 50 cursor (pending_ids (Mailboxes.endpoint_id b) d)).

(** [pending_delivery] *)
Definition pending_delivery (b : Mailboxes.AgentMailbox) (delivery : uuid) (d : MsgDB) : bool :=
  binding_current (Some b) d
  && existsb (λ x, is_delivery delivery x && eqb (d_recipient x) (Mailboxes.endpoint_id b) && pending_state x)
       (deliveries d).

(** [all_pending_delivery_ids]: the [i]-th page is read in the store [ds i];
    the outer [None] means that [fuel] pages were not enough. *)
Fixpoint all_pending_loop (fuel : nat) (ds : nat → MsgDB) (i : nat) (b : Mailboxes.AgentMailbox)
    (cursor : option uuid) (pending : list uuid) : option (option (list uuid)) :=
  match fuel with
  | O => None
  | S fuel =>
      match pending_delivery_ids b cursor (ds i) with
      | None => Some None
      | Some page =>
          let pending := pending ++ page in
          if (length page <? 50)%nat then Some (Some pending)
          else all_pending_loop fuel ds (S i) b (last page) pending
      end
  end.

Definition all_pending_delivery_ids (fuel : nat) (ds : nat → MsgDB) (b : Mailboxes.AgentMailbox)
  : option (option (list uuid)) := all_pending_loop fuel ds 0 b None [].

(** ** Other reads *)

(** [wake_pending]: available deliveries to any mailbox. *)
Definition wake_pending (d : MsgDB) : list PendingMessage :=
  _view <$> List.filter (λ xm, eqb (d_state xm.1) AVAILABLE
    && existsb (λ m, eqb (Mailboxes.endpoint_id m) (d_recipient xm.1)) (Mailboxes.mailboxes (agents d))) (joined d).

(** [reply_context] *)
Definition reply_context (delivery : uuid) (d : MsgDB) : res (option (uuid * string)) :=
  fmap (M := option) (λ xm, (d_sender xm.1, m_route_ref xm.2)) <$>
    one_or_none (List.filter (λ xm, is_delivery delivery xm.1) (joined d)).

(** [has_received] *)
Definition has_received (work : uuid) (version : Z) (d : MsgDB) : bool :=
  existsb (λ x, eqb (d_recipient x) work && (d_version x =? version) && eqb (d_state x) RECEIVED) (deliveries d).

(** [payload["key"].astext]; the text of an array or object is left out, as
    it is never an identifier. *)
Definition payload_text (key : string) (payload : json) : option string :=
  match payload with
  | JObj kvs => match assoc key kvs with
                | Some (JStr s) => Some s
                | Some (JInt z) => Some (pretty z)
                | Some (JBool b) => Some (if b then "true" else "false")
                | _ => None
                end
  | _ => None
  end.

(** An open request bound to one work, outside the review routes. *)
Definition open_request (work : uuid) (xm : DeliveryRow * MessageRow) : bool :=
  negb (eqb (d_state xm.1) DISPOSITIONED) && eqb (m_kind xm.2) request
  && negb (mem (m_route_ref xm.2) REVIEW_ROUTE_REFS)
  && eqb (payload_text "work_id" (m_payload xm.2)) (Some work).

(** [open_handoff_watches] *)
Definition open_handoff_watches (work : uuid) (d : MsgDB) : list string :=
  String.append "message:" <$>
    py_sort str_leb ((λ xm : DeliveryRow * MessageRow, d_id xm.1) <$> List.filter (open_request work) (joined d)).

(** ** Wake references: what a collection says *)

Lemma pending_ids_NoDup endpoint d :
  NoDup (d_id <$> deliveries d) → NoDup (pending_ids endpoint d).
Proof.
  unfold pending_ids. induction (deliveries d) as [|x l IH]; [done|]. cbn. intros [Hx Hn]%NoDup_cons.
  destruct (_ && _); [|by apply IH]. cbn. apply NoDup_cons. split; [|by apply IH].
  intros (y & Hy & Hin)%list_elem_of_fmap. apply Hx. rewrite Hy. apply list_elem_of_fmap_2.
  apply list_elem_of_In, filter_In in Hin as [Hin _]. by apply list_elem_of_In.
Qed.

Section collection.
Context (ds : nat → MsgDB) (b : Mailboxes.AgentMailbox) (universe : list uuid).
Context (unique : ∀ i, NoDup (d_id <$> deliveries (ds i))).
Let pending_at (i : nat) : list uuid := pending_ids (Mailboxes.endpoint_id b) (ds i).
Context (bounded : ∀ i x, x ∈ pending_at i → x ∈ universe).

(** What holds after the pages that [read] collects. *)
Record collected (read : list uuid) : Prop := {
  co_sorted : StronglySorted (klt id str_leb) read;
  co_pending x : x ∈ read → ∃ i, x ∈ pending_at i;
  co_complete x : (∀ i, x ∈ pending_at i) → x ∈ read ∨ after id str_leb (last read) x = true }.

Lemma collected_nil : collected [].
Proof. split; [constructor | by intros x ?%not_elem_of_nil | by right]. Qed.

Lemma collected_page read i :
  collected read → collected (read ++ page id str_leb 50 (last read) (pending_at i)).
Proof using unique.
  intros [H1 H2 H3]. assert (Hn : NoDup (id <$> pending_at i)) by (rewrite list_fmap_id; by apply pending_ids_NoDup).
  set (p := page _ _ _ _ _). split.
  - pose proof (page_continues id str_leb 50 (pending_at i) read Hn H1) as H. by destruct (last read).
  - intros x [Hx|Hx]%elem_of_app; [by apply H2|]. apply page_elem in Hx as [Hx _]. by exists i.
  - intros x Hx. destruct (H3 x Hx) as [Hr|Ha]; [left; apply elem_of_app; by left|].
    destruct (last p) as [z|] eqn:Hz.
    + assert (Hin : x ∈ following id str_leb (last read) (pending_at i)) by (apply following_elem; auto).
      rewrite (following_split id str_leb 50 _ _ z Hn Hz) in Hin. apply elem_of_app in Hin as [Hin|Hin];
        [left; apply elem_of_app; by right|]. right. rewrite last_app, Hz. by apply following_elem in Hin as [_ Hin].
    + apply last_None in Hz. right. by rewrite Hz, app_nil_r.
Qed.

(** The collection is bounded, as it never repeats itself. *)
Lemma collected_length read : collected read → (length read ≤ length universe)%nat.
Proof using bounded.
  intros [H1 H2 _]. apply sorted_NoDup in H1; [|apply _].
  apply submseteq_length, NoDup_submseteq; [done|]. intros x Hx. destruct (H2 x Hx) as [i Hi]. by eapply bounded.
Qed.

Lemma all_pending_loop_spec fuel : ∀ i read,
  collected read → (length universe < length read + 50 * fuel)%nat →
  ∃ r, all_pending_loop fuel ds i b (last read) read = Some r ∧
    match r with
    | None => ∃ j, binding_current (Some b) (ds j) = false
    | Some ids => collected ids ∧ ∀ x, (∀ i, x ∈ pending_at i) → x ∈ ids
    end.
Proof using unique bounded.
  induction fuel as [|fuel IH]; intros i read Hc Hlen.
  { pose proof (collected_length _ Hc). lia. }
  cbn [all_pending_loop]. unfold pending_delivery_ids.
  destruct (binding_current (Some b) (ds i)) eqn:Hb; cbn [negb]; [|exists None; split; [done | by exists i]].
  fold (pending_at i). pose proof (collected_page read i Hc) as Hc'. set (p := page _ _ _ _ _) in *.
  destruct (length p <? 50)%nat eqn:Hshort; [apply Nat.ltb_lt in Hshort | apply Nat.ltb_ge in Hshort].
  - exists (Some (read ++ p)). split; [done|]. split; [done|]. intros x Hx.
    destruct (co_complete _ Hc x Hx) as [Hr|Ha]; apply elem_of_app; [by left|right].
    unfold p. rewrite page_short by done. apply following_elem. auto.
  - assert (Hp : last p = last (read ++ p)).
    { destruct (last p) as [z|] eqn:Hz; [by rewrite last_app, Hz|].
      apply last_None in Hz. rewrite Hz in Hshort. cbn in Hshort. lia. }
    rewrite Hp. apply IH; [done|]. rewrite length_app. lia.
Qed.
End collection.

(** C33: collecting wake references ends and misses nothing.  However the
    store changes between the pages, if the deliveries ever pending are at
    most [n], the collection ends within [n / 50 + 1] pages; it gives up
    only when the mailbox has changed hands, and otherwise lists, in
    strictly increasing order and so without repetition, only deliveries
    that were pending when their page was read, among them every delivery
    that was pending all along. *)
Theorem all_pending_complete ds b n universe :
  (∀ i, NoDup (d_id <$> deliveries (ds i))) →
  (∀ i x, x ∈ pending_ids (Mailboxes.endpoint_id b) (ds i) → x ∈ universe) → (length universe ≤ n)%nat →
  ∃ r, all_pending_delivery_ids (n / 50 + 1) ds b = Some r ∧
    match r with
    | None => ∃ i, binding_current (Some b) (ds i) = false
    | Some ids =>
        StronglySorted (λ x y, str_ltb x y = true) ids ∧
        (∀ x, x ∈ ids → ∃ i, x ∈ pending_ids (Mailboxes.endpoint_id b) (ds i)) ∧
        (∀ x, (∀ i, x ∈ pending_ids (Mailboxes.endpoint_id b) (ds i)) → x ∈ ids)
    end.
Proof.
  intros Hn Hb Hlen.
  destruct (all_pending_loop_spec ds b universe Hn Hb (n / 50 + 1) 0 [] (collected_nil ds b)) as (r & Hr & Hspec).
  { cbn [length]. pose proof (Nat.div_mod n 50 ltac:(done)). pose proof (Nat.mod_upper_bound n 50 ltac:(done)). lia. }
  exists r. split; [exact Hr|]. destruct r as [ids|]; [|done]. destruct Hspec as [[H1 H2 _] H3].
  split; [by apply sorted_strings | by split].
Qed.

(** ** Pages of messages: what a reader sees *)

Lemma joined_keys Sub d : wf Sub d → NoDup (row_key <$> joined d).
Proof.
  intros Hwf. pose proof (wf_delivery_id _ _ Hwf) as Hn. rewrite <- (joined_fst Sub) in Hn by done.
  revert Hn. clear. induction (joined d) as [|xm l IH]; [by intros _; constructor|]. cbn.
  intros [Hx Hn]%NoDup_cons. apply NoDup_cons. split; [|by apply IH].
  intros (ym & Hy & Hin)%list_elem_of_fmap. apply Hx. unfold row_key in Hy. injection Hy as _ ->.
  rewrite <- list_fmap_compose. by apply (list_elem_of_fmap_2 (d_id ∘ fst)).
Qed.

Lemma filter_keys {A K} (key : A → K) (P : A → bool) l : NoDup (key <$> l) → NoDup (key <$> List.filter P l).
Proof.
  induction l as [|x l IH]; [done|]. cbn. intros [Hx Hn]%NoDup_cons. destruct (P x); [|by apply IH]. cbn.
  apply NoDup_cons. split; [|by apply IH]. intros (y & Hy & Hin)%list_elem_of_fmap. apply Hx. rewrite Hy.
  apply list_elem_of_fmap_2. apply list_elem_of_In, filter_In in Hin as [Hin _]. by apply list_elem_of_In.
Qed.

Lemma pending_rows_keys Sub w o d : wf Sub d → NoDup (row_key <$> pending_rows w o d).
Proof. intros Hwf. by eapply filter_keys, joined_keys. Qed.

(** The cursor of a page finds its row again. *)
Lemma anchor_row Sub d xm : wf Sub d → xm ∈ joined d → anchor (d_id xm.1) d = Ok (Some (row_key xm)).
Proof.
  intros Hwf Hj. destruct xm as [x m]. apply joined_elem in Hj as (Hx & Hm & Hk). unfold anchor. cbn.
  by rewrite (joined_unique Sub d x m).
Qed.

(** One page, read from the key of its cursor. *)
Lemma pending_page Sub w q b o d k :
  wf Sub d → 1 <= g_limit q → binding_current b d = true →
  match g_cursor q with
  | None => k = None
  | Some c => is_Some k ∧ anchor c d = Ok k
  end →
  let n := Z.to_nat (g_limit q) in
  let rest := following row_key newest k (pending_rows w o d) in
  let more := (n <? length rest)%nat in
  let selected := page row_key newest n k (pending_rows w o d) in
  _pending w q b o d = Ok (mkPendingResult ok (_view <$> selected)
    (if more then (λ xm : DeliveryRow * MessageRow, d_id xm.1) <$> last selected else None) more None).
Proof.
  intros Hwf Hl Hb Hk n rest more selected. unfold _pending. rewrite Hb. cbn [negb].
  assert (Hrows : match g_cursor q with
    | None => Ok (page row_key newest (Z.to_nat (g_limit q + 1)) None (pending_rows w o d))
    | Some c => k ← anchor c d; Ok match k with None => [] | Some k =>
        page row_key newest (Z.to_nat (g_limit q + 1)) (Some k) (pending_rows w o d) end
    end = Ok (take (S n) rest)).
  { unfold rest, page. replace (Z.to_nat (g_limit q + 1)) with (S n) by lia.
    destruct (g_cursor q) as [c|]; [|by subst k]. destruct Hk as [[k0 ->] ->]. done. }
  rewrite Hrows. cbn [mbind res_bind]. fold n. rewrite take_take, Nat.min_l by lia.
  assert (Hmore : (g_limit q <? Z.of_nat (length (take (S n) rest))) = more).
  { unfold more. rewrite length_take. destruct (n <? length rest)%nat eqn:E;
      [apply Nat.ltb_lt in E; apply Z.ltb_lt | apply Nat.ltb_ge in E; apply Z.ltb_ge]; lia. }
  rewrite Hmore. change (take n rest) with selected.
  assert (Hlast : more = true → is_Some (last selected)).
  { intros Hm%Nat.ltb_lt. destruct (last selected) as [z|] eqn:Hz; [by eexists|].
    apply last_None, (f_equal length) in Hz. unfold selected, page in Hz. fold rest in Hz.
    rewrite length_take in Hz. cbn in Hz. lia. }
  clearbody more selected. unfold pending_result_validate. cbn [pr_status pr_messages pr_next_cursor pr_has_more pr_reason].
  rewrite eqb_refl. cbn. destruct more; [|done]. destruct (Hlast eq_refl) as [z Hz].
  rewrite fmap_last, Hz. cbn. destruct z. by rewrite eqb_refl.
Qed.

(** A reader that asks for page after page. *)
Fixpoint read_pages (fuel : nat) (w : uuid) (limit : Z) (b : option Mailboxes.AgentMailbox) (o : bool)
    (cursor : option uuid) (d : MsgDB) : option (list PendingMessage) :=
  match fuel with
  | O => None
  | S fuel =>
      match _pending w (mkPendingRequest 1 cursor limit) b o d with
      | Ok (mkPendingResult ok ms next true _) => app ms <$> read_pages fuel w limit b o next d
      | Ok (mkPendingResult ok ms _ false _) => Some ms
      | _ => None
      end
  end.

Lemma read_pages_spec Sub w limit b o d fuel : ∀ cursor k,
  wf Sub d → 1 <= limit → binding_current b d = true →
  match cursor with None => k = None | Some c => is_Some k ∧ anchor c d = Ok k end →
  (length (following row_key newest k (pending_rows w o d)) < fuel)%nat →
  read_pages fuel w limit b o cursor d = Some (_view <$> following row_key newest k (pending_rows w o d)).
Proof.
  induction fuel as [|fuel IH]; intros cursor k Hwf Hl Hb Hk Hf; [lia|]. cbn [read_pages].
  rewrite (pending_page Sub w (mkPendingRequest 1 cursor limit) b o d k) by done. cbn [g_limit].
  set (n := Z.to_nat limit). set (rest := following _ _ _ _) in *.
  destruct (n <? length rest)%nat eqn:Hm; [apply Nat.ltb_lt in Hm | apply Nat.ltb_ge in Hm].
  - destruct (last (page row_key newest n k (pending_rows w o d))) as [z|] eqn:Hz.
    2:{ apply last_None in Hz. unfold page in Hz. fold rest in Hz. apply (f_equal length) in Hz.
        rewrite length_take in Hz. cbn in Hz. lia. }
    pose proof (following_split row_key newest n k _ z (pending_rows_keys Sub w o d Hwf) Hz) as Hsplit.
    fold rest in Hsplit. cbn. rewrite (IH _ (Some (row_key z))); try done.
    + by rewrite Hsplit, fmap_app.
    + split; [done|]. apply (anchor_row Sub); [done|]. apply last_Some_elem_of in Hz.
      apply page_elem in Hz as [Hz _]. unfold pending_rows in Hz.
      apply list_elem_of_In, filter_In in Hz as [Hz _]. by apply list_elem_of_In.
    + rewrite Hsplit, length_app in Hf. unfold page in Hf. fold rest in Hf. rewrite length_take in Hf. lia.
  - unfold page. fold rest. by rewrite take_ge.
Qed.

(** Pages.  In every reachable store, a reader that follows the cursors
    of pages of any size sees exactly the pending messages of the mailbox,
    each once and newest first, and comes to an end. *)
Theorem pending_pages cs d0 w limit b o fuel :
  empty_store d0 → collision_free cs → 1 <= limit →
  let d := run_all cs d0 in
  binding_current b d = true → (length (pending_rows w o d) < fuel)%nat →
  ∃ rows, read_pages fuel w limit b o None d = Some (_view <$> rows) ∧ rows ≡ₚ pending_rows w o d ∧
    StronglySorted (λ x y, pair_leb (row_key x) (row_key y) = false) rows.
Proof.
  intros Hd0 Hcf Hl d Hb Hf. pose proof (runs_spec cs [] d0 Hd0) as H. rewrite app_nil_r in H.
  destruct (H Hcf) as (Hwf & _). exists (following row_key newest None (pending_rows w o d)).
  assert (Hperm : following row_key newest None (pending_rows w o d) ≡ₚ pending_rows w o d).
  { unfold following. rewrite py_sort_perm. clear. induction (pending_rows w o d) as [|x l IH]; [done|].
    cbn. by rewrite IH. }
  split; [|split; [exact Hperm|]].
  - apply (read_pages_spec (submits cs)); [done..|]. by rewrite Hperm.
  - apply (following_sorted row_key newest). by apply (pending_rows_keys (submits cs)).
Qed.

(** ** Witnesses *)

(** The store grows between the pages. *)
Definition ex_stores (i : nat) : MsgDB :=
  match i with O => run_all ex_calls ex_store | _ => run_all (ex_calls ++ ex_answer) ex_store end.

Lemma all_pending_complete_witness :
  all_pending_delivery_ids 1 ex_stores ex_bob = Some (Some [ex_id]) ∧
  ∃ r, all_pending_delivery_ids (1 / 50 + 1) ex_stores ex_bob = Some r ∧
    match r with
    | None => ∃ i, binding_current (Some ex_bob) (ex_stores i) = false
    | Some ids =>
        StronglySorted (λ x y, str_ltb x y = true) ids ∧
        (∀ x, x ∈ ids → ∃ i, x ∈ pending_ids (Mailboxes.endpoint_id ex_bob) (ex_stores i)) ∧
        (∀ x, (∀ i, x ∈ pending_ids (Mailboxes.endpoint_id ex_bob) (ex_stores i)) → x ∈ ids)
    end.
Proof.
  split; [vm_compute; reflexivity|].
  apply (all_pending_complete ex_stores ex_bob 1 [ex_id]).
  - intros [|i]; apply (bool_decide_eq_true_1 _); vm_compute; reflexivity.
  - assert (E : ∀ i, pending_ids (Mailboxes.endpoint_id ex_bob) (ex_stores i) = match i with O => [ex_id] | _ => [] end)
      by (intros [|i]; vm_compute; reflexivity).
    intros i x Hx. rewrite E in Hx. destruct i; [exact Hx | by apply not_elem_of_nil in Hx].
  - reflexivity.
Defined.

Lemma pending_pages_witness :
  length (pending_rows "e2" false (run_all ex_calls ex_store)) = 1%nat ∧
  ∃ rows, read_pages 2 "e2" 10 (Some ex_bob) false None (run_all ex_calls ex_store) = Some (_view <$> rows) ∧
    rows ≡ₚ pending_rows "e2" false (run_all ex_calls ex_store) ∧
    StronglySorted (λ x y, pair_leb (row_key x) (row_key y) = false) rows.
Proof.
  split; [vm_compute; reflexivity|].
  apply (pending_pages ex_calls ex_store "e2" 10 (Some ex_bob) false 2).
  - split; reflexivity.
  - apply collision_free_check. vm_compute. reflexivity.
  - lia.
  - vm_compute. reflexivity.
  - vm_compute. lia.
Defined.
