(* ===== verification/MessageSend.v ===== *)
(** * Sending under a grant ([mailbox/messages.py])

    The entry points that decide, from the caller's grant, whether a message
    operation is admitted, and what a refusal leaves behind.  A call of an
    entry point is one run: other callers act before it or after it. *)

From S2P Require Import Prelude Tables Json Contracts Grants Messages MessageReads.
From S2P Require Controller GrantState WorkState Mailboxes.

Local Open Scope Z_scope.

(** ** Admission *)

Section admission.
Context (now : Z).

(** [message_admission] *)
Definition message_admission (principal : Grants.PrincipalContext) (grant : option Grants.WorkGrant)
    (grant_version : Z) (work : option uuid) : option (Status * string) :=
  match grant with
  | None => Some (denied, "actor_not_admitted")
  | Some g =>
      if negb (eqb (Grants.principal g) principal) || negb (Grants.grant_current g now)
      then Some (denied, "actor_not_admitted")
      else if negb (Grants.version g =? grant_version) then Some (stale, "grant_version_changed")
      else if negb (mem Grants.message (Grants.operations g)) then Some (denied, "message_not_granted")
      else if match work with
              | Some w => eqb (Grants.scope g) Grants.launch
                          && negb (eqb (active_work_id (Grants.authority g)) w)
              | None => false
              end
      then Some (denied, "actor_not_admitted")
      else None
  end.

(** [MessageState._admission] *)
Definition _admission (principal : Grants.PrincipalContext) (grant : option Grants.WorkGrant)
    (grant_version : Z) (work : option uuid) : option (Status * string) :=
  match message_admission principal grant grant_version work with
  | None => None
  | Some (s, reason) =>
      if eqb reason "grant_version_changed" then Some (s, reason) else Some (denied, "no_current_grant")
  end.

(** The grant of a principal, read under its lock. *)
Definition locked (principal : Grants.PrincipalContext) : M MsgDB (option Grants.WorkGrant) :=
  on_grants (GrantState.locked_grant (Grants.principal_key principal)).

(** A read of the store. *)
Definition reading {A} (f : MsgDB → res A) : M MsgDB A := λ d, (d, f d).

(** [MessageState.submit] *)
Definition submit (principal : Grants.PrincipalContext) (route : MessageRoute) (q : MessageSubmitRequest)
  : M MsgDB SubmitResult :=
  catch (
    grant ← locked principal;
    match _admission principal grant (q_grant_version q) None, grant with
    | Some (s, reason), _ => mret (refused s reason)
    | None, Some g => _store now (active_work_id (Grants.authority g)) route q None None
    | None, None => throw AssertionError ""
    end) [SQLAlchemyError; ValueError] (λ _, mret unavailable).

(** [MessageState.pending] *)
Definition pending (principal : Grants.PrincipalContext) (q : MessagePendingRequest)
  : M MsgDB MessagePendingResult :=
  catch (
    grant ← locked principal;
    match _admission principal grant (g_grant_version q) None, grant with
    | Some (s, reason), _ => mret (page_failure s reason)
    | None, Some g => reading (_pending (active_work_id (Grants.authority g)) q None false)
    | None, None => throw AssertionError ""
    end) [SQLAlchemyError; ValueError] (λ _, mret (page_failure recovery_required "state_unavailable")).

(** What [receive], [recover] and [disposition] share. *)
Definition under_grant (principal : Grants.PrincipalContext) (grant_version : Z) (work : option uuid)
    (call : uuid → Z → M MsgDB TransitionResult) : M MsgDB TransitionResult :=
  catch (
    grant ← locked principal;
    match _admission principal grant grant_version work, grant with
    | Some (s, reason), _ => mret (_transition s (Some reason) None)
    | None, Some g => call (default (active_work_id (Grants.authority g)) work) (Grants.version g)
    | None, None => throw AssertionError ""
    end) [SQLAlchemyError; ValueError] (λ _, mret transition_unavailable).

(** [MessageState.receive] *)
Definition receive (principal : Grants.PrincipalContext) (rt : RuntimeCurrentness) (id : uuid)
    (grant_version : Z) (work : option uuid) : M MsgDB TransitionResult :=
  under_grant principal grant_version work (λ w v, receive_admitted now w v rt id None).

(** [MessageState.recover] *)
Definition recover (principal : Grants.PrincipalContext) (rt : RuntimeCurrentness) (id : uuid)
    (grant_version : Z) (work : option uuid) : M MsgDB TransitionResult :=
  under_grant principal grant_version work (λ w v, recover_admitted w v rt id None).

(** [MessageState.disposition] *)
Definition disposition (principal : Grants.PrincipalContext) (rt : RuntimeCurrentness)
    (q : MessageDispositionRequest) (work : option uuid) : M MsgDB TransitionResult :=
  under_grant principal (x_grant_version q) work (λ w v, disposition_admitted now w v rt q None).

(** ** The message engine *)

(** [state.get] *)
Definition known_work (work : uuid) : M MsgDB (option Controller.Handle) := λ d,
  (d, (WorkState.get work (handles d)).2).

Definition with_version (v : Z) (q : MessageSendRequest) : MessageSendRequest :=
  mkSend (n_work_id q) v (n_message_id q) (n_route_ref q) (n_payload q) (n_recipient q) (n_in_reply_to q).

(** The part of [_send_message] that submits, once the sender is admitted;
    [context] is the delivery replied to, with its sender and route. *)
Definition submit_new (q : MessageSendRequest) (rt : option RuntimeCurrentness) (require_received : bool)
    (review_cutoff : bool) (context : option (uuid * string)) (g : Grants.WorkGrant)
    (recipient : option Grants.WorkGrant) : M MsgDB SubmitResult :=
  if is_none context && is_some (n_in_reply_to q) then mret (refused conflict "reply_delivery_not_found")
  else
    match (if is_some (n_in_reply_to q) then fst <$> context else n_recipient q) with
    | None => throw AssertionError ""
    | Some recipient_work =>
        match recipient with
        | None => mret (refused denied "recipient_route_unavailable")
        | Some r =>
            handle ← known_work recipient_work;
            match handle, (match context with None => n_route_ref q | Some c => Some c.2 end) with
            | None, _ => mret (refused denied "recipient_route_unavailable")
            | Some _, None => throw AssertionError ""
            | Some _, Some route_ref =>
                if review_cutoff && mem route_ref REVIEW_ROUTE_REFS
                then mret (refused denied "reserved_route")
                else
                  s ← lift (submit_validate (mkSubmit (n_message_id q) (Grants.version g) route_ref
                         (if is_none context then request else result) (n_payload q) (n_in_reply_to q)));
                  let route := mkRoute recipient_work (Grants.version r) in
                  if require_received then
                    match rt with
                    | None => throw AssertionError ""
                    | Some rt =>
                        submit_received_result now (n_work_id q) (Grants.version g) (rt_generation rt) route s None
                    end
                  else submit_admitted now (n_work_id q) route s None
            end
        end
    end.

(** [_send_message] *)
Definition _send_message (review_cutoff : bool) (principal : Grants.PrincipalContext) (q : MessageSendRequest)
    (rt : option RuntimeCurrentness) (infer_grant_version require_received : bool) : M MsgDB SubmitResult :=
  if match rt with None => false | Some rt => is_some (runtime_admission rt) end
  then mret (refused recovery_required "state_unavailable")
  else
    catch (
      d ← get_st;
      context ← lift (match n_in_reply_to q with
                      | None => Ok None
                      | Some delivery => reply_context delivery d
                      end);
      route ← on_grants (GrantState.locked_message_route (Grants.principal_key principal)
                (if is_some (n_in_reply_to q) then fst <$> context else n_recipient q) now);
      let '(grant, recipient) := route in
      let version := match grant with
                     | Some g => if infer_grant_version then Grants.version g else n_grant_version q
                     | None => n_grant_version q
                     end in
      match message_admission principal grant version (Some (n_work_id q)) with
      | Some (s, reason) => mret (refused s reason)
      | None =>
          sender ← known_work (n_work_id q);
          match sender, grant with
          | None, _ => mret (refused denied "actor_not_admitted")
          | Some _, None => throw AssertionError ""
          | Some _, Some g =>
              let q := if infer_grant_version then with_version (Grants.version g) q else q in
              replay ← committed_public_replay now (n_work_id q) q None;
              match replay with
              | Some answer => mret answer
              | None => submit_new q rt require_received review_cutoff context g recipient
              end
          end
      end) [SQLAlchemyError; ProviderError; ValueError; KeyError]
      (λ _, mret (refused recovery_required "state_unavailable")).

(** [send_message] *)
Definition send_message (review_cutoff : bool) (principal : Grants.PrincipalContext) (q : MessageSendRequest)
  : M MsgDB SubmitResult := _send_message review_cutoff principal q None false false.

(** [send_managed_result] *)
Definition send_managed_result (review_cutoff : bool) (principal : Grants.PrincipalContext)
    (q : MessageSendRequest) (rt : RuntimeCurrentness) : M MsgDB SubmitResult :=
  if is_none (n_in_reply_to q) then throw ValueError "managed message result requires in_reply_to_delivery_id"
  else _send_message review_cutoff principal q (Some rt) true true.

(** [send_received_result] *)
Definition send_received_result (review_cutoff : bool) (principal : Grants.PrincipalContext)
    (q : MessageSendRequest) (rt : RuntimeCurrentness) : M MsgDB SubmitResult :=
  if is_none (n_in_reply_to q) then throw ValueError "received message result requires in_reply_to_delivery_id"
  else _send_message review_cutoff principal q (Some rt) false true.

(** [current_message_grant_version] *)
Definition current_message_grant_version (principal : Grants.PrincipalContext) : M MsgDB Z :=
  grant ← on_grants (GrantState.current (Grants.principal_key principal));
  mret (match grant with None => 1 | Some g => Grants.version g end).

(** [_pending_messages] *)
Definition _pending_messages (principal : Grants.PrincipalContext) (work : uuid) (q : MessagePendingRequest)
    (rt : option RuntimeCurrentness) (infer_grant_version : bool) : M MsgDB MessagePendingResult :=
  if match rt with None => false | Some rt => is_some (runtime_admission rt) end
  then mret (page_failure recovery_required "state_unavailable")
  else if infer_grant_version then
    v ← current_message_grant_version principal;
    pending principal (mkPendingRequest v (g_cursor q) (g_limit q))
  else
    catch (
      grant ← locked principal;
      match message_admission principal grant (g_grant_version q) (Some work) with
      | Some (s, reason) => mret (page_failure s reason)
      | None =>
          handle ← known_work work;
          if is_none handle then mret (page_failure denied "actor_not_admitted")
          else reading (pending_admitted work q None false)
      end) [SQLAlchemyError; ProviderError; ValueError; KeyError]
      (λ _, mret (page_failure recovery_required "state_unavailable")).
End admission.

(** ** A refusal has no effect *)

(** A computation that changes the store only where it returns an answer
    that is [good]. *)
Definition harmless {A} (good : A → Prop) (m : M MsgDB A) : Prop :=
  ∀ d d' r, m d = (d', r) → (∀ a, r = Ok a → ¬ good a) → d' = d.

Section harmless.
Context {A : Type} (good : A → Prop).

Lemma harmless_ret (a : A) : harmless good (mret a).
Proof. by intros d d' r [= <- _] _. Qed.

Lemma harmless_throw c msg : harmless good (throw c msg).
Proof. by intros d d' r [= <- _] _. Qed.

Lemma harmless_reading (f : MsgDB → res A) : harmless good (reading f).
Proof. by intros d d' r [= <- _] _. Qed.

(** A step that only reads. *)
Lemma harmless_read {B} (m : M MsgDB B) (f : B → M MsgDB A) :
  (∀ d, (m d).1 = d) → (∀ b, harmless good (f b)) → harmless good (m ≫= f).
Proof.
  intros Hm Hf d d' r. unfold mbind, M_bind. specialize (Hm d). destruct (m d) as [d1 [b|e]]; cbn in Hm; subst d1.
  - apply Hf.
  - by intros [= <- _] _.
Qed.

(** A first step that is harmless where the rest is not reached by a good answer. *)
Lemma harmless_bind {B} (bgood : B → Prop) (m : M MsgDB B) (f : B → M MsgDB A) :
  harmless bgood m → (∀ b, ¬ bgood b → harmless good (f b)) →
  (∀ b d d' r, bgood b → f b d = (d', r) → ∃ a, r = Ok a ∧ good a) → harmless good (m ≫= f).
Proof.
  intros Hm Hf Hg d d' r. unfold mbind, M_bind. destruct (m d) as [d1 [b|e]] eqn:E.
  - intros H Hr. assert (Hb : ¬ bgood b).
    { intros Hb. destruct (Hg b d1 d' r Hb H) as (a & -> & Ha). by apply (Hr a). }
    rewrite (Hm _ _ _ E) in H by (by intros ? [= <-]). by apply (Hf b Hb d d' r).
  - intros [= <- <-] _. apply (Hm _ _ _ E). by intros ? ?.
Qed.

Lemma harmless_transaction (m : M MsgDB A) :
  (∀ d d' a, m d = (d', Ok a) → ¬ good a → d' = d) → harmless good (transaction m).
Proof.
  intros Hm d d' r H Hr. destruct r as [a|e]; [|by apply transaction_err in H].
  rewrite transaction_ok in H. by apply (Hm d d' a H), Hr.
Qed.

Lemma harmless_catch (m : M MsgDB A) cs h : harmless good m → harmless good (catch m cs (λ e, mret (h e))).
Proof.
  intros Hm d d' r. unfold catch. destruct (m d) as [d1 [a|e]] eqn:E.
  - intros [= <- <-] Hr. by apply (Hm _ _ _ E).
  - intros H _. assert (d' = d1) as -> by (by destruct (existsb _ _); injection H as <- _).
    apply (Hm _ _ _ E). by intros ? ?.
Qed.
End harmless.

Definition submit_ok (r : SubmitResult) : Prop := s_status r = ok.
Definition transition_ok (r : TransitionResult) : Prop := t_status r = ok.

Lemma persist_None now s r q d d' fresh :
  _persist_delivery now s r q (_digest r q) d = (d', Ok (None, fresh)) → d' = d.
Proof.
  intros (d1 & a1 & Hi & H)%M_bind_Ok.
  apply M_bind_Ok in H as (d2 & d2' & [-> ->]%get_st_Ok & H).
  apply M_bind_Ok in H as (d2 & cur & [Hone ->]%lift_Ok & H). apply one_Ok in Hone.
  destruct (eqb cur (_digest r q)) eqn:E; cbn [negb] in H.
  { apply M_bind_Ok in H as (d3 & ins & _ & H). apply M_bind_Ok in H as (d4 & d4' & _ & H).
    apply M_bind_Ok in H as (d5 & row & _ & H). by apply mret_Ok in H as [_ ?]. }
  apply mret_Ok in H as [-> _]. apply insert_message_Ok in Hi as [->|(-> & _)]; [done|]. exfalso.
  rewrite eqb_false in E. apply E. set (m0 := mkMessage _ _ _ _ _ _ _ _) in *.
  assert (Hin : m0 ∈ List.filter (is_message s (q_message_id q)) (messages d ++ [m0])).
  { apply list_elem_of_In, filter_In. split; [apply in_app_iff; right; by left | by apply is_message_true]. }
  apply (list_elem_of_fmap_2 m_digest) in Hin. cbn [messages with_messages] in Hone. rewrite Hone in Hin.
  by apply list_elem_of_singleton in Hin.
Qed.

Lemma reply_failure_refuses s q rb d d' a :
  reply_failure s q rb d = (d', Ok (Some a)) → d' = d ∧ ¬ submit_ok a.
Proof.
  intros H. pose proof (reply_failure_Ok _ _ _ _ _ _ H) as [-> _]. split; [done|]. revert H. unfold reply_failure.
  destruct (q_in_reply_to q) as [id|]; [|by intros [_ ?]%mret_Ok].
  intros (d1 & row & _ & H)%M_bind_Ok. destruct row as [x|]; [|by apply mret_Ok in H as [_ [= ->]]].
  case_if H; [by apply mret_Ok in H as [_ [= ->]]|]. case_if H; [by apply mret_Ok in H as [_ [= ->]]|].
  apply M_bind_Ok in H as (d2 & prior & _ & H). apply mret_Ok in H as [_ H].
  destruct (match prior with None => false | Some m => _ end); [by injection H as -> | done].
Qed.

Lemma store_locked_refuses now s r q rb b d d' a :
  store_locked now s r q rb b d = (d', Ok (inl a)) → d' = d ∧ ¬ submit_ok a.
Proof.
  intros (d1 & d1' & [-> ->]%get_st_Ok & H)%M_bind_Ok.
  case_if H; [by apply mret_Ok in H as [-> [= ->]]|]. case_if H; [by apply mret_Ok in H as [-> [= ->]]|].
  apply M_bind_Ok in H as (d1 & f & Hf & H). destruct f as [answer|].
  { apply mret_Ok in H as [-> [= ->]]. by apply reply_failure_refuses in Hf. }
  apply reply_failure_Ok in Hf as [-> _]. apply M_bind_Ok in H as (d1 & [[row|] fresh] & Hp & H).
  - destruct (q_in_reply_to q), b; try by apply mret_Ok in H as [_ ?].
    apply M_bind_Ok in H as (d2 & f & _ & H). destruct f; [done | by apply mret_Ok in H as [_ ?]].
  - apply mret_Ok in H as [-> [= ->]]. apply persist_None in Hp as ->. done.
Qed.

Lemma harmless_store now s r q rb b : harmless submit_ok (_store now s r q rb b).
Proof.
  apply (harmless_bind _ (λ o, ∃ x, o = inr x)).
  - apply harmless_transaction. intros d d' o H Ho. destruct o as [a|x]; [|destruct Ho; by eexists].
    by apply store_locked_refuses in H as [-> _].
  - intros [a|[row fresh]] Ho; [apply harmless_ret | destruct Ho; by eexists].
  - intros o d d' r' ([row fresh] & ->) H. cbn in H. injection H as <- <-. by eexists.
Qed.

Lemma harmless_submit_admitted now s r q b : harmless submit_ok (submit_admitted now s r q b).
Proof. apply harmless_catch, harmless_store. Qed.

Lemma harmless_submit_result now s v g r q b : harmless submit_ok (submit_received_result now s v g r q b).
Proof. apply harmless_catch, harmless_store. Qed.

(** The disposition of a result changes the store only when it succeeds. *)
Lemma disposition_result_refuses now id s i b d d' a :
  _disposition_result now id s i b d = (d', Ok (Some a)) → d' = d ∧ ¬ submit_ok a.
Proof.
  intros (d1 & row & Hsel & H)%M_bind_Ok. apply select_delivery_Ok in Hsel as [-> _].
  destruct row as [x|]; [|by apply mret_Ok in H as [-> [= ->]]].
  case_if H; [by apply mret_Ok in H as [-> [= ->]]|]. cbv zeta in H.
  case_if H; [apply mret_Ok in H as [-> H]; split; [done|]; by destruct (_ && _); [|injection H as ->]|].
  case_if H; [by apply mret_Ok in H as [-> [= ->]]|]. case_if H; [by apply mret_Ok in H as [-> [= ->]]|].
  apply M_bind_Ok in H as (d2 & y & _ & H). by apply mret_Ok in H as [_ ?].
Qed.

Definition replay_ok (r : option SubmitResult) : Prop := ∃ a, r = Some a ∧ submit_ok a.

Lemma harmless_replay now s q b : harmless replay_ok (committed_public_replay now s q b).
Proof.
  apply harmless_transaction. intros d d' o (d1 & d1' & [-> ->]%get_st_Ok & H)%M_bind_Ok Ho.
  case_if H; [by apply mret_Ok in H as [-> _]|]. apply M_bind_Ok in H as (d1 & row & [Hrow ->]%lift_Ok & H).
  destruct row as [[x m]|]; [|by apply mret_Ok in H as [-> _]]. cbv zeta in H.
  case_if H; [by apply mret_Ok in H as [-> _]|]. apply M_bind_Ok in H as (d1 & f & Hd & H).
  apply mret_Ok in H as [-> ->]. destruct f as [a|]; [|by destruct Ho; eexists].
  destruct (n_in_reply_to q), b; try by apply mret_Ok in Hd as [-> _].
  by apply disposition_result_refuses in Hd as [-> _].
Qed.

Lemma admitted_err w rt id b body d d' e : admitted w rt id b body d = (d', Err e) → d' = d.
Proof.
  unfold admitted. destruct (runtime_admission rt) as [[s reason]|]; [done|].
  unfold catch. destruct (transaction _ d) as [d1 [r1|e1]] eqn:E; [done|].
  apply transaction_err in E as ->. destruct (existsb _ _); [discriminate | by intros [= <- _]].
Qed.

Lemma harmless_admitted w rt id b body :
  (∀ x d d' r, body x d = (d', Ok r) → t_status r ≠ ok → d' = d) →
  harmless transition_ok (admitted w rt id b body).
Proof.
  intros Hbody d d' r H Hr. destruct r as [r|e].
  - apply admitted_cases in H as [[-> _]|(_ & _ & x & _ & _ & _ & _ & H)]; [done|].
    by apply (Hbody x d d' r H), Hr.
  - by apply admitted_err in H.
Qed.

Lemma harmless_receive now w v rt id b : harmless transition_ok (receive_admitted now w v rt id b).
Proof.
  apply harmless_admitted. intros x d d' r H Hr. destruct (d_state x); try by apply mret_Ok in H as [-> _].
  apply M_bind_Ok in H as (d1 & y & _ & H). by apply mret_Ok in H as [_ ->].
Qed.

Lemma harmless_recover w v rt id b : harmless transition_ok (recover_admitted w v rt id b).
Proof.
  apply harmless_admitted. intros x d d' r H Hr.
  case_if H; [by apply mret_Ok in H as [-> _]|]. case_if H; [by apply mret_Ok in H as [-> _]|].
  apply M_bind_Ok in H as (d1 & y & _ & H). by apply mret_Ok in H as [_ ->].
Qed.

Lemma harmless_disposition now w v rt q b : harmless transition_ok (disposition_admitted now w v rt q b).
Proof.
  intros d d' r H Hr. destruct r as [r|e].
  - apply admitted_cases in H as [[-> _]|(_ & _ & x & _ & _ & _ & Hx & H)]; [done|].
    case_if H; [by apply mret_Ok in H as [-> _]|]. case_if H; [by apply mret_Ok in H as [-> _]|].
    case_if H; [by apply mret_Ok in H as [-> _]|]. apply M_bind_Ok in H as (d1 & f & He & H).
    apply evidence_Ok in He as [-> _]; [|exact Hx]. destruct f; [by apply mret_Ok in H as [-> _]|].
    apply M_bind_Ok in H as (d2 & y & _ & H). apply mret_Ok in H as [_ ->]. by destruct (Hr _ eq_refl).
  - by apply admitted_err in H.
Qed.

Lemma harmless_under_grant now principal v w (call : uuid → Z → M MsgDB TransitionResult) :
  (∀ w v, harmless transition_ok (call w v)) → harmless transition_ok (under_grant now principal v w call).
Proof.
  intros Hcall. apply harmless_catch, harmless_read; [done|]. intros grant.
  destruct (_admission now principal grant v w) as [[s reason]|]; [apply harmless_ret|].
  destruct grant; [apply Hcall | apply harmless_throw].
Qed.

Lemma harmless_submit now principal route q : harmless submit_ok (submit now principal route q).
Proof.
  apply harmless_catch, harmless_read; [done|]. intros grant.
  destruct (_admission now principal grant _ _) as [[s reason]|]; [apply harmless_ret|].
  destruct grant; [apply harmless_store | apply harmless_throw].
Qed.

Lemma harmless_submit_new now q rt rr cutoff context g recipient :
  harmless submit_ok (submit_new now q rt rr cutoff context g recipient).
Proof.
  unfold submit_new. destruct (is_none context && is_some (n_in_reply_to q)); [apply harmless_ret|].
  destruct (if is_some (n_in_reply_to q) then _ else _) as [w|]; [|apply harmless_throw].
  destruct recipient as [r|]; [|apply harmless_ret]. apply harmless_read; [done|]. intros [h|]; [|apply harmless_ret].
  destruct (match context with None => _ | Some c => _ end) as [route_ref|]; [|apply harmless_throw].
  destruct (cutoff && mem route_ref REVIEW_ROUTE_REFS); [apply harmless_ret|].
  apply harmless_read; [done|]. intros s. destruct rr; [|apply harmless_submit_admitted].
  destruct rt; [apply harmless_submit_result | apply harmless_throw].
Qed.

Lemma harmless_send now cutoff principal q rt infer rr :
  harmless submit_ok (_send_message now cutoff principal q rt infer rr).
Proof.
  unfold _send_message. destruct (match rt with None => false | Some _ => _ end); [apply harmless_ret|].
  apply harmless_catch, harmless_read; [done|]. intros d0. apply harmless_read; [done|]. intros context.
  apply harmless_read; [done|]. intros [grant recipient].
  destruct (message_admission _ _ _ _ _) as [[s reason]|]; [apply harmless_ret|].
  apply harmless_read; [done|]. intros [h|]; [|apply harmless_ret]. destruct grant as [g|]; [|apply harmless_throw].
  cbv zeta. apply (harmless_bind _ replay_ok); [apply harmless_replay| |].
  - intros [answer|] _; [apply harmless_ret | apply harmless_submit_new].
  - intros o d d' r (a & -> & Ha) H. cbn in H. injection H as <- <-. by eexists.
Qed.

(** Refusals.  Whenever an entry point or a store operation answers
    anything but [ok], or raises, the store is exactly as it was: no message,
    no delivery, no transition and no signal is left behind. *)
Theorem message_refusals now principal cutoff :
  (∀ s r q b, harmless submit_ok (submit_admitted now s r q b)) ∧
  (∀ s v g r q b, harmless submit_ok (submit_received_result now s v g r q b)) ∧
  (∀ s q b, harmless replay_ok (committed_public_replay now s q b)) ∧
  (∀ w v rt id b, harmless transition_ok (receive_admitted now w v rt id b)) ∧
  (∀ w v rt id b, harmless transition_ok (recover_admitted w v rt id b)) ∧
  (∀ w v rt q b, harmless transition_ok (disposition_admitted now w v rt q b)) ∧
  (∀ r q, harmless submit_ok (submit now principal r q)) ∧
  (∀ q rt infer rr, harmless submit_ok (_send_message now cutoff principal q rt infer rr)) ∧
  (∀ rt id v w, harmless transition_ok (receive now principal rt id v w)) ∧
  (∀ rt id v w, harmless transition_ok (recover now principal rt id v w)) ∧
  (∀ rt q w, harmless transition_ok (disposition now principal rt q w)).
Proof.
  split; [intros; apply harmless_submit_admitted|]. split; [intros; apply harmless_submit_result|].
  split; [intros; apply harmless_replay|]. split; [intros; apply harmless_receive|].
  split; [intros; apply harmless_recover|]. split; [intros; apply harmless_disposition|].
  split; [intros; apply harmless_submit|]. split; [intros; apply harmless_send|].
  split; [intros; apply harmless_under_grant; intros; apply harmless_receive|].
  split; [intros; apply harmless_under_grant; intros; apply harmless_recover|].
  intros; apply harmless_under_grant; intros; apply harmless_disposition.
Qed.

(** ** Admission *)

(** The grant that lets a principal use messages for a work. *)
Definition admits (now : Z) (principal : PrincipalContext) (v : Z) (work : option uuid) (g : WorkGrant) : Prop :=
  Grants.principal g = principal ∧ grant_current g now = true ∧ version g = v ∧
  message ∈ operations g ∧ ∀ w, work = Some w → scope g = launch → active_work_id (authority g) = w.

Lemma message_admission_None now principal grant v work :
  message_admission now principal grant v work = None ↔ ∃ g, grant = Some g ∧ admits now principal v work g.
Proof.
  unfold message_admission, admits. destruct grant as [g|]; [|split; [done | by intros (g & ? & _)]].
  assert (Hiff : ∀ P : Prop, (admits now principal v work g → P) →
    (∃ g0, Some g = Some g0 ∧ admits now principal v work g0) → P).
  { intros P HP (g0 & [= <-] & H). by apply HP. }
  destruct (eqb (Grants.principal g) principal) eqn:H1; cbn [negb orb].
  2:{ rewrite eqb_false in H1. split; [done|]. apply Hiff. by intros (? & _). }
  destruct (grant_current g now) eqn:H2; cbn [negb].
  2:{ split; [done|]. apply Hiff. intros (_ & ? & _). congruence. }
  destruct (Z.eqb_spec (version g) v) as [H3|H3]; cbn [negb].
  2:{ split; [done|]. apply Hiff. by intros (_ & _ & ? & _). }
  destruct (mem message (operations g)) eqn:H4; cbn [negb].
  2:{ apply not_true_iff_false in H4. rewrite mem_true in H4. split; [done|]. apply Hiff.
      by intros (_ & _ & _ & ? & _). }
  rewrite eqb_true in H1. rewrite mem_true in H4.
  destruct work as [w|]; [|split; [intros _; by exists g | done]].
  destruct (eqb (scope g) launch && negb (eqb (active_work_id (authority g)) w)) eqn:H5.
  - rewrite andb_true_iff, negb_true_iff, eqb_true, eqb_false in H5. destruct H5 as [Hl Hne].
    split; [done|]. apply Hiff. intros (_ & _ & _ & _ & H). by destruct Hne; apply H.
  - split; [|done]. intros _. exists g. do 5 (split; [done|]). intros ? [= <-] Hs.
    rewrite Hs, eqb_refl in H5. cbn in H5. by rewrite negb_false_iff, eqb_true in H5.
Qed.

Lemma message_admission_Some now principal grant v work s reason :
  message_admission now principal grant v work = Some (s, reason) → s ≠ ok.
Proof. unfold message_admission. repeat case_match; congruence. Qed.

Lemma catch_mret_Ok {A} (m : M MsgDB A) cs h d d' r :
  catch m cs (λ e, mret (h e)) d = (d', Ok r) → m d = (d', Ok r) ∨ ∃ e, r = h e.
Proof.
  unfold catch. destruct (m d) as [d1 [a|e]]; [by left|].
  destruct (existsb _ _); [intros [= _ <-]; right; by exists e | done].
Qed.

(** Authority.  A send that is answered [ok] was made under a grant
    stored for the principal, its own and current, of the version the
    request names (or the version inferred from it), with the message
    operation, and, for a launch, for its very work; the runtime it came
    from was current and the sending work is known. *)
Theorem send_authorized now cutoff principal q rt infer rr d d' r :
  _send_message now cutoff principal q rt infer rr d = (d', Ok r) → s_status r = ok →
  (∀ x, rt = Some x → rt_current x = Some (rt_generation x)) ∧
  (∃ h, WorkState.get (n_work_id q) (handles d) = (handles d, Ok (Some h))) ∧
  ∃ g, g ∈ GrantState.stored_grants (grants d) ∧
    principal_key (Grants.principal g) = principal_key principal ∧
    admits now principal (if infer then version g else n_grant_version q) (Some (n_work_id q)) g.
Proof.
  intros H Hok. unfold _send_message in H.
  destruct (match rt with None => false | Some x => is_some (runtime_admission x) end) eqn:Hrt.
  { by apply mret_Ok in H as [_ ->]. }
  split.
  { intros x ->. unfold runtime_admission in Hrt. destruct (rt_current x) as [c|]; [|done].
    destruct (eqb (rt_generation x) c) eqn:E; [rewrite eqb_true in E; by subst c | done]. }
  apply catch_mret_Ok in H as [H|[e ->]]; [|done].
  apply M_bind_Ok in H as (d2 & d2' & [-> ->]%get_st_Ok & H).
  apply M_bind_Ok in H as (d2 & context & [_ ->]%lift_Ok & H).
  apply M_bind_Ok in H as (d2 & [grant recipient] & Hroute & H). injection Hroute as <- Hg _.
  destruct (message_admission _ _ _ _ _) as [[s reason]|] eqn:Ha.
  { apply message_admission_Some in Ha. by apply mret_Ok in H as [_ ->]. }
  apply message_admission_None in Ha as (g & -> & Ha).
  apply M_bind_Ok in H as (d2 & handle & Hh & H). injection Hh as <- Hh.
  destruct handle as [h|]; [|by apply mret_Ok in H as [_ ->]].
  split; [exists h; unfold WorkState.get in Hh |- *; cbn in Hh; by rewrite Hh|].
  exists g. apply last_Some_elem_of, list_elem_of_In, filter_In in Hg as [Hg Hkey].
  rewrite eqb_true in Hkey. split; [by apply list_elem_of_In|]. split; [done|]. by destruct infer.
Qed.

(** ** A send under a grant *)

Definition ex_sender : PrincipalContext := mkPrincipal "iss" "ada" "client" test.
Definition ex_receiver : PrincipalContext := mkPrincipal "iss" "bob" "client" test.
Definition ex_message_grant (p : PrincipalContext) (work : uuid) : WorkGrant :=
  mkGrant "g1" 1 p (mkAuthority work []) launch [message] "iss" "prov"
    (Datetime 1000 (Some 0)) g_active None None None None None None.
Definition ex_world : MsgDB :=
  mkMsgDB [] [] false (Mailboxes.mkMailboxDB [] ∅)
    (GrantState.mkDB {[principal_key ex_sender := Some (ex_message_grant ex_sender "w1");
                       principal_key ex_receiver := Some (ex_message_grant ex_receiver "w2")]} ∅)
    (WorkState.mkStateDB [Controller.mkHandle "w1" "asana" "1"; Controller.mkHandle "w2" "asana" "2"] []) [].
Definition ex_send : MessageSendRequest :=
  mkSend "w1" 1 "m1" (Some "agent.bob") (JStr "hello") (Some "w2") None.

Lemma send_authorized_witness :
  let run := send_message 5 false ex_sender ex_send ex_world in
  length (deliveries run.1) = 1%nat ∧
  ∃ g, g ∈ GrantState.stored_grants (grants ex_world) ∧
    principal_key (Grants.principal g) = principal_key ex_sender ∧ admits 5 ex_sender 1 (Some "w1") g.
Proof.
  set (p := mkPending (uuid5 DELIVERY_NAMESPACE "w1:m1:w2") "m1" "w1" "w2" "agent.bob" request (JStr "hello")
              AVAILABLE 1 None).
  assert (H : _send_message 5 false ex_sender ex_send None false false ex_world
    = ((send_message 5 false ex_sender ex_send ex_world).1, Ok (submitted p))) by (vm_compute; reflexivity).
  split; [vm_compute; reflexivity|].
  exact (proj2 (proj2 (send_authorized 5 false ex_sender ex_send None false false ex_world _ (submitted p) H eq_refl))).
Defined.
