(* ===== verification/Store.v ===== *)
(** * The database of the protected gateways

    The protected operations on canonical work read and write several
    components' tables in one transaction: the grants and the effect journal
    ([GrantState]) and the messages ([Messages]), the tables of the tracker
    and the human reviews ([HumanReviews]).  This file has the joint state,
    the journal of operations that commit together with their effect, and the
    query for a pending review that an edit would cancel
    ([tracker/runtime.py]). *)

From S2P Require Import Prelude Tables Json Codec Contracts Grants GrantState MutationEffect.
From S2P Require Import Tracker TrackerSystem HumanReviews.
From S2P Require Messages WorkState.

#[local] Existing Instance Messages.Kind_eq_dec.

Local Open Scope Z_scope.

(** ** The state *)

(** A row of [pull_requests], under its repository and number. *)
Record PullRow := mkPull { pull_owner : string; pull_version : Z; pull_acceptance : string }.

Abbreviation pull_key := (string * Z)%type (only parsing).

(** [mail] has the mailboxes, the grants, the journal, the work handles and the
    messages; [human] the tracker and the reviews; [pulls] and [pull_links]
    are [pull_requests] and [work_pull_requests]. *)
Record StoreDB := mkStore {
  mail : Messages.MsgDB; human : ReviewDB; pulls : gmap pull_key PullRow; pull_links : gset (uuid * pull_key) }.

Definition s_grants (s : StoreDB) : GrantDB := Messages.grants (mail s).
Definition s_tracker (s : StoreDB) : TrackerDB := hr_tracker (human s).
Definition s_handles (s : StoreDB) : WorkState.StateDB := Messages.handles (mail s).
Definition s_reviews (s : StoreDB) : list ReviewRow := reviews (human s).

Definition with_s_grants (g : GrantDB) (s : StoreDB) : StoreDB :=
  let m := mail s in
  mkStore (Messages.mkMsgDB (Messages.messages m) (Messages.deliveries m) (Messages.review_cutoff_receipt m)
    (Messages.agents m) g (Messages.handles m) (Messages.signals m)) (human s) (pulls s) (pull_links s).
Definition with_s_handles (h : WorkState.StateDB) (s : StoreDB) : StoreDB :=
  let m := mail s in
  mkStore (Messages.mkMsgDB (Messages.messages m) (Messages.deliveries m) (Messages.review_cutoff_receipt m)
    (Messages.agents m) (Messages.grants m) h (Messages.signals m)) (human s) (pulls s) (pull_links s).
Definition with_s_tracker (t : TrackerDB) (s : StoreDB) : StoreDB :=
  mkStore (mail s) (mkReviewDB t (reviews (human s))) (pulls s) (pull_links s).
Definition with_s_human (r : ReviewDB) (s : StoreDB) : StoreDB := mkStore (mail s) r (pulls s) (pull_links s).
Definition with_pulls (m : gmap pull_key PullRow) (s : StoreDB) : StoreDB :=
  mkStore (mail s) (human s) m (pull_links s).
Definition with_pull_links (l : gset (uuid * pull_key)) (s : StoreDB) : StoreDB :=
  mkStore (mail s) (human s) (pulls s) l.

Definition on_tracker {A} (m : M TrackerDB A) : M StoreDB A := via s_tracker with_s_tracker m.
Definition on_journal {A} (m : M GrantDB A) : M StoreDB A := via s_grants with_s_grants m.

(** A read of the state. *)
Definition reading {A} (f : StoreDB → res A) : M StoreDB A := λ s, (s, f s).

Definition s_intents (s : StoreDB) : gmap string EffectRow := effect_intents (s_grants s).

(** ** The journal *)

(** [select(effect_intents).where(operation_id == ...)] *)
Definition exact_row (op : uuid) (s : StoreDB) : option EffectRow := s_intents s !! op.

(** Some row of the work whose effect is unknown. *)
Definition blocked_row (work : uuid) (s : StoreDB) : option EffectRow :=
  head (snd <$> List.filter (λ kr : string * EffectRow, eqb (GrantState.e_work_id kr.2) work && is_unknown kr.2)
    (map_to_list (s_intents s))).

(** A value that [JSONB] refuses: one with a null character in a text. *)
Fixpoint json_nul (j : json) : bool :=
  match j with
  | JStr s => has_nul s
  | JArr l => existsb json_nul l
  | JObj kvs => existsb (λ '(k, v), has_nul k || json_nul v) kvs
  | _ => false
  end.

(** [insert(effect_intents)], in the transaction of the effect. *)
Definition insert_intent (op : uuid) (row : EffectRow) : M StoreDB unit :=
  refuse_if (json_nul (GrantState.intent row));;
  s ← get_st;
  throw_if (is_some (s_intents s !! op)) IntegrityError "effect_intents_pkey";;
  put_st (with_s_grants (with_intents (<[op := row]> (s_intents s)) (s_grants s)) s).

(** What an operation that is already journaled gets: its own outcome, or the
    refusal of another request under its identifier. *)
Definition replay_exact (key fp : string) (conflict : GuardOutcome) (row : EffectRow) : res GuardOutcome :=
  if negb (eqb (principal_key_ row) key) || negb (eqb (fingerprint row) fp) then Ok conflict
  else GuardOutcome_validate (outcome row).

(** What a request on a work with an unresolved effect gets. *)
Definition refuse_blocked (o : GuardOutcome) (row : EffectRow) : res GuardOutcome :=
  prior ← GuardOutcome_validate (outcome row);
  with_blocked_effect o prior.

(** ** Guards *)

(** The fixed texts of a gateway's outcomes. *)
Record Voice := mkVoice { v_operation : string; v_reconcile : string; v_refuse : string }.

Definition guard_by (v : Voice) (work : option uuid) (op : uuid) (status : OutcomeStatus) (reason : string)
    (possible : bool) : GuardOutcome :=
  mkOutcome status (v_operation v) work (Some op) reason (if possible then unknown else not_sent)
    (if possible then r_reconcile else if eqb status o_stale then r_refresh else r_none)
    (if possible then v_reconcile v else v_refuse v) None None.

(** [model_copy(update={"next_action": ...})] *)
Definition with_next_action (text : string) (o : GuardOutcome) : GuardOutcome :=
  mkOutcome (Grants.status o) (operation o) (Grants.work_id o) (Grants.operation_id o) (reason o) (effect o) (retry o) text
    (receipt o) (blocked_by o).

(** The outcome of an applied operation. *)
Definition applied_by (v : Voice) (work : option uuid) (op : uuid) (reason next_action : string) (r : Receipt)
  : GuardOutcome :=
  mkOutcome o_ok (v_operation v) work (Some op) reason applied r_none next_action (Some r) None.

(** ** Pending reviews *)

(** [payload["a"]["b"]....astext] *)
Fixpoint json_text (path : list string) (v : json) : option string :=
  match path, v with
  | [], JStr s => Some s
  | k :: path', JObj kvs => match assoc k kvs with Some v' => json_text path' v' | None => None end
  | _, _ => None
  end.

Definition basis_field (field : string) (m : Messages.MessageRow) : option string :=
  json_text ["brief"; "basis"; field] (Messages.m_payload m).

Definition has_basis (review subject : uuid) (revision : string) (m : Messages.MessageRow) : bool :=
  eqb (Messages.m_kind m) Messages.request && mem (Messages.m_route_ref m) ["review.request"; "review.acquisition"]
  && eqb (basis_field "review_id" m) (Some review) && eqb (basis_field "subject_work_id" m) (Some subject)
  && eqb (basis_field "subject_revision" m) (Some revision).

Definition has_outcome (review subject : uuid) (revision : string) (m : Messages.MessageRow) : bool :=
  eqb (Messages.m_kind m) Messages.result
  && eqb (json_text ["outcome"; "type"] (Messages.m_payload m)) (Some "REVIEW_OUTCOME"%string)
  && eqb (json_text ["outcome"; "review_id"] (Messages.m_payload m)) (Some review)
  && eqb (basis_field "subject_work_id" m) (Some subject) && eqb (basis_field "subject_revision" m) (Some revision).

(** A child of the work that is a review of its revision and still waits. *)
Definition pending_review (work : uuid) (revision : string) (s : StoreDB) (review : uuid) : bool :=
  eqb (parents (s_tracker s) !! review) (Some work)
  && match works (s_tracker s) !! review with Some r => eqb (work_type (item_of r)) (Some "REVIEW"%string) | None => false end
  && existsb (has_basis review work revision) (Messages.messages (mail s))
  && negb (existsb (has_outcome review work revision) (Messages.messages (mail s))).

(** [pending_review_id], the first by identifier. *)
Definition pending_review_id (work : uuid) (revision : string) (occurrence : option uuid) (s : StoreDB) : option uuid :=
  head (py_sort str_leb (List.filter (λ i, pending_review work revision s i
      && match occurrence with Some o => eqb i o | None => true end)
    (fst <$> map_to_list (works (s_tracker s))))).

Definition confirmation_message (review : uuid) : string :=
  str_join "" ["This item is waiting for review "; review; ". This edit will cancel that review. ";
    "If you meant it, repeat the same call with confirm_cancels_review=true."].
