(* ===== verification/PullRequests.v ===== *)
(** * Pull requests ([pull_requests.py])

    A pull request is linked to works and owned by a mailbox; its owner
    changes only when the new owner has accepted, in a durable message, this
    request at this version.  [change] runs inside the transaction of the
    relation that asks for it. *)

From S2P Require Import Prelude Tables Json Codec Contracts Grants GrantState Tracker HumanReviews Store.
From S2P Require Messages Mailboxes.

Local Open Scope Z_scope.

(** The rows of both actors. *)
Definition actors (caller : Mailboxes.AgentMailbox) (q : PullRequestChange) (s : StoreDB) : list Mailboxes.AgentMailbox :=
  List.filter (λ m, mem (Mailboxes.name_key m) [Mailboxes.name_key caller; default (Mailboxes.name_key caller) (recipient_key q)])
    (Mailboxes.mailboxes (Messages.agents (mail s))).

(** The caller's row is still the one it was resolved from. *)
Definition caller_current (caller : Mailboxes.AgentMailbox) (key : string) (l : list Mailboxes.AgentMailbox) : bool :=
  match List.find (Mailboxes.named (Mailboxes.name_key caller)) l with
  | Some b => eqb (Mailboxes.endpoint_id b) (Mailboxes.endpoint_id caller)
      && eqb (Mailboxes.principal_key b) (Mailboxes.principal_key caller)
      && eqb (Mailboxes.session_key b) (Mailboxes.session_key caller)
      && eqb (Mailboxes.generation b) (Mailboxes.generation caller)
      && eqb (Mailboxes.principal_key caller) key
  | None => false
  end.

Definition key_of (q : PullRequestChange) : pull_key := (repository q, number q).

(** The payload of the message whose delivery the request names. *)
Definition acceptance (caller recipient : Mailboxes.AgentMailbox) (q : PullRequestChange) (s : StoreDB) : option json :=
  head ((λ xm, Messages.m_payload xm.2) <$> List.filter (λ xm : Messages.DeliveryRow * Messages.MessageRow,
    eqb (Some (Messages.d_id xm.1)) (acceptance_delivery_id q)
    && eqb (Messages.m_sender xm.2) (Mailboxes.endpoint_id recipient)
    && eqb (Messages.d_recipient xm.1) (Mailboxes.endpoint_id caller)) (Messages.joined (mail s))).

Definition acceptance_json (caller recipient : Mailboxes.AgentMailbox) (q : PullRequestChange) (expected : Z) : json :=
  JObj [("kind", JStr "pr_owner_acceptance"); ("repository", JStr (repository q)); ("number", JInt (number q));
        ("previous_owner", JStr (Mailboxes.name_key caller)); ("expected_version", JInt expected);
        ("package_ref", JStr (package_ref q)); ("recipient_key", JStr (Mailboxes.name_key recipient));
        ("recipient_generation", JInt (Mailboxes.generation recipient));
        ("previous_owner_generation", JInt (Mailboxes.generation caller))]%string.

(** The action [set]: the transfer to the recipient. *)
Definition transfer (caller : Mailboxes.AgentMailbox) (q : PullRequestChange) (row : PullRow)
    (l : list Mailboxes.AgentMailbox) : M StoreDB unit :=
  match List.find (λ m, eqb (Some (Mailboxes.name_key m)) (recipient_key q)) l, expected_version q with
  | Some recipient, Some expected =>
      throw_if (negb (eqb (pull_owner row) (Mailboxes.name_key caller))
                || eqb (Mailboxes.name_key recipient) (Mailboxes.name_key caller)) ValueError
        "current owner, exact version and registered recipient required";;
      s ← get_st;
      throw_if (match acceptance caller recipient q s with
                | Some payload => negb (Messages.py_eq payload (acceptance_json caller recipient q expected))
                | None => true
                end) ValueError "exact durable recipient acceptance required";;
      refuse_if (negb (bigint (pull_version row + 1)));;
      put_st (with_pulls (<[key_of q := mkPull (Mailboxes.name_key recipient) (pull_version row + 1)
        (str_join "" ["delivery:"; str_opt (acceptance_delivery_id q)])]> (pulls s)) s)
  | _, _ => throw ValueError "current owner, exact version and registered recipient required"
  end.

Definition pull_record (q : PullRequestChange) (row : PullRow) : PullRequestRecord :=
  mkPullRecord (repository q) (number q) (pull_owner row) (pull_version row) (pull_acceptance row).

(** The insertion of the action [add], which does nothing to an existing row. *)
Definition ensure_pull (caller : Mailboxes.AgentMailbox) (q : PullRequestChange) (op : uuid) : M StoreDB unit :=
  s ← get_st;
  match pulls s !! key_of q with
  | Some _ => mret tt
  | None =>
      throw_if (negb (0 <? number q)) IntegrityError "ck_pr_positive";;
      put_st (with_pulls (<[key_of q := mkPull (Mailboxes.name_key caller) 1 (str_join "" ["operation:"; op])]> (pulls s)) s)
  end.

Definition change (work : uuid) (action : RelationAction) (q : PullRequestChange) (caller : Mailboxes.AgentMailbox)
    (key : string) (op : uuid) : M StoreDB PullRequestRecord :=
  refuse_if (opt_nul (recipient_key q));;
  s ← get_st;
  let l := actors caller q s in
  throw_if (negb (caller_current caller key l)) ValueError "registered caller changed";;
  refuse_if (negb (bigint (number q)));;
  (if eqb action a_add then ensure_pull caller q op else mret tt);;
  s ← get_st;
  match pulls s !! key_of q with
  | None => throw ValueError "PR identity does not exist"
  | Some row =>
      throw_if (mem action [a_remove; a_set] && negb (bool_decide ((work, key_of q) ∈ pull_links s))) ValueError
        "PR is not linked to this work";;
      throw_if (match expected_version q with Some v => negb (pull_version row =? v) | None => false end) StaleVersion
        "PR version changed";;
      (match action with
       | a_set => transfer caller q row l
       | a_add => put_st (with_pull_links ({[(work, key_of q)]} ∪ pull_links s) s)
       | a_remove => put_st (with_pull_links (pull_links s ∖ {[(work, key_of q)]}) s)
       | _ => throw ValueError "unsupported PR action"
       end);;
      s ← get_st;
      match pulls s !! key_of q with
      | Some row => mret (pull_record q row)
      | None => throw SQLAlchemyError "No row was found when one was required"
      end
  end.
