(* ===== verification/Gateways.v ===== *)
(** * The protected gateways of canonical work
    ([tracker/appends.py], [updates.py], [provider_relations.py], [runtime.py])

    An append, an update or a change of relations is admitted by a grant,
    recorded in the effect journal and applied, all in one transaction; a
    definition ending in [_attempt] is the body of that transaction.  What
    happens around it - lost connections, retries - is in [GatewayRuns]. *)

From S2P Require Import Prelude Tables Json Codec Contracts Grants GrantState MutationEffect.
From S2P Require Import Tracker WorkPolicy TrackerSystem HumanReviews Store PullRequests.
From S2P Require WorkEvents WorkRelations Mailboxes Messages.

Local Open Scope Z_scope.

(** ** Requests as JSON *)

Definition append_json (q : ProtectedAppend) : json :=
  JObj [("api_version", JStr "1"); ("operation_id", JStr (pa_operation_id q)); ("work_id", JStr (pa_work_id q));
        ("grant_version", JInt (pa_grant_version q)); ("observed_revision", JStr (pa_observed_revision q));
        ("text", JStr (pa_text q)); ("confirm_cancels_review", JBool (pa_confirm q))]%string.

Definition SCALAR_FIELDS : list Field :=
  [F_title; F_notes; F_completed; F_priority; F_work_type; F_review_next_action; F_lifecycle_state;
   F_canonical_root; F_owner_key; F_wait_kind; F_unblock_condition; F_next_due; F_next_action_class;
   F_next_action_ref].

Definition field_text (f : Field) : string :=
  match f with
  | F_title => "title" | F_notes => "notes" | F_completed => "completed" | F_priority => "priority"
  | F_work_type => "work_type" | F_horizon => "horizon" | F_review_next_action => "review_next_action"
  | F_stage3_gate => "stage3_gate" | F_lifecycle_state => "lifecycle_state"
  | F_canonical_root => "canonical_root" | F_owner_key => "owner_key" | F_wait_kind => "wait_kind"
  | F_unblock_condition => "unblock_condition" | F_next_due => "next_due"
  | F_next_action_class => "next_action_class" | F_next_action_ref => "next_action_ref"
  end.

(** [patch.model_dump(mode="json", exclude_unset=True)]; the keys are sorted
    when it is dumped to text. *)
Definition patch_set_json (p : Patch) : json := JObj ((λ fv, (field_text fv.1, fv.2)) <$> p).

(** [patch.model_dump(mode="json")] *)
Definition patch_json (p : Patch) : json :=
  JObj ((λ f, (field_text f, default JNull (patch_get f p))) <$> SCALAR_FIELDS).

Definition update_json (q : ProtectedUpdate) : json :=
  JObj [("api_version", JStr "1"); ("operation_id", JStr (pu_operation_id q)); ("work_id", JStr (pu_work_id q));
        ("grant_version", JInt (pu_grant_version q)); ("observed_revision", JStr (pu_observed_revision q));
        ("patch", patch_json (pu_patch q)); ("confirm_cancels_review", JBool (pu_confirm q))]%string.

Definition kind_text (k : RelationKind) : string :=
  match k with
  | k_assignee => "assignee" | k_placement => "placement" | k_parent => "parent" | k_dependency => "dependency"
  | k_pull_request => "pull_request"
  end.

Definition action_text (a : RelationAction) : string :=
  match a with a_set => "set" | a_clear => "clear" | a_add => "add" | a_remove => "remove" | a_move => "move" end.

Definition jint (o : option Z) : json := match o with Some z => JInt z | None => JNull end.

Definition pull_json (q : PullRequestChange) : json :=
  JObj [("repository", JStr (repository q)); ("number", JInt (number q)); ("expected_version", jint (expected_version q));
        ("recipient_key", jopt (recipient_key q)); ("acceptance_delivery_id", jopt (acceptance_delivery_id q));
        ("package_ref", JStr (package_ref q))]%string.

Definition relation_patch_json (p : RelationPatch) : json :=
  JObj [("kind", JStr (kind_text (kind p))); ("action", JStr (action_text (action p)));
        ("target_work_id", jopt (target_work_id p)); ("project_id", jopt (project_id p));
        ("assignee_gid", jopt (assignee_gid p)); ("project_gid", jopt (project_gid p));
        ("section_gid", jopt (section_gid p));
        ("pull_request", match pull_request p with Some q => pull_json q | None => JNull end)]%string.

Definition relate_json (q : ProtectedRelation) : json :=
  JObj [("api_version", JStr "1"); ("operation_id", JStr (rl_operation_id q)); ("work_id", JStr (rl_work_id q));
        ("grant_version", JInt (rl_grant_version q)); ("observed_revision", JStr (rl_observed_revision q));
        ("patch", relation_patch_json (rl_patch q)); ("confirm_cancels_review", JBool (rl_confirm q))]%string.

(** The intent of an operation whose effect commits with its journal row. *)
Definition postgres_intent (request : json) : json :=
  JObj [("request", request); ("authority", JStr "postgres")]%string.

(** ** Fingerprints *)

Definition append_fingerprint (p : PrincipalContext) (q : ProtectedAppend) : string :=
  sha256_hex (dumps false false ", " ": " (JArr [JStr (principal_key p); JStr (pa_work_id q); JInt (pa_grant_version q);
    JStr (pa_observed_revision q); JStr (pa_text q)])).

Definition update_fingerprint (p : PrincipalContext) (q : ProtectedUpdate) : string :=
  sha256_hex (dumps_sorted (JArr [JStr (principal_key p); JStr (pu_work_id q); JInt (pu_grant_version q);
    JStr (pu_observed_revision q); patch_set_json (pu_patch q)])).

Definition relation_fingerprint (p : PrincipalContext) (q : ProtectedRelation) : string :=
  sha256_hex (dumps_sorted (JArr [JStr (principal_key p); JStr (rl_work_id q); JInt (rl_grant_version q);
    JStr (rl_observed_revision q); relation_patch_json (rl_patch q); JBool (rl_confirm q)])).

(** ** Admission *)

(** [AppendGateway.admitted] *)
Definition admitted (p : PrincipalContext) (now : Z) (g : WorkGrant) : bool :=
  eqb (principal g) p && grant_current g now.

(** The qualification of the surface: the prefix [test:] belongs to test
    principals and to them only. *)
Definition qualified (p : PrincipalContext) (q : option string) : bool :=
  match q with Some q => Bool.eqb (eqb (assurance p) test) (startswith "test:" q) | None => false end.

(** The stricter form: a real principal needs the prefix [real:]. *)
Definition qualified_strictly (p : PrincipalContext) (q : option string) : bool :=
  match q with
  | Some q => startswith (if eqb (assurance p) test then "test:" else "real:") q
  | None => false
  end.

(** The grant checks of the operations on one work. *)
Definition refuse_grant (p : PrincipalContext) (now : Z) (work : uuid) (o : Operation) (observed : Z)
    (q : WorkGrant → option string) (check : PrincipalContext → option string → bool) (denial : string)
    (guard : OutcomeStatus → string → GuardOutcome) (grant : option WorkGrant) : WorkGrant + GuardOutcome :=
  match grant with
  | None => inr (guard o_denied "no_current_grant")
  | Some g =>
      if negb (admitted p now g) then inr (guard o_denied "no_current_grant")
      else if negb (grant_can_write g work) || negb (mem o (operations g))
      then inr (guard o_denied "operation_or_work_not_granted")
      else if negb (observed =? version g) then inr (guard o_stale "grant_version_changed")
      else if negb (check p (q g)) then inr (guard o_denied denial)
      else inl g
  end.

Definition receipt_head (p : PrincipalContext) (g : WorkGrant) (op : uuid) : ReceiptHead :=
  mkHead op p (grant_id g) (version g).

(** The journal row of an applied operation. *)
Definition applied_row (p : PrincipalContext) (g : WorkGrant) (fp work : string) (intent : json) (o : GuardOutcome)
  : EffectRow := mkRow fp (principal_key p) work (grant_id g) (version g) intent o.

(** [grants.locked] *)
Definition grant_of (p : PrincipalContext) : M StoreDB (option WorkGrant) :=
  on_journal (locked_grant (principal_key p)).

(** [works.get_locked], or the columns of the row that are read. *)
Definition work_of (work : uuid) (s : StoreDB) : option CurrentWork := item_of <$> works (s_tracker s) !! work.

Section gateways.
Context (nfkc_casefold : string → string).

(** ** Appends *)

Definition append_voice : Voice :=
  mkVoice "work_append" "Reconcile the recorded effect; do not send a new operation."
    "Refresh work/grant or ask the trusted issuer.".

Definition append_guard (q : ProtectedAppend) (s : OutcomeStatus) (reason : string) : GuardOutcome :=
  guard_by append_voice (Some (pa_work_id q)) (pa_operation_id q) s reason false.

(** The event and the journal row. *)
Definition append_commit (p : PrincipalContext) (q : ProtectedAppend) (g : WorkGrant) (version : Z) (now : Z)
    (event_id : uuid) : M StoreDB GuardOutcome :=
  appended ← on_tracker (WorkEvents.append_locked event_id (pa_work_id q) version (pa_operation_id q) "comment_added"
    (Some (pa_text q)) (Datetime now (Some 0)) (Some (p_subject p)) None);
  let o := applied_by append_voice (Some (pa_work_id q)) (pa_operation_id q) "exact_effect_verified"
    "Use the recorded receipt." (EffectReceipt (receipt_head p g (pa_operation_id q)) (pa_work_id q) "postgres"
      (pa_work_id q) (e_id (WorkEvents.out_event appended)) (pa_text q) (or_empty (append_qualification g))) in
  insert_intent (pa_operation_id q)
    (applied_row p g (append_fingerprint p q) (pa_work_id q) (postgres_intent (append_json q)) o);;
  mret o.

Definition append_attempt (p : PrincipalContext) (q : ProtectedAppend) (now : Z) (event_id : uuid)
  : M StoreDB GuardOutcome :=
  grant ← grant_of p;
  match refuse_grant p now (pa_work_id q) work_append (pa_grant_version q) append_qualification qualified
          "append_not_qualified_for_this_surface" (append_guard q) grant with
  | inr o => mret o
  | inl g =>
      s ← get_st;
      match work_of (pa_work_id q) s with
      | None => mret (append_guard q o_denied "work_not_bound")
      | Some w =>
          match exact_row (pa_operation_id q) s with
          | Some row => lift (replay_exact (principal_key p) (append_fingerprint p q)
                          (append_guard q o_denied "operation_identity_conflict") row)
          | None =>
              match blocked_row (pa_work_id q) s with
              | Some row => lift (refuse_blocked (append_guard q o_unknown "target_has_unresolved_effect") row)
              | None =>
                  if completed w then mret (append_guard q o_denied "work_is_terminal")
                  else
                    actual ← lift (canonical_revision (pa_work_id q) (row_version w));
                    if negb (eqb (pa_observed_revision q) actual)
                    then mret (append_guard q o_stale "source_revision_changed")
                    else
                      match (if pa_confirm q then None else pending_review_id (pa_work_id q) (pa_observed_revision q) None s) with
                      | Some review => mret (with_next_action (confirmation_message review)
                                         (append_guard q o_confirm_required "pending_review"))
                      | None => append_commit p q g (row_version w) now event_id
                      end
              end
          end
      end
  end.

(** ** Updates *)

Definition update_voice : Voice :=
  mkVoice "work_update" "Retry this exact work_update OperationId; do not start a new effect."
    "Refresh work/grant or ask the trusted issuer.".

Definition update_guard (q : ProtectedUpdate) (s : OutcomeStatus) (reason : string) : GuardOutcome :=
  guard_by update_voice (Some (pu_work_id q)) (pu_operation_id q) s reason false.

(** [values.get(field)] is this text. *)
Definition value_is (f : Field) (s : string) (v : Patch) : bool := eqb (patch_get f v) (Some (JStr s)).

Definition terminal_values : Patch :=
  [(F_completed, JBool true); (F_lifecycle_state, JStr "TERMINAL"); (F_wait_kind, JStr "NONE");
   (F_unblock_condition, JStr "NONE"); (F_next_due, JStr "NONE"); (F_next_action_class, JStr "NONE");
   (F_next_action_ref, JStr "NONE")].

Definition transition_fields (p : Patch) : list Field :=
  List.filter (λ f, mem f (fields_set p)) [F_completed; F_lifecycle_state].

(** The one-field finish. *)
Definition finishes (p : Patch) : bool :=
  eqb (length (transition_fields p)) 1%nat
  && (eqb (patch_get F_completed p) (Some (JBool true)) || value_is F_lifecycle_state "TERMINAL" p).

(** [values.update(terminal)]; [None] when a supplied value contradicts it. *)
Definition terminal_update (p : Patch) : option Patch :=
  if existsb (λ fv, match patch_get fv.1 p with Some v => negb (eqb v fv.2) | None => false end) terminal_values
  then None
  else Some (List.filter (λ fv, negb (mem fv.1 (fields_set terminal_values))) p ++ terminal_values).

Definition patched (f : Field) (v : Patch) (old : option string) : option string :=
  match patch_get f v with Some (JStr s) => Some s | _ => old end.

(** [replace(current, **values)] *)
Definition apply_values (v : Patch) (w : CurrentWork) : CurrentWork :=
  mkWork (work_id w) (default (title w) (patched F_title v None))
    (match patch_get F_completed v with Some (JBool b) => b | _ => completed w end)
    (default (notes w) (patched F_notes v None)) (row_version w) (assignee w)
    (patched F_priority v (priority w)) (patched F_work_type v (work_type w))
    (patched F_lifecycle_state v (lifecycle_state w)) (patched F_review_next_action v (review_next_action w))
    (patched F_canonical_root v (canonical_root w)) (patched F_owner_key v (owner_key w))
    (patched F_wait_kind v (wait_kind w)) (patched F_unblock_condition v (unblock_condition w))
    (patched F_next_due v (next_due w)) (patched F_next_action_class v (next_action_class w))
    (patched F_next_action_ref v (next_action_ref w)) (admitted_at w).

Definition semantic_field (f : Field) : option SemanticField :=
  match f with
  | F_completed => Some f_completed | F_priority => Some f_priority | F_work_type => Some f_work_type
  | F_lifecycle_state => Some f_lifecycle_state | F_canonical_root => Some f_canonical_root
  | F_owner_key => Some f_owner_key | F_wait_kind => Some f_wait_kind
  | F_unblock_condition => Some f_unblock_condition | F_next_due => Some f_next_due
  | F_next_action_class => Some f_next_action_class | F_next_action_ref => Some f_next_action_ref
  | F_title | F_notes | F_horizon | F_review_next_action | F_stage3_gate => None
  end.

Definition affected (v : Patch) : list SemanticField := omap semantic_field (fields_set v).

Definition semantics_of (w : CurrentWork) : Semantics :=
  mkSemantics (lifecycle_state w) (canonical_root w) (owner_key w) (wait_kind w) (unblock_condition w)
    (next_due w) (next_action_class w) (next_action_ref w) (Some (completed w)).

Definition _validate_semantic_write (w : CurrentWork) (fields : list SemanticField) : res unit :=
  match fields with [] => Ok tt | _ => validate_resultant_state (semantics_of w) fields end.

(** The explicit values that may open finished work again. *)
Definition reopens (v : Patch) : bool :=
  eqb (patch_get F_completed v) (Some (JBool false)) && value_is F_lifecycle_state "CURRENT" v
  && forallb (λ f, match patch_get f v with
                   | Some JNull | None => false
                   | Some x => negb (eqb x (JStr "NONE")) && negb (eqb x (JStr "UNKNOWN"))
                   end) [F_next_action_class; F_next_action_ref]
  && forallb (λ f, value_is f "NONE" v) [F_wait_kind; F_unblock_condition; F_next_due].

(** The inner [try]: reopening is explicit, and the policy holds. *)
Definition check_resultant (p v : Patch) (current candidate : CurrentWork) : res unit :=
  raise_if (negb (eqb (transition_fields p) []) && (completed current || eqb (lifecycle_state current) (Some "TERMINAL"%string))
            && negb (completed candidate) && negb (reopens v)) ValueError
    "reopen requires explicit completed=false, CURRENT, exact next_action_class/next_action_ref and NONE wait_kind/unblock_condition/next_due";;
  _validate_semantic_write candidate (affected v).

(** [_exact_root] *)
Definition _exact_root (value : option string) : res (option uuid) :=
  match value with
  | None => Ok None
  | Some s =>
      if mem s ["NONE"; "UNKNOWN"]%string then Ok None
      else match UUID (codes s) with
           | Some u => Ok (Some u)
           | None => raise ValueError "badly formed hexadecimal UUID string"
           end
  end.

Definition update_commit (p : PrincipalContext) (q : ProtectedUpdate) (g : WorkGrant) (v : Patch) (candidate : CurrentWork)
  : M StoreDB GuardOutcome :=
  changed ← on_tracker (replace_locked nfkc_casefold candidate);
  resulting ← lift (canonical_revision (pu_work_id q) (row_version changed));
  patch ← lift (ScalarPatch_validate v);
  let o := applied_by update_voice (Some (pu_work_id q)) (pu_operation_id q) "scalar_state_converged"
    "Use the recorded receipt." (UpdateReceipt (receipt_head p g (pu_operation_id q)) (pu_work_id q) "postgres"
      (pu_work_id q) (pu_observed_revision q) resulting patch (or_empty (update_qualification g))) in
  insert_intent (pu_operation_id q)
    (applied_row p g (update_fingerprint p q) (pu_work_id q) (postgres_intent (update_json q)) o);;
  mret o.

(** From the accepted values to the commit. *)
Definition update_with (p : PrincipalContext) (q : ProtectedUpdate) (g : WorkGrant) (current : CurrentWork) (v : Patch)
  : M StoreDB GuardOutcome :=
  let candidate := apply_values v current in
  fit ← reading (λ s, agent_notes_fit (work_id candidate) (notes candidate) (s_reviews s));
  if negb fit then mret (update_guard q o_denied "agent_notes_overflow")
  else
    match check_resultant (pu_patch q) v current candidate with
    | Err (Exn ValueError msg) => mret (with_next_action msg (update_guard q o_denied "invalid_resultant_state"))
    | Err e => lift (Err e)
    | Ok tt =>
        root ← (if mem F_canonical_root (fields_set (pu_patch q)) then lift (_exact_root (canonical_root candidate)) else mret None);
        s ← get_st;
        match root with
        | Some r =>
            if is_none (work_of r s) then mret (update_guard q o_denied "canonical_root_not_bound")
            else update_commit p q g v candidate
        | None => update_commit p q g v candidate
        end
    end.

Definition update_attempt (p : PrincipalContext) (q : ProtectedUpdate) (now : Z) : M StoreDB GuardOutcome :=
  grant ← grant_of p;
  s ← get_st;
  match exact_row (pu_operation_id q) s with
  | Some row => lift (replay_exact (principal_key p) (update_fingerprint p q)
                  (update_guard q o_denied "operation_identity_conflict") row)
  | None =>
      match refuse_grant p now (pu_work_id q) work_update (pu_grant_version q) update_qualification qualified
              "update_not_qualified_for_this_surface" (update_guard q) grant with
      | inr o => mret o
      | inl g =>
          match blocked_row (pu_work_id q) s with
          | Some row => lift (refuse_blocked (update_guard q o_unknown "target_has_unresolved_effect") row)
          | None =>
              match work_of (pu_work_id q) s with
              | None => mret (update_guard q o_denied "work_not_bound")
              | Some current =>
                  actual ← lift (canonical_revision (pu_work_id q) (row_version current));
                  if negb (eqb (pu_observed_revision q) actual)
                  then mret (update_guard q o_stale "source_revision_changed")
                  else
                    match (if pu_confirm q then None else pending_review_id (pu_work_id q) (pu_observed_revision q) None s) with
                    | Some review => mret (with_next_action (confirmation_message review)
                                       (update_guard q o_confirm_required "pending_review"))
                    | None =>
                        if negb (forallb (λ f, mem f SCALAR_FIELDS) (fields_set (pu_patch q)))
                        then mret (update_guard q o_denied "invalid_database_metadata")
                        else if finishes (pu_patch q) then
                          match terminal_update (pu_patch q) with
                          | None => mret (with_next_action "FINISH requires cleared wait/action fields; use completed=true alone."
                                      (update_guard q o_denied "invalid_resultant_state"))
                          | Some v => update_with p q g current v
                          end
                        else update_with p q g current (pu_patch q)
                    end
              end
          end
      end
  end.

(** ** Relations *)

Definition relation_voice : Voice :=
  mkVoice "work_relate" "Retry only this OperationId to reconcile; do not send a new relation effect."
    "Refresh work/admission or ask the trusted issuer.".

(** [RelationGateway.guard] *)
Definition relation_guard (q : ProtectedRelation) (s : OutcomeStatus) (reason : string) : GuardOutcome :=
  guard_by relation_voice (Some (rl_work_id q)) (rl_operation_id q) s reason false.

(** A waiting review is not moved away from its subject. *)
Definition moves_review (q : ProtectedRelation) (current : CurrentWork) : M StoreDB bool :=
  s ← get_st;
  if eqb (kind (rl_patch q)) k_parent && eqb (work_type current) (Some "REVIEW"%string) then
    match parents (s_tracker s) !! rl_work_id q with
    | None => mret false
    | Some parent =>
        if eqb (Some parent) (target_work_id (rl_patch q)) then mret false
        else
          match version_of parent (s_tracker s) with
          | None => mret false
          | Some v =>
              revision ← lift (canonical_revision parent v);
              mret (is_some (pending_review_id parent revision (Some (rl_work_id q)) s))
          end
    end
  else mret false.

(** [changes_relation]: the relation is not yet as asked. *)
Definition changes_relation (q : ProtectedRelation) (t : TrackerDB) : bool :=
  let patch := rl_patch q in
  let adds := eqb (action patch) a_add in
  match kind patch, target_work_id patch, project_id patch with
  | k_parent, target, _ => negb (eqb (parents t !! rl_work_id q) target)
  | k_dependency, Some target, _ =>
      negb (Bool.eqb (bool_decide ((rl_work_id q, target) ∈ dependencies t)) adds)
  | k_placement, _, Some project => negb (Bool.eqb (is_some (memberships t !! (project, rl_work_id q))) adds)
  | _, _, _ => true
  end.

(** The change of the relation; an outcome when it is refused. *)
Definition apply_relation (p : PrincipalContext) (q : ProtectedRelation) (caller : option Mailboxes.AgentMailbox)
    (version : Z) : M StoreDB (option PullRequestRecord + GuardOutcome) :=
  let patch := rl_patch q in
  let work := rl_work_id q in
  let adds := eqb (action patch) a_add in
  match kind patch with
  | k_pull_request =>
      match caller, pull_request patch with
      | Some caller, Some pr =>
          record ← change work (action patch) pr caller (principal_key p) (rl_operation_id q);
          on_tracker (set_version work (version + 1));;
          mret (inl (Some record))
      | _, _ => mret (inr (relation_guard q o_denied "agent_not_registered"))
      end
  | k_parent =>
      on_tracker (WorkRelations.set_parent_in work (target_work_id patch) version);;
      mret (inl None)
  | k_dependency =>
      match target_work_id patch with
      | None => throw AssertionError ""
      | Some target =>
          on_tracker (WorkRelations.change_dependency_in work target adds version);;
          mret (inl None)
      end
  | _ =>
      match project_id patch with
      | None => throw AssertionError ""
      | Some project =>
          s ← get_st;
          if is_none (projects (s_tracker s) !! project)
          then mret (inr (relation_guard q o_denied "project_not_admitted"))
          else
            on_tracker (WorkRelations.change_project_membership_in work project adds version);;
            mret (inl None)
      end
  end.

Definition relation_commit (p : PrincipalContext) (q : ProtectedRelation) (g : WorkGrant) (record : option PullRequestRecord)
  : M StoreDB GuardOutcome :=
  let o := applied_by relation_voice (Some (rl_work_id q)) (rl_operation_id q) "relation_state_converged"
    "Use the recorded receipt." (RelationReceipt (receipt_head p g (rl_operation_id q)) (rl_work_id q) "postgres"
      (rl_work_id q) (rl_observed_revision q) (rl_patch q) (or_empty (relation_qualification g)) record) in
  insert_intent (rl_operation_id q)
    (applied_row p g (relation_fingerprint p q) (rl_work_id q) (postgres_intent (relate_json q)) o);;
  mret o.

(** From the current row to the commit. *)
Definition relation_with (p : PrincipalContext) (q : ProtectedRelation) (caller : option Mailboxes.AgentMailbox)
    (g : WorkGrant) (current : CurrentWork) : M StoreDB GuardOutcome :=
  let patch := rl_patch q in
  if negb (mem (kind patch) [k_parent; k_dependency; k_placement; k_pull_request])
  then mret (relation_guard q o_denied "invalid_database_relation")
  else
    moves ← moves_review q current;
    s ← get_st;
    if (moves : bool) then mret (relation_guard q o_denied "pending_review_subject_relation")
    else if match target_work_id patch with Some t => negb (grant_can_read g t true) | None => false end
    then mret (relation_guard q o_denied "relation_target_not_granted")
    else
      match (if changes_relation q (s_tracker s) && negb (rl_confirm q)
             then pending_review_id (rl_work_id q) (rl_observed_revision q) None s else None) with
      | Some review => mret (with_next_action (confirmation_message review)
                         (relation_guard q o_confirm_required "pending_review"))
      | None =>
          related ← apply_relation p q caller (row_version current);
          match related with
          | inr o => mret o
          | inl record => relation_commit p q g record
          end
      end.

Definition relation_attempt (p : PrincipalContext) (q : ProtectedRelation) (caller : option Mailboxes.AgentMailbox)
    (now : Z) : M StoreDB GuardOutcome :=
  grant ← grant_of p;
  s ← get_st;
  match exact_row (rl_operation_id q) s with
  | Some row => lift (replay_exact (principal_key p) (relation_fingerprint p q)
                  (relation_guard q o_denied "operation_identity_conflict") row)
  | None =>
      match refuse_grant p now (rl_work_id q) work_relate (rl_grant_version q) relation_qualification qualified_strictly
              "relation_not_qualified_for_this_surface" (relation_guard q) grant with
      | inr o => mret o
      | inl g =>
          match blocked_row (rl_work_id q) s with
          | Some row => lift (refuse_blocked (relation_guard q o_unknown "target_has_unresolved_effect") row)
          | None =>
              match work_of (rl_work_id q) s with
              | None => mret (relation_guard q o_denied "work_not_bound")
              | Some current =>
                  actual ← lift (canonical_revision (rl_work_id q) (row_version current));
                  if negb (eqb (rl_observed_revision q) actual)
                  then mret (relation_guard q o_stale "source_revision_changed")
                  else relation_with p q caller g current
              end
          end
      end
  end.

End gateways.

(** ** Projects *)

Definition PROJECT_CREATE_NAMESPACE : uuid := "662e52d9-177f-4785-bf32-2eb7b225eb78".

(** The dash of the second text is U+2013 in the source. *)
Definition project_outcome (q : ProtectedProjectCreate) (s : OutcomeStatus) (reason : string) (e : EffectTruth)
    (r : Retry) (next_action : string) : GuardOutcome :=
  mkOutcome s "project_create" None (Some (pp_operation_id q)) reason e r next_action None None.

Definition project_guard (q : ProtectedProjectCreate) : GuardOutcome :=
  project_outcome q o_denied "name_invalid" not_sent r_none "Use a trimmed name of 1-500 non-NUL characters.".

Definition project_uncertain (q : ProtectedProjectCreate) : GuardOutcome :=
  project_outcome q o_unknown "canonical_project_outcome_unknown" unknown r_reconcile
    "Retry only this exact operation_id and name; retain its identity.".

Definition project_denied (q : ProtectedProjectCreate) (reason : string) : GuardOutcome :=
  project_outcome q o_denied reason not_sent r_none "Resolve current workspace creation admission.".

(** The trimmed name, unless it is refused. *)
Definition project_named (q : ProtectedProjectCreate) : option string :=
  let name := py_strip (pp_name q) in
  if negb ((1 <=? py_len name) && (py_len name <=? 500)) || has_nul name then None else Some name.

Definition project_semantic (q : ProtectedProjectCreate) (name : string) : json :=
  JObj [("api_version", JStr "1"); ("operation_id", JStr (pp_operation_id q)); ("name", JStr name)]%string.

Definition created_project (q : ProtectedProjectCreate) : uuid := uuid5 PROJECT_CREATE_NAMESPACE (pp_operation_id q).

Definition project_intent (q : ProtectedProjectCreate) (name : string) : json :=
  JObj [("operation", JStr "project_create"); ("subject_kind", JStr "PROJECT"); ("project_id", JStr (created_project q));
        ("request", project_semantic q name); ("authority", JStr "postgres")]%string.

(** [intent.get("operation") != ... or intent.get("request") != semantic] *)
Definition other_project (q : ProtectedProjectCreate) (name : string) (i : json) : res bool :=
  match i with
  | JObj kvs =>
      Ok (negb (eqb (assoc "operation" kvs) (Some (JStr "project_create")))
          || match assoc "request" kvs with
             | Some v => negb (Messages.py_eq v (project_semantic q name))
             | None => true
             end)
  | _ => raise OtherError "no attribute 'get'"
  end.

(** What the grant lacks. *)
Definition project_refusal (p : PrincipalContext) (q : ProtectedProjectCreate) (now : Z) (grant : option WorkGrant)
  : WorkGrant + GuardOutcome :=
  match grant with
  | None => inr (project_denied q "no_current_grant")
  | Some g =>
      if negb (admitted p now g) then inr (project_denied q "no_current_grant")
      else if negb (eqb (scope g) workspace) || negb (mem project_create (operations g))
      then inr (project_denied q "operation_not_granted")
      else if negb (version g =? pp_grant_version q)
      then inr (project_outcome q o_stale "grant_version_changed" not_sent r_refresh
                  "Refresh current admission before a new effect.")
      else if negb (qualified_strictly p (create_qualification g))
      then inr (project_denied q "create_not_qualified_for_this_surface")
      else inl g
  end.

Definition project_commit (p : PrincipalContext) (q : ProtectedProjectCreate) (name : string) (g : WorkGrant)
  : M StoreDB GuardOutcome :=
  let project := created_project q in
  on_tracker (insert_project project name);;
  s ← get_st;
  throw_if (negb (eqb (projects (s_tracker s) !! project) (Some (mkProject name None)))) ValueError
    "project readback mismatch";;
  let o := mkOutcome o_ok "project_create" None (Some (pp_operation_id q)) "project_created" applied r_none
    "Retain project_id and operation_id. Names may repeat; use project_id with existing placement tools. Exact retries return this receipt."
    (Some (ProjectCreateReceipt (receipt_head p g (pp_operation_id q)) project name (or_empty (create_qualification g)))) None in
  insert_intent (pp_operation_id q)
    (applied_row p g (sha256_hex (dumps_sorted (project_semantic q name))) (String.append "project:" project)
      (project_intent q name) o);;
  mret o.

(** One pass of the loop; the second one only reads. *)
Definition project_attempt (p : PrincipalContext) (q : ProtectedProjectCreate) (name : string) (again : bool) (now : Z)
  : M StoreDB GuardOutcome :=
  grant ← grant_of p;
  s ← get_st;
  match exact_row (pp_operation_id q) s with
  | Some row =>
      other ← (if negb (eqb (principal_key_ row) (principal_key p)) then mret true
               else lift (other_project q name (GrantState.intent row)));
      if (other : bool) then mret (project_outcome q o_denied "operation_identity_conflict" not_sent r_none
                            "Retain the original request and operation identity.")
      else lift (GuardOutcome_validate (outcome row))
  | None =>
      if again then mret (project_uncertain q)
      else
        match project_refusal p q now grant with
        | inr o => mret o
        | inl g => project_commit p q name g
        end
  end.
