(* ===== verification/GatewayRuns.v ===== *)
(** * Protected requests among other callers ([tracker/appends.py], [runtime.py], [relations.py])

    What a protected request answers when connections are lost, identifiers
    collide and other callers change the tables before its transaction: the
    [except] clauses and the retries around the attempts of [Gateways], and
    what the answers promise. *)

From S2P Require Import Prelude WeakestPre Tables Json Codec Contracts Grants GrantState MutationEffect.
From S2P Require Import Tracker WorkPolicy TrackerSystem HumanReviews Store PullRequests Gateways.
From S2P Require WorkEvents WorkRelations Mailboxes Messages WorkState.

Local Open Scope Z_scope.

(** ** Requests *)

Inductive Request :=
  | rq_append (q : ProtectedAppend)
  | rq_update (q : ProtectedUpdate)
  | rq_relate (q : ProtectedRelation) (caller : option Mailboxes.AgentMailbox)
  | rq_project (q : ProtectedProjectCreate).

Definition request_operation_id (r : Request) : uuid :=
  match r with
  | rq_append q => pa_operation_id q | rq_update q => pu_operation_id q
  | rq_relate q _ => rl_operation_id q | rq_project q => pp_operation_id q
  end.

(** ** What an exception becomes *)

Definition is_a (e : exn) (classes : list exn_class) : bool := existsb (exn_isinstance (exn_cls e)) classes.

Definition possibly (v : Voice) (work op : uuid) : GuardOutcome :=
  guard_by v (Some work) op o_unknown "state_or_effect_unavailable" true.

Definition append_errors (q : ProtectedAppend) (e : exn) : res GuardOutcome :=
  if is_a e [IntegrityError] then Ok (append_guard q o_denied "operation_identity_conflict")
  else if is_a e [StaleWorkVersion] then Ok (append_guard q o_stale "source_revision_changed")
  else if is_a e [OperationConflictError; TypeError; ValueError; KeyError]
  then Ok (append_guard q o_denied "invalid_database_append")
  else if is_a e [SQLAlchemyError] then Ok (possibly append_voice (pa_work_id q) (pa_operation_id q))
  else Err e.

Definition update_errors (q : ProtectedUpdate) (e : exn) : res GuardOutcome :=
  if is_a e [IntegrityError] then Ok (update_guard q o_denied "invalid_database_metadata")
  else if is_a e [TypeError; ValueError; KeyError] then Ok (update_guard q o_denied "invalid_database_metadata")
  else if is_a e [SQLAlchemyError] then Ok (possibly update_voice (pu_work_id q) (pu_operation_id q))
  else Err e.

Definition relation_errors (q : ProtectedRelation) (e : exn) : res GuardOutcome :=
  if is_a e [StaleVersion] then Ok (relation_guard q o_stale "pr_revision_changed")
  else if is_a e [IntegrityError] then Ok (relation_guard q o_denied "invalid_database_relation")
  else if is_a e [LookupError; TypeError; ValueError; KeyError]
  then Ok (relation_guard q o_denied "invalid_database_relation")
  else if is_a e [SQLAlchemyError] then Ok (possibly relation_voice (rl_work_id q) (rl_operation_id q))
  else Err e.

Definition project_errors (q : ProtectedProjectCreate) (e : exn) : res GuardOutcome :=
  if is_a e [SQLAlchemyError; ValueError; KeyError; TypeError] then Ok (project_uncertain q) else Err e.

Definition handled {A} (h : exn → res A) (m : M StoreDB A) : M StoreDB A := λ s,
  match m s with (s', Err e) => (s', h e) | x => x end.

(** [for attempt in range(2)]: a collision is tried again once. *)
Definition retried {A} (m m' : M StoreDB A) : M StoreDB A := catch m [IntegrityError] (λ _, m').

(** The outcomes that other services journal here: not those of these
    gateways. *)
Definition foreign (o : GuardOutcome) : bool :=
  match receipt o with
  | Some (EffectReceipt _ _ provider _ _ _ _) | Some (RelationReceipt _ _ provider _ _ _ _ _)
  | Some (UpdateReceipt _ _ provider _ _ _ _ _) => negb (eqb provider "postgres")
  | Some (ProjectCreateReceipt _ _ _ _) => false
  | _ => true
  end.

Section runs.
Context (nfkc_casefold : string → string).

(** The transaction of a request; [again] for the second pass of its loop. *)
Definition request_attempt (p : PrincipalContext) (r : Request) (again : bool) (now : Z) (event_id : uuid)
  : M StoreDB GuardOutcome :=
  transaction match r with
  | rq_append q => append_attempt p q now event_id
  | rq_update q => update_attempt nfkc_casefold p q now
  | rq_relate q caller => relation_attempt p q caller now
  | rq_project q =>
      match project_named q with
      | None => mret (project_guard q)
      | Some name => project_attempt p q name again now
      end
  end.

(** ** Other callers *)

(** A grant is issued; the journal of another service gets a row, or a row of
    it that was unknown is settled; messages, mailboxes and handles change; a
    call of the tracker or of the reviews; a protected request. *)
Inductive StoreCall :=
  | sc_issue (g : WorkGrant) (expected : option Z)
  | sc_journal (op : uuid) (row : EffectRow)
  | sc_mail (m : Messages.MsgDB)
  | sc_review (c : ReviewCall)
  | sc_request (p : PrincipalContext) (r : Request) (again : bool) (now : Z) (event_id : uuid).

Definition journal_open (op : uuid) (s : StoreDB) : bool :=
  match s_intents s !! op with Some row => is_unknown row | None => true end.

Definition run_call (c : StoreCall) (s : StoreDB) : StoreDB :=
  match c with
  | sc_issue g expected => with_s_grants (GrantState.issue g expected (s_grants s)).1 s
  | sc_journal op row =>
      if journal_open op s && foreign (outcome row)
      then with_s_grants (with_intents (<[op := row]> (s_intents s)) (s_grants s)) s else s
  | sc_mail m =>
      mkStore (Messages.mkMsgDB (Messages.messages m) (Messages.deliveries m) (Messages.review_cutoff_receipt m)
        (Messages.agents m) (s_grants s) (Messages.handles m) (Messages.signals m)) (human s) (pulls s) (pull_links s)
  | sc_review c => with_s_human (run_review nfkc_casefold c (human s)) s
  | sc_request p r again now event_id => (request_attempt p r again now event_id s).1
  end.

Definition run_calls (cs : list StoreCall) (s : StoreDB) : StoreDB := foldl (λ s c, run_call c s) s cs.

(** ** A request among them *)

(** What happens at an attempt: others run first, the connection may fail, the
    insertion may collide with a concurrent one, and the clock and the
    generator of identifiers show something. *)
Record Turn := mkTurn {
  t_others : list StoreCall; t_fault : Fault; t_collides : bool; t_now : Z; t_event : uuid }.

(** The store at the start of the attempt. *)
Definition before (t : Turn) (s : StoreDB) : StoreDB := run_calls (t_others t) s.

Definition collided {A} (b : bool) (m : M StoreDB A) : M StoreDB A :=
  if b then throw IntegrityError "duplicate key value violates unique constraint" else m.

Definition attempt_at (t : Turn) (p : PrincipalContext) (r : Request) (again : bool) : M StoreDB GuardOutcome := λ s,
  connected (t_fault t) (collided (t_collides t) (request_attempt p r again (t_now t) (t_event t))) (before t s).

(** [CanonicalAppendGateway.append] *)
Definition append (p : PrincipalContext) (q : ProtectedAppend) (t : Turn) : M StoreDB GuardOutcome :=
  handled (append_errors q) (attempt_at t p (rq_append q) false).

Definition protected_update (p : PrincipalContext) (q : ProtectedUpdate) (t t' : Turn) : M StoreDB GuardOutcome :=
  handled (update_errors q) (retried (attempt_at t p (rq_update q) false) (attempt_at t' p (rq_update q) true)).

Definition protected_relation (p : PrincipalContext) (q : ProtectedRelation) (caller : option Mailboxes.AgentMailbox)
    (t t' : Turn) : M StoreDB GuardOutcome :=
  handled (relation_errors q)
    (retried (attempt_at t p (rq_relate q caller) false) (attempt_at t' p (rq_relate q caller) true)).

Definition protected_project_create (p : PrincipalContext) (q : ProtectedProjectCreate) (t t' : Turn)
  : M StoreDB GuardOutcome :=
  match project_named q with
  | None => mret (project_guard q)
  | Some _ =>
      handled (project_errors q) (retried (attempt_at t p (rq_project q) false) (attempt_at t' p (rq_project q) true))
  end.

(** Any of the four. *)
Definition request (p : PrincipalContext) (r : Request) (t t' : Turn) : M StoreDB GuardOutcome :=
  match r with
  | rq_append q => append p q t
  | rq_update q => protected_update p q t t'
  | rq_relate q caller => protected_relation p q caller t t'
  | rq_project q => protected_project_create p q t t'
  end.
(** ** What an attempt does *)

Definition request_work (r : Request) : option uuid :=
  match r with
  | rq_append q => Some (pa_work_id q) | rq_update q => Some (pu_work_id q)
  | rq_relate q _ => Some (rl_work_id q) | rq_project _ => None
  end.

Definition request_operation (r : Request) : Operation :=
  match r with
  | rq_append _ => work_append | rq_update _ => work_update | rq_relate _ _ => work_relate
  | rq_project _ => project_create
  end.

Definition request_grant_version (r : Request) : Z :=
  match r with
  | rq_append q => pa_grant_version q | rq_update q => pu_grant_version q
  | rq_relate q _ => rl_grant_version q | rq_project q => pp_grant_version q
  end.

Definition request_qualified (p : PrincipalContext) (r : Request) (g : WorkGrant) : bool :=
  match r with
  | rq_append _ => qualified p (append_qualification g)
  | rq_update _ => qualified p (update_qualification g)
  | rq_relate _ _ => qualified_strictly p (relation_qualification g)
  | rq_project _ => qualified_strictly p (create_qualification g)
  end.

(** The grant lets this principal make this request now. *)
Definition authorizes (p : PrincipalContext) (r : Request) (now : Z) (g : WorkGrant) : bool :=
  admitted p now g && mem (request_operation r) (operations g) && (version g =? request_grant_version r)
  && request_qualified p r g
  && match request_work r with Some w => grant_can_write g w | None => eqb (scope g) workspace end.

Definition request_observed (r : Request) : string :=
  match r with
  | rq_append q => pa_observed_revision q | rq_update q => pu_observed_revision q
  | rq_relate q _ => rl_observed_revision q | rq_project _ => ""
  end.

Definition request_fingerprint (p : PrincipalContext) (r : Request) : string :=
  match r with
  | rq_append q => append_fingerprint p q | rq_update q => update_fingerprint p q
  | rq_relate q _ => relation_fingerprint p q
  | rq_project q => sha256_hex (dumps_sorted (project_semantic q (default "" (project_named q))))
  end.

Definition request_intent (r : Request) : json :=
  match r with
  | rq_append q => postgres_intent (append_json q) | rq_update q => postgres_intent (update_json q)
  | rq_relate q _ => postgres_intent (relate_json q)
  | rq_project q => project_intent q (default "" (project_named q))
  end.

(** The identifier under which the journal keeps what was changed. *)
Definition request_subject (r : Request) : string :=
  match r with rq_project q => String.append "project:" (created_project q) | _ => default "" (request_work r) end.

(** The row is of this very request. *)
Definition same_request (p : PrincipalContext) (r : Request) (row : EffectRow) : bool :=
  eqb (principal_key_ row) (principal_key p) &&
  match r with
  | rq_project q => eqb (other_project q (default "" (project_named q)) (GrantState.intent row)) (Ok false)
  | _ => eqb (fingerprint row) (request_fingerprint p r)
  end.

(** No review waits for the observed state, or the caller confirmed, or the
    relation is already as asked. *)
Definition undisturbed (r : Request) (s : StoreDB) : Prop :=
  match r with
  | rq_append q => pa_confirm q = true ∨ pending_review_id (pa_work_id q) (pa_observed_revision q) None s = None
  | rq_update q => pu_confirm q = true ∨ pending_review_id (pu_work_id q) (pu_observed_revision q) None s = None
  | rq_relate q _ => rl_confirm q = true ∨ changes_relation q (s_tracker s) = false ∨
      pending_review_id (rl_work_id q) (rl_observed_revision q) None s = None
  | rq_project _ => True
  end.

(** The call of the tracker that a request stands for. *)
Inductive stands_for (p : PrincipalContext) (now : Z) (event_id : uuid) (s : StoreDB) : Request → Call → Prop :=
  | sf_append q w : work_of (pa_work_id q) s = Some w → completed w = false →
      stands_for p now event_id s (rq_append q)
        (c_append event_id (pa_work_id q) (row_version w) (pa_operation_id q) "comment_added" (Some (pa_text q))
          (Datetime now (Some 0)) (Some (p_subject p)) None)
  | sf_update q w v : work_of (pu_work_id q) s = Some w →
      (if finishes (pu_patch q) then terminal_update (pu_patch q) = Some v else v = pu_patch q) →
      check_resultant (pu_patch q) v w (apply_values v w) = Ok tt →
      stands_for p now event_id s (rq_update q) (c_replace (apply_values v w))
  | sf_parent q caller w : work_of (rl_work_id q) s = Some w → kind (rl_patch q) = k_parent →
      stands_for p now event_id s (rq_relate q caller)
        (c_set_parent (rl_work_id q) (target_work_id (rl_patch q)) (row_version w))
  | sf_dependency q caller w x : work_of (rl_work_id q) s = Some w → kind (rl_patch q) = k_dependency →
      target_work_id (rl_patch q) = Some x →
      stands_for p now event_id s (rq_relate q caller)
        (c_dependency (rl_work_id q) x (eqb (action (rl_patch q)) a_add) (row_version w))
  | sf_membership q caller w x : work_of (rl_work_id q) s = Some w → kind (rl_patch q) = k_placement →
      project_id (rl_patch q) = Some x →
      stands_for p now event_id s (rq_relate q caller)
        (c_membership (rl_work_id q) x (eqb (action (rl_patch q)) a_add) (row_version w))
  | sf_pull q caller w : work_of (rl_work_id q) s = Some w → kind (rl_patch q) = k_pull_request →
      stands_for p now event_id s (rq_relate q caller) (c_revise (rl_work_id q) (row_version w))
  | sf_project q name : project_named q = Some name →
      stands_for p now event_id s (rq_project q) (c_project (created_project q) name).

(** What the receipts of these gateways refer to is there. *)
Definition backed (o : GuardOutcome) (s : StoreDB) : Prop :=
  match receipt o with
  | Some (EffectReceipt h w provider _ story text _) => provider = "postgres"%string →
      ∃ e, e ∈ events (s_tracker s) ∧ e_id e = story ∧ e_work_id e = w ∧ operation_id e = Some (r_operation_id h) ∧
        e_text e = Some text
  | Some (UpdateReceipt h w provider _ observed resulting _ _) => provider = "postgres"%string →
      ∃ u v, canonical_revision w u = Ok observed ∧ canonical_revision w (u + 1) = Ok resulting ∧
        version_of w (s_tracker s) = Some v ∧ u + 1 <= v
  | Some (RelationReceipt h w provider _ observed _ _ pr) => provider = "postgres"%string →
      (∃ u v, canonical_revision w u = Ok observed ∧ version_of w (s_tracker s) = Some v ∧ u <= v) ∧
      match pr with
      | Some r => ∃ row, pulls s !! (pr_repository r, pr_number r) = Some row ∧ pr_row_version r <= pull_version row
      | None => True
      end
  | Some (ProjectCreateReceipt h id name _) => projects (s_tracker s) !! id = Some (mkProject name None)
  | _ => True
  end.

(** How a request changes one row of the pull requests: it may add it, owned by
    the caller, or give it to a recipient who accepted it in a durable message
    at this version. *)
Inductive pull_step (p : PrincipalContext) (r : Request) (s : StoreDB) (k : pull_key)
  : option PullRow → option PullRow → Prop :=
  | ps_same x : pull_step p r s k x x
  | ps_added q caller pr ref : r = rq_relate q (Some caller) → pull_request (rl_patch q) = Some pr → key_of pr = k →
      action (rl_patch q) = a_add → caller_current caller (principal_key p) (actors caller pr s) = true →
      pull_step p r s k None (Some (mkPull (Mailboxes.name_key caller) 1 ref))
  | ps_moved q caller pr recipient row payload ref :
      r = rq_relate q (Some caller) → pull_request (rl_patch q) = Some pr → key_of pr = k →
      action (rl_patch q) = a_set → caller_current caller (principal_key p) (actors caller pr s) = true →
      (rl_work_id q, k) ∈ pull_links s → expected_version pr = Some (pull_version row) →
      pull_owner row = Mailboxes.name_key caller → recipient ∈ actors caller pr s →
      recipient_key pr = Some (Mailboxes.name_key recipient) → Mailboxes.name_key recipient ≠ Mailboxes.name_key caller →
      acceptance caller recipient pr s = Some payload →
      Messages.py_eq payload (acceptance_json caller recipient pr (pull_version row)) = true →
      pull_step p r s k (Some row) (Some (mkPull (Mailboxes.name_key recipient) (pull_version row + 1) ref)).

(** A request whose effect and journal row are committed. *)
Record commits (p : PrincipalContext) (r : Request) (now : Z) (event_id : uuid) (s s' : StoreDB) (o : GuardOutcome)
  : Prop := {
  cm_fresh : s_intents s !! request_operation_id r = None;
  cm_grant : ∃ g, work_grants (s_grants s) !! principal_key p = Some (Some g) ∧ authorizes p r now g = true ∧
    s_grants s' = with_intents (<[request_operation_id r :=
      applied_row p g (request_fingerprint p r) (request_subject r) (request_intent r) o]> (s_intents s)) (s_grants s);
  cm_work w : request_work r = Some w → blocked_row w s = None ∧
    ∃ v, version_of w (s_tracker s) = Some v ∧ canonical_revision w v = Ok (request_observed r);
  cm_undisturbed : undisturbed r s;
  cm_call : ∃ c, stands_for p now event_id s r c ∧ human s' = run_review nfkc_casefold (rv_tracker c) (human s);
  cm_outcome : effect o = applied ∧ status o = o_ok ∧ GuardOutcome_validate o = Ok o;
  cm_backed : backed o s';
  cm_pulls k : pull_step p r s k (pulls s !! k) (pulls s' !! k) }.

(** An outcome without effect. *)
Definition refused (o : GuardOutcome) : Prop := effect o = not_sent ∧ status o ≠ o_ok ∧ receipt o = None.

(** What a returning attempt does: it refuses, or reads the journal, and leaves
    the store as it is; or commits. *)
Inductive attempted (p : PrincipalContext) (r : Request) (now : Z) (event_id : uuid) (s s' : StoreDB) (o : GuardOutcome)
  : Prop :=
  | at_refused : s' = s → refused o → attempted p r now event_id s s' o
  | at_unsettled q : s' = s → r = rq_project q → o = project_uncertain q → attempted p r now event_id s s' o
  | at_replayed row : s' = s → s_intents s !! request_operation_id r = Some row → same_request p r row = true →
      o = outcome row → attempted p r now event_id s s' o
  | at_committed : commits p r now event_id s s' o → attempted p r now event_id s s' o.

Lemma wp_on_tracker {A} (m : M TrackerDB A) (Q : A → StoreDB → Prop) s :
  (∀ t a, m (s_tracker s) = (t, Ok a) → Q a (with_s_tracker t s)) → wp (on_tracker m) Q s.
Proof. unfold wp, on_tracker, via. destruct (m (s_tracker s)) as [t [a|e]]; auto. Qed.

Lemma wp_grant_of p (Q : option WorkGrant → StoreDB → Prop) s :
  Q (default None (work_grants (s_grants s) !! principal_key p)) s → wp (grant_of p) Q s.
Proof. unfold wp, grant_of, on_journal, via. cbn. destruct s as [[] ?]. by cbn. Qed.

Lemma wp_insert op row (Q : unit → StoreDB → Prop) s :
  (s_intents s !! op = None → Q tt (with_s_grants (with_intents (<[op := row]> (s_intents s)) (s_grants s)) s)) →
  wp (insert_intent op row) Q s.
Proof.
  intros H. unfold insert_intent, refuse_if. apply wp_bind, wp_throw_if. intros _. apply wp_bind. unfold wp at 1, get_st.
  apply wp_bind, wp_throw_if. intros Hn. apply H. by destruct (s_intents s !! op).
Qed.

Lemma wp_reading {A} (f : StoreDB → res A) (Q : A → StoreDB → Prop) s : (∀ a, f s = Ok a → Q a s) → wp (reading f) Q s.
Proof. unfold wp, reading. destruct (f s); auto. Qed.

Ltac wp_steps :=
  repeat lazymatch goal with
  | |- wp (grant_of _) _ _ => apply wp_grant_of
  | |- wp (reading _) _ _ => apply wp_reading; intros ? ?
  | |- wp (refuse_if _) _ _ => apply wp_throw_if; intros ?
  | |- wp (insert_intent _ _) _ _ => apply wp_insert; intros ?
  | |- wp (on_tracker _) _ _ => apply wp_on_tracker; intros ? ? ?
  | _ => wp_step
  end.

(** ** The checks *)

Lemma refused_guard v w op st reason : st ≠ o_ok → refused (guard_by v w op st reason false).
Proof. done. Qed.

Lemma refused_next text o : refused o → refused (with_next_action text o).
Proof. done. Qed.

Lemma replay_exact_ok p r row conflict o :
  replay_exact (principal_key p) (request_fingerprint p r) conflict row = Ok o → refused conflict →
  match r with rq_project _ => False | _ => True end →
  refused o ∨ o = outcome row ∧ same_request p r row = true.
Proof.
  unfold replay_exact. intros H Hc Hr.
  destruct (negb (eqb (principal_key_ row) (principal_key p))) eqn:E1; [by injection H as <-; left|].
  destruct (negb (eqb (fingerprint row) (request_fingerprint p r))) eqn:E2; [by injection H as <-; left|]. cbn in H.
  apply GuardOutcome_validate_eq in H as ->. right. split; [done|].
  rewrite negb_false_iff in E1. rewrite negb_false_iff in E2. unfold same_request. by destruct r; rewrite ?E1, ?E2.
Qed.

Lemma refuse_blocked_ok o row o' : refuse_blocked o row = Ok o' → refused o → refused o'.
Proof.
  unfold refuse_blocked. rewrite bind_Ok. intros (prior & _ & H). unfold with_blocked_effect in H.
  destruct (Grants.operation_id prior), (Grants.work_id prior); try done. by injection H as <-.
Qed.

Lemma refuse_grant_cases p now work op observed qual check denial guard grant :
  (∀ st reason, st ≠ o_ok → refused (guard st reason)) →
  match refuse_grant p now work op observed qual check denial guard grant with
  | inr o => refused o
  | inl g => grant = Some g ∧ admitted p now g = true ∧ grant_can_write g work = true ∧ mem op (operations g) = true ∧
      (version g =? observed) = true ∧ check p (qual g) = true
  end.
Proof.
  intros Hg. unfold refuse_grant. destruct grant as [g|]; [|by apply Hg].
  destruct (admitted p now g) eqn:E1; cbn; [|by apply Hg].
  destruct (grant_can_write g work) eqn:E2; cbn; [|by apply Hg].
  destruct (mem op (operations g)) eqn:E3; cbn; [|by apply Hg].
  destruct (observed =? version g) eqn:E4; cbn; [rewrite Z.eqb_sym in E4 | by apply Hg].
  destruct (check p (qual g)) eqn:E5; cbn; [done | by apply Hg].
Qed.

Lemma granted (o : option (option WorkGrant)) g : default None o = Some g → o = Some (Some g).
Proof. by destruct o as [[]|]; cbn; intros [= ->]. Qed.

(** The journal row after the change. *)
Lemma attempted_commit p r now event_id s s1 g c o row :
  s_intents s !! request_operation_id r = None →
  work_grants (s_grants s) !! principal_key p = Some (Some g) → authorizes p r now g = true →
  (∀ w, request_work r = Some w → blocked_row w s = None ∧
    ∃ v, version_of w (s_tracker s) = Some v ∧ canonical_revision w v = Ok (request_observed r)) →
  undisturbed r s → stands_for p now event_id s r c →
  mail s1 = mail s → human s1 = run_review nfkc_casefold (rv_tracker c) (human s) →
  row = applied_row p g (request_fingerprint p r) (request_subject r) (request_intent r) o →
  effect o = applied → status o = o_ok → GuardOutcome_validate o = Ok o → backed o s1 →
  (∀ k, pull_step p r s k (pulls s !! k) (pulls s1 !! k)) →
  attempted p r now event_id s
    (with_s_grants (with_intents (<[request_operation_id r := row]> (s_intents s1)) (s_grants s1)) s1) o.
Proof.
  intros H1 H2 H3 H4 H5 H6 Hm Hh -> He Ho Hv Hb Hp. apply at_committed. split; try done.
  - exists g. split; [done|]. split; [done|]. unfold s_intents, s_grants. by rewrite Hm.
  - by exists c.
Qed.

(** The stored version of a work is the one read. *)
Lemma version_of_work w s x : work_of w s = Some x → version_of w (s_tracker s) = Some (row_version x).
Proof. unfold work_of, version_of. destruct (works (s_tracker s) !! w); [|done]. by intros [= <-]. Qed.

Lemma attempted_exact p r now event_id s conflict row o :
  exact_row (request_operation_id r) s = Some row →
  replay_exact (principal_key p) (request_fingerprint p r) conflict row = Ok o → refused conflict →
  match r with rq_project _ => False | _ => True end → attempted p r now event_id s s o.
Proof.
  intros Hrow Ho Hc Hr. destruct (replay_exact_ok p r row conflict o Ho Hc Hr) as [?|[-> ?]].
  - by apply at_refused.
  - by eapply at_replayed.
Qed.

Lemma attempted_blocked p r now event_id s g row o :
  refuse_blocked g row = Ok o → refused g → attempted p r now event_id s s o.
Proof. intros H Hg. apply at_refused; [done|]. by eapply refuse_blocked_ok. Qed.

(** The checks of the grant that [authorizes] sums up. *)
Lemma checked_grant p now work op observed qual check denial guard (grants : gmap string (option WorkGrant)) g r :
  refuse_grant p now work op observed qual check denial guard (default None (grants !! principal_key p)) = inl g →
  (∀ st reason, st ≠ o_ok → refused (guard st reason)) →
  request_work r = Some work → op = request_operation r → observed = request_grant_version r →
  request_qualified p r g = check p (qual g) →
  grants !! principal_key p = Some (Some g) ∧ authorizes p r now g = true.
Proof.
  intros H Hg Hw -> -> Hq.
  pose proof (refuse_grant_cases p now work (request_operation r) (request_grant_version r) qual check denial guard
    (default None (grants !! principal_key p)) Hg) as X.
  rewrite H in X. destruct X as (X & H1 & H2 & H3 & H4 & H5). split; [by apply granted|].
  unfold authorizes. by rewrite H1, H3, H4, Hq, H5, Hw, H2.
Qed.

Lemma refusal_refused p now work op observed qual check denial guard grant o :
  refuse_grant p now work op observed qual check denial guard grant = inr o →
  (∀ st reason, st ≠ o_ok → refused (guard st reason)) → refused o.
Proof.
  intros H Hg. pose proof (refuse_grant_cases p now work op observed qual check denial guard grant Hg) as X.
  by rewrite H in X.
Qed.

(** Close the refusals of an attempt. *)
Ltac refusals :=
  try (apply at_refused; [reflexivity | first [done | by eapply refusal_refused]]; fail);
  try (eapply attempted_exact; done); try (eapply attempted_blocked; done).

Lemma append_locked_event i w v op st tx ca ac sg d d' o :
  WorkEvents.append_locked i w v op st tx ca ac sg d = (d', Ok o) →
  d' = run nfkc_casefold (c_append i w v op st tx ca ac sg) d ∧
  WorkEvents.out_event o ∈ events d' ∧ e_work_id (WorkEvents.out_event o) = w ∧
  operation_id (WorkEvents.out_event o) = Some op ∧ e_text (WorkEvents.out_event o) = tx.
Proof.
  intros H. assert (Ha : WorkEvents.append i w v op st tx ca ac sg d = (d', Ok o)) by (unfold WorkEvents.append; by rewrite transaction_ok).
  split; [cbn; by rewrite Ha|].
  destruct (WorkEvents.append_cases _ _ _ _ _ _ _ _ _ _ _ _ Ha) as [[-> [e [=]]]|[(-> & e & Hop & _ & Hs & [= ->])|
    (_ & _ & _ & _ & _ & -> & [= ->])]].
  - cbn. apply WorkEvents.by_operation_one in Hop as [? ?]. unfold WorkEvents.same_append in Hs. to_prop. intuition congruence.
  - cbn. split; [|done]. apply elem_of_snoc. by right.
Qed.

(** An append. *)
Lemma attempted_append p q again now event_id s :
  wp (request_attempt p (rq_append q) again now event_id)
    (λ o s', attempted p (rq_append q) now event_id s s' o) s.
Proof.
  apply wp_transaction. unfold append_attempt, append_commit. wp_steps; refusals.
  edestruct (λ A B C D E F G H I J, checked_grant p A B C D E F G H I J (rq_append q)) as [Hg Ha]; [eassumption | done..|].
  match goal with H : WorkEvents.append_locked _ _ _ _ _ _ _ _ _ _ = _ |- _ =>
    pose proof (append_locked_event _ _ _ _ _ _ _ _ _ _ _ _ H) as (Ht & He & Hw & Hop & Htx) end.
  eapply (attempted_commit p (rq_append q)); try done.
  - intros w' [= <-]. split; [done|]. eexists. split; [by apply version_of_work|]. to_prop. by subst.
  - cbn. destruct (pa_confirm q); auto.
  - by constructor.
  - cbn. by rewrite Ht.
  - cbn. intros _. eauto 6.
  - intros k. by apply ps_same.
Qed.

(** An update. *)
Lemma replace_locked_run item d d' w' :
  WorksInv nfkc_casefold d → work_id item ∈ dom (works d) → version_of (work_id item) d = Some (row_version item) →
  replace_locked nfkc_casefold item d = (d', Ok w') →
  d' = run nfkc_casefold (c_replace item) d ∧ row_version w' = row_version item + 1 ∧
  version_of (work_id item) d' = Some (row_version item + 1).
Proof.
  intros Hd Hin Hv H.
  assert (Hr : replace nfkc_casefold item d = (d', Ok w')).
  { unfold replace. rewrite transaction_ok. unfold get_locked, get_in. unfold version_of in Hv.
    unfold mbind at 1, M_bind at 1. destruct (works d !! work_id item) as [row|] eqn:E; [|done]. cbn in Hv |- *.
    injection Hv as Hv. unfold mbind at 1, M_bind at 1, throw_if. by rewrite Hv, Z.eqb_refl. }
  split; [cbn; by rewrite Hr|].
  destruct (work_replace_cases _ _ _ _ _ Hd Hr) as [[_ [e [=]]]|(n & row & Hrow & Hver & _ & -> & [= ->])].
  split; [done|]. unfold version_of. cbn. by rewrite lookup_insert_eq.
Qed.

(** The commit of an update whose checks passed. *)
Lemma update_commits p q g w v now event_id s : WorksInv nfkc_casefold (s_tracker s) →
  work_grants (s_grants s) !! principal_key p = Some (Some g) → authorizes p (rq_update q) now g = true →
  blocked_row (pu_work_id q) s = None → work_of (pu_work_id q) s = Some w →
  canonical_revision (pu_work_id q) (row_version w) = Ok (pu_observed_revision q) →
  undisturbed (rq_update q) s →
  (if finishes (pu_patch q) then terminal_update (pu_patch q) = Some v else v = pu_patch q) →
  check_resultant (pu_patch q) v w (apply_values v w) = Ok tt →
  wp (update_commit nfkc_casefold p q g v (apply_values v w))
    (λ o s', attempted p (rq_update q) now event_id s s' o) s.
Proof.
  intros Hs Hg Ha Hb Hw Hrev Hu Hv Hc. unfold update_commit. wp_steps.
  pose proof (version_of_work _ _ _ Hw) as Hver.
  assert (Hid : work_id w = pu_work_id q).
  { unfold work_of in Hw. destruct (works (s_tracker s) !! pu_work_id q) as [row|] eqn:E; [|done]. injection Hw as <-.
    by destruct (Hs _ _ E) as (? & _). }
  match goal with H : replace_locked _ _ _ = _ |- _ => apply replace_locked_run in H as (Ht & Hnew & Hver') end.
  - eapply (attempted_commit p (rq_update q)); try done.
    + intros w' [= <-]. split; [done|]. by exists (row_version w).
    + by constructor.
    + cbn. by rewrite Ht.
    + cbn. intros _. cbn in Hnew, Hver'. rewrite Hid in Hver'. exists (row_version w), (row_version w + 1).
      rewrite <- Hnew at 1. done.
    + intros k. by apply ps_same.
  - done.
  - cbn. rewrite Hid. apply elem_of_dom. unfold version_of in Hver. by destruct (works (s_tracker s) !! pu_work_id q).
  - cbn. by rewrite Hid.
Qed.

Lemma attempted_update p q again now event_id s : AllReviews nfkc_casefold (human s) →
  wp (request_attempt p (rq_update q) again now event_id)
    (λ o s', attempted p (rq_update q) now event_id s s' o) s.
Proof.
  intros [Hs _]. apply wp_transaction. unfold update_attempt, update_with. wp_steps; refusals.
  all: edestruct (λ A B C D E F G H I J, checked_grant p A B C D E F G H I J (rq_update q)) as [Hg Ha]; [eassumption | done..|].
  all: destruct (check_resultant _ _ _ _) as [[]|] eqn:Hc in *; try done.
  all: apply update_commits; try done; try apply Hs; try (by to_prop; subst).
  all: try (cbn; destruct (pu_confirm q); auto; fail).
  all: by match goal with H : finishes _ = _ |- _ => rewrite H end.
Qed.

(** A change of pull requests touches their tables alone. *)
Definition only_pulls (s s' : StoreDB) : Prop := mail s' = mail s ∧ human s' = human s.

Lemma pull_step_insert p r s k k' x : (k = k' → pull_step p r s k (pulls s !! k) (Some x)) →
  pull_step p r s k (pulls s !! k) (<[k' := x]> (pulls s) !! k).
Proof.
  intros H. destruct (decide (k = k')) as [->|Hk]; [rewrite lookup_insert_eq; auto|].
  rewrite lookup_insert_ne by done. by apply ps_same.
Qed.

Lemma change_spec p rq caller q s : pull_request (rl_patch rq) = Some q →
  wp (change (rl_work_id rq) (action (rl_patch rq)) q caller (principal_key p) (rl_operation_id rq))
    (λ rec s', only_pulls s s' ∧ (∃ row, pulls s' !! key_of q = Some row ∧ rec = pull_record q row) ∧
      ∀ k, pull_step p (rq_relate rq (Some caller)) s k (pulls s !! k) (pulls s' !! k)) s.
Proof.
  intros Hq. unfold change, ensure_pull, transfer. wp_steps.
  all: split; [done|]; split; [eexists; split; [eassumption | done]|]; intros k; cbn [pulls with_pulls with_pull_links].
  all: try (by apply ps_same); try discriminate.
  all: apply pull_step_insert; intros ->; repeat match goal with H : pulls ?s !! key_of _ = _ |- context [pulls ?s !! _] => rewrite H end.
  all: repeat match goal with H : negb _ = false |- _ => rewrite negb_false_iff in H end.
  - by eapply ps_added.
  - match goal with H : List.find _ _ = Some ?a |- _ => apply find_some in H as [Hin Hname]; rewrite eqb_true in Hname end.
    rewrite Z.eqb_eq in *. to_prop. simplify_eq.
    destruct (acceptance _ _ _ _) as [payload|] eqn:Hacc; [|done].
    eapply (ps_moved _ _ _ _ rq caller q); eauto; try tauto; [| by apply list_elem_of_In | by apply negb_false_iff].
    match goal with H : _ ∨ bool_decide _ = true |- _ => destruct H as [H|H]; [done | by apply bool_decide_eq_true_1 in H] end.
Qed.

Lemma set_version_run w v d d' : version_of w d = Some v → set_version w (v + 1) d = (d', Ok tt) →
  d' = run nfkc_casefold (c_revise w v) d.
Proof.
  intros Hv H. cbn [run]. unfold revise, transaction, WorkRelations._locked_version, WorkRelations._bump, mbind, M_bind,
    get_st, throw_if. rewrite Hv, Z.eqb_refl. cbv beta iota delta [negb raise_if mret M_ret]. by rewrite H.
Qed.

Lemma version_kept c d w v : Inv nfkc_casefold d → version_of w d = Some v →
  ∃ v', version_of w (run nfkc_casefold c d) = Some v' ∧ v <= v'.
Proof.
  intros Hd Hv. destruct (steps_version nfkc_casefold [c] d w v Hd Hv) as (v' & ? & ? & _). by exists v'.
Qed.

Lemma committed_state {A} (m : M TrackerDB A) d d' a : m d = (d', Ok a) → d' = (transaction m d).1.
Proof. unfold transaction. by intros ->. Qed.

(** The change a relation makes. *)
Lemma apply_relation_spec p q caller w now event_id s :
  work_of (rl_work_id q) s = Some w → kind (rl_patch q) ≠ k_assignee →
  wp (apply_relation p q caller (row_version w)) (λ x s1, match x with
    | inr o => s1 = s ∧ refused o
    | inl rec => ∃ c, stands_for p now event_id s (rq_relate q caller) c ∧ mail s1 = mail s ∧
        human s1 = run_review nfkc_casefold (rv_tracker c) (human s) ∧
        (∀ k, pull_step p (rq_relate q caller) s k (pulls s !! k) (pulls s1 !! k)) ∧
        match rec with
        | Some r => ∃ row, pulls s1 !! (pr_repository r, pr_number r) = Some row ∧ pr_row_version r <= pull_version row
        | None => True
        end
    end) s.
Proof.
  intros Hw Hk. pose proof (version_of_work _ _ _ Hw) as Hv. unfold apply_relation.
  destruct (kind (rl_patch q)) eqn:E; [done| | | |].
  all: wp_steps; try done.
  1-3: match goal with H : _ = (_, Ok _) |- _ => apply committed_state in H end; eexists;
    (split; [first [by eapply sf_membership | by eapply sf_parent | by eapply sf_dependency]|]); (split; [done|]); (split; [by subst|]); (split; [|done]);
    intros k; by apply ps_same.
  apply (wp_mono _ _ _ _ (change_spec p q _ _ s ltac:(eassumption))). intros rec s1 ([Hm Hh] & (row & Hrow & ->) & Hp). wp_steps.
  eexists. split; [by apply sf_pull|]. split; [done|]. split; [|split; [exact Hp | by exists row]].
  assert (Ht : s_tracker s1 = s_tracker s) by (unfold s_tracker; by rewrite Hh).
  match goal with H : set_version _ _ _ = (_, Ok ?u) |- _ => rewrite Ht in H; destruct u; apply (set_version_run _ _ _ _ Hv) in H end.
  unfold run_review, answer_review, with_s_tracker. cbn [human fst]. by subst; rewrite Hh.
Qed.

Lemma moves_review_reads q w (Q : bool → StoreDB → Prop) s : (∀ b, Q b s) → wp (moves_review q w) Q s.
Proof. intros H. unfold moves_review. wp_steps; apply H. Qed.

(** The commit of a relation whose checks passed. *)
Lemma relation_commits p q caller g w now event_id s : Inv nfkc_casefold (s_tracker s) →
  work_grants (s_grants s) !! principal_key p = Some (Some g) → authorizes p (rq_relate q caller) now g = true →
  blocked_row (rl_work_id q) s = None → work_of (rl_work_id q) s = Some w →
  canonical_revision (rl_work_id q) (row_version w) = Ok (rl_observed_revision q) →
  wp (relation_with p q caller g w) (λ o s', attempted p (rq_relate q caller) now event_id s s' o) s.
Proof.
  intros Hs Hg Ha Hb Hw Hrev. pose proof (version_of_work _ _ _ Hw) as Hver. unfold relation_with.
  destruct (negb _) eqn:Hk; [by refusals|]. apply wp_bind, moves_review_reads. intros b. wp_steps; refusals.
  assert (Hk' : kind (rl_patch q) ≠ k_assignee) by (intros E; by rewrite E in Hk).
  eapply wp_mono; [by apply (apply_relation_spec p q caller w now event_id s)|]. intros [rec|o] s1.
  2:{ intros [-> Ho]. by apply at_refused. }
  intros (c & Hc & Hm & Hh & Hps & Hp). unfold relation_commit. wp_steps.
  destruct (version_kept c (s_tracker s) _ _ Hs Hver) as (v' & Hv' & Hle).
  eapply (attempted_commit p (rq_relate q caller)); try done.
  - unfold s_intents, s_grants in *. by rewrite <- Hm.
  - intros w' [= <-]. split; [done|]. by exists (row_version w).
  - cbn. destruct (changes_relation q (s_tracker s)), (rl_confirm q); auto.
  - intros _. split; [|by destruct rec]. exists (row_version w), v'. split; [done|].
    unfold s_tracker in *. by rewrite Hh.
Qed.

Lemma attempted_relation p q caller again now event_id s : AllReviews nfkc_casefold (human s) →
  wp (request_attempt p (rq_relate q caller) again now event_id)
    (λ o s', attempted p (rq_relate q caller) now event_id s s' o) s.
Proof.
  intros [Hs _]. apply wp_transaction. unfold relation_attempt. wp_steps; refusals.
  edestruct (λ A B C D E F G H I J, checked_grant p A B C D E F G H I J (rq_relate q caller)) as [Hg Ha]; [eassumption | done..|].
  apply relation_commits; try done; [apply Hs | by to_prop; subst].
Qed.

(** The creation of a project. *)
Lemma project_refusal_cases p q now grants :
  match project_refusal p q now (default None (grants !! principal_key p)) with
  | inr o => refused o
  | inl g => (grants : gmap string (option WorkGrant)) !! principal_key p = Some (Some g) ∧ authorizes p (rq_project q) now g = true
  end.
Proof.
  unfold project_refusal. destruct (default None _) as [g|] eqn:Eg; [apply granted in Eg | done].
  destruct (admitted p now g) eqn:E1; cbn [negb]; [|done].
  destruct (eqb (scope g) workspace) eqn:E2; cbn [negb orb]; [|done].
  destruct (mem project_create (operations g)) eqn:E3; cbn [negb]; [|done].
  destruct (version g =? pp_grant_version q) eqn:E4; cbn [negb]; [|done].
  destruct (qualified_strictly p (create_qualification g)) eqn:E5; cbn [negb]; [|done].
  split; [done|]. unfold authorizes. cbn. by rewrite E1, E2, E3, E4, E5.
Qed.

Lemma attempted_project p q again now event_id s :
  wp (request_attempt p (rq_project q) again now event_id)
    (λ o s', attempted p (rq_project q) now event_id s s' o) s.
Proof.
  apply wp_transaction. destruct (project_named q) as [name|] eqn:Hn; [|by refusals].
  pose proof (project_refusal_cases p q now (work_grants (s_grants s))) as Hr.
  unfold project_attempt, project_commit. wp_steps; refusals.
  - match goal with H : GuardOutcome_validate _ = _ |- _ => apply GuardOutcome_validate_eq in H as -> end.
    eapply at_replayed; [done..| |done]. unfold same_request. cbn. rewrite Hn. cbn.
    rewrite negb_false_iff in Heqb. rewrite Heqb. subst. by match goal with H : other_project _ _ _ = _ |- _ => rewrite H end.
  - by eapply at_unsettled.
  - destruct Hr as [Hg Ha]. eapply (attempted_commit p (rq_project q)); try done.
    + by apply sf_project.
    + match goal with H : insert_project _ _ _ = _ |- _ => apply committed_state in H end. by subst.
    + unfold request_fingerprint, request_intent, request_subject. by rewrite Hn.
    + cbn. match goal with H : negb (eqb (projects _ !! _) _) = false |- _ => rewrite negb_false_iff, eqb_true in H; exact H end.
    + intros k. by apply ps_same.
Qed.

(** Every attempt. *)
Lemma attempt_attempted p r again now event_id s s' o : AllReviews nfkc_casefold (human s) →
  request_attempt p r again now event_id s = (s', Ok o) → attempted p r now event_id s s' o.
Proof.
  intros Hs H.
  assert (Hw : wp (request_attempt p r again now event_id) (λ o s', attempted p r now event_id s s' o) s).
  { destruct r; [apply attempted_append | by apply attempted_update | by apply attempted_relation | apply attempted_project]. }
  unfold wp in Hw. by rewrite H in Hw.
Qed.

Lemma attempted_commits p r now event_id s s' o : attempted p r now event_id s s' o → s' = s ∨ commits p r now event_id s s' o.
Proof. intros [-> _|? -> _ _|? -> _ _ _|Hc]; auto. Qed.

(** ** What all callers keep *)

(** Nothing that a receipt refers to is lost, and settled rows of the journal
    stay. *)
Record grown (s s' : StoreDB) : Prop := {
  gr_events e : e ∈ events (s_tracker s) → e ∈ events (s_tracker s');
  gr_projects : projects (s_tracker s) ⊆ projects (s_tracker s');
  gr_version w v : version_of w (s_tracker s) = Some v → ∃ v', version_of w (s_tracker s') = Some v' ∧ v <= v';
  gr_pulls k row : pulls s !! k = Some row → ∃ row', pulls s' !! k = Some row' ∧ pull_version row <= pull_version row';
  gr_journal op row : s_intents s !! op = Some row → is_unknown row = false → s_intents s' !! op = Some row }.

#[export] Instance grown_preorder : PreOrder grown.
Proof.
  split; [intros s; split; eauto; intros; eexists; (split; [done | lia])|].
  intros s1 s2 s3 H1 H2. split.
  - intros e He. by apply H2, H1.
  - etrans; [apply H1 | apply H2].
  - intros w v Hv. destruct (gr_version _ _ H1 w v Hv) as (u & Hu & ?). destruct (gr_version _ _ H2 w u Hu) as (x & ? & ?).
    exists x. split; [done | lia].
  - intros k row Hr. destruct (gr_pulls _ _ H1 k row Hr) as (u & Hu & ?). destruct (gr_pulls _ _ H2 k u Hu) as (x & ? & ?).
    exists x. split; [done | lia].
  - intros op row Hr Hk. by apply H2, Hk; apply H1.
Qed.

Lemma backed_grown o s s' : grown s s' → backed o s → backed o s'.
Proof.
  intros H. unfold backed. destruct (receipt o) as [[]|]; try done.
  - intros Hb Hp. destruct (Hb Hp) as (e & He & ?). exists e. split; [by apply H | done].
  - intros Hb Hp. destruct (Hb Hp) as [(u & v & Hu & Hv & Hle) Hpr]. destruct (gr_version _ _ H _ _ Hv) as (v' & Hv' & Hle').
    split; [exists u, v'; split_and!; [done..|lia]|]. destruct pull_request as [r|]; [|done].
    destruct Hpr as (row & Hr & Hrle). destruct (gr_pulls _ _ H _ _ Hr) as (row' & ? & ?). exists row'. split; [done | lia].
  - intros Hb Hp. destruct (Hb Hp) as (u & v & Hu & Hv & Hver & Hle). destruct (gr_version _ _ H _ _ Hver) as (v' & Hv' & Hle').
    exists u, v'. split_and!; [done..|lia].
  - intros Hb. eapply lookup_weaken; [exact Hb | apply H].
Qed.

Lemma foreign_backed o s : foreign o = true → backed o s.
Proof.
  unfold foreign, backed. destruct (receipt o) as [[]|]; try done; intros Hf; rewrite negb_true_iff, eqb_false in Hf; done.
Qed.

(** What every caller may rely on. *)
Record StoreInv (s : StoreDB) : Prop := {
  si_reviews : AllReviews nfkc_casefold (human s);
  si_backed op row : s_intents s !! op = Some row → backed (outcome row) s }.

(** The growth of the tracker under a call of the tracker or the reviews. *)
Lemma store_human_grown c s s' : AllReviews nfkc_casefold (human s) →
  human s' = run_review nfkc_casefold c (human s) →
  (∀ e, e ∈ events (s_tracker s) → e ∈ events (s_tracker s')) ∧ projects (s_tracker s) ⊆ projects (s_tracker s') ∧
  (∀ w v, version_of w (s_tracker s) = Some v → ∃ v', version_of w (s_tracker s') = Some v' ∧ v <= v').
Proof.
  intros [Hs _] Hh. pose proof (run_review_changes nfkc_casefold c (human s) (ri_id _ _ Hs)) as Hch.
  rewrite <- Hh in Hch. clear Hh. unfold s_tracker. destruct Hch as [|c'|now x|now x row]; cbn; try (split_and!; [done..|]; intros; eexists; split; [done | lia]).
  split_and!.
  - destruct (steps_events nfkc_casefold [c'] _ (ri_tracker _ _ Hs)) as [l Hl]. cbn in Hl. rewrite Hl. intros e He. apply elem_of_app. by left.
  - apply run_projects.
  - intros w v. apply version_kept, Hs.
Qed.

Lemma pull_step_grown p r s k x x' row : pull_step p r s k x x' → x = Some row →
  ∃ row', x' = Some row' ∧ pull_version row <= pull_version row'.
Proof. intros H ->. inversion H; subst; eexists; (split; [done|]); cbn; lia. Qed.

Lemma commits_grown p r now event_id s s' o : AllReviews nfkc_casefold (human s) →
  commits p r now event_id s s' o → grown s s'.
Proof.
  intros Hs [Hf (g & Hg & Ha & Hj) _ _ (c & _ & Hh) _ _ Hp].
  destruct (store_human_grown _ _ _ Hs Hh) as (H1 & H2 & H3). split; [done..| |].
  - intros k row Hr. by eapply pull_step_grown.
  - intros op row Hr _. unfold s_intents. rewrite Hj. cbn. by rewrite lookup_insert_ne by (intros <-; congruence).
Qed.

Lemma StoreInv_reviews s s' : StoreInv s → AllReviews nfkc_casefold (human s') → grown s s' →
  (∀ op row, s_intents s' !! op = Some row → s_intents s !! op = Some row ∨ backed (outcome row) s') → StoreInv s'.
Proof.
  intros [_ Hb] Hs Hg Hn. split; [done|]. intros op row Hr. destruct (Hn op row Hr) as [Ho|?]; [|done].
  eapply backed_grown; [done | by eapply Hb].
Qed.

Lemma request_attempt_err p r again now event_id s s' e :
  request_attempt p r again now event_id s = (s', Err e) → s' = s.
Proof. apply transaction_err. Qed.

(** A call that leaves the tracker and the pull requests alone. *)
Lemma grown_journal s s' : s_tracker s' = s_tracker s → pulls s' = pulls s →
  (∀ op row, s_intents s !! op = Some row → is_unknown row = false → s_intents s' !! op = Some row) → grown s s'.
Proof. intros Ht Hp Hj. split; rewrite ?Ht, ?Hp; eauto; intros; eexists; (split; [done | lia]). Qed.

Lemma request_step p r again now event_id s : StoreInv s →
  let s' := (request_attempt p r again now event_id s).1 in grown s s' ∧ StoreInv s'.
Proof.
  intros Hs s'. destruct (request_attempt p r again now event_id s) as [s1 [o|e]] eqn:E; cbn in s'; subst s'.
  2:{ apply request_attempt_err in E as ->. by split. }
  apply attempt_attempted, attempted_commits in E as [->|Hc]; [by split | | apply Hs].
  pose proof (commits_grown _ _ _ _ _ _ _ (si_reviews _ Hs) Hc) as Hg. split; [done|].
  destruct Hc as [Hf (g & _ & _ & Hj) _ _ (c & _ & Hh) _ Hb _]. apply (StoreInv_reviews s); [done | | done |].
  - rewrite Hh. apply all_reviews_step, Hs.
  - intros op row Hr. unfold s_intents in *. rewrite Hj in Hr. cbn in Hr.
    apply lookup_insert_Some in Hr as [[<- <-]|[_ Hr]]; [by right | by left].
Qed.

Lemma call_step c s : StoreInv s → grown s (run_call c s) ∧ StoreInv (run_call c s).
Proof.
  intros Hs. destruct c as [g v|op row|m|c|p r again now i]; cbn [run_call].
  - assert (Hi : s_intents (with_s_grants (GrantState.issue g v (s_grants s)).1 s) = s_intents s)
      by apply GrantState.issue_intents.
    assert (Hg : grown s (with_s_grants (GrantState.issue g v (s_grants s)).1 s)).
    { apply grown_journal; [done..|]. intros op row. by rewrite Hi. }
    split; [done|]. apply (StoreInv_reviews s); [done | apply Hs | done |]. rewrite Hi. auto.
  - destruct (journal_open op s && foreign (outcome row)) eqn:E; [|by split]. rewrite andb_true_iff in E. destruct E as [Ho Hf].
    set (s' := with_s_grants _ _).
    assert (Hg : grown s s').
    { apply grown_journal; [done..|]. intros op' row' Hr Hk. unfold s', s_intents. cbn.
      rewrite lookup_insert_ne; [done|]. intros ->. unfold journal_open in Ho. rewrite Hr in Ho. congruence. }
    split; [done|]. apply (StoreInv_reviews s); [done | apply Hs | done |]. intros op' row' Hr. unfold s', s_intents in Hr. cbn in Hr.
    apply lookup_insert_Some in Hr as [[<- <-]|[_ Hr]]; [right; by apply foreign_backed | by left].
  - set (s' := mkStore _ _ _ _). assert (Hg : grown s s') by by apply grown_journal.
    split; [done|]. apply (StoreInv_reviews s); [done | apply Hs | done | by left].
  - set (s' := with_s_human _ _).
    assert (Hg : grown s s').
    { destruct (store_human_grown c s s' (si_reviews _ Hs) eq_refl) as (H1 & H2 & H3). split; try done.
      intros k row Hr. exists row. split; [done | lia]. }
    split; [done|]. apply (StoreInv_reviews s); [done | apply all_reviews_step, Hs | done | by left].
  - by apply request_step.
Qed.

Lemma calls_step cs s : StoreInv s → grown s (run_calls cs s) ∧ StoreInv (run_calls cs s).
Proof.
  revert s. induction cs as [|c cs IH]; intros s Hs; [by split|]. cbn.
  destruct (call_step c s Hs) as [H1 H2]. destruct (IH _ H2) as [H3 H4]. split; [by etrans | done].
Qed.

(** ** A request among other callers *)

(** The stores in which an attempt of the request may start: the caller's own,
    and what the others make of it. *)
Definition starts (t t' : Turn) (s s0 : StoreDB) : Prop := s0 ∈ [s; before t s; before t' (before t s)].

(** An attempt starts in the store that its turn finds, and [now] is the clock
    reading of that turn. *)
Definition turn_of (t t' : Turn) (s s0 : StoreDB) (now : Z) : Prop :=
  s0 = before t s ∧ now = t_now t ∨ s0 = before t' (before t s) ∧ now = t_now t'.

Lemma turn_starts t t' s s0 now : turn_of t t' s s0 now → starts t t' s s0.
Proof. intros [[-> _]|[-> _]]; [by right; left | by right; right; left]. Qed.

Lemma starts_inv t t' s s0 : StoreInv s → starts t t' s s0 → StoreInv s0.
Proof.
  intros Hs. unfold starts. rewrite !elem_of_cons, elem_of_nil. intros [->|[->|[->|[]]]]; [done | by apply calls_step|].
  by apply calls_step, calls_step.
Qed.

(** What an attempt leaves behind, and what its caller sees of it. *)
Inductive ended (p : PrincipalContext) (r : Request) (now : Z) (event_id : uuid) (s0 s' : StoreDB)
  : res GuardOutcome → Prop :=
  | en_failed e : s' = s0 → ended p r now event_id s0 s' (Err e)
  | en_lost o msg : attempted p r now event_id s0 s' o → ended p r now event_id s0 s' (Err (Exn SQLAlchemyError msg))
  | en_answered o : attempted p r now event_id s0 s' o → ended p r now event_id s0 s' (Ok o).

Lemma attempt_ended t p r again s : StoreInv s →
  let s0 := before t s in
  ended p r (t_now t) (t_event t) s0 (attempt_at t p r again s).1 (attempt_at t p r again s).2.
Proof.
  intros Hs s0. assert (H0 : StoreInv s0) by by apply calls_step. unfold attempt_at, connected, collided. fold s0.
  destruct (t_collides t); [by destruct (t_fault t); apply en_failed|].
  destruct (request_attempt p r again (t_now t) (t_event t) s0) as [s1 [o|e]] eqn:E.
  - apply attempt_attempted in E; [|apply H0]. destruct (t_fault t); cbn;
      [by apply en_answered | by apply en_failed | by eapply en_lost].
  - apply request_attempt_err in E as ->. by destruct (t_fault t); apply en_failed.
Qed.

Lemma ended_commits p r now event_id s s' y : ended p r now event_id s s' y →
  s' = s ∨ ∃ o, commits p r now event_id s s' o.
Proof. intros [e ->|o msg H|o H]; [by left | apply attempted_commits in H as [?|?]; eauto..]. Qed.

(** One or two attempts. *)
Lemma retried_ended t t' p r s : StoreInv s →
  let m := retried (attempt_at t p r false) (attempt_at t' p r true) in
  ∃ s0 now event_id, turn_of t t' s s0 now ∧ ended p r now event_id s0 (m s).1 (m s).2.
Proof.
  intros Hs m. unfold m, retried, catch. pose proof (attempt_ended t p r false s Hs) as H1. cbn zeta in H1.
  destruct (attempt_at t p r false s) as [s1 [o|e]] eqn:E; cbn [fst snd] in H1.
  { exists (before t s), (t_now t), (t_event t). split; [by left | done]. }
  destruct (existsb _ _) eqn:Hi; [|exists (before t s), (t_now t), (t_event t); split; [by left | done]].
  assert (s1 = before t s) as ->.
  { inversion H1; subst; [done | discriminate Hi]. }
  assert (Hs1 : StoreInv (before t s)) by by apply calls_step.
  exists (before t' (before t s)), (t_now t'), (t_event t'). split; [by right|].
  by apply attempt_ended.
Qed.

(** The texts an exception becomes: a failed attempt may be reported as not
    sent, a lost reply may not. *)
Definition reports (h : exn → res GuardOutcome) : Prop :=
  (∀ e o, h e = Ok o → receipt o = None ∧ effect o ≠ applied) ∧
  (∀ msg o, h (Exn SQLAlchemyError msg) = Ok o → effect o = unknown).

Lemma append_reports q : reports (append_errors q).
Proof. split; [intros e o; unfold append_errors; repeat case_match; intros [= <-]; done | by intros msg o [= <-]]. Qed.
Lemma update_reports q : reports (update_errors q).
Proof. split; [intros e o; unfold update_errors; repeat case_match; intros [= <-]; done | by intros msg o [= <-]]. Qed.
Lemma relation_reports q : reports (relation_errors q).
Proof. split; [intros e o; unfold relation_errors; repeat case_match; intros [= <-]; done | by intros msg o [= <-]]. Qed.
Lemma project_reports q : reports (project_errors q).
Proof. split; [intros e o; unfold project_errors; repeat case_match; intros [= <-]; done | by intros msg o [= <-]]. Qed.

(** What the caller is told of what the request did. *)
Definition answered (p : PrincipalContext) (r : Request) (s0 s' : StoreDB) (o : GuardOutcome) : Prop :=
  match effect o with
  | not_sent => s' = s0
  | unknown => s' = s0 ∨ ∃ now event_id o', commits p r now event_id s0 s' o'
  | applied => (∃ row, s_intents s' !! request_operation_id r = Some row ∧ outcome row = o ∧ same_request p r row = true) ∧
      (s' = s0 ∨ ∃ now event_id, commits p r now event_id s0 s' o)
  end.

Lemma commits_row p r now event_id s s' o : commits p r now event_id s s' o →
  ∃ row, s_intents s' !! request_operation_id r = Some row ∧ outcome row = o ∧ same_request p r row = true.
Proof.
  intros [_ (g & _ & _ & Hj) _ _ _ _ _ _]. eexists. unfold s_intents. rewrite Hj. cbn. rewrite lookup_insert_eq.
  split; [done|]. split; [done|]. unfold same_request, applied_row. cbn. rewrite eqb_refl.
  destruct r; cbn; rewrite ?eqb_refl; try done.
  unfold project_intent, other_project. cbn. by rewrite !String.eqb_refl.
Qed.

(** However it goes, a request ends like an attempt of it that began in one of
    its stores, at that turn's clock reading; a project without a name is refused
    before any turn. *)
Lemma request_ended p r t t' s : StoreInv s →
  ∃ s0 now event_id h y, starts t t' s s0 ∧ ((request p r t t' s).1 = s0 ∨ turn_of t t' s s0 now) ∧ ended p r now event_id s0 (request p r t t' s).1 y ∧ reports h ∧
    (request p r t t' s).2 = match y with Err e => h e | y => y end.
Proof.
  intros Hs.
  assert (Hret : ∀ h, reports h →
    let m := handled h (retried (attempt_at t p r false) (attempt_at t' p r true)) in
    ∃ s0 now event_id h y, starts t t' s s0 ∧ ((m s).1 = s0 ∨ turn_of t t' s s0 now) ∧
      ended p r now event_id s0 (m s).1 y ∧ reports h ∧ (m s).2 = match y with Err e => h e | y => y end).
  { intros h Hh m. destruct (retried_ended t t' p r s Hs) as (s0 & now & i & H1 & H2). exists s0, now, i, h.
    unfold m, handled. destruct (retried _ _ s) as [s1 y]. exists y. apply turn_starts in H1 as Hst. by destruct y; auto. }
  destruct r as [q|q|q caller|q]; cbn [request].
  - unfold append, handled. pose proof (attempt_ended t p (rq_append q) false s Hs) as H. cbn zeta in H.
    destruct (attempt_at t p (rq_append q) false s) as [s1 y]. exists (before t s), (t_now t), (t_event t), (append_errors q), y.
    split; [by right; left|]. split; [by right; left|]. destruct y; (split; [exact H|]); (split; [apply append_reports | done]).
  - apply Hret, update_reports.
  - apply Hret, relation_reports.
  - unfold protected_project_create. destruct (project_named q) as [name|]; [apply Hret, project_reports|].
    exists s, 0, ""%string, (project_errors q), (Ok (project_guard q)). split; [by left|]. split; [by left|].
    split; [by apply en_answered, at_refused|]. split; [apply project_reports | done].
Qed.

(** C3: an answer tells the truth about the effect, whoever else is at work and
    however the connection fails: [not_sent] that the request changed
    nothing; [applied] that the journal has this very outcome for this very
    request, committed now or before; [unknown] that it changed nothing or
    committed. *)
Theorem gateway_truthful p r t t' s o : StoreInv s → (request p r t t' s).2 = Ok o →
  ∃ s0, starts t t' s s0 ∧ answered p r s0 (request p r t t' s).1 o.
Proof.
  intros Hs Ho. destruct (request_ended p r t t' s Hs) as (s0 & now & i & h & y & Hst & _ & He & [Hh Hlost] & Hy).
  exists s0. split; [done|]. rewrite Ho in Hy. unfold answered.
  destruct He as [e ->|o' msg Ha|o' Ha].
  - destruct (Hh e o (eq_sym Hy)) as [_ Hna]. destruct (effect o); [done | done | by left].
  - symmetry in Hy. apply Hlost in Hy as ->. apply attempted_commits in Ha as [?|?]; eauto.
  - injection Hy as <-. destruct Ha as [-> (-> & _)|? -> _ ->|row -> Hrow Hsame ->|Hc].
    + done.
    + by left.
    + destruct (effect (outcome row)); [done | | by left]. split; [by exists row | by left].
    + destruct (cm_outcome _ _ _ _ _ _ _ Hc) as (-> & _). split; [by eapply commits_row | eauto].
Qed.

(** ** What a request may change *)

(** The call that a request stands for is fenced by its work. *)
Lemma stands_for_fence p now event_id s r c : AllReviews nfkc_casefold (human s) → stands_for p now event_id s r c →
  fence c = (w ← request_work r; (λ v, (w, v)) <$> version_of w (s_tracker s)).
Proof.
  intros [Hs _] Hc.
  assert (Hid : ∀ i x, work_of i s = Some x → work_id x = i).
  { intros i x Hx. unfold work_of in Hx. destruct (works (s_tracker s) !! i) as [row|] eqn:E; [|done].
    injection Hx as <-. by destruct (inv_works _ _ (ri_tracker _ _ Hs) _ _ E). }
  destruct Hc; cbn; try done;
    match goal with H : work_of _ _ = Some _ |- _ => pose proof (version_of_work _ _ _ H) as Hv; cbn in Hv |- *; rewrite ?Hv; try done end.
  by rewrite (Hid _ _ H).
Qed.

(** The work of a request may have changed, with its version; nothing else is
    touched. *)
Definition within (r : Request) (t t' : TrackerDB) : Prop :=
  (∀ y, request_work r ≠ Some y → is_Some (works t !! y) → untouched y t t') ∧
  ∀ w v, request_work r = Some w → version_of w t = Some v → untouched w t t' ∨ version_of w t' = Some (v + 1).

Lemma stands_for_within p now event_id s r c : AllReviews nfkc_casefold (human s) → stands_for p now event_id s r c →
  within r (s_tracker s) (run nfkc_casefold c (s_tracker s)).
Proof.
  intros Hs Hc. pose proof (stands_for_fence _ _ _ _ _ _ Hs Hc) as Hf.
  assert (Ht : Inv nfkc_casefold (s_tracker s)) by apply Hs. split.
  - intros y Hy [row Hrow]. assert (Hv : version_of y (s_tracker s) = Some (row_version (item_of row))) by (unfold version_of; by rewrite Hrow).
    destruct (step_version nfkc_casefold c _ _ _ Ht Hv) as [Hu|[_ Hfy]]; [done|]. rewrite Hf in Hfy.
    destruct (request_work r) as [w|]; [|done]. cbn in Hfy. destruct (version_of w (s_tracker s)); [|done]. cbn in Hfy. by simplify_eq.
  - intros w v Hw Hv. destruct (step_version nfkc_casefold c _ _ _ Ht Hv) as [Hu|[Hv' _]]; [by left | by right].
Qed.

(** The qualification that a grant has for the surface of a request. *)
Definition request_surface (r : Request) (g : WorkGrant) : option string :=
  match r with
  | rq_append _ => append_qualification g | rq_update _ => update_qualification g
  | rq_relate _ _ => relation_qualification g | rq_project _ => create_qualification g
  end.

(** Whether a real principal needs the prefix [real:] there. *)
Definition strict_surface (r : Request) : bool :=
  match r with rq_append _ | rq_update _ => false | rq_relate _ _ | rq_project _ => true end.

(** What it takes for a grant to allow a request, in terms of its row. *)
Record grant_allows (p : PrincipalContext) (r : Request) (now : Z) (g : WorkGrant) : Prop := {
  gt_principal : principal g = p;
  gt_active : state g = g_active;
  gt_unexpired : now < dt_us (expires_at g);
  gt_version : version g = request_grant_version r;
  gt_operation : request_operation r ∈ operations g;
  gt_scope : match request_work r with
             | Some w => scope g = workspace ∨ w = active_work_id (authority g)
             | None => scope g = workspace
             end;
  gt_surface : ∃ q, request_surface r g = Some q ∧
    (assurance p = test → startswith "test:" q = true) ∧
    (assurance p ≠ test → if strict_surface r then startswith "real:" q = true else startswith "test:" q = false) }.

Lemma qualified_prefix p o : qualified p o = true → ∃ q, o = Some q ∧
  (assurance p = test → startswith "test:" q = true) ∧ (assurance p ≠ test → startswith "test:" q = false).
Proof.
  unfold qualified. destruct o as [q|]; [|done]. rewrite Bool.eqb_true_iff. intros H. exists q. split; [done|].
  split; intros Ht; [by rewrite Ht, eqb_refl in H|]. rewrite <- eqb_false in Ht. by rewrite Ht in H.
Qed.

Lemma qualified_strictly_prefix p o : qualified_strictly p o = true → ∃ q, o = Some q ∧
  (assurance p = test → startswith "test:" q = true) ∧ (assurance p ≠ test → startswith "real:" q = true).
Proof.
  unfold qualified_strictly. destruct o as [q|]; [|done]. intros H. exists q. split; [done|].
  split; intros Ht; [by rewrite Ht, eqb_refl in H|]. rewrite <- eqb_false in Ht. by rewrite Ht in H.
Qed.

Lemma authorizes_allows p r now g : authorizes p r now g = true → grant_allows p r now g.
Proof.
  unfold authorizes, admitted, grant_current. rewrite !andb_true_iff, !eqb_true, Z.ltb_lt, Z.eqb_eq, mem_true.
  intros [[[[[H1 [H2 H3]] H4] H5] H6] H7]. split; try done.
  - destruct (request_work r) as [w|]; [|by rewrite eqb_true in H7]. unfold grant_can_write in H7.
    destruct (eqb (scope g) workspace) eqn:E; rewrite eqb_true in *; auto.
  - destruct r; cbn in H6 |- *; [by apply qualified_prefix | by apply qualified_prefix
      | by apply qualified_strictly_prefix | by apply qualified_strictly_prefix].
Qed.

(** No effect on the work is unresolved. *)
Definition settled_work (w : uuid) (s : StoreDB) : Prop :=
  ∀ op row, s_intents s !! op = Some row → GrantState.e_work_id row = w → effect (outcome row) ≠ unknown.

Lemma blocked_none w s : blocked_row w s = None → settled_work w s.
Proof.
  unfold blocked_row, settled_work. intros H op row Hr Hw Hu.
  assert (Hin : In (op, row) (List.filter (λ kr : string * EffectRow, eqb (GrantState.e_work_id kr.2) w && is_unknown kr.2)
    (map_to_list (s_intents s)))).
  { apply filter_In. split; [by apply list_elem_of_In, elem_of_map_to_list|]. cbn. unfold is_unknown.
    by rewrite Hw, Hu, !eqb_refl. }
  destruct (List.filter _ _) as [|x l]; [done|]. discriminate H.
Qed.

(** What holds when a request has had an effect. *)
Record effected (p : PrincipalContext) (r : Request) (now : Z) (s s' : StoreDB) : Prop := {
  ef_grant : ∃ g, work_grants (s_grants s) !! principal_key p = Some (Some g) ∧ grant_allows p r now g;
  ef_current w : request_work r = Some w → settled_work w s ∧
    ∃ v, version_of w (s_tracker s) = Some v ∧ canonical_revision w v = Ok (request_observed r);
  ef_undisturbed : undisturbed r s;
  ef_within : within r (s_tracker s) (s_tracker s');
  ef_reviews : s_reviews s' = s_reviews s;
  ef_pulls k : pull_step p r s k (pulls s !! k) (pulls s' !! k);
  ef_journal op : op ≠ request_operation_id r → s_intents s' !! op = s_intents s !! op;
  ef_grants : work_grants (s_grants s') = work_grants (s_grants s) }.

Lemma commits_effected p r now event_id s s' o : AllReviews nfkc_casefold (human s) →
  commits p r now event_id s s' o → effected p r now s s'.
Proof.
  intros Hs [_ (g & Hg & Ha & Hj) Hw Hu (c & Hc & Hh) _ _ Hp]. split; try done.
  - exists g. split; [done|]. by apply authorizes_allows.
  - intros w H. destruct (Hw w H) as [Hb ?]. split; [by apply blocked_none | done].
  - unfold s_tracker at 2. rewrite Hh. cbn. by eapply stands_for_within.
  - unfold s_reviews. by rewrite Hh.
  - intros op Hop. unfold s_intents at 1. rewrite Hj. cbn. by rewrite lookup_insert_ne.
  - by rewrite Hj.
Qed.

(** C2: nothing changes without authority: when a request has changed anything,
    whatever it was answered, the principal's grant was current at the clock
    reading of the turn that wrote, of the requested version, with the operation, the work and the surface; the
    caller had seen the current revision, no effect on the work was
    unresolved, and no review of it was waiting unless the caller confirmed;
    and only the requested work changed, its version advancing by one. *)
Theorem gateway_effect p r t t' s : StoreInv s →
  let s' := (request p r t t' s).1 in
  (∃ s0, starts t t' s s0 ∧ s' = s0) ∨ ∃ s0 now, turn_of t t' s s0 now ∧ effected p r now s0 s'.
Proof.
  intros Hs s'. destruct (request_ended p r t t' s Hs) as (s0 & now & i & h & y & Hst & Ht & He & _).
  fold s' in He, Ht. apply ended_commits in He as [?|[o Hc]]; [left; by exists s0|].
  destruct Ht as [?|Ht]; [left; by exists s0|]. right. exists s0, now. split; [done|]. eapply commits_effected, Hc.
  by apply (starts_inv t t' s).
Qed.

(** The owner of a pull request, from its registered mailbox, gives it to a
    recipient who accepted this pull request at this version in a durable
    message. *)
Definition handed_over (c : StoreCall) (s : StoreDB) (k : pull_key) (row row' : PullRow) : Prop :=
  ∃ p q again now event_id caller recipient pr payload,
    c = sc_request p (rq_relate q (Some caller)) again now event_id ∧
    pull_owner row = Mailboxes.name_key caller ∧ pull_owner row' = Mailboxes.name_key recipient ∧
    pull_version row' = pull_version row + 1 ∧
    caller_current caller (principal_key p) (actors caller pr s) = true ∧ recipient ∈ actors caller pr s ∧
    pull_request (rl_patch q) = Some pr ∧ key_of pr = k ∧ (rl_work_id q, k) ∈ pull_links s ∧
    acceptance caller recipient pr s = Some payload ∧
    Messages.py_eq payload (acceptance_json caller recipient pr (pull_version row)) = true.

(** C10: a pull request changes hands only when its owner gives it to a
    registered recipient who accepted it; nothing else changes its row, which
    is never lost, and its version counts the transfers. *)
Theorem pull_ownership c s k row : StoreInv s → pulls s !! k = Some row →
  ∃ row', pulls (run_call c s) !! k = Some row' ∧ (row' = row ∨ handed_over c s k row row').
Proof.
  intros Hs Hrow.
  assert (Hsame : pulls (run_call c s) !! k = Some row →
    ∃ row', pulls (run_call c s) !! k = Some row' ∧ (row' = row ∨ handed_over c s k row row')) by eauto.
  destruct c as [g v|op x|m|c|p r again now i]; try (apply Hsame; cbn; by repeat case_match).
  cbn [run_call] in *. destruct (request_attempt p r again now i s) as [s1 [o|e]] eqn:E; cbn [fst] in *.
  2:{ apply request_attempt_err in E as ->. auto. }
  apply attempt_attempted, attempted_commits in E as [->|Hc]; [by apply Hsame | | apply Hs].
  pose proof (cm_pulls _ _ _ _ _ _ _ Hc k) as Hp. rewrite Hrow in Hp. destruct (pulls s1 !! k) as [row'|] eqn:Ex; [|inversion Hp].
  exists row'. split; [done|].
  inversion Hp as [x Hx Hx2|?|q caller pr recipient row0 payload ref]; subst; [by left|].
  right. unfold handed_over. eauto 20.
Qed.

(** The store before any call. *)
Definition no_store (ps : gmap uuid Project) : StoreDB :=
  mkStore (Messages.mkMsgDB [] [] false (Mailboxes.mkMailboxDB [] ∅) (GrantState.mkDB ∅ ∅) (WorkState.mkStateDB [] []) [])
    (no_reviews ps) ∅ ∅.

Lemma StoreInv_empty ps : StoreInv (no_store ps).
Proof. split; [apply all_reviews_empty|]. intros op row H. unfold s_intents, s_grants in H. cbn in H. by rewrite lookup_empty in H. Qed.

(** C9: a journaled receipt is never empty: whatever is called in whatever
    order, the event, the project, the revisions and the pull request that a
    receipt of these gateways names are there, with the named content, and
    stay; and the invariants of the tracker and the reviews hold. *)
Theorem gateway_receipts ps cs1 cs2 op row :
  let s := run_calls cs1 (no_store ps) in
  let s' := run_calls cs2 s in
  s_intents s !! op = Some row →
  backed (outcome row) s ∧ backed (outcome row) s' ∧ AllReviews nfkc_casefold (human s') ∧
  (is_unknown row = false → s_intents s' !! op = Some row).
Proof.
  intros s s' Hrow. destruct (calls_step cs1 _ (StoreInv_empty ps)) as [_ Hs]. fold s in Hs.
  destruct (calls_step cs2 s Hs) as [Hg Hs']. fold s' in Hg, Hs'.
  pose proof (si_backed _ Hs op row Hrow) as Hb. split; [done|]. split; [by eapply backed_grown|].
  split; [apply Hs'|]. by apply Hg.
Qed.

(** ** Replays *)

(** What an append checks before it looks at the journal. *)
Definition readmitted (p : PrincipalContext) (r : Request) (now : Z) (s : StoreDB) : Prop :=
  match r with
  | rq_append q => ∃ g, work_grants (s_grants s) !! principal_key p = Some (Some g) ∧ authorizes p r now g = true
  | rq_project q => is_Some (project_named q)
  | _ => True
  end.

Lemma grant_of_run p s : grant_of p s = (s, Ok (default None (work_grants (s_grants s) !! principal_key p))).
Proof. unfold grant_of, on_journal, via. cbn. by destruct s as [[] ?]. Qed.

Lemma replay_exact_same p r row conflict : same_request p r row = true → GuardOutcome_validate (outcome row) = Ok (outcome row) →
  match r with rq_project _ => False | _ => True end →
  replay_exact (principal_key p) (request_fingerprint p r) conflict row = Ok (outcome row).
Proof.
  unfold same_request, replay_exact. rewrite andb_true_iff. intros [H1 H2] Hv Hr. rewrite H1.
  destruct r; [..|done]; by rewrite H2.
Qed.

Lemma authorizes_passes p q now g : authorizes p (rq_append q) now g = true →
  refuse_grant p now (pa_work_id q) work_append (pa_grant_version q) append_qualification qualified
    "append_not_qualified_for_this_surface" (append_guard q) (Some g) = inl g.
Proof.
  unfold authorizes, refuse_grant. cbn. rewrite !andb_true_iff. intros ((((H1 & H2) & H3) & H4) & H5).
  rewrite Z.eqb_eq in H3. by rewrite H1, H2, H5, H3, Z.eqb_refl, H4.
Qed.

(** An attempt of a request whose outcome is journaled. *)
Lemma attempt_replays p r again now event_id s row : s_intents s !! request_operation_id r = Some row →
  same_request p r row = true → GuardOutcome_validate (outcome row) = Ok (outcome row) →
  readmitted p r now s → (∀ w, request_work r = Some w → is_Some (work_of w s)) →
  request_attempt p r again now event_id s = (s, Ok (outcome row)).
Proof.
  intros Hrow Hsame Hv Hre Hw. unfold request_attempt, transaction.
  destruct r as [q|q|q caller|q]; cbn [request_operation_id] in Hrow.
  - unfold append_attempt. unfold mbind at 1, M_bind at 1. rewrite grant_of_run.
    destruct Hre as (g & Hg & Ha). rewrite Hg. cbn [default from_option id]. rewrite (authorizes_passes _ _ _ _ Ha).
    unfold mbind at 1, M_bind at 1, get_st. destruct (Hw _ eq_refl) as [x ->]. unfold exact_row. rewrite Hrow.
    unfold lift. change (append_fingerprint p q) with (request_fingerprint p (rq_append q)). by rewrite replay_exact_same.
  - unfold update_attempt. unfold mbind at 1, M_bind at 1. rewrite grant_of_run. unfold mbind at 1, M_bind at 1, get_st.
    unfold exact_row. rewrite Hrow. unfold lift. change (update_fingerprint p q) with (request_fingerprint p (rq_update q)).
    by rewrite replay_exact_same.
  - unfold relation_attempt. unfold mbind at 1, M_bind at 1. rewrite grant_of_run. unfold mbind at 1, M_bind at 1, get_st.
    unfold exact_row. rewrite Hrow. unfold lift.
    change (relation_fingerprint p q) with (request_fingerprint p (rq_relate q caller)). by rewrite replay_exact_same.
  - unfold same_request in Hsame. rewrite andb_true_iff in Hsame. destruct Hsame as [Hk Ho].
    destruct Hre as [name Hn]. rewrite Hn in *. cbn [default from_option id] in Ho. rewrite eqb_true in Ho. unfold project_attempt.
    unfold mbind at 1, M_bind at 1. rewrite grant_of_run. unfold mbind at 1, M_bind at 1, get_st.
    unfold exact_row. rewrite Hrow, Hk, Ho. unfold mbind, M_bind, lift. cbn [negb]. by rewrite Hv.
Qed.

(** C4: exactly once: when a request has committed - its caller may never have
    heard of it - then whatever others do meanwhile, repeating the request
    changes nothing and answers the outcome that was committed.  An append
    must be admitted again. *)
Theorem gateway_replay p r now event_id s0 s1 o t t' : StoreInv s0 → commits p r now event_id s0 s1 o →
  t_fault t = no_fault → t_collides t = false → (∀ q, r = rq_append q → readmitted p r (t_now t) (before t s1)) →
  request p r t t' s1 = (before t s1, Ok o).
Proof.
  intros Hs0 Hc Hf Hn Hre.
  assert (Hs1 : StoreInv s1).
  { apply (StoreInv_reviews s0); [done | | by eapply commits_grown; [apply Hs0|] |].
    - destruct (cm_call _ _ _ _ _ _ _ Hc) as (c & _ & ->). apply all_reviews_step, Hs0.
    - intros op row Hr. destruct (cm_grant _ _ _ _ _ _ _ Hc) as (g & _ & _ & Hj). unfold s_intents in *. rewrite Hj in Hr. cbn in Hr.
      apply lookup_insert_Some in Hr as [[<- <-]|[_ Hr]]; [right; apply Hc | by left]. }
  destruct (commits_row _ _ _ _ _ _ _ Hc) as (row & Hrow & <- & Hsame).
  destruct (cm_outcome _ _ _ _ _ _ _ Hc) as (Ha & _ & Hv).
  destruct (calls_step (t_others t) s1 Hs1) as [Hg _]. fold (before t s1) in Hg.
  assert (Hatt : ∀ again, attempt_at t p r again s1 = (before t s1, Ok (outcome row))).
  { intros again. unfold attempt_at. rewrite Hf, Hn. unfold collided, connected. rewrite (attempt_replays p r again _ _ _ row).
    - done.
    - apply Hg; [done|]. unfold is_unknown. by rewrite Ha.
    - done.
    - done.
    - destruct (cm_call _ _ _ _ _ _ _ Hc) as (c & Hsf & _). destruct r; cbn; try done; [by apply (Hre _ eq_refl)|].
      inversion Hsf; subst. by eexists.
    - intros w Hw. destruct (cm_work _ _ _ _ _ _ _ Hc w Hw) as (_ & v & Hver & _).
      destruct (gr_version _ _ (commits_grown _ _ _ _ _ _ _ (si_reviews _ Hs0) Hc) _ _ Hver) as (v1 & Hv1 & _).
      destruct (gr_version _ _ Hg _ _ Hv1) as (v2 & Hv2 & _). unfold version_of in Hv2. unfold work_of.
      destruct (works (s_tracker (before t s1)) !! w); [by eexists | done]. }
  destruct r as [q|q|q caller|q]; cbn [request].
  - unfold append, handled. by rewrite Hatt.
  - unfold protected_update, handled, retried, catch. by rewrite Hatt.
  - unfold protected_relation, handled, retried, catch. by rewrite Hatt.
  - destruct (cm_call _ _ _ _ _ _ _ Hc) as (c & Hsf & _). inversion Hsf; subst. unfold protected_project_create.
    match goal with H : project_named q = Some _ |- _ => rewrite H end. unfold handled, retried, catch. by rewrite Hatt.
Qed.

End runs.

(** ** Instances *)

Definition ex_gw_work : uuid := WorkEvents.ex_id 1.
Definition ex_gw_revision (v : Z) : string := match canonical_revision ex_gw_work v with Ok r => r | Err _ => "" end.

Definition ex_gw_grant : WorkGrant :=
  mkGrant "g1" 1 ex_principal (mkAuthority ex_gw_work []) workspace [work_append; work_update; work_relate; project_create]
    "iss" "prov" (Datetime 1000 (Some 0)) g_active (Some "test:q"%string) (Some "test:q"%string) None (Some "test:q"%string)
    (Some "test:q"%string) None.

Definition ex_gw_calls : list StoreCall :=
  [sc_review (rv_tracker (c_create WorkEvents.ex_time (WorkEvents.ex_work ex_gw_work "First"))); sc_issue ex_gw_grant None].

#[local] Abbreviation ex_gw := (run_calls ascii_fold ex_gw_calls (no_store ∅)).

Lemma ex_gw_inv : StoreInv ascii_fold ex_gw.
Proof. apply calls_step, StoreInv_empty. Qed.

Definition ex_turn (f : Fault) : Turn := mkTurn [] f false 5 (WorkEvents.ex_id 9).

Definition ex_append : Request :=
  rq_append (mkAppend (WorkEvents.ex_id 70) ex_gw_work 1 (ex_gw_revision 1) "hello" false).

Definition ex_update : Request :=
  rq_update (mkUpdate (WorkEvents.ex_id 71) ex_gw_work 1 (ex_gw_revision 1) [(F_title, JStr "Second")] false).

Lemma gateway_truthful_witness :
  ∃ o, (request ascii_fold ex_principal ex_append (ex_turn no_fault) (ex_turn no_fault) ex_gw).2 = Ok o ∧
    effect o = applied ∧
    ∃ row, s_intents (request ascii_fold ex_principal ex_append (ex_turn no_fault) (ex_turn no_fault) ex_gw).1 !!
      WorkEvents.ex_id 70 = Some row ∧ outcome row = o.
Proof.
  destruct (request ascii_fold ex_principal ex_append (ex_turn no_fault) (ex_turn no_fault) ex_gw) as [s' x] eqn:E.
  pose proof (gateway_truthful ascii_fold ex_principal ex_append (ex_turn no_fault) (ex_turn no_fault) ex_gw) as H.
  rewrite E in H. cbn [fst snd] in H |- *. apply (f_equal snd) in E. cbn [snd] in E. vm_compute in E.
  destruct x as [o|e]; [|discriminate E]. exists o. split; [reflexivity|].
  assert (He : effect o = applied) by (injection E as <-; reflexivity). split; [exact He|].
  destruct (H o ex_gw_inv eq_refl) as (s0 & _ & Ha). unfold answered in Ha. rewrite He in Ha.
  destruct Ha as [(row & Hr & Ho & _) _]. exists row. split; [exact Hr | exact Ho].
Defined.

Lemma ex_starts f f' s0 : starts ascii_fold (ex_turn f) (ex_turn f') ex_gw s0 → s0 = ex_gw.
Proof. unfold starts. rewrite !elem_of_cons, elem_of_nil. intros [->|[->|[->|[]]]]; reflexivity. Qed.

(** An update whose reply is lost. *)
#[local] Abbreviation ex_lost := (request ascii_fold ex_principal ex_update (ex_turn lost_reply) (ex_turn no_fault) ex_gw).

Lemma ex_lost_committed : is_none (s_intents ex_gw !! WorkEvents.ex_id 71) = true ∧ is_none (s_intents ex_lost.1 !! WorkEvents.ex_id 71) = false.
Proof. vm_compute. split; reflexivity. Qed.

Lemma gateway_effect_witness :
  effected ex_principal ex_update 5 ex_gw ex_lost.1.
Proof.
  destruct (gateway_effect ascii_fold ex_principal ex_update (ex_turn lost_reply) (ex_turn no_fault) ex_gw ex_gw_inv)
    as [(s0 & Hst & E)|(s0 & now & Ht & H)].
  - exfalso. destruct ex_lost_committed as [Hn Hc]. rewrite E in Hc.
    rewrite (ex_starts _ _ _ Hst), Hn in Hc. discriminate Hc.
  - destruct Ht as [[-> ->]|[-> ->]]; exact H.
Defined.

(** The retry of that update answers what was committed. *)
Lemma gateway_replay_witness :
  ∃ o, (request ascii_fold ex_principal ex_update (ex_turn lost_reply) (ex_turn no_fault) ex_gw).2 = 
      Ok (possibly update_voice ex_gw_work (WorkEvents.ex_id 71)) ∧
    request ascii_fold ex_principal ex_update (ex_turn no_fault) (ex_turn no_fault) ex_lost.1 = (ex_lost.1, Ok o) ∧ effect o = applied.
Proof.
  assert (Ho : ex_lost.2 = Ok (possibly update_voice ex_gw_work (WorkEvents.ex_id 71))) by (vm_compute; reflexivity).
  destruct (request_ended ascii_fold ex_principal ex_update (ex_turn lost_reply) (ex_turn no_fault) ex_gw ex_gw_inv)
    as (s0 & now & i & h & y & Hst & _ & He & _). rewrite (ex_starts _ _ _ Hst) in He.
  destruct (ended_commits _ _ _ _ _ _ _ _ He) as [E|[o Hc]].
  - exfalso. destruct ex_lost_committed as [Hn Hc]. rewrite E, Hn in Hc. discriminate Hc.
  - exists o. split; [exact Ho|]. split; [|apply (cm_outcome _ _ _ _ _ _ _ _ Hc)].
    assert (Hrep : ∀ s1, commits ascii_fold ex_principal ex_update now i ex_gw s1 o →
      request ascii_fold ex_principal ex_update (ex_turn no_fault) (ex_turn no_fault) s1 = (s1, Ok o)).
    { intros s1 Hc1. apply (gateway_replay ascii_fold ex_principal ex_update now i ex_gw s1 o (ex_turn no_fault) (ex_turn no_fault)
        ex_gw_inv Hc1 eq_refl eq_refl). intros q E. discriminate E. }
    exact (Hrep _ Hc).
Defined.

Definition ex_appended : list StoreCall := ex_gw_calls ++ [sc_request ex_principal ex_append false 5 (WorkEvents.ex_id 9)].

Lemma gateway_receipts_witness :
  ∃ row, s_intents (run_calls ascii_fold ex_appended (no_store ∅)) !! WorkEvents.ex_id 70 = Some row ∧
    is_some (receipt (outcome row)) = true ∧ backed (outcome row) (run_calls ascii_fold ex_appended (no_store ∅)).
Proof.
  destruct (s_intents (run_calls ascii_fold ex_appended (no_store ∅)) !! WorkEvents.ex_id 70) as [row|] eqn:E.
  - exists row. split; [reflexivity|]. split; [|exact (proj1 (gateway_receipts ascii_fold ∅ ex_appended [] _ row E))].
    vm_compute in E. injection E as <-. reflexivity.
  - vm_compute in E. discriminate E.
Defined.

(** A pull request of [alice] that [bob] accepted. *)
Definition ex_alice : Mailboxes.AgentMailbox :=
  Mailboxes.mkMailbox "alice" "Alice" (WorkEvents.ex_id 21) (principal_key ex_principal) "s1" 1 None.
Definition ex_bob : Mailboxes.AgentMailbox := Mailboxes.mkMailbox "bob" "Bob" (WorkEvents.ex_id 22) "other" "s2" 1 None.
Definition ex_pull : pull_key := ("switchstand"%string, 7).

Definition ex_give : PullRequestChange :=
  mkPullRequest "switchstand" 7 (Some 1) (Some "bob"%string) (Some (WorkEvents.ex_id 31)) "package".

Definition ex_mail : Messages.MsgDB :=
  Messages.mkMsgDB
    [Messages.mkMessage (Mailboxes.endpoint_id ex_bob) (WorkEvents.ex_id 30) "plain" Messages.result
      (acceptance_json ex_alice ex_bob ex_give 1) "d" None 4]
    [Messages.mkDelivery (WorkEvents.ex_id 31) (Mailboxes.endpoint_id ex_bob) (WorkEvents.ex_id 30) (Mailboxes.endpoint_id ex_alice)
      Messages.RECEIVED 1 None None None None None]
    false (Mailboxes.mkMailboxDB [ex_alice; ex_bob] ∅) (GrantState.mkDB ∅ ∅) (WorkState.mkStateDB [] []) [].

Definition ex_relate (op : Z) (v : Z) (a : RelationAction) (q : PullRequestChange) : StoreCall :=
  sc_request ex_principal (rq_relate (mkRelate (WorkEvents.ex_id op) ex_gw_work 1 (ex_gw_revision v)
    (mkRelation k_pull_request a None None None None None (Some q)) false) (Some ex_alice)) false 5 "".

Definition ex_pulls : list StoreCall :=
  ex_gw_calls ++ [sc_mail ex_mail; ex_relate 72 1 a_add (mkPullRequest "switchstand" 7 None None None "package")].

Lemma pull_ownership_witness :
  ∃ row row', pulls (run_calls ascii_fold ex_pulls (no_store ∅)) !! ex_pull = Some row ∧ pull_owner row = "alice"%string ∧
    pull_owner row' = "bob"%string ∧
    handed_over (ex_relate 73 2 a_set ex_give) (run_calls ascii_fold ex_pulls (no_store ∅)) ex_pull row row'.
Proof.
  destruct (pulls (run_calls ascii_fold ex_pulls (no_store ∅)) !! ex_pull) as [row|] eqn:E; [|vm_compute in E; discriminate E].
  destruct (calls_step ascii_fold ex_pulls (no_store ∅) (StoreInv_empty ascii_fold ∅)) as [_ Hs].
  destruct (pull_ownership ascii_fold (ex_relate 73 2 a_set ex_give) _ ex_pull row Hs E) as (row' & E' & H).
  vm_compute in E'. injection E' as <-. vm_compute in E. injection E as <-.
  eexists _, _. split; [reflexivity|]. split; [reflexivity|]. split; [|destruct H as [H|H]; [discriminate H | exact H]]. reflexivity.
Defined.
