(* ===== verification/GatewayAnswers.v ===== *)
(** * The answers of the gateways

    Every exception an attempt can raise is one that its gateway turns into an
    outcome, so a protected request is always answered - but for one kind of
    valid request, whose assertion escapes. *)

From S2P Require Import Prelude WeakestPre Tables Json Codec Contracts Grants GrantState MutationEffect.
From S2P Require Import Tracker WorkPolicy TrackerSystem HumanReviews Store PullRequests Gateways GatewayRuns.
From S2P Require WorkEvents WorkRelations Mailboxes Messages.

Local Open Scope Z_scope.

(** ** The exceptions of a computation in a state *)

Definition bad {A} (L : list exn_class) (r : res A) : Prop := ∀ e, r = Err e → exn_cls e ∈ L.

Lemma bad_ok {A} L (a : A) : bad L (Ok a).
Proof. by intros e [=]. Qed.
Lemma bad_raise {A} L c msg : c ∈ L → bad (A := A) L (raise c msg).
Proof. by intros H e [= <-]. Qed.
Lemma bad_raise_if L b c msg : c ∈ L → bad L (raise_if b c msg).
Proof. intros H. destruct b; [by apply bad_raise | by intros e [=]]. Qed.
Lemma bad_bind {A B} L (m : res A) (f : A → res B) : bad L m → (∀ a, bad L (f a)) → bad L (m ≫= f).
Proof. intros Hm Hf e He. apply bind_Err in He as [He|(a & _ & He)]; [by apply Hm | by eapply Hf]. Qed.

Ltac bad_steps :=
  repeat match goal with
  | |- bad _ (Ok _) => apply bad_ok
  | |- bad _ (mret _) => apply bad_ok
  | |- bad _ (raise _ _) => apply bad_raise; in_errors
  | |- bad _ (raise_if _ _ _) => apply bad_raise_if; in_errors
  | |- bad _ (_ ≫= _) => apply bad_bind; [|intros ?]
  | |- bad _ (match ?x with _ => _ end) => destruct x
  end.

Definition raises {S A} (L : list exn_class) (m : M S A) (s : S) : Prop := ∀ s' e, m s = (s', Err e) → exn_cls e ∈ L.

Section raises.
Context {S : Type} (L : list exn_class).

Lemma raises_bind {A B} (m : M S A) (f : A → M S B) s :
  raises L m s → (∀ s1 a, m s = (s1, Ok a) → raises L (f a) s1) → raises L (m ≫= f) s.
Proof.
  intros Hm Hf s' e. unfold mbind, M_bind. destruct (m s) as [s1 [a|e1]] eqn:E; [by apply Hf|].
  intros [= <- <-]. by eapply Hm.
Qed.
Lemma raises_fails {A} (m : M S A) s : fails L m → raises L m s.
Proof. intros H s' e. apply H. Qed.
Lemma raises_get {A} (f : S → M S A) s : raises L (f s) s → raises L (get_st ≫= f) s.
Proof. done. Qed.
Lemma raises_ret {A} (a : A) s : raises L (mret (M := M S) a) s.
Proof. by intros s' e. Qed.
Lemma raises_lift {A} (r : res A) s : bad L r → raises (S := S) L (lift r) s.
Proof. intros H s' e [= _ He]. by apply H. Qed.
Lemma raises_throw {A} c msg s : c ∈ L → raises (S := S) (A := A) L (throw c msg) s.
Proof. by intros H s' e [= _ <-]. Qed.
Lemma raises_throw_if b c msg s : c ∈ L → raises (S := S) L (throw_if b c msg) s.
Proof. intros H s' e. unfold throw_if. destruct b; [by intros [= _ <-] | done]. Qed.
Lemma raises_put s0 s : raises (S := S) L (put_st s0) s.
Proof. by intros s' e. Qed.
Lemma raises_transaction {A} (m : M S A) s : raises L m s → raises L (transaction m) s.
Proof. intros H s' e. unfold transaction. destruct (m s) as [s1 [a|e1]] eqn:E; [done|]. intros [= _ <-]. by eapply H. Qed.
End raises.

Lemma raises_on_tracker {A} L (m : M TrackerDB A) s : raises L m (s_tracker s) → raises L (on_tracker m) s.
Proof. intros H s' e. unfold on_tracker, via. destruct (m (s_tracker s)) as [t r] eqn:E. intros [= _ ->]. by eapply H. Qed.
Lemma raises_reading {A} L (f : StoreDB → res A) s : bad L (f s) → raises L (reading f) s.
Proof. intros H s' e [= _ He]. by apply H. Qed.
Lemma raises_grant_of {A} L p (f : option WorkGrant → M StoreDB A) s :
  (∀ g, raises L (f g) s) → raises L (grant_of p ≫= f) s.
Proof. intros H s' e. unfold mbind, M_bind. rewrite grant_of_run. apply H. Qed.

Ltac raises_steps :=
  repeat lazymatch goal with
  | |- raises _ (get_st ≫= _) _ => apply raises_get
  | |- raises _ (grant_of _ ≫= _) _ => apply raises_grant_of; intros ?
  | |- raises _ (_ ≫= _) _ => apply raises_bind; [|intros ? ? ?]
  | |- raises _ (mret _) _ => apply raises_ret
  | |- raises _ (put_st _) _ => apply raises_put
  | |- raises _ (throw _ _) _ => apply raises_throw; in_errors; fail
  | |- raises _ (throw_if _ _ _) _ => apply raises_throw_if; in_errors; fail
  | |- raises _ (refuse_if _) _ => apply raises_throw_if; in_errors; fail
  | |- raises _ (insert_intent _ _) _ => unfold insert_intent
  | |- raises _ (on_tracker _) _ => apply raises_on_tracker
  | |- raises _ (reading _) _ => apply raises_reading
  | |- raises _ (lift _) _ => apply raises_lift
  | |- raises _ (transaction _) _ => apply raises_transaction
  | |- raises _ (match ?x with _ => _ end) _ => destruct x eqn:?
  end.

(** What a gateway catches; an append does not catch [LookupError]. *)
Definition COMMON_ERRORS : list exn_class :=
  [ValueError; TypeError; SQLAlchemyError; IntegrityError; StaleWorkVersion; OperationConflictError; UnknownWorkError; StaleVersion].
Definition RELATION_ERRORS : list exn_class := LookupError :: COMMON_ERRORS.

Section answers.
Context (nfkc_casefold : string → string).

(** The rows that block a work name their operation and work. *)
Definition named (row : EffectRow) : Prop :=
  is_Some (Grants.operation_id (outcome row)) ∧ is_Some (Grants.work_id (outcome row)).

(** What an answer needs: the journal names what blocks the work, as
    [GrantState.prepare] does; a canonical relation names its target; a
    journaled intent is an object. *)
Definition answerable (r : Request) (s : StoreDB) : Prop :=
  (∀ w row, request_work r = Some w → blocked_row w s = Some row → named row) ∧
  match r with
  | rq_relate q _ =>
      (kind (rl_patch q) = k_dependency → is_Some (target_work_id (rl_patch q))) ∧
      (kind (rl_patch q) = k_placement → is_Some (project_id (rl_patch q)))
  | rq_project q => ∀ row, s_intents s !! pp_operation_id q = Some row → ∃ kvs, GrantState.intent row = JObj kvs
  | _ => True
  end.

Lemma bad_replay L key fp conflict row : ValueError ∈ L → bad L (replay_exact key fp conflict row).
Proof. intros H. unfold replay_exact, GuardOutcome_validate. repeat case_match; first [apply bad_ok | by apply bad_raise]. Qed.

Lemma bad_revision L w v : ValueError ∈ L → bad L (canonical_revision w v).
Proof. intros H. unfold canonical_revision. case_match; [by apply bad_raise | apply bad_ok]. Qed.

Lemma bad_blocked L o row : ValueError ∈ L → named row → bad L (refuse_blocked o row).
Proof.
  intros H [[op Ho] [w Hw]]. unfold refuse_blocked, GuardOutcome_validate. repeat case_match; try (by apply bad_raise).
  unfold with_blocked_effect. cbn. rewrite Ho, Hw. apply bad_ok.
Qed.

Lemma raises_append_locked i w v op st tx ca ac sg d :
  raises COMMON_ERRORS (WorkEvents.append_locked i w v op st tx ca ac sg) d.
Proof.
  unfold WorkEvents.append_locked, WorkEvents.insert_event, set_version, one_or_none. raises_steps; bad_steps.
Qed.

(** The checks all attempts share. *)
Ltac raises_checks Hb :=
  try first [apply bad_replay; in_errors; fail | apply bad_revision; in_errors; fail
            | apply bad_blocked; [in_errors; fail | by eapply Hb]].

Lemma raises_append p q now event_id s : answerable (rq_append q) s →
  raises COMMON_ERRORS (append_attempt p q now event_id) s.
Proof.
  intros [Hb _]. unfold append_attempt, append_commit. raises_steps; raises_checks Hb. apply raises_append_locked.
Qed.

Lemma bad_notes w n l : bad COMMON_ERRORS (agent_notes_fit w n l).
Proof.
  unfold agent_notes_fit, current_approved_baseline. bad_steps.
  intros e He. apply approved_v2_err in He. unfold REVIEW_ERRORS in He. rewrite !elem_of_cons, elem_of_nil in He.
  destruct He as [->|[->|[->|[->|[]]]]]; in_errors.
Qed.

Lemma bad_resultant p v w x : bad [ValueError] (check_resultant p v w x).
Proof. unfold check_resultant, _validate_semantic_write, validate_resultant_state, wait_check. bad_steps. Qed.

Lemma bad_patch v : bad COMMON_ERRORS (ScalarPatch_validate v).
Proof. unfold ScalarPatch_validate, patch_checks. bad_steps. Qed.

Lemma bad_root v : bad COMMON_ERRORS (_exact_root v).
Proof. unfold _exact_root. bad_steps. Qed.

Lemma bad_title v : bad COMMON_ERRORS (normalize_title nfkc_casefold v).
Proof. unfold normalize_title. bad_steps. Qed.

Lemma raises_replace item d : raises COMMON_ERRORS (replace_locked nfkc_casefold item) d.
Proof. unfold replace_locked. raises_steps. apply bad_title. Qed.

Lemma raises_update_with p q g w v s : raises COMMON_ERRORS (update_with nfkc_casefold p q g w v) s.
Proof.
  unfold update_with, update_commit. pose proof (bad_resultant (pu_patch q) v w (apply_values v w)) as Hbad.
  destruct (check_resultant _ _ _ _) as [[]|[cls msg]] eqn:E.
  - raises_steps; raises_checks True; first [apply bad_notes | apply bad_patch | apply bad_root | apply raises_replace].
  - specialize (Hbad _ eq_refl). cbn in Hbad. apply list_elem_of_singleton in Hbad as ->. raises_steps. apply bad_notes.
Qed.

Lemma raises_update p q now s : answerable (rq_update q) s →
  raises COMMON_ERRORS (update_attempt nfkc_casefold p q now) s.
Proof.
  intros [Hb _]. unfold update_attempt. raises_steps; raises_checks Hb; apply raises_update_with.
Qed.

(** The tracker's operations on relations; the walk over the parents ends. *)
Lemma raises_locked w v d : raises RELATION_ERRORS (WorkRelations._locked_version w v) d.
Proof. unfold WorkRelations._locked_version. raises_steps. Qed.

Lemma raises_bump w v d : raises RELATION_ERRORS (WorkRelations._bump w v) d.
Proof. unfold WorkRelations._bump, set_version. raises_steps. Qed.

Lemma raises_parent w p v d : WorkRelations.RelInv d → raises RELATION_ERRORS (WorkRelations.set_parent_in w p v) d.
Proof.
  intros Hd. unfold WorkRelations.set_parent_in, WorkRelations.check_parent. raises_steps; try apply raises_locked; try apply raises_bump.
  repeat match goal with
  | H : throw_if _ _ _ _ = _ |- _ => apply throw_if_Ok in H as [_ ->]
  | H : WorkRelations._locked_version _ _ _ = _ |- _ => apply WorkRelations._locked_version_Ok in H as (-> & _)
  end.
  exfalso. eapply WorkRelations.search_ends; [apply Hd | | eassumption]. unfold WorkRelations.walk_fuel. lia.
Qed.

Lemma raises_dependency w x add v d : raises RELATION_ERRORS (WorkRelations.change_dependency_in w x add v) d.
Proof. unfold WorkRelations.change_dependency_in. raises_steps; first [apply raises_locked | apply raises_bump]. Qed.

Lemma raises_membership w x add v d : raises RELATION_ERRORS (WorkRelations.change_project_membership_in w x add v) d.
Proof. unfold WorkRelations.change_project_membership_in. raises_steps; first [apply raises_locked | apply raises_bump]. Qed.

Lemma raises_change w a q c key op s : raises RELATION_ERRORS (change w a q c key op) s.
Proof. unfold change, ensure_pull, transfer. raises_steps. Qed.

Lemma raises_apply_relation p q caller v s : WorkRelations.RelInv (s_tracker s) → answerable (rq_relate q caller) s →
  kind (rl_patch q) ≠ k_assignee → raises RELATION_ERRORS (apply_relation p q caller v) s.
Proof.
  intros Hr (_ & Hd & Hp) Hk. unfold apply_relation. unfold set_version. raises_steps; try done.
  all: try (exfalso; first [by destruct (Hd eq_refl) | by destruct (Hp eq_refl)]).
  all: try first [apply raises_change | by apply raises_parent | apply raises_dependency | apply raises_membership].
Qed.

Lemma raises_moves q w s : raises RELATION_ERRORS (moves_review q w) s.
Proof. unfold moves_review. raises_steps; raises_checks True. Qed.

Lemma moves_review_state q w s s' b : moves_review q w s = (s', Ok b) → s' = s.
Proof.
  intros H. pose proof (moves_review_reads q w (λ _ s', s' = s) s ltac:(done)) as Hw. unfold wp in Hw. by rewrite H in Hw.
Qed.

Lemma raises_relation p q caller now s : AllReviews nfkc_casefold (human s) → answerable (rq_relate q caller) s →
  raises RELATION_ERRORS (relation_attempt p q caller now) s.
Proof.
  intros Hs Hq. pose proof (proj1 Hq) as Hb. unfold relation_attempt, relation_with, relation_commit. raises_steps; raises_checks Hb.
  - apply raises_moves.
  - repeat match goal with
    | H : lift _ _ = _ |- _ => apply lift_Ok in H as [_ ->]
    | H : moves_review _ _ _ = _ |- _ => apply moves_review_state in H as ->
    end.
    apply raises_apply_relation; [|done|].
    + destruct Hs as [Hs _]. apply (ri_tracker _ _ Hs).
    + intros E. rewrite E in *. discriminate.
Qed.

Lemma raises_project p q name again now s : answerable (rq_project q) s →
  raises COMMON_ERRORS (project_attempt p q name again now) s.
Proof.
  intros (_ & Hi). unfold project_attempt, project_commit, insert_project. raises_steps; raises_checks True.
  - destruct (Hi _ Heqo) as [kvs ->]. apply bad_ok.
  - unfold GuardOutcome_validate. repeat case_match; first [apply bad_ok | apply bad_raise; in_errors].
Qed.

Lemma raises_attempt p r again now event_id s : AllReviews nfkc_casefold (human s) → answerable r s →
  raises (match r with rq_relate _ _ => RELATION_ERRORS | _ => COMMON_ERRORS end)
    (request_attempt nfkc_casefold p r again now event_id) s.
Proof.
  intros Hs Hr. unfold request_attempt. apply raises_transaction. destruct r as [q|q|q caller|q].
  - by apply raises_append.
  - by apply raises_update.
  - by apply raises_relation.
  - destruct (project_named q); [by apply raises_project | apply raises_ret].
Qed.

Lemma raises_attempt_at t p r again s : StoreInv nfkc_casefold s → answerable r (before nfkc_casefold t s) →
  raises (match r with rq_relate _ _ => RELATION_ERRORS | _ => COMMON_ERRORS end) (attempt_at nfkc_casefold t p r again) s.
Proof.
  intros Hs Hr s' e. destruct (calls_step nfkc_casefold (t_others t) s Hs) as [_ [H0 _]]. fold (before nfkc_casefold t s) in H0.
  assert (Hin : ∀ c, c ∈ [SQLAlchemyError; IntegrityError] →
    c ∈ match r with rq_relate _ _ => RELATION_ERRORS | _ => COMMON_ERRORS end).
  { intros c. rewrite !elem_of_cons, elem_of_nil. intros [->|[->|[]]]; destruct r; in_errors. }
  unfold attempt_at. intros H. apply connected_cases in H as [[[= ->] _]|H].
  - apply Hin. in_errors.
  - unfold collided in H. destruct (t_collides t); [injection H as _ ->; apply Hin; in_errors|].
    symmetry in H. by eapply (raises_attempt p r again).
Qed.

(** The [except] clauses cover them. *)
Lemma common_handled e : exn_cls e ∈ COMMON_ERRORS →
  (∀ q, is_Some (match append_errors q e with Ok o => Some o | Err _ => None end)) ∧
  (∀ q, is_Some (match update_errors q e with Ok o => Some o | Err _ => None end)) ∧
  (∀ q, is_Some (match project_errors q e with Ok o => Some o | Err _ => None end)).
Proof.
  intros H. destruct e as [c msg]. unfold COMMON_ERRORS in H. cbn in H. rewrite !elem_of_cons, elem_of_nil in H.
  destruct H as [->|[->|[->|[->|[->|[->|[->|[->|[]]]]]]]]]; by split_and!; intros q; eexists.
Qed.

Lemma relation_handled e q : exn_cls e ∈ RELATION_ERRORS → ∃ o, relation_errors q e = Ok o.
Proof.
  intros H. destruct e as [c msg]. unfold RELATION_ERRORS, COMMON_ERRORS in H. cbn in H. rewrite !elem_of_cons, elem_of_nil in H.
  destruct H as [->|[->|[->|[->|[->|[->|[->|[->|[->|[]]]]]]]]]]; by eexists.
Qed.

Lemma handled_answers L (h : exn → res GuardOutcome) m s :
  raises L m s → (∀ e, exn_cls e ∈ L → ∃ o, h e = Ok o) → ∃ o, (handled h m s).2 = Ok o.
Proof.
  intros Hm Hh. unfold handled. destruct (m s) as [s1 [o|e]] eqn:E; [by exists o|]. cbn. by eapply Hh, Hm.
Qed.

Lemma raises_retried t t' p r s : StoreInv nfkc_casefold s →
  (∀ s0, starts nfkc_casefold t t' s s0 → answerable r s0) →
  raises (match r with rq_relate _ _ => RELATION_ERRORS | _ => COMMON_ERRORS end)
    (retried (attempt_at nfkc_casefold t p r false) (attempt_at nfkc_casefold t' p r true)) s.
Proof.
  intros Hs Hr s' e. unfold retried, catch.
  pose proof (raises_attempt_at t p r false s Hs (Hr _ ltac:(by right; left))) as H1.
  pose proof (attempt_ended nfkc_casefold t p r false s Hs) as H2. cbn zeta in H2.
  destruct (attempt_at nfkc_casefold t p r false s) as [s1 [o|e1]] eqn:E; [done|].
  destruct (existsb _ _) eqn:Hi; [|intros [= _ <-]; by eapply H1].
  assert (s1 = before nfkc_casefold t s) as -> by (inversion H2; subst; [done | discriminate Hi]).
  apply raises_attempt_at; [by apply calls_step | apply Hr; by right; right; left].
Qed.

(** C11: a protected request is always answered with an outcome: whatever the
    connection, the collisions and the other callers do, no exception leaves
    the gateway, once the journal names what blocks the work and a canonical
    relation names its target. *)
Theorem gateway_answers p r t t' s : StoreInv nfkc_casefold s →
  (∀ s0, starts nfkc_casefold t t' s s0 → answerable r s0) →
  ∃ o, (request nfkc_casefold p r t t' s).2 = Ok o.
Proof.
  intros Hs Hr.
  pose proof (raises_retried t t' p r s Hs Hr) as Hret.
  destruct r as [q|q|q caller|q]; cbn [request].
  - apply (handled_answers COMMON_ERRORS).
    + exact (raises_attempt_at t p (rq_append q) false s Hs (Hr _ ltac:(by right; left))).
    + intros e He. destruct (proj1 (common_handled e He) q) as [o Ho]. destruct (append_errors q e); [by eexists | done].
  - apply (handled_answers COMMON_ERRORS); [exact Hret|].
    intros e He. destruct (proj1 (proj2 (common_handled e He)) q) as [o Ho]. destruct (update_errors q e); [by eexists | done].
  - apply (handled_answers RELATION_ERRORS); [exact Hret|]. intros e He. by apply relation_handled.
  - unfold protected_project_create. destruct (project_named q); [|by eexists].
    apply (handled_answers COMMON_ERRORS); [exact Hret|].
    intros e He. destruct (proj2 (proj2 (common_handled e He)) q) as [o Ho]. destruct (project_errors q e); [by eexists | done].
Qed.

Lemma moves_other q w s : kind (rl_patch q) ≠ k_parent → moves_review q w s = (s, Ok false).
Proof.
  intros Hk. unfold moves_review, mbind, M_bind, get_st. rewrite (proj2 (eqb_false (kind (rl_patch q)) k_parent)) by done. done.
Qed.

Lemma authorizes_relates p q caller now g : authorizes p (rq_relate q caller) now g = true →
  refuse_grant p now (rl_work_id q) work_relate (rl_grant_version q) relation_qualification qualified_strictly
    "relation_not_qualified_for_this_surface" (relation_guard q) (Some g) = inl g.
Proof.
  unfold authorizes, refuse_grant. cbn. rewrite !andb_true_iff. intros ((((H1 & H2) & H3) & H4) & H5).
  rewrite Z.eqb_eq in H3. by rewrite H1, H2, H5, H3, Z.eqb_refl, H4.
Qed.

(** One kind of valid request is not answered: a placement in a project of
    the provider passes every check of the canonical gateway, whose assertion
    that the project is a canonical one then escapes. *)
Theorem provider_placement_escapes p q caller t t' s g v :
  let s0 := before nfkc_casefold t s in
  StoreInv nfkc_casefold s → t_fault t = no_fault → t_collides t = false →
  kind (rl_patch q) = k_placement → project_id (rl_patch q) = None → target_work_id (rl_patch q) = None →
  s_intents s0 !! rl_operation_id q = None →
  work_grants (s_grants s0) !! principal_key p = Some (Some g) → authorizes p (rq_relate q caller) (t_now t) g = true →
  blocked_row (rl_work_id q) s0 = None → version_of (rl_work_id q) (s_tracker s0) = Some v →
  canonical_revision (rl_work_id q) v = Ok (rl_observed_revision q) →
  rl_confirm q = true →
  request nfkc_casefold p (rq_relate q caller) t t' s = (s0, raise AssertionError "").
Proof.
  intros s0 Hs Hf Hc Hk Hp Ht Hj Hg Ha Hb Hv Hrev Hconf.
  assert (Hatt : request_attempt nfkc_casefold p (rq_relate q caller) false (t_now t) (t_event t) s0 = (s0, raise AssertionError "")).
  { unfold request_attempt, transaction, relation_attempt. unfold mbind at 1, M_bind at 1. rewrite grant_of_run.
    unfold mbind at 1, M_bind at 1, get_st. unfold exact_row. rewrite Hj, Hg. cbn [default from_option id]. 
    rewrite (authorizes_relates _ _ _ _ _ Ha), Hb. unfold version_of in Hv. unfold work_of.
    destruct (works (s_tracker s0) !! rl_work_id q) as [row|]; [|done]. cbn in Hv |- *. injection Hv as Hv.
    rewrite Hv, Hrev. unfold mbind at 1, M_bind at 1, lift. rewrite eqb_refl. cbn [negb]. unfold relation_with.
    rewrite Hk. cbn [mem existsb eqb negb]. rewrite (proj2 (negb_false_iff _)) by reflexivity.
    unfold mbind at 1, M_bind at 1. rewrite moves_other by (by rewrite Hk). unfold mbind at 1, M_bind at 1, get_st.
    rewrite Ht, Hconf. cbn [negb]. rewrite andb_false_r. unfold mbind at 1, M_bind at 1. unfold apply_relation. by rewrite Hk, Hp. }
  cbn [request]. unfold protected_relation, handled, retried, catch, attempt_at. rewrite Hf, Hc. unfold collided, connected.
  fold s0. rewrite Hatt. done.
Qed.
End answers.

(** ** Instances *)

#[local] Abbreviation ex_gw := (run_calls ascii_fold ex_gw_calls (no_store ∅)).

Lemma ex_gw_unblocked : blocked_row ex_gw_work ex_gw = None.
Proof. vm_compute. reflexivity. Qed.

Lemma gateway_answers_witness :
  ∃ o, (request ascii_fold ex_principal ex_update (ex_turn lost_reply) (ex_turn no_fault) ex_gw).2 = Ok o ∧ effect o = unknown.
Proof.
  destruct (gateway_answers ascii_fold ex_principal ex_update (ex_turn lost_reply) (ex_turn no_fault) ex_gw ex_gw_inv) as [o Ho].
  - intros s0 ->%ex_starts. split; [|exact I]. intros w row [= <-] Hb. rewrite ex_gw_unblocked in Hb. discriminate Hb.
  - exists o. split; [exact Ho|]. vm_compute in Ho. injection Ho as <-. reflexivity.
Defined.

(** A valid placement in a project of the provider. *)
Definition ex_placement : ProtectedRelation :=
  mkRelate (WorkEvents.ex_id 74) ex_gw_work 1 (ex_gw_revision 1)
    (mkRelation k_placement a_add None None None (Some "12"%string) None None) true.

Lemma provider_placement_escapes_witness :
  ProtectedRelation_validate ex_placement = Ok ex_placement ∧
  request ascii_fold ex_principal (rq_relate ex_placement None) (ex_turn no_fault) (ex_turn no_fault) ex_gw =
    (ex_gw, raise AssertionError "").
Proof.
  split; [reflexivity|].
  apply (provider_placement_escapes ascii_fold ex_principal ex_placement None (ex_turn no_fault) (ex_turn no_fault) ex_gw
    ex_gw_grant 1 ex_gw_inv); try reflexivity; vm_compute; reflexivity.
Defined.
