(* ===== verification/TaskRuns.v ===== *)
(** * Task runs ([task_runs.py], and the two tools of [mcp.py] over it)

    A durable request that a task be run, its binding to one managed run, and
    the results that runs report.  Every operation locks the row of the
    request it is about, which is the atomicity of the operation; the one read
    that may miss a concurrent row has a flag.  [func.now()] is an argument;
    contracts are JSON without floats. *)

From S2P Require Import Prelude WeakestPre Tables Json Codec Contracts Grants GrantState.
From S2P Require Import Tracker HumanReviews Store.
From S2P Require PriorityClaims HumanTrajectory Messages WorkState.

Local Open Scope Z_scope.

Definition REQUEST_NAMESPACE : uuid := "286bcc60-8887-5b76-97c1-19c18484df74".
Definition REQUEST_OPERATION_NAMESPACE : uuid := "8a598960-f8b0-57f2-95ba-f86fc24c436c".

(** ** Models *)

Inductive TaskKind := INVESTIGATION | VALIDATION | IMPLEMENTATION.
Inductive Continuation := START | CONTINUE | TAKEOVER.

#[export] Instance TaskKind_eq_dec : EqDecision TaskKind.
Proof. solve_decision. Defined.
#[export] Instance Continuation_eq_dec : EqDecision Continuation.
Proof. solve_decision. Defined.

Definition task_kind_text (k : TaskKind) : string :=
  match k with
  | INVESTIGATION => "INVESTIGATION" | VALIDATION => "VALIDATION" | IMPLEMENTATION => "IMPLEMENTATION"
  end.
Definition continuation_text (c : Continuation) : string :=
  match c with START => "START" | CONTINUE => "CONTINUE" | TAKEOVER => "TAKEOVER" end.

(** [AgentTaskRequest] without [api_version]. *)
Record AgentTaskRequest := mkAgentTask {
  ag_execution_work_id : uuid; ag_observed_revision : string; ag_task_kind : TaskKind; ag_objective : string;
  ag_result_contract : json; ag_continuation : Continuation; ag_candidate_ref : option string }.

(** [ImplementationTaskRequest]; its kind and continuation are constants. *)
Record ImplementationTaskRequest := mkImplementationTask {
  im_execution_work_id : uuid; im_observed_revision : string; im_objective : string; im_result_contract : json;
  im_authorization_ref : string; im_send_authority_ref : string; im_candidate_ref : option string }.

Inductive TaskIntent := agent_intent (q : AgentTaskRequest) | implementation_intent (q : ImplementationTaskRequest).

Definition length_in (lo hi : Z) (s : string) : bool := (lo <=? py_len s) && (py_len s <=? hi).
Definition opt_length_in (lo hi : Z) (o : option string) : bool :=
  match o with Some s => length_in lo hi s | None => true end.

(** [bounded_contract]: the encoding is ASCII. *)
Definition bounded_contract (contract : json) : res unit :=
  match contract with
  | JObj _ => raise_if (16384 <? py_len (dumps_compact contract)) ValueError "result contract exceeds 16384 bytes"
  | _ => raise ValueError "validation error"
  end.

(** [AgentTaskRequest(...)] *)
Definition agent_validate (q : AgentTaskRequest) : res AgentTaskRequest :=
  raise_if (negb (length_in 1 512 (ag_observed_revision q) && mem (ag_task_kind q) [INVESTIGATION; VALIDATION]
      && length_in 1 8000 (ag_objective q) && opt_length_in 1 1024 (ag_candidate_ref q))) ValueError "validation error";;
  bounded_contract (ag_result_contract q);;
  Ok q.

(** [ImplementationTaskRequest(...)] *)
Definition implementation_validate (q : ImplementationTaskRequest) : res ImplementationTaskRequest :=
  raise_if (negb (length_in 1 512 (im_observed_revision q) && length_in 1 8000 (im_objective q)
      && length_in 1 1024 (im_authorization_ref q) && length_in 1 1024 (im_send_authority_ref q)
      && opt_length_in 1 1024 (im_candidate_ref q))) ValueError "validation error";;
  bounded_contract (im_result_contract q);;
  Ok q.

Definition intent_validate (i : TaskIntent) : res TaskIntent :=
  match i with
  | agent_intent q => agent_intent <$> agent_validate q
  | implementation_intent q => implementation_intent <$> implementation_validate q
  end.

(** [model_dump(mode="json")] *)
Definition intent_json (i : TaskIntent) : json :=
  match i with
  | agent_intent q =>
      JObj [("api_version", JStr "1"); ("execution_work_id", JStr (ag_execution_work_id q));
        ("observed_revision", JStr (ag_observed_revision q)); ("task_kind", JStr (task_kind_text (ag_task_kind q)));
        ("objective", JStr (ag_objective q)); ("result_contract", ag_result_contract q);
        ("continuation", JStr (continuation_text (ag_continuation q))); ("candidate_ref", jopt (ag_candidate_ref q))]
  | implementation_intent q =>
      JObj [("api_version", JStr "1"); ("execution_work_id", JStr (im_execution_work_id q));
        ("observed_revision", JStr (im_observed_revision q)); ("task_kind", JStr "IMPLEMENTATION");
        ("objective", JStr (im_objective q)); ("result_contract", im_result_contract q);
        ("authorization_ref", JStr (im_authorization_ref q)); ("send_authority_ref", JStr (im_send_authority_ref q));
        ("continuation", JStr "START"); ("candidate_ref", jopt (im_candidate_ref q))]
  end%string.

(** [_digest] *)
Definition _digest (requester : uuid) (i : TaskIntent) : string :=
  sha256_hex (dumps_compact (JObj [("requester_work_id", JStr requester); ("request", intent_json i)])).

(** [task_request_operation_id] *)
Definition task_request_operation_id (requester : uuid) (q : AgentTaskRequest) : uuid :=
  uuid5 REQUEST_OPERATION_NAMESPACE (_digest requester (agent_intent q)).

(** [TaskRunRequest] *)
Record TaskRunRequest := mkTaskRun {
  request_id : uuid; requester_work_id : uuid; execution_work_id : uuid; observed_revision : string;
  task_kind : TaskKind; objective : string; result_contract : json; authorization_ref : option string;
  send_authority_ref : option string; continuation : Continuation; candidate_ref : option string;
  terminal_result_id : option uuid }.

(** [AgentTaskResult] without [api_version]. *)
Record AgentTaskResult := mkTaskResult { ar_outcome : string; ar_summary : string; ar_evidence_refs : list string }.

(** [AgentTaskResult(...)] with [bounded_evidence]. *)
Definition result_validate (r : AgentTaskResult) : res AgentTaskResult :=
  raise_if (negb (length_in 1 128 (ar_outcome r) && length_in 1 8000 (ar_summary r)
      && (Z.of_nat (length (ar_evidence_refs r)) <=? 64))) ValueError "validation error";;
  raise_if (existsb (λ v, negb (length_in 1 2048 v)) (ar_evidence_refs r)) ValueError
    "evidence references must contain 1..2048 characters";;
  Ok r.

(** [_result_digest] *)
Definition _result_digest (request run : uuid) (r : AgentTaskResult) : string :=
  sha256_hex (dumps_compact (JObj [("request_id", JStr request); ("run_id", JStr run);
    ("result", JObj [("api_version", JStr "1"); ("outcome", JStr (ar_outcome r)); ("summary", JStr (ar_summary r));
       ("evidence_refs", jstrs (ar_evidence_refs r))])])%string).

Inductive TaskStatus := ts_ok | ts_stale | ts_denied | ts_conflict | ts_unknown.

#[export] Instance TaskStatus_eq_dec : EqDecision TaskStatus.
Proof. solve_decision. Defined.

Record TaskRunResult := mkRunResult {
  result_id : uuid; rr_request_id : uuid; rr_run_id : uuid; rr_result : AgentTaskResult }.

Record TaskRunRequestResult := mkRequestResult {
  q_status : TaskStatus; q_request : option TaskRunRequest; q_reason : option string }.
Record TaskRunBindResult := mkBindResult {
  b_status : TaskStatus; b_execution : option (uuid * uuid); b_reason : option string }.
Record TaskRunResultResult := mkResultResult {
  s_status : TaskStatus; s_result : option TaskRunResult; s_terminal : bool; s_reason : option string }.

Definition request_failed (s : TaskStatus) (reason : string) : TaskRunRequestResult := mkRequestResult s None (Some reason).
Definition request_ok (r : TaskRunRequest) : TaskRunRequestResult := mkRequestResult ts_ok (Some r) None.
Definition bind_failed (s : TaskStatus) (reason : string) : TaskRunBindResult := mkBindResult s None (Some reason).
Definition result_failed (s : TaskStatus) (view : option TaskRunResult) (reason : string) : TaskRunResultResult :=
  mkResultResult s view false (Some reason).

(** ** Tables *)

(** A row of [task_run_requests]. *)
Record TaskRow := mkTaskRow {
  w_request_id : uuid; w_operation_id : uuid; w_requester : uuid; w_execution : uuid; w_revision : string;
  w_kind : TaskKind; w_continuation : Continuation; w_candidate : option string; w_objective : string;
  w_contract : json; w_authorization : option string; w_send_authority : option string; w_digest : string;
  w_terminal : option uuid; w_created_at : Z }.

Record ExecutionRow := mkExecution { x_request : uuid; x_run : uuid; x_bound_at : Z }.

Record ResultRow := mkResultRow {
  v_id : uuid; v_request : uuid; v_run : uuid; v_result : AgentTaskResult; v_digest : string; v_created_at : Z }.

(** The tables of the gateways, the claims, the trajectories, and the three
    tables of the task runs. *)
Record TaskDB := mkTaskDB {
  base : StoreDB; claims : list PriorityClaims.PriorityClaim;
  trajectories : list HumanTrajectory.HumanTrajectoryRevision; task_requests : list TaskRow;
  executions : list ExecutionRow; results : list ResultRow }.

Definition with_requests (l : list TaskRow) (d : TaskDB) : TaskDB :=
  mkTaskDB (base d) (claims d) (trajectories d) l (executions d) (results d).
Definition with_executions (l : list ExecutionRow) (d : TaskDB) : TaskDB :=
  mkTaskDB (base d) (claims d) (trajectories d) (task_requests d) l (results d).
Definition with_results (l : list ResultRow) (d : TaskDB) : TaskDB :=
  mkTaskDB (base d) (claims d) (trajectories d) (task_requests d) (executions d) l.

Definition is_request (id : uuid) (r : TaskRow) : bool := eqb (w_request_id r) id.
Definition is_operation (op : uuid) (r : TaskRow) : bool := eqb (w_operation_id r) op.
Definition is_execution (request run : uuid) (x : ExecutionRow) : bool := eqb (x_request x) request && eqb (x_run x) run.

Definition select_request (id : uuid) : M TaskDB (option TaskRow) := λ d,
  (d, one_or_none (List.filter (is_request id) (task_requests d))).
Definition select_operation (op : uuid) : M TaskDB (option TaskRow) := λ d,
  (d, one_or_none (List.filter (is_operation op) (task_requests d))).
Definition select_result (id : uuid) : M TaskDB (option ResultRow) := λ d,
  (d, one_or_none (List.filter (λ v, eqb (v_id v) id) (results d))).

(** ** Rows that are read *)

(** The model a stored row stands for. *)
Definition row_intent (r : TaskRow) : res TaskIntent :=
  match w_kind r with
  | IMPLEMENTATION =>
      match w_authorization r, w_send_authority r with
      | Some a, Some s =>
          implementation_intent <$> implementation_validate
            (mkImplementationTask (w_execution r) (w_revision r) (w_objective r) (w_contract r) a s (w_candidate r))
      | _, _ => raise ValueError "validation error"
      end
  | k =>
      raise_if (is_some (w_authorization r) || is_some (w_send_authority r)) ValueError
        "stored generic task-run request has authority references";;
      agent_intent <$> agent_validate
        (mkAgentTask (w_execution r) (w_revision r) k (w_objective r) (w_contract r) (w_continuation r) (w_candidate r))
  end.

(** [TaskRunRequest(..., **payload.model_dump(...))] *)
Definition run_request (id requester : uuid) (terminal : option uuid) (i : TaskIntent) : TaskRunRequest :=
  match i with
  | agent_intent q =>
      mkTaskRun id requester (ag_execution_work_id q) (ag_observed_revision q) (ag_task_kind q) (ag_objective q)
        (ag_result_contract q) None None (ag_continuation q) (ag_candidate_ref q) terminal
  | implementation_intent q =>
      mkTaskRun id requester (im_execution_work_id q) (im_observed_revision q) IMPLEMENTATION (im_objective q)
        (im_result_contract q) (Some (im_authorization_ref q)) (Some (im_send_authority_ref q)) START
        (im_candidate_ref q) terminal
  end.

(** [validated_task_run_request] *)
Definition validated_task_run_request (r : TaskRow) (d : TaskDB) : res TaskRunRequest :=
  payload ← row_intent r;
  raise_if (negb (eqb (w_digest r) (_digest (w_requester r) payload))) ValueError
    "stored task-run request digest mismatch";;
  match w_terminal r with
  | None => Ok tt
  | Some result =>
      owner ← one_or_none (List.filter (λ v, eqb (v_id v) result) (results d));
      raise_if (negb (eqb (v_request <$> owner) (Some (w_request_id r)))) ValueError
        "stored task-run terminal result owner mismatch"
  end;;
  Ok (run_request (w_request_id r) (w_requester r) (w_terminal r) payload).

Definition validated (r : TaskRow) : M TaskDB TaskRunRequest := λ d, (d, validated_task_run_request r d).

(** [validated_task_run_result] *)
Definition validated_task_run_result (v : ResultRow) : res TaskRunResult :=
  payload ← result_validate (v_result v);
  raise_if (negb (eqb (v_digest v) (_result_digest (v_request v) (v_run v) payload))) ValueError
    "stored task-run result digest mismatch";;
  Ok (mkRunResult (v_id v) (v_request v) (v_run v) payload).

(** ** Operations *)

Definition intent_execution (i : TaskIntent) : uuid :=
  match i with agent_intent q => ag_execution_work_id q | implementation_intent q => im_execution_work_id q end.
Definition intent_revision (i : TaskIntent) : string :=
  match i with agent_intent q => ag_observed_revision q | implementation_intent q => im_observed_revision q end.
Definition intent_continuation (i : TaskIntent) : Continuation :=
  match i with agent_intent q => ag_continuation q | implementation_intent _ => START end.

(** The row of a new request. *)
Definition intent_row (requester op : uuid) (i : TaskIntent) (now : Z) : TaskRow :=
  let id := uuid5 REQUEST_NAMESPACE op in
  let digest := _digest requester i in
  match i with
  | agent_intent q =>
      mkTaskRow id op requester (ag_execution_work_id q) (ag_observed_revision q) (ag_task_kind q) (ag_continuation q)
        (ag_candidate_ref q) (ag_objective q) (ag_result_contract q) None None digest None now
  | implementation_intent q =>
      mkTaskRow id op requester (im_execution_work_id q) (im_observed_revision q) IMPLEMENTATION START
        (im_candidate_ref q) (im_objective q) (im_result_contract q) (Some (im_authorization_ref q))
        (Some (im_send_authority_ref q)) digest None now
  end.

(** A text that the columns refuse. *)
Definition request_unstorable (r : TaskRow) : bool :=
  existsb has_nul [w_revision r; w_objective r; or_empty (w_candidate r); or_empty (w_authorization r);
    or_empty (w_send_authority r)] || json_nul (w_contract r).

(** The [CHECK] constraints. *)
Definition request_checks (r : TaskRow) : bool :=
  truthy (w_revision r) && truthy (w_objective r) && negb (eqb (w_candidate r) (Some ""%string))
  && (py_len (w_digest r) =? 64)
  && (if eqb (w_kind r) IMPLEMENTATION then is_some (w_authorization r) && is_some (w_send_authority r)
      else is_none (w_authorization r) && is_none (w_send_authority r)).

Definition has_handle (work : uuid) (d : TaskDB) : bool :=
  existsb (WorkState.has_id work) (WorkState.work_handles (s_handles (base d))).

(** [insert(task_run_requests)... .on_conflict_do_nothing().returning(...)],
    with the foreign keys. *)
Definition insert_request (r : TaskRow) : M TaskDB (option TaskRow) :=
  refuse_if (request_unstorable r);;
  throw_if (negb (request_checks r)) IntegrityError "check constraint";;
  d ← get_st;
  if existsb (λ r', is_request (w_request_id r) r' || is_operation (w_operation_id r) r') (task_requests d)
  then mret None
  else
    throw_if (negb (has_handle (w_requester r) d && has_handle (w_execution r) d)) IntegrityError "work_handles";;
    put_st (with_requests (task_requests d ++ [r]) d);;
    mret (Some r).

(** What an operation that is already stored gets. *)
Definition replayed_request (digest : string) (row : TaskRow) : M TaskDB TaskRunRequestResult :=
  verified ← validated row;
  mret (if negb (eqb (w_digest row) digest) then request_failed ts_conflict "operation_identity_conflict"
        else request_ok verified).

(** From the locked work to the stored row. *)
Definition admit_request (requester op : uuid) (i : TaskIntent) (now : Z) (work : CurrentWork)
  : M TaskDB TaskRunRequestResult :=
  actual ← lift (canonical_revision (work_id work) (row_version work));
  if negb (eqb actual (intent_revision i)) then mret (request_failed ts_stale "source_revision_changed")
  else if negb (eqb (intent_continuation i) START) then mret (request_failed ts_denied "continuation_not_bound")
  else
    inserted ← insert_request (intent_row requester op i now);
    match inserted with
    | Some row => verified ← validated row; mret (request_ok verified)
    | None =>
        replay ← select_operation op;
        match replay with
        | None => mret (request_failed ts_conflict "operation_identity_conflict")
        | Some row => replayed_request (_digest requester i) row
        end
    end.

(** [request_in_transaction]; [raced] when its first read came before the
    commit of a concurrent request with the same operation. *)
Definition request_in_transaction (raced : bool) (requester op : uuid) (i : TaskIntent) (now : Z)
  : M TaskDB TaskRunRequestResult :=
  replay ← (if raced then mret None else select_operation op);
  match replay with
  | Some row => replayed_request (_digest requester i) row
  | None =>
      d ← get_st;
      if negb (has_handle requester d) then mret (request_failed ts_denied "requester_work_not_found")
      else
        match item_of <$> works (s_tracker (base d)) !! intent_execution i with
        | None => mret (request_failed ts_denied "execution_work_not_found")
        | Some work => admit_request requester op i now work
        end
  end.

Definition state_unavailable : exn → M TaskDB TaskRunRequestResult :=
  λ _, mret (request_failed ts_unknown "state_unavailable").

(** [TaskRunState.request] *)
Definition request (raced : bool) (requester op : uuid) (i : TaskIntent) (now : Z) : M TaskDB TaskRunRequestResult :=
  catch (transaction (request_in_transaction raced requester op i now)) [SQLAlchemyError; TypeError; ValueError]
    state_unavailable.

(** A row, locked and verified. *)
Definition answer_row (row : option TaskRow) : M TaskDB TaskRunRequestResult :=
  match row with
  | None => mret (request_failed ts_denied "request_not_found")
  | Some r => verified ← validated r; mret (request_ok verified)
  end.

(** [get_operation_in_transaction] *)
Definition get_operation_in_transaction (op : uuid) : M TaskDB TaskRunRequestResult :=
  row ← select_operation op; answer_row row.

(** [get_implementation_in_transaction] *)
Definition is_implementation (package : uuid) (revision authorization : string) (r : TaskRow) : bool :=
  eqb (w_requester r) package && eqb (w_execution r) package && eqb (w_revision r) revision
  && eqb (w_kind r) IMPLEMENTATION && eqb (w_authorization r) (Some authorization).

Definition get_implementation_in_transaction (package : uuid) (revision authorization : string)
  : M TaskDB TaskRunRequestResult := λ d,
  match one_or_none (List.filter (is_implementation package revision authorization) (task_requests d)) with
  | Ok row => answer_row row d
  | Err e => (d, Err e)
  end.

(** [TaskRunState.get] *)
Definition get (id : uuid) : M TaskDB TaskRunRequestResult :=
  catch (row ← select_request id; answer_row row) [SQLAlchemyError; TypeError; ValueError] state_unavailable.

(** [terminal_evidence] *)
Definition terminal_evidence (result : uuid) : M TaskDB (option (TaskRunRequest * TaskRunResult)) :=
  catch (
    row ← select_result result;
    match row with
    | None => mret None
    | Some v =>
        view ← lift (validated_task_run_result v);
        row ← select_request (rr_request_id view);
        match row with
        | None => mret None
        | Some r =>
            verified ← validated r;
            mret (if negb (eqb (terminal_result_id verified) (Some (result_id view))) then None
                  else Some (verified, view))
        end
    end) [SQLAlchemyError; TypeError; ValueError] (λ _, mret None).

(** *** Binding *)

(** [insert(task_run_executions)...on_conflict_do_nothing()]; whether it
    inserted. *)
Definition insert_execution (request run : uuid) (now : Z) : M TaskDB bool := λ d,
  if existsb (λ x, is_execution request run x || eqb (x_run x) run) (executions d) then (d, Ok false)
  else (with_executions (executions d ++ [mkExecution request run now]) d, Ok true).

Section binding.
(** Whether an implementation request may still start: the answer of
    [ImplementationRequestState.request] for a current request, [None] for
    REPLAYED. *)
Context (eligible : TaskRow → TaskRunRequest → TaskDB → res (option (TaskStatus * string))).

(** [bind_start]; the receipt's work and run. *)
Definition bind_start (id active run : uuid) (now : Z) : M TaskDB TaskRunBindResult :=
  catch (transaction (
    row ← select_request id;
    match row with
    | None => mret (bind_failed ts_denied "request_not_found")
    | Some r =>
        verified ← validated r;
        if negb (eqb (execution_work_id verified) active) then mret (bind_failed ts_denied "execution_work_mismatch")
        else if negb (eqb (continuation verified) START) then mret (bind_failed ts_denied "continuation_not_bound")
        else
          d ← get_st;
          current ← lift (one_or_none (List.filter (λ x, eqb (x_request x) id) (executions d)));
          if match current with Some x => negb (eqb (x_run x) run) | None => false end
          then mret (bind_failed ts_denied "execution_already_bound")
          else
            refusal ← (if eqb (task_kind verified) IMPLEMENTATION then lift (eligible r verified d) else mret None);
            match refusal with
            | Some (s, reason) => mret (bind_failed s reason)
            | None =>
                if is_some current then mret (mkBindResult ts_ok (Some (id, run)) None)
                else
                  inserted ← insert_execution id run now;
                  mret (if (inserted : bool) then mkBindResult ts_ok (Some (id, run)) None
                        else bind_failed ts_conflict "run_already_bound")
            end
    end))
    [SQLAlchemyError; OSError; TypeError; ValueError; KeyError]
    (λ _, mret (bind_failed ts_unknown "state_unavailable")).
End binding.

(** *** Results *)

Definition result_unstorable (r : AgentTaskResult) : bool :=
  existsb has_nul (ar_outcome r :: ar_summary r :: ar_evidence_refs r).

(** [insert(task_run_results)...returning(...)]; the checks and the foreign
    key hold by what precedes it. *)
Definition insert_result (v : ResultRow) : M TaskDB ResultRow :=
  refuse_if (result_unstorable (v_result v));;
  d ← get_st;
  throw_if (existsb (λ v', eqb (v_id v') (v_id v)) (results d)) IntegrityError "task_run_results_pkey";;
  put_st (with_results (results d ++ [v]) d);;
  mret v.

(** [update(task_run_requests)...values(terminal_result_id=...)] *)
Definition with_terminal (result : uuid) (r : TaskRow) : TaskRow :=
  mkTaskRow (w_request_id r) (w_operation_id r) (w_requester r) (w_execution r) (w_revision r) (w_kind r)
    (w_continuation r) (w_candidate r) (w_objective r) (w_contract r) (w_authorization r) (w_send_authority r)
    (w_digest r) (Some result) (w_created_at r).

Definition set_terminal (id result : uuid) : M TaskDB unit := λ d,
  (with_requests ((λ r, if is_request id r then with_terminal result r else r) <$> task_requests d) d, Ok tt).

(** The result becomes the terminal one when the run is current and no other
    is. *)
Definition settle_result (verified : TaskRunRequest) (view : TaskRunResult) (result : uuid)
    (rt : Messages.RuntimeCurrentness) : M TaskDB TaskRunResultResult :=
  match Messages.rt_current rt with
  | None => mret (result_failed ts_unknown (Some view) "runtime_currentness_unavailable")
  | Some current =>
      if negb (eqb current (Messages.rt_generation rt)) then mret (result_failed ts_stale (Some view) "run_superseded")
      else
        match terminal_result_id verified with
        | Some t =>
            mret (if negb (eqb t result) then result_failed ts_conflict (Some view) "terminal_result_conflict"
                  else mkResultResult ts_ok (Some view) true None)
        | None => set_terminal (request_id verified) result;; mret (mkResultResult ts_ok (Some view) true None)
        end
  end.

(** The transaction of [submit_result], for the run its runtime names.  Its
    read of a result under this identifier sees every committed row; where the
    code's read misses one of another request, the insertion fails on the key
    and the answer is [unknown], here [conflict]; neither changes anything. *)
Definition submit_locked (id result run : uuid) (rt : Messages.RuntimeCurrentness) (r : AgentTaskResult) (now : Z)
  : M TaskDB TaskRunResultResult :=
  let digest := _result_digest id run r in
  row ← select_request id;
  match row with
  | None => mret (result_failed ts_denied None "request_not_found")
  | Some row =>
      verified ← validated row;
      d ← get_st;
      execution ← lift (one_or_none (List.filter (is_execution id run) (executions d)));
      if is_none execution then mret (result_failed ts_denied None "execution_not_bound")
      else if negb (length (List.filter (λ x, eqb (x_request x) id) (executions d)) =? 1)%nat
      then mret (result_failed ts_unknown None "state_unavailable")
      else
        existing ← select_result result;
        if match existing with Some v => negb (eqb (v_digest v) digest) | None => false end
        then mret (result_failed ts_conflict None "result_identity_conflict")
        else
          stored ← match existing with
                   | Some v => mret v
                   | None => insert_result (mkResultRow result id run r digest now)
                   end;
          view ← lift (validated_task_run_result stored);
          settle_result verified view result rt
  end.

(** [submit_result] *)
Definition submit_result (id result : uuid) (rt : Messages.RuntimeCurrentness) (r : AgentTaskResult) (now : Z)
  : M TaskDB TaskRunResultResult :=
  catch (
    run ← lift (match UUID (codes (Messages.rt_generation rt)) with
                | Some u => Ok u
                | None => raise ValueError "badly formed hexadecimal UUID string"
                end);
    transaction (submit_locked id result run rt r now))
    [SQLAlchemyError; TypeError; ValueError] (λ _, mret (result_failed ts_unknown None "state_unavailable")).

(** *** The tools ([mcp.py]) *)

Definition MANAGED_ISSUER : string := "switchstand-managed-agent".

(** [managed_principal] ([managed_identity.py]) *)
Definition managed_principal (active : uuid) : PrincipalContext :=
  mkPrincipal MANAGED_ISSUER active "switchstand-codex" authenticated.

(** The grant under which a managed agent asks and reports. *)
Definition task_granted (p : PrincipalContext) (active : uuid) (g : WorkGrant) : bool :=
  eqb p (managed_principal active) && eqb (principal g) p && eqb (scope g) launch
  && eqb (active_work_id (authority g)) active && grant_can_write g active && mem agent_task (operations g).

(** [grants.locked(principal.key)] *)
Definition task_grant (p : PrincipalContext) (d : TaskDB) : option WorkGrant :=
  default None (work_grants (s_grants (base d)) !! principal_key p).

(** What the tools refuse before they look at the runtime. *)
Definition task_refusal (p : PrincipalContext) (active : uuid) (extra : bool) (now : Z) (d : TaskDB)
  : option (TaskStatus * string) :=
  match task_grant p d with
  | None => Some (ts_denied, "no_current_grant"%string)
  | Some g =>
      if negb (grant_current g now) then Some (ts_denied, "no_current_grant"%string)
      else if negb (task_granted p active g && extra) then Some (ts_denied, "operation_not_granted"%string)
      else None
  end.

(** [_agent_task_request]; [rt] is what [currentness()] answers. *)
Definition agent_task_request (p : PrincipalContext) (active : uuid) (rt : option Messages.RuntimeCurrentness)
    (q : AgentTaskRequest) (raced : bool) (now : Z) : M TaskDB TaskRunRequestResult :=
  d ← get_st;
  match task_refusal p active (eqb (ag_execution_work_id q) active) now d with
  | Some (s, reason) => mret (request_failed s reason)
  | None =>
      match rt ≫= Messages.rt_current, rt with
      | Some current, Some rt =>
          if negb (eqb (Messages.rt_generation rt) current)
          then mret (request_failed ts_stale "requester_run_superseded")
          else
            q ← lift (agent_validate q);
            request raced active (task_request_operation_id active q) (agent_intent q) now
      | _, _ => mret (request_failed ts_unknown "runtime_currentness_unavailable")
      end
  end.

(** [_agent_task_result] *)
Definition agent_task_result (p : PrincipalContext) (active : uuid) (rt : option Messages.RuntimeCurrentness)
    (id result : uuid) (r : AgentTaskResult) (now : Z) : M TaskDB TaskRunResultResult :=
  d ← get_st;
  match task_refusal p active true now d with
  | Some (s, reason) => mret (result_failed s None reason)
  | None =>
      match rt with
      | None => mret (result_failed ts_unknown None "runtime_currentness_unavailable")
      | Some rt => r ← lift (result_validate r); submit_result id result rt r now
      end
  end.

(** ** Invariants *)

#[local] Arguments _digest : simpl never.
#[local] Arguments _result_digest : simpl never.

(** The row is of a valid request and carries its digest. *)
Definition row_good (r : TaskRow) : Prop :=
  ∃ i, row_intent r = Ok i ∧ w_digest r = _digest (w_requester r) i.

Definition result_good (v : ResultRow) : Prop :=
  result_validate (v_result v) = Ok (v_result v) ∧ v_digest v = _result_digest (v_request v) (v_run v) (v_result v).

Record TInv (d : TaskDB) : Prop := {
  ti_requests : NoDup (w_request_id <$> task_requests d);
  ti_operations : NoDup (w_operation_id <$> task_requests d);
  ti_rows r : r ∈ task_requests d → row_good r;
  ti_terminal r t : r ∈ task_requests d → w_terminal r = Some t →
    ∃ v, v ∈ results d ∧ v_id v = t ∧ v_request v = w_request_id r;
  ti_bound : NoDup (x_request <$> executions d);
  ti_runs : NoDup (x_run <$> executions d);
  ti_executions x : x ∈ executions d → ∃ r, r ∈ task_requests d ∧ w_request_id r = x_request x;
  ti_result_ids : NoDup (v_id <$> results d);
  ti_results v : v ∈ results d → result_good v ∧
    ∃ x, x ∈ executions d ∧ x_request x = v_request v ∧ x_run x = v_run v }.

(** The same request later: only its terminal result may have been set. *)
Inductive later (r : TaskRow) : TaskRow → Prop :=
  | later_same : later r r
  | later_settled t : w_terminal r = None → later r (with_terminal t r).

Lemma later_trans r r1 r2 : later r r1 → later r1 r2 → later r r2.
Proof. intros [|t Ht] [|t' Ht']; try by constructor. done. Qed.

Record grows (d d' : TaskDB) : Prop := {
  g_requests r : r ∈ task_requests d → ∃ r', r' ∈ task_requests d' ∧ later r r';
  g_executions : executions d `prefix_of` executions d';
  g_results : results d `prefix_of` results d' }.

#[export] Instance grows_preorder : PreOrder grows.
Proof.
  split.
  - intros d. split; [|done..]. intros r Hr. exists r. by split; [|constructor].
  - intros d1 d2 d3 [H1 H2 H3] [H4 H5 H6]. split; [|by etrans..].
    intros r (r1 & Hr1 & L1)%H1. destruct (H4 _ Hr1) as (r2 & Hr2 & L2). exists r2.
    split; [done | by apply (later_trans _ r1)].
Qed.

Lemma agent_validate_eq q q' : agent_validate q = Ok q' → q' = q ∧ ag_task_kind q ≠ IMPLEMENTATION.
Proof.
  unfold agent_validate. rewrite bind_Ok. intros ([] & H1 & H2). apply raise_if_Ok in H1.
  rewrite bind_Ok in H2. destruct H2 as (_ & _ & [= <-]). split; [done|].
  rewrite negb_false_iff, !andb_true_iff, mem_true in H1. destruct H1 as (((_ & H) & _) & _). intros E. rewrite E, !elem_of_cons, elem_of_nil in H. naive_solver.
Qed.

Lemma implementation_validate_eq q q' : implementation_validate q = Ok q' → q' = q.
Proof.
  unfold implementation_validate. rewrite bind_Ok. intros ([] & _ & H2).
  rewrite bind_Ok in H2. by destruct H2 as (_ & _ & [= <-]).
Qed.

Lemma row_intent_new requester op i now :
  is_ok (intent_validate i) = true → row_intent (intent_row requester op i now) = Ok i.
Proof.
  destruct i as [q|q]; cbn.
  - destruct (agent_validate q) as [q'|] eqn:E; [|done]. intros _. pose proof (agent_validate_eq _ _ E) as [-> Hk].
    unfold row_intent. cbn. destruct q as [a b k c e f g]; cbn in *. by destruct k; rewrite ?E.
  - destruct (implementation_validate q) as [q'|] eqn:E; [|done]. intros _.
    pose proof (implementation_validate_eq _ _ E) as ->. unfold row_intent. cbn. destruct q; cbn in *. by rewrite E.
Qed.

Lemma row_intent_terminal t r : row_intent (with_terminal t r) = row_intent r.
Proof. done. Qed.

(** What a stored row stands for. *)
Definition row_view (r : TaskRow) (i : TaskIntent) : TaskRunRequest :=
  run_request (w_request_id r) (w_requester r) (w_terminal r) i.

Lemma row_view_fields r i : row_intent r = Ok i →
  execution_work_id (row_view r i) = w_execution r ∧ request_id (row_view r i) = w_request_id r ∧
  requester_work_id (row_view r i) = w_requester r ∧ terminal_result_id (row_view r i) = w_terminal r ∧
  task_kind (row_view r i) = w_kind r ∧ observed_revision (row_view r i) = w_revision r ∧
  authorization_ref (row_view r i) = w_authorization r ∧ send_authority_ref (row_view r i) = w_send_authority r ∧
  result_contract (row_view r i) = w_contract r.
Proof.
  unfold row_intent. intros H. destruct (w_kind r) eqn:Hk.
  1,2: destruct (is_some (w_authorization r) || is_some (w_send_authority r)) eqn:Ha; [done|]; cbn in H;
    destruct (agent_validate _) as [q|] eqn:E; [|done]; apply agent_validate_eq in E as [-> _];
    injection H as <-; apply orb_false_iff in Ha as [Ha Hs]; cbn;
    destruct (w_authorization r), (w_send_authority r); by repeat split.
  destruct (w_authorization r), (w_send_authority r); try done.
  destruct (implementation_validate _) as [q|] eqn:E; [|done]. apply implementation_validate_eq in E as ->.
  injection H as <-. by repeat split.
Qed.

Lemma find_request d r : TInv d → r ∈ task_requests d → List.filter (is_request (w_request_id r)) (task_requests d) = [r].
Proof.
  intros Hd Hr. apply (filter_unique w_request_id); [apply Hd | | done | apply eqb_refl].
  intros y _ Hy. by apply (eqb_true (w_request_id y)).
Qed.

Lemma find_operation d r : TInv d → r ∈ task_requests d → List.filter (is_operation (w_operation_id r)) (task_requests d) = [r].
Proof.
  intros Hd Hr. apply (filter_unique w_operation_id); [apply Hd | | done | apply eqb_refl].
  intros y _ Hy. by apply (eqb_true (w_operation_id y)).
Qed.

Lemma find_result d v : TInv d → v ∈ results d → List.filter (λ v', eqb (v_id v') (v_id v)) (results d) = [v].
Proof.
  intros Hd Hv. apply (filter_unique v_id); [apply Hd | | done | apply eqb_refl].
  intros y _ Hy. by apply (eqb_true (v_id y)).
Qed.

(** Every stored request can be read. *)
Lemma validated_ok d r :
  TInv d → r ∈ task_requests d →
  ∃ i, row_intent r = Ok i ∧ w_digest r = _digest (w_requester r) i ∧
    validated_task_run_request r d = Ok (row_view r i).
Proof.
  intros Hd Hr. destruct (ti_rows d Hd r Hr) as (i & Hi & Hdig). exists i. split; [done|]. split; [done|].
  unfold validated_task_run_request. rewrite Hi. cbn. rewrite Hdig, eqb_refl. cbn.
  destruct (w_terminal r) as [t|] eqn:Ht; [|unfold row_view; by rewrite Ht].
  destruct (ti_terminal d Hd r t Hr Ht) as (v & Hv & <- & Hreq). rewrite (find_result d v Hd Hv). cbn.
  rewrite Hreq, eqb_refl. cbn. unfold row_view. by rewrite Ht.
Qed.

Lemma result_read_ok v : result_good v →
  validated_task_run_result v = Ok (mkRunResult (v_id v) (v_request v) (v_run v) (v_result v)).
Proof.
  intros [Hv Hdig]. unfold validated_task_run_result. rewrite Hv. cbn. by rewrite Hdig, eqb_refl.
Qed.

Lemma wp_validated r (Q : TaskRunRequest → TaskDB → Prop) d :
  TInv d → r ∈ task_requests d →
  (∀ i, row_intent r = Ok i → w_digest r = _digest (w_requester r) i → Q (row_view r i) d) →
  wp (validated r) Q d.
Proof.
  intros Hd Hr HQ. destruct (validated_ok d r Hd Hr) as (i & Hi & Hdig & Hv). unfold wp, validated.
  rewrite Hv. by apply HQ.
Qed.

Lemma wp_select_operation op (Q : option TaskRow → TaskDB → Prop) d :
  TInv d → (∀ r, r ∈ task_requests d → w_operation_id r = op → Q (Some r) d) →
  ((∀ r, r ∈ task_requests d → w_operation_id r ≠ op) → Q None d) → wp (select_operation op) Q d.
Proof.
  intros Hd HS HN. unfold select_operation. apply wp_read. intros [r|] H.
  - apply one_or_none_Some, filter_one in H as [Hr Hop]. apply HS; [done|]. by apply (eqb_true (w_operation_id r)).
  - apply one_or_none_None in H. apply HN. intros r Hr <-. by rewrite (find_operation d r Hd Hr) in H.
Qed.

Lemma wp_select_request id (Q : option TaskRow → TaskDB → Prop) d :
  (∀ r, r ∈ task_requests d → w_request_id r = id → Q (Some r) d) → Q None d → wp (select_request id) Q d.
Proof.
  intros HS HN. unfold select_request. apply wp_read. intros [r|] H; [|done].
  apply one_or_none_Some, filter_one in H as [Hr Hid]. apply HS; [done|]. by apply (eqb_true (w_request_id r)).
Qed.

Lemma wp_select_result id (Q : option ResultRow → TaskDB → Prop) d :
  (∀ v, v ∈ results d → v_id v = id → Q (Some v) d) → Q None d → wp (select_result id) Q d.
Proof.
  intros HS HN. unfold select_result. apply wp_read. intros [v|] H; [|done].
  apply one_or_none_Some, filter_one in H as [Hv Hid]. apply HS; [done|]. by apply (eqb_true (v_id v)).
Qed.

(** *** Admission *)

(** The work that the request names is at the revision it observed. *)
Definition at_revision (i : TaskIntent) (d : TaskDB) : Prop :=
  ∃ row, works (s_tracker (base d)) !! intent_execution i = Some row ∧
    canonical_revision (work_id (item_of row)) (row_version (item_of row)) = Ok (intent_revision i).

Definition admitted (requester op : uuid) (i : TaskIntent) (now : Z) (d : TaskDB) : TaskDB :=
  with_requests (task_requests d ++ [intent_row requester op i now]) d.

Inductive request_outcome (requester op : uuid) (i : TaskIntent) (now : Z) (d d' : TaskDB) (o : TaskRunRequestResult) : Prop :=
  | ro_refused : d' = d → q_status o ≠ ts_ok → request_outcome requester op i now d d' o
  | ro_stored r j : d' = d → r ∈ task_requests d → w_operation_id r = op → row_intent r = Ok j →
      w_digest r = _digest requester i → o = request_ok (row_view r j) → request_outcome requester op i now d d' o
  | ro_admitted : d' = admitted requester op i now d → o = request_ok (row_view (intent_row requester op i now) i) →
      (uuid5 REQUEST_NAMESPACE op ∉ (w_request_id <$> task_requests d)) → (op ∉ (w_operation_id <$> task_requests d)) →
      has_handle requester d = true → has_handle (intent_execution i) d = true → at_revision i d →
      intent_continuation i = START → request_outcome requester op i now d d' o.

Lemma intent_row_fields requester op i now :
  let r := intent_row requester op i now in
  w_request_id r = uuid5 REQUEST_NAMESPACE op ∧ w_operation_id r = op ∧ w_requester r = requester ∧
  w_execution r = intent_execution i ∧ w_digest r = _digest requester i ∧ w_terminal r = None.
Proof. by destruct i. Qed.

Lemma TInv_admitted requester op i now d :
  TInv d → is_ok (intent_validate i) = true → (uuid5 REQUEST_NAMESPACE op ∉ (w_request_id <$> task_requests d)) →
  (op ∉ (w_operation_id <$> task_requests d)) → TInv (admitted requester op i now d) ∧ grows d (admitted requester op i now d).
Proof.
  intros Hd Hi Hid Hop. destruct (intent_row_fields requester op i now) as (F1 & F2 & F3 & F4 & F5 & F6).
  split.
  - split; cbn; try apply Hd.
    + apply NoDup_snoc; [apply Hd|]. intros y Hy E. apply Hid. rewrite <- F1, <- E. by apply list_elem_of_fmap_2.
    + apply NoDup_snoc; [apply Hd|]. intros y Hy E. apply Hop. rewrite <- F2, <- E. by apply list_elem_of_fmap_2.
    + intros x [Hx| ->]%elem_of_snoc; [by apply Hd|]. exists i. split; [by apply row_intent_new|]. by rewrite F3.
    + intros x t [Hx| ->]%elem_of_snoc Ht; [by apply Hd|]. congruence.
    + intros x Hx. destruct (ti_executions d Hd x Hx) as (r' & Hr' & ?). exists r'. by rewrite elem_of_snoc; auto.
  - split; cbn; [|done..]. intros x Hx. exists x. split; [by apply elem_of_snoc; left | constructor].
Qed.

Lemma wp_replayed requester op i now r d :
  TInv d → r ∈ task_requests d → w_operation_id r = op →
  wp (replayed_request (_digest requester i) r) (λ o d', request_outcome requester op i now d d' o) d.
Proof.
  intros Hd Hr Hop. unfold replayed_request. wp_step. apply wp_validated; [done..|]. intros j Hj _. wp_step.
  destruct (eqb (w_digest r) _) eqn:E; cbn.
  - rewrite eqb_true in E. by apply (ro_stored _ _ _ _ _ _ _ r j).
  - by apply ro_refused.
Qed.

Lemma wp_insert_request r (Q : option TaskRow → TaskDB → Prop) d :
  Q None d →
  ((w_request_id r ∉ (w_request_id <$> task_requests d)) → (w_operation_id r ∉ (w_operation_id <$> task_requests d)) →
   has_handle (w_requester r) d = true → has_handle (w_execution r) d = true →
   Q (Some r) (with_requests (task_requests d ++ [r]) d)) →
  wp (insert_request r) Q d.
Proof.
  intros HN HS. unfold insert_request, refuse_if. do 5 wp_step.
  destruct (existsb _ _) eqn:E; [by apply wp_ret|]. do 4 wp_step. rewrite existsb_false in E.
  rewrite negb_false_iff, andb_true_iff in *.
  apply HS; [| |tauto..]; intros (y & Hy & Hin)%list_elem_of_fmap; specialize (E y Hin);
    apply orb_false_iff in E as [E1 E2]; unfold is_request, is_operation in *; rewrite eqb_false in E1, E2; congruence.
Qed.

Lemma wp_request raced requester op i now d :
  TInv d → is_ok (intent_validate i) = true →
  wp (request_in_transaction raced requester op i now) (λ o d', request_outcome requester op i now d d' o) d.
Proof.
  intros Hd Hi. destruct (intent_row_fields requester op i now) as (F1 & F2 & F3 & F4 & F5 & F6).
  assert (Hfirst : ∀ (row : option TaskRow), (∀ r, row = Some r → r ∈ task_requests d ∧ w_operation_id r = op) →
    wp (match row with
        | Some row => replayed_request (_digest requester i) row
        | None => d ← get_st;
            if negb (has_handle requester d) then mret (request_failed ts_denied "requester_work_not_found")
            else match item_of <$> works (s_tracker (base d)) !! intent_execution i with
                 | None => mret (request_failed ts_denied "execution_work_not_found")
                 | Some work => admit_request requester op i now work
                 end
        end) (λ o d', request_outcome requester op i now d d' o) d).
  { intros [r|] Hrow; [destruct (Hrow r eq_refl); by apply wp_replayed|]. wp_step.
    destruct (has_handle requester d) eqn:Hh; [|by apply wp_ret, ro_refused]. cbn [negb].
    destruct (works _ !! _) as [row|] eqn:Hw; cbn [fmap option_fmap option_map]; [|by apply wp_ret, ro_refused].
    unfold admit_request. do 2 wp_step.
    destruct (eqb _ (intent_revision i)) eqn:Hrev; cbn [negb]; [|by apply wp_ret, ro_refused].
    destruct (eqb (intent_continuation i) START) eqn:Hc; cbn [negb]; [|by apply wp_ret, ro_refused].
    rewrite eqb_true in Hrev. rewrite eqb_true in Hc. subst.
    wp_step. apply wp_insert_request.
    - wp_step. apply wp_select_operation; [done | |]; intros; [by apply wp_replayed | by apply wp_ret, ro_refused].
    - rewrite F1, F2, F3, F4. intros Hid Hop Hhr Hhe. destruct (TInv_admitted requester op i now d Hd Hi Hid Hop) as [Hd' _].
      wp_step. apply wp_validated; [done | cbn; by apply elem_of_snoc; right |].
      intros j Hj _. rewrite row_intent_new in Hj by done. injection Hj as <-. wp_step.
      apply ro_admitted; try done. by exists row. }
  unfold request_in_transaction. wp_step. destruct raced; [wp_step; by apply (Hfirst None)|].
  apply wp_select_operation; [done | |].
  - intros r Hr Hop. apply (Hfirst (Some r)). by intros ? [= <-].
  - intros _. by apply (Hfirst None).
Qed.

(** *** Binding and results *)

(** The answer for an implementation request that may not start is a refusal. *)
Definition refuses (eligible : TaskRow → TaskRunRequest → TaskDB → res (option (TaskStatus * string))) : Prop :=
  ∀ r q d s reason, eligible r q d = Ok (Some (s, reason)) → s ≠ ts_ok.

Section bindings.
Context (eligible : TaskRow → TaskRunRequest → TaskDB → res (option (TaskStatus * string))).
Context (eligible_refuses : refuses eligible).

(** An implementation request may still start. *)
Definition may_start (r : TaskRow) (i : TaskIntent) (d : TaskDB) : Prop :=
  w_kind r = IMPLEMENTATION → eligible r (row_view r i) d = Ok None.

Inductive bind_outcome (id active run : uuid) (now : Z) (d d' : TaskDB) (o : TaskRunBindResult) : Prop :=
  | bo_refused : d' = d → b_status o ≠ ts_ok → bind_outcome id active run now d d' o
  | bo_bound r i : r ∈ task_requests d → w_request_id r = id → w_execution r = active → row_intent r = Ok i →
      may_start r i d → o = mkBindResult ts_ok (Some (id, run)) None →
      (d' = d ∧ (∃ x, x ∈ executions d ∧ x_request x = id ∧ x_run x = run) ∨
       d' = with_executions (executions d ++ [mkExecution id run now]) d ∧
       (id ∉ (x_request <$> executions d)) ∧ (run ∉ (x_run <$> executions d))) →
      bind_outcome id active run now d d' o.

Lemma wp_bind_start id active run now d :
  TInv d → wp (bind_start eligible id active run now) (λ o d', bind_outcome id active run now d d' o) d.
Proof using eligible_refuses.
  intros Hd. unfold bind_start. apply wp_catch_transaction; [|intros e; by apply wp_ret, bo_refused].
  wp_step. apply wp_select_request; [|by apply wp_ret, bo_refused]. intros r Hr Hid. wp_step.
  apply wp_validated; [done..|]. intros i Hi _. destruct (row_view_fields r i Hi) as (Fe & _ & _ & _ & Fk & _).
  destruct (eqb (execution_work_id _) active) eqn:Ha; cbn [negb]; [|by apply wp_ret, bo_refused].
  rewrite eqb_true, Fe in Ha. destruct (eqb (continuation _) START); cbn [negb]; [|by apply wp_ret, bo_refused].
  do 3 wp_step. destruct (match a with Some x => _ | None => _ end) eqn:Hc; [by apply wp_ret, bo_refused|].
  wp_step. rewrite Fk. apply (wp_mono _ (λ refusal d', d' = d ∧ match refusal with None => may_start r i d | Some (s, _) => s ≠ ts_ok end)).
  { unfold may_start. destruct (eqb (w_kind r) IMPLEMENTATION) eqn:Hk.
    - wp_step. split; [done|]. destruct a0 as [[st reason]|]; [by eapply eligible_refuses | done].
    - wp_step. rewrite eqb_false in Hk. done. }
  intros refusal d1 [-> Hm]. destruct refusal as [[st reason]|]; [by apply wp_ret, bo_refused|].
  destruct a as [x|]; cbn [is_some is_none negb].
  - apply wp_ret, (bo_bound _ _ _ _ _ _ _ r i); try done. left. split; [done|].
    assert (Hx : List.filter (λ x, eqb (x_request x) id) (executions d) = [x]) by (by apply one_or_none_Some).
    apply filter_one in Hx as [Hx Hxi]. rewrite eqb_true in Hxi. rewrite negb_false_iff, eqb_true in Hc. by exists x.
  - wp_step. unfold wp at 1, insert_execution. destruct (existsb _ _) eqn:E; [by apply wp_ret, bo_refused|].
    apply wp_ret, (bo_bound _ _ _ _ _ _ _ r i); try done. right. split; [done|].
    assert (Hx : List.filter (λ x, eqb (x_request x) id) (executions d) = []) by (by apply one_or_none_None).
    rewrite existsb_false in E. split; intros (x & -> & Hin)%list_elem_of_fmap.
    + assert (Hf : In x (List.filter (λ x', eqb (x_request x') (x_request x)) (executions d))).
      { apply filter_In. split; [by apply list_elem_of_In | apply eqb_refl]. }
      by rewrite Hx in Hf.
    + specialize (E x Hin). rewrite eqb_refl, orb_true_r in E. done.
Qed.

End bindings.

(** No stored result under this identifier has the digest of this one by
    accident. *)
Definition no_collision (id result run : uuid) (r : AgentTaskResult) (d : TaskDB) : Prop :=
  ∀ v, v ∈ results d → v_id v = result → v_digest v = _result_digest id run r →
    v_request v = id ∧ v_run v = run ∧ v_result v = r.

Definition recorded (v : ResultRow) (d d1 : TaskDB) : Prop :=
  d1 = d ∧ v ∈ results d ∨ d1 = with_results (results d ++ [v]) d ∧ (v_id v ∉ (v_id <$> results d)).

Definition settled (id result : uuid) (d : TaskDB) : TaskDB :=
  with_requests ((λ r, if is_request id r then with_terminal result r else r) <$> task_requests d) d.

Inductive submit_outcome (id result run : uuid) (rt : Messages.RuntimeCurrentness) (r : AgentTaskResult) (now : Z)
    (d d' : TaskDB) (o : TaskRunResultResult) : Prop :=
  | so_refused : d' = d → s_status o ≠ ts_ok → s_terminal o = false → submit_outcome id result run rt r now d d' o
  | so_recorded row v d1 : row ∈ task_requests d → w_request_id row = id →
      (∃ x, x ∈ executions d ∧ x_request x = id ∧ x_run x = run) →
      v_id v = result → v_request v = id → v_run v = run → v_result v = r → result_good v → recorded v d d1 →
      (d' = d1 ∧ s_status o ≠ ts_ok ∧ s_terminal o = false ∨
       s_status o = ts_ok ∧ s_terminal o = true ∧ Messages.rt_current rt = Some (Messages.rt_generation rt) ∧
       (w_terminal row = Some result ∧ d' = d1 ∨ w_terminal row = None ∧ d' = settled id result d1)) →
      submit_outcome id result run rt r now d d' o.

Lemma wp_settle row i view result rt d (Q : TaskRunResultResult → TaskDB → Prop) :
  row_intent row = Ok i →
  (∀ o, s_status o ≠ ts_ok → s_terminal o = false → Q o d) →
  (∀ o, s_status o = ts_ok → s_terminal o = true → Messages.rt_current rt = Some (Messages.rt_generation rt) →
     (w_terminal row = Some result → Q o d) ∧ (w_terminal row = None → Q o (settled (w_request_id row) result d))) →
  wp (settle_result (row_view row i) view result rt) Q d.
Proof.
  intros Hi HN HS. destruct (row_view_fields row i Hi) as (_ & Fid & _ & Ft & _). unfold settle_result.
  destruct (Messages.rt_current rt) as [c|] eqn:Hc; [|by apply wp_ret, HN].
  destruct (eqb c _) eqn:E; cbn [negb]; [|by apply wp_ret, HN]. rewrite eqb_true in E. subst c.
  destruct (HS (mkResultResult ts_ok (Some view) true None) eq_refl eq_refl eq_refl) as [H1 H2]. rewrite Ft, Fid.
  destruct (w_terminal row) as [t|] eqn:Ht.
  - destruct (eqb t result) eqn:E; cbn [negb]; [|by apply wp_ret, HN]. rewrite eqb_true in E. subst t. by apply wp_ret, H1.
  - wp_step. unfold wp at 1, set_terminal. by apply wp_ret, H2.
Qed.

Lemma wp_submit_locked id result run rt r now d :
  TInv d → result_validate r = Ok r → no_collision id result run r d →
  wp (submit_locked id result run rt r now) (λ o d', submit_outcome id result run rt r now d d' o) d.
Proof.
  intros Hd Hr Hn. unfold submit_locked. wp_step. apply wp_select_request; [|by apply wp_ret, so_refused].
  intros row Hrow Hid. wp_step. apply wp_validated; [done..|]. intros i Hi _. do 3 wp_step.
  destruct (is_none a) eqn:Ha; [by apply wp_ret, so_refused|].
  destruct (negb (_ =? 1)%nat); [by apply wp_ret, so_refused|].
  assert (Hx : ∃ x, x ∈ executions d ∧ x_request x = id ∧ x_run x = run).
  { destruct a as [x|]; [|done].
    assert (Hf : List.filter (is_execution id run) (executions d) = [x]) by (by apply one_or_none_Some).
    apply filter_one in Hf as [Hin Hf]. unfold is_execution in Hf. rewrite andb_true_iff, !eqb_true in Hf. by exists x. }
  wp_step.
  assert (Hrest : ∀ v d1, v_id v = result → v_request v = id → v_run v = run → v_result v = r → result_good v → recorded v d d1 →
    wp (view ← lift (validated_task_run_result v); settle_result (row_view row i) view result rt)
      (λ o d', submit_outcome id result run rt r now d d' o) d1).
  { intros v d1 Hv1 Hv2 Hv3 Hv4 Hgood Hrec. wp_step. rewrite (result_read_ok v Hgood). apply wp_lift.
    intros view _. apply wp_settle; [done | |].
    - intros o Ho1 Ho2. apply (so_recorded _ _ _ _ _ _ _ _ _ row v d1); try done. by left.
    - intros o Ho1 Ho2 Hc. rewrite Hid.
      split; intros Ht; apply (so_recorded _ _ _ _ _ _ _ _ _ row v d1); try done; right; split_and!; try done; auto. }
  apply wp_select_result.
  - intros v Hv Hvid. destruct (eqb (v_digest v) _) eqn:E; cbn [negb]; [|by apply wp_ret, so_refused].
    rewrite eqb_true in E. wp_step. apply wp_ret. destruct (Hn v Hv Hvid E) as (Hq & Hu & Hvr).
    destruct (ti_results d Hd v Hv) as [Hgood _]. apply Hrest; try done. by left.
  - wp_step. unfold insert_result, refuse_if. wp_step. wp_step. wp_step. wp_step. wp_step. wp_step. wp_step. wp_step.
    apply Hrest; try done. right. split; [done|]. cbn. rewrite existsb_false in H1.
    intros (y & Hy & Hin)%list_elem_of_fmap. specialize (H1 y Hin). rewrite eqb_false in H1. by cbn in H1.
Qed.

Lemma TInv_init b c t : TInv (mkTaskDB b c t [] [] []).
Proof. split; cbn; try constructor; set_solver. Qed.

Lemma TInv_bound id run now r d :
  TInv d → r ∈ task_requests d → w_request_id r = id → (id ∉ (x_request <$> executions d)) →
  (run ∉ (x_run <$> executions d)) → let d' := with_executions (executions d ++ [mkExecution id run now]) d in
  TInv d' ∧ grows d d'.
Proof.
  intros Hd Hr Hid Hx1 Hx2 d'. split.
  - split; cbn; try apply Hd.
    + apply NoDup_snoc; [apply Hd|]. intros y Hy E. apply Hx1. cbn in E. rewrite <- E. by apply list_elem_of_fmap_2.
    + apply NoDup_snoc; [apply Hd|]. intros y Hy E. apply Hx2. cbn in E. rewrite <- E. by apply list_elem_of_fmap_2.
    + intros x [Hx| ->]%elem_of_snoc; [by apply Hd | by exists r].
    + intros v Hv. destruct (ti_results d Hd v Hv) as (Hg & x & Hx & ?). split; [done|]. exists x.
      by rewrite elem_of_snoc; auto.
  - split; cbn; [|by apply prefix_app_r | done]. intros x Hx. exists x. by split; [|constructor].
Qed.

Lemma TInv_recorded v d d1 :
  TInv d → result_good v → (∃ x, x ∈ executions d ∧ x_request x = v_request v ∧ x_run x = v_run v) → recorded v d d1 →
  TInv d1 ∧ grows d d1 ∧ v ∈ results d1 ∧ task_requests d1 = task_requests d.
Proof.
  intros Hd Hg Hx [[-> Hv]|[-> Hv]]; [done|]. split; [|split; [|split; [|done]]].
  - split; cbn; try apply Hd.
    + intros r t Hr Ht. destruct (ti_terminal d Hd r t Hr Ht) as (v' & Hv' & ?). exists v'. by rewrite elem_of_snoc; auto.
    + apply NoDup_snoc; [apply Hd|]. intros y Hy E. apply Hv. rewrite <- E. by apply list_elem_of_fmap_2.
    + intros v' [Hv'| ->]%elem_of_snoc; [by apply Hd | done].
  - split; cbn; [|done | by apply prefix_app_r]. intros x Hx'. exists x. by split; [|constructor].
  - cbn. by apply elem_of_snoc; right.
Qed.

Lemma settled_requests id result d r' : r' ∈ task_requests (settled id result d) →
  ∃ r, r ∈ task_requests d ∧ r' = (if is_request id r then with_terminal result r else r).
Proof. cbn. intros (r & -> & Hr)%list_elem_of_fmap. by exists r. Qed.

Lemma settled_map {A} (f : TaskRow → A) id result d :
  (∀ r t, f (with_terminal t r) = f r) → f <$> task_requests (settled id result d) = f <$> task_requests d.
Proof.
  intros Hf. cbn. rewrite <- list_fmap_compose. apply list_fmap_ext. intros k r _. cbn. by destruct (is_request id r).
Qed.

Lemma TInv_settled id result v d :
  TInv d → (∀ r, r ∈ task_requests d → w_request_id r = id → w_terminal r = None) →
  v ∈ results d → v_id v = result → v_request v = id → TInv (settled id result d) ∧ grows d (settled id result d).
Proof.
  intros Hd Hn Hv Hvid Hvq. split.
  - split; try apply Hd.
    + rewrite settled_map by done. apply Hd.
    + rewrite settled_map by done. apply Hd.
    + intros r' (r & Hr & ->)%settled_requests. destruct (ti_rows d Hd r Hr) as (i & Hi & Hdig). exists i.
      by destruct (is_request id r).
    + intros r' t (r & Hr & ->)%settled_requests Ht. destruct (is_request id r) eqn:E; [|by apply (ti_terminal d Hd r t)].
      cbn in Ht. injection Ht as <-. exists v. apply (eqb_true (w_request_id r)) in E. split_and!; [done..|]. cbn. congruence.
    + intros x Hx. destruct (ti_executions d Hd x Hx) as (r & Hr & <-). cbn.
      exists (if is_request id r then with_terminal result r else r). split; [by apply (list_elem_of_fmap_2 (λ r, if is_request id r then with_terminal result r else r))|]. by destruct (is_request id r).
  - split; [|done..]. intros r Hr. exists (if is_request id r then with_terminal result r else r).
    split; [by apply (list_elem_of_fmap_2 (λ r, if is_request id r then with_terminal result r else r))|].
    destruct (is_request id r) eqn:E; [|constructor]. constructor. apply Hn; [done|]. by apply (eqb_true (w_request_id r)).
Qed.

Lemma unique_request d r r' : TInv d → r ∈ task_requests d → r' ∈ task_requests d → w_request_id r = w_request_id r' → r = r'.
Proof. intros Hd. apply (NoDup_fmap_inj w_request_id), Hd. Qed.

Lemma TInv_submitted id result run rt r now d d' o :
  TInv d → submit_outcome id result run rt r now d d' o → TInv d' ∧ grows d d'.
Proof.
  intros Hd [-> _ _|row v d1 Hrow Hid Hx Hv Hq Hu Hvr Hg Hrec Hend]; [done|]. subst.
  rewrite <- Hq in Hx. destruct (TInv_recorded v d d1 Hd Hg Hx Hrec) as (Hd1 & Hg1 & Hin & Hreq).
  destruct Hend as [(-> & _)|(_ & _ & _ & [[_ ->]|[Ht ->]])]; [done..|].
  destruct (TInv_settled (w_request_id row) (v_id v) v d1 Hd1) as [Hd' Hg']; [| done | done | done |].
  - rewrite Hreq. intros r' Hr' E. by rewrite (unique_request d r' row Hd Hr' Hrow E).
  - split; [done | by etrans].
Qed.

(** A caught transaction whose handler returns either returns or leaves the
    store alone. *)
Lemma caught_state {A} (m : M TaskDB A) classes (h : exn → A) (P : TaskDB → Prop) d :
  P d → wp (catch (transaction m) classes (λ e, mret (h e))) (λ _ d', P d') d →
  P (catch (transaction m) classes (λ e, mret (h e)) d).1.
Proof. unfold wp, catch, transaction. destruct (m d) as [d1 [a|e]]; [done|]. intros Hp _. by destruct (existsb _ _). Qed.

(** *** The system *)

Section system.
Context (eligible : TaskRow → TaskRunRequest → TaskDB → res (option (TaskStatus * string))).
Context (eligible_refuses : refuses eligible).

(** Other components change their tables; any request, binding or submission
    of a valid model. *)
Inductive task_step (d : TaskDB) : TaskDB → Prop :=
  | st_world b c t : task_step d (mkTaskDB b c t (task_requests d) (executions d) (results d))
  | st_request raced requester op i now :
      is_ok (intent_validate i) = true → task_step d (request raced requester op i now d).1
  | st_bind id active run now : task_step d (bind_start eligible id active run now d).1
  | st_submit id result rt r now :
      result_validate r = Ok r → (∀ run, UUID (codes (Messages.rt_generation rt)) = Some run → no_collision id result run r d) →
      task_step d (submit_result id result rt r now d).1.

Definition task_reachable (d : TaskDB) : Prop :=
  ∃ b c t, rtc task_step (mkTaskDB b c t [] [] []) d.

Lemma TInv_step d d' : task_step d d' → TInv d → TInv d' ∧ grows d d'.
Proof using eligible_refuses.
  intros [b c t|raced requester op i now Hi|id active run now|id result rt r now Hr Hn] Hd.
  - split; [by destruct Hd; split|]. split; [|done..]. intros r Hr. exists r. by split; [|constructor].
  - apply (caught_state _ _ _ (λ d', TInv d' ∧ grows d d')); [done|].
    apply wp_catch_transaction; [|intros e; by apply wp_ret]. eapply wp_mono; [by apply wp_request|].
    intros o d2 [->|r j ->| -> _ H1 H2]; [done..|]. by apply TInv_admitted.
  - apply (caught_state _ _ _ (λ d', TInv d' ∧ grows d d')); [done|].
    eapply wp_mono; [by apply (wp_bind_start eligible)|].
    intros o d2 [->|r i Hr Hid Ha Hi Hm Ho [[-> _]|(-> & H1 & H2)]]; [done..|]. by apply (TInv_bound _ _ _ r).
  - unfold submit_result. destruct (UUID _) as [run|]; [|done].
    unfold catch. rewrite lift_bind_Ok. specialize (Hn run eq_refl).
    pose proof (wp_submit_locked id result run rt r now d Hd Hr Hn) as Hw. unfold wp, transaction in *.
    destruct (submit_locked _ _ _ _ _ _ d) as [d1 [o|e]]; [by apply (TInv_submitted _ _ _ _ _ _ _ _ _ Hd Hw)|].
    by destruct (existsb _ _).
Qed.

Lemma TInv_steps d d' : rtc task_step d d' → TInv d → TInv d' ∧ grows d d'.
Proof using eligible_refuses.
  induction 1 as [d|d1 d2 d3 Hst _ IH]; intros Hd; [done|]. destruct (TInv_step _ _ Hst Hd) as [H1 H2].
  destruct (IH H1) as [H3 H4]. split; [done | by etrans].
Qed.

Lemma TInv_reachable d : task_reachable d → TInv d.
Proof using eligible_refuses. intros (b & c & t & Hs). by apply (TInv_steps _ _ Hs), TInv_init. Qed.
End system.

(** ** Properties *)

Lemma request_answer raced requester op i now d d' o :
  TInv d → is_ok (intent_validate i) = true → request raced requester op i now d = (d', Ok o) →
  request_outcome requester op i now d d' o.
Proof.
  intros Hd Hi. apply (wp_elim _ (λ o d', request_outcome requester op i now d d' o)).
  apply wp_catch_transaction; [by apply wp_request|]. intros e. by apply wp_ret, ro_refused.
Qed.

(** The answer to a submission: of the run that the runtime names, or unknown. *)
Lemma submit_answer id result rt r now d d' o :
  TInv d → result_validate r = Ok r →
  (∀ run, UUID (codes (Messages.rt_generation rt)) = Some run → no_collision id result run r d) →
  submit_result id result rt r now d = (d', Ok o) →
  (∃ run, UUID (codes (Messages.rt_generation rt)) = Some run ∧ submit_outcome id result run rt r now d d' o) ∨
  d' = d ∧ s_status o = ts_unknown ∧ s_terminal o = false.
Proof.
  intros Hd Hr Hn. unfold submit_result. destruct (UUID _) as [run|].
  - specialize (Hn run eq_refl). unfold catch. rewrite lift_bind_Ok. unfold transaction.
    pose proof (wp_submit_locked id result run rt r now d Hd Hr Hn) as Hw. unfold wp in Hw.
    destruct (submit_locked _ _ _ _ _ _ d) as [d1 [a|e]].
    + intros [= <- <-]. left. by exists run.
    + destruct (existsb _ _); intros [= <- <-]. by right.
  - intros [= <- <-]. by right.
Qed.

(** C38: whatever the requests, bindings and submissions: every stored request
    verifies, a request is bound to at most one run and a run to at most one
    request, a terminal result is a verified result of the request from the
    run bound to it; and afterwards nothing is lost, and only a terminal
    result that was not set is set. *)
Theorem task_run_invariant eligible d d' :
  refuses eligible → task_reachable eligible d → rtc (task_step eligible) d d' →
  (∀ r, r ∈ task_requests d → ∃ i, row_intent r = Ok i ∧ validated_task_run_request r d = Ok (row_view r i)) ∧
  (∀ x y, x ∈ executions d → y ∈ executions d → (x_request x = x_request y ↔ x_run x = x_run y)) ∧
  (∀ r t, r ∈ task_requests d → w_terminal r = Some t → ∃ v x,
     v ∈ results d ∧ validated_task_run_result v = Ok (mkRunResult t (w_request_id r) (x_run x) (v_result v)) ∧
     x ∈ executions d ∧ x_request x = w_request_id r) ∧
  grows d d'.
Proof.
  intros He Hd Hs. apply (TInv_reachable _ He) in Hd. split_and!.
  - intros r Hr. destruct (validated_ok d r Hd Hr) as (i & Hi & _ & Hv). by exists i.
  - intros x y Hx Hy. split; intros E.
    + by rewrite (NoDup_fmap_inj x_request _ x y (ti_bound d Hd) Hx Hy E).
    + by rewrite (NoDup_fmap_inj x_run _ x y (ti_runs d Hd) Hx Hy E).
  - intros r t Hr Ht. destruct (ti_terminal d Hd r t Hr Ht) as (v & Hv & <- & Hq).
    destruct (ti_results d Hd v Hv) as (Hg & x & Hx & Hxq & Hxr). exists v, x.
    rewrite (result_read_ok v Hg). split_and!; congruence.
  - by apply (TInv_steps _ He _ _ Hs).
Qed.

(** A stored operation is answered from its row: the same intent gets its
    request back, another one a conflict, and a second row is never made, not
    even by a call that raced with the first one. *)
Theorem task_replay eligible d raced requester op i now r d' o :
  refuses eligible → task_reachable eligible d → is_ok (intent_validate i) = true →
  r ∈ task_requests d → w_operation_id r = op → request raced requester op i now d = (d', Ok o) →
  d' = d ∧
  (raced = false →
     w_digest r = _digest requester i ∧ (∃ j, row_intent r = Ok j ∧ o = request_ok (row_view r j)) ∨
     w_digest r ≠ _digest requester i ∧ o = request_failed ts_conflict "operation_identity_conflict") ∧
  (q_status o = ts_ok → w_digest r = _digest requester i ∧ ∃ j, row_intent r = Ok j ∧ q_request o = Some (row_view r j)).
Proof.
  intros He Hd Hi Hr <- E. apply (TInv_reachable _ He) in Hd.
  destruct (request_answer _ _ _ _ _ _ _ _ Hd Hi E) as [-> Ho|r' j -> Hr' Hop Hj Hdig ->| _ _ _ Hop].
  - split; [done|]. split; [|done]. intros ->. revert E. unfold request, request_in_transaction, catch, transaction.
    destruct (validated_ok d r Hd Hr) as (j & Hj & _ & Hv).
    assert (Hsel : select_operation (w_operation_id r) d = (d, Ok (Some r))).
    { unfold select_operation. by rewrite (find_operation d r Hd Hr). }
    rewrite (bind_run _ _ _ _ _ Hsel). unfold replayed_request.
    assert (Hval : validated r d = (d, Ok (row_view r j))) by (unfold validated; by rewrite Hv).
    rewrite (bind_run _ _ _ _ _ Hval). destruct (eqb (w_digest r) _) eqn:Hdig; cbn [negb]; intros [= <-].
    + by rewrite eqb_true in Hdig.
    + right. by rewrite eqb_false in Hdig.
  - assert (r' = r) as -> by (by apply (NoDup_fmap_inj w_operation_id _ _ _ (ti_operations d Hd))). split_and!; eauto.
  - destruct Hop. by apply list_elem_of_fmap_2.
Qed.

(** C39: a result is accepted as the terminal one only from the run bound to the
    request, while that run is the current one, and then the stored result is
    the one submitted; otherwise no request changes.  Of a request that has a
    terminal result only that result is confirmed. *)
Theorem task_result_spec eligible d id result rt r now d' o :
  refuses eligible → task_reachable eligible d → result_validate r = Ok r →
  (∀ run, UUID (codes (Messages.rt_generation rt)) = Some run → no_collision id result run r d) →
  submit_result id result rt r now d = (d', Ok o) →
  (s_status o = ts_ok →
     Messages.rt_current rt = Some (Messages.rt_generation rt) ∧ s_terminal o = true ∧
     ∃ run x v row, UUID (codes (Messages.rt_generation rt)) = Some run ∧
       x ∈ executions d ∧ x_request x = id ∧ x_run x = run ∧
       v ∈ results d' ∧ v_id v = result ∧ v_request v = id ∧ v_run v = run ∧ v_result v = r ∧
       row ∈ task_requests d' ∧ w_request_id row = id ∧ w_terminal row = Some result) ∧
  (s_status o ≠ ts_ok → s_terminal o = false ∧ task_requests d' = task_requests d) ∧
  (∀ row t, row ∈ task_requests d → w_request_id row = id → w_terminal row = Some t →
     task_requests d' = task_requests d ∧ (s_status o = ts_ok → t = result)).
Proof.
  intros He Hd Hr Hn E. apply (TInv_reachable _ He) in Hd.
  destruct (submit_answer _ _ _ _ _ _ _ _ Hd Hr Hn E) as [(run & Hrun & H)|(-> & Hs & Ht)];
    [|split_and!; intros; naive_solver congruence].
  destruct H as [-> Hs Ht|row v d1 Hrow Hid Hx Hv Hq Hu Hvr Hg Hrec Hend]; [split_and!; intros; naive_solver|].
  assert (Hv1 : v ∈ results d1 ∧ task_requests d1 = task_requests d).
  { destruct Hrec as [[-> ?]|[-> _]]; [done|]. cbn. rewrite elem_of_snoc. auto. }
  destruct Hv1 as [Hv1 Hreq]. destruct Hx as (x & Hx & Hxi & Hxr).
  assert (Huniq : ∀ row', row' ∈ task_requests d → w_request_id row' = id → row' = row).
  { intros row' Hr' Hi'. apply (unique_request d); congruence. }
  destruct Hend as [(-> & Hs & Ht)|(Hs & Ht & Hc & Hend)].
  - split_and!; [congruence | done | by intros; split; [|congruence]].
  - split_and!; [|congruence|].
    + intros _. split; [done|]. split; [done|].
      destruct Hend as [[Hterm ->]|[Hterm ->]].
      * exists run, x, v, row. rewrite Hreq. by split_and!.
      * exists run, x, v, (with_terminal result row). split_and!; try done. cbn. apply list_elem_of_fmap. exists row.
        rewrite Hreq. split; [|done]. unfold is_request. by rewrite Hid, eqb_refl.
    + intros row' t Hr' Hi' Ht'. rewrite (Huniq _ Hr' Hi') in Ht'.
      destruct Hend as [[Hterm ->]|[Hterm _]]; [|congruence]. split; [done|]. intros _. congruence.
Qed.

(** The request tool makes or returns a request only for the managed agent of
    the work, under a current launch grant that names the operation, from the
    current run, of the work at its current revision. *)
Theorem task_tool_granted eligible d p active rt q raced now d' o :
  refuses eligible → task_reachable eligible d →
  agent_task_request p active rt q raced now d = (d', Ok o) → q_status o = ts_ok →
  p = managed_principal active ∧
  (∃ g, task_grant p d = Some g ∧ grant_current g now = true ∧ scope g = launch ∧
     active_work_id (authority g) = active ∧ grant_can_write g active = true ∧ agent_task ∈ operations g) ∧
  (∃ c, rt = Some c ∧ Messages.rt_current c = Some (Messages.rt_generation c)) ∧
  ag_execution_work_id q = active ∧
  ∃ r j, r ∈ task_requests d' ∧ w_operation_id r = task_request_operation_id active q ∧
    w_digest r = _digest active (agent_intent q) ∧ row_intent r = Ok j ∧ q_request o = Some (row_view r j) ∧
    (d' = d ∨ task_requests d' = task_requests d ++ [r] ∧ at_revision (agent_intent q) d).
Proof.
  intros He Hd E Hok. apply (TInv_reachable _ He) in Hd. revert E. unfold agent_task_request.
  rewrite (bind_run get_st _ d d d eq_refl). unfold task_refusal.
  destruct (task_grant p d) as [g|]; [|by intros [= <- <-]].
  destruct (grant_current g now) eqn:Hc; cbn [negb]; [|by intros [= <- <-]].
  destruct (task_granted p active g && _) eqn:Hg; cbn [negb]; [|by intros [= <- <-]].
  unfold task_granted in Hg. rewrite !andb_true_iff, !eqb_true, mem_true in Hg.
  destruct Hg as ((((((-> & Hp) & Hsc) & Ha) & Hw) & Hop) & Hex).
  destruct rt as [c|]; cbn; [|by intros [= <- <-]]. destruct (Messages.rt_current c) as [cur|] eqn:Hcur; [|by intros [= <- <-]].
  destruct (eqb (Messages.rt_generation c) cur) eqn:Hgen; cbn [negb]; [|by intros [= <- <-]]. rewrite eqb_true in Hgen.
  destruct (agent_validate q) as [q'|e] eqn:Hv; [|by intros [= <- <-]].
  pose proof (agent_validate_eq _ _ Hv) as [-> _]. rewrite lift_bind_Ok. intros E.
  assert (Hi : is_ok (intent_validate (agent_intent q)) = true) by (cbn; by rewrite Hv).
  split; [done|]. split; [exists g; by split_and!|]. split; [exists c; by rewrite Hcur, Hgen|]. split; [done|].
  destruct (request_answer _ _ _ _ _ _ _ _ Hd Hi E) as [_ Ho|r j -> Hr Ho Hj Hdig ->| -> -> H1 H2 _ _ Hat _].
  - congruence.
  - exists r, j. split_and!; try done. by left.
  - exists (intent_row active (task_request_operation_id active q) (agent_intent q) now), (agent_intent q).
    split_and!; try done; [cbn; by apply elem_of_snoc; right | by apply row_intent_new | by right].
Qed.

(** ** Witnesses *)

Definition ex_active : uuid := "00000000-0000-0000-0000-000000000001".
Definition ex_run : uuid := "00000000-0000-0000-0000-000000000002".
Definition ex_result_id : uuid := "00000000-0000-0000-0000-000000000003".

Definition ex_task_work : CurrentWork :=
  mkWork ex_active "First" false "" 1 None None (Some "Task"%string) None None None None None None None None None None.

Definition ex_task_revision : string :=
  match canonical_revision ex_active 1 with Ok r => r | Err _ => "" end.

Definition ex_task_grant : WorkGrant :=
  mkGrant "g1" 1 (managed_principal ex_active) (mkAuthority ex_active []) launch [agent_task]
    "iss" "prov" (Datetime 1000 (Some 0)) g_active None None None None None None.

Definition ex_task_base : StoreDB :=
  mkStore (Messages.mkMsgDB [] [] false (Mailboxes.mkMailboxDB [] ∅)
      (GrantState.mkDB {[principal_key (managed_principal ex_active) := Some ex_task_grant]} ∅)
      (WorkState.mkStateDB [Controller.mkHandle ex_active "switchstand" ex_active] []) [])
    (mkReviewDB (mkTracker {[ex_active := mkWorkRow ex_task_work "first"]} ∅ [] ∅ ∅ ∅ ∅) []) ∅ ∅.

Definition ex_task : AgentTaskRequest :=
  mkAgentTask ex_active ex_task_revision VALIDATION "validate it" (JObj [("checks", JInt 1)]) START None.
Definition ex_task_op : uuid := Eval vm_compute in task_request_operation_id ex_active ex_task.
Definition ex_task_id : uuid := Eval vm_compute in uuid5 REQUEST_NAMESPACE ex_task_op.
Definition ex_task_result : AgentTaskResult := mkTaskResult "PASS" "all checks pass" ["log:1"].
Definition ex_runtime (current : uuid) : Messages.RuntimeCurrentness := Messages.mkRuntime ex_run (Some current).

(** No implementation request is eligible. *)
Definition ex_eligible : TaskRow → TaskRunRequest → TaskDB → res (option (TaskStatus * string)) :=
  λ _ _ _, Ok (Some (ts_denied, "review_not_found"%string)).

Lemma ex_refuses : refuses ex_eligible.
Proof. by intros r q d s reason [= <- _]. Qed.

Definition ex_t0 : TaskDB := mkTaskDB ex_task_base [] [] [] [] [].
Definition ex_t1 : TaskDB :=
  Eval vm_compute in (request false ex_active ex_task_op (agent_intent ex_task) 5 ex_t0).1.
Definition ex_t2 : TaskDB := Eval vm_compute in (bind_start ex_eligible ex_task_id ex_active ex_run 6 ex_t1).1.
Definition ex_t3 : TaskDB :=
  Eval vm_compute in (submit_result ex_task_id ex_result_id (ex_runtime ex_run) ex_task_result 7 ex_t2).1.

Lemma ex_t0_reach : task_reachable ex_eligible ex_t0.
Proof. exists ex_task_base, [], []. apply rtc_refl. Qed.

Lemma ex_t1_step : task_step ex_eligible ex_t0 ex_t1.
Proof.
  replace ex_t1 with (request false ex_active ex_task_op (agent_intent ex_task) 5 ex_t0).1 by (vm_compute; reflexivity).
  apply st_request. vm_compute. reflexivity.
Qed.

Lemma ex_t2_step : task_step ex_eligible ex_t1 ex_t2.
Proof.
  replace ex_t2 with (bind_start ex_eligible ex_task_id ex_active ex_run 6 ex_t1).1 by (vm_compute; reflexivity).
  apply st_bind.
Qed.

Lemma no_collision_empty id result run r d : results d = [] → no_collision id result run r d.
Proof. intros E v Hv. rewrite E in Hv. by apply not_elem_of_nil in Hv. Qed.

Lemma ex_t3_step : task_step ex_eligible ex_t2 ex_t3.
Proof.
  replace ex_t3 with (submit_result ex_task_id ex_result_id (ex_runtime ex_run) ex_task_result 7 ex_t2).1
    by (vm_compute; reflexivity).
  apply st_submit; [vm_compute; reflexivity|]. intros run _. by apply no_collision_empty.
Qed.

Lemma ex_t1_reach : task_reachable ex_eligible ex_t1.
Proof. exists ex_task_base, [], []. exact (rtc_once _ _ ex_t1_step). Qed.

Lemma ex_t2_reach : task_reachable ex_eligible ex_t2.
Proof. exists ex_task_base, [], []. exact (rtc_l _ _ _ _ ex_t1_step (rtc_once _ _ ex_t2_step)). Qed.

Lemma task_run_invariant_witness :
  (∃ r r', head (task_requests ex_t2) = Some r ∧ head (task_requests ex_t3) = Some r' ∧
     w_terminal r = None ∧ w_terminal r' = Some ex_result_id) ∧ grows ex_t2 ex_t3.
Proof.
  split; [do 2 eexists; vm_compute; repeat split|].
  exact (proj2 (proj2 (proj2 (task_run_invariant ex_eligible ex_t2 ex_t3 ex_refuses ex_t2_reach (rtc_once _ _ ex_t3_step))))).
Defined.

Definition ex_task_row : option TaskRow := Eval vm_compute in head (task_requests ex_t1).

Lemma task_replay_witness : ∃ r,
  ex_task_row = Some r ∧
  (request true ex_active ex_task_op (agent_intent ex_task) 9 ex_t1).1 = ex_t1.
Proof.
  eexists. split; [reflexivity|].
  refine (proj1 (task_replay ex_eligible ex_t1 true ex_active ex_task_op (agent_intent ex_task) 9 _
    (request true ex_active ex_task_op (agent_intent ex_task) 9 ex_t1).1
    match (request true ex_active ex_task_op (agent_intent ex_task) 9 ex_t1).2 with
    | Ok o => o | Err _ => request_failed ts_unknown "" end
    ex_refuses ex_t1_reach _ (list_elem_of_here _ _) _ _)); vm_compute; reflexivity.
Defined.

Lemma task_result_spec_witness : ∃ o,
  (submit_result ex_task_id ex_result_id (ex_runtime ex_run) ex_task_result 7 ex_t2).2 = Ok o ∧
  s_terminal o = true ∧ ∃ row, row ∈ task_requests ex_t3 ∧ w_terminal row = Some ex_result_id.
Proof.
  eexists. split; [vm_compute; reflexivity|].
  edestruct (task_result_spec ex_eligible ex_t2 ex_task_id ex_result_id (ex_runtime ex_run) ex_task_result 7 ex_t3 _
    ex_refuses ex_t2_reach ltac:(vm_compute; reflexivity) (λ run _, no_collision_empty ex_task_id ex_result_id run ex_task_result ex_t2 eq_refl)
    ltac:(vm_compute; reflexivity)) as [H _].
  destruct (H eq_refl) as (_ & Ht & run & x & v & row & _ & _ & _ & _ & _ & _ & _ & _ & _ & Hrow & _ & Hterm).
  split; [exact Ht|]. exists row. split; [exact Hrow | exact Hterm].
Defined.

Lemma task_tool_granted_witness : ∃ o,
  (agent_task_request (managed_principal ex_active) ex_active (Some (ex_runtime ex_run)) ex_task false 5 ex_t0).2 = Ok o ∧
  ∃ g, task_grant (managed_principal ex_active) ex_t0 = Some g ∧ agent_task ∈ operations g.
Proof.
  eexists. split; [vm_compute; reflexivity|].
  edestruct (task_tool_granted ex_eligible ex_t0 (managed_principal ex_active) ex_active (Some (ex_runtime ex_run)) ex_task
    false 5 ex_t1 _ ex_refuses ex_t0_reach ltac:(vm_compute; reflexivity) ltac:(vm_compute; reflexivity))
    as (_ & (g & Hg & _ & _ & _ & _ & Ho) & _).
  exists g. split; [exact Hg | exact Ho].
Defined.
