(* ===== verification/DurableCapture.v ===== *)
(** * Guidance for typed findings ([durable_capture.py])

    Whether every finding of a review or a message has a recorded disposition.
    A correction is an object whose two attributes are read, which may raise;
    a payload is JSON without floats. *)

From stdpp Require Import pretty.
From S2P Require Import Prelude Json Codec.

Local Open Scope Z_scope.

(** ** Models *)

Inductive FindingDisposition := ACCEPT | CHALLENGE | NARROW | NEEDS_EVIDENCE.
Inductive CaptureState := NOT_APPLICABLE | DECISION_REQUIRED | REQUIRED | SATISFIED | BLOCKED.
Inductive RouteKind := LINK_EXISTING | CREATE_SELF_OWNED | ROUTE_PROPOSED_OWNER.

#[export] Instance FindingDisposition_eq_dec : EqDecision FindingDisposition.
Proof. solve_decision. Defined.
#[export] Instance CaptureState_eq_dec : EqDecision CaptureState.
Proof. solve_decision. Defined.
#[export] Instance RouteKind_eq_dec : EqDecision RouteKind.
Proof. solve_decision. Defined.

Record AcceptedFindingRoute := mkFindingRoute {
  route_kind : RouteKind; route_work_id : option uuid; owner_ref : option string; proposal_ref : option string }.

Definition bounded (lo hi : Z) (s : string) : bool := (lo <=? py_len s) && (py_len s <=? hi).
Definition opt_bounded (lo hi : Z) (o : option string) : bool :=
  match o with Some s => bounded lo hi s | None => true end.

(** [AcceptedFindingRoute(...)] with [exact_route] *)
Definition route_validate (r : AcceptedFindingRoute) : res AcceptedFindingRoute :=
  raise_if (negb (opt_bounded 1 2048 (owner_ref r) && opt_bounded 1 2048 (proposal_ref r))) ValueError "validation error";;
  (if mem (route_kind r) [LINK_EXISTING; CREATE_SELF_OWNED]
   then raise_if (is_none (route_work_id r) || is_some (owner_ref r) || is_some (proposal_ref r)) ValueError
          "linked or self-owned route requires only an exact WorkId"
   else raise_if (is_some (route_work_id r) || is_none (owner_ref r) || is_none (proposal_ref r)) ValueError
          "proposed-owner route requires owner and proposal references");;
  Ok r.

Record FindingCapture := mkCapture {
  capture_finding_id : string; disposition : FindingDisposition; capture_evidence_refs : list string;
  accepted_route : option AcceptedFindingRoute }.

(** [FindingCapture(...)] with [exact_disposition] *)
Definition capture_validate (c : FindingCapture) : res FindingCapture :=
  raise_if (negb (bounded 1 200 (capture_finding_id c)
      && (Z.of_nat (length (capture_evidence_refs c)) <=? 32))) ValueError "validation error";;
  raise_if (existsb (λ v, negb (truthy v) || (2048 <? py_len v)) (capture_evidence_refs c)) ValueError
    "finding evidence references must be nonempty and bounded";;
  (if eqb (disposition c) ACCEPT then Ok tt
   else raise_if (is_some (accepted_route c) || eqb (capture_evidence_refs c) []) ValueError
          "non-accepted findings require evidence and forbid an accepted route");;
  Ok c.

Record FindingRef := mkFindingRef { source_ref : string; finding_id : string }.

#[export] Instance FindingRef_eq_dec : EqDecision FindingRef.
Proof. solve_decision. Defined.

(** [FindingRef(...)] *)
Definition ref_validate (r : FindingRef) : res FindingRef :=
  raise_if (negb (bounded 1 2048 (source_ref r) && bounded 1 200 (finding_id r))) ValueError "validation error";;
  Ok r.

Record DurableCaptureGuidance := mkGuidance {
  g_state : CaptureState; finding_refs : list FindingRef; unresolved : list FindingRef; g_next_action : string;
  g_reason : option string }.

(** [CorrectionView] *)
Record CorrectionView := mkCorrection {
  correction_source : res string; correction_capture : res (option FindingCapture) }.

(** ** Guidance *)

Definition ref_leb (a b : FindingRef) : bool :=
  str_leb (source_ref a) (source_ref b)
  && (negb (eqb (source_ref a) (source_ref b)) || str_leb (finding_id a) (finding_id b)).

(** The items of a dict that is built from the list, under their first key. *)
Fixpoint distinct (l : list FindingRef) : list FindingRef :=
  match l with
  | [] => []
  | r :: l' => r :: List.filter (λ r', negb (eqb r r')) (distinct l')
  end.

(** [captured], oldest first, under the key [(source_ref, finding_id)]. *)
Abbreviation Captured := (list (FindingRef * FindingCapture)) (only parsing).

(** The loop over the corrections; [inl] is its early answer. *)
Fixpoint collect (refs : list FindingRef) (captured : Captured) (cs : list CorrectionView)
  : res (DurableCaptureGuidance + Captured) :=
  match cs with
  | [] => Ok (inr captured)
  | c :: cs' =>
      capture ← correction_capture c;
      match capture with
      | None => collect refs captured cs'
      | Some capture =>
          source ← correction_source c;
          let key := mkFindingRef source (capture_finding_id capture) in
          if negb (mem key refs) || mem key captured.*1
          then Ok (inl (mkGuidance BLOCKED refs [] "Reconcile conflicting capture." (Some "duplicate_or_unknown_capture")))%string
          else collect refs (captured ++ [(key, capture)]) cs'
      end
  end.

Definition unrouted (kc : FindingRef * FindingCapture) : bool :=
  eqb (disposition kc.2) ACCEPT && is_none (accepted_route kc.2).

(** What the captures leave to do. *)
Definition judge (refs : list FindingRef) (captured : Captured) : DurableCaptureGuidance :=
  let missing := List.filter (λ r, negb (mem r captured.*1)) (distinct refs) in
  let open := (List.filter unrouted captured).*1 in
  if negb (eqb missing []) then mkGuidance DECISION_REQUIRED refs missing "Disposition every typed finding." None
  else if negb (eqb open [])
  then mkGuidance REQUIRED refs open
         "Link accepted findings to existing work, created self-owned work, or an attributable proposed-owner route." None
  else mkGuidance SATISFIED refs [] "Use the checkpointed finding dispositions." None.

(** [durable_capture_guidance] *)
Definition durable_capture_guidance (refs : list FindingRef) (corrections : list CorrectionView)
  : res DurableCaptureGuidance :=
  let refs := py_sort ref_leb refs in
  if eqb refs [] then Ok (mkGuidance NOT_APPLICABLE [] [] "No typed findings require capture." None)
  else
    match collect refs [] corrections with
    | Ok (inl answer) => Ok answer
    | Ok (inr captured) => Ok (judge refs captured)
    | Err e =>
        if existsb (exn_isinstance (exn_cls e)) [AttributeError; TypeError; ValueError]
        then Ok (mkGuidance BLOCKED refs [] "Repair malformed capture evidence." (Some "malformed_capture"%string))
        else Err e
    end.

(** ** [str(value)] of a JSON value *)

Definition squote : ascii := ascii_of_nat 39.

(** One character of [repr(str)]. *)
Definition repr_char (quote : ascii) (c : ascii) : string :=
  let n := cp c in
  if Ascii.eqb c quote || Ascii.eqb c backslash then String backslash (String c "")
  else if n =? 10 then String backslash "n"
  else if n =? 13 then String backslash "r"
  else if n =? 9 then String backslash "t"
  else if (n <? 32) || ((127 <=? n) && (n <=? 160)) || (n =? 173) then String backslash (String.append "x" (hex_byte n))
  else String c "".

Definition repr_str (s : string) : string :=
  let chars := String.list_ascii_of_string s in
  let quote := if mem squote chars && negb (mem dquote chars) then dquote else squote in
  String quote (String.append (String.concat "" (repr_char quote <$> chars)) (String quote "")).

(** [repr] *)
Fixpoint py_repr (v : json) : string :=
  match v with
  | JNull => "None"
  | JBool b => if b then "True" else "False"
  | JInt z => pretty z
  | JStr s => repr_str s
  | JArr l => String.append "[" (String.append (str_join ", " (map py_repr l)) "]")
  | JObj kvs =>
      String.append "{" (String.append
        (str_join ", " (map (λ '(k, v), String.append (repr_str k) (String.append ": " (py_repr v))) kvs)) "}")
  end.

(** [str] *)
Definition py_str (v : json) : string := match v with JStr s => s | _ => py_repr v end.

(** ** Messages *)

(** [d.get(k)], where [None] and a missing key are the same. *)
Definition get_key (k : string) (kvs : list (string * json)) : option json :=
  match assoc k kvs with Some JNull | None => None | v => v end.

(** [kind not in {...}]: a list or a dict cannot be hashed. *)
Definition typed_kind (v : option json) : res (option string) :=
  match v with
  | Some (JArr _) | Some (JObj _) => raise TypeError "unhashable type"
  | Some (JStr s) => Ok (if mem s ["FINDINGS"; "REVIEW_OUTCOME"]%string then Some s else None)
  | _ => Ok None
  end.

(** The part of the payload that may carry the findings. *)
Definition candidate_of (payload : list (string * json)) : list (string * json) :=
  match assoc "outcome" payload with
  | Some (JObj o) => if eqb (assoc "type" o) (Some (JStr "REVIEW_OUTCOME")) then o else payload
  | _ => payload
  end.

Definition malformed : DurableCaptureGuidance :=
  mkGuidance BLOCKED [] [] "Repair the malformed typed finding envelope." (Some "malformed_finding_envelope"%string).

Fixpoint refs_of (source : string) (l : list json) : res (list FindingRef) :=
  match l with
  | [] => Ok []
  | JObj kvs :: l' =>
      match assoc "finding_id" kvs with
      | None => raise KeyError "finding_id"
      | Some v => r ← ref_validate (mkFindingRef source (py_str v)); rs ← refs_of source l'; Ok (r :: rs)
      end
  | _ :: l' => refs_of source l'
  end.

(** [message_capture_guidance] *)
Definition message_capture_guidance (payload : json) : res DurableCaptureGuidance :=
  match payload with
  | JObj kvs =>
      let candidate := candidate_of kvs in
      kind ← typed_kind (assoc "type" candidate);
      if is_none kind || (eqb kind (Some "REVIEW_OUTCOME"%string)
                          && negb (eqb (assoc "verdict" candidate) (Some (JStr "FINDINGS"))))
      then durable_capture_guidance [] []
      else
        let source :=
          match get_key "source_ref" candidate, get_key "review_id" candidate with
          | None, Some r => Some (JStr (String.append "review:" (py_str r)))
          | v, _ => v
          end in
        match source, assoc "findings" candidate with
        | Some (JStr source), Some (JArr findings) =>
            match refs_of source findings with
            | Ok refs =>
                if negb (length refs =? length findings)%nat then Ok malformed else durable_capture_guidance refs []
            | Err e =>
                if existsb (exn_isinstance (exn_cls e)) [KeyError; TypeError; ValueError] then Ok malformed else Err e
            end
        | _, _ => Ok malformed
        end
  | _ => durable_capture_guidance [] []
  end.

(** ** Properties *)

(** The captures that the corrections carry, with their keys. *)
Fixpoint captures (cs : list CorrectionView) : res Captured :=
  match cs with
  | [] => Ok []
  | c :: cs' =>
      capture ← correction_capture c;
      match capture with
      | None => captures cs'
      | Some capture =>
          source ← correction_source c;
          rest ← captures cs';
          Ok ((mkFindingRef source (capture_finding_id capture), capture) :: rest)
      end
  end.

Lemma filter_none_iff {A} (p : A → bool) l : List.filter p l = [] ↔ ∀ x, x ∈ l → p x = false.
Proof.
  induction l as [|a l IH]; cbn [List.filter]; [split; [by intros _ x ?%not_elem_of_nil | done]|].
  destruct (p a) eqn:E.
  - split; [done|]. intros H. rewrite (H a) in E; [done|]. apply elem_of_cons. by left.
  - rewrite IH. setoid_rewrite elem_of_cons. naive_solver.
Qed.

Lemma distinct_elem r l : r ∈ distinct l ↔ r ∈ l.
Proof.
  induction l as [|x l IH]; [done|]. cbn [distinct]. rewrite !elem_of_cons, <- IH, (list_elem_of_In _ r), filter_In,
    <- list_elem_of_In, negb_true_iff, eqb_false. destruct (decide (r = x)); naive_solver.
Qed.

(** The loop that ends took every capture, each of a known finding once. *)
Lemma collect_captures refs cs : ∀ captured out,
  NoDup captured.*1 → (∀ k, k ∈ captured.*1 → k ∈ refs) →
  collect refs captured cs = Ok (inr out) ↔
  ∃ l, captures cs = Ok l ∧ out = captured ++ l ∧ NoDup out.*1 ∧ ∀ k, k ∈ out.*1 → k ∈ refs.
Proof.
  induction cs as [|c cs IH]; intros captured out Hd Hk; cbn [collect captures].
  - split; [intros [= <-]; exists []; by rewrite app_nil_r|]. intros (l & [= <-] & -> & _). by rewrite app_nil_r.
  - destruct (correction_capture c) as [[capture|]|e]; cbn [mbind res_bind]; [|by apply IH|by split; [|intros (? & ? & _)]].
    destruct (correction_source c) as [source|e]; cbn [mbind res_bind]; [|by split; [|intros (? & ? & _)]].
    set (key := mkFindingRef source (capture_finding_id capture)).
    destruct (negb (mem key refs) || mem key captured.*1) eqn:E.
    + split; [done|]. intros (l & Hl & -> & Hnd & Hin). exfalso.
      destruct (captures cs) as [rest|]; cbn in Hl; [|done]. injection Hl as <-. rewrite fmap_app in Hnd, Hin. cbn in Hnd, Hin.
      apply NoDup_app in Hnd as (_ & Hno & _). apply orb_true_iff in E as [E|E].
      * rewrite negb_true_iff in E. apply not_true_iff_false in E. apply E, mem_true, Hin. rewrite elem_of_app, elem_of_cons. auto.
      * apply mem_true in E. apply (Hno key E), elem_of_cons. by left.
    + apply orb_false_iff in E as [E1 E2]. rewrite negb_false_iff, mem_true in E1.
      apply not_true_iff_false in E2. rewrite mem_true in E2. rewrite IH.
      * destruct (captures cs) as [rest|]; cbn; [|by split; intros (? & ? & _)]. split.
        -- intros (l & [= <-] & -> & Hr). eexists. split; [done|]. by rewrite <- app_assoc in *.
        -- intros (l & [= <-] & -> & Hr). exists rest. by rewrite <- app_assoc.
      * rewrite fmap_app. apply NoDup_app. split_and!; [done | by intros x Hx ->%list_elem_of_singleton | apply NoDup_singleton].
      * intros k. rewrite fmap_app, elem_of_app. intros [?|Hk'%list_elem_of_singleton]; [auto | by rewrite Hk'].
Qed.

(** C40: the guidance is SATISFIED exactly when there is some finding and the
    corrections capture every finding once, nothing else, and route each
    accepted one. *)
Theorem capture_satisfied refs cs :
  (∃ g, durable_capture_guidance refs cs = Ok g ∧ g_state g = SATISFIED) ↔
  refs ≠ [] ∧ ∃ captured, captures cs = Ok captured ∧ NoDup captured.*1 ∧ (∀ r, r ∈ refs ↔ r ∈ captured.*1) ∧
    ∀ kc, kc ∈ captured → disposition kc.2 = ACCEPT → accepted_route kc.2 ≠ None.
Proof.
  unfold durable_capture_guidance. set (l := py_sort ref_leb refs).
  assert (Hl : ∀ r, r ∈ l ↔ r ∈ refs) by (intros r; unfold l; by rewrite py_sort_perm).
  assert (Hn : l = [] ↔ refs = []).
  { unfold l. split; [|by intros ->]. intros E. apply Permutation_nil. by rewrite <- E, py_sort_perm. }
  destruct (eqb l []) eqn:E0.
  { rewrite eqb_true in E0. split; [by intros (g & [= <-] & ?)|]. intros [Hne _]. by destruct Hne; apply Hn. }
  rewrite eqb_false, Hn in E0.
  destruct (collect l [] cs) as [[answer|captured]|e] eqn:Ec.
  - split.
    + intros (g & [= <-] & Hg). exfalso. revert Ec Hg. generalize ([] : Captured).
      induction cs as [|c cs IH]; intros cap; cbn [collect]; [done|].
      destruct (correction_capture c) as [[capture|]|]; cbn; [|by apply IH|done].
      destruct (correction_source c); cbn; [|done]. destruct (_ || _); [by intros [= <-] ? | by apply IH].
    + intros (_ & captured & Hc & Hd & Hr & _). exfalso.
      assert (E2 : collect l [] cs = Ok (inr captured)); [|congruence].
      apply collect_captures; [by apply NoDup_nil_2 | by intros k ?%not_elem_of_nil |]. exists captured. split_and!; try done.
      intros k Hk. by apply Hl, Hr.
  - apply collect_captures in Ec as (l' & Hc & -> & Hd & Hk); [|by apply NoDup_nil_2 | by intros k ?%not_elem_of_nil].
    cbn in *. unfold judge. set (missing := List.filter _ (distinct l)). set (open := (List.filter unrouted l').*1).
    assert (Hm : missing = [] ↔ ∀ r, r ∈ refs → r ∈ l'.*1).
    { unfold missing. rewrite filter_none_iff. setoid_rewrite <- Hl. setoid_rewrite <- distinct_elem at 2. setoid_rewrite negb_false_iff.
      by setoid_rewrite mem_true. }
    assert (Ho : open = [] ↔ ∀ kc, kc ∈ l' → disposition kc.2 = ACCEPT → accepted_route kc.2 ≠ None).
    { transitivity (List.filter unrouted l' = []); [unfold open; split; [by intros ?%fmap_nil_inv | by intros ->]|].
      rewrite filter_none_iff. unfold unrouted. split; intros H kc Hin; specialize (H kc Hin).
      - intros Ha Hr. rewrite Ha, Hr in H. vm_compute in H. done.
      - destruct (eqb (disposition kc.2) ACCEPT) eqn:E; [rewrite eqb_true in E|done]. destruct (accepted_route kc.2); [done | by destruct (H E)]. }
    destruct (eqb missing []) eqn:E1; cbn [negb]; [rewrite eqb_true in E1|rewrite eqb_false in E1].
    + destruct (eqb open []) eqn:E2; cbn [negb]; [rewrite eqb_true in E2|rewrite eqb_false in E2].
      * split; [|by eexists]. intros _. split; [done|]. exists l'. split_and!; try done; [|by apply Ho].
        intros r. split; [by apply Hm | intros Hr; by apply Hl, Hk].
      * split; [by intros (g & [= <-] & ?)|]. intros (_ & c' & Hc' & _ & _ & Hr). destruct E2. apply Ho. assert (c' = l') as -> by congruence. done.
    + split; [by intros (g & [= <-] & ?)|]. intros (_ & c' & Hc' & _ & Hr & _). destruct E1. apply Hm.
      assert (c' = l') as -> by congruence. intros r. by rewrite Hr.
  - split; [destruct (existsb _ _); by intros (g & [= <-] & ?)|]. intros (_ & captured & Hc & Hd & Hr & _). exfalso.
    assert (E2 : collect l [] cs = Ok (inr captured)); [|congruence].
    apply collect_captures; [by apply NoDup_nil_2 | by intros k ?%not_elem_of_nil |]. exists captured. split_and!; try done.
    intros k Hk. by apply Hl, Hr.
Qed.

(** A payload whose type is a list escapes as an exception. *)
Lemma message_capture_escapes : ∃ e,
  message_capture_guidance (JObj [("type", JArr [])]) = Err e ∧ exn_cls e = TypeError.
Proof. by eexists. Qed.
