(* ===== verification/ReviewModels.v ===== *)
(** * The models of the reviews ([reviews.py])

    The records that review messages carry, with their validators, the JSON
    that [model_dump(mode="json")] writes for them and the reading
    [model_validate] of a stored payload.

    Parameters: how pydantic reads an integer, a boolean and a UUID from JSON
    in its lax mode ([Lax]); what it does on the values that [model_dump]
    writes is [LaxLaws]. *)

From S2P Require Import Prelude Json Codec.
From S2P Require Tracker HumanReviews Mailboxes.

Local Open Scope Z_scope.

(** ** Enumerations *)

Inductive ReviewKind := CODE | DESIGN | IMPLEMENTATION | PROCESS | OPERATIONS | EVIDENCE.
Inductive ReviewMode := FULL | FOCUSED.
Inductive ReviewVerdict := PASS | FINDINGS | BLOCKED.
Inductive ContextProvenance := INHERITED | UNSEEDED | PROVENANCE_UNKNOWN.
Inductive BaselinePhase := PRE_IMPLEMENTATION | FINAL_IMPLEMENTATION.
Inductive BaselineOwnerDisposition := OWNER_PRESERVED | OWNER_DEVIATION | OWNER_UNKNOWN.
Inductive BaselineDisposition :=
  | BASELINE_PRESERVED | AUTHOR_CORRECTION_REQUIRED | HUMAN_REVIEW_REQUIRED
  | CONFORMS_TO_APPROVED_BASELINE | MATERIAL_DEVIATION | NEW_HUMAN_CHOICE | DISPOSITION_UNKNOWN.
Inductive EnvelopeType := REVIEW_REQUEST | REVIEWER_ACQUISITION.
Inductive BasisField := subject_revision_field | candidate_ref_field.

#[export] Instance ReviewKind_eq_dec : EqDecision ReviewKind. Proof. solve_decision. Defined.
#[export] Instance ReviewMode_eq_dec : EqDecision ReviewMode. Proof. solve_decision. Defined.
#[export] Instance ReviewVerdict_eq_dec : EqDecision ReviewVerdict. Proof. solve_decision. Defined.
#[export] Instance ContextProvenance_eq_dec : EqDecision ContextProvenance. Proof. solve_decision. Defined.
#[export] Instance BaselinePhase_eq_dec : EqDecision BaselinePhase. Proof. solve_decision. Defined.
#[export] Instance BaselineOwnerDisposition_eq_dec : EqDecision BaselineOwnerDisposition. Proof. solve_decision. Defined.
#[export] Instance BaselineDisposition_eq_dec : EqDecision BaselineDisposition. Proof. solve_decision. Defined.
#[export] Instance EnvelopeType_eq_dec : EqDecision EnvelopeType. Proof. solve_decision. Defined.
#[export] Instance BasisField_eq_dec : EqDecision BasisField. Proof. solve_decision. Defined.

(** The values of an enumeration and their texts. *)
Class Texts (A : Type) := { values : list A; text_of : A → string }.

Definition from_text {A} `{Texts A} (s : string) : option A := List.find (λ a, String.eqb (text_of a) s) values.

#[export] Instance ReviewKind_texts : Texts ReviewKind := {|
  values := [CODE; DESIGN; IMPLEMENTATION; PROCESS; OPERATIONS; EVIDENCE];
  text_of k := match k with
    | CODE => "CODE" | DESIGN => "DESIGN" | IMPLEMENTATION => "IMPLEMENTATION" | PROCESS => "PROCESS"
    | OPERATIONS => "OPERATIONS" | EVIDENCE => "EVIDENCE" end |}.
#[export] Instance ReviewMode_texts : Texts ReviewMode := {|
  values := [FULL; FOCUSED]; text_of m := match m with FULL => "FULL" | FOCUSED => "FOCUSED" end |}.
#[export] Instance ReviewVerdict_texts : Texts ReviewVerdict := {|
  values := [PASS; FINDINGS; BLOCKED];
  text_of v := match v with PASS => "PASS" | FINDINGS => "FINDINGS" | BLOCKED => "BLOCKED" end |}.
#[export] Instance ContextProvenance_texts : Texts ContextProvenance := {|
  values := [INHERITED; UNSEEDED; PROVENANCE_UNKNOWN];
  text_of p := match p with INHERITED => "INHERITED" | UNSEEDED => "UNSEEDED" | PROVENANCE_UNKNOWN => "UNKNOWN" end |}.
#[export] Instance BaselinePhase_texts : Texts BaselinePhase := {|
  values := [PRE_IMPLEMENTATION; FINAL_IMPLEMENTATION];
  text_of p := match p with
    | PRE_IMPLEMENTATION => "PRE_IMPLEMENTATION" | FINAL_IMPLEMENTATION => "FINAL_IMPLEMENTATION" end |}.
#[export] Instance BaselineOwnerDisposition_texts : Texts BaselineOwnerDisposition := {|
  values := [OWNER_PRESERVED; OWNER_DEVIATION; OWNER_UNKNOWN];
  text_of d := match d with
    | OWNER_PRESERVED => "BASELINE_PRESERVED" | OWNER_DEVIATION => "MATERIAL_DEVIATION" | OWNER_UNKNOWN => "UNKNOWN" end |}.
#[export] Instance BaselineDisposition_texts : Texts BaselineDisposition := {|
  values := [BASELINE_PRESERVED; AUTHOR_CORRECTION_REQUIRED; HUMAN_REVIEW_REQUIRED; CONFORMS_TO_APPROVED_BASELINE;
    MATERIAL_DEVIATION; NEW_HUMAN_CHOICE; DISPOSITION_UNKNOWN];
  text_of d := match d with
    | BASELINE_PRESERVED => "BASELINE_PRESERVED" | AUTHOR_CORRECTION_REQUIRED => "AUTHOR_CORRECTION_REQUIRED"
    | HUMAN_REVIEW_REQUIRED => "HUMAN_REVIEW_REQUIRED"
    | CONFORMS_TO_APPROVED_BASELINE => "CONFORMS_TO_APPROVED_BASELINE" | MATERIAL_DEVIATION => "MATERIAL_DEVIATION"
    | NEW_HUMAN_CHOICE => "NEW_HUMAN_CHOICE" | DISPOSITION_UNKNOWN => "UNKNOWN" end |}.
#[export] Instance EnvelopeType_texts : Texts EnvelopeType := {|
  values := [REVIEW_REQUEST; REVIEWER_ACQUISITION];
  text_of t := match t with REVIEW_REQUEST => "REVIEW_REQUEST" | REVIEWER_ACQUISITION => "REVIEWER_ACQUISITION" end |}.
#[export] Instance BasisField_texts : Texts BasisField := {|
  values := [subject_revision_field; candidate_ref_field];
  text_of f := match f with subject_revision_field => "subject_revision" | candidate_ref_field => "candidate_ref" end |}.

(** ** Records *)

Record BaselineCheck := mkCheck {
  ck_baseline_id : uuid; ck_phase : BaselinePhase; ck_owner : BaselineOwnerDisposition; ck_comparison : string;
  ck_evidence_refs : list string }.

Record BaselineAssessment := mkAssessment {
  as_baseline_id : uuid; as_phase : BaselinePhase; as_disposition : BaselineDisposition;
  as_evidence_refs : list string }.

Record ReviewRequest := mkReviewRequest {
  q_subject : uuid; q_revision : string; q_kind : ReviewKind; q_candidate : option string; q_mode : ReviewMode;
  q_prior : option uuid; q_finding_ids : list string; q_baseline_check : option BaselineCheck }.

Record ReviewFinding := mkFinding {
  fn_id : string; fn_defect : string; fn_evidence : string; fn_consequence : string; fn_claim : string;
  fn_clearing : string }.

Record ReviewSubmit := mkReviewSubmit {
  u_review_id : uuid; u_verdict : ReviewVerdict; u_findings : list ReviewFinding; u_evidence_refs : list string;
  u_provenance : ContextProvenance; u_assessment : option BaselineAssessment }.

(** [protocol] is a constant. *)
Record ReviewBasis := mkBasis {
  b_review_id : uuid; b_subject : uuid; b_revision : string; b_kind : ReviewKind; b_candidate : option string;
  b_mode : ReviewMode; b_upgrades : bool; b_finding_ids : list string; b_requester : uuid; b_generation : Z;
  b_policy : string; b_guidelines : string; b_guidelines_digest : string; b_check : option BaselineCheck }.

Record FocusedReviewTransition := mkTransition {
  ft_basis : ReviewBasis; ft_digest : string; ft_claim : string; ft_evidence : list string;
  ft_changed : list BasisField }.

Record CanonicalReviewBrief := mkBrief {
  br_basis : ReviewBasis; br_title : string; br_claim : string; br_instructions : list string;
  br_evidence : list string; br_focused : option FocusedReviewTransition }.

Record ReviewEnvelope := mkEnvelope {
  en_type : EnvelopeType; en_brief : CanonicalReviewBrief; en_requester_name : string; en_requester : uuid;
  en_reviewer : option uuid; en_reviewer_key : option string }.

Record ReviewerBound := mkBound { bd_review_id : uuid; bd_delivery : uuid; bd_name : string }.

Record ReviewOutcome := mkOutcome {
  oc_review_id : uuid; oc_delivery : uuid; oc_verdict : ReviewVerdict; oc_findings : list ReviewFinding;
  oc_evidence_refs : list string; oc_provenance : ContextProvenance; oc_assessment : option BaselineAssessment;
  oc_digest : string }.

Record ReviewOutcomeEnvelope := mkOutcomeEnvelope { oe_brief : CanonicalReviewBrief; oe_outcome : ReviewOutcome }.

#[export] Instance BaselineCheck_eq_dec : EqDecision BaselineCheck. Proof. solve_decision. Defined.
#[export] Instance BaselineAssessment_eq_dec : EqDecision BaselineAssessment. Proof. solve_decision. Defined.
#[export] Instance ReviewFinding_eq_dec : EqDecision ReviewFinding. Proof. solve_decision. Defined.
#[export] Instance ReviewBasis_eq_dec : EqDecision ReviewBasis. Proof. solve_decision. Defined.
#[export] Instance FocusedReviewTransition_eq_dec : EqDecision FocusedReviewTransition. Proof. solve_decision. Defined.
#[export] Instance CanonicalReviewBrief_eq_dec : EqDecision CanonicalReviewBrief. Proof. solve_decision. Defined.
#[export] Instance ReviewEnvelope_eq_dec : EqDecision ReviewEnvelope. Proof. solve_decision. Defined.
#[export] Instance ReviewOutcome_eq_dec : EqDecision ReviewOutcome. Proof. solve_decision. Defined.
#[export] Instance ReviewOutcomeEnvelope_eq_dec : EqDecision ReviewOutcomeEnvelope. Proof. solve_decision. Defined.

(** ** Validators *)

(** [_validate_baseline_refs] and the number of the references. *)
Definition baseline_refs_ok (l : list string) : bool :=
  HumanReviews.sized 1 32 l && no_dup l
  && forallb (λ v, truthy (HumanReviews.py_strip v) && (py_len v <=? 1024)) l.

(** [bounded_unique_evidence] *)
Definition check_ok (c : BaselineCheck) : bool :=
  HumanReviews.text_within 1 4000 (ck_comparison c) && baseline_refs_ok (ck_evidence_refs c)
  && truthy (HumanReviews.py_strip (ck_comparison c)).
Definition assessment_ok (a : BaselineAssessment) : bool := baseline_refs_ok (as_evidence_refs a).

Definition opt_ok {A} (p : A → bool) (o : option A) : bool := match o with Some a => p a | None => true end.

(** [ReviewRequest(...)] with [exact_mode] *)
Definition request_ok (q : ReviewRequest) : bool :=
  truthy (q_revision q) && opt_ok (HumanReviews.text_within 1 500) (q_candidate q)
  && opt_ok check_ok (q_baseline_check q)
  && (if eqb (q_mode q) FULL then eqb (q_finding_ids q) []
      else is_some (q_prior q) && negb (eqb (q_finding_ids q) []))
  && no_dup (q_finding_ids q).

Definition finding_ok (f : ReviewFinding) : bool :=
  HumanReviews.text_within 1 120 (fn_id f) && HumanReviews.text_within 1 4000 (fn_defect f)
  && HumanReviews.text_within 1 4000 (fn_evidence f) && HumanReviews.text_within 1 4000 (fn_consequence f)
  && HumanReviews.text_within 1 1000 (fn_claim f) && HumanReviews.text_within 1 4000 (fn_clearing f).

(** [ReviewSubmit(...)] with [exact_verdict] *)
Definition review_submit_ok (u : ReviewSubmit) : bool :=
  forallb finding_ok (u_findings u) && opt_ok assessment_ok (u_assessment u)
  && eqb (eqb (u_verdict u) FINDINGS) (negb (eqb (u_findings u) []))
  && no_dup (fn_id <$> u_findings u).

Definition basis_ok (b : ReviewBasis) : bool := hex_fullmatch 64 (b_guidelines_digest b) && opt_ok check_ok (b_check b).

Definition transition_ok (t : FocusedReviewTransition) : bool := basis_ok (ft_basis t) && hex_fullmatch 64 (ft_digest t).

Definition brief_ok (b : CanonicalReviewBrief) : bool := basis_ok (br_basis b) && opt_ok transition_ok (br_focused b).

Definition outcome_ok (o : ReviewOutcome) : bool :=
  forallb finding_ok (oc_findings o) && opt_ok assessment_ok (oc_assessment o) && hex_fullmatch 64 (oc_digest o).

(** ** [model_dump(mode="json")] *)

Definition jtext {A} `{Texts A} (a : A) : json := JStr (text_of a).
Definition jmodel {A} (f : A → json) (o : option A) : json := match o with None => JNull | Some a => f a end.

Definition check_json (c : BaselineCheck) : json :=
  JObj [("baseline_id", JStr (ck_baseline_id c)); ("phase", jtext (ck_phase c));
    ("owner_disposition", jtext (ck_owner c)); ("comparison", JStr (ck_comparison c));
    ("evidence_refs", jstrs (ck_evidence_refs c))].

Definition assessment_json (a : BaselineAssessment) : json :=
  JObj [("baseline_id", JStr (as_baseline_id a)); ("phase", jtext (as_phase a));
    ("disposition", jtext (as_disposition a)); ("evidence_refs", jstrs (as_evidence_refs a))].

Definition finding_json (f : ReviewFinding) : json :=
  JObj [("finding_id", JStr (fn_id f)); ("defect", JStr (fn_defect f)); ("evidence", JStr (fn_evidence f));
    ("consequence", JStr (fn_consequence f)); ("affected_claim", JStr (fn_claim f));
    ("minimum_clearing_condition", JStr (fn_clearing f))].

Definition review_submit_json (u : ReviewSubmit) : json :=
  JObj [("review_id", JStr (u_review_id u)); ("verdict", jtext (u_verdict u));
    ("findings", JArr (finding_json <$> u_findings u)); ("evidence_refs", jstrs (u_evidence_refs u));
    ("context_provenance", jtext (u_provenance u)); ("baseline_assessment", jmodel assessment_json (u_assessment u))].

Definition REVIEW_PROTOCOL : string := "switchstand.review.v1".

Definition basis_json (b : ReviewBasis) : json :=
  JObj [("protocol", JStr REVIEW_PROTOCOL); ("review_id", JStr (b_review_id b)); ("subject_work_id", JStr (b_subject b));
    ("subject_revision", JStr (b_revision b)); ("review_kind", jtext (b_kind b)); ("candidate_ref", jopt (b_candidate b));
    ("mode", jtext (b_mode b)); ("upgrades_focused", JBool (b_upgrades b)); ("finding_ids", jstrs (b_finding_ids b));
    ("requester_endpoint_id", JStr (b_requester b)); ("requester_generation", JInt (b_generation b));
    ("policy_version", JStr (b_policy b)); ("guidelines_version", JStr (b_guidelines b));
    ("guidelines_digest", JStr (b_guidelines_digest b)); ("baseline_check", jmodel check_json (b_check b))].

Definition transition_json (t : FocusedReviewTransition) : json :=
  JObj [("prior_basis", basis_json (ft_basis t)); ("prior_verdict_digest", JStr (ft_digest t));
    ("prior_material_claim", JStr (ft_claim t)); ("prior_named_evidence", jstrs (ft_evidence t));
    ("changed_basis_fields", JArr (jtext <$> ft_changed t))].

Definition brief_json (b : CanonicalReviewBrief) : json :=
  JObj [("basis", basis_json (br_basis b)); ("subject_title", JStr (br_title b)); ("material_claim", JStr (br_claim b));
    ("instructions", jstrs (br_instructions b)); ("named_evidence", jstrs (br_evidence b));
    ("focused_from", jmodel transition_json (br_focused b))].

Definition envelope_json (e : ReviewEnvelope) : json :=
  JObj [("type", jtext (en_type e)); ("brief", brief_json (en_brief e)); ("requester_name", JStr (en_requester_name e));
    ("requester_endpoint_id", JStr (en_requester e)); ("reviewer_endpoint_id", jopt (en_reviewer e));
    ("reviewer_principal_key", jopt (en_reviewer_key e))].

Definition bound_json (b : ReviewerBound) : json :=
  JObj [("type", JStr "REVIEWER_BOUND"); ("review_id", JStr (bd_review_id b));
    ("reviewer_delivery_id", JStr (bd_delivery b)); ("reviewer_name", JStr (bd_name b))].

Definition outcome_json (o : ReviewOutcome) : json :=
  JObj [("type", JStr "REVIEW_OUTCOME"); ("review_id", JStr (oc_review_id o));
    ("reviewer_delivery_id", JStr (oc_delivery o)); ("verdict", jtext (oc_verdict o));
    ("findings", JArr (finding_json <$> oc_findings o)); ("evidence_refs", jstrs (oc_evidence_refs o));
    ("context_provenance", jtext (oc_provenance o)); ("baseline_assessment", jmodel assessment_json (oc_assessment o));
    ("verdict_digest", JStr (oc_digest o))].

Definition outcome_envelope_json (e : ReviewOutcomeEnvelope) : json :=
  JObj [("brief", brief_json (oe_brief e)); ("outcome", outcome_json (oe_outcome e))].

(** ** [model_validate] *)

Class Lax := { lax_int : json → option Z; lax_bool : json → option bool; lax_uuid : string → option uuid }.

(** The canonical text of a UUID. *)
Definition is_uuid (u : uuid) : bool := eqb (Tracker.UUID (codes u)) (Some u).

Class LaxLaws `{Lax} : Prop := {
  lax_int_int z : lax_int (JInt z) = Some z;
  lax_bool_bool b : lax_bool (JBool b) = Some b;
  lax_uuid_uuid u : is_uuid u = true → lax_uuid u = Some u;
  lax_uuid_canonical s u : lax_uuid s = Some u → is_uuid u = true }.

(** A model object: no key but its fields. *)
Definition closed (fields : list string) (v : json) : option (list (string * json)) :=
  match v with JObj kvs => if forallb (λ kv, mem kv.1 fields) kvs then Some kvs else None | _ => None end.

Definition field {A} (p : json → option A) (k : string) (kvs : list (string * json)) : option A := assoc k kvs ≫= p.
Definition field_or {A} (p : json → option A) (d : A) (k : string) (kvs : list (string * json)) : option A :=
  match assoc k kvs with Some v => p v | None => Some d end.

Definition p_str (v : json) : option string := match v with JStr s => Some s | _ => None end.
Definition p_enum {A} `{Texts A} (v : json) : option A := match v with JStr s => from_text s | _ => None end.
Definition p_const (c : string) (v : json) : option unit := if eqb v (JStr c) then Some tt else None.
Definition p_opt {A} (p : json → option A) (v : json) : option (option A) :=
  match v with JNull => Some None | _ => Some <$> p v end.
Definition p_tuple {A} (p : json → option A) (v : json) : option (list A) :=
  match v with JArr l => mapM p l | _ => None end.
Definition checked {A} (ok : A → bool) (a : A) : option A := if ok a then Some a else None.

Section validate.
Context `{Lax}.

Definition p_uuid (v : json) : option uuid := match v with JStr s => lax_uuid s | _ => None end.

Definition check_validate (v : json) : option BaselineCheck :=
  kvs ← closed ["baseline_id"; "phase"; "owner_disposition"; "comparison"; "evidence_refs"] v;
  id ← field p_uuid "baseline_id" kvs; phase ← field p_enum "phase" kvs;
  owner ← field p_enum "owner_disposition" kvs; comparison ← field p_str "comparison" kvs;
  refs ← field (p_tuple p_str) "evidence_refs" kvs;
  checked check_ok (mkCheck id phase owner comparison refs).

Definition assessment_validate (v : json) : option BaselineAssessment :=
  kvs ← closed ["baseline_id"; "phase"; "disposition"; "evidence_refs"] v;
  id ← field p_uuid "baseline_id" kvs; phase ← field p_enum "phase" kvs; d ← field p_enum "disposition" kvs;
  refs ← field (p_tuple p_str) "evidence_refs" kvs;
  checked assessment_ok (mkAssessment id phase d refs).

Definition finding_validate (v : json) : option ReviewFinding :=
  kvs ← closed ["finding_id"; "defect"; "evidence"; "consequence"; "affected_claim"; "minimum_clearing_condition"] v;
  id ← field p_str "finding_id" kvs; defect ← field p_str "defect" kvs; evidence ← field p_str "evidence" kvs;
  consequence ← field p_str "consequence" kvs; claim ← field p_str "affected_claim" kvs;
  clearing ← field p_str "minimum_clearing_condition" kvs;
  checked finding_ok (mkFinding id defect evidence consequence claim clearing).

Definition basis_validate (v : json) : option ReviewBasis :=
  kvs ← closed ["protocol"; "review_id"; "subject_work_id"; "subject_revision"; "review_kind"; "candidate_ref"; "mode";
    "upgrades_focused"; "finding_ids"; "requester_endpoint_id"; "requester_generation"; "policy_version";
    "guidelines_version"; "guidelines_digest"; "baseline_check"] v;
  field_or (p_const REVIEW_PROTOCOL) tt "protocol" kvs;;
  id ← field p_uuid "review_id" kvs; subject ← field p_uuid "subject_work_id" kvs;
  revision ← field p_str "subject_revision" kvs; kind ← field p_enum "review_kind" kvs;
  candidate ← field_or (p_opt p_str) None "candidate_ref" kvs; mode ← field p_enum "mode" kvs;
  upgrades ← field_or lax_bool false "upgrades_focused" kvs;
  ids ← field_or (p_tuple p_str) [] "finding_ids" kvs;
  requester ← field p_uuid "requester_endpoint_id" kvs; generation ← field lax_int "requester_generation" kvs;
  policy ← field p_str "policy_version" kvs; guidelines ← field p_str "guidelines_version" kvs;
  digest ← field p_str "guidelines_digest" kvs;
  check ← field_or (p_opt check_validate) None "baseline_check" kvs;
  checked basis_ok (mkBasis id subject revision kind candidate mode upgrades ids requester generation policy guidelines
    digest check).

Definition transition_validate (v : json) : option FocusedReviewTransition :=
  kvs ← closed ["prior_basis"; "prior_verdict_digest"; "prior_material_claim"; "prior_named_evidence";
    "changed_basis_fields"] v;
  basis ← field basis_validate "prior_basis" kvs; digest ← field p_str "prior_verdict_digest" kvs;
  claim ← field p_str "prior_material_claim" kvs; evidence ← field (p_tuple p_str) "prior_named_evidence" kvs;
  changed ← field (p_tuple p_enum) "changed_basis_fields" kvs;
  checked transition_ok (mkTransition basis digest claim evidence changed).

Definition brief_validate (v : json) : option CanonicalReviewBrief :=
  kvs ← closed ["basis"; "subject_title"; "material_claim"; "instructions"; "named_evidence"; "focused_from"] v;
  basis ← field basis_validate "basis" kvs; title ← field p_str "subject_title" kvs;
  claim ← field p_str "material_claim" kvs; instructions ← field (p_tuple p_str) "instructions" kvs;
  evidence ← field_or (p_tuple p_str) [] "named_evidence" kvs;
  focused ← field_or (p_opt transition_validate) None "focused_from" kvs;
  Some (mkBrief basis title claim instructions evidence focused).

Definition envelope_validate (v : json) : option ReviewEnvelope :=
  kvs ← closed ["type"; "brief"; "requester_name"; "requester_endpoint_id"; "reviewer_endpoint_id";
    "reviewer_principal_key"] v;
  type ← field p_enum "type" kvs; brief ← field brief_validate "brief" kvs;
  name ← field p_str "requester_name" kvs; requester ← field p_uuid "requester_endpoint_id" kvs;
  reviewer ← field_or (p_opt p_uuid) None "reviewer_endpoint_id" kvs;
  key ← field_or (p_opt p_str) None "reviewer_principal_key" kvs;
  Some (mkEnvelope type brief name requester reviewer key).

Definition bound_validate (v : json) : option ReviewerBound :=
  kvs ← closed ["type"; "review_id"; "reviewer_delivery_id"; "reviewer_name"] v;
  field_or (p_const "REVIEWER_BOUND") tt "type" kvs;;
  id ← field p_uuid "review_id" kvs; delivery ← field p_uuid "reviewer_delivery_id" kvs;
  name ← field p_str "reviewer_name" kvs;
  Some (mkBound id delivery name).

Definition outcome_validate (v : json) : option ReviewOutcome :=
  kvs ← closed ["type"; "review_id"; "reviewer_delivery_id"; "verdict"; "findings"; "evidence_refs";
    "context_provenance"; "baseline_assessment"; "verdict_digest"] v;
  field_or (p_const "REVIEW_OUTCOME") tt "type" kvs;;
  id ← field p_uuid "review_id" kvs; delivery ← field p_uuid "reviewer_delivery_id" kvs;
  verdict ← field p_enum "verdict" kvs; findings ← field (p_tuple finding_validate) "findings" kvs;
  refs ← field (p_tuple p_str) "evidence_refs" kvs; provenance ← field p_enum "context_provenance" kvs;
  assessment ← field_or (p_opt assessment_validate) None "baseline_assessment" kvs;
  digest ← field p_str "verdict_digest" kvs;
  checked outcome_ok (mkOutcome id delivery verdict findings refs provenance assessment digest).

Definition outcome_envelope_validate (v : json) : option ReviewOutcomeEnvelope :=
  kvs ← closed ["brief"; "outcome"] v;
  brief ← field brief_validate "brief" kvs; outcome ← field outcome_validate "outcome" kvs;
  Some (mkOutcomeEnvelope brief outcome).
End validate.

(** ** [model_validate] reads what [model_dump] wrote *)

Lemma from_text_text {A} `{Texts A} (a : A) :
  a ∈ values → NoDup (text_of <$> (values : list A)) → from_text (text_of a) = Some a.
Proof.
  unfold from_text. induction values as [|b l IH]; [by intros ?%not_elem_of_nil|]. cbn.
  intros [->|Ha]%elem_of_cons [Hb Hl]%NoDup_cons; [by rewrite String.eqb_refl|].
  destruct (String.eqb_spec (text_of b) (text_of a)) as [E|_]; [|by apply IH].
  destruct Hb. rewrite E. by apply list_elem_of_fmap_2.
Qed.

Ltac by_text := intros; apply from_text_text; [match goal with |- ?x ∈ _ => destruct x end; cbn; set_solver
  | cbn; by apply (bool_decide_unpack _)].

Lemma p_enum_kind (k : ReviewKind) : p_enum (jtext k) = Some k. Proof. by_text. Qed.
Lemma p_enum_mode (k : ReviewMode) : p_enum (jtext k) = Some k. Proof. by_text. Qed.
Lemma p_enum_verdict (k : ReviewVerdict) : p_enum (jtext k) = Some k. Proof. by_text. Qed.
Lemma p_enum_provenance (k : ContextProvenance) : p_enum (jtext k) = Some k. Proof. by_text. Qed.
Lemma p_enum_phase (k : BaselinePhase) : p_enum (jtext k) = Some k. Proof. by_text. Qed.
Lemma p_enum_owner (k : BaselineOwnerDisposition) : p_enum (jtext k) = Some k. Proof. by_text. Qed.
Lemma p_enum_disposition (k : BaselineDisposition) : p_enum (jtext k) = Some k. Proof. by_text. Qed.
Lemma p_enum_envelope (k : EnvelopeType) : p_enum (jtext k) = Some k. Proof. by_text. Qed.
Lemma p_enum_field (k : BasisField) : p_enum (jtext k) = Some k. Proof. by_text. Qed.

Lemma p_tuple_map {A} (p : json → option A) (f : A → json) l :
  (∀ a, a ∈ l → p (f a) = Some a) → p_tuple p (JArr (f <$> l)) = Some l.
Proof.
  intros Hp. unfold p_tuple. induction l as [|a l IH]; [done|]. cbn.
  rewrite (Hp a) by (by apply elem_of_cons; left). cbn. rewrite IH; [done|].
  intros b Hb. apply Hp. by apply elem_of_cons; right.
Qed.

Lemma p_tuple_strs l : p_tuple p_str (jstrs l) = Some l.
Proof. by apply p_tuple_map. Qed.

Lemma p_tuple_fields (l : list BasisField) : p_tuple p_enum (JArr (jtext <$> l)) = Some l.
Proof. apply p_tuple_map. intros a _. apply p_enum_field. Qed.

Lemma p_opt_str o : p_opt p_str (jopt o) = Some o.
Proof. by destruct o. Qed.

Lemma p_opt_model {A} (p : json → option A) (f : A → json) o :
  (∀ a, f a ≠ JNull) → (∀ a, o = Some a → p (f a) = Some a) → p_opt p (jmodel f o) = Some o.
Proof.
  intros Hn Hp. destruct o as [a|]; [|done]. cbn. unfold p_opt. specialize (Hn a). rewrite (Hp a eq_refl).
  by destruct (f a).
Qed.

Lemma p_str_text s : p_str (JStr s) = Some s.
Proof. done. Qed.

Lemma p_const_text c : p_const c (JStr c) = Some tt.
Proof. unfold p_const. by rewrite eqb_refl. Qed.

Lemma checked_ok {A} (ok : A → bool) a : ok a = true → checked ok a = Some a.
Proof. unfold checked. by intros ->. Qed.

#[warnings="-implicit-create-rewrite-hint-db"]
Create Rewrite HintDb dump.
#[export] Hint Rewrite p_enum_kind p_enum_mode p_enum_verdict p_enum_provenance p_enum_phase p_enum_owner
  p_enum_disposition p_enum_envelope p_enum_field p_tuple_strs p_tuple_fields p_opt_str p_str_text p_const_text : dump.

Section round_trip.
Context `{LaxLaws}.
Set Default Proof Using "Type*".

Lemma p_uuid_uuid u : is_uuid u = true → p_uuid (JStr u) = Some u.
Proof. apply lax_uuid_uuid. Qed.

Lemma p_opt_uuid o : opt_ok is_uuid o = true → p_opt p_uuid (jopt o) = Some o.
Proof. destruct o as [u|]; [|done]. cbn. intros Hu. unfold p_opt. cbn. by rewrite lax_uuid_uuid. Qed.

Lemma closed_obj fields kvs : forallb (λ kv : string * json, mem kv.1 fields) kvs = true → closed fields (JObj kvs) = Some kvs.
Proof. cbn. by intros ->. Qed.

Definition check_wf (c : BaselineCheck) : bool := is_uuid (ck_baseline_id c) && check_ok c.
Definition assessment_wf (a : BaselineAssessment) : bool := is_uuid (as_baseline_id a) && assessment_ok a.
Definition basis_wf (b : ReviewBasis) : bool :=
  is_uuid (b_review_id b) && is_uuid (b_subject b) && is_uuid (b_requester b) && opt_ok check_wf (b_check b) && basis_ok b.
Definition transition_wf (t : FocusedReviewTransition) : bool := basis_wf (ft_basis t) && transition_ok t.
Definition brief_wf (b : CanonicalReviewBrief) : bool := basis_wf (br_basis b) && opt_ok transition_wf (br_focused b).
Definition envelope_wf (e : ReviewEnvelope) : bool :=
  brief_wf (en_brief e) && is_uuid (en_requester e) && opt_ok is_uuid (en_reviewer e).
Definition outcome_wf (o : ReviewOutcome) : bool :=
  is_uuid (oc_review_id o) && is_uuid (oc_delivery o) && opt_ok assessment_wf (oc_assessment o) && outcome_ok o.

Lemma opt_ok_Some {A} (p : A → bool) o a : opt_ok p o = true → o = Some a → p a = true.
Proof. by intros Ho ->. Qed.

(** Reads the fields of a written object one after the other. *)
Ltac read_model :=
  try match goal with |- context [closed ?f (JObj ?k)] => rewrite (closed_obj f k eq_refl) end; unfold field, field_or;
  repeat first
    [ progress cbn [mbind option_bind assoc String.eqb Ascii.eqb Bool.eqb]
    | rewrite p_uuid_uuid by done | rewrite p_opt_uuid by done | rewrite lax_int_int | rewrite lax_bool_bool
    | progress autorewrite with dump ].

Lemma check_read c : check_wf c = true → check_validate (check_json c) = Some c.
Proof.
  unfold check_wf. rewrite andb_true_iff. intros [Hu Hc]. unfold check_validate, check_json. read_model.
  rewrite checked_ok; by destruct c.
Qed.

Lemma assessment_read a : assessment_wf a = true → assessment_validate (assessment_json a) = Some a.
Proof.
  unfold assessment_wf. rewrite andb_true_iff. intros [Hu Hc]. unfold assessment_validate, assessment_json. read_model.
  rewrite checked_ok; by destruct a.
Qed.

Lemma finding_read f : finding_ok f = true → finding_validate (finding_json f) = Some f.
Proof.
  intros Hf. unfold finding_validate, finding_json. read_model.
  rewrite checked_ok; by destruct f.
Qed.

Lemma basis_read b : basis_wf b = true → basis_validate (basis_json b) = Some b.
Proof.
  unfold basis_wf. rewrite !andb_true_iff. intros ((((H1 & H2) & H3) & H4) & H5). unfold basis_validate, basis_json. read_model.
  rewrite p_opt_model; [|done|intros c Hc; apply check_read; by apply (opt_ok_Some _ (b_check b))].
  cbn [mbind option_bind]. rewrite checked_ok; by destruct b.
Qed.

Lemma transition_read t : transition_wf t = true → transition_validate (transition_json t) = Some t.
Proof.
  unfold transition_wf. rewrite andb_true_iff. intros [H1 H2]. unfold transition_validate, transition_json. read_model.
  rewrite basis_read by done. read_model. rewrite checked_ok; by destruct t.
Qed.

Lemma brief_read b : brief_wf b = true → brief_validate (brief_json b) = Some b.
Proof.
  unfold brief_wf. rewrite andb_true_iff. intros [H1 H2]. unfold brief_validate, brief_json. read_model.
  rewrite basis_read by done. cbn [mbind option_bind]. autorewrite with dump.
  rewrite p_opt_model; [|done|intros t Ht; apply transition_read; by apply (opt_ok_Some _ (br_focused b))].
  by destruct b.
Qed.

(** A stored envelope is read as the one that was sent. *)
Lemma envelope_read e : envelope_wf e = true → envelope_validate (envelope_json e) = Some e.
Proof.
  unfold envelope_wf. rewrite !andb_true_iff. intros [[H1 H2] H3]. unfold envelope_validate, envelope_json. read_model.
  rewrite brief_read by done. read_model. by destruct e.
Qed.

Lemma outcome_read o : outcome_wf o = true → outcome_validate (outcome_json o) = Some o.
Proof.
  unfold outcome_wf. rewrite !andb_true_iff. intros [[[H1 H2] H3] H4]. unfold outcome_validate, outcome_json. read_model.
  rewrite p_tuple_map.
  2: { intros f Hf. apply finding_read. unfold outcome_ok in H4. rewrite !andb_true_iff, forallb_forall in H4.
       apply H4. by apply list_elem_of_In. }
  read_model. rewrite p_opt_model; [|done|intros a Ha; apply assessment_read; by apply (opt_ok_Some _ (oc_assessment o))].
  read_model. rewrite checked_ok; by destruct o.
Qed.

Lemma outcome_envelope_read e : brief_wf (oe_brief e) = true → outcome_wf (oe_outcome e) = true →
  outcome_envelope_validate (outcome_envelope_json e) = Some e.
Proof.
  intros Hb Ho. unfold outcome_envelope_validate, outcome_envelope_json. read_model. rewrite brief_read by done.
  read_model. rewrite outcome_read by done. by destruct e.
Qed.

(** *** What is read is well formed *)

Lemma checked_Some {A} (ok : A → bool) (a b : A) : checked ok a = Some b → b = a ∧ ok b = true.
Proof. unfold checked. destruct (ok a) eqn:E; [|done]. by intros [= <-]. Qed.

Lemma p_uuid_Some v u : p_uuid v = Some u → is_uuid u = true.
Proof. destruct v; try done. apply lax_uuid_canonical. Qed.

Lemma field_Some {A} (p : json → option A) k kvs a : field p k kvs = Some a → ∃ v, p v = Some a.
Proof. unfold field. intros (v & _ & Hv)%bind_Some. by exists v. Qed.

Lemma field_or_Some {A} (p : json → option A) d k kvs a : field_or p d k kvs = Some a → a = d ∨ ∃ v, p v = Some a.
Proof. unfold field_or. destruct (assoc k kvs) as [v|]; [right; by exists v|]. intros [= ->]. by left. Qed.

Lemma p_opt_Some {A} (p : json → option A) v o : p_opt p v = Some o → o = None ∨ ∃ a, o = Some a ∧ p v = Some a.
Proof.
  unfold p_opt. destruct v; [intros [= <-]; by left|..];
    intros (a & Ha & ->)%fmap_Some; right; by exists a.
Qed.

(** The fields of a read object. *)
Ltac read_fields H :=
  repeat match type of H with
  | closed _ _ ≫= _ = Some _ => let kvs := fresh "kvs" in apply bind_Some in H as (kvs & _ & H)
  | field _ _ _ ≫= _ = Some _ =>
      let a := fresh "a" in let Ha := fresh "Ha" in apply bind_Some in H as (a & Ha & H); apply field_Some in Ha as [? Ha]
  | field_or _ _ _ _ ≫= _ = Some _ =>
      let a := fresh "a" in let Ha := fresh "Ha" in apply bind_Some in H as (a & Ha & H); apply field_or_Some in Ha
  end.

Lemma opt_field_wf {A} (p : json → option A) (ok : A → bool) o :
  (∀ v a, p v = Some a → ok a = true) → (o = None ∨ ∃ v, p_opt p v = Some o) → opt_ok ok o = true.
Proof.
  intros Hp [->|(v & [->|(a & -> & Ha)]%p_opt_Some)]; [done..|]. by apply (Hp v).
Qed.

Lemma check_wf_read v c : check_validate v = Some c → check_wf c = true.
Proof.
  unfold check_validate. intros Hv. read_fields Hv. apply checked_Some in Hv as [-> Hok].
  unfold check_wf. rewrite Hok, andb_true_r. by apply p_uuid_Some in Ha.
Qed.

Lemma basis_wf_read v b : basis_validate v = Some b → basis_wf b = true.
Proof.
  unfold basis_validate. intros Hv. read_fields Hv. apply checked_Some in Hv as [-> Hok].
  unfold basis_wf. rewrite Hok, andb_true_r. cbn.
  rewrite (p_uuid_Some _ _ Ha0), (p_uuid_Some _ _ Ha1), (p_uuid_Some _ _ Ha8). cbn.
  apply (opt_field_wf check_validate); [apply check_wf_read | done].
Qed.

Lemma transition_wf_read v t : transition_validate v = Some t → transition_wf t = true.
Proof.
  unfold transition_validate. intros Hv. read_fields Hv. apply checked_Some in Hv as [-> Hok].
  unfold transition_wf. rewrite Hok, andb_true_r. by apply basis_wf_read in Ha.
Qed.

Lemma brief_wf_read v b : brief_validate v = Some b → brief_wf b = true.
Proof.
  unfold brief_validate. intros Hv. read_fields Hv. injection Hv as <-. unfold brief_wf. cbn.
  rewrite (basis_wf_read _ _ Ha). cbn. apply (opt_field_wf transition_validate); [apply transition_wf_read | done].
Qed.

Lemma envelope_wf_read v e : envelope_validate v = Some e → envelope_wf e = true.
Proof.
  unfold envelope_validate. intros Hv. read_fields Hv. injection Hv as <-. unfold envelope_wf. cbn.
  rewrite (brief_wf_read _ _ Ha0), (p_uuid_Some _ _ Ha2). cbn.
  apply (opt_field_wf p_uuid); [apply p_uuid_Some | done].
Qed.
End round_trip.
