(* ===== verification/Reviews.v ===== *)
(** * Review occurrences ([ReviewOccurrenceState] of [reviews.py])

    A review is a canonical work of type REVIEW under its subject, and the
    typed messages about it: its bases, the requests for a reviewer and the
    outcomes.  The reads find these messages in the message tables and accept
    only those whose identifiers, parties and digests fit their content.

    Parameters: pydantic's lax reading of JSON ([Lax]), the title fold of
    [Tracker], and the version of the review policy.  A read sees one state;
    [func.now()] is an argument. *)

From stdpp Require Import pretty.
From S2P Require Import Prelude WeakestPre Tables Json Codec Tracker Store.
From S2P Require Export ReviewModels.
From S2P Require HumanReviews Mailboxes Messages WorkState Controller.

Local Open Scope Z_scope.

#[local] Existing Instance Messages.Kind_eq_dec.

Definition REVIEW_NAMESPACE : uuid := "d966cd4f-9994-4f6f-99cc-6ccca873542d".
Definition COORDINATOR_MAILBOX : string := "Coordinator".
Definition AUDIT_RECOVERY_MAILBOX : string := "Codex Audit Recovery".

(** ** Identifiers *)

(** [_digest] *)
Definition _digest (v : json) : string := sha256_hex (dumps_compact v).

(** [_stable] *)
Definition _stable (label : string) (parts : list string) : uuid :=
  uuid5 REVIEW_NAMESPACE (str_join (String "000" "") (label :: parts)).

(** [_request_message_id] *)
Definition _request_message_id (b : ReviewBasis) (recipient : uuid) : uuid :=
  _stable (if b_upgrades b then "reviewer-upgrade" else "reviewer-request") [b_review_id b; b_revision b; recipient].

(** [_basis_message_id] *)
Definition _basis_message_id (b : ReviewBasis) : uuid := _stable "basis" [b_review_id b; _digest (basis_json b)].

(** ** The policy *)

(** [ReviewPolicy.reviewer_name] *)
Definition reviewer_name (kind : ReviewKind) : string := AUDIT_RECOVERY_MAILBOX.

(** [ReviewPolicy.accepts_reviewer] *)
Definition accepts_reviewer (name : string) (kind : ReviewKind) : bool :=
  mem name [reviewer_name kind; COORDINATOR_MAILBOX].

(** [ReviewPolicy.eligible] *)
Definition eligible (requester reviewer : Mailboxes.AgentMailbox) : bool :=
  negb (eqb (Mailboxes.endpoint_id requester) (Mailboxes.endpoint_id reviewer)).

(** ** Records *)

(** [_ReviewRecord] *)
Record ReviewRecord := mkRecord {
  r_delivery : Messages.PendingMessage; r_reply_to : option uuid; r_created_at : Z; r_received_at : option Z;
  r_dispositioned_at : option Z }.

Definition review_record (xm : Messages.DeliveryRow * Messages.MessageRow) : ReviewRecord :=
  mkRecord (Messages._view xm) (Messages.m_in_reply_to xm.2) (Messages.m_created_at xm.2)
    (Messages.d_received_at xm.1) (Messages.d_dispositioned_at xm.1).

(** [payload[k1][k2]....astext]; of a list or an object any text that is no
    UUID. *)
Fixpoint astext (path : list string) (v : json) : option string :=
  match path, v with
  | [], JNull => None
  | [], JStr s => Some s
  | [], JBool b => Some (if b then "true" else "false")%string
  | [], JInt z => Some (pretty z)
  | [], v => Some (dumps_sorted v)
  | k :: path', JObj kvs => match assoc k kvs with Some v' => astext path' v' | None => None end
  | _, _ => None
  end.

Definition REVIEW_ROUTES : list string := ["review.request"; "review.acquisition"; "review.outcome"].

Definition basis_text (field : string) (m : Messages.MessageRow) : option string :=
  astext ["brief"; "basis"; field] (Messages.m_payload m).

Definition about_review (review : uuid) (m : Messages.MessageRow) : bool :=
  mem (Messages.m_route_ref m) REVIEW_ROUTES
  && (eqb (basis_text "review_id" m) (Some review) || eqb (astext ["review_id"] (Messages.m_payload m)) (Some review)).

Definition record_leb (a b : ReviewRecord) : bool :=
  (r_created_at a <? r_created_at b)
  || ((r_created_at a =? r_created_at b)
      && str_leb (Messages.p_delivery_id (r_delivery a)) (Messages.p_delivery_id (r_delivery b))).

(** [records] *)
Definition records (review : uuid) (d : StoreDB) : list ReviewRecord :=
  py_sort record_leb (review_record <$> List.filter (λ xm, about_review review xm.2) (Messages.joined (mail d))).

(** The mailbox that a read of the registrations finds. *)
Definition found_mailbox (x : res Mailboxes.MailboxResult) : option Mailboxes.AgentMailbox :=
  match x with Ok (Mailboxes.mb_ok m) => Some m | _ => None end.
Definition mailbox_by_endpoint (endpoint : uuid) (d : StoreDB) : option Mailboxes.AgentMailbox :=
  found_mailbox (Mailboxes.by_endpoint_id endpoint (Messages.agents (mail d))).2.
Definition mailbox_by_name (name : string) (d : StoreDB) : option Mailboxes.AgentMailbox :=
  found_mailbox (Mailboxes.by_name name (Messages.agents (mail d))).2.

Section occurrences.
Context `{Lax} (policy_version : string).

Definition r_sender (r : ReviewRecord) : uuid := Messages.p_sender (r_delivery r).
Definition r_recipient (r : ReviewRecord) : uuid := Messages.p_recipient (r_delivery r).
Definition r_delivery_id (r : ReviewRecord) : uuid := Messages.p_delivery_id (r_delivery r).

(** A request of the route, which replies to nothing. *)
Definition is_typed (route : string) (r : ReviewRecord) : bool :=
  eqb (Messages.p_route_ref (r_delivery r)) route && eqb (Messages.p_kind (r_delivery r)) Messages.request
  && is_none (r_reply_to r).

(** [request_envelope] *)
Definition request_envelope (r : ReviewRecord) : option ReviewEnvelope :=
  envelope ← envelope_validate (Messages.p_payload (r_delivery r));
  let basis := br_basis (en_brief envelope) in
  if eqb (en_type envelope) REVIEW_REQUEST && eqb (en_requester envelope) (b_requester basis)
     && is_typed "review.request" r
     && eqb (Messages.p_message_id (r_delivery r)) (_request_message_id basis (r_recipient r))
     && mem (en_reviewer envelope) [None; Some (r_recipient r)]
  then Some envelope else None.

(** [basis_envelope] *)
Definition basis_envelope (r : ReviewRecord) : option ReviewEnvelope :=
  envelope ← envelope_validate (Messages.p_payload (r_delivery r));
  let basis := br_basis (en_brief envelope) in
  if eqb (en_type envelope) REVIEWER_ACQUISITION && eqb (en_requester envelope) (b_requester basis)
     && is_typed "review.acquisition" r
     && eqb (Messages.p_message_id (r_delivery r)) (_basis_message_id basis)
     && eqb (r_sender r) (b_requester basis) && eqb (r_recipient r) (b_review_id basis)
  then Some envelope else None.

Definition source_basis (s : ReviewRecord * ReviewEnvelope) : ReviewBasis := br_basis (en_brief s.2).

(** The records that read as an envelope about the review. *)
Definition sources_by (read : ReviewRecord → option ReviewEnvelope) (review : uuid) (d : StoreDB)
  : list (ReviewRecord * ReviewEnvelope) :=
  omap (λ r, envelope ← read r;
             if eqb (b_review_id (br_basis (en_brief envelope))) review then Some (r, envelope) else None)
    (records review d).

(** [basis_sources] *)
Definition basis_sources : uuid → StoreDB → list (ReviewRecord * ReviewEnvelope) := sources_by basis_envelope.

(** [stored_request_sources] *)
Definition stored_request_sources : uuid → StoreDB → list (ReviewRecord * ReviewEnvelope) := sources_by request_envelope.

(** A record that asks the coordinator for a reviewer of the basis. *)
Definition acquires (basis : ReviewBasis) (coordinator : uuid) (r : ReviewRecord) : bool :=
  is_typed "review.acquisition" r
  && eqb (Messages.p_message_id (r_delivery r)) (_stable "acquisition" [b_review_id basis; b_revision basis])
  && eqb (r_sender r) (b_requester basis) && eqb (r_recipient r) coordinator.

(** [_acquisition] *)
Definition _acquisition (rs : list ReviewRecord) (basis : ReviewBasis) (coordinator : uuid) : option ReviewRecord :=
  List.find (λ r,
    match envelope_validate (Messages.p_payload (r_delivery r)) with
    | None => false
    | Some envelope => eqb (en_type envelope) REVIEWER_ACQUISITION && eqb (br_basis (en_brief envelope)) basis
                       && acquires basis coordinator r
    end) rs.

(** [_bound] *)
Definition binds (acquisition request : ReviewRecord) (basis : ReviewBasis) (r : ReviewRecord) : option ReviewerBound :=
  bound ← bound_validate (Messages.p_payload (r_delivery r));
  if eqb (Messages.p_route_ref (r_delivery r)) "review.acquisition"%string
     && eqb (Messages.p_kind (r_delivery r)) Messages.result
     && eqb (r_reply_to r) (Some (r_delivery_id acquisition)) && eqb (r_sender r) (r_sender request)
     && eqb (r_recipient r) (b_requester basis)
     && eqb (Messages.p_message_id (r_delivery r))
          (_stable "reviewer-bound" [b_review_id basis; r_delivery_id acquisition])
     && eqb (bd_review_id bound) (b_review_id basis) && eqb (bd_delivery bound) (r_delivery_id request)
  then Some bound else None.

Definition _bound (rs : list ReviewRecord) (request : ReviewRecord) (basis : ReviewBasis) : option ReviewerBound :=
  acquisition ← _acquisition rs basis (r_sender request);
  head (omap (binds acquisition request basis) rs).

(** Whether a request is one to the reviewer it was made for, from the
    requester or from a coordinator that bound the reviewer. *)
Definition request_source (rs : list ReviewRecord) (review : uuid) (d : StoreDB) (r : ReviewRecord)
  : option (ReviewRecord * ReviewEnvelope * option ReviewerBound) :=
  envelope ← request_envelope r;
  let basis := br_basis (en_brief envelope) in
  if negb (eqb (b_review_id basis) review) then None
  else
    reviewer ← mailbox_by_endpoint (r_recipient r) d;
    if negb (eqb (b_policy basis) policy_version) || negb (accepts_reviewer (Mailboxes.name reviewer) (b_kind basis))
       || negb (Messages.p_grant_version (r_delivery r) =? Mailboxes.generation reviewer)
       || negb (mem (en_reviewer_key envelope) [None; Some (Mailboxes.principal_key reviewer)])
    then None
    else if negb (eqb (r_sender r) (b_requester basis))
    then
      bound ← _bound rs r basis;
      if eqb (bd_name bound) (Mailboxes.name reviewer) then Some (r, envelope, Some bound) else None
    else Some (r, envelope, None).

(** [request_sources] *)
Definition request_sources (review : uuid) (d : StoreDB) : list (ReviewRecord * ReviewEnvelope * option ReviewerBound) :=
  let rs := records review d in omap (request_source rs review d) rs.

(** [acquisition_sources] *)
Definition acquisition_sources (review : uuid) (d : StoreDB) : list (ReviewRecord * ReviewEnvelope) :=
  match mailbox_by_name COORDINATOR_MAILBOX d with
  | None => []
  | Some coordinator =>
      omap (λ r,
        envelope ← envelope_validate (Messages.p_payload (r_delivery r));
        let basis := br_basis (en_brief envelope) in
        if eqb (en_type envelope) REVIEWER_ACQUISITION && eqb (b_review_id basis) review
           && eqb (en_requester envelope) (b_requester basis)
           && acquires basis (Mailboxes.endpoint_id coordinator) r
        then Some (r, envelope) else None)
        (records review d)
  end.

(** [ReviewSubmit(...)] of a stored outcome. *)
Definition verdict_of (o : ReviewOutcome) : ReviewSubmit :=
  mkReviewSubmit (oc_review_id o) (oc_verdict o) (oc_findings o) (oc_evidence_refs o) (oc_provenance o) (oc_assessment o).

Abbreviation OutcomeSource := (ReviewRecord * ReviewOutcomeEnvelope)%type (only parsing).

(** [found[digest] = record, envelope] *)
Fixpoint put_outcome (o : OutcomeSource) (found : list OutcomeSource) : list OutcomeSource :=
  match found with
  | [] => [o]
  | o' :: found' =>
      if eqb (oc_digest (oe_outcome o'.2)) (oc_digest (oe_outcome o.2)) then o :: found' else o' :: put_outcome o found'
  end.

(** The outcome answers the request: its message is the reviewer's one reply,
    and its digest that of its verdict. *)
Definition answers (review : uuid) (request : ReviewRecord * ReviewEnvelope) (r : ReviewRecord)
    (e : ReviewOutcomeEnvelope) : bool :=
  eqb (oe_brief e) (en_brief request.2) && eqb (oc_review_id (oe_outcome e)) review
  && eqb (oc_digest (oe_outcome e)) (_digest (review_submit_json (verdict_of (oe_outcome e))))
  && eqb (Messages.p_route_ref (r_delivery r)) "review.request"%string
  && eqb (Messages.p_kind (r_delivery r)) Messages.result
  && eqb (r_reply_to r) (Some (r_delivery_id request.1)) && eqb (r_sender r) (r_recipient request.1)
  && eqb (r_recipient r) (r_sender request.1)
  && eqb (Messages.p_message_id (r_delivery r)) (_stable "verdict" [review; r_delivery_id request.1]).

(** The loop of [outcome_sources]; a stored outcome whose verdict is not valid
    raises. *)
Fixpoint collect_outcomes (review : uuid) (sources : list (ReviewRecord * ReviewEnvelope)) (found : list OutcomeSource)
    (rs : list ReviewRecord) : res (list OutcomeSource) :=
  match rs with
  | [] => Ok found
  | r :: rs' =>
      match outcome_envelope_validate (Messages.p_payload (r_delivery r)) with
      | None => collect_outcomes review sources found rs'
      | Some e =>
          match List.find (λ s, eqb (r_delivery_id s.1) (oc_delivery (oe_outcome e))) sources with
          | None => collect_outcomes review sources found rs'
          | Some request =>
              raise_if (negb (review_submit_ok (verdict_of (oe_outcome e)))) ValueError "validation error";;
              collect_outcomes review sources (if answers review request r e then put_outcome (r, e) found else found) rs'
          end
      end
  end.

(** [outcome_sources] *)
Definition outcome_sources (review : uuid) (request : option (ReviewRecord * ReviewEnvelope)) (d : StoreDB)
  : res (list OutcomeSource) :=
  let sources := match request with Some s => [s] | None => (λ s, s.1) <$> request_sources review d end in
  collect_outcomes review sources [] (records review d).

(** [outcome_envelopes] *)
Definition outcome_envelopes (review : uuid) (d : StoreDB) : res (list ReviewOutcomeEnvelope) :=
  found ← outcome_sources review None d; Ok (map snd found).

(** ** What others read *)

(** The row version of a work, if it exists, and whether the work is at the
    revision. *)
Definition at_revision (work : uuid) (revision : string) (d : StoreDB) : option (res bool) :=
  (λ r, actual ← canonical_revision work (row_version (item_of r)); Ok (eqb actual revision)) <$> works (s_tracker d) !! work.

Inductive PassStatus := PROOF_PASS | NOT_PASS | PROOF_UNKNOWN.

#[global] Instance PassStatus_eq_dec : EqDecision PassStatus.
Proof. solve_decision. Defined.

(** The distinct review identifiers of the messages about the subject at the
    revision. *)
Definition review_ids (extra : Messages.MessageRow → bool) (subject : uuid) (revision : string) (d : StoreDB)
  : list string :=
  remove_dups (omap (λ m,
    if eqb (basis_text "subject_work_id" m) (Some subject) && eqb (basis_text "subject_revision" m) (Some revision)
       && extra m
    then t ← basis_text "review_id" m; if truthy t then Some t else None
    else None) (Messages.messages (mail d))).

(** [{UUID(value) for value in ...}] *)
Definition parse_ids (l : list string) : option (list uuid) := remove_dups <$> mapM (λ s, UUID (codes s)) l.

Definition outcome_passes (subject : uuid) (revision : string) (kind : ReviewKind) (candidate : option string)
    (e : ReviewOutcomeEnvelope) : bool :=
  let b := br_basis (oe_brief e) in
  eqb (b_subject b) subject && eqb (b_revision b) revision && eqb (b_kind b) kind && eqb (b_candidate b) candidate
  && eqb (oc_verdict (oe_outcome e)) PASS.

Fixpoint any_passes (p : ReviewOutcomeEnvelope → bool) (ids : list string) (d : StoreDB) : res bool :=
  match ids with
  | [] => Ok false
  | s :: ids' =>
      match UUID (codes s) with
      | None => raise ValueError "badly formed hexadecimal UUID string"
      | Some review =>
          found ← outcome_envelopes review d; rest ← any_passes p ids' d;
          Ok (existsb p found || rest)
      end
  end.

(** What [except (SQLAlchemyError, TypeError, ValueError)] makes of a read. *)
Definition or_unknown {A} (answer : A) (x : res A) : res A :=
  match x with
  | Err e => if existsb (exn_isinstance (exn_cls e)) [SQLAlchemyError; TypeError; ValueError] then Ok answer else Err e
  | Ok a => Ok a
  end.

(** [pass_status_in_transaction] *)
Definition pass_status_in_transaction (subject : uuid) (revision : string) (kind : ReviewKind)
    (candidate : option string) (d : StoreDB) : res PassStatus :=
  or_unknown PROOF_UNKNOWN
    match at_revision subject revision d with
    | None => Ok PROOF_UNKNOWN
    | Some current =>
        current ← current;
        if negb (current : bool) then Ok NOT_PASS
        else
          passes ← any_passes (outcome_passes subject revision kind candidate)
                     (review_ids (λ _, true) subject revision d) d;
          Ok (if (passes : bool) then PROOF_PASS else NOT_PASS)
    end.

(** [BaselineReviewProof]; its phase is a constant. *)
Inductive BaselineReviewProof :=
  | proof_pass (baseline : uuid) (review : uuid) (digest : string)
  | proof_not_pass
  | proof_unknown.

Definition pre_implementation (subject : uuid) (revision : string) (b : ReviewBasis) : bool :=
  eqb (b_subject b) subject && eqb (b_revision b) revision
  && match b_check b with Some c => eqb (ck_phase c) PRE_IMPLEMENTATION | None => false end.

(** The messages that reply to the request, whatever they say. *)
Definition raw_outcomes (review : uuid) (request : ReviewRecord) (d : StoreDB) : list ReviewRecord :=
  List.filter (λ r, eqb (Messages.p_route_ref (r_delivery r)) "review.request"%string
                    && eqb (Messages.p_kind (r_delivery r)) Messages.result
                    && eqb (r_reply_to r) (Some (r_delivery_id request))) (records review d).

(** The loop's body for the one review of the subject. *)
Definition baseline_proof (review subject : uuid) (revision : string) (d : StoreDB) : res BaselineReviewProof :=
  let mine s := pre_implementation subject revision (source_basis s) in
  match List.filter mine (basis_sources review d), List.filter mine (stored_request_sources review d) with
  | [basis], [request] =>
      if negb (eqb (source_basis request) (source_basis basis)) then Ok proof_unknown
      else
        found ← outcome_sources review (Some request) d;
        let outcomes := List.filter (λ o : ReviewRecord * ReviewOutcomeEnvelope,
                                       eqb (br_basis (oe_brief o.2)) (source_basis basis)) found in
        if (1 <? length outcomes)%nat || negb (length (raw_outcomes review request.1 d) =? length outcomes)%nat
        then Ok proof_unknown
        else
          match outcomes, b_check (source_basis basis) with
          | [], _ => Ok proof_not_pass
          | o :: _, Some check =>
              let outcome := oe_outcome o.2 in
              match oc_assessment outcome with
              | None => Ok proof_unknown
              | Some a =>
                  if negb (eqb (as_baseline_id a) (ck_baseline_id check)) || negb (eqb (as_phase a) (ck_phase check))
                  then Ok proof_unknown
                  else if eqb (oc_verdict outcome) PASS && eqb (as_disposition a) BASELINE_PRESERVED
                  then Ok (proof_pass (ck_baseline_id check) review (oc_digest outcome))
                  else Ok proof_not_pass
              end
          | _, None => raise AssertionError ""
          end
  | _, _ => Ok proof_unknown
  end.

(** [baseline_pass_status_in_transaction] *)
Definition baseline_pass_status_in_transaction (subject : uuid) (revision : string) (d : StoreDB)
  : res BaselineReviewProof :=
  or_unknown proof_unknown
    match at_revision subject revision d with
    | None => Ok proof_unknown
    | Some current =>
        current ← current;
        if negb (current : bool) then Ok proof_not_pass
        else
          let ids := review_ids (λ m, eqb (astext ["brief"; "basis"; "baseline_check"; "phase"] (Messages.m_payload m))
                                        (Some "PRE_IMPLEMENTATION"%string)) subject revision d in
          match parse_ids ids with
          | None => Ok proof_unknown
          | Some [] => Ok proof_not_pass
          | Some [review] => baseline_proof review subject revision d
          | Some _ => Ok proof_unknown
          end
    end.
End occurrences.
