(* ===== verification/ReviewService.v ===== *)
(** * The review service ([ReviewService] of [reviews.py])

    A requester asks for a review of its work, which makes the occurrence, its
    basis and the request to the reviewer in one transaction; it reads the
    review with [get]; the reviewer recovers a request under a new binding and
    submits one verdict.

    Parameters, besides those of [Reviews]: the versions of the policy and of
    the guidelines.  [others n] is what other calls commit before the [n]-th
    read or transaction of a call, and [clock n] is [func.now()] there; a
    transaction locks the rows of the occurrence or the delivery it is about,
    which is its atomicity. *)

From stdpp Require Import pretty.
From S2P Require Import Prelude WeakestPre Tables Json Codec Tracker Store Reviews.
From S2P Require HumanReviews Mailboxes Messages WorkState Controller DurableCapture.

Local Open Scope Z_scope.

#[local] Existing Instance Messages.Kind_eq_dec.
#[local] Existing Instance Messages.DeliveryState_eq_dec.
#[local] Existing Instance Messages.Status_eq_dec.
#[local] Existing Instance Mailboxes.AgentMailbox_eq_dec.
#[local] Existing Instance DurableCapture.FindingRef_eq_dec.

(** ** Results *)

Inductive ReviewStatus :=
  | SENT | SUBMITTED | WAITING_REVIEWER | REQUEST_UNPICKED | RECEIVED | ended (v : ReviewVerdict)
  | STALE | DENIED | UNKNOWN.

#[export] Instance ReviewStatus_eq_dec : EqDecision ReviewStatus.
Proof. solve_decision. Defined.

Record ReviewResult := mkResult {
  rr_status : ReviewStatus; rr_review : option uuid; rr_delivery : option uuid; rr_verdict : option ReviewVerdict;
  rr_findings : list ReviewFinding; rr_evidence_refs : list string; rr_assessment : option BaselineAssessment;
  rr_digest : option string; rr_reason : option string; rr_next_action : string;
  rr_capture : option DurableCapture.DurableCaptureGuidance }.

Definition is_terminal (s : ReviewStatus) : bool := match s with ended _ => true | _ => false end.

(** [exact_result]: the shape that it demands. *)
Definition exact_shape (r : ReviewResult) : bool :=
  match rr_status r with
  | WAITING_REVIEWER => is_some (rr_review r) && is_some (rr_reason r)
  | SENT | SUBMITTED | REQUEST_UNPICKED | RECEIVED | ended _ =>
      is_some (rr_review r) && is_some (rr_delivery r) && is_none (rr_reason r)
  | _ => is_some (rr_reason r)
  end
  && Bool.eqb (is_terminal (rr_status r)) (is_some (rr_verdict r) && is_some (rr_digest r))
  && (is_terminal (rr_status r)
      || (eqb (rr_findings r) [] && eqb (rr_evidence_refs r) [] && is_none (rr_assessment r))).

Definition quoted (s : string) : string := String.append "'" (String.append s "'").

(** The default of [next_action]. *)
Definition default_action (s : ReviewStatus) (review reason : option string) : string :=
  match s with
  | ended FINDINGS => "Evaluate and disposition each exact finding against evidence. For accepted defects only, make the smallest authorized clearing change, then call review_request(mode=FOCUSED, prior_review_id=<this review_id>, finding_ids=<accepted finding_ids>, observed_revision=<new revision>); do not silently accept a reviewer remedy or scope expansion."
  | ended PASS => "PASS is evidence, not scope or effect authority. Read the subject work with work_get, recover its concrete post-review step from the current authorized plan, record review_next_action, and perform that step now. Do not end the turn merely because review passed."
  | ended BLOCKED => "Resolve the stated blocker or replan; do not start another broad review automatically."
  | SUBMITTED => "Reviewer verdict submitted. Do not call requester-only review_get. Resume other currently assigned inbound review work, or close this review-only assignment only when its terminal condition is truly met."
  | WAITING_REVIEWER => "No eligible reviewer is available, so no reviewer delivery exists; this is distinct from REQUEST_UNPICKED. Preserve this exact review_id and bounded watch, continue other owned work with limited rechecks, and report a genuine actor/capability blocker if a reviewer cannot be activated; do not create a duplicate request."
  | SENT | REQUEST_UNPICKED | RECEIVED =>
      String.append "No verdict yet. Do not end the turn. While this chat can run, use supported bounded active polling: Bash sleep 20, then review_get(review_id="
        (String.append (quoted (default "None" review))
           "), repeatedly. Sleep before the first poll after review_request too. Every pending response requires another sleep and poll until PASS, FINDINGS, or BLOCKED, then perform the returned next_action. An empty read is nonterminal. At a real host/session limit, preserve the exact review_id and state for continuation; do not use an hourly Scheduled task as a substitute.")
  | _ => String.append "Reconcile " (String.append (default "review state" reason)
           " before retrying; do not retry blindly.")
  end%string.

(** The default of [durable_capture]; the typed references are valid. *)
Definition default_capture (s : ReviewStatus) (review : option uuid) (findings : list ReviewFinding)
  : option DurableCapture.DurableCaptureGuidance :=
  let refs := match s, review with
    | ended FINDINGS, Some id => (λ f, DurableCapture.mkFindingRef (String.append "review:" id) (fn_id f)) <$> findings
    | _, _ => []
    end in
  match DurableCapture.durable_capture_guidance refs [] with Ok g => Some g | Err _ => None end.

(** The defaults that [exact_result] fills in. *)
Definition completed_result (r : ReviewResult) : ReviewResult :=
  mkResult (rr_status r) (rr_review r) (rr_delivery r) (rr_verdict r) (rr_findings r) (rr_evidence_refs r)
    (rr_assessment r) (rr_digest r) (rr_reason r)
    (if truthy (rr_next_action r) then rr_next_action r else default_action (rr_status r) (rr_review r) (rr_reason r))
    (match rr_capture r with Some g => Some g | None => default_capture (rr_status r) (rr_review r) (rr_findings r) end).

(** [ReviewResult(status=..., review_id=..., reason=...)] *)
Definition failed (s : ReviewStatus) (review : option uuid) (reason : string) : ReviewResult :=
  completed_result (mkResult s review None None [] [] None None (Some reason) "" None).

(** [ReviewResult(status=..., review_id=..., delivery_id=...)] *)
Definition at_delivery (s : ReviewStatus) (review delivery : uuid) : ReviewResult :=
  completed_result (mkResult s (Some review) (Some delivery) None [] [] None None None "" None).

Definition submitted_result (review delivery : uuid) (digest : string) : ReviewResult :=
  completed_result (mkResult SUBMITTED (Some review) (Some delivery) None [] [] None (Some digest) None "" None).

(** [", ".join(...)] and f-strings. *)
Definition cat : list string → string := String.concat "".

(** [_terminal_next_action] *)
Definition stop_rule : string :=
  " Continue in this turn; stop only to present Human Review or an evidenced blocker requiring human action. A real host/session limit requires preserving the review identity and state. Never assume a coordinator is asleep.".

Definition _terminal_next_action (subject : CurrentWork) (o : ReviewOutcome) : string :=
  match oc_verdict o with
  | PASS =>
      let continuation := HumanReviews.py_strip (or_empty (review_next_action subject)) in
      cat [if truthy continuation then String.append "Perform the recorded post-review step now: " continuation
           else cat ["Call work_get(work_id="; quoted (work_id subject);
             "). Recover the concrete post-review step from its current authorized plan/notes, record it in review_next_action using work_update with the current observed revision, and perform it now. Missing routing is agent-owned reconciliation, not by itself a reason to ask Marco. Do not invent a next step."];
           " PASS grants no new scope or effect authority."; stop_rule]
  | FINDINGS =>
      cat ["Evaluate and disposition findings ["; str_join ", " (fn_id <$> oc_findings o);
        "] against their evidence now. For accepted defects only, apply the smallest authorized clearing fixes, then call review_request(mode=FOCUSED, prior_review_id=";
        quoted (oc_review_id o);
        ", finding_ids=<accepted finding_ids>, observed_revision=<new revision>). Sleep 20 seconds, then poll that review until its verdict; disposition contested findings through the existing review procedure. Do not silently accept a reviewer remedy or scope expansion.";
        stop_rule]
  | BLOCKED =>
      let refs := str_join ", " (oc_evidence_refs o) in
      cat ["Inspect the blocker evidence refs ["; if truthy refs then refs else "none supplied";
        "] and call work_get(work_id="; quoted (work_id subject);
        "). Establish the actual blocker, the actor who can clear it, and the clearing action. Perform authorized agent-owned recovery now; only present a human blocker when the evidence establishes the specific human action needed. If evidence is missing, reconcile the exact review records before claiming a blocker. Do not start another broad review automatically.";
        stop_rule]
  end%string.

Definition terminal_result (review delivery : uuid) (subject : CurrentWork) (o : ReviewOutcome) : ReviewResult :=
  completed_result (mkResult (ended (oc_verdict o)) (Some review) (Some delivery) (Some (oc_verdict o)) (oc_findings o)
    (oc_evidence_refs o) (oc_assessment o) (Some (oc_digest o)) None (_terminal_next_action subject o) None).

(** ** Pure parts *)

(** [_assessment_matches] *)
Definition _assessment_matches (check : option BaselineCheck) (u : ReviewSubmit) : bool :=
  match check, u_assessment u with
  | None, a => is_none a
  | Some _, None => false
  | Some c, Some a =>
      let expected_pass := if eqb (ck_phase c) PRE_IMPLEMENTATION then BASELINE_PRESERVED else CONFORMS_TO_APPROVED_BASELINE in
      if negb (eqb (as_baseline_id a) (ck_baseline_id c)) || negb (eqb (as_phase a) (ck_phase c)) then false
      else if eqb (u_verdict u) PASS && negb (eqb (ck_owner c) OWNER_PRESERVED) then false
      else mem (as_disposition a)
             match u_verdict u with
             | PASS => [expected_pass]
             | BLOCKED => [DISPOSITION_UNKNOWN]
             | FINDINGS => [AUTHOR_CORRECTION_REQUIRED; HUMAN_REVIEW_REQUIRED; MATERIAL_DEVIATION; NEW_HUMAN_CHOICE]
             end
  end.

Section basis.
Context (policy_version guidelines_version guidelines_digest : string).

(** [_basis] *)
Definition _basis (q : ReviewRequest) (requester : Mailboxes.AgentMailbox) : ReviewBasis :=
  let identity := _digest (JObj [("protocol", JStr REVIEW_PROTOCOL); ("subject", JStr (q_subject q));
    ("revision", JStr (q_revision q)); ("kind", jtext (q_kind q)); ("candidate", jopt (q_candidate q));
    ("requester", JStr (Mailboxes.endpoint_id requester));
    ("baseline_check", jmodel check_json (q_baseline_check q))])%string in
  mkBasis (match q_prior q with Some id => id | None => _stable "occurrence" [identity] end)
    (q_subject q) (q_revision q) (q_kind q) (q_candidate q) (q_mode q)
    (eqb (q_mode q) FULL && is_some (q_prior q)) (q_finding_ids q) (Mailboxes.endpoint_id requester)
    (Mailboxes.generation requester) policy_version guidelines_version guidelines_digest (q_baseline_check q).

(** [_brief] *)
Definition _brief (b : ReviewBasis) (subject : CurrentWork) (focused : option FocusedReviewTransition)
  : CanonicalReviewBrief :=
  mkBrief b (title subject) (notes subject)
    (["Independently falsify the material claim; choose your own review path.";
      "Report material findings with defect, evidence, consequence, affected claim, and minimum clearing condition.";
      "Do not treat a preferred remedy as required unless the contract requires it."]%string
     ++ (if eqb (b_mode b) FULL then []
         else ["Recheck only the named findings and the directly affected boundary.";
               "Perform a bounded secondary/global-impact check; report if impact cannot be bounded."]%string))
    (match b_candidate b with None => [] | Some c => [c] end) focused.

(** The basis is of the current policy and guidelines. *)
Definition basis_current (b : ReviewBasis) : bool :=
  eqb (b_policy b) policy_version && eqb (b_guidelines b) guidelines_version
  && eqb (b_guidelines_digest b) guidelines_digest.

(** A prior outcome whose named findings a focused review may recheck. *)
Definition rechecks (q : ReviewRequest) (b : ReviewBasis) (prior : ReviewOutcomeEnvelope) : bool :=
  let p := br_basis (oe_brief prior) in
  eqb (oc_review_id (oe_outcome prior)) (b_review_id b) && eqb (b_subject p) (b_subject b) && eqb (b_kind p) (b_kind b)
  && eqb (b_requester p) (b_requester b) && eqb (b_policy p) (b_policy b) && eqb (b_guidelines p) (b_guidelines b)
  && eqb (b_guidelines_digest p) (b_guidelines_digest b) && negb (eqb (b_revision p) (b_revision b))
  && forallb (λ id, mem id (fn_id <$> oc_findings (oe_outcome prior))) (q_finding_ids q).

Definition focused_transition (b : ReviewBasis) (prior : ReviewOutcomeEnvelope) : FocusedReviewTransition :=
  let p := br_basis (oe_brief prior) in
  mkTransition p (oc_digest (oe_outcome prior)) (br_claim (oe_brief prior)) (br_evidence (oe_brief prior))
    (if negb (eqb (b_candidate p) (b_candidate b)) then [subject_revision_field; candidate_ref_field]
     else [subject_revision_field]).

(** A focused request that a full review under its identifier upgrades. *)
Definition upgrades (b : ReviewBasis) (prior : ReviewEnvelope) : bool :=
  let p := br_basis (en_brief prior) in
  eqb (b_mode p) FOCUSED && eqb (b_subject p) (b_subject b) && eqb (b_revision p) (b_revision b)
  && eqb (b_kind p) (b_kind b) && eqb (b_candidate p) (b_candidate b) && eqb (b_requester p) (b_requester b)
  && (b_generation p =? b_generation b) && eqb (b_policy p) (b_policy b) && eqb (b_guidelines p) (b_guidelines b)
  && eqb (b_guidelines_digest p) (b_guidelines_digest b) && eqb (b_check p) (b_check b).
End basis.

(** ** State changes *)

(** [int(text)] of a decimal literal of ASCII digits. *)
Fixpoint dec_digits (acc : Z) (gap : bool) (l : list Z) : option Z :=
  match l with
  | [] => if gap then None else Some acc
  | c :: l' =>
      if c =? 95 then if gap then None else dec_digits acc true l'
      else if (48 <=? c) && (c <=? 57) then dec_digits (10 * acc + (c - 48)) false l' else None
  end.

Definition py_int (s : string) : option Z :=
  let l := strip (λ c, ((9 <=? c) && (c <=? 13)) || ((28 <=? c) && (c <=? 32))) (codes s) in
  match l with
  | 43 :: l' => dec_digits 0 true l'
  | 45 :: l' => Z.opp <$> dec_digits 0 true l'
  | _ => dec_digits 0 true l
  end.

Definition with_mail (m : Messages.MsgDB) (s : StoreDB) : StoreDB := mkStore m (human s) (pulls s) (pull_links s).
Definition on_mail {A} (m : M Messages.MsgDB A) : M StoreDB A := GrantState.via mail with_mail m.
Definition on_handles {A} (m : M WorkState.StateDB A) : M StoreDB A := GrantState.via s_handles with_s_handles m.

(** [await connection.rollback()] before the answers that [p] accepts. *)
Definition rolled_back {A} (p : A → bool) (m : M StoreDB A) : M StoreDB A := λ d,
  match m d with (d', Ok a) => (if p a then d else d', Ok a) | r => r end.

(** Equality of messages, as Python compares their payloads. *)
Definition pending_eq (a b : Messages.PendingMessage) : bool :=
  eqb (Messages.p_delivery_id a) (Messages.p_delivery_id b) && eqb (Messages.p_message_id a) (Messages.p_message_id b)
  && eqb (Messages.p_sender a) (Messages.p_sender b) && eqb (Messages.p_recipient a) (Messages.p_recipient b)
  && eqb (Messages.p_route_ref a) (Messages.p_route_ref b) && eqb (Messages.p_kind a) (Messages.p_kind b)
  && Messages.py_eq (Messages.p_payload a) (Messages.p_payload b) && eqb (Messages.p_state a) (Messages.p_state b)
  && (Messages.p_grant_version a =? Messages.p_grant_version b)
  && eqb (Messages.p_generation a) (Messages.p_generation b).

Section service.
Context `{Lax} (nfkc_casefold : string → string) (policy_version guidelines_version guidelines_digest : string).
Context (others : nat → StoreDB → StoreDB) (clock : nat → Z).

(** What other calls commit in between. *)
Definition meanwhile (n : nat) : M StoreDB unit := λ d, (others n d, Ok tt).

(** A read of its own connection. *)
Definition reads {A} (n : nat) (f : StoreDB → res A) : M StoreDB A := meanwhile n;; reading f.

(** *** The occurrence *)

(** [insert(canonical_work)...on_conflict_do_nothing().returning(...)] *)
Definition insert_work (work : uuid) (row : WorkRow) : M StoreDB bool := λ d,
  if is_some (works (s_tracker d) !! work) then (d, Ok false)
  else (with_s_tracker (with_works (<[work := row]> (works (s_tracker d))) (s_tracker d)) d, Ok true).

(** [insert(work_parents)] *)
Definition insert_parent (child parent : uuid) : M StoreDB unit :=
  d ← get_st;
  throw_if (is_some (parents (s_tracker d) !! child) || is_none (works (s_tracker d) !! parent) || eqb child parent)
    IntegrityError "work_parents";;
  put_st (with_s_tracker (with_parents (<[child := parent]> (parents (s_tracker d))) (s_tracker d)) d).

(** The row of an occurrence. *)
Definition occurrence_row (review : uuid) (title notes normalized : string) : WorkRow :=
  mkWorkRow (mkWork review title false notes 1 None None (Some "REVIEW"%string) (Some "CURRENT"%string)
    None None None None None None None None None) normalized.

Definition is_review_work (row : WorkRow) : bool := eqb (work_type (item_of row)) (Some "REVIEW"%string).

(** [_ensure_in_transaction] *)
Definition _ensure_in_transaction (brief : CanonicalReviewBrief) : M StoreDB bool :=
  let b := br_basis brief in
  let id := b_review_id b in
  let title := String.substring 0 500 (String.append "Review: " (br_title brief)) in
  let notes := cat ["Server-owned review occurrence. Machine state is stored in typed MessageState payloads. Subject ";
                    b_subject b; " at "; b_revision b; "."]%string in
  on_handles (WorkState.insert_handle (Controller.mkHandle id "postgres" id));;
  d ← get_st;
  handle ← lift (one_or_none (List.filter (WorkState.has_id id) (WorkState.work_handles (s_handles d))));
  if negb (match handle with Some h => WorkState.has_key "postgres" id h | None => false end) then mret false
  else
    normalized ← lift (normalize_title nfkc_casefold title);
    refuse_if (has_nul notes || has_nul normalized);;
    created ← insert_work id (occurrence_row id title notes normalized);
    (if (created : bool) then insert_parent id (b_subject b) else mret tt);;
    d ← get_st;
    mret (match works (s_tracker d) !! id with
          | None => false
          | Some row => eqb (parents (s_tracker d) !! id) (Some (b_subject b)) && is_review_work row
          end).

(** [ensure] outside a transaction of its caller. *)
Definition ensure (brief : CanonicalReviewBrief) : M StoreDB bool :=
  catch (transaction (_ensure_in_transaction brief)) [IntegrityError; SQLAlchemyError; ValueError] (λ _, mret false).

(** *** Messages *)

(** [submit_review_internal] of a message that is built for it. *)
Definition submit_review (now : Z) (sender : Mailboxes.AgentMailbox) (recipient : uuid) (version : Z)
    (q : Messages.MessageSubmitRequest) (binding : option (Z * string)) (wake : bool) : M StoreDB Messages.SubmitResult :=
  q ← lift (Messages.submit_validate q);
  on_mail (Messages.submit_review_internal now sender (Messages.mkRoute recipient version) q binding wake).

(** [_record_basis_in_transaction] *)
Definition _record_basis_in_transaction (now : Z) (brief : CanonicalReviewBrief) (requester : Mailboxes.AgentMailbox)
  : M StoreDB (option Messages.PendingMessage) :=
  let b := br_basis brief in
  let envelope := mkEnvelope REVIEWER_ACQUISITION brief (Mailboxes.name requester) (Mailboxes.endpoint_id requester) None None in
  submitted ← submit_review now requester (b_review_id b) 1
    (Messages.mkSubmit (_basis_message_id b) (Mailboxes.generation requester) "review.acquisition" Messages.request
       (envelope_json envelope) None) None false;
  mret (if eqb (Messages.s_status submitted) Messages.ok then Messages.s_message submitted else None).

(** A coordinator that continues an acquisition, with the delivery it holds. *)
Abbreviation Coordinating := (option (Mailboxes.AgentMailbox * Messages.PendingMessage))%type (only parsing).

(** Whether the coordinator still holds the acquisition of the basis. *)
Definition coordinator_refusal (review : uuid) (b : ReviewBasis) (c : Mailboxes.AgentMailbox * Messages.PendingMessage)
    (d : StoreDB) : option ReviewResult :=
  let '(coordinator, acquisition) := c in
  if negb (eqb (mailbox_by_endpoint (Mailboxes.endpoint_id coordinator) d) (Some coordinator))
  then Some (failed DENIED (Some review) "requester_not_current")
  else
    match _acquisition (records review d) b (Mailboxes.endpoint_id coordinator) with
    | Some r =>
        if pending_eq (r_delivery r) acquisition && eqb (Messages.p_state (r_delivery r)) Messages.RECEIVED
           && eqb (Messages.p_generation (r_delivery r)) (Some (pretty (Mailboxes.generation coordinator)))
        then None else Some (failed DENIED (Some review) "acquisition_not_received")
    | None => Some (failed DENIED (Some review) "acquisition_not_received")
    end.

(** The request to the reviewer, and the coordinator's result that binds it. *)
Definition send_request (now : Z) (review : uuid) (brief : CanonicalReviewBrief) (requester : Mailboxes.AgentMailbox)
    (c : Coordinating) : M StoreDB ReviewResult :=
  let b := br_basis brief in
  let sender := match c with Some (coordinator, _) => coordinator | None => requester end in
  d ← get_st;
  match mailbox_by_name (if is_some c then COORDINATOR_MAILBOX else reviewer_name (b_kind b)) d with
  | None => mret (failed WAITING_REVIEWER (Some review) "reviewer_not_available")
  | Some reviewer =>
      if negb (eligible requester reviewer) then mret (failed DENIED (Some review) "reviewer_not_eligible")
      else
        let endpoint := Mailboxes.endpoint_id reviewer in
        let envelope := mkEnvelope REVIEW_REQUEST brief (Mailboxes.name requester) (Mailboxes.endpoint_id requester)
                          (Some endpoint) (Some (Mailboxes.principal_key reviewer)) in
        submitted ← submit_review now sender endpoint (Mailboxes.generation reviewer)
          (Messages.mkSubmit (_request_message_id b endpoint) (Mailboxes.generation sender) "review.request"
             Messages.request (envelope_json envelope) None) None true;
        match Messages.s_message submitted with
        | Some message =>
            if negb (eqb (Messages.s_status submitted) Messages.ok)
            then mret (failed UNKNOWN (Some review) "message_conflict")
            else
              match c with
              | Some (coordinator, acquisition) =>
                  let held := Messages.p_delivery_id acquisition in
                  let bound := mkBound review (Messages.p_delivery_id message) (Mailboxes.name reviewer) in
                  ack ← submit_review now coordinator (Mailboxes.endpoint_id requester) (Mailboxes.generation requester)
                    (Messages.mkSubmit (_stable "reviewer-bound" [review; held]) (Mailboxes.generation coordinator)
                       "review.acquisition" Messages.result (bound_json bound) (Some held))
                    (Some (Mailboxes.generation coordinator, pretty (Mailboxes.generation coordinator))) true;
                  throw_if (negb (eqb (Messages.s_status ack) Messages.ok)) ValueError "binding conflict"
              | None => mret tt
              end;;
              mret (at_delivery SENT review (Messages.p_delivery_id message))
        | None => mret (failed UNKNOWN (Some review) "message_conflict")
        end
  end.

(** The bases of the review that are about the revision of its subject. *)
Definition bases_at (subject : uuid) (revision : string) (review : uuid) (d : StoreDB) : list (ReviewRecord * ReviewEnvelope) :=
  List.filter (λ s, eqb (b_subject (source_basis s)) subject && eqb (b_revision (source_basis s)) revision)
    (basis_sources review d).

(** The sources and outcomes of one basis. *)
Definition of_basis (b : ReviewBasis) (l : list (ReviewRecord * ReviewEnvelope)) : list (ReviewRecord * ReviewEnvelope) :=
  List.filter (λ s, eqb (source_basis s) b) l.
Definition outcomes_of_basis (b : ReviewBasis) (l : list (ReviewRecord * ReviewOutcomeEnvelope))
  : list (ReviewRecord * ReviewOutcomeEnvelope) := List.filter (λ o, eqb (br_basis (oe_brief o.2)) b) l.

Definition the_one {A} (l : list A) : option A := match l with [a] => Some a | _ => None end.

(** From the one current basis on. *)
Definition advance_basis (now : Z) (review : uuid) (brief : CanonicalReviewBrief) (revision : string)
    (requester : Mailboxes.AgentMailbox) (c : Coordinating) (d : StoreDB) : M StoreDB ReviewResult :=
  let b := br_basis brief in
  match match c with Some c => coordinator_refusal review b c d | None => None end with
  | Some answer => mret answer
  | None =>
      if negb (eqb (mailbox_by_endpoint (Mailboxes.endpoint_id requester) d) (Some requester))
         || negb (eqb (Mailboxes.endpoint_id requester) (b_requester b))
      then mret (failed DENIED (Some review) "caller_not_owner")
      else if negb (eqb revision (b_revision b))
              || negb (basis_current policy_version guidelines_version guidelines_digest b)
      then mret (failed STALE (Some review) "review_basis_changed")
      else
        let requests := of_basis b (stored_request_sources review d) in
        found ← lift (outcome_sources policy_version review (the_one requests) d);
        if (1 <? length requests)%nat || (1 <? length (outcomes_of_basis b found))%nat
        then mret (failed UNKNOWN (Some review) "duplicate_authoritative_state")
        else
          match requests with
          | request :: _ =>
              let valid := List.filter (λ s : ReviewRecord * ReviewEnvelope * option ReviewerBound,
                                          eqb (source_basis s.1) b) (request_sources policy_version review d) in
              mret (if is_some c && negb (length valid =? 1)%nat
                    then failed UNKNOWN (Some review) "duplicate_authoritative_state"
                    else at_delivery SENT review (r_delivery_id request.1))
          | [] => send_request now review brief requester c
          end
  end.

(** [_advance_in_transaction] *)
Definition _advance_in_transaction (now : Z) (review : uuid) (requester : Mailboxes.AgentMailbox) (c : Coordinating)
  : M StoreDB ReviewResult :=
  d ← get_st;
  match works (s_tracker d) !! review, parents (s_tracker d) !! review with
  | Some occurrence, Some subject =>
      if negb (is_review_work occurrence) then mret (failed UNKNOWN (Some review) "occurrence_not_found")
      else
        match version_of subject (s_tracker d) with
        | None => mret (failed UNKNOWN (Some review) "subject_not_found")
        | Some version =>
            revision ← lift (canonical_revision subject version);
            match bases_at subject revision review d with
            | [s] => advance_basis now review (en_brief s.2) revision requester c d
            | l => mret (if eqb (length l) 0%nat && negb (eqb (length (basis_sources review d)) 0%nat)
                         then failed STALE (Some review) "review_basis_changed"
                         else failed UNKNOWN (Some review) "duplicate_authoritative_state")
            end
        end
  | _, _ => mret (failed UNKNOWN (Some review) "occurrence_not_found")
  end.

Definition REVIEW_ERRORS : list exn_class := [SQLAlchemyError; TypeError; ValueError].

Definition review_unavailable (review : uuid) : exn → M StoreDB ReviewResult :=
  λ _, mret (failed UNKNOWN (Some review) "state_unavailable").

(** [_advance] *)
Definition _advance (review : uuid) (requester : Mailboxes.AgentMailbox) : M StoreDB ReviewResult :=
  catch (meanwhile 0;; transaction (_advance_in_transaction (clock 0) review requester None)) REVIEW_ERRORS
    (review_unavailable review).

(** *** Requests *)

(** What a request builds on: the outcome that a focused review rechecks, or
    the focused request that a full review upgrades. *)
Definition prior_context (q : ReviewRequest) (b : ReviewBasis)
  : M StoreDB (ReviewResult + option FocusedReviewTransition) :=
  let missing := inl (failed DENIED None "prior_review_not_found") in
  if eqb (q_mode q) FOCUSED
  then
    priors ← reads 2 (outcome_envelopes policy_version (b_review_id b));
    mret (match List.find (rechecks q b) priors with
          | Some prior => inr (Some (focused_transition b prior))
          | None => missing
          end)
  else if is_some (q_prior q)
  then
    sources ← reads 2 (λ d, Ok (request_sources policy_version (b_review_id b) d));
    mret (if existsb (λ s, upgrades b s.1.2) sources then inr None else missing)
  else mret (inr None).

(** The transaction of [request]. *)
Definition request_locked (now : Z) (brief : CanonicalReviewBrief) (requester : Mailboxes.AgentMailbox)
  : M StoreDB ReviewResult :=
  let b := br_basis brief in
  let id := b_review_id b in
  d ← get_st;
  approved ← match b_check b with
             | None => mret true
             | Some c =>
                 record ← lift (HumanReviews.approved_baseline (ck_baseline_id c) (b_subject b) (s_reviews d));
                 mret (is_some record)
             end;
  if negb (approved : bool) then mret (failed DENIED (Some id) "baseline_not_approved")
  else
    ensured ← _ensure_in_transaction brief;
    if negb (ensured : bool) then mret (failed UNKNOWN (Some id) "occurrence_conflict")
    else
      d ← get_st;
      if existsb (λ s, negb (eqb (source_basis s) b)) (bases_at (b_subject b) (b_revision b) id d)
      then mret (failed DENIED (Some id) "review_basis_changed")
      else
        recorded ← _record_basis_in_transaction now brief requester;
        if is_none recorded then mret (failed UNKNOWN (Some id) "message_conflict")
        else _advance_in_transaction now id requester None.

Definition is_ineligible (r : ReviewResult) : bool :=
  eqb (rr_status r) DENIED && eqb (rr_reason r) (Some "reviewer_not_eligible"%string).

(** [request] *)
Definition request (q : ReviewRequest) (requester : Mailboxes.AgentMailbox) : M StoreDB ReviewResult :=
  current ← reads 0 (λ d, Ok (mailbox_by_endpoint (Mailboxes.endpoint_id requester) d));
  if negb (eqb current (Some requester)) then mret (failed DENIED None "requester_not_current")
  else
    subject ← reads 1 (λ d, Ok (item_of <$> works (s_tracker d) !! q_subject q));
    match subject with
    | None => mret (failed UNKNOWN None "subject_not_found")
    | Some subject =>
        let b := _basis policy_version guidelines_version guidelines_digest q requester in
        throw_if (negb (basis_ok b)) ValueError "validation error";;
        actual ← lift (canonical_revision (work_id subject) (row_version subject));
        if negb (eqb actual (q_revision q)) then mret (failed STALE (Some (b_review_id b)) "subject_revision_changed")
        else
          prior ← prior_context q b;
          match prior with
          | inl answer => mret answer
          | inr focused =>
              meanwhile 3;;
              catch (transaction (rolled_back is_ineligible
                       (request_locked (clock 3) (_brief b subject focused) requester)))
                REVIEW_ERRORS (review_unavailable (b_review_id b))
          end
    end.

(** *** Reading a review *)

(** What a delivery without an outcome shows. *)
Definition pending_result (review : uuid) (x : Messages.PendingMessage) : ReviewResult :=
  if eqb (Messages.p_state x) Messages.AVAILABLE && is_none (Messages.p_generation x)
  then at_delivery REQUEST_UNPICKED review (Messages.p_delivery_id x)
  else if eqb (Messages.p_state x) Messages.RECEIVED && is_some (Messages.p_generation x)
  then at_delivery RECEIVED review (Messages.p_delivery_id x)
  else failed UNKNOWN (Some review) "state_unavailable".

(** [get], from the delivery of the request on. *)
Definition get_sent (review : uuid) (delivery : option uuid) : M StoreDB ReviewResult :=
  sources ← reads 1 (λ d, Ok (stored_request_sources review d));
  match List.filter (λ s : ReviewRecord * ReviewEnvelope, eqb (Some (r_delivery_id s.1)) delivery) sources with
  | [request] =>
      let b := source_basis request in
      found ← reads 2 (outcome_sources policy_version review (Some request));
      let outcomes := outcomes_of_basis b found in
      if (1 <? length outcomes)%nat then mret (failed UNKNOWN (Some review) "duplicate_authoritative_state")
      else
        subject ← reads 3 (λ d, Ok (item_of <$> works (s_tracker d) !! b_subject b));
        match subject with
        | None => mret (failed UNKNOWN (Some review) "subject_not_found")
        | Some subject =>
            actual ← lift (canonical_revision (work_id subject) (row_version subject));
            mret (if negb (eqb actual (b_revision b)) then failed STALE (Some review) "subject_revision_changed"
                  else match outcomes with
                       | o :: _ => terminal_result review (r_delivery_id request.1) subject (oe_outcome o.2)
                       | [] => pending_result review (r_delivery request.1)
                       end)
        end
  | _ => mret (failed UNKNOWN (Some review) "duplicate_authoritative_state")
  end.

(** [get] *)
Definition get (review : uuid) (requester : Mailboxes.AgentMailbox) : M StoreDB ReviewResult :=
  advanced ← _advance review requester;
  if negb (eqb (rr_status advanced) SENT) then mret advanced
  else catch (get_sent review (rr_delivery advanced)) REVIEW_ERRORS (review_unavailable review).

(** *** Recovery *)

(** [update(message_deliveries)...returning(...)] *)
Definition move_delivery (x : Messages.PendingMessage) (generation : Z) : M StoreDB bool := λ d,
  let mine r := Messages.is_delivery (Messages.p_delivery_id x) r && eqb (Messages.d_state r) Messages.RECEIVED
                && (Messages.d_version r =? Messages.p_grant_version x)
                && eqb (Messages.d_generation r) (Messages.p_generation x) in
  let m := mail d in
  (with_mail (Messages.with_deliveries
     ((λ r, if mine r then Messages.rebound generation (pretty generation) r else r) <$> Messages.deliveries m) m) d,
   Ok (existsb mine (Messages.deliveries m))).

(** From the one request on; [receiving] is the generation that holds it. *)
Definition recover_request (review : uuid) (b : ReviewBasis) (revision : string) (request : ReviewRecord * ReviewEnvelope)
    (reviewer : Mailboxes.AgentMailbox) (d : StoreDB) : M StoreDB ReviewResult :=
  let refuse := mret (failed DENIED (Some review) "recovery_not_allowed") in
  let x := r_delivery request.1 in
  let endpoint := Mailboxes.endpoint_id reviewer in
  let generation := Mailboxes.generation reviewer in
  if negb (eqb (mailbox_by_endpoint endpoint d) (Some reviewer))
     || negb (accepts_reviewer (Mailboxes.name reviewer) (b_kind b))
     || negb (eqb (en_reviewer request.2) (Some endpoint))
     || negb (eqb (en_reviewer_key request.2) (Some (Mailboxes.principal_key reviewer)))
     || negb (eqb (Messages.p_recipient x) endpoint) || negb (eqb (Messages.p_state x) Messages.RECEIVED)
  then refuse
  else if negb (eqb revision (b_revision b))
          || negb (basis_current policy_version guidelines_version guidelines_digest b)
  then mret (failed STALE (Some review) "review_basis_changed")
  else
    let text := or_empty (Messages.p_generation x) in
    receiving ← lift (if truthy text
                      then match py_int text with Some z => Ok z | None => raise ValueError "invalid literal for int()" end
                      else Ok 0);
    if (receiving =? generation) && (Messages.p_grant_version x =? generation)
    then mret (at_delivery RECEIVED review (Messages.p_delivery_id x))
    else if (receiving <=? 0) || negb (Messages.p_grant_version x =? receiving) || (generation <=? receiving)
    then refuse
    else
      moved ← move_delivery x generation;
      mret (if (moved : bool) then at_delivery RECEIVED review (Messages.p_delivery_id x)
            else failed UNKNOWN (Some review) "state_unavailable").

(** The transaction of [recover]. *)
Definition recover_locked (review : uuid) (reviewer : Mailboxes.AgentMailbox) : M StoreDB ReviewResult :=
  d ← get_st;
  match works (s_tracker d) !! review, parents (s_tracker d) !! review ≫= λ p, (p,.) <$> version_of p (s_tracker d) with
  | Some occurrence, Some (subject, version) =>
      if negb (is_review_work occurrence) then mret (failed UNKNOWN (Some review) "occurrence_not_found")
      else
        revision ← lift (canonical_revision subject version);
        match bases_at subject revision review d with
        | [s] =>
            let b := source_basis s in
            let requests := of_basis b (omap (λ r, (r,.) <$> request_envelope r) (records review d)) in
            match requests with
            | [request] =>
                found ← lift (outcome_sources policy_version review (Some request) d);
                match outcomes_of_basis b found with
                | _ :: _ :: _ => mret (failed UNKNOWN (Some review) "duplicate_authoritative_state")
                | [_] => mret (failed DENIED (Some review) "recovery_not_allowed")
                | [] => recover_request review b revision request reviewer d
                end
            | _ => mret (failed UNKNOWN (Some review) "duplicate_authoritative_state")
            end
        | l => mret (if eqb (length l) 0%nat && negb (eqb (length (basis_sources review d)) 0%nat)
                     then failed STALE (Some review) "review_basis_changed"
                     else failed UNKNOWN (Some review) "duplicate_authoritative_state")
        end
  | _, _ => mret (failed UNKNOWN (Some review) "occurrence_not_found")
  end.

(** [recover] *)
Definition recover (review : uuid) (reviewer : Mailboxes.AgentMailbox) : M StoreDB ReviewResult :=
  catch (meanwhile 0;; transaction (recover_locked review reviewer)) REVIEW_ERRORS (review_unavailable review).

(** *** Continuing an acquisition *)

(** The newest request to this coordinator for a reviewer. *)
Definition held_acquisition (review : uuid) (coordinator : uuid) (rs : list ReviewRecord)
  : option (Messages.PendingMessage * ReviewEnvelope) :=
  head (omap (λ r,
    envelope ← envelope_validate (Messages.p_payload (r_delivery r));
    let b := br_basis (en_brief envelope) in
    if eqb (en_type envelope) REVIEWER_ACQUISITION && eqb (b_review_id b) review && acquires b coordinator r
    then Some (r_delivery r, envelope) else None) (rev rs)).

(** [continue_acquisition] *)
Definition continue_acquisition (review : uuid) (coordinator : Mailboxes.AgentMailbox) : M StoreDB ReviewResult :=
  let endpoint := Mailboxes.endpoint_id coordinator in
  current ← reads 0 (λ d, Ok (mailbox_by_endpoint endpoint d));
  if negb (eqb current (Some coordinator)) then mret (failed DENIED None "requester_not_current")
  else
    rs ← reads 1 (λ d, Ok (records review d));
    match held_acquisition review endpoint rs with
    | None => mret (failed DENIED None "prior_review_not_found")
    | Some (incoming, envelope) =>
        let b := br_basis (en_brief envelope) in
        if negb (eqb (Messages.p_state incoming) Messages.RECEIVED)
           || negb (eqb (Messages.p_generation incoming) (Some (pretty (Mailboxes.generation coordinator))))
        then mret (failed DENIED (Some review) "acquisition_not_received")
        else
          subject ← reads 2 (λ d, Ok (item_of <$> works (s_tracker d) !! b_subject b));
          match subject with
          | None => mret (failed UNKNOWN (Some review) "subject_not_found")
          | Some subject =>
              requester ← reads 3 (λ d, Ok (mailbox_by_endpoint (b_requester b) d));
              reviewer ← reads 4 (λ d, Ok (mailbox_by_name COORDINATOR_MAILBOX d));
              match requester, reviewer with
              | Some requester, Some reviewer =>
                  actual ← lift (canonical_revision (work_id subject) (row_version subject));
                  if negb (eqb actual (b_revision b)
                           && basis_current policy_version guidelines_version guidelines_digest b
                           && (Mailboxes.generation requester =? b_generation b) && eligible requester reviewer)
                  then mret (failed STALE (Some review) "review_basis_changed")
                  else
                    catch (meanwhile 5;;
                           transaction (_advance_in_transaction (clock 5) review requester (Some (coordinator, incoming))))
                      REVIEW_ERRORS (review_unavailable review)
              | _, _ => mret (failed WAITING_REVIEWER (Some review) "reviewer_not_available")
              end
          end
    end.

(** *** The bundle of a review *)

Inductive BundleStatus := AUTHORIZED | READY | B_STALE | B_DENIED | B_UNKNOWN.

(** [ReviewBundleAccess] *)
Record ReviewBundleAccess := mkBundle {
  ba_status : BundleStatus; ba_reason : option string; ba_basis : option ReviewBasis; ba_delivery : option uuid;
  ba_title : option string; ba_claim_digest : option string }.

Definition no_bundle (s : BundleStatus) (reason : string) : ReviewBundleAccess :=
  mkBundle s (Some reason) None None None None.

(** The request of the bundle is held by this binding of the reviewer. *)
Definition holds_bundle (reviewer : Mailboxes.AgentMailbox) (x : Messages.PendingMessage) (d : StoreDB) : bool :=
  eqb (mailbox_by_endpoint (Mailboxes.endpoint_id reviewer) d) (Some reviewer)
  && eqb (Messages.p_recipient x) (Mailboxes.endpoint_id reviewer) && eqb (Messages.p_state x) Messages.RECEIVED
  && (Messages.p_grant_version x =? Mailboxes.generation reviewer)
  && eqb (Messages.p_generation x) (Some (pretty (Mailboxes.generation reviewer))).

(** The reads of [bundle_access]; [expected] is given at the last one. *)
Definition bundle_read (review : uuid) (reviewer : Mailboxes.AgentMailbox) (expected : option ReviewBasis) (d : StoreDB)
  : res ReviewBundleAccess :=
  match works (s_tracker d) !! review, parents (s_tracker d) !! review ≫= λ p, (p,.) <$> works (s_tracker d) !! p with
  | Some occurrence, Some (subject, row) =>
      if negb (is_review_work occurrence) then Ok (no_bundle B_UNKNOWN "occurrence_not_found")
      else
        revision ← canonical_revision subject (row_version (item_of row));
        match bases_at subject revision review d with
        | [s] =>
            let b := source_basis s in
            let valid := List.filter (λ v : ReviewRecord * ReviewEnvelope * option ReviewerBound, eqb (source_basis v.1) b)
                           (request_sources policy_version review d) in
            match of_basis b (stored_request_sources review d), valid with
            | [_], [v] =>
                let x := r_delivery v.1.1 in
                if negb (holds_bundle reviewer x d) then Ok (no_bundle B_DENIED "reviewer_binding_changed")
                else if negb (mem (b_kind b) [CODE; IMPLEMENTATION])
                then Ok (no_bundle B_UNKNOWN "REVIEW_KIND_UNSUPPORTED_V1")
                else if is_none (b_candidate b) || match expected with Some e => negb (eqb b e) | None => false end
                then Ok (no_bundle B_STALE "review_basis_changed")
                else Ok (mkBundle (if is_some expected then READY else AUTHORIZED) None (Some b)
                           (Some (Messages.p_delivery_id x)) (Some (title (item_of row)))
                           (Some (_digest (JStr (br_claim (en_brief s.2))))))
            | _, _ => Ok (no_bundle B_UNKNOWN "duplicate_authoritative_state")
            end
        | l => Ok (if eqb (length l) 0%nat && negb (eqb (length (basis_sources review d)) 0%nat)
                   then no_bundle B_STALE "review_basis_changed"
                   else no_bundle B_UNKNOWN "duplicate_authoritative_state")
        end
  | _, _ => Ok (no_bundle B_UNKNOWN "occurrence_not_found")
  end.

(** [bundle_access] *)
Definition bundle_access (review : uuid) (reviewer : Mailboxes.AgentMailbox) (expected : option ReviewBasis)
  : M StoreDB ReviewBundleAccess :=
  reads 0 (λ d, or_unknown (no_bundle B_UNKNOWN "state_unavailable") (bundle_read review reviewer expected d)).

(** *** The verdict *)

Abbreviation Held := (ReviewRecord * ReviewEnvelope)%type (only parsing).

(** Whether the source is one that the reviewer may answer. *)
Definition authoritative (reviewer : Mailboxes.AgentMailbox) (s : ReviewRecord * ReviewEnvelope * option ReviewerBound) : bool :=
  eqb (r_recipient s.1.1) (Mailboxes.endpoint_id reviewer)
  && match s.2 with None => true | Some bound => eqb (bd_name bound) (Mailboxes.name reviewer) end.

Definition received_by (reviewer : Mailboxes.AgentMailbox) (r : ReviewRecord) : bool :=
  eqb (Messages.p_state (r_delivery r)) Messages.RECEIVED
  && eqb (Messages.p_generation (r_delivery r)) (Some (pretty (Mailboxes.generation reviewer))).

(** The loop over the sources, from the [n]-th read on: the request at the
    current revision, else whether some source is current, and the last
    request of another revision. *)
Fixpoint find_held (n : nat) (reviewer : Mailboxes.AgentMailbox) (current : bool) (old : option Held)
    (sources : list (ReviewRecord * ReviewEnvelope * option ReviewerBound)) : M StoreDB (Held + bool * option Held) :=
  match sources with
  | [] => mret (inr (current, old))
  | s :: sources' =>
      subject ← reads n (λ d, Ok (item_of <$> works (s_tracker d) !! b_subject (source_basis s.1)));
      match subject with
      | Some subject =>
          if negb (authoritative reviewer s) then find_held (S n) reviewer current old sources'
          else
            actual ← lift (canonical_revision (work_id subject) (row_version subject));
            if eqb actual (b_revision (source_basis s.1))
            then if received_by reviewer s.1.1 then mret (inl s.1) else find_held (S n) reviewer true old sources'
            else find_held (S n) reviewer current (if received_by reviewer s.1.1 then Some s.1 else old) sources'
      | None => find_held (S n) reviewer current old sources'
      end
  end.

(** The outcome that the verdict makes of the delivery. *)
Definition outcome_for (u : ReviewSubmit) (delivery : uuid) : ReviewOutcome :=
  mkOutcome (u_review_id u) delivery (u_verdict u) (u_findings u) (u_evidence_refs u) (u_provenance u) (u_assessment u)
    (_digest (review_submit_json u)).

(** From the request that the reviewer holds on; [stale] when its subject has
    moved on. *)
Definition submit_held (u : ReviewSubmit) (reviewer : Mailboxes.AgentMailbox) (held : Held) (stale : bool)
  : M StoreDB ReviewResult :=
  let id := u_review_id u in
  let x := r_delivery held.1 in
  let b := source_basis held in
  let fail s reason := mret (failed s (Some id) reason) in
  if eqb (b_mode b) FOCUSED && negb (forallb (λ f, mem (fn_id f) (b_finding_ids b)) (u_findings u))
  then fail DENIED "focused_finding_not_selected"%string
  else if negb (_assessment_matches (b_check b) u) then fail DENIED "baseline_assessment_invalid"%string
  else
    requester ← reads 2 (λ d, Ok (mailbox_by_endpoint (en_requester held.2) d));
    match requester with
    | Some requester =>
        if negb (eligible requester reviewer) then fail DENIED "reviewer_not_eligible"%string
        else
          immediate ← reads 3 (λ d, Ok (mailbox_by_endpoint (Messages.p_sender x) d));
          match immediate with
          | None => fail UNKNOWN "state_unavailable"%string
          | Some immediate =>
              let delivery := Messages.p_delivery_id x in
              let payload := outcome_envelope_json (mkOutcomeEnvelope (en_brief held.2) (outcome_for u delivery)) in
              let generation := Mailboxes.generation reviewer in
              meanwhile 4;;
              submitted ← transaction (submit_review (clock 4) reviewer (Mailboxes.endpoint_id immediate)
                (Mailboxes.generation immediate)
                (Messages.mkSubmit (_stable "verdict" [id; delivery]) generation "review.request" Messages.result payload
                   (Some delivery)) (Some (generation, pretty generation)) true);
              match Messages.s_message submitted with
              | Some message =>
                  if negb (eqb (Messages.s_status submitted) Messages.ok) then fail UNKNOWN "message_conflict"%string
                  else if stale then fail STALE "subject_revision_changed"%string
                  else if negb (eqb (Mailboxes.endpoint_id immediate) (Mailboxes.endpoint_id requester))
                  then
                    meanwhile 5;;
                    notified ← transaction (submit_review (clock 5) reviewer (Mailboxes.endpoint_id requester)
                      (Mailboxes.generation requester)
                      (Messages.mkSubmit (_stable "review-outcome" [id]) generation "review.outcome" Messages.request
                         payload None) None true);
                    match Messages.s_message notified with
                    | Some m =>
                        if negb (eqb (Messages.s_status notified) Messages.ok) then fail UNKNOWN "message_conflict"%string
                        else mret (submitted_result id (Messages.p_delivery_id m) (_digest (review_submit_json u)))
                    | None => fail UNKNOWN "message_conflict"%string
                    end
                  else mret (submitted_result id (Messages.p_delivery_id message) (_digest (review_submit_json u)))
              | None => fail UNKNOWN "message_conflict"%string
              end
          end
    | None => fail DENIED "reviewer_not_eligible"%string
    end.

(** [submit] *)
Definition submit (u : ReviewSubmit) (reviewer : Mailboxes.AgentMailbox) : M StoreDB ReviewResult :=
  current ← reads 0 (λ d, Ok (mailbox_by_endpoint (Mailboxes.endpoint_id reviewer) d));
  if negb (eqb current (Some reviewer)) then mret (failed DENIED None "reviewer_binding_changed")
  else
    sources ← reads 1 (λ d, Ok (request_sources policy_version (u_review_id u) d));
    found ← find_held 10 reviewer false None sources;
    match found with
    | inl held => submit_held u reviewer held false
    | inr (false, Some held) =>
        if negb (eqb (u_verdict u) FINDINGS) then mret (failed STALE (Some (u_review_id u)) "subject_revision_changed")
        else submit_held u reviewer held true
    | inr _ => mret (failed DENIED (Some (u_review_id u))
                       (if eqb (length sources) 0%nat then "review_delivery_not_found" else "review_delivery_not_received"))
    end.
End service.

(** ** Findings of a subject *)

(** [hygiene_findings] *)
Definition hygiene_findings `{Lax} (subject : uuid) (d : StoreDB) : option (list DurableCapture.FindingRef) :=
  let payloads := omap (λ m : Messages.MessageRow,
    if eqb (basis_text "subject_work_id" m) (Some subject)
       && eqb (astext ["outcome"; "type"] (Messages.m_payload m)) (Some "REVIEW_OUTCOME"%string)
    then Some (Messages.m_payload m) else None) (Messages.messages (mail d)) in
  envelopes ← mapM outcome_envelope_validate payloads;
  Some (py_sort DurableCapture.ref_leb (remove_dups (envelopes ≫= λ e : ReviewOutcomeEnvelope,
    if eqb (oc_verdict (oe_outcome e)) FINDINGS
    then (λ f, DurableCapture.mkFindingRef (String.append "review:" (oc_review_id (oe_outcome e))) (fn_id f))
           <$> oc_findings (oe_outcome e)
    else []))).
