(* ===== verification/ReviewFacts.v ===== *)
(** * What the reviews promise

    Facts about [Reviews] and [ReviewService]: the tables that they read only
    grow, a request has at most one verdict, and a verdict that is shown is
    its reviewer's. *)

From stdpp Require Import pretty.
From S2P Require Import Prelude WeakestPre Tables Json Codec Tracker Store Reviews ReviewService.
From S2P Require HumanReviews Mailboxes Messages WorkState Controller.

Local Open Scope Z_scope.

#[local] Existing Instance Messages.Kind_eq_dec.
#[local] Existing Instance Messages.DeliveryState_eq_dec.
#[local] Existing Instance Messages.Status_eq_dec.
#[local] Existing Instance Mailboxes.AgentMailbox_eq_dec.

#[local] Arguments _digest : simpl never.
#[local] Arguments _stable : simpl never.

(** ** What stays true of the message tables *)

Definition delivery_static (x : Messages.DeliveryRow) : uuid * (uuid * uuid * uuid) :=
  (Messages.d_id x, Messages.delivery_key x).

Section sound.
Context `{Lax} (registered : uuid → Prop).

(** A stored review request was made for a registered mailbox other than the
    requester's. *)
Definition request_independent (m : Messages.MessageRow) : Prop :=
  Messages.m_route_ref m = "review.request"%string → Messages.m_kind m = Messages.request →
  ∀ e, envelope_validate (Messages.m_payload m) = Some e →
  ∃ u, registered u ∧ u ≠ en_requester e ∧ Messages.m_id m = _request_message_id (br_basis (en_brief e)) u.

(** The unique columns of the messages and the deliveries, and the requests. *)
Record Sound (d : Messages.MsgDB) : Prop := {
  so_messages : NoDup (Messages.message_key <$> Messages.messages d);
  so_replies m m' r : m ∈ Messages.messages d → m' ∈ Messages.messages d →
    Messages.m_in_reply_to m = Some r → Messages.m_in_reply_to m' = Some r → m = m';
  so_ids : NoDup (Messages.d_id <$> Messages.deliveries d);
  so_keys : NoDup (Messages.delivery_key <$> Messages.deliveries d);
  so_endpoints m : m ∈ Mailboxes.mailboxes (Messages.agents d) → registered (Mailboxes.endpoint_id m);
  so_requests m : m ∈ Messages.messages d → request_independent m }.

(** Messages are only added, and a delivery keeps its identity. *)
Record kept (d d' : Messages.MsgDB) : Prop := {
  ke_messages : Messages.messages d `prefix_of` Messages.messages d';
  ke_deliveries : (delivery_static <$> Messages.deliveries d) `prefix_of` (delivery_static <$> Messages.deliveries d') }.

#[global] Instance kept_preorder : PreOrder kept.
Proof. split; [by intros d; split|]. intros d1 d2 d3 [] []. by split; etrans. Qed.

Definition Evolves (d0 d : StoreDB) : Prop := Sound (mail d) ∧ kept (mail d0) (mail d).

Lemma Evolves_refl d : Sound (mail d) → Evolves d d.
Proof. by split. Qed.

Lemma Evolves_trans d1 d2 d3 : Evolves d1 d2 → Evolves d2 d3 → Evolves d1 d3.
Proof. intros [_ H1] [H2 H3]. split; [done | by etrans]. Qed.

(** ** Operations on the tables *)

(** A step of the message store, as seen from [d0]. *)
Definition MEvolves (d0 d : Messages.MsgDB) : Prop := Sound d ∧ kept d0 d.

Lemma Sound_message m d :
  Sound d → request_independent m →
  (∀ m', m' ∈ Messages.messages d → Messages.message_key m' ≠ Messages.message_key m) →
  (∀ r, Messages.m_in_reply_to m = Some r → ∀ m', m' ∈ Messages.messages d → Messages.m_in_reply_to m' ≠ Some r) →
  Sound (Messages.with_messages (Messages.messages d ++ [m]) d).
Proof.
  intros Hd Hi Hk Hr. split; cbn; try apply Hd.
  - by apply NoDup_snoc; [apply Hd|].
  - intros m1 m2 r [Hm1| ->]%elem_of_snoc [Hm2| ->]%elem_of_snoc Hr1 Hr2; [by eapply (so_replies d Hd)| | |done].
    + by destruct (Hr r Hr2 m1 Hm1).
    + by destruct (Hr r Hr1 m2 Hm2).
  - intros m' [Hm'| ->]%elem_of_snoc; [by apply Hd | done].
Qed.

Lemma Sound_delivery x d :
  Sound d → (∀ x', x' ∈ Messages.deliveries d → Messages.d_id x' ≠ Messages.d_id x ∧
                   Messages.delivery_key x' ≠ Messages.delivery_key x) →
  Sound (Messages.with_deliveries (Messages.deliveries d ++ [x]) d).
Proof.
  intros Hd Hx. split; cbn; try apply Hd; apply NoDup_snoc; try apply Hd; intros y Hy; by apply Hx.
Qed.

(** Rows that keep their identity. *)
Lemma Sound_moved l d :
  Sound d → delivery_static <$> l = delivery_static <$> Messages.deliveries d → Sound (Messages.with_deliveries l d).
Proof.
  intros Hd Hl.
  assert (H1 : Messages.d_id <$> l = Messages.d_id <$> Messages.deliveries d).
  { change Messages.d_id with (fst ∘ delivery_static). by rewrite !list_fmap_compose, Hl. }
  assert (H2 : Messages.delivery_key <$> l = Messages.delivery_key <$> Messages.deliveries d).
  { change Messages.delivery_key with (snd ∘ delivery_static). by rewrite !list_fmap_compose, Hl. }
  split; cbn; try apply Hd; [rewrite H1 | rewrite H2]; apply Hd.
Qed.

Lemma Sound_signal d l : Sound d →
  Sound (Messages.mkMsgDB (Messages.messages d) (Messages.deliveries d) (Messages.review_cutoff_receipt d)
    (Messages.agents d) (Messages.grants d) (Messages.handles d) l).
Proof. by intros []. Qed.

Lemma keeps_insert_message d0 m : request_independent m → keeps (MEvolves d0) (Messages.insert_message m) (λ _, True).
Proof.
  intros Hi d [Hd Hk]. destruct (Messages.insert_message m d) as [d' [a|e]] eqn:E.
  - split; [|done]. apply Messages.insert_message_Ok in E as [->|(-> & H1 & H2)]; [done|]. split.
    + by apply Sound_message.
    + etrans; [exact Hk|]. split; cbn; [by apply prefix_app_r | done].
  - unfold Messages.insert_message in E. by destruct (existsb _ _).
Qed.

Lemma keeps_insert_delivery d0 x : keeps (MEvolves d0) (Messages.insert_delivery x) (λ _, True).
Proof.
  intros d [Hd Hk]. destruct (Messages.insert_delivery x d) as [d' [a|e]] eqn:E.
  - split; [|done]. apply Messages.insert_delivery_Ok in E as [[-> _]|(-> & _ & H1 & _)]; [done|]. split.
    + by apply Sound_delivery.
    + etrans; [exact Hk|]. split; cbn; [done|]. rewrite fmap_app. by apply prefix_app_r.
  - unfold Messages.insert_delivery in E. destruct (existsb _ (Messages.deliveries d)); [done|].
    destruct (existsb _ (Messages.messages d)); [done|]. by injection E as <- <-.
Qed.

Lemma keeps_persist d0 now s r q dg :
  request_independent (Messages.mkMessage s (Messages.q_message_id q) (Messages.q_route_ref q) (Messages.q_kind q)
    (Messages.q_payload q) dg (Messages.q_in_reply_to q) now) →
  keeps (MEvolves d0) (Messages._persist_delivery now s r q dg) (λ _, True).
Proof.
  intros Hi. unfold Messages._persist_delivery. apply keeps_bind_true; [by apply keeps_insert_message|]. intros _.
  keeps_writes. apply keeps_insert_delivery.
Qed.

Lemma keeps_notify d0 m b : keeps (MEvolves d0) (Messages._notify_delivery m b) (λ _, True).
Proof. intros d [Hd Hk]. split; [|done]. split; [by apply Sound_signal | etrans; [exact Hk | by split]]. Qed.

Lemma keeps_select_delivery d0 id : keeps (MEvolves d0) (Messages.select_delivery id) (λ _, True).
Proof. apply keeps_reads. Qed.
Lemma keeps_select_reply d0 id : keeps (MEvolves d0) (Messages.select_reply id) (λ _, True).
Proof. apply keeps_reads. Qed.

(** The message that a submission would store. *)
Definition message_of (now : Z) (s : uuid) (r : Messages.MessageRoute) (q : Messages.MessageSubmitRequest)
  : Messages.MessageRow :=
  Messages.mkMessage s (Messages.q_message_id q) (Messages.q_route_ref q) (Messages.q_kind q) (Messages.q_payload q)
    (Messages._digest r q) (Messages.q_in_reply_to q) now.

Lemma keeps_review_internal d0 now s r q rb wake :
  request_independent (message_of now (Mailboxes.endpoint_id s) r q) →
  keeps (MEvolves d0) (Messages.submit_review_internal now s r q rb wake) (λ _, True).
Proof.
  intros Hi. unfold Messages.submit_review_internal. keeps_writes;
    try apply keeps_select_delivery; try apply keeps_select_reply; try apply keeps_notify; by apply keeps_persist.
Qed.

Lemma keeps_on_mail {A} d0 (m : M Messages.MsgDB A) :
  keeps (MEvolves (mail d0)) m (λ _, True) → keeps (Evolves d0) (on_mail m) (λ _, True).
Proof.
  intros Hm d Hd. unfold on_mail, GrantState.via. destruct (m (mail d)) as [m' x] eqn:E.
  split; [|done]. destruct (Hm (mail d) Hd) as [H1 _]. by rewrite E in H1.
Qed.

Lemma keeps_submit_review d0 now s recipient v q rb wake :
  request_independent (message_of now (Mailboxes.endpoint_id s) (Messages.mkRoute recipient v) q) →
  keeps (Evolves d0) (submit_review now s recipient v q rb wake) (λ _, True).
Proof.
  intros Hi. unfold submit_review. eapply (keeps_bind _ _ _ (λ q', q' = q)).
  - apply keeps_lift. intros q'. unfold Messages.submit_validate. by repeat case_match; intros [= ->].
  - intros q' ->. by apply keeps_on_mail, keeps_review_internal.
Qed.

(** A message that is no request of the route is no review request. *)
Lemma no_request now s r q :
  (Messages.q_route_ref q ≠ "review.request"%string ∨ Messages.q_kind q ≠ Messages.request) →
  request_independent (message_of now s r q).
Proof. intros Hn Hr Hk. destruct Hn; done. Qed.
End sound.

(** ** Reads of the mailboxes *)

Lemma view_ok_state m d r : (Mailboxes.view_ok m d).2 = Ok (Mailboxes.mb_ok r) → r = m.
Proof.
  unfold Mailboxes.view_ok, Mailboxes._view. destruct (Mailboxes.mailbox_ok m); cbn; [|done]. by intros [= ->].
Qed.

(** What a guarded read that answers with a mailbox did. *)
Lemma guarded_ok (m : M Mailboxes.MailboxDB Mailboxes.MailboxResult) d r :
  (Mailboxes.guarded Mailboxes.unavailable m d).2 = Ok (Mailboxes.mb_ok r) → (m d).2 = Ok (Mailboxes.mb_ok r).
Proof.
  unfold Mailboxes.guarded, catch. destruct (m d) as [d' [a|e]]; [done|]. by destruct (existsb _ _).
Qed.

Lemma mailbox_by_endpoint_Some e d m :
  mailbox_by_endpoint e d = Some m → m ∈ Mailboxes.mailboxes (Messages.agents (mail d)) ∧ Mailboxes.endpoint_id m = e.
Proof.
  unfold mailbox_by_endpoint, found_mailbox. destruct (_.2) as [[r| | |]|] eqn:E; try done. intros [= ->].
  apply guarded_ok in E. unfold Mailboxes.select_one, mbind, M_bind in E.
  destruct (one_or_none (List.filter _ _)) as [[row|]|] eqn:Hone; cbn in E; [|done..]. apply view_ok_state in E as ->.
  apply one_or_none_Some, filter_one in Hone as [Hin He]. split; [done|]. by apply (eqb_true (Mailboxes.endpoint_id row)).
Qed.

Lemma mailbox_by_name_Some n d m :
  mailbox_by_name n d = Some m → m ∈ Mailboxes.mailboxes (Messages.agents (mail d)).
Proof.
  unfold mailbox_by_name, found_mailbox. destruct (_.2) as [[r| | |]|] eqn:E; try done. intros [= ->].
  apply guarded_ok in E. unfold mbind, M_bind, lift, get_st in E. destruct (Mailboxes.coordinator_name_keys n) as [keys|]; cbn in E; [|done].
  destruct (List.filter _ _) as [|row [|? ?]] eqn:Hf; cbn in E; try done. apply view_ok_state in E as ->.
  by apply filter_one in Hf as [Hin _].
Qed.

(** ** The service *)

Section service.
Context `{LaxLaws} (registered : uuid → Prop) (registered_uuid : ∀ u, registered u → is_uuid u = true).
Context (nfkc_casefold : string → string) (policy_version guidelines_version guidelines_digest : string).
Context (others : nat → StoreDB → StoreDB) (clock : nat → Z).
Context (others_evolve : ∀ n d, Sound registered (mail d) → Evolves registered d (others n d)).

Set Default Proof Using "Type*".

Abbreviation Ev := (Evolves registered).

Lemma keeps_meanwhile d0 n : keeps (Ev d0) (meanwhile others n) (λ _, True).
Proof. intros d Hd. split; [|done]. eapply Evolves_trans; [exact Hd|]. apply others_evolve, Hd. Qed.

Lemma keeps_reads_at {A} d0 n (f : StoreDB → res A) : keeps (Ev d0) (reads others n f) (λ _, True).
Proof. unfold reads. apply keeps_bind_true; [apply keeps_meanwhile | intros _; apply keeps_reads]. Qed.

(** A change of the tables that the mail does not have. *)
Lemma keeps_put_human d0 d t : Ev d0 d → keeps (Ev d0) (put_st (with_s_tracker t d)) (λ _, True).
Proof. intros Hd. by apply keeps_put. Qed.

Lemma keeps_handles {A} d0 (m : M WorkState.StateDB A) : keeps (Ev d0) (on_handles m) (λ _, True).
Proof.
  intros d [Hd Hk]. unfold on_handles, GrantState.via. destruct (m (s_handles d)) as [h x]. split; [|done]. cbn.
  split; [by destruct Hd; split | etrans; [exact Hk | by split]].
Qed.

Lemma keeps_insert_work d0 w r : keeps (Ev d0) (insert_work w r) (λ _, True).
Proof. intros d Hd. unfold insert_work. by destruct (is_some _). Qed.

Lemma keeps_ensure d0 b : keeps (Ev d0) (_ensure_in_transaction nfkc_casefold b) (λ _, True).
Proof.
  unfold _ensure_in_transaction, insert_parent, refuse_if. keeps_writes;
    try apply keeps_handles; try apply keeps_insert_work; by apply keeps_put_human.
Qed.

Lemma keeps_record_basis d0 now b r : keeps (Ev d0) (_record_basis_in_transaction now b r) (λ _, True).
Proof. unfold _record_basis_in_transaction. keeps_writes. apply keeps_submit_review, no_request. by left. Qed.

(** The request that an owner sends is independent. *)
Lemma request_message now b requester reviewer sender v :
  brief_wf b = true → registered (Mailboxes.endpoint_id requester) → registered (Mailboxes.endpoint_id reviewer) →
  eligible requester reviewer = true →
  request_independent registered (message_of now (Mailboxes.endpoint_id sender)
    (Messages.mkRoute (Mailboxes.endpoint_id reviewer) v)
    (Messages.mkSubmit (_request_message_id (br_basis b) (Mailboxes.endpoint_id reviewer)) (Mailboxes.generation sender)
       "review.request" Messages.request
       (envelope_json (mkEnvelope REVIEW_REQUEST b (Mailboxes.name requester) (Mailboxes.endpoint_id requester)
          (Some (Mailboxes.endpoint_id reviewer)) (Some (Mailboxes.principal_key reviewer)))) None)).
Proof.
  intros Hb H1 H2 Hel _ _ e He. cbn [message_of Messages.m_payload Messages.q_payload] in He. rewrite envelope_read in He.
  - injection He as <-. cbn. exists (Mailboxes.endpoint_id reviewer). split_and!; [done| |done].
    unfold eligible in Hel. rewrite negb_true_iff, eqb_false in Hel. congruence.
  - unfold envelope_wf. cbn. by rewrite Hb, (registered_uuid _ H1), (registered_uuid _ H2).
Qed.

Lemma keeps_send_request d0 now id b requester c :
  brief_wf b = true → registered (Mailboxes.endpoint_id requester) →
  keeps (Ev d0) (send_request now id b requester c) (λ _, True).
Proof.
  intros Hb Hreq. unfold send_request. apply keeps_bind_get. intros d Hd.
  destruct (mailbox_by_name _ d) as [reviewer|] eqn:Hm; [|by apply keeps_ret].
  apply mailbox_by_name_Some in Hm. apply (so_endpoints _ _ (proj1 Hd)) in Hm.
  destruct (eligible requester reviewer) eqn:Hel; cbn [negb]; [|by apply keeps_ret].
  apply keeps_bind_true; [by apply keeps_submit_review, request_message|]. intros s. keeps_writes.
  apply keeps_submit_review, no_request. by left.
Qed.

Lemma keeps_advance_basis d0 now id b rev requester c d :
  Ev d0 d → brief_wf b = true →
  keeps (Ev d0) (advance_basis policy_version guidelines_version guidelines_digest now id b rev requester c d) (λ _, True).
Proof.
  intros Hd Hb. unfold advance_basis. destruct (match c with Some c => _ | None => None end); [by apply keeps_ret|].
  destruct (_ || _) eqn:E; [by apply keeps_ret|]. apply orb_false_iff in E as [E _].
  rewrite negb_false_iff, eqb_true in E. apply mailbox_by_endpoint_Some in E as [E _].
  apply (so_endpoints _ _ (proj1 Hd)) in E. keeps_writes. by apply keeps_send_request.
Qed.

Lemma source_wf id d s : s ∈ basis_sources id d → brief_wf (en_brief s.2) = true.
Proof.
  unfold basis_sources, sources_by. intros (r & _ & Hr)%list_elem_of_omap.
  apply bind_Some in Hr as (e & He & Hs). destruct (eqb _ _); [|done]. injection Hs as <-. cbn.
  unfold basis_envelope in He. apply bind_Some in He as (e' & He & Hs). cbn zeta in Hs.
  destruct (_ && _); [|done]. injection Hs as ->. apply envelope_wf_read in He. unfold envelope_wf in He.
  rewrite !andb_true_iff in He. by destruct He as [[? _] _].
Qed.

Lemma keeps_advance d0 now id requester c :
  keeps (Ev d0) (_advance_in_transaction policy_version guidelines_version guidelines_digest now id requester c) (λ _, True).
Proof.
  unfold _advance_in_transaction. apply keeps_bind_get. intros d Hd.
  destruct (works _ !! id) as [occ|]; [|by apply keeps_ret]. destruct (parents _ !! id) as [p|]; [|by apply keeps_ret].
  destruct (negb _); [by apply keeps_ret|]. destruct (version_of p _) as [v|]; [|by apply keeps_ret].
  apply keeps_bind_true; [by eapply keeps_true, keeps_lift_eq|]. intros rev.
  destruct (bases_at p rev id d) as [|s [|? ?]] eqn:Hb; [by apply keeps_ret| |by apply keeps_ret].
  apply keeps_advance_basis; [done|]. apply (source_wf id d). apply filter_one in Hb. apply Hb.
Qed.

Lemma keeps_rolled_back {A} d0 p (m : M StoreDB A) :
  keeps (Ev d0) m (λ _, True) → keeps (Ev d0) (rolled_back p m) (λ _, True).
Proof.
  intros Hm d Hd. specialize (Hm d Hd). unfold rolled_back. destruct (m d) as [d' [a|e]]; [|done].
  destruct Hm as [Hm _]. split; [|done]. by destruct (p a).
Qed.

Lemma keeps_request d0 q r :
  keeps (Ev d0) (request nfkc_casefold policy_version guidelines_version guidelines_digest others clock q r) (λ _, True).
Proof.
  unfold request, prior_context. keeps_writes; try apply keeps_reads_at; try apply keeps_meanwhile.
  apply keeps_catch; [|intros e; by apply keeps_ret]. apply keeps_transaction, keeps_rolled_back. unfold request_locked.
  keeps_writes; [apply keeps_ensure | apply keeps_record_basis | apply keeps_advance].
Qed.

Lemma keeps__advance d0 id r :
  keeps (Ev d0) (_advance policy_version guidelines_version guidelines_digest others clock id r) (λ _, True).
Proof.
  unfold _advance. apply keeps_catch; [|intros e; by apply keeps_ret].
  apply keeps_bind_true; [apply keeps_meanwhile|]. intros _. apply keeps_transaction, keeps_advance.
Qed.

Lemma keeps_review_get d0 id r :
  keeps (Ev d0) (get policy_version guidelines_version guidelines_digest others clock id r) (λ _, True).
Proof.
  unfold get. apply keeps_bind_true; [apply keeps__advance|]. intros a. destruct (negb _); [by apply keeps_ret|].
  apply keeps_catch; [|intros e; by apply keeps_ret]. unfold get_sent. keeps_writes; apply keeps_reads_at.
Qed.

Lemma keeps_move d0 x g : keeps (Ev d0) (move_delivery x g) (λ _, True).
Proof.
  intros d [Hd Hk]. split; [|done]. cbn. set (l := _ <$> Messages.deliveries (mail d)).
  assert (Hl : delivery_static <$> l = delivery_static <$> Messages.deliveries (mail d)).
  { unfold l. rewrite <- list_fmap_compose. apply list_fmap_ext. intros k y _. cbn. by destruct (_ && _). }
  split; [by apply Sound_moved|]. etrans; [exact Hk|]. split; cbn; [done | by rewrite Hl].
Qed.

Lemma keeps_recover d0 id r :
  keeps (Ev d0) (recover policy_version guidelines_version guidelines_digest others id r) (λ _, True).
Proof.
  unfold recover. apply keeps_catch; [|intros e; by apply keeps_ret].
  apply keeps_bind_true; [apply keeps_meanwhile|]. intros _. apply keeps_transaction. unfold recover_locked, recover_request.
  keeps_writes. apply keeps_move.
Qed.

Lemma keeps_continue d0 id r :
  keeps (Ev d0) (continue_acquisition policy_version guidelines_version guidelines_digest others clock id r) (λ _, True).
Proof.
  unfold continue_acquisition. keeps_writes; try apply keeps_reads_at.
  apply keeps_catch; [|intros e; by apply keeps_ret].
  apply keeps_bind_true; [apply keeps_meanwhile|]. intros _. apply keeps_transaction, keeps_advance.
Qed.

Lemma keeps_find_held d0 r sources : ∀ n current old,
  keeps (Ev d0) (find_held others n r current old sources) (λ _, True).
Proof.
  induction sources as [|s l IH]; intros n current old; cbn [find_held]; [by apply keeps_ret|].
  keeps_writes; try apply keeps_reads_at; apply IH.
Qed.

Lemma keeps_submit_held d0 u r held stale : keeps (Ev d0) (submit_held others clock u r held stale) (λ _, True).
Proof.
  unfold submit_held. keeps_writes; try apply keeps_reads_at; try apply keeps_meanwhile;
    apply keeps_submit_review, no_request; [by right | by left].
Qed.

Lemma keeps_submit d0 u r : keeps (Ev d0) (submit policy_version others clock u r) (λ _, True).
Proof.
  unfold submit. keeps_writes; try apply keeps_reads_at; [apply keeps_find_held | apply keeps_submit_held..].
Qed.
End service.

(** ** The calls of the message store *)

Section calls.
Context `{Lax} (registered : uuid → Prop).
#[local] Set Default Proof Using "Type*".

Abbreviation MEv := (MEvolves registered).

(** A submission that the store does not keep for the reviews, or that carries
    no review request. *)
Definition generic (q : Messages.MessageSubmitRequest) (d : Messages.MsgDB) : Prop :=
  Messages.q_route_ref q = "review.request"%string → Messages.review_cutoff_receipt d = true.

Lemma keeps_update d0 id f :
  (∀ x, delivery_static (f x) = delivery_static x) → keeps (MEv d0) (Messages.update_delivery id f) (λ _, True).
Proof.
  intros Hf d [Hd Hk]. split; [|done]. unfold Messages.update_delivery. cbn. set (l := _ <$> Messages.deliveries d).
  assert (Hl : delivery_static <$> l = delivery_static <$> Messages.deliveries d).
  { unfold l. rewrite <- list_fmap_compose. apply list_fmap_ext. intros k y _. cbn. by destruct (Messages.is_delivery id y). }
  split; [by apply Sound_moved|]. etrans; [exact Hk|]. split; cbn; [done | by rewrite Hl].
Qed.

Lemma keeps_disposition_result d0 now id s i b :
  keeps (MEv d0) (Messages._disposition_result now id s i b) (λ _, True).
Proof.
  unfold Messages._disposition_result. keeps_writes; try apply keeps_select_delivery. by apply keeps_update.
Qed.

Lemma keeps_reply_failure d0 s q rb : keeps (MEv d0) (Messages.reply_failure s q rb) (λ _, True).
Proof.
  unfold Messages.reply_failure. keeps_writes; try apply keeps_select_delivery; apply keeps_select_reply.
Qed.

(** A generic submission makes no review request: the store refuses the routes
    of the reviews once it has the receipt of the cutoff. *)
Lemma keeps_store_locked d0 now s r q rb b d :
  MEv d0 d → generic q d → MEv d0 (Messages.store_locked now s r q rb b d).1.
Proof.
  intros Hd Hg. unfold Messages.store_locked, mbind at 1, M_bind at 1, get_st.
  destruct (mem (Messages.q_route_ref q) Messages.REVIEW_ROUTE_REFS && _) eqn:Hr; [exact Hd|].
  assert (Hno : Messages.q_route_ref q ≠ "review.request"%string).
  { intros E. rewrite (Hg E), E in Hr. done. }
  destruct (negb _); [exact Hd|].
  refine (proj1 ((_ : keeps (MEv d0) _ (λ _, True)) d Hd)). keeps_writes;
    try apply keeps_reply_failure; try apply keeps_disposition_result.
  apply keeps_persist. by apply (no_request _ now s r q); left.
Qed.

Lemma keeps_store d0 now s r q rb b d :
  MEv d0 d → generic q d → MEv d0 (Messages._store now s r q rb b d).1.
Proof.
  intros Hd Hg. pose proof (keeps_store_locked d0 now s r q rb b d Hd Hg) as H1.
  unfold Messages._store, mbind, M_bind, transaction.
  destruct (Messages.store_locked now s r q rb b d) as [d1 [[o|[row fresh]]|e]]; cbn [fst] in *; [exact H1| |exact Hd].
  exact (proj1 (keeps_notify registered d0 (Messages._view row) fresh d1 H1)).
Qed.

Lemma catch_state {S A} (P : S → Prop) (m : M S A) cs h s : P (m s).1 → P (catch m cs (λ e, mret (h e)) s).1.
Proof. unfold catch. destruct (m s) as [s' [a|e]]; [done|]. by destruct (existsb _ cs). Qed.

Lemma lift_state {S A B} (P : S → Prop) (r : res A) (f : A → M S B) s :
  P s → (∀ a, r = Ok a → P (f a s).1) → P ((lift r ≫= f) s).1.
Proof. intros Hs Hf. unfold lift, mbind, M_bind. destruct r; [by apply Hf | done]. Qed.

Lemma keeps_replay d0 now s q b : keeps (MEv d0) (Messages.committed_public_replay now s q b) (λ _, True).
Proof.
  unfold Messages.committed_public_replay. cbv zeta. keeps_writes. apply keeps_disposition_result.
Qed.

Lemma keeps_admitted d0 w rt id b body :
  (∀ x, keeps (MEv d0) (body x) (λ _, True)) → keeps (MEv d0) (Messages.admitted w rt id b body) (λ _, True).
Proof.
  intros Hb. unfold Messages.admitted. destruct (Messages.runtime_admission rt) as [[? ?]|]; [by apply keeps_ret|].
  apply keeps_catch; [|intros e; by apply keeps_ret]. keeps_writes; [apply keeps_select_delivery | apply Hb].
Qed.

Lemma keeps_evidence d0 w x e : keeps (MEv d0) (Messages._evidence_failure_for_work w x e) (λ _, True).
Proof.
  unfold Messages._evidence_failure_for_work, Messages.select_message, Messages.on_grants. keeps_writes; apply keeps_reads.
Qed.

Lemma keeps_acknowledge d0 now w v b ids : keeps (MEv d0) (Messages.acknowledge_each now w v b ids) (λ _, True).
Proof.
  induction ids as [|id ids IH]; cbn [Messages.acknowledge_each]; [by apply keeps_ret|].
  unfold Messages.acknowledge_one. keeps_writes; try apply keeps_select_delivery; try apply IH. by apply keeps_update.
Qed.

(** What another caller may call: it does not use the entry points that are
    internal to the reviews, it sends no review request before the cutoff, the
    mailboxes are registered. *)
Definition ordinary (c : Messages.Call) (d : Messages.MsgDB) : Prop :=
  match c with
  | Messages.c_submit _ _ _ q _ | Messages.c_submit_result _ _ _ _ _ q _ => generic q d
  | Messages.c_review _ _ _ _ _ _ => False
  | Messages.c_world _ a _ _ => ∀ m, m ∈ Mailboxes.mailboxes a → registered (Mailboxes.endpoint_id m)
  | _ => True
  end.

Lemma ordinary_evolves c d : Sound registered d → ordinary c d → MEv d (Messages.run c d).
Proof.
  intros Hd Hc. assert (H0 : MEv d d) by by split.
  assert (Hk : ∀ A (m : M Messages.MsgDB A), keeps (MEv d) m (λ _, True) → MEv d (m d).1) by (intros A m Hm; apply (Hm d H0)).
  destruct c; cbn [Messages.run]; cbn in Hc; try (apply lift_state; [exact H0|]; intros q' Hq').
  - apply (catch_state _ (Messages._store _ _ _ _ _ _)), keeps_store; [done|]. unfold Messages.submit_validate in Hq'.
    by repeat case_match; simplify_eq.
  - apply (catch_state _ (Messages._store _ _ _ _ _ _)), keeps_store; [done|]. unfold Messages.submit_validate in Hq'.
    by repeat case_match; simplify_eq.
  - done.
  - apply Hk, keeps_replay.
  - apply Hk, keeps_admitted. intros x. keeps_writes. by apply keeps_update.
  - apply Hk, keeps_admitted. intros x. keeps_writes. by apply keeps_update.
  - apply Hk, keeps_admitted. intros x. keeps_writes; [apply keeps_evidence | by apply keeps_update].
  - apply Hk. unfold Messages.acknowledge_admitted. apply keeps_catch; [|intros e; by apply keeps_ret].
    keeps_writes. apply keeps_acknowledge.
  - destruct Hd. by split.
Qed.
End calls.

(** ** Records *)

(** The part of a record that never changes. *)
Definition r_static (r : ReviewRecord) : uuid * uuid * uuid * uuid * string * Messages.Kind * json * option uuid :=
  (r_delivery_id r, Messages.p_message_id (r_delivery r), r_sender r, r_recipient r, Messages.p_route_ref (r_delivery r),
   Messages.p_kind (r_delivery r), Messages.p_payload (r_delivery r), r_reply_to r).

Lemma records_elem review d r :
  r ∈ records review d ↔
  ∃ x m, (x, m) ∈ Messages.joined (mail d) ∧ about_review review m = true ∧ r = review_record (x, m).
Proof.
  unfold records. rewrite py_sort_perm, list_elem_of_fmap. split.
  - intros ([x m] & -> & Hin). apply list_elem_of_In, filter_In in Hin as [Hin%list_elem_of_In Ha]. by exists x, m.
  - intros (x & m & Hin & Ha & ->). exists (x, m). split; [done|]. apply list_elem_of_In, filter_In.
    split; [by apply list_elem_of_In | done].
Qed.

Lemma joined_intro d x m :
  x ∈ Messages.deliveries d → m ∈ Messages.messages d →
  Messages.message_key m = (Messages.d_sender x, Messages.d_message x) → (x, m) ∈ Messages.joined d.
Proof.
  intros Hx Hm Hk. unfold Messages.joined. apply list_elem_of_bind. exists x. split; [|done].
  apply list_elem_of_fmap. exists m. split; [done|]. apply list_elem_of_In, filter_In.
  split; [by apply list_elem_of_In | by apply Messages.is_message_true].
Qed.

Section records.
Context `{Lax} (registered : uuid → Prop).

Lemma records_kept review d d' r :
  kept (mail d) (mail d') → r ∈ records review d → ∃ r', r' ∈ records review d' ∧ r_static r' = r_static r.
Proof.
  intros [Hm Hx] (x & m & Hj & Ha & ->)%records_elem. apply Messages.joined_elem in Hj as (Hx0 & Hm0 & Hk).
  assert (Hx' : delivery_static x ∈ delivery_static <$> Messages.deliveries (mail d')).
  { eapply elem_of_prefix; [|exact Hx]. by apply list_elem_of_fmap_2. }
  apply list_elem_of_fmap in Hx' as (x' & Es & Hx'). exists (review_record (x', m)).
  unfold delivery_static, Messages.delivery_key in Es. injection Es as E1 E2 E3 E4. split.
  - apply records_elem. exists x', m. split_and!; [|done..]. apply joined_intro; [done| |congruence].
    by eapply elem_of_prefix.
  - unfold r_static, review_record, r_delivery_id, r_sender, r_recipient. cbn. congruence.
Qed.

Lemma record_unique review review' d r r' :
  Sound registered (mail d) → r ∈ records review d → r' ∈ records review' d → r_delivery_id r = r_delivery_id r' → r = r'.
Proof.
  intros Hd (x & m & Hj & _ & ->)%records_elem (x' & m' & Hj' & _ & ->)%records_elem E. cbn in E.
  apply Messages.joined_elem in Hj as (Hx & Hm & Hk), Hj' as (Hx' & Hm' & Hk').
  assert (x = x') as -> by (by apply (NoDup_fmap_inj Messages.d_id _ _ _ (so_ids _ _ Hd))).
  assert (m = m') as -> by (apply (NoDup_fmap_inj Messages.message_key _ _ _ (so_messages _ _ Hd)); congruence). done.
Qed.

Lemma reply_unique review review' d r r' y :
  Sound registered (mail d) → r ∈ records review d → r' ∈ records review' d →
  r_reply_to r = Some y → r_reply_to r' = Some y → r_recipient r = r_recipient r' → r = r'.
Proof.
  intros Hd (x & m & Hj & _ & ->)%records_elem (x' & m' & Hj' & _ & ->)%records_elem E1 E2 E3. cbn in E1, E2, E3.
  apply Messages.joined_elem in Hj as (Hx & Hm & Hk), Hj' as (Hx' & Hm' & Hk').
  assert (m = m') as -> by (by apply (so_replies _ _ Hd m m' y)). rewrite Hk in Hk'. injection Hk' as K1 K2.
  assert (x = x') as ->; [|done]. apply (NoDup_fmap_inj Messages.delivery_key _ _ _ (so_keys _ _ Hd)); try done.
  unfold r_recipient in E3. cbn in E3. unfold Messages.delivery_key. congruence.
Qed.

Lemma request_envelope_static r r' : r_static r = r_static r' → request_envelope r = request_envelope r'.
Proof.
  intros E. unfold r_static in E. injection E as E1 E2 E3 E4 E5 E6 E7 E8.
  unfold request_envelope, is_typed. by rewrite E2, E4, E5, E6, E7, E8.
Qed.

Lemma answers_static review request request' env r r' e :
  r_static request = r_static request' → r_static r = r_static r' →
  answers review (request, env) r e = answers review (request', env) r' e.
Proof.
  intros E F. unfold r_static in *. injection E as E1 E2 E3 E4 E5 E6 E7 E8. injection F as F1 F2 F3 F4 F5 F6 F7 F8.
  unfold answers. cbn. by rewrite E1, E3, E4, F2, F3, F4, F5, F6, F8.
Qed.

Lemma sources_elem read review d s :
  s ∈ sources_by read review d → s.1 ∈ records review d ∧ read s.1 = Some s.2 ∧ b_review_id (source_basis s) = review.
Proof.
  unfold sources_by. intros (r & Hr & Hs)%list_elem_of_omap. apply bind_Some in Hs as (e & He & Hs).
  destruct (eqb _ review) eqn:E; [|done]. injection Hs as <-. rewrite eqb_true in E. done.
Qed.

(** What [answers] means. *)
Lemma answers_true review request r e :
  answers review request r e = true ↔
  oe_brief e = en_brief request.2 ∧ oc_review_id (oe_outcome e) = review ∧
  oc_digest (oe_outcome e) = _digest (review_submit_json (verdict_of (oe_outcome e))) ∧
  Messages.p_route_ref (r_delivery r) = "review.request"%string ∧ Messages.p_kind (r_delivery r) = Messages.result ∧
  r_reply_to r = Some (r_delivery_id request.1) ∧ r_sender r = r_recipient request.1 ∧
  r_recipient r = r_sender request.1 ∧
  Messages.p_message_id (r_delivery r) = _stable "verdict" [review; r_delivery_id request.1].
Proof. clear registered. unfold answers. rewrite !andb_true_iff, !eqb_true. tauto. Qed.

(** A record that answers the request with the outcome. *)
Definition answered_by (review : uuid) (request : ReviewRecord * ReviewEnvelope) (o : ReviewRecord * ReviewOutcomeEnvelope)
    (d : StoreDB) : Prop :=
  o.1 ∈ records review d ∧ outcome_envelope_validate (Messages.p_payload (r_delivery o.1)) = Some o.2 ∧
  oc_delivery (oe_outcome o.2) = r_delivery_id request.1 ∧ answers review request o.1 o.2 = true.

Lemma put_outcome_elem o o' l : o' ∈ put_outcome o l → o' = o ∨ o' ∈ l.
Proof.
  clear registered. induction l as [|x l IH]; cbn; [rewrite list_elem_of_singleton; by left|].
  destruct (eqb _ _); rewrite !elem_of_cons; [naive_solver|]. intros [->|?%IH]; naive_solver.
Qed.

Lemma collect_sound review sources rs : ∀ found out,
  collect_outcomes review sources found rs = Ok out →
  ∀ o, o ∈ out → o ∈ found ∨
    ∃ s, s ∈ sources ∧ o.1 ∈ rs ∧ outcome_envelope_validate (Messages.p_payload (r_delivery o.1)) = Some o.2 ∧
      oc_delivery (oe_outcome o.2) = r_delivery_id s.1 ∧ answers review s o.1 o.2 = true.
Proof.
  induction rs as [|r rs IH]; intros found out Hc o Ho; cbn in Hc; [injection Hc as ->; by left|].
  destruct (outcome_envelope_validate _) as [e|] eqn:He.
  2: { destruct (IH _ _ Hc o Ho) as [?|(s & ? & ? & ?)]; [by left|]. right. exists s. by rewrite elem_of_cons; auto. }
  destruct (List.find _ sources) as [s|] eqn:Hf.
  2: { destruct (IH _ _ Hc o Ho) as [?|(s & ? & ? & ?)]; [by left|]. right. exists s. by rewrite elem_of_cons; auto. }
  destruct (negb _); [done|]. cbn in Hc.
  destruct (IH _ _ Hc o Ho) as [Hin|(s' & ? & ? & ?)]; [|right; exists s'; by rewrite elem_of_cons; auto].
  destruct (answers review s r e) eqn:Ha; [|by left]. apply put_outcome_elem in Hin as [->|?]; [|by left].
  right. apply find_some in Hf as [Hs Hd]. rewrite eqb_true in Hd. exists s.
  split_and!; [by apply list_elem_of_In | by apply elem_of_cons; left | done..].
Qed.

Lemma outcome_source_elem policy review request d out o :
  outcome_sources policy review (Some request) d = Ok out → o ∈ out → answered_by review request o d.
Proof.
  unfold outcome_sources. intros Hc Ho. destruct (collect_sound _ _ _ _ _ Hc o Ho) as [?%not_elem_of_nil|(s & Hs & H1)]; [done|].
  apply list_elem_of_singleton in Hs as ->. exact H1.
Qed.

(** Answers stay, and a request has at most one. *)
Lemma answered_kept review request request' env o d d' :
  kept (mail d) (mail d') → r_static request = r_static request' → answered_by review (request, env) o d →
  ∃ r', r_static r' = r_static o.1 ∧ answered_by review (request', env) (r', o.2) d'.
Proof.
  intros Hk Hs (Ho & He & Hd & Ha). destruct (records_kept review d d' o.1 Hk Ho) as (r' & Hr' & Es).
  exists r'. split; [done|]. unfold answered_by. cbn. split; [done|].
  assert (Hp : Messages.p_payload (r_delivery r') = Messages.p_payload (r_delivery o.1)) by (unfold r_static in Es; congruence).
  assert (Hi : r_delivery_id request' = r_delivery_id request) by (unfold r_static in Hs; congruence).
  rewrite Hp, Hi. split_and!; [done..|]. by rewrite (answers_static review request' request env r' o.1 o.2).
Qed.

Lemma answered_unique review request o o' d :
  Sound registered (mail d) → answered_by review request o d → answered_by review request o' d → o = o'.
Proof.
  intros Hd (Ho & He & _ & Ha) (Ho' & He' & _ & Ha').
  apply answers_true in Ha as (_ & _ & _ & _ & _ & A1 & _ & A2 & _), Ha' as (_ & _ & _ & _ & _ & B1 & _ & B2 & _).
  assert (o.1 = o'.1) as E by (apply (reply_unique review review d _ _ (r_delivery_id request.1)); congruence).
  rewrite E, He' in He. injection He as E2. destruct o, o'; cbn in *; congruence.
Qed.
End records.
