(* ===== verification/ReviewSystem.v ===== *)
(** * Verdicts of reviews: authentic, independent, final

    The theorems about the review service, among any other calls of the
    message store. *)

From stdpp Require Import pretty.
From S2P Require Import Prelude WeakestPre Tables Json Codec Tracker Store Reviews ReviewService ReviewFacts.
From S2P Require HumanReviews Mailboxes Messages WorkState Controller.

Local Open Scope Z_scope.

#[local] Existing Instance Messages.Kind_eq_dec.
#[local] Existing Instance Messages.DeliveryState_eq_dec.
#[local] Existing Instance Messages.Status_eq_dec.
#[local] Existing Instance Mailboxes.AgentMailbox_eq_dec.

#[local] Arguments _digest : simpl never.
#[local] Arguments _stable : simpl never.

(** ** The shape of the answers *)

Lemma wp_any {S A} (m : M S A) (Q : A → S → Prop) s : (∀ a s', Q a s') → wp m Q s.
Proof. unfold wp. destruct (m s) as [s' [a|e]]; auto. Qed.

(** An answer without a verdict. *)
Definition no_verdict (o : ReviewResult) : Prop := is_terminal (rr_status o) = false ∧ exact_shape o = true.

Definition delivered (s : ReviewStatus) : bool := mem s [SENT; SUBMITTED; REQUEST_UNPICKED; RECEIVED].

Lemma no_verdict_at s id x : delivered s = true → no_verdict (at_delivery s id x).
Proof. by destruct s. Qed.

Definition refusal (s : ReviewStatus) : bool := mem s [STALE; DENIED; UNKNOWN].

Lemma no_verdict_failed s id reason : refusal s = true → no_verdict (failed s id reason).
Proof. by destruct s. Qed.

Lemma no_verdict_waiting id reason : no_verdict (failed WAITING_REVIEWER (Some id) reason).
Proof. done. Qed.

Lemma no_verdict_submitted id x digest : no_verdict (submitted_result id x digest).
Proof. done. Qed.

#[local] Hint Resolve no_verdict_at no_verdict_failed no_verdict_waiting no_verdict_submitted : core.

Lemma no_verdict_pending id x : no_verdict (pending_result id x).
Proof. unfold pending_result. repeat case_match; auto. Qed.

Ltac shape_steps :=
  repeat first [wp_step | progress (repeat case_match; auto using no_verdict_pending) | apply wp_any; intros ? ?].

Section shape.
Context `{Lax} (nfkc_casefold : string → string) (policy_version guidelines_version guidelines_digest : string).
Context (others : nat → StoreDB → StoreDB) (clock : nat → Z).

Lemma coordinator_shape id b c d r : coordinator_refusal id b c d = Some r → no_verdict r.
Proof. unfold coordinator_refusal. intros E. repeat case_match; simplify_eq; auto. Qed.

Lemma advance_shape now id r c d :
  wp (_advance_in_transaction policy_version guidelines_version guidelines_digest now id r c) (λ o _, no_verdict o) d.
Proof.
  unfold _advance_in_transaction, advance_basis, send_request. shape_steps;
    try discriminate; eauto using coordinator_shape.
Qed.

Lemma _advance_shape id r d :
  wp (_advance policy_version guidelines_version guidelines_digest others clock id r) (λ o _, no_verdict o) d.
Proof.
  unfold _advance. apply wp_catch; [|intros e d' _; by apply wp_ret, no_verdict_failed].
  wp_step. apply wp_any. intros _ d'. apply wp_transaction, advance_shape.
Qed.

(** A read, on what the others left. *)
Lemma wp_reads {A} n (f : StoreDB → res A) (Q : A → StoreDB → Prop) d :
  (∀ a, f (others n d) = Ok a → Q a (others n d)) → wp (reads others n f) Q d.
Proof. intros HQ. unfold wp, reads, meanwhile, reading, mbind, M_bind. destruct (f (others n d)); auto. Qed.

Ltac answer_steps :=
  repeat first
    [ progress (repeat case_match; simplify_eq; auto using no_verdict_pending)
    | lazymatch goal with |- wp (reads _ _ _) _ _ => apply wp_reads; intros ? ? end
    | wp_step ].

Lemma prior_shape q b d : wp (prior_context policy_version others q b) (λ p _, ∀ a, p = inl a → no_verdict a) d.
Proof. unfold prior_context. answer_steps; intros; simplify_eq; auto. Qed.

Lemma request_locked_shape now b r d :
  wp (request_locked nfkc_casefold policy_version guidelines_version guidelines_digest now b r) (λ o _, no_verdict o) d.
Proof.
  unfold request_locked.
  repeat first [wp_step | progress (repeat case_match; auto) | apply advance_shape | apply wp_any; intros ? ?].
Qed.

Lemma request_shape q r d :
  wp (request nfkc_casefold policy_version guidelines_version guidelines_digest others clock q r) (λ o _, no_verdict o) d.
Proof.
  unfold request. answer_steps. eapply wp_mono; [apply prior_shape|]. intros [x|f] d1 Ha; [by apply wp_ret, Ha|].
  wp_step. apply wp_any. intros _ d2. apply wp_catch; [|intros e d3 _; by apply wp_ret, no_verdict_failed].
  apply wp_transaction. match goal with |- context [request_locked _ _ _ _ ?now ?b ?r] => pose proof (request_locked_shape now b r d2) as Hw end.
  unfold wp, rolled_back in *. by destruct (request_locked _ _ _ _ _ _ _ d2) as [d4 [o|e]].
Qed.
End shape.

(** ** What an accepted submission leaves *)

(** The reply of a submission, if any, is to a delivery that its sender holds. *)
Definition holds_reply (sender : uuid) (q : Messages.MessageSubmitRequest) (rb : option (Z * string)) (d : Messages.MsgDB)
  : Prop :=
  ∀ r, Messages.q_in_reply_to q = Some r →
    ∃ x, x ∈ Messages.deliveries d ∧ Messages.d_id x = r ∧ Messages.d_recipient x = sender ∧
      ∀ v g, rb = Some (v, g) → Messages.d_state x = Messages.RECEIVED ∧ Messages.received_under v g x = true.

Definition stored_as (sender : uuid) (r : Messages.MessageRoute) (q : Messages.MessageSubmitRequest) (d : Messages.MsgDB)
  : Prop :=
  ∃ m, m ∈ Messages.messages d ∧ Messages.message_key m = (sender, Messages.q_message_id q) ∧
       Messages.m_digest m = Messages._digest r q.

Lemma persist_leaves now s r q d :
  wp (Messages._persist_delivery now s r q (Messages._digest r q))
     (λ o d', is_some o.1 = true → stored_as s r q d') d.
Proof.
  unfold Messages._persist_delivery. wp_step. apply wp_any. intros _ d1. wp_step.
  wp_step. wp_step. rename a into cur, H into Hone. apply Messages.one_Ok in Hone.
  destruct (List.filter _ (Messages.messages d1)) as [|m [|? ?]] eqn:Hf; try done. injection Hone as Hcur.
  destruct (eqb cur _) eqn:E; cbn [negb]; [rewrite eqb_true in E | by apply wp_ret].
  apply filter_one in Hf as [Hm Hk%Messages.is_message_true].
  wp_step. unfold wp at 1. destruct (Messages.insert_delivery _ d1) as [d2 [b|e]] eqn:Hi; [|done].
  assert (Hms : Messages.messages d2 = Messages.messages d1) by (by apply Messages.insert_delivery_Ok in Hi as [[-> _]|[-> _]]).
  wp_step. wp_step. wp_step. apply wp_ret. intros _. exists m. rewrite Hms. split_and!; [done..|congruence].
Qed.

Lemma submit_leaves now s r q rb wake d :
  wp (Messages.submit_review_internal now s r q rb wake)
     (λ o d', Messages.s_status o = Messages.ok →
        Messages.binding_current (Some s) d = true ∧ holds_reply (Mailboxes.endpoint_id s) q rb d ∧
        stored_as (Mailboxes.endpoint_id s) r q d') d.
Proof.
  unfold Messages.submit_review_internal. wp_step. destruct (Messages.binding_current _ d) eqn:Hb; cbn [negb]; [|by apply wp_ret].
  wp_step. apply (wp_mono _ (λ f d1, d1 = d ∧ (f = None → holds_reply (Mailboxes.endpoint_id s) q rb d) ∧
                                       ∀ o, f = Some o → Messages.s_status o ≠ Messages.ok)).
  - destruct (Messages.q_in_reply_to q) as [id|] eqn:Hr; [|by apply wp_ret; unfold holds_reply; rewrite Hr].
    wp_step. apply wp_read. intros x Hx.
    destruct (match x with None => true | Some x => _ end) eqn:Ex; [by apply wp_ret; split_and!; [..|intros ? [= <-]]|].
    wp_step. apply wp_read. intros p _.
    apply wp_ret. split; [done|]. split; [|by intros o; repeat case_match; intros [= <-]]. intros _ id' [= <-]%(eq_trans (eq_sym Hr)).
    destruct x as [x|]; [|done]. apply one_or_none_Some, filter_one in Hx as [Hin Hid%Messages.is_delivery_true].
    apply orb_false_iff in Ex as [E1 E2]. rewrite negb_false_iff, eqb_true in E1. exists x. split_and!; [done..|].
    intros v g ->. rewrite negb_false_iff, andb_true_iff, eqb_true in E2. done.
  - intros [o|] d1 (-> & Hf & Ho); [by apply wp_ret; intros Hs; destruct (Ho o eq_refl)|].
    wp_step. eapply wp_mono; [apply persist_leaves|]. intros [[row|] fresh] d2 Hst; [|by apply wp_ret].
    specialize (Hf eq_refl). specialize (Hst eq_refl). wp_step.
    apply (wp_mono _ (λ _ d3, Messages.messages d3 = Messages.messages d2)); [by destruct (fresh && wake)|].
    intros _ d3 E. apply wp_ret. intros _. unfold stored_as. by rewrite E.
Qed.

(** ** Verdicts that are shown *)

(** In [d], the message tables hold a request of the review, and the verdict
    of the answer in the one reply to it of the request's recipient; and the
    subject is at the revision that was reviewed. *)
Inductive shown `{Lax} (review : uuid) (d : StoreDB) (o : ReviewResult)
    (request : ReviewRecord * ReviewEnvelope) (reply : ReviewRecord * ReviewOutcomeEnvelope) : Prop :=
  | shown_intro row :
      request.1 ∈ records review d → request_envelope request.1 = Some request.2 →
      b_review_id (source_basis request) = review → answered_by review request reply d →
      br_basis (oe_brief reply.2) = source_basis request →
      works (s_tracker d) !! b_subject (source_basis request) = Some row →
      canonical_revision (work_id (item_of row)) (row_version (item_of row)) = Ok (b_revision (source_basis request)) →
      o = terminal_result review (r_delivery_id request.1) (item_of row) (oe_outcome reply.2) →
      shown review d o request reply.

(** A call that keeps the tables. *)
Section evolves.
Context `{Lax} (registered : uuid → Prop).

Lemma evolved {A} (m : M StoreDB A) d d' x :
  keeps (Evolves registered d) m (λ _, True) → Sound registered (mail d) → m d = (d', x) → Evolves registered d d'.
Proof. intros Hm Hd E. destruct (Hm d (Evolves_refl _ _ Hd)) as [H1 _]. by rewrite E in H1. Qed.

Lemma wp_evolves {A} (m : M StoreDB A) (Q : A → StoreDB → Prop) d :
  keeps (Evolves registered d) m (λ _, True) → Sound registered (mail d) → wp m Q d →
  wp m (λ a d', Q a d' ∧ Evolves registered d d') d.
Proof.
  intros Hm Hd. destruct (Hm d (Evolves_refl _ _ Hd)) as [Hm' _]. unfold wp. by destruct (m d) as [d' [a|e]].
Qed.
End evolves.

Section system.
Context `{LaxLaws} (registered : uuid → Prop) (registered_uuid : ∀ u, registered u → is_uuid u = true).
Context (nfkc_casefold : string → string) (policy_version guidelines_version guidelines_digest : string).

(** What other calls may do: to the messages, anything that keeps the tables
    sound, the independence of the stored review requests included; the calls
    below ([changes]) do. *)
Definition other_call (d d' : StoreDB) : Prop := Evolves registered d d'.
Definition others_ok (others : nat → StoreDB → StoreDB) : Prop :=
  ∀ n d, Sound registered (mail d) → other_call d (others n d).

(** The calls of the review service that change the store. *)
Inductive Service :=
  | sv_request (q : ReviewRequest) (r : Mailboxes.AgentMailbox)
  | sv_get (id : uuid) (r : Mailboxes.AgentMailbox)
  | sv_recover (id : uuid) (r : Mailboxes.AgentMailbox)
  | sv_continue (id : uuid) (r : Mailboxes.AgentMailbox)
  | sv_submit (u : ReviewSubmit) (r : Mailboxes.AgentMailbox).

Definition run_service (s : Service) (others : nat → StoreDB → StoreDB) (clock : nat → Z) (d : StoreDB) : StoreDB :=
  match s with
  | sv_request q r => (request nfkc_casefold policy_version guidelines_version guidelines_digest others clock q r d).1
  | sv_get id r => (get policy_version guidelines_version guidelines_digest others clock id r d).1
  | sv_recover id r => (recover policy_version guidelines_version guidelines_digest others id r d).1
  | sv_continue id r =>
      (continue_acquisition policy_version guidelines_version guidelines_digest others clock id r d).1
  | sv_submit u r => (submit policy_version others clock u r d).1
  end.

(** What any callers, one after the other and in the middle of each other's
    calls, make of a store: calls of the message store by way of its own entry
    points ([ordinary]: no review request before the store has the receipt of
    the cutoff, which makes it refuse them), calls of the review service, and
    anything that leaves the tables of the messages alone. *)
Inductive changes : StoreDB → StoreDB → Prop :=
  | ch_none d : changes d d
  | ch_then d1 d2 d3 : changes d1 d2 → changes d2 d3 → changes d1 d3
  | ch_message c d : ordinary registered c (mail d) → changes d (with_mail (Messages.run c (mail d)) d)
  | ch_elsewhere d d' : mail d' = mail d → changes d d'
  | ch_service s others clock d : (∀ n d, changes d (others n d)) → changes d (run_service s others clock d).

(** A store without messages, whose mailboxes are registered. *)
Definition no_messages (d : StoreDB) : Prop :=
  Messages.messages (mail d) = [] ∧ Messages.deliveries (mail d) = [] ∧
  ∀ m, m ∈ Mailboxes.mailboxes (Messages.agents (mail d)) → registered (Mailboxes.endpoint_id m).

Lemma no_messages_sound d : no_messages d → Sound registered (mail d).
Proof.
  intros (Hm & Hx & Ha). split; rewrite ?Hm, ?Hx; try apply NoDup_nil_2; [|exact Ha|];
    [intros m m' r Hin|intros m Hin]; by apply not_elem_of_nil in Hin.
Qed.

Set Default Proof Using "Type*".

(** What the callers do keeps every stored review request independent. *)
Lemma changes_evolve d d' : changes d d' → Sound registered (mail d) → Evolves registered d d'.
Proof.
  induction 1 as [d|d1 d2 d3 _ IH1 _ IH2|c d Hc|d d' E|s others clock d _ IH]; intros Hd.
  - by apply Evolves_refl.
  - pose proof (IH1 Hd) as E1. eapply Evolves_trans; [exact E1|]. by apply IH2, E1.
  - by apply (ordinary_evolves registered c (mail d)).
  - unfold Evolves. by rewrite E.
  - destruct s as [q r|i r|i r|i r|u r]; cbn [run_service];
      (eapply evolved; [|exact Hd|by apply surjective_pairing]);
      [by apply keeps_request | by apply keeps_review_get | by apply keeps_recover | by apply keeps_continue | by apply keeps_submit].
Qed.

Lemma changes_ok others : (∀ n d, changes d (others n d)) → others_ok others.
Proof. intros Hc n d Hd. by apply changes_evolve. Qed.

Abbreviation review_get := (get policy_version guidelines_version guidelines_digest).

Lemma get_sent_shown others id x d d' o :
  others_ok others → Sound registered (mail d) → get_sent policy_version others id x d = (d', Ok o) →
  is_terminal (rr_status o) = true → ∃ request reply, shown id d' o request reply.
Proof.
  intros Hok Hd. unfold get_sent, reads.
  apply (wp_elim _ (λ o d', is_terminal (rr_status o) = true → ∃ request reply, shown id d' o request reply)).
  wp_step. apply wp_reads. intros sources [= <-]. set (d1 := others 1%nat d).
  pose proof (Hok 1%nat d Hd) as E1. fold d1 in E1.
  destruct (List.filter _ _) as [|request [|? ?]] eqn:Hf; [by apply wp_ret| |by apply wp_ret].
  apply filter_one in Hf as [Hreq _]. apply sources_elem in Hreq as (R1 & R2 & R3).
  wp_step. apply wp_reads. intros found Hfound. set (d2 := others 2%nat d1) in *.
  pose proof (Hok 2%nat d1 (proj1 E1)) as E2. fold d2 in E2.
  destruct (1 <? _)%nat; [by apply wp_ret|]. wp_step. apply wp_reads. intros row [= <-]. set (d3 := others 3%nat d2).
  pose proof (Hok 3%nat d2 (proj1 E2)) as E3. fold d3 in E3.
  destruct (works _ !! _) as [row|] eqn:Hw; cbn [fmap option_fmap option_map]; [|by apply wp_ret].
  wp_step. wp_step. apply wp_ret. rename a into actual. rename H1 into Hrev.
  destruct (eqb actual _) eqn:Hcur; cbn [negb]; [|done]. rewrite eqb_true in Hcur. subst actual.
  destruct (outcomes_of_basis _ _) as [|reply l] eqn:Ho; [by intros Ht; destruct (no_verdict_pending id (r_delivery request.1)); congruence|].
  intros _. assert (Hin : reply ∈ outcomes_of_basis (source_basis request) found) by (rewrite Ho; apply elem_of_cons; by left).
  unfold outcomes_of_basis in Hin. apply list_elem_of_In, filter_In in Hin as [Hin%list_elem_of_In Hb]. rewrite eqb_true in Hb.
  pose proof (outcome_source_elem _ _ _ _ _ _ Hfound Hin) as Ha.
  destruct (records_kept id d1 d3 request.1) as (r' & Hr' & Es); [by etrans; [apply E2 | apply E3] | done |].
  destruct request as [rec env]. cbn [fst snd] in *.
  destruct (answered_kept id rec r' env reply d2 d3) as (a' & Ea & Ha'); [apply E3 | done | done |].
  exists (r', env), (a', reply.2). apply (shown_intro _ _ _ _ _ row); cbn [fst snd]; try done.
  - by rewrite (request_envelope_static r' rec).
  - unfold r_static in Es. injection Es as -> _. done.
Qed.

Lemma get_shown others clock id requester d d' o :
  others_ok others → Sound registered (mail d) → review_get others clock id requester d = (d', Ok o) →
  is_terminal (rr_status o) = true → ∃ request reply, shown id d' o request reply.
Proof.
  intros Hok Hd Hg Ht. unfold get in Hg. apply M_bind_Ok in Hg as (d1 & a & Ha & Hg).
  pose proof (wp_elim _ _ _ _ _ (_advance_shape _ _ _ _ _ _ _ _) Ha) as [Hs _].
  assert (Hd1 : Sound registered (mail d1)).
  { eapply evolved; [|exact Hd|exact Ha]. by apply keeps__advance. }
  destruct (negb _) eqn:E; [apply mret_Ok in Hg as [-> ->]; congruence|]. unfold catch in Hg.
  destruct (get_sent _ _ _ _ d1) as [d2 [o2|e]] eqn:Es.
  - injection Hg as -> ->. by eapply get_sent_shown.
  - destruct (existsb _ _); [|done]. apply mret_Ok in Hg as [-> ->]. done.
Qed.

(** The request of a shown verdict was made for a registered mailbox whose
    identifier gives its message's identifier, and which is not the
    requester's. *)
Lemma request_made review d request :
  Sound registered (mail d) → request.1 ∈ records review d → request_envelope request.1 = Some request.2 →
  en_requester request.2 = b_requester (source_basis request) ∧
  ∃ u, registered u ∧ u ≠ b_requester (source_basis request) ∧
       _request_message_id (source_basis request) u =
       _request_message_id (source_basis request) (r_recipient request.1).
Proof.
  destruct request as [r env]. cbn [fst snd]. intros Hd (x & m & Hj & _ & ->)%records_elem He.
  apply Messages.joined_elem in Hj as (_ & Hm & Hk). unfold request_envelope in He. apply bind_Some in He as (e & He & Hs). cbn zeta in Hs.
  destruct (_ && _) eqn:E; [|done]. injection Hs as <-.
  unfold is_typed in E. rewrite !andb_true_iff, !eqb_true in E.
  destruct E as [[[[_ E1] [[E2 E3] _]] E4] _]. split; [done|]. cbn in He, E2, E3, E4.
  destruct (so_requests _ _ Hd m Hm E2 E3 _ He) as (u & Hu & Hne & Hid). exists u.
  unfold source_basis. cbn. split_and!; [done|congruence|]. injection Hk. congruence.
Qed.

(** C30: a verdict that a requester reads is authentic.  On a store that any
    calls made from one without messages, and whatever calls are made
    meanwhile, a terminal answer shows the one stored reply, of the mailbox
    that the request was made for, to a stored request of the review whose
    subject is at the reviewed revision; and unless two registered mailboxes
    give one message identifier, that mailbox is not the requester's. *)
Theorem review_verdict_authentic others clock id requester d0 d d' o :
  no_messages d0 → changes d0 d → (∀ n d, changes d (others n d)) →
  review_get others clock id requester d = (d', Ok o) → is_terminal (rr_status o) = true →
  ∃ request reply, shown id d' o request reply ∧ (∀ x, answered_by id request x d' → x = reply) ∧
    r_sender reply.1 = r_recipient request.1 ∧
    ((∀ u, registered u →
        _request_message_id (source_basis request) u = _request_message_id (source_basis request) (r_recipient request.1) →
        u = r_recipient request.1) →
     r_sender reply.1 ≠ b_requester (source_basis request)).
Proof.
  intros Hnone Hc Hothers Hg Ht. pose proof (changes_ok others Hothers) as Hok.
  assert (Hd : Sound registered (mail d)) by (by apply (changes_evolve d0), no_messages_sound).
  destruct (get_shown _ _ _ _ _ _ _ Hok Hd Hg Ht) as (request & reply & Hs).
  assert (Hd' : Sound registered (mail d')) by (eapply evolved; [|exact Hd|exact Hg]; by apply keeps_review_get).
  exists request, reply. split; [done|]. destruct Hs as [row Hreq He _ Ha _ _ _ _].
  split; [intros x Hx; by apply (answered_unique registered id request x reply d')|].
  destruct Ha as (_ & _ & _ & Ha). apply answers_true in Ha as (_ & _ & _ & _ & _ & _ & Es & _).
  split; [done|]. intros Hinj. destruct (request_made _ _ _ Hd' Hreq He) as (_ & u & Hu & Hne & Hid).
  rewrite Es, <- (Hinj u Hu Hid). done.
Qed.

(** What of an answer is the reviewer's. *)
Definition verdict_part (o : ReviewResult) :=
  (rr_verdict o, rr_findings o, rr_evidence_refs o, rr_assessment o, rr_digest o).

(** C31: the verdict of a request is final. *)
Theorem review_verdict_final others others' clock clock' id requester requester' d1 d1' o1 d2 d2' o2 :
  others_ok others → others_ok others' → Sound registered (mail d1) →
  review_get others clock id requester d1 = (d1', Ok o1) → Evolves registered d1' d2 →
  review_get others' clock' id requester' d2 = (d2', Ok o2) →
  is_terminal (rr_status o1) = true → is_terminal (rr_status o2) = true → rr_delivery o1 = rr_delivery o2 →
  verdict_part o1 = verdict_part o2.
Proof.
  intros Hok Hok' Hd G1 He G2 T1 T2 Hx.
  destruct (get_shown _ _ _ _ _ _ _ Hok Hd G1 T1) as (q1 & r1 & S1).
  destruct (get_shown _ _ _ _ _ _ _ Hok' (proj1 He) G2 T2) as (q2 & r2 & S2).
  assert (E2 : Evolves registered d2 d2') by (eapply evolved; [|exact (proj1 He)|exact G2]; by apply keeps_review_get).
  assert (Hk : kept (mail d1') (mail d2')) by (etrans; [apply He | apply E2]).
  destruct S1 as [row1 Q1 I1 _ A1 _ _ _ ->], S2 as [row2 Q2 I2 _ A2 _ _ _ ->]. cbn in Hx. injection Hx as Hx.
  destruct (records_kept id d1' d2' q1.1 Hk Q1) as (q' & Hq' & Es).
  assert (q' = q2.1) as ->.
  { apply (record_unique registered id id d2'); [apply E2|done..|]. rewrite <- Hx. unfold r_static in Es. congruence. }
  destruct q1 as [q1 e1], q2 as [q2 e2]. cbn [fst snd] in *.
  destruct (answered_kept id q1 q2 e1 r1 d1' d2' Hk (eq_sym Es) A1) as (r' & _ & A1').
  assert (e1 = e2) as -> by (rewrite (request_envelope_static _ _ Es), I1 in I2; congruence).
  pose proof (answered_unique registered id (q2, e2) _ _ d2' (proj1 E2) A1' A2) as Er.
  destruct r2 as [r2 o2]. injection Er as _ ->. done.
Qed.

(** *** Submitting a verdict *)

Lemma wp_submit_review now s recipient v q rb wake d :
  wp (submit_review now s recipient v q rb wake)
     (λ o d', Messages.s_status o = Messages.ok →
        Messages.binding_current (Some s) (mail d) = true ∧ holds_reply (Mailboxes.endpoint_id s) q rb (mail d) ∧
        stored_as (Mailboxes.endpoint_id s) (Messages.mkRoute recipient v) q (mail d')) d.
Proof.
  unfold submit_review. wp_step. wp_step.
  assert (a = q) as -> by (revert H1; unfold Messages.submit_validate; repeat case_match; by intros [= ->]).
  unfold on_mail, GrantState.via, wp. pose proof (submit_leaves now s (Messages.mkRoute recipient v) q rb wake (mail d)) as Hw.
  unfold wp in Hw. by destruct (Messages.submit_review_internal _ _ _ _ _ _ (mail d)) as [m' [o|e]].
Qed.

(** The subject is at the revision that the request is about. *)
Definition at_basis (held : ReviewRecord * ReviewEnvelope) (d : StoreDB) : Prop :=
  ∃ row, works (s_tracker d) !! b_subject (source_basis held) = Some row ∧
    canonical_revision (work_id (item_of row)) (row_version (item_of row)) = Ok (b_revision (source_basis held)).

Lemma find_held_current others reviewer sources : ∀ n current old d,
  others_ok others → Sound registered (mail d) →
  wp (find_held others n reviewer current old sources)
     (λ r d', Evolves registered d d' ∧ ∀ held, r = inl held →
        at_basis held d' ∧ ∃ bound, (held, bound) ∈ sources ∧ r_recipient held.1 = Mailboxes.endpoint_id reviewer) d.
Proof.
  induction sources as [|s l IH]; intros n current old d Hok Hd; cbn [find_held]; [by apply wp_ret; split; [apply Evolves_refl|]|].
  assert (Hnext : ∀ current old d1, Evolves registered d d1 →
    wp (find_held others (S n) reviewer current old l)
       (λ r d', Evolves registered d d' ∧ ∀ held, r = inl held →
          at_basis held d' ∧ ∃ bound, (held, bound) ∈ s :: l ∧ r_recipient held.1 = Mailboxes.endpoint_id reviewer) d1).
  { intros c o d1 E1. eapply wp_mono; [by apply IH, E1|]. cbn. intros r d2 [E2 Hr].
    split; [by eapply Evolves_trans|]. intros held Hh. destruct (Hr held Hh) as (H1 & b & H2 & H3).
    split; [done|]. exists b. by rewrite elem_of_cons; auto. }
  wp_step. apply wp_reads. intros o [= <-]. pose proof (Hok n d Hd) as E1.
  destruct (works _ !! _) as [row|] eqn:Hw; cbn [fmap option_fmap option_map]; [|by apply Hnext].
  destruct (authoritative reviewer s) eqn:Ha; cbn [negb]; [|by apply Hnext].
  wp_step. wp_step. rename a into actual, H1 into Hrev.
  destruct (eqb actual _) eqn:Hc; [rewrite eqb_true in Hc | by apply Hnext].
  destruct (received_by reviewer s.1.1); [|by apply Hnext]. apply wp_ret. split; [done|]. intros held [= <-]. subst actual.
  split; [by exists row|]. exists s.2. split; [destruct s; apply elem_of_cons; by left|].
  unfold authoritative in Ha. rewrite andb_true_iff, eqb_true in Ha. apply Ha.
Qed.

(** What a submitted verdict was checked against, and what it left: [d0] is
    the state of the requests that were read, [d1] of the subject, [d2] of the
    message's transaction. *)
Record Taken (u : ReviewSubmit) (reviewer : Mailboxes.AgentMailbox) (held : ReviewRecord * ReviewEnvelope)
    (d0 d1 d2 d' : StoreDB) : Prop := {
  tk_request : ∃ bound, (held, bound) ∈ request_sources policy_version (u_review_id u) d0;
  tk_reviewer : r_recipient held.1 = Mailboxes.endpoint_id reviewer;
  tk_current : at_basis held d1;
  tk_independent : en_requester held.2 ≠ Mailboxes.endpoint_id reviewer;
  tk_focused : b_mode (source_basis held) = FOCUSED →
    ∀ f, f ∈ u_findings u → fn_id f ∈ b_finding_ids (source_basis held);
  tk_assessment : _assessment_matches (b_check (source_basis held)) u = true;
  tk_binding : Messages.binding_current (Some reviewer) (mail d2) = true;
  tk_held : ∃ x, x ∈ Messages.deliveries (mail d2) ∧ Messages.d_id x = r_delivery_id held.1 ∧
    Messages.d_recipient x = Mailboxes.endpoint_id reviewer ∧ Messages.d_state x = Messages.RECEIVED ∧
    Messages.received_under (Mailboxes.generation reviewer) (pretty (Mailboxes.generation reviewer)) x = true;
  tk_stored : ∃ m route, m ∈ Messages.messages (mail d') ∧
    Messages.message_key m =
      (Mailboxes.endpoint_id reviewer, _stable "verdict" [u_review_id u; r_delivery_id held.1]) ∧
    Messages.m_digest m = Messages._digest route
      (Messages.mkSubmit (_stable "verdict" [u_review_id u; r_delivery_id held.1]) (Mailboxes.generation reviewer)
         "review.request" Messages.result
         (outcome_envelope_json (mkOutcomeEnvelope (en_brief held.2) (outcome_for u (r_delivery_id held.1))))
         (Some (r_delivery_id held.1))) }.

Lemma wp_meanwhile others n (Q : unit → StoreDB → Prop) d : Q tt (others n d) → wp (meanwhile others n) Q d.
Proof. done. Qed.

(** A verdict on another revision is stored, but not submitted. *)
Lemma submit_held_stale others clock u reviewer held d :
  wp (submit_held others clock u reviewer held true) (λ o _, rr_status o ≠ SUBMITTED) d.
Proof. unfold submit_held. shape_steps; done. Qed.

(** From the request that the reviewer holds on. *)
Lemma submit_held_taken others clock u reviewer held d :
  others_ok others → Sound registered (mail d) →
  wp (submit_held others clock u reviewer held false)
     (λ o d', rr_status o = SUBMITTED →
        ∃ d2, Evolves registered d d2 ∧ kept (mail d2) (mail d') ∧
          ∀ d0 d1, (∃ bound, (held, bound) ∈ request_sources policy_version (u_review_id u) d0) →
            r_recipient held.1 = Mailboxes.endpoint_id reviewer → at_basis held d1 → Taken u reviewer held d0 d1 d2 d') d.
Proof.
  intros Hok Hd. unfold submit_held. set (x := r_delivery held.1). set (b := source_basis held).
  destruct (eqb (b_mode b) FOCUSED && _) eqn:Hf; [by apply wp_ret|].
  destruct (_assessment_matches _ u) eqn:Has; cbn [negb]; [|by apply wp_ret].
  wp_step. apply wp_reads. intros q [= <-]. pose proof (Hok 2%nat d Hd) as E1. set (d1 := others 2%nat d) in *.
  destruct (mailbox_by_endpoint _ d1) as [requester|] eqn:Hq; [|by apply wp_ret].
  apply mailbox_by_endpoint_Some in Hq as [_ Hq].
  destruct (eligible requester reviewer) eqn:Hel; cbn [negb]; [|by apply wp_ret].
  unfold eligible in Hel. rewrite negb_true_iff, eqb_false in Hel.
  wp_step. apply wp_reads. intros im [= <-]. pose proof (Hok 3%nat d1 (proj1 E1)) as E2. set (d2 := others 3%nat d1) in *.
  destruct (mailbox_by_endpoint _ d2) as [im|]; [|by apply wp_ret].
  wp_step. apply wp_meanwhile. pose proof (Hok 4%nat d2 (proj1 E2)) as E3. set (d3 := others 4%nat d2) in *.
  wp_step. apply wp_transaction. eapply wp_mono.
  { apply wp_evolves; [|apply E3|apply wp_submit_review]. apply keeps_submit_review, no_request. by right. }
  intros o d4 [Ho E4]. destruct (Messages.s_message o) as [message|]; [|by apply wp_ret].
  destruct (eqb (Messages.s_status o) Messages.ok) eqn:Hs; cbn [negb]; [rewrite eqb_true in Hs | by apply wp_ret].
  destruct (Ho Hs) as (Hb & Hh & m & Hm & Hk & Hdg).
  destruct (Hh (Messages.p_delivery_id x) eq_refl) as (y & Hy & Hid & Hr & Hst).
  destruct (Hst _ _ eq_refl) as [Hst1 Hst2].
  assert (Hall : ∀ d', kept (mail d4) (mail d') →
    ∃ d2, Evolves registered d d2 ∧ kept (mail d2) (mail d') ∧
      ∀ d0 d1, (∃ bound, (held, bound) ∈ request_sources policy_version (u_review_id u) d0) →
        r_recipient held.1 = Mailboxes.endpoint_id reviewer → at_basis held d1 → Taken u reviewer held d0 d1 d2 d').
  { intros d' K. exists d3. split; [do 2 (eapply Evolves_trans; [|eassumption]); exact E1|].
    split; [etrans; [apply E4 | exact K]|]. intros d0 d5 H1 H2 H3. split; try done.
    - by rewrite <- Hq.
    - intros Hm' f Hfin. apply andb_false_iff in Hf as [Hf|Hf]; [by rewrite eqb_false in Hf|].
      rewrite negb_false_iff, forallb_forall in Hf. apply mem_true, Hf. by apply list_elem_of_In.
    - by exists y.
    - exists m. eexists. split_and!; [eapply elem_of_prefix; [exact Hm | apply K] | exact Hk | exact Hdg]. }
  destruct (eqb (Mailboxes.endpoint_id im) _); cbn [negb]; [apply wp_ret; intros _; by apply Hall|].
  wp_step. apply wp_meanwhile. pose proof (Hok 5%nat d4 (proj1 E4)) as E5. set (d5 := others 5%nat d4) in *.
  wp_step. apply wp_transaction. eapply wp_mono.
  { apply (wp_evolves registered _ (λ _ _, True)); [|apply E5|by apply wp_any]. apply keeps_submit_review, no_request. by left. }
  intros o' d6 [_ E6]. destruct (Messages.s_message o'); [|by apply wp_ret]. destruct (eqb _ Messages.ok); cbn [negb]; [|by apply wp_ret].
  apply wp_ret. intros _. apply Hall. etrans; [apply E5 | apply E6].
Qed.

(** A submitted verdict is its current reviewer's. *)
Theorem review_submitted others clock u reviewer d d' o :
  others_ok others → Sound registered (mail d) →
  submit policy_version others clock u reviewer d = (d', Ok o) → rr_status o = SUBMITTED →
  ∃ held d0 d1 d2, Evolves registered d d0 ∧ Evolves registered d0 d1 ∧ Evolves registered d1 d2 ∧
    kept (mail d2) (mail d') ∧ Taken u reviewer held d0 d1 d2 d'.
Proof.
  intros Hok Hd. apply (wp_elim _ (λ o d', rr_status o = SUBMITTED →
    ∃ held d0 d1 d2, Evolves registered d d0 ∧ Evolves registered d0 d1 ∧ Evolves registered d1 d2 ∧
      kept (mail d2) (mail d') ∧ Taken u reviewer held d0 d1 d2 d')). unfold submit.
  wp_step. apply wp_reads. intros c [= <-]. pose proof (Hok 0%nat d Hd) as E0. destruct (negb _); [by apply wp_ret|].
  wp_step. apply wp_reads. intros sources [= <-]. pose proof (Hok 1%nat _ (proj1 E0)) as E1.
  set (d0 := others 1%nat (others 0%nat d)) in *. wp_step.
  eapply wp_mono; [by apply find_held_current, E1|]. cbn. intros r d1 [E2 Hr].
  destruct r as [held|[[] [held|]]]; try by apply wp_ret.
  - destruct (Hr held eq_refl) as (Hb & bound & Hin & Hrec). eapply wp_mono; [by apply submit_held_taken, E2|].
    cbn. intros o1 d3 Ht Hs. destruct (Ht Hs) as (d2 & E3 & K & Hall). exists held, d0, d1, d2.
    split; [by eapply Evolves_trans|]. split; [exact E2|]. split; [exact E3|]. split; [exact K|]. apply Hall; try done. by exists bound.
  - destruct (negb _); [by apply wp_ret|]. by eapply wp_mono; [apply submit_held_stale | intros o1 d2 Hs E; destruct (Hs E)].
Qed.
End system.

(** ** The proof of the baseline *)

Section baseline.
Context `{Lax} (policy_version : string).

(** A review of the revision compared it with the baseline, and its one reply
    preserves it. *)
Inductive Preserves (subject : uuid) (revision : string) (baseline review : uuid) (digest : string) (d : StoreDB) : Prop :=
  | preserves_intro row request reply check a :
      works (s_tracker d) !! subject = Some row →
      canonical_revision subject (row_version (item_of row)) = Ok revision →
      request ∈ stored_request_sources review d →
      pre_implementation subject revision (source_basis request) = true →
      (∀ r, r ∈ stored_request_sources review d → pre_implementation subject revision (source_basis r) = true → r = request) →
      b_check (source_basis request) = Some check → ck_phase check = PRE_IMPLEMENTATION → ck_baseline_id check = baseline →
      answered_by review request reply d → raw_outcomes review request.1 d = [reply.1] →
      oc_verdict (oe_outcome reply.2) = PASS → oc_digest (oe_outcome reply.2) = digest →
      oc_assessment (oe_outcome reply.2) = Some a → as_baseline_id a = baseline → as_phase a = PRE_IMPLEMENTATION →
      as_disposition a = BASELINE_PRESERVED →
      Preserves subject revision baseline review digest d.

Lemma or_unknown_Ok {A} (a b : A) x : or_unknown a x = Ok b → b = a ∨ x = Ok b.
Proof. unfold or_unknown. destruct x; [auto|]. destruct (existsb _ _); [intros [= ->]; by left | done]. Qed.

(** A list whose filter is one element. *)
Lemma filter_singleton {A} (p : A → bool) l a x : List.filter p l = [a] → x ∈ l → p x = true → x = a.
Proof.
  intros Hf Hx Hp. assert (Hin : x ∈ List.filter p l) by (apply list_elem_of_In, filter_In; by rewrite <- list_elem_of_In).
  rewrite Hf in Hin. by apply list_elem_of_singleton in Hin.
Qed.

Lemma raw_of_answer review request o d :
  answered_by review request o d → o.1 ∈ raw_outcomes review request.1 d.
Proof.
  intros (Hin & _ & _ & (_ & _ & _ & H1 & H2 & H3 & _)%answers_true). apply list_elem_of_In, filter_In.
  split; [by apply list_elem_of_In|]. by rewrite !andb_true_iff, !eqb_true.
Qed.

Lemma baseline_proof_pass review subject revision baseline id digest d row :
  works (s_tracker d) !! subject = Some row → canonical_revision subject (row_version (item_of row)) = Ok revision →
  baseline_proof policy_version review subject revision d = Ok (proof_pass baseline id digest) →
  id = review ∧ Preserves subject revision baseline review digest d.
Proof.
  intros Hw Hv. unfold baseline_proof.
  destruct (List.filter _ (basis_sources review d)) as [|basis [|? ?]]; [done| |done].
  destruct (List.filter _ (stored_request_sources review d)) as [|request [|? ?]] eqn:Hr; [done| |done].
  destruct (eqb (source_basis request) (source_basis basis)) eqn:Eb; cbn [negb]; [rewrite eqb_true in Eb | done].
  destruct (outcome_sources policy_version review (Some request) d) as [found|] eqn:Ho; cbn [mbind res_bind]; [|done].
  set (outcomes := List.filter _ found). destruct (_ || _) eqn:El; [done|].
  apply orb_false_iff in El as [El1 El2]. rewrite negb_false_iff, Nat.eqb_eq in El2. rewrite Nat.ltb_ge in El1.
  destruct outcomes as [|o [|? ?]] eqn:Eo; [done| |cbn in El1; lia].
  destruct (b_check (source_basis basis)) as [check|] eqn:Ec; [|done].
  destruct (oc_assessment (oe_outcome o.2)) as [a|] eqn:Ea; [|done].
  destruct (_ || _) eqn:Em; [done|]. apply orb_false_iff in Em as [Em1 Em2].
  rewrite negb_false_iff, eqb_true in Em1. rewrite negb_false_iff, eqb_true in Em2.
  destruct (_ && _) eqn:Ep; [|done]. rewrite andb_true_iff, !eqb_true in Ep. destruct Ep as [Ep1 Ep2].
  intros [= <- <- <-]. split; [done|].
  pose proof (proj1 (filter_one _ _ _ Hr)) as Hin. pose proof (proj2 (filter_one _ _ _ Hr)) as Hpre.
  assert (Hfound : o ∈ found) by (apply (filter_one _ _ _ Eo)).
  pose proof (outcome_source_elem _ _ _ _ _ _ Ho Hfound) as Hans. pose proof (raw_of_answer _ _ _ _ Hans) as Hraw.
  assert (Hph : ck_phase check = PRE_IMPLEMENTATION).
  { unfold pre_implementation in Hpre. rewrite Eb, Ec, andb_true_iff, eqb_true in Hpre. apply Hpre. }
  apply (preserves_intro _ _ _ _ _ _ row request o check a); try done; try congruence.
  - intros r H1 H2. by apply (filter_singleton _ _ _ r Hr).
  - cbn in El2. destruct (raw_outcomes review request.1 d) as [|r [|? ?]]; try done. by apply list_elem_of_singleton in Hraw as ->.
Qed.

(** The baseline is proved only by a PASS that preserves it. *)
Theorem baseline_pass_sound subject revision baseline review digest d :
  baseline_pass_status_in_transaction policy_version subject revision d = Ok (proof_pass baseline review digest) →
  Preserves subject revision baseline review digest d.
Proof.
  unfold baseline_pass_status_in_transaction. intros [?|Hx]%or_unknown_Ok; [done|]. unfold at_revision in Hx.
  destruct (works _ !! subject) as [row|] eqn:Hw; cbn in Hx; [|done].
  destruct (canonical_revision _ _) as [actual|] eqn:Hv; cbn in Hx; [|done].
  destruct (eqb actual revision) eqn:E; cbn [negb] in Hx; [rewrite eqb_true in E; subst actual | done].
  destruct (parse_ids _) as [[|r [|? ?]]|]; try done.
  apply (baseline_proof_pass r subject revision baseline review digest d row Hw Hv) in Hx as [-> Hx]. exact Hx.
Qed.
End baseline.

(** ** Witnesses *)

(** Reading without any leniency. *)
#[local] Instance strict_lax : Lax := {|
  lax_int v := match v with JInt z => Some z | _ => None end;
  lax_bool v := match v with JBool b => Some b | _ => None end;
  lax_uuid s := UUID (codes s) |}.

#[local] Instance strict_laws : LaxLaws.
Proof.
  split; try done; [by intros u; unfold is_uuid; rewrite eqb_true|].
  intros s u Hu. unfold is_uuid. rewrite eqb_true. cbn in Hu. unfold UUID in Hu. cbv zeta in Hu.
  destruct (_ =? 32)%nat; [|done]. apply fmap_Some in Hu as (z & _ & ->).
  destruct (be_bytes_spec 16 z) as [Hl Hb].
  assert (Hc : canonical_uuid (uuid_text (Sha.be_bytes 16 z)) = true) by (by apply uuid_text_canonical; [apply Forall_forall|]).
  by apply bool_decide_eq_true_1 in Hc.
Qed.

Definition ex_subject : uuid := "00000000-0000-4000-8000-000000000001".
Definition ex_author : Mailboxes.AgentMailbox :=
  Mailboxes.mkMailbox "ada" "Ada" "00000000-0000-4000-8000-0000000000a1" "p1" "s1" 1 (Some Mailboxes.codex).
Definition ex_auditor : Mailboxes.AgentMailbox :=
  Mailboxes.mkMailbox "codex-audit-recovery" AUDIT_RECOVERY_MAILBOX "00000000-0000-4000-8000-0000000000b1" "p2" "s2" 3
    (Some Mailboxes.codex).
Definition ex_registered (u : uuid) : Prop := u ∈ [Mailboxes.endpoint_id ex_author; Mailboxes.endpoint_id ex_auditor].

Definition ex_subject_work : CurrentWork :=
  mkWork ex_subject "First" false "The claim." 1 None None (Some "Task"%string) None None None None None None None None None None.
Definition ex_revision : string := match canonical_revision ex_subject 1 with Ok r => r | Err _ => "" end.

Definition ex_r0 : StoreDB :=
  mkStore (Messages.mkMsgDB [] [] false (Mailboxes.mkMailboxDB [ex_author; ex_auditor] ∅) (GrantState.mkDB ∅ ∅)
      (WorkState.mkStateDB [Controller.mkHandle ex_subject "postgres" ex_subject] []) [])
    (HumanReviews.mkReviewDB (mkTracker {[ex_subject := mkWorkRow ex_subject_work "first"]} ∅ [] ∅ ∅ ∅ ∅) []) ∅ ∅.

Definition ex_guidelines : string :=
  "0123456789abcdef0123456789abcdef0123456789abcdef0123456789abcdef".
Definition alone : nat → StoreDB → StoreDB := λ _ d, d.
Definition ex_clock : nat → Z := λ n, 100 + Z.of_nat n.

Definition ex_request : ReviewRequest := mkReviewRequest ex_subject ex_revision CODE (Some "abc123"%string) FULL None [] None.
Definition ex_asked : StoreDB * res ReviewResult := Eval vm_compute in
  request (λ s, s) "policy-1" "guide-1" ex_guidelines alone ex_clock ex_request ex_author ex_r0.
Definition ex_review : uuid := Eval vm_compute in
  match ex_asked.2 with Ok o => default ""%string (rr_review o) | Err _ => "" end.
Definition ex_delivery : uuid := Eval vm_compute in
  match ex_asked.2 with Ok o => default ""%string (rr_delivery o) | Err _ => "" end.

Definition received (id : uuid) (g : Z) (d : StoreDB) : StoreDB :=
  let m := mail d in
  with_mail (Messages.with_deliveries
    ((λ x, if Messages.is_delivery id x then Messages.to_received g (pretty g) 110 x else x) <$> Messages.deliveries m) m) d.

Definition ex_r2 : StoreDB := Eval vm_compute in received ex_delivery 3 ex_asked.1.

Definition ex_finding : ReviewFinding := mkFinding "F1" "off by one" "line 7" "wrong total" "total" "fix the bound".
Definition ex_verdict : ReviewSubmit := mkReviewSubmit ex_review FINDINGS [ex_finding] ["log:1"%string] UNSEEDED None.
Definition ex_submitted : StoreDB * res ReviewResult := Eval vm_compute in
  submit "policy-1" alone ex_clock ex_verdict ex_auditor ex_r2.
Definition ex_read : StoreDB * res ReviewResult := Eval vm_compute in
  get "policy-1" "guide-1" ex_guidelines alone ex_clock ex_review ex_author ex_submitted.1.

Lemma alone_ok : others_ok ex_registered alone.
Proof. intros n d Hd. by apply Evolves_refl. Qed.

Lemma ex_registered_uuid u : ex_registered u → is_uuid u = true.
Proof. intros [->|[->|[]%not_elem_of_nil]%elem_of_cons]%elem_of_cons; vm_compute; reflexivity. Qed.

(** Tables without messages. *)
Lemma Sound_empty registered c a g h s :
  (∀ m, m ∈ Mailboxes.mailboxes a → registered (Mailboxes.endpoint_id m)) →
  Sound registered (Messages.mkMsgDB [] [] c a g h s).
Proof. intros Ha. by split; cbn; try apply NoDup_nil_2; try intros ? ?%not_elem_of_nil; try intros ? ? ? ?%not_elem_of_nil. Qed.

Lemma ex_r0_sound : Sound ex_registered (mail ex_r0).
Proof.
  apply Sound_empty. cbn. intros m [->|[->|[]%not_elem_of_nil]%elem_of_cons]%elem_of_cons; unfold ex_registered;
    rewrite !elem_of_cons; auto.
Qed.

Lemma received_sound registered id g d : Sound registered (mail d) → Sound registered (mail (received id g d)).
Proof.
  intros Hd. cbn. apply Sound_moved; [done|]. rewrite <- list_fmap_compose. apply list_fmap_ext. intros k y _. cbn.
  by destruct (Messages.is_delivery id y).
Qed.

Lemma ex_r2_sound : Sound ex_registered (mail ex_r2).
Proof.
  change ex_r2 with (received ex_delivery 3 ex_asked.1). apply received_sound.
  assert (E : request (λ s, s) "policy-1" "guide-1" ex_guidelines alone ex_clock ex_request ex_author ex_r0 = ex_asked)
    by (vm_compute; reflexivity).
  refine (proj1 (evolved ex_registered _ ex_r0 ex_asked.1 ex_asked.2 _ ex_r0_sound _)); [|exact E].
  apply keeps_request; [exact ex_registered_uuid | exact alone_ok].
Qed.

Lemma ex_submitted_run : submit "policy-1" alone ex_clock ex_verdict ex_auditor ex_r2 = ex_submitted.
Proof. vm_compute. reflexivity. Qed.

Lemma ex_submitted_sound : Sound ex_registered (mail ex_submitted.1).
Proof.
  refine (proj1 (evolved ex_registered _ ex_r2 ex_submitted.1 ex_submitted.2 _ ex_r2_sound ex_submitted_run)).
  apply keeps_submit; [exact ex_registered_uuid | exact alone_ok].
Qed.

Definition ex_no_result : ReviewResult := failed UNKNOWN None "".
Definition result_of (x : res ReviewResult) : ReviewResult := match x with Ok o => o | Err _ => ex_no_result end.
Definition ex_shown : ReviewResult := Eval vm_compute in result_of ex_read.2.
Definition ex_taken : ReviewResult := Eval vm_compute in result_of ex_submitted.2.

Lemma ex_read_run :
  get "policy-1" "guide-1" ex_guidelines alone ex_clock ex_review ex_author ex_submitted.1 = (ex_read.1, Ok ex_shown).
Proof. vm_compute. reflexivity. Qed.

(** The calls that lead to the verdict: the request, its reception, the
    submission. *)
Abbreviation ex_changes :=
  (changes ex_registered (λ s, s) "policy-1" "guide-1" ex_guidelines).

Lemma ex_alone_changes n d : ex_changes d (alone n d).
Proof. apply ch_none. Qed.

Definition ex_receive : Messages.Call :=
  Messages.c_receive 110 (Mailboxes.endpoint_id ex_auditor) 3 (Messages.mkRuntime "3" (Some "3")) ex_delivery (Some ex_auditor).

Lemma ex_received_by_call : ex_r2 = with_mail (Messages.run ex_receive (mail ex_asked.1)) ex_asked.1.
Proof. vm_compute. reflexivity. Qed.

Lemma ex_submitted_changes : ex_changes ex_r0 ex_submitted.1.
Proof.
  apply (ch_then _ _ _ _ _ _ ex_asked.1).
  - change ex_asked.1 with (fst ex_asked).
    assert (E : ex_asked.1 = run_service (λ s, s) "policy-1" "guide-1" ex_guidelines
      (sv_request ex_request ex_author) alone ex_clock ex_r0) by (vm_compute; reflexivity).
    rewrite E. apply ch_service, ex_alone_changes.
  - apply (ch_then _ _ _ _ _ _ ex_r2).
    + rewrite ex_received_by_call. by apply ch_message.
    + rewrite <- ex_submitted_run. exact (ch_service _ _ _ _ _ (sv_submit ex_verdict ex_auditor) alone ex_clock ex_r2 ex_alone_changes).
Qed.

Lemma ex_r0_no_messages : no_messages ex_registered ex_r0.
Proof.
  split; [reflexivity|]. split; [reflexivity|]. cbn.
  intros m [->|[->|[]%not_elem_of_nil]%elem_of_cons]%elem_of_cons; unfold ex_registered; rewrite !elem_of_cons; auto.
Qed.

Lemma review_verdict_authentic_witness :
  rr_verdict ex_shown = Some FINDINGS ∧ ∃ request reply, shown ex_review ex_read.1 ex_shown request reply ∧
    (∀ x, answered_by ex_review request x ex_read.1 → x = reply) ∧ r_sender reply.1 = r_recipient request.1 ∧
    ((∀ u, ex_registered u →
        _request_message_id (source_basis request) u = _request_message_id (source_basis request) (r_recipient request.1) →
        u = r_recipient request.1) →
     r_sender reply.1 ≠ b_requester (source_basis request)).
Proof.
  split; [vm_compute; reflexivity|].
  apply (review_verdict_authentic ex_registered ex_registered_uuid (λ s, s) "policy-1" "guide-1" ex_guidelines alone ex_clock
    ex_review ex_author ex_r0 ex_submitted.1).
  - exact ex_r0_no_messages.
  - exact ex_submitted_changes.
  - exact ex_alone_changes.
  - exact ex_read_run.
  - vm_compute. reflexivity.
Defined.

Lemma review_verdict_final_witness :
  rr_digest ex_shown ≠ None ∧
  verdict_part (result_of (get "policy-1" "guide-1" ex_guidelines alone ex_clock ex_review ex_author ex_read.1).2)
  = verdict_part ex_shown.
Proof.
  split; [vm_compute; discriminate|]. symmetry.
  assert (E2 : get "policy-1" "guide-1" ex_guidelines alone ex_clock ex_review ex_author ex_read.1
               = (ex_read.1, Ok ex_shown)) by (vm_compute; reflexivity).
  assert (Hd : Sound ex_registered (mail ex_read.1)).
  { refine (proj1 (evolved ex_registered _ ex_submitted.1 ex_read.1 (Ok ex_shown) _ ex_submitted_sound ex_read_run)).
    apply keeps_review_get; [exact ex_registered_uuid | exact alone_ok]. }
  rewrite E2. apply (review_verdict_final ex_registered ex_registered_uuid "policy-1" "guide-1" ex_guidelines alone alone
    ex_clock ex_clock ex_review ex_author ex_author ex_submitted.1 ex_read.1 ex_shown ex_read.1 ex_read.1).
  - exact alone_ok.
  - exact alone_ok.
  - exact ex_submitted_sound.
  - exact ex_read_run.
  - by apply Evolves_refl.
  - exact E2.
  - vm_compute. reflexivity.
  - vm_compute. reflexivity.
  - reflexivity.
Defined.

Lemma review_submitted_witness :
  rr_status ex_taken = SUBMITTED ∧
  ∃ held d0 d1 d2, Evolves ex_registered ex_r2 d0 ∧ Evolves ex_registered d0 d1 ∧ Evolves ex_registered d1 d2 ∧
    kept (mail d2) (mail ex_submitted.1) ∧ Taken "policy-1" ex_verdict ex_auditor held d0 d1 d2 ex_submitted.1.
Proof.
  split; [vm_compute; reflexivity|].
  apply (review_submitted ex_registered ex_registered_uuid "policy-1" alone ex_clock
    ex_verdict ex_auditor ex_r2 ex_submitted.1 ex_taken).
  - exact alone_ok.
  - exact ex_r2_sound.
  - rewrite ex_submitted_run. reflexivity.
  - vm_compute. reflexivity.
Defined.

(** A review that compares the work with its baseline. *)
Definition ex_baseline : uuid := "00000000-0000-4000-8000-0000000000c1".
Definition ex_check : BaselineCheck := mkCheck ex_baseline PRE_IMPLEMENTATION OWNER_PRESERVED "same" ["plan:1"%string].
Definition ex_brief : CanonicalReviewBrief :=
  _brief (_basis "policy-1" "guide-1" ex_guidelines
    (mkReviewRequest ex_subject ex_revision DESIGN None FULL None [] (Some ex_check)) ex_author) ex_subject_work None.
Definition ex_b_review : uuid := Eval vm_compute in b_review_id (br_basis ex_brief).
Definition ex_b1 : StoreDB * res ReviewResult := Eval vm_compute in
  (_ensure_in_transaction (λ s, s) ex_brief;; _record_basis_in_transaction 100 ex_brief ex_author;;
   _advance_in_transaction "policy-1" "guide-1" ex_guidelines 100 ex_b_review ex_author None) ex_r0.
Definition ex_assessment : BaselineAssessment :=
  mkAssessment ex_baseline PRE_IMPLEMENTATION BASELINE_PRESERVED ["plan:1"%string].
Definition ex_b2 : StoreDB := Eval vm_compute in
  (submit "policy-1" alone ex_clock
     (mkReviewSubmit ex_b_review PASS [] [] UNSEEDED (Some ex_assessment)) ex_auditor
     (received (default "" (rr_delivery (result_of ex_b1.2))) 3 ex_b1.1)).1.
Definition ex_b_digest : string := Eval vm_compute in
  match baseline_pass_status_in_transaction "policy-1" ex_subject ex_revision ex_b2 with
  | Ok (proof_pass _ _ digest) => digest
  | _ => ""
  end.

Lemma baseline_pass_sound_witness :
  ex_b_digest ≠ ""%string ∧ Preserves ex_subject ex_revision ex_baseline ex_b_review ex_b_digest ex_b2.
Proof.
  split; [vm_compute; discriminate|]. apply (baseline_pass_sound "policy-1"). vm_compute. reflexivity.
Defined.
