(* ===== verification/Implementation.v ===== *)
(** * Implementation requests ([implementation_requests.py])

    An agent asks that a package be implemented.  The request joins what the
    other components store about the package: its current revision, the human
    approval, the independent review or the review of its baseline, the
    trajectory that the baseline is bound to, and the grant of the caller; and
    admits a task run under all of them.  The same conditions are checked again
    when a run starts, with the holds and the dependencies of the package.

    Parameters: pydantic's reading of review messages and the version of the
    review policy; [datetime.now()] and [func.now()] are arguments.  The first
    read of the operation may miss a row that is committed meanwhile, as the
    read of [TaskRuns] may: the flags are [missed] and [raced]. *)

From stdpp Require Import pretty.
From S2P Require Import Prelude WeakestPre Tables Json Codec Contracts Grants GrantState Tracker HumanReviews Store.
From S2P Require Import TaskRuns.
From S2P Require ReviewModels Reviews ReviewFacts ReviewSystem PriorityClaims HumanTrajectory DurableCapture Messages WorkState.

Local Open Scope Z_scope.

#[local] Existing Instance PriorityClaims.ClaimKind_eq_dec.
#[local] Existing Instance PriorityClaims.SubjectKind_eq_dec.
#[local] Existing Instance PriorityClaims.ClaimRelation_eq_dec.
#[local] Existing Instance PriorityClaims.ClaimState_eq_dec.

(** ** Results *)

Inductive ImplementationStatus := im_APPLIED | im_REPLAYED | im_STALE | im_DENIED | im_UNKNOWN | im_CONFLICT.

#[export] Instance ImplementationStatus_eq_dec : EqDecision ImplementationStatus.
Proof. solve_decision. Defined.

(** [ImplementationRequestResult]; the state and the action of a success are
    constants. *)
Record ImplementationRequestResult := mkImplementation {
  ir_status : ImplementationStatus; ir_implementation : option uuid; ir_task : option uuid; ir_reason : option string }.

Definition refusal (s : ImplementationStatus) (reason : string) : ImplementationRequestResult :=
  mkImplementation s None None (Some reason).

(** [exact_shape] *)
Definition implementation_shape (o : ImplementationRequestResult) : bool :=
  if mem (ir_status o) [im_APPLIED; im_REPLAYED]
  then is_some (ir_implementation o) && is_some (ir_task o) && is_none (ir_reason o)
  else is_none (ir_implementation o) && is_none (ir_task o) && is_some (ir_reason o).

(** [UUID(str(request.result_contract["implementation_request_id"]))] *)
Definition contract_id (contract : json) : res uuid :=
  match contract with
  | JObj kvs =>
      match assoc "implementation_request_id" kvs with
      | None => raise KeyError "implementation_request_id"
      | Some v =>
          match UUID (codes (DurableCapture.py_str v)) with
          | Some u => Ok u
          | None => raise ValueError "badly formed hexadecimal UUID string"
          end
      end
  | _ => raise TypeError "indices must be integers or slices"
  end.

(** [_success] *)
Definition _success (s : ImplementationStatus) (r : TaskRunRequest) : res ImplementationRequestResult :=
  id ← contract_id (result_contract r);
  Ok (mkImplementation s (Some id) (Some (request_id r)) None).

(** ** The binding of a baseline *)

Definition _HIHR_PREFIX : string := "hihr/".
Definition _HIHR_TRAJECTORY_PREFIX : string := "hihr/1.0/trajectory/".

(** [s.split(c)] *)
Fixpoint split_on (c : ascii) (s : string) : list string :=
  match s with
  | EmptyString => [EmptyString]
  | String a s' =>
      if Ascii.eqb a c then EmptyString :: split_on c s'
      else match split_on c s' with
           | p :: ps => String a p :: ps
           | [] => [String a EmptyString]
           end
  end.

Definition slash : ascii := ascii_of_nat 47.

Definition drop_string (n : nat) (s : string) : string := String.substring n (String.length s - n) s.

Inductive Binding := not_bound | bound_to (work trajectory : uuid) | binding_invalid.

(** [_bound_trajectory] *)
Definition _bound_trajectory (source_refs : list string) : Binding :=
  match List.filter (startswith _HIHR_PREFIX) source_refs with
  | [] => not_bound
  | [r] =>
      if negb (startswith _HIHR_TRAJECTORY_PREFIX r) then binding_invalid
      else
        match split_on slash (drop_string (String.length _HIHR_TRAJECTORY_PREFIX) r) with
        | [work; trajectory] =>
            if eqb (UUID (codes work)) (Some work) && eqb (UUID (codes trajectory)) (Some trajectory)
            then bound_to work trajectory else binding_invalid
        | _ => binding_invalid
        end
  | _ => binding_invalid
  end.

(** ** The conditions *)

(** A condition answers or goes on. *)
Abbreviation Answer := ImplementationRequestResult (only parsing).
Definition proceed {A B} (x : res (Answer + A)) (f : A → res (Answer + B)) : res (Answer + B) :=
  y ← x; match y with inl o => Ok (inl o) | inr a => f a end.
Definition refuse {A} (s : ImplementationStatus) (reason : string) : res (Answer + A) := Ok (inl (refusal s reason)).
Definition go {A} (a : A) : res (Answer + A) := Ok (inr a).

Definition is_hold (package : uuid) (c : PriorityClaims.PriorityClaim) : bool :=
  eqb (PriorityClaims.subject_kind (PriorityClaims.said c)) PriorityClaims.WORK
  && eqb (PriorityClaims.subject_id (PriorityClaims.said c)) package
  && eqb (PriorityClaims.claim_kind (PriorityClaims.said c)) PriorityClaims.HUMAN_PRIORITY
  && eqb (PriorityClaims.relation_kind (PriorityClaims.said c)) PriorityClaims.HOLD
  && eqb (PriorityClaims.claim_state c) PriorityClaims.CURRENT.

Definition depends (package : uuid) (d : StoreDB) : bool :=
  existsb (λ p : uuid * uuid, eqb p.1 package) (elements (dependencies (s_tracker d))).

(** The package is current; when a run [starts], nothing holds it. *)
Definition package_ready (package : uuid) (revision : string) (starts : bool) (d : TaskDB) : res (Answer + unit) :=
  work ← (get_locked package (s_tracker (base d))).2;
  match work with
  | None => refuse im_DENIED "package_not_found"
  | Some w =>
      actual ← canonical_revision (work_id w) (row_version w);
      if negb (eqb actual revision) then refuse im_STALE "package_revision_changed"
      else if completed w || negb (eqb (lifecycle_state w) (Some "CURRENT"%string))
      then refuse im_DENIED "package_not_active"
      else if starts && existsb (is_hold package) (claims d) then refuse im_DENIED "human_priority_hold"
      else if starts && depends package (base d) then refuse im_UNKNOWN "dependency_eligibility_unavailable"
      else go tt
  end.

(** What approves the package: a human review of this revision, or an approved
    baseline with the review that compared the revision with it. *)
Inductive Approval :=
  | by_review (r : HumanReviewRecord)
  | by_baseline (r : HumanReviewRecord) (b : HumanReviewBaselineV2) (review : uuid) (digest : string)
      (binding : option (uuid * uuid)).

Definition approval_record (a : Approval) : HumanReviewRecord :=
  match a with by_review r => r | by_baseline r _ _ _ _ => r end.

(** The human reviews of the package at the revision. *)
Definition reviews_of (package : uuid) (revision : string) (d : TaskDB) : list ReviewRow :=
  List.filter (λ r, eqb (rr_package r) package && eqb (rr_revision r) revision) (s_reviews (base d)).

(** A review that approves without a baseline. *)
Definition approves_alone (r : HumanReviewRecord) : bool :=
  is_none (baseline (hv_consequence r)) && eqb (hv_decision r) (Some APPROVED)
  && eqb (hv_state r) READY_FOR_IMPLEMENTATION.

(** The trajectory that a baseline is bound to is still the current one. *)
Definition bound_current (b : HumanReviewBaselineV2) (d : TaskDB) : res (Answer + option (uuid * uuid)) :=
  match _bound_trajectory (human_source_refs b) with
  | binding_invalid => refuse im_DENIED "hihr_binding_invalid"
  | not_bound => go None
  | bound_to work trajectory =>
      checked ← HumanTrajectory.check_in_transaction work trajectory
                  (HumanTrajectory.mkTrajectoryDB (s_handles (base d)) (trajectories d));
      match HumanTrajectory.check_status checked with
      | HumanTrajectory.ck_STALE => refuse im_DENIED "hihr_trajectory_stale"
      | HumanTrajectory.ck_UNKNOWN => refuse im_UNKNOWN "hihr_trajectory_unavailable"
      | HumanTrajectory.ck_CURRENT => go (Some (work, trajectory))
      end
  end.

Section requests.
Context `{ReviewModels.Lax} (policy_version : string).

(** From the human reviews to the binding. *)
Definition approval (package : uuid) (revision : string) (d : TaskDB) : res (Answer + Approval) :=
  let rows := reviews_of package revision d in
  if (1 <? length rows)%nat then refuse im_UNKNOWN "human_review_ambiguous"
  else
    exact ← match rows with [] => Ok None | row :: _ => Some <$> human_review_record row end;
    current ← current_approved_baseline package (s_reviews (base d));
    proof ← Reviews.baseline_pass_status_in_transaction policy_version package revision (base d);
    match proof with
    | Reviews.proof_unknown => refuse im_UNKNOWN "baseline_review_unavailable"
    | Reviews.proof_pass id review digest =>
        approved ← approved_baseline id package (s_reviews (base d));
        match approved, current with
        | Some r, Some c =>
            if negb (eqb (hv_id c) (hv_id r)) then refuse im_DENIED "approved_baseline_not_found"
            else
              match baseline (hv_consequence r) with
              | None => refuse im_UNKNOWN "approved_baseline_unavailable"
              | Some b => proceed (bound_current b d) (λ binding, go (by_baseline r b review digest binding))
              end
        | _, _ => refuse im_DENIED "approved_baseline_not_found"
        end
    | Reviews.proof_not_pass =>
        match exact with
        | Some r =>
            if approves_alone r then go (by_review r)
            else refuse im_DENIED (if is_some current then "baseline_review_not_passed" else "human_review_not_approved")
        | None => refuse im_DENIED (if is_some current then "baseline_review_not_passed" else "human_review_not_approved")
        end
    end.

(** The grant under which the caller may ask. *)
Definition send_authority (p : PrincipalContext) (package : uuid) (now : Z) (d : TaskDB) : res (Answer + WorkGrant) :=
  match task_grant p d with
  | None => refuse im_DENIED "no_send_authority"
  | Some g =>
      if negb (grant_current g now) then refuse im_STALE "send_authority_not_current"
      else if negb (eqb (principal g) p) || negb (eqb (active_work_id (authority g)) package)
              || negb (mem implementation_request (operations g))
      then refuse im_DENIED "no_send_authority"
      else go g
  end.

(** A package that a human review alone approves needs an independent PASS. *)
Definition reviewed (a : Approval) (package : uuid) (revision : string) (d : TaskDB) : res (Answer + unit) :=
  match a with
  | by_baseline _ _ _ _ _ => go tt
  | by_review _ =>
      status ← Reviews.pass_status_in_transaction policy_version package revision ReviewModels.IMPLEMENTATION None (base d);
      match status with
      | Reviews.PROOF_UNKNOWN => refuse im_UNKNOWN "independent_review_unavailable"
      | Reviews.NOT_PASS => refuse im_DENIED "independent_review_not_passed"
      | Reviews.PROOF_PASS => go tt
      end
  end.

(** All conditions. *)
Definition conditions (p : PrincipalContext) (package : uuid) (revision : string) (starts : bool) (now : Z) (d : TaskDB)
  : res (Answer + (Approval * WorkGrant)) :=
  proceed (package_ready package revision starts d) (λ _,
  proceed (approval package revision d) (λ a,
  proceed (send_authority p package now d) (λ g,
  proceed (reviewed a package revision d) (λ _, go (a, g))))).

(** ** The request *)

Definition path (parts : list string) : string := str_join "/" parts.

Definition authorization_of (a : Approval) : string :=
  match a with
  | by_review r => path ["human-review"; hv_id r; hv_digest r]
  | by_baseline r _ review digest _ => path ["human-review-v2"; hv_id r; hv_digest r; "review"; review; digest]
  end%string.

Definition send_ref (g : WorkGrant) (p : PrincipalContext) : string :=
  path ["grant"; grant_id g; pretty (version g); principal_key p]%string.

(** [milestone_for] *)
Definition milestone_for (e : ContinuationEffect) : string :=
  match e with IMPLEMENT => "IMPLEMENTED" | LAND => "MERGED" | ACTIVATE => "ACTIVATED" end.

Definition effects_of (a : Approval) : list ContinuationEffect :=
  match a with by_review _ => [IMPLEMENT] | by_baseline _ b _ _ _ => continuation_effects b end.

Definition result_contract_of (a : Approval) (package : uuid) : json :=
  let r := approval_record a in
  let c := hv_consequence r in
  JObj ([("implementation_request_id", JStr (hv_id r)); ("authorization_ref", JStr (authorization_of a));
         ("return_to_work_id", JStr package); ("implementation_scope", jstrs (implementation_scope c));
         ("implementation_target", JStr (implementation_target c));
         ("milestones", jstrs (milestone_for <$> effects_of a)); ("excluded_effects", jstrs (excluded_effects c))]%string
        ++ match a with
           | by_baseline _ _ _ _ (Some (w, t)) =>
               [("hihr_trajectory_ref", JStr (String.append _HIHR_TRAJECTORY_PREFIX (path [w; t])))]%string
           | _ => []
           end
        ++ match a with
           | by_review _ => []
           | by_baseline _ _ review digest _ =>
               [("baseline_id", JStr (hv_id r)); ("baseline_digest", JStr (hv_digest r));
                ("preimplementation_review_id", JStr review); ("preimplementation_verdict_digest", JStr digest);
                ("continuation_effects", jstrs (effect_text <$> effects_of a))]%string
           end).

Definition intent_of (a : Approval) (g : WorkGrant) (p : PrincipalContext) (package : uuid) (revision : string)
  : ImplementationTaskRequest :=
  mkImplementationTask package revision
    (String.concat "" ["Implement approved package "; package; " at "; revision; "."])%string
    (result_contract_of a package) (authorization_of a) (send_ref g p) None.

(** [str(request.send_authority_ref).endswith(f"/{principal.key}")] *)
Definition endswith (p s : string) : bool :=
  let n := String.length p in let m := String.length s in
  (n <=? m)%nat && String.eqb (String.substring (m - n) n s) p.
Definition sent_by (p : PrincipalContext) (r : TaskRunRequest) : bool :=
  endswith (String.append "/" (principal_key p)) (default "None" (send_authority_ref r))%string.

(** The answer to an operation that is stored already. *)
Definition replayed (p : PrincipalContext) (package : uuid) (revision : string) (r : TaskRunRequest)
  : res ImplementationRequestResult :=
  if negb (eqb (task_kind r) IMPLEMENTATION && eqb (requester_work_id r) package
           && eqb (execution_work_id r) package && eqb (observed_revision r) revision)
  then Ok (refusal im_CONFLICT "operation_identity_conflict")
  else if negb (sent_by p r) then Ok (refusal im_DENIED "send_authority_mismatch")
  else _success im_REPLAYED r.

(** What the admission of the task run answers. *)
Definition admission_status (s : TaskStatus) : ImplementationStatus :=
  match s with ts_stale => im_STALE | ts_denied => im_DENIED | ts_conflict => im_CONFLICT | _ => im_UNKNOWN end.

Definition or_text (o : option string) (s : string) : string :=
  match o with Some t => if truthy t then t else s | None => s end.

(** From the conditions on; [current] is the request of a run that starts. *)
Definition admit_task (p : PrincipalContext) (op package : uuid) (revision : string) (current : option TaskRunRequest)
    (raced : bool) (now : Z) (a : Approval) (g : WorkGrant) : M TaskDB ImplementationRequestResult :=
  if match current with
     | Some r => negb (eqb (authorization_ref r) (Some (authorization_of a)))
                 || negb (eqb (send_authority_ref r) (Some (send_ref g p)))
     | None => false
     end
  then mret (refusal im_STALE "implementation_authority_changed")
  else
    stable ← get_implementation_in_transaction package revision (authorization_of a);
    match q_request stable with
    | Some r =>
        if negb (sent_by p r) then mret (refusal im_DENIED "send_authority_mismatch")
        else lift (_success im_REPLAYED r)
    | None =>
        if negb (eqb (q_reason stable) (Some "request_not_found"%string))
        then mret (refusal im_UNKNOWN "task_run_replay_unavailable")
        else if is_some current then mret (refusal im_UNKNOWN "implementation_request_unavailable")
        else
          intent ← lift (implementation_validate (intent_of a g p package revision));
          admitted ← request_in_transaction raced package op (implementation_intent intent) now;
          match q_request admitted with
          | Some r =>
              if negb (eqb (q_status admitted) ts_ok)
              then mret (refusal (admission_status (q_status admitted))
                           (or_text (q_reason admitted) "task_run_admission_failed"))
              else lift (_success im_APPLIED r)
          | None => mret (refusal (admission_status (q_status admitted))
                            (or_text (q_reason admitted) "task_run_admission_failed"))
          end
    end.

(** The body of [request]. *)
Definition request_body (p : PrincipalContext) (op package : uuid) (revision : string) (current : option TaskRunRequest)
    (missed raced : bool) (now : Z) : M TaskDB ImplementationRequestResult :=
  replay ← (if missed then answer_row None else get_operation_in_transaction op);
  match q_request replay, current with
  | Some r, None => lift (replayed p package revision r)
  | stored, _ =>
      if is_none stored && negb (eqb (q_reason replay) (Some "request_not_found"%string))
      then mret (refusal im_UNKNOWN "task_run_replay_unavailable")
      else
        d ← get_st;
        checked ← lift (conditions p package revision (is_some current) now d);
        match checked with
        | inl answer => mret answer
        | inr (a, g) => admit_task p op package revision current raced now a g
        end
  end.

Definition request_errors : list exn_class := [SQLAlchemyError; TypeError; ValueError; KeyError].

Definition implementation_unavailable : exn → M TaskDB ImplementationRequestResult :=
  λ _, mret (refusal im_UNKNOWN "state_unavailable").

(** [ImplementationRequestState.request] in a transaction of its own. *)
Definition request (p : PrincipalContext) (op package : uuid) (revision : string) (missed raced : bool) (now : Z)
  : M TaskDB ImplementationRequestResult :=
  catch (transaction (request_body p op package revision None missed raced now)) request_errors implementation_unavailable.

(** *** When a run starts ([TaskRunState.bind_start]) *)

(** [value.rsplit("/", 1)[-1]] *)
Definition after_slash (s : string) : string := List.last (split_on slash s) ""%string.

(** The request in the transaction of the binding, for the principal of the
    grant that sent it. *)
Definition starting (now : Z) (row : TaskRow) (verified : TaskRunRequest) (g : WorkGrant) (d : TaskDB)
  : res (option (TaskStatus * string)) :=
  answer ← (catch (request_body (principal g) (w_operation_id row) (execution_work_id verified)
                     (observed_revision verified) (Some verified) false false now)
              request_errors implementation_unavailable d).2;
  let reason := default ""%string (ir_reason answer) in
  match ir_status answer with
  | im_REPLAYED => Ok None
  | im_STALE => Ok (Some (ts_stale, reason))
  | im_DENIED => Ok (Some (ts_denied, reason))
  | im_UNKNOWN => Ok (Some (ts_unknown, reason))
  | im_CONFLICT => Ok (Some (ts_conflict, reason))
  | im_APPLIED => raise ValueError "validation error"
  end.
End requests.

(** What [bind_start] asks about an implementation request; [policy] is the
    configuration that it loads, and [now] its [datetime.now()]. *)
Definition may_still_start `{ReviewModels.Lax} (policy : res (option string)) (now : Z) (row : TaskRow)
    (verified : TaskRunRequest) (d : TaskDB) : res (option (TaskStatus * string)) :=
  let key := after_slash (default "None"%string (send_authority_ref verified)) in
  match default None (work_grants (s_grants (base d)) !! key) with
  | None => Ok (Some (ts_denied, "no_send_authority"%string))
  | Some g => config ← policy; starting (default "review-policy-v1"%string config) now row verified g d
  end.

(** ** The conditions, as propositions *)

(** The package is active at the revision. *)
Definition package_at (package : uuid) (revision : string) (d : TaskDB) : Prop :=
  ∃ w, (get_locked package (s_tracker (base d))).2 = Ok (Some w) ∧
    canonical_revision (work_id w) (row_version w) = Ok revision ∧ completed w = false ∧
    lifecycle_state w = Some "CURRENT"%string.

(** No current human claim holds the package, and it depends on nothing. *)
Definition unheld (package : uuid) (d : TaskDB) : Prop :=
  (∀ c, c ∈ claims d → is_hold package c = false) ∧ ∀ x, (package, x) ∉ dependencies (s_tracker (base d)).

(** The grant allows its principal to ask for the package. *)
Definition may_send (p : PrincipalContext) (package : uuid) (now : Z) (d : TaskDB) (g : WorkGrant) : Prop :=
  task_grant p d = Some g ∧ grant_current g now = true ∧ principal g = p ∧ active_work_id (authority g) = package ∧
  implementation_request ∈ operations g.

(** The binding of the baseline, when it has one, is current. *)
Definition binding_current (b : HumanReviewBaselineV2) (binding : option (uuid * uuid)) (d : TaskDB) : Prop :=
  match _bound_trajectory (human_source_refs b) with
  | not_bound => binding = None
  | bound_to work trajectory =>
      binding = Some (work, trajectory) ∧
      ∃ head, HumanTrajectory.check_in_transaction work trajectory
                (HumanTrajectory.mkTrajectoryDB (s_handles (base d)) (trajectories d))
              = Ok (HumanTrajectory.mkCheck HumanTrajectory.ck_CURRENT head)
  | binding_invalid => False
  end.

Section authorized.
Context `{ReviewModels.Lax} (policy_version : string).

(** A stored reply that passes an independent review of the implementation. *)
Definition independent_pass (package : uuid) (revision : string) (d : StoreDB) : Prop :=
  ∃ review source bound reply, (source, bound) ∈ Reviews.request_sources policy_version review d ∧
    ReviewFacts.answered_by review source reply d ∧
    Reviews.outcome_passes package revision ReviewModels.IMPLEMENTATION None reply.2 = true.

(** The human approval and the review that the request stands on. *)
Definition approved (package : uuid) (revision : string) (a : Approval) (d : TaskDB) : Prop :=
  match a with
  | by_review r =>
      (∃ row, reviews_of package revision d = [row] ∧ human_review_record row = Ok r) ∧
      hv_decision r = Some APPROVED ∧ hv_state r = READY_FOR_IMPLEMENTATION ∧ baseline (hv_consequence r) = None ∧
      independent_pass package revision (base d)
  | by_baseline r b review digest binding =>
      (∃ c, current_approved_baseline package (s_reviews (base d)) = Ok (Some c) ∧ hv_id c = hv_id r) ∧
      hv_package r = package ∧ hv_decision r = Some APPROVED ∧ baseline (hv_consequence r) = Some b ∧
      ReviewSystem.Preserves package revision (hv_id r) review digest (base d) ∧ binding_current b binding d
  end.

Record Authorized (p : PrincipalContext) (package : uuid) (revision : string) (starts : bool) (now : Z) (d : TaskDB)
    (a : Approval) (g : WorkGrant) : Prop := {
  au_package : package_at package revision d;
  au_unheld : starts = true → unheld package d;
  au_approved : approved package revision a d;
  au_grant : may_send p package now d g }.

(** ** Soundness of the conditions *)

Lemma proceed_Ok {A B} (x : res (ImplementationRequestResult + A)) (f : A → res (ImplementationRequestResult + B)) b :
  proceed x f = Ok (inr b) → ∃ a, x = Ok (inr a) ∧ f a = Ok (inr b).
Proof. unfold proceed. destruct x as [[o|a]|e]; cbn; [done|by exists a|done]. Qed.

Lemma package_ready_sound package revision starts d :
  package_ready package revision starts d = Ok (inr tt) →
  package_at package revision d ∧ (starts = true → unheld package d).
Proof.
  unfold package_ready. destruct (get_locked package _).2 as [[w|]|e] eqn:Hw; cbn; try done.
  destruct (canonical_revision _ _) as [actual|e] eqn:Hv; cbn; [|done].
  destruct (eqb actual revision) eqn:E; cbn; [rewrite eqb_true in E; subst actual | done].
  destruct (completed w || _) eqn:Ec; cbn; [done|]. apply orb_false_iff in Ec as [Ec El].
  rewrite negb_false_iff, eqb_true in El.
  destruct (starts && existsb _ _) eqn:Eh; [done|]. destruct (starts && depends _ _) eqn:Ed; [done|]. intros _.
  split; [by exists w|]. intros ->. cbn in Eh, Ed. rewrite existsb_false in Eh.
  split; [exact Eh|]. intros x Hx. unfold depends in Ed. rewrite existsb_false in Ed.
  specialize (Ed (package, x)). cbn in Ed. rewrite eqb_false in Ed. destruct Ed; [by apply elem_of_elements | done].
Qed.

Lemma send_authority_sound p package now d g : send_authority p package now d = Ok (inr g) → may_send p package now d g.
Proof.
  unfold send_authority. destruct (task_grant p d) as [g'|] eqn:Hg; [|done].
  destruct (grant_current g' now) eqn:Hc; cbn; [|done]. destruct (_ || _) eqn:E; [done|]. intros [= <-].
  rewrite !orb_false_iff, !negb_false_iff, !eqb_true, mem_true in E. destruct E as [[E1 E2] E3]. done.
Qed.

Lemma bound_current_sound b d binding : bound_current b d = Ok (inr binding) → binding_current b binding d.
Proof.
  unfold bound_current, binding_current. destruct (_bound_trajectory _) as [|w t|]; [by intros [= <-]| |done].
  destruct (HumanTrajectory.check_in_transaction _ _ _) as [[[] head]|e]; cbn; try done.
  intros [= <-]. split; [done|]. by exists head.
Qed.

Lemma any_passes_true p ids d :
  Reviews.any_passes policy_version p ids d = Ok true →
  ∃ review found e, Reviews.outcome_envelopes policy_version review d = Ok found ∧ e ∈ found ∧ p e = true.
Proof.
  induction ids as [|s ids IH]; cbn; [done|]. destruct (UUID (codes s)) as [review|]; [|done].
  destruct (Reviews.outcome_envelopes _ _ _) as [found|] eqn:Hf; cbn; [|done].
  destruct (Reviews.any_passes _ _ _ _) as [rest|]; cbn; [|done]. intros [= Ho].
  apply orb_true_iff in Ho as [(e & He & Hp)%existsb_exists| ->]; [|by apply IH].
  exists review, found, e. by rewrite list_elem_of_In.
Qed.

Lemma pass_status_sound package revision d :
  Reviews.pass_status_in_transaction policy_version package revision ReviewModels.IMPLEMENTATION None d
    = Ok Reviews.PROOF_PASS →
  independent_pass package revision d.
Proof.
  unfold Reviews.pass_status_in_transaction. intros [?|Hx]%ReviewSystem.or_unknown_Ok; [done|].
  destruct (Reviews.at_revision _ _ _) as [[[]|]|]; cbn in Hx; try done.
  destruct (Reviews.any_passes _ _ _ _) as [[]|] eqn:Hp; cbn in Hx; try done.
  apply any_passes_true in Hp as (review & found & e & Hf & He & Hp). unfold Reviews.outcome_envelopes in Hf.
  destruct (Reviews.outcome_sources _ _ _ _) as [out|] eqn:Ho; cbn in Hf; [|done]. injection Hf as <-.
  apply list_elem_of_fmap in He as (o & -> & Ho'). unfold Reviews.outcome_sources in Ho.
  destruct (ReviewFacts.collect_sound _ _ _ _ _ Ho o Ho') as [?%not_elem_of_nil|(s & Hs & Ha)]; [done|].
  apply list_elem_of_fmap in Hs as ([s' bound] & -> & Hs). exists review, s', bound, o. done.
Qed.

Lemma approved_baseline_facts id package l r :
  approved_baseline id package l = Ok (Some r) →
  hv_id r = id ∧ hv_package r = package ∧ hv_decision r = Some APPROVED.
Proof.
  unfold approved_baseline. destruct (one_or_none _) as [[row|]|e] eqn:Hone; cbn; try done.
  apply one_or_none_Some, filter_one in Hone as [_ Hid]. rewrite eqb_true in Hid.
  destruct (human_review_record row) as [r'|e] eqn:Hr; cbn; [|done]. destruct (_ || _) eqn:E; [done|]. intros [= <-].
  rewrite !orb_false_iff, !negb_false_iff, !eqb_true in E. destruct E as [[E1 E2] _]. split; [|done].
  unfold human_review_record in Hr. destruct (HumanReviewConsequence_validate _); cbn in Hr; [|done].
  unfold raise_if in Hr. destruct (_ || _); [done|]. by injection Hr as <-.
Qed.

Lemma approval_sound package revision d a :
  approval policy_version package revision d = Ok (inr a) → reviewed policy_version a package revision d = Ok (inr tt) →
  approved package revision a d.
Proof.
  unfold approval. destruct (1 <? length _)%nat eqn:Hlen; [done|]. rewrite Nat.ltb_ge in Hlen.
  destruct (match reviews_of package revision d with [] => _ | _ => _ end) as [exact|] eqn:Hexact; cbn; [|done].
  destruct (current_approved_baseline _ _) as [current|] eqn:Hcur; cbn; [|done].
  destruct (Reviews.baseline_pass_status_in_transaction _ _ _ _) as [[id review digest| |]|] eqn:Hproof; cbn; try done.
  - destruct (approved_baseline id package _) as [[r|]|] eqn:Ha; cbn; [|done..]. destruct current as [c|]; [|done].
    destruct (eqb (hv_id c) (hv_id r)) eqn:Ec; cbn; [rewrite eqb_true in Ec | done].
    destruct (baseline (hv_consequence r)) as [b|] eqn:Hb; [|done].
    intros (binding & Hbind & [= <-])%proceed_Ok _. apply approved_baseline_facts in Ha as (Hid & Hp & Hd). subst id.
    split; [by exists c|]. split_and!; try done; [by eapply ReviewSystem.baseline_pass_sound | by apply bound_current_sound].
  - destruct exact as [r|]; [|by destruct (is_some current)]. destruct (approves_alone r) eqn:Hal; [|done].
    intros [= <-] Hrev. unfold approves_alone in Hal. rewrite !andb_true_iff, !eqb_true in Hal. destruct Hal as [[Hn Hd] Hs].
    cbn in Hrev. destruct (Reviews.pass_status_in_transaction _ _ _ _ _ _) as [[]|] eqn:Hpass; cbn in Hrev; try done.
    split; [|split_and!; [done..|by destruct (baseline _)|by apply pass_status_sound]].
    destruct (reviews_of package revision d) as [|row [|? ?]]; [done| |cbn in Hlen; lia]. exists row. split; [done|].
    by destruct (human_review_record row); cbn in Hexact; [injection Hexact as <-|].
Qed.

Lemma conditions_sound p package revision starts now d a g :
  conditions policy_version p package revision starts now d = Ok (inr (a, g)) →
  Authorized p package revision starts now d a g.
Proof.
  unfold conditions. intros ([] & Hpkg & (a' & Ha & (g' & Hg & ([] & Hr & [= -> ->])%proceed_Ok)%proceed_Ok)%proceed_Ok)%proceed_Ok.
  apply package_ready_sound in Hpkg as [H1 H2]. split; [done..|by apply approval_sound | by apply send_authority_sound].
Qed.
End authorized.

(** ** The theorems *)

Section theorems.
Context `{ReviewModels.Lax} (policy_version : string).

Lemma success_Ok s r o :
  _success s r = Ok o → ir_status o = s ∧ ir_task o = Some (request_id r) ∧ ir_reason o = None ∧
  contract_id (result_contract r) = (match ir_implementation o with Some u => Ok u | None => raise ValueError "" end) ∧
  is_some (ir_implementation o) = true.
Proof. unfold _success. destruct (contract_id _) as [u|]; cbn; [|done]. by intros [= <-]. Qed.

(** The model that a stored row stands for. *)
Definition stored_view (q : TaskRunRequest) (r : TaskRow) (d : TaskDB) : Prop :=
  r ∈ task_requests d ∧ ∃ i, row_intent r = Ok i ∧ q = row_view r i.

Lemma wp_answer row d :
  TInv d → (∀ r, row = Some r → r ∈ task_requests d) →
  wp (answer_row row) (λ o d', d' = d ∧ ∀ q, q_request o = Some q → ∃ r, row = Some r ∧ stored_view q r d) d.
Proof.
  intros Hd Hrow. destruct row as [r|]; cbn; [|by apply wp_ret]. wp_step.
  apply wp_validated; [done | by apply Hrow |]. intros i Hi _. apply wp_ret. split; [done|]. intros q [= <-].
  exists r. split; [done|]. split; [by apply Hrow | by exists i].
Qed.

Lemma wp_get_operation (missed : bool) op d :
  TInv d →
  wp (if missed then answer_row None else get_operation_in_transaction op)
     (λ o d', d' = d ∧ ∀ q, q_request o = Some q → ∃ r, w_operation_id r = op ∧ stored_view q r d) d.
Proof.
  intros Hd. destruct missed.
  { eapply wp_mono; [by apply wp_answer|]. intros o d' [-> Ho]. split; [done|]. intros q Hq. by destruct (Ho q Hq) as (r & ? & _). }
  unfold get_operation_in_transaction. wp_step. apply wp_select_operation; [done| |].
  - intros r Hr Hop. eapply wp_mono; [apply wp_answer; [done | by intros ? [= <-]]|]. intros o d' [-> Ho]. split; [done|].
    intros q Hq. destruct (Ho q Hq) as (r' & [= <-] & Hv). by exists r.
  - intros _. eapply wp_mono; [by apply wp_answer|]. intros o d' [-> Ho]. split; [done|].
    intros q Hq. by destruct (Ho q Hq) as (r & ? & _).
Qed.

Lemma wp_get_implementation package revision ref d :
  TInv d →
  wp (get_implementation_in_transaction package revision ref)
     (λ o d', d' = d ∧ ∀ q, q_request o = Some q → ∃ r, is_implementation package revision ref r = true ∧ stored_view q r d) d.
Proof.
  intros Hd. unfold wp, get_implementation_in_transaction.
  destruct (one_or_none _) as [row|e] eqn:Hone; [|done].
  assert (Hrow : ∀ r, row = Some r → r ∈ task_requests d ∧ is_implementation package revision ref r = true)
    by (intros r ->; by apply one_or_none_Some, filter_one in Hone).
  pose proof (wp_answer row d Hd (λ r E, proj1 (Hrow r E))) as Hw. unfold wp in Hw.
  destruct (answer_row row d) as [d' [o|e]]; [|done]. destruct Hw as [-> Hw]. split; [done|]. intros q Hq.
  destruct (Hw q Hq) as (r & Er & Hv). exists r. split; [by apply (Hrow r Er) | done].
Qed.

(** What an answer with a success says. *)
Definition succeeded (o : ImplementationRequestResult) : bool := mem (ir_status o) [im_APPLIED; im_REPLAYED].

Inductive implementation_outcome (p : PrincipalContext) (op package : uuid) (revision : string) (now : Z) (d d' : TaskDB)
    (o : ImplementationRequestResult) : Prop :=
  | io_refused : d' = d → succeeded o = false → implementation_outcome p op package revision now d d' o
  | io_replayed r q : d' = d → ir_status o = im_REPLAYED → stored_view q r d → sent_by p q = true →
      ir_task o = Some (w_request_id r) → w_kind r = IMPLEMENTATION → w_requester r = package →
      w_execution r = package → w_revision r = revision → implementation_outcome p op package revision now d d' o
  | io_applied a g : Authorized policy_version p package revision false now d a g → ir_status o = im_APPLIED →
      d' = admitted package op (implementation_intent (intent_of a g p package revision)) now d →
      (op ∉ (w_operation_id <$> task_requests d)) →
      ir_task o = Some (uuid5 REQUEST_NAMESPACE op) →
      ir_implementation o = UUID (codes (hv_id (approval_record a))) →
      implementation_outcome p op package revision now d d' o
  | io_raced a g r : Authorized policy_version p package revision false now d a g → ir_status o = im_APPLIED → d' = d →
      r ∈ task_requests d → w_operation_id r = op →
      w_digest r = _digest package (implementation_intent (intent_of a g p package revision)) →
      ir_task o = Some (w_request_id r) → implementation_outcome p op package revision now d d' o.

Lemma replayed_outcome p op package revision now q r o d :
  stored_view q r d → replayed p package revision q = Ok o → implementation_outcome p op package revision now d d o.
Proof.
  intros [Hr (i & Hi & ->)] Hrep. destruct (row_view_fields r i Hi) as (F1 & F2 & F3 & F4 & F5 & F6 & F7 & F8 & F9).
  unfold replayed in Hrep. rewrite F1, F3, F5, F6 in Hrep.
  destruct (eqb (w_kind r) IMPLEMENTATION && _ && _ && _) eqn:E; cbn in Hrep; [|injection Hrep as <-; by apply io_refused].
  destruct (sent_by p _) eqn:Es; cbn in Hrep; [|injection Hrep as <-; by apply io_refused].
  apply success_Ok in Hrep as (E1 & E2 & _). rewrite F2 in E2. rewrite !andb_true_iff, !eqb_true in E.
  destruct E as [[[K1 K2] K3] K4]. apply (io_replayed _ _ _ _ _ _ _ _ r (row_view r i)); try done. split; [done|by exists i].
Qed.

Lemma refused_admission s reason : succeeded (refusal (admission_status s) reason) = false.
Proof. by destruct s. Qed.

Lemma contract_id_of a package :
  contract_id (result_contract_of a package) =
  match UUID (codes (hv_id (approval_record a))) with
  | Some u => Ok u
  | None => raise ValueError "badly formed hexadecimal UUID string"
  end.
Proof. done. Qed.

Lemma wp_admit p op package revision missed now a g d :
  TInv d → Authorized policy_version p package revision false now d a g →
  wp (admit_task p op package revision None missed now a g)
     (λ o d', implementation_outcome p op package revision now d d' o) d.
Proof.
  intros Hd Ha. unfold admit_task. wp_step. eapply wp_mono; [by apply wp_get_implementation|]. intros stable d0 [-> Hst].
  destruct (q_request stable) as [q|] eqn:Hq.
  - destruct (Hst q eq_refl) as (r & Hi & Hv). destruct (sent_by p q) eqn:Es; cbn [negb]; [|by apply wp_ret, io_refused].
    wp_step. rename select (_success _ _ = Ok _) into Hs. apply success_Ok in Hs as (E1 & E2 & _). pose proof Hv as [Hr (i & Hint & Eq)].
    destruct (row_view_fields r i Hint) as (F1 & F2 & F3 & _). unfold is_implementation in Hi.
    rewrite !andb_true_iff, !eqb_true in Hi. destruct Hi as [[[[K1 K2] K3] K4] _].
    apply (io_replayed _ _ _ _ _ _ _ _ r q); try done. rewrite E2, Eq. f_equal. exact F2.
  - destruct (negb _); [by apply wp_ret, io_refused|]. change (is_some (@None TaskRunRequest)) with false. cbv iota. wp_step. wp_step.
    rename select (implementation_validate _ = Ok _) into Hval. pose proof (implementation_validate_eq _ _ Hval) as ->. wp_step.
    eapply wp_mono; [apply wp_request; [done | by cbn; rewrite Hval]|]. intros adm d1 Hadm.
    destruct (q_request adm) as [q|] eqn:Eq; [|by inversion Hadm; subst; [apply wp_ret, io_refused; [done | apply refused_admission]|..]].
    destruct (eqb (q_status adm) ts_ok) eqn:Est; cbn [negb]; [rewrite eqb_true in Est|rewrite eqb_false in Est].
    + wp_step. rename select (_success _ _ = Ok _) into Hs. apply success_Ok in Hs as (E1 & E2 & E3 & E4 & E5). destruct Hadm as [-> Hno|r j -> Hr Hop Hj Hdg Ho| -> Ho Hid Hop _ _ _ _].
      * by destruct Hno.
      * rewrite Ho in Eq. injection Eq as <-. destruct (row_view_fields r j Hj) as (_ & F2 & _).
        apply (io_raced _ _ _ _ _ _ _ _ a g r); try done. by rewrite E2, F2.
      * rewrite Ho in Eq. injection Eq as <-. apply (io_applied _ _ _ _ _ _ _ _ a g); try done.
        change (result_contract _) with (result_contract_of a package) in E4. rewrite contract_id_of in E4.
        by destruct (ir_implementation _), (UUID _); simplify_eq.
    + destruct Hadm as [-> Hno|? ? ? ? ? ? ? Ho|? Ho]; [by apply wp_ret, io_refused; [|apply refused_admission]|by rewrite Ho in Est..].
Qed.

(** Conditions answer only refusals. *)
Definition answers_refusals {A} (x : res (ImplementationRequestResult + A)) : Prop :=
  ∀ o, x = Ok (inl o) → succeeded o = false ∧ implementation_shape o = true.

Lemma refusals_refuse {A} s reason :
  mem s [im_APPLIED; im_REPLAYED] = false → answers_refusals (A := A) (refuse s reason).
Proof. intros Hs o [= <-]. by destruct s. Qed.

Lemma refusals_go {A} (a : A) : answers_refusals (go a).
Proof. done. Qed.

Lemma refusals_bind {A B} (x : res A) (f : A → res (ImplementationRequestResult + B)) :
  (∀ a, answers_refusals (f a)) → answers_refusals (a ← x; f a).
Proof. intros Hf o. destruct x as [a|e]; cbn; [apply Hf | done]. Qed.

Lemma refusals_proceed {A B} (x : res (ImplementationRequestResult + A)) (f : A → res (ImplementationRequestResult + B)) :
  answers_refusals x → (∀ a, answers_refusals (f a)) → answers_refusals (proceed x f).
Proof.
  intros Hx Hf o. unfold proceed. destruct x as [[o'|a]|e]; cbn; [intros [= <-]; by apply Hx | apply Hf | done].
Qed.

Ltac refusals := repeat first
  [ apply refusals_proceed; intros | apply refusals_bind; intros | apply refusals_go
  | by apply refusals_refuse | case_match ].

Lemma conditions_refuse p package revision starts now d :
  answers_refusals (conditions policy_version p package revision starts now d).
Proof.
  unfold conditions, package_ready, approval, bound_current, send_authority, reviewed. refusals.
Qed.

Lemma wp_request_body p op package revision missed raced now d :
  TInv d →
  wp (request_body policy_version p op package revision None missed raced now)
     (λ o d', implementation_outcome p op package revision now d d' o) d.
Proof.
  intros Hd. unfold request_body. wp_step. eapply wp_mono; [by apply wp_get_operation|]. intros replay d0 [-> Hrep].
  destruct (q_request replay) as [q|] eqn:Hq.
  - wp_step. destruct (Hrep q eq_refl) as (r & _ & Hv). by eapply replayed_outcome.
  - destruct (is_none _ && _); [by apply wp_ret, io_refused|]. do 3 wp_step. rename select (conditions _ _ _ _ _ _ _ = Ok _) into Hc. rename a into checked.
    destruct checked as [answer|[a g]].
    + apply wp_ret, io_refused; [done|]. by apply conditions_refuse in Hc as [Hc _].
    + apply wp_admit; [done|]. by apply conditions_sound.
Qed.

(** C5: an implementation is requested only under every approval. *)
Theorem implementation_authorized p op package revision missed raced now d d' o :
  TInv d → request policy_version p op package revision missed raced now d = (d', Ok o) →
  implementation_outcome p op package revision now d d' o.
Proof.
  intros Hd. apply (wp_elim _ (λ o d', implementation_outcome p op package revision now d d' o)).
  unfold request. apply wp_catch_transaction; [by apply wp_request_body|]. intros e. by apply wp_ret, io_refused.
Qed.
End theorems.

(** *** The start of a run *)

Section starts.
Context `{ReviewModels.Lax}.

(** The request of a run still has the authority that it was admitted with. *)
Definition still_authorized (r : TaskRow) (active : uuid) (now : Z) (d : TaskDB) : Prop :=
  ∃ policy_version a g, Authorized policy_version (principal g) active (w_revision r) true now d a g ∧
    w_authorization r = Some (authorization_of a) ∧ w_send_authority r = Some (send_ref g (principal g)).

Lemma may_send_principal p package now d g : may_send p package now d g → p = principal g.
Proof. by intros (_ & _ & -> & _). Qed.

(** Admitting a run that starts answers from the stored request. *)
Lemma wp_admit_start p op package revision current now a g d :
  TInv d →
  wp (admit_task p op package revision (Some current) false now a g)
     (λ o d', ir_status o ≠ im_APPLIED ∧ (ir_status o = im_REPLAYED →
        authorization_ref current = Some (authorization_of a) ∧ send_authority_ref current = Some (send_ref g p))) d.
Proof.
  intros Hd. unfold admit_task. destruct (_ || _) eqn:E; [by apply wp_ret|].
  rewrite orb_false_iff, !negb_false_iff, !eqb_true in E. destruct E as [E1 E2].
  wp_step. eapply wp_mono; [by apply wp_get_implementation|]. intros stable d0 _.
  destruct (q_request stable) as [q|].
  - destruct (negb _); [by apply wp_ret|]. wp_step. rename select (_success _ _ = Ok _) into Hs.
    by apply success_Ok in Hs as (-> & _).
  - destruct (negb _); by apply wp_ret.
Qed.

(** The body for a run that starts succeeds only under all conditions. *)
Lemma wp_starting_body policy_version p op package revision current now d :
  TInv d →
  wp (request_body policy_version p op package revision (Some current) false false now)
     (λ o d', ir_status o ≠ im_APPLIED ∧ (ir_status o = im_REPLAYED →
        ∃ a g, Authorized policy_version p package revision true now d a g ∧
          authorization_ref current = Some (authorization_of a) ∧ send_authority_ref current = Some (send_ref g p))) d.
Proof.
  intros Hd. set (Q := λ o d', _). unfold request_body. wp_step.
  eapply wp_mono; [by apply (wp_get_operation false)|]. intros replay d0 [-> _].
  assert (Hrest : wp (d ← get_st; checked ← lift (conditions policy_version p package revision true now d);
    match checked with
    | inl answer => mret answer
    | inr (a, g) => admit_task p op package revision (Some current) false now a g
    end) Q d).
  { do 3 wp_step. rename select (conditions _ _ _ _ _ _ _ = Ok _) into Hc. rename a into checked.
    destruct checked as [answer|[a g]].
    - apply conditions_refuse in Hc as [Hc _]. apply wp_ret. unfold Q, succeeded in *. by destruct (ir_status answer).
    - apply conditions_sound in Hc. eapply wp_mono; [by apply wp_admit_start|]. intros o d' [H1 H2]. split; [done|].
      intros Hr. destruct (H2 Hr). by exists a, g. }
  destruct (q_request replay); [exact Hrest|]. destruct (is_none _ && _); [by apply wp_ret | exact Hrest].
Qed.

Lemma may_still_start_sound policy now row i d :
  TInv d → row_intent row = Ok i → may_still_start policy now row (row_view row i) d = Ok None →
  still_authorized row (w_execution row) now d.
Proof.
  intros Hd Hi. destruct (row_view_fields row i Hi) as (F1 & F2 & F3 & F4 & F5 & F6 & F7 & F8 & F9).
  unfold may_still_start. destruct (default None _) as [g|]; [|done]. destruct policy as [config|]; cbn; [|done].
  unfold starting. set (v := default _ config).
  pose proof (wp_starting_body v (principal g) (w_operation_id row) (execution_work_id (row_view row i))
    (observed_revision (row_view row i)) (row_view row i) now d Hd) as Hw.
  unfold wp in Hw. unfold catch. destruct (request_body _ _ _ _ _ _ _ _ _ d) as [d' [o|e]].
  - cbn. destruct Hw as [Hna Hw]. destruct (ir_status o) eqn:Es; try done. intros _.
    destruct (Hw eq_refl) as (a & g' & Ha & H1 & H2). rewrite F1, F6 in Ha. rewrite F7 in H1. rewrite F8 in H2.
    exists v, a, g'. rewrite <- (may_send_principal _ _ _ _ _ (au_grant _ _ _ _ _ _ _ _ _ Ha)). done.
  - by destruct (existsb _ _).
Qed.

Lemma may_still_start_refuses policy now : refuses (may_still_start policy now).
Proof.
  intros r q d s reason. unfold may_still_start. destruct (default None _) as [g|]; [|by intros [= <- _]].
  destruct policy as [config|]; cbn; [|done]. unfold starting. destruct ((_ d).2) as [o|]; cbn; [|done].
  destruct (ir_status o); intros [= <- _]; done.
Qed.

(** C12: a run starts an implementation only while every approval stands. *)
Theorem implementation_starts policy now0 id active run now d d' o :
  TInv d → bind_start (may_still_start policy now0) id active run now d = (d', Ok o) → b_status o = ts_ok →
  ∃ r, r ∈ task_requests d ∧ w_request_id r = id ∧ w_execution r = active ∧
    (w_kind r = IMPLEMENTATION → still_authorized r active now0 d).
Proof.
  intros Hd Hb Hs. assert (Hout : bind_outcome (may_still_start policy now0) id active run now d d' o).
  { refine (wp_elim _ (λ o d', bind_outcome (may_still_start policy now0) id active run now d d' o) d d' o _ Hb).
    by apply wp_bind_start; [apply may_still_start_refuses|]. }
  destruct Hout as [|r i Hr Hid Hex Hi Hm _ _]; [done|]. exists r. split_and!; try done. intros Hk.
  rewrite <- Hex. by apply (may_still_start_sound policy now0 r i d Hd Hi), Hm.
Qed.
End starts.

(** ** Witnesses *)

Section witnesses.
#[local] Existing Instance ReviewSystem.strict_lax.

Definition ex_impl_package : uuid := ReviewSystem.ex_subject.
Definition ex_impl_revision : string := ReviewSystem.ex_revision.
Definition ex_impl_work : CurrentWork :=
  mkWork ex_impl_package "First" false "" 1 None None (Some "Task"%string) (Some "CURRENT"%string)
    None None None None None None None None None.

Definition ex_approved_consequence : HumanReviewConsequence :=
  mkConsequence ex_impl_package ex_impl_revision ["parser"%string] "main" ["deploy"%string] READY_FOR_IMPLEMENTATION_ONLY
    None None None.
Definition ex_approved_row : ReviewRow := Eval vm_compute in
  mkReview (consequence_id ex_approved_consequence) ex_impl_package ex_impl_revision (digest ex_approved_consequence)
    ex_approved_consequence (Some APPROVED) READY_FOR_IMPLEMENTATION (Datetime 5 (Some 0)) (Some (Datetime 6 (Some 0))).

Definition ex_caller : PrincipalContext := mkPrincipal "iss" "sub" "client" authenticated.
Definition ex_impl_grant : WorkGrant :=
  mkGrant "g7" 4 ex_caller (mkAuthority ex_impl_package []) launch [implementation_request] "iss" "prov"
    (Datetime 1000 (Some 0)) g_active None None None None None None.

(** The package, approved by a human and reviewed with a PASS. *)
Definition ex_impl_store : StoreDB := Eval vm_compute in
  let q := ReviewModels.mkReviewRequest ex_impl_package ex_impl_revision ReviewModels.IMPLEMENTATION None
             ReviewModels.FULL None [] None in
  let s0 := mkStore (Messages.mkMsgDB [] [] false
      (Mailboxes.mkMailboxDB [ReviewSystem.ex_author; ReviewSystem.ex_auditor] ∅)
      (GrantState.mkDB {[principal_key ex_caller := Some ex_impl_grant]} ∅)
      (WorkState.mkStateDB [Controller.mkHandle ex_impl_package "postgres" ex_impl_package] []) [])
    (mkReviewDB (mkTracker {[ex_impl_package := mkWorkRow ex_impl_work "first"]} ∅ [] ∅ ∅ ∅ ∅) [ex_approved_row]) ∅ ∅ in
  let asked := ReviewService.request (λ s, s) "policy-1" "guide-1" ReviewSystem.ex_guidelines ReviewSystem.alone
                 ReviewSystem.ex_clock q ReviewSystem.ex_author s0 in
  let o := ReviewSystem.result_of asked.2 in
  (ReviewService.submit "policy-1" ReviewSystem.alone ReviewSystem.ex_clock
     (ReviewModels.mkReviewSubmit (default "" (ReviewService.rr_review o)) ReviewModels.PASS [] []
        ReviewModels.UNSEEDED None) ReviewSystem.ex_auditor
     (ReviewSystem.received (default "" (ReviewService.rr_delivery o)) 3 asked.1)).1.

Definition ex_impl0 : TaskDB := mkTaskDB ex_impl_store [] [] [] [] [].
Definition ex_impl_op : uuid := "00000000-0000-4000-8000-0000000000d1".
Definition ex_applied : TaskDB * res ImplementationRequestResult := Eval vm_compute in
  request "policy-1" ex_caller ex_impl_op ex_impl_package ex_impl_revision false false 20 ex_impl0.
Definition ex_start : TaskDB * res TaskRunBindResult := Eval vm_compute in
  bind_start (may_still_start (Ok (Some "policy-1"%string)) 30) (uuid5 REQUEST_NAMESPACE ex_impl_op) ex_impl_package
    "00000000-0000-4000-8000-0000000000e1" 31 ex_applied.1.

Definition ex_impl_result : ImplementationRequestResult := Eval vm_compute in
  match ex_applied.2 with Ok o => o | Err _ => refusal im_UNKNOWN "" end.
Definition ex_impl_intent : TaskIntent := Eval vm_compute in
  match conditions "policy-1" ex_caller ex_impl_package ex_impl_revision false 20 ex_impl0 with
  | Ok (inr (a, g)) => implementation_intent (intent_of a g ex_caller ex_impl_package ex_impl_revision)
  | _ => agent_intent ex_task
  end.

Lemma ex_impl0_inv : TInv ex_impl0.
Proof. apply TInv_init. Qed.

Lemma ex_applied_inv : TInv ex_applied.1.
Proof.
  replace ex_applied.1 with (admitted ex_impl_package ex_impl_op ex_impl_intent 20 ex_impl0) by (vm_compute; reflexivity).
  apply TInv_admitted; [exact ex_impl0_inv | vm_compute; reflexivity | apply not_elem_of_nil | apply not_elem_of_nil].
Qed.

Lemma implementation_authorized_witness :
  ir_status ex_impl_result = im_APPLIED ∧
  implementation_outcome "policy-1" ex_caller ex_impl_op ex_impl_package ex_impl_revision 20 ex_impl0 ex_applied.1
    ex_impl_result.
Proof.
  split; [vm_compute; reflexivity|].
  apply (implementation_authorized "policy-1" ex_caller ex_impl_op ex_impl_package ex_impl_revision false false 20 ex_impl0).
  - exact ex_impl0_inv.
  - vm_compute. reflexivity.
Defined.

Lemma implementation_starts_witness :
  w_kind <$> task_requests ex_applied.1 = [IMPLEMENTATION] ∧
  ∃ r, r ∈ task_requests ex_applied.1 ∧ w_request_id r = uuid5 REQUEST_NAMESPACE ex_impl_op ∧
    w_execution r = ex_impl_package ∧ (w_kind r = IMPLEMENTATION → still_authorized r ex_impl_package 30 ex_applied.1).
Proof.
  split; [vm_compute; reflexivity|].
  apply (implementation_starts (Ok (Some "policy-1"%string)) 30 (uuid5 REQUEST_NAMESPACE ex_impl_op) ex_impl_package
    "00000000-0000-4000-8000-0000000000e1" 31 ex_applied.1 ex_start.1
    (mkBindResult ts_ok (Some (uuid5 REQUEST_NAMESPACE ex_impl_op, "00000000-0000-4000-8000-0000000000e1"%string)) None)).
  - exact ex_applied_inv.
  - vm_compute. reflexivity.
  - reflexivity.
Defined.
End witnesses.
