(* ===== verification/Threads.v ===== *)
(** * Requests that run side by side

    A request is a program over the calls it makes: what it does between two
    calls happens at once, and between its calls others run.  [Proc] is the
    monad such programs are written in, with local variables that survive an
    exception; [step] interleaves any number of them over one world, where a
    program may also die between two calls.  [safe] is the proof rule: a thread
    relies on what the others keep ([R]) and, at each of its own calls, keeps
    what they rely on. *)

From S2P Require Import Prelude.

(** ** Programs *)

Inductive prog (F : Type → Type) (A : Type) : Type :=
  | Ret (a : A)
  | Do (B : Type) (c : F B) (k : res B → prog F A).
Arguments Ret {_ _} _.
Arguments Do {_ _ _} _ _.

Section programs.
Context {F : Type → Type}.

Fixpoint prog_bind {A B} (p : prog F A) (f : A → prog F B) : prog F B :=
  match p with
  | Ret a => f a
  | Do c k => Do c (λ r, prog_bind (k r) f)
  end.

(** A program with local variables [V] that returns or raises. *)
Definition Proc (V A : Type) : Type := V → prog F (V * res A).

#[export] Instance Proc_ret {V} : MRet (Proc V) := λ A a v, Ret (v, Ok a).
#[export] Instance Proc_bind {V} : MBind (Proc V) := λ A B f m v,
  prog_bind (m v) (λ x, match x with
    | (v', Ok a) => f a v'
    | (v', Err e) => Ret (v', Err e)
    end).

Definition call {V A} (c : F A) : Proc V A := λ v, Do c (λ r, Ret (v, r)).
Definition returns {V A} (r : res A) : Proc V A := λ v, Ret (v, r).
Definition raises {V A} (c : exn_class) (msg : string) : Proc V A := returns (raise c msg).
Definition assign {V} (f : V → V) : Proc V unit := λ v, Ret (f v, Ok tt).
Definition locals {V} : Proc V V := λ v, Ret (v, Ok v).

(** [try: m except ...: h e]; [h] is [None] where no clause matches. *)
Definition handle {V A} (m : Proc V A) (h : exn → option (Proc V A)) : Proc V A := λ v,
  prog_bind (m v) (λ x, match x with
    | (v', Ok a) => Ret (v', Ok a)
    | (v', Err e) => match h e with Some n => n v' | None => Ret (v', Err e) end
    end).

(** [isinstance(e, classes)] *)
Definition is_a (classes : list exn_class) (e : exn) : bool := existsb (exn_isinstance (exn_cls e)) classes.
End programs.
Arguments Proc : clear implicits.

(** ** The interleaved machine *)

Record Sys (F : Type → Type) (Q A W : Type) := mkSys {
  world : W;
  threads : gmap nat (Q * option (prog F A)) }.
Arguments mkSys {_ _ _ _} _ _.
Arguments world {_ _ _ _} _.
Arguments threads {_ _ _ _} _.

Section machine.
Context {F : Type → Type} {Q A W : Type}.
(** The effect of a call of a thread, when it can proceed, what the death of a
    thread does to the world, what others may do, and the program of a
    request. *)
Context (perform : nat → ∀ B, F B → W → W * res B) (ready : nat → ∀ B, F B → W → bool).
Context (crash : nat → W → W) (others : W → W → Prop) (code : Q → prog F A).

Inductive step : Sys F Q A W → Sys F Q A W → Prop :=
  | step_start s t q :
      threads s !! t = None →
      step s (mkSys (world s) (<[t := (q, Some (code q))]> (threads s)))
  | step_call s t q B (c : F B) k w r :
      threads s !! t = Some (q, Some (Do c k)) → ready t B c (world s) = true →
      perform t B c (world s) = (w, r) →
      step s (mkSys w (<[t := (q, Some (k r))]> (threads s)))
  | step_crash s t q p :
      threads s !! t = Some (q, Some p) →
      step s (mkSys (crash t (world s)) (<[t := (q, None)]> (threads s)))
  | step_others s w : others (world s) w → step s (mkSys w (threads s)).

Definition reachable (w0 : W) : Sys F Q A W → Prop := rtc step (mkSys w0 ∅).

(** Execution under a schedule: which thread starts, goes on or dies next. *)
Inductive Action := a_start (t : nat) (q : Q) | a_call (t : nat) | a_crash (t : nat).

Definition act (a : Action) (s : Sys F Q A W) : option (Sys F Q A W) :=
  match a with
  | a_start t q =>
      match threads s !! t with
      | None => Some (mkSys (world s) (<[t := (q, Some (code q))]> (threads s)))
      | Some _ => None
      end
  | a_call t =>
      match threads s !! t with
      | Some (q, Some (Do c k)) =>
          if ready t _ c (world s) then
            let '(w, r) := perform t _ c (world s) in Some (mkSys w (<[t := (q, Some (k r))]> (threads s)))
          else None
      | _ => None
      end
  | a_crash t =>
      match threads s !! t with
      | Some (q, Some _) => Some (mkSys (crash t (world s)) (<[t := (q, None)]> (threads s)))
      | _ => None
      end
  end.

Fixpoint schedule (l : list Action) (s : Sys F Q A W) : option (Sys F Q A W) :=
  match l with
  | [] => Some s
  | a :: l' => s' ← act a s; schedule l' s'
  end.

Lemma act_step a s s' : act a s = Some s' → step s s'.
Proof.
  destruct a as [t q|t|t]; cbn; intros H.
  - destruct (threads s !! t) eqn:E; [done|]. injection H as <-. by apply step_start.
  - destruct (threads s !! t) as [[q [[a|B c k]|]]|] eqn:E; try done. destruct (ready _ _ _ _) eqn:Er; [|done].
    destruct (perform _ _ _ _) as [w r] eqn:Ep. injection H as <-. by eapply step_call.
  - destruct (threads s !! t) as [[q [p|]]|] eqn:E; try done. injection H as <-. by eapply step_crash.
Qed.

Lemma schedule_reachable w0 l s : schedule l (mkSys w0 ∅) = Some s → reachable w0 s.
Proof.
  unfold reachable. generalize (mkSys (F := F) (Q := Q) (A := A) w0 ∅). induction l as [|a l IH]; cbn; intros s1 H.
  - injection H as <-. apply rtc_refl.
  - destruct (act a s1) as [s2|] eqn:E; [|done]. eapply rtc_l; [by eapply act_step | by apply IH].
Qed.

(** ** The rule *)

(** [R t]: what thread [t] relies on.  [Inv] holds of every world, [Local] of
    what a thread has done so far, [Idle] of a thread that has not begun. *)
Context (R : nat → W → W → Prop) (Inv : W → Prop) (Local : nat → Q → W → Prop) (Idle : nat → W → Prop).

Definition keeps (t : nat) (w w' : W) : Prop := Inv w' ∧ ∀ t', t' ≠ t → R t' w w'.

Fixpoint safe (t : nat) (q : Q) {C} (p : prog F C) (Φ : C → W → Prop) (w : W) : Prop :=
  match p with
  | Ret a => ∀ w1, R t w w1 → Inv w1 → Local t q w1 → Φ a w1
  | Do c k => ∀ w1, R t w w1 → Inv w1 → Local t q w1 → ready t _ c w1 = true → ∀ w2 r, perform t _ c w1 = (w2, r) →
      keeps t w1 w2 ∧ Local t q w2 ∧ safe t q (k r) Φ w2
  end.

Lemma safe_rely t q {C} (p : prog F C) Φ w w' :
  (∀ w1 w2 w3, R t w1 w2 → R t w2 w3 → R t w1 w3) → R t w w' → safe t q p Φ w → safe t q p Φ w'.
Proof. intros HT HR. destruct p; cbn; intros H w1 H1; apply (H w1); by apply (HT w w'). Qed.

Lemma safe_mono t q {C} (p : prog F C) (Φ Ψ : C → W → Prop) w :
  (∀ a w', Φ a w' → Ψ a w') → safe t q p Φ w → safe t q p Ψ w.
Proof.
  intros H. revert w. induction p as [a|B c k IH]; cbn; [eauto|].
  intros w Hs w1 H1 H2 H3 H4 w2 r E. destruct (Hs w1 H1 H2 H3 H4 w2 r E) as (? & ? & ?). eauto.
Qed.

Lemma safe_bind t q {C D} (p : prog F C) (f : C → prog F D) Φ w :
  (∀ w1, R t w1 w1) → safe t q p (λ a, safe t q (f a) Φ) w → safe t q (prog_bind p f) Φ w.
Proof.
  intros HR. revert w. induction p as [a|B c k IH]; cbn; intros w H.
  - destruct (f a) eqn:E; cbn in *; intros w1 H1 H2 H3; by apply (H w1 H1 H2 H3 w1).
  - intros w1 H1 H2 H3 H4 w2 r E. destruct (H w1 H1 H2 H3 H4 w2 r E) as (? & ? & ?). eauto.
Qed.

(** What a program ends in still holds after others have moved. *)
Lemma safe_closed t q {C} (p : prog F C) (Φ : C → W → Prop) w :
  (∀ w1 w2 w3, R t w1 w2 → R t w2 w3 → R t w1 w3) → safe t q p Φ w →
  safe t q p (λ a w1, ∀ w2, R t w1 w2 → Inv w2 → Local t q w2 → Φ a w2) w.
Proof.
  intros HT. revert w. induction p as [a|B c k IH]; cbn.
  - intros w H w1 H1 _ _ w2 H2. apply H. by apply (HT w w1).
  - intros w Hs w1 H1 H2 H3 H4 w2 r E. destruct (Hs w1 H1 H2 H3 H4 w2 r E) as (? & ? & ?). eauto.
Qed.

(** ** Every reachable state *)

Section adequacy.
#[local] Set Default Proof Using "Type*".
Context (R_refl : ∀ t w, R t w w) (R_trans : ∀ t w1 w2 w3, R t w1 w2 → R t w2 w3 → R t w1 w3).
Context (Local_R : ∀ t q w w', R t w w' → Local t q w → Local t q w')
  (Idle_R : ∀ t w w', R t w w' → Idle t w → Idle t w').
Context (Φ : nat → Q → A → W → Prop).
Context (start_ok : ∀ t q w, Inv w → Idle t w → Local t q w ∧ safe t q (code q) (Φ t q) w)
  (crash_ok : ∀ t q w, Inv w → Local t q w → keeps t w (crash t w) ∧ Local t q (crash t w))
  (others_ok : ∀ w w', Inv w → others w w' → Inv w' ∧ ∀ t, R t w w').

Definition holds (s : Sys F Q A W) : Prop :=
  Inv (world s) ∧ (∀ t, threads s !! t = None → Idle t (world s)) ∧
  ∀ t q o, threads s !! t = Some (q, o) →
    Local t q (world s) ∧ ∀ p, o = Some p → safe t q p (Φ t q) (world s).

(** A step of thread [t] that keeps what the others rely on. *)
Lemma holds_thread s t q o w' :
  holds s → is_Some (threads s !! t) → keeps t (world s) w' → Local t q w' →
  (∀ p, o = Some p → safe t q p (Φ t q) w') → holds (mkSys w' (<[t := (q, o)]> (threads s))).
Proof.
  intros (Hi & Hn & Ht) [x Hx] [Hk1 Hk2] Hl Ho. split; [done|]. split; cbn.
  - intros t' [Hn' Hne]%lookup_insert_None. apply (Idle_R t' (world s)); auto.
  - intros t' q' o'. destruct (decide (t' = t)) as [->|Hne].
    + rewrite lookup_insert_eq. by intros [= <- <-].
    + rewrite lookup_insert_ne by done. intros H. destruct (Ht _ _ _ H) as [H1 H2].
      split; [by apply (Local_R t' q' (world s)); auto|].
      intros p ->. eapply safe_rely; [apply R_trans | by apply Hk2 | by apply H2].
Qed.

Lemma holds_step s s' : holds s → step s s' → holds s'.
Proof.
  intros Hs Hstep. pose proof Hs as (Hi & Hn & Ht). destruct Hstep as [s t q E|s t q B c k w r E Hr Hp|s t q p E|s w Hw].
  - split; [done|]. split; cbn.
    + intros t' [? _]%lookup_insert_None. by apply Hn.
    + intros t' q' o'. destruct (decide (t' = t)) as [->|Hne].
      * rewrite lookup_insert_eq. intros [= <- <-]. destruct (start_ok t q (world s)) as [? ?]; auto.
        split; [done|]. by intros p [= <-].
      * rewrite lookup_insert_ne by done. apply Ht.
  - destruct (Ht _ _ _ E) as [Hl Hs1]. specialize (Hs1 _ eq_refl). cbn in Hs1.
    destruct (Hs1 (world s) (R_refl _ _) Hi Hl Hr w r Hp) as (? & ? & ?).
    apply holds_thread; [done | by rewrite E | done..|]. by intros p [= <-].
  - destruct (Ht _ _ _ E) as [Hl _]. destruct (crash_ok t q (world s) Hi Hl) as [? ?].
    by apply holds_thread; [| rewrite E|..].
  - destruct (others_ok _ _ Hi Hw) as [Hi' HR]. split; [done|].
    split; cbn; [intros t E; by apply (Idle_R t (world s)); auto|].
    intros t q o E. destruct (Ht _ _ _ E) as [? Hs1]. split; [by apply (Local_R t q (world s))|]. intros p ->. eapply safe_rely; [apply R_trans | by apply HR | by apply Hs1].
Qed.

Theorem reachable_holds w0 s : Inv w0 → (∀ t, Idle t w0) → reachable w0 s → holds s.
Proof.
  intros Hi Hn. unfold reachable. apply rtc_ind_r; [|eauto using holds_step].
  split; [done|]. split; [eauto|]. cbn. intros t q o. by rewrite lookup_empty.
Qed.
End adequacy.
End machine.

(** ** Programs of [Proc] *)

Section procs.
Context {F : Type → Type} {Q V W : Type}.
Context (perform : nat → ∀ B, F B → W → W * res B) (ready : nat → ∀ B, F B → W → bool).
Context (R : nat → W → W → Prop) (Inv : W → Prop) (Local : nat → Q → W → Prop).
Context (t : nat) (q : Q).

(** [m], started with the variables [v], is safe and ends in [Φ]. *)
Definition runs {A} (m : Proc F V A) (Φ : V → res A → W → Prop) (v : V) (w : W) : Prop :=
  safe perform ready R Inv Local t q (m v) (λ x, Φ x.1 x.2) w.

Context (R_refl : ∀ w, R t w w).

Lemma runs_ret {A} (a : A) (Φ : V → res A → W → Prop) v w :
  (∀ w1, R t w w1 → Inv w1 → Local t q w1 → Φ v (Ok a) w1) → runs (mret a) Φ v w.
Proof. done. Qed.

Lemma runs_returns {A} (r : res A) (Φ : V → res A → W → Prop) v w :
  (∀ w1, R t w w1 → Inv w1 → Local t q w1 → Φ v r w1) → runs (returns r) Φ v w.
Proof. done. Qed.

(** An exception of [m] passes by the rest. *)
Lemma runs_bind {A B} (m : Proc F V A) (f : A → Proc F V B) (Φ : V → res B → W → Prop) v w :
  runs m (λ v1 r w1, match r with Ok a => runs (f a) Φ v1 w1 | Err e => runs (returns (Err e)) Φ v1 w1 end) v w →
  runs (m ≫= f) Φ v w.
Proof using R_refl.
  intros H. unfold runs, mbind, Proc_bind. apply safe_bind; [done|].
  revert H. unfold runs. apply safe_mono. by intros [v1 [a|e]] w1 H.
Qed.

Lemma runs_handle {A} (m : Proc F V A) (h : exn → option (Proc F V A)) (Φ : V → res A → W → Prop) v w :
  runs m (λ v1 r w1, match r with
    | Ok a => runs (mret a) Φ v1 w1
    | Err e => match h e with Some n => runs n Φ v1 w1 | None => runs (returns (Err e)) Φ v1 w1 end
    end) v w →
  runs (handle m h) Φ v w.
Proof using R_refl.
  intros H. unfold runs, handle. apply safe_bind; [done|].
  revert H. unfold runs. apply safe_mono. intros [v1 [a|e]] w1 H; cbn in *; [done|]. by destruct (h e).
Qed.

Lemma runs_call {A} (c : F A) (Φ : V → res A → W → Prop) v w :
  (∀ w1, R t w w1 → Inv w1 → Local t q w1 → ready t _ c w1 = true → ∀ w2 r, perform t _ c w1 = (w2, r) →
    keeps R Inv t w1 w2 ∧ Local t q w2 ∧ (∀ w3, R t w2 w3 → Inv w3 → Local t q w3 → Φ v r w3)) →
  runs (call c) Φ v w.
Proof. done. Qed.

(** A call and what follows it. *)
Lemma runs_call_bind {A B} (c : F A) (f : A → Proc F V B) (Φ : V → res B → W → Prop) v w :
  (∀ w1, R t w w1 → Inv w1 → Local t q w1 → ready t _ c w1 = true → ∀ w2 r, perform t _ c w1 = (w2, r) →
    keeps R Inv t w1 w2 ∧ Local t q w2 ∧
    match r with Ok a => runs (f a) Φ v w2 | Err e => runs (returns (Err e)) Φ v w2 end) →
  runs (call c ≫= f) Φ v w.
Proof.
  intros H w1 H1 H2 H3 H4 w2 r E. destruct (H w1 H1 H2 H3 H4 w2 r E) as (Hk & Hl & Hr).
  split; [done|]. split; [done|]. by destruct r.
Qed.

Lemma runs_assign (f : V → V) (Φ : V → res unit → W → Prop) v w :
  (∀ w1, R t w w1 → Inv w1 → Local t q w1 → Φ (f v) (Ok tt) w1) → runs (assign f) Φ v w.
Proof. done. Qed.

Lemma runs_mono {A} (m : Proc F V A) (Φ Ψ : V → res A → W → Prop) v w :
  (∀ v1 r w1, Φ v1 r w1 → Ψ v1 r w1) → runs m Φ v w → runs m Ψ v w.
Proof. intros H. unfold runs. apply safe_mono. intros [v1 r] w1. apply H. Qed.
End procs.
