(* ===== verification/ProviderGateways.v ===== *)
(** * The gateways to external providers
    ([tracker/appends.py], [updates.py], [provider_relations.py], [creates.py])

    An append, a scalar update, a change of relations and a creation of work
    whose source is an external provider.  Nothing that a provider does can be
    rolled back, so each gateway writes its intent to the effect journal
    before it sends, and resolves it after.  A request is a program of
    [Threads]: its calls of the database and of the providers are the points
    where other requests run, fail or die. *)

From S2P Require Import Prelude Threads Json Contracts Grants GrantState Controller WorkState.
From S2P Require Import MutationEffect Tracker Store Gateways.

Local Open Scope Z_scope.

(** ** Calls *)

(** [ProviderRelation] of [core.py]. *)
Record ProviderRelation := mkProviderRelation {
  pl_kind : string; pl_action : string; pl_target_gid : option string; pl_assignee_gid : option string;
  pl_project_gid : option string; pl_section_gid : option string }.

#[export] Instance ProviderRelation_eq_dec : EqDecision ProviderRelation.
Proof. solve_decision. Defined.

(** What is sent to a provider. *)
Inductive Mutation :=
  | m_append (provider task_gid text : string)
  | m_create (provider title notes : string) (parent_task_gid project_gid : option string)
  | m_update (provider task_gid : string) (patch : Patch)
  | m_relation (provider task_gid : string) (patch : ProviderRelation).

(** The calls of a gateway: the grants and the journal ([GrantState]), the
    handles ([PostgresState]), the clock and the providers.  A call that sends
    a mutation names the operation it is sent for. *)
Inductive Call : Type → Type :=
  | Locked (key : string) (work : option uuid) : Call (option WorkGrant)
  | Commit : Call unit
  | Rollback : Call unit
  | Exact (op : uuid) : Call (option EffectRecord)
  | Previous (op work : uuid) : Call (option (string * string * GuardOutcome))
  | Unresolved_create (parent : uuid) : Call bool
  | Prepare (intent : json) (g : WorkGrant) (fp : string) (unknown : GuardOutcome) : Call unit
  | Finish (o : GuardOutcome) : Call unit
  | Get (work : uuid) : Call (option Handle)
  | Bind_reserved (work : uuid) (provider task_gid : string) : Call Handle
  | Now : Call Z
  | Get_task (provider task_gid : string) : Call (option ProviderWork)
  | Source_task (provider task_gid : string) : Call (option ProviderSourceTask)
  | Source_story (provider task_gid story_gid : string) : Call (option ProviderSourceStory)
  | Relation_matches (provider task_gid : string) (patch : ProviderRelation) : Call bool
  | Recovery_identity (provider : string) : Call string
  | Recover_created (provider : string) (parent : option string) (op : uuid) (project : option string)
      : Call (option string)
  | Append_story (op : uuid) (provider task_gid text : string) : Call (option string)
  | Create_work (op : uuid) (provider title notes : string) (parent project : option string) : Call string
  | Update_task (op : uuid) (provider task_gid : string) (patch : Patch) : Call unit
  | Update_relation (op : uuid) (provider task_gid : string) (patch : ProviderRelation) : Call unit.

(** The methods a provider has, and the [failure] of a [ProviderError]. *)
Record Providers := mkProviders {
  known : string → bool;              (* [name in self.providers] *)
  creates : string → bool;            (* [hasattr(provider, "create_work")] *)
  recovers : string → bool;           (* "recover_created" and "recovery_identity" *)
  relates : string → bool;            (* "update_relation" and "relation_matches" *)
  failure : exn → ProviderFailure }.

(** A request of a gateway: it ends in an outcome or an exception. *)
Abbreviation Request A := (Proc Call Vars A).

Definition set_possible (b : bool) : Request unit := assign (λ v, mkVars b (history_known v)).
Definition set_history : Request unit := assign (λ v, mkVars (possible_send v) true).

(** [effect != "not_sent"] *)
Definition may_be_sent (o : GuardOutcome) : bool := negb (eqb (effect o) not_sent).

(** [async with self.grants.locked(key, work) as grant: body] *)
Definition with_locked (key : string) (work : option uuid) (body : option WorkGrant → Request GuardOutcome)
  : Request GuardOutcome :=
  grant ← call (Locked key work);
  o ← handle (body grant) (λ e, Some (call Rollback;; returns (Err e)));
  call Commit;;
  mret o.

(** [except (...) as e: return guard("unknown", "state_or_effect_unavailable", ...)] *)
Definition guarded (classes : list exn_class) (guard : Guard) (m : Request GuardOutcome) : Request GuardOutcome :=
  handle m (λ e,
    if is_a classes e then
      Some (v ← locals;
            mret (guard o_unknown "state_or_effect_unavailable" (possible_send v || negb (history_known v))))
    else None).

(** From the journal entry to its resolution, around one send. *)
Definition journaled_send (intent : json) (g : WorkGrant) (fp : string) (guard : Guard) (send : Request GuardOutcome)
  : Request GuardOutcome :=
  call (Prepare intent g fp (guard o_unknown "prepared_or_unconfirmed_send" true));;
  set_possible true;;
  now ← call Now;
  o ← (if negb (grant_current g now) then mret (guard o_not_applied "grant_expired_before_send" false) else send);
  call (Finish o);;
  mret o.

(** [except UnknownEffect: ...] and [except ProviderError as error: ...] around
    a send. *)
Definition refused_or (P : Providers) (guard : Guard) (uncertain : Request GuardOutcome) (e : exn)
  : option (Request GuardOutcome) :=
  if is_a [UnknownEffect] e then Some uncertain
  else if is_a [ProviderError] e then
    Some (mret (guard o_not_applied (provider_rejection_reason (failure P e)) false))
  else None.

(** The result of a send: what follows it, or what its exception clauses do. *)
Definition try_send {A} (send : Request A) (h : exn → option (Request GuardOutcome)) (next : A → Request GuardOutcome)
  : Request GuardOutcome :=
  x ← handle (a ← send; mret (inl a)) (λ e, (λ m, o ← m; mret (inr o)) <$> h e);
  match x with inl a => next a | inr o => mret o end.

(** The receipt's head for a grant that is known by its row. *)
Definition head_of (p : PrincipalContext) (op grant : uuid) (version : Z) : ReceiptHead := mkHead op p grant version.

Section gateways.
Context (P : Providers) (nfkc_casefold : string → string).

(** ** Appends *)

(** [AppendGateway.guard] *)
Definition provider_append_guard (q : ProtectedAppend) : Guard :=
  guard_by append_voice (Some (pa_work_id q)) (pa_operation_id q).

Definition task_intent (request : json) (h : Handle) (qualification : string) : list (string * json) :=
  [("request", request); ("provider", JStr (h_provider h)); ("task_gid", JStr (h_provider_work_id h));
   ("qualification", JStr qualification)]%string.

(** The story that was appended is read back. *)
Definition append_confirmed (p : PrincipalContext) (q : ProtectedAppend) (g : WorkGrant) (h : Handle)
    (qualification : string) (gid : option string) : Request GuardOutcome :=
  let unconfirmed := provider_append_guard q o_unknown "effect_readback_unconfirmed" true in
  match gid with
  | None => mret unconfirmed
  | Some gid =>
      let provider := h_provider h in let task_gid := h_provider_work_id h in
      story ← call (Source_story provider task_gid gid);
      task ← call (Source_task provider task_gid);
      match story, task with
      | Some s, Some t =>
          if eqb (story_gid s) gid && eqb (story_task_gid s) task_gid && eqb (story_text s) (Some (pa_text q))
             && pt_canonical t
          then mret (applied_by append_voice (Some (pa_work_id q)) (pa_operation_id q) "exact_effect_verified"
                 "Use the recorded receipt."
                 (EffectReceipt (receipt_head p g (pa_operation_id q)) (pa_work_id q) provider task_gid gid
                    (pa_text q) qualification))
          else mret unconfirmed
      | _, _ => mret unconfirmed
      end
  end.

(** [AppendGateway._send] *)
Definition append_send (p : PrincipalContext) (q : ProtectedAppend) (g : WorkGrant) (h : Handle) (qualification : string)
  : Request GuardOutcome :=
  try_send (call (Append_story (pa_operation_id q) (h_provider h) (h_provider_work_id h) (pa_text q)))
    (refused_or P (provider_append_guard q)
       (mret (provider_append_guard q o_unknown "ambiguous_provider_send" true)))
    (append_confirmed p q g h qualification).

(** An append that is not in the journal. *)
Definition append_new (p : PrincipalContext) (q : ProtectedAppend) (g : WorkGrant) (qualification : string)
  : Request GuardOutcome :=
  let guard := provider_append_guard q in
  h ← call (Get (pa_work_id q));
  match h with
  | None => mret (guard o_denied "work_not_bound" false)
  | Some h =>
      if negb (known P (h_provider h)) then raises KeyError (h_provider h)
      else
        current ← call (Source_task (h_provider h) (h_provider_work_id h));
        match current with
        | None => mret (guard o_not_applied "source_read_unavailable" false)
        | Some current =>
            if negb (pt_canonical current) then mret (guard o_denied "source_not_canonical" false)
            else if pt_completed current then mret (guard o_denied "work_is_terminal" false)
            else if negb (eqb (pa_observed_revision q) (pt_revision current))
            then mret (guard o_stale "source_revision_changed" false)
            else journaled_send (JObj (task_intent (append_json q) h qualification)) g (append_fingerprint p q) guard
                   (append_send p q g h qualification)
        end
  end.

(** What the journal holds about the operation or its target. *)
Definition append_previous (p : PrincipalContext) (q : ProtectedAppend) (previous : string * string * GuardOutcome)
  : Request GuardOutcome :=
  let '(owner, fp, o) := previous in
  set_possible (may_be_sent o);;
  if eqb owner (principal_key p) && eqb fp (append_fingerprint p q) then mret o
  else if eqb (Grants.operation_id o) (Some (pa_operation_id q))
  then mret (provider_append_guard q o_denied "operation_identity_conflict" false)
  else returns (with_blocked_effect (provider_append_guard q o_unknown "target_has_unresolved_effect" false) o).

Definition append_locked (p : PrincipalContext) (q : ProtectedAppend) (grant : option WorkGrant) : Request GuardOutcome :=
  now ← call Now;
  match refuse_grant p now (pa_work_id q) work_append (pa_grant_version q) append_qualification qualified
          "append_not_qualified_for_this_surface" (λ s r, provider_append_guard q s r false) grant with
  | inr o => mret o
  | inl g =>
      previous ← call (Previous (pa_operation_id q) (pa_work_id q));
      set_history;;
      match previous with
      | Some previous => append_previous p q previous
      | None => append_new p q g (default ""%string (append_qualification g))
      end
  end.

(** [AppendGateway.append] *)
Definition append (p : PrincipalContext) (q : ProtectedAppend) : Request GuardOutcome :=
  guarded [SQLAlchemyError; ProviderError; ValueError; KeyError] (provider_append_guard q)
    (with_locked (principal_key p) (Some (pa_work_id q)) (append_locked p q)).

(** ** Updates and relations: [run_update_or_relation] *)

Section lifecycle.
Context (p : PrincipalContext) (q : MutationRequest) (fp : string) (o : MutationOperation) (denial : string)
  (guard : Guard) (prepare : WorkGrant → string → Request (json * Request GuardOutcome + GuardOutcome))
  (reconcile : EffectRecord → Request GuardOutcome).

Definition mutation_recorded (record : EffectRecord) : Request GuardOutcome :=
  set_possible (may_be_sent (er_outcome record));;
  if negb (eqb (er_principal_key record) (principal_key p)) || negb (eqb (er_fingerprint record) fp)
  then mret (guard o_denied "operation_identity_conflict" false)
  else if negb (eqb (effect (er_outcome record)) unknown) then mret (er_outcome record)
  else reconcile record.

Definition mutation_new (g : WorkGrant) (qualification : string) : Request GuardOutcome :=
  blocked ← call (Previous (q_operation_id q) (q_work_id q));
  match blocked with
  | Some (_, _, prior) =>
      returns (with_blocked_effect (guard o_unknown "target_has_unresolved_effect" false) prior)
  | None =>
      prepared ← prepare g qualification;
      match prepared with
      | inr o => mret o
      | inl (intent, send) => journaled_send intent g fp guard send
      end
  end.

Definition mutation_locked (grant : option WorkGrant) : Request GuardOutcome :=
  record ← call (Exact (q_operation_id q));
  set_history;;
  match record with
  | Some record => mutation_recorded record
  | None =>
      now ← call Now;
      match authorize p q o denial guard grant now with
      | inr o => mret o
      | inl (g, qualification) => mutation_new g qualification
      end
  end.

Definition mutation : Request GuardOutcome :=
  guarded caught guard (with_locked (principal_key p) (Some (q_work_id q)) mutation_locked).
End lifecycle.

(** ** Updates *)

Definition provider_update_voice : Voice :=
  mkVoice "work_update" "Retry only this OperationId to reconcile; do not send a new effect."
    "Refresh work/grant or ask the trusted issuer.".

(** [UpdateGateway.guard] *)
Definition provider_update_guard (q : ProtectedUpdate) : Guard :=
  guard_by provider_update_voice (Some (pu_work_id q)) (pu_operation_id q).

(** [apply_scalar] of [core.py]; it sends for an operation, or only reads. *)
Definition send_scalar (send : option uuid) (provider task_gid : string) (patch : Patch)
  : Request (option ProviderWork) :=
  match send with Some op => call (Update_task op provider task_gid patch) | None => mret tt end;;
  work ← handle (call (Get_task provider task_gid)) (λ e,
    if is_a [ProviderError] e then
      Some (if is_some send then raises UnknownEffect "update readback unavailable" else returns (Err e))
    else None);
  mret (match work with
        | Some wk => if pw_canonical wk && patch_matches wk patch then Some wk else None
        | None => None
        end).

(** [UpdateGateway._applied] *)
Definition update_applied (p : PrincipalContext) (q : ProtectedUpdate) (grant : uuid) (version : Z)
    (provider task_gid qualification : string) (work : option ProviderWork) : GuardOutcome :=
  match work with
  | None => provider_update_guard q o_unknown "effect_readback_unconfirmed" true
  | Some wk =>
      applied_by provider_update_voice (Some (pu_work_id q)) (pu_operation_id q) "scalar_state_converged"
        "Use the recorded receipt."
        (UpdateReceipt (head_of p (pu_operation_id q) grant version) (pu_work_id q) provider task_gid
           (pu_observed_revision q) (pw_revision wk) (pu_patch q) qualification)
  end.

(** [UpdateGateway._send] *)
Definition update_send (p : PrincipalContext) (q : ProtectedUpdate) (g : WorkGrant) (h : Handle) (qualification : string)
  : Request GuardOutcome :=
  patch ← returns (WorkPatch_validate (pu_patch q));
  let provider := h_provider h in let task_gid := h_provider_work_id h in
  let finish work := mret (update_applied p q (grant_id g) (version g) provider task_gid qualification work) in
  try_send (send_scalar (Some (pu_operation_id q)) provider task_gid patch)
    (refused_or P (provider_update_guard q) (work ← send_scalar None provider task_gid patch; finish work))
    finish.

(** [UpdateGateway._prepare] *)
Definition update_prepare (p : PrincipalContext) (q : ProtectedUpdate) (g : WorkGrant) (qualification : string)
  : Request (json * Request GuardOutcome + GuardOutcome) :=
  let guard := provider_update_guard q in
  h ← call (Get (pu_work_id q));
  match h with
  | None => mret (inr (guard o_denied "work_not_bound" false))
  | Some h =>
      if negb (known P (h_provider h)) then raises KeyError (h_provider h)
      else
        current ← call (Get_task (h_provider h) (h_provider_work_id h));
        match current with
        | None => mret (inr (guard o_not_applied "source_read_unavailable" false))
        | Some current =>
            if negb (pw_canonical current) then mret (inr (guard o_not_applied "source_read_unavailable" false))
            else if negb (eqb (pw_revision current) (pu_observed_revision q))
            then mret (inr (guard o_stale "source_revision_changed" false))
            else mret (inl (JObj (task_intent (update_json q) h qualification),
                           update_send p q g h qualification))
        end
  end.

(** [intent.get(key)], which must be a text that is not empty. *)
Definition intent_get (key : string) (intent : json) : json :=
  match intent with JObj kvs => default JNull (assoc key kvs) | _ => JNull end.
Definition intent_text (key message : string) (intent : json) : res string :=
  match intent_get key intent with
  | JStr s => if truthy s then Ok s else raise ValueError message
  | _ => raise ValueError message
  end.

(** [UpdateGateway._reconcile] *)
Definition update_reconcile (p : PrincipalContext) (q : ProtectedUpdate) (record : EffectRecord) : Request GuardOutcome :=
  provider ← returns (intent_text "provider" "durable update provider invalid" (er_intent record));
  task_gid ← returns (intent_text "task_gid" "durable update target invalid" (er_intent record));
  qualification ← returns (intent_text "qualification" "durable update intent invalid" (er_intent record));
  patch ← returns (WorkPatch_validate (pu_patch q));
  if negb (known P provider) then raises KeyError provider
  else
    work ← send_scalar None provider task_gid patch;
    let o := update_applied p q (er_grant_id record) (er_grant_version record) provider task_gid qualification work in
    (if eqb (effect o) applied then call (Finish o) else mret tt);;
    mret o.

(** [UpdateGateway.update] *)
Definition update (p : PrincipalContext) (q : ProtectedUpdate) : Request GuardOutcome :=
  mutation p (mkRequest (pu_operation_id q) (pu_work_id q) (pu_grant_version q)) (update_fingerprint p q)
    m_work_update "update_not_qualified_for_this_surface" (provider_update_guard q)
    (update_prepare p q) (update_reconcile p q).

(** ** Relations *)

(** [RelationGateway.guard] *)
Definition provider_relation_guard (q : ProtectedRelation) : Guard :=
  guard_by relation_voice (Some (rl_work_id q)) (rl_operation_id q).

(** [RelationGateway._resolved]: the target's handle, of the same provider. *)
Definition resolved (g : WorkGrant) (provider : string) (q : ProtectedRelation) : Request (option ProviderRelation) :=
  let patch := rl_patch q in
  let relation target :=
    mkProviderRelation (kind_text (kind patch)) (action_text (action patch)) target (assignee_gid patch)
      (project_gid patch) (section_gid patch) in
  if eqb (kind patch) k_pull_request then mret None
  else match target_work_id patch with
  | None => mret (Some (relation None))
  | Some target =>
      if negb (grant_can_read g target true) then mret None
      else
        h ← call (Get target);
        mret (match h with
              | Some h => if eqb (h_provider h) provider then Some (relation (Some (h_provider_work_id h))) else None
              | None => None
              end)
  end.

(** [RelationGateway._applied] *)
Definition relation_applied (p : PrincipalContext) (q : ProtectedRelation) (grant : uuid) (version : Z)
    (provider task_gid qualification : string) : GuardOutcome :=
  applied_by relation_voice (Some (rl_work_id q)) (rl_operation_id q) "relation_state_converged"
    "Use the recorded receipt."
    (RelationReceipt (head_of p (rl_operation_id q) grant version) (rl_work_id q) provider task_gid
       (rl_observed_revision q) (rl_patch q) qualification None).

(** [RelationGateway._send] *)
Definition relation_send (p : PrincipalContext) (q : ProtectedRelation) (g : WorkGrant) (h : Handle)
    (qualification : string) (patch : ProviderRelation) : Request GuardOutcome :=
  let provider := h_provider h in let task_gid := h_provider_work_id h in
  let confirm :=
    matches ← call (Relation_matches provider task_gid patch);
    mret (if negb matches then provider_relation_guard q o_unknown "effect_readback_unconfirmed" true
          else relation_applied p q (grant_id g) (version g) provider task_gid qualification) in
  try_send (call (Update_relation (rl_operation_id q) provider task_gid patch))
    (refused_or P (provider_relation_guard q) confirm) (λ _, confirm).

Definition relation_json (r : ProviderRelation) : json :=
  JObj [("kind", JStr (pl_kind r)); ("action", JStr (pl_action r)); ("target_gid", jopt (pl_target_gid r));
        ("assignee_gid", jopt (pl_assignee_gid r)); ("project_gid", jopt (pl_project_gid r));
        ("section_gid", jopt (pl_section_gid r))]%string.

(** [RelationGateway._prepare] *)
Definition relation_prepare (p : PrincipalContext) (q : ProtectedRelation) (g : WorkGrant) (qualification : string)
  : Request (json * Request GuardOutcome + GuardOutcome) :=
  let guard := provider_relation_guard q in
  if is_some (project_id (rl_patch q)) then mret (inr (guard o_denied "provider_relation_not_supported" false))
  else
    h ← call (Get (rl_work_id q));
    match h with
    | None => mret (inr (guard o_denied "work_not_bound" false))
    | Some h =>
        if negb (known P (h_provider h) && relates P (h_provider h))
        then mret (inr (guard o_denied "provider_relation_not_supported" false))
        else
          current ← call (Get_task (h_provider h) (h_provider_work_id h));
          match current with
          | None => mret (inr (guard o_not_applied "source_read_unavailable" false))
          | Some current =>
              if negb (pw_canonical current) then mret (inr (guard o_not_applied "source_read_unavailable" false))
              else if negb (eqb (pw_revision current) (rl_observed_revision q))
              then mret (inr (guard o_stale "source_revision_changed" false))
              else
                relation ← resolved g (h_provider h) q;
                match relation with
                | None => mret (inr (guard o_denied "relation_target_not_granted" false))
                | Some relation =>
                    mret (inl (JObj (task_intent (relate_json q) h qualification
                                     ++ [("resolved"%string, relation_json relation)]),
                               relation_send p q g h qualification relation))
                end
          end
    end.

(** The values of a recorded relation: texts, the last four optional. *)
Definition json_str (v : json) : res string :=
  match v with JStr s => Ok s | _ => raise TypeError "durable relation intent invalid" end.
Definition json_opt (v : json) : res (option string) :=
  match v with
  | JNull => Ok None
  | JStr s => Ok (Some s)
  | _ => raise TypeError "durable relation intent invalid"
  end.

Definition recorded_relation (intent : json) : res (string * string * string * ProviderRelation) :=
  provider ← json_str (intent_get "provider" intent);
  task_gid ← json_str (intent_get "task_gid" intent);
  qualification ← json_str (intent_get "qualification" intent);
  match intent_get "resolved" intent with
  | JObj values =>
      kind ← json_str (intent_get "kind" (JObj values));
      action ← json_str (intent_get "action" (JObj values));
      target ← json_opt (intent_get "target_gid" (JObj values));
      assignee ← json_opt (intent_get "assignee_gid" (JObj values));
      project ← json_opt (intent_get "project_gid" (JObj values));
      section ← json_opt (intent_get "section_gid" (JObj values));
      Ok (provider, task_gid, qualification, mkProviderRelation kind action target assignee project section)
  | _ => raise TypeError "durable relation intent invalid"
  end.

(** A move between placements is idempotent. *)
Definition is_move (r : ProviderRelation) : bool := eqb (pl_kind r) "placement"%string && eqb (pl_action r) "move"%string.

(** [RelationGateway._reconcile]; a move that did not happen is sent again. *)
Definition relation_reconcile (p : PrincipalContext) (q : ProtectedRelation) (record : EffectRecord)
  : Request GuardOutcome :=
  let guard := provider_relation_guard q in
  x ← returns (recorded_relation (er_intent record));
  let '(provider, task_gid, qualification, relation) := x in
  if negb (known P provider && relates P provider)
  then mret (guard o_unknown "relation_recovery_unavailable" true)
  else
    matches ← call (Relation_matches provider task_gid relation);
    matches ← (if negb matches && is_move relation then
                 handle (call (Update_relation (rl_operation_id q) provider task_gid relation))
                   (λ e, if is_a [UnknownEffect; ProviderError] e then Some (mret tt) else None);;
                 call (Relation_matches provider task_gid relation)
               else mret matches);
    if negb matches then mret (guard o_unknown "effect_readback_unconfirmed" true)
    else
      let o := relation_applied p q (er_grant_id record) (er_grant_version record) provider task_gid qualification in
      call (Finish o);;
      mret o.

(** [RelationGateway.update] *)
Definition relate (p : PrincipalContext) (q : ProtectedRelation) : Request GuardOutcome :=
  mutation p (mkRequest (rl_operation_id q) (rl_work_id q) (rl_grant_version q)) (relation_fingerprint p q)
    m_work_relate "relation_not_qualified_for_this_surface" (provider_relation_guard q)
    (relation_prepare p q) (relation_reconcile p q).

(** ** Creation *)

Definition CREATE_NAMESPACE : uuid := "238ea5f0-fb67-4f46-81b1-560fa39375ce".

(** [CreateGateway.work_id] *)
Definition created_work (op : uuid) : uuid := uuid5 CREATE_NAMESPACE op.

(** [CreateGateway.fingerprint] *)
Definition create_fingerprint (p : PrincipalContext) (q : ProtectedCreate) : string :=
  sha256_hex (dumps false false ", " ": " (JArr [JStr (principal_key p); jopt (parent_work_id q);
    jopt (pc_project_gid q); JInt (pc_grant_version q); JStr (pc_title q); JStr (pc_notes q)])).

(** [legacy_semantics_supported] *)
Definition legacy_semantics_supported (q : ProtectedCreate) : bool :=
  (eqb (pc_priority q) "UNSET" && eqb (pc_work_type q) "UNKNOWN"
   && eqb (pc_lifecycle_state q) "UNKNOWN" && is_none (pc_canonical_root q)
   && is_none (pc_project_id q)
   && eqb (pc_owner_key q) "UNKNOWN" && eqb (pc_wait_kind q) "UNKNOWN"
   && eqb (pc_unblock_condition q) "UNKNOWN" && eqb (pc_next_due q) "UNKNOWN"
   && eqb (pc_next_action_class q) "UNKNOWN" && eqb (pc_next_action_ref q) "UNKNOWN")%string.

Definition create_voice : Voice :=
  mkVoice "work_create" "Retry only this OperationId so Switchstand can reconcile it; do not create again."
    "Refresh admission or ask the trusted issuer.".

(** [CreateGateway.guard] *)
Definition create_guard (q : ProtectedCreate) : Guard :=
  guard_by create_voice (Some (created_work (pc_operation_id q))) (pc_operation_id q).

Definition create_json (q : ProtectedCreate) : json :=
  JObj [("api_version", JStr "1"); ("operation_id", JStr (pc_operation_id q)); ("grant_version", JInt (pc_grant_version q));
        ("title", JStr (pc_title q)); ("notes", JStr (pc_notes q)); ("priority", JStr (pc_priority q));
        ("work_type", JStr (pc_work_type q)); ("lifecycle_state", JStr (pc_lifecycle_state q));
        ("canonical_root", jopt (pc_canonical_root q)); ("owner_key", JStr (pc_owner_key q));
        ("wait_kind", JStr (pc_wait_kind q)); ("unblock_condition", JStr (pc_unblock_condition q));
        ("next_due", JStr (pc_next_due q)); ("next_action_class", JStr (pc_next_action_class q));
        ("next_action_ref", JStr (pc_next_action_ref q)); ("parent_work_id", jopt (parent_work_id q));
        ("project_id", jopt (pc_project_id q)); ("project_gid", jopt (pc_project_gid q))]%string.

(** Where a task is created, and what a retry needs to find it. *)
Record Creation := mkCreation {
  cr_grant_id : uuid; cr_grant_version : Z; cr_qualification : string; cr_identity : string;
  cr_provider : string; cr_parent_gid : option string; cr_project_gid : option string }.

Definition create_intent (q : ProtectedCreate) (c : Creation) : json :=
  JObj [("request", create_json q); ("provider", JStr (cr_provider c)); ("parent_task_gid", jopt (cr_parent_gid c));
        ("project_gid", jopt (cr_project_gid c)); ("qualification", JStr (cr_qualification c));
        ("recovery_identity", JStr (cr_identity c))]%string.

(** [CreateGateway._applied] *)
Definition create_applied (p : PrincipalContext) (q : ProtectedCreate) (c : Creation) (task_gid : string)
  : Request GuardOutcome :=
  if negb (known P (cr_provider c)) then raises KeyError (cr_provider c)
  else
    task ← call (Source_task (cr_provider c) task_gid);
    match task with
    | Some t =>
        if negb (pt_canonical t) then mret (create_guard q o_unknown "created_task_readback_unconfirmed" true)
        else
          let work := created_work (pc_operation_id q) in
          call (Bind_reserved work (cr_provider c) task_gid);;
          mret (applied_by create_voice (Some work) (pc_operation_id q) "exact_create_verified"
            "Use the recorded create receipt."
            (CreateReceipt (head_of p (pc_operation_id q) (cr_grant_id c) (cr_grant_version c)) work (cr_provider c) task_gid
               (cr_parent_gid c) (cr_project_gid c) (pc_title q) (cr_qualification c)))
    | None => mret (create_guard q o_unknown "created_task_readback_unconfirmed" true)
    end.

(** [CreateGateway._reconcile_values] *)
Definition create_reconcile_values (p : PrincipalContext) (q : ProtectedCreate) (c : Creation) : Request GuardOutcome :=
  let guard := create_guard q in
  if negb (known P (cr_provider c) && recovers P (cr_provider c))
  then mret (guard o_unknown "create_recovery_unavailable" true)
  else
    identity ← call (Recovery_identity (cr_provider c));
    if negb (eqb identity (cr_identity c)) then mret (guard o_unknown "create_recovery_binding_changed" true)
    else
      bound ← call (Get (created_work (pc_operation_id q)));
      task_gid ← match bound with
        | Some h =>
            if eqb (h_provider h) (cr_provider c) then mret (Some (h_provider_work_id h))
            else call (Recover_created (cr_provider c) (cr_parent_gid c) (pc_operation_id q) (cr_project_gid c))
        | None => call (Recover_created (cr_provider c) (cr_parent_gid c) (pc_operation_id q) (cr_project_gid c))
        end;
      match task_gid with
      | None => mret (guard o_unknown "create_not_yet_reconciled" true)
      | Some task_gid =>
          o ← create_applied p q c task_gid;
          call (Finish o);;
          mret o
      end.

(** [CreateGateway._reconcile] *)
Definition optional_text (key message : string) (intent : json) : res (option string) :=
  match intent_get key intent with
  | JNull => Ok None
  | JStr s => Ok (Some s)
  | _ => raise ValueError message
  end.

Definition recorded_creation (record : EffectRecord) : res Creation :=
  let intent := er_intent record in
  provider ← intent_text "provider" "durable create provider invalid" intent;
  parent ← optional_text "parent_task_gid" "durable create parent invalid" intent;
  project ← optional_text "project_gid" "durable create project invalid" intent;
  qualification ← intent_text "qualification" "create qualification missing from durable intent" intent;
  identity ← intent_text "recovery_identity" "create recovery identity missing from durable intent" intent;
  Ok (mkCreation (er_grant_id record) (er_grant_version record) qualification identity provider parent project).

Definition create_reconcile (p : PrincipalContext) (q : ProtectedCreate) (record : EffectRecord) : Request GuardOutcome :=
  c ← returns (recorded_creation record);
  create_reconcile_values p q c.

(** [CreateGateway._send] *)
Definition create_send (p : PrincipalContext) (q : ProtectedCreate) (c : Creation) : Request GuardOutcome :=
  try_send (call (Create_work (pc_operation_id q) (cr_provider c) (pc_title q) (pc_notes q) (cr_parent_gid c)
                    (cr_project_gid c)))
    (refused_or P (create_guard q) (create_reconcile_values p q c))
    (create_applied p q c).

(** The grant of a creation, or the outcome that refuses. *)
Definition refuse_create (p : PrincipalContext) (q : ProtectedCreate) (now : Z) (grant : option WorkGrant)
  : WorkGrant + GuardOutcome :=
  let denied r := inr (create_guard q o_denied r false) in
  match grant with
  | None => denied "no_current_grant"%string
  | Some g =>
      if negb (admitted p now g) then denied "no_current_grant"%string
      else if negb (mem work_create (operations g)) then denied "operation_not_granted"%string
      else if match parent_work_id q with Some w => negb (grant_can_write g w) | None => false end
      then denied "parent_not_granted"%string
      else if is_none (parent_work_id q) && negb (eqb (scope g) workspace) then denied "workspace_create_required"%string
      else if negb (pc_grant_version q =? version g) then inr (create_guard q o_stale "grant_version_changed" false)
      else if negb (qualified_strictly p (create_qualification g))
      then denied "create_not_qualified_for_this_surface"%string
      else inl g
  end.

(** The parent's source, read before anything is written. *)
Definition parent_refusal (q : ProtectedCreate) (provider : string) (parent_gid : option string)
  : Request (option GuardOutcome) :=
  match parent_gid with
  | None => mret None
  | Some gid =>
      current ← call (Source_task provider gid);
      mret (match current with
            | None => Some (create_guard q o_not_applied "parent_read_unavailable" false)
            | Some t =>
                if negb (pt_canonical t) || pt_completed t
                then Some (create_guard q o_denied "parent_not_writable" false) else None
            end)
  end.

Definition create_at (p : PrincipalContext) (q : ProtectedCreate) (g : WorkGrant) (provider : string)
    (parent_gid : option string) : Request GuardOutcome :=
  let denied r := mret (create_guard q o_denied r false) in
  if negb (known P provider && creates P provider && recovers P provider)
  then denied "provider_create_not_supported"%string
  else
    identity ← call (Recovery_identity provider);
    if negb (truthy identity) then denied "provider_create_not_supported"%string
    else
      refusal ← parent_refusal q provider parent_gid;
      match refusal with
      | Some o => mret o
      | None =>
          let c := mkCreation (grant_id g) (version g) (default ""%string (create_qualification g)) identity provider
                     parent_gid (pc_project_gid q) in
          journaled_send (create_intent q c) g (create_fingerprint p q) (create_guard q) (create_send p q c)
      end.

(** A creation that is not in the journal. *)
Definition create_new (p : PrincipalContext) (q : ProtectedCreate) (grant : option WorkGrant) : Request GuardOutcome :=
  unresolved ← (match parent_work_id q with
    | Some parent => call (Unresolved_create parent)
    | None => mret false
    end : Request bool);
  if (unresolved : bool) then mret (create_guard q o_unknown "parent_has_unresolved_create" false)
  else
    now ← call Now;
    match refuse_create p q now grant with
    | inr o => mret o
    | inl g =>
        match parent_work_id q with
        | None => create_at p q g "asana" None
        | Some parent =>
            h ← call (Get parent);
            match h with
            | None => mret (create_guard q o_denied "parent_not_bound" false)
            | Some h => create_at p q g (h_provider h) (Some (h_provider_work_id h))
            end
        end
    end.

Definition create_recorded (p : PrincipalContext) (q : ProtectedCreate) (record : EffectRecord) : Request GuardOutcome :=
  set_possible (may_be_sent (er_outcome record));;
  if negb (eqb (er_principal_key record) (principal_key p))
     || negb (eqb (er_fingerprint record) (create_fingerprint p q))
  then mret (create_guard q o_denied "operation_identity_conflict" false)
  else if negb (eqb (effect (er_outcome record)) unknown) then mret (er_outcome record)
  else create_reconcile p q record.

Definition create_locked (p : PrincipalContext) (q : ProtectedCreate) (grant : option WorkGrant) : Request GuardOutcome :=
  record ← call (Exact (pc_operation_id q));
  set_history;;
  match record with
  | Some record => create_recorded p q record
  | None => create_new p q grant
  end.

(** [CreateGateway.create] *)
Definition create (p : PrincipalContext) (q : ProtectedCreate) : Request GuardOutcome :=
  if negb (legacy_semantics_supported q)
  then mret (create_guard q o_denied "semantic_create_requires_canonical_runtime" false)
  else if negb (is_ok (normalize_title nfkc_casefold (pc_title q)))
  then mret (create_guard q o_denied "title_not_indexable" false)
  else guarded caught (create_guard q)
         (with_locked (principal_key p) (parent_work_id q) (create_locked p q)).

(** ** The requests *)

Inductive ProviderRequest :=
  | q_append (p : PrincipalContext) (q : ProtectedAppend)
  | q_update (p : PrincipalContext) (q : ProtectedUpdate)
  | q_relate (p : PrincipalContext) (q : ProtectedRelation)
  | q_create (p : PrincipalContext) (q : ProtectedCreate).

Definition body (r : ProviderRequest) : Request GuardOutcome :=
  match r with
  | q_append p q => append p q
  | q_update p q => update p q
  | q_relate p q => relate p q
  | q_create p q => create p q
  end.

Definition code (r : ProviderRequest) : prog Call (Vars * res GuardOutcome) := body r (mkVars false false).
End gateways.
