(* ===== verification/ProviderSystem.v ===== *)
(** * Gateways among other requests

    The world of the gateways to external providers: the grant and journal
    tables, the handles, the row locks that requests hold, and a trace of what
    was read from and sent to the providers.  The providers answer whatever
    they like, every database call may lose its connection before or after it
    commits, and a request may die between any two of its calls.  What the
    other components do to the tables is [others].  [reachable] are the states
    that any number of requests can bring about. *)

From S2P Require Import Prelude Json Contracts Grants GrantState Controller WorkState.
From S2P Require Import MutationEffect Tracker Store Gateways Threads ProviderGateways.

Local Open Scope Z_scope.

(** ** The world *)

(** A row lock ([SELECT ... FOR UPDATE]). *)
Inductive Lock := grant_row (key : string) | handle_row (work : uuid).

#[export] Instance Lock_eq_dec : EqDecision Lock.
Proof. solve_decision. Defined.

(** What an intent is fenced by: the target of an effect, or the parent of a
    creation. *)
Record Fence := mkFence { is_create : bool; fence_target : option uuid }.

#[export] Instance Fence_eq_dec : EqDecision Fence.
Proof. solve_decision. Defined.

(** What a request did and saw.  A sent mutation is recorded with the answer
    and with the grants that were stored when it was sent. *)
Inductive Event :=
  | e_now (now : Z)
  | e_prepared (op : uuid) (fence : Fence)
  | e_sent (op : uuid) (m : Mutation) (answer : res unit) (stored : gmap string (option WorkGrant))
  | e_work (provider task_gid : string) (answer : res (option ProviderWork))
  | e_task (provider task_gid : string) (answer : res (option ProviderSourceTask))
  | e_story (provider task_gid story_gid : string) (answer : res (option ProviderSourceStory))
  | e_matches (provider task_gid : string) (patch : ProviderRelation) (answer : res bool).

Record PWorld := mkPWorld {
  grant_db : GrantDB; handle_db : StateDB; locks : list (nat * Lock); trace : list (nat * Event); ticks : nat }.

(** Everything outside: the clock, the connections and the providers.  An
    answer may depend on all that happened. *)
Record Outside := mkOutside {
  o_clock : PWorld → Z;
  o_fault : PWorld → Fault;
  o_get : string → string → PWorld → res (option ProviderWork);
  o_task : string → string → PWorld → res (option ProviderSourceTask);
  o_story : string → string → string → PWorld → res (option ProviderSourceStory);
  o_matches : string → string → ProviderRelation → PWorld → res bool;
  o_identity : string → PWorld → res string;
  o_recover : string → option string → uuid → option string → PWorld → res (option string);
  o_append : string → string → string → PWorld → res (option string);
  o_create : string → string → string → uuid → option string → option string → PWorld → res string;
  o_update : string → string → Patch → PWorld → res unit;
  o_relate : string → string → ProviderRelation → PWorld → res unit }.

Definition rows (w : PWorld) : gmap string EffectRow := effect_intents (grant_db w).
Definition stored (w : PWorld) : gmap string (option WorkGrant) := work_grants (grant_db w).

Definition tick (w : PWorld) : PWorld :=
  mkPWorld (grant_db w) (handle_db w) (locks w) (trace w) (S (ticks w)).
Definition log (t : nat) (e : Event) (w : PWorld) : PWorld :=
  mkPWorld (grant_db w) (handle_db w) (locks w) (trace w ++ [(t, e)]) (ticks w).
Definition with_grant_db (d : GrantDB) (w : PWorld) : PWorld :=
  mkPWorld d (handle_db w) (locks w) (trace w) (ticks w).
Definition with_handle_db (d : StateDB) (w : PWorld) : PWorld :=
  mkPWorld (grant_db w) d (locks w) (trace w) (ticks w).

(** Acquisition and release of the locks of a thread. *)
Definition bound (work : uuid) (w : PWorld) : bool := existsb (has_id work) (work_handles (handle_db w)).
Definition wanted (key : string) (work : option uuid) (w : PWorld) : list Lock :=
  (if is_some (stored w !! key) then [grant_row key] else [])
  ++ match work with Some x => if bound x w then [handle_row x] else [] | None => [] end.
Definition acquire (t : nat) (l : list Lock) (w : PWorld) : PWorld :=
  mkPWorld (grant_db w) (handle_db w) (locks w ++ ((λ x, (t, x)) <$> l)) (trace w) (ticks w).
Definition release (t : nat) (w : PWorld) : PWorld :=
  mkPWorld (grant_db w) (handle_db w) (filter (λ x, x.1 ≠ t) (locks w)) (trace w) (ticks w).

(** A row that another thread holds is waited for. *)
Definition free (t : nat) (l : Lock) (w : PWorld) : bool :=
  forallb (λ x : nat * Lock, Nat.eqb x.1 t || negb (eqb x.2 l)) (locks w).
Definition ready (t : nat) B (c : Call B) (w : PWorld) : bool :=
  match c with
  | Locked key work => forallb (λ l, free t l w) (wanted key work w)
  | _ => true
  end.

(** The fence of an intent. *)
Definition fence_of (intent : json) (unknown : GuardOutcome) : Fence :=
  if eqb (Grants.operation unknown) "work_create"%string then
    mkFence true (match intent_get "parent_work_id" (intent_get "request" intent) with JStr s => Some s | _ => None end)
  else mkFence false (Grants.work_id unknown).

Section perform.
Context (O : Outside).

(** A database call: a transaction on one table, over a connection. *)
Definition db {A} (m : M GrantDB A) (w : PWorld) : PWorld * res A :=
  let '(d, r) := connected (o_fault O w) m (grant_db w) in (with_grant_db d w, r).
Definition handle_call {A} (m : M StateDB A) (w : PWorld) : PWorld * res A :=
  let '(d, r) := connected (o_fault O w) m (handle_db w) in (with_handle_db d w, r).

(** Ending a transaction releases its locks, whether or not the connection
    holds. *)
Definition end_transaction (t : nat) (w : PWorld) : PWorld * res unit :=
  (release t w, match o_fault O w with no_fault => Ok tt | _ => raise SQLAlchemyError "connection lost" end).

Definition observe {A} (t : nat) (e : res A → Event) (r : res A) (w : PWorld) : PWorld * res A := (log t (e r) w, r).
Definition sends {A} (t : nat) (op : uuid) (m : Mutation) (r : res A) (w : PWorld) : PWorld * res A :=
  (log t (e_sent op m (r ≫= λ _, Ok tt) (stored w)) w, r).

(** The first commit of an intent is its entry in the trace. *)
Definition prepares (t : nat) (intent : json) (g : WorkGrant) (fp : string) (u : GuardOutcome) (w : PWorld)
  : PWorld * res unit :=
  let '(w', r) := db (prepare intent g fp u) w in
  (match rows w !! str_opt (Grants.operation_id u), rows w' !! str_opt (Grants.operation_id u) with
   | None, Some _ => log t (e_prepared (str_opt (Grants.operation_id u)) (fence_of intent u)) w'
   | _, _ => w'
   end, r).

Definition locked_call (t : nat) (key : string) (work : option uuid) (w : PWorld) : PWorld * res (option WorkGrant) :=
  match o_fault O w with
  | no_fault => (acquire t (wanted key work w) w, (locked_grant key (grant_db w)).2)
  | _ => (w, raise SQLAlchemyError "connection lost")
  end.

Definition answer {B} (t : nat) (c : Call B) (w : PWorld) : PWorld * res B :=
  match c in Call B return PWorld * res B with
  | Locked key work => locked_call t key work w
  | Commit => end_transaction t w
  | Rollback => end_transaction t w
  | Exact op => db (exact op) w
  | Previous op work => db (previous op work) w
  | Unresolved_create parent => db (λ d, (d, Ok (unresolved_create parent d))) w
  | Prepare intent g fp u => prepares t intent g fp u w
  | Finish o => db (finish o) w
  | Get work => handle_call (WorkState.get work) w
  | Bind_reserved work provider gid => handle_call (bind_reserved work provider gid false) w
  | Now => (log t (e_now (o_clock O w)) w, Ok (o_clock O w))
  | Get_task p id => observe t (e_work p id) (o_get O p id w) w
  | Source_task p id => observe t (e_task p id) (o_task O p id w) w
  | Source_story p id s => observe t (e_story p id s) (o_story O p id s w) w
  | Relation_matches p id r => observe t (e_matches p id r) (o_matches O p id r w) w
  | Recovery_identity p => (w, o_identity O p w)
  | Recover_created p parent op project => (w, o_recover O p parent op project w)
  | Append_story op p id text => sends t op (m_append p id text) (o_append O p id text w) w
  | Create_work op p title notes parent project =>
      sends t op (m_create p title notes parent project) (o_create O p title notes op parent project w) w
  | Update_task op p id patch => sends t op (m_update p id patch) (o_update O p id patch w) w
  | Update_relation op p id r => sends t op (m_relation p id r) (o_relate O p id r w) w
  end.

Definition perform (t : nat) B (c : Call B) (w : PWorld) : PWorld * res B := answer t c (tick w).
End perform.

(** The death of a request ends its transaction. *)
Definition crash (t : nat) (w : PWorld) : PWorld := release t w.

(** The operations whose intent a gateway wrote. *)
Definition prepared (op : uuid) (w : PWorld) : Prop := ∃ t f, (t, e_prepared op f) ∈ trace w.

(** What a journal row keeps when it is resolved. *)
Definition same_intent (r r' : EffectRow) : Prop :=
  GrantState.fingerprint r' = GrantState.fingerprint r ∧ principal_key_ r' = principal_key_ r ∧ GrantState.e_work_id r' = GrantState.e_work_id r ∧
  e_grant_id r' = e_grant_id r ∧ e_grant_version r' = e_grant_version r ∧ GrantState.intent r' = GrantState.intent r.

(** Other components issue grants under the row lock, bind works, journal
    effects of their own; no component deletes a row. *)
Record others (w w' : PWorld) : Prop := {
  ot_locks : locks w' = locks w;
  ot_trace : trace w' = trace w;
  ot_grants key : (∃ t, (t, grant_row key) ∈ locks w) → stored w' !! key = stored w !! key;
  ot_keys key : is_Some (stored w !! key) → is_Some (stored w' !! key);
  ot_rows op r : rows w !! op = Some r → ∃ r', rows w' !! op = Some r' ∧ same_intent r r';
  ot_prepared op : prepared op w → rows w' !! op = rows w !! op;
  ot_handles h : h ∈ work_handles (handle_db w) → h ∈ work_handles (handle_db w') }.

(** The states that requests reach. *)
Definition PSys : Type := Sys Call ProviderRequest (Vars * res GuardOutcome) PWorld.
Definition reaches (O : Outside) (P : Providers) (nfkc_casefold : string → string) : PWorld → PSys → Prop :=
  reachable (perform O) ready crash others (code P nfkc_casefold).
