(* ===== verification/ProviderSafety.v ===== *)
(** * What gateways to providers guarantee

    For any number of requests, whatever the providers answer, however the
    connections fail and wherever requests die: what a request has sent and
    under which grant ([History]), what the journal says about it ([Inv]), and
    what the answers say ([Answer]).  The proof is one thread's: it relies on
    the row locks it holds ([R]). *)

From S2P Require Import Prelude Tables Json Contracts Grants GrantState Controller WorkState.
From S2P Require Import MutationEffect Tracker Store Gateways Threads ProviderGateways ProviderSystem.

Local Open Scope Z_scope.

(** ** What requests ask for *)

Definition req_principal (q : ProviderRequest) : PrincipalContext :=
  match q with q_append p _ | q_update p _ | q_relate p _ | q_create p _ => p end.
Definition req_key (q : ProviderRequest) : string := principal_key (req_principal q).
Definition req_op (q : ProviderRequest) : uuid :=
  match q with
  | q_append _ q => pa_operation_id q | q_update _ q => pu_operation_id q
  | q_relate _ q => rl_operation_id q | q_create _ q => pc_operation_id q
  end.
Definition req_operation (q : ProviderRequest) : Operation :=
  match q with
  | q_append _ _ => work_append | q_update _ _ => work_update | q_relate _ _ => work_relate
  | q_create _ _ => work_create
  end.
Definition req_version (q : ProviderRequest) : Z :=
  match q with
  | q_append _ q => pa_grant_version q | q_update _ q => pu_grant_version q
  | q_relate _ q => rl_grant_version q | q_create _ q => pc_grant_version q
  end.
Definition req_qualification (q : ProviderRequest) (g : WorkGrant) : option string :=
  match q with
  | q_append _ _ => append_qualification g | q_update _ _ => update_qualification g
  | q_relate _ _ => relation_qualification g | q_create _ _ => create_qualification g
  end.
(** The work whose row a request locks: its target, or the parent. *)
Definition req_target (q : ProviderRequest) : option uuid :=
  match q with
  | q_append _ q => Some (pa_work_id q) | q_update _ q => Some (pu_work_id q)
  | q_relate _ q => Some (rl_work_id q) | q_create _ q => parent_work_id q
  end.
Definition req_fence (q : ProviderRequest) : Fence :=
  mkFence (match q with q_create _ _ => true | _ => false end) (req_target q).

(** A grant that allows the request. *)
Record allows (q : ProviderRequest) (g : WorkGrant) : Prop := {
  al_principal : principal g = req_principal q;
  al_operation : req_operation q ∈ operations g;
  al_version : req_version q = version g;
  al_write x : req_target q = Some x → grant_can_write g x = true;
  al_workspace : req_target q = None → scope g = workspace;
  al_qualified : qualified (req_principal q) (req_qualification q g) = true }.

(** [mkHandle work provider id] is stored. *)
Definition bound_as (work : uuid) (provider id : string) (w : PWorld) : Prop :=
  mkHandle work provider id ∈ work_handles (handle_db w).

(** A mutation is the one that was asked for, at the work's own source. *)
Definition asked (q : ProviderRequest) (m : Mutation) (w : PWorld) : Prop :=
  match q, m with
  | q_append _ q, m_append provider id text => bound_as (pa_work_id q) provider id w ∧ text = pa_text q
  | q_update _ q, m_update provider id patch => bound_as (pu_work_id q) provider id w ∧ patch = pu_patch q
  | q_relate _ q, m_relation provider id r =>
      bound_as (rl_work_id q) provider id w ∧ pl_kind r = kind_text (kind (rl_patch q)) ∧
      pl_action r = action_text (action (rl_patch q)) ∧ pl_assignee_gid r = assignee_gid (rl_patch q) ∧
      pl_project_gid r = project_gid (rl_patch q) ∧ pl_section_gid r = section_gid (rl_patch q) ∧
      match target_work_id (rl_patch q) with
      | None => pl_target_gid r = None
      | Some x => ∃ gid, pl_target_gid r = Some gid ∧ bound_as x provider gid w
      end
  | q_create _ q, m_create provider title notes parent project =>
      title = pc_title q ∧ notes = pc_notes q ∧ project = pc_project_gid q ∧
      match parent_work_id q with
      | None => provider = "asana"%string ∧ parent = None
      | Some x => ∃ gid, parent = Some gid ∧ bound_as x provider gid w
      end
  | _, _ => False
  end.

(** What a request does, in order: it reads the clock, writes its intent,
    reads the clock again, and sends what was asked under a grant that is
    stored, current and allows it - or it repeats a recorded move. *)
Inductive History (q : ProviderRequest) (w : PWorld) : list Event → Prop :=
  | h_none : History q w []
  | h_seen n : History q w [e_now n]
  | h_prepared n : History q w [e_now n; e_prepared (req_op q) (req_fence q)]
  | h_checked n n' : History q w [e_now n; e_prepared (req_op q) (req_fence q); e_now n']
  | h_sent n n' m a grants g :
      asked q m w → grants !! req_key q = Some (Some g) → allows q g → grant_current g n' = true →
      History q w [e_now n; e_prepared (req_op q) (req_fence q); e_now n'; e_sent (req_op q) m a grants]
  | h_moved provider id r a grants :
      is_move r = true → History q w [e_sent (req_op q) (m_relation provider id r) a grants].

(** The clock readings, intents and mutations of a thread. *)
Definition is_act (e : Event) : bool :=
  match e with e_now _ | e_prepared _ _ | e_sent _ _ _ _ => true | _ => false end.
Definition acts (t : nat) (w : PWorld) : list Event :=
  snd <$> filter (λ x : nat * Event, x.1 = t ∧ is_act x.2 = true) (trace w).

Definition Local (t : nat) (q : ProviderRequest) (w : PWorld) : Prop := History q w (acts t w).
Definition Idle (t : nat) (w : PWorld) : Prop := acts t w = [] ∧ ∀ l, (t, l) ∉ locks w.

(** The repetition of the move that the operation's row records. *)
Definition moved (op : uuid) (m : Mutation) (w : PWorld) : Prop :=
  ∃ p id ql r row, m = m_relation p id r ∧ is_move r = true ∧ rows w !! op = Some row ∧
    recorded_relation (GrantState.intent row) = Ok (p, id, ql, r).

(** A provider refused a mutation. *)
Definition refused (a : res unit) : bool :=
  match a with Err e => is_a [ProviderError] e && negb (is_a [UnknownEffect] e) | Ok _ => false end.

(** All that a thread sent was refused; all that was sent for an operation. *)
Definition unsent (t : nat) (w : PWorld) : Prop :=
  ∀ op m a s, (t, e_sent op m a s) ∈ trace w → refused a = true.
Definition all_refused (op : uuid) (w : PWorld) : Prop :=
  ∀ t m a s, (t, e_sent op m a s) ∈ trace w → refused a = true.

(** The effect that a receipt claims was observed at the provider. *)
Definition backed (r : Receipt) (w : PWorld) : Prop :=
  match r with
  | EffectReceipt _ _ p id gid text _ =>
      ∃ t s tk, (t, e_story p id gid (Ok (Some s))) ∈ trace w ∧ (t, e_task p id (Ok (Some tk))) ∈ trace w ∧
        story_gid s = gid ∧ story_task_gid s = id ∧ story_text s = Some text ∧ pt_canonical tk = true
  | UpdateReceipt _ _ p id _ revision patch _ =>
      ∃ t wk, (t, e_work p id (Ok (Some wk))) ∈ trace w ∧ pw_canonical wk = true ∧ pw_revision wk = revision ∧
        patch_matches wk patch = true
  | RelationReceipt h _ p id _ _ _ _ =>
      ∃ t row ql r, (t, e_matches p id r (Ok true)) ∈ trace w ∧ rows w !! r_operation_id h = Some row ∧
        recorded_relation (GrantState.intent row) = Ok (p, id, ql, r)
  | CreateReceipt _ work p id _ _ _ _ =>
      ∃ t tk, (t, e_task p id (Ok (Some tk))) ∈ trace w ∧ pt_canonical tk = true ∧ bound_as work p id w
  | _ => False
  end.

(** A journal row of another component. *)
Definition foreign (op : uuid) (w : PWorld) : Prop := is_Some (rows w !! op) ∧ ¬ prepared op w.

(** What an answer of a thread means. *)
Definition Answer (t : nat) (q : ProviderRequest) (o : GuardOutcome) (w : PWorld) : Prop :=
  (effect o = not_sent → unsent t w) ∧
  (effect o = applied → (∃ r, receipt o = Some r ∧ backed r w) ∨ foreign (req_op q) w).

(** ** What only grows *)

Lemma same_intent_refl r : same_intent r r.
Proof. unfold same_intent. tauto. Qed.

Lemma same_intent_trans r1 r2 r3 : same_intent r1 r2 → same_intent r2 r3 → same_intent r1 r3.
Proof. unfold same_intent. intuition congruence. Qed.

Lemma prepared_mono op w w' : (∃ l, trace w' = trace w ++ l) → prepared op w → prepared op w'.
Proof. intros [l E] (t & f & H). exists t, f. rewrite E, elem_of_app. by left. Qed.

(** A receipt that is backed remains so. *)
Lemma backed_mono r w w' :
  (∀ x, x ∈ trace w → x ∈ trace w') → (∀ h, h ∈ work_handles (handle_db w) → h ∈ work_handles (handle_db w')) →
  (∀ op r, rows w !! op = Some r → ∃ r', rows w' !! op = Some r' ∧ same_intent r r') →
  backed r w → backed r w'.
Proof.
  intros Ht Hh Hr. destruct r; cbn; try done.
  - intros (t & s & tk & ? & ? & ?). exists t, s, tk. auto.
  - intros (t & tk & ? & ? & ?). exists t, tk. unfold bound_as in *. auto.
  - intros (t & row & ql & r & ? & Hrow & Hrec). destruct (Hr _ _ Hrow) as (row' & ? & S).
    exists t, row', ql, r. destruct S as (_ & _ & _ & _ & _ & ->). auto.
  - intros (t & wk & ? & ?). exists t, wk. auto.
Qed.

Lemma moved_mono op m w w' :
  (∀ op r, rows w !! op = Some r → ∃ r', rows w' !! op = Some r' ∧ same_intent r r') → moved op m w → moved op m w'.
Proof.
  intros Hr (p & id & ql & r & row & -> & Hm & Hrow & Hrec). destruct (Hr _ _ Hrow) as (row' & ? & S).
  exists p, id, ql, r, row'. destruct S as (_ & _ & _ & _ & _ & ->). done.
Qed.

Lemma asked_mono q m w w' :
  (∀ h, h ∈ work_handles (handle_db w) → h ∈ work_handles (handle_db w')) → asked q m w → asked q m w'.
Proof.
  intros Hh. unfold asked, bound_as. destruct q as [? q|? q|? q|? q], m; try done.
  - intros [? ?]. auto.
  - intros [? ?]. auto.
  - intros (? & ? & ? & ? & ? & ? & Ht). repeat split; auto. destruct (target_work_id _); [|done].
    destruct Ht as (gid & ? & ?). eauto.
  - intros (? & ? & ? & Hp). repeat split; auto. destruct (Grants.parent_work_id q); [|done].
    destruct Hp as (gid & ? & ?). eauto.
Qed.

Lemma History_mono q w w' l :
  (∀ h, h ∈ work_handles (handle_db w) → h ∈ work_handles (handle_db w')) → History q w l → History q w' l.
Proof. intros Hh [| | | |n n' m a s g Ha|]; econstructor; eauto using asked_mono. Qed.

Section safety.
(** The principals and the works whose rows exist from the beginning: a lock on
    a row that does not exist locks nothing. *)
Context (registered : string → Prop) (settled : uuid → Prop).

Definition unresolved (op : uuid) (w : PWorld) : Prop :=
  ∃ r, rows w !! op = Some r ∧ is_unknown r = true ∧ registered (principal_key_ r).

(** A fence agrees with the row it was written with. *)
Definition fences (f : Fence) (r : EffectRow) : Prop :=
  ∀ x, fence_target f = Some x →
    if is_create f then intent_get "parent_work_id" (intent_get "request" (GrantState.intent r)) = JStr x
    else GrantState.e_work_id r = x.

Record Inv (w : PWorld) : Prop := {
  inv_locks t1 t2 l : (t1, l) ∈ locks w → (t2, l) ∈ locks w → t1 = t2;
  inv_registered key : registered key → is_Some (stored w !! key);
  inv_settled x : settled x → bound x w = true;
  inv_prepared t op f : (t, e_prepared op f) ∈ trace w → is_Some (rows w !! op);
  inv_unique t1 t2 op f1 f2 : (t1, e_prepared op f1) ∈ trace w → (t2, e_prepared op f2) ∈ trace w → t1 = t2;
  inv_fences t op f r : (t, e_prepared op f) ∈ trace w → rows w !! op = Some r → fences f r;
  inv_sent t op m a s : (t, e_sent op m a s) ∈ trace w →
    is_Some (rows w !! op) ∧
    ((∃ f, (t, e_prepared op f) ∈ trace w) ∨ moved op m w);
  (** the journal tells the truth *)
  inv_not_sent op r : prepared op w → rows w !! op = Some r → registered (principal_key_ r) →
    effect (outcome r) = not_sent → all_refused op w;
  inv_applied op r : prepared op w → rows w !! op = Some r → effect (outcome r) = applied →
    ∃ rc, receipt (outcome r) = Some rc ∧ backed rc w;
  (** one unresolved effect per target, one unresolved creation per parent *)
  inv_fence t1 t2 k1 k2 b x : settled x →
    (t1, e_prepared k1 (mkFence b (Some x))) ∈ trace w → (t2, e_prepared k2 (mkFence b (Some x))) ∈ trace w →
    unresolved k1 w → unresolved k2 w → k1 = k2 }.

(** What a thread relies on. *)
Record R (t : nat) (w w' : PWorld) : Prop := {
  R_trace : ∃ l, trace w' = trace w ++ l ∧ Forall (λ x, x.1 ≠ t) l;
  R_locks l : (t, l) ∈ locks w ↔ (t, l) ∈ locks w';
  R_grant key : (t, grant_row key) ∈ locks w → stored w' !! key = stored w !! key;
  R_rows op r : rows w !! op = Some r → ∃ r', rows w' !! op = Some r' ∧ same_intent r r';
  R_foreign op : foreign op w → ¬ prepared op w';
  R_own op r : rows w !! op = Some r → prepared op w → registered (principal_key_ r) →
    (t, grant_row (principal_key_ r)) ∈ locks w →
    rows w' !! op = Some r ∧ ∀ x, x ∈ trace w' → (∃ m a s, x.2 = e_sent op m a s) → x ∈ trace w;
  R_target x b op t' : settled x → (t, handle_row x) ∈ locks w →
    (t', e_prepared op (mkFence b (Some x))) ∈ trace w' → unresolved op w' →
    (t', e_prepared op (mkFence b (Some x))) ∈ trace w ∧ unresolved op w;
  R_handles h : h ∈ work_handles (handle_db w) → h ∈ work_handles (handle_db w') }.

(** ** Stability *)

Lemma R_refl t w : R t w w.
Proof.
  split; try done.
  - exists []. by rewrite app_nil_r.
  - intros op r Hr. exists r. split; [done | apply same_intent_refl].
  - by intros op [_ ?].
Qed.

Lemma R_trans t w1 w2 w3 : R t w1 w2 → R t w2 w3 → R t w1 w3.
Proof.
  intros H1 H2. split.
  - destruct (R_trace _ _ _ H1) as (l1 & E1 & F1), (R_trace _ _ _ H2) as (l2 & E2 & F2).
    exists (l1 ++ l2). rewrite E2, E1, app_assoc. split; [done|]. by apply Forall_app.
  - intros l. rewrite (R_locks _ _ _ H1). apply (R_locks _ _ _ H2).
  - intros key Hk. rewrite (R_grant _ _ _ H2 key); [by apply (R_grant _ _ _ H1)|].
    by apply (R_locks _ _ _ H1).
  - intros op r Hr. destruct (R_rows _ _ _ H1 op r Hr) as (r2 & Hr2 & S1).
    destruct (R_rows _ _ _ H2 op r2 Hr2) as (r3 & Hr3 & S2). eauto using same_intent_trans.
  - intros op Hf. apply (R_foreign _ _ _ H2). pose proof Hf as [[r Hr] _]. split; [|by apply (R_foreign _ _ _ H1)].
    destruct (R_rows _ _ _ H1 op r Hr) as (r2 & -> & _). eauto.
  - intros op r Hr Hp Hg Hl. destruct (R_own _ _ _ H1 op r Hr Hp Hg Hl) as [Hr2 Hs1].
    destruct (R_own _ _ _ H2 op r Hr2) as [Hr3 Hs2]; [|done|by apply (R_locks _ _ _ H1)|].
    { revert Hp. apply prepared_mono. destruct (R_trace _ _ _ H1) as (l & ? & _). eauto. }
    split; [done|]. eauto.
  - intros x b op t' Hx Hl He Hu. destruct (R_target _ _ _ H2 x b op t' Hx) as [He2 Hu2]; [by apply (R_locks _ _ _ H1)|done..|].
    by apply (R_target _ _ _ H1).
  - intros h Hh. by apply (R_handles _ _ _ H2), (R_handles _ _ _ H1).
Qed.

Lemma acts_R t w w' : R t w w' → acts t w' = acts t w.
Proof.
  intros H. destruct (R_trace _ _ _ H) as (l & E & F). unfold acts. rewrite E, filter_app, fmap_app.
  assert (filter (λ x : nat * Event, x.1 = t ∧ is_act x.2 = true) l = []) as ->; [|by rewrite app_nil_r].
  clear E. induction F as [|x l Hx F IH]; [done|]. rewrite filter_cons_False; [done|]. tauto.
Qed.

Lemma own_events_R t e w w' : R t w w' → (t, e) ∈ trace w' ↔ (t, e) ∈ trace w.
Proof.
  intros H. destruct (R_trace _ _ _ H) as (l & E & F). rewrite E, elem_of_app. split; [|by left].
  intros [?|He]; [done|]. rewrite Forall_forall in F. by destruct (F _ He).
Qed.

Lemma trace_R t x w w' : R t w w' → x ∈ trace w → x ∈ trace w'.
Proof. intros H. destruct (R_trace _ _ _ H) as (l & E & _). rewrite E, elem_of_app. by left. Qed.

Lemma prepared_R t op w w' : R t w w' → prepared op w → prepared op w'.
Proof. intros H. apply prepared_mono. destruct (R_trace _ _ _ H) as (l & ? & _). eauto. Qed.

Lemma foreign_R t op w w' : R t w w' → foreign op w → foreign op w'.
Proof.
  intros H Hf. pose proof Hf as [[r Hr] _]. split; [|by apply (R_foreign _ _ _ H)].
  destruct (R_rows _ _ _ H op r Hr) as (r2 & -> & _). eauto.
Qed.

Lemma bound_as_R t x p id w w' : R t w w' → bound_as x p id w → bound_as x p id w'.
Proof. intros H. apply (R_handles _ _ _ H). Qed.

Lemma backed_R t r w w' : R t w w' → backed r w → backed r w'.
Proof. intros H. apply backed_mono; [intros x; by apply (trace_R t x w w') | apply (R_handles _ _ _ H) | apply (R_rows _ _ _ H)]. Qed.

Lemma Local_R t q w w' : R t w w' → Local t q w → Local t q w'.
Proof. intros H. unfold Local. rewrite (acts_R _ _ _ H). apply History_mono, (R_handles _ _ _ H). Qed.

Lemma Idle_R t w w' : R t w w' → Idle t w → Idle t w'.
Proof. intros H [H1 H2]. split; [by rewrite (acts_R _ _ _ H)|]. intros l Hl. by apply (H2 l), (R_locks _ _ _ H). Qed.

Lemma unsent_R t w w' : R t w w' → unsent t w → unsent t w'.
Proof. intros H Hu op m a s. rewrite (own_events_R _ _ _ _ H). apply Hu. Qed.

Lemma Answer_R t q o w w' : R t w w' → Answer t q o w → Answer t q o w'.
Proof.
  intros H [H1 H2]. split; [eauto using unsent_R|]. intros Ho. destruct (H2 Ho) as [(r & ? & ?)|?]; [left|right].
  - exists r. eauto using backed_R.
  - eauto using foreign_R.
Qed.

(** ** Steps that leave the tables *)

(** An event that neither writes an intent nor sends. *)
Definition neutral (e : Event) : bool :=
  match e with e_prepared _ _ | e_sent _ _ _ _ => false | _ => true end.

(** [w'] differs from [w] in its locks and in neutral events. *)
Record quiet (w w' : PWorld) : Prop := {
  qu_grants : grant_db w' = grant_db w;
  qu_handles : handle_db w' = handle_db w;
  qu_trace : ∃ l, trace w' = trace w ++ l ∧ Forall (λ x, neutral x.2 = true) l }.

Lemma quiet_event w w' x : quiet w w' → neutral x.2 = false → x ∈ trace w' → x ∈ trace w.
Proof.
  intros [_ _ (l & -> & F)] Hx. rewrite elem_of_app. intros [?|H]; [done|].
  rewrite Forall_forall in F. specialize (F x H). cbn in F. congruence.
Qed.

Lemma quiet_mono w w' x : quiet w w' → x ∈ trace w → x ∈ trace w'.
Proof. intros [_ _ (l & -> & _)]. rewrite elem_of_app. by left. Qed.

Lemma quiet_rows w w' : quiet w w' → rows w' = rows w.
Proof. intros H. unfold rows. by rewrite (qu_grants _ _ H). Qed.

Lemma quiet_prepared w w' op : quiet w w' → prepared op w' → prepared op w.
Proof. intros H (t & f & He). exists t, f. by apply (quiet_event w w'). Qed.

Lemma quiet_unresolved w w' op : quiet w w' → unresolved op w' → unresolved op w.
Proof. intros H. unfold unresolved. by rewrite (quiet_rows _ _ H). Qed.

Lemma quiet_backed r w w' : quiet w w' → backed r w → backed r w'.
Proof.
  intros H. apply backed_mono; [intros x; by apply quiet_mono | by rewrite (qu_handles _ _ H)|].
  rewrite (quiet_rows _ _ H). eauto using same_intent_refl.
Qed.

Lemma quiet_Inv w w' :
  quiet w w' → (∀ t1 t2 l, (t1, l) ∈ locks w' → (t2, l) ∈ locks w' → t1 = t2) → Inv w → Inv w'.
Proof.
  intros H Hl I. pose proof (λ t op f, quiet_event _ _ (t, e_prepared op f) H eq_refl) as He. split.
  - done.
  - unfold stored. rewrite (qu_grants _ _ H). apply (inv_registered _ I).
  - unfold bound. rewrite (qu_handles _ _ H). apply (inv_settled _ I).
  - intros t op f Hp. rewrite (quiet_rows _ _ H). by eapply (inv_prepared _ I), He.
  - intros t1 t2 op f1 f2 H1 H2. by eapply (inv_unique _ I); apply He.
  - intros t op f r Hp. rewrite (quiet_rows _ _ H). by eapply (inv_fences _ I), He.
  - intros t op m a s Hs. apply (quiet_event _ _ _ H) in Hs; [|done]. rewrite (quiet_rows _ _ H).
    destruct (inv_sent _ I _ _ _ _ _ Hs) as [? [[f ?]|?]]; (split; [done|]); [left; exists f; by eapply quiet_mono | right].
    unfold moved. by rewrite (quiet_rows _ _ H).
  - intros op r Hp Hr Hg Hn t m a s Hs. apply (quiet_event _ _ _ H) in Hs; [|done]. rewrite (quiet_rows _ _ H) in Hr.
    by eapply (inv_not_sent _ I op r); [apply (quiet_prepared w w')|..].
  - intros op r Hp Hr Ha. rewrite (quiet_rows _ _ H) in Hr.
    destruct (inv_applied _ I op r) as (rc & ? & ?); [by apply (quiet_prepared w w')|done..|].
    exists rc. eauto using quiet_backed.
  - intros t1 t2 k1 k2 b x Hx H1 H2 U1 U2.
    by eapply (inv_fence _ I t1 t2 k1 k2 b x); eauto using quiet_unresolved.
Qed.

Lemma quiet_R t w w' :
  quiet w w' → (∀ l, trace w' = trace w ++ l → Forall (λ x, x.1 ≠ t) l) →
  (∀ l, (t, l) ∈ locks w ↔ (t, l) ∈ locks w') → R t w w'.
Proof.
  intros H Ht Hl. split.
  - destruct (qu_trace _ _ H) as (l & E & _). eauto.
  - done.
  - unfold stored. by rewrite (qu_grants _ _ H).
  - rewrite (quiet_rows _ _ H). eauto using same_intent_refl.
  - intros op [_ Hf] Hp. by apply Hf, (quiet_prepared w w').
  - intros op r Hr _ _ _. rewrite (quiet_rows _ _ H). split; [done|]. intros x Hx (m & a & s & E).
    apply (quiet_event w w'); [done | by rewrite E | done].
  - intros x b op t' _ _ He Hu. split; [by apply (quiet_event w w') | by apply (quiet_unresolved w w')].
  - by rewrite (qu_handles _ _ H).
Qed.

(** A thread's own quiet step. *)
Lemma quiet_keeps t w w' :
  quiet w w' → (∀ l, trace w' = trace w ++ l → Forall (λ x, x.1 = t) l) →
  (∀ t' l, t' ≠ t → (t', l) ∈ locks w ↔ (t', l) ∈ locks w') →
  (∀ t1 t2 l, (t1, l) ∈ locks w' → (t2, l) ∈ locks w' → t1 = t2) → Inv w → keeps R Inv t w w'.
Proof.
  intros H Ht Hl Hx I. split; [by apply (quiet_Inv w)|]. intros t' Hne. apply quiet_R; [done| |by auto].
  intros l E. apply (Forall_impl _ _ _ (Ht l E)). cbn. congruence.
Qed.

Lemma quiet_tick w w' : quiet (tick w) w' → quiet w w'.
Proof. by intros [? ? ?]. Qed.

Lemma tick_quiet w : quiet w (tick w).
Proof. split; [done..|]. exists []. by rewrite app_nil_r. Qed.

Lemma log_quiet t e w : neutral e = true → quiet w (log t e w).
Proof. intros He. split; [done..|]. exists [(t, e)]. split; [done|]. by constructor. Qed.

Lemma own_log t e w l : trace (log t e w) = trace w ++ l → Forall (λ x, x.1 = t) l.
Proof. intros [= <-]%app_inv_head. by constructor. Qed.

Lemma own_none w w' t l : trace w' = trace w → trace w' = trace w ++ l → Forall (λ x : nat * Event, x.1 = t) l.
Proof. intros -> E. rewrite <- (app_nil_r (trace w)) in E at 1. apply app_inv_head in E as <-. constructor. Qed.

(** ** Releases *)

Lemma release_quiet t w : quiet w (release t w).
Proof. split; [done..|]. exists []. by rewrite app_nil_r. Qed.

Lemma release_keeps t w : Inv w → keeps R Inv t w (release t w).
Proof.
  intros I. apply quiet_keeps; [apply release_quiet | intros l; by apply own_none | | |done].
  - intros t' l Hne. cbn. rewrite list_elem_of_filter. cbn. tauto.
  - intros t1 t2 l. cbn. rewrite !list_elem_of_filter. intros [_ H1] [_ H2]. by eapply (inv_locks _ I).
Qed.

Lemma acts_release t t' w : acts t' (release t w) = acts t' w.
Proof. done. Qed.

Lemma crash_ok t q w : Inv w → Local t q w → keeps R Inv t w (crash t w) ∧ Local t q (crash t w).
Proof. intros I L. split; [by apply release_keeps | revert L; by apply History_mono]. Qed.

(** ** Other components *)

Lemma others_ok w w' : Inv w → others w w' → Inv w' ∧ ∀ t, R t w w'.
Proof.
  intros I O.
  assert (Ht : ∀ x, x ∈ trace w' ↔ x ∈ trace w) by (by rewrite (ot_trace _ _ O)).
  assert (Hp : ∀ op, prepared op w' ↔ prepared op w) by (intros op; unfold prepared; by rewrite (ot_trace _ _ O)).
  assert (Hrow : ∀ op r, prepared op w → rows w' !! op = Some r → rows w !! op = Some r).
  { intros op r Hop. by rewrite (ot_prepared _ _ O). }
  split.
  - split.
    + rewrite (ot_locks _ _ O). apply (inv_locks _ I).
    + intros key Hk. by apply (ot_keys _ _ O), (inv_registered _ I).
    + intros x Hx. pose proof (inv_settled _ I x Hx) as Hb. unfold bound in *. rewrite existsb_exists in *.
      destruct Hb as (h & Hh & ?). exists h. split; [|done]. rewrite <- list_elem_of_In in *. by apply (ot_handles _ _ O).
    + intros t op f He. rewrite (ot_prepared _ _ O); [rewrite Ht in He; by eapply (inv_prepared _ I)|].
      exists t, f. by apply Ht.
    + intros t1 t2 op f1 f2. rewrite !Ht. apply (inv_unique _ I).
    + intros t op f r He Hr. rewrite Ht in He. eapply (inv_fences _ I); [done|]. apply Hrow; [by exists t, f | done].
    + intros t op m a s Hs. rewrite Ht in Hs. destruct (inv_sent _ I _ _ _ _ _ Hs) as [[r Hr] Hf]. split.
      * destruct (ot_rows _ _ O _ _ Hr) as (r' & -> & _). eauto.
      * setoid_rewrite Ht. destruct Hf as [?|Hf]; [by left | right]. revert Hf. apply moved_mono, (ot_rows _ _ O).
    + intros op r Hop Hr Hg Hn t m a s. rewrite Hp in Hop. rewrite Ht. by eapply (inv_not_sent _ I); eauto.
    + intros op r Hop Hr Ha. rewrite Hp in Hop. destruct (inv_applied _ I op r) as (rc & ? & Hb); [by auto..|].
      exists rc. split; [done|]. revert Hb. apply backed_mono; [by intros ? ?%Ht | apply (ot_handles _ _ O) | apply (ot_rows _ _ O)].
    + intros t1 t2 k1 k2 b x Hx. rewrite !Ht. intros H1 H2 (r1 & Hr1 & ? & ?) (r2 & Hr2 & ? & ?).
      eapply (inv_fence _ I t1 t2 k1 k2 b x); [done..| |].
      * exists r1. split; [|done]. apply Hrow; [by eexists _, _ | done].
      * exists r2. split; [|done]. apply Hrow; [by eexists _, _ | done].
  - intros t. split.
    + exists []. by rewrite app_nil_r, (ot_trace _ _ O).
    + intros l. by rewrite (ot_locks _ _ O).
    + intros key Hk. apply (ot_grants _ _ O). eauto.
    + apply (ot_rows _ _ O).
    + intros op [_ Hf]. by rewrite Hp.
    + intros op r Hr Hop _ _. rewrite (ot_prepared _ _ O) by done. split; [done|]. intros x. by rewrite Ht.
    + intros x b op t' Hx _ He (r & Hr & ? & ?). rewrite Ht in He. split; [done|]. exists r. split; [|done].
      apply Hrow; [by eexists _, _ | done].
    + apply (ot_handles _ _ O).
Qed.
End safety.
