(* ===== verification/ProviderSteps.v ===== *)
(** * The calls of a gateway, one by one

    For each call of [ProviderGateways]: what it keeps for the other threads,
    and what the calling thread knows afterwards.  [Held] is what a request
    holds while its transaction is open, [Owner] what it knows about the intent
    it wrote. *)

From S2P Require Import Prelude Tables Json Contracts Grants GrantState Controller WorkState.
From S2P Require Import MutationEffect Tracker Store Gateways Threads ProviderGateways ProviderSystem ProviderSafety.

Local Open Scope Z_scope.

(** A call over a connection leaves the table as it was, or as the call left
    it; when it returns, the call returned. *)
Lemma connected_call {S A} f (m : M S A) s s' r :
  connected f m s = (s', r) → (s' = s ∨ s' = (m s).1) ∧ ∀ a, r = Ok a → m s = (s', Ok a).
Proof.
  unfold connected. destruct f, (m s) as [s1 [a|e]]; intros [= <- <-]; cbn; (split; [auto|]); intros x; by first [intros [= <-] | intros [=]].
Qed.

Lemma read_db {A} O (m : M GrantDB A) w w' r :
  (∀ d, (m d).1 = d) → db O m w = (w', r) → w' = with_grant_db (grant_db w) w ∧ ∀ a, r = Ok a → m (grant_db w) = (grant_db w, Ok a).
Proof.
  intros Hm. unfold db. destruct (connected _ _ _) as [d r0] eqn:E. intros [= <- <-].
  apply connected_call in E as [Hd Ha]. rewrite Hm in Hd. assert (d = grant_db w) as -> by tauto. eauto.
Qed.

Lemma exact_db op d : (exact op d).1 = d.
Proof. unfold exact. by repeat case_match. Qed.

Lemma previous_db op work d : (previous op work d).1 = d.
Proof. apply previous_cases. Qed.

Lemma with_same w : with_grant_db (grant_db w) w = w.
Proof. by destruct w. Qed.

Lemma prepared_dec op w : prepared op w ∨ ¬ prepared op w.
Proof.
  destruct (existsb (λ x : nat * Event, match x.2 with e_prepared k _ => eqb k op | _ => false end) (trace w)) eqn:E.
  - left. apply existsb_exists in E as ([t e] & Hx & He). apply list_elem_of_In in Hx. cbn in He.
    destruct e as [|k f| | | | |]; try done. rewrite eqb_true in He. subst. by exists t, f.
  - right. intros (t & f & H). apply not_true_iff_false in E. apply E, existsb_exists.
    exists (t, e_prepared op f). rewrite <- list_elem_of_In. split; [done | apply eqb_refl].
Qed.

Section steps.
#[local] Set Default Proof Using "Type".
Context (registered : string → Prop) (settled : uuid → Prop) (O : Outside) (t : nat).

Abbreviation INV := (Inv registered settled).
Abbreviation RLY := (R registered settled).

(** ** Reads *)

Definition reads {B} (c : Call B) : bool :=
  match c with
  | Exact _ | Previous _ _ | Unresolved_create _ | Get _ | Get_task _ _ | Source_task _ _ | Source_story _ _ _
  | Relation_matches _ _ _ | Recovery_identity _ | Recover_created _ _ _ _ => true
  | _ => false
  end.

(** What the reader learns. *)
Definition saw {B} (c : Call B) : B → PWorld → Prop :=
  match c in Call B return B → PWorld → Prop with
  | Exact op => λ a w, ∀ rec, a = Some rec → ∃ r, rows w !! op = Some r ∧ rec = record_of r
  | Previous op work => λ a w,
      match a with
      | None => ∀ k r, rows w !! k = Some r → GrantState.e_work_id r = work → is_unknown r = false
      | Some x => ∃ k r, rows w !! k = Some r ∧ x.2 = outcome r ∧ (k = op ∨ is_unknown r = true)
      end
  | Unresolved_create parent => λ a w, a = unresolved_create parent (grant_db w)
  | Get work => λ a w, ∀ h, a = Some h → bound_as work (h_provider h) (h_provider_work_id h) w
  | Get_task p id => λ a w, (t, e_work p id (Ok a)) ∈ trace w
  | Source_task p id => λ a w, (t, e_task p id (Ok a)) ∈ trace w
  | Source_story p id s => λ a w, (t, e_story p id s (Ok a)) ∈ trace w
  | Relation_matches p id r => λ a w, (t, e_matches p id r (Ok a)) ∈ trace w
  | _ => λ _ _, True
  end.

(** The world after a read: the clock, and at most one neutral event. *)
Definition read_world (w w' : PWorld) : Prop :=
  w' = tick w ∨ ∃ e, neutral e = true ∧ is_act e = false ∧ w' = log t e (tick w).

Lemma read_world_quiet w w' : read_world w w' → quiet w w'.
Proof.
  intros [->|(e & He & _ & ->)]; [apply tick_quiet|].
  apply (quiet_tick w). by apply log_quiet.
Qed.

Lemma read_own w w' l : read_world w w' → trace w' = trace w ++ l → Forall (λ x, x.1 = t) l.
Proof. intros [->|(e & _ & _ & ->)]; [by apply own_none | apply (own_log t e (tick w))]. Qed.

Lemma read_locks w w' : read_world w w' → locks w' = locks w.
Proof. by intros [->|(e & _ & _ & ->)]. Qed.

Lemma acts_log e w : acts t (log t e w) = acts t w ++ (if is_act e then [e] else []).
Proof.
  unfold acts. cbn. rewrite filter_app, fmap_app. f_equal. destruct (is_act e) eqn:E.
  - by rewrite filter_cons_True.
  - rewrite filter_cons_False; [done|]. cbn. intros [_ ?]. congruence.
Qed.

Lemma read_acts w w' : read_world w w' → acts t w' = acts t w.
Proof. intros [->|(e & _ & He & ->)]; [done|]. rewrite acts_log, He. by rewrite app_nil_r. Qed.

Lemma read_keeps w w' : read_world w w' → INV w → keeps RLY INV t w w'.
Proof.
  intros H I. apply quiet_keeps; [by apply read_world_quiet | intros l; by apply read_own | | |done].
  - intros t' l _. by rewrite (read_locks _ _ H).
  - rewrite (read_locks _ _ H). apply (inv_locks _ _ _ I).
Qed.

Lemma observed {A} (e : res A → Event) (r0 : res A) w w' r :
  (∀ r, neutral (e r) = true ∧ is_act (e r) = false) → observe t e r0 (tick w) = (w', r) →
  read_world w w' ∧ ∀ a, r = Ok a → (t, e (Ok a)) ∈ trace w'.
Proof.
  intros He [= <- <-]. destruct (He r0). split; [right; by exists (e r0)|].
  intros a ->. cbn. rewrite elem_of_app. right. by left.
Qed.

Lemma read_perform {B} (c : Call B) w w' r :
  reads c = true → perform O t B c w = (w', r) →
  read_world w w' ∧ ∀ a, r = Ok a → saw c a w'.
Proof.
  unfold perform. destruct c; try done; intros _; cbn [answer saw].
  - intros [-> Ha]%read_db; [|apply exact_db]. rewrite with_same. split; [by left|]. intros a ->.
    specialize (Ha _ eq_refl). intros rec ->. unfold exact in Ha. cbn [grant_db tick] in Ha.
    destruct (effect_intents (grant_db w) !! op) as [r|] eqn:Er; [|done]. exists r. split; [done|].
    destruct (GrantState.intent r) eqn:Ei; try done. destruct (GuardOutcome_validate (outcome r)) eqn:Ev; [|done].
    apply GuardOutcome_validate_eq in Ev as ->. injection Ha as <-. unfold record_of. by rewrite Ei.
  - intros [-> Ha]%read_db; [|apply previous_db]. rewrite with_same. split; [by left|]. intros a ->.
    specialize (Ha _ eq_refl). pose proof (proj2 (previous_cases op work (grant_db (tick w)))) as Hp.
    rewrite Ha in Hp. cbn in Hp. destruct a as [x|].
    + destruct Hp as (k & r & ? & ? & [?|[_ ?]]); exists k, r; auto.
    + intros k r Hr. by apply (Hp k r).
  - intros [-> Ha]%read_db; [|done]. rewrite with_same. split; [by left|]. intros a ->.
    specialize (Ha _ eq_refl). by injection Ha as <-.
  - unfold handle_call. destruct (connected _ _ _) as [d r0] eqn:E. intros [= <- <-].
    apply connected_call in E as [Hd Ha]. unfold WorkState.get in Hd, Ha. cbn in Hd, Ha.
    assert (d = handle_db w) as -> by (by destruct Hd). split; [by left; destruct w|]. intros a ->.
    specialize (Ha _ eq_refl). injection Ha as Ha. intros h ->. apply one_or_none_Some in Ha.
    assert (Hh : h ∈ List.filter (has_id work) (work_handles (handle_db w))) by (rewrite Ha; by left).
    apply list_elem_of_In, filter_In in Hh as [Hh Hid]. unfold has_id in Hid. rewrite eqb_true in Hid.
    unfold bound_as. cbn. apply list_elem_of_In. by destruct h; cbn in *; subst.
  - by apply observed.
  - by apply observed.
  - by apply observed.
  - by apply observed.
  - intros [= <- <-]. split; [by left | done].
  - intros [= <- <-]. split; [by left | done].
Qed.

(** ** What survives the steps of others, and one's own reads *)

Record calm (w w' : PWorld) : Prop := {
  cm_trace x : x ∈ trace w → x ∈ trace w';
  cm_act e : is_act e = true → neutral e = false → (t, e) ∈ trace w' → (t, e) ∈ trace w;
  cm_locks l : (t, l) ∈ locks w → (t, l) ∈ locks w';
  cm_no_locks l : (t, l) ∈ locks w' → (t, l) ∈ locks w;
  cm_grant key : (t, grant_row key) ∈ locks w → stored w' !! key = stored w !! key;
  cm_rows op r : rows w !! op = Some r → ∃ r', rows w' !! op = Some r' ∧ same_intent r r';
  cm_foreign op : foreign op w → ¬ prepared op w';
  cm_own op r : rows w !! op = Some r → prepared op w → registered (principal_key_ r) →
    (t, grant_row (principal_key_ r)) ∈ locks w →
    rows w' !! op = Some r ∧ ∀ x, x ∈ trace w' → (∃ m a s, x.2 = e_sent op m a s) → x ∈ trace w;
  cm_target x b op t' : settled x → (t, handle_row x) ∈ locks w →
    (t', e_prepared op (mkFence b (Some x))) ∈ trace w' → unresolved registered op w' →
    (t', e_prepared op (mkFence b (Some x))) ∈ trace w ∧ unresolved registered op w;
  cm_handles h : h ∈ work_handles (handle_db w) → h ∈ work_handles (handle_db w') }.

Lemma calm_R w w' : RLY t w w' → calm w w'.
Proof.
  intros H. split.
  - intros x. apply (trace_R _ _ _ _ _ _ H).
  - intros e _ _. by rewrite (own_events_R _ _ _ _ _ _ H).
  - intros l. apply (R_locks _ _ _ _ _ H).
  - intros l. apply (R_locks _ _ _ _ _ H).
  - apply (R_grant _ _ _ _ _ H).
  - apply (R_rows _ _ _ _ _ H).
  - apply (R_foreign _ _ _ _ _ H).
  - apply (R_own _ _ _ _ _ H).
  - apply (R_target _ _ _ _ _ H).
  - apply (R_handles _ _ _ _ _ H).
Qed.

Lemma calm_quiet w w' : quiet w w' → locks w' = locks w → calm w w'.
Proof.
  intros H Hl. split.
  - intros x. by apply quiet_mono.
  - intros e _ He. by apply (quiet_event w w' (t, e)).
  - by rewrite Hl.
  - by rewrite Hl.
  - unfold stored. by rewrite (qu_grants _ _ H).
  - rewrite (quiet_rows _ _ H). eauto using same_intent_refl.
  - intros op [_ Hf] Hp. by apply Hf, (quiet_prepared w w').
  - intros op r Hr _ _ _. rewrite (quiet_rows _ _ H). split; [done|]. intros x Hx (m & a & s & E).
    apply (quiet_event w w'); [done | by rewrite E | done].
  - intros x b op t' _ _ He Hu. split; [by apply (quiet_event w w') | by apply (quiet_unresolved _ w w')].
  - by rewrite (qu_handles _ _ H).
Qed.

Class Stable (K : PWorld → Prop) := stable w w' : calm w w' → K w → K w'.

#[export] Instance stable_and (K1 K2 : PWorld → Prop) : Stable K1 → Stable K2 → Stable (λ w, K1 w ∧ K2 w).
Proof. intros H1 H2 w w' H [? ?]. split; [by apply (H1 w) | by apply (H2 w)]. Qed.

#[export] Instance stable_pure (p : Prop) : Stable (λ _, p).
Proof. by intros w w'. Qed.

#[export] Instance stable_event x : Stable (λ w, x ∈ trace w).
Proof. intros w w' H. apply (cm_trace _ _ H). Qed.

#[export] Instance stable_bound x p id : Stable (bound_as x p id).
Proof. intros w w' H. apply (cm_handles _ _ H). Qed.

#[export] Instance stable_backed r : Stable (backed r).
Proof. intros w w' H. apply backed_mono; [apply (cm_trace _ _ H) | apply (cm_handles _ _ H) | apply (cm_rows _ _ H)]. Qed.

#[export] Instance stable_unsent : Stable (unsent t).
Proof. intros w w' H Hu op m a s Hs. apply (cm_act _ _ H) in Hs; [|done..]. by eapply Hu. Qed.

Lemma calm_prepared op w w' : calm w w' → prepared op w → prepared op w'.
Proof. intros H (t' & f & He). exists t', f. by apply (cm_trace _ _ H). Qed.

#[export] Instance stable_foreign op : Stable (foreign op).
Proof.
  intros w w' H Hf. pose proof Hf as [[r Hr] _]. split; [|by apply (cm_foreign _ _ H)].
  destruct (cm_rows _ _ H op r Hr) as (r2 & -> & _). eauto.
Qed.

(** Facts that no step can undo. *)
Record grows (w w' : PWorld) : Prop := {
  gr_trace x : x ∈ trace w → x ∈ trace w';
  gr_handles h : h ∈ work_handles (handle_db w) → h ∈ work_handles (handle_db w') }.

Class Lasting (K : PWorld → Prop) := lasting w w' : grows w w' → K w → K w'.

#[export] Instance lasting_stable K : Lasting K → Stable K.
Proof. intros H w w' Hc. apply H. split; [apply (cm_trace _ _ Hc) | apply (cm_handles _ _ Hc)]. Qed.

#[export] Instance lasting_pure (p : Prop) : Lasting (λ _, p).
Proof. by intros w w'. Qed.

#[export] Instance lasting_event x : Lasting (λ w, x ∈ trace w).
Proof. intros w w' H. apply (gr_trace _ _ H). Qed.

#[export] Instance lasting_bound x p id : Lasting (bound_as x p id).
Proof. intros w w' H. apply (gr_handles _ _ H). Qed.

#[export] Instance lasting_and (K1 K2 : PWorld → Prop) : Lasting K1 → Lasting K2 → Lasting (λ w, K1 w ∧ K2 w).
Proof. intros H1 H2 w w' H [? ?]. split; [by apply (H1 w) | by apply (H2 w)]. Qed.

(** ** What a request knows *)

Context (q : ProviderRequest).

(** While the transaction of [grants.locked] is open. *)
Record Held (g : option WorkGrant) (w : PWorld) : Prop := {
  he_grant x : g = Some x → stored w !! req_key q = Some (Some x) ∧ (t, grant_row (req_key q)) ∈ locks w;
  he_registered : registered (req_key q) → (t, grant_row (req_key q)) ∈ locks w;
  he_target x : settled x → req_target q = Some x → (t, handle_row x) ∈ locks w }.

#[export] Instance stable_held g : Stable (Held g).
Proof.
  intros w w' H Hh. split.
  - intros x ->. destruct (he_grant _ _ Hh x eq_refl) as [Hx Hl]. rewrite (cm_grant _ _ H) by done.
    split; [done | by apply (cm_locks _ _ H)].
  - intros Hg. by apply (cm_locks _ _ H), (he_registered _ _ Hh).
  - intros x Hx Ht. by apply (cm_locks _ _ H), (he_target _ _ Hh).
Qed.

(** A row of the operation under the request's principal, which is unresolved
    when a gateway wrote it. *)
Definition Open (w : PWorld) : Prop :=
  ∃ r, rows w !! req_op q = Some r ∧ principal_key_ r = req_key q ∧
    (registered (req_key q) → prepared (req_op q) w → is_unknown r = true).

(** The request wrote the intent, and alone sent for it. *)
Record Owner (w : PWorld) : Prop := {
  ow_prepared : ∃ f, (t, e_prepared (req_op q) f) ∈ trace w;
  ow_open : Open w;
  ow_alone t' m a s : registered (req_key q) → (t', e_sent (req_op q) m a s) ∈ trace w → t' = t }.

Lemma open_calm g w w' : Held g w → calm w w' → Open w → Open w'.
Proof.
  intros Hh H (r & Hr & Hk & Hu). destruct (cm_rows _ _ H _ _ Hr) as (r' & Hr' & S).
  exists r'. split; [done|]. split; [destruct S as (_ & -> & _); done|]. intros Hg Hp.
  assert (Hp0 : ¬ foreign (req_op q) w) by (intros Hf; by apply (cm_foreign _ _ H _ Hf)).
  destruct (prepared_dec (req_op q) w) as [Hpw|Hpw].
  - destruct (cm_own _ _ H _ _ Hr Hpw) as [Hr2 _]; [by rewrite Hk | rewrite Hk; by apply (he_registered _ _ Hh)|].
    assert (r' = r) as -> by congruence. auto.
  - destruct Hp0. split; eauto.
Qed.

#[export] Instance stable_open g : Stable (λ w, Held g w ∧ Open w).
Proof. intros w w' H [Hh Ho]. split; [by apply (stable_held g w) | by apply (open_calm g w)]. Qed.

#[export] Instance stable_owner g : Stable (λ w, Held g w ∧ Owner w).
Proof.
  intros w w' H [Hh [(f & Hf) Ho Ha]]. split; [by apply (stable_held g w)|]. split.
  - exists f. by apply (cm_trace _ _ H).
  - by apply (open_calm g w).
  - intros t' m a s Hg Hs. pose proof Ho as (r & Hr & Hk & _).
    destruct (cm_own _ _ H _ _ Hr) as [_ Hs2]; [by exists t, f | by rewrite Hk | rewrite Hk; by apply (he_registered _ _ Hh)|].
    apply (Ha t' m a s Hg), (Hs2 _ Hs). by eexists _, _, _.
Qed.

(** No intent of the request's fence is unresolved. *)
Definition Clear (w : PWorld) : Prop :=
  ∀ x t' k, settled x → req_target q = Some x → (t', e_prepared k (req_fence q)) ∈ trace w → ¬ unresolved registered k w.

#[export] Instance stable_clear g : Stable (λ w, Held g w ∧ Clear w).
Proof.
  intros w w' H [Hh Hc]. split; [by apply (stable_held g w)|]. intros x t' k Hx Ht He Hu.
  unfold req_fence in *. rewrite Ht in *.
  destruct (cm_target _ _ H x _ k t' Hx (he_target _ _ Hh x Hx Ht) He Hu) as [He0 Hu0].
  unfold Clear, req_fence in Hc. rewrite Ht in Hc. by apply (Hc x t' k).
Qed.

(** ** Rules *)

Abbreviation RUN m Φ v w := (runs (V := Vars) (perform O) ready RLY INV Local t q m Φ v w).

(** Nothing sent went through; or the request knows that it may have. *)
Definition Exc (v : Vars) (w : PWorld) : Prop := possible_send v = true ∨ unsent t w.

(** What the body of a request establishes. *)
Definition Post (v : Vars) (r : res GuardOutcome) (w : PWorld) : Prop :=
  Exc v w ∧ ∀ o, r = Ok o → Answer t q o w.

#[export] Instance stable_exc v : Stable (Exc v).
Proof. intros w w' H [?|?]; [by left|]. right. by apply (stable_unsent w). Qed.

#[export] Instance stable_answer o : Stable (Answer t q o).
Proof.
  intros w w' H [H1 H2]. split; [intros; by apply (stable_unsent w); auto|]. intros Ho.
  destruct (H2 Ho) as [(r & ? & ?)|?]; [left; exists r; split; [done | by apply (stable_backed r w)] | right].
  by apply (stable_foreign (req_op q) w).
Qed.

#[export] Instance stable_post v r : Stable (Post v r).
Proof.
  intros w w' H [H1 H2]. split; [by apply (stable_exc v w)|]. intros o ->. by apply (stable_answer o w); auto.
Qed.

Lemma unsent_acts h w : acts t w = h → (∀ op m a s, e_sent op m a s ∈ h → refused a = true) → unsent t w.
Proof.
  intros <- H op m a s Hs. apply (H op m a s). unfold acts. apply list_elem_of_fmap.
  exists (t, e_sent op m a s). split; [done|]. by apply list_elem_of_filter.
Qed.

Lemma run_ret {A} (a : A) (Φ : Vars → res A → PWorld → Prop) v w (K : PWorld → Prop) `{!Stable K} :
  K w → (∀ w', INV w' → K w' → Φ v (Ok a) w') → RUN (mret a) Φ v w.
Proof. intros HK H w1 H1 I _. apply H; [done|]. apply (stable w); [by apply calm_R | done]. Qed.

Lemma run_err {A} (e : exn) (Φ : Vars → res A → PWorld → Prop) v w (K : PWorld → Prop) `{!Stable K} :
  K w → (∀ w', INV w' → K w' → Φ v (Err e) w') → RUN (returns (Err e)) Φ v w.
Proof. intros HK H w1 H1 I _. apply H; [done|]. apply (stable w); [by apply calm_R | done]. Qed.

(** A read by a thread whose acts are [h]. *)
Lemma run_read {B A} (c : Call B) (f : B → Request A) (Φ : Vars → res A → PWorld → Prop) v w h (K : PWorld → Prop) `{!Stable K} :
  reads c = true → acts t w = h → K w →
  (∀ e w', acts t w' = h → K w' → Φ v (Err e) w') →
  (∀ a w', INV w' → acts t w' = h → K w' → saw c a w' → RUN (f a) Φ v w') →
  RUN (call c ≫= f) Φ v w.
Proof.
  intros Hc Ha HK He Hf. apply runs_call_bind. intros w1 H1 I1 L1 _ w2 r Hp.
  pose proof (read_perform c w1 w2 r Hc Hp) as [Hw Hs].
  assert (Hk : keeps RLY INV t w1 w2) by by eapply read_keeps.
  assert (HK2 : K w2).
  { apply (stable w1); [apply calm_quiet; [by eapply read_world_quiet | by eapply read_locks]|].
    apply (stable w); [by apply calm_R | done]. }
  assert (Ha2 : acts t w2 = h) by (rewrite (read_acts w1 w2 Hw), (acts_R _ _ _ _ _ H1); done).
  split; [done|]. split.
  { unfold Local in *. rewrite (read_acts w1 w2 Hw). revert L1. apply History_mono.
    by rewrite (qu_handles _ _ (read_world_quiet _ _ Hw)). }
  destruct r as [a|e]; [apply Hf; auto; by apply Hk|].
  intros w3 H3 _ _. apply He; [by rewrite (acts_R _ _ _ _ _ H3)|]. apply (stable w2); [by apply calm_R | done].
Qed.

(** A read at the end of a block. *)
Lemma run_read_call {B} (c : Call B) (Ψ : Vars → res B → PWorld → Prop) v w h (K : PWorld → Prop) `{!Stable K}
    `{Hsaw : ∀ a, Stable (saw c a)} :
  reads c = true → acts t w = h → K w →
  (∀ r w', INV w' → acts t w' = h → K w' → (∀ a, r = Ok a → saw c a w') → Ψ v r w') →
  RUN (call c) Ψ v w.
Proof.
  intros Hc Ha HK Hf. apply runs_call. intros w1 H1 I1 L1 _ w2 r Hp.
  pose proof (read_perform c w1 w2 r Hc Hp) as [Hw Hs].
  assert (Hk : keeps RLY INV t w1 w2) by by eapply read_keeps.
  assert (HK2 : K w2).
  { apply (stable w1); [apply calm_quiet; [by eapply read_world_quiet | by eapply read_locks]|].
    apply (stable w); [by apply calm_R | done]. }
  assert (Ha2 : acts t w2 = h) by (rewrite (read_acts w1 w2 Hw), (acts_R _ _ _ _ _ H1); done).
  split; [done|]. split.
  { unfold Local in *. rewrite (read_acts w1 w2 Hw). revert L1. apply History_mono.
    by rewrite (qu_handles _ _ (read_world_quiet _ _ Hw)). }
  intros w3 H3 I3 _. assert (Hc3 : calm w2 w3) by by apply calm_R.
  apply Hf; [done | by rewrite (acts_R _ _ _ _ _ H3) | by apply (stable w2)|].
  intros a ->. apply (Hsaw a w2); auto.
Qed.

Lemma acts_calm w w' h : RLY t w w' → acts t w = h → acts t w' = h.
Proof. intros H <-. apply (acts_R _ _ _ _ _ H). Qed.

(** Reading the clock. *)
Lemma run_now {A} (f : Z → Request A) (Φ : Vars → res A → PWorld → Prop) v w h (K : PWorld → Prop) `{!Stable K} :
  acts t w = h → K w → (∀ n w', History q w' (h ++ [e_now n])) →
  (∀ n w', INV w' → acts t w' = h ++ [e_now n] → K w' → RUN (f n) Φ v w') →
  RUN (call Now ≫= f) Φ v w.
Proof.
  intros Ha HK Hh Hf. apply runs_call_bind. intros w1 H1 I1 L1 _ w2 r [= <- <-].
  set (n := o_clock O (tick w1)). set (w2 := log t (e_now n) (tick w1)).
  assert (Hq : quiet w1 w2) by (apply (quiet_tick w1), log_quiet; done).
  assert (Hk : keeps RLY INV t w1 w2).
  { apply quiet_keeps; [done | intros l; apply (own_log t _ (tick w1)) | done | | done]. apply (inv_locks _ _ _ I1). }
  assert (Ha2 : acts t w2 = h ++ [e_now n]).
  { unfold w2. rewrite acts_log. cbn. f_equal. by apply (acts_calm w). }
  split; [done|]. split; [unfold Local; rewrite Ha2; apply Hh|]. apply Hf; [apply Hk | done|].
  apply (stable w1); [by apply calm_quiet|]. apply (stable w); [by apply calm_R | done].
Qed.

(** Opening the transaction. *)
Lemma wanted_grant key work w : is_Some (stored w !! key) → grant_row key ∈ wanted key work w.
Proof. intros [g Hg]. unfold wanted. rewrite Hg. by left. Qed.

Lemma wanted_target key x w : bound x w = true → handle_row x ∈ wanted key (Some x) w.
Proof. intros Hx. unfold wanted. rewrite Hx, elem_of_app. right. by left. Qed.

Lemma run_locked {A} (f : option WorkGrant → Request A) (Φ : Vars → res A → PWorld → Prop) v w :
  acts t w = [] → (∀ l, (t, l) ∉ locks w) →
  (∀ e w', acts t w' = [] → Φ v (Err e) w') →
  (∀ g w', INV w' → acts t w' = [] → Held g w' → RUN (f g) Φ v w') →
  RUN (call (Locked (req_key q) (req_target q)) ≫= f) Φ v w.
Proof.
  intros Ha Hn He Hf. apply runs_call_bind. intros w1 H1 I1 L1 Hr w2 r.
  unfold perform, answer, locked_call. destruct (o_fault O (tick w1)); cbn [locked_grant]; intros [= <- <-].
  2-3: split; [by apply (read_keeps w1 (tick w1)); [left|]|]; (split; [revert L1; by apply History_mono|]);
    intros w3 H3 _ _; apply He, (acts_calm (tick w1)), (acts_calm w w1); done.
  set (ls := wanted _ _ _). set (w2 := acquire t ls (tick w1)).
  assert (Hn1 : ∀ l, (t, l) ∉ locks w1) by (intros l Hl; by apply (Hn l), (R_locks _ _ _ _ _ H1)).
  assert (Hin : ∀ l, l ∈ ls → (t, l) ∈ locks w2).
  { intros l Hl. cbn. rewrite elem_of_app. right. apply list_elem_of_fmap. by exists l. }
  assert (Hq : quiet w1 w2) by (split; [done..|]; exists []; by rewrite app_nil_r).
  assert (Hk : keeps RLY INV t w1 w2).
  { apply quiet_keeps; [done | intros l; by apply own_none | | | done].
    - intros t' l Hne. cbn. rewrite elem_of_app, list_elem_of_fmap. split; [by left|].
      intros [?|(l' & [= ? ?] & _)]; [done | congruence].
    - cbn in Hr. rewrite forallb_forall in Hr.
      assert (Hfree : ∀ t' l, (t', l) ∈ locks w1 → l ∈ ls → t' = t).
      { intros t' l Hl Hls. apply list_elem_of_In, Hr in Hls. unfold free in Hls. rewrite forallb_forall in Hls.
        specialize (Hls (t', l) (proj1 (list_elem_of_In _ _) Hl)). cbn in Hls.
        rewrite eqb_refl, orb_false_r, Nat.eqb_eq in Hls. done. }
      intros t1 t2 l. cbn. rewrite !elem_of_app, !list_elem_of_fmap.
      intros [Hl1|(l1 & E1 & Hl1)] [Hl2|(l2 & E2 & Hl2)]; simplify_eq.
      + by apply (inv_locks _ _ _ I1 t1 t2 l).
      + by apply (Hfree t1 l2).
      + symmetry. by apply (Hfree t2 l1).
      + done. }
  split; [done|]. split; [revert L1; by apply History_mono|].
  apply Hf; [apply Hk | by apply (acts_calm w w1)|]. split.
  - intros x Hx. assert (Hs : stored w1 !! req_key q = Some (Some x)).
    { revert Hx. unfold stored. cbn. by destruct (work_grants (grant_db w1) !! req_key q) as [[?|]|]; cbn; [intros [= ->]|..]. }
    split; [done|]. apply Hin, wanted_grant. unfold stored in *. cbn. eauto.
  - intros Hg. apply Hin, wanted_grant. apply (inv_registered _ _ _ I1 _ Hg).
  - intros x Hx Ht. apply Hin. unfold ls. rewrite Ht. apply wanted_target. apply (inv_settled _ _ _ I1 _ Hx).
Qed.

(** Ending it. *)
Lemma run_end {A} (c : Call unit) (f : unit → Request A) (Φ : Vars → res A → PWorld → Prop) v w (K : PWorld → Prop)
    `{!Stable K} :
  (c = Commit ∨ c = Rollback) → K w → (∀ w w', quiet w w' → K w → K w') →
  (∀ e w', K w' → Φ v (Err e) w') → (∀ w', INV w' → K w' → RUN (f tt) Φ v w') →
  RUN (call c ≫= f) Φ v w.
Proof.
  intros Hc HK Hq He Hf. apply runs_call_bind. intros w1 H1 I1 L1 _ w2 r Hp.
  assert (Hw : w2 = release t (tick w1) ∧ ∀ u, r = Ok u → u = tt).
  { destruct Hc as [-> | ->]; cbn in Hp; injection Hp as <- <-; (split; [done|]); by intros []. }
  destruct Hw as [-> Hu].
  assert (Hqw : quiet w1 (release t (tick w1))) by (apply (quiet_tick w1), release_quiet).
  assert (Hk : keeps RLY INV t w1 (release t (tick w1))).
  { destruct (release_keeps registered settled t (tick w1)) as [HI HR].
    - apply (quiet_Inv registered settled w1); [apply tick_quiet | apply (inv_locks _ _ _ I1) | done].
    - split; [done|]. intros t' Hne. destruct (HR t' Hne). by split. }
  assert (HK2 : K (release t (tick w1))).
  { apply (Hq w1); [done|]. apply (stable w); [by apply calm_R | done]. }
  split; [done|]. split; [revert L1; by apply History_mono|].
  destruct r as [[]|e]; [apply Hf; [apply Hk | done]|].
  intros w3 H3 _ _. apply He. apply (stable (release t (tick w1))); [by apply calm_R | done].
Qed.

(** ** Writing the intent *)

(** The row a gateway writes fits its fence. *)
Record Fits (intent : json) (g : WorkGrant) (fp : string) (u : GuardOutcome) : Prop := {
  fi_principal : principal g = req_principal q;
  fi_operation : Grants.operation_id u = Some (req_op q);
  fi_unknown : effect u = unknown;
  fi_fence : fence_of intent u = req_fence q;
  fi_fences : fences (req_fence q) (new_row intent g fp u) }.

(** The world after the intent was written. *)
Definition prepared_world (row : EffectRow) (w : PWorld) : PWorld :=
  log t (e_prepared (req_op q) (req_fence q))
    (with_grant_db (with_intents (<[req_op q := row]> (rows w)) (grant_db w)) (tick w)).

Section prepared.
Context (intent : json) (g : WorkGrant) (fp : string) (u : GuardOutcome) (w : PWorld).
Context (I : INV w) (Hh : Held (Some g) w) (Hc : Clear w) (Hf : Fits intent g fp u) (Hn : rows w !! req_op q = None).
#[local] Set Default Proof Using "I Hh Hc Hf Hn".

Abbreviation row := (new_row intent g fp u).
Abbreviation w' := (prepared_world row w).

Lemma prepared_row : rows w' !! req_op q = Some row.
Proof. unfold rows. cbn. apply lookup_insert_eq. Qed.

Lemma prepared_rows k : k ≠ req_op q → rows w' !! k = rows w !! k.
Proof. intros Hk. unfold rows. cbn. by rewrite lookup_insert_ne. Qed.

Lemma prepared_keeps_row k r : rows w !! k = Some r → rows w' !! k = Some r.
Proof. intros Hr. rewrite prepared_rows; [done | congruence]. Qed.

Lemma prepared_event x : x ∈ trace w' ↔ x ∈ trace w ∨ x = (t, e_prepared (req_op q) (req_fence q)).
Proof. cbn. by rewrite elem_of_app, list_elem_of_singleton. Qed.

(** No intent of the operation was written before. *)
Lemma prepared_first t' f : (t', e_prepared (req_op q) f) ∉ trace w.
Proof. intros He. destruct (inv_prepared _ _ _ I _ _ _ He) as [? ?]. congruence. Qed.

Lemma prepared_before op : op ≠ req_op q → prepared op w' → prepared op w.
Proof. intros Hne (t2 & f & [?|?]%prepared_event); [by exists t2, f | congruence]. Qed.

Lemma prepared_unresolved t' k f :
  (t', e_prepared k f) ∈ trace w → unresolved registered k w' → unresolved registered k w.
Proof.
  intros He (r & Hr & ?). exists r. split; [|done].
  rewrite prepared_rows in Hr by (intros ->; by eapply prepared_first). done.
Qed.

(** The new intent is the only unresolved one of its fence. *)
Lemma prepared_only b x t' k :
  settled x → req_fence q = mkFence b (Some x) → (t', e_prepared k (mkFence b (Some x))) ∈ trace w →
  ¬ unresolved registered k w'.
Proof.
  intros Hx E He Hu. rewrite <- E in He. apply (Hc x t' k Hx); [unfold req_fence in E; congruence | done|].
  by eapply prepared_unresolved.
Qed.

Lemma prepared_fenced t1 t2 k1 k2 b x :
  settled x → (t1, e_prepared k1 (mkFence b (Some x))) ∈ trace w' → (t2, e_prepared k2 (mkFence b (Some x))) ∈ trace w' →
  unresolved registered k1 w' → unresolved registered k2 w' → k1 = k2.
Proof.
  intros Hx [H1|E1]%prepared_event [H2|E2]%prepared_event U1 U2.
  - eapply (inv_fence _ _ _ I t1 t2 k1 k2 b x); eauto using prepared_unresolved.
  - exfalso. eapply (prepared_only b x t1 k1); congruence || done.
  - exfalso. eapply (prepared_only b x t2 k2); congruence || done.
  - congruence.
Qed.

Lemma prepared_inv : INV w'.
Proof.
  split.
  - apply (inv_locks _ _ _ I).
  - apply (inv_registered _ _ _ I).
  - apply (inv_settled _ _ _ I).
  - intros t' op f [He|[= -> -> ->]]%prepared_event; [|eauto using prepared_row].
    destruct (inv_prepared _ _ _ I _ _ _ He) as [r Hr]. rewrite (prepared_keeps_row _ _ Hr). eauto.
  - intros t1 t2 op f1 f2 [H1|E1]%prepared_event [H2|E2]%prepared_event; simplify_eq;
      [by eapply (inv_unique _ _ _ I)| by destruct (prepared_first t1 f1) | by destruct (prepared_first t2 f2) | done].
  - intros t' op f r [He|[= -> -> ->]]%prepared_event Hr.
    + rewrite prepared_rows in Hr by (intros ->; by apply (prepared_first t' f)). by eapply (inv_fences _ _ _ I).
    + rewrite prepared_row in Hr. injection Hr as <-. apply (fi_fences _ _ _ _ Hf).
  - intros t' op m a s [He|?]%prepared_event; [|done]. destruct (inv_sent _ _ _ I _ _ _ _ _ He) as [[r Hr] Hp].
    rewrite (prepared_keeps_row _ _ Hr). split; [eauto|].
    destruct Hp as [[f ?]|Hp]; [left; exists f; apply prepared_event; by left | right].
    revert Hp. apply moved_mono. eauto using same_intent_refl, prepared_keeps_row.
  - intros op r Hp Hr Hg Hns. destruct (decide (op = req_op q)) as [->|Hne].
    + rewrite prepared_row in Hr. injection Hr as <-. cbn in Hns. rewrite (fi_unknown _ _ _ _ Hf) in Hns. done.
    + rewrite prepared_rows in Hr by done. intros t' m a s [He|?]%prepared_event; [|done].
      eapply (inv_not_sent _ _ _ I op r); eauto using prepared_before.
  - intros op r Hp Hr Ha. destruct (decide (op = req_op q)) as [->|Hne].
    + rewrite prepared_row in Hr. injection Hr as <-. cbn in Ha. rewrite (fi_unknown _ _ _ _ Hf) in Ha. done.
    + rewrite prepared_rows in Hr by done. destruct (inv_applied _ _ _ I op r) as (rc & ? & Hb); [by apply prepared_before|done..|].
      exists rc. split; [done|]. revert Hb.
      apply backed_mono; [intros x Hx; apply prepared_event; by left | done|]. eauto using same_intent_refl, prepared_keeps_row.
  - apply prepared_fenced.
Qed.

Lemma prepared_keeps : keeps RLY INV t w w'.
Proof.
  split; [apply prepared_inv|]. intros t' Hne. split; try done.
  - exists [(t, e_prepared (req_op q) (req_fence q))]. split; [done|]. constructor; [cbn; congruence | constructor].
  - intros op r Hr. exists r. eauto using same_intent_refl, prepared_keeps_row.
  - intros op [[r Hr] Hnp] Hp. destruct (decide (op = req_op q)) as [->|Hne2]; [congruence|].
    by apply Hnp, prepared_before.
  - intros op r Hr _ _ _. split; [by apply prepared_keeps_row|]. intros x Hx (m & a & s & E).
    apply prepared_event in Hx as [?| ->]; [done | discriminate].
  - intros x b op t2 Hx Hl He Hun. apply prepared_event in He as [He|[= -> -> E]].
    + split; [done|]. by eapply prepared_unresolved.
    + destruct Hne. apply (inv_locks _ _ _ I t' t (handle_row x)); [done|]. apply (he_target _ _ Hh); [done|].
      unfold req_fence in E. congruence.
Qed.
End prepared.

Lemma run_prepare {A} intent g fp u (f : unit → Request A) (Φ : Vars → res A → PWorld → Prop) v w n
    (K : PWorld → Prop) `{!Lasting K} :
  acts t w = [e_now n] → Held (Some g) w → Clear w → Fits intent g fp u → K w →
  (∀ e w', unsent t w' → Φ v (Err e) w') →
  (∀ w', INV w' → acts t w' = [e_now n; e_prepared (req_op q) (req_fence q)] → Held (Some g) w' → Owner w' →
     (∃ r, rows w' !! req_op q = Some r ∧ GrantState.intent r = intent) → K w' → RUN (f tt) Φ v w') →
  RUN (call (Prepare intent g fp u) ≫= f) Φ v w.
Proof.
  intros Ha Hh Hc Hf HK He Hk. apply runs_call_bind. intros w1 H1 I1 L1 _ w2 r Hp.
  apply (stable w w1) in HK; [|by apply calm_R].
  destruct (stable_held (Some g) w w1) as [Hg1 Hr1 Ht1]; [by apply calm_R | done|].
  assert (Hh1 : Held (Some g) w1) by (by split).
  assert (Hc1 : Clear w1) by (apply (stable_clear (Some g) w); [by apply calm_R | done]).
  assert (Ha1 : acts t w1 = [e_now n]) by (by apply (acts_calm w)).
  change (prepares O t intent g fp u (tick w1) = (w2, r)) in Hp.
  unfold prepares, db in Hp. rewrite (fi_operation _ _ _ _ Hf) in Hp. change (str_opt (Some (req_op q))) with (req_op q) in Hp.
  destruct (connected _ _ _) as [d r0] eqn:E. apply connected_call in E as [Hd Hr].
  unfold prepare in Hd, Hr. rewrite (fi_operation _ _ _ _ Hf) in Hd, Hr. change (str_opt (Some (req_op q))) with (req_op q) in Hd, Hr.
  change (effect_intents (grant_db (tick w1))) with (rows w1) in Hd, Hr.
  change (rows (tick w1)) with (rows w1) in Hp.
  assert (Hquiet : ∀ e, keeps RLY INV t w1 (tick w1) ∧ Local t q (tick w1) ∧ RUN (returns (Err e)) Φ v (tick w1)).
  { intros e. split; [apply (read_keeps w1 (tick w1)); [by left | done]|]. split; [revert L1; by apply History_mono|].
    intros w3 H3 _ _. apply He. eapply unsent_acts; [by apply (acts_calm (tick w1)), Ha1|]. set_solver. }
  assert (Hsame : with_grant_db (grant_db w1) (tick w1) = tick w1) by apply (with_same (tick w1)).
  destruct (rows w1 !! req_op q) as [old|] eqn:Eo.
  { cbn in Hd. assert (d = grant_db w1) as -> by (by destruct Hd). rewrite Hsame in Hp. injection Hp as <- <-.
    destruct r0 as [[]|e]; [by specialize (Hr _ eq_refl)|]. apply Hquiet. }
  cbn in Hd. set (row := new_row intent g fp u) in *. destruct Hd as [-> | ->].
  { rewrite Hsame in Hp. change (rows (tick w1)) with (rows w1) in Hp. rewrite Eo in Hp. injection Hp as <- <-.
    destruct r0 as [[]|e]; [|apply Hquiet]. specialize (Hr _ eq_refl).
    injection Hr as Hr. exfalso. assert (Hx : rows w1 !! req_op q = Some row); [|congruence].
    unfold rows. rewrite <- Hr at 1. cbn. apply lookup_insert_eq. }
  unfold rows at 1 in Hp. cbn [grant_db with_grant_db with_intents effect_intents] in Hp.
  rewrite lookup_insert_eq, (fi_fence _ _ _ _ Hf) in Hp. injection Hp as <- <-.
  change (log t (e_prepared (req_op q) (req_fence q)) _) with (prepared_world row w1).
  assert (Hkeep : keeps RLY INV t w1 (prepared_world row w1)) by (by apply prepared_keeps).
  assert (Hacts : acts t (prepared_world row w1) = [e_now n; e_prepared (req_op q) (req_fence q)]).
  { unfold prepared_world. rewrite acts_log. cbn [is_act]. change (acts t (with_grant_db _ _)) with (acts t w1). by rewrite Ha1. }
  split; [done|]. split; [unfold Local; rewrite Hacts; constructor|].
  assert (Hus : unsent t (prepared_world row w1)).
  { eapply unsent_acts; [done|]. set_solver. }
  destruct r0 as [[]|e].
  - assert (Hrow : rows (prepared_world row w1) !! req_op q = Some row) by (unfold rows; cbn; apply lookup_insert_eq).
    apply Hk; [apply Hkeep | done | by split | | by exists row |].
    2: { revert HK. apply lasting. split; [intros x ?; cbn; rewrite elem_of_app; by left | done]. }
    split.
    + exists (req_fence q). cbn. rewrite elem_of_app. right. by left.
    + exists row. split; [done|]. split; [cbn; unfold req_key; by rewrite (fi_principal _ _ _ _ Hf)|].
      intros _ _. unfold is_unknown. cbn. by rewrite (fi_unknown _ _ _ _ Hf).
    + intros t' m a s _. cbn. rewrite elem_of_app, list_elem_of_singleton. intros [Hs|?]; [|done].
      destruct (inv_sent _ _ _ I1 _ _ _ _ _ Hs) as [[? ?] _]. congruence.
  - intros w3 H3 _ _. apply He. by apply (stable_unsent (prepared_world row w1)); [apply calm_R|].
Qed.

(** ** Resolving it *)

(** The row of the operation is the request's. *)
Definition Row (w : PWorld) : Prop := ∃ r, rows w !! req_op q = Some r ∧ principal_key_ r = req_key q.

#[export] Instance stable_row : Stable Row.
Proof.
  intros w w' H (r & Hr & Hk). destruct (cm_rows _ _ H _ _ Hr) as (r' & Hr' & S). exists r'. split; [done|].
  destruct S as (_ & -> & _). done.
Qed.

(** An outcome that may be recorded: its effect was observed; or the intent is
    unresolved, and what is said not to have been sent was only the request's
    to send. *)
Definition Final (o : GuardOutcome) (w : PWorld) : Prop :=
  (effect o = applied ∧ ∃ rc, receipt o = Some rc ∧ backed rc w) ∨
  (effect o ≠ applied ∧ Open w ∧ (effect o = not_sent → Owner w ∧ unsent t w)).

#[export] Instance stable_final g o : Stable (λ w, Held g w ∧ Final o w).
Proof.
  intros w w' H [Hh Hf]. split; [by apply (stable_held g w)|]. destruct Hf as [(Ho & rc & ? & ?)|(Ho & Hw & Hu)].
  - left. split; [done|]. exists rc. split; [done | by apply (stable_backed rc w)].
  - right. split; [done|]. split; [by apply (stable_open g w)|]. intros Hn. destruct (Hu Hn) as [Hown Hs].
    split; [by apply (stable_owner g w) | by apply (stable_unsent w)].
Qed.

(** A step that only resolves a row. *)
Record resolves (w w' : PWorld) : Prop := {
  rs_trace : trace w' = trace w;
  rs_locks : locks w' = locks w;
  rs_stored : stored w' = stored w;
  rs_handles : handle_db w' = handle_db w;
  rs_rows op r : rows w !! op = Some r → ∃ r', rows w' !! op = Some r' ∧ same_intent r r' }.

Lemma resolves_backed rc w w' : resolves w w' → backed rc w → backed rc w'.
Proof.
  intros H. apply backed_mono; [by rewrite (rs_trace _ _ H) | by rewrite (rs_handles _ _ H) | apply (rs_rows _ _ H)].
Qed.

Lemma resolves_held g w w' : resolves w w' → Held g w → Held g w'.
Proof. intros H [? ? ?]. split; rewrite ?(rs_stored _ _ H), ?(rs_locks _ _ H); done. Qed.

Lemma resolves_row w w' : resolves w w' → Row w → Row w'.
Proof.
  intros H (r & Hr & Hk). destruct (rs_rows _ _ H _ _ Hr) as (r' & Hr' & S). exists r'. split; [done|].
  destruct S as (_ & -> & _). done.
Qed.

Lemma resolves_answer o w w' : resolves w w' → Answer t q o w → Answer t q o w'.
Proof.
  intros H [H1 H2]. unfold Answer, unsent, foreign, prepared. rewrite (rs_trace _ _ H). split; [done|].
  intros Ho. destruct (H2 Ho) as [(rc & ? & ?)|[[r Hr] ?]]; [left; exists rc; eauto using resolves_backed | right].
  split; [|done]. destruct (rs_rows _ _ H _ _ Hr) as (r' & -> & _). eauto.
Qed.

(** The world after the row was resolved. *)
Definition resolved_world (r : EffectRow) (w : PWorld) : PWorld :=
  with_grant_db (with_intents (<[req_op q := r]> (rows w)) (grant_db w)) (tick w).

Section resolved.
Context (g : option WorkGrant) (o : GuardOutcome) (row : EffectRow) (w : PWorld).
Context (I : INV w) (Hh : Held g w) (Hf : Final o w) (Hrow : rows w !! req_op q = Some row)
  (Hkey : principal_key_ row = req_key q).
#[local] Set Default Proof Using "I Hh Hf Hrow Hkey".

Abbreviation w' := (resolved_world (with_outcome row o) w).

Lemma resolved_row : rows w' !! req_op q = Some (with_outcome row o).
Proof. unfold rows. cbn. apply lookup_insert_eq. Qed.

Lemma resolved_rows k : k ≠ req_op q → rows w' !! k = rows w !! k.
Proof. intros Hk. unfold rows. cbn. by rewrite lookup_insert_ne. Qed.

Lemma resolved_resolves : resolves w w'.
Proof.
  split; try done. intros k r Hr. destruct (decide (k = req_op q)) as [->|Hne].
  - rewrite resolved_row. eexists. split; [done|]. assert (r = row) as -> by congruence. by unfold same_intent.
  - rewrite resolved_rows by done. eauto using same_intent_refl.
Qed.

Lemma resolved_unresolved k : unresolved registered k w' → prepared k w → unresolved registered k w.
Proof.
  intros (r & Hr & Hun & Hg) Hp. destruct (decide (k = req_op q)) as [->|Hne].
  - rewrite resolved_row in Hr. injection Hr as <-. cbn in Hg. rewrite Hkey in Hg.
    unfold is_unknown in Hun. cbn in Hun. rewrite eqb_true in Hun.
    destruct Hf as [[? _]|(_ & Ho & _)]; [congruence|]. destruct Ho as (r2 & Hr2 & Hk2 & Hu2).
    exists r2. rewrite Hk2. auto.
  - rewrite resolved_rows in Hr by done. by exists r.
Qed.

Lemma resolved_inv : INV w'.
Proof.
  pose proof resolved_resolves as Hres. split.
  - apply (inv_locks _ _ _ I).
  - apply (inv_registered _ _ _ I).
  - apply (inv_settled _ _ _ I).
  - intros t' op f He. destruct (inv_prepared _ _ _ I _ _ _ He) as [r Hr].
    destruct (rs_rows _ _ Hres _ _ Hr) as (r' & -> & _). eauto.
  - apply (inv_unique _ _ _ I).
  - intros t' op f r He Hr. destruct (inv_prepared _ _ _ I _ _ _ He) as [r0 Hr0].
    destruct (rs_rows _ _ Hres _ _ Hr0) as (r' & Hr' & S). assert (r' = r) as -> by congruence.
    pose proof (inv_fences _ _ _ I _ _ _ _ He Hr0) as Hfe. intros x Hx. specialize (Hfe x Hx).
    destruct S as (_ & _ & -> & _ & _ & ->). done.
  - intros t' op m a s He. destruct (inv_sent _ _ _ I _ _ _ _ _ He) as [[r Hr] Hp]. split.
    + destruct (rs_rows _ _ Hres _ _ Hr) as (r' & -> & _). eauto.
    + destruct Hp as [?|Hp]; [by left | right]. revert Hp. apply moved_mono, (rs_rows _ _ Hres).
  - intros op r Hp Hr Hg Hns. destruct (decide (op = req_op q)) as [->|Hne].
    + rewrite resolved_row in Hr. injection Hr as <-. cbn in Hg, Hns. rewrite Hkey in Hg.
      destruct Hf as [[? _]|(_ & _ & Hus)]; [congruence|]. destruct (Hus Hns) as [Ho Hs]. intros t' m a s He.
      rewrite (ow_alone _ Ho t' m a s Hg He) in He. by apply Hs in He.
    + rewrite resolved_rows in Hr by done. by apply (inv_not_sent _ _ _ I op r).
  - intros op r Hp Hr Ha. destruct (decide (op = req_op q)) as [->|Hne].
    + rewrite resolved_row in Hr. injection Hr as <-. cbn in Ha.
      destruct Hf as [(_ & rc & ? & ?)|[? _]]; [|done]. exists rc. eauto using resolves_backed.
    + rewrite resolved_rows in Hr by done. destruct (inv_applied _ _ _ I op r Hp Hr Ha) as (rc & ? & ?).
      exists rc. eauto using resolves_backed.
  - intros t1 t2 k1 k2 b x Hx H1 H2 U1 U2.
    apply (inv_fence _ _ _ I t1 t2 k1 k2 b x Hx H1 H2); apply resolved_unresolved; try done; by eexists _, _.
Qed.

Lemma resolved_keeps : keeps RLY INV t w w'.
Proof.
  split; [apply resolved_inv|]. intros t' Hne. split; try done.
  - exists []. by rewrite app_nil_r.
  - apply (rs_rows _ _ resolved_resolves).
  - intros op [_ ?]. done.
  - intros op r Hr _ Hg Hl. split; [|done]. rewrite resolved_rows; [done|]. intros ->.
    assert (r = row) as -> by congruence. rewrite Hkey in Hg, Hl.
    by apply Hne, (inv_locks _ _ _ I t' t (grant_row (req_key q))), (he_registered _ _ Hh).
  - intros x b op t2 _ _ He Hun. split; [done|]. apply resolved_unresolved; [done | by eexists _, _].
Qed.
End resolved.

Lemma run_finish {A} o (f : unit → Request A) (Φ : Vars → res A → PWorld → Prop) v w h g (K : PWorld → Prop)
    `{!Stable K} :
  acts t w = h → Grants.operation_id o = Some (req_op q) → Held g w → Final o w → Row w → K w →
  (∀ w w', resolves w w' → K w → K w') →
  (∀ e w', acts t w' = h → K w' → Φ v (Err e) w') →
  (∀ w', INV w' → acts t w' = h → Held g w' → Row w' → (effect o = unknown → Open w') → K w' → RUN (f tt) Φ v w') →
  RUN (call (Finish o) ≫= f) Φ v w.
Proof.
  intros Ha Hop Hh Hf Hr HK Hres He Hk. apply runs_call_bind. intros w1 H1 I1 L1 _ w2 r Hp.
  assert (Hc : calm w w1) by (by apply calm_R).
  destruct (stable_final g o w w1 Hc (conj Hh Hf)) as [Hh1 Hf1].
  pose proof (stable_row w w1 Hc Hr) as Hr1. pose proof (stable w w1 Hc HK) as HK1.
  assert (Ha1 : acts t w1 = h) by (by apply (acts_calm w)).
  assert (Hw : resolves w1 w2 ∧ keeps RLY INV t w1 w2 ∧ (effect o = unknown → Open w2)).
  { change (db O (finish o) (tick w1) = (w2, r)) in Hp. unfold db in Hp.
    destruct (connected _ _ _) as [d r0] eqn:E. apply connected_call in E as [Hd _]. injection Hp as <- <-.
    destruct Hr1 as (row & Hrow & Hkey).
    assert (Hfin : finish o (grant_db (tick w1)) =
      (with_intents (<[req_op q := with_outcome row o]> (rows w1)) (grant_db w1), Ok tt)).
    { unfold finish. rewrite Hop. change (str_opt (Some (req_op q))) with (req_op q).
      change (effect_intents (grant_db (tick w1))) with (rows w1). by rewrite Hrow. }
    rewrite Hfin in Hd. destruct Hd as [-> | ->].
    - rewrite with_same. split; [split; try done; eauto using same_intent_refl|].
      split; [apply (read_keeps w1 (tick w1)); [by left | done]|].
      intros Eu. destruct Hf1 as [[? _]|(_ & Ho & _)]; [congruence | done].
    - split; [by apply (resolved_resolves g o row w1)|]. split; [by apply (resolved_keeps g o row w1)|].
      intros Eu. exists (with_outcome row o). split; [unfold rows; cbn; apply lookup_insert_eq|].
      split; [done|]. intros _ _. by apply eqb_true. }
  destruct Hw as (Hw & Hkeep & Hopen).
  assert (Ha2 : acts t w2 = h) by (unfold acts; by rewrite (rs_trace _ _ Hw)).
  pose proof (Hres _ _ Hw HK1) as HK2.
  split; [done|]. split.
  { unfold Local in *. rewrite Ha2, <- Ha1. revert L1. apply History_mono. by rewrite (rs_handles _ _ Hw). }
  destruct r as [[]|e].
  - apply Hk; [apply Hkeep | done | by apply (resolves_held g w1) | by apply (resolves_row w1) | done..].
  - intros w3 H3 _ _. apply He; [by apply (acts_calm w2)|]. apply (stable w2); [by apply calm_R | done].
Qed.

(** ** Binding a created work *)

Lemma bind_reserved_grows work p id d h :
  h ∈ work_handles d → h ∈ work_handles (bind_reserved work p id false d).1.
Proof.
  intros Hh. unfold bind_reserved, transaction, insert_handle, mbind, M_bind, mret, M_ret, get_st, lift, throw_if.
  repeat (case_match; cbn in *; simplify_eq/=); try done; rewrite elem_of_app; by left.
Qed.

Lemma bind_reserved_binds work p id d d' h :
  bind_reserved work p id false d = (d', Ok h) → mkHandle work p id ∈ work_handles d'.
Proof.
  unfold bind_reserved. rewrite M_bind_Ok. intros (d1 & found & H1 & H2). apply (proj1 (transaction_ok _ _ _ _)) in H1.
  unfold insert_handle, mbind, M_bind in H1. destruct (existsb _ _) eqn:E.
  - cbn in H1. injection H1 as <- <-. inv_M.
    match goal with H : same_binding _ _ _ = Ok ?x |- _ => rename H into Hs; rename x into y end.
    unfold same_binding in Hs. destruct (existing work p id d) as [|z [|? ?]] eqn:Ee; try done.
    destruct (has_key p id z) eqn:Ek; [|done]. injection Hs as ->.
    assert (Hz : y ∈ work_handles d).
    { assert (Hy : In y (existing work p id d)) by (rewrite Ee; by left).
      unfold existing in Hy. apply filter_In in Hy as [Hy _]. by apply list_elem_of_In. }
    match goal with H : negb (has_id work y) && _ = false |- _ => rename H into Hi end.
    rewrite andb_true_r, negb_false_iff in Hi. unfold has_key, has_id in *. to_prop.
    destruct y as [i p' id']. cbn in *. destruct Ek. by subst.
  - cbn in H1. injection H1 as <- <-. injection H2 as <- <-. cbn. rewrite elem_of_app. right. by left.
Qed.

Lemma run_bind {A} work p id (f : Handle → Request A) (Φ : Vars → res A → PWorld → Prop) v w h (K : PWorld → Prop)
    `{!Stable K} :
  acts t w = h → K w →
  (∀ e w', acts t w' = h → K w' → Φ v (Err e) w') →
  (∀ b w', INV w' → acts t w' = h → K w' → bound_as work p id w' → RUN (f b) Φ v w') →
  RUN (call (Bind_reserved work p id) ≫= f) Φ v w.
Proof.
  intros Ha HK He Hk. apply runs_call_bind. intros w1 H1 I1 L1 _ w2 r Hp.
  change (handle_call O (bind_reserved work p id false) (tick w1) = (w2, r)) in Hp. unfold handle_call in Hp.
  destruct (connected _ _ _) as [d r0] eqn:E. apply connected_call in E as [Hd Hr]. injection Hp as <- <-.
  assert (Hgrow : ∀ x, x ∈ work_handles (handle_db w1) → x ∈ work_handles d).
  { intros x Hx. destruct Hd as [-> | ->]; [done | by apply bind_reserved_grows]. }
  set (w2 := with_handle_db d (tick w1)).
  assert (Hbk : ∀ rc, backed rc w1 → backed rc w2).
  { intros rc. apply backed_mono; [done | done|]. eauto using same_intent_refl. }
  assert (Hinv : INV w2).
  { split; try apply I1.
    - intros x Hx. pose proof (inv_settled _ _ _ I1 x Hx) as Hb. unfold bound in *. rewrite existsb_exists in *.
      destruct Hb as (y & Hy & ?). exists y. split; [|done]. rewrite <- list_elem_of_In in *. by apply Hgrow.
    - intros op row Hp0 Hrow Hap. destruct (inv_applied _ _ _ I1 op row Hp0 Hrow Hap) as (rc & ? & ?). eauto. }
  assert (Hkeep : keeps RLY INV t w1 w2).
  { split; [done|]. intros t' Hne. split; try done.
    - exists []. by rewrite app_nil_r.
    - intros op row. eauto using same_intent_refl.
    - by intros op [_ ?]. }
  assert (Hc : calm w1 w2).
  { split; try done. intros op row. eauto using same_intent_refl. by intros op [_ ?]. }
  assert (HK2 : K w2) by (apply (stable w1); [done|]; apply (stable w); [by apply calm_R | done]).
  assert (Ha2 : acts t w2 = h) by (by apply (acts_calm w w1)).
  split; [done|]. split; [revert L1; by apply History_mono|].
  destruct r0 as [b|e].
  - apply Hk; [done..|]. specialize (Hr _ eq_refl). by apply bind_reserved_binds in Hr.
  - intros w3 H3 _ _. apply He; [by apply (acts_calm w2)|]. apply (stable w2); [by apply calm_R | done].
Qed.

(** ** Sending *)

Definition sent_world (m : Mutation) (a : res unit) (w : PWorld) : PWorld :=
  log t (e_sent (req_op q) m a (stored w)) (tick w).

Lemma send_keeps g m a w (w' := sent_world m a w) :
  INV w → Held g w → Open w →
  (∃ f, (t, e_prepared (req_op q) f) ∈ trace w) ∨ moved (req_op q) m w →
  keeps RLY INV t w w'.
Proof.
  intros I Hh (row & Hrow & Hkey & Hun) Hwhy.
  assert (Hev : ∀ x, x ∈ trace w' ↔ x ∈ trace w ∨ x = (t, e_sent (req_op q) m a (stored w))).
  { intros x. cbn. by rewrite elem_of_app, list_elem_of_singleton. }
  assert (Hpe : ∀ t' op f, (t', e_prepared op f) ∈ trace w' ↔ (t', e_prepared op f) ∈ trace w).
  { intros t' op f. rewrite Hev. split; [by intros [?|?] | by left]. }
  assert (Hpr : ∀ op, prepared op w' ↔ prepared op w) by (intros op; unfold prepared; by setoid_rewrite Hpe).
  assert (Hbk : ∀ rc, backed rc w → backed rc w').
  { intros rc. apply backed_mono; [intros x Hx; apply Hev; by left | done|]. eauto using same_intent_refl. }
  assert (Hinv : INV w').
  { split; try apply I.
    - intros t' op f. rewrite Hpe. apply (inv_prepared _ _ _ I).
    - intros t1 t2 op f1 f2. rewrite !Hpe. apply (inv_unique _ _ _ I).
    - intros t' op f r. rewrite Hpe. apply (inv_fences _ _ _ I).
    - intros t' op m' a' s. rewrite Hev. intros [He|[= -> -> -> -> ->]].
      + destruct (inv_sent _ _ _ I _ _ _ _ _ He) as [? Hp]. split; [done|].
        destruct Hp as [[f ?]|?]; [left; exists f; by apply Hpe | by right].
      + split; [by exists row|]. destruct Hwhy as [[f ?]|?]; [left; exists f; by apply Hpe | by right].
    - intros op r Hp Hr Hg Hns t' m' a' s. rewrite Hpr in Hp. rewrite Hev. intros [He|[= -> -> -> -> ->]].
      + by apply (inv_not_sent _ _ _ I op r Hp Hr Hg Hns t' m' a' s).
      + assert (r = row) as -> by (unfold rows in *; cbn in Hr; congruence). rewrite Hkey in Hg.
        specialize (Hun Hg Hp). unfold is_unknown in Hun. rewrite eqb_true in Hun. congruence.
    - intros op r Hp Hr Ha. rewrite Hpr in Hp. destruct (inv_applied _ _ _ I op r Hp Hr Ha) as (rc & ? & ?). eauto.
    - intros t1 t2 k1 k2 b x. rewrite !Hpe. apply (inv_fence _ _ _ I). }
  split; [done|]. intros t' Hne. split; try done.
  - exists [(t, e_sent (req_op q) m a (stored w))]. split; [done|]. constructor; [cbn; congruence | constructor].
  - eauto using same_intent_refl.
  - intros op [_ ?]. by rewrite Hpr.
  - intros op r Hr Hp Hg Hl. split; [done|]. intros x Hx (m' & a' & s & E). apply Hev in Hx as [?| ->]; [done|].
    cbn in E. injection E as <- <- <- <-. assert (r = row) as -> by congruence. rewrite Hkey in Hg, Hl.
    destruct Hne. by apply (inv_locks _ _ _ I t' t (grant_row (req_key q))), (he_registered _ _ Hh).
  - intros x b op t2 _ _. by rewrite Hpe.
Qed.

Lemma sent_grows m a w : grows w (sent_world m a w).
Proof. split; [intros x ?; cbn; rewrite elem_of_app; by left | done]. Qed.

Lemma sent_held g m a w : Held g w → Held g (sent_world m a w).
Proof. by intros [? ? ?]. Qed.

Lemma sent_open m a w : Open w → Open (sent_world m a w).
Proof.
  intros (r & ? & ? & Hu). exists r. split; [done|]. split; [done|]. intros Hg (t' & f & He). apply Hu; [done|].
  cbn in He. rewrite elem_of_app, list_elem_of_singleton in He. destruct He as [?|?]; [by exists t', f | done].
Qed.

Lemma sent_owner m a w : Owner w → Owner (sent_world m a w).
Proof.
  intros [(f & Hf) Ho Ha]. split; [|by apply sent_open|].
  - exists f. by apply (gr_trace _ _ (sent_grows m a w)).
  - intros t' m' a' s Hg. cbn. rewrite elem_of_app, list_elem_of_singleton. intros [?|[= -> _ _ _]]; [by eapply Ha | done].
Qed.

(** A call that sends [m]. *)
Lemma run_send {B} (c : Call B) m (r0 : PWorld → res B) (Ψ : Vars → res B → PWorld → Prop) v w h g
    (K K' : PWorld → Prop) `{!Stable K} `{!Stable K'} :
  (∀ w, perform O t B c w = sends t (req_op q) m (r0 w) (tick w)) →
  acts t w = h → K w →
  (∀ w1, INV w1 → K w1 → Held g w1 ∧ Open w1 ∧
     ((∃ f, (t, e_prepared (req_op q) f) ∈ trace w1) ∨ moved (req_op q) m w1) ∧
     ∀ a, History q (sent_world m a w1) (h ++ [e_sent (req_op q) m a (stored w1)]) ∧ K' (sent_world m a w1)) →
  (∀ r s w', INV w' → acts t w' = h ++ [e_sent (req_op q) m (r ≫= λ _, Ok tt) s] → K' w' → Ψ v r w') →
  RUN (call c) Ψ v w.
Proof.
  intros Hc Ha HK Hwhy HΨ. apply runs_call. intros w1 H1 I1 L1 _ w2 r Hp. rewrite Hc in Hp.
  assert (HK1 : K w1) by (apply (stable w); [by apply calm_R | done]).
  destruct (Hwhy w1 I1 HK1) as (Hh & Ho & Hw & Hlast). injection Hp as <- <-.
  set (a := r0 w1 ≫= λ _, Ok tt). change (log t (e_sent (req_op q) m a (stored (tick w1))) (tick w1)) with (sent_world m a w1).
  destruct (Hlast a) as [Hhist HK2].
  assert (Hacts : acts t (sent_world m a w1) = h ++ [e_sent (req_op q) m a (stored w1)]).
  { unfold sent_world. rewrite acts_log. cbn [is_act]. f_equal. by apply (acts_calm w w1). }
  split; [by eapply send_keeps|]. split; [unfold Local; by rewrite Hacts|].
  intros w3 H3 I3 _. apply (HΨ _ (stored w1)); [done | by apply (acts_calm (sent_world m a w1))|].
  apply (stable (sent_world m a w1)); [by apply calm_R | done].
Qed.

(** ** Sequencing *)

Lemma run_rely {A} (m : Request A) (Φ : Vars → res A → PWorld → Prop) v w w' :
  RLY t w w' → RUN m Φ v w → RUN m Φ v w'.
Proof. intros H. apply safe_rely; [apply R_trans | done]. Qed.

Lemma run_mret {A} (a : A) (Φ : Vars → res A → PWorld → Prop) v w :
  (∀ w', RLY t w w' → Φ v (Ok a) w') → RUN (mret a) Φ v w.
Proof. intros H w1 H1 _ _. by apply H. Qed.

Lemma run_assign {A} f (m : Request A) (Φ : Vars → res A → PWorld → Prop) v w :
  RUN m Φ (f v) w → RUN (assign f;; m) Φ v w.
Proof. done. Qed.

Lemma run_bind_ret {A B} (m : Request A) (f : A → Request B) (Φ : Vars → res B → PWorld → Prop) v w :
  RUN m (λ v1 r w1, match r with Ok a => RUN (f a) Φ v1 w1 | Err e => RUN (returns (Err e)) Φ v1 w1 end) v w →
  RUN (m ≫= f) Φ v w.
Proof. apply runs_bind. intros w1. apply R_refl. Qed.

Lemma run_try {B} (m : Request B) hh (next : B → Request GuardOutcome) (Φ : Vars → res GuardOutcome → PWorld → Prop) v w :
  RUN m (λ v1 r w1,
    match r with
    | Ok a => RUN (next a) Φ v1 w1
    | Err e => match hh e with Some n => RUN n Φ v1 w1 | None => RUN (returns (Err e)) Φ v1 w1 end
    end) v w →
  RUN (try_send m hh next) Φ v w.
Proof.
  intros H. unfold try_send. apply run_bind_ret. apply runs_handle; [intros; apply R_refl|]. apply run_bind_ret.
  revert H. apply runs_mono. intros v1 [a|e] w1 H.
  - apply run_mret. intros w2 H2. apply run_mret. intros w3 H3.
    apply (run_rely _ _ _ w1); [by eapply R_trans | done].
  - intros w2 H2 _ _. cbn [fst snd]. destruct (hh e) as [n|] eqn:E; unfold fmap, option_fmap, option_map.
    + apply run_bind_ret. apply (run_rely _ _ _ w1 w2) in H; [|done].
      assert (Hc := safe_closed _ _ _ _ _ t q _ _ w2 (R_trans registered settled t) H).
      revert Hc. apply safe_mono. intros [v3 [o|e3]] w3 H3.
      * cbn. intros w4 H4 I4 L4 w5 H5 I5 L5. apply H3; [|done..]. by eapply R_trans.
      * cbn. intros w4 H4 I4 L4 w5 H5 I5 L5. apply H3; [|done..]. by eapply R_trans.
    + intros w3 H3 _ _. apply (run_rely _ _ _ w1); [by eapply R_trans | done].
Qed.
End steps.
