(* ===== verification/ProviderRuns.v ===== *)
(** * The gateways, from their first call to their answer

    Each gateway's program, run by one thread among others, keeps the journal
    true and ends in an answer that is ([Post]). *)

From S2P Require Import Prelude Tables Json Contracts Grants GrantState Controller WorkState.
From S2P Require Import MutationEffect Tracker Store Gateways Threads ProviderGateways ProviderSystem ProviderSafety.
From S2P Require Import ProviderSteps.

Local Open Scope Z_scope.

(** A guard says that nothing was sent, or that it is not known. *)
Record guards (op : uuid) (guard : Guard) : Prop := {
  gd_unknown s r : effect (guard s r true) = unknown;
  gd_unsent s r : effect (guard s r false) = not_sent;
  gd_operation s r b : Grants.operation_id (guard s r b) = Some op }.

Lemma guard_by_guards v work op : guards op (guard_by v work op).
Proof. by split. Qed.

Lemma with_blocked_effect_unsent o prior o' : with_blocked_effect o prior = Ok o' → effect o' = effect o.
Proof. unfold with_blocked_effect. by repeat case_match; intros [= <-]. Qed.

Lemma may_be_sent_true o : may_be_sent o = true ↔ effect o ≠ not_sent.
Proof. unfold may_be_sent. by rewrite negb_true_iff, eqb_false. Qed.

Section runs.
#[local] Set Default Proof Using "All".
Context (registered : string → Prop) (settled : uuid → Prop) (O : Outside) (t : nat) (q : ProviderRequest).

Abbreviation INV := (Inv registered settled).
Abbreviation RLY := (R registered settled).
Abbreviation RUN m Φ v w := (runs (V := Vars) (perform O) ready RLY INV Local t q m Φ v w).
Abbreviation held := (Held registered settled t q).
Abbreviation owner := (Owner registered t q).
Abbreviation post := (Post t q).
Abbreviation final := (Final registered t q).

#[local] Existing Instances stable_and stable_pure stable_event stable_bound stable_backed stable_unsent stable_foreign
  stable_held stable_open stable_owner stable_clear stable_exc stable_answer stable_post stable_row stable_final
  lasting_stable lasting_pure lasting_event lasting_bound lasting_and.

Lemma answer_unknown o w : effect o = unknown → Answer t q o w.
Proof. intros E. split; congruence. Qed.

Lemma answer_unsent o w : effect o = not_sent → unsent t w → Answer t q o w.
Proof. intros E H. split; [done | congruence]. Qed.

(** Ending with an outcome that says nothing was sent. *)
Lemma run_refuse o v w h :
  acts t w = h → (∀ op m a s, e_sent op m a s ∉ h) → effect o = not_sent → RUN (mret o) post v w.
Proof.
  intros Ha Hn Ho.
  eapply (run_ret registered settled O t q o post v w (unsent t)).
  - eapply unsent_acts; [done..|]. intros op m a s Hs. by destruct (Hn op m a s).
  - intros w' _ Hu. split; [by right|]. intros o' [= <-]. by apply answer_unsent.
Qed.

Lemma run_raise (e : exn) v w h :
  acts t w = h → (∀ op m a s, e_sent op m a s ∉ h) → RUN (returns (Err e)) post v w.
Proof.
  intros Ha Hn. eapply (run_err registered settled O t q e post v w (unsent t)).
  - eapply unsent_acts; [done..|]. intros op m a s Hs. by destruct (Hn op m a s).
  - intros w' _ Hu. split; [by right | done].
Qed.

(** Ending with the outcome that the journal holds. *)
Lemma run_recorded_outcome r v w :
  acts t w = [] → INV w → rows w !! req_op q = Some r → RUN (mret (outcome r)) post v w.
Proof.
  intros Ha I Hr.
  apply (run_ret registered settled O t q _ _ _ _ (λ w, unsent t w ∧ Answer t q (outcome r) w)).
  - assert (Hu : unsent t w) by (eapply unsent_acts; [done|]; set_solver). split; [done|].
    split; [done|]. intros Happ. destruct (prepared_dec (req_op q) w) as [Hp|Hp]; [left | right; by split; [exists r|]].
    by apply (inv_applied _ _ _ I _ _ Hp Hr).
  - intros w' _ [Hu Hans]. split; [by right|]. by intros out [= <-].
Qed.

(** The exceptions of a read by a thread that sent nothing. *)
Lemma quiet_exc (v : Vars) w h (e : exn) :
  acts t w = h → (∀ op m a s, e_sent op m a s ∉ h) → post v (Err e) w.
Proof.
  intros Ha Hn. split; [|done]. right. eapply unsent_acts; [done..|]. intros op m a s Hs. by destruct (Hn op m a s).
Qed.

Lemma possible_exc (v : Vars) w (e : exn) : possible_send v = true → post v (Err e) w.
Proof. intros H. split; [by left | done]. Qed.

(** ** The frame of a request *)

Lemma run_exit classes guard (e : exn) v w :
  guards (req_op q) guard → Exc t v w →
  match
    (if is_a classes e then
       Some (v ← locals; mret (guard o_unknown "state_or_effect_unavailable"%string (possible_send v || negb (history_known v))))
     else None)
  with
  | Some n => RUN n post v w
  | None => RUN (returns (Err e)) post v w
  end.
Proof.
  intros Hg He. destruct (is_a classes e).
  - change (RUN (mret (guard o_unknown "state_or_effect_unavailable"%string (possible_send v || negb (history_known v)))) post v w).
    apply (run_ret registered settled O t q _ _ _ _ (Exc t v)); [done|]. intros w' _ He'. split; [done|]. intros o [= <-].
    destruct (possible_send v || negb (history_known v)) eqn:E.
    + apply answer_unknown, (gd_unknown _ _ Hg).
    + apply answer_unsent; [apply (gd_unsent _ _ Hg)|]. apply orb_false_iff in E as [E _].
      destruct He' as [?|?]; [congruence | done].
  - apply (run_err registered settled O t q _ _ _ _ (Exc t v)); [done|]. intros w' _ He'. by split.
Qed.

Lemma run_request classes guard (body : option WorkGrant → Request GuardOutcome) w v :
  guards (req_op q) guard → acts t w = [] → (∀ l, (t, l) ∉ locks w) →
  (∀ g w', INV w' → acts t w' = [] → held g w' → RUN (body g) post v w') →
  RUN (guarded classes guard (with_locked (req_key q) (req_target q) body)) post v w.
Proof.
  intros Hg Ha Hl Hb. unfold guarded. apply runs_handle; [intros; apply R_refl|]. unfold with_locked.
  apply (run_locked registered settled O t q _ _ v w Ha Hl).
  { intros e w' Ha'. apply run_exit; [done|]. right. eapply unsent_acts; [done..|]. set_solver. }
  intros g w' I' Ha' Hh'. apply run_bind_ret. apply runs_handle; [intros; apply R_refl|].
  specialize (Hb g w' I' Ha' Hh'). revert Hb. apply runs_mono. intros v1 [o|e] w1 [He Hans].
  - (* the answer, then the commit *)
    apply (run_ret registered settled O t q _ _ _ _ (post v1 (Ok o))); [by split|]. intros w2 _ HK.
    apply (run_end registered settled O t q Commit _ _ v1 w2 (post v1 (Ok o)));
      [by left | done | | |].
    + intros w3 w4 Hq [H1 H2]. split.
      * destruct H1 as [?|Hu]; [by left | right]. intros op m a s Hs. apply (quiet_event w3 w4) in Hs; [|done..]. by eapply Hu.
      * intros o' Ho. destruct (H2 o' Ho) as [A1 A2]. split.
        -- intros E op m a s Hs. apply (quiet_event w3 w4) in Hs; [|done..]. by eapply A1.
        -- intros E. destruct (A2 E) as [(rc & ? & ?)|[? Hnp]]; [left; exists rc; eauto using quiet_backed | right].
           split; [by rewrite (quiet_rows _ _ Hq)|]. intros Hp. apply Hnp. by apply (quiet_prepared w3 w4).
    + intros e w3 [H1 _]. apply run_exit; done.
    + intros w3 _ HK3. apply (run_ret registered settled O t q _ _ _ _ (post v1 (Ok o))); [done|].
      intros w4 _ HK4. apply (run_ret registered settled O t q _ _ _ _ (post v1 (Ok o))); [done|]. by intros.
  - (* the exception, and the rollback *)
    apply (run_end registered settled O t q Rollback _ _ v1 w1 (Exc t v1)); [by right | done | | |].
    + intros w3 w4 Hq [?|Hu]; [by left | right]. intros op m a s Hs. apply (quiet_event w3 w4) in Hs; [|done..]. by eapply Hu.
    + intros e' w3 H1. apply (run_err registered settled O t q _ _ _ _ (Exc t v1)); [done|].
      intros w4 _ H4. by apply run_exit.
    + intros w3 _ HK3. apply (run_err registered settled O t q _ _ _ _ (Exc t v1)); [done|].
      intros w4 _ HK4. apply (run_err registered settled O t q _ _ _ _ (Exc t v1)); [done|].
      intros w5 _ HK5. by apply run_exit.
Qed.

(** ** From the intent to its resolution *)

Lemma final_answer o w : final o w → Answer t q o w.
Proof.
  intros [(E & rc & Hr & Hb)|(E & _ & Hu)]; split; intros E2; try congruence; [left; by exists rc | by apply Hu].
Qed.

(** What a send establishes. *)
Definition SPost (g : option WorkGrant) (v : Vars) (r : res GuardOutcome) (w : PWorld) : Prop :=
  possible_send v = true ∧
  ∀ o, r = Ok o → Grants.operation_id o = Some (req_op q) ∧ held g w ∧ Row q w ∧ final o w.

Lemma run_record o v w g :
  possible_send v = true → Grants.operation_id o = Some (req_op q) → held g w → Row q w → final o w →
  RUN (call (Finish o);; mret o) post v w.
Proof.
  intros Hv Ho Hh Hr Hf.
  apply (run_finish registered settled O t q o _ _ v w (acts t w) g (Answer t q o)); auto using final_answer.
  - intros w1 w2 Hw. by apply resolves_answer.
  - intros e w' _ _. by apply possible_exc.
  - intros w' _ _ _ _ _ HK. apply (run_ret registered settled O t q _ _ _ _ (Answer t q o)); [done|].
    intros w2 _ HK2. split; [by left|]. by intros o' [= <-].
Qed.

(** The row of the operation carries the intent. *)
Definition written (intent : json) (w : PWorld) : Prop :=
  ∃ r, rows w !! req_op q = Some r ∧ GrantState.intent r = intent.

#[local] Instance stable_written intent : Stable registered settled t (written intent).
Proof using Type.
  intros w w' H (r & Hr & Hi). destruct (cm_rows _ _ _ _ _ H _ _ Hr) as (r' & Hr' & S). exists r'. split; [done|].
  destruct S as (_ & _ & _ & _ & _ & ->). done.
Qed.

#[local] Instance lasting_asked m : Lasting (asked q m).
Proof using Type. intros w w' H. apply asked_mono, (gr_handles _ _ H). Qed.

Lemma open_row w : Open registered q w → Row q w.
Proof using Type. intros (r & ? & ? & _). by exists r. Qed.

Lemma owner_open w : owner w → Open registered q w.
Proof using Type. by intros [_ ? _]. Qed.

Lemma run_journaled intent g fp guard send v w n (K : PWorld → Prop) `{!Lasting K} :
  acts t w = [e_now n] → held (Some g) w → Clear registered settled q w → guards (req_op q) guard →
  Fits q intent g fp (guard o_unknown "prepared_or_unconfirmed_send"%string true) → K w →
  (∀ w' n', INV w' → acts t w' = [e_now n; e_prepared (req_op q) (req_fence q); e_now n'] →
     grant_current g n' = true → held (Some g) w' → owner w' → written intent w' → K w' →
     RUN send (SPost (Some g)) (mkVars true (history_known v)) w') →
  RUN (journaled_send intent g fp guard send) post v w.
Proof.
  intros Ha Hh Hc Hg Hf HK Hs. unfold journaled_send.
  apply (run_prepare registered settled O t q _ _ _ _ _ _ v w n K Ha Hh Hc Hf HK).
  { intros e w' Hu. split; [by right | done]. }
  intros w1 I1 Ha1 Hh1 Hw1 Hr1 HK1. apply run_assign.
  apply (run_now registered settled O t q _ _ _ w1 _ (λ w, (held (Some g) w ∧ owner w) ∧ (written intent w ∧ K w)) Ha1);
    [done | intros; constructor |].
  intros n' w2 I2 Ha2 [[Hh2 Hw2] [Hr2 HK2]]. apply run_bind_ret. destruct (negb (grant_current g n')) eqn:En.
  - apply (run_ret registered settled O t q _ _ _ _ (λ w, (held (Some g) w ∧ owner w) ∧ unsent t w)).
    { split; [done|]. eapply unsent_acts; [done..|]. set_solver. }
    intros w3 _ [[Hh3 Hw3] Hu3]. apply (run_record _ _ _ (Some g)); [done | apply (gd_operation _ _ Hg) | done | by apply open_row, owner_open|].
    right. split; [rewrite (gd_unsent _ _ Hg); done|]. split; [apply (ow_open _ _ _ _ Hw3) | done].
  - apply negb_false_iff in En. specialize (Hs w2 n' I2 Ha2 En Hh2 Hw2 Hr2 HK2). revert Hs. apply runs_mono.
    intros v1 [o|e] w3 [Hp Hpost].
    + destruct (Hpost o eq_refl) as (? & ? & ? & ?). by apply (run_record _ _ _ (Some g)).
    + apply (run_err registered settled O t q _ _ _ _ (λ _, True)); [done|]. intros w4 _ _. by apply possible_exc.
Qed.

(** A send that ends in an outcome it may record. *)
Lemma run_send_ret o v w g (K : PWorld → Prop) `{!Stable registered settled t K} :
  possible_send v = true → Grants.operation_id o = Some (req_op q) → held g w → Open registered q w → K w →
  (∀ w', held g w' → Open registered q w' → K w' → final o w') →
  RUN (mret o) (SPost g) v w.
Proof.
  intros Hv Ho Hh Hw HK Hf.
  apply (run_ret registered settled O t q _ _ _ _ (λ w, (held g w ∧ Open registered q w) ∧ K w)); [done|].
  intros w1 _ [[Hh1 Hw1] HK1]. split; [done|]. intros o' [= <-].
  split; [done|]. split; [done|]. split; [by apply open_row | by apply Hf].
Qed.

Lemma run_send_unknown o v w g :
  possible_send v = true → Grants.operation_id o = Some (req_op q) → effect o = unknown → held g w → Open registered q w →
  RUN (mret o) (SPost g) v w.
Proof.
  intros Hv Ho He Hh Hw. apply (run_send_ret o v w g (λ _, True)); try done.
  intros w' _ Hw' _. right. rewrite He. by split.
Qed.

Lemma run_send_err {e : exn} v w g : possible_send v = true → RUN (returns (Err e)) (SPost g) v w.
Proof.
  intros Hv. by apply (run_err registered settled O t q _ _ _ _ (λ _, True)); [|intros w' _ _; split].
Qed.

(** A mutation that the provider refused. *)
Lemma refused_unsent h m (e : exn) s w :
  acts t w = h ++ [e_sent (req_op q) m (Err e) s] → (∀ op m a s, e_sent op m a s ∉ h) →
  is_a [UnknownEffect] e = false → is_a [ProviderError] e = true → unsent t w.
Proof.
  intros Ha Hn Hu Hp. eapply unsent_acts; [done|]. intros op m' a s'.
  rewrite elem_of_app, list_elem_of_singleton. intros [Hs|[= -> -> -> ->]]; [by destruct (Hn op m' a s')|].
  cbn -[is_a]. by rewrite Hp, Hu.
Qed.

(** The exception clauses of a send whose only mutation was answered by [e]. *)
Lemma run_refused P guard uncertain (e : exn) v w g h m s :
  guards (req_op q) guard → possible_send v = true → held (Some g) w → owner w →
  (∀ op m a s, e_sent op m a s ∉ h) → (is_a [UnknownEffect] e = false → is_a [ProviderError] e = true →
    acts t w = h ++ [e_sent (req_op q) m (Err e) s]) →
  RUN uncertain (SPost (Some g)) v w →
  match refused_or P guard uncertain e with
  | Some n => RUN n (SPost (Some g)) v w
  | None => RUN (returns (Err e)) (SPost (Some g)) v w
  end.
Proof.
  intros Hg Hv Hh Hw Hn Ha Hun. unfold refused_or. destruct (is_a [UnknownEffect] e) eqn:Eu; [done|].
  destruct (is_a [ProviderError] e) eqn:Ep; [|by apply run_send_err].
  apply (run_ret registered settled O t q _ _ _ _ (λ w, (held (Some g) w ∧ owner w) ∧ unsent t w)).
  - split; [done|]. apply (refused_unsent h m e s); auto.
  - intros w1 _ [[Hh1 Hw1] Hu1]. split; [done|]. intros o' [= <-].
    split; [apply (gd_operation _ _ Hg)|]. split; [done|]. split; [by apply open_row, owner_open|].
    right. rewrite (gd_unsent _ _ Hg). split; [done|]. split; [by apply owner_open | done].
Qed.
End runs.

(** A request that wrote the intent finds it unresolved. *)
Ltac owned := first [done | by eapply owner_open].

(** Ending a send with an unknown outcome, as the owner of the intent. *)
Ltac send_unknown := apply run_send_unknown; owned.

(** The next call is a read, after which [K] still holds: what is left is
    [K] now, the exception, and the rest. *)
Ltac next_read K :=
  lazymatch goal with
  | |- runs (perform ?O) _ (R ?r ?s) _ _ ?t ?q (call ?c ≫= ?f) ?Φ ?v ?w =>
      eapply (run_read r s O t q c f Φ v w _ K); [reflexivity | eassumption | ..]
  end.

(** ** Appends *)

Section appends.
#[local] Set Default Proof Using "All".
Context (registered : string → Prop) (settled : uuid → Prop) (O : Outside) (t : nat) (P : Providers).
Context (p : PrincipalContext) (a : ProtectedAppend).

Abbreviation q := (q_append p a).
Abbreviation INV := (Inv registered settled).
Abbreviation RUN m Φ v w := (runs (V := Vars) (perform O) ready (R registered settled) INV Local t q m Φ v w).
Abbreviation held := (Held registered settled t q).
Abbreviation owner := (Owner registered t q).
Abbreviation spost := (SPost registered settled t q).

#[local] Existing Instances stable_and stable_pure stable_event stable_bound stable_backed stable_unsent stable_foreign
  stable_held stable_open stable_owner stable_clear stable_exc stable_answer stable_post stable_row stable_final
  lasting_stable lasting_pure lasting_event lasting_bound lasting_and.

Lemma append_guards : guards (req_op q) (provider_append_guard a).
Proof. apply guard_by_guards. Qed.

Lemma run_append_confirmed g h ql gid v w hist :
  possible_send v = true → acts t w = hist → held (Some g) w → owner w →
  RUN (append_confirmed p a g h ql gid) (spost (Some g)) v w.
Proof.
  intros Hv Ha Hh Hw. unfold append_confirmed. set (u := provider_append_guard a o_unknown _ true).
  assert (Hu : ∀ w, held (Some g) w → owner w → RUN (mret u) (spost (Some g)) v w).
  { intros w0 ? ?. send_unknown. }
  destruct gid as [gid|]; [|by apply Hu].
  next_read (λ w, held (Some g) w ∧ owner w); [done | by intros; split|].
  intros story w1 _ Ha1 K1 Hstory.
  next_read (λ w, (held (Some g) w ∧ owner w) ∧
    (t, e_story (h_provider h) (h_provider_work_id h) gid (Ok story)) ∈ trace w); [done | by intros; split|].
  intros task w2 _ Ha2 [[Hh2 Hw2] Hstory2] Htask. cbn in Htask.
  destruct story as [s|]; [|by apply Hu]. destruct task as [tk|]; [|by apply Hu].
  destruct (_ && _) eqn:E; [|by apply Hu]. to_prop.
  set (o := applied_by _ _ _ _ _ _).
  apply (run_send_ret registered settled O t q o v w2 (Some g) (λ w,
    (t, e_story (h_provider h) (h_provider_work_id h) gid (Ok (Some s))) ∈ trace w ∧
    (t, e_task (h_provider h) (h_provider_work_id h) (Ok (Some tk))) ∈ trace w)); try owned.
  intros w3 _ _ [Hs3 Ht3]. left. split; [done|]. eexists. split; [done|]. exists t, s, tk. tauto.
Qed.

(** The append itself, under a grant that was current after the intent was
    written. *)
Lemma run_append_send g h ql v w n n' :
  possible_send v = true → acts t w = [e_now n; e_prepared (req_op q) (req_fence q); e_now n'] →
  grant_current g n' = true → allows q g → held (Some g) w → owner w →
  bound_as (pa_work_id a) (h_provider h) (h_provider_work_id h) w →
  RUN (append_send P p a g h ql) (spost (Some g)) v w.
Proof.
  intros Hv Ha Hc Hal Hh Hw Hb. unfold append_send. apply run_try.
  set (m := m_append (h_provider h) (h_provider_work_id h) (pa_text a)).
  eapply (run_send registered settled O t q _ m (λ w, o_append O (h_provider h) (h_provider_work_id h) (pa_text a) (tick w))
    _ v w _ (Some g) (λ w, (held (Some g) w ∧ owner w) ∧ bound_as (pa_work_id a) (h_provider h) (h_provider_work_id h) w)
    (λ w, held (Some g) w ∧ owner w)); [done | exact Ha | done | |].
  - intros w1 _ [[Hh1 Hw1] Hb1]. split; [done|]. split; [apply (ow_open _ _ _ _ Hw1)|].
    split; [left; apply (ow_prepared _ _ _ _ Hw1)|]. intros ans. split; [|by split; [apply sent_held | apply sent_owner]].
    eapply (h_sent q _ n n' m ans _ g); [by split | by apply (he_grant _ _ _ _ _ _ Hh1) | done | done].
  - intros r s w1 _ Ha1 [Hh1 Hw1]. destruct r as [gid|e]; [by eapply run_append_confirmed|].
    apply (run_refused registered settled O t q P _ _ e v w1 g [e_now n; e_prepared (req_op q) (req_fence q); e_now n'] m s
      append_guards Hv Hh1 Hw1); [set_solver | by intros _ _|].
    send_unknown.
Qed.

(** An append that the journal does not know. *)
Lemma run_append_new g ql v w n :
  ql = default ""%string (append_qualification g) →
  acts t w = [e_now n] → held (Some g) w → Clear registered settled q w → allows q g →
  RUN (append_new P p a g ql) (Post t q) v w.
Proof.
  intros -> Ha Hh Hc Hal. unfold append_new.
  assert (Hn : ∀ op m a s, e_sent op m a s ∉ [e_now n]) by set_solver.
  next_read (λ w, held (Some g) w ∧ Clear registered settled q w); [done | by intros; eapply quiet_exc|].
  intros [h|] w1 _ Ha1 [Hh1 Hc1] Hget; [|by eapply run_refuse]. specialize (Hget h eq_refl).
  destruct (known P (h_provider h)); cbn [negb]; [|by eapply run_raise].
  next_read (λ w, (held (Some g) w ∧ Clear registered settled q w) ∧
    bound_as (pa_work_id a) (h_provider h) (h_provider_work_id h) w); [done | by intros; eapply quiet_exc|].
  intros [cur|] w2 _ Ha2 [[Hh2 Hc2] Hb2] _; [|by eapply run_refuse].
  destruct (pt_canonical cur); cbn [negb]; [|by eapply run_refuse].
  destruct (pt_completed cur); [by eapply run_refuse|]. destruct (negb _); [by eapply run_refuse|].
  apply (run_journaled registered settled O t q _ g _ _ _ v w2 n
    (bound_as (pa_work_id a) (h_provider h) (h_provider_work_id h))); [done.. | apply append_guards | | done |].
  - split; try done. apply (al_principal _ _ Hal). by intros x [= <-].
  - intros w3 n' _ Ha3 Hcur Hh3 Hw3 _ Hb3. by eapply run_append_send.
Qed.

(** What the journal answers. *)
Lemma run_append_previous x v w n :
  acts t w = [e_now n] → INV w → saw t (Previous (pa_operation_id a) (pa_work_id a)) (Some x) w →
  RUN (append_previous p a x) (Post t q) v w.
Proof.
  intros Ha I (k & r & Hr & Hx & Hk). destruct x as [[who fp] o]. cbn in Hx. subst o. unfold append_previous.
  apply run_assign. assert (Hn : ∀ op m a s, e_sent op m a s ∉ [e_now n]) by set_solver.
  destruct (_ && _).
  - (* the recorded outcome *)
    apply (run_ret registered settled O t q _ _ _ _ (λ w, unsent t w ∧ Answer t q (outcome r) w)).
    + assert (Hu : unsent t w) by (eapply unsent_acts; [done|]; set_solver). split; [done|].
      split; [done|]. intros Happ. destruct Hk as [->|Hk]; [|by unfold is_unknown in Hk; rewrite eqb_true in Hk; congruence].
      destruct (prepared_dec (pa_operation_id a) w) as [Hp|Hp]; [left | right; by split; [exists r|]].
      by apply (inv_applied _ _ _ I _ _ Hp Hr).
    + intros w' _ [Hu Hans]. split; [by right|]. by intros o [= <-].
  - destruct (eqb _ _); [by eapply run_refuse|].
    destruct (with_blocked_effect _ _) as [o|e] eqn:Eb; [|by eapply run_raise].
    apply with_blocked_effect_unsent in Eb. by eapply run_refuse.
Qed.

Lemma append_grant_cases now grant :
  match refuse_grant p now (pa_work_id a) work_append (pa_grant_version a) append_qualification qualified
    "append_not_qualified_for_this_surface" (λ s r, provider_append_guard a s r false) grant with
  | inl g => grant = Some g ∧ allows q g
  | inr o => effect o = not_sent
  end.
Proof.
  unfold refuse_grant. destruct grant as [g|]; [|done]. destruct (admitted p now g) eqn:E1; cbn [negb]; [|done].
  destruct (grant_can_write g (pa_work_id a)) eqn:E2; cbn [negb orb]; [|done].
  destruct (mem work_append (operations g)) eqn:E3; cbn [negb]; [|done].
  destruct (pa_grant_version a =? version g) eqn:E4; cbn [negb]; [|done].
  destruct (qualified p (append_qualification g)) eqn:E5; cbn [negb]; [|done].
  split; [done|]. unfold admitted in E1. rewrite andb_true_iff, eqb_true in E1. rewrite mem_true in E3.
  apply Z.eqb_eq in E4. split; try done; [tauto|]. by intros x [= <-].
Qed.

(** No effect on the target is unresolved when the journal shows none. *)
Lemma append_clear w :
  INV w → saw t (Previous (pa_operation_id a) (pa_work_id a)) None w → Clear registered settled q w.
Proof.
  intros I Hs x t' k Hx [= <-] He (r & Hr & Hu & _).
  pose proof (inv_fences _ _ _ I _ _ _ _ He Hr _ eq_refl) as Hf. cbn in Hf. by rewrite (Hs k r Hr Hf) in Hu.
Qed.

Lemma run_append_locked g v w :
  acts t w = [] → held g w → RUN (append_locked P p a g) (Post t q) v w.
Proof.
  intros Ha Hh. unfold append_locked.
  apply (run_now registered settled O t q _ _ v w [] (held g) Ha Hh); [intros; constructor|].
  intros n w1 _ Ha1 Hh1. cbn [app] in Ha1. assert (Hn : ∀ op m a s, e_sent op m a s ∉ [e_now n]) by set_solver.
  pose proof (append_grant_cases n g) as Hr. destruct (refuse_grant _ _ _ _ _ _ _ _ _ _) as [g1|o]; [|by eapply run_refuse].
  destruct Hr as [-> Hal].
  next_read (held (Some g1)); [done | by intros; eapply quiet_exc|].
  intros [x|] w2 I2 Ha2 Hh2 Hsaw; apply run_assign.
  - by eapply run_append_previous.
  - eapply run_append_new; try done. by apply append_clear.
Qed.

Lemma run_append w v :
  acts t w = [] → (∀ l, (t, l) ∉ locks w) → RUN (append P p a) (Post t q) v w.
Proof.
  intros Ha Hl. apply (run_request registered settled O t q _ _ (append_locked P p a)); [apply append_guards | done..|].
  intros g w' _ Ha' Hh'. by apply run_append_locked.
Qed.
End appends.

(** ** The lifecycle of updates and relations *)

Section mutations.
#[local] Set Default Proof Using "All".
Context (registered : string → Prop) (settled : uuid → Prop) (O : Outside) (t : nat) (q : ProviderRequest).
Context (mq : MutationRequest) (fp : string) (o : MutationOperation) (denial : string) (guard : Guard)
  (prepare : WorkGrant → string → Request (json * Request GuardOutcome + GuardOutcome))
  (reconcile : EffectRecord → Request GuardOutcome).

Abbreviation INV := (Inv registered settled).
Abbreviation RUN m Φ v w := (runs (V := Vars) (perform O) ready (R registered settled) INV Local t q m Φ v w).
Abbreviation held := (Held registered settled t q).
Abbreviation post := (Post t q).

#[local] Existing Instances stable_and stable_pure stable_event stable_bound stable_backed stable_unsent stable_foreign
  stable_held stable_open stable_owner stable_clear stable_exc stable_answer stable_post stable_row stable_final
  lasting_stable lasting_pure lasting_event lasting_bound lasting_and.

Context (operation_eq : q_operation_id mq = req_op q) (target_eq : req_target q = Some (q_work_id mq))
  (version_eq : q_grant_version mq = req_version q) (granted_eq : granted_operation o = req_operation q)
  (qualification_eq : ∀ g, qualification o g = req_qualification q g)
  (fence_eq : req_fence q = mkFence false (Some (q_work_id mq)))
  (guard_ok : guards (req_op q) guard).
Context (prepare_ok : ∀ g ql v w n, req_qualification q g = Some ql → acts t w = [e_now n] → held (Some g) w →
    Clear registered settled q w → allows q g →
    RUN (x ← prepare g ql; match x with inr o => mret o | inl (intent, send) => journaled_send intent g fp guard send end)
      post v w)
  (reconcile_ok : ∀ record g v w, possible_send v = true → acts t w = [] → held g w → Open registered q w →
    written q (er_intent record) w → RUN (reconcile record) post v w).

Lemma authorize_cases grant now :
  match authorize (req_principal q) mq o denial guard grant now with
  | inl (g, ql) => grant = Some g ∧ req_qualification q g = Some ql ∧ allows q g
  | inr out => effect out = not_sent
  end.
Proof.
  unfold authorize. destruct grant as [g|]; [|apply (gd_unsent _ _ guard_ok)].
  destruct (negb (eqb (principal g) (req_principal q)) || _) eqn:E1; [apply (gd_unsent _ _ guard_ok)|].
  destruct (negb (grant_can_write g _) || _) eqn:E2; [apply (gd_unsent _ _ guard_ok)|].
  destruct (negb (eqb (q_grant_version mq) _)) eqn:E3; [apply (gd_unsent _ _ guard_ok)|].
  rewrite qualification_eq. destruct (req_qualification q g) as [ql|] eqn:Eq; [|apply (gd_unsent _ _ guard_ok)].
  destruct (xorb _ _) eqn:E4; [apply (gd_unsent _ _ guard_ok)|].
  rewrite orb_false_iff, !negb_false_iff, eqb_true in E1. destruct E1 as [E1 _].
  rewrite orb_false_iff, !negb_false_iff, mem_true in E2. destruct E2 as [E2 E5].
  rewrite negb_false_iff, eqb_true in E3. apply xorb_eq in E4.
  split; [done|]. split; [done|]. split.
  - done.
  - by rewrite <- granted_eq.
  - congruence.
  - rewrite target_eq. by intros x [= <-].
  - rewrite target_eq. done.
  - rewrite Eq. cbn. by rewrite E4, eqb_reflx.
Qed.

(** An operation that the journal holds. *)
Lemma run_recorded record g r v w :
  acts t w = [] → INV w → held g w → rows w !! req_op q = Some r → record = record_of r →
  RUN (mutation_recorded (req_principal q) fp guard reconcile record) post v w.
Proof.
  intros Ha I Hh Hr ->. unfold mutation_recorded. apply run_assign.
  assert (Hn : ∀ op m a s, e_sent op m a s ∉ []) by set_solver.
  destruct (negb _ || negb _) eqn:E1; [eapply run_refuse; [done..|]; apply (gd_unsent _ _ guard_ok)|].
  rewrite orb_false_iff, !negb_false_iff, !eqb_true in E1. destruct E1 as [Ek _]. cbn in Ek.
  destruct (negb (eqb _ unknown)) eqn:E2.
  - by apply (run_recorded_outcome registered settled O t q r).
  - rewrite negb_false_iff, eqb_true in E2. cbn in E2. apply (reconcile_ok _ g); [|done|done| |by exists r].
    + apply may_be_sent_true. cbn. congruence.
    + exists r. split; [done|]. split; [done|]. intros _ _. by apply eqb_true.
Qed.

Lemma clear_of w :
  INV w → saw t (Previous (q_operation_id mq) (q_work_id mq)) None w → Clear registered settled q w.
Proof.
  intros I Hs x t' k Hx Ht He (r & Hr & Hu & _). rewrite target_eq in Ht. injection Ht as <-. rewrite fence_eq in He.
  pose proof (inv_fences _ _ _ I _ _ _ _ He Hr _ eq_refl) as Hf. cbn in Hf. by rewrite (Hs k r Hr Hf) in Hu.
Qed.

Lemma run_new g ql v w n :
  req_qualification q g = Some ql → acts t w = [e_now n] → held (Some g) w → allows q g →
  RUN (mutation_new mq fp guard prepare g ql) post v w.
Proof.
  intros Hql Ha Hh Hal. unfold mutation_new. assert (Hn : ∀ op m a s, e_sent op m a s ∉ [e_now n]) by set_solver.
  next_read (held (Some g)); [done | by intros; eapply quiet_exc|].
  intros [[[who f] prior]|] w1 I1 Ha1 Hh1 Hsaw.
  - destruct (with_blocked_effect _ _) as [out|e] eqn:Eb; [|by eapply run_raise].
    apply with_blocked_effect_unsent in Eb. eapply run_refuse; [done..|]. rewrite Eb. apply (gd_unsent _ _ guard_ok).
  - apply (prepare_ok g ql v w1 n); try done. by apply clear_of.
Qed.

Lemma run_mutation w v :
  acts t w = [] → (∀ l, (t, l) ∉ locks w) →
  RUN (mutation (req_principal q) mq fp o denial guard prepare reconcile) post v w.
Proof.
  intros Ha Hl. unfold mutation. rewrite <- target_eq.
  apply (run_request registered settled O t q); [done..|]. clear w Ha Hl. intros g w I Ha Hh.
  unfold mutation_locked. rewrite operation_eq. assert (Hn : ∀ op m a s, e_sent op m a s ∉ []) by set_solver.
  next_read (held g); [done | by intros; eapply quiet_exc|].
  intros [record|] w1 I1 Ha1 Hh1 Hsaw; apply run_assign.
  - destruct (Hsaw record eq_refl) as (r & Hr & Hrec). by apply (run_recorded record g r).
  - apply (run_now registered settled O t q _ _ _ w1 [] (held g) Ha1 Hh1); [intros; constructor|].
    intros n w2 _ Ha2 Hh2. cbn [app] in Ha2. pose proof (authorize_cases g n) as Hc.
    assert (Hn2 : ∀ op m a s, e_sent op m a s ∉ [e_now n]) by set_solver.
    destruct (authorize _ _ _ _ _ _ _) as [[g1 ql]|out]; [|by eapply run_refuse].
    destruct Hc as (-> & Hql & Hal). by apply (run_new g1 ql _ _ n).
Qed.
End mutations.

(** ** Updates *)

Section updates.
#[local] Set Default Proof Using "All".
Context (registered : string → Prop) (settled : uuid → Prop) (O : Outside) (t : nat) (P : Providers).
Context (p : PrincipalContext) (a : ProtectedUpdate).

Abbreviation q := (q_update p a).
Abbreviation INV := (Inv registered settled).
Abbreviation RUN m Φ v w := (runs (V := Vars) (perform O) ready (R registered settled) INV Local t q m Φ v w).
Abbreviation held := (Held registered settled t q).
Abbreviation owner := (Owner registered t q).
Abbreviation post := (Post t q).
Abbreviation spost := (SPost registered settled t q).

#[local] Existing Instances stable_and stable_pure stable_event stable_bound stable_backed stable_unsent stable_foreign
  stable_held stable_open stable_owner stable_clear stable_exc stable_answer stable_post stable_row stable_final
  lasting_stable lasting_pure lasting_event lasting_bound lasting_and.

Lemma update_guards : guards (req_op q) (provider_update_guard a).
Proof. apply guard_by_guards. Qed.

(** What a readback saw. *)
Definition saw_scalar (provider id : string) (patch : Patch) (x : option ProviderWork) (w : PWorld) : Prop :=
  ∀ wk, x = Some wk → (t, e_work provider id (Ok (Some wk))) ∈ trace w ∧ pw_canonical wk = true ∧ patch_matches wk patch = true.

#[local] Instance stable_saw_scalar provider id patch x : Stable registered settled t (saw_scalar provider id patch x).
Proof. intros w w' H Hs wk Hx. destruct (Hs wk Hx) as (? & ? & ?). split; [by apply (cm_trace _ _ _ _ _ H) | done]. Qed.

Definition readback (send : bool) (provider id : string) (patch : Patch) : Request (option ProviderWork) :=
  work ← handle (call (Get_task provider id)) (λ e,
    if is_a [ProviderError] e then
      Some (if send then raises UnknownEffect "update readback unavailable" else returns (Err e))
    else None);
  mret (match work with
        | Some wk => if pw_canonical wk && patch_matches wk patch then Some wk else None
        | None => None
        end).

Lemma run_readback send provider id patch v w h (K : PWorld → Prop) `{!Stable registered settled t K}
    (Ψ : Vars → res (option ProviderWork) → PWorld → Prop) :
  acts t w = h → K w →
  (∀ x w', INV w' → acts t w' = h → K w' → saw_scalar provider id patch x w' → Ψ v (Ok x) w') →
  (∀ e w', INV w' → acts t w' = h → K w' →
     (send = true → is_a [UnknownEffect] e = false → is_a [ProviderError] e = false) → Ψ v (Err e) w') →
  RUN (readback send provider id patch) Ψ v w.
Proof.
  intros Ha HK Hok Herr. unfold readback. apply run_bind_ret. apply runs_handle; [intros; apply R_refl|].
  assert (Hraise : ∀ (e : exn) w1, acts t w1 = h → K w1 →
    (send = true → is_a [UnknownEffect] e = false → is_a [ProviderError] e = false) →
    RUN (returns (Err e)) (λ v1 r w1, match r with
      | Ok a => RUN (mret a) Ψ v1 w1
      | Err e => RUN (returns (Err e)) Ψ v1 w1
      end) v w1).
  { intros e w1 Ha1 HK1 Hs w2 H2 I2 _. intros w3 H3 I3 _. cbn. apply Herr; [done | | |done].
    - rewrite (acts_R _ _ _ _ _ H3). by rewrite (acts_R _ _ _ _ _ H2).
    - apply (stable _ _ _ w2); [by apply calm_R|]. apply (stable _ _ _ w1); [by apply calm_R | done]. }
  eapply (run_read_call registered settled O t q (Get_task provider id) _ v w h K); [reflexivity | done | done|].
  intros r w1 I1 Ha1 HK1 Hsaw. destruct r as [x|e].
  - intros w2 H2 I2 _. cbn. intros w3 H3 I3 _. cbn. apply Hok; [done | | |].
    + rewrite (acts_R _ _ _ _ _ H3). by rewrite (acts_R _ _ _ _ _ H2).
    + apply (stable _ _ _ w2); [by apply calm_R|]. apply (stable _ _ _ w1); [by apply calm_R | done].
    + specialize (Hsaw x eq_refl). cbn in Hsaw. intros wk Hwk. destruct x as [wk'|]; [|done].
      destruct (pw_canonical wk') eqn:E1, (patch_matches wk' patch) eqn:E2; try done. injection Hwk as <-.
      split; [|done]. by apply (trace_R _ _ _ _ _ _ H3), (trace_R _ _ _ _ _ _ H2).
  - destruct (is_a [ProviderError] e) eqn:Ep; [|by apply Hraise].
    destruct send; [|by apply Hraise]. by apply Hraise.
Qed.

(** What an update ends in when the work was read back, or not. *)
Lemma run_update_applied g grant version provider id ql x v w (K : PWorld → Prop) `{!Stable registered settled t K} :
  possible_send v = true → held (Some g) w → owner w → saw_scalar provider id (pu_patch a) x w →
  RUN (mret (update_applied p a grant version provider id ql x)) (spost (Some g)) v w.
Proof.
  intros Hv Hh Hw Hs. destruct x as [wk|]; [|send_unknown].
  apply (run_send_ret registered settled O t q _ v w (Some g) (saw_scalar provider id (pu_patch a) (Some wk))); try owned.
  intros w' _ _ Hs'. left. split; [done|]. eexists. split; [done|]. destruct (Hs' wk eq_refl) as (? & ? & ?).
  by exists t, wk.
Qed.

Lemma run_update_send g h ql v w n n' :
  possible_send v = true → acts t w = [e_now n; e_prepared (req_op q) (req_fence q); e_now n'] →
  grant_current g n' = true → allows q g → held (Some g) w → owner w →
  bound_as (pu_work_id a) (h_provider h) (h_provider_work_id h) w →
  RUN (update_send P p a g h ql) (spost (Some g)) v w.
Proof.
  intros Hv Ha Hc Hal Hh Hw Hb. unfold update_send.
  destruct (WorkPatch_validate (pu_patch a)) as [patch|e] eqn:Ep; [|by apply run_send_err].
  apply WorkPatch_validate_Ok in Ep as [-> _].
  set (provider := h_provider h) in *. set (id := h_provider_work_id h) in *.
  set (ready := [e_now n; e_prepared (req_op q) (req_fence q); e_now n']) in *.
  set (m := m_update provider id (pu_patch a)).
  change (RUN (try_send (send_scalar (Some (pu_operation_id a)) provider id (pu_patch a))
    (refused_or P (provider_update_guard a)
       (work ← send_scalar None provider id (pu_patch a);
        mret (update_applied p a (grant_id g) (version g) provider id ql work)))
    (λ work, mret (update_applied p a (grant_id g) (version g) provider id ql work))) (spost (Some g)) v w).
  apply run_try.
  change (send_scalar (Some (pu_operation_id a)) provider id (pu_patch a))
    with (call (Update_task (pu_operation_id a) provider id (pu_patch a));; readback true provider id (pu_patch a)).
  apply run_bind_ret.
  eapply (run_send registered settled O t q _ m (λ w, o_update O provider id (pu_patch a) (tick w)) _ v w ready (Some g)
    (λ w, (held (Some g) w ∧ owner w) ∧ bound_as (pu_work_id a) provider id w) (λ w, held (Some g) w ∧ owner w));
    [done | exact Ha | done | |].
  { intros w1 _ [[Hh1 Hw1] Hb1]. split; [done|]. split; [apply (ow_open _ _ _ _ Hw1)|].
    split; [left; apply (ow_prepared _ _ _ _ Hw1)|]. intros ans. split; [|by split; [apply sent_held | apply sent_owner]].
    eapply (h_sent q _ n n' m ans _ g); [by split | by apply (he_grant _ _ _ _ _ _ Hh1) | done | done]. }
  assert (Hreread : ∀ v w h, possible_send v = true → acts t w = h → held (Some g) w → owner w →
    RUN (work ← send_scalar None provider id (pu_patch a);
         mret (update_applied p a (grant_id g) (version g) provider id ql work)) (spost (Some g)) v w).
  { intros v2 w2 h2 Hv2 Ha2 Hh2 Hw2. apply run_bind_ret.
    change (send_scalar None provider id (pu_patch a)) with (mret tt;; readback false provider id (pu_patch a) : Request _).
    apply run_bind_ret. apply run_mret. intros w3 H3.
    destruct (stable_owner registered settled t q (Some g) w2 w3) as [Hh3 Hw3]; [by apply calm_R | done|].
    eapply (run_readback false provider id _ v2 w3 h2 (λ w, held (Some g) w ∧ owner w));
      [by rewrite (acts_R _ _ _ _ _ H3) | done | |].
    - intros x w4 _ _ [Hh4 Hw4] Hs4. by apply (run_update_applied g _ _ _ _ _ _ _ _ (λ _, True)).
    - intros e w4 _ _ _ _. by apply run_send_err. }
  intros r s w1 _ Ha1 [Hh1 Hw1]. destruct r as [[]|e].
  - eapply (run_readback true provider id _ v w1 _ (λ w, held (Some g) w ∧ owner w) _ Ha1); [done | |].
    + intros x w2 _ _ [Hh2 Hw2] Hs2. by apply (run_update_applied g _ _ _ _ _ _ _ _ (λ _, True)).
    + intros e w2 _ Ha2 [Hh2 Hw2] He.
      apply (run_refused registered settled O t q P _ _ e v w2 g ready m s update_guards Hv Hh2 Hw2);
        [set_solver | intros Eu Ep; by rewrite (He eq_refl Eu) in Ep | by eapply Hreread].
  - intros w2 H2 _ _. cbn. destruct (stable_owner registered settled t q (Some g) w1 w2) as [Hh2 Hw2]; [by apply calm_R | done|].
    assert (Ha2 : acts t w2 = ready ++ [e_sent (req_op q) m (Err e) s]) by (by rewrite (acts_R _ _ _ _ _ H2)).
    apply (run_refused registered settled O t q P _ _ e v w2 g ready m s update_guards Hv Hh2 Hw2);
      [set_solver | done | by eapply Hreread].
Qed.

Lemma run_update_prepare g ql v w n :
  req_qualification q g = Some ql → acts t w = [e_now n] → held (Some g) w → Clear registered settled q w → allows q g →
  RUN (x ← update_prepare P p a g ql;
       match x with
       | inr o => mret o
       | inl (intent, send) => journaled_send intent g (update_fingerprint p a) (provider_update_guard a) send
       end) post v w.
Proof.
  intros Hql Ha Hh Hc Hal. assert (Hn : ∀ op m a s, e_sent op m a s ∉ [e_now n]) by set_solver.
  apply run_bind_ret. unfold update_prepare.
  assert (Hexc : ∀ (e : exn) w', acts t w' = [e_now n] → RUN (returns (Err e)) post v w').
  { intros e w' Ha'. by eapply run_raise. }
  next_read (λ w, held (Some g) w ∧ Clear registered settled q w); [done | by intros; apply Hexc|].
  intros [h|] w1 _ Ha1 [Hh1 Hc1] Hget;
    [|apply run_mret; intros w2 H2; eapply run_refuse; [by rewrite (acts_R _ _ _ _ _ H2) | done..]].
  specialize (Hget h eq_refl).
  destruct (known P (h_provider h)); cbn [negb];
    [|intros w2 H2 _ _; apply Hexc; by rewrite (acts_R _ _ _ _ _ H2)].
  next_read (λ w, (held (Some g) w ∧ Clear registered settled q w) ∧
    bound_as (pu_work_id a) (h_provider h) (h_provider_work_id h) w); [done | by intros; apply Hexc|].
  intros cur w2 _ Ha2 HK2 _.
  assert (Hrefuse : ∀ o, effect o = not_sent →
    RUN (mret (inr o)) (λ v1 r w1, match r with
      | Ok x => RUN (match x with
         | inr o => mret o
         | inl (intent, send) => journaled_send intent g (update_fingerprint p a) (provider_update_guard a) send
         end) post v1 w1
      | Err e => RUN (returns (Err e)) post v1 w1
      end) v w2).
  { intros o Ho. apply run_mret. intros w3 H3. eapply run_refuse; [by rewrite (acts_R _ _ _ _ _ H3) | done..]. }
  destruct cur as [cur|]; [|by apply Hrefuse]. destruct (pw_canonical cur); cbn [negb]; [|by apply Hrefuse].
  destruct (negb _); [by apply Hrefuse|].
  apply run_mret. intros w3 H3.
  assert (HK3 : (held (Some g) w3 ∧ Clear registered settled q w3) ∧
    bound_as (pu_work_id a) (h_provider h) (h_provider_work_id h) w3).
  { revert HK2. apply (stable registered settled t (K := λ w, (held (Some g) w ∧ Clear registered settled q w) ∧
      bound_as (pu_work_id a) (h_provider h) (h_provider_work_id h) w)). by apply calm_R. }
  destruct HK3 as [[Hh3 Hc3] Hb3].
  apply (run_journaled registered settled O t q _ g _ _ _ v w3 n
    (bound_as (pu_work_id a) (h_provider h) (h_provider_work_id h)));
    [by rewrite (acts_R _ _ _ _ _ H3) | done | done | apply update_guards | | done |].
  - split; try done. apply (al_principal _ _ Hal). by intros x [= <-].
  - intros w4 n' _ Ha4 Hcur Hh4 Hw4 _ Hb4. by eapply run_update_send.
Qed.

Lemma run_update_reconcile record g v w :
  possible_send v = true → acts t w = [] → held g w → Open registered q w → written q (er_intent record) w →
  RUN (update_reconcile P p a record) post v w.
Proof.
  intros Hv Ha Hh Ho _.
  assert (Hexc : ∀ (e : exn) v w, possible_send v = true → RUN (returns (Err e)) post v w).
  { intros e v' w' Hv'. apply (run_err registered settled O t q _ _ _ _ (λ _, True)); [done|].
    intros w2 _ _. by apply possible_exc. }
  unfold update_reconcile.
  destruct (intent_text "provider" _ _) as [provider|e]; [|by apply Hexc].
  destruct (intent_text "task_gid" _ _) as [id|e]; [|by apply Hexc].
  destruct (intent_text "qualification" _ _) as [ql|e]; [|by apply Hexc].
  destruct (WorkPatch_validate (pu_patch a)) as [patch|e] eqn:Ep; [|by apply Hexc].
  apply WorkPatch_validate_Ok in Ep as [-> _].
  set (o := update_applied p a (er_grant_id record) (er_grant_version record) provider id ql).
  change (RUN (if negb (known P provider) then raises KeyError provider else
    work ← send_scalar None provider id (pu_patch a);
    (if eqb (effect (o work)) applied then call (Finish (o work)) else mret tt);; mret (o work)) post v w).
  destruct (known P provider); cbn [negb]; [|by apply Hexc].
  apply run_bind_ret.
  change (send_scalar None provider id (pu_patch a)) with (mret tt;; readback false provider id (pu_patch a) : Request _).
  apply run_bind_ret. apply run_mret. intros w1 H1.
  assert (HK1 : held g w1 ∧ Open registered q w1).
  { apply (stable registered settled t (K := λ w, held g w ∧ Open registered q w) w); [by apply calm_R | done]. }
  eapply (run_readback false provider id _ v w1 [] (λ w, held g w ∧ Open registered q w));
    [by rewrite (acts_R _ _ _ _ _ H1) | done | |].
  - intros x w2 _ Ha2 [Hh2 Ho2] Hs2. destruct x as [wk|].
    + destruct (Hs2 wk eq_refl) as (Hev & Hcan & Hmatch).
      change (RUN (call (Finish (o (Some wk)));; mret (o (Some wk))) post v w2).
      assert (Hrow : Row q w2) by (destruct Ho2 as (r & ? & ? & _); by exists r).
      apply (run_record registered settled O t q _ v w2 g); try done.
      left. split; [done|]. eexists. split; [done|]. by exists t, wk.
    + change (RUN (mret tt;; mret (o None)) post v w2).
      apply (run_ret registered settled O t q _ _ _ _ (λ _, True)); [done|]. intros w3 _ _.
      split; [by left|]. intros o' [= <-]. by apply answer_unknown.
  - intros e w2 _ _ _ _. by apply Hexc.
Qed.

Lemma run_update w v :
  acts t w = [] → (∀ l, (t, l) ∉ locks w) → RUN (update P p a) post v w.
Proof.
  apply (run_mutation registered settled O t q); try done.
  - apply run_update_prepare.
  - apply run_update_reconcile.
Qed.
End updates.

(** ** Relations *)

(** A relation can be read back from the intent that recorded it. *)
Lemma recorded_relation_written request h ql r :
  recorded_relation (JObj (task_intent request h ql ++ [("resolved"%string, relation_json r)])) =
  Ok (h_provider h, h_provider_work_id h, ql, r).
Proof. by destruct r as [k ac [tg|] [ag|] [pg|] [sg|]]. Qed.

Section relations.
#[local] Set Default Proof Using "All".
Context (registered : string → Prop) (settled : uuid → Prop) (O : Outside) (t : nat) (P : Providers).
Context (p : PrincipalContext) (a : ProtectedRelation).

Abbreviation q := (q_relate p a).
Abbreviation INV := (Inv registered settled).
Abbreviation RUN m Φ v w := (runs (V := Vars) (perform O) ready (R registered settled) INV Local t q m Φ v w).
Abbreviation held := (Held registered settled t q).
Abbreviation owner := (Owner registered t q).
Abbreviation post := (Post t q).
Abbreviation spost := (SPost registered settled t q).

#[local] Existing Instances stable_and stable_pure stable_event stable_bound stable_backed stable_unsent stable_foreign
  stable_held stable_open stable_owner stable_clear stable_exc stable_answer stable_post stable_row stable_final
  lasting_stable lasting_pure lasting_event lasting_bound lasting_and stable_written lasting_asked.

Lemma relation_guards : guards (req_op q) (provider_relation_guard a).
Proof. apply guard_by_guards. Qed.

(** The receipt of an observed relation. *)
Lemma relation_final provider id ql rel grant version ql' intent w :
  written q intent w → recorded_relation intent = Ok (provider, id, ql', rel) →
  (t, e_matches provider id rel (Ok true)) ∈ trace w →
  Final registered t q (relation_applied p a grant version provider id ql) w.
Proof.
  intros (r & Hr & Hi) Hrec He. left. split; [done|]. eexists. split; [done|].
  exists t, r, ql', rel. rewrite Hi. done.
Qed.

Lemma run_relation_send g h ql rel v w n n' :
  possible_send v = true → acts t w = [e_now n; e_prepared (req_op q) (req_fence q); e_now n'] →
  grant_current g n' = true → allows q g → held (Some g) w → owner w →
  written q (JObj (task_intent (relate_json a) h ql ++ [("resolved"%string, relation_json rel)])) w →
  asked q (m_relation (h_provider h) (h_provider_work_id h) rel) w →
  RUN (relation_send P p a g h ql rel) (spost (Some g)) v w.
Proof.
  intros Hv Ha Hc Hal Hh Hw Hwr Hb. unfold relation_send. set (intent := JObj _) in *.
  set (provider := h_provider h) in *. set (id := h_provider_work_id h) in *.
  set (ready := [e_now n; e_prepared (req_op q) (req_fence q); e_now n']) in *.
  set (m := m_relation provider id rel) in *.
  set (confirm := matches ← call (Relation_matches provider id rel); mret _).
  assert (Hconf : ∀ v w hist, possible_send v = true → acts t w = hist → held (Some g) w → owner w → written q intent w →
    RUN confirm (spost (Some g)) v w).
  { intros v1 w1 hist Hv1 Ha1 Hh1 Hw1 Hwr1. unfold confirm.
    next_read (λ w, (held (Some g) w ∧ owner w) ∧ written q intent w); [done | by intros; split|].
    intros matches w2 _ Ha2 [[Hh2 Hw2] Hwr2] Hsaw. destruct matches; cbn [negb]; [|send_unknown].
    apply (run_send_ret registered settled O t q _ v1 w2 (Some g) (λ w, written q intent w ∧ (t, e_matches provider id rel (Ok true)) ∈ trace w));
      try owned.
    intros w3 _ _ [Hwr3 He3]. eapply relation_final; [done | apply recorded_relation_written | done]. }
  apply run_try.
  eapply (run_send registered settled O t q _ m (λ w, o_relate O provider id rel (tick w)) _ v w ready (Some g)
    (λ w, (held (Some g) w ∧ owner w) ∧ (written q intent w ∧ asked q m w))
    (λ w, (held (Some g) w ∧ owner w) ∧ written q intent w)); [done | exact Ha | done | |].
  { intros w1 _ [[Hh1 Hw1] [Hwr1 Hb1]]. split; [done|]. split; [apply (ow_open _ _ _ _ Hw1)|].
    split; [left; apply (ow_prepared _ _ _ _ Hw1)|]. intros ans.
    split; [|by split; [split; [apply sent_held | apply sent_owner]|]].
    eapply (h_sent q _ n n' m ans _ g); [done | by apply (he_grant _ _ _ _ _ _ Hh1) | done | done]. }
  intros r s w1 _ Ha1 [[Hh1 Hw1] Hwr1]. destruct r as [[]|e]; [by eapply Hconf|].
  apply (run_refused registered settled O t q P _ _ e v w1 g ready m s relation_guards Hv Hh1 Hw1);
    [set_solver | done | by eapply Hconf].
Qed.

(** The relation that is sent is the one that was asked for. *)
Lemma run_resolved g provider id v w h (K : PWorld → Prop) `{!Stable registered settled t K}
    (Ψ : Vars → res (option ProviderRelation) → PWorld → Prop) :
  acts t w = h → K w → bound_as (rl_work_id a) provider id w →
  (∀ x w', INV w' → acts t w' = h → K w' → (∀ r, x = Some r → asked q (m_relation provider id r) w') → Ψ v (Ok x) w') →
  (∀ e w', acts t w' = h → K w' → Ψ v (Err e) w') →
  RUN (resolved g provider a) Ψ v w.
Proof.
  intros Ha HK Hb Hok Herr. unfold resolved.
  assert (Hret : ∀ x w', acts t w' = h → K w' → (∀ r, x = Some r → asked q (m_relation provider id r) w') →
    RUN (mret x) Ψ v w').
  { intros x w1 Ha1 HK1 Hx w2 H2 I2 _. apply Hok; [done | by rewrite (acts_R _ _ _ _ _ H2) | |].
    - apply (stable registered settled t w1); [by apply calm_R | done].
    - intros r Hr. apply (asked_mono q _ w1); [apply (R_handles _ _ _ _ _ H2) | by apply Hx]. }
  destruct (eqb (kind (rl_patch a)) k_pull_request); [by apply Hret|].
  destruct (target_work_id (rl_patch a)) as [target|] eqn:Et.
  - destruct (grant_can_read g target true); cbn [negb]; [|by apply Hret].
    next_read (λ w, K w ∧ bound_as (rl_work_id a) provider id w); [done | intros e w' Ha' [HK' _]; by apply Herr|].
    intros x w1 _ Ha1 [HK1 Hb1] Hget. cbn in Hget. apply Hret; [done..|]. intros r Hr.
    destruct x as [th|]; [|done]. destruct (eqb (h_provider th) provider) eqn:Ep; [|done]. rewrite eqb_true in Ep.
    injection Hr as <-. specialize (Hget th eq_refl). rewrite Ep in Hget. cbn. rewrite Et.
    repeat split; try done. eauto.
  - apply Hret; [done..|]. intros r [= <-]. cbn. rewrite Et. by repeat split.
Qed.

Lemma run_relation_prepare g ql v w n :
  req_qualification q g = Some ql → acts t w = [e_now n] → held (Some g) w → Clear registered settled q w → allows q g →
  RUN (x ← relation_prepare P p a g ql;
       match x with
       | inr o => mret o
       | inl (intent, send) => journaled_send intent g (relation_fingerprint p a) (provider_relation_guard a) send
       end) post v w.
Proof.
  intros Hql Ha Hh Hc Hal. assert (Hn : ∀ op m a s, e_sent op m a s ∉ [e_now n]) by set_solver.
  apply run_bind_ret. unfold relation_prepare.
  assert (Hexc : ∀ (e : exn) w', acts t w' = [e_now n] → RUN (returns (Err e)) post v w').
  { intros e w' Ha'. by eapply run_raise. }
  assert (Hrefuse : ∀ o w', effect o = not_sent → acts t w' = [e_now n] →
    RUN (mret (inr o)) (λ v1 r w1, match r with
      | Ok x => RUN (match x with
         | inr o => mret o
         | inl (intent, send) => journaled_send intent g (relation_fingerprint p a) (provider_relation_guard a) send
         end) post v1 w1
      | Err e => RUN (returns (Err e)) post v1 w1
      end) v w').
  { intros o w' Ho Ha'. apply run_mret. intros w3 H3. eapply run_refuse; [by rewrite (acts_R _ _ _ _ _ H3) | done..]. }
  destruct (is_some (project_id (rl_patch a))); [by apply Hrefuse|].
  next_read (λ w, held (Some g) w ∧ Clear registered settled q w); [done | by intros; apply Hexc|].
  intros [h|] w1 _ Ha1 [Hh1 Hc1] Hget; [|by apply Hrefuse]. specialize (Hget h eq_refl).
  destruct (known P (h_provider h) && relates P (h_provider h)); cbn [negb]; [|by apply Hrefuse].
  next_read (λ w, (held (Some g) w ∧ Clear registered settled q w) ∧
    bound_as (rl_work_id a) (h_provider h) (h_provider_work_id h) w); [done | by intros; apply Hexc|].
  intros cur w2 _ Ha2 [HK2 Hb2] _.
  destruct cur as [cur|]; [|by apply Hrefuse]. destruct (pw_canonical cur); cbn [negb]; [|by apply Hrefuse].
  destruct (negb _); [by apply Hrefuse|].
  apply run_bind_ret.
  apply (run_resolved g _ (h_provider_work_id h) v w2 [e_now n] (λ w, held (Some g) w ∧ Clear registered settled q w));
    [done.. | |intros e w' Ha' _ w3 H3 _ _; apply Hexc; by rewrite (acts_R _ _ _ _ _ H3)].
  intros [rel|] w3 _ Ha3 [Hh3 Hc3] Hrel; [|by apply Hrefuse]. specialize (Hrel rel eq_refl).
  apply run_mret. intros w4 H4.
  destruct (stable_clear registered settled t q (Some g) w3 w4) as [Hh4 Hc4]; [by apply calm_R | done|].
  apply (run_journaled registered settled O t q _ g _ _ _ v w4 n
    (asked q (m_relation (h_provider h) (h_provider_work_id h) rel)));
    [by rewrite (acts_R _ _ _ _ _ H4) | done | done | apply relation_guards | | |].
  - split; try done. apply (al_principal _ _ Hal). by intros x [= <-].
  - apply (asked_mono q _ w3); [apply (R_handles _ _ _ _ _ H4) | done].
  - intros w5 n' _ Ha5 Hcur Hh5 Hw5 Hwr5 Hb5. by eapply run_relation_send.
Qed.
(** A reconciliation that observed its relation, or did not. *)
Lemma run_relation_observed record provider id ql rel matches g v w hist :
  recorded_relation (er_intent record) = Ok (provider, id, ql, rel) →
  possible_send v = true → acts t w = hist → held g w → Open registered q w → written q (er_intent record) w →
  (matches = true → (t, e_matches provider id rel (Ok true)) ∈ trace w) →
  RUN (if negb matches then mret (provider_relation_guard a o_unknown "effect_readback_unconfirmed"%string true)
       else
         let o := relation_applied p a (er_grant_id record) (er_grant_version record) provider id ql in
         call (Finish o);; mret o) post v w.
Proof.
  intros Hrec Hv Ha Hh Ho Hwr Hsaw. destruct matches; cbn [negb].
  - apply (run_record registered settled O t q _ v w g); [done.. | |].
    + destruct Ho as (r & ? & ? & _). by exists r.
    + eapply relation_final; [done..|]. by apply Hsaw.
  - apply (run_ret registered settled O t q _ _ _ _ (λ _, True)); [done|]. intros w3 _ _.
    split; [by left|]. intros o' [= <-]. by apply answer_unknown.
Qed.

(** The relation is read once more, and then recorded. *)
Lemma run_relation_reread record provider id ql rel g v w :
  recorded_relation (er_intent record) = Ok (provider, id, ql, rel) →
  possible_send v = true → held g w → Open registered q w → written q (er_intent record) w →
  RUN (call (Relation_matches provider id rel)) (λ v1 r w1, match r with
    | Ok matches =>
        RUN (if negb matches then mret (provider_relation_guard a o_unknown "effect_readback_unconfirmed"%string true)
             else
               let o := relation_applied p a (er_grant_id record) (er_grant_version record) provider id ql in
               call (Finish o);; mret o) post v1 w1
    | Err e => RUN (returns (Err e)) post v1 w1
    end) v w.
Proof.
  intros Hrec Hv Hh Ho Hwr.
  eapply (run_read_call registered settled O t q _ _ _ _ (acts t w)
    (λ w, (held g w ∧ Open registered q w) ∧ written q (er_intent record) w)); try done.
  intros x w1 _ Ha1 [[Hh1 Ho1] Hwr1] Hs1. destruct x as [mt|e].
  - eapply run_relation_observed; try done. intros ->. by apply Hs1.
  - apply (run_err registered settled O t q _ _ _ _ (λ _, True)); [done|]. intros w2 _ _. by apply possible_exc.
Qed.

Lemma run_relation_reconcile record g v w :
  possible_send v = true → acts t w = [] → held g w → Open registered q w → written q (er_intent record) w →
  RUN (relation_reconcile P p a record) post v w.
Proof.
  intros Hv Ha Hh Ho Hwr. unfold relation_reconcile.
  assert (Hexc : ∀ (e : exn) w, RUN (returns (Err e)) post v w).
  { intros e w'. apply (run_err registered settled O t q _ _ _ _ (λ _, True)); [done|].
    intros w2 _ _. by apply possible_exc. }
  destruct (recorded_relation (er_intent record)) as [[[[provider id] ql] rel]|e] eqn:Erec; [|by apply Hexc].
  match goal with |- RUN (_ ≫= ?f) _ _ _ => change (RUN (f (provider, id, ql, rel)) post v w) end. cbv beta iota.
  set (kept := λ w, (held g w ∧ Open registered q w) ∧ written q (er_intent record) w).
  assert (Hst : Stable registered settled t kept) by apply _.
  destruct (known P provider && relates P provider); cbn [negb].
  2: { apply (run_ret registered settled O t q _ _ _ _ (λ _, True)); [done|]. intros w3 _ _.
       split; [by left|]. intros o' [= <-]. by apply answer_unknown. }
  next_read kept; [done | by intros; apply possible_exc|].
  intros matches w1 _ Ha1 HK1 Hsaw. apply run_bind_ret.
  destruct (negb matches && is_move rel) eqn:E.
  - apply andb_true_iff in E as [_ Emove]. apply run_bind_ret, runs_handle; [intros; apply R_refl|].
    set (m := m_relation provider id rel).
    eapply (run_send registered settled O t q _ m (λ w, o_relate O provider id rel (tick w)) _ v w1 [] g kept kept);
      [done | exact Ha1 | done | |].
    { intros w2 _ [[Hh2 Ho2] Hwr2]. split; [done|]. split; [done|].
      split; [right; destruct Hwr2 as (row & ? & Hi); exists provider, id, ql, rel, row; by rewrite Hi|]. intros ans. split; [by apply h_moved|].
      split; [split; [by apply sent_held | by apply sent_open] | done]. }
    intros r s w2 _ Ha2 HK2. cbn [app] in Ha2.
    assert (Hread : ∀ w3, R registered settled t w2 w3 → kept w3).
    { intros w3 H3. apply (stable registered settled t w2); [by apply calm_R | done]. }
    destruct r as [[]|e].
    + apply run_mret. intros w3 H3. destruct (Hread w3 H3) as [[Hh3 Ho3] Hwr3]. by eapply run_relation_reread.
    + destruct (is_a _ e).
      * apply run_mret. intros w3 H3. destruct (Hread w3 H3) as [[Hh3 Ho3] Hwr3]. by eapply run_relation_reread.
      * intros w3 _ _ _ w4 _ _ _. apply Hexc.
  - destruct HK1 as [[Hh1 Ho1] Hwr1]. apply run_mret. intros w2 H2.
    assert (HK2 : kept w2) by (apply (stable registered settled t w1); [by apply calm_R | done]).
    destruct HK2 as [[Hh2 Ho2] Hwr2]. eapply run_relation_observed; try done.
    intros ->. apply (trace_R registered settled t _ w1); done.
Qed.

Lemma run_relate w v :
  acts t w = [] → (∀ l, (t, l) ∉ locks w) → RUN (relate P p a) post v w.
Proof.
  apply (run_mutation registered settled O t q); try done.
  - apply run_relation_prepare.
  - apply run_relation_reconcile.
Qed.
End relations.

(** ** Creation *)

Lemma unresolved_create_false parent d r k :
  unresolved_create parent d = false → effect_intents d !! k = Some r → is_unknown r = true →
  intent_get "parent_work_id" (intent_get "request" (GrantState.intent r)) ≠ JStr parent.
Proof.
  unfold unresolved_create. intros H Hr Hu E. apply not_true_iff_false in H. apply H, existsb_exists.
  exists r. split; [apply list_elem_of_In, elem_of_values; eauto|]. rewrite Hu. cbn [andb].
  destruct (GrantState.intent r) as [| | | | |kvs]; try done. cbn in E. destruct (assoc "request" kvs) as [rq|]; [|done].
  cbn in E. destruct rq as [| | | | |rkvs]; try done. cbn in E.
  destruct (assoc "parent_work_id" rkvs) as [x|]; [|done]. cbn in E. subst. by rewrite eqb_true.
Qed.

Lemma qualified_strictly_qualified p o : qualified_strictly p o = true → qualified p o = true.
Proof.
  destruct o as [o|]; [|done]. cbn [qualified qualified_strictly]. destruct (eqb (assurance p) test); intros H.
  - by rewrite H.
  - destruct o as [|[[] [] [] [] [] [] [] []] o]; done.
Qed.

Section creates.
#[local] Set Default Proof Using "All".
Context (registered : string → Prop) (settled : uuid → Prop) (O : Outside) (t : nat) (P : Providers)
  (nfkc_casefold : string → string).
Context (p : PrincipalContext) (a : ProtectedCreate).

Abbreviation q := (q_create p a).
Abbreviation INV := (Inv registered settled).
Abbreviation RUN m Φ v w := (runs (V := Vars) (perform O) ready (R registered settled) INV Local t q m Φ v w).
Abbreviation held := (Held registered settled t q).
Abbreviation owner := (Owner registered t q).
Abbreviation open := (Open registered q).
Abbreviation post := (Post t q).
Abbreviation spost := (SPost registered settled t q).

#[local] Existing Instances stable_and stable_pure stable_event stable_bound stable_backed stable_unsent stable_foreign
  stable_held stable_open stable_owner stable_clear stable_exc stable_answer stable_post stable_row stable_final
  lasting_stable lasting_pure lasting_event lasting_bound lasting_and stable_written lasting_asked.

Lemma create_guards : guards (req_op q) (create_guard a).
Proof. apply guard_by_guards. Qed.

(** Looking for the created task ends in an effect that was observed or is
    not known. *)
Definition observed (o : GuardOutcome) (w : PWorld) : Prop := ∃ rc, receipt o = Some rc ∧ backed rc w.
Definition CPost (g : option WorkGrant) (v : Vars) (r : res GuardOutcome) (w : PWorld) : Prop :=
  spost g v r w ∧ ∀ o, r = Ok o → (effect o = applied ∧ observed o w) ∨ effect o = unknown.

#[local] Instance stable_observed o : Stable registered settled t (observed o).
Proof using Type.
  intros w w' H (rc & ? & ?). exists rc. split; [done|]. by apply (stable_backed registered settled t rc w).
Qed.

Lemma run_create_err (e : exn) v w g : possible_send v = true → RUN (returns (Err e)) (CPost g) v w.
Proof.
  intros Hv. by apply (run_err registered settled O t q _ _ _ _ (λ _, True)); [|intros w' _ _; split].
Qed.

Lemma run_create_unknown o v w g :
  possible_send v = true → Grants.operation_id o = Some (req_op q) → effect o = unknown → held g w → open w →
  RUN (mret o) (CPost g) v w.
Proof.
  intros Hv Ho He Hh Hw. pose proof (run_send_unknown registered settled O t q o v w g Hv Ho He Hh Hw) as H.
  intros w1 H1 I1 L1. split; [by apply H|]. intros o' [= <-]. by right.
Qed.

(** The created task is read back and bound. *)
Lemma run_create_applied c id g v w h :
  possible_send v = true → acts t w = h → held g w → open w → RUN (create_applied P p a c id) (CPost g) v w.
Proof.
  intros Hv Ha Hh Ho. unfold create_applied. destruct (known P (cr_provider c)); cbn [negb]; [|by apply run_create_err].
  next_read (λ w, held g w ∧ open w); [done | by intros; split|].
  intros task w1 _ Ha1 [Hh1 Ho1] Hsaw. destruct task as [tk|]; [|by apply run_create_unknown].
  destruct (pt_canonical tk) eqn:Ec; cbn [negb]; [|by apply run_create_unknown].
  apply (run_bind registered settled O t q _ _ _ _ _ v w1 h (λ w, (held g w ∧ open w) ∧
    (t, e_task (cr_provider c) id (Ok (Some tk))) ∈ trace w)); [done..|by intros; split|].
  intros b w2 _ _ [[Hh2 Ho2] He2] Hb2. set (o := applied_by _ _ _ _ _ _).
  apply (run_ret registered settled O t q _ _ _ _ (λ w, (held g w ∧ open w) ∧ observed o w)).
  { split; [done|]. eexists. split; [done|]. by exists t, tk. }
  intros w3 _ [[Hh3 Ho3] Hobs]. split; [split; [done|]|by intros o' [= <-]; left].
  intros o' [= <-]. split; [done|]. split; [done|]. split; [by eapply open_row | by left].
Qed.

(** The created task is looked for, by a retry or after an uncertain send. *)
Lemma run_create_values c g v w h :
  possible_send v = true → acts t w = h → held g w → open w → RUN (create_reconcile_values P p a c) (spost g) v w.
Proof.
  intros Hv Ha Hh Ho. unfold create_reconcile_values.
  destruct (_ && _); cbn [negb]; [|by apply run_send_unknown].
  next_read (λ w, held g w ∧ open w); [done | by intros; split|].
  intros identity w1 _ Ha1 [Hh1 Ho1] _. destruct (negb _); [by apply run_send_unknown|].
  next_read (λ w, held g w ∧ open w); [done | by intros; split|].
  intros bound w2 _ Ha2 HK2 _. apply run_bind_ret.
  assert (Hrest : ∀ x w, acts t w = h → held g w → open w → RUN (match x with
      | None => mret (create_guard a o_unknown "create_not_yet_reconciled"%string true)
      | Some id => o ← create_applied P p a c id; call (Finish o);; mret o
      end) (spost g) v w).
  { intros [id|] w3 Ha3 Hh3 Ho3; [|by apply run_send_unknown]. apply run_bind_ret.
    pose proof (run_create_applied c id g v w3 h Hv Ha3 Hh3 Ho3) as Happ. revert Happ. apply runs_mono.
    intros v4 [o|e] w4 [[Hv4 Hpost] Heff]; [|by apply run_send_err].
    destruct (Hpost o eq_refl) as (Hop & Hh4 & Hr4 & Hf4). destruct (Heff o eq_refl) as [[Ea Hobs]|Eu].
    - apply (run_finish registered settled O t q o _ _ v4 w4 (acts t w4) g (observed o)); try done.
      + intros w5 w6 Hres (rc & ? & ?). exists rc. eauto using resolves_backed.
      + intros w5 _ _ Hh5 Hr5 _ Hobs5.
        apply (run_ret registered settled O t q _ _ _ _ (λ w, (held g w ∧ Row q w) ∧ observed o w)); [done|].
        intros w6 _ [[Hh6 Hr6] Hobs6]. split; [done|]. intros o' [= <-].
        split; [done|]. split; [done|]. split; [done | by left].
    - apply (run_finish registered settled O t q o _ _ v4 w4 (acts t w4) g (λ _, True)); try done.
      intros w5 _ _ Hh5 Hr5 Ho5 _. by apply run_send_unknown; auto. }
  assert (Hfind : RUN (call (Recover_created (cr_provider c) (cr_parent_gid c) (pc_operation_id a) (cr_project_gid c)))
    (λ v1 r w1, match r with
      | Ok x => RUN (match x with
          | None => mret (create_guard a o_unknown "create_not_yet_reconciled"%string true)
          | Some id => o ← create_applied P p a c id; call (Finish o);; mret o
          end) (spost g) v1 w1
      | Err e => RUN (returns (Err e)) (spost g) v1 w1
      end) v w2).
  { eapply (run_read_call registered settled O t q _ _ _ _ h (λ w, held g w ∧ open w)); try done.
    intros x w3 _ Ha3 [Hh3 Ho3] _. destruct x as [x|e]; [by apply Hrest | by apply run_send_err]. }
  destruct bound as [b|]; [|done]. destruct (eqb (h_provider b) (cr_provider c)); [|done].
  apply run_mret. intros w3 H3.
  destruct (stable_open registered settled t q g w2 w3) as [Hh3 Ho3]; [by apply calm_R | done|].
  apply (Hrest (Some (h_provider_work_id b))); [by rewrite (acts_R _ _ _ _ _ H3) | done..].
Qed.

(** The creation itself. *)
Lemma run_create_send c g v w n n' :
  possible_send v = true → acts t w = [e_now n; e_prepared (req_op q) (req_fence q); e_now n'] →
  grant_current g n' = true → allows q g → held (Some g) w → owner w →
  asked q (m_create (cr_provider c) (pc_title a) (pc_notes a) (cr_parent_gid c) (cr_project_gid c)) w →
  RUN (create_send P p a c) (spost (Some g)) v w.
Proof.
  intros Hv Ha Hc Hal Hh Hw Hb. unfold create_send. apply run_try.
  set (m := m_create (cr_provider c) (pc_title a) (pc_notes a) (cr_parent_gid c) (cr_project_gid c)) in *.
  eapply (run_send registered settled O t q _ m
    (λ w, o_create O (cr_provider c) (pc_title a) (pc_notes a) (pc_operation_id a) (cr_parent_gid c) (cr_project_gid c) (tick w))
    _ v w _ (Some g) (λ w, (held (Some g) w ∧ owner w) ∧ asked q m w)
    (λ w, held (Some g) w ∧ owner w)); [done | exact Ha | done | |].
  - intros w1 _ [[Hh1 Hw1] Hb1]. split; [done|]. split; [apply (ow_open _ _ _ _ Hw1)|].
    split; [left; apply (ow_prepared _ _ _ _ Hw1)|]. intros ans. split; [|by split; [apply sent_held | apply sent_owner]].
    eapply (h_sent q _ n n' m ans _ g); [done | by apply (he_grant _ _ _ _ _ _ Hh1) | done | done].
  - intros r s w1 _ Ha1 [Hh1 Hw1]. destruct r as [gid|e].
    + assert (Happ := run_create_applied c gid (Some g) v w1 _ Hv eq_refl Hh1 (owner_open _ _ _ _ Hw1)).
      revert Happ. apply runs_mono. by intros v2 r w2 [? _].
    + apply (run_refused registered settled O t q P _ _ e v w1 g [e_now n; e_prepared (req_op q) (req_fence q); e_now n'] m s
        create_guards Hv Hh1 Hw1); [set_solver | by intros _ _|].
      eapply run_create_values; [done..|]. by eapply owner_open.
Qed.

(** From the source of the parent to the answer. *)
Lemma run_create_at g provider parent v w n :
  acts t w = [e_now n] → held (Some g) w → Clear registered settled q w → allows q g →
  asked q (m_create provider (pc_title a) (pc_notes a) parent (pc_project_gid a)) w →
  RUN (create_at P p a g provider parent) post v w.
Proof.
  intros Ha Hh Hc Hal Hb. unfold create_at. assert (Hn : ∀ op m a s, e_sent op m a s ∉ [e_now n]) by set_solver.
  set (m := m_create _ _ _ _ _) in *. set (ok := λ w, (held (Some g) w ∧ Clear registered settled q w) ∧ asked q m w).
  destruct (_ && _); cbn [negb]; [|by eapply run_refuse].
  next_read ok; [done | by intros; eapply quiet_exc|].
  intros identity w1 _ Ha1 HK1 _. destruct (negb _); [by eapply run_refuse|].
  assert (Hgo : ∀ w, acts t w = [e_now n] → ok w →
    RUN (let c := mkCreation (grant_id g) (version g) (default ""%string (create_qualification g)) identity provider
                    parent (pc_project_gid a) in
         journaled_send (create_intent a c) g (create_fingerprint p a) (create_guard a) (create_send P p a c)) post v w).
  { intros w2 Ha2 [[Hh2 Hc2] Hb2]. cbv zeta. set (c := mkCreation _ _ _ _ _ _ _).
    apply (run_journaled registered settled O t q _ g _ _ _ v w2 n (asked q m));
      [done.. | apply create_guards | | done |].
    - split.
      + apply (al_principal _ _ Hal).
      + done.
      + done.
      + unfold fence_of, req_fence. cbn. by destruct (parent_work_id a).
      + intros x. unfold req_fence. cbn. intros Hx. by rewrite Hx.
    - intros w3 n' _ Ha3 Hcur Hh3 Hw3 _ Hb3. by eapply (run_create_send c). }
  unfold parent_refusal. apply run_bind_ret. destruct parent as [gid|].
  - next_read ok; [done | by intros e w2 Ha2 _; eapply run_raise|].
    intros cur w2 _ Ha2 HK2 _. apply run_mret. intros w3 H3.
    assert (Ha3 : acts t w3 = [e_now n]) by (by rewrite (acts_R _ _ _ _ _ H3)).
    assert (HK3 : ok w3) by (apply (stable registered settled t w2); [by apply calm_R | done]).
    destruct cur as [tk|]; [|by eapply run_refuse]. destruct (_ || _); [by eapply run_refuse|]. by apply Hgo.
  - apply run_mret. intros w2 H2. apply Hgo; [by rewrite (acts_R _ _ _ _ _ H2)|].
    apply (stable registered settled t w1); [by apply calm_R | done].
Qed.

Lemma refuse_create_cases now grant :
  match refuse_create p a now grant with
  | inl g => grant = Some g ∧ allows q g
  | inr o => effect o = not_sent
  end.
Proof using Type.
  unfold refuse_create. destruct grant as [g|]; [|done]. destruct (admitted p now g) eqn:E1; cbn [negb]; [|done].
  destruct (mem work_create (operations g)) eqn:E2; cbn [negb]; [|done].
  destruct (match parent_work_id a with Some w => _ | None => _ end) eqn:E3; [done|].
  destruct (is_none (parent_work_id a) && _) eqn:E4; [done|].
  destruct (pc_grant_version a =? version g) eqn:E5; cbn [negb]; [|done].
  destruct (qualified_strictly p (create_qualification g)) eqn:E6; cbn [negb]; [|done].
  split; [done|]. unfold admitted in E1. rewrite andb_true_iff, eqb_true in E1. rewrite mem_true in E2.
  apply Z.eqb_eq in E5. split; try done.
  - tauto.
  - cbn. intros x Hx. rewrite Hx in E3. by apply negb_false_iff in E3.
  - cbn. intros Hx. rewrite Hx in E4. cbn in E4. by rewrite negb_false_iff, eqb_true in E4.
  - by apply qualified_strictly_qualified.
Qed.

(** No creation under the parent is unresolved when the journal shows none. *)
Lemma create_clear x w :
  INV w → parent_work_id a = Some x → unresolved_create x (grant_db w) = false → Clear registered settled q w.
Proof.
  intros I Hx Hu y t' k Hy Ht He (r & Hr & Hun & _). cbn in Ht. assert (y = x) as -> by congruence.
  unfold req_fence in He. cbn in He. rewrite Hx in He.
  pose proof (inv_fences _ _ _ I _ _ _ _ He Hr _ eq_refl) as Hf. cbn in Hf.
  by apply (unresolved_create_false x (grant_db w) r k).
Qed.

Lemma run_create_new g v w :
  acts t w = [] → held g w → RUN (create_new P p a g) post v w.
Proof.
  intros Ha Hh. unfold create_new. assert (Hn : ∀ op m a s, e_sent op m a s ∉ []) by set_solver.
  assert (Hgo : ∀ w, acts t w = [] → held g w → Clear registered settled q w →
    RUN (now ← call Now;
         match refuse_create p a now g with
         | inr o => mret o
         | inl g =>
             match parent_work_id a with
             | None => create_at P p a g "asana"%string None
             | Some parent =>
                 h ← call (Get parent);
                 match h with
                 | None => mret (create_guard a o_denied "parent_not_bound"%string false)
                 | Some h => create_at P p a g (h_provider h) (Some (h_provider_work_id h))
                 end
             end
         end) post v w).
  { intros w1 Ha1 Hh1 Hc1.
    apply (run_now registered settled O t q _ _ v w1 [] (λ w, held g w ∧ Clear registered settled q w) Ha1);
      [done | intros; constructor|].
    intros n w2 _ Ha2 [Hh2 Hc2]. cbn [app] in Ha2.
    assert (Hn2 : ∀ op m a s, e_sent op m a s ∉ [e_now n]) by set_solver.
    pose proof (refuse_create_cases n g) as Hr. destruct (refuse_create p a n g) as [g1|o]; [|by eapply run_refuse].
    destruct Hr as [-> Hal]. destruct (parent_work_id a) as [x|] eqn:Ex.
    - next_read (λ w, held (Some g1) w ∧ Clear registered settled q w); [done | by intros; eapply quiet_exc|].
      intros [h|] w3 _ Ha3 [Hh3 Hc3] Hget; [|by eapply run_refuse]. specialize (Hget h eq_refl).
      eapply run_create_at; try done. cbn. rewrite Ex. do 3 (split; [done|]). by eexists.
    - eapply run_create_at; try done. cbn. by rewrite Ex. }
  destruct (parent_work_id a) as [x|] eqn:Ex.
  - next_read (held g); [done | by intros; eapply quiet_exc|].
    intros [|] w1 I1 Ha1 Hh1 Hsaw; [by eapply run_refuse|]. apply Hgo; [done..|]. by eapply create_clear.
  - apply run_bind_ret, run_mret. intros w1 H1. apply Hgo.
    + by rewrite (acts_R _ _ _ _ _ H1).
    + apply (stable registered settled t w); [by apply calm_R | done].
    + intros y t' k _ Ht. cbn in Ht. congruence.
Qed.

(** An operation that the journal holds. *)
Lemma run_create_recorded record g r v w :
  acts t w = [] → INV w → held g w → rows w !! req_op q = Some r → record = record_of r →
  RUN (create_recorded P p a record) post v w.
Proof.
  intros Ha I Hh Hr ->. unfold create_recorded. apply run_assign.
  assert (Hn : ∀ op m a s, e_sent op m a s ∉ []) by set_solver.
  destruct (negb _ || negb _) eqn:E1; [by eapply run_refuse|].
  rewrite orb_false_iff, !negb_false_iff, !eqb_true in E1. destruct E1 as [Ek _]. cbn in Ek.
  destruct (negb (eqb _ unknown)) eqn:E2; [by apply (run_recorded_outcome registered settled O t q r)|].
  rewrite negb_false_iff, eqb_true in E2. cbn in E2. unfold create_reconcile.
  assert (Hv : possible_send (mkVars (may_be_sent (outcome r)) (history_known v)) = true).
  { apply may_be_sent_true. congruence. }
  destruct (recorded_creation _) as [c|e].
  2: { intros w1 _ _ _. by apply possible_exc. }
  assert (Ho : open w).
  { exists r. split; [done|]. split; [done|]. intros _ _. by apply eqb_true. }
  pose proof (run_create_values c g _ w _ Hv Ha Hh Ho) as H. revert H. apply runs_mono.
  intros v2 r2 w2 [Hv2 Hpost]. split; [by left|]. intros o ->. destruct (Hpost o eq_refl) as (_ & _ & _ & Hf).
  by eapply final_answer.
Qed.

Lemma run_create w v :
  acts t w = [] → (∀ l, (t, l) ∉ locks w) → RUN (create P nfkc_casefold p a) post v w.
Proof.
  intros Ha Hl. unfold create. assert (Hn : ∀ op m a s, e_sent op m a s ∉ []) by set_solver.
  destruct (negb _); [by eapply run_refuse|]. destruct (negb _); [by eapply run_refuse|].
  apply (run_request registered settled O t q); [apply create_guards | done..|]. clear w Ha Hl. intros g w I Ha Hh.
  unfold create_locked. next_read (held g); [done | by intros; eapply quiet_exc|].
  intros [record|] w1 I1 Ha1 Hh1 Hsaw; apply run_assign.
  - destruct (Hsaw record eq_refl) as (r & Hr & Hrec). by eapply run_create_recorded.
  - by eapply run_create_new.
Qed.
End creates.
