(* ===== verification/ProviderClaims.v ===== *)
(** * What holds of the gateways to providers in every reachable state

    The rule of [Threads] applied to the programs of [ProviderGateways], with
    what [ProviderRuns] shows of each, and the theorems that follow for any
    number of requests, any answers and failures outside, and any deaths. *)

From S2P Require Import Prelude Tables Json Contracts Grants GrantState Controller WorkState.
From S2P Require Import MutationEffect Tracker Store Gateways Threads ProviderGateways ProviderSystem ProviderSafety.
From S2P Require Import ProviderSteps ProviderRuns.

Local Open Scope Z_scope.

(** A world in which no request has begun. *)
Definition fresh (w : PWorld) : Prop := locks w = [] ∧ trace w = [].

(** A row that exists from the beginning can be locked from the beginning. *)
Definition enrolled (w0 : PWorld) (key : string) : Prop := is_Some (stored w0 !! key).
Definition known_work (w0 : PWorld) (work : uuid) : Prop := bound work w0 = true.

Section adequacy.
Context (O : Outside) (P : Providers) (nfkc_casefold : string → string) (w0 : PWorld) (w0_fresh : fresh w0).
#[local] Set Default Proof Using "All".

Abbreviation INV := (Inv (enrolled w0) (known_work w0)).
Abbreviation RLY := (R (enrolled w0) (known_work w0)).

(** What a thread that ended has established. *)
Definition Ends (t : nat) (q : ProviderRequest) (x : Vars * res GuardOutcome) (w : PWorld) : Prop := Post t q x.1 x.2 w.

Lemma fresh_no_event x : x ∉ trace w0.
Proof. destruct w0_fresh as [_ ->]. set_solver. Qed.

Lemma fresh_Inv : INV w0.
Proof.
  pose proof fresh_no_event as Hn. split; try done.
  - destruct w0_fresh as [-> _]. set_solver.
  - intros t op f H. by destruct (Hn _ H).
  - intros t1 t2 op f1 f2 H. by destruct (Hn _ H).
  - intros t op f r H. by destruct (Hn _ H).
  - intros t op m a s H. by destruct (Hn _ H).
  - intros op r (t & f & H). by destruct (Hn _ H).
  - intros op r (t & f & H). by destruct (Hn _ H).
  - intros t1 t2 k1 k2 b x _ H. by destruct (Hn _ H).
Qed.

Lemma fresh_Idle t : Idle t w0.
Proof. destruct w0_fresh as [E1 E2]. split; [unfold acts; by rewrite E2|]. rewrite E1. set_solver. Qed.

Lemma code_safe t q w :
  INV w → Idle t w →
  Local t q w ∧ safe (perform O) ready RLY INV Local t q (code P nfkc_casefold q) (Ends t q) w.
Proof.
  intros I [Ha Hl]. split; [unfold Local; rewrite Ha; constructor|]. destruct q; cbn [code body].
  - by apply (run_append (enrolled w0) (known_work w0) O t P).
  - by apply (run_update (enrolled w0) (known_work w0) O t P).
  - by apply (run_relate (enrolled w0) (known_work w0) O t P).
  - by apply (run_create (enrolled w0) (known_work w0) O t P).
Qed.

Lemma reaches_holds s :
  reaches O P nfkc_casefold w0 s →
  holds (perform O) ready RLY INV Local Idle Ends s.
Proof.
  apply (reachable_holds (perform O) ready crash others (code P nfkc_casefold)).
  - intros t w. apply R_refl.
  - intros t w1 w2 w3. apply R_trans.
  - intros t q w w'. apply Local_R.
  - intros t w w'. apply Idle_R.
  - apply code_safe.
  - apply crash_ok.
  - apply others_ok.
  - apply fresh_Inv.
  - apply fresh_Idle.
Qed.
End adequacy.

(** ** At most once *)

Definition is_sent (e : Event) : bool := match e with e_sent _ _ _ _ => true | _ => false end.

(** A mutation that may be sent again: the move of a task between placements. *)
Definition repeatable (m : Mutation) : bool := match m with m_relation _ _ r => is_move r | _ => false end.

(** Two acts of a thread, in the order of the trace. *)
Lemma acts_two t w i j e1 e2 :
  (i < j)%nat → trace w !! i = Some (t, e1) → trace w !! j = Some (t, e2) → is_act e1 = true → is_act e2 = true →
  ∃ l1 l2 l3, acts t w = l1 ++ e1 :: l2 ++ e2 :: l3.
Proof.
  intros Hij H1 H2 A1 A2. unfold acts.
  set (mine := λ x : nat * Event, x.1 = t ∧ is_act x.2 = true).
  assert (Hone : ∀ l k e, l !! k = Some (t, e) → is_act e = true →
    ∃ l1, snd <$> filter mine l = l1 ++ e :: (snd <$> filter mine (drop (S k) l))).
  { intros l k e He Ae. exists (snd <$> filter mine (take k l)).
    trans (snd <$> filter mine (take k l ++ (t, e) :: drop (S k) l)); [by rewrite take_drop_middle|].
    by rewrite filter_app, fmap_app, filter_cons_True. }
  destruct (Hone (trace w) i e1 H1 A1) as [l1 E1].
  destruct (Hone (drop (S i) (trace w)) (j - S i)%nat e2) as [l2 E2]; [|done|].
  { rewrite lookup_drop. by replace (S i + (j - S i))%nat with j by lia. }
  exists l1, l2. rewrite E1, E2. eauto.
Qed.

Lemma history_sends q w l : History q w l → (length (List.filter is_sent l) ≤ 1)%nat.
Proof. intros []; cbn; lia. Qed.

Lemma history_sent_once q w l1 l2 l3 e1 e2 :
  History q w (l1 ++ e1 :: l2 ++ e2 :: l3) → is_sent e1 = true → is_sent e2 = true → False.
Proof.
  intros H E1 E2. apply history_sends in H. rewrite List.filter_app in H. cbn in H. rewrite E1 in H.
  rewrite length_app in H. cbn in H. rewrite List.filter_app in H. cbn in H. rewrite E2, length_app in H. cbn in H. lia.
Qed.

(** A thread of the pool, or one that has done nothing. *)
Lemma local_or_idle O P nfkc_casefold w0 s t :
  fresh w0 → reaches O P nfkc_casefold w0 s → acts t (world s) = [] ∨ ∃ q, Local t q (world s).
Proof.
  intros Hf Hs. destruct (reaches_holds O P nfkc_casefold w0 Hf s Hs) as (_ & Hi & Ht).
  destruct (threads s !! t) as [[q o]|] eqn:E; [right | left; by apply Hi].
  exists q. by apply (Ht _ _ _ E).
Qed.

(** ** The claims *)

(** C13: Whatever the providers answer, however the database fails, wherever
    requests die and whatever other components do to the tables: each request
    to a provider has, in this order and no further, read the clock, written
    its intent to the journal, read the clock again, and sent one mutation.
    That mutation is the one the request asked for, at the provider task that
    its work is bound to, and was sent under a grant that was stored for the
    principal at that moment, lists the operation, has the version that the
    request names, covers the work, and was current at the second reading.  The
    only other send repeats the move that the operation's intent records. *)
Theorem provider_requests O P nfkc_casefold w0 s t q o :
  fresh w0 → reaches O P nfkc_casefold w0 s → threads s !! t = Some (q, o) →
  History q (world s) (acts t (world s)) ∧
  ∀ op m a g, (t, e_sent op m a g) ∈ trace (world s) →
    (∃ f, (t, e_prepared op f) ∈ trace (world s)) ∨ moved op m (world s).
Proof.
  intros Hf Hs E. destruct (reaches_holds O P nfkc_casefold w0 Hf s Hs) as (I & _ & Ht). split.
  - by apply (Ht _ _ _ E).
  - intros op m a g H. by apply (inv_sent _ _ _ I _ _ _ _ _ H).
Qed.

(** C14: A mutation is sent at most once for an operation, by all requests that
    name it, retries and rival requests of other processes included.  Moves
    between placements, which are idempotent, are the exception. *)
Theorem provider_once O P nfkc_casefold w0 s i j t1 t2 op m1 m2 a1 a2 g1 g2 :
  fresh w0 → reaches O P nfkc_casefold w0 s →
  trace (world s) !! i = Some (t1, e_sent op m1 a1 g1) → trace (world s) !! j = Some (t2, e_sent op m2 a2 g2) →
  repeatable m1 = false → repeatable m2 = false → i = j.
Proof.
  intros Hf Hs H1 H2 M1 M2. destruct (reaches_holds O P nfkc_casefold w0 Hf s Hs) as (I & _ & _).
  assert (Hprep : ∀ k t m a g, trace (world s) !! k = Some (t, e_sent op m a g) → repeatable m = false →
    ∃ f, (t, e_prepared op f) ∈ trace (world s)).
  { intros k t m a g Hk Hm. apply list_elem_of_lookup_2 in Hk.
    destruct (inv_sent _ _ _ I _ _ _ _ _ Hk) as [_ [?|(p & id & ql & r & row & -> & Hr & _)]]; [done|]. cbn in Hm. congruence. }
  destruct (Hprep _ _ _ _ _ H1 M1) as [f1 P1], (Hprep _ _ _ _ _ H2 M2) as [f2 P2].
  assert (t2 = t1) as -> by (symmetry; by eapply (inv_unique _ _ _ I)).
  assert (Hno : ∀ x y e1 e2, (x < y)%nat → trace (world s) !! x = Some (t1, e1) → trace (world s) !! y = Some (t1, e2) →
    is_sent e1 = true → is_sent e2 = true → False).
  { intros x y e1 e2 Hxy Hx Hy S1 S2.
    destruct (acts_two t1 (world s) x y e1 e2 Hxy Hx Hy) as (l1 & l2 & l3 & E); [by destruct e1 | by destruct e2|].
    destruct (local_or_idle O P nfkc_casefold w0 s t1 Hf Hs) as [E0|[q Hl]].
    - rewrite E0 in E. by destruct l1.
    - unfold Local in Hl. rewrite E in Hl. by eapply history_sent_once. }
  destruct (Nat.lt_trichotomy i j) as [Hij|[?|Hij]]; [|done|]; exfalso; by eapply Hno.
Qed.

(** C15: The journal tells the truth about what the gateways sent.  An intent
    that is resolved as not sent has had every mutation sent for it refused by
    the provider; one that is resolved as applied carries a receipt whose
    effect was read back from the provider: the exact story, a canonical task
    that matches the patch, the recorded relation, or the created task, which
    the work is bound to. *)
Theorem provider_journal O P nfkc_casefold w0 s op r :
  fresh w0 → reaches O P nfkc_casefold w0 s → prepared op (world s) → rows (world s) !! op = Some r →
  (enrolled w0 (principal_key_ r) → effect (outcome r) = not_sent → all_refused op (world s)) ∧
  (effect (outcome r) = applied → ∃ rc, receipt (outcome r) = Some rc ∧ backed rc (world s)).
Proof.
  intros Hf Hs Hp Hr. destruct (reaches_holds O P nfkc_casefold w0 Hf s Hs) as (I & _ & _). split.
  - intros He Hn. by apply (inv_not_sent _ _ _ I op r).
  - intros Ha. by apply (inv_applied _ _ _ I op r).
Qed.

(** C16: An answer tells the truth about its own request.  "Not sent" means that
    all that the request sent was refused; "applied" comes with a receipt whose
    effect was read back, unless the operation is one of another component that
    the journal already held.  A request that ends in an exception knows that
    it may have sent something, or sent nothing that went through. *)
Theorem provider_answers O P nfkc_casefold w0 s t q v r :
  fresh w0 → reaches O P nfkc_casefold w0 s → threads s !! t = Some (q, Some (Ret (v, r))) →
  (possible_send v = true ∨ unsent t (world s)) ∧ ∀ o, r = Ok o → Answer t q o (world s).
Proof.
  intros Hf Hs E. destruct (reaches_holds O P nfkc_casefold w0 Hf s Hs) as (I & _ & Ht).
  destruct (Ht _ _ _ E) as [Hl Hsafe]. apply (Hsafe _ eq_refl (world s)); [apply R_refl | done | done].
Qed.

(** C17: Of the effects on one work that gateways have journaled, at most one is
    unresolved, however many requests race for the work; and of the creations
    under one parent at most one is. *)
Theorem provider_fence O P nfkc_casefold w0 s t1 t2 op1 op2 fence work :
  fresh w0 → reaches O P nfkc_casefold w0 s → known_work w0 work → fence_target fence = Some work →
  (t1, e_prepared op1 fence) ∈ trace (world s) → (t2, e_prepared op2 fence) ∈ trace (world s) →
  unresolved (enrolled w0) op1 (world s) → unresolved (enrolled w0) op2 (world s) → op1 = op2.
Proof.
  intros Hf Hs Hx Hfence H1 H2 U1 U2. destruct (reaches_holds O P nfkc_casefold w0 Hf s Hs) as (I & _ & _).
  destruct fence as [b target]. cbn in Hfence. subst. by apply (inv_fence _ _ _ I t1 t2 op1 op2 b work).
Qed.

(** ** A concrete provider *)

Definition ex_pw_work : uuid := "00000000-0000-4000-8000-000000000001"%string.
Definition ex_pw_grant : WorkGrant :=
  mkGrant "g1" 1 ex_principal (mkAuthority ex_pw_work []) workspace [work_append; work_update; work_relate; work_create]
    "iss" "prov" (Datetime 1000 (Some 0)) g_active (Some "test:q"%string) (Some "test:q"%string) None (Some "test:q"%string)
    (Some "test:q"%string) None.
Definition ex_pw : PWorld :=
  mkPWorld (mkDB {[principal_key ex_principal := Some ex_pw_grant]} ∅)
    (mkStateDB [mkHandle ex_pw_work "asana" "42"] []) [] [] 0.

Definition ex_providers : Providers :=
  mkProviders (eqb "asana"%string) (λ _, true) (λ _, true) (λ _, true) (λ _, transient).

(** It holds one task, and answers every mutation with [reply]. *)
Definition ex_outside (reply : res unit) : Outside := {|
  o_clock := λ _, 5;
  o_fault := λ _, no_fault;
  o_get := λ _ _ _, Ok (Some (mkProviderWork "title" "old" false "r1" ex_routing (mkContext None []) true));
  o_task := λ _ _ _, Ok (Some (mkSourceTask "title" "old" false "r1" (mkContext None []) true));
  o_story := λ _ task gid _, Ok (Some (mkStory gid task None (Some "hello"%string) "t" None));
  o_matches := λ _ _ _ _, Ok true;
  o_identity := λ _ _, Ok "id"%string;
  o_recover := λ _ _ _ _ _, Ok None;
  o_append := λ _ _ _ _, reply ≫= λ _, Ok (Some "s1"%string);
  o_create := λ _ _ _ _ _ _ _, reply ≫= λ _, Ok "43"%string;
  o_update := λ _ _ _ _, reply;
  o_relate := λ _ _ _ _, reply |}.

Definition ex_fold (s : string) : string := s.

(** The state after the schedule [l]. *)
Definition ex_state (reply : res unit) (l : list (Action (Q := ProviderRequest))) : PSys :=
  default (mkSys ex_pw ∅) (schedule (perform (ex_outside reply)) ready crash (code ex_providers ex_fold) l (mkSys ex_pw ∅)).

(** Thread [t] runs the request [q], which makes [n] calls. *)
Definition ex_runs (t : nat) (q : ProviderRequest) (n : nat) : list (Action (Q := ProviderRequest)) :=
  a_start t q :: replicate n (a_call t).

Definition answered (t : nat) (s : PSys) : option GuardOutcome :=
  match threads s !! t with Some (_, Some (Ret (_, Ok o))) => Some o | _ => None end.

Lemma ex_reaches reply l : reaches (ex_outside reply) ex_providers ex_fold ex_pw (ex_state reply l).
Proof.
  unfold ex_state. destruct (schedule _ _ _ _ _ _) as [s|] eqn:E; cbn.
  - by apply (schedule_reachable _ _ _ others _ ex_pw l).
  - apply rtc_refl.
Qed.

Lemma ex_fresh : fresh ex_pw.
Proof. done. Qed.

Lemma ex_enrolled : enrolled ex_pw (principal_key ex_principal).
Proof. exists (Some ex_pw_grant). vm_compute. reflexivity. Qed.

Definition ex_hello (op : uuid) : ProviderRequest := q_append ex_principal (mkAppend op ex_pw_work 1 "r1" "hello" false).

(** An append, and its retry. *)
Definition ex_retried : PSys := ex_state (Ok tt) (ex_runs 0 (ex_hello "op1") 12 ++ ex_runs 1 (ex_hello "op1") 4).
(** An append whose answer is lost, and a rival append of another text. *)
Definition ex_lost : PSys :=
  ex_state (raise UnknownEffect "lost")
    (ex_runs 0 (ex_hello "op1") 10 ++
     ex_runs 1 (q_append ex_principal (mkAppend "op2" ex_pw_work 1 "r1" "other" false)) 4).

Lemma ex_retried_reaches : reaches (ex_outside (Ok tt)) ex_providers ex_fold ex_pw ex_retried.
Proof. apply ex_reaches. Qed.

Lemma ex_lost_reaches : reaches (ex_outside (raise UnknownEffect "lost")) ex_providers ex_fold ex_pw ex_lost.
Proof. apply ex_reaches. Qed.

Lemma provider_requests_witness :
  length (acts 0 (world ex_retried)) = 4%nat ∧
  History (ex_hello "op1") (world ex_retried) (acts 0 (world ex_retried)).
Proof.
  split; [vm_compute; reflexivity|].
  destruct (threads ex_retried !! 0%nat) as [[q o]|] eqn:E.
  - assert (Hq : fst <$> threads ex_retried !! 0%nat = Some (ex_hello "op1")) by (vm_compute; reflexivity).
    rewrite E in Hq. injection Hq as ->.
    apply (provider_requests (ex_outside (Ok tt)) ex_providers ex_fold ex_pw ex_retried 0 (ex_hello "op1") o ex_fresh ex_retried_reaches E).
  - exfalso. revert E. vm_compute. discriminate.
Defined.

Lemma provider_once_witness :
  reason <$> answered 1 ex_retried = Some "exact_effect_verified"%string ∧ 4%nat = 4%nat.
Proof.
  split; [vm_compute; reflexivity|].
  assert (H : trace (world ex_retried) !! 4%nat =
    Some (0%nat, e_sent "op1" (m_append "asana" "42" "hello") (Ok tt) (stored ex_pw))) by (vm_compute; reflexivity).
  exact (provider_once (ex_outside (Ok tt)) ex_providers ex_fold ex_pw ex_retried 4 4 0 0 "op1"
    (m_append "asana" "42" "hello") (m_append "asana" "42" "hello") (Ok tt) (Ok tt) (stored ex_pw) (stored ex_pw) ex_fresh
    ex_retried_reaches H H eq_refl eq_refl).
Defined.

Lemma provider_journal_witness :
  ∃ r rc, rows (world ex_retried) !! "op1"%string = Some r ∧ receipt (outcome r) = Some rc ∧ backed rc (world ex_retried).
Proof.
  assert (Hr : is_Some (rows (world ex_retried) !! "op1"%string)) by (vm_compute; by eexists).
  destruct (rows (world ex_retried) !! "op1"%string) as [r|] eqn:E; [|by destruct Hr].
  exists r. assert (Ha : (λ r, effect (outcome r)) <$> rows (world ex_retried) !! "op1"%string = Some applied) by (vm_compute; reflexivity).
  rewrite E in Ha. injection Ha as Ha.
  assert (Hp : prepared "op1" (world ex_retried)).
  { exists 0%nat, (mkFence false (Some ex_pw_work)). apply (list_elem_of_lookup_2 _ 2). vm_compute. reflexivity. }
  pose proof (provider_journal (ex_outside (Ok tt)) ex_providers ex_fold ex_pw ex_retried "op1" r ex_fresh ex_retried_reaches Hp E)
    as [_ H]. destruct (H Ha) as (rc & H1 & H2). exists rc. exact (conj eq_refl (conj H1 H2)).
Defined.

Lemma provider_answers_witness :
  ∃ o, answered 0 ex_retried = Some o ∧ effect o = applied ∧ Answer 0 (ex_hello "op1") o (world ex_retried).
Proof.
  assert (H : (λ x, (x.1, effect <$> (match x.2 with Some (Ret (_, Ok o)) => Some o | _ => None end)))
     <$> threads ex_retried !! 0%nat = Some (ex_hello "op1", Some applied)) by (vm_compute; reflexivity).
  unfold answered. destruct (threads ex_retried !! 0%nat) as [[q [[[v [o|e]]|]|]]|] eqn:E; try discriminate H.
  injection H as -> Ha.
  pose proof (provider_answers (ex_outside (Ok tt)) ex_providers ex_fold ex_pw ex_retried 0 (ex_hello "op1") v (Ok o) ex_fresh
    ex_retried_reaches E) as [_ Hans].
  exists o. exact (conj eq_refl (conj Ha (Hans o eq_refl))).
Defined.

Lemma provider_fence_witness :
  reason <$> answered 1 ex_lost = Some "target_has_unresolved_effect"%string ∧ "op1"%string = "op1"%string.
Proof.
  split; [vm_compute; reflexivity|].
  assert (He : (0%nat, e_prepared "op1" (mkFence false (Some ex_pw_work))) ∈ trace (world ex_lost)).
  { apply (list_elem_of_lookup_2 _ 2). vm_compute. reflexivity. }
  assert (Hu : unresolved (enrolled ex_pw) "op1" (world ex_lost)).
  { assert (Hr : is_unknown <$> rows (world ex_lost) !! "op1"%string = Some true) by (vm_compute; reflexivity).
    assert (Hk : principal_key_ <$> rows (world ex_lost) !! "op1"%string = Some (principal_key ex_principal))
      by (vm_compute; reflexivity).
    destruct (rows (world ex_lost) !! "op1"%string) as [r|] eqn:E; [|discriminate Hr].
    apply (inj Some) in Hr, Hk. exists r. split; [exact E|]. split; [exact Hr|]. rewrite Hk. apply ex_enrolled. }
  exact (provider_fence (ex_outside (raise UnknownEffect "lost")) ex_providers ex_fold ex_pw ex_lost 0 0 "op1" "op1"
    (mkFence false (Some ex_pw_work)) ex_pw_work ex_fresh ex_lost_reaches eq_refl eq_refl He He Hu Hu).
Defined.

(** ** An update that can never be sent *)

(** A patch of the next review action alone is a [ScalarPatch], and no
    [WorkPatch]. *)
Definition ex_strand : Patch := [(F_review_next_action, JStr "merge")].
Definition ex_update_of (op : uuid) (patch : Patch) : ProviderRequest :=
  q_update ex_principal (mkUpdate op ex_pw_work 1 "r1" patch false).
Definition ex_stranded : PSys :=
  ex_state (Ok tt)
    (ex_runs 0 (ex_update_of "op1" ex_strand) 9 ++ ex_runs 1 (ex_update_of "op1" ex_strand) 3 ++
     ex_runs 2 (ex_update_of "op2" [(F_title, JStr "title")]) 5).

(** An update that its request's contract accepts is journaled, and only then
    rejected by the stricter contract of the provider: nothing is sent, the
    operation stays unknown however often it is retried, and every other
    effect on the work is refused. *)
Theorem provider_update_strands :
  ScalarPatch_validate ex_strand = Ok ex_strand ∧
  reaches (ex_outside (Ok tt)) ex_providers ex_fold ex_pw ex_stranded ∧
  List.filter (λ x, is_sent x.2) (trace (world ex_stranded)) = [] ∧
  (λ r, effect (outcome r)) <$> rows (world ex_stranded) !! "op1"%string = Some unknown ∧
  (reason <$> answered 0 ex_stranded, reason <$> answered 1 ex_stranded, reason <$> answered 2 ex_stranded) =
    (Some "state_or_effect_unavailable", Some "state_or_effect_unavailable", Some "target_has_unresolved_effect")%string.
Proof.
  split; [vm_compute; reflexivity|]. split; [apply ex_reaches|]. split; [vm_compute; reflexivity|].
  split; vm_compute; reflexivity.
Qed.
